(* ===== verification/_CoqProject ===== *)
-Q . S2P
Prelude.v
BitMath.v
BitSet.v
Ring.v
QSpinlock.v
BuddyPage.v
Bitmap.v
Buddy.v
BuddyInit.v
BuddyAlloc.v
UInt128.v
CMem.v
CString.v
CNum.v
FixedPoint.v
Parse.v
Sort.v
TimerWheel.v
Timer.v
TimerApi.v
Rbt.v
RbtShape.v
RbtInv.v
RbtWalk.v
RbtInsert.v
RbtDelete.v
RbtApi.v
RbtCheck.v
AddressRange.v
IdSpace.v
Mpmc.v
MpmcSafe.v
ChaCha.v
Prng.v
Entropy.v
FixedSize.v
Vas.v
VasArena.v
VasOps.v
VasMag.v
VasLocal.v
VasSpace.v
VasApi.v
VasClient.v
