(* ===== verification/Prelude.v ===== *)
(** * A verification development for the charmos kernel

    charmos is a kernel for x86-64 written in C.  The development models
    parts of it as executable definitions translated from the sources under
    [src/] (file names below are relative to it), and proves what those parts
    promise their callers.  Definitions keep the names of the C functions; the
    loops of a function, and parts of one used twice, have names of their own.

    ** The parts and where they are

    Physical memory.  At boot [pmm_early_init] scans the memory map into a bitmap
    of pages, from which [bitmap_alloc_pages] serves until [buddy_init] has built
    the page array and the free lists; from then on [buddy_alloc_pages] and
    [buddy_free_pages] hand out aligned blocks.
    - [BuddyPage.v]: [include/mem/page.h], [kernel/mem/buddy/internal.h] and the
      free lists of [kernel/mem/buddy/core.c].
    - [Bitmap.v]: [kernel/mem/bitmap.c], the scan of [kernel/mem/pmm.c].
    - [Buddy.v], [BuddyAlloc.v]: allocating and freeing of
      [kernel/mem/buddy/core.c], the invariant [binv], the theorems.
    - [BuddyInit.v]: [kernel/mem/buddy/init.c], which establishes [binv].

    Synchronisation and queues.
    - [QSpinlock.v]: [kernel/sync/qspinlock.c] as a step system, one atomic access
      a step.
    - [Ring.v]: [kernel/structures/spsc_fifo_ring.c], in sequence ([Module Ring])
      and with producer and consumer interleaved ([Module Concurrent]).
    - [Mpmc.v]: [kernel/structures/mpmc_fifo_ring.c] and its header, the ring of
      many producers and consumers, as a step system.  [MpmcSafe.v]: its invariant,
      which gives every slot a phase, and the theorems.

    Timers.  The timer interrupt runs the due buckets of a per-CPU wheel, calls
    interrupt timers and queues the others for a DPC (a deferred procedure call).
    - [TimerWheel.v]: one [struct timer_base] of [kernel/time/timer.c].
    - [Timer.v]: the rest of [kernel/time/timer.c], over a [world] of timers and
      per-CPU structures.
    - [TimerApi.v]: the invariant [world_ok], the client's calls, the theorems.

    Ordered trees and their clients.  The red-black tree is intrusive: its nodes
    are part of the structures it orders, here in one memory of nodes.
    - [Rbt.v]: [kernel/structures/rbt.c], [include/structures/rbt.h].
    - [RbtShape.v]: the tree a memory holds, and rotations.  [RbtInv.v]: the
      red-black rules, the bound on the height and the laws of the comparison
      ([NodeOrder]).  [RbtWalk.v], [RbtInsert.v], [RbtDelete.v]: the loops.
    - [RbtApi.v]: the interface [tree_of], a tree as the list of its nodes, which is
      all that the clients use.  [RbtCheck.v]: the deep check, types, sequences.
    - [AddressRange.v]: [kernel/mem/address_range.c], the table of the kernel's
      address ranges.
    - [IdSpace.v]: [kernel/structures/id_space.c], the allocator of thread ids.

    Virtual addresses.  A space has a global arena of segments and one for every
    CPU, which imports chunks from it; magazines keep extents of common sizes.  The
    segments are nodes of red-black trees and objects of fixed size.
    - [FixedSize.v]: [kernel/mem/fixed_size_alloc.c], between two interfaces: pages
      ([PagePool]) and objects ([ObjAlloc]).
    - [Vas.v]: [kernel/mem/vas.c] over any [ObjAlloc].
    - [VasArena.v], [VasOps.v]: an arena as the list of its segments; cutting and
      merging.  [VasMag.v], [VasLocal.v]: the arena of a CPU with its magazines.
      [VasSpace.v], [VasApi.v]: the invariant [space_ok] of a space and every call
      on it.  [VasClient.v]: sequences of calls, the theorems, and an instance on
      [FixedSize.v].

    Bits and numbers.
    - [BitMath.v]: [include/math/bit.h], [include/math/align.h].
    - [BitSet.v]: [include/structures/bitmap.h], [include/structures/cpu_mask.h];
      used by the option parsers and the timers.  Of the CPU masks only what these
      use; the other functions pass their arguments on to the bitmaps.
    - [UInt128.v]: [kernel/types/ui128_t.c].
    - [FixedPoint.v]: [include/math/fixed.h], [kernel/math/fixed.c].

    Strings, options and sorting, over the byte memory of [CMem.v].
    - [CMem.v], [CString.v], [CNum.v]: [kernel/string.c] and [include/string.h].
    - [Parse.v]: [kernel/parse.c], a client of the three and of [BitSet.v].
    - [Sort.v]: [kernel/math/sort.c].

    Cryptography, over the byte memory of [CMem.v].
    - [ChaCha.v]: [kernel/crypto/chacha20.c], and RFC 8439 as the reference
      ([Module Rfc8439]).
    - [Prng.v]: [kernel/crypto/prng.c], the generator of a CPU, and SplitMix64 of its
      header.  [Entropy.v]: [kernel/crypto/entropy_pool.c].

    ** How code is modelled

    A function returns an [outcome]: [Ok], [Panic] for [panic] and a failing
    [enforce], [Fault] for a null dereference or an access outside an object.
    Integers are [Z] with the wrap-around of their width written out ([u64],
    [i32], ...); the kernel is compiled with [-fwrapv].  A structure is a record,
    an array or bitmap the list of its elements, a pointer into an array an
    index, a pointer to bytes or to a tree node an address.  Code outside a model is an argument
    with its laws as hypotheses: the allocator ([Valloc]), comparison functions
    ([Comparator]), timer functions, the clock event device, the page allocator
    ([PagePool]).

    ** What the theorems show

    - Buddy allocator: held blocks stay aligned and disjoint under any use by a
      client; each call's exact effect; no page is lost; when it panics; set-up
      finds room for the page array if there is any, and frees only usable pages
      and all of them in blocks without a reserved page.  Boot bitmap: the scan and, outside the case below,
      allocation are right.
    - Spinlock: mutual exclusion in every execution without the faulty retry, and
      an execution with it that has two owners.  Ring: first in, first out under
      every interleaving, what a call transfers while the other side goes on, and
      refinement of a byte queue.  Ring of many producers
      and consumers: under every interleaving no value is lost, given out twice or
      mixed up and no two agents meet at a slot; a call is refused only for a
      reason; alone, a call behaves as on a bounded queue.
    - Timers: the invariant from boot on under any sequence of allowed calls, none
      of which faults; what one run delivers; what adding, modifying and deleting
      do; no due timer is lost between the interrupt and the DPC.
    - Red-black tree: in every build, insertion, deletion, moving and putting back a
      node change the list of nodes as they should, keep the red-black rules and
      touch no other node; queries and iteration read the list; the deep check of
      the debug builds accepts exactly the red-black trees; every legal sequence of
      insertions and deletions runs without a fault and keeps the types of all
      words in memory.
    - Address ranges: set-up panics for stated reasons only, or every range has its
      place, by first fit, and no address is in two.  Ids: allocation takes the least run that is
      long enough, freeing gives back exactly the ids named, free runs are maximal.
    - Virtual addresses: under any sequence of calls by any CPUs the extents held
      are aligned and disjoint, freeing takes exactly what is held and panics
      otherwise, and a space can be destroyed exactly when nothing is held, also
      with chunks lent to CPUs and extents kept by magazines.  The same of the
      objects of the fixed-size allocator.
    - Bitmaps refine finite sets; 128-bit and fixed-point arithmetic agree with
      the integers; memory and string functions have their effect and no other;
      printing and reading numbers are inverse; the parsers accept exactly their
      grammar; sorting gives an ascending permutation.
    - Cryptography: encryption is that of RFC 8439, its own inverse and touches only
      the output; the generator gives out the key stream of its seed; the entropy
      pool implements an abstract pool under any sequence of calls.
    - Some theorems state what the code does where it does not do what it means
      to: [qspinlock_two_owners], [bitmap_alloc_pages_wraps],
      [strchr_misses_high_bytes], [fx_helpers_off], [add_static_same_base],
      [address_range_for_addr_end], [entropy_reseed_zero_key],
      [prng_seed_forgets], and parts of [strtol_correct] and
      [rbt_walk_correct].

    ** Bounds

    Loops are [loop fuel body]; running out of fuel is a [Fault].  Where the code
    bounds a loop the definition computes enough fuel from its arguments, and the
    theorems show that it returns.  The loops over timers take the fuel as an
    argument, and the theorems ask for more than there are timers in the base or
    in the queue.  Time in the timer theorems is below 2^62 microseconds, so that
    no time on the wheel wraps; CPU numbers are below 2^18, the field of the
    timer's flags.  The theorems on the ring of many producers are for at most 2^61
    steps and slots, so that no position wraps.  Requests to the buddy allocator are
    for at most 2^63 pages: for more the loop that computes the order does not end.
    Loops over a tree have as many rounds as there are nodes in memory, and one; the recursion of the deep check goes 130 levels down, more than
    the 128 at which the code panics, and no red-black tree of 64-bit addresses is
    so high.

    ** What is assumed and what is not modelled

    - Memory is sequentially consistent in the concurrent models.  Elsewhere
      functions run one after the other, as under their locks; the locks
      themselves, interrupt levels and preemption are not in those models.
    - The theorems on running timers are for functions of timers that do not call
      the timer operations.  A function that arms its own timer again, as the
      scheduler's tick, the watchdog and the status bar do, is outside them.  The
      wait of [timer_delete_sync] and [timer_shutdown_sync] for another CPU is
      defined, and no theorem says that it ends.
    - The search for a CPU's clock event device is an argument of [timers_init].
    - What the allocator returns to [id_space_free] and [id_space_init] is an
      argument: memory not in use, or null.
    - Not modelled yet: AVL, splay and radix trees, treaps and heaps, the other data
      structures, HyperLogLog and edit distance.
    - Not modelled: the scheduler, threads and the locks that block (context
      switches and interrupts in assembly), virtual memory and slab (page tables),
      drivers, ACPI, clock hardware and boot (registers and firmware), file
      systems and block layer, console, logging and test support. *)

From Stdlib Require Export ZArith Lia.
From stdpp Require Export prelude list gmap numbers.
#[export] Set Default Goal Selector "!".
Open Scope Z_scope.

(** ** Outcomes of kernel code

    A C function of the kernel either returns, calls [panic]/[enforce] with a
    failing condition, or runs into undefined behaviour (a null dereference or
    an access outside an array).  The three are kept apart, so that a theorem
    can say that a path panics, and that no path faults. *)
Inductive outcome (A : Type) : Type :=
  | Ok (a : A)
  | Panic
  | Fault.
Arguments Ok {A} a.
Arguments Panic {A}.
Arguments Fault {A}.

#[export] Instance outcome_ret : MRet outcome := fun A a => Ok a.
#[export] Instance outcome_bind : MBind outcome :=
  fun A B f m => match m with Ok a => f a | Panic => Panic | Fault => Fault end.

(** [enforce(c)]: continue when the condition holds, panic otherwise. *)
Definition enforce (c : bool) : outcome unit := if c then Ok tt else Panic.

(** Reading through a pointer or an array slot that may not exist. *)
Definition deref {A} (o : option A) : outcome A :=
  match o with Some a => Ok a | None => Fault end.

Lemma bind_Ok {A B} (f : A -> outcome B) a : (Ok a ≫= f) = f a.
Proof. reflexivity. Qed.

Lemma bind_Ok_inv {A B} (f : A -> outcome B) m b :
  (m ≫= f) = Ok b -> exists a, m = Ok a /\ f a = Ok b.
Proof. destruct m; cbn; naive_solver. Qed.

Lemma enforce_Ok c u : enforce c = Ok u <-> c = true.
Proof. destruct c, u; cbn; naive_solver. Qed.

(** ** Loops

    [loop n body s] runs a C loop: one round of [body] either continues with a
    new state ([inl]) or leaves the loop with a result ([inr]).  Running out of
    the [n] rounds is a [Fault], so a theorem that a loop returns also says
    that the rounds were enough. *)
Fixpoint loop {St R} (fuel : nat) (body : St -> outcome (St + R)) (s : St) : outcome R :=
  match fuel with
  | O => Fault
  | S n => r ← body s; match r with inl s' => loop n body s' | inr x => Ok x end
  end.

(** The rule of total correctness: an invariant with a measure below the number
    of rounds. *)
Lemma loop_total {St R} (body : St -> outcome (St + R)) (I : St -> nat -> Prop) (Q : R -> Prop) :
  (forall s n, I s n ->
    (exists s' n', body s = Ok (inl s') /\ (n' < n)%nat /\ I s' n') \/
    (exists r, body s = Ok (inr r) /\ Q r)) ->
  forall fuel s n, I s n -> (n < fuel)%nat -> exists r, loop fuel body s = Ok r /\ Q r.
Proof.
  intros Hb. induction fuel as [|fuel IH]; intros s n HI Hn; [lia|]. cbn [loop].
  destruct (Hb s n HI) as [(s' & n' & -> & Hn' & HI')|(r & -> & HQ)]; rewrite bind_Ok; [|by exists r].
  eapply IH; [exact HI'|lia].
Qed.

Lemma loop_step {St R} fuel (body : St -> outcome (St + R)) s s' :
  body s = Ok (inl s') -> loop (S fuel) body s = loop fuel body s'.
Proof. intros E. cbn [loop]. by rewrite E. Qed.
Lemma loop_done {St R} fuel (body : St -> outcome (St + R)) s r :
  body s = Ok (inr r) -> loop (S fuel) body s = Ok r.
Proof. intros E. cbn [loop]. by rewrite E. Qed.

(** More rounds do not change the result. *)
Lemma loop_mono {St R} (body : St -> outcome (St + R)) f1 :
  forall f2 s r, (f1 <= f2)%nat -> loop f1 body s = Ok r -> loop f2 body s = Ok r.
Proof.
  induction f1 as [|f1 IH]; intros f2 s r Hf H; [done|]. destruct f2 as [|f2]; [lia|].
  cbn [loop] in *. destruct (body s) as [[s'|x]| |]; try done. rewrite bind_Ok in *. apply IH; [lia|done].
Qed.

(** ** Machine integers

    A w-bit integer is a [Z]; [wrap w] is the reduction C performs when a value
    is stored in an unsigned type of that width and [sgn w] the conversion to
    the two's complement type. *)
Definition wrap (w x : Z) : Z := x `mod` 2 ^ w.
Definition sgn (w x : Z) : Z :=
  if wrap w x <? 2 ^ (w - 1) then wrap w x else wrap w x - 2 ^ w.

Abbreviation u8 := (wrap 8).
Abbreviation u16 := (wrap 16).
Abbreviation u32 := (wrap 32).
Abbreviation u64 := (wrap 64).
Abbreviation u128 := (wrap 128).
Abbreviation i32 := (sgn 32).
Abbreviation i64 := (sgn 64).
Abbreviation i128 := (sgn 128).

Definition in_u (w x : Z) : Prop := 0 <= x < 2 ^ w.
Definition in_s (w x : Z) : Prop := - 2 ^ (w - 1) <= x < 2 ^ (w - 1).

(** Bitwise complement at width [w]. *)
Definition not_w (w x : Z) : Z := Z.lxor (wrap w x) (Z.ones w).

(** [BIT(n)], include/math/bit.h. *)
Definition BIT (n : Z) : Z := u64 (Z.shiftl 1 n).

Create HintDb charm.
Create Rewrite HintDb charm.

Lemma wrap_range w x : 0 <= w -> in_u w (wrap w x).
Proof. intros. apply Z.mod_pos_bound, Z.pow_pos_nonneg; lia. Qed.

Lemma wrap_small w x : in_u w x -> wrap w x = x.
Proof. apply Z.mod_small. Qed.

Lemma wrap_wrap w x : wrap w (wrap w x) = wrap w x.
Proof. apply Zmod_mod. Qed.

Lemma wrap_add_l w x y : wrap w (wrap w x + y) = wrap w (x + y).
Proof. apply Zplus_mod_idemp_l. Qed.
Lemma wrap_add_r w x y : wrap w (x + wrap w y) = wrap w (x + y).
Proof. apply Zplus_mod_idemp_r. Qed.
Lemma wrap_sub_l w x y : wrap w (wrap w x - y) = wrap w (x - y).
Proof. apply Zminus_mod_idemp_l. Qed.
Lemma wrap_sub_r w x y : wrap w (x - wrap w y) = wrap w (x - y).
Proof. apply Zminus_mod_idemp_r. Qed.
Lemma wrap_mul_l w x y : wrap w (wrap w x * y) = wrap w (x * y).
Proof. apply Zmult_mod_idemp_l. Qed.
Lemma wrap_mul_r w x y : wrap w (x * wrap w y) = wrap w (x * y).
Proof. apply Zmult_mod_idemp_r. Qed.

#[export] Hint Rewrite wrap_wrap wrap_add_l wrap_add_r wrap_sub_l wrap_sub_r
  wrap_mul_l wrap_mul_r : charm.
#[export] Hint Resolve wrap_range : charm.

Lemma wrap_eq_intro w x y k : x = y + k * 2 ^ w -> wrap w x = wrap w y.
Proof. intros ->. apply Z_mod_plus_full. Qed.

Lemma wrap_eq_elim w x y :
  0 <= w -> wrap w x = wrap w y -> exists k, x = y + k * 2 ^ w.
Proof.
  intros Hw E. exists (x `div` 2 ^ w - y `div` 2 ^ w). unfold wrap in E.
  pose proof (Z.div_mod x (2 ^ w)). pose proof (Z.div_mod y (2 ^ w)).
  assert (2 ^ w <> 0) by (apply Z.pow_nonzero; lia). nia.
Qed.

Lemma sgn_range w x : 0 < w -> in_s w (sgn w x).
Proof.
  intros Hw. unfold sgn, in_s. pose proof (wrap_range w x ltac:(lia)) as [H1 H2].
  assert (2 ^ w = 2 * 2 ^ (w - 1)) by (rewrite <- Z.pow_succ_r by lia; f_equal; lia).
  case_match eqn:E; [apply Z.ltb_lt in E | apply Z.ltb_ge in E]; lia.
Qed.

Lemma sgn_small w x : 0 < w -> in_s w x -> sgn w x = x.
Proof.
  intros Hw [H1 H2]. unfold sgn.
  assert (2 ^ w = 2 * 2 ^ (w - 1)) by (rewrite <- Z.pow_succ_r by lia; f_equal; lia).
  destruct (decide (0 <= x)).
  - rewrite !wrap_small by (unfold in_u; lia).
    destruct (Z.ltb_spec x (2 ^ (w - 1))); lia.
  - assert (wrap w x = x + 2 ^ w) as ->.
    { rewrite <- (wrap_small w (x + 2 ^ w)) by (unfold in_u; lia).
      symmetry. apply (wrap_eq_intro w _ _ 1). lia. }
    destruct (Z.ltb_spec (x + 2 ^ w) (2 ^ (w - 1))); lia.
Qed.

Lemma wrap_sgn w x : 0 < w -> wrap w (sgn w x) = wrap w x.
Proof.
  intros Hw. unfold sgn. case_match; [apply wrap_wrap|].
  rewrite <- (wrap_wrap w x) at 2. apply (wrap_eq_intro w _ _ (-1)). lia.
Qed.

Lemma sgn_wrap w x : sgn w (wrap w x) = sgn w x.
Proof. unfold sgn. by rewrite wrap_wrap. Qed.

#[export] Hint Rewrite wrap_sgn sgn_wrap using lia : charm.

(** ** Reasoning bit by bit *)

Create Rewrite HintDb zbits.

Lemma testbit_wrap w x i :
  0 <= w -> Z.testbit (wrap w x) i = (i <? w) && Z.testbit x i.
Proof. apply Z.testbit_mod_pow2. Qed.

Lemma testbit_small w x i : in_u w x -> 0 <= w <= i -> Z.testbit x i = false.
Proof.
  intros Hx Hi. rewrite <- (wrap_small w x Hx), testbit_wrap by lia.
  by rewrite (proj2 (Z.ltb_ge i w)) by lia.
Qed.

Lemma testbit_ones_ltb n i :
  0 <= n -> Z.testbit (Z.ones n) i = (0 <=? i) && (i <? n).
Proof. apply Z.testbit_ones. Qed.

Lemma testbit_lnot x i : 0 <= i -> Z.testbit (Z.lnot x) i = negb (Z.testbit x i).
Proof. apply Z.lnot_spec. Qed.

Lemma testbit_shiftl x n i :
  0 <= i -> Z.testbit (Z.shiftl x n) i = Z.testbit x (i - n).
Proof. apply Z.shiftl_spec. Qed.

Lemma testbit_shiftr x n i :
  0 <= i -> Z.testbit (Z.shiftr x n) i = Z.testbit x (i + n).
Proof. apply Z.shiftr_spec. Qed.

Lemma testbit_1 i : Z.testbit 1 i = (i =? 0).
Proof.
  destruct (Z.eqb_spec i 0) as [->|]; [done|].
  destruct (decide (i < 0)); [by apply Z.testbit_neg_r|].
  change 1 with (2 ^ 0). rewrite Z.pow2_bits_false; [done|lia].
Qed.

Lemma testbit_pow2 n i : 0 <= n -> Z.testbit (2 ^ n) i = (i =? n).
Proof.
  intros. destruct (Z.eqb_spec i n) as [->|].
  - by apply Z.pow2_bits_true.
  - apply Z.pow2_bits_false. lia.
Qed.

#[export] Hint Rewrite Z.land_spec Z.lor_spec Z.lxor_spec Z.testbit_0_l : zbits.
#[export] Hint Rewrite testbit_wrap testbit_ones_ltb testbit_lnot testbit_shiftl
  testbit_shiftr testbit_1 testbit_pow2 using lia : zbits.

(** Decide every comparison on the bit index that [lia] can decide, split on
    the others. *)
Ltac zbits_split :=
  repeat match goal with
  | |- context [Z.ltb ?a ?b] => destruct (Z.ltb_spec a b); try lia
  | |- context [Z.leb ?a ?b] => destruct (Z.leb_spec a b); try lia
  | |- context [Z.eqb ?a ?b] => destruct (Z.eqb_spec a b); try lia
  end.

Ltac zbits_norm :=
  repeat progress (autorewrite with zbits; cbn [andb orb negb xorb];
    rewrite ?andb_true_r, ?andb_false_r, ?orb_true_r, ?orb_false_r,
      ?xorb_true_r, ?xorb_false_r).

Ltac zbits_neg :=
  repeat match goal with
  | |- context [Z.testbit ?x ?i] => rewrite (Z.testbit_neg_r x i) by lia
  end.

Ltac zbits :=
  apply Z.bits_inj'; intros ?i ?Hi;
  zbits_norm; zbits_split; zbits_norm; zbits_neg; zbits_norm;
  try reflexivity; try (f_equal; lia);
  try (repeat match goal with |- context [Z.testbit ?x ?i] => destruct (Z.testbit x i) end;
       reflexivity).

Lemma not_w_alt w x : 0 <= w -> not_w w x = wrap w (Z.lnot x).
Proof. intros. unfold not_w. zbits. Qed.

Lemma not_w_arith w x : 0 <= w -> in_u w x -> not_w w x = 2 ^ w - 1 - x.
Proof.
  intros Hw Hx. rewrite not_w_alt by done. unfold Z.lnot.
  assert (0 < 2 ^ w) by (apply Z.pow_pos_nonneg; lia).
  rewrite <- (wrap_small w (2 ^ w - 1 - x)) by (unfold in_u in *; lia).
  apply (wrap_eq_intro w _ _ (-1)). lia.
Qed.

Lemma land_ones_wrap w x : 0 <= w -> Z.land x (Z.ones w) = wrap w x.
Proof. apply Z.land_ones. Qed.

Lemma wrap_land w x y : 0 <= w -> wrap w (Z.land x y) = Z.land (wrap w x) (wrap w y).
Proof. intros. zbits. Qed.
Lemma wrap_lor w x y : 0 <= w -> wrap w (Z.lor x y) = Z.lor (wrap w x) (wrap w y).
Proof. intros. zbits. Qed.
Lemma wrap_lxor w x y : 0 <= w -> wrap w (Z.lxor x y) = Z.lxor (wrap w x) (wrap w y).
Proof. intros. zbits. Qed.

Lemma lor_range w x y : 0 <= w -> in_u w x -> in_u w y -> in_u w (Z.lor x y).
Proof.
  intros Hw Hx Hy. rewrite <- (wrap_small w x Hx), <- (wrap_small w y Hy), <- wrap_lor by done.
  by apply wrap_range.
Qed.
Lemma lxor_range w x y : 0 <= w -> in_u w x -> in_u w y -> in_u w (Z.lxor x y).
Proof.
  intros Hw Hx Hy. rewrite <- (wrap_small w x Hx), <- (wrap_small w y Hy), <- wrap_lxor by done.
  by apply wrap_range.
Qed.
Lemma land_range_l w x y : 0 <= w -> in_u w x -> in_u w (Z.land x y).
Proof.
  intros Hw Hx. rewrite <- (wrap_small w x Hx).
  replace (Z.land (wrap w x) y) with (wrap w (Z.land x y)) by zbits.
  by apply wrap_range.
Qed.
Lemma shiftr_range w x n : 0 <= w -> 0 <= n -> in_u w x -> in_u w (Z.shiftr x n).
Proof.
  intros Hw Hn [H1 H2]. rewrite Z.shiftr_div_pow2 by done.
  assert (0 < 2 ^ n) by (apply Z.pow_pos_nonneg; lia).
  split; [by apply Z.div_pos|]. apply Z.le_lt_trans with x; [|done].
  apply Z.div_le_upper_bound; nia.
Qed.

#[export] Hint Resolve lor_range lxor_range land_range_l shiftr_range : charm.

(** A value and one with disjoint bits: [lor] is addition. *)
Lemma lor_add_disjoint x y : Z.land x y = 0 -> Z.lor x y = x + y.
Proof. intros H. rewrite <- Z.lxor_lor by done. symmetry. by apply Z.add_nocarry_lxor. Qed.

Lemma BIT_pow n : 0 <= n < 64 -> BIT n = 2 ^ n.
Proof.
  intros. unfold BIT. rewrite Z.shiftl_1_l, wrap_small; [done|]. split; [lia|].
  apply Z.pow_lt_mono_r; lia.
Qed.

(** ** Arrays

    An array is a list indexed by [Z]; [aget]/[aset] are the checked accesses
    and fault outside the array, as the C program would be undefined there. *)
Definition aget {A} (l : list A) (i : Z) : outcome A :=
  if decide (0 <= i) then deref (l !! Z.to_nat i) else Fault.

Definition aset {A} (l : list A) (i : Z) (x : A) : outcome (list A) :=
  if decide (0 <= i < Z.of_nat (length l)) then Ok (<[Z.to_nat i := x]> l) else Fault.

(** [memcpy(dst + doff, src + soff, n)]. *)
Definition memcpy {A} (dst : list A) (doff : Z) (src : list A) (soff n : Z)
    : outcome (list A) :=
  if decide (0 <= doff /\ 0 <= soff /\ 0 <= n /\
             doff + n <= Z.of_nat (length dst) /\ soff + n <= Z.of_nat (length src))
  then Ok (take (Z.to_nat doff) dst
           ++ take (Z.to_nat n) (drop (Z.to_nat soff) src)
           ++ drop (Z.to_nat (doff + n)) dst)
  else Fault.

Lemma aget_Ok {A} (l : list A) i x :
  aget l i = Ok x <-> 0 <= i /\ l !! Z.to_nat i = Some x.
Proof.
  unfold aget. case_decide; [|naive_solver].
  destruct (l !! Z.to_nat i); cbn; naive_solver.
Qed.

Lemma aset_Ok {A} (l : list A) i x :
  0 <= i < Z.of_nat (length l) -> aset l i x = Ok (<[Z.to_nat i := x]> l).
Proof. intros. unfold aset. by rewrite decide_True. Qed.

Lemma memcpy_Ok {A} (dst : list A) doff src soff n :
  0 <= doff -> 0 <= soff -> 0 <= n ->
  doff + n <= Z.of_nat (length dst) -> soff + n <= Z.of_nat (length src) ->
  exists l, memcpy dst doff src soff n = Ok l /\ length l = length dst /\
    (forall k, 0 <= k < n ->
       l !! Z.to_nat (doff + k) = src !! Z.to_nat (soff + k)) /\
    (forall j, 0 <= j -> ~ (doff <= j < doff + n) -> l !! Z.to_nat j = dst !! Z.to_nat j).
Proof.
  intros. unfold memcpy. rewrite decide_True by lia. eexists; split; [done|].
  assert (length (take (Z.to_nat doff) dst) = Z.to_nat doff) as L1
    by (rewrite length_take; lia).
  assert (length (take (Z.to_nat n) (drop (Z.to_nat soff) src)) = Z.to_nat n) as L2
    by (rewrite length_take, length_drop; lia).
  split_and!.
  - rewrite !length_app, L1, L2, length_drop. lia.
  - intros k Hk. rewrite lookup_app_r, L1 by lia. rewrite lookup_app_l by (rewrite L2; lia).
    rewrite lookup_take_lt by lia. rewrite lookup_drop. f_equal. lia.
  - intros j Hj Hout. destruct (decide (j < doff)).
    + rewrite lookup_app_l by (rewrite L1; lia). rewrite lookup_take_lt by lia. done.
    + rewrite lookup_app_r, L1 by lia. rewrite lookup_app_r, L2 by lia.
      rewrite lookup_drop. f_equal. lia.
Qed.

(** ** Filters *)

Lemma filter_all {A} (P : A -> Prop) `{!forall x, Decision (P x)} (l : list A) : (forall x, x ∈ l -> P x) -> filter P l = l.
Proof. induction l as [|x l IH]; intros Hn; [done|]. rewrite filter_cons_True by (apply Hn; by left). f_equal. apply IH. intros y Hy. apply Hn. by right. Qed.
Lemma filter_none {A} (P : A -> Prop) `{!forall x, Decision (P x)} (l : list A) : (forall x, x ∈ l -> ~ P x) -> filter P l = [].
Proof. induction l as [|x l IH]; intros Hn; [done|]. rewrite filter_cons_False by (apply Hn; by left). apply IH. intros y Hy. apply Hn. by right. Qed.
