(* ===== verification/BitMath.v ===== *)
(** * Bit manipulation and alignment

    Models the statement-expression macros of [include/math/bit.h] and
    [include/math/align.h] at the type [size_t]/[uint64_t] (or at the width
    given as an argument), with their [enforce] checks as panics, and the
    integer power-of-two helpers with their loops. *)

From S2P Require Import Prelude.

(** ** Definitions *)

(** [ci_clzll]: count of leading zeros, undefined at zero. *)
Definition clzll (x : Z) : outcome Z :=
  if x =? 0 then Fault else Ok (63 - Z.log2 x).

(** [ci_ctzll]: count of trailing zeros, undefined at zero. *)
Fixpoint pos_ctz (p : positive) : Z :=
  match p with xO q => 1 + pos_ctz q | _ => 0 end.
Definition ctzll (x : Z) : outcome Z :=
  match x with Zpos p => Ok (pos_ctz p) | _ => Fault end.

(** The number of one bits: what the popcount builtin returns. *)
Fixpoint pos_popcount (p : positive) : Z :=
  match p with xH => 1 | xO q => pos_popcount q | xI q => 1 + pos_popcount q end.
Definition popcount (x : Z) : Z := match x with Zpos p => pos_popcount p | _ => 0 end.

Definition BIT_SET (w val n : Z) : outcome Z :=
  _ ← enforce ((0 <=? n) && (n <? w)); Ok (wrap w (Z.lor val (BIT n))).
Definition BIT_CLEAR (w val n : Z) : outcome Z :=
  _ ← enforce ((0 <=? n) && (n <? w)); Ok (wrap w (Z.land val (not_w 64 (BIT n)))).
Definition BIT_TEST (w val n : Z) : outcome bool :=
  _ ← enforce ((0 <=? n) && (n <? w)); Ok (negb (Z.land (Z.shiftr val n) 1 =? 0)).

(** The mask of bits [lo..hi] used by [BIT_MASK], [BIT_GET_FIELD], ... *)
Definition field_mask (lo hi : Z) : Z :=
  u64 (Z.shiftl (Z.shiftr (Z.ones 64) (63 - (hi - lo))) lo).
Definition BIT_GET_FIELD (w val lo hi : Z) : outcome Z :=
  _ ← enforce ((lo <=? hi) && (hi <? w));
  Ok (wrap w (Z.land (Z.shiftr val lo) (Z.shiftr (Z.ones 64) (63 - (hi - lo))))).
Definition BIT_SET_FIELD (w val field_val lo hi : Z) : outcome Z :=
  _ ← enforce ((lo <=? hi) && (hi <? w));
  let mask := field_mask lo hi in
  Ok (wrap w (Z.lor (Z.land val (not_w 64 mask))
                    (Z.land (u64 (Z.shiftl field_val lo)) mask))).


Definition SIZE_MAX : Z := 2 ^ 64 - 1.

(** The doubling loops; 64 doublings exhaust a [size_t]. *)
Fixpoint next_pow2_loop (fuel : nat) (p x : Z) : Z :=
  match fuel with
  | O => p
  | S fuel =>
      if p <? x then
        if Z.shiftr SIZE_MAX 1 <? p then p else next_pow2_loop fuel (u64 (Z.shiftl p 1)) x
      else p
  end.
Definition next_pow2 (x : Z) : Z := if x =? 0 then 1 else next_pow2_loop 64 1 x.


Definition IS_POW2 (x : Z) : bool := (0 <? x) && (Z.land x (x - 1) =? 0).

Definition ALIGN_DOWN (x align : Z) : outcome Z :=
  _ ← enforce (IS_POW2 align); Ok (Z.land x (not_w 64 (align - 1))).
Definition ALIGN_UP_WRAPPING (x align : Z) : Z :=
  let mask := u64 (align - 1) in Z.land (u64 (x + mask)) (not_w 64 mask).
Definition ALIGN_UP (x align : Z) : outcome Z :=
  let mask := u64 (align - 1) in
  let overflow := 2 ^ 64 <=? x + mask in
  _ ← enforce (IS_POW2 align && negb overflow);
  Ok (Z.land (u64 (x + mask)) (not_w 64 mask)).
Definition IS_ALIGNED (x align : Z) : outcome bool :=
  _ ← enforce (IS_POW2 align); Ok (Z.land x (align - 1) =? 0).
Definition DIV_ROUND_UP (n d : Z) : outcome Z :=
  _ ← enforce (0 <? d); Ok (u64 (n `div` d + (if n `mod` d =? 0 then 0 else 1))).

(** ** Bit counts *)

Lemma popcount_double y c : 0 <= y -> 0 <= c < 2 -> popcount (c + 2 * y) = c + popcount y.
Proof. intros Hy Hc. assert (c = 0 \/ c = 1) as [-> | ->] by lia; destruct y; done. Qed.

Lemma popcount_app n : forall b y, 0 <= b < 2 ^ Z.of_nat n -> 0 <= y ->
  popcount (b + 2 ^ Z.of_nat n * y) = popcount b + popcount y.
Proof.
  induction n as [|n IH]; intros b y Hb Hy; [assert (b = 0) as -> by (cbn in Hb; lia); change (2 ^ Z.of_nat 0) with 1; by rewrite Z.mul_1_l|].
  rewrite Nat2Z.inj_succ, Z.pow_succ_r in * by lia.
  pose proof (Z.div_mod b 2 ltac:(lia)) as Eb. pose proof (Z.mod_pos_bound b 2 ltac:(lia)).
  rewrite Eb at 2. rewrite (Z.add_comm _ (b mod 2)), popcount_double by lia.
  replace (b + 2 * 2 ^ Z.of_nat n * y) with (b mod 2 + 2 * (b / 2 + 2 ^ Z.of_nat n * y)) by lia.
  rewrite popcount_double by (try lia; apply Z.add_nonneg_nonneg; lia). rewrite IH by lia. lia.
Qed.

Lemma pos_ctz_spec p :
  0 <= pos_ctz p /\ Z.testbit (Zpos p) (pos_ctz p) = true /\ (2 ^ pos_ctz p | Zpos p).
Proof.
  induction p as [p _|p (H1 & H2 & H3)|]; cbn [pos_ctz].
  - split_and!; [done|done|apply Z.divide_1_l].
  - split_and!; [lia| |].
    + change (Zpos (xO p)) with (2 * Zpos p). rewrite Z.add_1_l. by rewrite Z.double_bits_succ.
    + change (Zpos (xO p)) with (2 * Zpos p). rewrite Z.pow_add_r by lia. by apply Z.mul_divide_mono_l.
  - split_and!; [done|done|apply Z.divide_1_l].
Qed.

(** [k] is the index of the lowest one bit of [a]. *)
Definition lowest_bit (a k : Z) : Prop := 0 <= k /\ Z.testbit a k = true /\ (2 ^ k | a).

Lemma ctzll_spec x : 0 < x -> exists k, ctzll x = Ok k /\ lowest_bit x k.
Proof. destruct x as [|p|p]; try lia. intros _. exists (pos_ctz p). split; [done|apply pos_ctz_spec]. Qed.

(** ** Powers of two *)

Lemma land_pred_pow2 x k : 0 <= k -> Z.land x (2 ^ k - 1) = x `mod` 2 ^ k.
Proof.
  intros. rewrite <- Z.land_ones by done. by rewrite Z.ones_equiv.
Qed.

Lemma IS_POW2_pow k : 0 <= k -> IS_POW2 (2 ^ k) = true.
Proof.
  intros. unfold IS_POW2. rewrite land_pred_pow2 by done.
  assert (0 < 2 ^ k) by (apply Z.pow_pos_nonneg; lia).
  rewrite Z.mod_same by lia. by rewrite (proj2 (Z.ltb_lt _ _)).
Qed.

Lemma IS_POW2_inv x : IS_POW2 x = true -> exists k, 0 <= k /\ x = 2 ^ k.
Proof.
  unfold IS_POW2. intros [H1 H2]%andb_true_iff.
  apply Z.ltb_lt in H1. apply Z.eqb_eq in H2.
  exists (Z.log2 x). split; [apply Z.log2_nonneg|].
  pose proof (Z.log2_spec x H1) as [Hlo Hhi].
  destruct (decide (x = 2 ^ Z.log2 x)) as [|Hne]; [done|]. exfalso.
  assert (Z.log2 (x - 1) = Z.log2 x) as Hl.
  { apply Z.log2_unique; [apply Z.log2_nonneg|]. lia. }
  assert (Z.testbit (Z.land x (x - 1)) (Z.log2 x) = true) as Hb.
  { rewrite Z.land_spec, Z.bit_log2 by lia. rewrite <- Hl, Z.bit_log2; [done|].
    pose proof (Z.pow_pos_nonneg 2 (Z.log2 x) ltac:(lia) (Z.log2_nonneg x)). lia. }
  by rewrite H2, Z.testbit_0_l in Hb.
Qed.

Lemma land_not_mask x k :
  0 <= k <= 64 -> in_u 64 x -> Z.land x (not_w 64 (2 ^ k - 1)) = x - x `mod` 2 ^ k.
Proof.
  intros Hk Hx.
  assert (Z.land x (not_w 64 (2 ^ k - 1)) = Z.ldiff x (Z.ones k)) as ->.
  { rewrite not_w_alt by lia. replace (2 ^ k - 1) with (Z.ones k) by (rewrite Z.ones_equiv; lia).
    apply Z.bits_inj'. intros i Hi. rewrite Z.ldiff_spec. zbits_norm.
    destruct (Z.ltb_spec i 64); [done|]. rewrite (testbit_small 64 x i Hx) by lia. done. }
  rewrite Z.ldiff_ones_r by lia. rewrite Z.shiftl_mul_pow2, Z.shiftr_div_pow2 by lia.
  pose proof (Z.div_mod x (2 ^ k)). assert (2 ^ k <> 0) by (apply Z.pow_nonzero; lia). lia.
Qed.

(** Rounding down gives the largest multiple not above the value. *)
Lemma ALIGN_DOWN_spec x k :
  0 <= k < 64 -> in_u 64 x ->
  ALIGN_DOWN x (2 ^ k) = Ok (2 ^ k * (x `div` 2 ^ k)).
Proof.
  intros Hk Hx. unfold ALIGN_DOWN. rewrite IS_POW2_pow by lia. cbn.
  rewrite land_not_mask by (done || lia). f_equal.
  pose proof (Z.div_mod x (2 ^ k)). assert (2 ^ k <> 0) by (apply Z.pow_nonzero; lia). lia.
Qed.

Lemma ALIGN_UP_spec x k :
  0 <= k < 64 -> in_u 64 x -> x + 2 ^ k <= 2 ^ 64 ->
  ALIGN_UP x (2 ^ k) = Ok (2 ^ k * ((x + 2 ^ k - 1) `div` 2 ^ k)).
Proof.
  intros Hk Hx Ho. unfold ALIGN_UP. rewrite IS_POW2_pow by lia.
  assert (0 < 2 ^ k) by (apply Z.pow_pos_nonneg; lia). destruct Hx as [Hx0 Hx1].
  rewrite (wrap_small 64 (2 ^ k - 1)) by (unfold in_u; lia).
  rewrite (proj2 (Z.leb_gt _ _)) by lia. cbn [negb andb enforce].
  rewrite bind_Ok. f_equal.
  rewrite (wrap_small 64 (x + _)) by (unfold in_u; lia).
  rewrite land_not_mask by (unfold in_u; lia).
  replace (x + (2 ^ k - 1)) with (x + 2 ^ k - 1) by lia.
  pose proof (Z.div_mod (x + 2 ^ k - 1) (2 ^ k)). lia.
Qed.

Lemma IS_POW2_64 a : in_u 64 a -> IS_POW2 a = true -> exists k, 0 <= k < 64 /\ a = 2 ^ k.
Proof.
  intros [_ Ha] (k & Hk & ->)%IS_POW2_inv. exists k. split; [|done]. split; [done|].
  apply (Z.pow_lt_mono_r_iff 2) in Ha; lia.
Qed.

(** A division rounded up to a multiple. *)
Lemma round_up_bounds x a :
  0 < a -> x <= a * ((x + a - 1) `div` a) < x + a.
Proof.
  intros Ha. pose proof (Z.div_mod (x + a - 1) a). pose proof (Z.mod_pos_bound (x + a - 1) a).
  lia.
Qed.

(** On a [size_t], [ALIGN_UP] either returns the least multiple of the
    alignment that is not below the value, or panics exactly when the alignment
    is not a power of two or the rounded value does not fit 64 bits; it never
    silently wraps. *)
Theorem ALIGN_UP_correct x a :
  in_u 64 x -> in_u 64 a ->
  match ALIGN_UP x a with
  | Ok y => (a | y) /\ x <= y < x + a /\ in_u 64 y
  | Panic => IS_POW2 a = false \/ 2 ^ 64 < x + a
  | Fault => False
  end.
Proof.
  intros Hx Ha. destruct (IS_POW2 a) eqn:Hp.
  - destruct (IS_POW2_64 a Ha Hp) as (k & Hk & ->).
    destruct (decide (x + 2 ^ k <= 2 ^ 64)) as [Ho|Ho].
    + rewrite ALIGN_UP_spec by done. unfold in_u in Hx.
      assert (0 < 2 ^ k) as Hpos by (apply Z.pow_pos_nonneg; lia).
      pose proof (round_up_bounds x (2 ^ k) Hpos).
      split; [by exists ((x + 2 ^ k - 1) `div` 2 ^ k); lia|]. split; [done|].
      split; [lia|]. enough (2 ^ k * ((x + 2 ^ k - 1) `div` 2 ^ k) <= 2 ^ 64 - 2 ^ k) by lia.
      replace (2 ^ 64 - 2 ^ k) with (2 ^ k * (2 ^ (64 - k) - 1)).
      2:{ replace (2 ^ 64) with (2 ^ k * 2 ^ (64 - k)) by (rewrite <- Z.pow_add_r by lia; f_equal; lia).
          lia. }
      apply Z.mul_le_mono_nonneg_l; [lia|].
      enough ((x + 2 ^ k - 1) `div` 2 ^ k < 2 ^ (64 - k)) by lia.
      apply Z.div_lt_upper_bound; [lia|]. rewrite <- Z.pow_add_r by lia.
      replace (k + (64 - k)) with 64 by lia. lia.
    + unfold ALIGN_UP. unfold in_u in Hx, Ha.
      rewrite (wrap_small 64 (2 ^ k - 1)) by (unfold in_u; lia).
      rewrite (proj2 (Z.leb_le _ _)) by lia. rewrite andb_false_r. cbn. right. lia.
  - unfold ALIGN_UP. rewrite Hp. cbn. by left.
Qed.

(** An instance: rounding 4097 up to a page gives 8192. *)
Lemma ALIGN_UP_correct_witness :
  ALIGN_UP 4097 4096 = Ok 8192 /\ (4096 | 8192) /\ 4097 <= 8192 < 4097 + 4096 /\ in_u 64 8192.
Proof.
  split; [vm_compute; reflexivity|].
  exact (ALIGN_UP_correct 4097 4096 ltac:(split; vm_compute; congruence)
                                    ltac:(split; vm_compute; congruence)).
Defined.

(** ** The doubling loops *)

Lemma half_SIZE_MAX : Z.shiftr SIZE_MAX 1 = 2 ^ 63 - 1.
Proof. reflexivity. Qed.

Lemma double_pow2 k : 0 <= k < 63 -> u64 (Z.shiftl (2 ^ k) 1) = 2 ^ (k + 1).
Proof.
  intros. rewrite Z.shiftl_mul_pow2 by lia. rewrite <- Z.pow_add_r by lia.
  apply wrap_small. split; [apply Z.pow_nonneg; lia|]. apply Z.pow_lt_mono_r; lia.
Qed.

Lemma next_pow2_loop_spec fuel k x :
  0 <= k <= 63 -> 63 - k < Z.of_nat fuel -> 2 ^ k < 2 * x ->
  exists m, k <= m <= 63 /\ next_pow2_loop fuel (2 ^ k) x = 2 ^ m /\
    2 ^ m < 2 * x /\ (x <= 2 ^ m \/ m = 63).
Proof.
  revert k. induction fuel as [|fuel IH]; intros k Hk Hf Hlo; [lia|].
  cbn [next_pow2_loop]. rewrite half_SIZE_MAX.
  destruct (Z.ltb_spec (2 ^ k) x).
  - destruct (Z.ltb_spec (2 ^ 63 - 1) (2 ^ k)) as [Hbig|Hbig].
    + exists k. split_and!; try lia. right.
      destruct (decide (k < 63)); [|lia].
      pose proof (Z.pow_lt_mono_r 2 k 63 ltac:(lia) ltac:(lia) ltac:(lia)). lia.
    + assert (k < 63). { destruct (decide (k = 63)); [subst; lia|lia]. }
      rewrite double_pow2 by lia.
      destruct (IH (k + 1)) as (m & ? & ? & ? & ?); [lia|lia| |].
      { rewrite Z.pow_add_r by lia. lia. }
      exists m. split_and!; try lia; done.
  - exists k. split_and!; try lia.
Qed.

(** [next_pow2] returns a power of two [2^m] that is the least one not
    below the argument whenever one fits ([x <= 2^63]), and saturates at [2^63]
    above. *)
Theorem next_pow2_correct x :
  in_u 64 x ->
  exists m, 0 <= m <= 63 /\ next_pow2 x = 2 ^ m /\
    (x <= 2 ^ 63 -> x <= 2 ^ m /\ (1 < x -> 2 ^ m < 2 * x)) /\
    (2 ^ 63 < x -> m = 63).
Proof.
  intros Hx. unfold next_pow2. unfold in_u in Hx. destruct (Z.eqb_spec x 0) as [->|Hne].
  - exists 0. split_and!; try lia.
  - destruct (next_pow2_loop_spec 64 0 x) as (m & Hm & Heq & Hlt & Hor); [lia|lia|lia|].
    change (2 ^ 0) with 1 in Heq. exists m. split_and!; try lia.
    + intros Hs. split; [|lia]. destruct Hor as [|E]; [done|]. rewrite E. done.
    + intros Hs. destruct Hor as [Hle|E]; [|done].
      destruct (decide (m = 63)); [done|].
      pose proof (Z.pow_le_mono_r 2 m 63 ltac:(lia) ltac:(lia)). lia.
Qed.

(** At the smallest argument above a power of two. *)
Lemma next_pow2_correct_witness :
  exists m, 0 <= m <= 63 /\ next_pow2 5 = 2 ^ m /\
    (5 <= 2 ^ 63 -> 5 <= 2 ^ m /\ (1 < 5 -> 2 ^ m < 2 * 5)) /\ (2 ^ 63 < 5 -> m = 63).
Proof. apply (next_pow2_correct 5). split; vm_compute; congruence. Defined.

(** ** Bit fields *)

Lemma testbit_field_mask lo hi i :
  0 <= lo <= hi -> hi < 64 -> 0 <= i ->
  Z.testbit (field_mask lo hi) i = (lo <=? i) && (i <=? hi).
Proof.
  intros. unfold field_mask. zbits_norm. destruct (Z.leb_spec lo i).
  - zbits_norm. zbits_split; done.
  - zbits_neg. by zbits_norm.
Qed.

(** Writing a bit field and reading it back gives the value written
    (truncated to the field), and every bit outside the field keeps its value. *)
Theorem BIT_FIELD_roundtrip w val v lo hi :
  0 <= lo <= hi -> hi < w -> w <= 64 -> in_u w val -> in_u 64 v ->
  exists val', BIT_SET_FIELD w val v lo hi = Ok val' /\ in_u w val' /\
    BIT_GET_FIELD w val' lo hi = Ok (wrap (hi - lo + 1) v) /\
    forall i, 0 <= i -> ~ (lo <= i <= hi) -> Z.testbit val' i = Z.testbit val i.
Proof.
  intros Hlo Hhi Hw Hval Hv. unfold BIT_SET_FIELD, BIT_GET_FIELD.
  rewrite (proj2 (Z.leb_le lo hi)), (proj2 (Z.ltb_lt hi w)) by lia. cbn [andb enforce].
  rewrite !bind_Ok. eexists. split; [done|]. split; [apply wrap_range; lia|]. split.
  - rewrite bind_Ok. f_equal. apply Z.bits_inj'. intros i Hi. unfold not_w. zbits_norm.
    rewrite !testbit_field_mask by lia. zbits_norm. zbits_split; zbits_norm; try done.
    all: f_equal; lia.
  - intros i Hi Hout. unfold not_w. zbits_norm. rewrite !testbit_field_mask by lia.
    zbits_split; zbits_norm; try done.
    all: symmetry; apply (testbit_small w); [done|lia].
Qed.

(** The field [5,11] of a word. *)
Lemma BIT_FIELD_roundtrip_witness :
  exists val', BIT_SET_FIELD 64 4095 9 5 11 = Ok val' /\ in_u 64 val' /\
    BIT_GET_FIELD 64 val' 5 11 = Ok (wrap (11 - 5 + 1) 9) /\
    forall i, 0 <= i -> ~ (5 <= i <= 11) -> Z.testbit val' i = Z.testbit 4095 i.
Proof.
  apply (BIT_FIELD_roundtrip 64 4095 9 5 11); try lia; split; vm_compute; congruence.
Defined.
