(* ===== verification/BitSet.v ===== *)
(** * Word bitmaps and CPU masks

    [include/structures/bitmap.h], [include/structures/bitmap_types.h] and
    the iteration macros of [include/structures/cpu_mask.h].  A bitmap is the list of its 64-bit words;
    an access outside the words is a fault.  The atomic variants are the same
    read-modify-write of one word in one step.  The two- and three-operand
    functions read and write the words at one index at a time, so a destination
    that is also a source gives the same result as a copy. *)

From S2P Require Import Prelude BitMath.

Definition BITMAP_BITS_PER_WORD : Z := 64.
Definition WORD_ONES : Z := 2 ^ 64 - 1.

Definition bitmap_words (nbits : Z) : Z :=
  nbits `div` BITMAP_BITS_PER_WORD + (if nbits `mod` BITMAP_BITS_PER_WORD =? 0 then 0 else 1).
Definition BITMAP_WORD_INDEX (bit : Z) : Z := bit `div` BITMAP_BITS_PER_WORD.
Definition BITMAP_BIT_OFFSET (bit : Z) : Z := bit `mod` BITMAP_BITS_PER_WORD.
Definition BITMAP_BIT_MASK (bit : Z) : Z := BIT (BITMAP_BIT_OFFSET bit).

(** ** Single bits *)

Definition bitmap_set (map : list Z) (bit : Z) : outcome (list Z) :=
  w ← aget map (BITMAP_WORD_INDEX bit);
  aset map (BITMAP_WORD_INDEX bit) (Z.lor w (BITMAP_BIT_MASK bit)).
Definition bitmap_clear (map : list Z) (bit : Z) : outcome (list Z) :=
  w ← aget map (BITMAP_WORD_INDEX bit);
  aset map (BITMAP_WORD_INDEX bit) (Z.land w (not_w 64 (BITMAP_BIT_MASK bit))).
Definition bitmap_toggle (map : list Z) (bit : Z) : outcome (list Z) :=
  w ← aget map (BITMAP_WORD_INDEX bit);
  aset map (BITMAP_WORD_INDEX bit) (Z.lxor w (BITMAP_BIT_MASK bit)).
Definition bitmap_test (map : list Z) (bit : Z) : outcome bool :=
  w ← aget map (BITMAP_WORD_INDEX bit);
  Ok (negb (Z.land w (BITMAP_BIT_MASK bit) =? 0)).
Definition bitmap_test_and_set (map : list Z) (bit : Z) : outcome (list Z * bool) :=
  old ← bitmap_test map bit; map ← bitmap_set map bit; Ok (map, old).
Definition bitmap_test_and_clear (map : list Z) (bit : Z) : outcome (list Z * bool) :=
  old ← bitmap_test map bit; map ← bitmap_clear map bit; Ok (map, old).

(** One atomic read-modify-write of the word that holds the bit, with the old
    value of the word. *)
Definition word_fetch (f : Z -> Z) (map : list Z) (bit : Z) : outcome (list Z * Z) :=
  w ← aget map (BITMAP_WORD_INDEX bit);
  map ← aset map (BITMAP_WORD_INDEX bit) (f w);
  Ok (map, w).
Definition bitmap_atomic_set (map : list Z) (bit : Z) : outcome (list Z) :=
  r ← word_fetch (fun w => Z.lor w (BIT (BITMAP_BIT_OFFSET bit))) map bit; Ok r.1.
Definition bitmap_atomic_clear (map : list Z) (bit : Z) : outcome (list Z) :=
  r ← word_fetch (fun w => Z.land w (not_w 64 (BIT (BITMAP_BIT_OFFSET bit)))) map bit; Ok r.1.
Definition bitmap_atomic_toggle (map : list Z) (bit : Z) : outcome (list Z) :=
  r ← word_fetch (fun w => Z.lxor w (BIT (BITMAP_BIT_OFFSET bit))) map bit; Ok r.1.
Definition bitmap_atomic_test (map : list Z) (bit : Z) : outcome bool :=
  w ← aget map (BITMAP_WORD_INDEX bit);
  Ok (negb (Z.land w (BIT (BITMAP_BIT_OFFSET bit)) =? 0)).
Definition bitmap_atomic_test_and_set (map : list Z) (bit : Z) : outcome (list Z * bool) :=
  r ← word_fetch (fun w => Z.lor w (BIT (BITMAP_BIT_OFFSET bit))) map bit;
  Ok (r.1, negb (Z.land r.2 (BIT (BITMAP_BIT_OFFSET bit)) =? 0)).
Definition bitmap_atomic_test_and_clear (map : list Z) (bit : Z) : outcome (list Z * bool) :=
  r ← word_fetch (fun w => Z.land w (not_w 64 (BIT (BITMAP_BIT_OFFSET bit)))) map bit;
  Ok (r.1, negb (Z.land r.2 (BIT (BITMAP_BIT_OFFSET bit)) =? 0)).

(** ** Whole bitmaps *)

(** [for (i = 0; i < words; i++) dst[i] = f(i)] *)
Fixpoint words_fill (f : Z -> outcome Z) (n : nat) (i : Z) (dst : list Z) : outcome (list Z) :=
  match n with
  | O => Ok dst
  | S n => v ← f i; dst ← aset dst i v; words_fill f n (i + 1) dst
  end.

Definition bitmap_zero (map : list Z) (nbits : Z) : outcome (list Z) :=
  words_fill (fun _ => Ok 0) (Z.to_nat (bitmap_words nbits)) 0 map.
Definition bitmap_copy (dst src : list Z) (nbits : Z) : outcome (list Z) :=
  words_fill (fun i => aget src i) (Z.to_nat (bitmap_words nbits)) 0 dst.
(** The loop runs while [i * 64 < nbits], that is for every word. *)
Definition fill_word (nbits i : Z) : Z :=
  let left := nbits - i * BITMAP_BITS_PER_WORD in
  if BITMAP_BITS_PER_WORD <=? left then WORD_ONES else u64 (Z.shiftl 1 left) - 1.
Definition bitmap_fill (map : list Z) (nbits : Z) : outcome (list Z) :=
  words_fill (fun i => Ok (fill_word nbits i)) (Z.to_nat (bitmap_words nbits)) 0 map.

Fixpoint range_loop (op : list Z -> Z -> outcome (list Z)) (n : nat) (start i : Z) (map : list Z)
    : outcome (list Z) :=
  match n with
  | O => Ok map
  | S n => map ← op map (start + i); range_loop op n start (i + 1) map
  end.
Definition bitmap_set_range (map : list Z) (start len : Z) : outcome (list Z) :=
  range_loop bitmap_set (Z.to_nat len) start 0 map.
Definition bitmap_clear_range (map : list Z) (start len : Z) : outcome (list Z) :=
  range_loop bitmap_clear (Z.to_nat len) start 0 map.

Definition words_op (f : Z -> Z -> Z) (dst src1 src2 : list Z) (nbits : Z) : outcome (list Z) :=
  words_fill (fun i => a ← aget src1 i; b ← aget src2 i; Ok (f a b)) (Z.to_nat (bitmap_words nbits)) 0 dst.
Definition bitmap_and := words_op Z.land.
Definition bitmap_or := words_op Z.lor.
Definition bitmap_xor := words_op Z.lxor.
Definition bitmap_andnot := words_op (fun a b => Z.land a (not_w 64 b)).

(** [for (i = 0; i < n; i++) if (!f(i)) return false; return true;] *)
Fixpoint words_all (f : Z -> outcome bool) (n : nat) (i : Z) : outcome bool :=
  match n with
  | O => Ok true
  | S n => b ← f i; if (b : bool) then words_all f n (i + 1) else Ok false
  end.
Definition bitmap_equal (src1 src2 : list Z) (nbits : Z) : outcome bool :=
  words_all (fun i => a ← aget src1 i; b ← aget src2 i; Ok (a =? b)) (Z.to_nat (bitmap_words nbits)) 0.
Definition bitmap_intersects (src1 src2 : list Z) (nbits : Z) : outcome bool :=
  r ← words_all (fun i => a ← aget src1 i; b ← aget src2 i; Ok (Z.land a b =? 0)) (Z.to_nat (bitmap_words nbits)) 0;
  Ok (negb r).
Definition bitmap_subset (subset superset : list Z) (nbits : Z) : outcome bool :=
  words_all (fun i => a ← aget subset i; b ← aget superset i; Ok (Z.land a (not_w 64 b) =? 0))
    (Z.to_nat (bitmap_words nbits)) 0.
Definition bitmap_empty (map : list Z) (nbits : Z) : outcome bool :=
  words_all (fun i => a ← aget map i; Ok (a =? 0)) (Z.to_nat (bitmap_words nbits)) 0.
(** The bits of the last word that belong to the bitmap. *)
Definition last_mask (nbits : Z) : Z :=
  let rem := nbits `mod` BITMAP_BITS_PER_WORD in
  if rem =? 0 then WORD_ONES else u64 (Z.shiftl 1 rem) - 1.
Definition bitmap_full (map : list Z) (nbits : Z) : outcome bool :=
  let words := bitmap_words nbits in
  if words =? 0 then Ok true else
  r ← words_all (fun i => a ← aget map i; Ok (a =? WORD_ONES)) (Z.to_nat (words - 1)) 0;
  if (r : bool) then
    last ← aget map (words - 1); Ok (Z.land last (last_mask nbits) =? last_mask nbits)
  else Ok false.

Fixpoint weight_loop (map : list Z) (n : nat) (i count : Z) : outcome Z :=
  match n with
  | O => Ok count
  | S n => w ← aget map i; weight_loop map n (i + 1) (count + popcount w)
  end.
Definition bitmap_weight (map : list Z) (nbits : Z) : outcome Z :=
  let words := bitmap_words nbits in
  if words =? 0 then Ok 0 else
  count ← weight_loop map (Z.to_nat (words - 1)) 0 0;
  last ← aget map (words - 1);
  let rem := nbits `mod` BITMAP_BITS_PER_WORD in
  let last := if rem =? 0 then last else Z.land last (u64 (Z.shiftl 1 rem) - 1) in
  Ok (count + popcount last).

(** ** Searching *)

(** The first word from [i] on that is not zero after [f], and the number of its
    lowest one bit, cut off at [nbits]. *)
Fixpoint scan_words (f : Z -> Z) (map : list Z) (nbits : Z) (n : nat) (i : Z) : outcome Z :=
  match n with
  | O => Ok nbits
  | S n =>
      w ← aget map i;
      let w := f w in
      if negb (w =? 0) then
        z ← ctzll w;
        let bit := i * BITMAP_BITS_PER_WORD + z in
        Ok (if bit <? nbits then bit else nbits)
      else scan_words f map nbits n (i + 1)
  end.
Definition bitmap_find_first_set (map : list Z) (nbits : Z) : outcome Z :=
  scan_words (fun w => w) map nbits (Z.to_nat (bitmap_words nbits)) 0.
Definition bitmap_find_first_zero (map : list Z) (nbits : Z) : outcome Z :=
  scan_words (not_w 64) map nbits (Z.to_nat (bitmap_words nbits)) 0.

Definition find_next (f : Z -> Z) (map : list Z) (nbits start : Z) : outcome Z :=
  if nbits <=? start then Ok nbits else
  let word_index := BITMAP_WORD_INDEX start in
  let bit_offset := BITMAP_BIT_OFFSET start in
  w ← aget map word_index;
  let word := Z.land (f w) (u64 (Z.shiftl WORD_ONES bit_offset)) in
  if negb (word =? 0) then
    z ← ctzll word;
    let bit := word_index * BITMAP_BITS_PER_WORD + z in
    Ok (if bit <? nbits then bit else nbits)
  else scan_words f map nbits (Z.to_nat (bitmap_words nbits - (word_index + 1))) (word_index + 1).
Definition bitmap_find_next_bit := find_next (fun w => w).
Definition bitmap_find_next_zero_bit := find_next (not_w 64).

(** ** CPU masks *)

Definition CPU_MASK_BITS : Z := 128.
Definition CPU_MASK_WORDS : Z := bitmap_words CPU_MASK_BITS.
Definition CPU_MASK_INIT : list Z := replicate (Z.to_nat CPU_MASK_WORDS) 0.

Definition cpu_mask_init (m : list Z) : list Z := replicate (length m) 0.
(** An operation on one CPU does nothing for a number past the mask. *)
Definition cpu_guard {A} (cpu : Z) (op : outcome A) (d : A) : outcome A :=
  if cpu <? CPU_MASK_BITS then op else Ok d.
Definition cpu_mask_set (m : list Z) (cpu : Z) := cpu_guard cpu (bitmap_set m cpu) m.

(** [topo_global.cpu_count] is the argument [cpu_count]. *)
Definition cpu_mask_active_bits (cpu_count : Z) : Z :=
  if negb (cpu_count =? 0) && (cpu_count <=? CPU_MASK_BITS) then cpu_count else CPU_MASK_BITS.

(** The iteration macros, over a state [s] whose mask [mask s] the body may
    change while the loop runs. *)
Section iterate.
Context {St : Type} (cpu_count : Z) (mask : St -> list Z) (body : Z -> St -> outcome St).

Definition for_each_cpu_step (c : Z * St) : outcome ((Z * St) + St) :=
  if c.1 <? cpu_mask_active_bits cpu_count then
    s ← body c.1 c.2;
    cpu ← bitmap_find_next_bit (mask s) (cpu_mask_active_bits cpu_count) (c.1 + 1);
    Ok (inl (cpu, s))
  else Ok (inr c.2).
Definition for_each_cpu (fuel : nat) (s : St) : outcome St :=
  cpu ← bitmap_find_first_set (mask s) (cpu_mask_active_bits cpu_count);
  loop fuel for_each_cpu_step (cpu, s).

(** [cpu_mask_for_each_in] and [cpu_mask_for_each_clear_in], with [want] the
    value of the bits visited; the whole range is [start = 0] and [last] past
    the mask. *)
Definition for_each_in_step (want : bool) (last : Z) (c : Z * St) : outcome ((Z * St) + St) :=
  if (c.1 <? cpu_mask_active_bits cpu_count) && (c.1 <=? last) then
    b ← bitmap_test (mask c.2) c.1;
    s ← (if eqb b want then body c.1 c.2 else Ok c.2);
    Ok (inl (c.1 + 1, s))
  else Ok (inr c.2).
Definition cpu_mask_for_each_in (want : bool) (start last : Z) (fuel : nat) (s : St) : outcome St :=
  loop fuel (for_each_in_step want last) (start, s).
End iterate.

(** ** The set of bits *)

Definition word (map : list Z) (k : Z) : Z := default 0 (map !! Z.to_nat k).
(** Bit [i] of the bitmap. *)
Definition tb (map : list Z) (i : Z) : bool := Z.testbit (word map (i `div` 64)) (i `mod` 64).
(** The words of a bitmap with room for [nbits] bits. *)
Definition bm_wf (map : list Z) (nbits : Z) : Prop :=
  0 <= nbits /\ bitmap_words nbits <= Z.of_nat (length map) /\ Forall (in_u 64) map.

Lemma words_bound nbits : 0 <= nbits -> nbits <= 64 * bitmap_words nbits < nbits + 64 /\ 0 <= bitmap_words nbits.
Proof.
  intros Hn. unfold bitmap_words, BITMAP_BITS_PER_WORD. pose proof (Z.div_mod nbits 64). pose proof (Z.mod_pos_bound nbits 64).
  pose proof (Z.div_pos nbits 64). destruct (Z.eqb_spec (nbits `mod` 64) 0); lia.
Qed.

Lemma div_mod64 i : i = 64 * (i `div` 64) + i `mod` 64 /\ 0 <= i `mod` 64 < 64.
Proof. pose proof (Z.div_mod i 64). pose proof (Z.mod_pos_bound i 64). lia. Qed.

Lemma word_range map nbits k : bm_wf map nbits -> in_u 64 (word map k).
Proof.
  intros (_ & _ & F). unfold word. destruct (map !! Z.to_nat k) as [w|] eqn:E; [|done].
  by apply (Forall_lookup_1 _ _ _ _ F E).
Qed.
Lemma aget_word map nbits k : bm_wf map nbits -> 0 <= k < bitmap_words nbits -> aget map k = Ok (word map k).
Proof.
  intros (_ & Hl & _) Hk. apply aget_Ok. split; [lia|]. unfold word.
  destruct (lookup_lt_is_Some_2 map (Z.to_nat k)) as [w Hw]; [lia|]. by rewrite Hw.
Qed.
Lemma word_insert map k j w : 0 <= k < Z.of_nat (length map) -> 0 <= j ->
  word (<[Z.to_nat k := w]> map) j = if j =? k then w else word map j.
Proof.
  intros Hk Hj. unfold word. destruct (Z.eqb_spec j k) as [->|].
  - by rewrite list_lookup_insert_eq by lia.
  - by rewrite list_lookup_insert_ne by lia.
Qed.
Lemma wf_insert map nbits k w : bm_wf map nbits -> in_u 64 w -> bm_wf (<[k := w]> map) nbits.
Proof. intros (H1 & H2 & H3) Hw. split_and!; [done|by rewrite length_insert|by apply Forall_insert]. Qed.

Lemma index_range nbits bit : 0 <= bit < nbits -> 0 <= bit `div` 64 < bitmap_words nbits.
Proof.
  intros Hb. destruct (words_bound nbits ltac:(lia)). pose proof (div_mod64 bit). pose proof (Z.div_pos bit 64). lia.
Qed.

(** One word rewritten: what holds of its bits holds of the bits of the map. *)
Lemma update_word map nbits bit (g : Z -> Z) (h : bool -> bool) :
  bm_wf map nbits -> 0 <= bit < nbits -> (forall w, in_u 64 w -> in_u 64 (g w)) ->
  (forall w j, in_u 64 w -> 0 <= j < 64 ->
     Z.testbit (g w) j = if j =? bit `mod` 64 then h (Z.testbit w j) else Z.testbit w j) ->
  exists map', aset map (bit `div` 64) (g (word map (bit `div` 64))) = Ok map' /\ bm_wf map' nbits /\
    forall i, 0 <= i -> tb map' i = if i =? bit then h (tb map i) else tb map i.
Proof.
  intros Hwf Hb Hg Ht. pose proof (index_range nbits bit Hb) as Hi. destruct (Hwf) as (_ & Hl & _).
  exists (<[Z.to_nat (bit `div` 64) := g (word map (bit `div` 64))]> map). split_and!.
  - apply aset_Ok. lia.
  - apply wf_insert; [done|]. apply Hg. by apply (word_range map nbits).
  - intros i Hi0. unfold tb. pose proof (div_mod64 i) as [Ei Ri]. pose proof (div_mod64 bit) as [Eb Rb].
    pose proof (Z.div_pos i 64 Hi0 ltac:(lia)). rewrite word_insert by lia.
    destruct (Z.eqb_spec (i `div` 64) (bit `div` 64)) as [E|E].
    + rewrite Ht by (lia || by apply (word_range map nbits)). rewrite E.
      destruct (Z.eqb_spec (i `mod` 64) (bit `mod` 64)), (Z.eqb_spec i bit); try done; lia.
    + destruct (Z.eqb_spec i bit) as [->|]; [done|done].
Qed.

Lemma BIT_bits n j : 0 <= n < 64 -> 0 <= j -> Z.testbit (BIT n) j = (j =? n).
Proof. intros Hn Hj. rewrite BIT_pow by done. apply testbit_pow2. lia. Qed.
Lemma BIT_range n : 0 <= n < 64 -> in_u 64 (BIT n).
Proof. intros. unfold BIT. by apply wrap_range. Qed.

Section bits.
Context (map : list Z) (nbits bit : Z) (Hwf : bm_wf map nbits) (Hb : 0 <= bit < nbits).

Let Hoff : 0 <= bit `mod` 64 < 64.
Proof. apply div_mod64. Qed.

Lemma bitmap_set_spec : exists map', bitmap_set map bit = Ok map' /\ bm_wf map' nbits /\
  forall i, 0 <= i -> tb map' i = if i =? bit then true else tb map i.
Proof using Hwf Hb.
  unfold bitmap_set, BITMAP_WORD_INDEX, BITMAP_BIT_MASK, BITMAP_BIT_OFFSET, BITMAP_BITS_PER_WORD.
  rewrite (aget_word map nbits) by (done || by apply index_range). rewrite bind_Ok.
  apply (update_word map nbits bit (fun w => Z.lor w _) (fun _ => true)); [done|done| |].
  - intros w Hw. apply lor_range; [lia|done|by apply BIT_range].
  - intros w j Hw Hj. rewrite Z.lor_spec, BIT_bits by lia.
    destruct (j =? bit `mod` 64); [apply orb_true_r|apply orb_false_r].
Qed.
Lemma bitmap_clear_spec : exists map', bitmap_clear map bit = Ok map' /\ bm_wf map' nbits /\
  forall i, 0 <= i -> tb map' i = if i =? bit then false else tb map i.
Proof using Hwf Hb.
  unfold bitmap_clear, BITMAP_WORD_INDEX, BITMAP_BIT_MASK, BITMAP_BIT_OFFSET, BITMAP_BITS_PER_WORD.
  rewrite (aget_word map nbits) by (done || by apply index_range). rewrite bind_Ok.
  apply (update_word map nbits bit (fun w => Z.land w _) (fun _ => false)); [done|done| |].
  - intros w Hw. by apply land_range_l.
  - intros w j Hw Hj. rewrite Z.land_spec, not_w_alt, testbit_wrap, testbit_lnot, BIT_bits by lia.
    rewrite (proj2 (Z.ltb_lt j 64)) by lia. destruct (j =? bit `mod` 64); [apply andb_false_r|apply andb_true_r].
Qed.
Lemma bitmap_toggle_spec : exists map', bitmap_toggle map bit = Ok map' /\ bm_wf map' nbits /\
  forall i, 0 <= i -> tb map' i = if i =? bit then negb (tb map i) else tb map i.
Proof using Hwf Hb.
  unfold bitmap_toggle, BITMAP_WORD_INDEX, BITMAP_BIT_MASK, BITMAP_BIT_OFFSET, BITMAP_BITS_PER_WORD.
  rewrite (aget_word map nbits) by (done || by apply index_range). rewrite bind_Ok.
  apply (update_word map nbits bit (fun w => Z.lxor w _) negb); [done|done| |].
  - intros w Hw. apply lxor_range; [lia|done|by apply BIT_range].
  - intros w j Hw Hj. rewrite Z.lxor_spec, BIT_bits by lia.
    destruct (j =? bit `mod` 64); [apply xorb_true_r|apply xorb_false_r].
Qed.
Lemma bitmap_test_spec : bitmap_test map bit = Ok (tb map bit).
Proof using Hwf Hb.
  unfold bitmap_test, BITMAP_WORD_INDEX, BITMAP_BIT_MASK, BITMAP_BIT_OFFSET, BITMAP_BITS_PER_WORD.
  rewrite (aget_word map nbits) by (done || by apply index_range). rewrite bind_Ok. f_equal. unfold tb.
  set (w := word map (bit `div` 64)). set (o := bit `mod` 64) in *. rewrite BIT_pow by done.
  destruct (Z.testbit w o) eqn:E.
  - destruct (Z.eqb_spec (Z.land w (2 ^ o)) 0) as [E0|]; [|done].
    apply (f_equal (fun x => Z.testbit x o)) in E0. by rewrite Z.land_spec, E, testbit_pow2, Z.eqb_refl, Z.bits_0 in E0 by lia.
  - rewrite (proj2 (Z.eqb_eq _ _)); [done|]. apply Z.bits_inj'. intros j Hj.
    rewrite Z.land_spec, Z.bits_0, testbit_pow2 by lia. destruct (Z.eqb_spec j o) as [->|]; [by rewrite E|apply andb_false_r].
Qed.
End bits.

Lemma bitmap_test_and_set_spec map nbits bit : bm_wf map nbits -> 0 <= bit < nbits ->
  exists map', bitmap_test_and_set map bit = Ok (map', tb map bit) /\ bm_wf map' nbits /\
  forall i, 0 <= i -> tb map' i = if i =? bit then true else tb map i.
Proof.
  intros Hwf Hb. unfold bitmap_test_and_set. rewrite (bitmap_test_spec map nbits bit Hwf Hb), bind_Ok.
  destruct (bitmap_set_spec map nbits bit Hwf Hb) as (m' & -> & ?). rewrite bind_Ok. eauto.
Qed.
Lemma bitmap_test_and_clear_spec map nbits bit : bm_wf map nbits -> 0 <= bit < nbits ->
  exists map', bitmap_test_and_clear map bit = Ok (map', tb map bit) /\ bm_wf map' nbits /\
  forall i, 0 <= i -> tb map' i = if i =? bit then false else tb map i.
Proof.
  intros Hwf Hb. unfold bitmap_test_and_clear. rewrite (bitmap_test_spec map nbits bit Hwf Hb), bind_Ok.
  destruct (bitmap_clear_spec map nbits bit Hwf Hb) as (m' & -> & ?). rewrite bind_Ok. eauto.
Qed.

(** The atomic variants are the plain ones run in one step. *)
Lemma atomic_same map bit :
  bitmap_atomic_set map bit = bitmap_set map bit /\
  bitmap_atomic_clear map bit = bitmap_clear map bit /\
  bitmap_atomic_toggle map bit = bitmap_toggle map bit /\
  bitmap_atomic_test map bit = bitmap_test map bit /\
  bitmap_atomic_test_and_set map bit = bitmap_test_and_set map bit /\
  bitmap_atomic_test_and_clear map bit = bitmap_test_and_clear map bit.
Proof.
  unfold bitmap_atomic_set, bitmap_atomic_clear, bitmap_atomic_toggle, bitmap_atomic_test_and_set,
    bitmap_atomic_test_and_clear, bitmap_atomic_test, bitmap_test_and_set, bitmap_test_and_clear, bitmap_set,
    bitmap_clear, bitmap_toggle, bitmap_test, word_fetch, BITMAP_BIT_MASK.
  destruct (aget map (BITMAP_WORD_INDEX bit)) as [w| |]; [|done..]. cbn. rewrite ?bind_Ok.
  split_and!; try done; by destruct (aset _ _ _).
Qed.

(** *** Loops over the words *)

Lemma words_fill_spec f v n i dst nbits : bm_wf dst nbits -> 0 <= i ->
  i + Z.of_nat n <= bitmap_words nbits ->
  (forall k, i <= k < i + Z.of_nat n -> f k = Ok (v k) /\ in_u 64 (v k)) ->
  exists dst', words_fill f n i dst = Ok dst' /\ bm_wf dst' nbits /\ length dst' = length dst /\
    forall k, 0 <= k -> word dst' k = if (i <=? k) && (k <? i + Z.of_nat n) then v k else word dst k.
Proof.
  revert i dst. induction n as [|n IH]; intros i dst Hwf Hi Hn Hf; cbn [words_fill].
  - exists dst. split_and!; [done..|]. intros k Hk. destruct (Z.leb_spec i k), (Z.ltb_spec k (i + Z.of_nat 0)); done || lia.
  - destruct (Hf i) as [-> Hv]; [lia|]. rewrite bind_Ok. pose proof (proj1 (proj2 Hwf)).
    rewrite aset_Ok, bind_Ok by lia.
    destruct (IH (i + 1) (<[Z.to_nat i := v i]> dst)) as (d & -> & Hd & Hl & Hw); [by apply wf_insert|lia..| |].
    { intros k Hk. apply Hf. lia. }
    rewrite length_insert in Hl. exists d. split_and!; [done..|]. intros k Hk. rewrite Hw, word_insert by lia.
    destruct (Z.eqb_spec k i), (Z.leb_spec i k), (Z.leb_spec (i + 1) k),
      (Z.ltb_spec k (i + 1 + Z.of_nat n)), (Z.ltb_spec k (i + Z.of_nat (S n))); cbn; congruence || lia.
Qed.

(** A loop over every word of the bitmap. *)
Lemma fill_all f v dst nbits : bm_wf dst nbits ->
  (forall k, 0 <= k < bitmap_words nbits -> f k = Ok (v k) /\ in_u 64 (v k)) ->
  exists dst', words_fill f (Z.to_nat (bitmap_words nbits)) 0 dst = Ok dst' /\ bm_wf dst' nbits /\
    forall i, 0 <= i -> tb dst' i =
      if i <? 64 * bitmap_words nbits then Z.testbit (v (i `div` 64)) (i `mod` 64) else tb dst i.
Proof.
  intros Hwf Hf. destruct (words_bound nbits) as [_ Hw]; [apply Hwf|].
  destruct (words_fill_spec f v (Z.to_nat (bitmap_words nbits)) 0 dst nbits) as (d & -> & Hd & _ & Hk); [done|lia..| |].
  { intros k Hk. apply Hf. lia. }
  exists d. split_and!; [done..|]. intros i Hi. unfold tb. pose proof (div_mod64 i).
  pose proof (Z.div_pos i 64 Hi ltac:(lia)). rewrite Hk by done.
  destruct (Z.leb_spec 0 (i `div` 64)), (Z.ltb_spec (i `div` 64) (0 + Z.of_nat (Z.to_nat (bitmap_words nbits)))),
    (Z.ltb_spec i (64 * bitmap_words nbits)); done || lia.
Qed.

Lemma bitmap_zero_spec map nbits : bm_wf map nbits ->
  exists map', bitmap_zero map nbits = Ok map' /\ bm_wf map' nbits /\
    forall i, 0 <= i -> tb map' i = if i <? 64 * bitmap_words nbits then false else tb map i.
Proof.
  intros Hwf. destruct (fill_all (fun _ => Ok 0) (fun _ => 0) map nbits) as (d & E & Hd & H); [done|by split|].
  exists d. split_and!; [done..|]. intros i Hi. rewrite H by done. by rewrite Z.bits_0.
Qed.
Lemma bitmap_copy_spec dst src nbits : bm_wf dst nbits -> bm_wf src nbits ->
  exists dst', bitmap_copy dst src nbits = Ok dst' /\ bm_wf dst' nbits /\
    forall i, 0 <= i -> tb dst' i = tb (if i <? 64 * bitmap_words nbits then src else dst) i.
Proof.
  intros Hd Hs. destruct (fill_all (fun i => aget src i) (word src) dst nbits) as (d & E & Hd' & H); [done| |].
  { intros k Hk. split; [by apply (aget_word src nbits)|by apply (word_range src nbits)]. }
  exists d. split_and!; [done..|]. intros i Hi. rewrite H by done. by destruct (i <? _).
Qed.

Lemma ones_word r : 0 <= r < 64 -> u64 (Z.shiftl 1 r) - 1 = Z.ones r.
Proof.
  intros Hr. rewrite Z.ones_equiv, Z.shiftl_1_l, wrap_small; [lia|].
  split; [lia|]. apply Z.pow_lt_mono_r; lia.
Qed.
Lemma ones_range r : 0 <= r <= 64 -> in_u 64 (Z.ones r).
Proof.
  intros Hr. rewrite Z.ones_equiv. pose proof (Z.pow_le_mono_r 2 r 64). pose proof (Z.pow_pos_nonneg 2 r). unfold in_u. lia.
Qed.
Lemma WORD_ONES_eq : WORD_ONES = Z.ones 64.
Proof. done. Qed.

Lemma bitmap_fill_spec map nbits : bm_wf map nbits ->
  exists map', bitmap_fill map nbits = Ok map' /\ bm_wf map' nbits /\
    forall i, 0 <= i -> tb map' i = if i <? 64 * bitmap_words nbits then i <? nbits else tb map i.
Proof.
  intros Hwf. pose proof (words_bound nbits (proj1 Hwf)) as [Hb Hw].
  assert (Hfw : forall k, 0 <= k < bitmap_words nbits ->
     fill_word nbits k = Z.ones (Z.min 64 (nbits - k * 64))).
  { intros k Hk. unfold fill_word, BITMAP_BITS_PER_WORD. destruct (Z.leb_spec 64 (nbits - k * 64)).
    - by rewrite Z.min_l by lia.
    - rewrite Z.min_r by lia. apply ones_word. lia. }
  destruct (fill_all (fun i => Ok (fill_word nbits i)) (fill_word nbits) map nbits) as (d & E & Hd & H); [done| |].
  { intros k Hk. split; [done|]. rewrite Hfw by done. apply ones_range. lia. }
  exists d. split_and!; [done..|]. intros i Hi. rewrite H by done.
  pose proof (div_mod64 i). pose proof (Z.div_pos i 64 Hi ltac:(lia)).
  destruct (Z.ltb_spec i (64 * bitmap_words nbits)); [|done]. rewrite Hfw, testbit_ones_ltb by lia.
  destruct (Z.ltb_spec (i `mod` 64) (Z.min 64 (nbits - i `div` 64 * 64))), (Z.ltb_spec i nbits),
    (Z.leb_spec 0 (i `mod` 64)); cbn; done || lia.
Qed.

(** The word-wise operations are bit-wise operations. *)
Lemma words_op_spec f (fb : bool -> bool -> bool) dst src1 src2 nbits :
  bm_wf dst nbits -> bm_wf src1 nbits -> bm_wf src2 nbits ->
  (forall a b, in_u 64 a -> in_u 64 b -> in_u 64 (f a b)) ->
  (forall a b j, 0 <= j < 64 -> Z.testbit (f a b) j = fb (Z.testbit a j) (Z.testbit b j)) ->
  exists dst', words_op f dst src1 src2 nbits = Ok dst' /\ bm_wf dst' nbits /\
    forall i, 0 <= i < 64 * bitmap_words nbits -> tb dst' i = fb (tb src1 i) (tb src2 i).
Proof.
  intros Hd H1 H2 Hf Hfb.
  destruct (fill_all (fun i => a ← aget src1 i; b ← aget src2 i; Ok (f a b))
              (fun i => f (word src1 i) (word src2 i)) dst nbits) as (d & E & Hd' & H); [done| |].
  { intros k Hk. rewrite (aget_word src1 nbits), (aget_word src2 nbits) by done. cbn.
    split; [done|]. apply Hf; by apply (word_range _ nbits). }
  exists d. split_and!; [done..|]. intros i Hi. rewrite H by lia.
  rewrite (proj2 (Z.ltb_lt _ _)) by lia. apply Hfb, div_mod64.
Qed.

Section ops.
Context (dst src1 src2 : list Z) (nbits : Z).
Context (Hd : bm_wf dst nbits) (H1 : bm_wf src1 nbits) (H2 : bm_wf src2 nbits).

Lemma bitmap_and_spec : exists dst', bitmap_and dst src1 src2 nbits = Ok dst' /\ bm_wf dst' nbits /\
  forall i, 0 <= i < 64 * bitmap_words nbits -> tb dst' i = tb src1 i && tb src2 i.
Proof using Hd H1 H2.
  apply words_op_spec; [done..| |]; [intros; by apply land_range_l|intros; apply Z.land_spec].
Qed.
Lemma bitmap_or_spec : exists dst', bitmap_or dst src1 src2 nbits = Ok dst' /\ bm_wf dst' nbits /\
  forall i, 0 <= i < 64 * bitmap_words nbits -> tb dst' i = tb src1 i || tb src2 i.
Proof using Hd H1 H2.
  apply words_op_spec; [done..| |]; [intros; by apply lor_range|intros; apply Z.lor_spec].
Qed.
Lemma bitmap_xor_spec : exists dst', bitmap_xor dst src1 src2 nbits = Ok dst' /\ bm_wf dst' nbits /\
  forall i, 0 <= i < 64 * bitmap_words nbits -> tb dst' i = xorb (tb src1 i) (tb src2 i).
Proof using Hd H1 H2.
  apply words_op_spec; [done..| |]; [intros; by apply lxor_range|intros; apply Z.lxor_spec].
Qed.
Lemma bitmap_andnot_spec : exists dst', bitmap_andnot dst src1 src2 nbits = Ok dst' /\ bm_wf dst' nbits /\
  forall i, 0 <= i < 64 * bitmap_words nbits -> tb dst' i = tb src1 i && negb (tb src2 i).
Proof using Hd H1 H2.
  apply (words_op_spec _ (fun a b => a && negb b)); [done..| |].
  - intros; by apply land_range_l.
  - intros a b j Hj. rewrite Z.land_spec, not_w_alt, testbit_wrap, testbit_lnot by lia.
    by rewrite (proj2 (Z.ltb_lt j 64)) by lia.
Qed.
End ops.

Lemma range_loop_spec op v n start i map nbits :
  (forall map bit, bm_wf map nbits -> 0 <= bit < nbits ->
     exists map', op map bit = Ok map' /\ bm_wf map' nbits /\
       forall j, 0 <= j -> tb map' j = if j =? bit then v else tb map j) ->
  bm_wf map nbits -> 0 <= start + i -> start + i + Z.of_nat n <= nbits ->
  exists map', range_loop op n start i map = Ok map' /\ bm_wf map' nbits /\
    forall j, 0 <= j -> tb map' j =
      if (start + i <=? j) && (j <? start + i + Z.of_nat n) then v else tb map j.
Proof.
  intros Hop. revert i map. induction n as [|n IH]; intros i map Hwf Hs Hn; cbn [range_loop].
  - exists map. split_and!; [done..|]. intros j Hj.
    destruct (Z.leb_spec (start + i) j), (Z.ltb_spec j (start + i + Z.of_nat 0)); done || lia.
  - destruct (Hop map (start + i)) as (m & -> & Hm & Ht); [done|lia|]. rewrite bind_Ok.
    destruct (IH (i + 1) m) as (m' & -> & Hm' & Ht'); [done|lia..|]. exists m'. split_and!; [done..|].
    intros j Hj. rewrite Ht', Ht by done.
    destruct (Z.eqb_spec j (start + i)), (Z.leb_spec (start + i) j), (Z.leb_spec (start + (i + 1)) j),
      (Z.ltb_spec j (start + (i + 1) + Z.of_nat n)), (Z.ltb_spec j (start + i + Z.of_nat (S n))); cbn; done || lia.
Qed.
Lemma bits_set_range_spec map nbits start len : bm_wf map nbits -> 0 <= start -> 0 <= len -> start + len <= nbits ->
  exists map', bitmap_set_range map start len = Ok map' /\ bm_wf map' nbits /\
    forall j, 0 <= j -> tb map' j = (start <=? j) && (j <? start + len) || tb map j.
Proof.
  intros Hwf H1 H2 H3. destruct (range_loop_spec bitmap_set true (Z.to_nat len) start 0 map nbits) as (m & E & Hm & Ht);
    [intros; by apply bitmap_set_spec|done|lia..|].
  exists m. split_and!; [done..|]. intros j Hj. rewrite Ht by done. rewrite Z.add_0_r, Z2Nat.id by done.
  by destruct (_ && _).
Qed.
Lemma bits_clear_range_spec map nbits start len : bm_wf map nbits -> 0 <= start -> 0 <= len -> start + len <= nbits ->
  exists map', bitmap_clear_range map start len = Ok map' /\ bm_wf map' nbits /\
    forall j, 0 <= j -> tb map' j = negb ((start <=? j) && (j <? start + len)) && tb map j.
Proof.
  intros Hwf H1 H2 H3. destruct (range_loop_spec bitmap_clear false (Z.to_nat len) start 0 map nbits) as (m & E & Hm & Ht);
    [intros; by apply bitmap_clear_spec|done|lia..|].
  exists m. split_and!; [done..|]. intros j Hj. rewrite Ht by done. rewrite Z.add_0_r, Z2Nat.id by done.
  by destruct (_ && _).
Qed.

(** *** Comparisons *)

Lemma words_all_spec f p n i :
  (forall k, i <= k < i + Z.of_nat n -> f k = Ok (p k)) ->
  exists b, words_all f n i = Ok b /\ (b = true <-> forall k, i <= k < i + Z.of_nat n -> p k = true).
Proof.
  revert i. induction n as [|n IH]; intros i Hf; cbn [words_all].
  - exists true. split; [done|]. split; [|done]. intros _ k Hk. lia.
  - rewrite (Hf i), bind_Ok by lia. destruct (p i) eqn:Ep.
    + destruct (IH (i + 1)) as (b & -> & Hb); [intros k Hk; apply Hf; lia|].
      exists b. split; [done|]. rewrite Hb. split; intros H k Hk; [|apply H; lia].
      destruct (decide (k = i)) as [->|]; [done|apply H; lia].
    + exists false. split; [done|]. split; [done|]. intros H. rewrite H in Ep by lia. done.
Qed.

(** A test of every word that is a test of every bit. *)
Lemma all_bits f p q nbits : 0 <= nbits ->
  (forall k, 0 <= k < bitmap_words nbits -> f k = Ok (p k)) ->
  (forall k, 0 <= k -> p k = true <-> forall j, 0 <= j < 64 -> q (64 * k + j) = true) ->
  exists b, words_all f (Z.to_nat (bitmap_words nbits)) 0 = Ok b /\
    (b = true <-> forall i, 0 <= i < 64 * bitmap_words nbits -> q i = true).
Proof.
  intros Hn Hf Hq. pose proof (words_bound nbits Hn) as [_ Hw].
  destruct (words_all_spec f p (Z.to_nat (bitmap_words nbits)) 0) as (b & -> & Hb); [intros k Hk; apply Hf; lia|].
  exists b. split; [done|]. rewrite Hb. split; intros H.
  - intros i Hi. pose proof (div_mod64 i) as [Ei Hm]. pose proof (Z.div_pos i 64). rewrite Ei.
    apply Hq; [lia| |lia]. apply H. lia.
  - intros k Hk. apply Hq; [lia|]. intros j Hj. apply H. lia.
Qed.

Lemma tb_word map k j : 0 <= j < 64 -> tb map (64 * k + j) = Z.testbit (word map k) j.
Proof.
  intros Hj. unfold tb. rewrite (Z.mul_comm 64 k), Z.div_add_l, Z.div_small, Z.add_0_r by lia.
  by rewrite Z.add_comm, Z_mod_plus_full, Z.mod_small by lia.
Qed.
Lemma word_eq_bits a b : in_u 64 a -> in_u 64 b ->
  (a =? b) = true <-> forall j, 0 <= j < 64 -> eqb (Z.testbit a j) (Z.testbit b j) = true.
Proof.
  intros Ha Hb. rewrite Z.eqb_eq. split; [intros -> j _; apply eqb_reflx|].
  intros H. apply Z.bits_inj'. intros j Hj. destruct (decide (j < 64)).
  - apply eqb_prop, H. lia.
  - by rewrite (testbit_small 64 a), (testbit_small 64 b) by (done || lia).
Qed.
Lemma word_zero_bits a : in_u 64 a ->
  (a =? 0) = true <-> forall j, 0 <= j < 64 -> negb (Z.testbit a j) = true.
Proof.
  intros Ha. rewrite word_eq_bits by done. split; intros H j Hj; specialize (H j Hj); rewrite ?Z.bits_0 in *;
    by destruct (Z.testbit a j).
Qed.

Section compare.
Context (m1 m2 : list Z) (nbits : Z) (H1 : bm_wf m1 nbits) (H2 : bm_wf m2 nbits).

Lemma bitmap_equal_spec : exists b, bitmap_equal m1 m2 nbits = Ok b /\
  (b = true <-> forall i, 0 <= i < 64 * bitmap_words nbits -> tb m1 i = tb m2 i).
Proof using H1 H2.
  destruct (all_bits (fun i => a ← aget m1 i; b ← aget m2 i; Ok (a =? b)) (fun k => word m1 k =? word m2 k)
              (fun i => eqb (tb m1 i) (tb m2 i)) nbits) as (b & E & Hb); [apply H1| | |].
  - intros k Hk. by rewrite (aget_word m1 nbits), (aget_word m2 nbits) by done.
  - intros k Hk. rewrite word_eq_bits by (by apply (word_range _ nbits)).
    split; intros H j Hj; specialize (H j Hj); by rewrite ?tb_word in * by done.
  - exists b. split; [done|]. rewrite Hb. split; intros H i Hi; specialize (H i Hi); by apply eqb_true_iff.
Qed.
Lemma bitmap_subset_spec : exists b, bitmap_subset m1 m2 nbits = Ok b /\
  (b = true <-> forall i, 0 <= i < 64 * bitmap_words nbits -> tb m1 i = true -> tb m2 i = true).
Proof using H1 H2.
  destruct (all_bits (fun i => a ← aget m1 i; b ← aget m2 i; Ok (Z.land a (not_w 64 b) =? 0))
              (fun k => Z.land (word m1 k) (not_w 64 (word m2 k)) =? 0)
              (fun i => negb (tb m1 i && negb (tb m2 i))) nbits) as (b & E & Hb); [apply H1| | |].
  - intros k Hk. by rewrite (aget_word m1 nbits), (aget_word m2 nbits) by done.
  - intros k Hk. rewrite word_zero_bits by (apply land_range_l; [lia|by apply (word_range _ nbits)]).
    split; intros H j Hj; specialize (H j Hj);
      rewrite ?tb_word, ?Z.land_spec, ?not_w_alt, ?testbit_wrap, ?testbit_lnot in * by lia;
      by rewrite (proj2 (Z.ltb_lt j 64)) in * by lia.
  - exists b. split; [done|]. rewrite Hb. split; intros H i Hi; specialize (H i Hi);
      destruct (tb m1 i), (tb m2 i); naive_solver.
Qed.
Lemma bitmap_intersects_spec : exists b, bitmap_intersects m1 m2 nbits = Ok b /\
  (b = false <-> forall i, 0 <= i < 64 * bitmap_words nbits -> tb m1 i && tb m2 i = false).
Proof using H1 H2.
  destruct (all_bits (fun i => a ← aget m1 i; b ← aget m2 i; Ok (Z.land a b =? 0))
              (fun k => Z.land (word m1 k) (word m2 k) =? 0)
              (fun i => negb (tb m1 i && tb m2 i)) nbits) as (b & E & Hb); [apply H1| | |].
  - intros k Hk. by rewrite (aget_word m1 nbits), (aget_word m2 nbits) by done.
  - intros k Hk. rewrite word_zero_bits by (apply land_range_l; [lia|by apply (word_range _ nbits)]).
    split; intros H j Hj; specialize (H j Hj); by rewrite ?tb_word, ?Z.land_spec in * by lia.
  - exists (negb b). unfold bitmap_intersects. rewrite E, bind_Ok. split; [done|]. rewrite negb_false_iff, Hb.
    split; intros H i Hi; specialize (H i Hi); by apply negb_true_iff.
Qed.
Lemma bitmap_empty_spec : exists b, bitmap_empty m1 nbits = Ok b /\
  (b = true <-> forall i, 0 <= i < 64 * bitmap_words nbits -> tb m1 i = false).
Proof using H1.
  destruct (all_bits (fun i => a ← aget m1 i; Ok (a =? 0)) (fun k => word m1 k =? 0)
              (fun i => negb (tb m1 i)) nbits) as (b & E & Hb); [apply H1| | |].
  - intros k Hk. by rewrite (aget_word m1 nbits) by done.
  - intros k Hk. rewrite word_zero_bits by (by apply (word_range _ nbits)).
    split; intros H j Hj; specialize (H j Hj); by rewrite ?tb_word in * by done.
  - exists b. split; [done|]. rewrite Hb. split; intros H i Hi; specialize (H i Hi); by apply negb_true_iff.
Qed.
End compare.

(** *** Searching *)

(** [r] is the least index of [lo, hi) where [P] holds, or [hi]. *)
Definition least_in (P : Z -> bool) (lo hi r : Z) : Prop :=
  lo <= r <= hi /\ (forall j, lo <= j < r -> P j = false) /\ (r < hi -> P r = true).

Lemma least_in_unique P lo hi r r' : least_in P lo hi r -> least_in P lo hi r' -> r = r'.
Proof.
  intros (? & H1 & H2) (? & H1' & H2'). destruct (Z.lt_trichotomy r r') as [Hl|[|Hl]]; [|done|].
  - specialize (H1' r ltac:(lia)). rewrite H2 in H1' by lia. done.
  - specialize (H1 r' ltac:(lia)). rewrite H2' in H1 by lia. done.
Qed.
Lemma least_in_widen P lo lo' hi r :
  lo <= lo' -> (forall j, lo <= j < lo' -> P j = false) -> least_in P lo' hi r -> least_in P lo hi r.
Proof.
  intros Hl Hj (? & H1 & H2). split_and!; [lia..| |done]. intros j Hlj. destruct (decide (j < lo')); [apply Hj|apply H1]; lia.
Qed.

(** The lowest one bit of a word, as an index of the bitmap. *)
Lemma ctz_least w : in_u 64 w -> w <> 0 -> exists z, ctzll w = Ok z /\ 0 <= z < 64 /\ Z.testbit w z = true /\
  forall j, 0 <= j < z -> Z.testbit w j = false.
Proof.
  intros Hw Hne. destruct (ctzll_spec w) as (z & E & Hz & Ht & Hd); [destruct Hw; lia|].
  exists z. split_and!; [done|done| |done|].
  - destruct (decide (z < 64)); [done|]. by rewrite (testbit_small 64 w) in Ht by (done || lia).
  - intros j Hj. destruct Hd as [q ->]. apply Z.mul_pow2_bits_low. lia.
Qed.

Section find.
Context (f : Z -> Z) (fb : bool -> bool) (map : list Z) (nbits : Z) (Hwf : bm_wf map nbits).
Context (Hf : forall w, in_u 64 w -> in_u 64 (f w)).
Context (Hfb : forall w j, in_u 64 w -> 0 <= j < 64 -> Z.testbit (f w) j = fb (Z.testbit w j)).

Let P (i : Z) : bool := fb (tb map i).

(** The search inside one word, from the bit [lo] of it on. *)
Lemma word_least k lo w : 0 <= k -> 0 <= lo < 64 -> in_u 64 w -> 64 * k + lo < nbits ->
  (forall j, 0 <= j < 64 -> Z.testbit w j = (lo <=? j) && P (64 * k + j)) ->
  (w = 0 /\ forall j, 64 * k + lo <= j < 64 * (k + 1) -> P j = false) \/
  (w <> 0 /\ exists z, ctzll w = Ok z /\
     least_in P (64 * k + lo) nbits (if k * BITMAP_BITS_PER_WORD + z <? nbits then k * BITMAP_BITS_PER_WORD + z else nbits)).
Proof using Type.
  intros Hk Hlo Hw Hn Hb. destruct (decide (w = 0)) as [->|Hne]; [left|right]; (split; [done|]).
  - intros j Hj. specialize (Hb (j - 64 * k) ltac:(lia)). rewrite Z.bits_0 in Hb.
    replace (64 * k + (j - 64 * k)) with j in Hb by lia. by rewrite (proj2 (Z.leb_le _ _)) in Hb by lia.
  - destruct (ctz_least w Hw Hne) as (z & E & Hz & Ht & Hl). exists z. split; [done|].
    unfold BITMAP_BITS_PER_WORD. rewrite Hb in Ht by done. apply andb_true_iff in Ht as [Hlz Ht]. apply Z.leb_le in Hlz.
    assert (Hbelow : forall j, 64 * k + lo <= j < 64 * k + z -> P j = false).
    { intros j Hj. specialize (Hl (j - 64 * k) ltac:(lia)). rewrite Hb in Hl by lia.
      replace (64 * k + (j - 64 * k)) with j in Hl by lia. by rewrite (proj2 (Z.leb_le _ _)) in Hl by lia. }
    rewrite (Z.mul_comm k). destruct (Z.ltb_spec (64 * k + z) nbits).
    + split_and!; [lia..|intros j Hj; apply Hbelow; lia|done].
    + split_and!; [lia..|intros j Hj; apply Hbelow; lia|lia].
Qed.

Lemma scan_words_spec n i : 0 <= i -> i + Z.of_nat n = bitmap_words nbits ->
  exists r, scan_words f map nbits n i = Ok r /\ least_in P (Z.min nbits (64 * i)) nbits r.
Proof using Hwf Hf Hfb.
  pose proof (words_bound nbits (proj1 Hwf)) as [Hb Hw].
  revert i. induction n as [|n IH]; intros i Hi Hn; cbn [scan_words].
  - exists nbits. split; [done|]. split_and!; [lia..|intros j Hj; lia|lia].
  - assert (64 * i < nbits) by lia. rewrite (aget_word map nbits) by (done || lia). rewrite bind_Ok. cbv zeta.
    destruct (word_least i 0 (f (word map i))) as [[E Hz]|(Hne & z & Ez & Hl)]; [lia..| |lia| | |].
    + apply Hf. by apply (word_range map nbits).
    + intros j Hj. unfold P. rewrite Hfb, tb_word by (done || by apply (word_range map nbits)).
      by rewrite (proj2 (Z.leb_le 0 j)) by lia.
    + rewrite E. cbn [Z.eqb negb]. destruct (IH (i + 1)) as (r & -> & Hr); [lia..|]. exists r. split; [done|].
      eapply least_in_widen; [|  |exact Hr]; [lia|]. intros j Hj. apply Hz. lia.
    + rewrite (proj2 (Z.eqb_neq _ _)) by done. cbn [negb]. rewrite Ez, bind_Ok. eexists. split; [done|].
      rewrite Z.add_0_r in Hl. by rewrite Z.min_r by lia.
Qed.

Lemma find_next_spec start : 0 <= start ->
  exists r, find_next f map nbits start = Ok r /\ least_in P (Z.min nbits start) nbits r.
Proof using Hwf Hf Hfb.
  intros Hs. unfold find_next. destruct (Z.leb_spec nbits start).
  { exists nbits. split; [done|]. split_and!; [lia..|intros j Hj; lia|lia]. }
  pose proof (index_range nbits start ltac:(lia)) as Hi. pose proof (div_mod64 start) as [Es Ho].
  unfold BITMAP_WORD_INDEX, BITMAP_BIT_OFFSET. change BITMAP_BITS_PER_WORD with 64.
  rewrite (aget_word map nbits) by done. rewrite bind_Ok. cbv zeta. pose proof (word_range map nbits (start `div` 64) Hwf) as Hwr.
  rewrite Z.min_r by lia.
  destruct (word_least (start `div` 64) (start `mod` 64)
     (Z.land (f (word map (start `div` 64))) (u64 (Z.shiftl WORD_ONES (start `mod` 64)))))
     as [[E Hz]|(Hne & z & Ez & Hl)]; [lia..| |lia| | |].
  - apply land_range_l; [lia|by apply Hf].
  - intros j Hj. unfold P. rewrite WORD_ONES_eq, Z.land_spec, Hfb, tb_word, testbit_wrap, testbit_shiftl, testbit_ones_ltb by done || lia.
    rewrite (proj2 (Z.ltb_lt j 64)) by lia.
    destruct (Z.leb_spec (start `mod` 64) j), (Z.leb_spec 0 (j - start `mod` 64)), (Z.ltb_spec (j - start `mod` 64) 64);
      try lia; destruct (fb _); try done; by destruct (0 <=? j).
  - rewrite E. cbn [Z.eqb negb].
    destruct (scan_words_spec (Z.to_nat (bitmap_words nbits - (start `div` 64 + 1))) (start `div` 64 + 1)) as (r & -> & Hr);
      [lia..|]. exists r. split; [done|]. eapply least_in_widen; [| |exact Hr]; [lia|]. intros j Hj. apply Hz. lia.
  - rewrite (proj2 (Z.eqb_neq _ _)) by done. cbn [negb]. rewrite Ez, bind_Ok. eexists. split; [done|].
    by rewrite <- Es in Hl.
Qed.
End find.

(** *** Counting *)

(** The number of indices of [lo, lo + n) where [P] holds. *)
Fixpoint cnt (P : Z -> bool) (lo : Z) (n : nat) : Z :=
  match n with O => 0 | S n => cnt P lo n + Z.b2z (P (lo + Z.of_nat n)) end.

Lemma cnt_ext P Q lo lo' n : (forall j, 0 <= j < Z.of_nat n -> P (lo + j) = Q (lo' + j)) -> cnt P lo n = cnt Q lo' n.
Proof.
  induction n as [|n IH]; intros H; cbn [cnt]; [done|]. rewrite IH, H by (intros; try apply H; lia). done.
Qed.
Lemma cnt_app P lo n1 n2 : cnt P lo (n1 + n2) = cnt P lo n1 + cnt P (lo + Z.of_nat n1) n2.
Proof.
  induction n2 as [|n2 IH]; [by rewrite Nat.add_0_r, Z.add_0_r|]. rewrite Nat.add_succ_r. cbn [cnt].
  rewrite IH. replace (lo + Z.of_nat (n1 + n2)) with (lo + Z.of_nat n1 + Z.of_nat n2) by lia. lia.
Qed.
Lemma popcount_cnt n w : 0 <= w < 2 ^ Z.of_nat n -> popcount w = cnt (Z.testbit w) 0 n.
Proof.
  revert w. induction n as [|n IH]; intros w Hw; [by assert (w = 0) as -> by (cbn in Hw; lia)|].
  rewrite Nat2Z.inj_succ, Z.pow_succ_r in Hw by lia. assert (Hp : 0 < 2 ^ Z.of_nat n) by (apply Z.pow_pos_nonneg; lia).
  pose proof (Z.mod_pos_bound w _ Hp) as Hm. pose proof (Z.div_mod w (2 ^ Z.of_nat n) ltac:(lia)) as Hd.
  assert (Hy : 0 <= w `div` 2 ^ Z.of_nat n < 2) by (split; [apply Z.div_pos; lia|apply Z.div_lt_upper_bound; lia]).
  rewrite Hd at 1. rewrite (Z.add_comm (_ * _)), popcount_app by lia. cbn [cnt]. f_equal.
  - rewrite IH by done. apply cnt_ext. intros j Hj. apply Z.mod_pow2_bits_low. lia.
  - rewrite Z.add_0_l. replace (Z.testbit w (Z.of_nat n)) with (Z.testbit (w `div` 2 ^ Z.of_nat n) 0)
      by (rewrite Z.div_pow2_bits by lia; f_equal; lia).
    by assert (w `div` 2 ^ Z.of_nat n = 0 \/ w `div` 2 ^ Z.of_nat n = 1) as [-> | ->] by lia.
Qed.
Lemma popcount_word map nbits k r : bm_wf map nbits -> 0 <= r <= 64 ->
  popcount (Z.land (word map k) (Z.ones r)) = cnt (tb map) (64 * k) (Z.to_nat r).
Proof.
  intros Hwf Hr. rewrite (popcount_cnt (Z.to_nat r)).
  - apply cnt_ext. intros j Hj. rewrite tb_word, Z.land_spec, testbit_ones_ltb, Z.add_0_l by lia.
    rewrite (proj2 (Z.leb_le 0 j)), (proj2 (Z.ltb_lt j r)) by lia. apply andb_true_r.
  - rewrite Z.land_ones, Z2Nat.id by lia. apply Z.mod_pos_bound, Z.pow_pos_nonneg; lia.
Qed.
Lemma land_word_ones w : in_u 64 w -> Z.land w (Z.ones 64) = w.
Proof. intros Hw. rewrite Z.land_ones by done. by apply Z.mod_small. Qed.

Lemma weight_loop_spec map nbits n i c : bm_wf map nbits -> 0 <= i -> i + Z.of_nat n <= bitmap_words nbits ->
  weight_loop map n i c = Ok (c + cnt (tb map) (64 * i) (64 * n)).
Proof.
  intros Hwf. revert i c. induction n as [|n IH]; intros i c Hi Hn; cbn [weight_loop].
  - rewrite Nat.mul_0_r. cbn. by rewrite Z.add_0_r.
  - rewrite (aget_word map nbits) by (done || lia). rewrite bind_Ok, IH by lia. f_equal.
    replace (64 * S n)%nat with (64 + 64 * n)%nat by lia. rewrite cnt_app.
    rewrite <- (land_word_ones (word map i)) by (by apply (word_range map nbits)).
    rewrite (popcount_word map nbits) by (done || lia). change (Z.to_nat 64) with 64%nat.
    replace (64 * (i + 1)) with (64 * i + Z.of_nat 64) by lia. lia.
Qed.

Lemma last_mask_eq nbits : last_mask nbits = Z.ones (if nbits `mod` 64 =? 0 then 64 else nbits `mod` 64).
Proof.
  unfold last_mask, BITMAP_BITS_PER_WORD. destruct (Z.eqb_spec (nbits `mod` 64) 0); [done|].
  apply ones_word. apply Z.mod_pos_bound. lia.
Qed.
Lemma last_width nbits : 0 < nbits ->
  nbits = 64 * (bitmap_words nbits - 1) + (if nbits `mod` 64 =? 0 then 64 else nbits `mod` 64) /\ 1 <= bitmap_words nbits.
Proof.
  intros Hn. unfold bitmap_words, BITMAP_BITS_PER_WORD. pose proof (div_mod64 nbits). pose proof (Z.div_pos nbits 64).
  destruct (Z.eqb_spec (nbits `mod` 64) 0); lia.
Qed.

Lemma bitmap_weight_spec map nbits : bm_wf map nbits ->
  bitmap_weight map nbits = Ok (cnt (tb map) 0 (Z.to_nat nbits)).
Proof.
  intros Hwf. unfold bitmap_weight. destruct (decide (nbits = 0)) as [->|Hne]; [done|].
  assert (Hn : 0 < nbits) by (destruct Hwf; lia). destruct (last_width nbits Hn) as [El Hw].
  cbv zeta. rewrite (proj2 (Z.eqb_neq _ _)) by lia.
  rewrite (weight_loop_spec map nbits), bind_Ok, (aget_word map nbits), bind_Ok by (done || lia). f_equal.
  set (W := bitmap_words nbits) in *. set (r := if nbits `mod` 64 =? 0 then 64 else nbits `mod` 64) in *.
  assert (Hr : 0 < r <= 64) by (subst r; pose proof (div_mod64 nbits); destruct (Z.eqb_spec (nbits `mod` 64) 0); lia).
  assert (Elast : (if nbits `mod` BITMAP_BITS_PER_WORD =? 0 then word map (W - 1)
    else Z.land (word map (W - 1)) (u64 (Z.shiftl 1 (nbits `mod` BITMAP_BITS_PER_WORD)) - 1)) =
    Z.land (word map (W - 1)) (Z.ones r)).
  { subst r. change BITMAP_BITS_PER_WORD with 64. pose proof (div_mod64 nbits). destruct (Z.eqb_spec (nbits `mod` 64) 0).
    - symmetry. apply land_word_ones. by apply (word_range map nbits).
    - by rewrite ones_word by lia. }
  rewrite Elast, (popcount_word map nbits) by (done || lia).
  replace (Z.to_nat nbits) with (64 * Z.to_nat (W - 1) + Z.to_nat r)%nat by lia. rewrite cnt_app.
  replace (0 + Z.of_nat (64 * Z.to_nat (W - 1))) with (64 * (W - 1)) by lia. done.
Qed.

(** A word with its lowest [r] bits all one. *)
Lemma low_ones map nbits k r : bm_wf map nbits -> 0 <= r <= 64 ->
  (Z.land (word map k) (Z.ones r) =? Z.ones r) = true <-> forall j, 0 <= j < r -> tb map (64 * k + j) = true.
Proof.
  intros Hwf Hr. rewrite word_eq_bits;
    [|apply land_range_l; [lia|by apply (word_range map nbits)]|apply ones_range; lia].
  assert (Hbit : forall j, 0 <= j < 64 -> eqb (Z.testbit (Z.land (word map k) (Z.ones r)) j) (Z.testbit (Z.ones r) j)
     = (r <=? j) || tb map (64 * k + j)).
  { intros j Hj. rewrite tb_word, Z.land_spec, testbit_ones_ltb, (proj2 (Z.leb_le 0 j)) by lia.
    destruct (Z.ltb_spec j r), (Z.leb_spec r j); try lia; by destruct (Z.testbit (word map k) j). }
  split; intros H j Hj.
  - specialize (H j ltac:(lia)). rewrite Hbit in H by lia. by rewrite (proj2 (Z.leb_gt _ _)) in H by lia.
  - rewrite Hbit by done. destruct (Z.leb_spec r j); [done|]. apply H. lia.
Qed.

Lemma bitmap_full_spec map nbits : bm_wf map nbits ->
  exists b, bitmap_full map nbits = Ok b /\ (b = true <-> forall i, 0 <= i < nbits -> tb map i = true).
Proof.
  intros Hwf. unfold bitmap_full. destruct (decide (nbits = 0)) as [->|Hne].
  { exists true. split; [done|]. split; [|done]. intros _ i Hi. lia. }
  assert (Hn : 0 < nbits) by (destruct Hwf; lia). destruct (last_width nbits Hn) as [El Hw].
  cbv zeta. rewrite (proj2 (Z.eqb_neq _ _)) by lia. rewrite last_mask_eq. pose proof (div_mod64 nbits) as [_ Hm].
  set (W := bitmap_words nbits) in *. set (r := if nbits `mod` 64 =? 0 then 64 else nbits `mod` 64) in *.
  assert (Hr : 0 < r <= 64) by (subst r; destruct (Z.eqb_spec (nbits `mod` 64) 0); lia). clearbody r.
  destruct (words_all_spec (fun i => a ← aget map i; Ok (a =? WORD_ONES)) (fun k => word map k =? WORD_ONES)
             (Z.to_nat (W - 1)) 0) as (b & -> & Hb).
  { intros k Hk. by rewrite (aget_word map nbits) by (done || lia). }
  rewrite bind_Ok, (aget_word map nbits) by (done || lia). rewrite Z.add_0_l, Z2Nat.id in Hb by lia.
  assert (Hones : forall k, (word map k =? WORD_ONES) = true <-> forall j, 0 <= j < 64 -> tb map (64 * k + j) = true).
  { intros k. rewrite <- (low_ones map nbits k 64), land_word_ones by (done || by apply (word_range map nbits)). done. }
  pose proof (low_ones map nbits (W - 1) r Hwf ltac:(lia)) as Hlast.
  destruct b.
  - rewrite bind_Ok. eexists. split; [done|]. rewrite Hlast. split; intros H.
    + intros i Hi. destruct (decide (i < 64 * (W - 1))) as [Hlt|].
      * pose proof (div_mod64 i) as [Ei ?]. pose proof (Z.div_pos i 64). rewrite Ei. apply Hones; [|lia].
        apply Hb; [done|lia].
      * replace i with (64 * (W - 1) + (i - 64 * (W - 1))) by lia. apply H. lia.
    + intros j Hj. apply H. lia.
  - exists false. split; [done|]. split; [done|]. intros H. apply Hb. intros k Hk. apply Hones.
    intros j Hj. apply H. lia.
Qed.

(** ** Bitmaps as finite sets *)

(** The words [map] hold the set [S] of indices below [nbits], with the padding
    of the last word clear. *)
Definition repr (map : list Z) (nbits : Z) (S : gset Z) : Prop :=
  bm_wf map nbits /\ (forall i, i ∈ S -> 0 <= i < nbits) /\
  forall i, 0 <= i < 64 * bitmap_words nbits -> tb map i = true <-> i ∈ S.

Definition below (n : Z) : gset Z := list_to_set (seqZ 0 n).
Lemma elem_below n i : i ∈ below n <-> 0 <= i < n.
Proof. unfold below. rewrite elem_of_list_to_set, elem_of_seqZ. lia. Qed.

Section repr.
Context (nbits : Z).

Lemma repr_in map S i : repr map nbits S -> 0 <= i < nbits -> tb map i = bool_decide (i ∈ S).
Proof using Type.
  intros (Hwf & _ & H) Hi. pose proof (words_bound nbits (proj1 Hwf)). specialize (H i ltac:(lia)).
  case_bool_decide; destruct (tb map i); naive_solver.
Qed.
Lemma repr_out map S i : repr map nbits S -> nbits <= i < 64 * bitmap_words nbits -> tb map i = false.
Proof using Type.
  intros (Hwf & Hr & H) Hi. destruct Hwf as [Hn _]. specialize (H i ltac:(lia)). specialize (Hr i).
  destruct (tb map i); [|done]. destruct H as [H _]. specialize (Hr (H eq_refl)). lia.
Qed.

(** A map whose bits are computed from those of represented ones. *)
Lemma repr_intro map' (S : gset Z) (p : Z -> bool) : bm_wf map' nbits ->
  (forall i, 0 <= i < 64 * bitmap_words nbits -> tb map' i = p i) ->
  (forall i, 0 <= i < 64 * bitmap_words nbits -> p i = true <-> i ∈ S) ->
  (forall i, i ∈ S -> 0 <= i < nbits) -> repr map' nbits S.
Proof using Type. intros Hwf Ht Hp Hb. split_and!; [done..|]. intros i Hi. by rewrite Ht, Hp. Qed.

Lemma repr_set map S bit : repr map nbits S -> 0 <= bit < nbits ->
  exists map', bitmap_set map bit = Ok map' /\ repr map' nbits ({[bit]} ∪ S).
Proof using Type.
  intros (Hwf & Hr & H) Hb. destruct (bitmap_set_spec map nbits bit Hwf Hb) as (m & -> & Hm & Ht). exists m. split; [done|].
  apply (repr_intro _ _ (fun i => if i =? bit then true else tb map i)); [done| | |].
  - intros i Hi. apply Ht. lia.
  - intros i Hi. cbn. rewrite elem_of_union, elem_of_singleton, <- H by done. destruct (Z.eqb_spec i bit); naive_solver.
  - set_solver.
Qed.
Lemma repr_clear map S bit : repr map nbits S -> 0 <= bit < nbits ->
  exists map', bitmap_clear map bit = Ok map' /\ repr map' nbits (S ∖ {[bit]}).
Proof using Type.
  intros (Hwf & Hr & H) Hb. destruct (bitmap_clear_spec map nbits bit Hwf Hb) as (m & -> & Hm & Ht). exists m. split; [done|].
  apply (repr_intro _ _ (fun i => if i =? bit then false else tb map i)); [done| | |].
  - intros i Hi. apply Ht. lia.
  - intros i Hi. cbn. rewrite elem_of_difference, elem_of_singleton, <- H by done. destruct (Z.eqb_spec i bit); naive_solver.
  - set_solver.
Qed.
Lemma repr_toggle map S bit : repr map nbits S -> 0 <= bit < nbits ->
  exists map', bitmap_toggle map bit = Ok map' /\ repr map' nbits (if decide (bit ∈ S) then S ∖ {[bit]} else {[bit]} ∪ S).
Proof using Type.
  intros (Hwf & Hr & H) Hb. destruct (bitmap_toggle_spec map nbits bit Hwf Hb) as (m & -> & Hm & Ht). exists m. split; [done|].
  apply (repr_intro _ _ (fun i => if i =? bit then negb (tb map i) else tb map i)); [done| | |].
  - intros i Hi. apply Ht. lia.
  - intros i Hi. cbn. specialize (H i Hi). destruct (Z.eqb_spec i bit) as [->|]; case_decide; destruct (tb map _); set_solver.
  - case_decide; set_solver.
Qed.
Lemma repr_zero map : bm_wf map nbits -> exists map', bitmap_zero map nbits = Ok map' /\ repr map' nbits ∅.
Proof using Type.
  intros Hwf. destruct (bitmap_zero_spec map nbits Hwf) as (m & -> & Hm & Ht). exists m. split; [done|].
  apply (repr_intro _ _ (fun _ => false)); [done| |set_solver..].
  intros i Hi. rewrite Ht, (proj2 (Z.ltb_lt _ _)) by lia. done.
Qed.
Lemma repr_fill map : bm_wf map nbits -> exists map', bitmap_fill map nbits = Ok map' /\ repr map' nbits (below nbits).
Proof using Type.
  intros Hwf. destruct (bitmap_fill_spec map nbits Hwf) as (m & -> & Hm & Ht). exists m. split; [done|].
  apply (repr_intro _ _ (fun i => i <? nbits)); [done| | |].
  - intros i Hi. rewrite Ht, (proj2 (Z.ltb_lt _ _)) by lia. done.
  - intros i Hi. rewrite elem_below, Z.ltb_lt. lia.
  - intros i. apply elem_below.
Qed.
Lemma repr_range map S start len : repr map nbits S -> 0 <= start -> 0 <= len -> start + len <= nbits ->
  (exists map', bitmap_set_range map start len = Ok map' /\ repr map' nbits (S ∪ list_to_set (seqZ start len))) /\
  (exists map', bitmap_clear_range map start len = Ok map' /\ repr map' nbits (S ∖ list_to_set (seqZ start len))).
Proof using Type.
  intros (Hwf & Hr & H) H1 H2 H3. split.
  - destruct (bits_set_range_spec map nbits start len) as (m & -> & Hm & Ht); [done..|]. exists m. split; [done|].
    apply (repr_intro _ _ (fun i => (start <=? i) && (i <? start + len) || tb map i)); [done| | |].
    + intros i Hi. apply Ht. lia.
    + intros i Hi. rewrite orb_true_iff, andb_true_iff, Z.leb_le, Z.ltb_lt, H, elem_of_union, elem_of_list_to_set, elem_of_seqZ by done. lia || tauto.
    + intros i. rewrite elem_of_union, elem_of_list_to_set, elem_of_seqZ. intros [Hi|Hi]; [by apply Hr|lia].
  - destruct (bits_clear_range_spec map nbits start len) as (m & -> & Hm & Ht); [done..|]. exists m. split; [done|].
    apply (repr_intro _ _ (fun i => negb ((start <=? i) && (i <? start + len)) && tb map i)); [done| | |].
    + intros i Hi. apply Ht. lia.
    + intros i Hi. rewrite andb_true_iff, negb_true_iff, andb_false_iff, Z.leb_gt, Z.ltb_ge, H, elem_of_difference, elem_of_list_to_set, elem_of_seqZ by done. intuition lia.
    + set_solver.
Qed.

Section two.
Context (m1 m2 dst : list Z) (S1 S2 : gset Z).
Context (H1 : repr m1 nbits S1) (H2 : repr m2 nbits S2) (Hd : bm_wf dst nbits).

Lemma repr_and : exists d, bitmap_and dst m1 m2 nbits = Ok d /\ repr d nbits (S1 ∩ S2).
Proof using H1 H2 Hd.
  destruct H1 as (W1 & R1 & E1), H2 as (W2 & R2 & E2).
  destruct (bitmap_and_spec dst m1 m2 nbits Hd W1 W2) as (d & -> & Wd & Ed). exists d. split; [done|].
  eapply repr_intro; [done|exact Ed| |set_solver]. intros i Hi. cbn. by rewrite andb_true_iff, E1, E2, elem_of_intersection.
Qed.
Lemma repr_or : exists d, bitmap_or dst m1 m2 nbits = Ok d /\ repr d nbits (S1 ∪ S2).
Proof using H1 H2 Hd.
  destruct H1 as (W1 & R1 & E1), H2 as (W2 & R2 & E2).
  destruct (bitmap_or_spec dst m1 m2 nbits Hd W1 W2) as (d & -> & Wd & Ed). exists d. split; [done|].
  eapply repr_intro; [done|exact Ed| |set_solver]. intros i Hi. cbn. by rewrite orb_true_iff, E1, E2, elem_of_union.
Qed.
Lemma repr_andnot : exists d, bitmap_andnot dst m1 m2 nbits = Ok d /\ repr d nbits (S1 ∖ S2).
Proof using H1 H2 Hd.
  destruct H1 as (W1 & R1 & E1), H2 as (W2 & R2 & E2).
  destruct (bitmap_andnot_spec dst m1 m2 nbits Hd W1 W2) as (d & -> & Wd & Ed). exists d. split; [done|].
  eapply repr_intro; [done|exact Ed| |set_solver]. intros i Hi. cbn.
  by rewrite andb_true_iff, negb_true_iff, <- not_true_iff_false, E1, E2, elem_of_difference.
Qed.
Lemma repr_xor : exists d, bitmap_xor dst m1 m2 nbits = Ok d /\ repr d nbits ((S1 ∖ S2) ∪ (S2 ∖ S1)).
Proof using H1 H2 Hd.
  destruct H1 as (W1 & R1 & E1), H2 as (W2 & R2 & E2).
  destruct (bitmap_xor_spec dst m1 m2 nbits Hd W1 W2) as (d & -> & Wd & Ed). exists d. split; [done|].
  eapply repr_intro; [done|exact Ed| |set_solver]. intros i Hi. cbn. specialize (E1 i Hi). specialize (E2 i Hi).
  destruct (tb m1 i), (tb m2 i); cbn; set_solver.
Qed.

Lemma repr_equal : bitmap_equal m1 m2 nbits = Ok (bool_decide (S1 = S2)).
Proof using H1 H2.
  clear Hd.
  destruct H1 as (W1 & R1 & E1), H2 as (W2 & R2 & E2).
  destruct (bitmap_equal_spec m1 m2 nbits W1 W2) as (b & -> & Hb). f_equal. apply eq_bool_prop_intro.
  rewrite bool_decide_spec, Is_true_true, Hb. pose proof (words_bound nbits (proj1 W1)). split.
  - intros H0. apply set_eq. intros i. split; intros Hi.
    + apply E2; [specialize (R1 i Hi); lia|]. rewrite <- H0 by (specialize (R1 i Hi); lia). apply E1; [|done]. specialize (R1 i Hi). lia.
    + apply E1; [specialize (R2 i Hi); lia|]. rewrite H0 by (specialize (R2 i Hi); lia). apply E2; [|done]. specialize (R2 i Hi). lia.
  - intros HS i Hi. apply eq_true_iff_eq. rewrite E1, E2 by done. by rewrite HS.
Qed.
Lemma repr_subset : bitmap_subset m1 m2 nbits = Ok (bool_decide (S1 ⊆ S2)).
Proof using H1 H2.
  clear Hd.
  destruct H1 as (W1 & R1 & E1), H2 as (W2 & R2 & E2).
  destruct (bitmap_subset_spec m1 m2 nbits W1 W2) as (b & -> & Hb). f_equal. apply eq_bool_prop_intro.
  rewrite bool_decide_spec, Is_true_true, Hb. pose proof (words_bound nbits (proj1 W1)). split.
  - intros H0 i Hi. pose proof (R1 i Hi). apply E2; [lia|]. apply H0; [lia|]. apply E1; [lia|done].
  - intros HS i Hi. rewrite E1, E2 by done. apply HS.
Qed.
Lemma repr_intersects : bitmap_intersects m1 m2 nbits = Ok (bool_decide (S1 ∩ S2 ≠ ∅)).
Proof using H1 H2.
  clear Hd.
  destruct H1 as (W1 & R1 & E1), H2 as (W2 & R2 & E2).
  destruct (bitmap_intersects_spec m1 m2 nbits W1 W2) as (b & -> & Hb). f_equal. symmetry.
  rewrite bool_decide_not. destruct b; cbn.
  - apply negb_true_iff, bool_decide_eq_false. intros HS. assert (true = false) as [=]. apply Hb. intros i Hi.
    specialize (E1 i Hi). specialize (E2 i Hi). destruct (tb m1 i), (tb m2 i); try done. set_solver.
  - apply negb_false_iff, bool_decide_eq_true. apply elem_of_equiv_empty_L. intros i [I1 I2]%elem_of_intersection.
    pose proof (words_bound nbits (proj1 W1)). pose proof (R1 i I1). destruct Hb as [Hb _]. specialize (Hb eq_refl i ltac:(lia)).
    apply andb_false_iff in Hb as [Hb|Hb]; [apply E1 in I1|apply E2 in I2]; lia || congruence.
Qed.
Lemma repr_empty : bitmap_empty m1 nbits = Ok (bool_decide (S1 = ∅)).
Proof using H1.
  clear Hd H2.
  destruct H1 as (W1 & R1 & E1). destruct (bitmap_empty_spec m1 nbits W1) as (b & -> & Hb). f_equal.
  apply eq_bool_prop_intro. rewrite bool_decide_spec, Is_true_true, Hb. pose proof (words_bound nbits (proj1 W1)). split.
  - intros H0. apply elem_of_equiv_empty_L. intros i Hi. pose proof (R1 i Hi). apply E1 in Hi; [|lia]. rewrite H0 in Hi by lia. done.
  - intros HS i Hi. apply not_true_iff_false. rewrite E1 by done. set_solver.
Qed.
Lemma repr_full : bitmap_full m1 nbits = Ok (bool_decide (S1 = below nbits)).
Proof using H1.
  clear Hd H2.
  destruct (bitmap_full_spec m1 nbits (proj1 H1)) as (b & -> & Hb). f_equal.
  apply eq_bool_prop_intro. rewrite bool_decide_spec, Is_true_true, Hb. split.
  - intros H0. apply set_eq. intros i. rewrite elem_below. split; [apply H1|]. intros Hi. specialize (H0 i Hi).
    rewrite (repr_in m1 S1 i H1 Hi) in H0. by apply bool_decide_eq_true in H0.
  - intros HS i Hi. rewrite (repr_in m1 S1 i H1 Hi). apply bool_decide_eq_true. rewrite HS. by apply elem_below.
Qed.
End two.

(** The elements of [S] in [lo, hi), in increasing order. *)
Definition in_order (S : gset Z) (lo hi : Z) : list Z := filter (fun i => i ∈ S) (seqZ lo (hi - lo)).

Lemma cnt_filter P S n : (forall i, 0 <= i < Z.of_nat n -> P i = bool_decide (i ∈ S)) ->
  cnt P 0 n = Z.of_nat (length (in_order S 0 (Z.of_nat n))).
Proof using Type.
  unfold in_order. rewrite Z.sub_0_r. induction n as [|n IH]; intros HP; [done|]. cbn [cnt].
  rewrite Nat2Z.inj_succ, <- Z.add_1_r, seqZ_app, list.filter_app, length_app, IH by (lia || (intros; apply HP; lia)).
  rewrite HP by lia. change (seqZ (0 + Z.of_nat n) 1) with [0 + Z.of_nat n]. rewrite filter_cons.
  case_bool_decide; case_decide; try done; cbn; lia.
Qed.
Lemma repr_elements map S : repr map nbits S -> S = list_to_set (in_order S 0 nbits).
Proof using Type.
  intros (_ & R & _). apply set_eq. intros i. unfold in_order.
  rewrite elem_of_list_to_set, list_elem_of_filter, elem_of_seqZ. specialize (R i). split; [|tauto].
  intros Hi. split; [done|]. specialize (R Hi). lia.
Qed.
Lemma repr_weight map S : repr map nbits S -> bitmap_weight map nbits = Ok (Z.of_nat (size S)).
Proof using Type.
  intros H. rewrite bitmap_weight_spec by apply H. f_equal. pose proof (proj1 (proj1 H)).
  rewrite (cnt_filter _ S), Z2Nat.id by (done || (intros i Hi; apply (repr_in map S i H); lia)).
  rewrite (repr_elements map S H) at 2. rewrite size_list_to_set; [done|]. apply list.NoDup_filter, NoDup_seqZ.
Qed.

Lemma repr_next map S start : repr map nbits S -> 0 <= start ->
  (exists r, bitmap_find_next_bit map nbits start = Ok r /\ least_in (fun i => bool_decide (i ∈ S)) (Z.min nbits start) nbits r) /\
  (exists r, bitmap_find_next_zero_bit map nbits start = Ok r /\ least_in (fun i => bool_decide (i ∉ S)) (Z.min nbits start) nbits r).
Proof using Type.
  intros H Hs. pose proof (proj1 (proj1 H)) as Hn. split.
  - destruct (find_next_spec (fun w => w) (fun b => b) map nbits (proj1 H) ltac:(done) ltac:(done) start Hs)
      as (r & E & (? & L1 & L2)). exists r. split; [done|]. split_and!; [lia..| |].
    + intros j Hj. rewrite <- (repr_in map S j H) by lia. by apply L1.
    + intros Hr. rewrite <- (repr_in map S r H) by lia. by apply L2.
  - destruct (find_next_spec (not_w 64) negb map nbits (proj1 H)) with (start := start) as (r & E & (? & L1 & L2)); [..|done|].
    + intros w Hw. rewrite not_w_alt by done. by apply wrap_range.
    + intros w j Hw Hj. rewrite not_w_alt, testbit_wrap, testbit_lnot by lia. by rewrite (proj2 (Z.ltb_lt j 64)) by lia.
    + exists r. split; [done|]. split_and!; [lia..| |].
      * intros j Hj. rewrite bool_decide_not, <- (repr_in map S j H) by lia. by apply L1.
      * intros Hr. rewrite bool_decide_not, <- (repr_in map S r H) by lia. by apply L2.
Qed.
Lemma repr_first map S : repr map nbits S ->
  exists r, bitmap_find_first_set map nbits = Ok r /\ least_in (fun i => bool_decide (i ∈ S)) 0 nbits r.
Proof using Type.
  intros H. pose proof (proj1 (proj1 H)) as Hn. pose proof (words_bound nbits Hn).
  destruct (scan_words_spec (fun w => w) (fun b => b) map nbits (proj1 H) ltac:(done) ltac:(done)
              (Z.to_nat (bitmap_words nbits)) 0) as (r & E & (? & L1 & L2)); [lia..|].
  exists r. split; [done|]. split_and!; [lia..| |].
  - intros j Hj. rewrite <- (repr_in map S j H) by lia. apply L1. lia.
  - intros Hr. rewrite <- (repr_in map S r H) by lia. by apply L2.
Qed.
End repr.

(** ** Claims *)

(** C37: the update operations on a bitmap implement the operations of finite sets:
    insertion, removal, the symmetric change of one element, the empty set, the
    set of all indices, a range added or removed, intersection, union, symmetric
    difference and difference.  None of them faults on indices of the bitmap. *)
Theorem bitmap_updates_refine nbits m1 m2 dst S1 S2 bit start len :
  repr m1 nbits S1 -> repr m2 nbits S2 -> bm_wf dst nbits ->
  0 <= bit < nbits -> 0 <= start -> 0 <= len -> start + len <= nbits ->
  (exists d, bitmap_set m1 bit = Ok d /\ repr d nbits ({[bit]} ∪ S1)) /\
  (exists d, bitmap_clear m1 bit = Ok d /\ repr d nbits (S1 ∖ {[bit]})) /\
  (exists d, bitmap_toggle m1 bit = Ok d /\ repr d nbits (if decide (bit ∈ S1) then S1 ∖ {[bit]} else {[bit]} ∪ S1)) /\
  (exists d, bitmap_zero dst nbits = Ok d /\ repr d nbits ∅) /\
  (exists d, bitmap_fill dst nbits = Ok d /\ repr d nbits (below nbits)) /\
  (exists d, bitmap_set_range m1 start len = Ok d /\ repr d nbits (S1 ∪ list_to_set (seqZ start len))) /\
  (exists d, bitmap_clear_range m1 start len = Ok d /\ repr d nbits (S1 ∖ list_to_set (seqZ start len))) /\
  (exists d, bitmap_and dst m1 m2 nbits = Ok d /\ repr d nbits (S1 ∩ S2)) /\
  (exists d, bitmap_or dst m1 m2 nbits = Ok d /\ repr d nbits (S1 ∪ S2)) /\
  (exists d, bitmap_xor dst m1 m2 nbits = Ok d /\ repr d nbits ((S1 ∖ S2) ∪ (S2 ∖ S1))) /\
  (exists d, bitmap_andnot dst m1 m2 nbits = Ok d /\ repr d nbits (S1 ∖ S2)).
Proof.
  intros H1 H2 Hd Hb Hs Hl Hsl. destruct (repr_range nbits m1 S1 start len H1 Hs Hl Hsl) as [Hr1 Hr2].
  split_and!; [by apply repr_set|by apply repr_clear|by apply repr_toggle|by apply repr_zero|by apply repr_fill
    |done|done|by apply repr_and|by apply repr_or|by apply repr_xor|by apply repr_andnot].
Qed.

(** A represented bitmap on concrete words. *)
Lemma repr_of_list (map : list Z) nbits (l : list Z) :
  bool_decide (0 <= nbits /\ bitmap_words nbits <= Z.of_nat (length map) /\ Forall (fun w => 0 <= w < 2 ^ 64) map /\
    Forall (fun i => 0 <= i < nbits) l /\
    Forall (fun i => tb map i = bool_decide (i ∈ l)) (seqZ 0 (64 * bitmap_words nbits))) = true ->
  repr map nbits (list_to_set l).
Proof.
  intros (H1 & H2 & H3 & H4 & H5)%bool_decide_eq_true. split; [done|]. split.
  - intros i Hi%elem_of_list_to_set. by apply (list.Forall_forall (fun i => 0 <= i < nbits) l).
  - intros i Hi. rewrite elem_of_list_to_set.
    rewrite (proj1 (list.Forall_forall _ _) H5 i) by (apply elem_of_seqZ; lia). apply bool_decide_eq_true.
Qed.

Lemma bitmap_updates_refine_witness :
  exists d, bitmap_andnot [7; 0] [11; 16] [2; 16] 70 = Ok d /\
    repr d 70 (list_to_set [0; 1; 3; 68] ∖ list_to_set [1; 68]).
Proof.
  apply (bitmap_updates_refine 70 [11; 16] [2; 16] [7; 0] (list_to_set [0; 1; 3; 68]) (list_to_set [1; 68]) 69 60 10);
    [apply repr_of_list; by vm_compute|apply repr_of_list; by vm_compute| |lia..].
  split; [lia|]. split; [by vm_compute|]. repeat constructor; by vm_compute.
Defined.

(** the queries on bitmaps answer the questions about the sets they hold:
    membership, equality, inclusion, overlap, emptiness, fullness, cardinality and
    the least element, or the least non-element, from an index on. *)
Theorem bitmap_queries_refine nbits m1 m2 S1 S2 bit start :
  repr m1 nbits S1 -> repr m2 nbits S2 -> 0 <= bit < nbits -> 0 <= start ->
  bitmap_test m1 bit = Ok (bool_decide (bit ∈ S1)) /\
  bitmap_equal m1 m2 nbits = Ok (bool_decide (S1 = S2)) /\
  bitmap_subset m1 m2 nbits = Ok (bool_decide (S1 ⊆ S2)) /\
  bitmap_intersects m1 m2 nbits = Ok (bool_decide (S1 ∩ S2 ≠ ∅)) /\
  bitmap_empty m1 nbits = Ok (bool_decide (S1 = ∅)) /\
  bitmap_full m1 nbits = Ok (bool_decide (S1 = below nbits)) /\
  bitmap_weight m1 nbits = Ok (Z.of_nat (size S1)) /\
  (exists r, bitmap_find_first_set m1 nbits = Ok r /\ least_in (fun i => bool_decide (i ∈ S1)) 0 nbits r) /\
  (exists r, bitmap_find_next_bit m1 nbits start = Ok r /\
     least_in (fun i => bool_decide (i ∈ S1)) (Z.min nbits start) nbits r) /\
  (exists r, bitmap_find_next_zero_bit m1 nbits start = Ok r /\
     least_in (fun i => bool_decide (i ∉ S1)) (Z.min nbits start) nbits r).
Proof.
  intros H1 H2 Hb Hs. destruct (repr_next nbits m1 S1 start H1 Hs) as [Hn1 Hn2].
  split_and!; [|by apply repr_equal|by apply repr_subset|by apply repr_intersects|by apply repr_empty|by apply repr_full
    |by apply repr_weight|by apply repr_first|done|done].
  rewrite (bitmap_test_spec m1 nbits bit (proj1 H1) Hb). f_equal. by apply (repr_in nbits).
Qed.

Lemma bitmap_queries_refine_witness :
  bitmap_weight [11; 16] 70 = Ok (Z.of_nat (size (list_to_set [0; 1; 3; 68] : gset Z))) /\
  bitmap_find_next_bit [11; 16] 70 4 = Ok 68.
Proof.
  split; [|by vm_compute].
  apply (bitmap_queries_refine 70 [11; 16] [2; 16] (list_to_set [0; 1; 3; 68]) (list_to_set [1; 68]) 69 4);
    [apply repr_of_list; by vm_compute|apply repr_of_list; by vm_compute|lia..].
Defined.

(** *** Iteration over a CPU mask *)

Lemma active_range cpu_count : 0 <= cpu_count -> 1 <= cpu_mask_active_bits cpu_count <= CPU_MASK_BITS.
Proof.
  intros H. unfold cpu_mask_active_bits, CPU_MASK_BITS.
  destruct (Z.eqb_spec cpu_count 0), (Z.leb_spec cpu_count 128); cbn; lia.
Qed.
Lemma wf_active m cpu_count : 0 <= cpu_count -> bm_wf m CPU_MASK_BITS -> bm_wf m (cpu_mask_active_bits cpu_count).
Proof.
  intros Hc (_ & Hl & F). pose proof (active_range cpu_count Hc) as Ha.
  pose proof (words_bound (cpu_mask_active_bits cpu_count)). unfold CPU_MASK_BITS in *.
  change (bitmap_words 128) with 2 in Hl. split_and!; [lia|lia|done].
Qed.

Section visits.
Context {St : Type} (cpu_count : Z) (mask : St -> list Z) (body : Z -> St -> outcome St).
Context (Hc : 0 <= cpu_count).
Abbreviation A := (cpu_mask_active_bits cpu_count).

(** The body run on the CPUs of a list, one after the other. *)
Fixpoint each (l : list Z) (s : St) : outcome St :=
  match l with [] => Ok s | x :: l => s ← body x s; each l s end.

Lemma in_order_step S lo hi r : least_in (fun i => bool_decide (i ∈ S)) lo hi r ->
  in_order S lo hi = if r <? hi then r :: in_order S (r + 1) hi else [].
Proof using Type.
  intros (Hr & H1 & H2). unfold in_order. replace (hi - lo) with ((r - lo) + (hi - r)) by lia.
  rewrite seqZ_app, list.filter_app by lia.
  assert (filter (fun i => i ∈ S) (seqZ lo (r - lo)) = []) as ->.
  { apply elem_of_nil_inv. intros j [Hin Hj%elem_of_seqZ]%list_elem_of_filter. specialize (H1 j ltac:(lia)). by apply bool_decide_eq_false in H1. }
  replace (lo + (r - lo)) with r by lia. cbn [app]. destruct (Z.ltb_spec r hi).
  - rewrite seqZ_cons by lia. rewrite filter_cons_True by (apply (bool_decide_eq_true_1 _), H2; lia).
    f_equal. f_equal. f_equal; lia.
  - by replace (hi - r) with 0 by lia.
Qed.

Lemma next_active m S start : repr m CPU_MASK_BITS S -> 0 <= start <= A ->
  exists r, bitmap_find_next_bit m A start = Ok r /\ least_in (fun i => bool_decide (i ∈ S)) start A r.
Proof using Hc.
  intros H Hs. pose proof (active_range cpu_count Hc) as Ha.
  destruct (find_next_spec (fun w => w) (fun b => b) m A (wf_active m cpu_count Hc (proj1 H)) ltac:(done) ltac:(done) start)
    as (r & E & (? & L1 & L2)); [lia|]. exists r. split; [done|]. split_and!; [lia..| |].
  - intros j Hj. rewrite <- (repr_in CPU_MASK_BITS m S j H) by lia. apply L1. lia.
  - intros Hr. rewrite <- (repr_in CPU_MASK_BITS m S r H) by lia. by apply L2.
Qed.
Lemma first_active m S : repr m CPU_MASK_BITS S ->
  exists r, bitmap_find_first_set m A = Ok r /\ least_in (fun i => bool_decide (i ∈ S)) 0 A r.
Proof using Hc.
  intros H. pose proof (active_range cpu_count Hc) as Ha. pose proof (words_bound A ltac:(lia)).
  destruct (scan_words_spec (fun w => w) (fun b => b) m A (wf_active m cpu_count Hc (proj1 H)) ltac:(done) ltac:(done)
              (Z.to_nat (bitmap_words A)) 0) as (r & E & (? & L1 & L2)); [lia..|].
  exists r. split; [done|]. split_and!; [lia..| |].
  - intros j Hj. rewrite <- (repr_in CPU_MASK_BITS m S j H) by lia. apply L1. lia.
  - intros Hr. rewrite <- (repr_in CPU_MASK_BITS m S r H) by lia. by apply L2.
Qed.

Lemma for_each_loop m S lo cpu fuel s : repr m CPU_MASK_BITS S -> mask s = m ->
  (forall c s s', mask s = m -> body c s = Ok s' -> mask s' = m) ->
  least_in (fun i => bool_decide (i ∈ S)) lo A cpu -> 0 <= lo -> A - cpu < Z.of_nat fuel ->
  loop fuel (for_each_cpu_step cpu_count mask body) (cpu, s) = each (in_order S lo A) s.
Proof using Hc.
  intros Hm Hs Hbody. revert lo cpu s Hs. induction fuel as [|fuel IH]; intros lo cpu s Hs Hl Hlo Hf; [destruct Hl; lia|].
  rewrite (in_order_step S lo A cpu Hl). cbn [loop]. unfold for_each_cpu_step. cbn [fst snd].
  destruct (Z.ltb_spec cpu A); [|done]. cbn [each]. destruct (body cpu s) as [s'| |] eqn:Eb; [|done..].
  cbn. rewrite (Hbody cpu s s' Hs Eb).
  destruct (next_active m S (cpu + 1) Hm) as (r & -> & Hr); [destruct Hl; lia|]. cbn.
  apply IH; [by eapply Hbody|done|destruct Hl; lia|]. destruct Hr as [Hr _]. lia.
Qed.
End visits.

(** C38: [for_each_cpu].  When the body leaves the mask alone, the macro runs the
    body on the active CPUs of the mask, each once and in increasing order, and
    129 rounds are enough.  When the body changes the mask (to another mask) and
    does not fail, the loop still ends within 129 rounds. *)
Theorem for_each_cpu_correct {St} cpu_count (mask : St -> list Z) body s S fuel :
  0 <= cpu_count -> CPU_MASK_BITS < Z.of_nat fuel -> repr (mask s) CPU_MASK_BITS S ->
  ((forall c t t', mask t = mask s -> body c t = Ok t' -> mask t' = mask s) ->
     for_each_cpu cpu_count mask body fuel s =
     each body (in_order S 0 (cpu_mask_active_bits cpu_count)) s) /\
  ((forall c t, bm_wf (mask t) CPU_MASK_BITS -> exists t', body c t = Ok t' /\ bm_wf (mask t') CPU_MASK_BITS) ->
     exists t, for_each_cpu cpu_count mask body fuel s = Ok t).
Proof.
  intros Hc Hf HS. pose proof (active_range cpu_count Hc) as Ha. unfold for_each_cpu.
  destruct (first_active cpu_count Hc (mask s) S HS) as (r & -> & Hr). rewrite bind_Ok. split.
  - intros Hb. apply (for_each_loop cpu_count mask body Hc (mask s) S 0 r fuel s HS eq_refl); [|done..|destruct Hr; lia].
    intros c t t' Ht. by apply Hb.
  - intros Hb.
    destruct (loop_total (for_each_cpu_step cpu_count mask body)
      (fun c n => 0 <= c.1 <= cpu_mask_active_bits cpu_count /\ bm_wf (mask c.2) CPU_MASK_BITS /\
         cpu_mask_active_bits cpu_count - c.1 <= Z.of_nat n) (fun _ => True)) with (fuel := fuel) (s := (r, s)) (n := 128%nat) as (t & Et & _).
    + intros [c t] n (Hc1 & Hw & Hn). unfold for_each_cpu_step. cbn [fst snd] in *.
      destruct (Z.ltb_spec c (cpu_mask_active_bits cpu_count)); [left|right; by eexists].
      destruct (Hb c t Hw) as (t' & -> & Hw'). rewrite bind_Ok.
      destruct (find_next_spec (fun w => w) (fun b => b) (mask t') _ (wf_active _ cpu_count Hc Hw') ltac:(done) ltac:(done)
        (c + 1)) as (r' & E & (Hr' & _)); [lia|]. unfold bitmap_find_next_bit. rewrite E, bind_Ok.
      exists (r', t'), (n - 1)%nat. cbn [fst snd]. split_and!; try done; lia.
    + cbn. destruct Hr as [Hr _]. unfold CPU_MASK_BITS in Ha. split_and!; [lia..|apply HS|lia].
    + unfold CPU_MASK_BITS in Hf. lia.
    + eauto.
Qed.

Lemma for_each_cpu_correct_witness :
  for_each_cpu 4 fst (fun c s => Ok (s.1, s.2 ++ [c])) 129 ([43; 0], []) = Ok ([43; 0], [0; 1; 3]).
Proof.
  destruct (for_each_cpu_correct 4 fst (fun c s => Ok (s.1, s.2 ++ [c])) ([43; 0], []) (list_to_set [0; 1; 3; 5]) 129) as [H _];
    [lia|by vm_compute|apply repr_of_list; by vm_compute|].
  rewrite H; [by vm_compute|]. intros c t t' Ht [= <-]. done.
Defined.
