(* ===== verification/Ring.v ===== *)
(** * The single-producer single-consumer byte ring

    Models [kernel/structures/spsc_fifo_ring.c] and its header.  The indices
    are free-running [size_t] counters that wrap at 2^64 and are reduced with
    the mask only to address the buffer.  [Module Ring] has the operations and
    their refinement to a bounded byte queue; [Module Concurrent] runs a
    producer and a consumer as interleaved steps, one atomic access or one
    [memcpy] each. *)

From S2P Require Import Prelude BitMath.

Module Ring.

(** ** Data and operations *)

Record spsc_fifo_ring := mkRing {
  head : Z;
  tail : Z;
  size : Z;
  mask : Z;
  data : option (list Z);
}.

Definition SPSC_FIFO_RING_MIN_CAPACITY : Z := 2.

Definition spsc_fifo_ring_init_with (buffer : list Z) (sz : Z) : spsc_fifo_ring :=
  mkRing 0 0 sz (u64 (sz - 1)) (Some buffer).

(** [valloc] of a zeroed buffer succeeds or not: [alloc_ok]. *)
Definition spsc_fifo_ring_init (fifo : spsc_fifo_ring) (sz : Z) (alloc_ok : bool)
    : spsc_fifo_ring * bool :=
  let cap := Z.max (next_pow2 sz) SPSC_FIFO_RING_MIN_CAPACITY in
  if alloc_ok
  then (spsc_fifo_ring_init_with (replicate (Z.to_nat cap) 0) cap, true)
  else (fifo, false).

Definition spsc_fifo_ring_destroy (fifo : spsc_fifo_ring) : spsc_fifo_ring :=
  mkRing (head fifo) (tail fifo) 0 0 None.

Definition set_head (fifo : spsc_fifo_ring) (h : Z) : spsc_fifo_ring :=
  mkRing h (tail fifo) (size fifo) (mask fifo) (data fifo).
Definition set_tail (fifo : spsc_fifo_ring) (t : Z) : spsc_fifo_ring :=
  mkRing (head fifo) t (size fifo) (mask fifo) (data fifo).
Definition set_data (fifo : spsc_fifo_ring) (d : list Z) : spsc_fifo_ring :=
  mkRing (head fifo) (tail fifo) (size fifo) (mask fifo) (Some d).

Definition spsc_fifo_ring_write (fifo : spsc_fifo_ring) (src : list Z) (len : Z)
    : outcome (spsc_fifo_ring * Z) :=
  let hd := head fifo in
  let tl := tail fifo in
  let avail := u64 (size fifo - u64 (hd - tl)) in
  let len := Z.min len avail in
  if len =? 0 then Ok (fifo, 0) else
  let off := Z.land hd (mask fifo) in
  let l := Z.min len (u64 (size fifo - off)) in
  d ← deref (data fifo);
  d ← memcpy d off src 0 l;
  d ← (if l <? len then memcpy d 0 src l (len - l) else Ok d);
  Ok (set_head (set_data fifo d) (u64 (hd + len)), len).

(** The copy out of the ring shared by [read] and [peek]. *)
Definition ring_copy_out (fifo : spsc_fifo_ring) (dst : list Z) (tl len : Z)
    : outcome (list Z) :=
  let off := Z.land tl (mask fifo) in
  let l := Z.min len (u64 (size fifo - off)) in
  d ← deref (data fifo);
  dst ← memcpy dst 0 d off l;
  if l <? len then memcpy dst l d 0 (len - l) else Ok dst.

Definition spsc_fifo_ring_peek (fifo : spsc_fifo_ring) (dst : list Z) (len : Z)
    : outcome (list Z * Z) :=
  let hd := head fifo in
  let tl := tail fifo in
  let in_use := u64 (hd - tl) in
  let len := Z.min len in_use in
  if len =? 0 then Ok (dst, 0) else
  dst ← ring_copy_out fifo dst tl len;
  Ok (dst, len).

Definition spsc_fifo_ring_read (fifo : spsc_fifo_ring) (dst : list Z) (len : Z)
    : outcome (spsc_fifo_ring * list Z * Z) :=
  let hd := head fifo in
  let tl := tail fifo in
  let in_use := u64 (hd - tl) in
  let len := Z.min len in_use in
  if len =? 0 then Ok (fifo, dst, 0) else
  dst ← ring_copy_out fifo dst tl len;
  Ok (set_tail fifo (u64 (tl + len)), dst, len).

(** A pointer is stored as its 8 little-endian bytes. *)
Definition spsc_fifo_ring_push_ptr (fifo : spsc_fifo_ring) (ptr : Z)
    : outcome (spsc_fifo_ring * bool) :=
  '(fifo, n) ← spsc_fifo_ring_write fifo (Z_to_little_endian 8 8 ptr) 8;
  Ok (fifo, n =? 8).
Definition spsc_fifo_ring_pop_ptr (fifo : spsc_fifo_ring) (out_ptr : Z)
    : outcome (spsc_fifo_ring * Z * bool) :=
  '(fifo, bytes, n) ← spsc_fifo_ring_read fifo (Z_to_little_endian 8 8 out_ptr) 8;
  Ok (fifo, little_endian_to_Z 8 bytes, n =? 8).

Definition spsc_fifo_ring_len (fifo : spsc_fifo_ring) : Z := u64 (head fifo - tail fifo).
Definition spsc_fifo_ring_avail (fifo : spsc_fifo_ring) : Z :=
  u64 (size fifo - spsc_fifo_ring_len fifo).
Definition spsc_fifo_ring_reset (fifo : spsc_fifo_ring) : spsc_fifo_ring :=
  set_tail (set_head fifo 0) 0.

(** ** The buffer seen through the mask *)

(** A buffer whose size is a power of two, with the matching mask. *)
Definition ring_shape (fifo : spsc_fifo_ring) (d : list Z) : Prop :=
  exists k, 0 <= k < 64 /\ size fifo = 2 ^ k /\ mask fifo = 2 ^ k - 1 /\
    data fifo = Some d /\ Z.of_nat (length d) = 2 ^ k.

Lemma mask_mod k x : 0 <= k < 64 -> Z.land (u64 x) (2 ^ k - 1) = x `mod` 2 ^ k.
Proof.
  intros. rewrite land_pred_pow2 by lia. unfold wrap.
  apply Z.mod_mod_divide. exists (2 ^ (64 - k)). rewrite <- Z.pow_add_r by lia. f_equal. lia.
Qed.

(** Positions within one lap of the ring are distinct. *)
Lemma mod_lap_inj a b s :
  0 < s -> Z.abs (a - b) < s -> a `mod` s = b `mod` s -> a = b.
Proof.
  intros Hs Hab E. pose proof (Z.div_mod a s). pose proof (Z.div_mod b s).
  assert (a - b = s * (a `div` s - b `div` s)) by lia.
  assert (a `div` s - b `div` s = 0) by nia. nia.
Qed.

Lemma mod_shift a k s :
  0 < s -> 0 <= k < s ->
  (a + k) `mod` s = if decide (a `mod` s + k < s) then a `mod` s + k else a `mod` s + k - s.
Proof.
  intros Hs Hk. pose proof (Z.mod_pos_bound a s Hs). pose proof (Z.div_mod a s).
  case_decide.
  - symmetry. apply Z.mod_unique with (a `div` s); lia.
  - symmetry. apply Z.mod_unique with (a `div` s + 1); lia.
Qed.

(** The two-part copy into the ring at the free-running position [h]. *)
Lemma ring_copy_in (d src : list Z) (h len s : Z) :
  0 < s -> Z.of_nat (length d) = s -> 0 < len <= s -> len <= Z.of_nat (length src) ->
  let off := h `mod` s in
  let l := Z.min len (s - off) in
  exists d1 d2,
    memcpy d off src 0 l = Ok d1 /\
    (if l <? len then memcpy d1 0 src l (len - l) else Ok d1) = Ok d2 /\
    length d2 = length d /\
    (forall k, 0 <= k < len -> d2 !! Z.to_nat ((h + k) `mod` s) = src !! Z.to_nat k) /\
    (forall j, 0 <= j < s -> (forall k, 0 <= k < len -> j <> (h + k) `mod` s) ->
       d2 !! Z.to_nat j = d !! Z.to_nat j).
Proof.
  intros Hs Hd Hlen Hsrc off l.
  assert (0 <= off < s) as Hoff by (apply Z.mod_pos_bound; lia).
  destruct (memcpy_Ok d off src 0 l) as (d1 & E1 & L1 & In1 & Out1); try lia.
  exists d1. destruct (Z.ltb_spec l len) as [Hl|Hl].
  - destruct (memcpy_Ok d1 0 src l (len - l)) as (d2 & E2 & L2 & In2 & Out2); try lia.
    exists d2. split_and!; try done; [congruence| |].
    + intros k Hk. rewrite mod_shift by lia. fold off. case_decide.
      * rewrite Out2 by lia. by rewrite In1 by lia.
      * replace (off + k - s) with (0 + (k - l)) by lia. rewrite In2 by lia.
        f_equal. lia.
    + intros j Hj Hout. rewrite Out2; [rewrite Out1; [done|lia|]|lia|].
      * intros Hin. apply (Hout (j - off)); [lia|]. rewrite mod_shift by lia. fold off.
        rewrite decide_True; lia.
      * intros Hin. apply (Hout (s - off + j)); [lia|]. rewrite mod_shift by lia. fold off.
        rewrite decide_False; lia.
  - exists d1. split_and!; try done.
    + intros k Hk. rewrite mod_shift by lia. fold off. rewrite decide_True by lia.
      by rewrite In1 by lia.
    + intros j Hj Hout. apply Out1; [lia|]. intros Hin.
      apply (Hout (j - off)); [lia|]. rewrite mod_shift by lia. fold off.
      rewrite decide_True; lia.
Qed.

(** The two-part copy out of the ring. *)
Lemma ring_copy_out_spec fifo d dst t len s :
  ring_shape fifo d -> s = size fifo -> 0 < len <= s -> len <= Z.of_nat (length dst) ->
  exists dst', ring_copy_out fifo dst (u64 t) len = Ok dst' /\ length dst' = length dst /\
    (forall k, 0 <= k < len -> dst' !! Z.to_nat k = d !! Z.to_nat ((t + k) `mod` s)) /\
    (forall j, len <= j -> dst' !! Z.to_nat j = dst !! Z.to_nat j).
Proof.
  intros (k & Hk & Es & Em & Ed & Ld) -> Hlen Hdst. unfold ring_copy_out.
  rewrite Em, Ed, Es in *. rewrite mask_mod by done. cbn [deref]. rewrite bind_Ok.
  assert (0 < 2 ^ k) as Hs by (apply Z.pow_pos_nonneg; lia).
  assert (0 <= t `mod` 2 ^ k < 2 ^ k) as Hoff by (apply Z.mod_pos_bound; lia).
  set (off := t `mod` 2 ^ k) in *.
  rewrite (wrap_small 64).
  2:{ unfold in_u. assert (2 ^ k < 2 ^ 64) by (apply Z.pow_lt_mono_r; lia). lia. }
  set (l := Z.min len (2 ^ k - off)).
  destruct (memcpy_Ok dst 0 d off l) as (d1 & E1 & L1 & In1 & Out1); try lia.
  rewrite E1, bind_Ok. destruct (Z.ltb_spec l len) as [Hl|Hl].
  - destruct (memcpy_Ok d1 l d 0 (len - l)) as (d2 & E2 & L2 & In2 & Out2); try lia.
    exists d2. split_and!; try done; [congruence| |].
    + intros j Hj. rewrite mod_shift by lia. fold off. case_decide.
      * rewrite Out2 by lia. replace j with (0 + j) at 1 by lia. by rewrite In1 by lia.
      * replace j with (l + (j - l)) at 1 by lia. rewrite In2 by lia. f_equal. lia.
    + intros j Hj. rewrite Out2, Out1 by lia. done.
  - exists d1. split_and!; try done.
    + intros j Hj. rewrite mod_shift by lia. fold off. rewrite decide_True by lia.
      replace j with (0 + j) at 1 by lia. by rewrite In1 by lia.
    + intros j Hj. rewrite Out1 by lia. done.
Qed.

(** ** Refinement to a bounded byte queue *)

(** The ring holds the bytes [q], oldest first. *)
Definition ring_rep (fifo : spsc_fifo_ring) (q : list Z) : Prop :=
  exists d t, ring_shape fifo d /\ tail fifo = u64 t /\
    head fifo = u64 (t + Z.of_nat (length q)) /\ Z.of_nat (length q) <= size fifo /\
    forall i, 0 <= i < Z.of_nat (length q) ->
      d !! Z.to_nat ((t + i) `mod` size fifo) = q !! Z.to_nat i.

Lemma ring_shape_size fifo d :
  ring_shape fifo d -> 0 < size fifo < 2 ^ 64 /\ Z.of_nat (length d) = size fifo.
Proof.
  intros (k & Hk & -> & _ & _ & ->).
  assert (2 ^ k < 2 ^ 64) by (apply Z.pow_lt_mono_r; lia).
  assert (0 < 2 ^ k) by (apply Z.pow_pos_nonneg; lia). lia.
Qed.

Lemma u64_diff a b : in_u 64 (a - b) -> u64 (u64 a - u64 b) = a - b.
Proof. intros H. autorewrite with charm. by apply wrap_small. Qed.

Lemma ring_rep_init buffer k :
  0 <= k < 64 -> Z.of_nat (length buffer) = 2 ^ k ->
  ring_rep (spsc_fifo_ring_init_with buffer (2 ^ k)) [].
Proof.
  intros Hk Hb. assert (0 < 2 ^ k) by (apply Z.pow_pos_nonneg; lia).
  assert (2 ^ k < 2 ^ 64) by (apply Z.pow_lt_mono_r; lia).
  exists buffer, 0. split_and!; try done; cbn; try lia.
  exists k. cbn. split_and!; try done; try lia. apply wrap_small. unfold in_u. lia.
Qed.

Lemma ring_rep_len fifo q : ring_rep fifo q -> spsc_fifo_ring_len fifo = Z.of_nat (length q).
Proof.
  intros (d & t & Hsh & Et & Eh & Hq & _). destruct (ring_shape_size _ _ Hsh) as [Hs _].
  unfold spsc_fifo_ring_len. rewrite Et, Eh, u64_diff; unfold in_u; lia.
Qed.

Lemma ring_rep_avail fifo q :
  ring_rep fifo q -> spsc_fifo_ring_avail fifo = size fifo - Z.of_nat (length q).
Proof.
  intros H. pose proof (ring_rep_len _ _ H). destruct H as (d & t & Hsh & _ & _ & Hq & _).
  destruct (ring_shape_size _ _ Hsh) as [Hs _]. unfold spsc_fifo_ring_avail.
  rewrite H0. apply wrap_small. unfold in_u. lia.
Qed.

Lemma list_eq_Z {A} (l1 l2 : list A) :
  (forall i, 0 <= i -> l1 !! Z.to_nat i = l2 !! Z.to_nat i) -> l1 = l2.
Proof.
  intros H. apply list_eq. intros i. specialize (H (Z.of_nat i) ltac:(lia)).
  by rewrite Nat2Z.id in H.
Qed.

Lemma ring_write_spec fifo q src len :
  ring_rep fifo q -> 0 <= len <= Z.of_nat (length src) ->
  let n := Z.min len (size fifo - Z.of_nat (length q)) in
  exists fifo', spsc_fifo_ring_write fifo src len = Ok (fifo', n) /\
    ring_rep fifo' (q ++ take (Z.to_nat n) src) /\ size fifo' = size fifo.
Proof.
  intros Hrep Hlen n. pose proof (ring_rep_avail _ _ Hrep) as Hav.
  unfold spsc_fifo_ring_avail, spsc_fifo_ring_len in Hav.
  destruct Hrep as (d & t & Hsh & Et & Eh & Hq & Hd).
  destruct (ring_shape_size _ _ Hsh) as [Hs HL]. unfold spsc_fifo_ring_write.
  rewrite Hav. fold n. destruct (Z.eqb_spec n 0) as [Hn|Hn].
  - exists fifo. rewrite Hn, app_nil_r. split_and!; try done. by exists d, t.
  - assert (0 < n) by lia. pose proof Hsh as (k & Hk & Es & Em & Ed & _).
    rewrite Eh, Em, Ed, mask_mod by done. cbn [deref]. rewrite bind_Ok.
    set (h := t + Z.of_nat (length q)) in *.
    assert (0 <= h `mod` 2 ^ k < 2 ^ k) by (apply Z.mod_pos_bound; lia).
    rewrite (wrap_small 64 (size fifo - _)) by (unfold in_u; lia).
    destruct (ring_copy_in d src h n (size fifo)) as (d1 & d2 & E1 & E2 & L2 & In & Out); try lia.
    rewrite Es in E1, E2 |- *. rewrite E1, bind_Ok, E2, bind_Ok. eexists. split; [done|].
    split; [|done]. exists d2, t. cbn.
    assert (length (q ++ take (Z.to_nat n) src) = (length q + Z.to_nat n)%nat) as Lq
      by (rewrite length_app, length_take; lia).
    rewrite Lq. split_and!; try done.
    + exists k. cbn. split_and!; try done; lia.
    + rewrite wrap_add_l. f_equal. lia.
    + lia.
    + intros i Hi. destruct (decide (i < Z.of_nat (length q))).
      * rewrite lookup_app_l by lia. rewrite <- Hd by lia. apply Out.
        { apply Z.mod_pos_bound. lia. }
        intros j Hj E. apply mod_lap_inj in E; lia.
      * rewrite lookup_app_r by lia.
        replace (t + i) with (h + (i - Z.of_nat (length q))) by lia.
        rewrite In by lia. rewrite lookup_take_lt by lia. f_equal. lia.
Qed.

(** writing to a ring that holds the bytes [q] stores as many bytes of the
    source as fit, in order, behind [q], and returns that number; it never
    overwrites a byte that has not been read and never touches memory outside
    the buffers, also across the wrap of the buffer and of the 64-bit
    counters. *)
Theorem spsc_fifo_ring_write_refines fifo q src len :
  ring_rep fifo q -> 0 <= len <= Z.of_nat (length src) ->
  let n := Z.min len (size fifo - Z.of_nat (length q)) in
  exists fifo', spsc_fifo_ring_write fifo src len = Ok (fifo', n) /\
    ring_rep fifo' (q ++ take (Z.to_nat n) src) /\ size fifo' = size fifo.
Proof. apply ring_write_spec. Qed.

(** Witness five bytes into an empty ring of four. *)
Lemma spsc_fifo_ring_write_refines_witness :
  exists fifo',
    spsc_fifo_ring_write (spsc_fifo_ring_init_with [0; 0; 0; 0] 4) [1; 2; 3; 4; 5] 5 = Ok (fifo', 4)
    /\ ring_rep fifo' [1; 2; 3; 4] /\ size fifo' = 4.
Proof.
  exact (spsc_fifo_ring_write_refines (spsc_fifo_ring_init_with [0; 0; 0; 0] (2 ^ 2)) []
           [1; 2; 3; 4; 5] 5 (ring_rep_init [0; 0; 0; 0] 2 ltac:(lia) ltac:(reflexivity))
           ltac:(cbn; lia)).
Defined.

(** The bytes a copy out of a represented ring delivers. *)
Lemma ring_rep_copy_out fifo q dst n :
  ring_rep fifo q -> 0 < n <= Z.of_nat (length q) -> n <= Z.of_nat (length dst) ->
  ring_copy_out fifo dst (tail fifo) n =
    Ok (take (Z.to_nat n) q ++ drop (Z.to_nat n) dst).
Proof.
  intros (d & t & Hsh & Et & Eh & Hq & Hd) Hn Hdst. rewrite Et.
  destruct (ring_copy_out_spec fifo d dst t n (size fifo)) as (dst' & E & L & In & Out);
    [done..|lia|lia|]. rewrite E. f_equal. apply list_eq_Z. intros i Hi.
  destruct (decide (i < n)).
  - rewrite In, Hd by lia. rewrite lookup_app_l by (rewrite length_take; lia).
    by rewrite lookup_take_lt by lia.
  - rewrite Out by lia. rewrite lookup_app_r by (rewrite length_take; lia).
    rewrite length_take, lookup_drop. f_equal. lia.
Qed.

Lemma ring_rep_drop fifo q n :
  ring_rep fifo q -> 0 <= n <= Z.of_nat (length q) ->
  ring_rep (set_tail fifo (u64 (tail fifo + n))) (drop (Z.to_nat n) q).
Proof.
  intros (d & t & Hsh & Et & Eh & Hq & Hd) Hn. exists d, (t + n). cbn.
  rewrite length_drop. split_and!; try done.
  - by rewrite Et, wrap_add_l.
  - rewrite Eh. f_equal. lia.
  - lia.
  - intros i Hi. rewrite lookup_drop. replace (t + n + i) with (t + (n + i)) by lia.
    rewrite Hd by lia. f_equal. lia.
Qed.

Lemma ring_read_spec fifo q dst len :
  ring_rep fifo q -> 0 <= len <= Z.of_nat (length dst) ->
  let n := Z.min len (Z.of_nat (length q)) in
  exists fifo', spsc_fifo_ring_read fifo dst len =
      Ok (fifo', take (Z.to_nat n) q ++ drop (Z.to_nat n) dst, n) /\
    ring_rep fifo' (drop (Z.to_nat n) q) /\ size fifo' = size fifo.
Proof.
  intros Hrep Hlen n. pose proof (ring_rep_len _ _ Hrep) as Hl.
  unfold spsc_fifo_ring_len in Hl. unfold spsc_fifo_ring_read. rewrite Hl. fold n.
  destruct (Z.eqb_spec n 0) as [Hn|Hn].
  - exists fifo. rewrite Hn. by cbn.
  - rewrite (ring_rep_copy_out _ q) by (done || lia). rewrite bind_Ok.
    eexists. split; [done|]. split; [|done]. apply ring_rep_drop; [done|lia].
Qed.

(** reading delivers the oldest bytes in order, as many as are wanted and
    present, leaves the rest of the destination alone and keeps the remaining
    bytes queued. *)
Theorem spsc_fifo_ring_read_refines fifo q dst len :
  ring_rep fifo q -> 0 <= len <= Z.of_nat (length dst) ->
  let n := Z.min len (Z.of_nat (length q)) in
  exists fifo', spsc_fifo_ring_read fifo dst len =
      Ok (fifo', take (Z.to_nat n) q ++ drop (Z.to_nat n) dst, n) /\
    ring_rep fifo' (drop (Z.to_nat n) q) /\ size fifo' = size fifo.
Proof. apply ring_read_spec. Qed.

(** Witness the ring of C4's witness read back. *)
Lemma spsc_fifo_ring_read_refines_witness :
  exists fifo', spsc_fifo_ring_read (spsc_fifo_ring_init_with [0; 0] 2) [7] 1 =
      Ok (fifo', [7], 0) /\ ring_rep fifo' [] /\ size fifo' = 2.
Proof.
  exact (spsc_fifo_ring_read_refines (spsc_fifo_ring_init_with [0; 0] (2 ^ 1)) [] [7] 1
           (ring_rep_init [0; 0] 1 ltac:(lia) ltac:(reflexivity)) ltac:(cbn; lia)).
Defined.

(** [peek] delivers what [read] would. *)
Lemma spsc_fifo_ring_peek_refines fifo q dst len :
  ring_rep fifo q -> 0 <= len <= Z.of_nat (length dst) ->
  let n := Z.min len (Z.of_nat (length q)) in
  spsc_fifo_ring_peek fifo dst len =
    Ok (take (Z.to_nat n) q ++ drop (Z.to_nat n) dst, n).
Proof.
  intros Hrep Hlen n. pose proof (ring_rep_len _ _ Hrep) as Hl.
  unfold spsc_fifo_ring_len in Hl. unfold spsc_fifo_ring_peek. rewrite Hl. fold n.
  destruct (Z.eqb_spec n 0) as [Hn|Hn].
  - rewrite Hn. by cbn.
  - by rewrite (ring_rep_copy_out _ q) by (done || lia).
Qed.

(** ** Pointers through the ring *)

Definition ptr_bytes (p : Z) : list Z := Z_to_little_endian 8 8 p.
Definition ptrs_bytes (ps : list Z) : list Z := mjoin (ptr_bytes <$> ps).

Lemma length_ptr_bytes p : length (ptr_bytes p) = 8%nat.
Proof. apply Nat2Z.inj. unfold ptr_bytes. by rewrite length_Z_to_little_endian. Qed.

Lemma length_ptrs_bytes ps : Z.of_nat (length (ptrs_bytes ps)) = 8 * Z.of_nat (length ps).
Proof.
  induction ps as [|p ps IH]; [done|].
  change (ptrs_bytes (p :: ps)) with (ptr_bytes p ++ ptrs_bytes ps).
  rewrite length_app, length_ptr_bytes. cbn [length]. lia.
Qed.

Lemma ptrs_bytes_snoc ps p : ptrs_bytes (ps ++ [p]) = ptrs_bytes ps ++ ptr_bytes p.
Proof. unfold ptrs_bytes. rewrite fmap_app, join_app. by f_equal. Qed.

(** The free space of a ring of at least 8 bytes that holds whole pointers is
    itself a multiple of 8. *)
Lemma ptr_space s k ps :
  s = 2 ^ k -> 3 <= k -> 8 * ps <= s -> s - 8 * ps = 0 \/ 8 <= s - 8 * ps.
Proof.
  intros -> Hk H. replace (2 ^ k) with (8 * 2 ^ (k - 3)) in *.
  - lia.
  - change 8 with (2 ^ 3). rewrite <- Z.pow_add_r by lia. f_equal. lia.
Qed.

(** A ring of at least eight bytes used only through [push_ptr] and
    [pop_ptr] is a FIFO of pointers: a push appends the pointer or, when the
    ring is full, returns false and changes nothing; a pop returns the oldest
    pointer or false on an empty ring. *)
Theorem spsc_fifo_ring_ptr_fifo fifo ps p :
  ring_rep fifo (ptrs_bytes ps) -> 8 <= size fifo -> in_u 64 p ->
  (exists fifo', spsc_fifo_ring_push_ptr fifo p =
       Ok (fifo', 8 * (Z.of_nat (length ps) + 1) <=? size fifo) /\
     ring_rep fifo' (ptrs_bytes
       (if 8 * (Z.of_nat (length ps) + 1) <=? size fifo then ps ++ [p] else ps))) /\
  (forall old, in_u 64 old -> Forall (in_u 64) ps ->
     exists fifo', spsc_fifo_ring_pop_ptr fifo old =
         Ok (fifo', default old (hd_error ps), bool_decide (ps <> [])) /\
       ring_rep fifo' (ptrs_bytes (tl ps))).
Proof.
  intros Hrep Hs Hp. pose proof (length_ptrs_bytes ps) as HL.
  assert (8 * Z.of_nat (length ps) <= size fifo /\
    (size fifo - 8 * Z.of_nat (length ps) = 0 \/ 8 <= size fifo - 8 * Z.of_nat (length ps)))
    as [Hfit Hsp].
  { destruct Hrep as (d & t & (k & Hk & Es & _) & _ & _ & Hle & _). split; [lia|].
    apply (ptr_space _ k); [done| |lia]. destruct (decide (k < 3)); [|lia].
    assert (2 ^ k < 2 ^ 3) by (apply Z.pow_lt_mono_r; lia). lia. }
  split.
  - unfold spsc_fifo_ring_push_ptr.
    destruct (ring_write_spec fifo (ptrs_bytes ps) (ptr_bytes p) 8 Hrep)
      as (f' & E & Hr & _); [rewrite length_ptr_bytes; lia|].
    unfold ptr_bytes at 1 in E. rewrite E, bind_Ok. exists f'. rewrite HL in Hr |- *.
    destruct (Z.leb_spec (8 * (Z.of_nat (length ps) + 1)) (size fifo)).
    + rewrite Z.min_l in Hr |- * by lia. split; [done|].
      rewrite ptrs_bytes_snoc. rewrite take_ge in Hr by (rewrite length_ptr_bytes; lia). done.
    + rewrite Z.min_r in Hr |- * by lia.
      replace (size fifo - 8 * Z.of_nat (length ps)) with 0 in Hr |- * by lia.
      split; [done|]. by rewrite take_0, app_nil_r in Hr.
  - intros old Hold Hps. unfold spsc_fifo_ring_pop_ptr.
    destruct (ring_read_spec fifo (ptrs_bytes ps) (ptr_bytes old) 8 Hrep)
      as (f' & E & Hr & _); [rewrite length_ptr_bytes; lia|].
    unfold ptr_bytes at 1 in E. rewrite E, bind_Ok. exists f'. rewrite HL in Hr |- *.
    assert (forall q, in_u 64 q -> little_endian_to_Z 8 (ptr_bytes q) = q) as Hle.
    { intros q Hq. unfold ptr_bytes. rewrite little_endian_to_Z_to_little_endian by lia.
      by apply Z.mod_small. }
    destruct ps as [|x ps]; cbn [length hd_error tl default] in *.
    + rewrite Z.min_r in Hr |- * by lia. split; [|done].
      change (Z.to_nat (8 * Z.of_nat 0)) with 0%nat. rewrite drop_0, take_0, app_nil_l.
      by rewrite Hle.
    + rewrite Z.min_l in Hr |- * by lia.
      assert (ptrs_bytes (x :: ps) = ptr_bytes x ++ ptrs_bytes ps) as Ex by done.
      rewrite Ex in Hr |- *.
      rewrite take_app_length' by (rewrite length_ptr_bytes; lia).
      rewrite drop_app_length' in Hr by (rewrite length_ptr_bytes; lia).
      rewrite (drop_ge (ptr_bytes old)) by (rewrite length_ptr_bytes; lia).
      rewrite app_nil_r, Hle by (by inversion Hps). split; [|done].
      by rewrite bool_decide_eq_true_2 by done.
Qed.

(** An empty ring of sixteen bytes. *)
Lemma spsc_fifo_ring_ptr_fifo_witness :
  exists f, size f = 16 /\
  exists fifo', spsc_fifo_ring_push_ptr f 4660 = Ok (fifo', 8 * (0 + 1) <=? size f) /\
     ring_rep fifo' (ptrs_bytes (if 8 * (0 + 1) <=? size f then [] ++ [4660] else [])).
Proof.
  exists (spsc_fifo_ring_init_with (replicate 16 0) (2 ^ 4)). split; [reflexivity|].
  apply (spsc_fifo_ring_ptr_fifo (spsc_fifo_ring_init_with (replicate 16 0) (2 ^ 4)) [] 4660).
  - apply (ring_rep_init (replicate 16 0) 4); [lia|reflexivity].
  - cbn. lia.
  - split; vm_compute; congruence.
Defined.

(** On a ring smaller than a pointer, [push_ptr] reports failure but leaves the
    bytes that fitted in the ring. *)
Lemma push_ptr_partial :
  exists fifo', spsc_fifo_ring_push_ptr (spsc_fifo_ring_init_with [0; 0; 0; 0] 4) 4660 =
      Ok (fifo', false) /\ spsc_fifo_ring_len fifo' = 4.
Proof. eexists. split; [vm_compute; reflexivity|]. vm_compute. reflexivity. Qed.

End Ring.

(** * Producer and consumer interleaved

    The two sides run concurrently.  A step is one atomic load or store of
    [head]/[tail] or one [memcpy] of [write]/[read]; everything else is local
    to the side.  [sent] and [rcvd] record the bytes published by the producer
    and handed to the consumer's caller. *)
Module Concurrent.
Import Ring.

Inductive prod_pc :=
  | PIdle
  | PTail (src : list Z) (len hd : Z)
  | PCopy1 (src : list Z) (len hd : Z)
  | PCopy2 (src : list Z) (len hd : Z)
  | PPublish (src : list Z) (len hd : Z).

Inductive cons_pc :=
  | CIdle
  | CTail (dst : list Z) (len hd : Z)
  | CCopy1 (dst : list Z) (len tl : Z)
  | CCopy2 (dst : list Z) (len tl : Z)
  | CPublish (dst : list Z) (len tl : Z).

Record cstate := mkC {
  fifo : spsc_fifo_ring;
  prod : prod_pc;
  cons : cons_pc;
  sent : list Z;
  rcvd : list Z;
}.

(** One step of [spsc_fifo_ring_write]. *)
Definition prod_step (s : cstate) : outcome cstate :=
  let f := fifo s in
  match prod s with
  | PIdle => Ok s
  | PTail src len hd =>
      let avail := u64 (size f - u64 (hd - tail f)) in
      let len := Z.min len avail in
      Ok (mkC f (if len =? 0 then PIdle else PCopy1 src len hd) (cons s) (sent s) (rcvd s))
  | PCopy1 src len hd =>
      let off := Z.land hd (mask f) in
      let l := Z.min len (u64 (size f - off)) in
      d ← deref (data f);
      d ← memcpy d off src 0 l;
      Ok (mkC (set_data f d) (PCopy2 src len hd) (cons s) (sent s) (rcvd s))
  | PCopy2 src len hd =>
      let off := Z.land hd (mask f) in
      let l := Z.min len (u64 (size f - off)) in
      d ← deref (data f);
      d ← (if l <? len then memcpy d 0 src l (len - l) else Ok d);
      Ok (mkC (set_data f d) (PPublish src len hd) (cons s) (sent s) (rcvd s))
  | PPublish src len hd =>
      Ok (mkC (set_head f (u64 (hd + len))) PIdle (cons s)
              (sent s ++ take (Z.to_nat len) src) (rcvd s))
  end.

(** One step of [spsc_fifo_ring_read]. *)
Definition cons_step (s : cstate) : outcome cstate :=
  let f := fifo s in
  match cons s with
  | CIdle => Ok s
  | CTail dst len hd =>
      let tl := tail f in
      let len := Z.min len (u64 (hd - tl)) in
      Ok (mkC f (prod s) (if len =? 0 then CIdle else CCopy1 dst len tl) (sent s) (rcvd s))
  | CCopy1 dst len tl =>
      let off := Z.land tl (mask f) in
      let l := Z.min len (u64 (size f - off)) in
      d ← deref (data f);
      dst ← memcpy dst 0 d off l;
      Ok (mkC f (prod s) (CCopy2 dst len tl) (sent s) (rcvd s))
  | CCopy2 dst len tl =>
      let off := Z.land tl (mask f) in
      let l := Z.min len (u64 (size f - off)) in
      d ← deref (data f);
      dst ← (if l <? len then memcpy dst l d 0 (len - l) else Ok dst);
      Ok (mkC f (prod s) (CPublish dst len tl) (sent s) (rcvd s))
  | CPublish dst len tl =>
      Ok (mkC (set_tail f (u64 (tl + len))) (prod s) CIdle (sent s)
              (rcvd s ++ take (Z.to_nat len) dst))
  end.

(** Calls start with the load of [head]. *)
Definition start_write (s : cstate) (src : list Z) (len : Z) : cstate :=
  mkC (fifo s) (PTail src len (head (fifo s))) (cons s) (sent s) (rcvd s).
Definition start_read (s : cstate) (dst : list Z) (len : Z) : cstate :=
  mkC (fifo s) (prod s) (CTail dst len (head (fifo s))) (sent s) (rcvd s).
Inductive step (s : cstate) : cstate -> Prop :=
  | step_write src len :
      prod s = PIdle -> 0 <= len <= Z.of_nat (length src) -> step s (start_write s src len)
  | step_read dst len :
      cons s = CIdle -> 0 <= len <= Z.of_nat (length dst) -> step s (start_read s dst len)
  | step_prod s' : prod_step s = Ok s' -> step s s'
  | step_cons s' : cons_step s = Ok s' -> step s s'.

Definition init (buffer : list Z) (k : Z) : cstate :=
  mkC (spsc_fifo_ring_init_with buffer (2 ^ k)) PIdle CIdle [] [].

(** ** The invariant *)

Abbreviation len_of l := (Z.of_nat (length l)).

(** The first [n] bytes at position [H] of the ring are those of [src]. *)
Definition copied (d : list Z) (sz H : Z) (src : list Z) (n : Z) : Prop :=
  forall j, 0 <= j < n -> d !! Z.to_nat ((H + j) `mod` sz) = src !! Z.to_nat j.

Definition first_part (len pos sz : Z) : Z := Z.min len (sz - pos `mod` sz).

Definition prod_inv (d : list Z) (sz H T : Z) (pc : prod_pc) : Prop :=
  match pc with
  | PIdle => True
  | PTail src len hd => hd = u64 H /\ 0 <= len <= len_of src
  | PCopy1 src len hd => hd = u64 H /\ 0 < len <= len_of src /\ H + len <= T + sz
  | PCopy2 src len hd =>
      hd = u64 H /\ 0 < len <= len_of src /\ H + len <= T + sz /\
      copied d sz H src (first_part len H sz)
  | PPublish src len hd =>
      hd = u64 H /\ 0 < len <= len_of src /\ H + len <= T + sz /\ copied d sz H src len
  end.

(** The first [n] bytes of [dst] are the stream from position [T] on. *)
Definition delivered (stream : list Z) (T : Z) (dst : list Z) (n : Z) : Prop :=
  forall j, 0 <= j < n -> dst !! Z.to_nat j = stream !! Z.to_nat (T + j).

Definition cons_inv (stream : list Z) (sz H T : Z) (pc : cons_pc) : Prop :=
  match pc with
  | CIdle => True
  | CTail dst len hd =>
      exists H', hd = u64 H' /\ T <= H' <= H /\ 0 <= len <= len_of dst
  | CCopy1 dst len tl => tl = u64 T /\ 0 < len <= len_of dst /\ T + len <= H
  | CCopy2 dst len tl =>
      tl = u64 T /\ 0 < len <= len_of dst /\ T + len <= H /\
      delivered stream T dst (first_part len T sz)
  | CPublish dst len tl =>
      tl = u64 T /\ 0 < len <= len_of dst /\ T + len <= H /\ delivered stream T dst len
  end.

Record inv (k : Z) (inv_data : list Z) (s : cstate) : Prop := mkInv {
  inv_k : 0 <= k < 64;
  inv_size : size (fifo s) = 2 ^ k;
  inv_mask : mask (fifo s) = 2 ^ k - 1;
  inv_buf : data (fifo s) = Some inv_data;
  inv_len : len_of inv_data = 2 ^ k;
  inv_head : head (fifo s) = u64 (len_of (sent s));
  inv_tail : tail (fifo s) = u64 (len_of (rcvd s));
  inv_order : len_of (rcvd s) <= len_of (sent s) <= len_of (rcvd s) + 2 ^ k;
  inv_prefix : rcvd s `prefix_of` sent s;
  inv_window : forall i, len_of (rcvd s) <= i < len_of (sent s) ->
    inv_data !! Z.to_nat (i `mod` 2 ^ k) = sent s !! Z.to_nat i;
  inv_prod : prod_inv inv_data (2 ^ k) (len_of (sent s)) (len_of (rcvd s)) (prod s);
  inv_cons : cons_inv (sent s) (2 ^ k) (len_of (sent s)) (len_of (rcvd s)) (cons s);
}.

(** Reducing a free-running position with the mask, as the code does. *)
Lemma mask_off k f pos :
  0 <= k < 64 -> size f = 2 ^ k -> mask f = 2 ^ k - 1 ->
  Z.land (u64 pos) (mask f) = pos `mod` 2 ^ k /\
  u64 (size f - Z.land (u64 pos) (mask f)) = 2 ^ k - pos `mod` 2 ^ k.
Proof.
  intros Hk Es Em. rewrite Em, mask_mod by done. split; [done|]. rewrite Es.
  assert (0 < 2 ^ k) by (apply Z.pow_pos_nonneg; lia).
  assert (2 ^ k < 2 ^ 64) by (apply Z.pow_lt_mono_r; lia).
  assert (0 <= pos `mod` 2 ^ k < 2 ^ k) by (by apply Z.mod_pos_bound).
  apply wrap_small. unfold in_u. lia.
Qed.

(** Filling free space leaves the unread window alone. *)
Lemma window_frame (d d' stream : list Z) sz H T len :
  0 < sz -> H + len <= T + sz ->
  (forall i, T <= i < H -> d !! Z.to_nat (i `mod` sz) = stream !! Z.to_nat i) ->
  (forall j, 0 <= j < sz -> (forall x, 0 <= x < len -> j <> (H + x) `mod` sz) ->
     d' !! Z.to_nat j = d !! Z.to_nat j) ->
  forall i, T <= i < H -> d' !! Z.to_nat (i `mod` sz) = stream !! Z.to_nat i.
Proof.
  intros Hsz Hfit Hw Hout i Hi. rewrite Hout; [by apply Hw| |].
  - by apply Z.mod_pos_bound.
  - intros x Hx E. apply mod_lap_inj in E; lia.
Qed.

(** The two halves of the copy into the ring. *)
Lemma copy_in_first (d src : list Z) H len sz :
  0 < sz -> len_of d = sz -> 0 < len <= sz -> len <= len_of src ->
  exists d', memcpy d (H `mod` sz) src 0 (first_part len H sz) = Ok d' /\
    len_of d' = sz /\ copied d' sz H src (first_part len H sz) /\
    (forall j, 0 <= j < sz -> (forall x, 0 <= x < len -> j <> (H + x) `mod` sz) ->
       d' !! Z.to_nat j = d !! Z.to_nat j).
Proof.
  intros Hs Hd Hlen Hsrc. unfold first_part, copied.
  assert (0 <= H `mod` sz < sz) by (by apply Z.mod_pos_bound).
  set (l := Z.min len (sz - H `mod` sz)).
  destruct (memcpy_Ok d (H `mod` sz) src 0 l) as (d1 & E1 & L1 & In1 & Out1); try lia.
  exists d1. split_and!; [done|congruence| |].
  - intros j Hj. rewrite mod_shift by lia. rewrite decide_True by lia. by rewrite In1 by lia.
  - intros j Hj Hout. apply Out1; [lia|]. intros Hin. apply (Hout (j - H `mod` sz)); [lia|].
    rewrite mod_shift by lia. rewrite decide_True; lia.
Qed.

Lemma copy_in_second (d src : list Z) H len sz :
  0 < sz -> len_of d = sz -> 0 < len <= sz -> len <= len_of src ->
  copied d sz H src (first_part len H sz) ->
  exists d',
    (if first_part len H sz <? len
     then memcpy d 0 src (first_part len H sz) (len - first_part len H sz) else Ok d) = Ok d' /\
    len_of d' = sz /\ copied d' sz H src len /\
    (forall j, 0 <= j < sz -> (forall x, 0 <= x < len -> j <> (H + x) `mod` sz) ->
       d' !! Z.to_nat j = d !! Z.to_nat j).
Proof.
  intros Hs Hd Hlen Hsrc Hc. unfold first_part, copied in *.
  assert (0 <= H `mod` sz < sz) by (by apply Z.mod_pos_bound).
  set (l := Z.min len (sz - H `mod` sz)) in *.
  destruct (Z.ltb_spec l len) as [Hl|Hl].
  - destruct (memcpy_Ok d 0 src l (len - l)) as (d1 & E1 & L1 & In1 & Out1); try lia.
    exists d1. split_and!; [done|congruence| |].
    + intros j Hj. destruct (decide (j < l)).
      * rewrite <- Hc by lia. rewrite mod_shift by lia. rewrite decide_True by lia.
        apply Out1; lia.
      * rewrite mod_shift by lia. rewrite decide_False by lia.
        replace (H `mod` sz + j - sz) with (0 + (j - l)) by lia. rewrite In1 by lia.
        f_equal. lia.
    + intros j Hj Hout. apply Out1; [lia|]. intros Hin.
      apply (Hout (sz - H `mod` sz + j)); [lia|].
      rewrite mod_shift by lia. rewrite decide_False; lia.
  - exists d. split_and!; try done. intros j Hj. apply Hc. lia.
Qed.

(** The two halves of the copy out of the ring. *)
Lemma copy_out_first (d dst stream : list Z) T H len sz :
  0 < sz -> len_of d = sz -> 0 < len <= sz -> len <= len_of dst -> T + len <= H ->
  (forall i, T <= i < H -> d !! Z.to_nat (i `mod` sz) = stream !! Z.to_nat i) ->
  exists dst', memcpy dst 0 d (T `mod` sz) (first_part len T sz) = Ok dst' /\
    len_of dst' = len_of dst /\ delivered stream T dst' (first_part len T sz).
Proof.
  intros Hs Hd Hlen Hdst HTH Hw. unfold first_part, delivered.
  assert (0 <= T `mod` sz < sz) by (by apply Z.mod_pos_bound).
  set (l := Z.min len (sz - T `mod` sz)).
  destruct (memcpy_Ok dst 0 d (T `mod` sz) l) as (d1 & E1 & L1 & In1 & Out1); try lia.
  exists d1. split_and!; [done|congruence|]. intros j Hj.
  replace j with (0 + j) at 1 by lia. rewrite In1 by lia. rewrite <- Hw by lia.
  f_equal. rewrite mod_shift by lia. rewrite decide_True; lia.
Qed.

Lemma copy_out_second (d dst stream : list Z) T H len sz :
  0 < sz -> len_of d = sz -> 0 < len <= sz -> len <= len_of dst -> T + len <= H ->
  (forall i, T <= i < H -> d !! Z.to_nat (i `mod` sz) = stream !! Z.to_nat i) ->
  delivered stream T dst (first_part len T sz) ->
  exists dst',
    (if first_part len T sz <? len
     then memcpy dst (first_part len T sz) d 0 (len - first_part len T sz) else Ok dst)
      = Ok dst' /\
    len_of dst' = len_of dst /\ delivered stream T dst' len.
Proof.
  intros Hs Hd Hlen Hdst HTH Hw Hc. unfold first_part, delivered in *.
  assert (0 <= T `mod` sz < sz) by (by apply Z.mod_pos_bound).
  set (l := Z.min len (sz - T `mod` sz)) in *.
  destruct (Z.ltb_spec l len) as [Hl|Hl].
  - destruct (memcpy_Ok dst l d 0 (len - l)) as (d1 & E1 & L1 & In1 & Out1); try lia.
    exists d1. split_and!; [done|congruence|]. intros j Hj. destruct (decide (j < l)).
    + rewrite <- Hc by lia. apply Out1; lia.
    + replace j with (l + (j - l)) at 1 by lia. rewrite In1 by lia. rewrite <- Hw by lia.
      f_equal. rewrite mod_shift by lia. rewrite decide_False; lia.
  - exists dst. split_and!; try done. intros j Hj. apply Hc. lia.
Qed.

(** The consumer's knowledge survives the producer publishing more bytes. *)
Lemma cons_inv_grow stream extra sz H H' T pc :
  H = len_of stream -> H <= H' -> 0 <= T ->
  cons_inv stream sz H T pc -> cons_inv (stream ++ extra) sz H' T pc.
Proof.
  intros -> HH HT. assert (forall dst n, T + n <= len_of stream ->
    delivered stream T dst n -> delivered (stream ++ extra) T dst n) as Hd.
  { intros dst n Hn Hd j Hj. rewrite Hd by done. symmetry. apply lookup_app_l. lia. }
  destruct pc; cbn; [done| | | |].
  - intros (h & ? & ? & ?). exists h. split_and!; try done; lia.
  - intros (? & ? & ?). split_and!; try done; lia.
  - intros (? & ? & ? & Hx). split_and!; try done; try lia.
    apply Hd; [unfold first_part; lia|done].
  - intros (? & ? & ? & Hx). split_and!; try done; try lia. apply Hd; [lia|done].
Qed.

(** The producer's knowledge survives the consumer freeing space. *)
Lemma prod_inv_grow d sz H T T' pc : T <= T' -> prod_inv d sz H T pc -> prod_inv d sz H T' pc.
Proof. intros HT. destruct pc; cbn; intuition lia. Qed.

Lemma prod_step_inv k d s :
  inv k d s -> exists s' d', prod_step s = Ok s' /\ inv k d' s'.
Proof.
  intros [Hk Es Em Eb El Eh Et Ho Hpre Hw Hp Hc].
  assert (0 < 2 ^ k) as Hpos by (apply Z.pow_pos_nonneg; lia).
  assert (2 ^ k < 2 ^ 64) as Hmax by (apply Z.pow_lt_mono_r; lia).
  set (H := len_of (sent s)) in *. set (T := len_of (rcvd s)) in *.
  destruct s as [f pp cc sn rc]; cbn [fifo prod cons sent rcvd] in *.
  unfold prod_step; cbn [fifo prod cons sent rcvd].
  destruct (mask_off k f H Hk Es Em) as [Hoff Hrest].
  destruct pp as [|src len hd|src len hd|src len hd|src len hd]; cbn [prod_inv] in Hp.
  - eexists _, d. split; [done|]. constructor; done.
  - destruct Hp as [-> Hlen]. eexists _, d. split; [done|].
    rewrite Et, u64_diff, Es by (unfold in_u; lia).
    rewrite (wrap_small 64) by (unfold in_u; lia).
    constructor; cbn; try done. case_match eqn:E; [done|]. apply Z.eqb_neq in E.
    cbn. split_and!; try done; lia.
  - destruct Hp as (-> & Hlen & Hfit). rewrite Eb. cbn [deref]. rewrite bind_Ok, Hrest, Hoff.
    destruct (copy_in_first d src H len (2 ^ k)) as (d' & E & L' & Cp & Out); [done..|lia|lia|].
    fold (first_part len H (2 ^ k)). rewrite E, bind_Ok. eexists _, d'. split; [done|].
    constructor; cbn; try done. by apply (window_frame d d' sn (2 ^ k) H T len).
  - destruct Hp as (-> & Hlen & Hfit & Cp). rewrite Eb. cbn [deref]. rewrite bind_Ok, Hrest.
    fold (first_part len H (2 ^ k)).
    destruct (copy_in_second d src H len (2 ^ k)) as (d' & E & L' & Cp' & Out); [done..|lia|lia|done|].
    rewrite E, bind_Ok. eexists _, d'. split; [done|].
    constructor; cbn; try done. by apply (window_frame d d' sn (2 ^ k) H T len).
  - destruct Hp as (-> & Hlen & Hfit & Cp). eexists _, d. split; [done|].
    assert (len_of (sn ++ take (Z.to_nat len) src) = H + len) as EL
      by (rewrite length_app, length_take; lia).
    constructor; cbn; try done.
    + rewrite wrap_add_l, EL. done.
    + rewrite EL. fold T. lia.
    + by apply prefix_app_r.
    + rewrite EL. fold T. intros i Hi. destruct (decide (i < H)).
      * rewrite lookup_app_l by lia. apply Hw. lia.
      * rewrite lookup_app_r by lia. rewrite lookup_take_lt by lia.
        replace i with (H + (i - H)) at 1 by lia. rewrite Cp by lia. f_equal. lia.
    + apply (cons_inv_grow _ _ _ H); try done; lia.
Qed.

Lemma cons_step_inv k d s :
  inv k d s -> exists s', cons_step s = Ok s' /\ inv k d s'.
Proof.
  intros [Hk Es Em Eb El Eh Et Ho Hpre Hw Hp Hc].
  assert (0 < 2 ^ k) as Hpos by (apply Z.pow_pos_nonneg; lia).
  assert (2 ^ k < 2 ^ 64) as Hmax by (apply Z.pow_lt_mono_r; lia).
  set (H := len_of (sent s)) in *. set (T := len_of (rcvd s)) in *.
  destruct s as [f pp cc sn rc]; cbn [fifo prod cons sent rcvd] in *.
  unfold cons_step; cbn [fifo prod cons sent rcvd].
  destruct (mask_off k f T Hk Es Em) as [Hoff Hrest].
  destruct cc as [|dst len hd|dst len tl|dst len tl|dst len tl]; cbn [cons_inv] in Hc.
  - eexists. split; [done|]. constructor; done.
  - destruct Hc as (H' & -> & HH' & Hlen). eexists. split; [done|].
    rewrite Et, u64_diff by (unfold in_u; lia).
    constructor; cbn; try done. case_match eqn:E; [done|]. apply Z.eqb_neq in E.
    cbn. fold T. split_and!; try done; lia.
  - destruct Hc as (-> & Hlen & HTH). rewrite Eb. cbn [deref]. rewrite bind_Ok, Hrest, Hoff.
    destruct (copy_out_first d dst sn T H len (2 ^ k)) as (dst' & E & L' & Dl); [done..|lia|lia|done|done|].
    fold (first_part len T (2 ^ k)). rewrite E, bind_Ok. eexists. split; [done|].
    constructor; cbn; try done. rewrite L'. by fold T H.
  - destruct Hc as (-> & Hlen & HTH & Dl). rewrite Eb. cbn [deref]. rewrite bind_Ok, Hrest.
    fold (first_part len T (2 ^ k)).
    destruct (copy_out_second d dst sn T H len (2 ^ k)) as (dst' & E & L' & Dl');
      [done..|lia|lia|done|done|done|].
    rewrite E, bind_Ok. eexists. split; [done|].
    constructor; cbn; try done. rewrite L'. by fold T H.
  - destruct Hc as (-> & Hlen & HTH & Dl). eexists. split; [done|].
    assert (len_of (rc ++ take (Z.to_nat len) dst) = T + len) as EL
      by (rewrite length_app, length_take; lia).
    constructor; cbn; try done.
    + rewrite wrap_add_l, EL. done.
    + rewrite EL. fold H. lia.
    + assert (take (Z.to_nat len) dst = take (Z.to_nat len) (drop (length rc) sn)) as ->.
      { apply list_eq_Z. intros i Hi. destruct (decide (i < len)).
        - rewrite !lookup_take_lt by lia. rewrite Dl, lookup_drop by lia. f_equal. lia.
        - rewrite !lookup_take_ge by lia. done. }
      destruct Hpre as [rest ->]. rewrite drop_app_length.
      apply prefix_app. exists (drop (Z.to_nat len) rest). by rewrite take_drop.
    + rewrite EL. fold H. intros i Hi. apply Hw. lia.
    + rewrite EL. apply (prod_inv_grow _ _ _ T); [lia|done].
Qed.

Lemma step_inv k d s s' : inv k d s -> step s s' -> exists d', inv k d' s'.
Proof.
  intros I St. destruct St as [src len Hpc Hlen|dst len Hpc Hlen|s' E|s' E].
  - exists d. destruct I as [Hk Es Em Eb El Eh Et Ho Hpre Hw Hp Hc]. constructor; cbn; try done.
  - exists d. destruct I as [Hk Es Em Eb El Eh Et Ho Hpre Hw Hp Hc]. constructor; cbn; try done.
    exists (len_of (sent s)). split_and!; try done; lia.
  - destruct (prod_step_inv k d s I) as (s2 & d' & E' & I'). exists d'. congruence.
  - destruct (cons_step_inv k d s I) as (s2 & E' & I'). exists d. congruence.
Qed.

Lemma init_inv buffer k :
  0 <= k < 64 -> len_of buffer = 2 ^ k -> inv k buffer (init buffer k).
Proof.
  intros Hk Hb. assert (0 < 2 ^ k) by (apply Z.pow_pos_nonneg; lia).
  assert (2 ^ k < 2 ^ 64) by (apply Z.pow_lt_mono_r; lia).
  constructor; cbn; try done; try lia. apply wrap_small. unfold in_u. lia.
Qed.

Lemma reached_inv buffer k s :
  0 <= k < 64 -> len_of buffer = 2 ^ k -> rtc step (init buffer k) s -> exists d, inv k d s.
Proof.
  intros Hk Hb Hr. assert (exists d, inv k d (init buffer k)) as Hi by (eexists; by apply init_inv).
  clear Hb. induction Hr as [x|x y z Hxy Hyz IH]; [done|].
  apply IH. destruct Hi as [d I]. by apply (step_inv k d x).
Qed.

(** ** What a call does while the other side goes on *)

(** The moves of one side: a step of its call, or the start of a new one. *)
Inductive prod_move (s : cstate) : cstate -> Prop :=
  | prod_move_start src len :
      prod s = PIdle -> 0 <= len <= len_of src -> prod_move s (start_write s src len)
  | prod_move_step s' : prod_step s = Ok s' -> prod_move s s'.
Inductive cons_move (s : cstate) : cstate -> Prop :=
  | cons_move_start dst len :
      cons s = CIdle -> 0 <= len <= len_of dst -> cons_move s (start_read s dst len)
  | cons_move_step s' : cons_step s = Ok s' -> cons_move s s'.

(** A run with [n] steps of the call of one side, between which the other side
    makes any number of moves. *)
Inductive call_run (own : cstate -> outcome cstate) (other : relation cstate) : nat -> relation cstate :=
  | run_done s : call_run own other 0 s s
  | run_other n s s1 s' : other s s1 -> call_run own other n s1 s' -> call_run own other n s s'
  | run_own n s s1 s' : own s = Ok s1 -> call_run own other n s1 s' -> call_run own other (S n) s s'.

Lemma prod_move_inv k d s s' : inv k d s -> prod_move s s' -> exists d', inv k d' s'.
Proof. intros I [src len H1 H2|s2 E]; eapply step_inv; [exact I|by constructor|exact I|by apply step_prod]. Qed.
Lemma cons_move_inv k d s s' : inv k d s -> cons_move s s' -> exists d', inv k d' s'.
Proof. intros I [dst len H1 H2|s2 E]; eapply step_inv; [exact I|by constructor|exact I|by apply step_cons]. Qed.
Lemma prod_step_frame s s' : prod_step s = Ok s' -> cons s' = cons s /\ rcvd s' = rcvd s /\ sent s `prefix_of` sent s'.
Proof.
  unfold prod_step. intros E. destruct (prod s); repeat (apply bind_Ok_inv in E as (? & _ & E)); injection E as <-; split_and!; try done.
  by apply prefix_app_r.
Qed.
Lemma cons_step_frame s s' : cons_step s = Ok s' -> prod s' = prod s /\ sent s' = sent s /\ rcvd s `prefix_of` rcvd s'.
Proof.
  unfold cons_step. intros E. destruct (cons s); repeat (apply bind_Ok_inv in E as (? & _ & E)); injection E as <-; split_and!; try done.
  by apply prefix_app_r.
Qed.
Lemma prod_move_frame s s' : prod_move s s' -> cons s' = cons s /\ rcvd s' = rcvd s /\ sent s `prefix_of` sent s'.
Proof. intros [src len _ _|s2 E]; [done|by apply prod_step_frame]. Qed.
Lemma cons_move_frame s s' : cons_move s s' -> prod s' = prod s /\ sent s' = sent s /\ rcvd s `prefix_of` rcvd s'.
Proof. intros [dst len _ _|s2 E]; [done|by apply cons_step_frame]. Qed.

Section Write.
Context (k : Z) (src : list Z) (len : Z) (snt : list Z) (R0 : Z).
(** The room in the ring when [R] bytes were handed out. *)
Definition room (R : Z) : Z := 2 ^ k - (len_of snt - R).
Definition taken (m : Z) (s : cstate) : Prop := Z.min len (room R0) <= m <= Z.min len (room (len_of (rcvd s))).
(** How far a write is that has at least [n] more steps to go. *)
Definition writing (n : nat) (s : cstate) : Prop :=
  R0 <= len_of (rcvd s) /\
  match prod s with
  | PTail src' len' _ => n = 4%nat /\ src' = src /\ len' = len /\ sent s = snt
  | PCopy1 src' m _ => n = 3%nat /\ src' = src /\ taken m s /\ sent s = snt
  | PCopy2 src' m _ => n = 2%nat /\ src' = src /\ taken m s /\ sent s = snt
  | PPublish src' m _ => n = 1%nat /\ src' = src /\ taken m s /\ sent s = snt
  | PIdle => exists m, 0 <= m /\ taken m s /\ sent s = snt ++ take (Z.to_nat m) src
  end.

Lemma writing_other n s s' : writing n s -> cons_move s s' -> writing n s'.
Proof.
  intros [HR Hw] M. destruct (cons_move_frame s s' M) as (Ep & Es & Hpre%prefix_length). unfold writing, taken, room in *. rewrite Ep, Es. split; [lia|].
  destruct (prod s); [destruct Hw as (m & ? & ? & ?); exists m|..]; intuition lia.
Qed.
Lemma writing_own d n s s' : inv k d s -> writing (S n) s -> prod_step s = Ok s' -> writing n s'.
Proof.
  intros [Hk Es Em Eb El Eh Et Ho Hpre Hw Hp Hc] [HR Hwr] E. assert (0 < 2 ^ k < 2 ^ 64) as Hpos by (split; [apply Z.pow_pos_nonneg; lia|apply Z.pow_lt_mono_r; lia]).
  unfold writing, taken, room in *. unfold prod_step in E. destruct (prod s) as [|src' len' hd|src' m hd|src' m hd|src' m hd] eqn:Epc; cbn [prod_inv] in Hp.
  - injection E as <-. by rewrite Epc.
  - destruct Hwr as (? & -> & -> & Hs). destruct Hp as [-> Hlen]. rewrite Et, Es, u64_diff, (wrap_small 64) in E by (unfold in_u; lia). injection E as <-. cbn [rcvd prod sent]. split; [done|]. rewrite Hs in *.
    match goal with |- context [?x =? 0] => destruct (Z.eqb_spec x 0) as [Ez|Ez] end; [exists 0; rewrite take_0, app_nil_r|]; split_and!; try done; lia.
  - repeat (apply bind_Ok_inv in E as (? & _ & E)). injection E as <-. cbn. intuition lia.
  - repeat (apply bind_Ok_inv in E as (? & _ & E)). injection E as <-. cbn. intuition lia.
  - destruct Hwr as (? & -> & Ht & <-). injection E as <-. cbn. split; [done|]. exists m. split_and!; try done; lia.
Qed.
Lemma writing_run n s s' : call_run prod_step cons_move n s s' -> (exists d, inv k d s) -> writing n s -> writing 0 s'.
Proof.
  induction 1 as [s|n s s1 s' M _ IH|n s s1 s' E _ IH]; intros [d I] W; [done|..]; apply IH.
  - by eapply cons_move_inv.
  - by eapply writing_other.
  - destruct (prod_step_inv k d s I) as (s2 & d' & E' & I'). exists d'. congruence.
  - by eapply writing_own.
Qed.
End Write.

Section Read.
Context (len : Z) (snt rcv : list Z).
Definition due : Z := Z.min len (len_of snt - len_of rcv).
Definition reading (n : nat) (s : cstate) : Prop :=
  snt `prefix_of` sent s /\
  match cons s with
  | CTail _ len' hd => n = 4%nat /\ len' = len /\ hd = u64 (len_of snt) /\ rcvd s = rcv
  | CCopy1 _ m _ => n = 3%nat /\ m = due /\ rcvd s = rcv
  | CCopy2 _ m _ => n = 2%nat /\ m = due /\ rcvd s = rcv
  | CPublish _ m _ => n = 1%nat /\ m = due /\ rcvd s = rcv
  | CIdle => len_of (rcvd s) = len_of rcv + due
  end.

Lemma reading_other n s s' : reading n s -> prod_move s s' -> reading n s'.
Proof. intros [Hp Hr] M. destruct (prod_move_frame s s' M) as (Ec & Er & Hpre). unfold reading in *. rewrite Ec, Er. split; [by etrans|done]. Qed.
Lemma reading_own k d n s s' : 0 <= len -> len_of rcv <= len_of snt <= len_of rcv + 2 ^ k -> inv k d s -> reading (S n) s -> cons_step s = Ok s' -> reading n s'.
Proof.
  intros Hlen0 Hsr [Hk Es Em Eb El Eh Et Ho Hpre Hw Hp Hc] [Hs Hrd] E. assert (0 < 2 ^ k < 2 ^ 64) as Hpos by (split; [apply Z.pow_pos_nonneg; lia|apply Z.pow_lt_mono_r; lia]).
  unfold reading, due in *. unfold cons_step in E. destruct (cons s) as [|dst len' hd|dst m tl|dst m tl|dst m tl] eqn:Epc; cbn [cons_inv] in Hc.
  - injection E as <-. by rewrite Epc.
  - destruct Hrd as (? & -> & -> & Hr). rewrite Hr in *. rewrite Et, u64_diff in E by (unfold in_u; lia). injection E as <-. cbn [rcvd cons sent]. split; [done|]. rewrite ?Hr.
    match goal with |- context [?x =? 0] => destruct (Z.eqb_spec x 0) as [Ez|Ez] end; [lia|split_and!; try done; lia].
  - repeat (apply bind_Ok_inv in E as (? & _ & E)). injection E as <-. cbn. intuition lia.
  - repeat (apply bind_Ok_inv in E as (? & _ & E)). injection E as <-. cbn. intuition lia.
  - destruct Hrd as (? & -> & Hr). destruct Hc as (_ & Hl & _). injection E as <-. cbn. split; [done|]. rewrite Hr, length_app, length_take. lia.
Qed.
Lemma reading_run k n s s' : 0 <= len -> len_of rcv <= len_of snt <= len_of rcv + 2 ^ k -> call_run cons_step prod_move n s s' -> (exists d, inv k d s) -> reading n s -> reading 0 s' /\ exists d, inv k d s'.
Proof.
  intros H1 H2. induction 1 as [s|n s s1 s' M _ IH|n s s1 s' E _ IH]; intros [d I] W; [by split; [|exists d]|..]; apply IH.
  - by eapply prod_move_inv.
  - by eapply reading_other.
  - destruct (cons_step_inv k d s I) as (s2 & E' & I'). exists d. congruence.
  - by eapply reading_own.
Qed.
End Read.

Lemma write_effect k d s src len s' : inv k d s -> prod s = PIdle -> 0 <= len <= len_of src -> call_run prod_step cons_move 4 (start_write s src len) s' ->
  prod s' = PIdle /\ exists m, sent s' = sent s ++ take (Z.to_nat m) src /\
    Z.min len (2 ^ k - (len_of (sent s) - len_of (rcvd s))) <= m <= Z.min len (2 ^ k - (len_of (sent s) - len_of (rcvd s'))).
Proof.
  intros I Hp Hlen Hrun. destruct (writing_run k src len (sent s) (len_of (rcvd s)) 4 _ s' Hrun) as [_ Hw].
  - eapply step_inv; [exact I|by apply step_write].
  - by split.
  - destruct (prod s'); try (destruct Hw as [? _]; lia). split; [done|]. destruct Hw as (m & _ & Hm & Hs). by exists m.
Qed.
Lemma read_effect k d s dst len s' : inv k d s -> cons s = CIdle -> 0 <= len <= len_of dst -> call_run cons_step prod_move 4 (start_read s dst len) s' ->
  cons s' = CIdle /\ rcvd s' = rcvd s ++ take (Z.to_nat (Z.min len (len_of (sent s) - len_of (rcvd s)))) (drop (length (rcvd s)) (sent s)).
Proof.
  intros I Hc Hlen Hrun. destruct (reading_run len (sent s) (rcvd s) k 4 (start_read s dst len) s') as [[Hs Hr] [d' I']]; [lia|apply I|exact Hrun| | |].
  - eapply step_inv; [exact I|by apply step_read].
  - split; [done|]. cbn. split_and!; try done. apply I.
  - destruct (cons s'); try (destruct Hr as [? _]; lia). split; [done|]. unfold due in Hr. pose proof (inv_order _ _ _ I) as Ho.
    pose proof (inv_prefix _ _ _ I') as [r1 E1]. destruct Hs as [r2 E2]. destruct (inv_prefix _ _ _ I) as [r3 E3].
    assert (rcvd s' = take (length (rcvd s')) (sent s)) as ->.
    { rewrite E2 in E1. apply (f_equal (take (length (rcvd s')))) in E1. by rewrite take_app_length, take_app_le in E1 by lia. }
    rewrite E3 in Hr, Ho |- * at 1. rewrite E3, drop_app_length. rewrite length_app in *. rewrite take_app_ge by lia. do 2 f_equal. lia.
Qed.

(** C3: under every interleaving of the producer's and the consumer's atomic
    accesses and copies, the bytes handed out are a prefix of the bytes
    published (nothing is lost, duplicated or reordered), no more bytes are in
    flight than the ring holds, and neither side ever faults.  Every call ends
    after four more of its own steps, whatever the other side does in between.  A
    write has then published the first bytes of its source: as many as were asked
    for and fit, at least into the room there was at the start and at most into the
    room there is at the end.  A read has then handed out exactly the bytes that
    were published at its start, up to the number asked for. *)
Theorem spsc_concurrent_fifo buffer k s :
  0 <= k < 64 -> len_of buffer = 2 ^ k -> rtc step (init buffer k) s ->
  rcvd s `prefix_of` sent s /\
  len_of (sent s) - len_of (rcvd s) <= 2 ^ k /\
  (exists s', prod_step s = Ok s') /\ (exists s', cons_step s = Ok s') /\
  (forall src len s', prod s = PIdle -> 0 <= len <= len_of src ->
     call_run prod_step cons_move 4 (start_write s src len) s' ->
     prod s' = PIdle /\ exists m, sent s' = sent s ++ take (Z.to_nat m) src /\
       Z.min len (2 ^ k - (len_of (sent s) - len_of (rcvd s))) <= m <= Z.min len (2 ^ k - (len_of (sent s) - len_of (rcvd s')))) /\
  (forall dst len s', cons s = CIdle -> 0 <= len <= len_of dst ->
     call_run cons_step prod_move 4 (start_read s dst len) s' ->
     cons s' = CIdle /\
     rcvd s' = rcvd s ++ take (Z.to_nat (Z.min len (len_of (sent s) - len_of (rcvd s)))) (drop (length (rcvd s)) (sent s))).
Proof.
  intros Hk Hb Hr. destruct (reached_inv buffer k s Hk Hb Hr) as [d I].
  destruct (prod_step_inv k d s I) as (s1 & d1 & E1 & _).
  destruct (cons_step_inv k d s I) as (s2 & E2 & _).
  split_and!; [apply I|destruct I; lia|eauto|eauto|..].
  - intros src len s' Hp Hlen Hrun. apply (write_effect k d s src len s' I Hp Hlen Hrun).
  - intros dst len s' Hc Hlen Hrun. apply (read_effect k d s dst len s' I Hc Hlen Hrun).
Qed.

(** A schedule: calls start, and the sides take steps. *)
Inductive act := AWrite (src : list Z) | ARead (n : nat) | AProd | ACons.
Definition exec_act (s : cstate) (a : act) : outcome cstate :=
  match a with
  | AWrite src => match prod s with PIdle => Ok (start_write s src (len_of src)) | _ => Fault end
  | ARead n => match cons s with CIdle => Ok (start_read s (replicate n 0) (Z.of_nat n)) | _ => Fault end
  | AProd => prod_step s
  | ACons => cons_step s
  end.
Fixpoint exec_acts (s : cstate) (l : list act) : outcome cstate :=
  match l with [] => Ok s | a :: l => s ← exec_act s a; exec_acts s l end.
Lemma exec_act_step s a s' : exec_act s a = Ok s' -> step s s'.
Proof.
  destruct a as [src|n| |]; cbn; intros E.
  - destruct (prod s) eqn:Ep; try done. injection E as <-. apply step_write; [done|lia].
  - destruct (cons s) eqn:Ec; try done. injection E as <-. apply step_read; [done|rewrite length_replicate; lia].
  - by apply step_prod.
  - by apply step_cons.
Qed.
Lemma exec_acts_rtc l : forall s s', exec_acts s l = Ok s' -> rtc step s s'.
Proof.
  induction l as [|a l IH]; intros s s' E; [injection E as <-; apply rtc_refl|]. cbn in E. apply bind_Ok_inv in E as (s1 & E1 & E).
  eapply rtc_l; [by eapply exec_act_step|by apply IH].
Qed.

(** Witness for C3: in a ring of four bytes three are written while a read is under
    way that began when one byte was there; of two more bytes
    then one fits. *)
Definition schedule : list act :=
  [AWrite [5]; AProd; AProd; AProd; AProd; ARead 2; AWrite [6; 7; 8]; ACons; AProd; AProd; ACons; AProd; ACons; AProd; ACons].
Lemma returns_Ok {A} (r : outcome A) (P : A -> Prop) : match r with Ok a => P a | _ => False end -> exists a, r = Ok a /\ P a.
Proof. destruct r as [a| |]; [|done..]. by exists a. Qed.
Lemma schedule_runs : exists s, exec_acts (init [0; 0; 0; 0] 2) schedule = Ok s /\ (prod s = PIdle /\ sent s = [5; 6; 7; 8] /\ rcvd s = [5]) /\
  exists s', exec_acts (start_write s [9; 10] 2) [AProd; AProd; AProd; AProd] = Ok s' /\ rcvd s' = [5].
Proof.
  apply (returns_Ok _ (fun s => (prod s = PIdle /\ sent s = [5; 6; 7; 8] /\ rcvd s = [5]) /\ exists s', exec_acts (start_write s [9; 10] 2) [AProd; AProd; AProd; AProd] = Ok s' /\ rcvd s' = [5])).
  vm_compute. split; [done|]. eexists. split; reflexivity.
Qed.
Lemma spsc_concurrent_fifo_witness :
  exists s s', exec_acts (init [0; 0; 0; 0] 2) schedule = Ok s /\ sent s = [5; 6; 7; 8] /\ rcvd s = [5] /\
    exec_acts (start_write s [9; 10] 2) [AProd; AProd; AProd; AProd] = Ok s' /\ sent s' = [5; 6; 7; 8; 9].
Proof.
  destruct schedule_runs as (s & E & (Hp & Hs & Hr) & s' & E2 & Hr').
  destruct (spsc_concurrent_fifo [0; 0; 0; 0] 2 s) as (_ & _ & _ & _ & Hw & _); [lia|done|by eapply exec_acts_rtc|].
  destruct (Hw [9; 10] 2 s' Hp) as (_ & m & Hm & Hb); [cbn; lia| |].
  { pose proof E2 as E3. cbn [exec_acts exec_act] in E3. do 4 (apply bind_Ok_inv in E3 as (? & ? & E3); eapply run_own; [eassumption|]). injection E3 as ->. apply run_done. }
  exists s, s'. split_and!; [exact E|exact Hs|exact Hr|exact E2|]. rewrite Hm, Hs. rewrite Hs, Hr, Hr' in Hb. cbn [length] in Hb. by replace m with 1 by lia.
Defined.

End Concurrent.
