(* ===== verification/QSpinlock.v ===== *)
(** * The queued spinlock

    Models [kernel/sync/qspinlock.c] and the physical part of
    [include/sync/qspinlock.h] as a small-step system: every agent is a CPU at
    one interrupt level that takes and releases one lock, and a step is one
    atomic access to the lock word or to a queue node (with the local
    computation up to the next access).  Weak compare-and-swap may fail
    spuriously.  Memory is sequentially consistent.

    The code has a race: the pending loop of [qspin_lock_slowpath] does not look
    at the tail again after a failed compare-and-swap.  [qspinlock_two_owners]
    exhibits an execution of three CPUs with two owners, and
    [qspinlock_mutual_exclusion] proves mutual exclusion for any number of CPUs
    in all executions in which no CPU retries the pending bit on a word with a
    tail, which pins the defect to that transition. *)

From S2P Require Import Prelude.

(** ** The lock word *)

Definition Q_SPIN_LOCKED_MASK : Z := 255.
Definition Q_SPIN_LOCKED_VAL : Z := 1.
Definition Q_SPIN_PENDING_MASK : Z := 256.
Definition Q_SPIN_PENDING_VAL : Z := 256.
Definition Q_SPIN_LOCKED_PENDING_MASK : Z := Z.lor Q_SPIN_LOCKED_MASK Q_SPIN_PENDING_MASK.
Definition Q_SPIN_TAIL_LVL_OFFSET : Z := 9.
Definition Q_SPIN_TAIL_LVL_MASK : Z := 1536.
Definition Q_SPIN_TAIL_CPU_OFFSET : Z := 16.
Definition Q_SPIN_TAIL_CPU_MASK : Z := 4294901760.
Definition Q_SPIN_TAIL_MASK : Z := Z.lor Q_SPIN_TAIL_LVL_MASK Q_SPIN_TAIL_CPU_MASK.

(** [((cpu + 1) << CPU_OFFSET) | (lvl << LVL_OFFSET)] in a [uint32_t]. *)
Definition tail_of (a : Z * Z) : Z :=
  u32 (Z.lor (Z.shiftl (a.1 + 1) Q_SPIN_TAIL_CPU_OFFSET)
             (Z.shiftl a.2 Q_SPIN_TAIL_LVL_OFFSET)).

(** The CPU and level a non-empty tail names. *)
Definition tail_agent (old_tail : Z) : Z * Z :=
  (Z.shiftr (Z.land old_tail Q_SPIN_TAIL_CPU_MASK) Q_SPIN_TAIL_CPU_OFFSET - 1,
   Z.shiftr (Z.land old_tail Q_SPIN_TAIL_LVL_MASK) Q_SPIN_TAIL_LVL_OFFSET).

(** ** State *)

(** A queue node; nodes are named by the agent that owns them. *)
Record qnode := mkNode { next : option nat; locked : Z }.

(** Where an agent stands in lock/unlock; the arguments are its locals. *)
Inductive pc :=
  | Idle                 (* about to run the fast path *)
  | PendCas (val : Z)    (* CAS of the pending bit *)
  | PendWait             (* pender: wait for LOCKED to clear *)
  | PendTake             (* pender: pending -> locked *)
  | Fallback             (* qnodes not ready: spin on trylock *)
  | InitLocked (val : Z) (* node->locked = 0 *)
  | InitNext (val : Z)   (* node->next = NULL *)
  | ExchTail (val : Z)   (* CAS of qspinlock_exchange_tail *)
  | ChainStore (prev : nat) (* prev_node->next = node *)
  | SpinNode             (* wait for node->locked *)
  | HeadWait             (* head: wait for LOCKED|PENDING to clear *)
  | HeadClaim (val : Z)  (* head: claim *)
  | NextWait             (* wait for the successor to link *)
  | NextLoad             (* read node->next *)
  | Notify (next : nat)  (* next_node->locked = 1 *)
  | Crit.                (* lock returned; next step unlocks *)

Record state := mkState { val : Z; nodes : list qnode; pcs : list pc }.

(** The agents (CPU, level) and whether the per-CPU nodes are set up. *)
Record config := mkConfig { agents : list (Z * Z); percpu_ready : bool }.

Definition goto (s : state) (i : nat) (p : pc) : state :=
  mkState (val s) (nodes s) (<[i := p]> (pcs s)).
Definition set_val (s : state) (v : Z) : state := mkState v (nodes s) (pcs s).
Definition set_node (s : state) (i : nat) (n : qnode) : state :=
  mkState (val s) (<[i := n]> (nodes s)) (pcs s).

Definition node_of (s : state) (i : nat) : outcome qnode := deref (nodes s !! i).

Definition agent_index (c : config) (a : Z * Z) : outcome nat :=
  deref (fst <$> list_find (fun b => b = a) (agents c)).

(** ** The code *)

(** After the pending attempt: queue, or spin on trylock without nodes. *)
Definition enqueue (c : config) (v : Z) : pc :=
  if percpu_ready c then InitLocked v else Fallback.

(** The head of the loop [while (!(val & Q_SPIN_PENDING_MASK))]. *)
Definition pend_loop (c : config) (v : Z) : pc :=
  if Z.land v Q_SPIN_PENDING_MASK =? 0 then PendCas v else enqueue c v.

(** Entry of [qspin_lock_slowpath]. *)
Definition slow_entry (c : config) (v : Z) : pc :=
  if Z.land v Q_SPIN_TAIL_MASK =? 0 then pend_loop c v else enqueue c v.

(** After the tail is published: chain behind the old tail or become head. *)
Definition after_exchange (c : config) (old_val : Z) : outcome pc :=
  let old_tail := Z.land old_val Q_SPIN_TAIL_MASK in
  if old_tail =? 0 then Ok HeadWait
  else p ← agent_index c (tail_agent old_tail); Ok (ChainStore p).

(** One step of agent [i]; [sp] makes a weak CAS fail spuriously.  [Idle] runs
    [qspin_lock_physical]'s first CAS, [Crit] runs [qspin_unlock_physical], the
    others are the accesses of [qspin_lock_slowpath] in order. *)
Definition exec (c : config) (i : nat) (sp : bool) (s : state) : outcome state :=
  me ← deref (agents c !! i);
  p ← deref (pcs s !! i);
  let v := val s in
  match p with
  | Idle =>
      if v =? 0 then Ok (goto (set_val s Q_SPIN_LOCKED_VAL) i Crit)
      else Ok (goto s i (slow_entry c v))
  | PendCas old =>
      if negb sp && (v =? old)
      then Ok (goto (set_val s (Z.lor old Q_SPIN_PENDING_VAL)) i PendWait)
      else Ok (goto s i (pend_loop c v))
  | PendWait =>
      if Z.land v Q_SPIN_LOCKED_MASK =? 0 then Ok (goto s i PendTake) else Ok s
  | PendTake =>
      Ok (goto (set_val s (u32 (v + (Q_SPIN_LOCKED_VAL - Q_SPIN_PENDING_VAL)))) i Crit)
  | Fallback =>
      if v =? 0 then Ok (goto (set_val s Q_SPIN_LOCKED_VAL) i Crit) else Ok s
  | InitLocked w =>
      n ← node_of s i;
      Ok (goto (set_node s i (mkNode (next n) 0)) i (InitNext w))
  | InitNext w =>
      n ← node_of s i;
      Ok (goto (set_node s i (mkNode None (locked n))) i (ExchTail w))
  | ExchTail old =>
      if negb sp && (v =? old)
      then
        q ← after_exchange c old;
        Ok (goto (set_val s (Z.lor (Z.land old (not_w 32 Q_SPIN_TAIL_MASK)) (tail_of me))) i q)
      else Ok (goto s i (ExchTail v))
  | ChainStore prev =>
      n ← node_of s prev;
      Ok (goto (set_node s prev (mkNode (Some i) (locked n))) i SpinNode)
  | SpinNode =>
      n ← node_of s i;
      if locked n =? 0 then Ok s else Ok (goto s i HeadWait)
  | HeadWait =>
      if Z.land v Q_SPIN_LOCKED_PENDING_MASK =? 0 then Ok (goto s i (HeadClaim v)) else Ok s
  | HeadClaim w =>
      if Z.land w Q_SPIN_TAIL_MASK =? tail_of me then
        if negb sp && (v =? w) then Ok (goto (set_val s Q_SPIN_LOCKED_VAL) i Crit)
        else Ok (goto s i (HeadClaim v))
      else Ok (goto (set_val s (Z.lor v Q_SPIN_LOCKED_VAL)) i NextWait)
  | NextWait =>
      n ← node_of s i;
      match next n with None => Ok s | Some _ => Ok (goto s i NextLoad) end
  | NextLoad =>
      n ← node_of s i; t ← deref (next n); Ok (goto s i (Notify t))
  | Notify t =>
      n ← node_of s t;
      Ok (goto (set_node s t (mkNode (next n) 1)) i Crit)
  | Crit => Ok (goto (set_val s (Z.land v (not_w 32 Q_SPIN_LOCKED_MASK))) i Idle)
  end.

Definition step (c : config) (s s' : state) : Prop :=
  exists i sp, exec c i sp s = Ok s'.

(** All agents idle, the lock word zero, node contents arbitrary. *)
Definition init_state (c : config) (ns : list qnode) : state :=
  mkState 0 ns (replicate (length (agents c)) Idle).

(** The agent's call of lock has returned and it has not unlocked. *)
Definition owns (s : state) (i : nat) : Prop := pcs s !! i = Some Crit.

(** ** The race *)

Definition run (c : config) (sched : list nat) (s : state) : outcome state :=
  foldl (fun o i => s ← o; exec c i false s) (Ok s) sched.

Definition three_cpus : config := mkConfig [(0, 0); (1, 0); (2, 0)] true.

(** CPU 0 takes the lock, CPU 1 reads the word and is delayed before its CAS,
    CPU 2 becomes pender, CPU 0 releases and queues, CPU 2 takes, releases and
    queues behind CPU 0; CPU 1's CAS fails, CPU 0 decides to claim, CPU 1 sets
    the pending bit and takes the lock, CPU 0 claims it. *)
Definition race_schedule : list nat :=
  ([0; 1; 2; 2] ++ [0; 0; 0; 0; 0] ++ [2; 2; 2] ++ [2; 2; 2; 2; 2] ++ [1; 0]
   ++ [1; 1; 1] ++ [0; 0; 0; 0])%nat.

Lemma run_steps c sched s s' : run c sched s = Ok s' -> rtc (step c) s s'.
Proof.
  revert s'. induction sched as [|i sched IH] using rev_ind; intros s'.
  - cbn. intros [= <-]. apply rtc_refl.
  - unfold run. rewrite foldl_app. cbn. intros (t & Ht & E)%bind_Ok_inv.
    eapply rtc_r; [by apply IH|]. by exists i, false.
Qed.

(** C17: three CPUs can make the code give the lock to two CPUs at once: from an
    idle lock there is an interleaving of the steps of [qspin_lock_slowpath]
    after which CPU 0 and CPU 1 have both returned from [qspin_lock]. *)
Theorem qspinlock_two_owners :
  exists s, rtc (step three_cpus) (init_state three_cpus (replicate 3 (mkNode None 0))) s /\
    owns s 0 /\ owns s 1.
Proof.
  destruct (run three_cpus race_schedule (init_state three_cpus (replicate 3 (mkNode None 0))))
    as [s| |] eqn:E.
  - exists s. split; [by eapply run_steps|]. revert E. vm_compute. intros [= <-]. done.
  - exfalso. revert E. by vm_compute.
  - exfalso. revert E. by vm_compute.
Qed.

(** ** Reading the lock word *)

(** A lock word from its locked flag, pending flag and tail. *)
Definition word (L P : bool) (T : Z) : Z :=
  Z.lor (Z.b2z L) (Z.lor (Z.shiftl (Z.b2z P) 8) T).

(** A tail with level and CPU fields [l] and [c]; both zero is "no tail". *)
Definition tailw (c l : Z) : Z := Z.lor (Z.shiftl c 16) (Z.shiftl l 9).
Definition tailish (T : Z) : Prop := exists c l, in_u 16 c /\ in_u 2 l /\ T = tailw c l.

Lemma testbit_b2z b i : Z.testbit (Z.b2z b) i = (i =? 0) && b.
Proof. destruct b; cbn [Z.b2z]; [rewrite testbit_1|rewrite Z.testbit_0_l]; by destruct (i =? 0). Qed.
#[local] Hint Rewrite testbit_b2z : zbits.

Lemma masks :
  Q_SPIN_LOCKED_MASK = Z.ones 8 /\ Q_SPIN_PENDING_MASK = 2 ^ 8 /\
  Q_SPIN_LOCKED_PENDING_MASK = Z.ones 9 /\
  Q_SPIN_TAIL_LVL_MASK = Z.shiftl (Z.ones 2) 9 /\
  Q_SPIN_TAIL_CPU_MASK = Z.shiftl (Z.ones 16) 16 /\
  Q_SPIN_TAIL_MASK = Z.lor (Z.shiftl (Z.ones 2) 9) (Z.shiftl (Z.ones 16) 16).
Proof. repeat split. Qed.

Ltac word_bits :=
  intros (c & l & Hc & Hl & ->);
  let E1 := fresh in let E2 := fresh in let E3 := fresh in let E4 := fresh in
  let E5 := fresh in let E6 := fresh in
  destruct masks as (E1 & E2 & E3 & E4 & E5 & E6);
  rewrite ?E1, ?E2, ?E3, ?E4, ?E5, ?E6; clear E1 E2 E3 E4 E5 E6; unfold word, tailw;
  apply Z.bits_inj'; intros i Hi;
  rewrite <- (wrap_small 16 c Hc), <- (wrap_small 2 l Hl);
  (destruct (decide (i < 9)); [|destruct (decide (i < 11)); [|destruct (decide (i < 16));
     [|destruct (decide (i < 32))]]]);
  unfold not_w; zbits_norm; zbits_split; zbits_norm; zbits_neg; zbits_norm;
  try reflexivity; try lia.

Lemma word_locked L P T : tailish T -> Z.land (word L P T) Q_SPIN_LOCKED_MASK = Z.b2z L.
Proof. word_bits. Qed.
Lemma word_pending L P T :
  tailish T -> Z.land (word L P T) Q_SPIN_PENDING_MASK = Z.shiftl (Z.b2z P) 8.
Proof. word_bits. Qed.
Lemma word_locked_pending L P T :
  tailish T -> Z.land (word L P T) Q_SPIN_LOCKED_PENDING_MASK = word L P 0.
Proof. word_bits. Qed.
Lemma word_tail L P T : tailish T -> Z.land (word L P T) Q_SPIN_TAIL_MASK = T.
Proof. word_bits. Qed.
Lemma word_clear_tail L P T :
  tailish T -> Z.land (word L P T) (not_w 32 Q_SPIN_TAIL_MASK) = word L P 0.
Proof. word_bits. Qed.
Lemma word_unlock L P T :
  tailish T -> Z.land (word L P T) (not_w 32 Q_SPIN_LOCKED_MASK) = word false P T.
Proof. word_bits. Qed.
Lemma word_set_pending L P T : Z.lor (word L P T) Q_SPIN_PENDING_VAL = word L true T.
Proof. unfold word. change Q_SPIN_PENDING_VAL with (Z.shiftl 1 8). cbn [Z.b2z]. zbits. Qed.
Lemma word_set_locked L P T : Z.lor (word L P T) Q_SPIN_LOCKED_VAL = word true P T.
Proof. unfold word. change Q_SPIN_LOCKED_VAL with 1. cbn [Z.b2z]. zbits. Qed.
Lemma word_set_tail L P T : Z.lor (word L P 0) T = word L P T.
Proof. unfold word. by rewrite Z.lor_0_r, Z.lor_assoc. Qed.

Lemma word_sum L P T : tailish T -> word L P T = Z.b2z L + 256 * Z.b2z P + T.
Proof.
  intros HT. unfold word.
  assert (Z.land (Z.shiftl (Z.b2z P) 8) T = 0) as D1.
  { revert HT. word_bits. }
  assert (Z.land (Z.b2z L) (Z.lor (Z.shiftl (Z.b2z P) 8) T) = 0) as D2.
  { revert HT. word_bits. }
  rewrite (lor_add_disjoint _ _ D2), (lor_add_disjoint _ _ D1).
  rewrite Z.shiftl_mul_pow2 by lia. lia.
Qed.

Lemma tailish_bound T : tailish T -> 0 <= T <= 2 ^ 32 - 512.
Proof.
  intros (c & l & Hc & Hl & ->). unfold tailw.
  assert (Z.land (Z.shiftl c 16) (Z.shiftl l 9) = 0) as D.
  { apply Z.bits_inj'. intros i Hi. rewrite <- (wrap_small 2 l Hl).
    destruct (decide (i < 16)); zbits_norm; zbits_neg; zbits_split; zbits_norm; done. }
  rewrite (lor_add_disjoint _ _ D), !Z.shiftl_mul_pow2 by lia. unfold in_u in *. lia.
Qed.

Lemma word_take T :
  tailish T ->
  u32 (word false true T + (Q_SPIN_LOCKED_VAL - Q_SPIN_PENDING_VAL)) = word true false T.
Proof.
  intros HT. rewrite !word_sum by done. pose proof (tailish_bound T HT).
  unfold Q_SPIN_LOCKED_VAL, Q_SPIN_PENDING_VAL. cbn [Z.b2z].
  rewrite wrap_small by (unfold in_u; lia). lia.
Qed.

Lemma tailish_0 : tailish 0.
Proof. exists 0, 0. repeat split; vm_compute; congruence. Qed.
#[local] Hint Resolve tailish_0 : core.

Lemma word_inj L P T L' P' T' :
  tailish T -> tailish T' -> word L P T = word L' P' T' -> L = L' /\ P = P' /\ T = T'.
Proof.
  intros HT HT' E. split_and!.
  - pose proof (word_locked L P T HT) as E1. rewrite E, word_locked in E1 by done.
    by destruct L, L'.
  - pose proof (word_pending L P T HT) as E1. rewrite E, word_pending in E1 by done.
    by destruct P, P'.
  - pose proof (word_tail L P T HT) as E1. rewrite E, word_tail in E1 by done. done.
Qed.

Lemma word_zero L P T : tailish T -> word L P T = 0 -> L = false /\ P = false /\ T = 0.
Proof. intros HT E. apply (word_inj _ _ _ false false 0); done. Qed.

(** Agents the encoding can name. *)
Definition valid_agent (a : Z * Z) : Prop := 0 <= a.1 < 65535 /\ 0 <= a.2 < 3.

Lemma tail_of_tailw a : valid_agent a -> tail_of a = tailw (a.1 + 1) a.2.
Proof.
  intros [H1 H2]. unfold tail_of, tailw, Q_SPIN_TAIL_CPU_OFFSET, Q_SPIN_TAIL_LVL_OFFSET.
  apply wrap_small. apply lor_range; [lia| |]; rewrite Z.shiftl_mul_pow2 by lia;
    unfold in_u; lia.
Qed.

Lemma tail_of_tailish a : valid_agent a -> tailish (tail_of a).
Proof.
  intros Ha. rewrite tail_of_tailw by done. exists (a.1 + 1), a.2.
  destruct Ha. unfold in_u. split_and!; try done; lia.
Qed.

(** The tail decodes to the agent it was built from. *)
Lemma tail_agent_of a : valid_agent a -> tail_agent (tail_of a) = a.
Proof.
  intros Ha. rewrite tail_of_tailw by done. destruct Ha as [H1 H2]. destruct a as [c l].
  cbn in *. unfold tail_agent. destruct masks as (_ & _ & _ & -> & -> & _).
  assert (in_u 16 (c + 1)) as Hc by (unfold in_u; lia).
  assert (in_u 2 l) as Hl by (unfold in_u; lia).
  assert (forall k n x i, in_u n x -> 0 <= i -> 0 <= n -> 0 <= k ->
    Z.testbit (Z.shiftr (Z.shiftl x k) k) i = Z.testbit x i) as Hsh.
  { intros. zbits_norm. f_equal. lia. }
  f_equal.
  - transitivity (c + 1 - 1); [|lia]. f_equal. unfold tailw, Q_SPIN_TAIL_CPU_OFFSET.
    rewrite <- (wrap_small 16 _ Hc), <- (wrap_small 2 l Hl).
    apply Z.bits_inj'. intros i Hi. zbits_norm. zbits_split; zbits_norm; try done; f_equal; lia.
  - unfold tailw, Q_SPIN_TAIL_LVL_OFFSET.
    rewrite <- (wrap_small 16 _ Hc), <- (wrap_small 2 l Hl).
    apply Z.bits_inj'. intros i Hi. zbits_norm.
    destruct (decide (i < 7)); zbits_norm; zbits_neg; zbits_split; zbits_norm;
      try done; f_equal; lia.
Qed.

Lemma tail_of_nonzero a : valid_agent a -> tail_of a <> 0.
Proof.
  intros Ha E. pose proof (tail_agent_of a Ha) as E'. rewrite E in E'.
  rewrite <- E' in Ha. destruct Ha as [[H1 _] _]. vm_compute in H1. by apply H1.
Qed.

Lemma tail_of_inj a b : valid_agent a -> valid_agent b -> tail_of a = tail_of b -> a = b.
Proof. intros Ha Hb E. by rewrite <- (tail_agent_of a Ha), E, tail_agent_of. Qed.

(** ** Executions without a pending retry on a queued word *)

(** Some agent is about to set the pending bit in a word that has a tail. *)
Definition tail_retry (s : state) : Prop :=
  exists i v, pcs s !! i = Some (PendCas v) /\ Z.land v Q_SPIN_TAIL_MASK <> 0.

Definition good_step (c : config) (s s' : state) : Prop := step c s s' /\ ~ tail_retry s'.

Definition wf_config (c : config) : Prop :=
  NoDup (agents c) /\ Forall valid_agent (agents c).

(** ** The invariant *)

(** The agent holds the lock, possibly still handing over the queue head. *)
Definition owner_pc (p : pc) : bool :=
  match p with Crit | NextWait | NextLoad | Notify _ => true | _ => false end.
Definition pender_pc (p : pc) : bool :=
  match p with PendWait | PendTake => true | _ => false end.
(** The agent's node is in the queue. *)
Definition queue_pc (p : pc) : bool :=
  match p with
  | ChainStore _ | SpinNode | HeadWait | HeadClaim _ | NextWait | NextLoad | Notify _ => true
  | _ => false
  end.

(** The tail of a queue [W] of agents, oldest first. *)
Definition tailW (c : config) (W : list nat) : Z :=
  match list.last W with
  | Some i => match agents c !! i with Some a => tail_of a | None => 0 end
  | None => 0
  end.

(** [b] is queued directly behind [a] and waits for it. *)
Definition link (s : state) (a b : nat) : Prop :=
  exists na nb, nodes s !! a = Some na /\ nodes s !! b = Some nb /\ locked nb = 0 /\
    ((pcs s !! b = Some (ChainStore a) /\ next na = None) \/
     (pcs s !! b = Some SpinNode /\ next na = Some b)).

Fixpoint chain (s : state) (a : nat) (rest : list nat) : Prop :=
  match rest with
  | [] => exists n, nodes s !! a = Some n /\ next n = None
  | b :: rest' => link s a b /\ chain s b rest'
  end.

(** What the agent at the head of the queue is doing. *)
Definition head_ok (c : config) (s : state) (a : nat) (rest : list nat) : Prop :=
  match pcs s !! a with
  | Some SpinNode => exists n, nodes s !! a = Some n /\ locked n <> 0
  | Some HeadWait => True
  | Some (HeadClaim v) =>
      forall ag, agents c !! a = Some ag ->
        Z.land v Q_SPIN_TAIL_MASK <> tail_of ag -> rest <> []
  | Some NextWait => rest <> []
  | Some NextLoad => exists b rest' n, rest = b :: rest' /\ nodes s !! a = Some n /\ next n = Some b
  | Some (Notify t) => exists rest' n, rest = t :: rest' /\ nodes s !! a = Some n /\ next n = Some t
  | _ => False
  end.

Definition queue_ok (c : config) (s : state) (W : list nat) : Prop :=
  match W with [] => True | a :: rest => head_ok c s a rest /\ chain s a rest end.

(** What a program point says about the lock word and the agent's own node. *)
Definition pc_ok (n : option qnode) (L P : bool) (p : pc) : Prop :=
  (owner_pc p = true -> L = true) /\
  (pender_pc p = true -> P = true) /\
  match p with
  | PendCas v => Z.land v Q_SPIN_PENDING_MASK = 0
  | PendTake => L = false
  | HeadClaim _ => L = false /\ P = false
  | InitNext _ => exists m, n = Some m /\ locked m = 0
  | ExchTail _ => n = Some (mkNode None 0)
  | _ => True
  end.

Record inv (c : config) (s : state) (W : list nat) (L P : bool) : Prop := mkInv {
  inv_nodes : length (nodes s) = length (agents c);
  inv_pcs_len : length (pcs s) = length (agents c);
  inv_nodup : NoDup W;
  inv_mem : forall i, i ∈ W <-> exists p, pcs s !! i = Some p /\ queue_pc p = true;
  inv_val : val s = word L P (tailW c W);
  inv_queue : queue_ok c s W;
  inv_pcs : forall i p, pcs s !! i = Some p -> pc_ok (nodes s !! i) L P p;
  inv_owner1 : forall i j p q, pcs s !! i = Some p -> pcs s !! j = Some q ->
    owner_pc p = true -> owner_pc q = true -> i = j;
  inv_pender1 : forall i j p q, pcs s !! i = Some p -> pcs s !! j = Some q ->
    pender_pc p = true -> pender_pc q = true -> i = j;
}.

Lemma tailW_tailish c W : wf_config c -> tailish (tailW c W).
Proof.
  intros [_ Hv]. unfold tailW. case_match; [|done]. case_match eqn:E; [|done].
  apply tail_of_tailish. eapply Forall_lookup_1; eauto.
Qed.

(** With a valid queue, no tail means no queue. *)
Lemma tailW_nil c s W L P : wf_config c -> inv c s W L P -> tailW c W = 0 -> W = [].
Proof.
  intros [_ Hv] I E. destruct W as [|a W] using rev_ind; [done|]. exfalso.
  unfold tailW in E. rewrite last_snoc in E.
  assert (a ∈ W ++ [a]) as Hin by (apply elem_of_app; right; constructor).
  apply (inv_mem _ _ _ _ _ I) in Hin as (p & Hp & _). apply lookup_lt_Some in Hp.
  rewrite (inv_pcs_len _ _ _ _ _ I) in Hp. apply lookup_lt_is_Some in Hp as [ag Hag].
  rewrite Hag in E. eapply tail_of_nonzero; [|done]. eapply Forall_lookup_1; eauto.
Qed.

(** Membership in an explicit list. *)
Ltac mem := by eauto using list_elem_of_here, list_elem_of_further.

Lemma chain_frame s s' a rest :
  (forall j, j ∈ a :: rest -> nodes s' !! j = nodes s !! j) ->
  (forall j, j ∈ rest -> pcs s' !! j = pcs s !! j) ->
  chain s a rest -> chain s' a rest.
Proof.
  revert a. induction rest as [|b rest IH]; cbn; intros a Hn Hp.
  - intros (n & E & ?). exists n. rewrite Hn by mem. done.
  - intros [(na & nb & Ea & Eb & Hl & Hor) Hc]. split.
    + exists na, nb. rewrite !Hn, Hp by mem. done.
    + apply IH; [intros; apply Hn; mem|intros; apply Hp; mem|done].
Qed.

Lemma head_ok_frame c s s' a rest :
  nodes s' !! a = nodes s !! a -> pcs s' !! a = pcs s !! a ->
  head_ok c s a rest -> head_ok c s' a rest.
Proof. intros Hn Hp. unfold head_ok. rewrite Hp, Hn. done. Qed.

(** A step that leaves the nodes and program points of the queue alone. *)
Lemma queue_ok_frame c s s' W :
  (forall j, j ∈ W -> nodes s' !! j = nodes s !! j) ->
  (forall j, j ∈ W -> pcs s' !! j = pcs s !! j) ->
  queue_ok c s W -> queue_ok c s' W.
Proof.
  intros Hn Hp. destruct W as [|a rest]; [done|]. cbn. intros [Hh Hc]. split.
  - eapply head_ok_frame; [apply Hn; mem|apply Hp; mem|done].
  - eapply chain_frame; [done| |done]. intros. apply Hp. mem.
Qed.

(** Appending an agent with a fresh node at the tail. *)
Lemma chain_snoc s s' a rest i :
  i ∉ a :: rest ->
  (forall j, j ∈ a :: rest -> nodes s' !! j = nodes s !! j) ->
  (forall j, j ∈ rest -> pcs s' !! j = pcs s !! j) ->
  nodes s' !! i = Some (mkNode None 0) ->
  pcs s' !! i = Some (ChainStore (default a (list.last rest))) ->
  chain s a rest -> chain s' a (rest ++ [i]).
Proof.
  revert a. induction rest as [|b rest IH]; cbn; intros a Hi Hn Hp En Ep.
  - intros (n & E & ?). split.
    + exists n, (mkNode None 0). rewrite Hn by mem. split_and!; try done. by left.
    + by exists (mkNode None 0).
  - intros [(na & nb & Ea & Eb & Hl & Hor) Hc]. split.
    + exists na, nb. rewrite !Hn, Hp by mem. done.
    + apply IH; try done; [by apply not_elem_of_cons in Hi as [_ ?]|intros; apply Hn; mem|intros; apply Hp; mem|].
      rewrite Ep. do 2 f_equal.
      destruct rest as [|d rest _] using rev_ind; [done|].
      rewrite app_comm_cons, !last_snoc. done.
Qed.

Lemma chain_rest s a rest b :
  chain s a rest -> b ∈ rest ->
  exists nb, nodes s !! b = Some nb /\ locked nb = 0 /\
    (pcs s !! b = Some SpinNode \/ exists x, pcs s !! b = Some (ChainStore x)).
Proof.
  revert a. induction rest as [|d rest IH]; cbn; intros a; [by intros _ ?%not_elem_of_nil|].
  intros [(na & nd & _ & Ed & Hl & Hor) Hc] [->|Hin]%elem_of_cons.
  - exists nd. split_and!; try done. destruct Hor as [[? _]|[? _]]; eauto.
  - by apply (IH d).
Qed.

(** The generic update: agent [i] moves to [p'], the queue becomes [W']. *)
Lemma inv_update c s W L P i p p' ns' W' L' P' :
  inv c s W L P -> pcs s !! i = Some p ->
  let s' := mkState (word L' P' (tailW c W')) ns' (<[i := p']> (pcs s)) in
  length ns' = length (nodes s) -> NoDup W' ->
  (forall j, j ∈ W' <-> if decide (j = i) then queue_pc p' = true else j ∈ W) ->
  queue_ok c s' W' ->
  (forall j q, j <> i -> pcs s !! j = Some q -> pc_ok (ns' !! j) L' P' q) ->
  pc_ok (ns' !! i) L' P' p' ->
  (owner_pc p' = true -> forall j q, j <> i -> pcs s !! j = Some q -> owner_pc q = false) ->
  (pender_pc p' = true -> forall j q, j <> i -> pcs s !! j = Some q -> pender_pc q = false) ->
  inv c s' W' L' P'.
Proof.
  intros I Hp s' Hlen Hnd Hmem Hq Hoth Hme How Hpe.
  assert (i < length (pcs s))%nat as Hi by (by eapply lookup_lt_Some).
  assert (forall j q, pcs s' !! j = Some q ->
    (j = i /\ q = p') \/ (j <> i /\ pcs s !! j = Some q)) as Hcase.
  { intros j q. cbn. destruct (decide (j = i)) as [->|].
    - rewrite list_lookup_insert_eq by done. intros [= <-]. by left.
    - rewrite list_lookup_insert_ne by done. by right. }
  constructor; cbn; try done.
  - rewrite Hlen. apply I.
  - rewrite length_insert. apply I.
  - intros j. rewrite Hmem. destruct (decide (j = i)) as [->|Hji].
    + rewrite list_lookup_insert_eq by done. naive_solver.
    + rewrite list_lookup_insert_ne by done. apply I.
  - intros j q [[-> ->]|[Hj Hjq]]%Hcase; [done|by apply Hoth].
  - intros j k q r [[-> ->]|[Hj Hjq]]%Hcase [[-> ->]|[Hk Hkr]]%Hcase Oq Or; try done.
    + rewrite (How Oq k r) in Or by done. done.
    + rewrite (How Or j q) in Oq by done. done.
    + eapply (inv_owner1 _ _ _ _ _ I); eauto.
  - intros j k q r [[-> ->]|[Hj Hjq]]%Hcase [[-> ->]|[Hk Hkr]]%Hcase Oq Or; try done.
    + rewrite (Hpe Oq k r) in Or by done. done.
    + rewrite (Hpe Or j q) in Oq by done. done.
    + eapply (inv_pender1 _ _ _ _ _ I); eauto.
Qed.

Lemma pc_ok_change n L1 P1 L2 P2 q :
  pc_ok n L1 P1 q ->
  (owner_pc q = true -> L2 = true) -> (pender_pc q = true -> P2 = true) ->
  (q = PendTake -> L2 = false) -> (forall v, q = HeadClaim v -> L2 = false /\ P2 = false) ->
  pc_ok n L2 P2 q.
Proof. intros (_ & _ & H) Ho Hpe Ht Hh. split_and!; try done. destruct q; eauto. Qed.

Lemma pc_ok_node n n' L1 P1 q : queue_pc q = true -> pc_ok n L1 P1 q -> pc_ok n' L1 P1 q.
Proof. destruct q; done. Qed.

(** The chain below a node does not depend on that node's own flag. *)
Lemma chain_relock s1 a rest n :
  a ∉ rest -> nodes s1 !! a = Some n -> chain s1 a rest ->
  forall v ps, (forall j, j ∈ rest -> ps !! j = pcs s1 !! j) ->
  chain (mkState v (<[a := mkNode (next n) 1]> (nodes s1)) ps) a rest.
Proof.
  intros Ha Hn Hc v ps Hps. pose proof (lookup_lt_Some _ _ _ Hn) as Hlt.
  destruct rest as [|b rest]; cbn in *.
  - exists (mkNode (next n) 1). rewrite list_lookup_insert_eq by done.
    destruct Hc as (m & Hm & ?). split; [done|]. cbn. congruence.
  - destruct Hc as [(na & nb & Ea & Eb & Hl & Hor) Hc]. split.
    + exists (mkNode (next n) 1), nb. cbn. rewrite list_lookup_insert_eq by done.
      rewrite list_lookup_insert_ne by (intros ->; apply Ha; mem). rewrite Hps by mem.
      split_and!; try done. assert (na = n) as -> by congruence. done.
    + eapply (chain_frame s1); [| |done]; intros j Hj; cbn.
      * apply list_lookup_insert_ne. intros ->. by apply Ha.
      * apply Hps. mem.
Qed.

(** A waiter's predecessor is in the queue and has no successor yet. *)
Lemma chain_prev s1 a rest b prev :
  chain s1 a rest -> b ∈ rest -> pcs s1 !! b = Some (ChainStore prev) ->
  prev ∈ a :: rest /\ exists n, nodes s1 !! prev = Some n /\ next n = None.
Proof.
  revert a. induction rest as [|d rest IH]; cbn; intros a; [by intros _ ?%not_elem_of_nil|].
  intros [(na & nd & Ea & Ed & _ & Hor) Hc] [->|Hin]%elem_of_cons Hb.
  - destruct Hor as [[E ?]|[E _]]; [|congruence]. assert (prev = a) as -> by congruence.
    split; [mem|by exists na].
  - destruct (IH d Hc Hin Hb) as [? ?]. split; [mem|done].
Qed.

(** Linking a waiter behind its predecessor. *)
Lemma chain_store s1 a rest b prev n v :
  NoDup (a :: rest) -> chain s1 a rest -> b ∈ rest ->
  pcs s1 !! b = Some (ChainStore prev) -> nodes s1 !! prev = Some n ->
  chain (mkState v (<[prev := mkNode (Some b) (locked n)]> (nodes s1)) (<[b := SpinNode]> (pcs s1)))
    a rest.
Proof.
  set (s2 := mkState _ _ _). intros Hnd Hc Hb Hpb Hn. revert a Hnd Hc.
  pose proof (lookup_lt_Some _ _ _ Hn) as Hlt. pose proof (lookup_lt_Some _ _ _ Hpb) as Hltb.
  assert (forall j, j <> prev -> nodes s2 !! j = nodes s1 !! j) as Hns.
  { intros. by apply list_lookup_insert_ne. }
  assert (forall j, j <> b -> pcs s2 !! j = pcs s1 !! j) as Hps.
  { intros. by apply list_lookup_insert_ne. }
  assert (nodes s2 !! prev = Some (mkNode (Some b) (locked n))) as Hn2.
  { by apply list_lookup_insert_eq. }
  assert (pcs s2 !! b = Some SpinNode) as Hb2 by (by apply list_lookup_insert_eq).
  clearbody s2.
  induction rest as [|d rest IH]; intros a Hnd; [by apply not_elem_of_nil in Hb|].
  intros [(na & nd & Ea & Ed & Hl & Hor) Hc]. apply list.NoDup_cons in Hnd as [Ha Hnd].
  destruct (decide (d = b)) as [->|Hdb].
  - destruct Hor as [[E Hno]|[E _]]; [|congruence]. assert (prev = a) as -> by congruence.
    assert (b <> a) by (intros ->; apply Ha; mem). split.
    + exists (mkNode (Some b) (locked n)), nd. rewrite (Hns b) by done. split_and!; try done. by right.
    + eapply (chain_frame s1); [| |done]; intros j Hj.
      * apply Hns. by intros ->.
      * apply Hps. intros ->. by apply list.NoDup_cons in Hnd as [? _].
  - apply elem_of_cons in Hb as [?|Hb]; [done|].
    destruct (chain_prev _ _ _ _ _ Hc Hb Hpb) as [Hprev (m & Hm & Hmn)].
    split; [|by apply IH].
    assert (nodes s2 !! a = Some na) as Ea2 by (rewrite Hns; [done|by intros ->]).
    destruct (decide (d = prev)) as [->|].
    + exists na, (mkNode (Some b) (locked n)). rewrite Hps by done. split_and!; try done.
      cbn. congruence.
    + exists na, nd. rewrite Hps, (Hns d) by done. done.
Qed.

(** ** Preservation *)

Section preservation.
Context (c : config) (Hwf : wf_config c) (s : state) (W : list nat) (L P : bool)
  (I : inv c s W L P) (i : nat) (me : Z * Z) (Hme : agents c !! i = Some me)
  (p : pc) (Hp : pcs s !! i = Some p).

Lemma me_valid : valid_agent me.
Proof. eapply Forall_lookup_1; [apply Hwf|done]. Qed.

Lemma my_node : exists n, nodes s !! i = Some n.
Proof.
  apply lookup_lt_is_Some_2. rewrite (inv_nodes _ _ _ _ _ I). by eapply lookup_lt_Some.
Qed.

Lemma not_queued : queue_pc p = false -> i ∉ W.
Proof. intros Hq (q & Hq' & ?)%(inv_mem _ _ _ _ _ I). congruence. Qed.

Lemma queued : queue_pc p = true -> i ∈ W.
Proof. intros Hq. apply (inv_mem _ _ _ _ _ I). by exists p. Qed.

(** While the word is not locked nobody owns, while it is not pending nobody
    is the pender. *)
Lemma no_owner j q : L = false -> pcs s !! j = Some q -> owner_pc q = false.
Proof.
  intros HL (Ho & _)%(inv_pcs _ _ _ _ _ I). destruct (owner_pc q); [|done].
  by rewrite Ho in HL.
Qed.

Lemma no_pender j q : P = false -> pcs s !! j = Some q -> pender_pc q = false.
Proof.
  intros HL (_ & Ho & _)%(inv_pcs _ _ _ _ _ I). destruct (pender_pc q); [|done].
  by rewrite Ho in HL.
Qed.

(** The owner of a lock is alone. *)
Lemma other_owner j q :
  owner_pc p = true -> j <> i -> pcs s !! j = Some q -> owner_pc q = false.
Proof.
  intros Ho Hj Hq. destruct (owner_pc q) eqn:E; [|done]. destruct Hj.
  eapply (inv_owner1 _ _ _ _ _ I); eauto.
Qed.

Lemma other_pender j q :
  pender_pc p = true -> j <> i -> pcs s !! j = Some q -> pender_pc q = false.
Proof.
  intros Ho Hj Hq. destruct (pender_pc q) eqn:E; [|done]. destruct Hj.
  eapply (inv_pender1 _ _ _ _ _ I); eauto.
Qed.

(** A move outside the queue that leaves the other agents' facts alone. *)
Lemma inv_plain p' ns' L' P' :
  queue_pc p = false -> queue_pc p' = false ->
  length ns' = length (nodes s) -> (forall j, j <> i -> ns' !! j = nodes s !! j) ->
  (forall j q, j <> i -> pcs s !! j = Some q -> pc_ok (nodes s !! j) L' P' q) ->
  pc_ok (ns' !! i) L' P' p' ->
  (owner_pc p' = true -> forall j q, j <> i -> pcs s !! j = Some q -> owner_pc q = false) ->
  (pender_pc p' = true -> forall j q, j <> i -> pcs s !! j = Some q -> pender_pc q = false) ->
  inv c (mkState (word L' P' (tailW c W)) ns' (<[i := p']> (pcs s))) W L' P'.
Proof.
  intros Hq Hq' Hlen Hn Hoth Hi Ho Hpe. pose proof (not_queued Hq) as Hni.
  eapply inv_update; eauto.
  - apply I.
  - intros j. destruct (decide (j = i)) as [->|]; [|done]. rewrite Hq'. done.
  - eapply queue_ok_frame; [| |apply I].
    + intros j Hj. apply Hn. by intros ->.
    + intros j Hj. cbn. apply list_lookup_insert_ne. by intros ->.
  - intros j q Hj Hjq. rewrite Hn by done. by apply Hoth.
Qed.

(** A plain move that changes only the program point. *)
Lemma inv_goto p' :
  queue_pc p = false -> queue_pc p' = false -> pc_ok (nodes s !! i) L P p' ->
  owner_pc p' = false -> (pender_pc p' = true -> pender_pc p = true) ->
  inv c (goto s i p') W L P.
Proof.
  intros Hq Hq' Hok Ho Hpe. unfold goto. rewrite (inv_val _ _ _ _ _ I).
  apply inv_plain; try done.
  - intros j q _. apply (inv_pcs _ _ _ _ _ I).
  - by rewrite Ho.
  - intros Hp'%Hpe j q. by apply other_pender.
Qed.

(** Nobody claims the lock as queue head while there is no queue. *)
Lemma no_claim j q : W = [] -> pcs s !! j = Some q -> queue_pc q = false.
Proof.
  intros HW Hq. destruct (queue_pc q) eqn:E; [|done].
  assert (j ∈ W) as Hin by (apply (inv_mem _ _ _ _ _ I); eauto).
  rewrite HW in Hin. by apply not_elem_of_nil in Hin.
Qed.

Lemma tail_zero : tailW c W = 0 -> W = [].
Proof. by eapply tailW_nil. Qed.

(** The free word: the fast path and trylock. *)
Lemma inv_fast :
  queue_pc p = false -> val s = 0 ->
  inv c (goto (set_val s Q_SPIN_LOCKED_VAL) i Crit) W true false.
Proof.
  intros Hq Hv. rewrite (inv_val _ _ _ _ _ I) in Hv.
  apply word_zero in Hv as (HL & HP & HT); [|by apply tailW_tailish].
  pose proof (tail_zero HT) as HW.
  assert (Q_SPIN_LOCKED_VAL = word true false (tailW c W)) as E by (by rewrite HT).
  unfold goto, set_val. cbn [nodes pcs val]. rewrite E. apply inv_plain; try done.
  - intros j q Hj Hjq. eapply pc_ok_change; [by apply (inv_pcs _ _ _ _ _ I)|done| | |].
    + by rewrite (no_pender j q).
    + intros ->. by pose proof (no_pender j _ HP Hjq).
    + intros v ->. by pose proof (no_claim j _ HW Hjq).
  - intros _ j q _. by apply no_owner.
Qed.

Lemma slow_entry_ok n v :
  let p' := slow_entry c v in
  queue_pc p' = false /\ owner_pc p' = false /\ pender_pc p' = false /\ pc_ok n L P p'.
Proof.
  unfold slow_entry, pend_loop, enqueue. cbn zeta.
  destruct (Z.land v Q_SPIN_TAIL_MASK =? 0), (Z.eqb_spec (Z.land v Q_SPIN_PENDING_MASK) 0),
    (percpu_ready c); split_and!; try done.
Qed.

Lemma pend_loop_ok n v :
  let p' := pend_loop c v in
  queue_pc p' = false /\ owner_pc p' = false /\ pender_pc p' = false /\ pc_ok n L P p'.
Proof.
  unfold pend_loop, enqueue. cbn zeta.
  destruct (Z.eqb_spec (Z.land v Q_SPIN_PENDING_MASK) 0), (percpu_ready c); split_and!; try done.
Qed.

(** The pending bit is set on a word without tail. *)
Lemma inv_set_pending old :
  p = PendCas old -> Z.land old Q_SPIN_TAIL_MASK = 0 -> val s = old ->
  inv c (goto (set_val s (Z.lor old Q_SPIN_PENDING_VAL)) i PendWait) W L true.
Proof.
  intros Hpc Ht Hv. pose proof (tailW_tailish c W Hwf) as HT.
  pose proof (inv_pcs _ _ _ _ _ I _ _ Hp) as Hpend. rewrite Hpc in Hpend.
  destruct Hpend as (_ & _ & Hpend).
  rewrite <- Hv, (inv_val _ _ _ _ _ I) in Ht, Hpend |- *.
  rewrite word_tail in Ht by done. rewrite word_pending in Hpend by done.
  assert (P = false) as HP by (by destruct P).
  unfold goto, set_val. cbn [nodes pcs val]. rewrite word_set_pending.
  apply inv_plain; try (by rewrite ?Hpc).
  - intros j q Hj Hjq. pose proof (inv_pcs _ _ _ _ _ I _ _ Hjq) as Hok.
    eapply pc_ok_change; [done|apply Hok|done| |].
    + intros ->. by pose proof (no_pender j _ HP Hjq).
    + intros v ->. by pose proof (no_claim j _ (tail_zero Ht) Hjq).
  - intros _ j q _. by apply no_pender.
Qed.

Lemma inv_pend_take :
  p = PendTake ->
  inv c (goto (set_val s (u32 (val s + (Q_SPIN_LOCKED_VAL - Q_SPIN_PENDING_VAL)))) i Crit)
    W true false.
Proof.
  intros Hpc. pose proof (inv_pcs _ _ _ _ _ I _ _ Hp) as Hok. rewrite Hpc in Hok.
  destruct Hok as (_ & HP & HL).  specialize (HP eq_refl). cbn in HL.
  unfold goto, set_val. cbn [nodes pcs val].
  rewrite (inv_val _ _ _ _ _ I), HL, HP, word_take by (by apply tailW_tailish).
  apply inv_plain; try (by rewrite ?Hpc).
  - intros j q Hj Hjq. pose proof (inv_pcs _ _ _ _ _ I _ _ Hjq) as Hok.
    eapply pc_ok_change; [done|done| | |].
    + by rewrite (other_pender j q) by (by rewrite ?Hpc).
    + intros ->. assert (pender_pc p = true) as Ho by (by rewrite Hpc).
      by pose proof (other_pender j _ Ho Hj Hjq).
    + intros v ->. destruct Hok as (_ & _ & _ & Hf). congruence.
  - intros _ j q _. by apply no_owner.
Qed.

Lemma inv_unlock :
  p = Crit ->
  inv c (goto (set_val s (Z.land (val s) (not_w 32 Q_SPIN_LOCKED_MASK))) i Idle) W false P.
Proof.
  intros Hpc. unfold goto, set_val. cbn [nodes pcs val].
  pose proof (inv_pcs _ _ _ _ _ I _ _ Hp) as (HL & _). rewrite Hpc in HL. specialize (HL eq_refl).
  rewrite (inv_val _ _ _ _ _ I), word_unlock by (by apply tailW_tailish).
  apply inv_plain; try (by rewrite ?Hpc).
  intros j q Hj Hjq. pose proof (inv_pcs _ _ _ _ _ I _ _ Hjq) as Hok.
  eapply pc_ok_change; [done| |apply Hok|done|].
  - by rewrite (other_owner j q) by (by rewrite ?Hpc).
  - intros v ->. destruct Hok as (_ & _ & Hf & _). congruence.
Qed.

(** Stores to the agent's own node before it is queued. *)
Lemma inv_own_node p' n :
  queue_pc p = false -> queue_pc p' = false -> owner_pc p' = false -> pender_pc p' = false ->
  pc_ok (Some n) L P p' ->
  inv c (goto (set_node s i n) i p') W L P.
Proof.
  intros Hq Hq' Ho Hpe Hok. destruct my_node as [m Hm]. unfold goto, set_node.
  cbn [nodes pcs val]. rewrite (inv_val _ _ _ _ _ I).
  apply inv_plain; try done.
  - by rewrite length_insert.
  - intros j Hj. by apply list_lookup_insert_ne.
  - intros j q _. apply (inv_pcs _ _ _ _ _ I).
  - rewrite list_lookup_insert_eq by (by eapply lookup_lt_Some). done.
  - by rewrite Ho.
  - by rewrite Hpe.
Qed.

(** *** Moves of queued agents *)

(** Only the head has left [SpinNode]; the others wait on a clear node. *)
Lemma head_if :
  queue_pc p = true ->
  (p = SpinNode -> exists n, nodes s !! i = Some n /\ locked n <> 0) ->
  (forall x, p <> ChainStore x) ->
  exists rest, W = i :: rest.
Proof.
  intros Hq%queued Hs Hc.
  pose proof (inv_queue _ _ _ _ _ I) as HQ. destruct W as [|a rest].
  { by apply not_elem_of_nil in Hq. }
  apply elem_of_cons in Hq as [->|Hin]; [by eexists|]. destruct HQ as [_ HQ].
  destruct (chain_rest _ _ _ _ HQ Hin) as (nb & Enb & Hl & [E|[x E]]); rewrite Hp in E.
  - destruct Hs as (n & En & Hn); congruence.
  - injection E as E. by destruct (Hc x).
Qed.

(** The head moves and stays in the queue. *)
Lemma inv_head p' L' rest :
  W = i :: rest -> queue_pc p' = true ->
  let s' := mkState (word L' P (tailW c W)) (nodes s) (<[i := p']> (pcs s)) in
  head_ok c s' i rest ->
  (forall j q, j <> i -> pcs s !! j = Some q -> pc_ok (nodes s !! j) L' P q) ->
  pc_ok (nodes s !! i) L' P p' ->
  (owner_pc p' = true -> owner_pc p = true \/ L = false) ->
  pender_pc p' = false ->
  inv c s' W L' P.
Proof.
  intros HW Hq s' Hh Hoth Hok Ho Hpe. pose proof (inv_nodup _ _ _ _ _ I) as Hnd.
  eapply inv_update; eauto.
  - intros j. destruct (decide (j = i)) as [->|]; [|done]. rewrite HW, Hq.
    split; [done|]. intros _. mem.
  - pose proof (inv_queue _ _ _ _ _ I) as HQ. rewrite HW in Hnd, HQ |- *.
    destruct HQ as [_ HQ]. split; [done|].
    apply (chain_frame s); [done| |done]. intros j Hj. cbn.
    apply list_lookup_insert_ne. intros ->. by apply list.NoDup_cons in Hnd as [? _].
  - intros [Ho'|Ho']%Ho j q; [by apply other_owner|intros _; by apply no_owner].
  - by rewrite Hpe.
Qed.

(** As [inv_head], the lock word unchanged. *)
Lemma inv_head_goto p' rest :
  W = i :: rest -> queue_pc p' = true -> head_ok c (goto s i p') i rest ->
  pc_ok (nodes s !! i) L P p' -> (owner_pc p' = true -> owner_pc p = true) ->
  pender_pc p' = false ->
  inv c (goto s i p') W L P.
Proof.
  intros HW Hq Hh Hok Ho Hpe. unfold goto in *. rewrite (inv_val _ _ _ _ _ I) in *.
  eapply inv_head; eauto.
  intros j q _. apply (inv_pcs _ _ _ _ _ I).
Qed.

Lemma goto_pc v ns p' : pcs (mkState v ns (<[i := p']> (pcs s))) !! i = Some p'.
Proof. cbn. apply list_lookup_insert_eq. by eapply lookup_lt_Some. Qed.

Lemma tailW_me W' : tailW c (W' ++ [i]) = tail_of me.
Proof. unfold tailW. by rewrite last_snoc, Hme. Qed.

Lemma inv_spin_done :
  p = SpinNode -> (exists n, nodes s !! i = Some n /\ locked n <> 0) ->
  inv c (goto s i HeadWait) W L P.
Proof.
  intros Hpc Hn. destruct head_if as [rest HW]; [by rewrite Hpc|done|by rewrite Hpc|].
  eapply inv_head_goto; try done.
  unfold head_ok, goto. by rewrite goto_pc.
Qed.

(** The head reads a word free of owner and pender. *)
Lemma inv_head_read :
  p = HeadWait \/ (exists w, p = HeadClaim w) -> L = false -> P = false ->
  inv c (goto s i (HeadClaim (val s))) W L P.
Proof.
  intros Hpc HL HP. pose proof (tailW_tailish c W Hwf) as HT.
  destruct head_if as [rest HW]; [by destruct Hpc as [-> | [? ->]]..|].
  eapply inv_head_goto; try done.
  unfold head_ok, goto. rewrite goto_pc. intros ag Hag Hne ->. destruct Hne.
  rewrite (inv_val _ _ _ _ _ I), word_tail by done. rewrite HW.
  pose proof (tailW_me []) as E. change ([] ++ [i]) with [i] in E. congruence.
Qed.

(** The tail of a queue is its last agent's. *)
Lemma tailW_last :
  W <> [] -> exists j a, list.last W = Some j /\ agents c !! j = Some a /\ tailW c W = tail_of a.
Proof.
  intros HW. destruct (list.last W) as [j|] eqn:E; [|by apply last_None in E].
  assert (j ∈ W) as Hin by (by apply list_elem_of_lookup_2 with (pred (length W)); rewrite <- last_lookup).
  apply (inv_mem _ _ _ _ _ I) in Hin as (q & Hq%lookup_lt_Some & _).
  rewrite (inv_pcs_len _ _ _ _ _ I) in Hq. apply lookup_lt_is_Some in Hq as [a Ha].
  exists j, a. unfold tailW. by rewrite E, Ha.
Qed.

(** A head without successor claims the lock and empties the queue. *)
Lemma inv_claim w :
  p = HeadClaim w -> Z.land w Q_SPIN_TAIL_MASK = tail_of me -> val s = w ->
  inv c (goto (set_val s Q_SPIN_LOCKED_VAL) i Crit) [] true false.
Proof.
  intros Hpc Ht Hv. destruct head_if as [rest HW]; [by rewrite Hpc..|].
  pose proof (inv_pcs _ _ _ _ _ I _ _ Hp) as Hok. rewrite Hpc in Hok.
  destruct Hok as (_ & _ & HL & HP).
  rewrite <- Hv, (inv_val _ _ _ _ _ I), word_tail in Ht by (by apply tailW_tailish).
  assert (W = [i]) as HW1.
  { destruct tailW_last as (j & a & Hj & Ha & E); [by rewrite HW|].
    rewrite Ht in E. apply tail_of_inj in E; [|apply me_valid|eapply Forall_lookup_1; [apply Hwf|done]].
    assert (j = i) as -> by (eapply NoDup_lookup; [apply Hwf| |done]; congruence).
    destruct rest as [|b rest _] using rev_ind; [done|].
    rewrite HW, app_comm_cons, last_snoc in Hj. injection Hj as ->.
    pose proof (inv_nodup _ _ _ _ _ I) as Hnd. rewrite HW in Hnd.
    apply NoDup_cons_1_1 in Hnd. destruct Hnd. apply elem_of_app. right. mem. }
  unfold goto, set_val. cbn [nodes pcs val].
  change Q_SPIN_LOCKED_VAL with (word true false (tailW c [])).
  eapply inv_update; eauto; try done.
  - constructor.
  - intros j. rewrite HW1. destruct (decide (j = i)) as [->|]; [by split; [intros ?%not_elem_of_nil|]|].
    rewrite list_elem_of_singleton. split; [by intros ?%not_elem_of_nil|done].
  - intros j q Hj Hjq. eapply pc_ok_change; [by apply (inv_pcs _ _ _ _ _ I)|done| | |].
    + by rewrite (no_pender j q).
    + intros ->. by pose proof (no_pender j _ HP Hjq).
    + intros v ->. assert (j ∈ W) as Hin by (apply (inv_mem _ _ _ _ _ I); eauto).
      rewrite HW1 in Hin. by apply list_elem_of_singleton in Hin.
  - intros _ j q _. by apply no_owner.
Qed.

(** A head with a successor sets the locked byte and hands over. *)
Lemma inv_claim_shared w :
  p = HeadClaim w -> Z.land w Q_SPIN_TAIL_MASK <> tail_of me ->
  inv c (goto (set_val s (Z.lor (val s) Q_SPIN_LOCKED_VAL)) i NextWait) W true P.
Proof.
  intros Hpc Ht. destruct head_if as [rest HW]; [by rewrite Hpc..|].
  pose proof (inv_pcs _ _ _ _ _ I _ _ Hp) as Hok. rewrite Hpc in Hok.
  destruct Hok as (_ & _ & HL & HP).
  pose proof (inv_queue _ _ _ _ _ I) as HQ. rewrite HW in HQ. destruct HQ as [Hh Hch].
  unfold head_ok in Hh. rewrite Hp, Hpc in Hh.
  unfold goto, set_val. cbn [nodes pcs val]. rewrite (inv_val _ _ _ _ _ I), word_set_locked.
  apply (inv_head _ _ rest); try done.
  - unfold head_ok. rewrite goto_pc. by apply (Hh me).
  - intros j q Hj Hjq. pose proof (inv_pcs _ _ _ _ _ I _ _ Hjq) as Hok.
    eapply pc_ok_change; [done|done|apply Hok| |].
    + intros ->. by pose proof (no_pender j _ HP Hjq).
    + intros v ->. assert (j ∈ W) as Hin by (apply (inv_mem _ _ _ _ _ I); eauto).
      rewrite HW in Hin. apply elem_of_cons in Hin as [?|Hin]; [done|].
      destruct (chain_rest _ _ _ _ Hch Hin) as (? & _ & _ & [E|[x E]]); congruence.
  - by right.
Qed.

Lemma inv_next_wait n b :
  p = NextWait -> nodes s !! i = Some n -> next n = Some b ->
  inv c (goto s i NextLoad) W L P.
Proof.
  intros Hpc Hn Hb. destruct head_if as [rest HW]; [by rewrite Hpc..|].
  pose proof (inv_pcs _ _ _ _ _ I _ _ Hp) as Hok. rewrite Hpc in Hok.
  eapply inv_head_goto; try done; [|by rewrite Hpc].
  pose proof (inv_queue _ _ _ _ _ I) as HQ. rewrite HW in HQ. destruct HQ as [Hh Hch].
  unfold head_ok in *. unfold goto. rewrite goto_pc. rewrite Hp, Hpc in Hh.
  destruct rest as [|b' rest]; [done|]. exists b', rest, n. split_and!; try done.
  destruct Hch as [(na & nb & Ena & _ & _ & Hor) _]. destruct Hor as [[_ ?]|[_ ?]]; congruence.
Qed.

Lemma inv_next_load :
  p = NextLoad ->
  exists n b, nodes s !! i = Some n /\ next n = Some b /\ inv c (goto s i (Notify b)) W L P.
Proof.
  intros Hpc. destruct head_if as [rest HW]; [by rewrite Hpc..|].
  pose proof (inv_pcs _ _ _ _ _ I _ _ Hp) as Hok. rewrite Hpc in Hok.
  pose proof (inv_queue _ _ _ _ _ I) as HQ. rewrite HW in HQ. destruct HQ as [Hh Hch].
  unfold head_ok in Hh. rewrite Hp, Hpc in Hh. destruct Hh as (b & rest' & n & Hr & Hn & Hb).
  exists n, b. split_and!; try done.
  eapply inv_head_goto; try done; [|by rewrite Hpc].
  unfold head_ok, goto. rewrite goto_pc. by exists rest', n.
Qed.

(** The owner hands the head of the queue to its successor. *)
Lemma inv_notify t :
  p = Notify t ->
  exists n W', nodes s !! t = Some n /\ 
    inv c (goto (set_node s t (mkNode (next n) 1)) i Crit) W' L P.
Proof.
  intros Hpc. destruct head_if as [rest HW]; [by rewrite Hpc..|].
  pose proof (inv_pcs _ _ _ _ _ I _ _ Hp) as Hok. rewrite Hpc in Hok.
  pose proof (inv_queue _ _ _ _ _ I) as HQ. rewrite HW in HQ. destruct HQ as [Hh Hch].
  unfold head_ok in Hh. rewrite Hp, Hpc in Hh. destruct Hh as (rest' & n & Hr & Hn & Hb).
  rewrite Hr in HW, Hch. destruct Hch as [(na & nt & Ena & Ent & _ & Hor) Hch].
  pose proof (inv_nodup _ _ _ _ _ I) as Hnd. rewrite HW in Hnd.
  apply list.NoDup_cons in Hnd as [Hi Hnd]. pose proof (NoDup_cons_1_1 _ _ Hnd) as Ht.
  assert (pcs s !! t = Some SpinNode) as Hpt.
  { destruct Hor as [[_ ?]|[? _]]; [congruence|done]. }
  assert (i <> t) as Hit by (intros ->; apply Hi; mem).
  exists nt, (t :: rest'). split; [done|]. unfold goto, set_node. cbn [nodes pcs val].
  assert (val s = word L P (tailW c (t :: rest'))) as ->.
  { rewrite (inv_val _ _ _ _ _ I), HW. done. }
  eapply inv_update; eauto.
  - by rewrite length_insert.
  - intros j. rewrite HW. destruct (decide (j = i)) as [->|]; [done|].
    rewrite (elem_of_cons (t :: rest')). naive_solver.
  - cbn [queue_ok]. split.
    + unfold head_ok. cbn. rewrite list_lookup_insert_ne, Hpt by done.
      exists (mkNode (next nt) 1). rewrite list_lookup_insert_eq by (by eapply lookup_lt_Some). done.
    + apply chain_relock; try done. intros j Hj. apply list_lookup_insert_ne. intros ->.
      apply Hi. mem.
  - intros j q Hj Hjq. pose proof (inv_pcs _ _ _ _ _ I _ _ Hjq) as Hokj.
    destruct (decide (j = t)) as [->|].
    + rewrite Hpt in Hjq. injection Hjq as <-. by eapply pc_ok_node.
    + by rewrite list_lookup_insert_ne.
  - intros _ j q. apply other_owner. by rewrite Hpc.
  - done.
Qed.

Lemma inv_chain_store prev :
  p = ChainStore prev ->
  exists n, nodes s !! prev = Some n /\
    inv c (goto (set_node s prev (mkNode (Some i) (locked n))) i SpinNode) W L P.
Proof.
  intros Hpc. pose proof (inv_queue _ _ _ _ _ I) as HQ. pose proof (inv_nodup _ _ _ _ _ I) as Hnd.
  assert (i ∈ W) as Hin by (apply queued; by rewrite Hpc). pose proof Hp as Hp'. rewrite Hpc in Hp'.
  pose proof (inv_val _ _ _ _ _ I) as HV. pose proof (inv_mem _ _ _ _ _ I) as HM.
  destruct W as [|a rest] eqn:EW; [by apply not_elem_of_nil in Hin|]. destruct HQ as [Hh Hc].
  apply elem_of_cons in Hin as [<-|Hin]; [unfold head_ok in Hh; by rewrite Hp' in Hh|].
  destruct (chain_prev _ _ _ _ _ Hc Hin Hp') as [Hprev (n & Hn & Hnn)].
  assert (a <> i) as Hai by (intros ->; by apply list.NoDup_cons in Hnd as [? _]).
  exists n. split; [done|]. unfold goto, set_node. cbn [nodes pcs val]. rewrite HV.
  eapply inv_update; eauto; try done.
  - by rewrite length_insert.
  - intros j. destruct (decide (j = i)) as [->|]; [|done]. split; [done|]. intros _. mem.
  - split; [|by apply chain_store]. unfold head_ok in *. cbn [nodes pcs].
    rewrite list_lookup_insert_ne by done. pose proof (lookup_lt_Some _ _ _ Hn) as Hlt.
    destruct (decide (a = prev)) as [->|]; [rewrite list_lookup_insert_eq by done|by rewrite list_lookup_insert_ne by done].
    destruct (pcs s !! prev) as [[]|]; try done.
    + destruct Hh as (m & ? & ?). exists (mkNode (Some i) (locked n)). split; [done|]. cbn. congruence.
    + destruct Hh as (? & ? & ? & ? & ? & ?). congruence.
    + destruct Hh as (? & ? & ? & ? & ?). congruence.
  - intros j q Hj Hjq. pose proof (inv_pcs _ _ _ _ _ I _ _ Hjq) as Hokj.
    destruct (decide (j = prev)) as [->|]; [|by rewrite list_lookup_insert_ne].
    eapply pc_ok_node; [|done]. apply HM in Hprev as (q' & ? & ?). congruence.
Qed.

Lemma agent_index_spec j a : agents c !! j = Some a -> agent_index c a = Ok j.
Proof.
  intros Ha. unfold agent_index.
  assert (list_find (fun b => b = a) (agents c) = Some (j, a)) as ->; [|done].
  apply list_find_Some. split_and!; [done|done|]. intros k y Hk Hlt ->.
  pose proof (NoDup_lookup _ _ _ _ (proj1 Hwf) Ha Hk). lia.
Qed.

(** Where an agent goes after it published the tail. *)
Lemma after_exchange_spec :
  after_exchange c (word L P (tailW c W)) =
  Ok (match list.last W with Some j => ChainStore j | None => HeadWait end).
Proof.
  unfold after_exchange. rewrite word_tail by (by apply tailW_tailish). cbn zeta.
  destruct (decide (W = [])) as [->|HW]; [done|].
  destruct (tailW_last HW) as (j & a & -> & Ha & ->).
  assert (valid_agent a) as Hv by (eapply Forall_lookup_1; [apply Hwf|done]).
  case (Z.eqb_spec (tail_of a) 0); [by intros ?%tail_of_nonzero|]. intros _.
  by rewrite tail_agent_of, (agent_index_spec j) by done.
Qed.

(** The queue may grow behind its head. *)
Lemma head_ok_snoc s1 s2 a rest b :
  nodes s2 !! a = nodes s1 !! a -> pcs s2 !! a = pcs s1 !! a ->
  head_ok c s1 a rest -> head_ok c s2 a (rest ++ [b]).
Proof.
  intros En Ep. unfold head_ok. rewrite En, Ep.
  destruct (pcs s1 !! a) as [[]|]; try done.
  - intros _ ag _ _ ?%app_nil. naive_solver.
  - intros _ ?%app_nil. naive_solver.
  - intros (b' & rest' & n & -> & ? & ?). by exists b', (rest' ++ [b]), n.
  - intros (rest' & n & -> & ? & ?). by exists (rest' ++ [b]), n.
Qed.

Lemma inv_exchange old :
  p = ExchTail old -> val s = old ->
  exists q, after_exchange c old = Ok q /\
    inv c (goto (set_val s (Z.lor (Z.land old (not_w 32 Q_SPIN_TAIL_MASK)) (tail_of me))) i q)
      (W ++ [i]) L P.
Proof.
  intros Hpc <-. pose proof (inv_pcs _ _ _ _ _ I _ _ Hp) as Hok. rewrite Hpc in Hok.
  destruct Hok as (_ & _ & Hnode). assert (i ∉ W) as Hi by (apply not_queued; by rewrite Hpc).
  rewrite (inv_val _ _ _ _ _ I), after_exchange_spec.
  exists (match list.last W with Some j => ChainStore j | None => HeadWait end). split; [done|].
  rewrite word_clear_tail, word_set_tail, <- (tailW_me W) by (by apply tailW_tailish).
  set (q := match list.last W with Some j => ChainStore j | None => HeadWait end).
  assert (queue_pc q = true /\ owner_pc q = false /\ pender_pc q = false) as (Hq & Ho & Hpe).
  { unfold q. by destruct (list.last W). }
  unfold goto, set_val. cbn [nodes pcs val]. apply (inv_update c s W L P i p); try done.
  - apply list.NoDup_app. split_and!; [apply I| |apply NoDup_singleton].
    intros x Hx ->%list_elem_of_singleton. done.
  - intros j. rewrite elem_of_app, list_elem_of_singleton.
    destruct (decide (j = i)) as [->|]; naive_solver.
  - pose proof (inv_queue _ _ _ _ _ I) as HQ. unfold q. clear Hq Ho Hpe q.
    destruct W as [|a rest]; cbn [queue_ok app].
    + split; [unfold head_ok; by rewrite goto_pc|]. exists (mkNode None 0). done.
    + destruct HQ as [Hh Hc]. split.
      * eapply head_ok_snoc; [| |done]; cbn; [done|]. apply list_lookup_insert_ne.
        intros <-. apply Hi. mem.
      * eapply (chain_snoc s); try done.
        { intros j Hj. cbn. apply list_lookup_insert_ne. intros ->. apply Hi. mem. }
        { rewrite goto_pc. do 2 f_equal. rewrite last_cons. by destruct (list.last rest). }
  - intros j r _. apply (inv_pcs _ _ _ _ _ I).
  - apply (pc_ok_node None); [done|]. unfold q. by destruct (list.last W).
  - by rewrite Ho.
  - by rewrite Hpe.
Qed.

End preservation.

(** Every step of an agent runs without fault and keeps the invariant. *)
Lemma exec_inv c s W L P i sp :
  wf_config c -> inv c s W L P -> ~ tail_retry s -> (i < length (agents c))%nat ->
  exists s' W' L' P', exec c i sp s = Ok s' /\ inv c s' W' L' P'.
Proof.
  intros Hwf I Hr Hi. destruct (lookup_lt_is_Some_2 _ _ Hi) as [me Hme].
  assert (i < length (pcs s))%nat as Hi' by (by rewrite (inv_pcs_len _ _ _ _ _ I)).
  destruct (lookup_lt_is_Some_2 _ _ Hi') as [p Hp].
  destruct (my_node c s W L P I i me Hme) as [n Hn].
  pose proof (inv_pcs _ _ _ _ _ I _ _ Hp) as Hok.
  unfold exec, node_of. rewrite Hme, Hp. cbn -[Z.land Z.lor Z.eqb not_w].
  destruct p; rewrite ?Hn; cbn -[Z.land Z.lor Z.eqb not_w].
  - case (Z.eqb_spec (val s) 0); intros Hv; do 4 eexists; (split; [done|]).
    + by eapply inv_fast.
    + destruct (slow_entry_ok c L P (nodes s !! i) (val s)) as (? & ? & Hpe & ?).
      eapply inv_goto; try done. by rewrite Hpe.
  - destruct (negb sp && (val s =? val0)) eqn:E; do 4 eexists; (split; [done|]).
    + eapply inv_set_pending; try done; [|lia].
      destruct (decide (Z.land val0 Q_SPIN_TAIL_MASK = 0)); [done|]. destruct Hr. by exists i, val0.
    + destruct (pend_loop_ok c L P (nodes s !! i) (val s)) as (? & ? & Hpe & ?).
      eapply inv_goto; try done. by rewrite Hpe.
  - case (Z.eqb_spec (Z.land (val s) Q_SPIN_LOCKED_MASK) 0); intros Hv; do 4 eexists;
      (split; [done|]); [|done].
    rewrite (inv_val _ _ _ _ _ I), word_locked in Hv by (by apply tailW_tailish).
    eapply inv_goto; try done. split_and!; try done; [apply Hok|]. by destruct L.
  - do 4 eexists. split; [done|]. by eapply inv_pend_take.
  - case (Z.eqb_spec (val s) 0); intros Hv; do 4 eexists; (split; [done|]); [|done].
    by eapply inv_fast.
  - do 4 eexists. split; [done|]. eapply inv_own_node; try done. split_and!; try done. by eexists.
  - do 4 eexists. split; [done|]. eapply inv_own_node; try done. split_and!; try done.
    destruct Hok as (_ & _ & m & ? & Hm). cbn. congruence.
  - destruct (negb sp && (val s =? val0)) eqn:E.
    + destruct (inv_exchange c Hwf s W L P I i me Hme _ Hp val0) as (q & -> & HI); [done|lia|].
      do 4 eexists. by split.
    + do 4 eexists. split; [done|]. by eapply inv_goto.
  - destruct (inv_chain_store c s W L P I i _ Hp prev) as (m & -> & HI); [done|].
    do 4 eexists. by split.
  - case (Z.eqb_spec (locked n) 0); intros Hl; do 4 eexists; (split; [done|]); [done|].
    eapply inv_spin_done; eauto.
  - case (Z.eqb_spec (Z.land (val s) Q_SPIN_LOCKED_PENDING_MASK) 0); intros Hv; do 4 eexists;
      (split; [done|]); [|done].
    rewrite (inv_val _ _ _ _ _ I), word_locked_pending in Hv by (by apply tailW_tailish).
    apply word_zero in Hv as (HL & HP & _); [|done].
    eapply inv_head_read; eauto.
  - destruct Hok as (_ & _ & HL & HP).
    case (Z.eqb_spec (Z.land val0 Q_SPIN_TAIL_MASK) (tail_of me)); intros Ht.
    + destruct (negb sp && (val s =? val0)) eqn:E; do 4 eexists; (split; [done|]).
      * eapply inv_claim; try done. lia.
      * eapply inv_head_read; eauto.
    + do 4 eexists. split; [done|]. by eapply inv_claim_shared.
  - destruct (next n) eqn:E; do 4 eexists; (split; [done|]); [|done]. by eapply inv_next_wait.
  - destruct (inv_next_load c s W L P I i me Hme _ Hp) as (m & b & Hm & Hb & HI); [done|].
    assert (m = n) as -> by congruence. rewrite Hb. do 4 eexists. by split.
  - destruct (inv_notify c s W L P I i me Hme _ Hp next0) as (m & W' & -> & HI); [done|].
    do 4 eexists. by split.
  - do 4 eexists. split; [done|]. by eapply inv_unlock.
Qed.

Lemma qspin_init_inv c ns :
  length ns = length (agents c) -> inv c (init_state c ns) [] false false.
Proof.
  intros Hn. assert (forall j q, pcs (init_state c ns) !! j = Some q -> q = Idle) as Hq.
  { intros j q [? _]%lookup_replicate. done. }
  constructor; cbn; try done.
  - apply length_replicate.
  - constructor.
  - intros j. split; [by intros ?%not_elem_of_nil|]. by intros (q & ->%Hq & ?).
  - by intros j q ->%Hq.
  - intros j k q r ->%Hq. done.
  - intros j k q r ->%Hq. done.
Qed.

Lemma good_reach_inv c ns s :
  wf_config c -> length ns = length (agents c) ->
  rtc (good_step c) (init_state c ns) s ->
  ~ tail_retry s /\ exists W L P, inv c s W L P.
Proof.
  intros Hwf Hn Hr. remember (init_state c ns) as s0 eqn:E0.
  assert (~ tail_retry s0 /\ exists W L P, inv c s0 W L P) as H0.
  { subst s0. split; [|do 3 eexists; by apply qspin_init_inv].
    intros (i & v & Hv & _). by apply lookup_replicate in Hv as [? _]. }
  clear E0. induction Hr as [|s s1 s2 [(i & sp & Hx) Ht] _ IH]; [done|].
  apply IH. split; [done|]. destruct H0 as [Hs (W & L & P & I)].
  destruct (decide (i < length (agents c))%nat) as [Hi|Hi].
  - destruct (exec_inv c s W L P i sp Hwf I Hs Hi) as (s' & W' & L' & P' & E & HI).
    assert (s' = s1) as -> by congruence. eauto.
  - exfalso. unfold exec in Hx. rewrite (lookup_ge_None_2 (agents c)) in Hx by lia. done.
Qed.

(** A schedule run with the retry condition checked after every step. *)
Definition retryb (p : pc) : bool :=
  match p with PendCas v => negb (Z.land v Q_SPIN_TAIL_MASK =? 0) | _ => false end.
Definition good_run (c : config) (sched : list nat) (s : state) : outcome state :=
  foldl (fun o i => s ← o; s' ← exec c i false s;
    if existsb retryb (pcs s') then Fault else Ok s') (Ok s) sched.

Lemma good_run_steps c sched s s' : good_run c sched s = Ok s' -> rtc (good_step c) s s'.
Proof.
  revert s'. induction sched as [|i sched IH] using rev_ind; intros s'.
  - cbn. intros [= <-]. apply rtc_refl.
  - unfold good_run. rewrite foldl_app. cbn. intros (t & Ht & (t' & E & Er)%bind_Ok_inv)%bind_Ok_inv.
    destruct (existsb retryb (pcs t')) eqn:Eb; [done|]. injection Er as <-.
    eapply rtc_r; [by apply IH|]. split; [by exists i, false|].
    intros (j & v & Hj & Hv). apply not_true_iff_false in Eb. apply Eb.
    apply existsb_exists. exists (PendCas v). split.
    + apply list_elem_of_In. by eapply list_elem_of_lookup_2.
    + cbn. by apply negb_true_iff, Z.eqb_neq.
Qed.

(** CPU 0 owns, CPU 1 becomes pender, CPU 2 queues behind them; CPU 0 releases,
    CPU 1 takes over and releases, CPU 2 claims the lock. *)
Definition contended_schedule : list nat :=
  [0; 1; 1; 2; 2; 2; 2; 2; 0; 1; 1; 2; 1; 2; 2]%nat.
Definition contended_state : state :=
  default (init_state three_cpus [])
    (match good_run three_cpus contended_schedule
             (init_state three_cpus (replicate 3 (mkNode None 0))) with
     | Ok s => Some s | _ => None end).

Lemma contended_reached :
  rtc (good_step three_cpus) (init_state three_cpus (replicate 3 (mkNode None 0))) contended_state
  /\ owns contended_state 2.
Proof.
  split; [|by vm_compute]. apply (good_run_steps _ contended_schedule). by vm_compute.
Qed.

(** C2: mutual exclusion of the queued spinlock.  For any number of CPUs with
    distinct (CPU, level) pairs, in every execution in which no CPU is about to
    set the pending bit on a word that already has a tail, at most one agent is
    between lock and unlock, and no step of any agent faults (the tail always
    decodes to an existing node and the successor pointer is set when read). *)
Theorem qspinlock_mutual_exclusion c ns s :
  wf_config c -> length ns = length (agents c) ->
  rtc (good_step c) (init_state c ns) s ->
  (forall i j, owns s i -> owns s j -> i = j) /\
  (forall i sp, (i < length (agents c))%nat -> exists s', exec c i sp s = Ok s').
Proof.
  intros Hwf Hn Hr. destruct (good_reach_inv c ns s Hwf Hn Hr) as [Ht (W & L & P & I)].
  split.
  - intros i j Hi Hj. by eapply (inv_owner1 _ _ _ _ _ I); eauto.
  - intros i sp Hi. destruct (exec_inv c s W L P i sp Hwf I Ht Hi) as (s' & ? & ? & ? & ? & _).
    eauto.
Qed.

(** Witness for C2: three contending CPUs, the last one owning the lock. *)
Lemma qspinlock_mutual_exclusion_witness :
  owns contended_state 2 /\
  (forall i j, owns contended_state i -> owns contended_state j -> i = j) /\
  (forall i sp, (i < 3)%nat -> exists s', exec three_cpus i sp contended_state = Ok s').
Proof.
  split; [apply contended_reached|].
  apply (qspinlock_mutual_exclusion three_cpus (replicate 3 (mkNode None 0))).
  - split; [|repeat constructor; cbn; lia].
    repeat (constructor; [set_solver|]). constructor.
  - done.
  - apply contended_reached.
Defined.
