(* ===== verification/BuddyPage.v ===== *)
(** * Page metadata and buddy free lists

    Models [include/mem/page.h] (page tags and payload), the accessors of
    [kernel/mem/buddy/internal.h] (the packed [buddy_page::meta] word) and the
    doubly linked free lists [buddy_fa_*] of [kernel/mem/buddy/core.c].  A page
    pointer is its page frame number, [NULL] is [None]; the forward link lives
    in the metadata word, the backward link in the first bytes of the free page
    itself.  The lemmas show that the list operations implement lists. *)

From S2P Require Import Prelude.

(** ** Page tags, include/mem/page.h *)

Definition PAGE_SIZE : Z := 4096.
Definition PAGE_4K_SHIFT : Z := 12.
Definition PAGE_TAG_MASK : Z := 7.
Definition PAGE_TAG_NONE : Z := 0.
Definition PAGE_TAG_BUDDY : Z := 1.
Definition PAGE_TAG_FOLIO : Z := 2.
Definition PAGE_TAG_ARENA : Z := 3.

Definition PAGE_TO_PFN (addr : Z) : Z := addr `div` PAGE_SIZE.
Definition PFN_TO_PAGE (pfn : Z) : Z := u64 (pfn * PAGE_SIZE).

Definition page_get_tag (meta : Z) : Z := Z.land meta PAGE_TAG_MASK.
Definition page_set_tag (meta tag : Z) : Z :=
  Z.lor (Z.land meta (not_w 64 PAGE_TAG_MASK)) (Z.land tag PAGE_TAG_MASK).

(** ** The packed word, kernel/mem/buddy/internal.h *)

Definition BUDDY_IS_FREE_SHIFT : Z := 3.
Definition BUDDY_IS_FREE_MASK : Z := BIT BUDDY_IS_FREE_SHIFT.
Definition BUDDY_IS_ZEROED_SHIFT : Z := 4.
Definition BUDDY_IS_ZEROED_MASK : Z := BIT BUDDY_IS_ZEROED_SHIFT.
Definition BUDDY_ORDER_SHIFT : Z := 5.
Definition BUDDY_ORDER_BITS : Z := 7.
Definition BUDDY_ORDER_MASK : Z := Z.shiftl (BIT BUDDY_ORDER_BITS - 1) BUDDY_ORDER_SHIFT.
Definition BUDDY_NEXT_PFN_SHIFT : Z := PAGE_4K_SHIFT.
Definition BUDDY_NEXT_PFN_BITS : Z := 64 - PAGE_4K_SHIFT.
Definition BUDDY_NEXT_PFN_MASK : Z := Z.shiftl (BIT BUDDY_NEXT_PFN_BITS - 1) BUDDY_NEXT_PFN_SHIFT.

Definition buddy_page_get_order (meta : Z) : Z :=
  Z.shiftr (Z.land meta BUDDY_ORDER_MASK) BUDDY_ORDER_SHIFT.
Definition buddy_page_set_order (meta order : Z) : Z :=
  Z.lor (Z.land meta (not_w 64 BUDDY_ORDER_MASK))
        (Z.land (u64 (Z.shiftl order BUDDY_ORDER_SHIFT)) BUDDY_ORDER_MASK).
Definition buddy_page_get_next_pfn (meta : Z) : Z :=
  Z.shiftr (Z.land meta BUDDY_NEXT_PFN_MASK) BUDDY_NEXT_PFN_SHIFT.
Definition buddy_page_set_next_pfn (meta pfn : Z) : Z :=
  Z.lor (Z.land meta (not_w 64 BUDDY_NEXT_PFN_MASK))
        (Z.land (u64 (Z.shiftl pfn BUDDY_NEXT_PFN_SHIFT)) BUDDY_NEXT_PFN_MASK).
Definition buddy_page_is_free (meta : Z) : bool :=
  (page_get_tag meta =? PAGE_TAG_BUDDY) && negb (Z.land meta BUDDY_IS_FREE_MASK =? 0).
Definition buddy_page_set_free (meta : Z) (is_free : bool) : Z :=
  Z.lor (Z.land meta (not_w 64 BUDDY_IS_FREE_MASK)) (if is_free then BUDDY_IS_FREE_MASK else 0).
Definition buddy_page_set_zeroed (meta : Z) (is_zeroed : bool) : Z :=
  Z.lor (Z.land meta (not_w 64 BUDDY_IS_ZEROED_MASK))
        (if is_zeroed then BUDDY_IS_ZEROED_MASK else 0).

(** ** Memory *)

(** [mem_global.page_array] with [last_pfn] entries, and for every page the
    [struct buddy_free_link] at its start. *)
Record buddy_mem := mkMem {
  page_array : gmap Z Z;
  free_link : gmap Z (option Z);
  last_pfn : Z;
}.

Definition page_for_pfn (m : buddy_mem) (pfn : Z) : option Z :=
  if last_pfn m <=? pfn then None else Some pfn.

Definition get_meta (m : buddy_mem) (p : Z) : outcome Z := deref (page_array m !! p).
Definition put_meta (m : buddy_mem) (p x : Z) : buddy_mem :=
  mkMem (<[p := x]> (page_array m)) (free_link m) (last_pfn m).

(** Apply a metadata setter to the page [p] points to. *)
Definition upd_meta (m : buddy_mem) (p : option Z) (f : Z -> Z) : outcome buddy_mem :=
  p ← deref p; x ← get_meta m p; Ok (put_meta m p (f x)).

Definition buddy_page_set_next (m : buddy_mem) (bp : Z) (next : option Z) : outcome buddy_mem :=
  match next with
  | None => upd_meta m (Some bp) (fun x => buddy_page_set_next_pfn x 0)
  | Some n => upd_meta m (Some bp) (fun x => buddy_page_set_next_pfn x n)
  end.

Definition buddy_page_get_next (m : buddy_mem) (bp : Z) : outcome (option Z) :=
  x ← get_meta m bp;
  let pfn := buddy_page_get_next_pfn x in
  if pfn =? 0 then Ok None else Ok (page_for_pfn m pfn).

Definition buddy_page_get_prev (m : buddy_mem) (bp : Z) : outcome (option Z) :=
  deref (free_link m !! bp).

Definition buddy_page_set_prev (m : buddy_mem) (bp : Z) (prev : option Z) : outcome buddy_mem :=
  _ ← deref (free_link m !! bp);
  Ok (mkMem (page_array m) (<[bp := prev]> (free_link m)) (last_pfn m)).

Definition buddy_page_tag (m : buddy_mem) (p : option Z) : outcome buddy_mem :=
  match p with
  | Some _ => upd_meta m p (fun x => page_set_tag x PAGE_TAG_BUDDY)
  | None => Ok m
  end.
Definition buddy_page_untag (m : buddy_mem) (p : option Z) : outcome buddy_mem :=
  match p with
  | Some _ => upd_meta m p (fun x => page_set_tag x PAGE_TAG_NONE)
  | None => Ok m
  end.
Definition buddy_page_assert_tag (m : buddy_mem) (p : option Z) (tag : Z) : outcome unit :=
  match p with
  | Some p => x ← get_meta m p; enforce (page_get_tag x =? tag)
  | None => Ok tt
  end.

(** ** Free lists, kernel/mem/buddy/core.c *)

Record buddy_free_area := mkArea { head : option Z; tail : option Z; nr_free : Z }.


Definition buddy_fa_push_head (m : buddy_mem) (a : buddy_free_area) (page : Z)
    : outcome (buddy_mem * buddy_free_area) :=
  let old_head := head a in
  m ← buddy_page_set_prev m page None;
  m ← buddy_page_set_next m page old_head;
  r ← match old_head with
      | Some h => m ← buddy_page_set_prev m h (Some page); Ok (m, a)
      | None => Ok (m, mkArea (head a) (Some page) (nr_free a))
      end;
  Ok (r.1, mkArea (Some page) (tail r.2) (u64 (nr_free r.2 + 1))).

Definition buddy_fa_push_tail (m : buddy_mem) (a : buddy_free_area) (page : Z)
    : outcome (buddy_mem * buddy_free_area) :=
  let old_tail := tail a in
  m ← buddy_page_set_next m page None;
  m ← buddy_page_set_prev m page old_tail;
  r ← match old_tail with
      | Some t => m ← buddy_page_set_next m t (Some page); Ok (m, a)
      | None => Ok (m, mkArea (Some page) (tail a) (nr_free a))
      end;
  Ok (r.1, mkArea (head r.2) (Some page) (u64 (nr_free r.2 + 1))).

Definition buddy_fa_pop_head (m : buddy_mem) (a : buddy_free_area)
    : outcome (buddy_mem * buddy_free_area * option Z) :=
  match head a with
  | None => Ok (m, a, None)
  | Some page =>
      next ← buddy_page_get_next m page;
      let a := mkArea next (tail a) (nr_free a) in
      r ← match next with
          | Some n => m ← buddy_page_set_prev m n None; Ok (m, a)
          | None => Ok (m, mkArea (head a) None (nr_free a))
          end;
      m ← buddy_page_set_next r.1 page None;
      Ok (m, mkArea (head r.2) (tail r.2) (u64 (nr_free r.2 - 1)), Some page)
  end.

Definition buddy_fa_pop_tail (m : buddy_mem) (a : buddy_free_area)
    : outcome (buddy_mem * buddy_free_area * option Z) :=
  match tail a with
  | None => Ok (m, a, None)
  | Some page =>
      prev ← buddy_page_get_prev m page;
      let a := mkArea (head a) prev (nr_free a) in
      r ← match prev with
          | Some n => m ← buddy_page_set_next m n None; Ok (m, a)
          | None => Ok (m, mkArea None (tail a) (nr_free a))
          end;
      m ← buddy_page_set_prev r.1 page None;
      Ok (m, mkArea (head r.2) (tail r.2) (u64 (nr_free r.2 - 1)), Some page)
  end.

Definition buddy_fa_remove (m : buddy_mem) (a : buddy_free_area) (page : Z)
    : outcome (buddy_mem * buddy_free_area) :=
  prev ← buddy_page_get_prev m page;
  next ← buddy_page_get_next m page;
  r ← match prev with
      | Some q => m ← buddy_page_set_next m q next; Ok (m, a)
      | None => Ok (m, mkArea next (tail a) (nr_free a))
      end;
  r ← match next with
      | Some n => m ← buddy_page_set_prev r.1 n prev; Ok (m, r.2)
      | None => Ok (r.1, mkArea (head r.2) prev (nr_free r.2))
      end;
  m ← buddy_page_set_next r.1 page None;
  m ← buddy_page_set_prev m page None;
  Ok (m, mkArea (head r.2) (tail r.2) (u64 (nr_free r.2 - 1))).

Definition buddy_add_to_free_area (m : buddy_mem) (page : option Z) (a : buddy_free_area)
    : outcome (buddy_mem * buddy_free_area) :=
  _ ← buddy_page_assert_tag m page PAGE_TAG_BUDDY;
  page ← deref page;
  r ← buddy_fa_push_tail m a page;
  m ← upd_meta r.1 (Some page) (fun x => buddy_page_set_free x true);
  Ok (m, r.2).

Definition buddy_remove_from_free_area (m : buddy_mem) (a : buddy_free_area)
    : outcome (buddy_mem * buddy_free_area * option Z) :=
  r ← buddy_fa_pop_head m a;
  match r.2 with
  | None => Ok r
  | Some page =>
      m ← upd_meta r.1.1 (Some page) (fun x => buddy_page_set_free x false);
      Ok (m, r.1.2, Some page)
  end.

(** ** The fields of the packed word *)

(** The [n]-bit field at bit [lo], and a word with that field replaced. *)
Definition fget (lo n x : Z) : Z := wrap n (Z.shiftr x lo).
Definition fset (lo n x v : Z) : Z :=
  Z.lor (Z.land x (not_w 64 (Z.shiftl (Z.ones n) lo))) (Z.shiftl (wrap n v) lo).

Section fields.
Context (lo n : Z) (Hlo : 0 <= lo) (Hn : 0 <= n) (H64 : lo + n <= 64).

Lemma fset_range x v : in_u 64 x -> in_u 64 (fset lo n x v).
Proof.
  intros Hx. apply lor_range; [lia|by apply land_range_l|].
  pose proof (wrap_range n v Hn) as [H1 H2]. unfold in_u. rewrite Z.shiftl_mul_pow2 by done.
  assert (2 ^ n * 2 ^ lo <= 2 ^ 64) by (rewrite <- Z.pow_add_r by lia; apply Z.pow_le_mono_r; lia).
  assert (0 < 2 ^ lo) by (apply Z.pow_pos_nonneg; lia). nia.
Qed.

Lemma fget_fset_eq x v : fget lo n (fset lo n x v) = wrap n v.
Proof. unfold fget, fset. rewrite not_w_alt by lia. zbits. Qed.

Lemma fget_fset_ne lo' n' x v :
  0 <= lo' -> 0 <= n' -> lo' + n' <= 64 -> lo' + n' <= lo \/ lo + n <= lo' ->
  fget lo' n' (fset lo n x v) = fget lo' n' x.
Proof. intros. unfold fget, fset. rewrite not_w_alt by lia. zbits. Qed.

(** The masks of the code denote fields. *)
Lemma fget_mask x : Z.shiftr (Z.land x (Z.shiftl (Z.ones n) lo)) lo = fget lo n x.
Proof. unfold fget. zbits. Qed.

Lemma fset_mask x v :
  Z.lor (Z.land x (not_w 64 (Z.shiftl (Z.ones n) lo)))
        (Z.land (u64 (Z.shiftl v lo)) (Z.shiftl (Z.ones n) lo)) = fset lo n x v.
Proof. unfold fset. f_equal. zbits. Qed.
End fields.

Create Rewrite HintDb fields.
#[export] Hint Rewrite fget_fset_eq using lia : fields.
#[export] Hint Rewrite fget_fset_ne using lia : fields.

(** The fields of a page's word. *)
Definition tagf (x : Z) : Z := fget 0 3 x.
Definition freef (x : Z) : Z := fget 3 1 x.
Definition zeroedf (x : Z) : Z := fget 4 1 x.
Definition orderf (x : Z) : Z := fget 5 7 x.
Definition nextf (x : Z) : Z := fget 12 52 x.

Lemma page_get_tag_field x : page_get_tag x = tagf x.
Proof.
  unfold page_get_tag, tagf. rewrite <- fget_mask by lia. rewrite Z.shiftr_0_r. done.
Qed.
Lemma page_set_tag_field x t : page_set_tag x t = fset 0 3 x t.
Proof. unfold page_set_tag, fset. f_equal. change PAGE_TAG_MASK with (Z.ones 3). zbits. Qed.
Lemma get_order_field x : buddy_page_get_order x = orderf x.
Proof. apply (fget_mask 5 7); lia. Qed.
Lemma set_order_field x o : buddy_page_set_order x o = fset 5 7 x o.
Proof. apply (fset_mask 5 7); lia. Qed.
Lemma get_next_field x : buddy_page_get_next_pfn x = nextf x.
Proof. apply (fget_mask 12 52); lia. Qed.
Lemma set_next_field x o : buddy_page_set_next_pfn x o = fset 12 52 x o.
Proof. apply (fset_mask 12 52); lia. Qed.
Lemma set_free_field x b : buddy_page_set_free x b = fset 3 1 x (Z.b2z b).
Proof.
  unfold buddy_page_set_free, fset. f_equal. by destruct b.
Qed.
Lemma is_free_field x :
  buddy_page_is_free x = (tagf x =? PAGE_TAG_BUDDY) && (freef x =? 1).
Proof.
  unfold buddy_page_is_free. rewrite page_get_tag_field. f_equal.
  change BUDDY_IS_FREE_MASK with (Z.shiftl (Z.ones 1) 3).
  assert (Z.shiftr (Z.land x (Z.shiftl (Z.ones 1) 3)) 3 = fget 3 1 x) as E
    by (apply fget_mask; lia).
  pose proof (wrap_range 1 (Z.shiftr x 3) ltac:(lia)) as Hr. fold (fget 3 1 x) in Hr.
  unfold freef. destruct (Z.eqb_spec (fget 3 1 x) 1) as [E1|E1]; cbn [negb].
  - destruct (Z.eqb_spec (Z.land x (Z.shiftl (Z.ones 1) 3)) 0) as [E0|]; [|done].
    rewrite E0, Z.shiftr_0_l in E. lia.
  - assert (fget 3 1 x = 0) as E2 by (unfold in_u in Hr; lia).
    apply negb_false_iff, Z.eqb_eq. rewrite E2 in E.
    apply Z.bits_inj'. intros i Hi. rewrite Z.testbit_0_l.
    assert (Z.testbit (Z.shiftr (Z.land x (Z.shiftl (Z.ones 1) 3)) 3) (i - 3) = false) as Hb
      by (by rewrite E, Z.testbit_0_l).
    destruct (decide (3 <= i)).
    + rewrite Z.shiftr_spec in Hb by lia. by replace (i - 3 + 3) with i in Hb by lia.
    + zbits_norm. zbits_split; zbits_norm; zbits_neg; zbits_norm; done.
Qed.

#[export] Hint Rewrite page_get_tag_field page_set_tag_field get_order_field set_order_field
  get_next_field set_next_field set_free_field is_free_field : fields.

(** Read a field of an updated word. *)
Ltac fields :=
  unfold tagf, freef, zeroedf, orderf, nextf; autorewrite with fields;
  unfold tagf, freef, zeroedf, orderf, nextf; autorewrite with fields.

(** ** Reading and writing pages *)

Definition metaof (m : buddy_mem) (p : Z) : Z := default 0 (page_array m !! p).
Definition prevof (m : buddy_mem) (p : Z) : option Z := default None (free_link m !! p).
Definition put_prev (m : buddy_mem) (p : Z) (v : option Z) : buddy_mem :=
  mkMem (page_array m) (<[p := v]> (free_link m)) (last_pfn m).

(** Every page has a 64-bit metadata word and a free link; page frame numbers
    fit the next-pfn field. *)
Record mem_wf (m : buddy_mem) : Prop := mkMemWf {
  wf_last : 0 <= last_pfn m <= 2 ^ 52;
  wf_meta : forall p, 0 <= p < last_pfn m ->
    exists x, page_array m !! p = Some x /\ in_u 64 x;
  wf_link : forall p, 0 <= p < last_pfn m -> is_Some (free_link m !! p);
}.

Section access.
Context (m : buddy_mem) (Hwf : mem_wf m) (p : Z) (Hp : 0 <= p < last_pfn m).

Lemma get_meta_Ok : get_meta m p = Ok (metaof m p).
Proof. unfold get_meta, metaof. by destruct (wf_meta m Hwf p Hp) as (x & -> & _). Qed.

Lemma metaof_range : in_u 64 (metaof m p).
Proof. unfold metaof. by destruct (wf_meta m Hwf p Hp) as (x & -> & ?). Qed.

Lemma upd_meta_Ok f : upd_meta m (Some p) f = Ok (put_meta m p (f (metaof m p))).
Proof. unfold upd_meta. cbn. by rewrite get_meta_Ok. Qed.

Lemma set_next_Ok n :
  buddy_page_set_next m p n = Ok (put_meta m p (fset 12 52 (metaof m p) (default 0 n))).
Proof. destruct n; cbn [buddy_page_set_next]; rewrite upd_meta_Ok, set_next_field; done. Qed.

Lemma get_prev_Ok : buddy_page_get_prev m p = Ok (prevof m p).
Proof. unfold buddy_page_get_prev, prevof. by destruct (wf_link m Hwf p Hp) as [x ->]. Qed.

Lemma set_prev_Ok v : buddy_page_set_prev m p v = Ok (put_prev m p v).
Proof. unfold buddy_page_set_prev. by destruct (wf_link m Hwf p Hp) as [x ->]. Qed.

Lemma get_next_Ok n :
  nextf (metaof m p) = default 0 n -> (forall q, n = Some q -> 0 < q < last_pfn m) ->
  buddy_page_get_next m p = Ok n.
Proof.
  intros E Hn. unfold buddy_page_get_next. rewrite get_meta_Ok. cbn. rewrite get_next_field, E.
  destruct n as [q|]; cbn; [|done]. pose proof (Hn q eq_refl).
  destruct (Z.eqb_spec q 0); [lia|]. unfold page_for_pfn. destruct (Z.leb_spec (last_pfn m) q); [lia|done].
Qed.

Lemma wf_put_meta x : in_u 64 x -> mem_wf (put_meta m p x).
Proof.
  intros Hx. destruct Hwf as [H1 H2 H3]. constructor; cbn; try done.
  intros q Hq. destruct (decide (p = q)) as [->|].
  - rewrite lookup_insert_eq. eauto.
  - rewrite lookup_insert_ne by done. auto.
Qed.

Lemma wf_put_prev v : mem_wf (put_prev m p v).
Proof.
  destruct Hwf as [H1 H2 H3]. constructor; cbn; try done.
  intros q Hq. destruct (decide (p = q)) as [->|].
  - rewrite lookup_insert_eq. eauto.
  - rewrite lookup_insert_ne by done. auto.
Qed.
End access.

Lemma metaof_put_meta m p x q :
  metaof (put_meta m p x) q = if decide (q = p) then x else metaof m q.
Proof.
  unfold metaof, put_meta. cbn. case_decide as E; [subst; by rewrite lookup_insert_eq|].
  by rewrite lookup_insert_ne.
Qed.
Lemma metaof_put_prev m p v q : metaof (put_prev m p v) q = metaof m q.
Proof. done. Qed.
Lemma prevof_put_meta m p x q : prevof (put_meta m p x) q = prevof m q.
Proof. done. Qed.
Lemma prevof_put_prev m p v q :
  prevof (put_prev m p v) q = if decide (q = p) then v else prevof m q.
Proof.
  unfold prevof, put_prev. cbn. case_decide as E; [subst; by rewrite lookup_insert_eq|].
  by rewrite lookup_insert_ne.
Qed.

(** Frame of an operation on a free list with pages [l]: only links change, and
    only those of [l]. *)
Record links_upd (m m' : buddy_mem) (l : list Z) : Prop := mkLinksUpd {
  lu_wf : mem_wf m';
  lu_last : last_pfn m' = last_pfn m;
  lu_tag : forall q, tagf (metaof m' q) = tagf (metaof m q);
  lu_free : forall q, freef (metaof m' q) = freef (metaof m q);
  lu_order : forall q, orderf (metaof m' q) = orderf (metaof m q);
  lu_next : forall q, q ∉ l -> nextf (metaof m' q) = nextf (metaof m q);
  lu_prev : forall q, q ∉ l -> prevof m' q = prevof m q;
}.

Lemma links_upd_refl m l : mem_wf m -> links_upd m m l.
Proof. by constructor. Qed.

Lemma links_upd_trans m1 m2 m3 l : links_upd m1 m2 l -> links_upd m2 m3 l -> links_upd m1 m3 l.
Proof.
  intros [] []. constructor; try congruence.
  - intros q Hq. transitivity (nextf (metaof m2 q)); eauto.
  - intros q Hq. transitivity (prevof m2 q); eauto.
Qed.

Lemma links_upd_mono m m' l l' : l ⊆ l' -> links_upd m m' l -> links_upd m m' l'.
Proof. intros Hs []. constructor; eauto. Qed.

Lemma links_set_next m p n l :
  mem_wf m -> 0 <= p < last_pfn m -> p ∈ l ->
  links_upd m (put_meta m p (fset 12 52 (metaof m p) n)) l.
Proof.
  intros Hwf Hp Hl. constructor; try done.
  - apply wf_put_meta; try done. apply fset_range; try lia. by apply metaof_range.
  - intros q. rewrite metaof_put_meta. case_decide; [subst; by fields|done].
  - intros q. rewrite metaof_put_meta. case_decide; [subst; by fields|done].
  - intros q. rewrite metaof_put_meta. case_decide; [subst; by fields|done].
  - intros q Hq. rewrite metaof_put_meta. case_decide; [by subst|done].
Qed.

Lemma links_set_prev m p v l :
  mem_wf m -> 0 <= p < last_pfn m -> p ∈ l -> links_upd m (put_prev m p v) l.
Proof.
  intros Hwf Hp Hl. constructor; try done.
  - by apply wf_put_prev.
  - intros q Hq. rewrite prevof_put_prev. case_decide; [by subst|done].
Qed.

(** ** Doubly linked segments *)

Definition hd_or (l : list Z) (o : option Z) : option Z :=
  match l with x :: _ => Some x | [] => o end.
Definition last_or (l : list Z) (o : option Z) : option Z :=
  match list.last l with Some x => Some x | None => o end.

(** The pages [l] are linked in order, between [prv] and [nxt]. *)
Fixpoint seg (m : buddy_mem) (prv : option Z) (l : list Z) (nxt : option Z) : Prop :=
  match l with
  | [] => True
  | p :: l' =>
      prevof m p = prv /\ nextf (metaof m p) = default 0 (hd_or l' nxt) /\ seg m (Some p) l' nxt
  end.

(** The free area [a] holds the list [l]. *)
Record fa_rep (m : buddy_mem) (a : buddy_free_area) (l : list Z) : Prop := mkFaRep {
  fa_head : head a = hd_or l None;
  fa_tail : tail a = last_or l None;
  fa_nr : nr_free a = Z.of_nat (length l);
  fa_seg : seg m None l None;
  fa_nodup : NoDup l;
  fa_pages : forall p, p ∈ l -> 0 < p < last_pfn m;
}.

Lemma last_or_snoc l x o : last_or (l ++ [x]) o = Some x.
Proof. unfold last_or. by rewrite last_snoc. Qed.
Lemma last_or_cons x l o : last_or (x :: l) o = last_or l (Some x).
Proof. unfold last_or. rewrite last_cons. by destruct (list.last l). Qed.
Lemma hd_or_app l1 l2 o : hd_or (l1 ++ l2) o = hd_or l1 (hd_or l2 o).
Proof. by destruct l1. Qed.
Lemma last_or_app l1 l2 o : last_or (l1 ++ l2) o = last_or l2 (last_or l1 o).
Proof.
  unfold last_or. destruct l2 as [|x l2 _] using rev_ind; [by rewrite app_nil_r|].
  by rewrite app_assoc, !last_snoc.
Qed.

Lemma last_or_in l x : last_or l None = Some x -> x ∈ l.
Proof.
  destruct l as [|y l _] using rev_ind; [done|]. rewrite last_or_snoc. intros [= ->].
  apply elem_of_app. right. by apply list_elem_of_singleton.
Qed.
Lemma hd_or_in l x : hd_or l None = Some x -> x ∈ l.
Proof. destruct l; [done|]. intros [= ->]. constructor. Qed.

Lemma seg_app m l1 : forall prv l2 nxt,
  seg m prv (l1 ++ l2) nxt <-> seg m prv l1 (hd_or l2 nxt) /\ seg m (last_or l1 prv) l2 nxt.
Proof.
  induction l1 as [|x l1 IH]; intros prv l2 nxt; cbn [app seg]; [naive_solver|].
  rewrite IH, hd_or_app, last_or_cons. naive_solver.
Qed.

Lemma seg_frame m m' l : forall prv nxt,
  (forall q, q ∈ l -> nextf (metaof m' q) = nextf (metaof m q) /\ prevof m' q = prevof m q) ->
  seg m prv l nxt -> seg m' prv l nxt.
Proof.
  induction l as [|x l IH]; intros prv nxt Hq; cbn; [done|]. intros (H1 & H2 & H3).
  destruct (Hq x) as [E1 E2]; [constructor|]. split_and!; [congruence|congruence|].
  apply IH; [|done]. intros. apply Hq. by constructor.
Qed.

(** A list that shares no page with the updated ones keeps its shape. *)
Lemma fa_rep_frame m m' a l l' :
  links_upd m m' l' -> (forall q, q ∈ l -> q ∉ l') -> fa_rep m a l -> fa_rep m' a l.
Proof.
  intros U Hd [H1 H2 H3 H4 H5 H6]. constructor; try done.
  - eapply seg_frame; [|done]. intros q Hq. split; apply U; auto.
  - intros p Hp. rewrite (lu_last _ _ _ U). auto.
Qed.

(** A list of distinct page numbers is shorter than the page array. *)
Lemma pages_length (l : list Z) n :
  NoDup l -> (forall p, p ∈ l -> 0 < p < n) -> Z.of_nat (length l) <= Z.max 0 n.
Proof.
  intros Hnd Hr. assert (l ⊆+ seqZ 0 n) as Hs.
  { apply NoDup_submseteq; [done|]. intros p Hp%Hr. apply elem_of_seqZ. lia. }
  apply submseteq_length in Hs. rewrite length_seqZ in Hs. lia.
Qed.

Lemma fa_rep_length m a l : mem_wf m -> fa_rep m a l -> Z.of_nat (length l) <= 2 ^ 52.
Proof.
  intros Hwf R. pose proof (pages_length l (last_pfn m) (fa_nodup _ _ _ R) (fa_pages _ _ _ R)).
  pose proof (wf_last m Hwf). lia.
Qed.

(** The neighbours of a page of the list. *)
Lemma seg_mid m l1 p l2 prv nxt :
  seg m prv (l1 ++ p :: l2) nxt <->
  seg m prv l1 (Some p) /\ prevof m p = last_or l1 prv /\
  nextf (metaof m p) = default 0 (hd_or l2 nxt) /\ seg m (Some p) l2 nxt.
Proof. rewrite seg_app. cbn. naive_solver. Qed.

(** Relinking the front of a segment's successor and the back of its
    predecessor. *)
Lemma seg_set_nxt m m' prv l nxt nxt' :
  NoDup l ->
  (forall q, q ∈ l -> prevof m' q = prevof m q /\
     nextf (metaof m' q) = if decide (last_or l None = Some q) then default 0 nxt'
                           else nextf (metaof m q)) ->
  seg m prv l nxt -> seg m' prv l nxt'.
Proof.
  intros Hnd Hq. destruct l as [|t l _] using rev_ind; [done|].
  rewrite !seg_app. cbn [hd_or seg]. intros (H1 & H2 & H3 & _).
  apply list.NoDup_app in Hnd as (Hn1 & Hn2 & _).
  destruct (Hq t) as [E1 E2]; [apply elem_of_app; right; constructor|].
  rewrite last_or_snoc, decide_True in E2 by done. split_and!; [|congruence|done|done].
  eapply seg_frame; [|done]. intros q Hin. destruct (Hq q) as [E3 E4]; [apply elem_of_app; by left|].
  rewrite last_or_snoc, decide_False in E4; [done|]. intros [= ->].
  apply (Hn2 q Hin). constructor.
Qed.

Lemma seg_set_prv m m' prv prv' l nxt :
  NoDup l ->
  (forall q, q ∈ l -> nextf (metaof m' q) = nextf (metaof m q) /\
     prevof m' q = if decide (hd_or l None = Some q) then prv' else prevof m q) ->
  seg m prv l nxt -> seg m' prv' l nxt.
Proof.
  intros Hnd Hq. destruct l as [|t l]; [done|]. cbn. intros (H1 & H2 & H3).
  apply list.NoDup_cons in Hnd as [Hn1 Hn2].
  destruct (Hq t) as [E1 E2]; [constructor|]. cbn in E2. rewrite decide_True in E2 by done.
  split_and!; [done|congruence|].
  eapply seg_frame; [|done]. intros q Hin. destruct (Hq q) as [E3 E4]; [by constructor|].
  cbn in E4. rewrite decide_False in E4; [done|]. intros [= ->]. done.
Qed.

(** ** The list operations implement lists *)

(** Evaluate reads of an updated memory. *)
Ltac reads :=
  repeat first [rewrite metaof_put_prev | rewrite metaof_put_meta
    | rewrite prevof_put_meta | rewrite prevof_put_prev];
  repeat case_decide; subst; try done; fields; try done.

Lemma nextf_set x n : 0 <= n < 2 ^ 52 -> nextf (fset 12 52 x n) = n.
Proof. intros. fields. by apply wrap_small. Qed.

Lemma wrap_default m o :
  mem_wf m -> (forall q, o = Some q -> 0 < q < last_pfn m) -> 0 <= default 0 o < 2 ^ 52.
Proof. intros Hwf Ho. pose proof (wf_last m Hwf). destruct o as [q|]; cbn; [pose proof (Ho q eq_refl)|]; lia. Qed.

Section listops.
Context (m : buddy_mem) (Hwf : mem_wf m) (a : buddy_free_area).

Lemma push_tail_spec l p :
  fa_rep m a l -> 0 < p < last_pfn m -> p ∉ l ->
  exists m' a', buddy_fa_push_tail m a p = Ok (m', a') /\
    fa_rep m' a' (l ++ [p]) /\ links_upd m m' (l ++ [p]).
Proof.
  intros R Hp Hnp. pose proof (wf_last m Hwf) as HL.
  pose proof (fa_rep_length _ _ _ Hwf R) as Hlen.
  assert (p ∈ l ++ [p]) as Hpl by (apply elem_of_app; right; constructor).
  unfold buddy_fa_push_tail. rewrite set_next_Ok by (done || lia). rewrite bind_Ok.
  set (m1 := put_meta m p _).
  assert (links_upd m m1 (l ++ [p])) as U1 by (apply links_set_next; done || lia).
  rewrite set_prev_Ok by (apply U1 || (cbn; lia)). rewrite bind_Ok.
  set (m2 := put_prev m1 p _).
  assert (links_upd m1 m2 (l ++ [p])) as U2 by (apply links_set_prev; [apply U1|cbn; lia|done]).
  assert (u64 (nr_free a + 1) = Z.of_nat (length (l ++ [p]))) as Hnr.
  { rewrite (fa_nr _ _ _ R), length_app. cbn. rewrite wrap_small by (unfold in_u; lia). lia. }
  assert (NoDup (l ++ [p])) as Hnd.
  { apply list.NoDup_app. split_and!; [apply R| |apply NoDup_singleton].
    by intros x Hx ->%list_elem_of_singleton. }
  assert (forall q, q ∈ l ++ [p] -> 0 < q < last_pfn m) as Hpg.
  { intros q [Hq|E%list_elem_of_singleton]%elem_of_app; [by apply R|by subst]. }
  pose proof (fa_tail _ _ _ R) as Ht. cbn zeta. rewrite Ht.
  destruct l as [|t l0 _] using rev_ind.
  - eexists _, _. split; [done|]. split; [|by eapply links_upd_trans].
    constructor; cbn; try done. split_and!; try done; unfold m2, m1; reads.
  - rewrite last_or_snoc in Ht |- *.
    assert (t ∈ l0 ++ [t]) as Htl by (apply elem_of_app; right; constructor).
    assert (t <> p) as Htp by (intros ->; done).
    assert (0 < t < last_pfn m) as Htr by (by apply R).
    rewrite set_next_Ok by (apply U2 || (cbn; lia)). rewrite bind_Ok. change (default 0 (Some p)) with p.
    set (m3 := put_meta m2 t _).
    assert (links_upd m2 m3 ((l0 ++ [t]) ++ [p])) as U3.
    { apply links_set_next; [apply U2|cbn; lia|]. apply elem_of_app; by left. }
    eexists _, _. split; [done|]. split; [|by eapply links_upd_trans, links_upd_trans].
    constructor; cbn; try done.
    + rewrite (fa_head _ _ _ R). by rewrite !hd_or_app.
    + by rewrite last_or_snoc.
    + rewrite seg_app. split.
      * eapply (seg_set_nxt m); [apply R| |apply R]. intros q Hq.
        assert (q <> p) by (by intros ->). split; [unfold m3, m2, m1; reads|].
        rewrite last_or_snoc. unfold m3. rewrite metaof_put_meta.
        destruct (decide (q = t)) as [->|].
        { rewrite decide_True by done. by rewrite nextf_set by lia. }
        rewrite decide_False by congruence. unfold m2, m1. reads.
      * rewrite last_or_snoc. cbn. split_and!; try done; unfold m3, m2, m1; reads.
Qed.

Lemma pop_head_nil : fa_rep m a [] -> buddy_fa_pop_head m a = Ok (m, a, None).
Proof. intros R. unfold buddy_fa_pop_head. by rewrite (fa_head _ _ _ R). Qed.

Lemma pop_head_spec p l :
  fa_rep m a (p :: l) ->
  exists m' a', buddy_fa_pop_head m a = Ok (m', a', Some p) /\
    fa_rep m' a' l /\ links_upd m m' (p :: l).
Proof.
  intros R. pose proof (wf_last m Hwf) as HL. pose proof (fa_rep_length _ _ _ Hwf R) as Hlen.
  pose proof (fa_seg _ _ _ R) as (S1 & S2 & S3).
  pose proof (fa_nodup _ _ _ R) as [Hnp Hnd]%list.NoDup_cons.
  assert (0 < p < last_pfn m) as Hp by (apply R; constructor).
  assert (u64 (nr_free a - 1) = Z.of_nat (length l)) as Hnr.
  { rewrite (fa_nr _ _ _ R). cbn. cbn in Hlen. rewrite wrap_small by (unfold in_u; lia). lia. }
  assert (forall q, q ∈ l -> 0 < q < last_pfn m) as Hpg by (intros; apply R; by constructor).
  unfold buddy_fa_pop_head. rewrite (fa_head _ _ _ R). cbn [hd_or].
  rewrite (get_next_Ok m Hwf p ltac:(lia) (hd_or l None)) by (done || intros q Hq%hd_or_in; auto).
  rewrite bind_Ok. destruct l as [|n l]; cbn [hd_or].
  - rewrite bind_Ok. cbn [fst snd head tail nr_free]. rewrite set_next_Ok by (done || lia). rewrite bind_Ok.
    eexists _, _. split; [done|]. split; [|apply links_set_next; [done|lia|constructor]].
    by constructor.
  - assert (0 < n < last_pfn m) as Hn by (apply Hpg; constructor).
    rewrite set_prev_Ok by (done || lia). rewrite !bind_Ok. cbn [fst snd head tail nr_free].
    set (m1 := put_prev m n None).
    assert (links_upd m m1 (p :: n :: l)) as U1.
    { apply links_set_prev; [done|lia|]. constructor. constructor. }
    rewrite set_next_Ok by (apply U1 || (cbn; lia)). rewrite bind_Ok. set (m2 := put_meta m1 p _).
    eexists _, _. split; [done|]. split.
    + constructor; cbn -[Z.of_nat length seg m2]; try done.
      { rewrite (fa_tail _ _ _ R). rewrite last_or_cons. destruct l as [|t l _] using rev_ind; [done|].
        by rewrite app_comm_cons, !last_or_snoc. }
      eapply (seg_set_prv m m2 (Some p)); [done| |done].
      intros q Hq. assert (q <> p) by (by intros ->). cbn -[m2].
      split; [unfold m2, m1; reads|]. unfold m2, m1. rewrite prevof_put_meta, prevof_put_prev.
      destruct (decide (q = n)); [subst; by rewrite decide_True|by rewrite decide_False by congruence].
    + eapply links_upd_trans; [done|]. apply links_set_next; [apply U1|cbn; lia|constructor].
Qed.

(** Set the forward (backward) link of the page a pointer names, if any. *)
Definition relink_next (m0 : buddy_mem) (o v : option Z) : buddy_mem :=
  match o with Some q => put_meta m0 q (fset 12 52 (metaof m0 q) (default 0 v)) | None => m0 end.
Definition relink_prev (m0 : buddy_mem) (o v : option Z) : buddy_mem :=
  match o with Some q => put_prev m0 q v | None => m0 end.

Lemma relink_next_upd m0 o v l :
  mem_wf m0 -> (forall q, o = Some q -> q ∈ l /\ 0 < q < last_pfn m0) ->
  links_upd m0 (relink_next m0 o v) l.
Proof.
  intros Hw Ho. destruct o as [q|]; [|by apply links_upd_refl].
  destruct (Ho q eq_refl). apply links_set_next; done || lia.
Qed.
Lemma relink_prev_upd m0 o v l :
  mem_wf m0 -> (forall q, o = Some q -> q ∈ l /\ 0 < q < last_pfn m0) ->
  links_upd m0 (relink_prev m0 o v) l.
Proof.
  intros Hw Ho. destruct o as [q|]; [|by apply links_upd_refl].
  destruct (Ho q eq_refl). apply links_set_prev; done || lia.
Qed.

Lemma relink_next_nextf m0 o v q :
  0 <= default 0 v < 2 ^ 52 ->
  nextf (metaof (relink_next m0 o v) q) =
  if decide (o = Some q) then default 0 v else nextf (metaof m0 q).
Proof.
  intros Hv. destruct o as [x|]; cbn [relink_next]; [|by rewrite decide_False].
  rewrite metaof_put_meta. destruct (decide (q = x)) as [->|].
  - rewrite decide_True by done. by apply nextf_set.
  - by rewrite decide_False by congruence.
Qed.
Lemma relink_next_prevof m0 o v q : prevof (relink_next m0 o v) q = prevof m0 q.
Proof. by destruct o. Qed.
Lemma relink_prev_nextf m0 o v q :
  nextf (metaof (relink_prev m0 o v) q) = nextf (metaof m0 q).
Proof. by destruct o. Qed.
Lemma relink_prev_prevof m0 o v q :
  prevof (relink_prev m0 o v) q = if decide (o = Some q) then v else prevof m0 q.
Proof.
  destruct o as [x|]; cbn [relink_prev]; [|by rewrite decide_False].
  rewrite prevof_put_prev. destruct (decide (q = x)) as [->|].
  - by rewrite decide_True.
  - by rewrite decide_False by congruence.
Qed.

(** A memory in which [p]'s neighbours point past it holds the list without it. *)
Lemma unlink_rep m' l1 p l2 :
  fa_rep m a (l1 ++ p :: l2) -> last_pfn m' = last_pfn m ->
  (forall q, q <> p -> nextf (metaof m' q) =
     if decide (last_or l1 None = Some q) then default 0 (hd_or l2 None) else nextf (metaof m q)) ->
  (forall q, q <> p -> prevof m' q =
     if decide (hd_or l2 None = Some q) then last_or l1 None else prevof m q) ->
  fa_rep m' (mkArea (match last_or l1 None with Some _ => head a | None => hd_or l2 None end)
                    (match hd_or l2 None with Some _ => tail a | None => last_or l1 None end)
                    (u64 (nr_free a - 1))) (l1 ++ l2).
Proof.
  intros R HL Hn Hpr. pose proof (fa_rep_length _ _ _ Hwf R) as Hlen.
  pose proof (fa_seg _ _ _ R) as (S1 & S2 & S3 & S4)%seg_mid.
  pose proof (fa_nodup _ _ _ R) as (N1 & N2 & [N3 N4]%list.NoDup_cons)%list.NoDup_app.
  assert (forall q, q ∈ l1 -> q ∉ l2) as N5 by (intros q H1 H2; apply (N2 q H1); by constructor).
  assert (forall q, q ∈ l1 -> q <> p) as N6 by (intros q H1 ->; apply (N2 p H1); by constructor).
  assert (forall q, q ∈ l2 -> q <> p) as N7 by (by intros q H1 ->).
  constructor; cbn.
  - rewrite (fa_head _ _ _ R), !hd_or_app. destruct l1 as [|x l1]; [done|].
    destruct l1 as [|y l1 _] using rev_ind; [done|]. by rewrite app_comm_cons, last_or_snoc.
  - rewrite (fa_tail _ _ _ R), !last_or_app, last_or_cons. destruct l2 as [|x l2]; [done|].
    by rewrite !last_or_cons.
  - rewrite (fa_nr _ _ _ R). rewrite !length_app in *. cbn [length] in *.
    rewrite wrap_small by (unfold in_u; lia). lia.
  - apply seg_app. split.
    + eapply (seg_set_nxt m); [done| |done]. intros q Hq. rewrite Hn, Hpr by auto. split; [|done].
      rewrite decide_False; [done|]. intros ?%hd_or_in. by apply (N5 q).
    + eapply (seg_set_prv m); [done| |done]. intros q Hq. rewrite Hn, Hpr by auto. split; [|done].
      rewrite decide_False; [done|]. intros ?%last_or_in. by apply (N5 q).
  - apply list.NoDup_app. done.
  - intros q Hq. rewrite HL. apply (fa_pages _ _ _ R). set_solver.
Qed.

Lemma remove_spec l1 p l2 :
  fa_rep m a (l1 ++ p :: l2) ->
  exists m' a', buddy_fa_remove m a p = Ok (m', a') /\
    fa_rep m' a' (l1 ++ l2) /\ links_upd m m' (l1 ++ p :: l2).
Proof.
  set (l := l1 ++ p :: l2). intros R. pose proof (wf_last m Hwf) as HL.
  pose proof (fa_rep_length _ _ _ Hwf R) as Hlen. pose proof (fa_pages _ _ _ R) as Hpg.
  pose proof (fa_seg _ _ _ R) as (S1 & S2 & S3 & S4)%seg_mid.
  pose proof (fa_nodup _ _ _ R) as (N1 & N2 & [N3 N4]%list.NoDup_cons)%list.NoDup_app.
  set (pv := last_or l1 None) in *. set (nx := hd_or l2 None) in *.
  assert (p ∈ l) as Hpl by (apply elem_of_app; right; constructor).
  assert (forall q, pv = Some q -> q ∈ l /\ 0 < q < last_pfn m) as Hpv.
  { intros q Hq%last_or_in. assert (q ∈ l) by (apply elem_of_app; by left). auto. }
  assert (forall q, nx = Some q -> q ∈ l /\ 0 < q < last_pfn m) as Hnx.
  { intros q Hq%hd_or_in. assert (q ∈ l) by (apply elem_of_app; right; by constructor). auto. }
  unfold buddy_fa_remove. rewrite get_prev_Ok, S2, bind_Ok by (done || apply Hpg in Hpl; lia).
  rewrite (get_next_Ok m Hwf p ltac:(apply Hpg in Hpl; lia) nx), bind_Ok by (done || apply Hnx).
  set (m1 := relink_next m pv nx). pose proof (relink_next_upd m pv nx l Hwf Hpv) as U1. fold m1 in U1.
  assert (forall B (k : _ -> outcome B),
    (match pv with
     | Some q => m0 ← buddy_page_set_next m q nx; Ok (m0, a)
     | None => Ok (m, mkArea nx (tail a) (nr_free a))
     end ≫= k) = k (m1, mkArea (match pv with Some _ => head a | None => nx end) (tail a) (nr_free a))) as ->.
  { intros B k. unfold m1. destruct pv as [q|]; [|done]. destruct (Hpv q eq_refl).
    rewrite set_next_Ok by (done || lia). destruct a. done. }
  set (m2 := relink_prev m1 nx pv).
  assert (links_upd m1 m2 l) as U2.
  { apply relink_prev_upd; [apply U1|]. by rewrite (lu_last _ _ _ U1). }
  cbn [fst snd]. 
  assert (forall B (k : _ -> outcome B) a1,
    (match nx with
     | Some n => m0 ← buddy_page_set_prev m1 n pv; Ok (m0, a1)
     | None => Ok (m1, mkArea (head a1) pv (nr_free a1))
     end ≫= k) = k (m2, mkArea (head a1) (match nx with Some _ => tail a1 | None => pv end) (nr_free a1))) as ->.
  { intros B k a1. unfold m2. destruct nx as [q|]; [|done]. destruct (Hnx q eq_refl).
    rewrite set_prev_Ok by (apply U1 || rewrite (lu_last _ _ _ U1); lia). by destruct a1. }
  pose proof (links_upd_trans _ _ _ _ U1 U2) as U.
  assert (0 <= p < last_pfn m2) as Hp by (rewrite (lu_last _ _ _ U); apply Hpg in Hpl; lia).
  cbn [fst snd head tail nr_free]. rewrite set_next_Ok, bind_Ok by (apply U || done).
  set (m3 := put_meta m2 p _).
  assert (links_upd m2 m3 l) as U3 by (apply links_set_next; [apply U|done|done]).
  rewrite set_prev_Ok, bind_Ok by (apply U3 || done). 
  eexists _, _. split; [done|]. split; cycle 1.
  { eapply links_upd_trans, links_upd_trans; [done..|]. apply links_set_prev; [apply U3|done|done]. }
  pose proof (wrap_default m nx Hwf (fun q Hq => proj2 (Hnx q Hq))) as Hw.
  apply (unlink_rep _ l1 p l2); fold pv nx; [done|cbn; apply U|..]; intros q Hq.
  - unfold m3. rewrite metaof_put_prev, metaof_put_meta, decide_False by done.
    unfold m2, m1. by rewrite relink_prev_nextf, relink_next_nextf by done.
  - rewrite prevof_put_prev, decide_False by done. unfold m3. rewrite prevof_put_meta.
    unfold m2, m1. by rewrite relink_prev_prevof, relink_next_prevof.
Qed.

Lemma pop_tail_spec p l :
  fa_rep m a (l ++ [p]) ->
  exists m' a', buddy_fa_pop_tail m a = Ok (m', a', Some p) /\
    fa_rep m' a' l /\ links_upd m m' (l ++ [p]).
Proof.
  intros R. pose proof (fa_pages _ _ _ R) as Hpg. pose proof (fa_seg _ _ _ R) as (S1 & S2 & S3 & _)%seg_mid.
  assert (p ∈ l ++ [p]) as Hpl by (apply elem_of_app; right; constructor).
  pose proof (Hpg p Hpl) as Hp. set (pv := last_or l None) in *.
  assert (forall q, pv = Some q -> q ∈ l ++ [p] /\ 0 < q < last_pfn m) as Hpv.
  { intros q Hq%last_or_in. assert (q ∈ l ++ [p]) by (apply elem_of_app; by left). auto. }
  unfold buddy_fa_pop_tail. rewrite (fa_tail _ _ _ R), last_or_snoc.
  rewrite get_prev_Ok, S2, bind_Ok by (done || lia). cbn [head tail nr_free].
  set (m1 := relink_next m pv None).
  pose proof (relink_next_upd m pv None (l ++ [p]) Hwf Hpv) as U1. fold m1 in U1.
  assert (forall B (k : _ -> outcome B),
    (match pv with
     | Some n => m0 ← buddy_page_set_next m n None; Ok (m0, mkArea (head a) pv (nr_free a))
     | None => Ok (m, mkArea None pv (nr_free a))
     end ≫= k) = k (m1, mkArea (match pv with Some _ => head a | None => None end) pv (nr_free a))) as ->.
  { intros B k. unfold m1. destruct pv as [q|]; [|done]. destruct (Hpv q eq_refl).
    by rewrite set_next_Ok by (done || lia). }
  cbn [fst snd head tail nr_free]. rewrite set_prev_Ok, bind_Ok by (apply U1 || rewrite (lu_last _ _ _ U1); lia).
  eexists _, _. split; [done|]. split; cycle 1.
  { eapply links_upd_trans; [done|]. apply links_set_prev; [apply U1|rewrite (lu_last _ _ _ U1); lia|done]. }
  rewrite <- (app_nil_r l). apply (unlink_rep _ l p []); fold pv; [done|cbn; apply U1|..]; intros q Hq.
  - rewrite metaof_put_prev. unfold m1. by rewrite relink_next_nextf.
  - rewrite prevof_put_prev, decide_False by done. unfold m1. by rewrite relink_next_prevof.
Qed.

Lemma push_head_spec l p :
  fa_rep m a l -> 0 < p < last_pfn m -> p ∉ l ->
  exists m' a', buddy_fa_push_head m a p = Ok (m', a') /\
    fa_rep m' a' (p :: l) /\ links_upd m m' (p :: l).
Proof.
  intros R Hp Hnp. pose proof (wf_last m Hwf) as HL. pose proof (fa_rep_length _ _ _ Hwf R) as Hlen.
  set (nx := hd_or l None). assert (p ∈ p :: l) as Hpl by constructor.
  assert (forall q, nx = Some q -> q ∈ p :: l /\ 0 < q < last_pfn m) as Hnx.
  { intros q Hq%hd_or_in. split; [by constructor|by apply R]. }
  unfold buddy_fa_push_head. cbn zeta. rewrite (fa_head _ _ _ R). fold nx.
  rewrite set_prev_Ok, bind_Ok by (done || lia). set (m1 := put_prev m p None).
  assert (links_upd m m1 (p :: l)) as U1 by (apply links_set_prev; done || lia).
  rewrite set_next_Ok, bind_Ok by (apply U1 || cbn; lia). set (m2 := put_meta m1 p _).
  assert (links_upd m1 m2 (p :: l)) as U2 by (apply links_set_next; [apply U1|cbn; lia|done]).
  set (m3 := relink_prev m2 nx (Some p)).
  assert (links_upd m2 m3 (p :: l)) as U3 by (apply relink_prev_upd; [apply U2|apply Hnx]).
  assert (forall B (k : _ -> outcome B),
    (match nx with
     | Some h => m0 ← buddy_page_set_prev m2 h (Some p); Ok (m0, a)
     | None => Ok (m2, mkArea nx (Some p) (nr_free a))
     end ≫= k) = k (m3, mkArea nx (match nx with Some _ => tail a | None => Some p end) (nr_free a))) as ->.
  { intros B k. unfold m3. pose proof (fa_head _ _ _ R) as E. fold nx in E. destruct nx as [q|]; [|done].
    destruct (Hnx q eq_refl). rewrite set_prev_Ok by (apply U2 || (cbn; lia)). cbn.
    destruct a; cbn in *; by subst. }
  eexists _, _. split; [done|]. split; cycle 1. { by eapply links_upd_trans, links_upd_trans. }
  constructor; cbn -[m3 seg].
  - done.
  - rewrite (fa_tail _ _ _ R). rewrite last_or_cons. unfold nx. destruct l; [done|]. cbn [hd_or].
    by rewrite !last_or_cons.
  - rewrite (fa_nr _ _ _ R), wrap_small by (unfold in_u; lia). lia.
  - pose proof (wrap_default m nx Hwf (fun q Hq => proj2 (Hnx q Hq))) as Hw. cbn [seg]. split_and!.
    + unfold m3. rewrite relink_prev_prevof, decide_False; [unfold m2, m1; reads|].
      intros ?%hd_or_in. done.
    + unfold m3. rewrite relink_prev_nextf. unfold m2. rewrite metaof_put_meta, decide_True by done.
      by apply nextf_set.
    + eapply (seg_set_prv m); [apply R| |apply R]. intros q Hq. assert (q <> p) by (by intros ->).
      unfold m3. rewrite relink_prev_nextf, relink_prev_prevof. split; unfold m2, m1; reads.
  - apply list.NoDup_cons. split; [done|apply R].
  - rewrite (lu_last _ _ _ U3). intros q [->|Hq]%elem_of_cons; [done|by apply R].
Qed.
End listops.
