(* ===== verification/Bitmap.v ===== *)
(** * The boot bitmap allocator

    Models [include/mem/bitmap.h], [kernel/mem/bitmap.c] and the memory-map scan
    of [pmm_early_init] in [kernel/mem/pmm.c].  A set bit is a page in use.  The
    second scan of [bitmap_alloc_pages] continues the run the first scan was
    counting at the end of the bitmap; [bitmap_alloc_pages_wraps] shows the
    resulting allocation past the end, and [bitmap_alloc_pages_correct] that
    the function is right when one page is asked for or the last page of the
    bitmap is in use. *)

From S2P Require Import Prelude BitMath BuddyPage.

(** [MIB(128) / PAGE_SIZE / 8] bytes. *)
Definition BOOT_BITMAP_SIZE : Z := 4096.
Definition to_bits (bytes : Z) : Z := bytes * 8.
Definition bitmap_size : Z := BOOT_BITMAP_SIZE.

Definition boot_bitmap : list Z := replicate (Z.to_nat BOOT_BITMAP_SIZE) 255.

Definition set_bit (bitmap : list Z) (index : Z) : outcome (list Z) :=
  let byte := index `div` 8 in
  mask ← BIT_SET 8 0 (index `mod` 8);
  if BOOT_BITMAP_SIZE <=? byte then Ok bitmap else
  v ← aget bitmap byte; aset bitmap byte (Z.lor v mask).

Definition clear_bit (bitmap : list Z) (index : Z) : outcome (list Z) :=
  let byte := index `div` 8 in
  mask ← BIT_CLEAR 8 255 (index `mod` 8);
  if BOOT_BITMAP_SIZE <=? byte then Ok bitmap else
  v ← aget bitmap byte; aset bitmap byte (Z.land v mask).

Definition test_bit (bitmap : list Z) (index : Z) : outcome bool :=
  let byte := index `div` 8 in
  if BOOT_BITMAP_SIZE <=? byte then Ok false else
  value ← aget bitmap byte; BIT_TEST 8 value (index `mod` 8).

Record bitmap_state := mkBitmap { bitmap : list Z; last_allocated_index : Z }.

(** One scan [for (i = ...; i < to_bits(bitmap_size); i++)]; [n] iterations are
    left, the result is ([consecutive], [start_index], [found]). *)
Fixpoint scan (n : nat) (bm : list Z) (count i consecutive start_index : Z)
    : outcome (Z * Z * bool) :=
  match n with
  | O => Ok (consecutive, start_index, false)
  | S n' =>
      used ← test_bit bm i;
      if negb used then
        let start_index := if consecutive =? 0 then i else start_index in
        let consecutive := consecutive + 1 in
        if consecutive =? count then Ok (consecutive, start_index, true)
        else scan n' bm count (i + 1) consecutive start_index
      else scan n' bm count (i + 1) 0 start_index
  end.

(** [for (i = 0; i < count; i++) set_bit(start + i)]. *)
Fixpoint set_bits (n : nat) (bm : list Z) (i : Z) : outcome (list Z) :=
  match n with
  | O => Ok bm
  | S n' => bm ← set_bit bm i; set_bits n' bm (u64 (i + 1))
  end.

Definition bitmap_alloc_pages (st : bitmap_state) (count : Z) : outcome (bitmap_state * Z) :=
  if count =? 0 then Panic else
  let limit := to_bits bitmap_size in
  let start := last_allocated_index st in
  r ← scan (Z.to_nat (limit - start)) (bitmap st) count start 0 0;
  let '(consecutive, start_index, found) := r in
  r ← (if found : bool then Ok r
       else scan (Z.to_nat limit) (bitmap st) count 0 consecutive start_index);
  let '(_, start_index, found) := r in
  if negb found then Ok (st, 0) else
  bm ← set_bits (Z.to_nat count) (bitmap st) start_index;
  Ok (mkBitmap bm start_index, u64 (start_index * PAGE_SIZE)).


(** The loop of [bitmap_free_pages]; a page already free is only reported. *)
Fixpoint clear_bits (n : nat) (bm : list Z) (index : Z) : outcome (list Z) :=
  match n with
  | O => Ok bm
  | S n' =>
      used ← test_bit bm index;
      bm ← (if used : bool then clear_bit bm index else Ok bm);
      clear_bits n' bm (u64 (index + 1))
  end.

Definition bitmap_free_pages (st : bitmap_state) (addr count : Z) : outcome bitmap_state :=
  if (addr =? 0) || (count =? 0) then Panic else
  let start_index := addr `div` PAGE_SIZE in
  if (to_bits bitmap_size <=? start_index) || (to_bits bitmap_size <? u64 (start_index + count))
  then Ok st
  else bm ← clear_bits (Z.to_nat count) (bitmap st) start_index;
       Ok (mkBitmap bm (last_allocated_index st)).

(** ** The memory map, kernel/mem/pmm.c *)

Definition LIMINE_MEMMAP_USABLE : Z := 0.
Record limine_memmap_entry := mkEntry { base : Z; elength : Z; type : Z }.

(** [for (addr = start; addr < end; addr += PAGE_SIZE)] over [n] pages. *)
Fixpoint clear_range (n : nat) (bm : list Z) (addr : Z) : outcome (list Z) :=
  match n with
  | O => Ok bm
  | S n' =>
      let index := addr `div` PAGE_SIZE in
      bm ← (if index <? to_bits BOOT_BITMAP_SIZE then clear_bit bm index else Ok bm);
      clear_range n' bm (addr + PAGE_SIZE)
  end.

Definition clear_entry (bm : list Z) (e : limine_memmap_entry) : outcome (list Z) :=
  if type e =? LIMINE_MEMMAP_USABLE then
    start ← ALIGN_DOWN (base e) PAGE_SIZE;
    end_ ← ALIGN_UP (u64 (base e + elength e)) PAGE_SIZE;
    clear_range (Z.to_nat ((end_ - start) `div` PAGE_SIZE)) bm start
  else Ok bm.

Fixpoint clear_entries (bm : list Z) (es : list limine_memmap_entry) : outcome (list Z) :=
  match es with
  | [] => Ok bm
  | e :: es' => bm ← clear_entry bm e; clear_entries bm es'
  end.

Fixpoint last_usable (es : list limine_memmap_entry) (last_usable_pfn : Z) : outcome Z :=
  match es with
  | [] => Ok last_usable_pfn
  | e :: es' =>
      if negb (type e =? LIMINE_MEMMAP_USABLE) then last_usable es' last_usable_pfn else
      end_ ← ALIGN_UP (u64 (base e + elength e)) PAGE_SIZE;
      last_usable es' (Z.max last_usable_pfn (end_ `div` PAGE_SIZE))
  end.

Fixpoint total_phys (es : list limine_memmap_entry) (acc : Z) : Z :=
  match es with
  | [] => acc
  | e :: es' =>
      total_phys es' (if type e =? LIMINE_MEMMAP_USABLE then u64 (acc + elength e) else acc)
  end.

(** The bitmap, [last_pfn] and [total_pages] set up from the memory map. *)
Definition pmm_early_init (memmap : list limine_memmap_entry) : outcome (list Z * Z * Z) :=
  bm ← clear_entries boot_bitmap memmap;
  last ← last_usable memmap 0;
  Ok (bm, last, total_phys memmap 0 `div` PAGE_SIZE).

(** ** Bits *)

Definition NBITS : Z := 32768.

(** Bit [i] of the bitmap. *)
Definition bget (bm : list Z) (i : Z) : bool :=
  Z.testbit (default 0 (bm !! Z.to_nat (i `div` 8))) (i `mod` 8).

Definition bm_wf (bm : list Z) : Prop := length bm = 4096%nat /\ Forall (in_u 8) bm.

Lemma BIT_low k : 0 <= k < 8 -> BIT k = 2 ^ k.
Proof. intros. apply BIT_pow. lia. Qed.

Section bits.
Context (bm : list Z) (Hwf : bm_wf bm) (i : Z) (Hi : 0 <= i).

Let Hmod : 0 <= i `mod` 8 < 8.
Proof. apply Z.mod_pos_bound. lia. Qed.

Lemma byte_of : i < NBITS -> exists v, bm !! Z.to_nat (i `div` 8) = Some v /\ in_u 8 v /\
  0 <= i `div` 8 < 4096.
Proof.
  destruct Hwf as [Hlen Hb]. unfold NBITS. intros Hlt.
  assert (0 <= i `div` 8 < 4096) as Hd by (split; [apply Z.div_pos; lia|apply Z.div_lt_upper_bound; lia]).
  destruct (lookup_lt_is_Some_2 bm (Z.to_nat (i `div` 8))) as [v Hv]; [lia|].
  exists v. split_and!; try done; try lia; eapply Forall_lookup_1 in Hb; try done; apply Hb.
Qed.

Lemma byte_over : ~ i < NBITS -> 4096 <= i `div` 8.
Proof. unfold NBITS. intros. apply Z.div_le_lower_bound; lia. Qed.

Lemma bget_over : ~ i < NBITS -> bget bm i = false.
Proof.
  intros H%byte_over. unfold bget. rewrite lookup_ge_None_2; [apply Z.testbit_0_l|].
  destruct Hwf as [Hlen _]. lia.
Qed.

Lemma test_bit_Ok : test_bit bm i = Ok (bget bm i).
Proof.
  unfold test_bit, BOOT_BITMAP_SIZE. cbn zeta. destruct (decide (i < NBITS)) as [H|H].
  - destruct (byte_of H) as (v & Hv & Hr & Hd). destruct (Z.leb_spec 4096 (i `div` 8)); [lia|].
    rewrite (proj2 (aget_Ok bm (i `div` 8) v)) by (split; [lia|done]). rewrite bind_Ok.
    unfold BIT_TEST, bget. rewrite Hv. cbn [default].
    destruct (Z.leb_spec 0 (i `mod` 8)); [|lia]. destruct (Z.ltb_spec (i `mod` 8) 8); [|lia].
    cbn [andb enforce]. rewrite bind_Ok. f_equal. rewrite Z.land_comm.
    rewrite <- (Z.add_0_l (i `mod` 8)) at 2. rewrite <- Z.shiftr_spec by lia.
    rewrite Z.land_comm. change 1 with (Z.ones 1). rewrite Z.land_ones by lia.
    rewrite Z.bit0_odd. change (2 ^ 1) with 2. rewrite Zmod_odd. change (id v) with v.
    by destruct (Z.odd (Z.shiftr v (i `mod` 8))).
  - pose proof (byte_over H). destruct (Z.leb_spec 4096 (i `div` 8)); [|lia]. by rewrite bget_over.
Qed.

(** Two indices address the same byte and bit only when they are equal. *)
Lemma same_bit j : 0 <= j -> Z.to_nat (j `div` 8) = Z.to_nat (i `div` 8) -> j `mod` 8 = i `mod` 8 -> j = i.
Proof.
  intros Hj H1 H2. apply Z2Nat.inj in H1; [|apply Z.div_pos; lia..].
  rewrite (Z.div_mod j 8), (Z.div_mod i 8) by lia. congruence.
Qed.

(** Replacing the byte of bit [i] by one that differs at bit [i] only. *)
Lemma bget_insert v v' b j :
  bm !! Z.to_nat (i `div` 8) = Some v -> 0 <= j ->
  (forall k, 0 <= k < 8 -> Z.testbit v' k = if decide (k = i `mod` 8) then b else Z.testbit v k) ->
  bget (<[Z.to_nat (i `div` 8) := v']> bm) j = if decide (j = i) then b else bget bm j.
Proof.
  intros Hv Hj Hb. assert (0 <= j `mod` 8 < 8) as Hjm by (apply Z.mod_pos_bound; lia).
  unfold bget. destruct (decide (Z.to_nat (j `div` 8) = Z.to_nat (i `div` 8))) as [E|E].
  - rewrite E, list_lookup_insert_eq by (by eapply lookup_lt_Some). rewrite Hv. cbn. rewrite Hb by done.
    destruct (decide (j `mod` 8 = i `mod` 8)) as [E'|E'].
    + rewrite decide_True by (by apply same_bit). done.
    + rewrite decide_False by (by intros ->). done.
  - rewrite list_lookup_insert_ne by done. rewrite decide_False by (by intros ->). done.
Qed.

Lemma set_bit_Ok :
  exists bm', set_bit bm i = Ok bm' /\ bm_wf bm' /\
    forall j, 0 <= j -> bget bm' j = if decide (j = i /\ i < NBITS) then true else bget bm j.
Proof.
  unfold set_bit, BIT_SET, BOOT_BITMAP_SIZE. cbn zeta.
  destruct (Z.leb_spec 0 (i `mod` 8)); [|lia]. destruct (Z.ltb_spec (i `mod` 8) 8); [|lia].
  cbn [andb enforce]. rewrite !bind_Ok. destruct (decide (i < NBITS)) as [Hlt|Hlt].
  - destruct (byte_of Hlt) as (v & Hv & Hr & Hd). destruct (Z.leb_spec 4096 (i `div` 8)); [lia|].
    rewrite (proj2 (aget_Ok bm (i `div` 8) v)) by (split; [lia|done]). rewrite bind_Ok.
    destruct Hwf as [Hlen Hall]. rewrite aset_Ok by (rewrite Hlen; lia).
    eexists. split; [done|]. split; [split; [by rewrite length_insert|]|].
    + apply Forall_insert; [done|]. apply lor_range; [lia|done|]. by apply wrap_range.
    + intros j Hj. rewrite (bget_insert v _ true); try done.
      2: { intros k Hk. rewrite Z.lor_spec, Z.lor_0_l, BIT_low, testbit_wrap, testbit_pow2 by lia.
           destruct (Z.ltb_spec k 8); [|lia].
           destruct (Z.eqb_spec k (i `mod` 8)); case_decide; try done; cbn; by rewrite ?orb_true_r, ?orb_false_r. }
      destruct (decide (j = i)), (decide (j = i /\ i < NBITS)); tauto.
  - pose proof (byte_over Hlt). destruct (Z.leb_spec 4096 (i `div` 8)); [|lia].
    exists bm. split; [done|]. split; [done|]. intros j Hj. rewrite decide_False; [done|]. tauto.
Qed.

Lemma clear_bit_Ok :
  exists bm', clear_bit bm i = Ok bm' /\ bm_wf bm' /\
    forall j, 0 <= j -> bget bm' j = if decide (j = i) then false else bget bm j.
Proof.
  unfold clear_bit, BIT_CLEAR, BOOT_BITMAP_SIZE. cbn zeta.
  destruct (Z.leb_spec 0 (i `mod` 8)); [|lia]. destruct (Z.ltb_spec (i `mod` 8) 8); [|lia].
  cbn [andb enforce]. rewrite !bind_Ok. destruct (decide (i < NBITS)) as [Hlt|Hlt].
  - destruct (byte_of Hlt) as (v & Hv & Hr & Hd). destruct (Z.leb_spec 4096 (i `div` 8)); [lia|].
    rewrite (proj2 (aget_Ok bm (i `div` 8) v)) by (split; [lia|done]). rewrite bind_Ok.
    destruct Hwf as [Hlen Hall]. rewrite aset_Ok by (rewrite Hlen; lia).
    eexists. split; [done|]. split; [split; [by rewrite length_insert|]|].
    + apply Forall_insert; [done|]. by apply land_range_l.
    + intros j Hj. apply (bget_insert v); try done. intros k Hk.
      rewrite Z.land_spec, BIT_low, not_w_alt, testbit_wrap, Z.land_spec, testbit_wrap, Z.lnot_spec, testbit_pow2 by lia.
      change 255 with (Z.ones 8). rewrite testbit_ones_ltb by lia.
      destruct (Z.ltb_spec k 8), (Z.ltb_spec k 64), (Z.leb_spec 0 k); try lia.
      destruct (Z.eqb_spec k (i `mod` 8)); case_decide; try done; cbn; by rewrite ?andb_true_r, ?andb_false_r.
  - pose proof (byte_over Hlt). destruct (Z.leb_spec 4096 (i `div` 8)); [|lia].
    exists bm. split; [done|]. split; [done|]. intros j Hj. case_decide; [subst|done]. by apply bget_over.
Qed.
End bits.

(** ** Scanning *)

Definition free_run (bm : list Z) (s n : Z) : Prop := forall j, s <= j < s + n -> bget bm j = false.

(** A scan that stops early found a free run; one that does not has passed no
    free run, and carries the run that touches its end. *)
Lemma scan_spec bm count (Hwf : bm_wf bm) : forall n i c s,
  0 <= i -> 0 <= c < count -> (0 < c -> 0 <= s /\ s + c = i /\ free_run bm s c) ->
  exists c' s' found, scan n bm count i c s = Ok (c', s', found) /\
    (found = true -> 0 <= s' /\ free_run bm s' count /\ s' + count <= i + Z.of_nat n) /\
    (found = false -> 0 <= c' < count /\
       (0 < c' -> 0 <= s' /\ s' + c' = i + Z.of_nat n /\ free_run bm s' c') /\
       forall k, i - c <= k -> k + count <= i + Z.of_nat n -> ~ free_run bm k count).
Proof.
  induction n as [|n IH]; intros i c s Hi Hc Hrun; cbn [scan].
  - exists c, s, false. split_and!; try done. intros _. split_and!; try lia.
    intros Hc0. destruct (Hrun Hc0) as (? & ? & ?). split_and!; try done. lia.
  - rewrite test_bit_Ok by done. rewrite bind_Ok. destruct (bget bm i) eqn:Eb; cbn [negb].
    + destruct (IH (i + 1) 0 s) as (c' & s' & found & -> & Ht & Hf); try lia.
      exists c', s', found. split; [done|]. split.
      * intros E. destruct (Ht E) as (? & ? & ?). split_and!; try done. lia.
      * intros E. destruct (Hf E) as (? & Hr & Hk). split_and!; try lia.
        { intros Hc0. destruct (Hr Hc0) as (? & ? & ?). split_and!; try done. lia. }
        intros k Hk1 Hk2 Hfr. destruct (decide (k <= i)).
        { rewrite Hfr in Eb by lia. done. }
        apply (Hk k); [lia|lia|done].
    + set (s1 := if c =? 0 then i else s).
      assert (0 <= s1 /\ s1 + (c + 1) = i + 1 /\ free_run bm s1 (c + 1)) as Hrun1.
      { unfold s1. destruct (Z.eqb_spec c 0) as [->|].
        - split_and!; try lia. intros j Hj. by replace j with i by lia.
        - destruct Hrun as (? & ? & Hr); [lia|]. split_and!; try lia. intros j Hj.
          destruct (decide (j = i)) as [->|]; [done|]. apply Hr. lia. }
      destruct (Z.eqb_spec (c + 1) count) as [Ec|Ec].
      * exists (c + 1), s1, true. split; [done|]. split; [|done]. intros _. rewrite <- Ec.
        destruct Hrun1 as (? & ? & ?). split_and!; try done. lia.
      * destruct (IH (i + 1) (c + 1) s1) as (c' & s' & found & -> & Ht & Hf); try lia; [done|].
        exists c', s', found. split; [done|]. split.
        { intros E. destruct (Ht E) as (? & ? & ?). split_and!; try done. lia. }
        intros E. destruct (Hf E) as (? & Hr & Hk). split_and!; try lia.
        { intros Hc0. destruct (Hr Hc0) as (? & ? & ?). split_and!; try done. lia. }
        intros k Hk1 Hk2. apply Hk; lia.
Qed.

Lemma set_bits_spec : forall n bm i,
  bm_wf bm -> 0 <= i -> i + Z.of_nat n < 2 ^ 64 ->
  exists bm', set_bits n bm i = Ok bm' /\ bm_wf bm' /\
    forall j, 0 <= j -> bget bm' j = if decide (i <= j < i + Z.of_nat n /\ j < NBITS) then true else bget bm j.
Proof.
  induction n as [|n IH]; intros bm i Hwf Hi Hb; cbn [set_bits].
  - exists bm. split; [done|]. split; [done|]. intros j Hj. rewrite decide_False by lia. done.
  - destruct (set_bit_Ok bm Hwf i Hi) as (bm1 & -> & Hwf1 & E1). rewrite bind_Ok.
    rewrite wrap_small by (unfold in_u; lia).
    destruct (IH bm1 (i + 1) Hwf1 ltac:(lia) ltac:(lia)) as (bm' & -> & Hwf' & E').
    exists bm'. split; [done|]. split; [done|]. intros j Hj. rewrite E', E1 by done.
    repeat case_decide; try done; lia.
Qed.

Lemma clear_bits_spec : forall n bm i,
  bm_wf bm -> 0 <= i -> i + Z.of_nat n < 2 ^ 64 ->
  exists bm', clear_bits n bm i = Ok bm' /\ bm_wf bm' /\
    forall j, 0 <= j -> bget bm' j = if decide (i <= j < i + Z.of_nat n) then false else bget bm j.
Proof.
  induction n as [|n IH]; intros bm i Hwf Hi Hb; cbn [clear_bits].
  - exists bm. split; [done|]. split; [done|]. intros j Hj. rewrite decide_False by lia. done.
  - rewrite test_bit_Ok, bind_Ok by done. rewrite wrap_small by (unfold in_u; lia).
    assert (exists bm1, (if bget bm i then clear_bit bm i else Ok bm) = Ok bm1 /\ bm_wf bm1 /\
      forall j, 0 <= j -> bget bm1 j = if decide (j = i) then false else bget bm j) as (bm1 & -> & Hwf1 & E1).
    { destruct (bget bm i) eqn:Eb; [by apply clear_bit_Ok|]. exists bm. split; [done|]. split; [done|].
      intros j Hj. case_decide; by subst. }
    rewrite bind_Ok.
    destruct (IH bm1 (i + 1) Hwf1 ltac:(lia) ltac:(lia)) as (bm' & -> & Hwf' & E').
    exists bm'. split; [done|]. split; [done|]. intros j Hj. rewrite E', E1 by done.
    repeat case_decide; try done; lia.
Qed.

(** ** Allocation and release *)

(** What an allocation does when the run does not continue past the end. *)
Lemma bitmap_alloc_spec st count :
  bm_wf (bitmap st) -> 0 <= last_allocated_index st -> 1 <= count ->
  count = 1 \/ bget (bitmap st) (NBITS - 1) = true ->
  (bitmap_alloc_pages st count = Ok (st, 0) /\
     forall s, 0 <= s -> s + count <= NBITS -> ~ free_run (bitmap st) s count) \/
  (exists st' s, bitmap_alloc_pages st count = Ok (st', s * PAGE_SIZE) /\
     0 <= s /\ s + count <= NBITS /\ free_run (bitmap st) s count /\
     bm_wf (bitmap st') /\ last_allocated_index st' = s /\
     forall j, 0 <= j -> bget (bitmap st') j =
       if decide (s <= j < s + count) then true else bget (bitmap st) j).
Proof.
  intros Hwf Hl Hc Hor. unfold bitmap_alloc_pages. destruct (Z.eqb_spec count 0); [lia|].
  set (bm := bitmap st) in *. set (start := last_allocated_index st) in *.
  change (to_bits bitmap_size) with NBITS.
  destruct (scan_spec bm count Hwf (Z.to_nat (NBITS - start)) start 0 0) as (c1 & s1 & f1 & E1 & Ht1 & Hf1); try lia.
  rewrite E1, bind_Ok.
  assert (exists c s f, (if f1 : bool then Ok (c1, s1, f1) else scan (Z.to_nat NBITS) bm count 0 c1 s1) = Ok (c, s, f) /\
    (f = true -> 0 <= s /\ free_run bm s count /\ s + count <= NBITS) /\
    (f = false -> forall k, 0 <= k -> k + count <= NBITS -> ~ free_run bm k count)) as (c & s & f & E & Ht & Hf).
  { destruct f1.
    - exists c1, s1, true. split; [done|]. split; [|done]. intros _. destruct Ht1 as (? & Hr & ?); [done|].
      split_and!; try done. destruct (decide (start <= NBITS)); [lia|].
      replace (Z.to_nat (NBITS - start)) with 0%nat in E1 by lia. done.
    - destruct Hf1 as (Hc1 & Hr1 & _); [done|].
      assert (c1 = 0) as ->.
      { destruct Hor as [->|Hlast]; [lia|]. destruct (decide (0 < c1)) as [Hp|]; [|lia].
        destruct (Hr1 Hp) as (? & He & Hfr). destruct (decide (start <= NBITS)).
        - rewrite Hfr in Hlast by lia. done.
        - replace (Z.to_nat (NBITS - start)) with 0%nat in E1 by lia. injection E1. lia. }
      destruct (scan_spec bm count Hwf (Z.to_nat NBITS) 0 0 s1) as (c & s & f & -> & Ht & Hf); try lia.
      exists c, s, f. split; [done|]. unfold NBITS in *. split.
      + intros ?. destruct Ht as (? & ? & ?); [done|]. split_and!; try done.
      + intros ?. destruct Hf as (_ & _ & Hk); [done|]. intros k ? ?. apply Hk; lia. }
  rewrite E, bind_Ok. destruct f; cbn [negb]; [right|left; split; [done|by apply Hf]].
  destruct Ht as (Hs & Hfr & Hsc); [done|].
  destruct (set_bits_spec (Z.to_nat count) bm s Hwf Hs) as (bm' & Es & Hwf' & Hb').
  { unfold NBITS in Hsc. lia. }
  rewrite Es, bind_Ok. exists (mkBitmap bm' s), s. split.
  { unfold PAGE_SIZE. rewrite wrap_small by (unfold in_u, NBITS in *; lia). done. }
  split_and!; try done. intros j Hj. cbn. rewrite Hb' by done. repeat case_decide; try done; lia.
Qed.

Lemma bitmap_free_spec st s count :
  bm_wf (bitmap st) -> 0 < s -> 1 <= count -> s + count <= NBITS ->
  exists st', bitmap_free_pages st (s * PAGE_SIZE) count = Ok st' /\ bm_wf (bitmap st') /\
    forall j, 0 <= j -> bget (bitmap st') j =
      if decide (s <= j < s + count) then false else bget (bitmap st) j.
Proof.
  intros Hwf Hs Hc Hsc. unfold bitmap_free_pages, PAGE_SIZE.
  destruct (Z.eqb_spec (s * 4096) 0); [lia|]. destruct (Z.eqb_spec count 0); [lia|]. cbn [orb].
  rewrite Z.div_mul by lia. change (to_bits bitmap_size) with NBITS. cbn zeta.
  rewrite wrap_small by (unfold in_u, NBITS in *; lia).
  destruct (Z.leb_spec NBITS s); [lia|]. destruct (Z.ltb_spec NBITS (s + count)); [lia|]. cbn [orb].
  destruct (clear_bits_spec (Z.to_nat count) (bitmap st) s Hwf) as (bm' & -> & Hwf' & Hb'); [lia|unfold NBITS in *; lia|].
  rewrite bind_Ok. eexists. split; [done|]. split; [done|]. cbn. intros j Hj. rewrite Hb' by done.
  repeat case_decide; try done; lia.
Qed.

(** [bitmap_alloc_pages] with a count of one page, or with the last page of
    the bitmap in use, returns 0 and changes nothing when the bitmap has no run
    of [count] free pages; otherwise it returns the address of a run that was
    entirely free and inside the bitmap, and marks exactly that run. *)
Theorem bitmap_alloc_pages_correct st count :
  bm_wf (bitmap st) -> 0 <= last_allocated_index st -> 1 <= count ->
  count = 1 \/ bget (bitmap st) (NBITS - 1) = true ->
  (bitmap_alloc_pages st count = Ok (st, 0) /\
     forall s, 0 <= s -> s + count <= NBITS -> ~ free_run (bitmap st) s count) \/
  (exists st' s, bitmap_alloc_pages st count = Ok (st', s * PAGE_SIZE) /\
     0 <= s /\ s + count <= NBITS /\ free_run (bitmap st) s count /\
     bm_wf (bitmap st') /\ last_allocated_index st' = s /\
     forall j, 0 <= j -> bget (bitmap st') j =
       if decide (s <= j < s + count) then true else bget (bitmap st) j).
Proof. apply bitmap_alloc_spec. Qed.

(** The address and the resulting bit 0 of an allocation, for evaluation. *)
Definition alloc_view (st : bitmap_state) (count : Z) : option (Z * bool) :=
  match bitmap_alloc_pages st count with
  | Ok (st', a) => Some (a, bget (bitmap st') 0)
  | _ => None
  end.

Lemma alloc_view_Ok st count a b :
  alloc_view st count = Some (a, b) ->
  exists st', bitmap_alloc_pages st count = Ok (st', a) /\ bget (bitmap st') 0 = b.
Proof.
  unfold alloc_view. destruct (bitmap_alloc_pages st count) as [[st' a']| |]; [|done..].
  intros [= <- <-]. by exists st'.
Qed.

(** Pages 16 to 23 free, all others in use. *)
Definition demo_bitmap : bitmap_state := mkBitmap (<[2%nat := 0]> boot_bitmap) 0.

Lemma boot_bitmap_wf : bm_wf boot_bitmap.
Proof.
  split; [done|]. apply Forall_replicate. by split.
Qed.

Lemma demo_bitmap_wf : bm_wf (bitmap demo_bitmap).
Proof.
  destruct boot_bitmap_wf as [H1 H2]. split; [cbn [bitmap demo_bitmap]; by rewrite length_insert|].
  apply Forall_insert; [done|]. by split.
Qed.

Lemma bitmap_alloc_pages_correct_witness :
  exists st' s, bitmap_alloc_pages demo_bitmap 3 = Ok (st', s * PAGE_SIZE) /\
    0 <= s /\ s + 3 <= NBITS /\ free_run (bitmap demo_bitmap) s 3.
Proof.
  destruct (bitmap_alloc_pages_correct demo_bitmap 3) as [[H _]|(st' & s & H & H1 & H2 & H3 & _)].
  - apply demo_bitmap_wf.
  - done.
  - done.
  - right. by vm_compute.
  - exfalso. assert (alloc_view demo_bitmap 3 = Some (16 * PAGE_SIZE, true)) as Ev by (by vm_compute).
    apply alloc_view_Ok in Ev as (st' & E & _). rewrite E in H. by injection H.
  - exact (ex_intro _ st' (ex_intro _ s (conj H (conj H1 (conj H2 H3))))).
Defined.

(** Pages 0 and 32767 free, all others in use, the search starting at the end. *)
Definition wrap_bitmap : bitmap_state :=
  mkBitmap (<[0%nat := 254]> (<[4095%nat := 127]> boot_bitmap)) (NBITS - 1).

Lemma wrap_bitmap_used j : 0 < j < 32767 -> bget (bitmap wrap_bitmap) j = true.
Proof.
  intros Hj. pose proof (Z.mod_pos_bound j 8 ltac:(lia)) as Hm. pose proof (Z.div_mod j 8 ltac:(lia)) as Hd.
  assert (0 <= j `div` 8 < 4096) as Hb by lia. unfold bget, wrap_bitmap. cbn [bitmap].
  assert (forall v i, In v [255; 254; 127] -> 0 <= i < 8 -> (v = 254 -> i <> 0) -> (v = 127 -> i <> 7) ->
    Z.testbit v i = true) as Hv.
  { intros v i Hin Hi H0 H7.
    assert (i = 0 \/ i = 1 \/ i = 2 \/ i = 3 \/ i = 4 \/ i = 5 \/ i = 6 \/ i = 7) as Hc by lia.
    destruct Hin as [<-|[<-|[<-|[]]]]; destruct Hc as [->|[->|[->|[->|[->|[->|[->| ->]]]]]]];
      try reflexivity; exfalso; first [by apply H0|by apply H7]. }
  destruct (decide (Z.to_nat (j `div` 8) = 0%nat)) as [E|E].
  - rewrite E, list_lookup_insert_eq by (rewrite length_insert, (proj1 boot_bitmap_wf); lia).
    apply Hv; [right; by left|done|lia|done].
  - rewrite list_lookup_insert_ne by done.
    destruct (decide (j `div` 8 = 4095)) as [E'|E'].
    + rewrite E'. change (Z.to_nat 4095) with 4095%nat. rewrite list_lookup_insert_eq by (rewrite (proj1 boot_bitmap_wf); lia). apply Hv; [right; right; by left|done|done|lia].
    + rewrite list_lookup_insert_ne by lia. unfold boot_bitmap.
      rewrite lookup_replicate_2 by (unfold BOOT_BITMAP_SIZE; lia). apply Hv; [by left|done|done|done].
Qed.

(** C40: the second scan of [bitmap_alloc_pages] goes on counting the run that
    touched the end of the bitmap: with only the first and the last page free,
    a request for two pages succeeds at the last page, so that the block handed
    out ends one page beyond the bitmap, and page 0, which was counted, is not
    marked. *)
Theorem bitmap_alloc_pages_wraps :
  exists st' s, bitmap_alloc_pages wrap_bitmap 2 = Ok (st', s * PAGE_SIZE) /\
    NBITS < s + 2 /\ bget (bitmap st') 0 = false /\
    forall k, 0 <= k -> k + 2 <= NBITS -> ~ free_run (bitmap wrap_bitmap) k 2.
Proof.
  assert (alloc_view wrap_bitmap 2 = Some ((NBITS - 1) * PAGE_SIZE, false)) as Ev by (by vm_compute).
  apply alloc_view_Ok in Ev as (st' & E & H0).
  exists st', (NBITS - 1). split; [done|]. split; [lia|]. split; [done|].
  intros k Hk1 Hk2 Hfr. unfold NBITS in *.
  destruct (decide (k + 1 = 32767)) as [Hk|Hk].
  - pose proof (wrap_bitmap_used k ltac:(lia)). rewrite Hfr in H by lia. done.
  - pose proof (wrap_bitmap_used (k + 1) ltac:(lia)). rewrite Hfr in H by lia. done.
Qed.

(** Releasing what was allocated restores the bitmap: if the allocation of
    [count] pages gives a non-zero address, [bitmap_free_pages] of that address
    and count succeeds and every bit is as before the allocation. *)
Theorem bitmap_alloc_free_roundtrip st count st' addr :
  bm_wf (bitmap st) -> 0 <= last_allocated_index st -> 1 <= count ->
  count = 1 \/ bget (bitmap st) (NBITS - 1) = true ->
  bitmap_alloc_pages st count = Ok (st', addr) -> addr <> 0 ->
  exists st'', bitmap_free_pages st' addr count = Ok st'' /\
    forall j, 0 <= j -> bget (bitmap st'') j = bget (bitmap st) j.
Proof.
  intros Hwf Hl Hc Hor Ha Hne.
  destruct (bitmap_alloc_spec st count Hwf Hl Hc Hor) as [[E _]|(st1 & s & E & Hs & Hsc & Hfr & Hwf1 & _ & Hb)].
  - congruence.
  - rewrite E in Ha. injection Ha as -> <-. unfold PAGE_SIZE in Hne.
    destruct (bitmap_free_spec st' s count Hwf1) as (st'' & -> & _ & Hb''); [lia..|].
    exists st''. split; [done|]. intros j Hj. rewrite Hb'', Hb by done. case_decide as Ej; [|done].
    symmetry. by apply Hfr.
Qed.

Lemma bitmap_alloc_free_roundtrip_witness :
  exists st' addr st'', bitmap_alloc_pages demo_bitmap 3 = Ok (st', addr) /\
    bitmap_free_pages st' addr 3 = Ok st'' /\
    forall j, 0 <= j -> bget (bitmap st'') j = bget (bitmap demo_bitmap) j.
Proof.
  assert (alloc_view demo_bitmap 3 = Some (16 * PAGE_SIZE, true)) as Ev by (by vm_compute).
  apply alloc_view_Ok in Ev as (st' & E & _).
  destruct (bitmap_alloc_free_roundtrip demo_bitmap 3 st' (16 * PAGE_SIZE)) as (st'' & Hf & Hb);
    [apply demo_bitmap_wf|done|done|right; by vm_compute|exact E|done|].
  exact (ex_intro _ st' (ex_intro _ _ (ex_intro _ st'' (conj E (conj Hf Hb))))).
Defined.

(** ** Setting up the bitmap *)

(** Page [j] lies in the entry, rounded out to whole pages. *)
Definition usable_page (e : limine_memmap_entry) (j : Z) : Prop :=
  type e = LIMINE_MEMMAP_USABLE /\
  base e `div` PAGE_SIZE <= j < (base e + elength e + PAGE_SIZE - 1) `div` PAGE_SIZE.

(** Memory-map entries whose rounded end is addressable. *)
Definition entry_ok (e : limine_memmap_entry) : Prop :=
  0 <= base e /\ 0 <= elength e /\ base e + elength e + PAGE_SIZE <= 2 ^ 64.

Lemma entry_bounds e :
  entry_ok e ->
  ALIGN_DOWN (base e) PAGE_SIZE = Ok (PAGE_SIZE * (base e `div` PAGE_SIZE)) /\
  ALIGN_UP (u64 (base e + elength e)) PAGE_SIZE =
    Ok (PAGE_SIZE * ((base e + elength e + PAGE_SIZE - 1) `div` PAGE_SIZE)).
Proof.
  unfold entry_ok, PAGE_SIZE. intros (H1 & H2 & H3).
  rewrite (wrap_small 64 (base e + elength e)) by (unfold in_u; lia).
  split; [apply (ALIGN_DOWN_spec _ 12)|apply (ALIGN_UP_spec _ 12)]; unfold in_u; lia.
Qed.

Lemma clear_range_spec : forall n bm a,
  bm_wf bm -> 0 <= a ->
  exists bm', clear_range n bm (PAGE_SIZE * a) = Ok bm' /\ bm_wf bm' /\
    forall j, 0 <= j -> bget bm' j = if decide (a <= j < a + Z.of_nat n) then false else bget bm j.
Proof.
  induction n as [|n IH]; intros bm a Hwf Ha; cbn [clear_range].
  - exists bm. split; [done|]. split; [done|]. intros j Hj. rewrite decide_False by lia. done.
  - assert ((PAGE_SIZE * a) `div` PAGE_SIZE = a) as -> by (rewrite Z.mul_comm; by apply Z.div_mul).
    cbn zeta. replace (PAGE_SIZE * a + PAGE_SIZE) with (PAGE_SIZE * (a + 1)) by lia.
    assert (exists bm1, (if a <? to_bits BOOT_BITMAP_SIZE then clear_bit bm a else Ok bm) = Ok bm1 /\ bm_wf bm1 /\
      forall j, 0 <= j -> bget bm1 j = if decide (j = a) then false else bget bm j) as (bm1 & -> & Hwf1 & E1).
    { change (to_bits BOOT_BITMAP_SIZE) with NBITS. destruct (Z.ltb_spec a NBITS); [by apply clear_bit_Ok|].
      exists bm. split; [done|]. split; [done|]. intros j Hj. case_decide; [subst|done].
      apply bget_over; (done || lia). }
    rewrite bind_Ok. destruct (IH bm1 (a + 1) Hwf1 ltac:(lia)) as (bm' & -> & Hwf' & E').
    exists bm'. split; [done|]. split; [done|]. intros j Hj. rewrite E', E1 by done.
    repeat case_decide; try done; lia.
Qed.

Lemma clear_entries_spec es : forall bm,
  Forall entry_ok es -> bm_wf bm ->
  exists bm', clear_entries bm es = Ok bm' /\ bm_wf bm' /\
    forall j, 0 <= j ->
      bget bm' j = false <-> bget bm j = false \/ exists e, e ∈ es /\ usable_page e j.
Proof.
  induction es as [|e es IH]; intros bm Hok Hwf; cbn [clear_entries].
  - exists bm. split; [done|]. split; [done|]. intros j Hj. split; [by left|].
    intros [?|(e & ?%not_elem_of_nil & _)]; done.
  - apply list.Forall_cons in Hok as [He Hok]. pose proof (entry_bounds e He) as [Ed Eu].
    destruct He as (H1 & H2 & H3).
    assert (0 <= base e `div` PAGE_SIZE) as Hb0 by (apply Z.div_pos; unfold PAGE_SIZE; lia).
    assert (exists bm1, clear_entry bm e = Ok bm1 /\ bm_wf bm1 /\
      forall j, 0 <= j -> bget bm1 j = false <-> bget bm j = false \/ usable_page e j) as (bm1 & -> & Hwf1 & E1).
    { unfold clear_entry, usable_page. destruct (Z.eqb_spec (type e) LIMINE_MEMMAP_USABLE) as [Et|Et].
      - rewrite Ed, bind_Ok, Eu, bind_Ok. rewrite <- Z.mul_sub_distr_l, Z.mul_comm, Z.div_mul by done.
        destruct (clear_range_spec (Z.to_nat ((base e + elength e + PAGE_SIZE - 1) `div` PAGE_SIZE
          - base e `div` PAGE_SIZE)) bm _ Hwf Hb0) as (bm1 & -> & Hwf1 & E1).
        exists bm1. split; [done|]. split; [done|]. intros j Hj. rewrite E1 by done.
        case_decide; [split; [right; split; [done|lia]|done]|]. split; [by left|]. intros [?|[_ ?]]; [done|lia].
      - exists bm. split; [done|]. split; [done|]. intros j Hj. split; [by left|]. intros [?|[? _]]; done. }
    rewrite bind_Ok. destruct (IH bm1 Hok Hwf1) as (bm' & -> & Hwf' & E').
    exists bm'. split; [done|]. split; [done|]. intros j Hj. rewrite E', E1 by done.
    setoid_rewrite elem_of_cons. naive_solver.
Qed.

Lemma last_usable_spec es : forall acc,
  Forall entry_ok es -> 0 <= acc ->
  exists last, last_usable es acc = Ok last /\ acc <= last /\
    (forall e j, e ∈ es -> usable_page e j -> j < last) /\
    (last = acc \/ exists e, e ∈ es /\ type e = LIMINE_MEMMAP_USABLE /\
       last = (base e + elength e + PAGE_SIZE - 1) `div` PAGE_SIZE).
Proof.
  induction es as [|e es IH]; intros acc Hok Hacc; cbn [last_usable].
  - exists acc. split_and!; try done; [|by left]. by intros e j ?%not_elem_of_nil.
  - apply list.Forall_cons in Hok as [He Hok]. pose proof (entry_bounds e He) as [_ Eu].
    destruct (Z.eqb_spec (type e) LIMINE_MEMMAP_USABLE) as [Et|Et]; cbn [negb].
    + rewrite Eu, bind_Ok. rewrite (Z.mul_comm PAGE_SIZE), Z.div_mul by done.
      set (x := (base e + elength e + PAGE_SIZE - 1) `div` PAGE_SIZE).
      destruct (IH (acc `max` x) Hok ltac:(lia)) as (last & -> & Hle & Hall & Hor).
      exists last. split_and!; try done; try lia.
      * intros e' j [->|Hin]%elem_of_cons Hu; [destruct Hu as [_ Hu]; fold x in Hu; lia|by eapply Hall].
      * destruct Hor as [->|(e' & Hin & ? & ->)]; [|right; exists e'; split_and!; try done; by constructor].
        destruct (Z.max_spec acc x) as [[_ ->]|[_ ->]]; [|by left].
        right. exists e. split_and!; try done. constructor.
    + destruct (IH acc Hok Hacc) as (last & -> & Hle & Hall & Hor). exists last. split_and!; try done.
      * intros e' j [->|Hin]%elem_of_cons Hu; [by destruct Hu|by eapply Hall].
      * destruct Hor as [->|(e' & Hin & ? & ->)]; [by left|].
        right. exists e'. split_and!; try done. by constructor.
Qed.

(** [pmm_early_init] leaves exactly the pages of usable memory-map entries
    free in the boot bitmap, and [last_pfn] is the end of the highest usable
    entry, so every usable page is below it. *)
Theorem pmm_early_init_correct memmap :
  Forall entry_ok memmap ->
  exists bm last total, pmm_early_init memmap = Ok (bm, last, total) /\ bm_wf bm /\
    (forall j, 0 <= j < NBITS -> bget bm j = false <-> exists e, e ∈ memmap /\ usable_page e j) /\
    (forall e j, e ∈ memmap -> usable_page e j -> j < last) /\
    (last = 0 \/ exists e, e ∈ memmap /\ type e = LIMINE_MEMMAP_USABLE /\
       last = (base e + elength e + PAGE_SIZE - 1) `div` PAGE_SIZE).
Proof.
  intros Hok. unfold pmm_early_init.
  destruct (clear_entries_spec memmap boot_bitmap Hok boot_bitmap_wf) as (bm & -> & Hwf & Hb).
  rewrite bind_Ok. destruct (last_usable_spec memmap 0 Hok ltac:(lia)) as (last & -> & _ & Hall & Hor).
  rewrite bind_Ok. eexists _, _, _. split; [done|]. split_and!; try done.
  intros j Hj. rewrite Hb by lia. split; [|by right]. intros [Hf|?]; [|done]. exfalso.
  revert Hf. unfold bget, boot_bitmap. pose proof (Z.mod_pos_bound j 8 ltac:(lia)) as Hm.
  pose proof (Z.div_mod j 8 ltac:(lia)) as Hd. unfold NBITS in Hj.
  rewrite lookup_replicate_2 by (unfold BOOT_BITMAP_SIZE; lia). cbn [default].
  change (id 255) with (Z.ones 8). rewrite testbit_ones_ltb by lia.
  destruct (Z.leb_spec 0 (j `mod` 8)), (Z.ltb_spec (j `mod` 8) 8); try lia.
Qed.

Definition demo_memmap : list limine_memmap_entry :=
  [mkEntry 4096 655360 0; mkEntry 1048576 4096 1; mkEntry 2097152 8388608 0].

Lemma pmm_early_init_correct_witness :
  exists bm last total, pmm_early_init demo_memmap = Ok (bm, last, total) /\ bm_wf bm /\
    (forall j, 0 <= j < NBITS -> bget bm j = false <-> exists e, e ∈ demo_memmap /\ usable_page e j) /\
    (forall e j, e ∈ demo_memmap -> usable_page e j -> j < last) /\
    (last = 0 \/ exists e, e ∈ demo_memmap /\ type e = LIMINE_MEMMAP_USABLE /\
       last = (base e + elength e + PAGE_SIZE - 1) `div` PAGE_SIZE).
Proof.
  apply pmm_early_init_correct. repeat constructor; vm_compute; congruence.
Defined.
