(* ===== verification/Buddy.v ===== *)
(** * The buddy page allocator

    Models [buddy_alloc_pages] and [buddy_free_pages] of
    [kernel/mem/buddy/core.c] on the page array and free lists of BuddyPage.v.
    The invariant [binv] relates the memory to the free lists per order and to
    the set of allocated blocks: all blocks are aligned, inside the page array
    and pairwise disjoint, and metadata left behind by merging ("stale" free
    bits) lies strictly inside a larger block, which is why the buddy test of
    [buddy_free_pages] never merges with memory that is in use. *)

From S2P Require Import Prelude BuddyPage.

Definition BUDDY_MAX_ORDER : Z := 18.

(** The page array with the free areas of one allocator. *)
Record buddy := mkBuddy { bmem : buddy_mem; areas : list buddy_free_area }.

(** [while (size < count) { order++; size <<= 1; }]; a count above 2^63 makes
    [size] wrap to 0, the loop then does not end and the fuel runs out. *)
Fixpoint order_loop (fuel : nat) (order size count : Z) : outcome Z :=
  match fuel with
  | O => Fault
  | S f => if size <? count then order_loop f (u64 (order + 1)) (u64 (Z.shiftl size 1)) count
           else Ok order
  end.

(** The first order at or above [current_order] with a free block. *)
Fixpoint find_order (fuel : nat) (st : buddy) (current_order : Z) : outcome Z :=
  match fuel with
  | O => Fault
  | S f =>
      if current_order <? BUDDY_MAX_ORDER then
        a ← aget (areas st) current_order;
        if nr_free a =? 0 then find_order f st (u64 (current_order + 1)) else Ok current_order
      else Ok current_order
  end.

(** [buddy_add_to_free_area(page, &free_area[order])]. *)
Definition add_to_area (st : buddy) (page : option Z) (order : Z) : outcome buddy :=
  a ← aget (areas st) order;
  r ← buddy_add_to_free_area (bmem st) page a;
  l ← aset (areas st) order r.2;
  Ok (mkBuddy r.1 l).

(** [buddy_remove_from_free_area(&free_area[order])]. *)
Definition remove_from_area (st : buddy) (order : Z) : outcome (buddy * option Z) :=
  a ← aget (areas st) order;
  r ← buddy_remove_from_free_area (bmem st) a;
  l ← aset (areas st) order r.1.2;
  Ok (mkBuddy r.1.1 l, r.2).

(** A metadata store. *)
Definition set_meta (st : buddy) (page : option Z) (f : Z -> Z) : outcome buddy :=
  m ← upd_meta (bmem st) page f; Ok (mkBuddy m (areas st)).

(** The splitting loop; the flag is false when the function returned 0. *)
Fixpoint split_loop (fuel : nat) (st : buddy) (current_order order : Z) : outcome (buddy * bool) :=
  match fuel with
  | O => Fault
  | S f =>
      if order <? current_order then
        r ← remove_from_area st current_order;
        match r.2 with
        | None => Ok (r.1, false)
        | Some page =>
            let st := r.1 in
            _ ← buddy_page_assert_tag (bmem st) (Some page) PAGE_TAG_BUDDY;
            let new_order := current_order - 1 in
            let buddy_pfn := u64 (page + BIT new_order) in
            let buddy := page_for_pfn (bmem st) buddy_pfn in
            m ← buddy_page_tag (bmem st) buddy;
            let st := mkBuddy m (areas st) in
            st ← set_meta st buddy (fun x => buddy_page_set_next_pfn x 0);
            st ← set_meta st (Some page) (fun x => buddy_page_set_order x new_order);
            st ← set_meta st buddy (fun x => buddy_page_set_order x new_order);
            st ← add_to_area st (Some page) new_order;
            st ← add_to_area st buddy new_order;
            split_loop f st (current_order - 1) order
        end
      else Ok (st, true)
  end.

Definition buddy_alloc_pages (st : buddy) (count : Z) : outcome (buddy * Z) :=
  if count =? 0 then Panic else
  order ← order_loop 65 0 1 count;
  if BUDDY_MAX_ORDER <=? order then Panic else
  current_order ← find_order 19 st order;
  if BUDDY_MAX_ORDER <=? current_order then Panic else
  r ← split_loop 19 st current_order order;
  if negb r.2 then Ok (r.1, 0) else
  r ← remove_from_area r.1 order;
  match r.2 with
  | None => Ok (r.1, 0)
  | Some page =>
      _ ← buddy_page_assert_tag (bmem r.1) (Some page) PAGE_TAG_BUDDY;
      m ← buddy_page_untag (bmem r.1) (Some page);
      Ok (mkBuddy m (areas r.1), PFN_TO_PAGE page)
  end.

(** The coalescing loop: the block at [pfn] grows while its buddy is free. *)
Fixpoint coalesce (fuel : nat) (st : buddy) (pfn : Z) (page : option Z) (order total_pages : Z)
    : outcome (buddy * option Z * Z) :=
  match fuel with
  | O => Fault
  | S f =>
      if order <? BUDDY_MAX_ORDER - 1 then
        let buddy_pfn := Z.lxor pfn (BIT order) in
        if total_pages <=? buddy_pfn then Ok (st, page, order) else
        let buddy := page_for_pfn (bmem st) buddy_pfn in
        b ← deref buddy;
        x ← get_meta (bmem st) b;
        if negb (buddy_page_is_free x) || negb (buddy_page_get_order x =? order)
        then Ok (st, page, order) else
        m ← buddy_page_tag (bmem st) buddy;
        a ← aget (areas st) order;
        r ← buddy_fa_remove m a b;
        l ← aset (areas st) order r.2;
        let st := mkBuddy r.1 l in
        let pfn := Z.min pfn buddy_pfn in
        let page := page_for_pfn (bmem st) pfn in
        st ← set_meta st page (fun x => buddy_page_set_next_pfn x 0);
        st ← set_meta st page (fun x => buddy_page_set_order x (order + 1));
        m ← buddy_page_tag (bmem st) page;
        coalesce f (mkBuddy m (areas st)) pfn page (order + 1) total_pages
      else Ok (st, page, order)
  end.

Definition buddy_free_pages (st : buddy) (addr count total_pages : Z) : outcome buddy :=
  if (addr =? 0) || (count =? 0) then Ok st else
  let pfn := PAGE_TO_PFN addr in
  _ ← enforce (pfn <? total_pages);
  order ← order_loop 65 0 1 count;
  let page := page_for_pfn (bmem st) pfn in
  _ ← buddy_page_assert_tag (bmem st) page PAGE_TAG_NONE;
  st ← set_meta st page (fun x => buddy_page_set_next_pfn x 0);
  st ← set_meta st page (fun x => buddy_page_set_order x order);
  m ← buddy_page_tag (bmem st) page;
  r ← coalesce 19 (mkBuddy m (areas st)) pfn page order total_pages;
  add_to_area r.1.1 r.1.2 r.2.

(** ** Blocks *)

Definition sz (o : nat) : Z := 2 ^ Z.of_nat o.

Lemma sz_pos o : 0 < sz o.
Proof. apply Z.pow_pos_nonneg; lia. Qed.
Lemma sz_S o : sz (S o) = 2 * sz o.
Proof. unfold sz. rewrite Nat2Z.inj_succ, Z.pow_succ_r; lia. Qed.
Lemma sz_le o k : (o <= k)%nat -> sz o <= sz k.
Proof. intros. apply Z.pow_le_mono_r; lia. Qed.
Lemma sz_divide o k : (o <= k)%nat -> (sz o | sz k).
Proof.
  intros. exists (2 ^ Z.of_nat (k - o)). unfold sz. rewrite <- Z.pow_add_r by lia. f_equal. lia.
Qed.
#[local] Hint Resolve sz_pos : core.

(** A block is a start page and an order. *)
Definition covers (blk : Z -> nat -> Prop) (x : Z) : Prop :=
  exists p o, blk p o /\ p <= x < p + sz o.

(** Blocks are aligned, inside the page array and pairwise disjoint. *)
Record tiling (last : Z) (blk : Z -> nat -> Prop) : Prop := mkTiling {
  til_geo : forall p o, blk p o -> 0 < p /\ (sz o | p) /\ p + sz o <= last /\ (o < 18)%nat;
  til_disj : forall p o q k, blk p o -> blk q k ->
    (p = q /\ o = k) \/ p + sz o <= q \/ q + sz k <= p;
}.

Lemma tiling_sub last blk blk' :
  tiling last blk -> (forall p o, blk' p o -> blk p o) -> tiling last blk'.
Proof. intros [Hg Hd] Hs. constructor; eauto. Qed.

(** Distinct blocks start at distinct pages. *)
Lemma tiling_start last blk p o k : tiling last blk -> blk p o -> blk p k -> o = k.
Proof.
  intros T H1 H2. pose proof (sz_pos o). pose proof (sz_pos k).
  destruct (til_disj _ _ T p o p k H1 H2) as [[_ ?]|[?|?]]; [done|lia|lia].
Qed.

Lemma divide_lt_add a p q : 0 < a -> (a | p) -> (a | q) -> p < q -> p + a <= q.
Proof. intros Ha [x ->] [y ->] Hlt. assert (x < y) by (apply (Z.mul_lt_mono_pos_r a); lia). nia. Qed.

Lemma tiling_split last blk blk' p n :
  tiling last blk -> blk p (S n) ->
  (forall q o, blk' q o -> blk q o /\ (q, o) <> (p, S n) \/
     (q = p /\ o = n) \/ (q = p + sz n /\ o = n)) ->
  tiling last blk'.
Proof.
  intros T Hb Hs. pose proof (sz_pos n) as Hn. pose proof (sz_S n) as HS.
  destruct (til_geo _ _ T _ _ Hb) as (G1 & G2 & G3 & G4).
  assert (sz n | p) as Gn by (etrans; [apply (sz_divide n (S n)); lia|done]).
  assert (forall q o, blk' q o ->
    (blk q o /\ (q + sz o <= p \/ p + sz (S n) <= q)) \/ ((q = p \/ q = p + sz n) /\ o = n)) as Hc.
  { intros q o [[H1 H2]|[[-> ->]|[-> ->]]]%Hs; [left; split; [done|]|right; auto|right; auto].
    destruct (til_disj _ _ T _ _ _ _ H1 Hb) as [[-> ->]|[?|?]]; [done|lia|lia]. }
  constructor.
  - intros q o [[H1 _]|[[-> | ->] ->]]%Hc; [by apply T|..]; split_and!; try lia; try done.
    apply Z.divide_add_r; [done|]. by apply sz_divide.
  - intros q o r k [[H1 H1']|[[-> | ->] ->]]%Hc [[H2 H2']|[[-> | ->] ->]]%Hc; try lia.
    by apply T.
Qed.

Lemma tiling_merge last blk blk' p n :
  tiling last blk -> blk p n -> blk (p + sz n) n -> (sz (S n) | p) -> (S n < 18)%nat ->
  (forall q o, blk' q o ->
     (blk q o /\ (q, o) <> (p, n) /\ (q, o) <> (p + sz n, n)) \/ (q = p /\ o = S n)) ->
  tiling last blk'.
Proof.
  intros T H1 H2 Hd Hk Hs. pose proof (sz_pos n) as Hn. pose proof (sz_S n) as HS.
  destruct (til_geo _ _ T _ _ H1) as (G1 & G2 & G3 & G4).
  destruct (til_geo _ _ T _ _ H2) as (G5 & G6 & G7 & G8).
  assert (forall q o, blk' q o ->
    (blk q o /\ (q + sz o <= p \/ p + sz (S n) <= q)) \/ (q = p /\ o = S n)) as Hc.
  { intros q o [(Hb & N1 & N2)|[-> ->]]%Hs; [left; split; [done|]|by right].
    pose proof (sz_pos o). 
    destruct (til_disj _ _ T _ _ _ _ Hb H1) as [[-> ->]|[?|?]]; [done|lia|].
    destruct (til_disj _ _ T _ _ _ _ Hb H2) as [[-> ->]|[?|?]]; [done|lia|lia]. }
  constructor.
  - intros q o [[Hb _]|[-> ->]]%Hc; [by apply T|]. split_and!; try lia; done.
  - intros q o r k [[B1 B1']|[-> ->]]%Hc [[B2 B2']|[-> ->]]%Hc; try lia.
    by apply T.
Qed.

(** ** The invariant *)

(** [p] heads a free block of order [o]. *)
Definition free (Ls : list (list Z)) (p : Z) (o : nat) : Prop :=
  exists l, Ls !! o = Some l /\ p ∈ l.

(** The blocks of the allocator: on a free list, or handed out. *)
Definition blocks (Ls : list (list Z)) (B : gset (Z * nat)) (p : Z) (o : nat) : Prop :=
  free Ls p o \/ (p, o) ∈ B.

(** [Ls] are the free lists per order, [B] the other blocks.  [fl] are the heads
    of blocks of [B] that are neither on a list nor handed out: those an
    operation works on. *)
Record binv (st : buddy) (Ls : list (list Z)) (B : gset (Z * nat)) (fl : gset Z) : Prop := mkBinv {
  bi_wf : mem_wf (bmem st);
  bi_alen : length (areas st) = 18%nat;
  bi_llen : length Ls = 18%nat;
  bi_rep : forall o a l, areas st !! o = Some a -> Ls !! o = Some l -> fa_rep (bmem st) a l;
  bi_hdr : forall o p, free Ls p o ->
    tagf (metaof (bmem st) p) = PAGE_TAG_BUDDY /\ freef (metaof (bmem st) p) = 1 /\
    orderf (metaof (bmem st) p) = Z.of_nat o;
  bi_til : tiling (last_pfn (bmem st)) (blocks Ls B);
  bi_sep : forall p o, (p, o) ∈ B -> ~ free Ls p o;
  bi_alloc : forall p o, (p, o) ∈ B -> p ∉ fl -> tagf (metaof (bmem st) p) = PAGE_TAG_NONE;
  bi_float : forall p, p ∈ fl -> exists o, (p, o) ∈ B;
  (* a page that looks free heads a free block or is strictly inside a block *)
  bi_stale : forall q, 0 <= q < last_pfn (bmem st) -> q ∉ fl ->
    tagf (metaof (bmem st) q) = PAGE_TAG_BUDDY -> freef (metaof (bmem st) q) = 1 ->
    (exists o, free Ls q o) \/
    (exists n p k, orderf (metaof (bmem st) q) = Z.of_nat n /\ (sz n | q) /\
       blocks Ls B p k /\ (n < k)%nat /\ p <= q < p + sz k);
}.

(** ** Moving blocks between the lists and the working set *)

Lemma free_insert Ls o l q k :
  (o < length Ls)%nat -> free (<[o := l]> Ls) q k <-> if decide (k = o) then q ∈ l else free Ls q k.
Proof.
  intros Ho. unfold free. case_decide as E; [subst k|].
  - rewrite list_lookup_insert_eq by done. naive_solver.
  - by rewrite list_lookup_insert_ne by done.
Qed.

Lemma free_lookup Ls o l q : Ls !! o = Some l -> free Ls q o <-> q ∈ l.
Proof. intros Hl. unfold free. naive_solver. Qed.

(** Only the metadata words of pages of [X] change. *)
Record page_upd (m m' : buddy_mem) (X : gset Z) : Prop := mkPageUpd {
  pu_wf : mem_wf m';
  pu_last : last_pfn m' = last_pfn m;
  pu_meta : forall q, q ∉ X -> metaof m' q = metaof m q;
  pu_prev : forall q, prevof m' q = prevof m q;
}.

Lemma page_upd_put m p x : mem_wf m -> 0 <= p < last_pfn m -> in_u 64 x ->
  page_upd m (put_meta m p x) {[p]}.
Proof.
  intros Hwf Hp Hx. constructor; try done.
  - by apply wf_put_meta.
  - intros q Hq. rewrite metaof_put_meta, decide_False; [done|set_solver].
Qed.

Lemma fa_rep_page_upd m m' X a l :
  page_upd m m' X -> (forall q, q ∈ l -> q ∉ X) -> fa_rep m a l -> fa_rep m' a l.
Proof.
  intros U Hd [H1 H2 H3 H4 H5 H6]. constructor; try done.
  - eapply seg_frame; [|done]. intros q Hq. rewrite (pu_meta _ _ _ U), (pu_prev _ _ _ U); auto.
  - intros p Hp. rewrite (pu_last _ _ _ U). auto.
Qed.

Section moves.
Context (st : buddy) (Ls : list (list Z)) (B : gset (Z * nat)) (fl : gset Z)
  (I : binv st Ls B fl).

Lemma area_list o : (o < 18)%nat ->
  exists a l, areas st !! o = Some a /\ Ls !! o = Some l /\ fa_rep (bmem st) a l /\
    aget (areas st) (Z.of_nat o) = Ok a.
Proof.
  intros Ho. destruct (lookup_lt_is_Some_2 (areas st) o) as [a Ha]; [by rewrite (bi_alen _ _ _ _ I)|].
  destruct (lookup_lt_is_Some_2 Ls o) as [l Hl]; [by rewrite (bi_llen _ _ _ _ I)|].
  exists a, l. split_and!; try done; [by eapply I|]. apply aget_Ok. rewrite Nat2Z.id. split; [lia|done].
Qed.

(** A page on a free list heads no other block. *)
Lemma free_unique p o k : free Ls p o -> blocks Ls B p k -> k = o.
Proof. intros H1 H2. eapply tiling_start; [apply I|done|]. by left. Qed.

Lemma B_not_free p o k : (p, o) ∈ B -> ~ free Ls p k.
Proof.
  intros H1 H2. assert (o = k) as -> by (eapply free_unique; [done|by right]).
  by eapply (bi_sep _ _ _ _ I).
Qed.

Lemma float_not_free p k : p ∈ fl -> ~ free Ls p k.
Proof. intros (o & Ho)%(bi_float _ _ _ _ I). by eapply B_not_free. Qed.

Lemma block_page p o : blocks Ls B p o -> 0 < p < last_pfn (bmem st) /\ (o < 18)%nat.
Proof. intros (H1 & _ & H2 & H3)%(til_geo _ _ (bi_til _ _ _ _ I)). pose proof (sz_pos o). lia. Qed.

(** Stores to the metadata of blocks being worked on. *)
Lemma binv_page_upd m' X :
  page_upd (bmem st) m' X -> X ⊆ fl -> binv (mkBuddy m' (areas st)) Ls B fl.
Proof.
  intros U HX. assert (forall q o, free Ls q o -> q ∉ X) as Hq.
  { intros q o Hf Hx%HX. by eapply float_not_free. }
  constructor; cbn; try apply I; try apply U.
  - intros o a l Ha Hl. eapply fa_rep_page_upd; [done| |by eapply I].
    intros q Hin. apply (Hq q o). by exists l.
  - intros o p Hf. rewrite (pu_meta _ _ _ U) by eauto. by apply I.
  - rewrite (pu_last _ _ _ U). apply I.
  - intros p o Hp Hn. rewrite (pu_meta _ _ _ U) by (intros ?%HX; done). by eapply I.
  - rewrite (pu_last _ _ _ U). intros q Hr Hn.
    rewrite (pu_meta _ _ _ U) by (intros ?%HX; done). by apply I.
Qed.

(** Cut a block being worked on in two halves. *)
Lemma binv_split p n :
  (p, S n) ∈ B -> p ∈ fl ->
  let b := p + sz n in
  binv st Ls ({[(p, n); (b, n)]} ∪ B ∖ {[(p, S n)]}) ({[b]} ∪ fl).
Proof.
  intros HB Hfl b. destruct (block_page p (S n) (or_intror HB)) as [Hp Ho].
  destruct (til_geo _ _ (bi_til _ _ _ _ I) p (S n) (or_intror HB)) as (_ & Hd & Hl & _).
  pose proof (sz_pos n) as Hn. pose proof (sz_S n) as HS.
  assert (forall k, ~ free Ls b k) as Hbf.
  { intros k Hf. pose proof (sz_pos k).
    destruct (til_disj _ _ (bi_til _ _ _ _ I) b k p (S n)) as [[? ?]|[?|?]]; [by left|by right|lia..]. }
  constructor; try apply I.
  - eapply tiling_split; [apply I|right; exact HB|]. intros q o [Hf|Hin].
    + left. split; [by left|]. intros [= -> ->]. by eapply (bi_sep _ _ _ _ I).
    + rewrite elem_of_union, elem_of_union, !elem_of_singleton, elem_of_difference, elem_of_singleton in Hin.
      destruct Hin as [[[= -> ->]|[= -> ->]]|[Hin Hne]]; [by right; left|by right; right|].
      left. split; [by right|done].
  - intros q o Hin. rewrite elem_of_union, elem_of_union, !elem_of_singleton, elem_of_difference in Hin.
    destruct Hin as [[[= -> ->]|[= -> ->]]|[Hin _]]; [by eapply B_not_free|apply Hbf|by eapply B_not_free].
  - intros q o Hin Hq. apply not_elem_of_union in Hq as [Hq1 Hq2]. set_unfold in Hin. set_unfold in Hq1.
    destruct Hin as [[[= -> ->]|[= -> ->]]|[Hin _]]; [done|done|by eapply (bi_alloc _ _ _ _ I)].
  - intros q [->%elem_of_singleton|Hq]%elem_of_union; [exists n; set_solver|].
    destruct (bi_float _ _ _ _ I q Hq) as [o Ho'].
    destruct (decide (q = p)) as [->|]; [exists n; set_solver|exists o; set_solver].
  - intros q Hr Hq Ht Hf. apply not_elem_of_union in Hq as [Hq1%not_elem_of_singleton Hq2].
    destruct (bi_stale _ _ _ _ I q Hr Hq2 Ht Hf) as [?|(n' & p' & k & Hor & Hdq & Hb & Hk & Hin)]; [by left|].
    right. destruct (decide ((p', k) = (p, S n))) as [[= -> ->]|Hne].
    + assert (n' <> n) as Hnn.
      { intros ->. assert (sz n | p) as Hdp by (etrans; [apply (sz_divide n (S n)); lia|done]).
        assert (q <> p) by (by intros ->). 
        destruct (decide (q < b)).
        - pose proof (divide_lt_add (sz n) p q Hn Hdp Hdq). lia.
        - assert (sz n | b) as Hdb by (apply Z.divide_add_r; done).
          pose proof (divide_lt_add (sz n) b q Hn Hdb Hdq). lia. }
      destruct (decide (q < b)).
      * exists n', p, n. split_and!; try done; try lia. right. set_solver.
      * exists n', b, n. split_and!; try done; try lia. right. set_solver.
    + exists n', p', k. split_and!; try done; try lia. destruct Hb as [?|?]; [by left|right; set_solver].
Qed.

(** Join a block with its upper half neighbour, both being worked on. *)
Lemma binv_merge p n :
  let b := p + sz n in
  (p, n) ∈ B -> (b, n) ∈ B -> p ∈ fl -> b ∈ fl -> (sz (S n) | p) -> (S n < 18)%nat ->
  (freef (metaof (bmem st) b) = 1 -> orderf (metaof (bmem st) b) = Z.of_nat n) ->
  binv st Ls ({[(p, S n)]} ∪ B ∖ {[(p, n); (b, n)]}) (fl ∖ {[b]}).
Proof.
  intros b HB1 HB2 Hf1 Hf2 Hd Hk Hst. pose proof (sz_pos n) as Hn. pose proof (sz_S n) as HS.
  assert (p <> b) as Hpb by lia.
  constructor; try apply I.
  - eapply tiling_merge; [apply I|right; exact HB1|right; exact HB2|done|done|].
    intros q o [Hf|Hin].
    + left. split_and!; [by left| |]; intros [= -> ->];
        [exact (bi_sep _ _ _ _ I _ _ HB1 Hf)|exact (bi_sep _ _ _ _ I _ _ HB2 Hf)].
    + set_unfold in Hin. destruct Hin as [[= -> ->]|[Hin Hne]]; [by right|].
      left. split_and!; [by right|tauto|tauto].
  - intros q o Hin. set_unfold in Hin. destruct Hin as [[= -> ->]|[Hin _]]; by eapply B_not_free.
  - intros q o Hin Hq. set_unfold in Hin. set_unfold in Hq. destruct Hin as [[= -> ->]|[Hin Hne]]; [naive_solver|].
    eapply (bi_alloc _ _ _ _ I); [done|]. intros Hq'. apply Hq. split; [done|]. intros ->.
    apply Hne. right. f_equal. eapply tiling_start; [apply I|right; done|right; done].
  - intros q Hq. set_unfold in Hq. destruct Hq as [Hq Hne]. setoid_rewrite elem_of_union.
    setoid_rewrite elem_of_difference. set_unfold.
    destruct (bi_float _ _ _ _ I q Hq) as [o Ho']. destruct (decide (q = p)) as [->|]; [exists (S n); by left|].
    exists o. right. split; [done|]. intros [[= -> _]|[= -> _]]; done.
  - intros q Hr Hq Ht Hf. destruct (decide (q = b)) as [->|Hqb].
    { right. exists n, p, (S n). split_and!; [by apply Hst| |right; set_solver|lia|lia|lia].
      apply Z.divide_add_r; [|done]. etrans; [apply (sz_divide n (S n)); lia|done]. }
    assert (q ∉ fl) as Hq' by set_solver.
    destruct (bi_stale _ _ _ _ I q Hr Hq' Ht Hf) as [?|(n' & p' & k & Hor & Hdq & Hb & Hk' & Hin)]; [by left|].
    right. destruct Hb as [Hb|Hb].
    { exists n', p', k. split_and!; try done; try lia. by left. }
    destruct (decide ((p', k) = (p, n) \/ (p', k) = (b, n))) as [Hor'|Hne].
    + exists n', p, (S n). split_and!; try done; [right; set_solver|..];
        destruct Hor' as [[= -> ->]|[= -> ->]]; lia.
    + exists n', p', k. split_and!; try done; try lia. right. set_solver.
Qed.
End moves.

(** A link update on list [o], then a change of the free bit of [p]: what
    [buddy_add_to_free_area] and [buddy_remove_from_free_area] do. *)
Lemma put_free_upd m p b :
  mem_wf m -> 0 <= p < last_pfn m -> page_upd m (put_meta m p (fset 3 1 (metaof m p) b)) {[p]}.
Proof.
  intros Hwf Hp. apply page_upd_put; try done. apply fset_range; try lia. by apply metaof_range.
Qed.

Section list_moves.
Context (st : buddy) (Ls : list (list Z)) (B : gset (Z * nat)) (fl : gset Z)
  (I : binv st Ls B fl).

(** The generic move: list [o] becomes [l'], the metadata words keep tag and
    order, the free bit changes at most at [p], a block of order [o]. *)
Lemma binv_relist o l l' p m' a' B' fl' :
  Ls !! o = Some l ->
  mem_wf m' -> last_pfn m' = last_pfn (bmem st) ->
  (forall q, tagf (metaof m' q) = tagf (metaof (bmem st) q)) ->
  (forall q, orderf (metaof m' q) = orderf (metaof (bmem st) q)) ->
  (forall q, q <> p -> freef (metaof m' q) = freef (metaof (bmem st) q)) ->
  fa_rep m' a' l' ->
  (forall k a r, k <> o -> areas st !! k = Some a -> Ls !! k = Some r -> fa_rep m' a r) ->
  (forall q, q <> p -> q ∈ l <-> q ∈ l') ->
  (p ∈ l' -> tagf (metaof m' p) = PAGE_TAG_BUDDY /\ freef (metaof m' p) = 1 /\
    orderf (metaof m' p) = Z.of_nat o) ->
  (forall q k, blocks (<[o := l']> Ls) B' q k <-> blocks Ls B q k) ->
  (forall q k, (q, k) ∈ B' -> ~ free (<[o := l']> Ls) q k) ->
  (forall q k, (q, k) ∈ B' -> q ∉ fl' -> (q, k) ∈ B /\ q ∉ fl) ->
  (forall q, q ∈ fl' -> exists k, (q, k) ∈ B') ->
  (forall q, q <> p -> q ∉ fl' -> q ∉ fl) ->
  p ∈ l' \/ p ∈ fl' ->
  blocks Ls B p o ->
  binv (mkBuddy m' (<[o := a']> (areas st))) (<[o := l']> Ls) B' fl'.
Proof.
  intros Hl Hwf HL Ht Ho Hf R HR Hll Hpl Hblk Hsep Hal Hfl Hfl' Hp Hpo.
  assert (o < 18)%nat as Ho18 by (rewrite <- (bi_llen _ _ _ _ I); by eapply lookup_lt_Some).
  assert (o < length Ls)%nat as Hol by (by rewrite (bi_llen _ _ _ _ I)).
  assert (o < length (areas st))%nat as Hoa by (by rewrite (bi_alen _ _ _ _ I)).
  constructor; cbn [bmem areas].
  - done.
  - rewrite length_insert. apply I.
  - rewrite length_insert. apply I.
  - intros k a r. destruct (decide (k = o)) as [->|].
    + rewrite !list_lookup_insert_eq by done. by intros [= <-] [= <-].
    + rewrite !list_lookup_insert_ne by done. eauto.
  - intros k q. rewrite free_insert by done. destruct (decide (q = p)) as [->|Hq].
    + case_decide as E; [subst; apply Hpl|]. intros Hfr. destruct E. symmetry.
      by eapply free_unique.
    + rewrite Ht, Ho, Hf by done. intros Hfr. apply I. case_decide; [subst k|done].
      exists l. split; [done|]. by apply Hll.
  - rewrite HL. eapply tiling_sub; [apply I|]. intros q k. apply Hblk.
  - done.
  - intros q k Hin Hn. rewrite Ht. destruct (Hal q k Hin Hn). by eapply I.
  - done.
  - rewrite HL. intros q Hr Hn. rewrite Ht. destruct (decide (q = p)) as [->|Hq].
    + intros _ _. destruct Hp as [Hp|Hp]; [|done]. left. exists o. rewrite free_insert by done.
      by rewrite decide_True.
    + rewrite Hf, Ho by done. intros H1 H2.
      destruct (bi_stale _ _ _ _ I q Hr (Hfl' q Hq Hn) H1 H2) as [[k Hk]|(n & p' & k & ? & ? & ? & ? & ?)].
      * left. exists k. rewrite free_insert by done. case_decide; [subst k|done].
        destruct Hk as (l0 & E & Hin). apply Hll; [done|]. congruence.
      * right. exists n, p', k. rewrite Hblk. done.
Qed.

(** The lists of other orders share no page with list [o]. *)
Lemma other_lists o k l r q :
  k <> o -> Ls !! o = Some l -> Ls !! k = Some r -> q ∈ r -> blocks Ls B q o -> False.
Proof.
  intros Hk Hl Hr Hq Hb. apply Hk. symmetry. eapply free_unique; [done| |done]. by exists r.
Qed.

(** [buddy_remove_from_free_area]: the head of a list becomes a working block. *)
Lemma pop_inv o p l :
  Ls !! o = Some (p :: l) ->
  exists st', remove_from_area st (Z.of_nat o) = Ok (st', Some p) /\
    binv st' (<[o := l]> Ls) ({[(p, o)]} ∪ B) ({[p]} ∪ fl) /\
    last_pfn (bmem st') = last_pfn (bmem st) /\
    tagf (metaof (bmem st') p) = PAGE_TAG_BUDDY.
Proof.
  intros Hl. assert (free Ls p o) as Hfr by (exists (p :: l); split; [done|constructor]).
  destruct (block_page _ _ _ _ I p o (or_introl Hfr)) as [Hp Ho].
  destruct (area_list _ _ _ _ I o Ho) as (a & l0 & Ha & Hl0 & R & Eg).
  assert (l0 = p :: l) as -> by congruence.
  destruct (pop_head_spec (bmem st) (bi_wf _ _ _ _ I) a p l R) as (m1 & a' & E & R1 & U).
  pose proof (fa_nodup _ _ _ R) as [Hnp Hnd]%list.NoDup_cons.
  assert (0 <= p < last_pfn m1) as Hp1 by (rewrite (lu_last _ _ _ U); lia).
  pose proof (put_free_upd m1 p (Z.b2z false) (lu_wf _ _ _ U) Hp1) as U2.
  set (m2 := put_meta m1 p _) in *. exists (mkBuddy m2 (<[o := a']> (areas st))).
  assert (forall q, tagf (metaof m2 q) = tagf (metaof (bmem st) q)) as Ht.
  { intros q. rewrite <- (lu_tag _ _ _ U). unfold m2. reads. }
  split; [|split; [|split]].
  - unfold remove_from_area. rewrite Eg, bind_Ok. unfold buddy_remove_from_free_area.
    rewrite E, bind_Ok. cbn [fst snd]. rewrite upd_meta_Ok by (done || apply U). rewrite !bind_Ok.
    cbn [fst snd]. rewrite set_free_field. fold m2.
    rewrite aset_Ok by (rewrite (bi_alen _ _ _ _ I); lia). by rewrite Nat2Z.id.
  - eapply (binv_relist o (p :: l) l p); try done; try apply U2.
    + rewrite (pu_last _ _ _ U2). apply U.
    + intros q. rewrite <- (lu_order _ _ _ U). unfold m2. reads.
    + intros q Hq. rewrite (pu_meta _ _ _ U2) by set_solver. apply U.
    + eapply fa_rep_page_upd; [done| |done]. intros q Hq ->%elem_of_singleton. done.
    + intros k a0 r Hk Ha0 Hr. eapply fa_rep_page_upd; [done| |].
      * intros q Hq ->%elem_of_singleton. eapply (other_lists o k); try done. by left.
      * eapply fa_rep_frame; [done| |by eapply I]. intros q Hq Hq'.
        eapply (other_lists o k); try done. left. by exists (p :: l).
    + intros q Hq. rewrite elem_of_cons. naive_solver.
    + intros q k. unfold blocks. rewrite free_insert by (by rewrite (bi_llen _ _ _ _ I)).
      rewrite elem_of_union, elem_of_singleton. case_decide as Ek; [subst k|].
      * rewrite (free_lookup _ _ _ _ Hl), elem_of_cons. naive_solver.
      * naive_solver.
    + intros q k Hin. rewrite free_insert by (by rewrite (bi_llen _ _ _ _ I)).
      apply elem_of_union in Hin as [[= -> ->]%elem_of_singleton|Hin]; [by rewrite decide_True|].
      case_decide; [subst|]; intros Hq; eapply (B_not_free _ _ _ _ I); try done.
      exists (p :: l). split; [done|by constructor].
    + intros q k Hin Hq. apply not_elem_of_union in Hq as [Hq ?]. set_solver.
    + intros q [->%elem_of_singleton|Hq]%elem_of_union; [exists o; set_solver|].
      destruct (bi_float _ _ _ _ I q Hq) as [k Hk]. exists k. set_solver.
    + set_solver.
    + set_solver.
    + by left.
  - cbn [bmem]. rewrite (pu_last _ _ _ U2). apply U.
  - cbn [bmem]. rewrite Ht. by apply (bi_hdr _ _ _ _ I o).
Qed.

(** [buddy_add_to_free_area]: a working block goes to the end of its list. *)
Lemma push_inv o p l :
  Ls !! o = Some l -> (p, o) ∈ B -> p ∈ fl ->
  tagf (metaof (bmem st) p) = PAGE_TAG_BUDDY -> orderf (metaof (bmem st) p) = Z.of_nat o ->
  exists st', add_to_area st (Some p) (Z.of_nat o) = Ok st' /\
    binv st' (<[o := l ++ [p]]> Ls) (B ∖ {[(p, o)]}) (fl ∖ {[p]}) /\
    last_pfn (bmem st') = last_pfn (bmem st) /\
    (forall q, tagf (metaof (bmem st') q) = tagf (metaof (bmem st) q)) /\
    (forall q, orderf (metaof (bmem st') q) = orderf (metaof (bmem st) q)).
Proof.
  intros Hl HB Hfl Htp Hop. destruct (block_page _ _ _ _ I p o (or_intror HB)) as [Hp Ho].
  destruct (area_list _ _ _ _ I o Ho) as (a & l0 & Ha & Hl0 & R & Eg).
  assert (l0 = l) as -> by congruence.
  assert (forall k, ~ free Ls p k) as Hnf by (intros k; by eapply float_not_free).
  assert (p ∉ l) as Hpl by (intros Hin; apply (Hnf o); by exists l).
  destruct (push_tail_spec (bmem st) (bi_wf _ _ _ _ I) a l p R Hp Hpl) as (m1 & a' & E & R1 & U).
  assert (0 <= p < last_pfn m1) as Hp1 by (rewrite (lu_last _ _ _ U); lia).
  pose proof (put_free_upd m1 p (Z.b2z true) (lu_wf _ _ _ U) Hp1) as U2.
  set (m2 := put_meta m1 p _) in *. exists (mkBuddy m2 (<[o := a']> (areas st))).
  assert (forall q, tagf (metaof m2 q) = tagf (metaof (bmem st) q)) as Ht.
  { intros q. rewrite <- (lu_tag _ _ _ U). unfold m2. reads. }
  assert (forall q, orderf (metaof m2 q) = orderf (metaof (bmem st) q)) as Hor.
  { intros q. rewrite <- (lu_order _ _ _ U). unfold m2. reads. }
  assert (o < length Ls)%nat as Hol by (by rewrite (bi_llen _ _ _ _ I)).
  split; [|split; [|split; [|done]]].
  - unfold add_to_area. rewrite Eg, bind_Ok. unfold buddy_add_to_free_area, buddy_page_assert_tag.
    rewrite get_meta_Ok, bind_Ok by (apply I || lia). rewrite page_get_tag_field, Htp. cbn [enforce Z.eqb].
    change (enforce (PAGE_TAG_BUDDY =? PAGE_TAG_BUDDY)) with (Ok tt). rewrite !bind_Ok. cbn [deref].
    rewrite bind_Ok, E, bind_Ok. cbn [fst snd]. rewrite upd_meta_Ok by (done || apply U). rewrite !bind_Ok.
    cbn [fst snd]. rewrite set_free_field. fold m2.
    rewrite aset_Ok by (rewrite (bi_alen _ _ _ _ I); lia). by rewrite Nat2Z.id.
  - eapply (binv_relist o l (l ++ [p]) p); try done; try apply U2.
    + rewrite (pu_last _ _ _ U2). apply U.
    + intros q Hq. rewrite (pu_meta _ _ _ U2) by set_solver. apply U.
    + destruct R1 as [Q1 Q2 Q3 Q4 Q5 Q6]. constructor; try done.
      eapply seg_frame; [|done]. intros q Hq. unfold m2. split; reads.
    + intros k a0 r Hk Ha0 Hr. eapply fa_rep_page_upd; [done| |].
      * intros q Hq ->%elem_of_singleton. apply (Hnf k). by exists r.
      * eapply fa_rep_frame; [done| |by eapply I].
        intros q Hq [Hq'| ->%list_elem_of_singleton]%elem_of_app; [|apply (Hnf k); by exists r].
        eapply (other_lists o k); try done. left. by exists l.
    + intros q Hq. rewrite elem_of_app, list_elem_of_singleton. naive_solver.
    + intros _. rewrite Ht, Hor. split_and!; try done. unfold m2. rewrite metaof_put_meta, decide_True by done.
      by fields.
    + intros q k. unfold blocks. rewrite free_insert by done.
      rewrite elem_of_difference, elem_of_singleton. case_decide as Ek; [subst k|].
      * rewrite (free_lookup _ _ _ _ Hl), elem_of_app, list_elem_of_singleton.
        destruct (decide (q = p)); naive_solver.
      * naive_solver.
    + intros q k [Hin Hne]%elem_of_difference. rewrite free_insert by done.
      case_decide as Ek; [subst k|by eapply (B_not_free _ _ _ _ I)].
      intros [Hq| ->%list_elem_of_singleton]%elem_of_app; [|set_solver].
      eapply (B_not_free _ _ _ _ I); [done|by exists l].
    + intros q k [Hin Hne]%elem_of_difference Hq. split; [done|]. intros Hq'. apply Hq.
      apply elem_of_difference. split; [done|]. intros ->%elem_of_singleton. apply Hne.
      apply elem_of_singleton. f_equal. eapply tiling_start; [apply I|by right|by right].
    + intros q [Hq Hne]%elem_of_difference. destruct (bi_float _ _ _ _ I q Hq) as [k Hk].
      exists k. apply elem_of_difference. split; [done|]. set_solver.
    + intros q Hq Hn Hq'. apply Hn. set_solver.
    + left. apply elem_of_app. right. constructor.
    + by right.
  - cbn [bmem]. rewrite (pu_last _ _ _ U2). apply U.
Qed.

(** Taking a block out of the middle of its list. *)
Lemma take_inv o p :
  free Ls p o ->
  exists a m' a', aget (areas st) (Z.of_nat o) = Ok a /\
    buddy_fa_remove (bmem st) a p = Ok (m', a') /\ 
    exists l', let st' := mkBuddy m' (<[o := a']> (areas st)) in
    binv st' (<[o := l']> Ls) ({[(p, o)]} ∪ B) ({[p]} ∪ fl) /\
    (forall q, q ∈ l' <-> q <> p /\ free Ls q o) /\
    links_upd (bmem st) m' (default [] (Ls !! o)).
Proof.
  intros Hfr. destruct (block_page _ _ _ _ I p o (or_introl Hfr)) as [Hp Ho].
  destruct (area_list _ _ _ _ I o Ho) as (a & l & Ha & Hl & R & Eg).
  pose proof (proj1 (free_lookup _ _ _ _ Hl) Hfr) as Hin.
  apply list_elem_of_split in Hin as (l1 & l2 & ->).
  destruct (remove_spec (bmem st) (bi_wf _ _ _ _ I) a l1 p l2 R) as (m' & a' & E & R1 & U).
  pose proof (fa_nodup _ _ _ R) as (N1 & N2 & [N3 N4]%list.NoDup_cons)%list.NoDup_app.
  assert (forall q, q ∈ l1 ++ l2 <-> q <> p /\ q ∈ l1 ++ p :: l2) as Hll.
  { intros q. rewrite !elem_of_app, elem_of_cons. split; [|naive_solver].
    intros [Hq|Hq]; (split; [intros ->|auto]); [|done]. apply (N2 p Hq). constructor. }
  assert (o < length Ls)%nat as Hol by (by rewrite (bi_llen _ _ _ _ I)).
  exists a, m', a'. split; [done|]. split; [done|]. exists (l1 ++ l2). cbn zeta. split; [|split].
  - eapply (binv_relist o (l1 ++ p :: l2) (l1 ++ l2) p); try done; try apply U.
    + intros q _. apply U.
    + intros k a0 r Hk Ha0 Hr. eapply fa_rep_frame; [done| |by eapply I]. intros q Hq Hq'.
      eapply (other_lists o k); try done. left. by exists (l1 ++ p :: l2).
    + intros q Hq. rewrite Hll. naive_solver.
    + intros []%Hll; done.
    + intros q k. unfold blocks. rewrite free_insert by done.
      rewrite elem_of_union, elem_of_singleton. case_decide as Ek; [subst k|].
      * rewrite (free_lookup _ _ _ _ Hl), Hll. destruct (decide (q = p)); [subst|naive_solver].
        split; [|naive_solver]. intros _. left. apply elem_of_app. right. constructor.
      * naive_solver.
    + intros q k Hq. rewrite free_insert by done.
      apply elem_of_union in Hq as [[= -> ->]%elem_of_singleton|Hq].
      { rewrite decide_True by done. by intros []%Hll. }
      case_decide; [subst|by eapply (B_not_free _ _ _ _ I)]. intros [_ ?]%Hll.
      eapply (B_not_free _ _ _ _ I); [done|]. by eexists.
    + intros q k Hq Hn. apply not_elem_of_union in Hn as [Hn ?]. set_solver.
    + intros q [->%elem_of_singleton|Hq]%elem_of_union; [exists o; set_solver|].
      destruct (bi_float _ _ _ _ I q Hq) as [k Hk]. exists k. set_solver.
    + set_solver.
    + set_solver.
    + by left.
  - intros q. by rewrite Hll, (free_lookup _ _ _ _ Hl).
  - by rewrite Hl.
Qed.
End list_moves.

(** ** The loops *)

Lemma order_loop_spec fuel o count :
  1 <= count <= 2 ^ 63 -> 0 <= o <= Z.log2_up count -> Z.log2_up count - o < Z.of_nat fuel ->
  order_loop fuel o (2 ^ o) count = Ok (Z.log2_up count).
Proof.
  intros Hc. assert (Z.log2_up count <= 63) as Hk.
  { etrans; [apply Z.log2_up_le_mono; apply Hc|]. by rewrite Z.log2_up_pow2. }
  revert o. induction fuel as [|f IH]; intros o Ho Hf; [lia|]. cbn [order_loop].
  destruct (Z.ltb_spec (2 ^ o) count) as [Hlt|Hge].
  - assert (o < Z.log2_up count) as Ho'.
    { apply Z.log2_up_lt_pow2; lia. }
    rewrite Z.shiftl_mul_pow2 by lia. rewrite !wrap_small.
    + replace (2 ^ o * 2 ^ 1) with (2 ^ (o + 1)) by (by rewrite Z.pow_add_r by lia). apply IH; lia.
    + replace (2 ^ o * 2 ^ 1) with (2 ^ (o + 1)) by (by rewrite Z.pow_add_r by lia).
      split; [apply Z.pow_nonneg; lia|apply Z.pow_lt_mono_r; lia].
    + unfold in_u. lia.
  - f_equal. assert (Z.log2_up count <= o); [|lia]. apply Z.log2_up_le_pow2; lia.
Qed.

Lemma block_order count :
  1 <= count <= 2 ^ 63 -> order_loop 65 0 1 count = Ok (Z.log2_up count).
Proof.
  intros Hc. apply (order_loop_spec 65 0 count Hc); pose proof (Z.log2_up_nonneg count).
  - lia.
  - assert (Z.log2_up count <= Z.log2_up (2 ^ 63)) by (apply Z.log2_up_le_mono; lia).
    rewrite Z.log2_up_pow2 in * by lia. lia.
Qed.

Lemma find_order_spec st Ls B fl fuel o k :
  binv st Ls B fl -> (o <= k <= 18)%nat -> (k - o < fuel)%nat ->
  (forall j, (o <= j < k)%nat -> Ls !! j = Some []) ->
  ((k < 18)%nat -> exists p l, Ls !! k = Some (p :: l)) ->
  find_order fuel st (Z.of_nat o) = Ok (Z.of_nat k).
Proof.
  intros I. revert o. induction fuel as [|f IH]; intros o Hk Hf He Hn; [lia|].
  cbn [find_order]. unfold BUDDY_MAX_ORDER. destruct (Z.ltb_spec (Z.of_nat o) 18); [|do 2 f_equal; lia].
  destruct (area_list _ _ _ _ I o) as (a & l & Ha & Hl & R & ->); [lia|]. rewrite bind_Ok.
  rewrite (fa_nr _ _ _ R). destruct (decide (o = k)) as [->|Hok].
  - destruct Hn as (p & l' & Hl'); [lia|]. assert (l = p :: l') as -> by congruence.
    destruct (Z.eqb_spec (Z.of_nat (length (p :: l'))) 0); [cbn in *; lia|done].
  - assert (l = []) as -> by (pose proof (He o ltac:(lia)); congruence). cbn [length Z.of_nat Z.eqb].
    rewrite wrap_small by (unfold in_u; lia). replace (Z.of_nat o + 1) with (Z.of_nat (S o)) by lia.
    apply IH; try lia; [|done]. intros. apply He. lia.
Qed.

(** A metadata store to a working block. *)
Lemma set_meta_inv st Ls B fl p f :
  binv st Ls B fl -> p ∈ fl -> (forall x, in_u 64 x -> in_u 64 (f x)) ->
  let st' := mkBuddy (put_meta (bmem st) p (f (metaof (bmem st) p))) (areas st) in
  set_meta st (Some p) f = Ok st' /\ binv st' Ls B fl.
Proof.
  intros I Hp Hf st'. destruct (bi_float _ _ _ _ I p Hp) as [o Ho].
  destruct (block_page _ _ _ _ I p o (or_intror Ho)) as [Hpr _].
  assert (0 <= p < last_pfn (bmem st)) as Hpr' by lia. split.
  - unfold set_meta. by rewrite upd_meta_Ok by (apply I || done).
  - eapply (binv_page_upd _ _ _ _ I _ {[p]}); [|set_solver]. apply page_upd_put; [apply I|done|].
    apply Hf, metaof_range; [apply I|done].
Qed.

Lemma tag_inv st Ls B fl p :
  binv st Ls B fl -> p ∈ fl ->
  let m' := put_meta (bmem st) p (fset 0 3 (metaof (bmem st) p) PAGE_TAG_BUDDY) in
  buddy_page_tag (bmem st) (Some p) = Ok m' /\ binv (mkBuddy m' (areas st)) Ls B fl.
Proof.
  intros I Hp m'. destruct (set_meta_inv st Ls B fl p (fun x => page_set_tag x PAGE_TAG_BUDDY) I Hp)
    as [E HI].
  { intros x Hx. rewrite page_set_tag_field. by apply fset_range. }
  rewrite page_set_tag_field in HI. split; [|done]. revert E. unfold set_meta. cbn [buddy_page_tag].
  destruct (upd_meta _ _ _); cbn; [|done..]. rewrite page_set_tag_field. by intros [= ->].
Qed.

Lemma page_for_pfn_Some m p : p < last_pfn m -> page_for_pfn m p = Some p.
Proof. intros. unfold page_for_pfn. destruct (Z.leb_spec (last_pfn m) p); [lia|done]. Qed.

Lemma assert_tag_Ok m p t :
  mem_wf m -> 0 <= p < last_pfn m -> tagf (metaof m p) = t ->
  buddy_page_assert_tag m (Some p) t = Ok tt.
Proof.
  intros Hw Hp Ht. unfold buddy_page_assert_tag. rewrite get_meta_Ok by done.
  rewrite bind_Ok, page_get_tag_field, Ht, Z.eqb_refl. done.
Qed.

(** Working on the metadata: a store of the order or of the next link. *)
Lemma set_order_range o x : in_u 64 x -> in_u 64 (buddy_page_set_order x o).
Proof. intros. rewrite set_order_field. by apply fset_range. Qed.
Lemma set_next_range o x : in_u 64 x -> in_u 64 (buddy_page_set_next_pfn x o).
Proof. intros. rewrite set_next_field. by apply fset_range. Qed.
#[local] Hint Resolve set_order_range set_next_range : core.

Lemma order_wrap (o : nat) : (o < 18)%nat -> wrap 7 (Z.of_nat o) = Z.of_nat o.
Proof. intros. apply wrap_small. unfold in_u. lia. Qed.

Definition same_cover (b1 b2 : Z -> nat -> Prop) : Prop := forall x, covers b1 x <-> covers b2 x.

Lemma covers_split blk blk' p n :
  blk p (S n) ->
  (forall q k, blk' q k <-> (blk q k /\ (q, k) <> (p, S n)) \/ (q, k) = (p, n) \/ (q, k) = (p + sz n, n)) ->
  same_cover blk blk'.
Proof.
  intros Hp Hb x. pose proof (sz_pos n). pose proof (sz_S n). split.
  - intros (q & k & Hq & Hx). destruct (decide ((q, k) = (p, S n))) as [[= -> ->]|Hne].
    + destruct (decide (x < p + sz n)).
      * exists p, n. split; [apply Hb; auto|lia].
      * exists (p + sz n), n. split; [apply Hb; auto|lia].
    + exists q, k. split; [apply Hb; auto|done].
  - intros (q & k & [[Hq _]|[[= -> ->]|[= -> ->]]]%Hb & Hx); [by exists q, k|..];
      exists p, (S n); (split; [done|lia]).
Qed.

Lemma split_step f st Ls A p n l order :
  binv st Ls A ∅ -> Ls !! S n = Some (p :: l) -> Ls !! n = Some [] -> (order <= n)%nat ->
  exists st', split_loop (S f) st (Z.of_nat (S n)) (Z.of_nat order) =
      split_loop f st' (Z.of_nat n) (Z.of_nat order) /\
    binv st' (<[n := [p; p + sz n]]> (<[S n := l]> Ls)) A ∅ /\
    last_pfn (bmem st') = last_pfn (bmem st).
Proof.
  intros I Hl Hn Ho. set (b := p + sz n).
  assert (free Ls p (S n)) as Hfr by (exists (p :: l); split; [done|constructor]).
  destruct (til_geo _ _ (bi_til _ _ _ _ I) p (S n) (or_introl Hfr)) as (G1 & G2 & G3 & G4).
  pose proof (sz_pos n) as Hsz. pose proof (sz_S n) as HS. pose proof (wf_last _ (bi_wf _ _ _ _ I)).
  destruct (pop_inv st Ls A ∅ I (S n) p l Hl) as (st1 & E1 & I1 & L1 & T1).
  assert ((p, S n) ∉ A) as N1 by (intros ?; by eapply (B_not_free _ _ _ _ I)).
  assert ((p, n) ∉ A) as N2.
  { intros ?. enough (n = S n) by lia. eapply free_unique; [exact I|done|by right]. }
  assert ((b, n) ∉ A) as N3.
  { intros Hb. destruct (til_disj _ _ (bi_til _ _ _ _ I) b n p (S n)) as [[]|[]];
      [by right|by left|unfold b in *; lia..]. }
  pose proof (binv_split _ _ _ _ I1 p n ltac:(set_solver) ltac:(set_solver)) as I2.
  cbn zeta in I2. fold b in I2.
  replace ({[(p, n); (b, n)]} ∪ ({[(p, S n)]} ∪ A) ∖ {[(p, S n)]}) with ({[(p, n); (b, n)]} ∪ A) in I2
    by (clear -N1; set_solver).
  destruct (tag_inv _ _ _ _ b I2) as [E3 I3]; [set_solver|].
  destruct (set_meta_inv _ _ _ _ b (fun x => buddy_page_set_next_pfn x 0) I3) as [E4 I4]; [set_solver|auto|].
  destruct (set_meta_inv _ _ _ _ p (fun x => buddy_page_set_order x (Z.of_nat n)) I4) as [E5 I5]; [set_solver|auto|].
  destruct (set_meta_inv _ _ _ _ b (fun x => buddy_page_set_order x (Z.of_nat n)) I5) as [E6 I6]; [set_solver|auto|].
  cbn [bmem areas] in *.
  match type of I6 with binv ?s _ _ _ => set (st6 := s) in * end.
  assert (p <> b) as Hpb by (unfold b; lia).
  assert (tagf (metaof (bmem st6) p) = PAGE_TAG_BUDDY /\ orderf (metaof (bmem st6) p) = Z.of_nat n) as [T6 O6].
  { unfold st6. cbn [bmem]. rewrite !metaof_put_meta. repeat case_decide; try done.
    split; [etrans; [|exact T1]; by fields|]. fields. by rewrite order_wrap by lia. }
  assert (tagf (metaof (bmem st6) b) = PAGE_TAG_BUDDY /\ orderf (metaof (bmem st6) b) = Z.of_nat n) as [T7 O7].
  { unfold st6. cbn [bmem]. rewrite !metaof_put_meta. repeat case_decide; try done.
    split; [by fields|]. fields. by rewrite order_wrap by lia. }
  destruct (push_inv _ _ _ _ I6 n p []) as (st7 & E7 & I7 & L7 & HT7 & HO7); try done; [|set_solver..|].
  { rewrite list_lookup_insert_ne by lia. done. }
  assert (n < length Ls)%nat as Hnl by (by eapply lookup_lt_Some).
  destruct (push_inv _ _ _ _ I7 n b [p]) as (st8 & E8 & I8 & L8 & _ & _).
  { by rewrite list_lookup_insert_eq by (rewrite length_insert; lia). }
  { clear -Hpb. set_solver. }
  { clear -Hpb. set_solver. }
  { by rewrite HT7. }
  { by rewrite HO7. }
  exists st8. split; [|split].
  - cbn [split_loop]. destruct (Z.ltb_spec (Z.of_nat order) (Z.of_nat (S n))); [|lia].
    rewrite E1, bind_Ok. cbn [fst snd].
    rewrite assert_tag_Ok by (apply I1 || done || (rewrite L1; lia)). rewrite bind_Ok.
    replace (Z.of_nat (S n) - 1) with (Z.of_nat n) by lia. cbn zeta.
    rewrite BIT_pow by lia. fold (sz n) b. rewrite wrap_small by (unfold in_u, b; lia).
    rewrite page_for_pfn_Some by (rewrite L1; unfold b; lia).
    rewrite E3, bind_Ok, E4, bind_Ok, E5, bind_Ok, E6, bind_Ok, E7, bind_Ok, E8, bind_Ok. done.
  - cbn [app] in I8. rewrite list_insert_insert_eq in I8.
    replace (({[(p, n); (b, n)]} ∪ A) ∖ {[(p, n)]} ∖ {[(b, n)]}) with A in I8 by (clear -N2 N3; set_solver).
    replace (({[b]} ∪ ({[p]} ∪ ∅)) ∖ {[p]} ∖ {[b]}) with (∅ : gset Z) in I8 by (clear; set_solver).
    done.
  - rewrite L8, L7. done.
Qed.

(** The free lists after splitting the head [p] of list [cur] (rest [l]) down to
    [order] and taking [p]: the upper halves stay, one per order. *)
Record carved (Ls Ls' : list (list Z)) (p : Z) (l : list Z) (order cur : nat) : Prop := mkCarved {
  cv_top : Ls' !! cur = Some l;
  cv_mid : forall j, (order <= j < cur)%nat -> Ls' !! j = Some [p + sz j];
  cv_out : forall j, (j < order \/ cur < j)%nat -> Ls' !! j = Ls !! j;
}.

Lemma split_loop_spec A order : forall d fuel st Ls p l,
  (d < fuel)%nat -> binv st Ls A ∅ -> Ls !! (order + d)%nat = Some (p :: l) ->
  (forall j, (order <= j < order + d)%nat -> Ls !! j = Some []) ->
  exists st' Ls' r,
    split_loop fuel st (Z.of_nat (order + d)) (Z.of_nat order) = Ok (st', true) /\
    binv st' Ls' A ∅ /\ Ls' !! order = Some (p :: r) /\
    last_pfn (bmem st') = last_pfn (bmem st) /\
    carved Ls (<[order := r]> Ls') p l order (order + d).
Proof.
  induction d as [|d IH]; intros fuel st Ls p l Hf I Hl He; (destruct fuel as [|fuel]; [lia|]).
  - rewrite Nat.add_0_r in *. exists st, Ls, l. cbn [split_loop].
    assert (order < length Ls)%nat as Ho by (by eapply lookup_lt_Some).
    rewrite Z.ltb_irrefl. split_and!; try done. constructor.
    + by apply list_lookup_insert_eq.
    + lia.
    + intros j Hj. apply list_lookup_insert_ne. lia.
  - replace (order + S d)%nat with (S (order + d)) in * by lia.
    destruct (split_step fuel st Ls A p (order + d) l order) as (st1 & E & I1 & L1);
      [done|done|by apply He; lia|lia|].
    set (Ls1 := <[(order + d)%nat := [p; p + sz (order + d)]]> (<[S (order + d) := l]> Ls)) in *.
    assert (S (order + d) < length Ls)%nat as Ho by (by eapply lookup_lt_Some).
    assert (Ls1 !! (order + d)%nat = Some [p; p + sz (order + d)]) as H1.
    { apply list_lookup_insert_eq. rewrite length_insert. lia. }
    assert (Ls1 !! S (order + d) = Some l) as H2.
    { unfold Ls1. rewrite list_lookup_insert_ne by lia. by apply list_lookup_insert_eq. }
    assert (forall j, j <> (order + d)%nat -> j <> S (order + d) -> Ls1 !! j = Ls !! j) as H3.
    { intros. unfold Ls1. by rewrite !list_lookup_insert_ne by lia. }
    destruct (IH fuel st1 Ls1 p [p + sz (order + d)]) as (st' & Ls' & r & E' & I' & Hr & L' & C); try done.
    { lia. } { intros j Hj. rewrite H3 by lia. apply He. lia. }
    exists st', Ls', r. rewrite E. split_and!; try done; [congruence|]. constructor.
    + rewrite (cv_out _ _ _ _ _ _ C) by lia. done.
    + intros j Hj. destruct (decide (j = order + d)%nat) as [->|]; [apply C|apply C; lia].
    + intros j Hj. rewrite (cv_out _ _ _ _ _ _ C) by lia. apply H3; lia.
Qed.

(** Taking the block: pop it, check and clear its tag. *)
Lemma untag_inv st Ls A p o :
  binv st Ls ({[(p, o)]} ∪ A) {[p]} ->
  let m' := put_meta (bmem st) p (fset 0 3 (metaof (bmem st) p) PAGE_TAG_NONE) in
  buddy_page_untag (bmem st) (Some p) = Ok m' /\
  binv (mkBuddy m' (areas st)) Ls ({[(p, o)]} ∪ A) ∅.
Proof.
  intros I m'.
  destruct (set_meta_inv st Ls _ _ p (fun x => page_set_tag x PAGE_TAG_NONE) I) as [E HI]; [set_solver| |].
  { intros x Hx. rewrite page_set_tag_field. by apply fset_range. }
  rewrite page_set_tag_field in HI. fold m' in HI. split.
  { revert E. unfold set_meta. cbn [buddy_page_untag].
    destruct (upd_meta _ _ _); cbn; [|done..]. rewrite page_set_tag_field. by intros [= ->]. }
  assert (metaof m' p = fset 0 3 (metaof (bmem st) p) PAGE_TAG_NONE) as Em.
  { unfold m'. by rewrite metaof_put_meta, decide_True. }
  constructor; try apply HI; cbn [bmem].
  - intros q k Hq _. destruct (decide (q = p)) as [->|]; [rewrite Em; by fields|].
    by apply (bi_alloc _ _ _ _ HI q k); [|set_solver].
  - set_solver.
  - intros q Hr _ Ht Hfr. destruct (decide (q = p)) as [->|].
    + rewrite Em in Ht. revert Ht. by fields.
    + apply (bi_stale _ _ _ _ HI); [done|set_solver|done|done].
Qed.

(** The halves left on the lists and the block taken make up the block split. *)
Lemma halves p order cur x :
  (order <= cur)%nat ->
  p <= x < p + sz cur <->
  p <= x < p + sz order \/ exists j, (order <= j < cur)%nat /\ p + sz j <= x < p + sz j + sz j.
Proof.
  intros Hle. induction Hle as [|cur Hle IH].
  - split; [by left|]. intros [?|(j & ? & _)]; [done|lia].
  - pose proof (sz_S cur). pose proof (sz_pos cur). pose proof (sz_le order cur Hle). split.
    + intros Hx. destruct (decide (x < p + sz cur)) as [Hlt|].
      * destruct (proj1 IH) as [?|(j & ? & ?)]; [lia|by left|]. right. exists j. split; [lia|done].
      * right. exists cur. split; lia.
    + intros [?|(j & Hj & ?)]; [lia|]. pose proof (sz_pos j). pose proof (sz_S j).
      pose proof (sz_le (S j) (S cur) ltac:(lia)). lia.
Qed.

Lemma carved_cover Ls Ls' A p l order cur :
  (order <= cur)%nat -> Ls !! cur = Some (p :: l) -> carved Ls Ls' p l order cur ->
  (forall j, (order <= j < cur)%nat -> Ls !! j = Some []) ->
  same_cover (blocks Ls A) (blocks Ls' ({[(p, order)]} ∪ A)).
Proof.
  intros Hle Hl [C1 C2 C3] He x. split.
  - intros (q & k & [(r & Hr & Hq)|HA] & Hx); [|exists q, k; split; [right; set_solver|done]].
    destruct (decide (k = cur)) as [->|Hk].
    + assert (r = p :: l) as -> by congruence. apply elem_of_cons in Hq as [->|Hq].
      * apply (halves p order cur x Hle) in Hx as [Hx|(j & Hj & Hx)].
        { exists p, order. split; [right; set_solver|done]. }
        exists (p + sz j), j. split; [|done]. left. eexists. split; [by apply C2|constructor].
      * exists q, cur. split; [|done]. left. by exists l.
    + destruct (decide (order <= k < cur)%nat) as [Hj|Hj].
      { rewrite He in Hr by done. injection Hr as <-. by apply not_elem_of_nil in Hq. }
      exists q, k. split; [|done]. left. exists r. rewrite C3 by lia. done.
  - intros (q & k & [(r & Hr & Hq)|HA] & Hx).
    + destruct (decide (k = cur)) as [->|Hk].
      { exists q, cur. split; [|done]. left. exists (p :: l). split; [done|]. constructor. congruence. }
      destruct (decide (order <= k < cur)%nat) as [Hj|Hj].
      * rewrite C2 in Hr by done. injection Hr as <-. apply list_elem_of_singleton in Hq as ->.
        exists p, cur. split; [left; exists (p :: l); split; [done|constructor]|].
        apply (halves p order cur x Hle). right. by exists k.
      * exists q, k. split; [|done]. left. exists r. rewrite <- C3 by lia. done.
    + apply elem_of_union in HA as [[= -> ->]%elem_of_singleton|HA]; [|exists q, k; split; [by right|done]].
      exists p, cur. split; [left; exists (p :: l); split; [done|constructor]|].
      apply (halves p order cur x Hle). by left.
Qed.

Lemma alloc_spec st Ls A count order cur p l :
  binv st Ls A ∅ -> 1 <= count <= 2 ^ 63 -> Z.log2_up count = Z.of_nat order ->
  (order <= cur < 18)%nat -> Ls !! cur = Some (p :: l) ->
  (forall j, (order <= j < cur)%nat -> Ls !! j = Some []) ->
  exists st' Ls', buddy_alloc_pages st count = Ok (st', p * PAGE_SIZE) /\
    binv st' Ls' ({[(p, order)]} ∪ A) ∅ /\ carved Ls Ls' p l order cur /\
    last_pfn (bmem st') = last_pfn (bmem st).
Proof.
  intros I Hc Ho Hcur Hl He. unfold buddy_alloc_pages. destruct (Z.eqb_spec count 0); [lia|].
  rewrite block_order, bind_Ok, Ho by done. unfold BUDDY_MAX_ORDER.
  destruct (Z.leb_spec 18 (Z.of_nat order)); [lia|].
  rewrite (find_order_spec st Ls A ∅ 19 order cur) by (done || lia || eauto). rewrite bind_Ok.
  destruct (Z.leb_spec 18 (Z.of_nat cur)); [lia|].
  destruct (split_loop_spec A order (cur - order) 19 st Ls p l) as (st1 & L1 & r & E1 & I1 & Hr & La1 & C);
    replace (order + (cur - order))%nat with cur in * by lia; [lia|done..|].
  rewrite E1, bind_Ok. cbn [negb fst snd].
  destruct (pop_inv st1 L1 A ∅ I1 order p r Hr) as (st2 & E2 & I2 & La2 & T2).
  rewrite E2, bind_Ok. cbn [fst snd]. rewrite (right_id_L ∅ (∪)) in I2.
  destruct (block_page _ _ _ _ I2 p order) as [Hp _].
  { right. by apply elem_of_union_l, elem_of_singleton. }
  pose proof (wf_last _ (bi_wf _ _ _ _ I2)).
  rewrite assert_tag_Ok by (apply I2 || done || lia). rewrite bind_Ok.
  destruct (untag_inv st2 _ A p order I2) as [E3 I3]. rewrite E3, bind_Ok.
  eexists _, _. split; [|split; [exact I3|split; [done|]]].
  - unfold PFN_TO_PAGE, PAGE_SIZE. rewrite wrap_small by (unfold in_u; lia). done.
  - cbn [bmem]. change (last_pfn (put_meta ?m _ _)) with (last_pfn m). congruence.
Qed.

(** ** Buddies *)

(** The buddy of an aligned block is its other half in the block of the next
    order. *)
Lemma buddy_cases p o :
  (sz o | p) ->
  let b := Z.lxor p (sz o) in
  (b = p + sz o /\ (sz (S o) | p)) \/ (p = b + sz o /\ (sz (S o) | b)).
Proof.
  intros [k ->]. cbn zeta.
  assert (forall j, Z.lxor (j * sz (S o)) (sz o) = j * sz (S o) + sz o) as He.
  { intros j. symmetry. apply Z.add_nocarry_lxor. unfold sz.
    rewrite <- !Z.shiftl_mul_pow2 by lia. apply Z.bits_inj'. intros i Hi.
    rewrite Z.land_spec, Z.testbit_0_l, testbit_pow2 by lia.
    destruct (Z.eqb_spec i (Z.of_nat o)) as [->|]; [|apply andb_false_r].
    rewrite Z.shiftl_spec, Z.testbit_neg_r by lia. done. }
  pose proof (sz_S o) as HS. destruct (Z.even k) eqn:Ev.
  - apply Z.even_spec in Ev as [j ->]. left.
    replace (2 * j * sz o) with (j * sz (S o)) by lia. split; [apply He|by apply Z.divide_factor_r].
  - assert (Z.odd k = true) as Od by (by rewrite <- Z.negb_even, Ev).
    apply Z.odd_spec in Od as [j ->]. right.
    replace ((2 * j + 1) * sz o) with (j * sz (S o) + sz o) by lia.
    rewrite <- He, Z.lxor_assoc, Z.lxor_nilpotent, Z.lxor_0_r, He.
    split; [lia|by apply Z.divide_factor_r].
Qed.

Lemma fset_id lo n x v :
  0 <= lo -> 0 <= n -> lo + n <= 64 -> in_u 64 x -> fget lo n x = wrap n v -> fset lo n x v = x.
Proof.
  intros Hlo Hn H64 Hx E. unfold fset. rewrite <- E. unfold fget. rewrite not_w_alt by lia.
  rewrite <- (wrap_small 64 x Hx) at 3. rewrite <- (wrap_small 64 x Hx) at 1. zbits.
Qed.

(** Tagging a page that has the tag changes nothing. *)
Lemma tag_again m p :
  mem_wf m -> 0 <= p < last_pfn m -> tagf (metaof m p) = PAGE_TAG_BUDDY ->
  buddy_page_tag m (Some p) = Ok m.
Proof.
  intros Hw Hp Ht. cbn [buddy_page_tag]. rewrite upd_meta_Ok by done. f_equal.
  rewrite page_set_tag_field, fset_id; try lia; [|by apply metaof_range|done].
  unfold put_meta, metaof. destruct (wf_meta m Hw p Hp) as (x & E & _). rewrite E. cbn.
  rewrite insert_id by done. by destruct m.
Qed.

(** The buddy test of [buddy_free_pages] is sound: a page whose metadata says
    "free, of this order" at the buddy's place is on the free list, stale
    metadata cannot pass it. *)
Lemma buddy_listed st Ls B p o :
  binv st Ls B {[p]} -> (p, o) ∈ B ->
  let b := Z.lxor p (sz o) in
  0 <= b < last_pfn (bmem st) ->
  tagf (metaof (bmem st) b) = PAGE_TAG_BUDDY -> freef (metaof (bmem st) b) = 1 ->
  orderf (metaof (bmem st) b) = Z.of_nat o -> free Ls b o.
Proof.
  intros I HB b Hb Ht Hf Ho. pose proof (sz_pos o) as Hs. pose proof (sz_S o) as HS.
  destruct (til_geo _ _ (bi_til _ _ _ _ I) p o (or_intror HB)) as (G1 & G2 & G3 & G4).
  pose proof (buddy_cases p o G2) as Hc. cbn zeta in Hc. fold b in Hc.
  assert (b ∉ ({[p]} : gset Z)) as Hbp by (intros ->%elem_of_singleton; lia).
  destruct (bi_stale _ _ _ _ I b Hb Hbp Ht Hf) as [[k Hk]|(n & q & k & Hn & _ & Hq & Hk & Hin)].
  - destruct (bi_hdr _ _ _ _ I k b Hk) as (_ & _ & E). by replace o with k by lia.
  - exfalso. assert (n = o) as -> by lia.
    destruct (til_geo _ _ (bi_til _ _ _ _ I) q k Hq) as (_ & D & _ & _).
    assert (sz (S o) | sz k) as Dk by (apply sz_divide; lia).
    assert (sz (S o) | q) as Dq by (by etrans).
    assert (sz (S o) | q + sz k) as Dq' by (by apply Z.divide_add_r).
    assert (0 < sz (S o)) as HSp by apply sz_pos.
    destruct (til_disj _ _ (bi_til _ _ _ _ I) q k p o Hq (or_intror HB)) as [[_ ->]|Hd]; [lia|].
    destruct Hc as [[E Dp]|[E Db]].
    + destruct (decide (p < q)); [|lia]. pose proof (divide_lt_add _ p q HSp Dp Dq). lia.
    + pose proof (divide_lt_add _ b (q + sz k) HSp Db Dq'). lia.
Qed.

(** No two buddies are both on their free list. *)
Definition coalesced (Ls : list (list Z)) : Prop :=
  forall p o, (o < 17)%nat -> free Ls p o -> ~ free Ls (Z.lxor p (sz o)) o.

Lemma covers_merge blk blk' p n :
  blk p n -> blk (p + sz n) n ->
  (forall q k, blk' q k <->
     (blk q k /\ (q, k) <> (p, n) /\ (q, k) <> (p + sz n, n)) \/ (q, k) = (p, S n)) ->
  same_cover blk blk'.
Proof.
  intros H1 H2 Hb x. pose proof (sz_pos n). pose proof (sz_S n). split.
  - intros (q & k & Hq & Hx).
    destruct (decide ((q, k) = (p, n) \/ (q, k) = (p + sz n, n))) as [Hor|Hne].
    + exists p, (S n). split; [apply Hb; by right|]. destruct Hor as [[= -> ->]|[= -> ->]]; lia.
    + exists q, k. split; [apply Hb; left; tauto|done].
  - intros (q & k & [(Hq & _)|[= -> ->]]%Hb & Hx); [by exists q, k|].
    destruct (decide (x < p + sz n)); [exists p, n; split; [done|lia]|].
    exists (p + sz n), n. split; [done|lia].
Qed.
