(* ===== verification/BuddyInit.v ===== *)
(** * Setting up the buddy allocator

    Models [kernel/mem/buddy/init.c]: the page array is carved out of the first
    large enough memory-map entry, and every usable entry is cut into aligned
    blocks that go to the free lists.  [buddy_init_correct] shows that this
    establishes the allocator's invariant, and that only usable pages that the
    boot bitmap has free, and none of the page array, become free blocks. *)

From S2P Require Import Prelude BitMath BuddyPage Bitmap Buddy.

(** ** The code *)

Fixpoint pfn_usable_from_memmap (memmap : list limine_memmap_entry) (pfn : Z) : outcome bool :=
  match memmap with
  | [] => Ok false
  | entry :: es =>
      if negb (type entry =? LIMINE_MEMMAP_USABLE) then pfn_usable_from_memmap es pfn else
      let addr := u64 (pfn * PAGE_SIZE) in
      start ← ALIGN_DOWN (base entry) PAGE_SIZE;
      end_ ← ALIGN_UP (u64 (base entry + elength entry)) PAGE_SIZE;
      if (start <=? addr) && (addr <? end_) then Ok true else pfn_usable_from_memmap es pfn
  end.

(** [for (i = 0; i < pages; i++)] of [is_block_free]. *)
Fixpoint pages_free (n : nat) (bm : list Z) (memmap : list limine_memmap_entry) (cur_pfn : Z)
    : outcome bool :=
  match n with
  | O => Ok true
  | S n' =>
      if cur_pfn <? to_bits BOOT_BITMAP_SIZE then
        used ← test_bit bm cur_pfn;
        if used : bool then Ok false else pages_free n' bm memmap (u64 (cur_pfn + 1))
      else
        usable ← pfn_usable_from_memmap memmap cur_pfn;
        if negb usable then Ok false else pages_free n' bm memmap (u64 (cur_pfn + 1))
  end.

Definition is_block_free (bm : list Z) (memmap : list limine_memmap_entry) (pfn order : Z)
    : outcome bool :=
  pages_free (Z.to_nat (BIT order)) bm memmap pfn.

Definition order_base_2 (x : Z) : outcome Z := z ← clzll x; Ok (i32 (64 - z - 1)).

(** [while (!IS_ALIGNED(region_start, block_size) && order > 0)]. *)
Fixpoint align_order (fuel : nat) (region_start order : Z) : outcome Z :=
  match fuel with
  | O => Fault
  | S f =>
      aligned ← IS_ALIGNED region_start (BIT order);
      if negb aligned && (0 <? order) then align_order f region_start (order - 1) else Ok order
  end.

(** Put the free block of [order] at [pfn] on its list. *)
Definition seed_block (st : buddy) (pfn order : Z) : outcome buddy :=
  let page := page_for_pfn (bmem st) pfn in
  m ← buddy_page_tag (bmem st) page;
  let st := mkBuddy m (areas st) in
  st ← set_meta st page (fun x => buddy_page_set_order x order);
  st ← set_meta st page (fun x => buddy_page_set_free x true);
  st ← set_meta st page (fun x => buddy_page_set_next_pfn x 0);
  add_to_area st page order.

(** [while (region_size > 0)] of [buddy_add_entry]; every round takes at least
    one page, so [region_size] rounds are enough. *)
Fixpoint add_region (fuel : nat) (st : buddy) (bm : list Z) (memmap : list limine_memmap_entry)
    (region_start region_size : Z) : outcome buddy :=
  if region_size <=? 0 then Ok st else
  match fuel with
  | O => Fault
  | S f =>
      o ← order_base_2 region_size;
      order ← align_order 19 region_start (Z.min o (BUDDY_MAX_ORDER - 1));
      let block_size := Z.min (BIT order) region_size in
      fr ← is_block_free bm memmap region_start order;
      st ← (if fr : bool then seed_block st region_start order else Ok st);
      add_region f st bm memmap (u64 (region_start + block_size)) (u64 (region_size - block_size))
  end.

Definition buddy_add_entry (st : buddy) (bm : list Z) (memmap : list limine_memmap_entry)
    (entry : limine_memmap_entry) : outcome buddy :=
  if negb (type entry =? LIMINE_MEMMAP_USABLE) then Ok st else
  start ← ALIGN_UP (base entry) PAGE_SIZE;
  end_ ← ALIGN_DOWN (u64 (base entry + elength entry)) PAGE_SIZE;
  if end_ <=? start then Ok st else
  let region_size := (end_ - start) `div` PAGE_SIZE in
  add_region (Z.to_nat region_size) st bm memmap (start `div` PAGE_SIZE) region_size.

(** [mid_init_buddy]: the page array's place, the bitmap with its pages marked
    and the memory map with the entry shortened. *)
Fixpoint mid_init_buddy (pages_needed : Z) (bm : list Z) (memmap : list limine_memmap_entry)
    : outcome (Z * list Z * list limine_memmap_entry) :=
  match memmap with
  | [] => Panic
  | entry :: es =>
      let skip :=
        r ← mid_init_buddy pages_needed bm es;
        Ok (r.1.1, r.1.2, entry :: r.2) in
      if negb (type entry =? LIMINE_MEMMAP_USABLE) then skip else
      start ← ALIGN_UP (base entry) PAGE_SIZE;
      end_ ← ALIGN_DOWN (u64 (base entry + elength entry)) PAGE_SIZE;
      let run_len := if start <? end_ then (end_ - start) `div` PAGE_SIZE else 0 in
      if pages_needed <=? run_len then
        bm ← set_bits (Z.to_nat pages_needed) bm (start `div` PAGE_SIZE);
        let base' := u64 (start + pages_needed * PAGE_SIZE) in
        Ok (start, bm, mkEntry base' (u64 (end_ - base')) (type entry) :: es)
      else skip
  end.

Definition sizeof_page : Z := 8.

Fixpoint add_entries (st : buddy) (bm : list Z) (memmap es : list limine_memmap_entry)
    : outcome buddy :=
  match es with
  | [] => Ok st
  | e :: es' => st ← buddy_add_entry st bm memmap e; add_entries st bm memmap es'
  end.

(** A zeroed page array over the memory's old contents. *)
Definition zero_mem (last : Z) (old : Z -> option Z) : buddy_mem :=
  mkMem (list_to_map ((fun p => (p, 0)) <$> seqZ 0 last))
        (list_to_map ((fun p => (p, old p)) <$> seqZ 0 last)) last.

(** [old] is what the first word of each page holds before it is a free page. *)
Definition buddy_init (last : Z) (old : Z -> option Z) (bm : list Z)
    (memmap : list limine_memmap_entry) : outcome (buddy * Z) :=
  pages_needed ← DIV_ROUND_UP (u64 (sizeof_page * last)) PAGE_SIZE;
  r ← mid_init_buddy pages_needed bm memmap;
  let '(page_array, bm, memmap) := r in
  let st := mkBuddy (zero_mem last old)
                    (replicate (Z.to_nat BUDDY_MAX_ORDER) (mkArea None None 0)) in
  st ← add_entries st bm memmap memmap;
  Ok (st, page_array).

(** ** Adding a block *)

#[local] Hint Resolve sz_pos set_order_range set_next_range : core.

Lemma set_free_range b x : in_u 64 x -> in_u 64 (buddy_page_set_free x b).
Proof. intros. rewrite set_free_field. by apply fset_range. Qed.
#[local] Hint Resolve set_free_range : core.

(** A block that overlaps none of the allocator's. *)
Record fits (st : buddy) (Ls : list (list Z)) (p : Z) (o : nat) : Prop := mkFits {
  fit_pos : 0 < p;
  fit_align : (sz o | p);
  fit_last : p + sz o <= last_pfn (bmem st);
  fit_order : (o < 18)%nat;
  fit_disj : forall q k, free Ls q k -> p + sz o <= q \/ q + sz k <= p;
}.

Lemma binv_new st Ls p o :
  binv st Ls ∅ ∅ -> fits st Ls p o -> binv st Ls {[(p, o)]} {[p]}.
Proof.
  intros I F. pose proof (sz_pos o) as Hs. assert (forall k, ~ free Ls p k) as Hnf.
  { intros k Hf. pose proof (sz_pos k). destruct (fit_disj _ _ _ _ F p k Hf); lia. }
  constructor; try apply I.
  - constructor.
    + intros q k [Hf|[= -> ->]%elem_of_singleton]; [|by split_and!; apply F].
      apply (til_geo _ _ (bi_til _ _ _ _ I)). by left.
    + intros q k r j [Hq|[= -> ->]%elem_of_singleton] [Hr|[= -> ->]%elem_of_singleton].
      * apply (til_disj _ _ (bi_til _ _ _ _ I)); by left.
      * destruct (fit_disj _ _ _ _ F q k Hq); lia.
      * destruct (fit_disj _ _ _ _ F r j Hr); lia.
      * by left.
  - intros q k [= -> ->]%elem_of_singleton. apply Hnf.
  - intros q k [= -> ->]%elem_of_singleton Hn. destruct Hn. by apply elem_of_singleton.
  - intros q ->%elem_of_singleton. exists o. by apply elem_of_singleton.
  - intros q Hr Hq Ht Hf. destruct (bi_stale _ _ _ _ I q Hr (not_elem_of_empty q) Ht Hf)
      as [?|(n & p' & k & ? & ? & [Hb|Hb%not_elem_of_empty] & ? & ?)]; [by left| |done].
    right. exists n, p', k. split_and!; try done; try lia. by left.
Qed.

Lemma seed_block_inv st Ls p o :
  binv st Ls ∅ ∅ -> fits st Ls p o ->
  exists st' l, seed_block st p (Z.of_nat o) = Ok st' /\ Ls !! o = Some l /\
    binv st' (<[o := l ++ [p]]> Ls) ∅ ∅ /\ last_pfn (bmem st') = last_pfn (bmem st).
Proof.
  intros I F. pose proof (binv_new _ _ _ _ I F) as I0. destruct F as [F1 F2 F3 F4 F5].
  pose proof (sz_pos o) as Hs. assert (p ∈ ({[p]} : gset Z)) as Hp by (by apply elem_of_singleton).
  destruct (tag_inv _ _ _ _ p I0 Hp) as [E1 I1].
  destruct (set_meta_inv _ _ _ _ p (fun x => buddy_page_set_order x (Z.of_nat o)) I1 Hp) as [E2 I2]; [auto|].
  destruct (set_meta_inv _ _ _ _ p (fun x => buddy_page_set_free x true) I2 Hp) as [E3 I3]; [auto|].
  destruct (set_meta_inv _ _ _ _ p (fun x => buddy_page_set_next_pfn x 0) I3 Hp) as [E4 I4]; [auto|].
  cbn [bmem areas] in *. match type of I4 with binv ?s _ _ _ => set (st4 := s) in * end.
  destruct (area_list _ _ _ _ I4 o F4) as (_ & l & _ & Hl & _ & _).
  destruct (push_inv _ _ _ _ I4 o p l) as (st5 & E5 & I5 & L5 & _ & _); try done.
  { by apply elem_of_singleton. }
  { unfold st4. cbn [bmem]. rewrite !metaof_put_meta, !decide_True by done. by fields. }
  { unfold st4. cbn [bmem]. rewrite !metaof_put_meta, !decide_True by done. fields. by apply order_wrap. }
  exists st5, l. rewrite !difference_diag_L in I5. split_and!; try done.
  unfold seed_block. rewrite page_for_pfn_Some by lia. cbn zeta.
  rewrite E1, bind_Ok. rewrite E2, bind_Ok, E3, bind_Ok, E4, bind_Ok. done.
Qed.

(** ** Checking a block *)

(** The page may be handed to the buddy allocator. *)
Definition boot_free (bm : list Z) (memmap : list limine_memmap_entry) (j : Z) : Prop :=
  if decide (j < NBITS) then bget bm j = false else exists e, e ∈ memmap /\ usable_page e j.

Lemma pfn_usable_spec memmap j :
  Forall entry_ok memmap -> 0 <= j < 2 ^ 52 ->
  exists b, pfn_usable_from_memmap memmap j = Ok b /\
    (b = true <-> exists e, e ∈ memmap /\ usable_page e j).
Proof.
  intros Hok Hj. induction memmap as [|e es IH]; cbn [pfn_usable_from_memmap].
  { exists false. split; [done|]. split; [done|]. by intros (e & ?%elem_of_nil & _). }
  apply list.Forall_cons in Hok as [He Hok]. destruct (IH Hok) as (b & Eb & Hb).
  assert (~ usable_page e j -> b = true <-> exists e', e' ∈ e :: es /\ usable_page e' j) as Hb'.
  { intros Hn. rewrite Hb. setoid_rewrite elem_of_cons. naive_solver. }
  destruct (Z.eqb_spec (type e) LIMINE_MEMMAP_USABLE) as [Et|Et]; cbn [negb]; [|exists b; split; [done|]; apply Hb'; by intros [? _]].
  destruct (entry_bounds e He) as [-> ->]. rewrite !bind_Ok. cbn zeta.
  assert (u64 (j * PAGE_SIZE) = j * PAGE_SIZE) as -> by (apply wrap_small; unfold in_u, PAGE_SIZE; lia).
  destruct ((_ <=? _) && _) eqn:E.
  - exists true. split; [done|]. split; [intros _|done]. exists e. split; [constructor|]. split; [done|].
    unfold PAGE_SIZE in *. lia.
  - exists b. split; [done|]. apply Hb'. intros [_ ?]. unfold PAGE_SIZE in *. lia.
Qed.

Lemma pages_free_spec bm memmap (Hwf : bm_wf bm) (Hok : Forall entry_ok memmap) : forall n p,
  0 <= p -> p + Z.of_nat n <= 2 ^ 52 ->
  exists b, pages_free n bm memmap p = Ok b /\
    (b = true <-> forall j, p <= j < p + Z.of_nat n -> boot_free bm memmap j).
Proof.
  induction n as [|n IH]; intros p Hp Hb; cbn [pages_free].
  - exists true. split; [done|]. split; [|done]. intros _ j Hj. lia.
  - rewrite wrap_small by (unfold in_u; lia).
    destruct (IH (p + 1)) as (b & Eb & HIH); [lia|lia|].
    change (to_bits BOOT_BITMAP_SIZE) with NBITS.
    assert (boot_free bm memmap p -> b = true <-> forall j, p <= j < p + Z.of_nat (S n) -> boot_free bm memmap j) as Hstep.
    { intros H0. rewrite HIH. split; intros H1 j Hj; [|apply H1; lia]. destruct (decide (j = p)) as [->|]; [done|]. apply H1. lia. }
    assert (~ boot_free bm memmap p -> false = true <-> forall j, p <= j < p + Z.of_nat (S n) -> boot_free bm memmap j) as Hno.
    { intros H0. split; [done|]. intros H1. destruct H0. apply H1. lia. }
    destruct (Z.ltb_spec p NBITS).
    + rewrite test_bit_Ok, bind_Ok by done. destruct (bget bm p) eqn:E; [exists false|exists b]; (split; [done|]); [apply Hno|apply Hstep]; unfold boot_free; rewrite decide_True by done; congruence.
    + destruct (pfn_usable_spec memmap p Hok) as (u & -> & Hu); [lia|]. rewrite bind_Ok.
      destruct u; cbn [negb]; [exists b|exists false]; (split; [done|]); [apply Hstep|apply Hno]; unfold boot_free; rewrite decide_False by lia; rewrite <- Hu; done.
Qed.

Lemma align_order_spec fuel rs o :
  (o < 18)%nat -> (o < fuel)%nat -> 0 <= rs ->
  exists o', align_order fuel rs (Z.of_nat o) = Ok (Z.of_nat o') /\ (o' <= o)%nat /\ (sz o' | rs).
Proof.
  revert o. induction fuel as [|f IH]; intros o Ho Hf Hrs; [lia|]. cbn [align_order].
  unfold IS_ALIGNED. rewrite BIT_pow by lia.
  rewrite IS_POW2_pow by lia. cbn [enforce]. rewrite !bind_Ok.
  rewrite land_pred_pow2 by lia. fold (sz o).
  destruct (Z.eqb_spec (rs `mod` sz o) 0) as [E|E]; cbn [negb andb].
  - exists o. split_and!; try done. apply Z.mod_divide; [pose proof (sz_pos o); lia|done].
  - destruct (Z.ltb_spec 0 (Z.of_nat o)) as [Hpos|Hpos].
    + replace (Z.of_nat o - 1) with (Z.of_nat (pred o)) by lia.
      destruct (IH (pred o)) as (o' & -> & Hle & Hd); [lia..|]. exists o'. split_and!; try done. lia.
    + assert (o = 0%nat) as -> by lia. exists 0%nat. split_and!; try done. apply Z.divide_1_l.
Qed.

Lemma order_base_2_spec x :
  0 < x < 2 ^ 64 -> order_base_2 x = Ok (Z.log2 x).
Proof.
  intros Hx. unfold order_base_2, clzll. destruct (Z.eqb_spec x 0); [lia|]. rewrite bind_Ok. f_equal.
  assert (0 <= Z.log2 x < 64) by (split; [apply Z.log2_nonneg|apply Z.log2_lt_pow2; lia]).
  rewrite sgn_small; [lia|lia|]. unfold in_s. lia.
Qed.

(** ** Regions *)

Definition free_cover (Ls : list (list Z)) (x : Z) : Prop := covers (free Ls) x.

(** The largest block, of which a page is part. *)
Definition same_block (x y : Z) : Prop := x `div` sz 17 = y `div` sz 17.
(** What adding the pages [want] does to the allocator, when those that [ok] says may
    be handed to it: only such pages become free, and all pages of [want] do when the
    others in the same largest block are such pages, too. *)
Record region_added (st st' : buddy) (Ls Ls' : list (list Z)) (want ok : Z -> Prop) : Prop := mkAdded {
  ra_inv : binv st' Ls' ∅ ∅;
  ra_last : last_pfn (bmem st') = last_pfn (bmem st);
  ra_old : forall q k, free Ls q k -> free Ls' q k;
  ra_new : forall q k, free Ls' q k -> free Ls q k \/ forall x, q <= x < q + sz k -> want x /\ ok x;
  ra_all : forall x, want x -> (forall y, want y -> same_block x y -> ok y) -> free_cover Ls' x;
}.

Lemma region_added_refl st Ls (want ok : Z -> Prop) : (forall x, ~ want x) -> binv st Ls ∅ ∅ -> region_added st st Ls Ls want ok.
Proof. intros Hw ?. constructor; eauto. by intros x ?%Hw. Qed.

Lemma region_added_trans st1 st2 st3 L1 L2 L3 (w1 w2 want ok : Z -> Prop) :
  (forall x, want x <-> w1 x \/ w2 x) ->
  region_added st1 st2 L1 L2 w1 ok -> region_added st2 st3 L2 L3 w2 ok -> region_added st1 st3 L1 L3 want ok.
Proof.
  intros Hw [A1 A2 A3 A4 A5] [B1 B2 B3 B4 B5]. constructor; try done; [congruence|eauto|..].
  - intros q k [[Hq|Hq]%A4|Hq]%B4; [by left|right..]; intros x Hx; rewrite Hw; destruct (Hq x Hx); tauto.
  - intros x [Hx|Hx]%Hw Hy; [|apply B5; [done|]; intros y ? ?; apply Hy; [apply Hw; by right|done]].
    destruct (A5 x Hx) as (q & k & Hq & Hqx); [intros y ? ?; apply Hy; [apply Hw; by left|done]|]. exists q, k. split; [by apply B3|done].
Qed.
Lemma region_added_iff st st' Ls Ls' (w want ok : Z -> Prop) : (forall x, want x <-> w x) -> region_added st st' Ls Ls' w ok -> region_added st st' Ls Ls' want ok.
Proof.
  intros Hw [A1 A2 A3 A4 A5]. constructor; try done.
  - intros q k [Hq|Hq]%A4; [by left|right]. intros x Hx. rewrite Hw. by apply Hq.
  - intros x Hx Hy. apply A5; [by apply Hw|]. intros y ?%Hw. by apply Hy.
Qed.
(** A block of a smaller order is within one largest block. *)
Lemma block_same o p x y : (o <= 17)%nat -> (sz o | p) -> p <= x < p + sz o -> p <= y < p + sz o -> same_block x y.
Proof.
  intros Ho [q ->] Hx Hy. unfold same_block. pose proof (sz_pos o).
  assert (sz 17 = sz o * 2 ^ (17 - Z.of_nat o)) as -> by (unfold sz; rewrite <- Z.pow_add_r by lia; f_equal; lia).
  rewrite <- !Z.div_div by (try apply Z.pow_pos_nonneg; lia). 
  assert (forall z, q * sz o <= z < q * sz o + sz o -> z `div` sz o = q) as Hz by (intros z Hz; symmetry; apply (Z.div_unique _ _ _ (z - q * sz o)); lia).
  by rewrite !Hz.
Qed.

Lemma add_region_spec bm memmap (Hwf : bm_wf bm) (Hok : Forall entry_ok memmap) :
  forall fuel st Ls rs size,
  binv st Ls ∅ ∅ -> 0 < rs -> 0 <= size -> size <= Z.of_nat fuel -> rs + size <= last_pfn (bmem st) ->
  (forall x, rs <= x < rs + size -> ~ free_cover Ls x) ->
  exists st' Ls', add_region fuel st bm memmap rs size = Ok st' /\
    region_added st st' Ls Ls' (fun x => rs <= x < rs + size) (boot_free bm memmap).
Proof.
  induction fuel as [|f IH]; intros st Ls rs size I Hrs Hsz Hf Hl Hd; cbn [add_region].
  { destruct (Z.leb_spec size 0); [|lia]. exists st, Ls. split; [done|]. apply region_added_refl; [lia|done]. }
  destruct (Z.leb_spec size 0); [exists st, Ls; split; [done|]; apply region_added_refl; [lia|done]|].
  pose proof (wf_last _ (bi_wf _ _ _ _ I)) as HL.
  rewrite order_base_2_spec, bind_Ok by lia. unfold BUDDY_MAX_ORDER.
  assert (0 <= Z.log2 size) as Hlog by apply Z.log2_nonneg.
  set (o0 := Z.to_nat (Z.log2 size `min` (18 - 1))).
  replace (Z.log2 size `min` (18 - 1)) with (Z.of_nat o0) by (unfold o0; lia).
  destruct (align_order_spec 19 rs o0) as (o & -> & Ho & Hdo); [unfold o0; lia..|].
  rewrite bind_Ok. rewrite BIT_pow by (unfold o0 in *; lia). fold (sz o).
  assert (sz o <= size) as Hso.
  { etrans; [|apply Z.log2_spec; lia]. apply Z.pow_le_mono_r; unfold o0 in *; lia. }
  rewrite Z.min_l by done. pose proof (sz_pos o) as Hs0. unfold is_block_free.
  rewrite BIT_pow by (unfold o0 in *; lia). fold (sz o).
  destruct (pages_free_spec bm memmap Hwf Hok (Z.to_nat (sz o)) rs) as (b & -> & Hb); [lia..|].
  rewrite bind_Ok. rewrite !(wrap_small 64) by (unfold in_u; lia).
  rewrite Z2Nat.id in Hb by lia.
  assert (exists st1 Ls1, (if b then seed_block st rs (Z.of_nat o) else Ok st) = Ok st1 /\
    region_added st st1 Ls Ls1 (fun x => rs <= x < rs + sz o) (boot_free bm memmap)) as (st1 & Ls1 & -> & R1).
  { assert (o <= 17)%nat as Ho17 by (unfold o0 in *; lia). destruct b.
    2: { exists st, Ls. split; [done|]. constructor; eauto. intros x Hx Hy. exfalso. enough (false = true) by done. apply Hb. intros j Hj. apply Hy; [done|]. by apply (block_same o rs). }
    destruct (seed_block_inv st Ls rs o) as (st1 & l & E1 & Hlo & I1 & L1); [done| |].
    { constructor; try done; [lia|unfold o0 in *; lia|]. intros q k Hq.
      destruct (decide (rs + sz o <= q)) as [|N1]; [by left|].
      destruct (decide (q + sz k <= rs)) as [|N2]; [by right|]. exfalso. pose proof (sz_pos k).
      apply (Hd (Z.max rs q)); [lia|]. exists q, k. split; [done|lia]. }
    exists st1, (<[o := l ++ [rs]]> Ls). split; [done|].
    assert (o < length Ls)%nat as Hol by (by eapply lookup_lt_Some).
    assert (forall q k, free (<[o := l ++ [rs]]> Ls) q k <-> free Ls q k \/ (q, k) = (rs, o)) as Hfr.
    { clear -Hol Hlo. intros q k. rewrite free_insert by done. case_decide as Ek; [subst k|naive_solver].
      rewrite (free_lookup _ _ _ _ Hlo), elem_of_app, list_elem_of_singleton. naive_solver. }
    constructor; try done.
    - intros q k Hq. apply Hfr. by left.
    - intros q k [?|[= -> ->]]%Hfr; [by left|]. right. intros x Hx. split; [done|]. by apply Hb.
    - intros x Hx _. exists rs, o. split; [apply Hfr; by right|done]. }
  rewrite bind_Ok.
  destruct (IH st1 Ls1 (rs + sz o) (size - sz o)) as (st' & Ls' & -> & R2); try lia; try apply R1.
  { rewrite (ra_last _ _ _ _ _ _ R1). lia. }
  { intros x Hx (q & k & [Hq|Hq]%(ra_new _ _ _ _ _ _ R1) & Hin); [|destruct (Hq x Hin); lia].
    apply (Hd x); [lia|]. by exists q, k. }
  exists st', Ls'. split; [done|].
  eapply region_added_trans; [|exact R1|exact R2]. cbn. intros x. lia.
Qed.

(** The whole pages of an entry. *)
Definition region (e : limine_memmap_entry) (x : Z) : Prop :=
  type e = LIMINE_MEMMAP_USABLE /\
  (base e + PAGE_SIZE - 1) `div` PAGE_SIZE <= x < (base e + elength e) `div` PAGE_SIZE.

Lemma entry_inner e :
  entry_ok e ->
  ALIGN_UP (base e) PAGE_SIZE = Ok (PAGE_SIZE * ((base e + PAGE_SIZE - 1) `div` PAGE_SIZE)) /\
  ALIGN_DOWN (u64 (base e + elength e)) PAGE_SIZE = Ok (PAGE_SIZE * ((base e + elength e) `div` PAGE_SIZE)).
Proof.
  unfold entry_ok, PAGE_SIZE. intros (H1 & H2 & H3).
  rewrite (wrap_small 64 (base e + elength e)) by (unfold in_u; lia).
  split; [apply (ALIGN_UP_spec _ 12)|apply (ALIGN_DOWN_spec _ 12)]; unfold in_u; lia.
Qed.

Lemma buddy_add_entry_spec bm memmap st Ls e :
  bm_wf bm -> Forall entry_ok memmap -> entry_ok e -> binv st Ls ∅ ∅ ->
  (forall x, region e x -> 0 < x < last_pfn (bmem st) /\ ~ free_cover Ls x) ->
  exists st' Ls', buddy_add_entry st bm memmap e = Ok st' /\
    region_added st st' Ls Ls' (region e) (boot_free bm memmap).
Proof.
  intros Hwf Hok He I Hr. unfold buddy_add_entry.
  destruct (Z.eqb_spec (type e) LIMINE_MEMMAP_USABLE) as [Et|Et]; cbn [negb];
    [|exists st, Ls; split; [done|]; apply region_added_refl; [by intros x [? _]|done]].
  destruct (entry_inner e He) as [-> ->]. rewrite !bind_Ok.
  set (a := (base e + PAGE_SIZE - 1) `div` PAGE_SIZE). set (b := (base e + elength e) `div` PAGE_SIZE).
  destruct (Z.leb_spec (PAGE_SIZE * b) (PAGE_SIZE * a)); [exists st, Ls; split; [done|]; apply region_added_refl; [intros x [_ Hx]; fold a b in Hx; unfold PAGE_SIZE in *; lia|done]|].
  assert (a < b) as Hab by (unfold PAGE_SIZE in *; lia).
  rewrite <- Z.mul_sub_distr_l, !(Z.mul_comm PAGE_SIZE), !Z.div_mul by done.
  assert (forall x, a <= x < b -> region e x) as Hreg by (intros x Hx; split; done).
  destruct (add_region_spec bm memmap Hwf Hok (Z.to_nat (b - a)) st Ls a (b - a)) as (st' & Ls' & -> & R); try lia.
  - done.
  - destruct (Hr a); [apply Hreg; lia|lia].
  - destruct (Hr (b - 1)); [apply Hreg; lia|lia].
  - intros x Hx. apply Hr, Hreg. lia.
  - exists st', Ls'. split; [done|]. eapply region_added_iff; [|exact R]. cbn. intros x. split; [intros [_ Hx]; fold a b in Hx; lia|]. intros Hx. apply Hreg. lia.
Qed.

(** Entries share no whole page (they are sorted and do not overlap). *)
Definition disjoint_regions (es : list limine_memmap_entry) : Prop :=
  forall i j ei ej x, es !! i = Some ei -> es !! j = Some ej -> region ei x -> region ej x -> i = j.

Lemma disjoint_regions_tail e es : disjoint_regions (e :: es) -> disjoint_regions es.
Proof. intros H i j ei ej x Hi Hj H1 H2. enough (S i = S j) by lia. by eapply (H (S i) (S j)). Qed.

Lemma add_entries_spec bm memmap (Hwf : bm_wf bm) (Hok : Forall entry_ok memmap) : forall es st Ls,
  Forall entry_ok es -> disjoint_regions es -> binv st Ls ∅ ∅ ->
  (forall e x, e ∈ es -> region e x -> 0 < x < last_pfn (bmem st) /\ ~ free_cover Ls x) ->
  exists st' Ls', add_entries st bm memmap es = Ok st' /\
    region_added st st' Ls Ls' (fun x => exists e, e ∈ es /\ region e x) (boot_free bm memmap).
Proof.
  induction es as [|e es IH]; intros st Ls Hes Hd I Hr; cbn [add_entries].
  { exists st, Ls. split; [done|]. apply region_added_refl; [by intros x (e & ?%elem_of_nil & _)|done]. }
  apply list.Forall_cons in Hes as [He Hes].
  destruct (buddy_add_entry_spec bm memmap st Ls e) as (st1 & Ls1 & -> & R1); try done.
  { intros x. apply Hr. constructor. }
  rewrite bind_Ok. destruct (IH st1 Ls1) as (st' & Ls' & -> & R2); try done.
  { by eapply disjoint_regions_tail. }
  { apply R1. }
  { intros e' x Hin Hx. rewrite (ra_last _ _ _ _ _ _ R1). destruct (Hr e' x) as [Hx' Hn]; [by constructor|done|].
    split; [done|]. intros (q & k & [Hq|Hq]%(ra_new _ _ _ _ _ _ R1) & Hqx).
    - apply Hn. by exists q, k.
    - destruct (Hq x Hqx) as [Hxe _]. apply list_elem_of_lookup in Hin as [i Hi].
      by pose proof (Hd 0%nat (S i) e e' x eq_refl Hi Hxe Hx). }
  exists st', Ls'. split; [done|]. eapply region_added_trans; [|exact R1|exact R2].
  cbn. intros x. setoid_rewrite elem_of_cons. naive_solver.
Qed.

(** ** The empty allocator *)

Lemma lookup_seq_map {A} (g : Z -> A) last p :
  0 <= p < last ->
  (list_to_map ((fun q => (q, g q)) <$> seqZ 0 last) : gmap Z A) !! p = Some (g p).
Proof.
  intros Hp. apply elem_of_list_to_map.
  - rewrite <- list_fmap_compose. cbn. rewrite (list_fmap_ext _ id); [|done].
    rewrite list_fmap_id. apply NoDup_seqZ.
  - apply list_elem_of_fmap. exists p. split; [done|]. apply elem_of_seqZ. lia.
Qed.

Definition empty_areas : list buddy_free_area :=
  replicate (Z.to_nat BUDDY_MAX_ORDER) (mkArea None None 0).

Lemma binv_empty last old :
  0 <= last <= 2 ^ 52 ->
  binv (mkBuddy (zero_mem last old) empty_areas) (replicate 18 []) ∅ ∅.
Proof.
  intros Hl. assert (forall q k, ~ free (replicate 18 []) q k) as Hnf.
  { intros q k (l & [-> _]%lookup_replicate & Hq). by apply not_elem_of_nil in Hq. }
  constructor; cbn [bmem areas].
  - constructor; cbn; [done|..].
    + intros p Hp. exists 0. split; [by apply (lookup_seq_map (fun _ => 0))|by split].
    + intros p Hp. rewrite lookup_seq_map by done. eauto.
  - done.
  - done.
  - intros o a l [-> _]%lookup_replicate [-> _]%lookup_replicate. constructor; cbn; try done.
    + constructor.
    + intros p Hp. by apply not_elem_of_nil in Hp.
  - intros o p Hf. by apply Hnf in Hf.
  - constructor.
    + intros p o [Hf|Hf%not_elem_of_empty]; [by apply Hnf in Hf|done].
    + intros p o q k [Hf|Hf%not_elem_of_empty]; [by apply Hnf in Hf|done].
  - intros p o Hf%not_elem_of_empty. done.
  - intros p o Hf%not_elem_of_empty. done.
  - intros p Hf%not_elem_of_empty. done.
  - intros q Hq _. unfold metaof. cbn [zero_mem page_array last_pfn] in *.
    rewrite (lookup_seq_map (fun _ => 0)) by done. done.
Qed.

(** ** Placing the page array *)

(** No entry has [needed] whole pages in a row. *)
Definition no_room (needed : Z) (memmap : list limine_memmap_entry) : Prop :=
  forall e a, e ∈ memmap -> ~ (forall x, a <= x < a + needed -> region e x).
(** The page array [a, a + needed) is whole pages of entry [i0], which loses
    them and those before them; the other entries are untouched.  The bitmap has these pages marked. *)
Definition array_placed (needed : Z) (bm : list Z) (memmap : list limine_memmap_entry) (a : Z) (bm' : list Z) (memmap' : list limine_memmap_entry) : Prop :=
  bm_wf bm' /\ Forall entry_ok memmap' /\
  (forall j, 0 <= j -> bget bm' j = false <-> bget bm j = false /\ ~ (a <= j < a + needed /\ j < NBITS)) /\
  exists i0 e0, memmap !! i0 = Some e0 /\ (forall x, a <= x < a + needed -> region e0 x) /\
    forall i x, (exists e, memmap' !! i = Some e /\ region e x) <->
      (exists e1, memmap !! i = Some e1 /\ region e1 x) /\ (i = i0 -> ~ (a <= x < a + needed)).
Lemma array_placed_cons needed bm e es a bm' mm : entry_ok e -> array_placed needed bm es a bm' mm -> array_placed needed bm (e :: es) a bm' (e :: mm).
Proof.
  intros He (Hw & Ho & Hb & i0 & e0 & Hi & Ha & Hr). split_and!; try done; [by constructor|].
  exists (S i0), e0. split_and!; try done. intros [|i] x; cbn; [naive_solver|]. rewrite Hr. naive_solver.
Qed.
(** The first entry with enough pages. *)
Lemma array_placed_here needed bm e es : 1 <= needed -> bm_wf bm -> Forall entry_ok (e :: es) -> type e = LIMINE_MEMMAP_USABLE ->
  let a := (base e + PAGE_SIZE - 1) `div` PAGE_SIZE in let b := (base e + elength e) `div` PAGE_SIZE in a + needed <= b ->
  exists bm', set_bits (Z.to_nat needed) bm ((PAGE_SIZE * a) `div` PAGE_SIZE) = Ok bm' /\
    let base' := u64 (PAGE_SIZE * a + needed * PAGE_SIZE) in
    array_placed needed bm (e :: es) a bm' (mkEntry base' (u64 (PAGE_SIZE * b - base')) (type e) :: es).
Proof.
  intros Hn Hwf Hok Et a b Hab. apply list.Forall_cons in Hok as [(G1 & G2 & G3) Hok].
  assert (0 <= a) as Ha0 by (apply Z.div_pos; unfold PAGE_SIZE in *; lia).
  assert (PAGE_SIZE * b <= base e + elength e) as Hb by (apply Z.mul_div_le; done).
  rewrite (Z.mul_comm PAGE_SIZE a), Z.div_mul by done.
  destruct (set_bits_spec (Z.to_nat needed) bm a Hwf Ha0) as (bm' & -> & Hwf' & Hbits); [unfold PAGE_SIZE in *; lia|].
  exists bm'. split; [done|]. cbn zeta. rewrite <- Z.mul_add_distr_r.
  rewrite (wrap_small 64 ((a + needed) * PAGE_SIZE)) by (unfold in_u, PAGE_SIZE in *; lia).
  rewrite wrap_small by (unfold in_u, PAGE_SIZE in *; lia).
  split_and!; [done|constructor; [|done]; unfold entry_ok, PAGE_SIZE in *; cbn [base elength]; lia| |].
  - intros j Hj. rewrite Hbits, Z2Nat.id by lia. case_decide; naive_solver.
  - assert (forall x, region e x <-> a <= x < b) as Hreg by (intros x; split; [by intros [_ ?]|by split]).
    exists 0%nat, e. split; [done|]. split; [intros x Hx; apply Hreg; lia|].
    assert (forall x, region (mkEntry ((a + needed) * PAGE_SIZE) (PAGE_SIZE * b - (a + needed) * PAGE_SIZE) (type e)) x <-> a + needed <= x < b) as Hnew.
    { intros x. unfold region. cbn [base elength type]. replace ((a + needed) * PAGE_SIZE + (PAGE_SIZE * b - (a + needed) * PAGE_SIZE)) with (b * PAGE_SIZE) by lia.
      rewrite Z.div_mul by done. replace ((a + needed) * PAGE_SIZE + PAGE_SIZE - 1) with (PAGE_SIZE - 1 + (a + needed) * PAGE_SIZE) by lia. rewrite Z.div_add by done.
      change ((PAGE_SIZE - 1) `div` PAGE_SIZE) with 0. split; [intros [_ ?]; lia|]. split; [done|lia]. }
    intros [|i] x; cbn.
    + split; [intros (e' & [= <-] & Hx%Hnew)|intros [(e' & [= <-] & Hx%Hreg) Hx']].
      * split; [exists e; split; [done|apply Hreg]|]; lia.
      * eexists. split; [done|]. apply Hnew. specialize (Hx' eq_refl). lia.
    + naive_solver.
Qed.
Lemma mid_init_spec needed (Hn : 1 <= needed <= 2 ^ 52) bm (Hwf : bm_wf bm) : forall memmap, Forall entry_ok memmap ->
  (mid_init_buddy needed bm memmap = Panic /\ no_room needed memmap) \/
  exists a bm' memmap', mid_init_buddy needed bm memmap = Ok (a * PAGE_SIZE, bm', memmap') /\ array_placed needed bm memmap a bm' memmap'.
Proof.
  induction memmap as [|e es IH]; intros Hok; cbn [mid_init_buddy]; [left; split; [done|]; by intros e a ?%elem_of_nil|].
  pose proof Hok as [He Hok']%list.Forall_cons.
  set (skip := (r ← mid_init_buddy needed bm es; Ok (r.1.1, r.1.2, e :: r.2))).
  assert ((forall a, ~ (forall x, a <= x < a + needed -> region e x)) -> (skip = Panic /\ no_room needed (e :: es)) \/
    exists a bm' memmap', skip = Ok (a * PAGE_SIZE, bm', memmap') /\ array_placed needed bm (e :: es) a bm' memmap') as Hskip.
  { intros Hno. unfold skip. destruct (IH Hok') as [[-> Hx]|(a & bm' & mm & -> & Hx)]; [left|right]; rewrite ?bind_Ok.
    - split; [done|]. intros e' a [->|He']%elem_of_cons; [apply Hno|by apply Hx].
    - exists a, bm', (e :: mm). split; [done|]. by apply array_placed_cons. }
  destruct (Z.eqb_spec (type e) LIMINE_MEMMAP_USABLE) as [Et|Et]; cbn [negb]; [|apply Hskip; intros a Ha; destruct (Ha a) as [? _]; [lia|done]].
  destruct (entry_inner e He) as [-> ->]. rewrite !bind_Ok.
  set (a := (base e + PAGE_SIZE - 1) `div` PAGE_SIZE). set (b := (base e + elength e) `div` PAGE_SIZE).
  replace (if PAGE_SIZE * a <? PAGE_SIZE * b then (PAGE_SIZE * b - PAGE_SIZE * a) `div` PAGE_SIZE else 0) with (Z.max 0 (b - a)).
  2: { destruct (Z.ltb_spec (PAGE_SIZE * a) (PAGE_SIZE * b)); [rewrite <- Z.mul_sub_distr_l, Z.mul_comm, Z.div_mul by done|]; unfold PAGE_SIZE in *; lia. }
  destruct (Z.leb_spec needed (Z.max 0 (b - a))) as [Hle|Hle].
  - right. destruct (array_placed_here needed bm e es) as (bm' & Es & Hp); [lia|done|done|done|fold a b; lia|]. fold a b in Es, Hp. rewrite Es, bind_Ok.
    eexists a, bm', _. split; [|exact Hp]. by rewrite (Z.mul_comm a).
  - apply Hskip. intros a' Ha. destruct (Ha a') as [_ H1]; [lia|]. destruct (Ha (a' + needed - 1)) as [_ H2]; [lia|]. fold a b in H1, H2. lia.
Qed.

(** The pages of the page array. *)
Definition array_pages (last : Z) : Z := (sizeof_page * last + PAGE_SIZE - 1) `div` PAGE_SIZE.
Lemma array_pages_needed last : 1 <= last <= 2 ^ 52 -> DIV_ROUND_UP (u64 (sizeof_page * last)) PAGE_SIZE = Ok (array_pages last) /\
  sizeof_page * last <= array_pages last * PAGE_SIZE /\ 1 <= array_pages last <= 2 ^ 52.
Proof.
  intros Hl. unfold DIV_ROUND_UP, sizeof_page, array_pages. rewrite (wrap_small 64 (8 * last)) by (unfold in_u; lia).
  change (enforce (0 <? PAGE_SIZE)) with (Ok tt). rewrite bind_Ok. unfold sizeof_page, PAGE_SIZE.
  assert ((8 * last) `div` 4096 + (if (8 * last) `mod` 4096 =? 0 then 0 else 1) = (8 * last + 4096 - 1) `div` 4096) as ->.
  { destruct (Z.eqb_spec ((8 * last) `mod` 4096) 0); Z.to_euclidean_division_equations; lia. }
  rewrite wrap_small by (unfold in_u; Z.to_euclidean_division_equations; lia). split_and!; [done|..]; Z.to_euclidean_division_equations; lia.
Qed.

(** C11: [buddy_init] on a memory map whose usable entries do not share pages,
    leave page 0 alone and end below [last_pfn].  It panics only when no usable
    entry has as many whole pages in a row as the page array needs.  Otherwise it
    places the page array on whole pages of a usable entry and establishes the
    allocator invariant with no block handed out.  Every page of a free block is a
    whole page of a usable entry, was free in the boot bitmap (below 128 MiB) and
    is not in the page array.  Such a page is free if no whole usable page of the
    block of 2^17 pages it is in is marked in the boot bitmap. *)
Theorem buddy_init_correct last old bm memmap :
  bm_wf bm -> Forall entry_ok memmap -> disjoint_regions memmap -> 1 <= last <= 2 ^ 52 ->
  (forall e x, e ∈ memmap -> region e x -> 0 < x < last) ->
  (buddy_init last old bm memmap = Panic /\ no_room (array_pages last) memmap) \/
  exists st Ls a, buddy_init last old bm memmap = Ok (st, a * PAGE_SIZE) /\ binv st Ls ∅ ∅ /\
    (exists e, e ∈ memmap /\ forall x, a <= x < a + array_pages last -> region e x) /\
    (forall x, free_cover Ls x ->
      (exists e, e ∈ memmap /\ region e x) /\ (x < NBITS -> bget bm x = false) /\
      ~ (a * PAGE_SIZE <= x * PAGE_SIZE < a * PAGE_SIZE + sizeof_page * last)) /\
    (forall e x, e ∈ memmap -> region e x -> ~ (a <= x < a + array_pages last) ->
      (forall e' y, e' ∈ memmap -> region e' y -> same_block x y -> y < NBITS -> bget bm y = false) -> free_cover Ls x).
Proof.
  intros Hwf Hok Hd Hl Hr. unfold buddy_init. destruct (array_pages_needed last Hl) as (-> & Hn1 & Hn2). rewrite bind_Ok. set (n := array_pages last) in *.
  destruct (mid_init_spec n Hn2 bm Hwf memmap Hok) as [[-> Hno]|(a & bm' & mm & -> & Hw & Ho & Hb & i0 & e0 & Hi & Ha & Hreg)]; [by left|right].
  rewrite bind_Ok. fold empty_areas.
  assert (forall e x, e ∈ mm -> region e x -> (exists e1, e1 ∈ memmap /\ region e1 x) /\ ~ (a <= x < a + n)) as Hmm.
  { intros e x [i He]%list_elem_of_lookup Hx. destruct (proj1 (Hreg i x)) as [(e1 & He1 & Hx1) Hge]; [by exists e|]. split; [exists e1; split; [by eapply list_elem_of_lookup_2|done]|].
    intros Hxa. apply Hge; [|done]. eapply (Hd i i0 e1 e0 x He1 Hi Hx1). by apply Ha. }
  destruct (add_entries_spec bm' mm Hw Ho mm (mkBuddy (zero_mem last old) empty_areas) (replicate 18 []))
    as (st & Ls & -> & R).
  - done.
  - intros i j ei ej x Hi' Hj' H1 H2. destruct (proj1 (Hreg i x)) as [(e1 & ? & ?) _]; [by exists ei|].
    destruct (proj1 (Hreg j x)) as [(e2 & ? & ?) _]; [by exists ej|]. by eapply Hd.
  - apply binv_empty. lia.
  - intros e x He Hx. destruct (Hmm e x He Hx) as [(e1 & He1 & ?) _]. split; [by apply (Hr e1)|].
    intros (q & k & (l & [-> _]%lookup_replicate & Hq) & _). by apply not_elem_of_nil in Hq.
  - rewrite bind_Ok. exists st, Ls, a. split; [done|]. split; [apply R|]. split_and!.
    + exists e0. split; [by eapply list_elem_of_lookup_2|done].
    + intros x (q & k & [(l & [-> _]%lookup_replicate & Hq)|Hq]%(ra_new _ _ _ _ _ _ R) & Hx); [by apply not_elem_of_nil in Hq|].
      destruct (Hq x Hx) as [(e & He & Hex) Hbf]. destruct (Hmm e x He Hex) as [(e1 & He1 & Hx1) Hna]. pose proof (Hr e1 x He1 Hx1) as Hxr. split_and!.
      * by exists e1.
      * intros Hlt. unfold boot_free in Hbf. rewrite decide_True in Hbf by done. apply Hb in Hbf; [tauto|lia].
      * intros Hpa. unfold PAGE_SIZE in *. lia.
    + intros e x [i He]%list_elem_of_lookup Hx Hna Hy. apply (ra_all _ _ _ _ _ _ R).
      * destruct (proj2 (Hreg i x)) as (e' & He' & Hx'); [split; [by exists e|done]|]. exists e'. split; [by eapply list_elem_of_lookup_2|done].
      * intros y (e' & He' & Hy') Hsame. unfold boot_free. case_decide as Hlt.
        -- destruct (Hmm e' y He' Hy') as [(e1 & He1 & Hy1) Hna']. pose proof (Hr e1 y He1 Hy1). apply Hb; [lia|]. split; [by eapply Hy|tauto].
        -- exists e'. split; [done|]. destruct Hy' as [Ht Hy']. split; [done|]. unfold PAGE_SIZE in *. Z.to_euclidean_division_equations; lia.
Qed.

(** 31 usable pages above page 0, nothing marked in the bitmap. *)
Definition small_memmap : list limine_memmap_entry := [mkEntry 4096 (31 * 4096) 0].
Definition clear_bitmap : list Z := replicate 4096 0.

Lemma small_region x : region (mkEntry 4096 (31 * 4096) 0) x <-> 1 <= x < 32.
Proof.
  unfold region. cbn [base elength type]. change ((4096 + PAGE_SIZE - 1) `div` PAGE_SIZE) with 1. change ((4096 + 31 * 4096) `div` PAGE_SIZE) with 32.
  split; [by intros [_ ?]|by split].
Qed.
Lemma small_init : match buddy_init 32 (fun _ => None) clear_bitmap small_memmap with Ok (_, a) => a = 4096 | _ => False end.
Proof. by vm_compute. Qed.
Lemma clear_bget j : bget clear_bitmap j = false.
Proof.
  unfold bget, clear_bitmap. destruct (replicate 4096 0 !! Z.to_nat (j `div` 8)) eqn:E; [apply lookup_replicate in E as [-> _]|]; apply Z.testbit_0_l.
Qed.
(** The page array takes the first page; the 30 others become free. *)
Lemma buddy_init_correct_witness :
  exists st Ls, buddy_init 32 (fun _ => None) clear_bitmap small_memmap = Ok (st, 1 * PAGE_SIZE) /\
    binv st Ls ∅ ∅ /\ forall x, free_cover Ls x <-> 2 <= x < 32.
Proof.
  assert (forall e x, e ∈ small_memmap -> region e x <-> 1 <= x < 32) as Hreg by (intros e x ->%list_elem_of_singleton; apply small_region).
  destruct (buddy_init_correct 32 (fun _ => None) clear_bitmap small_memmap) as [[H _]|(st & Ls & a & E & I & _ & H1 & H2)].
  - split; [done|]. apply Forall_replicate. by split.
  - repeat constructor; vm_compute; congruence.
  - intros [|[]] [|[]] ei ej x Hi Hj _ _; done.
  - by vm_compute.
  - intros e x He Hx%(Hreg e x He). lia.
  - exfalso. pose proof small_init as Hs. by rewrite H in Hs.
  - pose proof small_init as Hs. rewrite E in Hs. unfold PAGE_SIZE in Hs. assert (a = 1) as -> by lia. exists st, Ls. split_and!; [done|done|].
    change (array_pages 32) with 1 in H2. change (1 * PAGE_SIZE) with 4096 in *. change (sizeof_page * 32) with 256 in *. intros x. split.
    + intros Hx. destruct (H1 x Hx) as ((e & He & Hex%(Hreg e x He)) & _ & Hna). unfold PAGE_SIZE in Hna. lia.
    + intros Hx. apply (H2 (mkEntry 4096 (31 * 4096) 0)); [by left|apply small_region; lia|lia|]. intros e' y _ _ _ _. apply clear_bget.
Defined.

(** An allocator of 32 pages with one free block of order 4 at page 16. *)
Lemma one_block :
  exists st, binv st (<[4%nat := [16]]> (replicate 18 [])) ∅ ∅ /\ last_pfn (bmem st) = 32.
Proof.
  pose proof (binv_empty 32 (fun _ => None) ltac:(lia)) as I.
  destruct (seed_block_inv _ _ 16 4 I) as (st & l & _ & Hl & I' & L).
  - constructor; try done.
    + lia.
    + intros q k (l & [-> _]%lookup_replicate & Hq). by apply not_elem_of_nil in Hq.
  - injection Hl as <-. by exists st.
Qed.
