(* ===== verification/BuddyAlloc.v ===== *)
(** * Correctness of the buddy allocator

    The theorems about [buddy_alloc_pages] and [buddy_free_pages] of Buddy.v:
    what each returns and leaves on the free lists, that both keep the
    invariant, that no page is lost or handed out twice, that a double free is
    caught, and that merging is complete. *)

From S2P Require Import Prelude BuddyPage Buddy BuddyInit.

#[local] Hint Resolve sz_pos set_order_range set_next_range : core.

(** Two working halves become one block of the next order. *)
Lemma merge_pair st Ls A lo up n :
  binv st Ls ({[(lo, n); (up, n)]} ∪ A) ({[lo; up]}) -> up = lo + sz n ->
  (lo, n) ∉ A -> (up, n) ∉ A -> (sz (S n) | lo) -> (S n < 18)%nat ->
  (freef (metaof (bmem st) up) = 1 -> orderf (metaof (bmem st) up) = Z.of_nat n) ->
  binv st Ls ({[(lo, S n)]} ∪ A) {[lo]}.
Proof.
  intros I -> N1 N2 Hd Hn Hf. pose proof (sz_pos n).
  assert (lo <> lo + sz n) as Hne by lia.
  pose proof (binv_merge _ _ _ _ I lo n) as HI. cbn zeta in HI.
  replace (({[(lo, n); (lo + sz n, n)]} ∪ A) ∖ {[(lo, n); (lo + sz n, n)]}) with A in HI
    by (clear -N1 N2; set_solver).
  replace ({[lo; lo + sz n]} ∖ {[lo + sz n]}) with ({[lo]} : gset Z) in HI by (clear -Hne; set_solver).
  apply HI; try done; clear; set_solver.
Qed.

(** One round of the coalescing loop with a free buddy. *)
Lemma coalesce_step f st Ls A p o :
  binv st Ls ({[(p, o)]} ∪ A) {[p]} -> (p, o) ∉ A -> (o < 17)%nat ->
  let b := Z.lxor p (sz o) in
  0 <= b < last_pfn (bmem st) -> free Ls b o ->
  orderf (metaof (bmem st) p) = Z.of_nat o ->
  let p' := Z.min p b in
  exists st' Ls', 
    coalesce (S f) st p (Some p) (Z.of_nat o) (last_pfn (bmem st)) =
      coalesce f st' p' (Some p') (Z.of_nat (S o)) (last_pfn (bmem st)) /\
    binv st' Ls' ({[(p', S o)]} ∪ A) {[p']} /\ ((p', S o) ∉ A) /\
    last_pfn (bmem st') = last_pfn (bmem st) /\
    tagf (metaof (bmem st') p') = PAGE_TAG_BUDDY /\
    orderf (metaof (bmem st') p') = Z.of_nat (S o) /\
    (forall q k, free Ls' q k <-> free Ls q k /\ (q, k) <> (b, o)).
Proof.
  cbn zeta. set (b := Z.lxor p (sz o)). set (p' := Z.min p b).
  intros I HA Ho Hb Hfr Hop. pose proof (sz_pos o) as Hs. pose proof (sz_S o) as HS.
  set (B := {[(p, o)]} ∪ A) in *.
  assert ((p, o) ∈ B) as HB by (by apply elem_of_union_l, elem_of_singleton).
  destruct (til_geo _ _ (bi_til _ _ _ _ I) p o (or_intror HB)) as (G1 & G2 & G3 & G4).
  destruct (til_geo _ _ (bi_til _ _ _ _ I) b o (or_introl Hfr)) as (G5 & G6 & G7 & _).
  destruct (bi_hdr _ _ _ _ I o b Hfr) as (Tb & Fb & Ob).
  pose proof (buddy_cases p o G2) as Hc. cbn zeta in Hc. fold b in Hc.
  assert (p <> b) as Hpb by lia.
  assert ((b, o) ∉ A) as HbA.
  { intros Hin. eapply (B_not_free _ _ _ _ I b o o); [by apply elem_of_union_r|done]. }
  destruct (take_inv st Ls B {[p]} I o b Hfr) as (a & m1 & a1 & Ea & Er & l' & I1 & Hl' & U).
  set (st1 := mkBuddy m1 (<[o := a1]> (areas st))) in *. cbn zeta in I1.
  set (Ls1 := <[o := l']> Ls) in *.
  (* the two halves become one block of the next order *)
  assert (binv st1 Ls1 ({[(p', S o)]} ∪ A) {[p']}) as I2.
  { destruct Hc as [[E D]|[E D]].
    - replace p' with p by lia. apply (merge_pair _ _ _ p b); try done; try lia.
      + replace ({[(p, o); (b, o)]} ∪ A) with ({[(b, o)]} ∪ B) by (unfold B; clear; set_solver).
        by replace ({[p; b]}) with ({[b]} ∪ {[p]} : gset Z) by (clear; set_solver).
      + intros _. by rewrite (lu_order _ _ _ U).
    - replace p' with b by lia. apply (merge_pair _ _ _ b p); try done; try lia.
      + by replace ({[(b, o); (p, o)]} ∪ A) with ({[(b, o)]} ∪ B) by (unfold B; clear; set_solver).
      + intros _. by rewrite (lu_order _ _ _ U). }
  destruct (set_meta_inv _ _ _ _ p' (fun x => buddy_page_set_next_pfn x 0) I2) as [E4 I4]; [by apply elem_of_singleton|auto|].
  destruct (set_meta_inv _ _ _ _ p' (fun x => buddy_page_set_order x (Z.of_nat o + 1)) I4) as [E5 I5];
    [by apply elem_of_singleton|auto|].
  destruct (tag_inv _ _ _ _ p' I5) as [E6 I6]; [by apply elem_of_singleton|]. cbn [bmem areas] in *.
  match type of I6 with binv ?s _ _ _ => set (st6 := s) in * end.
  exists st6, Ls1. split; [|split; [done|split; [|split; [|split; [|split]]]]].
  - cbn [coalesce]. unfold BUDDY_MAX_ORDER. destruct (Z.ltb_spec (Z.of_nat o) (18 - 1)); [|lia].
    rewrite BIT_pow by lia. fold (sz o) b. destruct (Z.leb_spec (last_pfn (bmem st)) b); [lia|].
    rewrite page_for_pfn_Some by lia. cbn [deref]. rewrite bind_Ok.
    rewrite get_meta_Ok, bind_Ok by (apply I || lia).
    rewrite is_free_field, Tb, Fb, get_order_field, Ob, Z.eqb_refl. cbn [negb orb andb Z.eqb].
    change (PAGE_TAG_BUDDY =? PAGE_TAG_BUDDY) with true. cbn [negb orb andb Pos.eqb].
    rewrite tag_again, bind_Ok by (apply I || done || lia).
    rewrite Ea, bind_Ok, Er, bind_Ok. cbn [fst snd].
    rewrite aset_Ok, bind_Ok, Nat2Z.id by (rewrite (bi_alen _ _ _ _ I); lia). fold p' st1.
    rewrite page_for_pfn_Some by (unfold st1; cbn [bmem]; rewrite (lu_last _ _ _ U); lia).
    rewrite E4, bind_Ok, E5, bind_Ok. cbn [bmem areas]. rewrite E6, bind_Ok. cbn [areas]. fold st6.
    rewrite Z.eqb_refl. cbn [negb]. by replace (Z.of_nat (S o)) with (Z.of_nat o + 1) by lia.
  - intros Hin. assert (blocks Ls B p' (S o)) as Hb' by (right; by apply elem_of_union_r).
    enough (o = S o) by lia. destruct (Z.min_spec p b) as [[_ E]|[_ E]]; unfold p' in Hb'; rewrite E in Hb'.
    + eapply tiling_start; [apply I|right; exact HB|done].
    + eapply tiling_start; [apply I|left; exact Hfr|done].
  - unfold st6. cbn [bmem]. change (last_pfn (put_meta ?m _ _)) with (last_pfn m). apply U.
  - unfold st6. cbn [bmem]. rewrite metaof_put_meta, decide_True by done. by fields.
  - unfold st6. cbn [bmem]. rewrite !metaof_put_meta, !decide_True by done. fields.
    replace (Z.of_nat o + 1) with (Z.of_nat (S o)) by lia. apply order_wrap. lia.
  - intros q k. unfold Ls1. rewrite free_insert by (rewrite (bi_llen _ _ _ _ I); lia).
    case_decide as Ek; [subst k; rewrite Hl'; naive_solver|naive_solver].
Qed.

(** The loop stops when the buddy is outside the page array, not on its list, or
    the block has the largest order. *)
Lemma coalesce_stop f st Ls A p o :
  binv st Ls ({[(p, o)]} ∪ A) {[p]} ->
  ((o < 17)%nat -> ~ free Ls (Z.lxor p (sz o)) o) ->
  coalesce (S f) st p (Some p) (Z.of_nat o) (last_pfn (bmem st)) = Ok (st, Some p, Z.of_nat o).
Proof.
  intros I Hn. assert ((p, o) ∈ {[(p, o)]} ∪ A) as HB by (by apply elem_of_union_l, elem_of_singleton).
  destruct (til_geo _ _ (bi_til _ _ _ _ I) p o (or_intror HB)) as (G1 & G2 & G3 & G4).
  cbn [coalesce]. unfold BUDDY_MAX_ORDER. destruct (Z.ltb_spec (Z.of_nat o) (18 - 1)); [|done].
  rewrite BIT_pow by lia. fold (sz o). set (b := Z.lxor p (sz o)) in *. pose proof (sz_pos o).
  destruct (Z.leb_spec (last_pfn (bmem st)) b); [done|].
  assert (0 <= b) as Hb0 by (apply Z.lxor_nonneg; lia).
  rewrite page_for_pfn_Some by lia. cbn [deref]. rewrite bind_Ok.
  rewrite get_meta_Ok, bind_Ok by (apply I || lia). rewrite is_free_field, get_order_field.
  destruct (Z.eqb_spec (tagf (metaof (bmem st) b)) PAGE_TAG_BUDDY) as [Ht|]; [|done].
  destruct (Z.eqb_spec (freef (metaof (bmem st) b)) 1) as [Hf|]; [|done].
  destruct (Z.eqb_spec (orderf (metaof (bmem st) b)) (Z.of_nat o)) as [Ho|]; [|done].
  exfalso. apply Hn; [lia|]. by eapply buddy_listed.
Qed.

#[local] Instance free_dec Ls p o : Decision (free Ls p o).
Proof.
  destruct (Ls !! o) as [l|] eqn:E.
  - destruct (decide (p ∈ l)) as [H|H]; [left; by exists l|right; intros (? & ? & ?); congruence].
  - right. intros (? & ? & ?). congruence.
Defined.

(** What the coalescing loop does to a block being freed. *)
Lemma coalesce_spec A last : forall fuel st Ls p o,
  (17 - o < fuel)%nat -> last_pfn (bmem st) = last ->
  binv st Ls ({[(p, o)]} ∪ A) {[p]} -> (p, o) ∉ A ->
  tagf (metaof (bmem st) p) = PAGE_TAG_BUDDY -> orderf (metaof (bmem st) p) = Z.of_nat o ->
  exists st' Ls' p' o',
    coalesce fuel st p (Some p) (Z.of_nat o) last = Ok (st', Some p', Z.of_nat o') /\
    last_pfn (bmem st') = last /\
    binv st' Ls' ({[(p', o')]} ∪ A) {[p']} /\ ((p', o') ∉ A) /\
    tagf (metaof (bmem st') p') = PAGE_TAG_BUDDY /\ orderf (metaof (bmem st') p') = Z.of_nat o' /\
    p' <= p /\ p + sz o <= p' + sz o' /\
    ((o' < 17)%nat -> ~ free Ls' (Z.lxor p' (sz o')) o') /\
    (forall q k, free Ls' q k -> free Ls q k) /\
    same_cover (blocks Ls ({[(p, o)]} ∪ A)) (blocks Ls' ({[(p', o')]} ∪ A)).
Proof.
  induction fuel as [|f IH]; intros st Ls p o Hf HL I HA Ht Ho; [lia|]. subst last.
  assert ((p, o) ∈ {[(p, o)]} ∪ A) as HB by (by apply elem_of_union_l, elem_of_singleton).
  destruct (til_geo _ _ (bi_til _ _ _ _ I) p o (or_intror HB)) as (G1 & G2 & G3 & G4).
  pose proof (buddy_cases p o G2) as Hc. cbn zeta in Hc. set (b := Z.lxor p (sz o)) in *.
  destruct (decide ((o < 17)%nat /\ free Ls b o)) as [[Ho17 Hfr]|Hn]; cycle 1.
  { rewrite (coalesce_stop f st Ls A) by (done || intros ? ?; by apply Hn).
    exists st, Ls, p, o. split_and!; try done; try lia. intros ? ?. by apply Hn. }
  destruct (block_page _ _ _ _ I b o (or_introl Hfr)) as [Hbr _].
  assert (0 <= b < last_pfn (bmem st)) as Hbr' by lia.
  destruct (coalesce_step f st Ls A p o I HA Ho17 Hbr' Hfr Ho) as (st1 & Ls1 & E & I1 & HA1 & L1 & T1 & O1 & F1).
  fold b in E, I1, HA1, T1, O1, F1. set (p1 := Z.min p b) in *.
  destruct (IH st1 Ls1 p1 (S o) ltac:(lia) L1 I1 HA1 T1 O1)
    as (st' & Ls' & p' & o' & E' & L' & I' & HA' & T' & O' & P1 & P2 & N & F & C).
  pose proof (sz_pos o) as Hs. pose proof (sz_S o) as HS.
  exists st', Ls', p', o'. rewrite E. split_and!; try done; try lia.
  - intros q k Hq. apply F in Hq. by apply F1 in Hq as [? _].
  - intros x. rewrite <- (C x). revert x.
    assert ((b, o) ∉ A) as HbA.
    { intros Hin. eapply (B_not_free _ _ _ _ I b o o); [by apply elem_of_union_r|done]. }
    assert (forall q k, blocks Ls1 ({[(p1, S o)]} ∪ A) q k <->
      (blocks Ls ({[(p, o)]} ∪ A) q k /\ (q, k) <> (p, o) /\ (q, k) <> (b, o)) \/ (q, k) = (p1, S o)) as Hb1.
    { intros q k. unfold blocks. rewrite F1, !elem_of_union, !elem_of_singleton.
      assert (free Ls q k -> (q, k) <> (p, o)).
      { intros Hq [= -> ->]. by eapply (bi_sep _ _ _ _ I). }
      assert ((q, k) ∈ A -> (q, k) <> (p, o) /\ (q, k) <> (b, o)) by naive_solver.
      tauto. }
    destruct Hc as [[Eb _]|[Ep _]].
    + apply (covers_merge _ _ p o); rewrite <- ?Eb; [by right|by left|].
      intros q k. rewrite Hb1. replace p1 with p by lia. tauto.
    + apply (covers_merge _ _ b o); rewrite <- ?Ep; [by left|by right|].
      intros q k. rewrite Hb1. replace p1 with b by lia. tauto.
Qed.

Lemma free_snoc Ls o l p q k :
  Ls !! o = Some l -> free (<[o := l ++ [p]]> Ls) q k <-> free Ls q k \/ (q, k) = (p, o).
Proof.
  intros Hl. rewrite free_insert by (by eapply lookup_lt_Some). case_decide as Ek; [subst k|naive_solver].
  rewrite (free_lookup _ _ _ _ Hl), elem_of_app, list_elem_of_singleton. naive_solver.
Qed.

(** Freeing a block with a count of its order. *)
Lemma free_spec st Ls A p o count :
  binv st Ls ({[(p, o)]} ∪ A) ∅ -> (p, o) ∉ A -> 1 <= count -> Z.log2_up count = Z.of_nat o ->
  exists st' Ls' p' o' l,
    buddy_free_pages st (p * PAGE_SIZE) count (last_pfn (bmem st)) = Ok st' /\
    binv st' Ls' A ∅ /\ last_pfn (bmem st') = last_pfn (bmem st) /\
    free Ls' p' o' /\ p' <= p /\ p + sz o <= p' + sz o' /\
    (forall q k, free Ls' q k -> free Ls q k \/ (q, k) = (p', o')) /\
    ((o' < 17)%nat -> ~ free Ls' (Z.lxor p' (sz o')) o') /\
    same_cover (blocks Ls ({[(p, o)]} ∪ A)) (blocks Ls' A) /\ Ls' !! o' = Some (l ++ [p']).
Proof.
  intros I HA Hc Ho. assert ((p, o) ∈ {[(p, o)]} ∪ A) as HB by (by apply elem_of_union_l, elem_of_singleton).
  destruct (til_geo _ _ (bi_til _ _ _ _ I) p o (or_intror HB)) as (G1 & G2 & G3 & G4).
  assert (count <= 2 ^ Z.of_nat o) as Hco.
  { rewrite <- Ho. apply Z.log2_up_le_pow2; lia. }
  assert (2 ^ Z.of_nat o <= 2 ^ 63) by (apply Z.pow_le_mono_r; lia).
  pose proof (sz_pos o). pose proof (wf_last _ (bi_wf _ _ _ _ I)) as HL.
  unfold buddy_free_pages, PAGE_SIZE, PAGE_TO_PFN, PAGE_SIZE.
  destruct (Z.eqb_spec (p * 4096) 0); [lia|]. destruct (Z.eqb_spec count 0); [lia|]. cbn [orb].
  rewrite Z.div_mul by lia. cbn zeta. destruct (Z.ltb_spec p (last_pfn (bmem st))); [|lia].
  cbn [enforce]. rewrite bind_Ok, block_order, bind_Ok, Ho by lia.
  rewrite page_for_pfn_Some by lia.
  assert (binv st Ls ({[(p, o)]} ∪ A) {[p]}) as I0.
  { destruct I as [J1 J2 J3 J4 J5 J6 J7 J8 J9 J10]. constructor; try done.
    - intros q k Hq _. eapply J8; [done|apply not_elem_of_empty].
    - intros q ->%elem_of_singleton. by exists o.
    - intros q Hr _. apply J10; [done|apply not_elem_of_empty]. }
  rewrite assert_tag_Ok, bind_Ok by (apply I || lia || by apply (bi_alloc _ _ _ _ I p o)).
  destruct (set_meta_inv _ _ _ _ p (fun x => buddy_page_set_next_pfn x 0) I0) as [E4 I4]; [by apply elem_of_singleton|auto|].
  destruct (set_meta_inv _ _ _ _ p (fun x => buddy_page_set_order x (Z.of_nat o)) I4) as [E5 I5];
    [by apply elem_of_singleton|auto|].
  destruct (tag_inv _ _ _ _ p I5) as [E6 I6]; [by apply elem_of_singleton|]. cbn [bmem areas] in *.
  rewrite E4, bind_Ok, E5, bind_Ok. cbn [bmem areas]. rewrite E6, bind_Ok.
  match type of I6 with binv ?s _ _ _ => set (st6 := s) in * end.
  destruct (coalesce_spec A (last_pfn (bmem st)) 19 st6 Ls p o)
    as (st' & Ls' & p' & o' & E' & L' & I' & HA' & T' & O' & P1 & P2 & N & F & C); try done; try lia.
  { unfold st6. cbn [bmem]. rewrite metaof_put_meta, decide_True by done. by fields. }
  { unfold st6. cbn [bmem]. rewrite !metaof_put_meta, !decide_True by done. fields. apply order_wrap. lia. }
  rewrite E', bind_Ok. cbn [fst snd].
  assert ((p', o') ∈ {[(p', o')]} ∪ A) as HB' by (by apply elem_of_union_l, elem_of_singleton).
  destruct (block_page _ _ _ _ I' p' o' (or_intror HB')) as [_ Ho'].
  destruct (area_list _ _ _ _ I' o' Ho') as (_ & l & _ & Hl & _ & _).
  destruct (push_inv _ _ _ _ I' o' p' l) as (st8 & E8 & I8 & L8 & _ & _); try done; [by apply elem_of_singleton|].
  replace (({[(p', o')]} ∪ A) ∖ {[(p', o')]}) with A in I8 by (clear -HA'; set_solver).
  rewrite difference_diag_L in I8.
  assert (o' < length Ls')%nat as Hol by (by eapply lookup_lt_Some).
  assert (forall q k, free (<[o' := l ++ [p']]> Ls') q k <-> free Ls' q k \/ (q, k) = (p', o')) as Hfr.
  { intros q k. by apply free_snoc. }
  exists st8, (<[o' := l ++ [p']]> Ls'), p', o', l. split_and!; try done; try lia.
  - apply Hfr. by right.
  - intros q k [?|?]%Hfr; [left; auto|by right].
  - intros Hlt [Hq|[= Hq]]%Hfr; [by apply N|]. pose proof (sz_pos o').
    pose proof (buddy_cases p' o') as Hc'. cbn zeta in Hc'. rewrite Hq in Hc'.
    destruct (til_geo _ _ (bi_til _ _ _ _ I') p' o' (or_intror HB')) as (_ & ? & _).
    destruct Hc' as [[]|[]]; [done|lia|lia].
  - intros x. rewrite (C x). revert x.
    enough (forall q k, blocks Ls' ({[(p', o')]} ∪ A) q k <-> blocks (<[o' := l ++ [p']]> Ls') A q k) as Hq.
    { intros x. unfold covers. by setoid_rewrite Hq. }
    intros q k. unfold blocks. rewrite Hfr, elem_of_union, elem_of_singleton. tauto.
  - by apply list_lookup_insert_eq.
Qed.

(** ** Merging is complete *)

Lemma carved_coalesced st Ls Ls' A p l order cur :
  binv st Ls A ∅ -> Ls !! cur = Some (p :: l) -> carved Ls Ls' p l order cur ->
  coalesced Ls -> coalesced Ls'.
Proof.
  intros I Hl [C1 C2 C3] Hc q o Ho (r & Hr & Hq) (r' & Hr' & Hq').
  assert (r' = r) as -> by congruence.
  assert (free Ls p cur) as Hp by (exists (p :: l); split; [done|constructor]).
  destruct (til_geo _ _ (bi_til _ _ _ _ I) p cur (or_introl Hp)) as (_ & D & _ & _).
  destruct (decide (o = cur)) as [->|].
  { assert (r = l) as -> by congruence.
    apply (Hc q cur Ho); exists (p :: l); (split; [done|by constructor]). }
  destruct (decide (order <= o < cur)%nat).
  - rewrite C2 in Hr by done. injection Hr as <-.
    apply list_elem_of_singleton in Hq as ->. apply list_elem_of_singleton in Hq'.
    pose proof (buddy_cases (p + sz o) o) as Hb. cbn zeta in Hb. rewrite Hq' in Hb. pose proof (sz_pos o).
    destruct Hb as [[]|[]]; [|lia|lia]. apply Z.divide_add_r; [|done].
    etrans; [apply (sz_divide o cur); lia|done].
  - apply (Hc q o Ho); exists r; (split; [|done]); rewrite <- C3 by lia; done.
Qed.

(** ** The theorems *)

(** C10: [buddy_alloc_pages] on a valid allocator with a free block: it takes the
    head [p] of the first non-empty list at or above the order of [count],
    returns its address, and hands out exactly the block ([p], order); the
    upper halves of the splits stay on the lists, one per order, no page is
    lost, the invariant holds again (so the block is aligned, inside the page
    array and disjoint from every other block), and complete merging is kept. *)
Theorem buddy_alloc_pages_correct st Ls A count order cur p l :
  binv st Ls A ∅ -> 1 <= count <= 2 ^ 63 -> Z.log2_up count = Z.of_nat order ->
  (order <= cur < 18)%nat -> Ls !! cur = Some (p :: l) ->
  (forall j, (order <= j < cur)%nat -> Ls !! j = Some []) ->
  exists st' Ls', buddy_alloc_pages st count = Ok (st', p * PAGE_SIZE) /\
    binv st' Ls' ({[(p, order)]} ∪ A) ∅ /\ ((p, order) ∉ A) /\
    carved Ls Ls' p l order cur /\
    same_cover (blocks Ls A) (blocks Ls' ({[(p, order)]} ∪ A)) /\
    (coalesced Ls -> coalesced Ls').
Proof.
  intros I Hc Ho Hcur Hl He.
  destruct (alloc_spec st Ls A count order cur p l I Hc Ho Hcur Hl He) as (st' & Ls' & E & I' & C & _).
  exists st', Ls'. split_and!; try done.
  - intros Hin. assert (free Ls p cur) as Hf by (exists (p :: l); split; [done|constructor]).
    by eapply (B_not_free _ _ _ _ I p order cur).
  - apply (carved_cover _ _ _ _ l _ cur); (done || lia).
  - by eapply carved_coalesced.
Qed.

Lemma first_block_witness_lists j :
  (2 <= j < 4)%nat -> (<[4%nat := [16]]> (replicate 18 [])) !! j = Some ([] : list Z).
Proof. intros Hj. rewrite list_lookup_insert_ne by lia. apply lookup_replicate_2. lia. Qed.

(** Witness for C10: three pages out of a free block of sixteen. *)
Lemma buddy_alloc_pages_correct_witness :
  exists st Ls st' Ls', binv st Ls ∅ ∅ /\ buddy_alloc_pages st 3 = Ok (st', 16 * PAGE_SIZE) /\
    binv st' Ls' ({[(16, 2%nat)]} ∪ ∅) ∅ /\ ((16, 2%nat) ∉ (∅ : gset (Z * nat))) /\
    carved Ls Ls' 16 [] 2 4 /\
    same_cover (blocks Ls ∅) (blocks Ls' ({[(16, 2%nat)]} ∪ ∅)) /\
    (coalesced Ls -> coalesced Ls').
Proof.
  destruct one_block as (st & I & _).
  destruct (buddy_alloc_pages_correct st _ ∅ 3 2 4 16 [] I) as (st' & Ls' & H).
  - lia.
  - done.
  - lia.
  - done.
  - apply first_block_witness_lists.
  - exact (ex_intro _ st (ex_intro _ _ (ex_intro _ st' (ex_intro _ Ls' (conj I H))))).
Defined.

(** [buddy_alloc_pages] panics, and does nothing else, when no pages are
    asked for, when more than 2^17 are, and when no list at or above the order
    has a block. *)
Theorem buddy_alloc_pages_panics st Ls A count :
  binv st Ls A ∅ -> 0 <= count <= 2 ^ 63 ->
  count = 0 \/ 2 ^ 17 < count \/
    (forall o, Z.log2_up count <= Z.of_nat o -> (o < 18)%nat -> Ls !! o = Some []) ->
  buddy_alloc_pages st count = Panic.
Proof.
  intros I Hc Hor. unfold buddy_alloc_pages. destruct (Z.eqb_spec count 0); [done|].
  rewrite block_order, bind_Ok by lia. unfold BUDDY_MAX_ORDER.
  pose proof (Z.log2_up_nonneg count) as Hn. destruct (Z.leb_spec 18 (Z.log2_up count)); [done|].
  destruct Hor as [?|[Hbig|He]]; [done| |].
  { assert (17 < Z.log2_up count) by (apply Z.log2_up_lt_pow2; lia). lia. }
  rewrite <- (Z2Nat.id (Z.log2_up count)) by lia.
  rewrite (find_order_spec st Ls A ∅ 19 _ 18) by (done || lia || (intros; apply He; lia)).
  rewrite bind_Ok. done.
Qed.

(** Witness 32 pages are more than the free block of 16. *)
Lemma buddy_alloc_pages_panics_witness :
  exists st Ls, binv st Ls ∅ ∅ /\ buddy_alloc_pages st 32 = Panic.
Proof.
  destruct one_block as (st & I & _). exists st, (<[4%nat := [16]]> (replicate 18 [])). split; [done|].
  apply (buddy_alloc_pages_panics st _ ∅ 32 I); [lia|]. right. right. intros o Ho Hlt.
  change (Z.log2_up 32) with 5 in Ho. rewrite list_lookup_insert_ne by lia. apply lookup_replicate_2. lia.
Defined.

(** C9: [buddy_free_pages] of a block that was handed out, with a count of its
    order: it succeeds, the block ends up inside one free block ([p'], [o']) at
    the end of its list, the other free blocks were free before, no page is
    lost, the invariant holds with the block no longer handed out, and merging
    is complete again if it was before. *)
Theorem buddy_free_pages_correct st Ls A p o count :
  binv st Ls ({[(p, o)]} ∪ A) ∅ -> (p, o) ∉ A -> 1 <= count -> Z.log2_up count = Z.of_nat o ->
  exists st' Ls' p' o',
    buddy_free_pages st (p * PAGE_SIZE) count (last_pfn (bmem st)) = Ok st' /\
    binv st' Ls' A ∅ /\ free Ls' p' o' /\ p' <= p /\ p + sz o <= p' + sz o' /\
    (forall q k, free Ls' q k -> free Ls q k \/ (q, k) = (p', o')) /\
    same_cover (blocks Ls ({[(p, o)]} ∪ A)) (blocks Ls' A) /\
    (coalesced Ls -> coalesced Ls').
Proof.
  intros I HA Hc Ho.
  destruct (free_spec st Ls A p o count I HA Hc Ho)
    as (st' & Ls' & p' & o' & l & E & I' & _ & Hf & H1 & H2 & H3 & H4 & H5 & _).
  exists st', Ls', p', o'. split_and!; try done. intros Hco q k Hk Hq Hb.
  destruct (H3 _ _ Hq) as [Hq0|[= -> ->]]; [|by apply H4].
  destruct (H3 _ _ Hb) as [Hb0|[= Hb1 ->]]; [by apply (Hco q k)|].
  apply (H4 Hk). by rewrite <- Hb1, Z.lxor_assoc, Z.lxor_nilpotent, Z.lxor_0_r.
Qed.

(** Witness for C9: the three pages allocated before go back. *)
Lemma buddy_free_pages_correct_witness :
  exists st Ls st' Ls' p' o', binv st Ls ({[(16, 2%nat)]} ∪ ∅) ∅ /\
    buddy_free_pages st (16 * PAGE_SIZE) 3 (last_pfn (bmem st)) = Ok st' /\
    binv st' Ls' ∅ ∅ /\ free Ls' p' o' /\ p' <= 16 /\ 16 + sz 2 <= p' + sz o' /\
    (forall q k, free Ls' q k -> free Ls q k \/ (q, k) = (p', o')) /\
    same_cover (blocks Ls ({[(16, 2%nat)]} ∪ ∅)) (blocks Ls' ∅) /\
    (coalesced Ls -> coalesced Ls').
Proof.
  destruct one_block as (st0 & I0 & _).
  destruct (alloc_spec st0 _ ∅ 3 2 4 16 [] I0) as (st & Ls & _ & I & _);
    [lia|done|lia|done|apply first_block_witness_lists|].
  destruct (buddy_free_pages_correct st Ls ∅ 16 2 3 I) as (st' & Ls' & p' & o' & H);
    [apply not_elem_of_empty|lia|done|].
  exact (ex_intro _ st (ex_intro _ Ls (ex_intro _ st' (ex_intro _ Ls'
    (ex_intro _ p' (ex_intro _ o' (conj I H))))))).
Defined.

(** Freeing a page that heads a free block (a double free) panics. *)
Theorem buddy_double_free_panics st Ls A p o count :
  binv st Ls A ∅ -> free Ls p o -> 1 <= count <= 2 ^ 63 ->
  buddy_free_pages st (p * PAGE_SIZE) count (last_pfn (bmem st)) = Panic.
Proof.
  intros I Hf Hc. destruct (block_page _ _ _ _ I p o (or_introl Hf)) as [Hp _].
  unfold buddy_free_pages, PAGE_TO_PFN, PAGE_SIZE.
  destruct (Z.eqb_spec (p * 4096) 0); [lia|]. destruct (Z.eqb_spec count 0); [lia|]. cbn [orb].
  rewrite Z.div_mul by lia. cbn zeta. destruct (Z.ltb_spec p (last_pfn (bmem st))); [|lia].
  cbn [enforce]. rewrite bind_Ok, block_order, bind_Ok by lia. rewrite page_for_pfn_Some by lia.
  unfold buddy_page_assert_tag. rewrite get_meta_Ok, bind_Ok by (apply I || lia).
  rewrite page_get_tag_field. destruct (bi_hdr _ _ _ _ I o p Hf) as (-> & _ & _). done.
Qed.

Lemma buddy_double_free_panics_witness :
  exists st Ls, binv st Ls ∅ ∅ /\ buddy_free_pages st (16 * PAGE_SIZE) 1 (last_pfn (bmem st)) = Panic.
Proof.
  destruct one_block as (st & I & _). exists st, (<[4%nat := [16]]> (replicate 18 [])). split; [done|].
  apply (buddy_double_free_panics st _ ∅ 16 4 1 I); [|lia].
  exists [16]. split; [done|constructor].
Defined.

(** ** Any client *)

(** Lists from order [o] on are empty, or there is a first one that is not. *)
Lemma first_nonempty (Ls : list (list Z)) : forall d o,
  length Ls = 18%nat -> (o + d = 18)%nat ->
  (forall j, (o <= j < 18)%nat -> Ls !! j = Some []) \/
  exists cur p l, (o <= cur < 18)%nat /\ Ls !! cur = Some (p :: l) /\
    forall j, (o <= j < cur)%nat -> Ls !! j = Some [].
Proof.
  induction d as [|d IH]; intros o HL Ho; [left; lia|].
  destruct (lookup_lt_is_Some_2 Ls o) as [[|p l] Hl]; [lia| |].
  - destruct (IH (S o) HL) as [He|(cur & p & l & Hc & Hl' & He)]; [lia|left|right].
    + intros j Hj. destruct (decide (j = o)) as [->|]; [done|]. apply He. lia.
    + exists cur, p, l. split_and!; try done; try lia. intros j Hj.
      destruct (decide (j = o)) as [->|]; [done|]. apply He. lia.
  - right. exists o, p, l. split_and!; try done; lia.
Qed.

(** An allocation panics or hands out a block. *)
Lemma alloc_cases st Ls A count :
  binv st Ls A ∅ -> 1 <= count <= 2 ^ 63 ->
  buddy_alloc_pages st count = Panic \/
  exists st' Ls' p, buddy_alloc_pages st count = Ok (st', p * PAGE_SIZE) /\ 0 < p /\
    binv st' Ls' ({[(p, Z.to_nat (Z.log2_up count))]} ∪ A) ∅ /\
    ((p, Z.to_nat (Z.log2_up count)) ∉ A) /\ last_pfn (bmem st') = last_pfn (bmem st).
Proof.
  intros I Hc. pose proof (Z.log2_up_nonneg count). set (o := Z.to_nat (Z.log2_up count)).
  destruct (decide (o < 18)%nat) as [Ho|Ho].
  - destruct (first_nonempty Ls (18 - o) o (bi_llen _ _ _ _ I)) as [He|(cur & p & l & Hcur & Hl & He)]; [lia| |].
    + left. unfold buddy_alloc_pages. destruct (Z.eqb_spec count 0); [lia|].
      rewrite block_order, bind_Ok by lia. unfold BUDDY_MAX_ORDER.
      replace (Z.log2_up count) with (Z.of_nat o) by (unfold o; lia).
      destruct (Z.leb_spec 18 (Z.of_nat o)); [lia|].
      rewrite (find_order_spec st Ls A ∅ 19 o 18) by (done || lia). done.
    + right. destruct (alloc_spec st Ls A count o cur p l) as (st' & Ls' & E & I' & _ & L'); try done.
      { unfold o. lia. }
      assert (free Ls p cur) as Hf by (exists (p :: l); split; [done|constructor]).
      destruct (block_page _ _ _ _ I p cur (or_introl Hf)) as [Hp _].
      exists st', Ls', p. split_and!; try done; try lia.
      intros Hin. by eapply (B_not_free _ _ _ _ I p o cur).
  - left. unfold buddy_alloc_pages. destruct (Z.eqb_spec count 0); [lia|].
    rewrite block_order, bind_Ok by lia. unfold BUDDY_MAX_ORDER.
    destruct (Z.leb_spec 18 (Z.log2_up count)); [done|unfold o in *; lia].
Qed.

(** The memory of a block in use may hold anything. *)
Definition scribble (st : buddy) (q : Z) (v : option Z) : buddy :=
  mkBuddy (put_prev (bmem st) q v) (areas st).

Lemma scribble_inv st Ls A q v p o :
  binv st Ls A ∅ -> (p, o) ∈ A -> p <= q < p + sz o -> binv (scribble st q v) Ls A ∅.
Proof.
  intros I HA Hq. destruct (til_geo _ _ (bi_til _ _ _ _ I) p o (or_intror HA)) as (G1 & G2 & G3 & G4).
  constructor; try apply I; cbn [bmem scribble areas].
  - apply wf_put_prev; [apply I|lia].
  - intros k a l Ha Hl. destruct (bi_rep _ _ _ _ I k a l Ha Hl) as [R1 R2 R3 R4 R5 R6].
    constructor; try done. eapply seg_frame; [|done]. intros x Hx. split; [done|].
    rewrite prevof_put_prev, decide_False; [done|]. intros ->.
    assert (free Ls q k) as Hf by (by exists l). pose proof (sz_pos k).
    destruct (til_disj _ _ (bi_til _ _ _ _ I) q k p o (or_introl Hf) (or_intror HA)) as [[-> ->]|[?|?]]; [|lia|lia].
    by eapply (B_not_free _ _ _ _ I p o o).
Qed.

(** A client allocates, frees what it holds, and writes to memory it holds. *)
Inductive client_step : buddy * gset (Z * nat) -> buddy * gset (Z * nat) -> Prop :=
  | cs_alloc st A count st' addr :
      1 <= count <= 2 ^ 63 -> buddy_alloc_pages st count = Ok (st', addr) ->
      client_step (st, A) (st', {[(PAGE_TO_PFN addr, Z.to_nat (Z.log2_up count))]} ∪ A)
  | cs_free st A p o count st' :
      (p, o) ∈ A -> 1 <= count -> Z.log2_up count = Z.of_nat o ->
      buddy_free_pages st (p * PAGE_SIZE) count (last_pfn (bmem st)) = Ok st' ->
      client_step (st, A) (st', A ∖ {[(p, o)]})
  | cs_write st A p o q v :
      (p, o) ∈ A -> p <= q < p + sz o -> client_step (st, A) (scribble st q v, A).

Lemma client_step_inv st A st' A' :
  client_step (st, A) (st', A') -> (exists Ls, binv st Ls A ∅) ->
  last_pfn (bmem st') = last_pfn (bmem st) /\ exists Ls', binv st' Ls' A' ∅.
Proof.
  intros Hstep [Ls I]. inversion Hstep as [? ? count ? addr Hc E|? ? p o count ? HA Hc Ho E|? ? p o q v HA Hq]; subst.
  - destruct (alloc_cases st Ls A count I Hc) as [E'|(st1 & Ls' & p & E' & Hp & I' & _ & L')]; [congruence|].
    rewrite E in E'. injection E' as -> ->. unfold PAGE_TO_PFN. rewrite Z.div_mul by done. eauto.
  - assert (A = {[(p, o)]} ∪ A ∖ {[(p, o)]}) as EA.
    { apply union_difference_L. by apply singleton_subseteq_l. }
    rewrite EA in I. destruct (free_spec st Ls _ p o count I) as (st1 & Ls' & p' & o' & l & E' & I' & L' & _); try done.
    { intros [_ Hn]%elem_of_difference. by destruct Hn; apply elem_of_singleton. }
    rewrite E in E'. injection E' as ->. eauto.
  - split; [done|]. exists Ls. by eapply scribble_inv.
Qed.

(** C1: whatever a client does with an allocator that starts valid and with
    nothing handed out, allocating 1 to 2^63 pages at a time, freeing blocks it
    holds and writing to their memory in any order: the blocks it holds are always
    aligned, inside the page array and pairwise disjoint; an allocation panics
    or returns a non-zero address of a block disjoint from all it holds, and
    does not fault; and freeing a block it holds succeeds. *)
Theorem buddy_client_safe st0 Ls0 st A :
  binv st0 Ls0 ∅ ∅ -> rtc client_step (st0, ∅) (st, A) ->
  tiling (last_pfn (bmem st0)) (fun p o => (p, o) ∈ A) /\
  (forall count, 1 <= count <= 2 ^ 63 ->
     buddy_alloc_pages st count = Panic \/
     exists st' p, buddy_alloc_pages st count = Ok (st', p * PAGE_SIZE) /\ 0 < p /\
       forall q k, (q, k) ∈ A -> p + sz (Z.to_nat (Z.log2_up count)) <= q \/ q + sz k <= p) /\
  (forall p o count, (p, o) ∈ A -> 1 <= count -> Z.log2_up count = Z.of_nat o ->
     exists st', buddy_free_pages st (p * PAGE_SIZE) count (last_pfn (bmem st)) = Ok st').
Proof.
  intros I0 Hr.
  assert (last_pfn (bmem st) = last_pfn (bmem st0) /\ exists Ls, binv st Ls A ∅) as [HL [Ls I]].
  { remember (st0, ∅) as s0 eqn:E0. remember (st, A) as s1 eqn:E1. revert st0 Ls0 I0 st A E0 E1.
    enough (forall s0 s1, rtc client_step s0 s1 -> (exists Ls, binv s0.1 Ls s0.2 ∅) ->
      last_pfn (bmem s1.1) = last_pfn (bmem s0.1) /\ exists Ls, binv s1.1 Ls s1.2 ∅) as Hall.
    { intros st0 Ls0 I0 st A -> ->. apply (Hall _ _ Hr). by exists Ls0. }
    clear. intros s0 s1 Hr. induction Hr as [s|[s A] [s' A'] s2 Hs _ IH]; [done|]. intros HI.
    destruct (client_step_inv s A s' A' Hs HI) as [L1 HI']. destruct (IH HI') as [L2 ?].
    split; [cbn in *; congruence|done]. }
  split_and!.
  - rewrite <- HL. eapply tiling_sub; [apply I|]. intros p o ?. by right.
  - intros count Hc. destruct (alloc_cases st Ls A count I Hc) as [?|(st' & Ls' & p & E & Hp & I' & Hn & _)];
      [by left|right]. exists st', p. split_and!; try done. intros q k Hq.
    destruct (til_disj _ _ (bi_til _ _ _ _ I') p (Z.to_nat (Z.log2_up count)) q k) as [[Ep Eo]|?];
      [right; by apply elem_of_union_l, elem_of_singleton|right; by apply elem_of_union_r| |done].
    destruct Hn. by rewrite Ep, Eo.
  - intros p o count HA Hc Ho.
    assert (A = {[(p, o)]} ∪ A ∖ {[(p, o)]}) as EA.
    { apply union_difference_L. by apply singleton_subseteq_l. }
    rewrite EA in I. destruct (free_spec st Ls _ p o count I) as (st1 & ? & ? & ? & ? & E & _); try done; [|eauto].
    intros [_ Hn]%elem_of_difference. by destruct Hn; apply elem_of_singleton.
Qed.

(** Witness for C1: a client that holds a block of four pages. *)
Lemma buddy_client_safe_witness :
  exists st0 Ls0 st, binv st0 Ls0 ∅ ∅ /\ rtc client_step (st0, ∅) (st, {[(16, 2%nat)]} ∪ ∅) /\
    tiling (last_pfn (bmem st0)) (fun p o => (p, o) ∈ ({[(16, 2%nat)]} ∪ ∅ : gset (Z * nat))).
Proof.
  destruct one_block as (st0 & I0 & _).
  destruct (alloc_spec st0 _ ∅ 3 2 4 16 [] I0) as (st & Ls & E & I & _);
    [lia|done|lia|done|apply first_block_witness_lists|].
  assert (rtc client_step (st0, ∅) (st, {[(16, 2%nat)]} ∪ ∅)) as Hr.
  { apply rtc_once. apply (cs_alloc st0 ∅ 3 st (16 * PAGE_SIZE)); [lia|exact E]. }
  exact (ex_intro _ st0 (ex_intro _ _ (ex_intro _ st (conj I0 (conj Hr
    (proj1 (buddy_client_safe st0 _ st _ I0 Hr))))))).
Defined.
