(* ===== verification/UInt128.v ===== *)
(** * 128-bit arithmetic support routines

    Models [kernel/types/ui128_t.c], the routines the compiler calls for 128-bit
    integers: shifts, multiplication from 64-bit halves, division, bit counts
    and the overflow-checked operations.  A [uint128_t] is a [Z] in
    [0, 2^128), an [int128_t] a [Z] in [-2^127, 2^127); the two halves of the
    union [u128_parts] are [lo] and [hi].  Shift counts are in [0, 128), as C
    requires of the caller. *)

From S2P Require Import Prelude BitMath.

(** ** The code *)

Definition lo (x : Z) : Z := wrap 64 x.
Definition hi (x : Z) : Z := wrap 64 (Z.shiftr x 64).
(** The union read as one number. *)
Definition all (h l : Z) : Z := Z.lor (Z.shiftl h 64) l.

Definition INT128_MIN : Z := - 2 ^ 127.

(** The (hi, lo) halves of the product of two 64-bit numbers. *)
Definition mul64_wide (a b : Z) : Z * Z :=
  let a_lo := u32 a in let a_hi := Z.shiftr a 32 in
  let b_lo := u32 b in let b_hi := Z.shiftr b 32 in
  let p0 := u64 (a_lo * b_lo) in
  let p1 := u64 (a_lo * b_hi) in
  let p2 := u64 (a_hi * b_lo) in
  let p3 := u64 (a_hi * b_hi) in
  let mid := u64 (Z.shiftr p0 32 + u32 p1 + u32 p2) in
  (u64 (p3 + Z.shiftr p1 32 + Z.shiftr p2 32 + Z.shiftr mid 32),
   Z.lor (Z.land p0 4294967295) (u64 (Z.shiftl mid 32))).

Definition popcount64 (x : Z) : Z :=
  let x := u64 (x - Z.land (Z.shiftr x 1) 0x5555555555555555) in
  let x := u64 (Z.land x 0x3333333333333333 + Z.land (Z.shiftr x 2) 0x3333333333333333) in
  let x := Z.land (u64 (x + Z.shiftr x 4)) 0x0F0F0F0F0F0F0F0F in
  Z.shiftr (u64 (x * 0x0101010101010101)) 56.

Definition __ashlti3 (a b : Z) : Z :=
  if b =? 0 then a
  else if 64 <=? b then all (u64 (Z.shiftl (lo a) (b - 64))) 0
  else all (Z.lor (u64 (Z.shiftl (hi a) b)) (Z.shiftr (lo a) (64 - b))) (u64 (Z.shiftl (lo a) b)).

Definition __lshrti3 (a b : Z) : Z :=
  if b =? 0 then a
  else if 64 <=? b then all 0 (Z.shiftr (hi a) (b - 64))
  else all (Z.shiftr (hi a) b) (Z.lor (Z.shiftr (lo a) b) (u64 (Z.shiftl (hi a) (64 - b)))).

Definition __ashrti3 (a b : Z) : Z :=
  let x := u128 a in
  let fill := u64 (Z.shiftr (i64 (hi x)) 63) in
  if b =? 0 then a
  else i128 (if 64 <=? b then all fill (u64 (Z.shiftr (i64 (hi x)) (b - 64)))
             else all (u64 (Z.shiftr (i64 (hi x)) b))
                      (Z.lor (Z.shiftr (lo x) b) (u64 (Z.shiftl (hi x) (64 - b))))).

Definition __negti2 (a : Z) : Z :=
  let x := u128 a in
  let l := u64 (not_w 64 (lo x) + 1) in
  let h := u64 (not_w 64 (hi x) + (if l =? 0 then 1 else 0)) in
  i128 (all h l).

Definition __multi3 (a b : Z) : Z :=
  let ap := u128 a in let bp := u128 b in
  let '(h, l) := mul64_wide (lo ap) (lo bp) in
  i128 (all (u64 (h + lo ap * hi bp + hi ap * lo bp)) l).

(** [for (int i = msb; i >= 0; i--)] of [__udivmodti4], with [k = i + 1]. *)
Fixpoint div_loop (k : nat) (n d q r : Z) : Z * Z :=
  match k with
  | O => (q, r)
  | S i' =>
      let i := Z.of_nat i' in
      let r := Z.lor (u128 (Z.shiftl r 1)) (Z.land (Z.shiftr n i) 1) in
      if d <=? r then div_loop i' n d (Z.lor q (u128 (Z.shiftl 1 i))) (r - d)
      else div_loop i' n d q r
  end.

(** The quotient and the remainder stored through [rem]. *)
Definition __udivmodti4 (n d : Z) : outcome (Z * Z) :=
  if d =? 0 then Panic
  else if (hi n =? 0) && (hi d =? 0) then Ok (lo n `div` lo d, lo n `mod` lo d)
  else if n <? d then Ok (0, n)
  else
    msb ← (if negb (hi n =? 0) then z ← clzll (hi n); Ok (127 - z)
           else z ← clzll (lo n); Ok (63 - z));
    Ok (div_loop (Z.to_nat (msb + 1)) n d 0 0).

Definition __udivti3 (a b : Z) : outcome Z := r ← __udivmodti4 a b; Ok r.1.

Definition __divmodti4 (a b : Z) : outcome (Z * Z) :=
  let neg_q := xorb (a <? 0) (b <? 0) in
  let neg_r := a <? 0 in
  let ua := if a <? 0 then u128 (- u128 a) else u128 a in
  let ub := if b <? 0 then u128 (- u128 b) else u128 b in
  r ← __udivmodti4 ua ub;
  Ok (if neg_q then i128 (- i128 r.1) else i128 r.1,
      if neg_r then i128 (- i128 r.2) else i128 r.2).

Definition __divti3 (a b : Z) : outcome Z := r ← __divmodti4 a b; Ok r.1.


Definition __clzti2 (a : Z) : outcome Z :=
  if negb (hi a =? 0) then clzll (hi a) else z ← clzll (lo a); Ok (64 + z).
Definition __ctzti2 (a : Z) : outcome Z :=
  if negb (lo a =? 0) then ctzll (lo a) else z ← ctzll (hi a); Ok (64 + z).
Definition __ffsti2 (a : Z) : outcome Z :=
  let p := u128 a in
  if negb (lo p =? 0) then z ← ctzll (lo p); Ok (z + 1)
  else if negb (hi p =? 0) then z ← ctzll (hi p); Ok (z + 65)
  else Ok 0.

Definition __popcountti2 (a : Z) : Z := popcount64 (lo a) + popcount64 (hi a).
Definition __parityti2 (a : Z) : Z := Z.land (popcount64 (Z.lxor (lo a) (hi a))) 1.

Definition __negvti2 (a : Z) : outcome Z := if a =? INT128_MIN then Panic else Ok (__negti2 a).
Definition __absvti2 (a : Z) : outcome Z :=
  if a =? INT128_MIN then Panic else Ok (if a <? 0 then __negti2 a else a).
Definition __addvti3 (a b : Z) : outcome Z :=
  let r := i128 (u128 a + u128 b) in
  if Z.land (Z.lxor a r) (Z.lxor b r) <? 0 then Panic else Ok r.
Definition __subvti3 (a b : Z) : outcome Z :=
  let r := i128 (u128 a - u128 b) in
  if Z.land (Z.lxor a b) (Z.lxor a r) <? 0 then Panic else Ok r.
Definition __mulvti3 (a b : Z) : outcome Z :=
  let r := __multi3 a b in
  if a =? 0 then Ok r else
  q ← __divti3 r a;
  if negb (q =? b) || ((a =? -1) && (b =? INT128_MIN)) then Panic else Ok r.

(** ** Halves *)

Lemma lo_range x : in_u 64 (lo x).
Proof. by apply wrap_range. Qed.
Lemma hi_range x : in_u 64 (hi x).
Proof. by apply wrap_range. Qed.
#[local] Hint Resolve lo_range hi_range : core.

Lemma all_sum h l : in_u 64 l -> all h l = h * 2 ^ 64 + l.
Proof.
  intros Hl. unfold all. rewrite lor_add_disjoint.
  - by rewrite Z.shiftl_mul_pow2 by lia.
  - rewrite <- (wrap_small 64 l Hl). zbits.
Qed.

Lemma hi_div x : in_u 128 x -> hi x = x `div` 2 ^ 64.
Proof.
  intros [H1 H2]. unfold hi. rewrite Z.shiftr_div_pow2 by lia. apply wrap_small. unfold in_u.
  split; [by apply Z.div_pos|]. apply Z.div_lt_upper_bound; lia.
Qed.

Lemma split_halves x : in_u 128 x -> x = hi x * 2 ^ 64 + lo x.
Proof. intros Hx. rewrite hi_div by done. unfold lo, wrap. rewrite Z.mul_comm. by apply Z.div_mod. Qed.

Lemma all_halves x : in_u 128 x -> all (hi x) (lo x) = x.
Proof. intros Hx. rewrite all_sum by done. symmetry. by apply split_halves. Qed.

Lemma all_range h l : in_u 64 h -> in_u 64 l -> in_u 128 (all h l).
Proof. intros Hh Hl. rewrite all_sum by done. unfold in_u in *. lia. Qed.

(** ** Shifts *)

Lemma ashlti3_spec a b : in_u 128 a -> 0 <= b < 128 -> __ashlti3 a b = u128 (Z.shiftl a b).
Proof.
  intros Ha Hb. unfold __ashlti3. destruct (Z.eqb_spec b 0) as [->|].
  { rewrite Z.shiftl_0_r. symmetry. by apply wrap_small. }
  unfold all, lo, hi. destruct (Z.leb_spec 64 b); apply Z.bits_inj'; intros i Hi;
    (destruct (decide (i < 64)); [|destruct (decide (i < 128))]);
    zbits_norm; zbits_split; zbits_norm; zbits_neg; zbits_norm; try done; try (f_equal; lia).
Qed.

Lemma lshrti3_spec a b : in_u 128 a -> 0 <= b < 128 -> __lshrti3 a b = Z.shiftr a b.
Proof.
  intros Ha Hb. unfold __lshrti3. destruct (Z.eqb_spec b 0) as [->|]; [by rewrite Z.shiftr_0_r|].
  unfold all, lo, hi. destruct (Z.leb_spec 64 b); apply Z.bits_inj'; intros i Hi;
    (destruct (decide (i < 64)); [|destruct (decide (i < 128))]);
    zbits_norm; zbits_split; zbits_norm; zbits_neg; zbits_norm; try done; try (f_equal; lia);
    symmetry; apply (testbit_small 128); (done || lia).
Qed.

(** Bits of a signed number of width [w] beyond the width repeat the sign. *)
Lemma testbit_sgn w x i :
  0 < w -> 0 <= i -> Z.testbit (sgn w x) i = if i <? w then Z.testbit x i else Z.testbit x (w - 1).
Proof.
  intros Hw Hi. assert (Z.testbit x (w - 1) = negb (wrap w x <? 2 ^ (w - 1))) as Hs.
  { transitivity (Z.testbit (wrap w x) (w - 1)).
    { rewrite testbit_wrap by lia. destruct (Z.ltb_spec (w - 1) w); [done|lia]. }
    pose proof (wrap_range w x ltac:(lia)) as [H1 H2].
    assert (2 ^ w = 2 * 2 ^ (w - 1)) as Ew by (rewrite <- Z.pow_succ_r by lia; f_equal; lia).
    rewrite Z.testbit_eqb by lia. destruct (Z.ltb_spec (wrap w x) (2 ^ (w - 1))) as [Hlt|Hge]; cbn.
    - by rewrite Z.div_small by lia.
    - replace (wrap w x `div` 2 ^ (w - 1)) with 1; [done|].
      apply Z.div_unique with (wrap w x - 2 ^ (w - 1)); lia. }
  unfold sgn. rewrite Hs. destruct (Z.ltb_spec (wrap w x) (2 ^ (w - 1))) as [Hlt|Hge]; cbn [negb].
  - rewrite testbit_wrap by lia. by destruct (Z.ltb_spec i w).
  - rewrite <- (Z.lnot_involutive (wrap w x - 2 ^ w)), Z.lnot_spec by lia.
    replace (Z.lnot (wrap w x - 2 ^ w)) with (not_w w x).
    + rewrite not_w_alt, testbit_wrap, Z.lnot_spec by lia.
      destruct (Z.ltb_spec i w); cbn; [apply negb_involutive|done].
    + pose proof (wrap_range w x ltac:(lia)) as Hr.
      unfold not_w. rewrite <- (wrap_wrap w x). fold (not_w w (wrap w x)).
      rewrite not_w_arith by (done || lia). rewrite wrap_wrap. unfold Z.lnot. lia.
Qed.

Lemma ashrti3_spec a b : in_s 128 a -> 0 <= b < 128 -> __ashrti3 a b = Z.shiftr a b.
Proof.
  intros Ha Hb. unfold __ashrti3. destruct (Z.eqb_spec b 0) as [->|]; [by rewrite Z.shiftr_0_r|].
  assert (forall j, 0 <= j -> Z.testbit a j = if j <? 128 then Z.testbit a j else Z.testbit a 127) as Hsign.
  { intros j Hj. rewrite <- (sgn_small 128 a) at 1 by (done || lia). by rewrite testbit_sgn by lia. }
  assert (forall y, y = u128 (Z.shiftr a b) -> i128 y = Z.shiftr a b) as Hy.
  { intros y ->. rewrite sgn_wrap. apply sgn_small; [lia|]. unfold in_s in *.
    rewrite Z.shiftr_div_pow2 by lia. assert (0 < 2 ^ b) by (apply Z.pow_pos_nonneg; lia).
    split; [apply Z.div_le_lower_bound; nia|apply Z.div_lt_upper_bound; nia]. }
  apply Hy. assert (forall j, 0 <= j -> Z.testbit (i64 (hi (u128 a))) j = Z.testbit a (j + 64)) as Hhi.
  { intros j Hj. rewrite testbit_sgn by lia. unfold hi. zbits_norm.
    destruct (Z.ltb_spec j 64); zbits_norm; zbits_split; zbits_norm; [done|].
    rewrite (Hsign (j + 64)) by lia. destruct (Z.ltb_spec (j + 64) 128); [lia|done]. }
  destruct (Z.leb_spec 64 b); unfold all; apply Z.bits_inj'; intros i Hi;
    (destruct (decide (i < 64)); [|destruct (decide (i < 128))]); unfold lo;
    zbits_norm; zbits_split; zbits_norm; zbits_neg; zbits_norm; rewrite ?Hhi by lia;
    try done; try (f_equal; lia).
  - assert (forall j, 127 <= j -> Z.testbit a j = Z.testbit a 127) as Hs.
    { intros j Hj. rewrite Hsign by lia. destruct (Z.ltb_spec j 128); [by replace j with 127 by lia|done]. }
    rewrite (Hs (i - 64 + 63 + 64)), (Hs (i + b)) by lia. done.
  - unfold hi. zbits_norm. zbits_split; zbits_norm; f_equal; lia.
Qed.

(** ** Multiplication *)

Lemma mul64_wide_spec a b h l :
  in_u 64 a -> in_u 64 b -> mul64_wide a b = (h, l) ->
  in_u 64 h /\ in_u 64 l /\ h * 2 ^ 64 + l = a * b.
Proof.
  unfold mul64_wide, in_u. intros Ha Hb [= <- <-].
  change 4294967295 with (Z.ones 32). rewrite Z.land_ones by lia.
  rewrite !Z.shiftr_div_pow2, Z.shiftl_mul_pow2 by lia. unfold wrap.
  pose proof (Z.div_mod a (2 ^ 32) ltac:(lia)) as Ea. pose proof (Z.div_mod b (2 ^ 32) ltac:(lia)) as Eb.
  pose proof (Z.mod_pos_bound a (2 ^ 32) ltac:(lia)) as Ra. pose proof (Z.mod_pos_bound b (2 ^ 32) ltac:(lia)) as Rb.
  assert (0 <= a `div` 2 ^ 32 < 2 ^ 32) as Ra' by (split; [apply Z.div_pos|apply Z.div_lt_upper_bound]; lia).
  assert (0 <= b `div` 2 ^ 32 < 2 ^ 32) as Rb' by (split; [apply Z.div_pos|apply Z.div_lt_upper_bound]; lia).
  set (a0 := a `mod` 2 ^ 32) in *. set (a1 := a `div` 2 ^ 32) in *.
  set (b0 := b `mod` 2 ^ 32) in *. set (b1 := b `div` 2 ^ 32) in *.
  assert (forall x y, 0 <= x < 2 ^ 32 -> 0 <= y < 2 ^ 32 -> 0 <= x * y <= (2 ^ 32 - 1) * (2 ^ 32 - 1)) as Hm by nia.
  pose proof (Hm a0 b0 Ra Rb). pose proof (Hm a0 b1 Ra Rb'). pose proof (Hm a1 b0 Ra' Rb). pose proof (Hm a1 b1 Ra' Rb').
  rewrite (Z.mod_small (a0 * b0)), (Z.mod_small (a0 * b1)), (Z.mod_small (a1 * b0)), (Z.mod_small (a1 * b1)) by lia.
  assert (a * b = a1 * b1 * 2 ^ 64 + (a0 * b1 + a1 * b0) * 2 ^ 32 + a0 * b0) as -> by (rewrite Ea, Eb; lia).
  set (p0 := a0 * b0) in *. set (p1 := a0 * b1) in *. set (p2 := a1 * b0) in *. set (p3 := a1 * b1) in *.
  clearbody p0 p1 p2 p3. clear Ea Eb Ra Rb Ra' Rb' Hm. clearbody a0 a1 b0 b1.
  pose proof (Z.div_mod p0 (2 ^ 32) ltac:(lia)) as E0. pose proof (Z.mod_pos_bound p0 (2 ^ 32) ltac:(lia)).
  pose proof (Z.div_mod p1 (2 ^ 32) ltac:(lia)) as E1. pose proof (Z.mod_pos_bound p1 (2 ^ 32) ltac:(lia)).
  pose proof (Z.div_mod p2 (2 ^ 32) ltac:(lia)) as E2. pose proof (Z.mod_pos_bound p2 (2 ^ 32) ltac:(lia)).
  set (p0h := p0 `div` 2 ^ 32) in *. set (p0l := p0 `mod` 2 ^ 32) in *.
  set (p1h := p1 `div` 2 ^ 32) in *. set (p1l := p1 `mod` 2 ^ 32) in *.
  set (p2h := p2 `div` 2 ^ 32) in *. set (p2l := p2 `mod` 2 ^ 32) in *. clearbody p0h p0l p1h p1l p2h p2l.
  set (mid := p0h + p1l + p2l). rewrite (Z.mod_small mid) by lia.
  pose proof (Z.div_mod mid (2 ^ 32) ltac:(lia)) as Em. pose proof (Z.mod_pos_bound mid (2 ^ 32) ltac:(lia)).
  assert ((mid * 2 ^ 32) `mod` 2 ^ 64 = (mid `mod` 2 ^ 32) * 2 ^ 32) as ->.
  { change (2 ^ 64) with (2 ^ 32 * 2 ^ 32). by rewrite Z.mul_mod_distr_r by lia. }
  set (mh := mid `div` 2 ^ 32) in *. set (ml := mid `mod` 2 ^ 32) in *. clearbody mh ml.
  assert (Z.lor p0l (ml * 2 ^ 32) = p0l + ml * 2 ^ 32) as ->.
  { apply lor_add_disjoint. rewrite <- Z.shiftl_mul_pow2 by lia.
    rewrite <- (wrap_small 32 p0l) by (unfold in_u; lia). zbits. }
  rewrite Z.mod_small by lia. lia.
Qed.

Lemma multi3_spec a b : in_s 128 a -> in_s 128 b -> __multi3 a b = i128 (a * b).
Proof.
  intros Ha Hb. unfold __multi3. set (x := u128 a). set (y := u128 b).
  pose proof (wrap_range 128 a ltac:(lia)) as Hx. fold x in Hx.
  pose proof (wrap_range 128 b ltac:(lia)) as Hy. fold y in Hy.
  destruct (mul64_wide (lo x) (lo y)) as [h l] eqn:E.
  destruct (mul64_wide_spec _ _ _ _ (lo_range x) (lo_range y) E) as (Hh & Hl & Hp).
  rewrite all_sum by done. unfold x, y in *.
  assert (wrap 128 (u64 (h + lo (u128 a) * hi (u128 b) + hi (u128 a) * lo (u128 b)) * 2 ^ 64 + l) = wrap 128 (a * b)) as Ew.
  { transitivity (wrap 128 (u128 a * u128 b)); [|unfold wrap; by rewrite <- Z.mul_mod by lia].
    assert (u128 a * u128 b = (hi (u128 a) * 2 ^ 64 + lo (u128 a)) * (hi (u128 b) * 2 ^ 64 + lo (u128 b))) as ->
      by (by rewrite <- !split_halves).
    set (ah := hi (u128 a)) in *. set (al := lo (u128 a)) in *.
    set (bh := hi (u128 b)) in *. set (bl := lo (u128 b)) in *. set (t := h + al * bh + ah * bl).
    unfold wrap at 2. pose proof (Z.div_mod t (2 ^ 64) ltac:(lia)) as Et.
    apply (wrap_eq_intro 128 _ _ (- (ah * bh + t `div` 2 ^ 64))). unfold t in *. nia. }
  unfold sgn. by rewrite Ew.
Qed.

(** ** Division *)

(** The next bit of [n] shifted into [r]. *)
Lemma shift_in r n i :
  0 <= r -> 2 * r + 1 < 2 ^ 128 -> 0 <= i ->
  Z.lor (u128 (Z.shiftl r 1)) (Z.land (Z.shiftr n i) 1) = 2 * r + (n `div` 2 ^ i) `mod` 2.
Proof.
  intros Hr Hb Hi. rewrite Z.shiftl_mul_pow2, Z.shiftr_div_pow2 by lia. change (2 ^ 1) with 2.
  rewrite wrap_small by (unfold in_u; lia). change 1 with (Z.ones 1). rewrite Z.land_ones by lia.
  change (2 ^ 1) with 2. rewrite lor_add_disjoint; [lia|].
  pose proof (Z.mod_pos_bound (n `div` 2 ^ i) 2 ltac:(lia)) as Hm.
  rewrite <- (wrap_small 1 ((n `div` 2 ^ i) `mod` 2)) by (unfold in_u; lia).
  replace (r * 2) with (Z.shiftl r 1) by (by rewrite Z.shiftl_mul_pow2 by lia). zbits.
Qed.

Lemma div_loop_spec n d : 0 < d -> in_u 128 n -> forall k Q r,
  (k <= 128)%nat -> 0 <= r < d -> 0 <= Q -> n `div` 2 ^ Z.of_nat k = Q * d + r ->
  exists q' r', div_loop k n d (Q * 2 ^ Z.of_nat k) r = (q', r') /\ n = q' * d + r' /\ 0 <= r' < d.
Proof.
  intros Hd Hn. induction k as [|k IH]; intros Q r Hk Hr HQ E; cbn [div_loop].
  - change (2 ^ Z.of_nat 0) with 1 in *. rewrite Z.div_1_r in E.
    exists (Q * 1), r. split_and!; try done; lia.
  - assert (2 ^ Z.of_nat (S k) = 2 * 2 ^ Z.of_nat k) as EP by (rewrite Nat2Z.inj_succ, Z.pow_succ_r; lia).
    assert (0 < 2 ^ Z.of_nat k) as HP by (apply Z.pow_pos_nonneg; lia).
    set (P := 2 ^ Z.of_nat k) in *. rewrite EP in E |- *.
    assert (n `div` (2 * P) = (n `div` P) `div` 2) as E2 by (rewrite Z.mul_comm, Z.div_div by lia; done).
    assert (n `div` P = 2 * (Q * d + r) + (n `div` P) `mod` 2) as E3.
    { rewrite <- E, E2. apply Z.div_mod. lia. }
    assert (n `div` P < 2 ^ 128) as Hb by (apply Z.div_lt_upper_bound; unfold in_u in Hn; nia).
    pose proof (Z.mod_pos_bound (n `div` P) 2 ltac:(lia)) as Hbit.
    cbn zeta. rewrite shift_in by nia. fold P. set (bit := (n `div` P) `mod` 2) in *.
    replace (Q * (2 * P)) with (2 * Q * P) by lia.
    destruct (Z.leb_spec d (2 * r + bit)).
    + assert (Z.lor (2 * Q * P) (u128 (Z.shiftl 1 (Z.of_nat k))) = (2 * Q + 1) * P) as ->.
      { rewrite Z.shiftl_1_l. fold P. rewrite wrap_small.
        2: { split; [lia|]. apply Z.pow_lt_mono_r; lia. }
        rewrite lor_add_disjoint; [lia|]. unfold P. replace (2 * Q * 2 ^ Z.of_nat k) with (Z.shiftl Q (Z.of_nat k + 1)).
        - zbits.
        - rewrite Z.shiftl_mul_pow2, Z.pow_add_r by lia. lia. }
      apply IH; try lia.
    + apply IH; try lia.
Qed.

Lemma hi_zero x : in_u 128 x -> hi x = 0 -> lo x = x.
Proof. intros Hx E. rewrite (split_halves x Hx) at 2. rewrite E. lia. Qed.

Lemma log2_split h l : 0 < h -> in_u 64 l -> Z.log2 (h * 2 ^ 64 + l) = 64 + Z.log2 h.
Proof.
  intros Hh [Hl1 Hl2]. apply Z.log2_unique; [pose proof (Z.log2_nonneg h); lia|].
  pose proof (Z.log2_spec h Hh) as [H1 H2]. pose proof (Z.log2_nonneg h).
  rewrite Z.add_comm, Z.pow_add_r by lia. replace (Z.succ (Z.log2 h + 64)) with (Z.succ (Z.log2 h) + 64) by lia.
  rewrite Z.pow_add_r by lia. nia.
Qed.

(** The loop started at the most significant bit of [n]. *)
Lemma long_div_msb n d :
  in_u 128 n -> 0 < d -> hi n <> 0 ->
  (msb ← (z ← clzll (hi n); Ok (127 - z)); Ok (div_loop (Z.to_nat (msb + 1)) n d 0 0)) =
  Ok (n `div` d, n `mod` d).
Proof.
  intros Hn Hd Hh. pose proof (hi_range n) as Hhn. unfold clzll.
  destruct (Z.eqb_spec (hi n) 0); [done|]. rewrite !bind_Ok.
  assert (Z.log2 n = 64 + Z.log2 (hi n)) as El.
  { rewrite (split_halves n Hn) at 1. apply log2_split; [unfold in_u in *; lia|done]. }
  assert (0 < n) as Hn0.
  { pose proof (split_halves n Hn). pose proof (lo_range n). unfold in_u in *. lia. }
  pose proof (Z.log2_nonneg n). assert (Z.log2 n < 128) as Hl by (apply Z.log2_lt_pow2; unfold in_u in *; lia).
  replace (127 - (63 - Z.log2 (hi n)) + 1) with (Z.log2 n + 1) by lia.
  destruct (div_loop_spec n d Hd Hn (Z.to_nat (Z.log2 n + 1)) 0 0) as (q & r & E & Eq & Hr); try lia.
  { rewrite Z2Nat.id by lia. apply Z.div_small. pose proof (Z.log2_spec n Hn0). lia. }
  rewrite Z.mul_0_l in E. rewrite E. f_equal. f_equal.
  - apply (Z.div_unique_pos n d q r); lia.
  - apply (Z.mod_unique_pos n d q r); lia.
Qed.

Lemma udivmodti4_spec n d :
  in_u 128 n -> in_u 128 d -> d <> 0 -> __udivmodti4 n d = Ok (n `div` d, n `mod` d).
Proof.
  intros Hn Hd Hd0. assert (0 < d) as Hdp by (unfold in_u in Hd; lia).
  unfold __udivmodti4. destruct (Z.eqb_spec d 0); [done|].
  destruct (Z.eqb_spec (hi n) 0) as [En|En]; destruct (Z.eqb_spec (hi d) 0) as [Ed|Ed]; cbn [andb];
    [by rewrite !hi_zero by done|..];
    (destruct (Z.ltb_spec n d) as [Hlt|Hge];
     [unfold in_u in Hn; by rewrite Z.div_small, Z.mod_small by lia|]);
    assert (0 < n) as Hn0 by lia.
  - exfalso. rewrite (split_halves n Hn), (split_halves d Hd), En in Hge.
    pose proof (lo_range n) as Hln. pose proof (lo_range d) as Hld. pose proof (hi_range d) as Hhd. unfold in_u in *. lia.
  - cbn [negb]. by apply long_div_msb.
  - cbn [negb]. by apply long_div_msb.
Qed.

(** ** Signed operations *)

Lemma sgn_near w x :
  0 < w -> - 2 ^ w <= x < 2 ^ w ->
  (in_s w x /\ sgn w x = x) \/ (2 ^ (w - 1) <= x /\ sgn w x = x - 2 ^ w) \/
  (x < - 2 ^ (w - 1) /\ sgn w x = x + 2 ^ w).
Proof.
  intros Hw Hx. assert (2 ^ w = 2 * 2 ^ (w - 1)) as Ew by (rewrite <- Z.pow_succ_r by lia; f_equal; lia).
  assert (forall k, sgn w (x + k * 2 ^ w) = sgn w x) as Hk.
  { intros k. rewrite <- (sgn_wrap w (x + k * 2 ^ w)), <- (sgn_wrap w x). f_equal. by apply (wrap_eq_intro w _ _ k). }
  destruct (decide (in_s w x)) as [H|H]; [left; split; [done|by apply sgn_small]|right].
  unfold in_s in H. destruct (decide (2 ^ (w - 1) <= x)); [left|right].
  - split; [done|]. rewrite <- (Hk (-1)). rewrite sgn_small; [lia|lia|unfold in_s; lia].
  - split; [lia|]. rewrite <- (Hk 1). rewrite sgn_small; [lia|lia|unfold in_s; lia].
Qed.

Lemma sgn_opp_sgn w x : 0 < w -> sgn w (- sgn w x) = sgn w (- x).
Proof.
  intros Hw. rewrite <- (sgn_wrap w (- sgn w x)), <- (sgn_wrap w (- x)). f_equal.
  replace (- sgn w x) with (0 - sgn w x) by lia. replace (- x) with (0 - x) by lia.
  rewrite <- (wrap_sub_r w 0 (sgn w x)), wrap_sgn, wrap_sub_r by lia. done.
Qed.

Lemma negti2_spec a : __negti2 a = i128 (- a).
Proof.
  unfold __negti2. set (x := u128 a). pose proof (wrap_range 128 a ltac:(lia)) as Hx. fold x in Hx.
  pose proof (lo_range x) as Hl. pose proof (hi_range x) as Hh.
  rewrite !not_w_arith by (done || lia). rewrite all_sum by (by apply wrap_range).
  assert (wrap 128 (u64 (2 ^ 64 - 1 - hi x + (if u64 (2 ^ 64 - 1 - lo x + 1) =? 0 then 1 else 0)) * 2 ^ 64 +
    u64 (2 ^ 64 - 1 - lo x + 1)) = wrap 128 (- a)) as E.
  { transitivity (wrap 128 (0 - (hi x * 2 ^ 64 + lo x))).
    2: { rewrite <- (split_halves x Hx). unfold x. rewrite wrap_sub_r. f_equal. }
    unfold in_u in *.
    replace (2 ^ 64 - 1 - lo x + 1) with (2 ^ 64 - lo x) by lia.
    destruct (decide (lo x = 0)) as [E0|E0].
    - rewrite E0. change (u64 (2 ^ 64 - 0)) with 0. cbn [Z.eqb].
      replace (2 ^ 64 - 1 - hi x + 1) with (2 ^ 64 - hi x) by lia.
      destruct (decide (hi x = 0)) as [E1|E1].
      + rewrite E1. done.
      + rewrite (wrap_small 64) by (unfold in_u; lia). apply (wrap_eq_intro 128 _ _ 1). lia.
    - rewrite (wrap_small 64 (2 ^ 64 - lo x)) by (unfold in_u; lia).
      destruct (Z.eqb_spec (2 ^ 64 - lo x) 0); [lia|].
      rewrite (wrap_small 64) by (unfold in_u; lia). apply (wrap_eq_intro 128 _ _ 1). lia. }
  unfold sgn. by rewrite E.
Qed.

Lemma abs128 a : in_s 128 a -> (if a <? 0 then u128 (- u128 a) else u128 a) = Z.abs a.
Proof.
  unfold in_s. intros Ha. destruct (Z.ltb_spec a 0).
  - assert (u128 a = a + 2 ^ 128) as ->.
    { rewrite <- (wrap_small 128 (a + 2 ^ 128)) by (unfold in_u; lia).
      symmetry. apply (wrap_eq_intro 128 _ _ 1). lia. }
    rewrite <- (wrap_small 128 (Z.abs a)) by (unfold in_u; lia).
    apply (wrap_eq_intro 128 _ _ (-1)). lia.
  - rewrite wrap_small by (unfold in_u; lia). lia.
Qed.

Lemma divmodti4_spec a b :
  in_s 128 a -> in_s 128 b -> b <> 0 ->
  __divmodti4 a b = Ok (i128 (Z.quot a b), Z.rem a b).
Proof.
  intros Ha Hb Hb0. unfold __divmodti4. rewrite !abs128 by done. unfold in_s in *.
  rewrite udivmodti4_spec by (unfold in_u; lia). rewrite bind_Ok. cbn [fst snd].
  rewrite Z.quot_div, Z.rem_mod by done.
  pose proof (Z.mod_pos_bound (Z.abs a) (Z.abs b) ltac:(lia)) as Hm.
  assert (Z.abs a `mod` Z.abs b <= Z.abs a) as Hle by (apply Z.mod_le; lia).
  set (q := Z.abs a `div` Z.abs b). set (r := Z.abs a `mod` Z.abs b) in *. f_equal. f_equal.
  - destruct (Z.ltb_spec a 0), (Z.ltb_spec b 0); cbn [xorb]; rewrite ?sgn_opp_sgn by lia; f_equal.
    + rewrite (Z.sgn_neg a), (Z.sgn_neg b) by lia. lia.
    + rewrite (Z.sgn_neg a), (Z.sgn_pos b) by lia. lia.
    + destruct (decide (a = 0)) as [->|]; [unfold q; rewrite Z.abs_0, Z.div_0_l by lia; done|].
      rewrite (Z.sgn_pos a), (Z.sgn_neg b) by lia. lia.
    + destruct (decide (a = 0)) as [->|]; [unfold q; rewrite Z.abs_0, Z.div_0_l by lia; done|].
      rewrite (Z.sgn_pos a), (Z.sgn_pos b) by lia. lia.
  - destruct (Z.ltb_spec a 0).
    + rewrite sgn_opp_sgn, (Z.sgn_neg a), sgn_small by (unfold in_s; lia). lia.
    + rewrite sgn_small by (unfold in_s; lia).
      destruct (decide (a = 0)) as [->|]; [unfold r; by rewrite Z.abs_0, Z.mod_0_l by lia|].
      rewrite (Z.sgn_pos a) by lia. lia.
Qed.

Lemma land_xor_neg a b r :
  (Z.land (Z.lxor a r) (Z.lxor b r) <? 0) = true <-> ((a < 0 <-> 0 <= r) /\ (b < 0 <-> 0 <= r)).
Proof.
  rewrite Z.ltb_lt. pose proof (Z.land_nonneg (Z.lxor a r) (Z.lxor b r)) as H.
  pose proof (Z.lxor_nonneg a r). pose proof (Z.lxor_nonneg b r). lia.
Qed.

Lemma i128_sum x y : i128 (u128 x + u128 y) = i128 (x + y).
Proof. rewrite <- (sgn_wrap 128 (u128 x + u128 y)), wrap_add_l, wrap_add_r, sgn_wrap. done. Qed.
Lemma i128_diff x y : i128 (u128 x - u128 y) = i128 (x - y).
Proof. rewrite <- (sgn_wrap 128 (u128 x - u128 y)), wrap_sub_l, wrap_sub_r, sgn_wrap. done. Qed.

Lemma addvti3_spec a b :
  in_s 128 a -> in_s 128 b ->
  __addvti3 a b = if decide (in_s 128 (a + b)) then Ok (a + b) else Panic.
Proof.
  intros Ha Hb. unfold __addvti3. rewrite i128_sum. unfold in_s in Ha, Hb.
  destruct (Z.land (Z.lxor a (i128 (a + b))) (Z.lxor b (i128 (a + b))) <? 0) eqn:E.
  - apply land_xor_neg in E.
    destruct (sgn_near 128 (a + b)) as [[H1 H2]|[[H1 H2]|[H1 H2]]]; [lia|lia|..]; rewrite H2 in E;
      unfold in_s in *; case_decide; try done; lia.
  - assert (~ ((a < 0 <-> 0 <= i128 (a + b)) /\ (b < 0 <-> 0 <= i128 (a + b)))) as E'
      by (intros H%land_xor_neg; congruence).
    destruct (sgn_near 128 (a + b)) as [[H1 H2]|[[H1 H2]|[H1 H2]]]; [lia|lia|..]; rewrite H2 in E' |- *;
      unfold in_s in *; case_decide; try done; lia.
Qed.

Lemma subvti3_spec a b :
  in_s 128 a -> in_s 128 b ->
  __subvti3 a b = if decide (in_s 128 (a - b)) then Ok (a - b) else Panic.
Proof.
  intros Ha Hb. unfold __subvti3. rewrite i128_diff. unfold in_s in Ha, Hb.
  assert (forall r, (Z.land (Z.lxor a b) (Z.lxor a r) <? 0) = true <-> ((a < 0 <-> 0 <= b) /\ (a < 0 <-> 0 <= r))) as Hx.
  { intros r. rewrite Z.ltb_lt. pose proof (Z.land_nonneg (Z.lxor a b) (Z.lxor a r)).
    pose proof (Z.lxor_nonneg a r). pose proof (Z.lxor_nonneg a b). lia. }
  destruct (Z.land (Z.lxor a b) (Z.lxor a (i128 (a - b))) <? 0) eqn:E.
  - apply Hx in E.
    destruct (sgn_near 128 (a - b)) as [[H1 H2]|[[H1 H2]|[H1 H2]]]; [lia|lia|..]; rewrite H2 in E;
      unfold in_s in *; case_decide; try done; lia.
  - assert (~ ((a < 0 <-> 0 <= b) /\ (a < 0 <-> 0 <= i128 (a - b)))) as E'
      by (intros H%Hx; congruence).
    destruct (sgn_near 128 (a - b)) as [[H1 H2]|[[H1 H2]|[H1 H2]]]; [lia|lia|..]; rewrite H2 in E' |- *;
      unfold in_s in *; case_decide; try done; lia.
Qed.

Lemma i128_prod_range a b : in_s 128 a -> in_s 128 b -> in_s 128 (__multi3 a b).
Proof. intros. rewrite multi3_spec by done. by apply sgn_range. Qed.

(** If the wrapped product divided by [a] gives back [b], no bits were lost. *)
Lemma quot_exact_bound a r :
  a <> 0 -> in_s 128 r -> in_s 128 (a * Z.quot r a).
Proof.
  unfold in_s. intros Ha Hr. pose proof (Z.mul_quot_le r a) as H1.
  pose proof (Z.mul_quot_ge r a) as H2. lia.
Qed.

Lemma quot_range a r :
  a <> 0 -> in_s 128 r -> ~ (a = -1 /\ r = - 2 ^ 127) -> in_s 128 (Z.quot r a).
Proof.
  unfold in_s. intros Ha Hr Hn. change (128 - 1) with 127 in *.
  assert (Z.abs (Z.quot r a) <= Z.abs r).
  { rewrite <- Z.quot_abs by done. apply Z.quot_le_upper_bound; nia. }
  assert (r = - 2 ^ 127 -> Z.quot r a <> 2 ^ 127); [|lia].
  intros -> E. pose proof (Z.quot_rem (- 2 ^ 127) a Ha) as Eq.
  pose proof (Z.rem_bound_abs (- 2 ^ 127) a Ha). rewrite E in Eq. nia.
Qed.

Lemma mulvti3_spec a b :
  in_s 128 a -> in_s 128 b ->
  __mulvti3 a b = if decide (in_s 128 (a * b)) then Ok (a * b) else Panic.
Proof.
  intros Ha Hb. unfold __mulvti3. pose proof (i128_prod_range a b Ha Hb) as Hr.
  destruct (Z.eqb_spec a 0) as [->|Ha0].
  { rewrite multi3_spec, decide_True by (done || unfold in_s; lia). by rewrite sgn_small by (unfold in_s; lia). }
  unfold __divti3. rewrite divmodti4_spec by done. rewrite !bind_Ok. cbn [fst].
  rewrite multi3_spec in * by done. change INT128_MIN with (- 2 ^ 127).
  case_decide as Hin.
  - rewrite (sgn_small 128 (a * b)) by (done || lia). rewrite Z.mul_comm, Z.quot_mul by done.
    rewrite (sgn_small 128 b) by (done || lia). rewrite Z.eqb_refl. cbn [negb orb].
    destruct (Z.eqb_spec a (-1)) as [->|]; [|done]. destruct (Z.eqb_spec b (- 2 ^ 127)) as [->|]; [|done].
    unfold in_s in Hin. lia.
  - set (r := i128 (a * b)) in *.
    destruct (Z.eqb_spec (i128 (Z.quot r a)) b) as [E|]; [|done]. cbn [negb orb].
    destruct (decide (a = -1 /\ r = - 2 ^ 127)) as [[-> Hr']|Hn].
    + assert (b = - 2 ^ 127) as ->; [|done].
      unfold in_s in *. unfold r in Hr'. destruct (sgn_near 128 (-1 * b)) as [[H1 H2]|[[H1 H2]|[H1 H2]]];
        unfold in_s in *; lia.
    + rewrite sgn_small in E by (lia || by apply quot_range). exfalso. apply Hin. rewrite <- E.
      by apply quot_exact_bound.
Qed.

Lemma negvti2_spec a :
  in_s 128 a -> __negvti2 a = if decide (in_s 128 (- a)) then Ok (- a) else Panic.
Proof.
  unfold __negvti2. change INT128_MIN with (- 2 ^ 127). intros Ha. rewrite negti2_spec.
  destruct (Z.eqb_spec a (- 2 ^ 127)) as [->|]; [done|]. unfold in_s in *. change (128 - 1) with 127 in *.
  rewrite decide_True by lia. rewrite sgn_small; [done|lia|unfold in_s; lia].
Qed.

Lemma absvti2_spec a :
  in_s 128 a -> __absvti2 a = if decide (in_s 128 (Z.abs a)) then Ok (Z.abs a) else Panic.
Proof.
  unfold __absvti2. change INT128_MIN with (- 2 ^ 127). intros Ha. rewrite negti2_spec.
  destruct (Z.eqb_spec a (- 2 ^ 127)) as [->|]; [done|]. unfold in_s in *. change (128 - 1) with 127 in *.
  rewrite decide_True by lia.
  destruct (Z.ltb_spec a 0); [rewrite sgn_small by (unfold in_s; lia)|]; f_equal; lia.
Qed.

(** ** The parallel bit count *)

(** The three stages of [popcount64] for any mask, and a number as its list of
    bytes, least significant first. *)
Definition pc1 (m x : Z) : Z := x - Z.land (Z.shiftr x 1) m.
Definition pc2 (m x : Z) : Z := Z.land x m + Z.land (Z.shiftr x 2) m.
Definition pc3 (m x : Z) : Z := Z.land (x + Z.shiftr x 4) m.
Fixpoint of_bytes (bs : list Z) : Z := match bs with [] => 0 | b :: bs => b + 256 * of_bytes bs end.
Fixpoint mask_of (c : Z) (n : nat) : Z := match n with O => 0 | S n => c + 256 * mask_of c n end.
Fixpoint to_bytes (n : nat) (x : Z) : list Z :=
  match n with O => [] | S n => x mod 256 :: to_bytes n (x / 256) end.

Lemma of_to_bytes n : forall x, 0 <= x < 256 ^ Z.of_nat n -> of_bytes (to_bytes n x) = x.
Proof.
  induction n as [|n IH]; intros x Hx; cbn [to_bytes of_bytes]; [cbn in Hx; lia|].
  rewrite IH; [pose proof (Z.div_mod x 256); lia|].
  rewrite Nat2Z.inj_succ, Z.pow_succ_r in Hx by lia. split; [apply Z.div_pos; lia|].
  apply Z.div_lt_upper_bound; lia.
Qed.
Lemma to_bytes_range n : forall x, Forall (in_u 8) (to_bytes n x).
Proof. induction n as [|n IH]; intros x; constructor; [by apply Z.mod_pos_bound|apply IH]. Qed.
Lemma length_to_bytes n : forall x, length (to_bytes n x) = n.
Proof. induction n as [|n IH]; intros x; cbn; [done|by rewrite IH]. Qed.
Lemma of_bytes_nonneg bs : Forall (in_u 8) bs -> 0 <= of_bytes bs.
Proof. induction 1 as [|b bs Hb _ IH]; cbn; [done|]. unfold in_u in Hb. lia. Qed.
Lemma mask_of_nonneg c n : 0 <= c -> 0 <= mask_of c n.
Proof. intros Hc. induction n as [|n IH]; cbn; lia. Qed.

Lemma byte_lor b y : in_u 8 b -> b + 256 * y = Z.lor b (Z.shiftl y 8).
Proof.
  intros Hb. rewrite lor_add_disjoint; [rewrite Z.shiftl_mul_pow2 by lia; lia|].
  apply Z.bits_inj'. intros n Hn. rewrite Z.land_spec, Z.bits_0, Z.shiftl_spec by lia.
  destruct (decide (n < 8)); [rewrite (Z.testbit_neg_r y) by lia; apply andb_false_r|].
  by rewrite (testbit_small 8 b n Hb) by lia.
Qed.

(** Masking a shifted number works byte by byte as long as the mask keeps no
    bit that came from the next byte. *)
Lemma land_byte k b y c m :
  0 <= k <= 8 -> in_u 8 b -> in_u (8 - k) c ->
  Z.land (Z.shiftr (b + 256 * y) k) (c + 256 * m) =
  Z.land (Z.shiftr b k) c + 256 * Z.land (Z.shiftr y k) m.
Proof.
  intros Hk Hb Hc. assert (in_u 8 c) as Hc8.
  { unfold in_u in *. pose proof (Z.pow_le_mono_r 2 (8 - k) 8). lia. }
  rewrite (byte_lor b y Hb), (byte_lor c m Hc8).
  rewrite (byte_lor (Z.land _ c)).
  2: { rewrite Z.land_comm. by apply land_range_l. }
  apply Z.bits_inj'. intros i Hi. zbits_norm.
  destruct (decide (i < 8 - k)) as [H1|H1].
  { rewrite !(Z.testbit_neg_r _ (i - 8)), (Z.testbit_neg_r _ (i + k - 8)) by lia. by zbits_norm. }
  rewrite (testbit_small (8 - k) c i Hc), (testbit_small 8 b (i + k) Hb) by lia. zbits_norm.
  destruct (decide (i < 8)); [by rewrite !(Z.testbit_neg_r _ (i - 8)), andb_false_r by lia|].
  rewrite (testbit_shiftr y k (i - 8)) by lia. by replace (i - 8 + k) with (i + k - 8) by lia.
Qed.

Lemma pc1_bytes bs :
  Forall (in_u 8) bs -> pc1 (mask_of 0x55 (length bs)) (of_bytes bs) = of_bytes (pc1 0x55 <$> bs).
Proof.
  unfold pc1. induction 1 as [|b bs Hb Hbs IH]; [done|]. cbn [length mask_of of_bytes fmap list_fmap].
  rewrite land_byte by (done || lia). rewrite <- IH. lia.
Qed.

Lemma pc2_bytes bs :
  Forall (in_u 8) bs -> pc2 (mask_of 0x33 (length bs)) (of_bytes bs) = of_bytes (pc2 0x33 <$> bs).
Proof.
  unfold pc2. induction 1 as [|b bs Hb Hbs IH]; [done|]. cbn [length mask_of of_bytes fmap list_fmap].
  rewrite land_byte by (done || lia).
  pose proof (land_byte 0 b (of_bytes bs) 0x33 (mask_of 0x33 (length bs))) as H0. rewrite !Z.shiftr_0_r in H0.
  rewrite H0 by (done || lia). rewrite <- IH. lia.
Qed.

(** Both nibbles of a byte hold at most 4. *)
Definition nib4 (x : Z) : Prop := 0 <= x <= 68 /\ x mod 16 <= 4.

Lemma of_bytes_nib bs : Forall nib4 bs -> 0 <= of_bytes bs /\ of_bytes bs mod 16 <= 4.
Proof.
  induction 1 as [|b bs [Hb Hm] _ [IH _]]; cbn [of_bytes]; [done|]. split; [lia|].
  replace (b + 256 * of_bytes bs) with (b + (16 * of_bytes bs) * 16) by lia. by rewrite Z_mod_plus_full.
Qed.

Lemma pc3_bytes bs :
  Forall nib4 bs -> pc3 (mask_of 0x0F (length bs)) (of_bytes bs) = of_bytes (pc3 0x0F <$> bs).
Proof.
  unfold pc3. induction 1 as [|b bs [Hb Hm] Hbs IH]; [done|]. cbn [length mask_of of_bytes fmap list_fmap].
  rewrite <- IH. destruct (of_bytes_nib bs Hbs) as [Hy Hy4]. set (y := of_bytes bs) in *.
  rewrite !Z.shiftr_div_pow2 by lia. change (2 ^ 4) with 16.
  replace (b + 256 * y) with (b + (16 * y) * 16) at 2 by lia. rewrite Z.div_add by lia.
  pose proof (Z.div_mod y 16 ltac:(lia)) as Ey. pose proof (Z.div_mod b 16 ltac:(lia)) as Eb.
  pose proof (Z.mod_pos_bound y 16 ltac:(lia)). pose proof (Z.mod_pos_bound b 16 ltac:(lia)).
  replace (b + 256 * y + (b `div` 16 + 16 * y)) with
    ((b + b `div` 16 + 16 * (y mod 16)) + 256 * (y + y `div` 16)) by lia.
  pose proof (land_byte 0 (b + b `div` 16 + 16 * (y mod 16)) (y + y `div` 16) 15 (mask_of 15 (length bs))) as Hl.
  rewrite !Z.shiftr_0_r in Hl. rewrite Hl by (try done; unfold in_u; lia). f_equal.
  change 15 with (Z.ones 4). rewrite !Z.land_ones by lia. change (2 ^ 4) with 16.
  rewrite Z.mul_comm. apply Z_mod_plus_full.
Qed.

Fixpoint sum_z (l : list Z) : Z := match l with [] => 0 | a :: l => a + sum_z l end.

Lemma popcount_bytes bs : Forall (in_u 8) bs -> popcount (of_bytes bs) = sum_z (popcount <$> bs).
Proof.
  induction 1 as [|b bs Hb Hbs IH]; [done|]. cbn [of_bytes fmap list_fmap sum_z]. change 256 with (2 ^ Z.of_nat 8).
  rewrite popcount_app, IH; [done|exact Hb|by apply of_bytes_nonneg].
Qed.

(** What the three stages do to one byte, by evaluation on all 256 of them. *)
Definition byte_ok (b : Z) : bool :=
  let x1 := pc1 0x55 b in let x2 := pc2 0x33 x1 in
  (0 <=? x1) && (x1 <? 256) && ((0 <=? x2) && (x2 <=? 68) && (x2 mod 16 <=? 4)) &&
  (pc3 0x0F x2 =? popcount b) && (0 <=? popcount b) && (popcount b <=? 8).
Lemma bytes_ok : forallb byte_ok (seqZ 0 256) = true.
Proof. vm_compute. reflexivity. Qed.
Lemma byte_stages b : in_u 8 b ->
  in_u 8 (pc1 0x55 b) /\ nib4 (pc2 0x33 (pc1 0x55 b)) /\
  pc3 0x0F (pc2 0x33 (pc1 0x55 b)) = popcount b /\ 0 <= popcount b <= 8.
Proof.
  intros Hb. pose proof (proj1 (forallb_forall _ _) bytes_ok b) as H.
  unfold byte_ok in H. rewrite !andb_true_iff, !Z.leb_le, Z.ltb_lt, Z.eqb_eq in H.
  assert (In b (seqZ 0 256)) as Hin by (apply list_elem_of_In, elem_of_seqZ; unfold in_u in Hb; lia).
  specialize (H Hin). unfold in_u, nib4. lia.
Qed.

Lemma of_bytes_le u bs :
  Forall (fun b => 0 <= b <= u) bs -> 0 <= of_bytes bs <= mask_of u (length bs).
Proof. induction 1 as [|b bs Hb _ IH]; cbn [of_bytes length mask_of]; lia. Qed.

(** Multiplying by 0x0101..01 adds the bytes up in the top one. *)
Lemma byte_sum c0 c1 c2 c3 c4 c5 c6 c7 :
  Forall (fun c => 0 <= c <= 8) [c0; c1; c2; c3; c4; c5; c6; c7] ->
  Z.shiftr (u64 (of_bytes [c0; c1; c2; c3; c4; c5; c6; c7] * 0x0101010101010101)) 56 =
  sum_z [c0; c1; c2; c3; c4; c5; c6; c7].
Proof.
  intros H. rewrite !list.Forall_cons in H. cbn [of_bytes sum_z]. rewrite Z.shiftr_div_pow2 by lia.
  set (low := c0 + 256 * (c0 + c1) + 256 ^ 2 * (c0 + c1 + c2) + 256 ^ 3 * (c0 + c1 + c2 + c3) +
    256 ^ 4 * (c0 + c1 + c2 + c3 + c4) + 256 ^ 5 * (c0 + c1 + c2 + c3 + c4 + c5) +
    256 ^ 6 * (c0 + c1 + c2 + c3 + c4 + c5 + c6)).
  set (sum := c0 + (c1 + (c2 + (c3 + (c4 + (c5 + (c6 + (c7 + 0)))))))).
  set (high := (c1 + c2 + c3 + c4 + c5 + c6 + c7) + 256 * (c2 + c3 + c4 + c5 + c6 + c7) + 256 ^ 2 * (c3 + c4 + c5 + c6 + c7) +
    256 ^ 3 * (c4 + c5 + c6 + c7) + 256 ^ 4 * (c5 + c6 + c7) + 256 ^ 5 * (c6 + c7) + 256 ^ 6 * c7).
  rewrite (wrap_eq_intro 64 _ (sum * 2 ^ 56 + low) high) by (unfold sum, low, high; lia).
  rewrite wrap_small by (unfold in_u, sum, low; lia).
  symmetry. apply (Z.div_unique _ _ _ low); unfold low; lia.
Qed.

Lemma popcount64_spec x : in_u 64 x -> popcount64 x = popcount x.
Proof.
  intros Hx. pose proof (of_to_bytes 8 x Hx) as E. pose proof (to_bytes_range 8 x) as Hr.
  pose proof (length_to_bytes 8 x) as Hl. rewrite <- E. set (bs := to_bytes 8 x) in *.
  rewrite popcount_bytes by done. unfold popcount64.
  assert (Forall (in_u 8) (pc1 0x55 <$> bs)) as H1 by (apply Forall_fmap; eapply list.Forall_impl; [exact Hr|]; intros b Hb; apply (byte_stages b Hb)).
  assert (Forall nib4 (pc2 0x33 <$> (pc1 0x55 <$> bs))) as H2.
  { rewrite !Forall_fmap. eapply list.Forall_impl; [exact Hr|]. intros b Hb. apply (byte_stages b Hb). }
  pose proof (pc1_bytes bs Hr) as E1. pose proof (pc2_bytes _ H1) as E2. pose proof (pc3_bytes _ H2) as E3.
  rewrite !length_fmap, Hl in E3. rewrite length_fmap, Hl in E2. rewrite Hl in E1.
  change (mask_of 0x55 8) with 0x5555555555555555 in E1. change (mask_of 0x33 8) with 0x3333333333333333 in E2.
  change (mask_of 0x0F 8) with 0x0F0F0F0F0F0F0F0F in E3. unfold pc1 at 1 in E1. unfold pc2 at 1 in E2. unfold pc3 at 1 in E3.
  assert (0 <= of_bytes (pc1 0x55 <$> bs) <= mask_of 255 8) as B1.
  { rewrite <- Hl, <- (length_fmap (pc1 0x55) bs). apply of_bytes_le. eapply list.Forall_impl; [exact H1|]. unfold in_u. lia. }
  assert (0 <= of_bytes (pc2 0x33 <$> (pc1 0x55 <$> bs)) <= mask_of 68 8) as B2.
  { rewrite <- Hl, <- (length_fmap (pc1 0x55) bs), <- (length_fmap (pc2 0x33)). apply of_bytes_le.
    eapply list.Forall_impl; [exact H2|]. unfold nib4. lia. }
  change (mask_of 255 8) with 0xFFFFFFFFFFFFFFFF in B1. change (mask_of 68 8) with 0x4444444444444444 in B2.
  rewrite E1, (wrap_small 64 (of_bytes _)) by (unfold in_u; lia).
  rewrite E2, (wrap_small 64 (of_bytes _)) by (unfold in_u; lia).
  rewrite (wrap_small 64 (_ + Z.shiftr _ 4)).
  2: { rewrite Z.shiftr_div_pow2 by lia. unfold in_u.
    assert (of_bytes (pc2 0x33 <$> (pc1 0x55 <$> bs)) `div` 2 ^ 4 <= of_bytes (pc2 0x33 <$> (pc1 0x55 <$> bs)))
      by (apply Z.div_le_upper_bound; lia).
    pose proof (Z.div_pos (of_bytes (pc2 0x33 <$> (pc1 0x55 <$> bs))) (2 ^ 4)). lia. }
  rewrite E3. rewrite <- !list_fmap_compose. clear E E1 E2 E3 B1 B2 H1 H2.
  assert ((pc3 15 ∘ pc2 51 ∘ pc1 85) <$> bs = popcount <$> bs) as ->.
  { apply list_fmap_ext. intros i b Hb. apply byte_stages. by eapply (Forall_lookup_1 _ _ _ _ Hr). }
  assert (Forall (fun c => 0 <= c <= 8) (popcount <$> bs)) as Hc.
  { rewrite Forall_fmap. eapply list.Forall_impl; [exact Hr|]. intros b Hb. apply (byte_stages b Hb). }
  destruct bs as [|b0 [|b1 [|b2 [|b3 [|b4 [|b5 [|b6 [|b7 [|]]]]]]]]]; try done.
  by apply byte_sum.
Qed.

Lemma popcount_lxor n : forall x y, 0 <= x < 2 ^ Z.of_nat n -> 0 <= y < 2 ^ Z.of_nat n ->
  Z.odd (popcount (Z.lxor x y)) = xorb (Z.odd (popcount x)) (Z.odd (popcount y)).
Proof.
  induction n as [|n IH]; intros x y Hx Hy.
  { assert (x = 0) as -> by (cbn in Hx; lia). assert (y = 0) as -> by (cbn in Hy; lia). done. }
  rewrite Nat2Z.inj_succ, Z.pow_succ_r in Hx, Hy by lia.
  pose proof (Z.mod_pos_bound x 2 ltac:(lia)). pose proof (Z.mod_pos_bound y 2 ltac:(lia)).
  pose proof (Z.div_mod x 2 ltac:(lia)) as Ex. pose proof (Z.div_mod y 2 ltac:(lia)) as Ey.
  set (x' := x / 2) in *. set (y' := y / 2) in *. set (c := x mod 2) in *. set (d := y mod 2) in *.
  assert (Z.lxor x y = Z.lxor c d + 2 * Z.lxor x' y') as ->.
  { assert (Z.lxor c d = Z.b2z (xorb (c =? 1) (d =? 1))) as ->.
    { assert (c = 0 \/ c = 1) as [-> | ->] by lia; assert (d = 0 \/ d = 1) as [-> | ->] by lia; reflexivity. }
    rewrite Z.add_comm.
    replace x with (2 * x' + Z.b2z (c =? 1)) by (destruct (Z.eqb_spec c 1); cbn [Z.b2z]; lia).
    replace y with (2 * y' + Z.b2z (d =? 1)) by (destruct (Z.eqb_spec d 1); cbn [Z.b2z]; lia).
    apply Z.bits_inj'. intros i Hi. destruct (decide (i = 0)) as [->|].
    - by rewrite Z.lxor_spec, !Z.testbit_0_r.
    - replace i with (Z.succ (i - 1)) by lia. by rewrite Z.lxor_spec, !Z.testbit_succ_r, Z.lxor_spec by lia. }
  assert (0 <= Z.lxor x' y') by (apply Z.lxor_nonneg; lia).
  assert (Ex' : popcount x = c + popcount x') by (rewrite Ex, Z.add_comm; apply popcount_double; lia).
  assert (Ey' : popcount y = d + popcount y') by (rewrite Ey, Z.add_comm; apply popcount_double; lia).
  rewrite popcount_double, Ex', Ey', !Z.odd_add, IH by (try lia;
    assert (c = 0 \/ c = 1) as [-> | ->] by lia; assert (d = 0 \/ d = 1) as [-> | ->] by lia; done).
  assert (c = 0 \/ c = 1) as [-> | ->] by lia; assert (d = 0 \/ d = 1) as [-> | ->] by lia;
    destruct (Z.odd (popcount x')), (Z.odd (popcount y')); done.
Qed.

Lemma popcount_halves a : in_u 128 a -> popcount a = popcount (lo a) + popcount (hi a).
Proof.
  intros Ha. rewrite (split_halves a Ha) at 1. rewrite Z.add_comm, Z.mul_comm.
  change 64 with (Z.of_nat 64). apply popcount_app; [apply lo_range|apply hi_range].
Qed.

Lemma lowest_bit_lo a k : in_u 128 a -> lowest_bit (lo a) k -> lowest_bit a k.
Proof.
  intros Ha (H1 & H2 & H3). assert (k < 64) as Hk.
  { apply Z.nle_gt. intros Hk. rewrite (testbit_small 64 (lo a) k (lo_range a)) in H2 by lia. done. }
  split_and!; [done| |].
  - unfold lo in H2. rewrite testbit_wrap in H2 by lia. by apply andb_true_iff in H2 as [_ H2].
  - rewrite (split_halves a Ha). apply Z.divide_add_r; [|done]. apply Z.divide_mul_r.
    exists (2 ^ (64 - k)). rewrite <- Z.pow_add_r by lia. f_equal. lia.
Qed.

Lemma lowest_bit_hi a k : in_u 128 a -> lo a = 0 -> lowest_bit (hi a) k -> lowest_bit a (64 + k).
Proof.
  intros Ha E (H1 & H2 & H3). split_and!; [lia| |].
  - rewrite (split_halves a Ha), E, Z.add_0_r, Z.mul_pow2_bits by lia. by replace (64 + k - 64) with k by lia.
  - rewrite (split_halves a Ha), E, Z.add_0_r, Z.pow_add_r, Z.mul_comm by lia. by apply Z.mul_divide_mono_r.
Qed.

Lemma ctzti2_spec a : in_u 128 a -> a <> 0 ->
  exists k, __ctzti2 a = Ok k /\ lowest_bit a k /\ __ffsti2 (i128 a) = Ok (k + 1).
Proof.
  intros Ha Ha0. unfold __ctzti2, __ffsti2. rewrite wrap_sgn, (wrap_small 128 a Ha) by lia.
  pose proof (lo_range a) as Hl. pose proof (hi_range a) as Hh. unfold in_u in Hl, Hh.
  destruct (Z.eqb_spec (lo a) 0) as [E|E]; cbn [negb].
  - assert (hi a <> 0) as Hh0 by (intros E'; apply Ha0; rewrite (split_halves a Ha), E, E'; done).
    destruct (Z.eqb_spec (hi a) 0); [done|]. cbn [negb].
    destruct (ctzll_spec (hi a)) as (k & -> & Hk); [lia|]. rewrite !bind_Ok. exists (64 + k).
    split_and!; [done|by apply lowest_bit_hi|f_equal; lia].
  - destruct (ctzll_spec (lo a)) as (k & -> & Hk); [lia|]. rewrite bind_Ok. exists k.
    split_and!; [done|by apply lowest_bit_lo|done].
Qed.

Lemma clzti2_spec a : in_u 128 a -> a <> 0 -> __clzti2 a = Ok (127 - Z.log2 a).
Proof.
  intros Ha Ha0. unfold __clzti2, clzll. pose proof (hi_range a) as Hh. pose proof (lo_range a) as Hl. unfold in_u in Hh.
  destruct (Z.eqb_spec (hi a) 0) as [E|E]; cbn [negb].
  - rewrite (hi_zero a Ha E). destruct (Z.eqb_spec a 0); [done|]. rewrite bind_Ok. f_equal. lia.
  - f_equal. rewrite (split_halves a Ha) at 2. rewrite log2_split by (done || lia). lia.
Qed.

(** ** Properties *)

(** 128-bit division.  [__udivmodti4] returns quotient and remainder of the
    unsigned division for every non-zero divisor, on the 64-bit fast path, the
    small-dividend path and the shift-subtract loop alike; [__divmodti4]
    truncates toward zero with the remainder's sign that of the dividend, and
    only INT128_MIN / -1 wraps; both panic on a zero divisor. *)
Theorem division_correct n d a b :
  in_u 128 n -> in_u 128 d -> in_s 128 a -> in_s 128 b ->
  __udivmodti4 n d = (if d =? 0 then Panic else Ok (n `div` d, n `mod` d)) /\
  __divmodti4 a b = (if b =? 0 then Panic
    else Ok (if (a =? INT128_MIN) && (b =? -1) then INT128_MIN else Z.quot a b, Z.rem a b)).
Proof.
  intros Hn Hd Ha Hb. split.
  - destruct (Z.eqb_spec d 0) as [->|Hd0]; [done|by apply udivmodti4_spec].
  - destruct (Z.eqb_spec b 0) as [->|Hb0].
    { unfold __divmodti4. change (u128 0) with 0. cbn [Z.ltb Z.compare]. done. }
    rewrite divmodti4_spec by done. do 2 f_equal. change INT128_MIN with (- 2 ^ 127).
    destruct (Z.eqb_spec a (- 2 ^ 127)) as [->|Ha']; cbn [andb].
    + destruct (Z.eqb_spec b (-1)) as [->|Hb']; [done|]. apply sgn_small; [lia|]. apply quot_range; [done|done|lia].
    + apply sgn_small; [lia|]. apply quot_range; [done|done|lia].
Qed.

Lemma division_correct_witness :
  __udivmodti4 (2 ^ 127 + 5) (2 ^ 65) = Ok (2 ^ 62, 5) /\ __divmodti4 (- 7) 2 = Ok (-3, -1).
Proof.
  destruct (division_correct (2 ^ 127 + 5) (2 ^ 65) (-7) 2) as [H1 H2];
    [vm_compute; by split..|]. rewrite H1, H2. split; vm_compute; reflexivity.
Defined.

(** 128-bit multiplication and shifts.  The schoolbook product of 32-bit
    halves is the product modulo 2^128 read as a signed number; the three
    shifts agree with the mathematical ones for every amount below 128,
    including the half crossings at 0 and 64. *)
Theorem mul_shift_correct a b x k :
  in_s 128 a -> in_s 128 b -> in_u 128 x -> 0 <= k < 128 ->
  __multi3 a b = i128 (a * b) /\ __negti2 a = i128 (- a) /\
  __ashlti3 x k = u128 (x * 2 ^ k) /\ __lshrti3 x k = x `div` 2 ^ k /\ __ashrti3 a k = a `div` 2 ^ k.
Proof.
  intros Ha Hb Hx Hk. rewrite multi3_spec, negti2_spec, ashlti3_spec, lshrti3_spec, ashrti3_spec by done.
  by rewrite !Z.shiftr_div_pow2, Z.shiftl_mul_pow2 by lia.
Qed.

Lemma mul_shift_correct_witness :
  __multi3 (2 ^ 100) (-3) = -3 * 2 ^ 100 /\ __ashrti3 (- 2 ^ 100) 64 = - 2 ^ 36.
Proof.
  destruct (mul_shift_correct (2 ^ 100) (-3) 1 64) as (H1 & _); [vm_compute; by split..|].
  destruct (mul_shift_correct (- 2 ^ 100) (-3) 1 64) as (_ & _ & _ & _ & H2); [vm_compute; by split..|].
  rewrite H1, H2. split; vm_compute; reflexivity.
Defined.

(** the trapping operations.  [__addvti3], [__subvti3], [__mulvti3],
    [__negvti2] and [__absvti2] return the exact result whenever it fits a
    signed 128-bit number and panic whenever it does not. *)
Theorem trapping_correct a b :
  in_s 128 a -> in_s 128 b ->
  let checked x := if decide (in_s 128 x) then Ok x else Panic in
  __addvti3 a b = checked (a + b) /\ __subvti3 a b = checked (a - b) /\
  __mulvti3 a b = checked (a * b) /\ __negvti2 a = checked (- a) /\ __absvti2 a = checked (Z.abs a).
Proof.
  intros Ha Hb checked. rewrite addvti3_spec, subvti3_spec, mulvti3_spec, negvti2_spec, absvti2_spec by done. done.
Qed.

Lemma trapping_correct_witness :
  __addvti3 (2 ^ 126) (2 ^ 126) = Panic /\ __mulvti3 (2 ^ 126) (-2) = Ok (- 2 ^ 127).
Proof.
  destruct (trapping_correct (2 ^ 126) (2 ^ 126)) as (H1 & _); [vm_compute; by split..|].
  destruct (trapping_correct (2 ^ 126) (-2)) as (_ & _ & H2 & _); [vm_compute; by split..|].
  rewrite H1, H2. split; vm_compute; reflexivity.
Defined.

(** the counts.  The parallel bit count returns the number of one bits of
    every 64-bit word, and the 128-bit count, parity, leading- and
    trailing-zero counts and find-first-set agree with the mathematical
    definitions. *)
Theorem counts_correct x a :
  in_u 64 x -> in_u 128 a -> a <> 0 ->
  popcount64 x = popcount x /\ __popcountti2 a = popcount a /\
  __parityti2 a = popcount a mod 2 /\ __clzti2 a = Ok (127 - Z.log2 a) /\
  exists k, __ctzti2 a = Ok k /\ lowest_bit a k /\ __ffsti2 (i128 a) = Ok (k + 1).
Proof.
  intros Hx Ha Ha0. pose proof (lo_range a) as Hl. pose proof (hi_range a) as Hh.
  split_and!; [by apply popcount64_spec| | |by apply clzti2_spec|by apply ctzti2_spec].
  - unfold __popcountti2. rewrite !popcount64_spec by done. symmetry. by apply popcount_halves.
  - unfold __parityti2. rewrite popcount64_spec by (by apply lxor_range).
    change 1 with (Z.ones 1) at 1. rewrite Z.land_ones by lia. change (2 ^ 1) with 2.
    rewrite !Zmod_odd, (popcount_halves a Ha), (popcount_lxor 64), Z.odd_add by done. done.
Qed.

Lemma counts_correct_witness :
  popcount64 (2 ^ 63 + 5) = 3 /\ __parityti2 (2 ^ 100 + 3) = 1.
Proof.
  destruct (counts_correct (2 ^ 63 + 5) (2 ^ 100 + 3)) as (H1 & _ & H2 & _); [vm_compute; by split|vm_compute; by split|done|].
  rewrite H1, H2. split; vm_compute; reflexivity.
Defined.
