(* ===== verification/CMem.v ===== *)
(** * Byte memory and the memory functions

    The memory functions of [include/string.h] and [kernel/string.c] over a
    byte memory: [__memset_inline], [__memcpy_inline], [__memmove_inline] and
    [__memcmp_inline] with the x86 string instructions they are made of
    ([rep stosq], [rep movsq], [repe cmpsb], direction flag clear), [mempcpy],
    [memchr], [memrchr], [memmem].

    A memory is a finite map from addresses to bytes; reading or writing an
    address that is not mapped is a fault.  Addresses are 64-bit numbers; an
    object does not wrap around the end of the address space. *)

From S2P Require Import Prelude.

Abbreviation mem := (gmap Z Z).
Definition rd (m : mem) (p : Z) : outcome Z := deref (m !! p).
Definition wr (m : mem) (p b : Z) : outcome mem :=
  if decide (is_Some (m !! p)) then Ok (<[p := b]> m) else Fault.

(** A loop that reads a new address in every round ends within this many. *)
Definition mfuel (m : mem) : nat := S (S (size m)).

(** ** The x86 string instructions *)

Fixpoint load_bytes (m : mem) (p : Z) (n : nat) : outcome (list Z) :=
  match n with
  | O => Ok []
  | S n => b ← rd m p; l ← load_bytes m (p + 1) n; Ok (b :: l)
  end.
Fixpoint store_bytes (m : mem) (p : Z) (l : list Z) : outcome mem :=
  match l with
  | [] => Ok m
  | b :: l => m ← wr m p b; store_bytes m (p + 1) l
  end.

(** The [w] low bytes of a register, least significant first. *)
Fixpoint reg_bytes (w : nat) (x : Z) : list Z :=
  match w with O => [] | S w => Z.land x 0xFF :: reg_bytes w (Z.shiftr x 8) end.

(** [rep stos] of [w]-byte units: the memory and the destination register. *)
Fixpoint rep_stos (w cnt : nat) (m : mem) (d rax : Z) : outcome (mem * Z) :=
  match cnt with
  | O => Ok (m, d)
  | S cnt => m ← store_bytes m d (reg_bytes w rax); rep_stos w cnt m (d + Z.of_nat w) rax
  end.

(** [rep movs] of [w]-byte units: each unit is read whole, then written. *)
Fixpoint rep_movs (w cnt : nat) (m : mem) (d s : Z) : outcome (mem * Z * Z) :=
  match cnt with
  | O => Ok (m, d, s)
  | S cnt =>
      l ← load_bytes m s w; m ← store_bytes m d l;
      rep_movs w cnt m (d + Z.of_nat w) (s + Z.of_nat w)
  end.

(** [repe cmpsb]: compare and advance until the bytes differ or the count is
    used up. *)
Fixpoint repe_cmpsb (cnt : nat) (m : mem) (p1 p2 : Z) : outcome (Z * Z) :=
  match cnt with
  | O => Ok (p1, p2)
  | S cnt =>
      a ← rd m p1; b ← rd m p2;
      if a =? b then repe_cmpsb cnt m (p1 + 1) (p2 + 1) else Ok (p1 + 1, p2 + 1)
  end.

(** ** The functions *)

Definition __memset_inline (m : mem) (s c n : Z) : outcome mem :=
  let word := u64 (u8 c * 0x0101010101010101) in
  let qwords := Z.shiftr n 3 in
  let rem := Z.land n 7 in
  r ← rep_stos 8 (Z.to_nat qwords) m s word;
  r ← rep_stos 1 (Z.to_nat rem) r.1 r.2 word;
  Ok r.1.

Definition __memcpy_inline (m : mem) (dest src n : Z) : outcome mem :=
  let qwords := Z.shiftr n 3 in
  let rem := Z.land n 7 in
  r ← rep_movs 8 (Z.to_nat qwords) m dest src;
  r ← rep_movs 1 (Z.to_nat rem) r.1.1 r.1.2 r.2;
  Ok r.1.1.

(** [while (n--) *--d = *--s]. *)
Fixpoint move_down (n : nat) (m : mem) (d s : Z) : outcome mem :=
  match n with
  | O => Ok m
  | S n => b ← rd m (s - 1); m ← wr m (d - 1) b; move_down n m (d - 1) (s - 1)
  end.

Definition __memmove_inline (m : mem) (dest src n : Z) : outcome mem :=
  if n <=? u64 (dest - src) then __memcpy_inline m dest src n
  else move_down (Z.to_nat n) m (dest + n) (src + n).

Definition __memcmp_inline (m : mem) (s1 s2 n : Z) : outcome Z :=
  if n =? 0 then Ok 0 else
  p ← repe_cmpsb (Z.to_nat n) m s1 s2;
  a ← rd m (p.1 - 1); b ← rd m (p.2 - 1);
  Ok (a - b).

Definition memset (m : mem) (s c n : Z) : outcome mem := __memset_inline m s c n.
Definition memcpy (m : mem) (dest src n : Z) : outcome mem := __memcpy_inline m dest src n.
Definition memmove (m : mem) (dest src n : Z) : outcome mem := __memmove_inline m dest src n.
Definition memcmp (m : mem) (s1 s2 n : Z) : outcome Z := __memcmp_inline m s1 s2 n.

(** The memory and the returned pointer. *)
Definition mempcpy (m : mem) (dest src n : Z) : outcome (mem * Z) :=
  m ← memcpy m dest src n; Ok (m, dest + n).

(** Pointers that may be [NULL] are options. *)
Definition memchr (m : mem) (s c n : Z) : outcome (option Z) :=
  loop (mfuel m) (fun i =>
    if i <? n then
      b ← rd m (s + i);
      if b =? u8 c then Ok (inr (Some (s + i))) else Ok (inl (i + 1))
    else Ok (inr None)) 0.

Definition memrchr (m : mem) (s c n : Z) : outcome (option Z) :=
  loop (mfuel m) (fun i =>
    if 0 <? i then
      b ← rd m (s + (i - 1));
      if b =? u8 c then Ok (inr (Some (s + (i - 1)))) else Ok (inl (i - 1))
    else Ok (inr None)) n.

Definition memmem (m : mem) (haystack haystack_len needle needle_len : Z) : outcome (option Z) :=
  if needle_len =? 0 then Ok (Some haystack)
  else if haystack_len <? needle_len then Ok None
  else
    loop (mfuel m) (fun i =>
      if i <=? haystack_len - needle_len then
        c ← memcmp m (haystack + i) needle needle_len;
        if c =? 0 then Ok (inr (Some (haystack + i))) else Ok (inl (i + 1))
      else Ok (inr None)) 0.

(** ** Blocks of memory *)

(** The bytes [l] are stored from [p] on. *)
Definition bytes_at (m : mem) (p : Z) (l : list Z) : Prop :=
  forall i b, l !! i = Some b -> m !! (p + Z.of_nat i) = Some b.
(** The [n] addresses from [p] on can be accessed. *)
Definition mapped (m : mem) (p n : Z) : Prop := forall a, p <= a < p + n -> is_Some (m !! a).
(** The memory after storing the bytes [l] from [p] on. *)
Fixpoint put (m : mem) (p : Z) (l : list Z) : mem :=
  match l with [] => m | b :: l => put (<[p := b]> m) (p + 1) l end.

Abbreviation len l := (Z.of_nat (length l)).

Lemma lookup_put m p l a :
  put m p l !! a = if decide (p <= a < p + len l) then l !! Z.to_nat (a - p) else m !! a.
Proof.
  revert m p. induction l as [|b l IH]; intros m p; cbn [put length].
  { rewrite decide_False by lia. done. }
  rewrite IH. destruct (decide (a = p)) as [->|Hne].
  - rewrite decide_False by lia. rewrite decide_True by lia. rewrite lookup_insert_eq.
    by replace (p - p) with 0 by lia.
  - rewrite lookup_insert_ne by lia. destruct (decide (p + 1 <= a < p + 1 + len l)).
    + rewrite decide_True by lia. replace (Z.to_nat (a - p)) with (S (Z.to_nat (a - (p + 1)))) by lia. done.
    + by rewrite decide_False by lia.
Qed.

Lemma lookup_put_out m p l a : ~ (p <= a < p + len l) -> put m p l !! a = m !! a.
Proof. intros. by rewrite lookup_put, decide_False. Qed.
Lemma lookup_put_in m p l i b : l !! i = Some b -> put m p l !! (p + Z.of_nat i) = Some b.
Proof.
  intros Hi. pose proof (lookup_lt_Some _ _ _ Hi). rewrite lookup_put, decide_True by lia.
  by replace (Z.to_nat (p + Z.of_nat i - p)) with i by lia.
Qed.

Lemma put_app m p l1 l2 : put m p (l1 ++ l2) = put (put m p l1) (p + len l1) l2.
Proof.
  revert m p. induction l1 as [|b l1 IH]; intros m p; cbn [put app length].
  - by rewrite Z.add_0_r.
  - rewrite IH. f_equal. lia.
Qed.

(** A store ahead of a block can be done last. *)
Lemma put_snoc m p l b : put m p (l ++ [b]) = <[p + len l := b]> (put m p l).
Proof. by rewrite put_app. Qed.
Lemma insert_put_comm m p l a b :
  ~ (p <= a < p + len l) -> <[a := b]> (put m p l) = put (<[a := b]> m) p l.
Proof.
  intros Ha. apply map_eq. intros k. destruct (decide (k = a)) as [->|].
  - rewrite lookup_insert_eq, lookup_put_out by done. by rewrite lookup_insert_eq.
  - rewrite lookup_insert_ne, !lookup_put by done. case_decide; [done|]. by rewrite lookup_insert_ne.
Qed.

Lemma put_put m p l1 l2 : length l1 = length l2 -> put (put m p l1) p l2 = put m p l2.
Proof. intros Hl. apply map_eq. intros a. rewrite !lookup_put, Hl. by case_decide. Qed.
Lemma put_comm m p l q k : p + len l <= q \/ q + len k <= p -> put (put m p l) q k = put (put m q k) p l.
Proof. intros Hd. apply map_eq. intros a. rewrite !lookup_put. repeat case_decide; done || lia. Qed.

Lemma put_same m p l : bytes_at m p l -> put m p l = m.
Proof.
  intros H. apply map_eq. intros a. rewrite lookup_put. case_decide as Ha; [|done].
  destruct (lookup_lt_is_Some_2 l (Z.to_nat (a - p))) as [b Hb]; [lia|].
  rewrite Hb. specialize (H _ _ Hb). by replace (p + Z.of_nat (Z.to_nat (a - p))) with a in H by lia.
Qed.
Lemma bytes_at_nil m p : bytes_at m p [].
Proof. intros i b. by rewrite lookup_nil. Qed.
Lemma bytes_at_cons m p b l : bytes_at m p (b :: l) <-> m !! p = Some b /\ bytes_at m (p + 1) l.
Proof.
  split.
  - intros H. split; [rewrite <- (Z.add_0_r p); by apply (H O)|].
    intros i c Hi. specialize (H (S i) c Hi). by replace (p + 1 + Z.of_nat i) with (p + Z.of_nat (S i)) by lia.
  - intros [H0 H] [|i] c Hc; [rewrite Z.add_0_r; by injection Hc as ->|].
    specialize (H i c Hc). by replace (p + Z.of_nat (S i)) with (p + 1 + Z.of_nat i) by lia.
Qed.
Lemma bytes_at_app m p l1 l2 :
  bytes_at m p (l1 ++ l2) <-> bytes_at m p l1 /\ bytes_at m (p + len l1) l2.
Proof.
  revert p. induction l1 as [|b l1 IH]; intros p; cbn [app length].
  - rewrite Z.add_0_r. pose proof (bytes_at_nil m p). tauto.
  - rewrite !bytes_at_cons, IH. replace (p + Z.of_nat (S (length l1))) with (p + 1 + len l1) by lia. tauto.
Qed.
Lemma bytes_at_put m p l : bytes_at (put m p l) p l.
Proof. intros i b. apply lookup_put_in. Qed.
Lemma bytes_at_put_ne m p l q k :
  q + len k <= p \/ p + len l <= q -> bytes_at m q k -> bytes_at (put m p l) q k.
Proof.
  intros Hd Hk i b Hi. pose proof (lookup_lt_Some _ _ _ Hi). rewrite lookup_put_out by lia. by apply Hk.
Qed.
Lemma bytes_at_inj m p l1 l2 :
  bytes_at m p l1 -> bytes_at m p l2 -> length l1 = length l2 -> l1 = l2.
Proof.
  intros H1 H2 Hl. apply list_eq_same_length with (length l2); [done|done|].
  intros i x y Hi Hx Hy. specialize (H1 i x Hx). specialize (H2 i y Hy). congruence.
Qed.
Lemma bytes_at_lookup m p l i b :
  bytes_at m p l -> 0 <= i -> l !! Z.to_nat i = Some b -> m !! (p + i) = Some b.
Proof. intros H Hi Hb. rewrite <- (Z2Nat.id i) at 1 by done. by apply H. Qed.

Lemma mapped_sub m p n q k : mapped m p n -> p <= q -> q + k <= p + n -> mapped m q k.
Proof. intros H ? ? a Ha. apply H. lia. Qed.
Lemma mapped_put m p l q n : mapped m q n -> mapped (put m p l) q n.
Proof.
  intros H a Ha. rewrite lookup_put. case_decide; [|by apply H].
  apply lookup_lt_is_Some. lia.
Qed.
Lemma mapped_insert m a b q n : mapped m q n -> mapped (<[a := b]> m) q n.
Proof. intros H. apply (mapped_put m a [b]). done. Qed.
Lemma bytes_at_mapped m p l : bytes_at m p l -> mapped m p (len l).
Proof.
  intros H a Ha. destruct (lookup_lt_is_Some_2 l (Z.to_nat (a - p))) as [b Hb]; [lia|].
  exists b. specialize (H _ _ Hb). by replace (p + Z.of_nat (Z.to_nat (a - p))) with a in H by lia.
Qed.

(** What is mapped is bounded by the size of the memory, so [mfuel] rounds are
    enough for a loop over it. *)
Lemma mapped_size m p n : 0 <= n -> mapped m p n -> n <= Z.of_nat (size m).
Proof.
  intros Hn H. rewrite <- (size_dom m).
  assert (list_to_set (seqZ p n) ⊆ dom m) as Hs.
  { intros a Ha. apply elem_of_list_to_set, elem_of_seqZ in Ha. apply elem_of_dom, H. lia. }
  apply subseteq_size in Hs. rewrite size_list_to_set in Hs by apply NoDup_seqZ. rewrite length_seqZ in Hs. lia.
Qed.
Lemma bytes_at_size m p l : bytes_at m p l -> (length l <= size m)%nat.
Proof. intros H%bytes_at_mapped%mapped_size; lia. Qed.
Lemma size_put m p l : mapped m p (len l) -> size (put m p l) = size m.
Proof.
  revert m p. induction l as [|b l IH]; intros m p Hm; [done|]. cbn [put length] in *.
  destruct (Hm p) as [c Hc]; [lia|].
  rewrite IH by (apply mapped_insert, (mapped_sub m p (Z.of_nat (S (length l)))); [done|lia|lia]).
  rewrite map_size_insert, Hc. done.
Qed.

Lemma rd_at m p l i b : bytes_at m p l -> 0 <= i -> l !! Z.to_nat i = Some b -> rd m (p + i) = Ok b.
Proof. intros H Hi Hb. unfold rd. by rewrite (bytes_at_lookup m p l i b). Qed.
Lemma wr_Ok m p b : is_Some (m !! p) -> wr m p b = Ok (<[p := b]> m).
Proof. intros. unfold wr. by rewrite decide_True. Qed.

Lemma load_bytes_at m p l : bytes_at m p l -> load_bytes m p (length l) = Ok l.
Proof.
  revert p. induction l as [|b l IH]; intros p H; [done|]. apply bytes_at_cons in H as [H0 H].
  cbn [length load_bytes]. unfold rd. rewrite H0. cbn [deref]. rewrite bind_Ok, (IH _ H). done.
Qed.
Lemma store_bytes_put m p l : mapped m p (len l) -> store_bytes m p l = Ok (put m p l).
Proof.
  revert m p. induction l as [|b l IH]; intros m p H; [done|]. cbn [length store_bytes put] in *.
  rewrite wr_Ok by (apply H; lia). rewrite bind_Ok. apply IH. apply mapped_insert.
  apply (mapped_sub m p (Z.of_nat (S (length l)))); [done|lia|lia].
Qed.

(** ** What the functions do *)

(** Copying upward is right when the destination starts at or below the source,
    or behind its end. *)
Lemma rep_movs_spec w cnt : forall m d s l,
  length l = (w * cnt)%nat -> bytes_at m s l -> mapped m d (len l) ->
  d <= s \/ s + len l <= d ->
  rep_movs w cnt m d s = Ok (put m d l, d + len l, s + len l).
Proof.
  induction cnt as [|cnt IH]; intros m d s l Hl Hs Hd Hov.
  { destruct l; [|cbn in Hl; lia]. cbn. by rewrite !Z.add_0_r. }
  set (l1 := take w l). set (l2 := drop w l).
  assert (length l1 = w) as L1 by (unfold l1; rewrite length_take; lia).
  assert (length l2 = (w * cnt)%nat) as L2 by (unfold l2; rewrite length_drop; lia).
  assert (l = l1 ++ l2) as E by (symmetry; apply take_drop).
  rewrite E in Hs |- *. apply bytes_at_app in Hs as [Hs1 Hs2]. cbn [rep_movs].
  rewrite <- L1 at 1. rewrite (load_bytes_at _ _ _ Hs1), bind_Ok.
  rewrite store_bytes_put by (apply (mapped_sub m d (len l)); [done|lia|rewrite E, length_app; lia]).
  rewrite bind_Ok, (IH (put m d l1) _ _ l2).
  - by rewrite put_app, length_app, L1, Nat2Z.inj_add, !Z.add_assoc.
  - done.
  - rewrite <- L1. apply bytes_at_put_ne; [lia|done].
  - apply mapped_put, (mapped_sub m d (len l)); [done|lia|lia].
  - lia.
Qed.

Lemma split8 n : 0 <= n ->
  Z.shiftr n 3 = n `div` 8 /\ Z.land n 7 = n `mod` 8 /\ n = 8 * (n `div` 8) + n `mod` 8 /\
  0 <= n `div` 8 /\ 0 <= n `mod` 8 < 8.
Proof.
  intros Hn. rewrite Z.shiftr_div_pow2 by lia. change 7 with (Z.ones 3). rewrite Z.land_ones by lia.
  change (2 ^ 3) with 8. pose proof (Z.div_mod n 8). pose proof (Z.mod_pos_bound n 8).
  pose proof (Z.div_pos n 8). lia.
Qed.

Lemma memcpy_spec m d s l :
  bytes_at m s l -> mapped m d (len l) -> d <= s \/ s + len l <= d ->
  memcpy m d s (len l) = Ok (put m d l).
Proof.
  intros Hs Hd Hov. unfold memcpy, __memcpy_inline.
  destruct (split8 (len l)) as (-> & -> & E & Hq & Hr); [lia|].
  set (q := Z.to_nat (len l `div` 8)). set (r := Z.to_nat (len l `mod` 8)).
  set (l1 := take (8 * q) l). set (l2 := drop (8 * q) l).
  assert (length l = 8 * q + r)%nat as EL by (unfold q, r; lia).
  assert (length l1 = 8 * q)%nat as L1 by (unfold l1; rewrite length_take; lia).
  assert (length l2 = 1 * r)%nat as L2 by (unfold l2; rewrite length_drop; lia).
  assert (l = l1 ++ l2) as El by (symmetry; apply take_drop). clearbody l1 l2.
  rewrite El in Hs, Hov |- *. rewrite length_app in Hov. apply bytes_at_app in Hs as [Hs1 Hs2].
  rewrite (rep_movs_spec 8 q m d s l1), bind_Ok; cbn [fst snd]; [|done|done|apply (mapped_sub m d (len l)); [done|lia|lia]|lia].
  rewrite (rep_movs_spec 1 r _ _ _ l2), bind_Ok; cbn [fst snd].
  - by rewrite put_app.
  - done.
  - apply bytes_at_put_ne; [lia|done].
  - apply mapped_put, (mapped_sub m d (len l)); [done|lia|lia].
  - lia.
Qed.

Lemma move_down_spec l : forall m d s,
  bytes_at m s l -> mapped m d (len l) -> s <= d ->
  move_down (length l) m (d + len l) (s + len l) = Ok (put m d l).
Proof.
  induction l as [|b l IH] using rev_ind; intros m d s Hs Hd Hov; [done|].
  rewrite length_app in *. cbn [length] in *. apply bytes_at_app in Hs as [Hs1 Hs2%bytes_at_cons].
  replace (length l + 1)%nat with (S (length l)) by lia. cbn [move_down].
  replace (s + Z.of_nat (S (length l)) - 1) with (s + len l) by lia.
  replace (d + Z.of_nat (S (length l)) - 1) with (d + len l) by lia.
  unfold rd. rewrite (proj1 Hs2). cbn [deref]. rewrite bind_Ok, wr_Ok, bind_Ok by (apply Hd; lia).
  rewrite IH.
  - by rewrite put_snoc, insert_put_comm by lia.
  - apply (bytes_at_put_ne m (d + len l) [b]); [lia|done].
  - apply mapped_insert, (mapped_sub m d (Z.of_nat (length l + 1))); [done|lia|lia].
  - done.
Qed.

Lemma reg_bytes_byte b : in_u 8 b ->
  reg_bytes 8 (u64 (b * 0x0101010101010101)) = replicate 8 b /\
  reg_bytes 1 (u64 (b * 0x0101010101010101)) = [b].
Proof.
  intros Hb. set (ok := fun b => bool_decide (reg_bytes 8 (u64 (b * 0x0101010101010101)) = replicate 8 b /\
    reg_bytes 1 (u64 (b * 0x0101010101010101)) = [b])).
  assert (forallb ok (seqZ 0 256) = true) as H by (vm_compute; reflexivity).
  assert (In b (seqZ 0 256)) as Hin by (apply list_elem_of_In, elem_of_seqZ; unfold in_u in Hb; lia).
  apply (proj1 (forallb_forall _ _) H) in Hin. unfold ok in Hin. by apply bool_decide_eq_true in Hin.
Qed.

Lemma rep_stos_spec w cnt b rax : reg_bytes w rax = replicate w b -> forall m d,
  mapped m d (Z.of_nat (w * cnt)) ->
  rep_stos w cnt m d rax = Ok (put m d (replicate (w * cnt) b), d + Z.of_nat (w * cnt)).
Proof.
  intros Hr. induction cnt as [|cnt IH]; intros m d Hd.
  { rewrite Nat.mul_0_r. cbn. by rewrite Z.add_0_r. }
  cbn [rep_stos]. rewrite Hr. rewrite Nat.mul_succ_r in *.
  rewrite store_bytes_put, bind_Ok by (rewrite length_replicate; apply (mapped_sub m d (Z.of_nat (w * cnt + w))); [done|lia|lia]).
  rewrite IH by (apply mapped_put, (mapped_sub m d (Z.of_nat (w * cnt + w))); [done|lia|lia]).
  rewrite (Nat.add_comm (w * cnt) w), replicate_add, put_app, length_replicate. do 2 f_equal. lia.
Qed.

Lemma memset_spec m s c n :
  0 <= n -> mapped m s n -> memset m s c n = Ok (put m s (replicate (Z.to_nat n) (u8 c))).
Proof.
  intros Hn Hm. unfold memset, __memset_inline. destruct (split8 n Hn) as (-> & -> & E & Hq & Hr).
  destruct (reg_bytes_byte (u8 c)) as [R8 R1]; [by apply wrap_range|].
  rewrite (rep_stos_spec 8 _ (u8 c)), bind_Ok; cbn [fst snd]; [|done|apply (mapped_sub m s n); [done|lia|lia]].
  rewrite (rep_stos_spec 1 _ (u8 c)), bind_Ok; cbn [fst snd].
  - rewrite <- (length_replicate (8 * Z.to_nat (n `div` 8)) (u8 c)) at 2. rewrite <- put_app, <- replicate_add.
    do 3 f_equal. lia.
  - done.
  - apply mapped_put, (mapped_sub m s n); [done|lia|lia].
Qed.

(** The difference of the first two bytes that differ. *)
Fixpoint cmp_bytes (l1 l2 : list Z) : Z :=
  match l1, l2 with
  | a :: l1, b :: l2 => if a =? b then cmp_bytes l1 l2 else a - b
  | _, _ => 0
  end.

Lemma cmp_bytes_0 l1 l2 : length l1 = length l2 -> cmp_bytes l1 l2 = 0 <-> l1 = l2.
Proof.
  revert l2. induction l1 as [|a l1 IH]; intros [|b l2] Hl; try done. cbn [cmp_bytes length] in *.
  injection Hl as Hl. destruct (Z.eqb_spec a b) as [->|Hab].
  - rewrite IH by done. split; [by intros ->|by injection 1].
  - split; [lia|congruence].
Qed.

Lemma repe_cmpsb_spec l1 : forall l2 m p1 p2,
  length l1 = length l2 -> l1 <> [] -> bytes_at m p1 l1 -> bytes_at m p2 l2 ->
  exists q1 q2 a b, repe_cmpsb (length l1) m p1 p2 = Ok (q1, q2) /\
    m !! (q1 - 1) = Some a /\ m !! (q2 - 1) = Some b /\ a - b = cmp_bytes l1 l2.
Proof.
  induction l1 as [|a l1 IH]; intros [|b l2] m p1 p2 Hl Hne H1 H2; try done.
  apply bytes_at_cons in H1 as [H1 H1']. apply bytes_at_cons in H2 as [H2 H2']. cbn [length] in Hl |- *.
  injection Hl as Hl. cbn [repe_cmpsb cmp_bytes]. unfold rd. rewrite H1, H2. cbn [deref]. rewrite !bind_Ok.
  destruct (Z.eqb_spec a b) as [->|Hab].
  - destruct l1 as [|a' l1].
    + destruct l2; [|done]. exists (p1 + 1), (p2 + 1), b, b. rewrite !Z.add_simpl_r. cbn. split_and!; try done. lia.
    + by apply IH.
  - exists (p1 + 1), (p2 + 1), a, b. by rewrite !Z.add_simpl_r.
Qed.

Lemma memcmp_spec m p1 p2 l1 l2 :
  length l1 = length l2 -> bytes_at m p1 l1 -> bytes_at m p2 l2 ->
  memcmp m p1 p2 (len l1) = Ok (cmp_bytes l1 l2).
Proof.
  intros Hl H1 H2. unfold memcmp, __memcmp_inline.
  destruct l1 as [|a l1]; [by destruct l2|]. destruct (Z.eqb_spec (len (a :: l1)) 0); [cbn in *; lia|].
  rewrite Nat2Z.id. destruct (repe_cmpsb_spec (a :: l1) l2 m p1 p2) as (q1 & q2 & x & y & -> & Hx & Hy & E); try done.
  rewrite bind_Ok. cbn [fst snd]. unfold rd. rewrite Hx, Hy. cbn [deref]. rewrite !bind_Ok. by f_equal.
Qed.

(** [f] holds first at index [i] of [0, hi), or nowhere when [None]. *)
Definition first_at (f : Z -> bool) (hi : Z) (r : option Z) : Prop :=
  match r with
  | Some i => 0 <= i < hi /\ f i = true /\ forall j, 0 <= j < i -> f j = false
  | None => forall j, 0 <= j < hi -> f j = false
  end.

(** A loop that counts up to the first index where [f] holds. *)
Lemma loop_first {R} fuel (body : Z -> outcome (Z + R)) (f : Z -> bool) hi (found : Z -> R) (none : R) :
  (forall i, 0 <= i < hi -> body i = Ok (if f i then inr (found i) else inl (i + 1))) ->
  body hi = Ok (inr none) -> 0 <= hi < Z.of_nat fuel ->
  exists o, first_at f hi o /\
    loop fuel body 0 = Ok (match o with Some i => found i | None => none end).
Proof.
  intros Hb Hend Hf.
  destruct (loop_total body (fun i n => 0 <= i <= hi /\ Z.of_nat n = hi - i /\ forall j, 0 <= j < i -> f j = false)
    (fun r => exists o, first_at f hi o /\ r = match o with Some i => found i | None => none end)) with fuel 0 (Z.to_nat hi)
    as (r & Hr & o & Ho & ->).
  - intros i n (Hi & Hn & Hj). destruct (decide (i = hi)) as [->|].
    + right. exists none. split; [done|]. by exists None.
    + rewrite Hb by lia. destruct (f i) eqn:Ei.
      * right. exists (found i). split; [done|]. exists (Some i). split; [|done]. split_and!; [lia|lia|done|done].
      * left. exists (i + 1), (Z.to_nat (hi - (i + 1))). split_and!; [done|lia|lia|lia|lia|].
        intros j Hj'. destruct (decide (j = i)) as [->|]; [done|]. apply Hj. lia.
  - split_and!; lia.
  - lia.
  - by exists o.
Qed.

Definition byte_is (l : list Z) (b i : Z) : bool := bool_decide (l !! Z.to_nat i = Some b).

Lemma memchr_spec m s c l :
  bytes_at m s l ->
  exists o, first_at (byte_is l (u8 c)) (len l) o /\ memchr m s c (len l) = Ok (Z.add s <$> o).
Proof.
  intros Hl. pose proof (bytes_at_size _ _ _ Hl).
  destruct (loop_first (R := option Z) (mfuel m) (fun i => if i <? len l then
      b ← rd m (s + i); if b =? u8 c then Ok (inr (Some (s + i))) else Ok (inl (i + 1)) else Ok (inr None))
    (byte_is l (u8 c)) (len l) (fun i => Some (s + i)) None) as (o & Ho & E).
  - intros i Hi. destruct (Z.ltb_spec i (len l)); [|lia].
    destruct (lookup_lt_is_Some_2 l (Z.to_nat i)) as [b Hb]; [lia|].
    rewrite (rd_at m s l i b) by (done || lia). rewrite bind_Ok. unfold byte_is. rewrite Hb.
    destruct (Z.eqb_spec b (u8 c)) as [->|]; [by rewrite bool_decide_true|rewrite bool_decide_false by congruence; done].
  - by rewrite Z.ltb_irrefl.
  - unfold mfuel. lia.
  - exists o. split; [done|]. unfold memchr. rewrite E. by destruct o.
Qed.

(** The bytes [k] occur in [l] at index [i]. *)
Definition occurs_at (l k : list Z) (i : Z) : bool :=
  bool_decide (take (length k) (drop (Z.to_nat i) l) = k).

Lemma memmem_spec m h l n k :
  bytes_at m h l -> bytes_at m n k -> k <> [] -> len k <= len l ->
  exists o, first_at (occurs_at l k) (len l - len k + 1) o /\
    memmem m h (len l) n (len k) = Ok (Z.add h <$> o).
Proof.
  intros Hl Hk Hk0 Hle. pose proof (bytes_at_size _ _ _ Hl). assert (0 < len k) by (destruct k; [done|cbn; lia]).
  destruct (loop_first (R := option Z) (mfuel m) (fun i => if i <=? len l - len k then
      c ← memcmp m (h + i) n (len k); if c =? 0 then Ok (inr (Some (h + i))) else Ok (inl (i + 1)) else Ok (inr None))
    (occurs_at l k) (len l - len k + 1) (fun i => Some (h + i)) None) as (o & Ho & E).
  - intros i Hi. destruct (Z.leb_spec i (len l - len k)); [|lia].
    assert (length (take (length k) (drop (Z.to_nat i) l)) = length k) as Lt
      by (rewrite length_take, length_drop; lia).
    rewrite <- Lt at 1. rewrite (memcmp_spec m (h + i) n _ k), bind_Ok; [|done| |done].
    + unfold occurs_at. case_bool_decide as Eq.
      * rewrite Eq, (proj2 (cmp_bytes_0 k k eq_refl) eq_refl). done.
      * destruct (Z.eqb_spec (cmp_bytes (take (length k) (drop (Z.to_nat i) l)) k) 0) as [E0|]; [|done].
        by apply cmp_bytes_0 in E0.
    + rewrite <- (take_drop (Z.to_nat i) l) in Hl. apply bytes_at_app in Hl as [_ Hl].
      rewrite length_take in Hl. replace (h + Z.of_nat (Z.to_nat i `min` length l)) with (h + i) in Hl by lia.
      rewrite <- (take_drop (length k) (drop (Z.to_nat i) l)) in Hl. by apply bytes_at_app in Hl as [Hl _].
  - destruct (Z.leb_spec (len l - len k + 1) (len l - len k)); [lia|done].
  - unfold mfuel. lia.
  - exists o. split; [done|]. unfold memmem. destruct (Z.eqb_spec (len k) 0); [lia|].
    destruct (Z.ltb_spec (len l) (len k)); [lia|]. rewrite E. by destruct o.
Qed.

(** Both predicates can be evaluated on a concrete memory. *)
Lemma load_bytes_inv n : forall m p l, load_bytes m p n = Ok l -> length l = n /\ bytes_at m p l.
Proof.
  induction n as [|n IH]; intros m p l; cbn [load_bytes]; [intros [= <-]; split; [done|apply bytes_at_nil]|].
  intros (b & Hb & (k & Hk & [= <-])%bind_Ok_inv)%bind_Ok_inv. apply IH in Hk as [Hk1 Hk2]. cbn [length].
  split; [by rewrite Hk1|]. apply bytes_at_cons. split; [|done]. unfold rd in Hb. destruct (m !! p); [|done].
  by injection Hb as ->.
Qed.
Lemma bytes_at_check m p l : load_bytes m p (length l) = Ok l -> bytes_at m p l.
Proof. apply load_bytes_inv. Qed.
Lemma mapped_check m p n : 0 <= n -> is_Some (match load_bytes m p (Z.to_nat n) with Ok l => Some l | _ => None end) -> mapped m p n.
Proof.
  intros Hn [l Hl]. destruct (load_bytes m p (Z.to_nat n)) as [k| |] eqn:E; try done.
  apply load_bytes_inv in E as [E1 E2%bytes_at_mapped]. by rewrite E1, Z2Nat.id in E2.
Qed.

Ltac mem_check :=
  first [ apply bytes_at_check; vm_compute; reflexivity
        | apply mapped_check; [vm_compute; discriminate|vm_compute; eexists; reflexivity]
        | vm_compute; intuition discriminate
        | vm_compute; reflexivity ].

(** ** Properties *)

(** C24: [memmove] copies for every overlap.  Whatever the positions of source
    and destination inside the address space, the destination receives the
    bytes the source had before the call and nothing else changes; [memset]
    fills exactly its range; neither faults on mapped ranges. *)
Theorem memmove_correct m d s l c n :
  bytes_at m s l -> mapped m d (len l) -> 0 <= d -> 0 <= s -> s + len l <= 2 ^ 64 -> d + len l <= 2 ^ 64 ->
  0 <= n <= len l ->
  memmove m d s (len l) = Ok (put m d l) /\
  memset m d c n = Ok (put m d (replicate (Z.to_nat n) (u8 c))).
Proof.
  intros Hs Hd Hd0 Hs0 Hse Hde Hn. split; [|apply memset_spec; [lia|apply (mapped_sub m d (len l)); [done|lia|lia]]].
  unfold memmove, __memmove_inline. destruct (Z.leb_spec (len l) (u64 (d - s))) as [Hle|Hgt].
  - destruct l as [|b l]; [done|]. apply memcpy_spec; [done|done|].
    cbn [length] in *. destruct (decide (d < s)); [lia|]. rewrite wrap_small in Hle by (unfold in_u; lia). lia.
  - rewrite Nat2Z.id. apply move_down_spec; [done|done|].
    destruct (decide (d < s)); [|lia]. exfalso.
    rewrite <- (wrap_eq_intro 64 (d - s + 2 ^ 64) (d - s) 1), wrap_small in Hgt by (unfold in_u; lia). lia.
Qed.

Definition demo_mem : mem := put ∅ 0 [1; 2; 3; 4; 5; 6; 7; 8; 9; 10; 11; 12].
Lemma memmove_correct_witness :
  memmove demo_mem 3 1 9 = Ok (put demo_mem 3 [2; 3; 4; 5; 6; 7; 8; 9; 10]) /\
  memmove demo_mem 1 2 10 = Ok (put demo_mem 1 [3; 4; 5; 6; 7; 8; 9; 10; 11; 12]).
Proof.
  split.
  - apply (memmove_correct demo_mem 3 1 [2; 3; 4; 5; 6; 7; 8; 9; 10] 0 0); mem_check.
  - apply (memmove_correct demo_mem 1 2 [3; 4; 5; 6; 7; 8; 9; 10; 11; 12] 0 0); mem_check.
Defined.
