(* ===== verification/CString.v ===== *)
(** * The C string functions

    The string functions of [kernel/string.c] over the byte memory of [CMem.v].
    Not here: the number conversions ([CNum.v]), [asprintf], which is a client of
    the printf engine, [strchrnul], [strnstr], [strncasestr], [strtoupper] and
    [strtolower], and the character classes nothing below uses.

    Every loop of the code is a [loop] over the variables it changes; a
    function returns the memory it leaves and its result.  A [char] is the byte
    as stored; where the code compares it as a (signed) [char] with an [int]
    the conversion is written out. *)

From S2P Require Import Prelude CMem.

(** ** Characters *)

Definition islower (c : Z) : bool := u32 (u32 c - 97) <? 26.
Definition isupper (c : Z) : bool := u32 (u32 c - 65) <? 26.
Definition isdigit (c : Z) : bool := u32 (u32 c - 48) <? 10.
Definition isalpha (c : Z) : bool := islower c || isupper c.
Definition isalnum (c : Z) : bool := isalpha c || isdigit c.
Definition isspace (c : Z) : bool :=
  (c =? 32) || (c =? 9) || (c =? 10) || (c =? 13) || (c =? 12) || (c =? 11).
Definition isgraph (c : Z) : bool := u32 (u32 c - 0x21) <? 0x5e.
Definition toupper (c : Z) : Z := if islower c then Z.land c 0x5f else c.
Definition tolower (c : Z) : Z := if isupper c then Z.lor c 0x20 else c.

(** ** Length and copying *)

Definition strlen_body (m : mem) (str i : Z) : outcome (Z + Z) :=
  b ← rd m (str + i); Ok (if b =? 0 then inr i else inl (i + 1)).
Definition strlen (m : mem) (str : Z) : outcome Z := loop (mfuel m) (strlen_body m str) 0.

Definition strnlen_body (m : mem) (s maxlen i : Z) : outcome (Z + Z) :=
  if i <? maxlen then b ← rd m (s + i); Ok (if b =? 0 then inr i else inl (i + 1)) else Ok (inr i).
Definition strnlen (m : mem) (s maxlen : Z) : outcome Z := loop (mfuel m) (strnlen_body m s maxlen) 0.

(** [while (( *dest++ = *src++));] *)
Definition strcpy_body : mem * Z * Z -> outcome (mem * Z * Z + mem) := fun '(m, dest, src) =>
  b ← rd m src; m ← wr m dest b;
  Ok (if b =? 0 then inr m else inl (m, dest + 1, src + 1)).
Definition strcpy (m : mem) (dest src : Z) : outcome (mem * Z) :=
  m' ← loop (mfuel m) strcpy_body (m, dest, src); Ok (m', dest).

(** [while ( *dest) dest++;] *)
Definition skip_body (m : mem) (p : Z) : outcome (Z + Z) :=
  b ← rd m p; Ok (if b =? 0 then inr p else inl (p + 1)).
Definition strcat (m : mem) (dest src : Z) : outcome (mem * Z) :=
  d ← loop (mfuel m) (skip_body m) dest;
  m' ← loop (mfuel m) strcpy_body (m, d, src);
  Ok (m', dest).

Definition strncpy_copy (dest src n : Z) : mem * Z -> outcome (mem * Z + mem * Z) := fun '(m, i) =>
  if i <? n then
    b ← rd m (src + i);
    if b =? 0 then Ok (inr (m, i)) else m ← wr m (dest + i) b; Ok (inl (m, i + 1))
  else Ok (inr (m, i)).
(** [for (; i < n; i++) dest[i] = 0;] *)
Definition pad_body (dest n : Z) : mem * Z -> outcome (mem * Z + mem) := fun '(m, i) =>
  if i <? n then m ← wr m (dest + i) 0; Ok (inl (m, i + 1)) else Ok (inr m).
Definition strncpy (m : mem) (dest src n : Z) : outcome (mem * Z) :=
  r ← loop (mfuel m) (strncpy_copy dest src n) (m, 0);
  m' ← loop (mfuel m) (pad_body dest n) r;
  Ok (m', dest).

Definition stpcpy_body : mem * Z * Z -> outcome (mem * Z * Z + mem * Z) := fun '(m, dest, src) =>
  b ← rd m src; m ← wr m dest b;
  Ok (if b =? 0 then inr (m, dest) else inl (m, dest + 1, src + 1)).
Definition stpcpy (m : mem) (dest src : Z) : outcome (mem * Z) := loop (mfuel m) stpcpy_body (m, dest, src).

Definition stpncpy (m : mem) (dest src n : Z) : outcome (mem * Z) :=
  r ← loop (mfuel m) (strncpy_copy dest src n) (m, 0);
  m' ← loop (mfuel m) (pad_body dest n) r;
  Ok (m', dest + r.2).

(** [while (n-- && *src) *d++ = *src++;] *)
Definition strncat_body : mem * Z * Z * Z -> outcome (mem * Z * Z * Z + mem * Z) := fun '(m, d, src, n) =>
  if n =? 0 then Ok (inr (m, d)) else
  b ← rd m src;
  if b =? 0 then Ok (inr (m, d)) else m ← wr m d b; Ok (inl (m, d + 1, src + 1, n - 1)).
Definition strncat (m : mem) (dest src n : Z) : outcome (mem * Z) :=
  d ← loop (mfuel m) (skip_body m) dest;
  r ← loop (mfuel m) strncat_body (m, d, src, n);
  m' ← wr r.1 r.2 0;
  Ok (m', dest).

Definition strlcpy (m : mem) (dst src size : Z) : outcome (mem * Z) :=
  srclen ← strlen m src;
  if negb (size =? 0) then
    let n := if srclen <? size - 1 then srclen else size - 1 in
    m ← memcpy m dst src n; m ← wr m (dst + n) 0; Ok (m, srclen)
  else Ok (m, srclen).

Definition strlcat (m : mem) (dst src size : Z) : outcome (mem * Z) :=
  dstlen ← strnlen m dst size;
  srclen ← strlen m src;
  if dstlen =? size then Ok (m, u64 (size + srclen)) else
  let avail := size - dstlen in
  let n := if srclen <? avail - 1 then srclen else avail - 1 in
  m ← memcpy m (dst + dstlen) src n;
  m ← wr m (dst + dstlen + n) 0;
  Ok (m, u64 (dstlen + srclen)).

(** ** Comparison *)

Definition strncmp_body (m : mem) (s1 s2 n i : Z) : outcome (Z + Z) :=
  if i <? n then
    a ← rd m (s1 + i); b ← rd m (s2 + i);
    Ok (if negb (a =? b) || (a =? 0) then inr (a - b) else inl (i + 1))
  else Ok (inr 0).
Definition strncmp (m : mem) (s1 s2 n : Z) : outcome Z := loop (mfuel m) (strncmp_body m s1 s2 n) 0.

Definition strcmp_body (m : mem) : Z * Z -> outcome (Z * Z + Z) := fun '(p1, p2) =>
  a ← rd m p1; b ← rd m p2;
  Ok (if negb (a =? 0) && negb (b =? 0) then
        if negb (a =? b) then inr (a - b) else inl (p1 + 1, p2 + 1)
      else inr (a - b)).
Definition strcmp (m : mem) (str1 str2 : Z) : outcome Z := loop (mfuel m) (strcmp_body m) (str1, str2).

Definition strcasecmp_body (m : mem) : Z * Z -> outcome (Z * Z + Z) := fun '(s1, s2) =>
  a ← rd m s1; b ← rd m s2;
  let d := tolower a - tolower b in
  Ok (if negb (a =? 0) && negb (b =? 0) then
        if negb (d =? 0) then inr d else inl (s1 + 1, s2 + 1)
      else inr d).
Definition strcasecmp (m : mem) (s1 s2 : Z) : outcome Z := loop (mfuel m) (strcasecmp_body m) (s1, s2).

(** The count is decremented by the test that ends the loop as well, so that
    it is [(size_t)-1] exactly when the count was used up. *)
Definition strncasecmp_body (m : mem) : Z * Z * Z -> outcome (Z * Z * Z + Z) := fun '(s1, s2, n) =>
  let n' := u64 (n - 1) in
  if n =? 0 then Ok (inr 0) else
  a ← rd m s1;
  if a =? 0 then
    (if n' =? 2 ^ 64 - 1 then Ok (inr 0) else b ← rd m s2; Ok (inr (tolower a - tolower b)))
  else
  b ← rd m s2;
  if b =? 0 then
    (if n' =? 2 ^ 64 - 1 then Ok (inr 0) else Ok (inr (tolower a - tolower b)))
  else
  let d := tolower a - tolower b in
  if negb (d =? 0) then Ok (inr d) else Ok (inl (s1 + 1, s2 + 1, n')).
Definition strncasecmp (m : mem) (s1 s2 n : Z) : outcome Z := loop (mfuel m) (strncasecmp_body m) (s1, s2, n).

(** ** Searching *)

(** [do { if ( *s == c) return s; } while ( *s++);], the byte as a signed [char]. *)
Definition strchr_body (m : mem) (c s : Z) : outcome (Z + option Z) :=
  b ← rd m s;
  Ok (if sgn 8 b =? c then inr (Some s) else if b =? 0 then inr None else inl (s + 1)).
Definition strchr (m : mem) (s c : Z) : outcome (option Z) := loop (mfuel m) (strchr_body m c) s.

Definition strrchr_body (m : mem) (c : Z) : Z * option Z -> outcome (Z * option Z + option Z) := fun '(s, last) =>
  b ← rd m s;
  let last := if sgn 8 b =? sgn 8 c then Some s else last in
  Ok (if b =? 0 then inr last else inl (s + 1, last)).
Definition strrchr (m : mem) (s c : Z) : outcome (option Z) := loop (mfuel m) (strrchr_body m c) (s, None).


(** [while ( *a) if (c == *a++) found]. *)
Definition in_set_body (m : mem) (c a : Z) : outcome (Z + bool) :=
  b ← rd m a; Ok (if b =? 0 then inr false else if c =? b then inr true else inl (a + 1)).
Definition in_set (m : mem) (c set : Z) : outcome bool := loop (mfuel m) (in_set_body m c) set.

Definition strspn_body (m : mem) (s accept i : Z) : outcome (Z + Z) :=
  c ← rd m (s + i);
  if c =? 0 then Ok (inr i) else
  found ← in_set m c accept; Ok (if (found : bool) then inl (i + 1) else inr i).
Definition strspn (m : mem) (s accept : Z) : outcome Z := loop (mfuel m) (strspn_body m s accept) 0.

Definition strcspn_body (m : mem) (s reject i : Z) : outcome (Z + Z) :=
  c ← rd m (s + i);
  if c =? 0 then Ok (inr i) else
  found ← in_set m c reject; Ok (if (found : bool) then inr i else inl (i + 1)).
Definition strcspn (m : mem) (s reject : Z) : outcome Z := loop (mfuel m) (strcspn_body m s reject) 0.

Definition strpbrk_body (m : mem) (accept s : Z) : outcome (Z + option Z) :=
  c ← rd m s;
  if c =? 0 then Ok (inr None) else
  found ← in_set m c accept; Ok (if (found : bool) then inr (Some s) else inl (s + 1)).
Definition strpbrk (m : mem) (s accept : Z) : outcome (option Z) := loop (mfuel m) (strpbrk_body m accept) s.

Definition strnstr_body (m : mem) (haystack needle nlen hlen : Z) (ignore_case : bool) (i : Z)
    : outcome (Z + option Z) :=
  if i <=? hlen - nlen then
    cmp ← (if ignore_case then strncasecmp m (haystack + i) needle nlen
           else memcmp m (haystack + i) needle nlen);
    Ok (if cmp =? 0 then inr (Some (haystack + i)) else inl (i + 1))
  else Ok (inr None).
Definition strnstr_internal (m : mem) (haystack needle len : Z) (ignore_case : bool) : outcome (option Z) :=
  nlen ← strlen m needle;
  if nlen =? 0 then Ok (Some haystack) else
  hlen ← strnlen m haystack len;
  if hlen <? nlen then Ok None else
  loop (mfuel m) (strnstr_body m haystack needle nlen hlen ignore_case) 0.
Definition SIZE_MAX : Z := 2 ^ 64 - 1.
Definition strstr m haystack needle := strnstr_internal m haystack needle SIZE_MAX false.
Definition strcasestr m haystack needle := strnstr_internal m haystack needle SIZE_MAX true.

(** ** Tokens and in-place changes *)

(** [strtok_r] and, with the static variable as [saveptr], [strtok]: the
    memory, the saved pointer and the token. *)
Definition strtok_r (m : mem) (str : option Z) (delim : Z) (saveptr : option Z)
    : outcome (mem * option Z * option Z) :=
  let save := match str with Some s => Some s | None => saveptr end in
  match save with
  | None => Ok (m, None, None)
  | Some save =>
      b ← rd m save;
      if b =? 0 then Ok (m, Some save, None) else
      k ← strspn m save delim;
      let save := save + k in
      b ← rd m save;
      if b =? 0 then Ok (m, None, None) else
      let token_start := save in
      k ← strcspn m save delim;
      let save := save + k in
      b ← rd m save;
      if negb (b =? 0) then m ← wr m save 0; Ok (m, Some (save + 1), Some token_start)
      else Ok (m, None, Some token_start)
  end.
Definition strtok (m : mem) (saved : option Z) (str : option Z) (delim : Z)
    : outcome (mem * option Z * option Z) := strtok_r m str delim saved.

Definition strsep (m : mem) (stringp : option Z) (delim : Z) : outcome (mem * option Z * option Z) :=
  match stringp with
  | None => Ok (m, None, None)
  | Some start =>
      p ← strpbrk m start delim;
      match p with
      | Some p => m ← wr m p 0; Ok (m, Some (p + 1), Some start)
      | None => Ok (m, None, Some start)
      end
  end.

(** The swap loop of [strrev], [itoa] and [utoa]. *)
Definition rev_body : mem * Z * Z -> outcome (mem * Z * Z + mem) := fun '(m, l, r) =>
  if l <? r then
    t ← rd m l; b ← rd m r; m ← wr m l b; m ← wr m r t; Ok (inl (m, l + 1, r - 1))
  else Ok (inr m).
Definition strrev (m : mem) (s : Z) : outcome (mem * Z) :=
  n ← strlen m s;
  m' ← loop (mfuel m) rev_body (m, s, s + n - 1);
  Ok (m', s).


(** ** Duplication

    [strdup] and [strndup] against the interface of the kernel allocator: a
    successful [valloc] maps the block it returns and changes no address that
    was mapped before. *)
Class Valloc := {
  valloc : mem -> Z -> mem * option Z;
  valloc_fresh m n p a : (valloc m n).2 = Some p -> is_Some (m !! a) -> ~ (p <= a < p + n);
  valloc_keep m n a : is_Some (m !! a) -> (valloc m n).1 !! a = m !! a;
  valloc_mapped m n p : (valloc m n).2 = Some p -> mapped (valloc m n).1 p n;
}.

(** An allocator that takes fresh addresses above all mapped ones meets the
    interface. *)
Definition top_addr (m : mem) : Z := map_fold (fun a _ t => Z.max a t) 0 m.
Lemma top_addr_max m a : is_Some (m !! a) -> a <= top_addr m.
Proof.
  unfold top_addr. revert a. apply (map_fold_weak_ind (fun t m => forall a, is_Some (m !! a) -> a <= t)).
  - intros a [b Hb]. by rewrite lookup_empty in Hb.
  - intros k b m' t Hk IH a. rewrite lookup_insert_is_Some. intros [->|[_ Ha]]; [lia|]. specialize (IH a Ha). lia.
Qed.
Lemma bump_fresh m a n : is_Some (m !! a) -> ~ (top_addr m + 1 <= a < top_addr m + 1 + n).
Proof. intros H%top_addr_max. lia. Qed.
Lemma bump_mapped m n : mapped (put m (top_addr m + 1) (replicate (Z.to_nat n) 0)) (top_addr m + 1) n.
Proof. apply (mapped_sub _ (top_addr m + 1) (len (replicate (Z.to_nat n) 0))); [apply bytes_at_mapped, bytes_at_put|lia|rewrite length_replicate; lia]. Qed.
Definition bump : Valloc.
Proof.
  refine {| valloc m n := (put m (top_addr m + 1) (replicate (Z.to_nat n) 0), Some (top_addr m + 1)) |}.
  - intros m n p a [= <-]. apply bump_fresh.
  - intros m n a Ha. apply lookup_put_out. rewrite length_replicate. pose proof (bump_fresh m a (Z.max 0 n) Ha). lia.
  - intros m n p [= <-]. apply bump_mapped.
Defined.

Section Dup.
Context `{Valloc}.

(** [for (size_t i = 0; i <= len; i++) copy[i] = str[i];] *)
Definition dup_body (copy str len : Z) : mem * Z -> outcome (mem * Z + mem) := fun '(m, i) =>
  if i <=? len then b ← rd m (str + i); m ← wr m (copy + i) b; Ok (inl (m, i + 1)) else Ok (inr m).
Definition strdup (m : mem) (str : option Z) : outcome (mem * option Z) :=
  match str with
  | None => Ok (m, None)
  | Some str =>
      len ← loop (mfuel m) (strlen_body m str) 0;
      let '(m, copy) := valloc m (len + 1) in
      match copy with
      | None => Ok (m, None)
      | Some copy => m' ← loop (mfuel m) (dup_body copy str len) (m, 0); Ok (m', Some copy)
      end
  end.
Definition strndup (m : mem) (str : option Z) (n : Z) : outcome (mem * option Z) :=
  match str with
  | None => Ok (m, None)
  | Some str =>
      len ← strnlen m str n;
      let '(m, copy) := valloc m (len + 1) in
      match copy with
      | None => Ok (m, None)
      | Some copy => m ← memcpy m copy str len; m ← wr m (copy + len) 0; Ok (m, Some copy)
      end
  end.
End Dup.

(** ** Strings in memory *)

(** A terminated string without inner terminators. *)
Definition cstr (m : mem) (p : Z) (s : list Z) : Prop :=
  Forall (fun b => 0 < b < 256) s /\ bytes_at m p (s ++ [0]).

Lemma cstr_nil m p : cstr m p [] -> rd m p = Ok 0.
Proof. intros [_ H]. cbn in H. apply bytes_at_cons in H as [H _]. unfold rd. by rewrite H. Qed.
Lemma cstr_cons m p b s :
  cstr m p (b :: s) -> rd m p = Ok b /\ 0 < b < 256 /\ (b =? 0) = false /\ cstr m (p + 1) s.
Proof.
  intros [Hf H]. inversion Hf as [|? ? Hb Hs]; subst. cbn in H. apply bytes_at_cons in H as [H0 H].
  split_and!; [unfold rd; by rewrite H0|lia|lia|apply Z.eqb_neq; lia|by split].
Qed.
Lemma cstr_size m p s : cstr m p s -> (length s < mfuel m)%nat.
Proof. intros [_ H]. apply bytes_at_size in H. rewrite length_app in H. cbn in H. unfold mfuel. lia. Qed.
Lemma cstr_mapped m p s : cstr m p s -> mapped m p (len s + 1).
Proof. intros [_ H]. apply bytes_at_mapped in H. rewrite length_app in H. by rewrite Nat2Z.inj_add in H. Qed.
Lemma cstr_bytes m p s : cstr m p s -> bytes_at m p s.
Proof. intros [_ H]. by apply bytes_at_app in H as [H _]. Qed.
Lemma cstr_app m p s1 s2 : cstr m p (s1 ++ s2) -> cstr m (p + len s1) s2.
Proof.
  intros [Hf H]. apply list.Forall_app in Hf as [_ Hf]. split; [done|].
  rewrite <- app_assoc in H. by apply bytes_at_app in H as [_ H].
Qed.
Lemma cstr_put_ne m p s q l :
  q + len l <= p \/ p + len s + 1 <= q -> cstr m p s -> cstr (put m q l) p s.
Proof.
  intros Hd [Hf H]. split; [done|]. apply bytes_at_put_ne; [|done]. rewrite length_app. cbn [length]. lia.
Qed.
Lemma cstr_insert_ne m p s q b :
  q < p \/ p + len s < q -> cstr m p s -> cstr (<[q := b]> m) p s.
Proof. intros Hd. apply (cstr_put_ne m p s q [b]). cbn [length]. lia. Qed.
Lemma cstr_put m p s : Forall (fun b => 0 < b < 256) s -> cstr (put m p (s ++ [0])) p s.
Proof. intros Hf. split; [done|apply bytes_at_put]. Qed.

(** One round of a string loop: read the head of the string. *)
Ltac cstr_step H :=
  let Hr := fresh "Hrd" in
  first [ pose proof (cstr_nil _ _ H) as Hr; rewrite Hr
        | let Hb := fresh "Hb" in let Hz := fresh "Hz" in let Ht := fresh "Ht" in
          pose proof (cstr_cons _ _ _ _ H) as (Hr & Hb & Hz & Ht); rewrite Hr ];
  rewrite bind_Ok.

Lemma strlen_loop m str s : forall i fuel,
  cstr m (str + i) s -> (length s < fuel)%nat -> loop fuel (strlen_body m str) i = Ok (i + len s).
Proof.
  induction s as [|b s IH]; intros i [|fuel] H Hf; try (cbn in Hf; lia); cbn [length] in *.
  - apply loop_done. unfold strlen_body. cstr_step H. do 2 f_equal. lia.
  - erewrite loop_step by (unfold strlen_body; cstr_step H; rewrite Hz; done).
    apply cstr_cons in H as (_ & _ & _ & H). rewrite IH; [f_equal; lia| |lia]. by rewrite Z.add_assoc.
Qed.
Lemma strlen_spec m p s : cstr m p s -> strlen m p = Ok (len s).
Proof. intros H. apply (strlen_loop m p s 0); [by rewrite Z.add_0_r|by eapply cstr_size]. Qed.

Lemma strnlen_loop m p maxlen s : forall i fuel,
  cstr m (p + i) s -> i <= maxlen -> (length s < fuel)%nat ->
  loop fuel (strnlen_body m p maxlen) i = Ok (Z.min (i + len s) maxlen).
Proof.
  induction s as [|b s IH]; intros i [|fuel] H Hi Hf; try (cbn in Hf; lia); cbn [length] in *.
  - apply loop_done. unfold strnlen_body. destruct (Z.ltb_spec i maxlen); [cstr_step H|]; do 2 f_equal; lia.
  - destruct (Z.ltb_spec i maxlen) as [Hlt|Hge].
    + erewrite loop_step by (unfold strnlen_body; rewrite (proj2 (Z.ltb_lt _ _) Hlt); cstr_step H; rewrite Hz; done).
      apply cstr_cons in H as (_ & _ & _ & H). rewrite IH; [f_equal; lia| |lia|lia]. by rewrite Z.add_assoc.
    + apply loop_done. unfold strnlen_body. rewrite (proj2 (Z.ltb_ge _ _) Hge). do 2 f_equal. lia.
Qed.
Lemma strnlen_spec m p s n : cstr m p s -> 0 <= n -> strnlen m p n = Ok (Z.min (len s) n).
Proof. intros H Hn. apply (strnlen_loop m p n s 0); [by rewrite Z.add_0_r|done|by eapply cstr_size]. Qed.

Lemma skip_loop m s : forall p fuel,
  cstr m p s -> (length s < fuel)%nat -> loop fuel (skip_body m) p = Ok (p + len s).
Proof.
  induction s as [|b s IH]; intros p [|fuel] H Hf; try (cbn in Hf; lia); cbn [length] in *.
  - apply loop_done. unfold skip_body. cstr_step H. do 2 f_equal. lia.
  - erewrite loop_step by (unfold skip_body; cstr_step H; rewrite Hz; done).
    apply cstr_cons in H as (_ & _ & _ & H). rewrite IH; [f_equal; lia|done|lia].
Qed.

(** Copying upward: the destination starts at or below the source or behind it. *)
Lemma strcpy_loop s : forall m d src fuel,
  cstr m src s -> mapped m d (len s + 1) -> d <= src \/ src + len s + 1 <= d -> (length s < fuel)%nat ->
  loop fuel strcpy_body (m, d, src) = Ok (put m d (s ++ [0])).
Proof.
  induction s as [|b s IH]; intros m d src [|fuel] H Hm Hov Hf; try (cbn in Hf; lia); cbn [length] in *.
  - apply loop_done. unfold strcpy_body. cstr_step H. by rewrite wr_Ok by (apply Hm; lia).
  - erewrite loop_step by (unfold strcpy_body; cstr_step H; rewrite wr_Ok by (apply Hm; lia); rewrite bind_Ok, Hz; done).
    apply cstr_cons in H as (_ & _ & _ & H). rewrite IH; [done|apply cstr_insert_ne; [lia|done]| |lia|lia].
    apply mapped_insert, (mapped_sub m d (Z.of_nat (S (length s)) + 1)); [done|lia|lia].
Qed.
Lemma stpcpy_loop s : forall m d src fuel,
  cstr m src s -> mapped m d (len s + 1) -> d <= src \/ src + len s + 1 <= d -> (length s < fuel)%nat ->
  loop fuel stpcpy_body (m, d, src) = Ok (put m d (s ++ [0]), d + len s).
Proof.
  induction s as [|b s IH]; intros m d src [|fuel] H Hm Hov Hf; try (cbn in Hf; lia); cbn [length] in *.
  - apply loop_done. unfold stpcpy_body. cstr_step H. rewrite wr_Ok by (apply Hm; lia). rewrite bind_Ok. cbn. do 3 f_equal. lia.
  - erewrite loop_step by (unfold stpcpy_body; cstr_step H; rewrite wr_Ok by (apply Hm; lia); rewrite bind_Ok, Hz; done).
    apply cstr_cons in H as (_ & _ & _ & H). rewrite IH; [cbn [put app]; do 2 f_equal; lia|apply cstr_insert_ne; [lia|done]| |lia|lia].
    apply mapped_insert, (mapped_sub m d (Z.of_nat (S (length s)) + 1)); [done|lia|lia].
Qed.

Lemma strncpy_loop dest src n s : forall m i fuel,
  cstr m (src + i) s -> 0 <= i <= n -> mapped m (dest + i) (Z.min (len s) (n - i)) ->
  dest <= src \/ src + i + len s + 1 <= dest + i -> (length s < fuel)%nat ->
  loop fuel (strncpy_copy dest src n) (m, i) =
    Ok (put m (dest + i) (take (Z.to_nat (n - i)) s), i + Z.min (len s) (n - i)).
Proof.
  induction s as [|b s IH]; intros m i [|fuel] H Hi Hm Hov Hf; try (cbn in Hf; lia); cbn [length] in *.
  - apply loop_done. unfold strncpy_copy. rewrite take_nil. cbn [put].
    destruct (Z.ltb_spec i n); [cstr_step H; cbn [Z.eqb]|]; do 3 f_equal; lia.
  - destruct (Z.ltb_spec i n) as [Hlt|Hge].
    + erewrite loop_step by (unfold strncpy_copy; rewrite (proj2 (Z.ltb_lt _ _) Hlt); cstr_step H; rewrite Hz;
        rewrite wr_Ok by (apply Hm; lia); rewrite bind_Ok; done).
      apply cstr_cons in H as (_ & _ & _ & H). rewrite IH.
      * replace (Z.to_nat (n - i)) with (S (Z.to_nat (n - (i + 1)))) by lia. cbn [take put].
        replace (dest + i + 1) with (dest + (i + 1)) by lia. do 2 f_equal. lia.
      * apply cstr_insert_ne; [lia|]. by rewrite Z.add_assoc.
      * lia.
      * apply mapped_insert, (mapped_sub m (dest + i) (Z.min (Z.of_nat (S (length s))) (n - i))); [done|lia|lia].
      * lia.
      * lia.
    + apply loop_done. unfold strncpy_copy. rewrite (proj2 (Z.ltb_ge _ _) Hge).
      replace (Z.to_nat (n - i)) with O by lia. cbn. do 3 f_equal. lia.
Qed.

Lemma pad_loop dest n k : forall m i fuel,
  Z.of_nat k = Z.max 0 (n - i) -> mapped m (dest + i) (n - i) -> (k < fuel)%nat ->
  loop fuel (pad_body dest n) (m, i) = Ok (put m (dest + i) (replicate k 0)).
Proof.
  induction k as [|k IH]; intros m i [|fuel] Hk Hm Hf; try lia.
  - apply loop_done. unfold pad_body. by rewrite (proj2 (Z.ltb_ge i n)) by lia.
  - erewrite loop_step by (unfold pad_body; rewrite (proj2 (Z.ltb_lt i n)) by lia; rewrite wr_Ok by (apply Hm; lia); done).
    rewrite IH; [cbn [replicate put]; do 2 f_equal; lia|lia| |lia].
    apply mapped_insert, (mapped_sub m (dest + i) (n - i)); [done|lia|lia].
Qed.

(** ** Copying functions *)

Lemma strncat_loop s : forall m d src n fuel,
  cstr m src s -> 0 <= n -> mapped m d (Z.min (len s) n) -> d <= src \/ src + len s + 1 <= d -> (length s < fuel)%nat ->
  loop fuel strncat_body (m, d, src, n) = Ok (put m d (take (Z.to_nat n) s), d + Z.min (len s) n).
Proof.
  induction s as [|b s IH]; intros m d src n [|fuel] H Hn Hm Hov Hf; try (cbn in Hf; lia); cbn [length] in *.
  - apply loop_done. unfold strncat_body. rewrite take_nil. cbn [put].
    destruct (Z.eqb_spec n 0); [|cstr_step H; cbn [Z.eqb]]; do 3 f_equal; lia.
  - destruct (Z.eqb_spec n 0) as [->|Hn0].
    + apply loop_done. unfold strncat_body. cbn. do 3 f_equal. lia.
    + erewrite loop_step by (unfold strncat_body; rewrite (proj2 (Z.eqb_neq _ _) Hn0); cstr_step H; rewrite Hz;
        rewrite wr_Ok by (apply Hm; lia); rewrite bind_Ok; done).
      apply cstr_cons in H as (_ & _ & _ & H). rewrite IH; [|apply cstr_insert_ne; [lia|done]|lia| |lia|lia].
      * replace (Z.to_nat n) with (S (Z.to_nat (n - 1))) by lia. cbn [take put]. do 2 f_equal. lia.
      * apply mapped_insert, (mapped_sub m d (Z.min (Z.of_nat (S (length s))) n)); [done|lia|lia].
Qed.

Lemma strcpy_spec m d src s :
  cstr m src s -> mapped m d (len s + 1) -> d <= src \/ src + len s + 1 <= d ->
  strcpy m d src = Ok (put m d (s ++ [0]), d).
Proof. intros. unfold strcpy. erewrite strcpy_loop by (done || by eapply cstr_size). done. Qed.

Lemma stpcpy_spec m d src s :
  cstr m src s -> mapped m d (len s + 1) -> d <= src \/ src + len s + 1 <= d ->
  stpcpy m d src = Ok (put m d (s ++ [0]), d + len s).
Proof. intros. unfold stpcpy. erewrite stpcpy_loop by (done || by eapply cstr_size). done. Qed.

Lemma strcat_spec m d src s0 s :
  cstr m d s0 -> cstr m src s -> mapped m d (len s0 + len s + 1) ->
  src + len s + 1 <= d \/ d + len s0 + len s + 1 <= src ->
  strcat m d src = Ok (put m (d + len s0) (s ++ [0]), d).
Proof.
  intros H0 H Hm Hov. unfold strcat. erewrite skip_loop by (done || by eapply cstr_size). rewrite bind_Ok.
  erewrite strcpy_loop; [done|done| |lia|by eapply cstr_size].
  apply (mapped_sub m d (len s0 + len s + 1)); [done|lia|lia].
Qed.

Lemma strncat_spec m d src s0 s n :
  cstr m d s0 -> cstr m src s -> 0 <= n -> mapped m d (len s0 + Z.min (len s) n + 1) ->
  src + len s + 1 <= d \/ d + len s0 + Z.min (len s) n + 1 <= src ->
  strncat m d src n = Ok (put m (d + len s0) (take (Z.to_nat n) s ++ [0]), d).
Proof.
  intros H0 H Hn Hm Hov. unfold strncat. erewrite skip_loop by (done || by eapply cstr_size). rewrite bind_Ok.
  assert (mapped m (d + len s0) (Z.min (len s) n + 1)) as Hm' by (apply (mapped_sub m d (len s0 + Z.min (len s) n + 1)); [done|lia|lia]).
  erewrite strncat_loop; [|done|done|apply (mapped_sub _ _ _ _ _ Hm'); lia|lia|by eapply cstr_size].
  rewrite bind_Ok. cbn [fst snd]. rewrite wr_Ok by (apply (mapped_put m (d + len s0) _ _ _ Hm'); lia).
  rewrite bind_Ok, put_snoc. do 3 f_equal. rewrite length_take. lia.
Qed.

(** [strncpy] and [stpncpy] fill exactly [n] bytes. *)
Lemma strncpy_stpncpy_spec m d src s n :
  cstr m src s -> 0 <= n -> mapped m d n -> d <= src \/ src + len s + 1 <= d ->
  let m' := put m d (take (Z.to_nat n) (s ++ replicate (Z.to_nat n) 0)) in
  strncpy m d src n = Ok (m', d) /\ stpncpy m d src n = Ok (m', d + Z.min (len s) n).
Proof.
  intros H Hn Hm Hov m'. unfold strncpy, stpncpy.
  erewrite strncpy_loop; [|by rewrite Z.add_0_r|lia|rewrite Z.add_0_r; apply (mapped_sub m d n); [done|lia|lia]|lia|by eapply cstr_size].
  rewrite !bind_Ok. cbn [fst snd]. rewrite Z.add_0_r, Z.sub_0_r, Z.add_0_l.
  set (m1 := put m d (take (Z.to_nat n) s)).
  assert (mapped m1 (d + Z.min (len s) n) (n - Z.min (len s) n)) as Hm1.
  { apply mapped_put, (mapped_sub m d n); [done|lia|lia]. }
  erewrite (pad_loop d n (Z.to_nat (n - Z.min (len s) n))); [|lia|done|].
  2: { unfold mfuel. pose proof (mapped_size m d n Hn Hm). lia. }
  rewrite !bind_Ok. assert (put m1 (d + Z.min (len s) n) (replicate (Z.to_nat (n - Z.min (len s) n)) 0) = m') as ->; [|done].
  unfold m1, m'. rewrite take_app, take_replicate, put_app, length_take. f_equal; [lia|f_equal; lia].
Qed.

Lemma strlcpy_spec m d src s size :
  cstr m src s -> 0 < size -> mapped m d (Z.min (len s + 1) size) ->
  d + Z.min (len s + 1) size <= src \/ src + len s + 1 <= d ->
  strlcpy m d src size = Ok (put m d (take (Z.to_nat (size - 1)) s ++ [0]), len s).
Proof.
  intros H Hsz Hm Hov. unfold strlcpy. rewrite (strlen_spec _ _ _ H), bind_Ok.
  destruct (Z.eqb_spec size 0); [lia|]. cbn [negb].
  set (l := take (Z.to_nat (size - 1)) s). assert (length l = Z.to_nat (Z.min (len s) (size - 1))) as Ll by (unfold l; rewrite length_take; lia).
  replace (if len s <? size - 1 then len s else size - 1) with (len l) by (rewrite Ll; destruct (Z.ltb_spec (len s) (size - 1)); lia).
  rewrite memcpy_spec.
  - rewrite bind_Ok, wr_Ok by (apply (mapped_put m d l d (Z.min (len s + 1) size) Hm); lia).
    by rewrite bind_Ok, put_snoc.
  - apply cstr_bytes in H. rewrite <- (take_drop (Z.to_nat (size - 1)) s) in H. by apply bytes_at_app in H as [H _].
  - apply (mapped_sub m d (Z.min (len s + 1) size)); [done|lia|lia].
  - lia.
Qed.

Lemma strlcat_spec m d src s0 s size :
  cstr m d s0 -> cstr m src s -> len s0 < size -> size + len s < 2 ^ 64 ->
  mapped m d (Z.min (len s0 + len s + 1) size) ->
  d + Z.min (len s0 + len s + 1) size <= src \/ src + len s + 1 <= d ->
  strlcat m d src size =
    Ok (put m (d + len s0) (take (Z.to_nat (size - len s0 - 1)) s ++ [0]), len s0 + len s).
Proof.
  intros H0 H Hsz Hw Hm Hov. unfold strlcat. rewrite (strnlen_spec _ _ _ _ H0), bind_Ok, (strlen_spec _ _ _ H), bind_Ok by lia.
  rewrite Z.min_l by lia. destruct (Z.eqb_spec (len s0) size); [lia|].
  set (l := take (Z.to_nat (size - len s0 - 1)) s).
  assert (length l = Z.to_nat (Z.min (len s) (size - len s0 - 1))) as Ll by (unfold l; rewrite length_take; lia).
  replace (if len s <? size - len s0 - 1 then len s else size - len s0 - 1) with (len l)
    by (rewrite Ll; destruct (Z.ltb_spec (len s) (size - len s0 - 1)); lia).
  rewrite memcpy_spec.
  - rewrite bind_Ok, wr_Ok by (apply (mapped_put m _ l d (Z.min (len s0 + len s + 1) size) Hm); lia).
    by rewrite bind_Ok, put_snoc, wrap_small by (unfold in_u; lia).
  - apply cstr_bytes in H. rewrite <- (take_drop (Z.to_nat (size - len s0 - 1)) s) in H. by apply bytes_at_app in H as [H _].
  - apply (mapped_sub m d (Z.min (len s0 + len s + 1) size)); [done|lia|lia].
  - lia.
Qed.

(** ** Comparison *)

Lemma tolower_pos b : 0 < b < 256 -> 0 < tolower b < 256.
Proof.
  intros Hb. assert (forallb (fun b => (0 <? tolower b) && (tolower b <? 256)) (seqZ 1 255) = true) as H by (vm_compute; reflexivity).
  assert (In b (seqZ 1 255)) as Hin by (apply list_elem_of_In, elem_of_seqZ; lia).
  apply (proj1 (forallb_forall _ _) H) in Hin. lia.
Qed.

Lemma strcmp_loop m s1 : forall s2 p1 p2 fuel,
  cstr m p1 s1 -> cstr m p2 s2 -> (length s1 < fuel)%nat ->
  loop fuel (strcmp_body m) (p1, p2) = Ok (cmp_bytes (s1 ++ [0]) (s2 ++ [0])).
Proof.
  induction s1 as [|a s1 IH]; intros s2 p1 p2 [|fuel] H1 H2 Hf; try (cbn in Hf; lia); cbn [length app cmp_bytes] in *.
  - apply loop_done. unfold strcmp_body. cstr_step H1. destruct s2 as [|b s2]; cstr_step H2; [done|].
    change (0 =? 0) with true. cbn [negb andb app]. by rewrite (Z.eqb_sym 0 b), Hz.
  - pose proof (cstr_cons _ _ _ _ H1) as (Hr1 & Ha & Hz1 & Ht1). destruct s2 as [|b s2]; cbn [app].
    + apply loop_done. unfold strcmp_body. rewrite Hr1, bind_Ok. cstr_step H2. rewrite Hz1. done.
    + pose proof (cstr_cons _ _ _ _ H2) as (Hr2 & Hb & Hz2 & Ht2). destruct (Z.eqb_spec a b) as [->|Hne].
      * erewrite loop_step by (unfold strcmp_body; rewrite Hr1, bind_Ok, Hr2, bind_Ok, Hz2, Z.eqb_refl; done).
        apply IH; [done|done|lia].
      * apply loop_done. unfold strcmp_body. rewrite Hr1, bind_Ok, Hr2, bind_Ok, Hz1, Hz2. cbn [negb andb].
        by rewrite (proj2 (Z.eqb_neq a b) Hne).
Qed.

Lemma strncmp_loop m p1 p2 n s1 : forall s2 i fuel,
  cstr m (p1 + i) s1 -> cstr m (p2 + i) s2 -> 0 <= i -> (length s1 < fuel)%nat ->
  loop fuel (strncmp_body m p1 p2 n) i =
    Ok (cmp_bytes (take (Z.to_nat (n - i)) (s1 ++ [0])) (take (Z.to_nat (n - i)) (s2 ++ [0]))).
Proof.
  induction s1 as [|a s1 IH]; intros s2 i [|fuel] H1 H2 Hi Hf; try (cbn in Hf; lia); cbn [length app] in *;
    (destruct (Z.ltb_spec i n) as [Hlt|Hge];
     [replace (Z.to_nat (n - i)) with (S (Z.to_nat (n - (i + 1)))) by lia
     |apply loop_done; unfold strncmp_body; rewrite (proj2 (Z.ltb_ge _ _) Hge); by replace (Z.to_nat (n - i)) with O by lia]).
  - apply loop_done. unfold strncmp_body. rewrite (proj2 (Z.ltb_lt _ _) Hlt). cstr_step H1.
    destruct s2 as [|b s2]; cstr_step H2; cbn [app take cmp_bytes]; [by rewrite take_nil|].
    rewrite (Z.eqb_sym 0 b), Hz. done.
  - pose proof (cstr_cons _ _ _ _ H1) as (Hr1 & Ha & Hz1 & Ht1). destruct s2 as [|b s2]; cbn [app take cmp_bytes].
    + apply loop_done. unfold strncmp_body. rewrite (proj2 (Z.ltb_lt _ _) Hlt), Hr1, bind_Ok. cstr_step H2. by rewrite Hz1.
    + pose proof (cstr_cons _ _ _ _ H2) as (Hr2 & Hb & Hz2 & Ht2). destruct (Z.eqb_spec a b) as [->|Hne].
      * erewrite loop_step by (unfold strncmp_body; rewrite (proj2 (Z.ltb_lt _ _) Hlt), Hr1, bind_Ok, Hr2, bind_Ok, Z.eqb_refl, Hz2; done).
        apply IH; [by rewrite Z.add_assoc|by rewrite Z.add_assoc|lia|lia].
      * apply loop_done. unfold strncmp_body. rewrite (proj2 (Z.ltb_lt _ _) Hlt), Hr1, bind_Ok, Hr2, bind_Ok.
        by rewrite (proj2 (Z.eqb_neq a b) Hne).
Qed.

Lemma tolower_ne0 b : 0 < b < 256 -> (tolower b =? 0) = false.
Proof. intros Hb%tolower_pos. apply Z.eqb_neq. lia. Qed.
Lemma sub_eqb0 a b : (a - b =? 0) = (a =? b).
Proof. destruct (Z.eqb_spec (a - b) 0), (Z.eqb_spec a b); try done; lia. Qed.

Lemma strcasecmp_loop m s1 : forall s2 p1 p2 fuel,
  cstr m p1 s1 -> cstr m p2 s2 -> (length s1 < fuel)%nat ->
  loop fuel (strcasecmp_body m) (p1, p2) =
    Ok (cmp_bytes (map tolower (s1 ++ [0])) (map tolower (s2 ++ [0]))).
Proof.
  induction s1 as [|a s1 IH]; intros s2 p1 p2 [|fuel] H1 H2 Hf; try (cbn in Hf; lia);
    cbn [length app cmp_bytes map] in *.
  - apply loop_done. unfold strcasecmp_body. cstr_step H1. destruct s2 as [|b s2]; cstr_step H2; [done|].
    change (0 =? 0) with true. change (tolower 0) with 0. cbn [negb andb app map].
    by rewrite (Z.eqb_sym 0 _), tolower_ne0.
  - pose proof (cstr_cons _ _ _ _ H1) as (Hr1 & Ha & Hz1 & Ht1). destruct s2 as [|b s2]; cbn [app map].
    + apply loop_done. unfold strcasecmp_body. rewrite Hr1, bind_Ok. cstr_step H2. rewrite Hz1.
      change (0 =? 0) with true. change (tolower 0) with 0. cbn [negb andb]. by rewrite tolower_ne0.
    + pose proof (cstr_cons _ _ _ _ H2) as (Hr2 & Hb & Hz2 & Ht2). destruct (tolower a =? tolower b) eqn:E.
      * erewrite loop_step by (unfold strcasecmp_body; rewrite Hr1, bind_Ok, Hr2, bind_Ok, Hz1, Hz2, sub_eqb0, E; done).
        apply IH; [done|done|lia].
      * apply loop_done. unfold strcasecmp_body. rewrite Hr1, bind_Ok, Hr2, bind_Ok, Hz1, Hz2, sub_eqb0, E. done.
Qed.

Lemma strncasecmp_loop m s1 : forall s2 p1 p2 n fuel,
  cstr m p1 s1 -> cstr m p2 s2 -> in_u 64 n -> (length s1 < fuel)%nat ->
  loop fuel (strncasecmp_body m) (p1, p2, n) =
    Ok (cmp_bytes (take (Z.to_nat n) (map tolower (s1 ++ [0]))) (take (Z.to_nat n) (map tolower (s2 ++ [0])))).
Proof.
  induction s1 as [|a s1 IH]; intros s2 p1 p2 n [|fuel] H1 H2 [Hn0 Hn] Hf; try (cbn in Hf; lia);
    cbn [length app map] in *;
    (destruct (Z.eqb_spec n 0) as [->|Hnz]; [by apply loop_done|]);
    replace (Z.to_nat n) with (S (Z.to_nat (n - 1))) by lia;
    assert (u64 (n - 1) = n - 1) as Hw by (apply wrap_small; unfold in_u; lia);
    assert ((n - 1 =? 2 ^ 64 - 1) = false) as Hnw by (apply Z.eqb_neq; lia);
    apply Z.eqb_neq in Hnz.
  - apply loop_done. unfold strncasecmp_body. rewrite Hw, Hnz. cstr_step H1. change (0 =? 0) with true. cbv iota. rewrite Hnw.
    destruct s2 as [|b s2]; cstr_step H2; cbn [app map take cmp_bytes]; [by rewrite take_nil|].
    change (tolower 0) with 0. by rewrite (Z.eqb_sym 0 _), tolower_ne0.
  - pose proof (cstr_cons _ _ _ _ H1) as (Hr1 & Ha & Hz1 & Ht1). destruct s2 as [|b s2]; cbn [app map take cmp_bytes].
    + apply loop_done. unfold strncasecmp_body. rewrite Hw, Hnz, Hr1, bind_Ok, Hz1. cstr_step H2.
      change (0 =? 0) with true. cbv iota. rewrite Hnw. change (tolower 0) with 0. by rewrite tolower_ne0.
    + pose proof (cstr_cons _ _ _ _ H2) as (Hr2 & Hb & Hz2 & Ht2). destruct (tolower a =? tolower b) eqn:E.
      * erewrite loop_step by (unfold strncasecmp_body; rewrite Hw, Hnz, Hr1, bind_Ok, Hz1, Hr2, bind_Ok, Hz2, sub_eqb0, E; done).
        apply IH; [done|done|unfold in_u; lia|lia].
      * apply loop_done. unfold strncasecmp_body. by rewrite Hw, Hnz, Hr1, bind_Ok, Hz1, Hr2, bind_Ok, Hz2, sub_eqb0, E.
Qed.

(** ** Searching *)

Lemma in_set_spec m a d c : cstr m a d -> 0 < c -> in_set m c a = Ok (bool_decide (c ∈ d)).
Proof.
  intros H Hc. unfold in_set. pose proof (cstr_size _ _ _ H) as Hf. revert a H Hf. generalize (mfuel m).
  induction d as [|b d IH]; intros [|fuel] a H Hf; try (cbn in Hf; lia).
  - apply loop_done. unfold in_set_body. by cstr_step H.
  - pose proof (cstr_cons _ _ _ _ H) as (Hr & Hb & Hz & Ht). destruct (Z.eqb_spec c b) as [->|Hne].
    + rewrite bool_decide_true by set_solver. apply loop_done. unfold in_set_body. by rewrite Hr, bind_Ok, Hz, Z.eqb_refl.
    + erewrite loop_step by (unfold in_set_body; rewrite Hr, bind_Ok, Hz, (proj2 (Z.eqb_neq c b) Hne); done).
      rewrite (IH fuel); [|done|cbn in Hf; lia]. f_equal. apply bool_decide_ext. rewrite elem_of_cons. tauto.
Qed.

(** The length of the longest prefix whose bytes satisfy [f]. *)
Fixpoint span (f : Z -> bool) (l : list Z) : nat :=
  match l with b :: l => if f b then S (span f l) else O | [] => O end.

Lemma span_le f l : (span f l <= length l)%nat.
Proof. induction l as [|b l IH]; cbn; [done|]. destruct (f b); lia. Qed.
Lemma span_take f l b : b ∈ take (span f l) l -> f b = true.
Proof.
  induction l as [|c l IH]; cbn; [by intros ?%elem_of_nil|]. destruct (f c) eqn:E; cbn; [|by intros ?%elem_of_nil].
  intros [->|H]%elem_of_cons; auto.
Qed.
Lemma span_drop f l b k : drop (span f l) l = b :: k -> f b = false.
Proof. induction l as [|c l IH]; cbn; [done|]. destruct (f c) eqn:E; cbn; [done|]. by intros [= -> _]. Qed.

Definition in_str (d : list Z) (b : Z) : bool := bool_decide (b ∈ d).

Lemma strspn_loop m p a d s : forall i fuel,
  cstr m (p + i) s -> cstr m a d -> (length s < fuel)%nat ->
  loop fuel (strspn_body m p a) i = Ok (i + Z.of_nat (span (in_str d) s)).
Proof.
  induction s as [|b s IH]; intros i [|fuel] H Hd Hf; try (cbn in Hf; lia); cbn [length span] in *.
  - apply loop_done. unfold strspn_body. cstr_step H. do 2 f_equal. lia.
  - pose proof (cstr_cons _ _ _ _ H) as (Hr & Hb & Hz & Ht). destruct (in_str d b) eqn:E; unfold in_str in E.
    + erewrite loop_step by (unfold strspn_body; rewrite Hr, bind_Ok, Hz, (in_set_spec m a d b Hd), E by lia; done).
      rewrite IH; [f_equal; lia|by rewrite Z.add_assoc|done|lia].
    + apply loop_done. unfold strspn_body. rewrite Hr, bind_Ok, Hz, (in_set_spec m a d b Hd), E by lia.
      rewrite bind_Ok. do 2 f_equal. lia.
Qed.
Lemma strcspn_loop m p a d s : forall i fuel,
  cstr m (p + i) s -> cstr m a d -> (length s < fuel)%nat ->
  loop fuel (strcspn_body m p a) i = Ok (i + Z.of_nat (span (fun b => negb (in_str d b)) s)).
Proof.
  induction s as [|b s IH]; intros i [|fuel] H Hd Hf; try (cbn in Hf; lia); cbn [length span] in *.
  - apply loop_done. unfold strcspn_body. cstr_step H. do 2 f_equal. lia.
  - pose proof (cstr_cons _ _ _ _ H) as (Hr & Hb & Hz & Ht). destruct (in_str d b) eqn:E; cbn [negb]; unfold in_str in E.
    + apply loop_done. unfold strcspn_body. rewrite Hr, bind_Ok, Hz, (in_set_spec m a d b Hd), E by lia.
      rewrite bind_Ok. do 2 f_equal. lia.
    + erewrite loop_step by (unfold strcspn_body; rewrite Hr, bind_Ok, Hz, (in_set_spec m a d b Hd), E by lia; done).
      rewrite IH; [f_equal; lia|by rewrite Z.add_assoc|done|lia].
Qed.
Lemma strpbrk_loop m a d s : forall p fuel,
  cstr m p s -> cstr m a d -> (length s < fuel)%nat ->
  loop fuel (strpbrk_body m a) p =
    Ok (let k := span (fun b => negb (in_str d b)) s in
        if decide (k < length s)%nat then Some (p + Z.of_nat k) else None).
Proof.
  induction s as [|b s IH]; intros p [|fuel] H Hd Hf; try (cbn in Hf; lia); cbn [length span] in *.
  - apply loop_done. unfold strpbrk_body. by cstr_step H.
  - pose proof (cstr_cons _ _ _ _ H) as (Hr & Hb & Hz & Ht). destruct (in_str d b) eqn:E; cbn [negb]; unfold in_str in E.
    + apply loop_done. unfold strpbrk_body. rewrite Hr, bind_Ok, Hz, (in_set_spec m a d b Hd), E by lia.
      rewrite bind_Ok. cbn zeta. rewrite decide_True by lia. do 3 f_equal. lia.
    + erewrite loop_step by (unfold strpbrk_body; rewrite Hr, bind_Ok, Hz, (in_set_spec m a d b Hd), E by lia; done).
      rewrite IH; [|done|done|lia]. cbn zeta. case_decide; [rewrite decide_True by lia|rewrite decide_False by lia; done].
      do 2 f_equal. lia.
Qed.

Lemma strspn_spec m p a s d : cstr m p s -> cstr m a d -> strspn m p a = Ok (Z.of_nat (span (in_str d) s)).
Proof. intros H Hd. apply (strspn_loop m p a d s 0); [by rewrite Z.add_0_r|done|by eapply cstr_size]. Qed.
Lemma strcspn_spec m p a s d :
  cstr m p s -> cstr m a d -> strcspn m p a = Ok (Z.of_nat (span (fun b => negb (in_str d b)) s)).
Proof. intros H Hd. apply (strcspn_loop m p a d s 0); [by rewrite Z.add_0_r|done|by eapply cstr_size]. Qed.

Lemma sgn8_byte b : in_u 8 b -> sgn 8 b = if b <? 128 then b else b - 256.
Proof. intros Hb. unfold sgn. by rewrite wrap_small. Qed.

(** [strchr] compares the signed [char] with its argument: an argument outside
    the range of [char] matches nothing. *)
Lemma strchr_loop m c s : forall p fuel,
  cstr m p s -> c <> 0 -> (length s < fuel)%nat ->
  loop fuel (strchr_body m c) p =
    Ok (let k := span (fun b => negb (sgn 8 b =? c)) s in
        if decide (k < length s)%nat then Some (p + Z.of_nat k) else None).
Proof.
  intros p fuel H Hc. revert p fuel H. induction s as [|b s IH]; intros p [|fuel] H Hf; try (cbn in Hf; lia); cbn [length span] in *.
  - apply loop_done. unfold strchr_body. cstr_step H. change (sgn 8 0) with 0.
    destruct (Z.eqb_spec 0 c); [lia|done].
  - pose proof (cstr_cons _ _ _ _ H) as (Hr & Hb & Hz & Ht). destruct (sgn 8 b =? c) eqn:E; cbn [negb].
    + apply loop_done. unfold strchr_body. rewrite Hr, bind_Ok, E. cbn zeta. rewrite decide_True by lia. do 3 f_equal. lia.
    + erewrite loop_step by (unfold strchr_body; rewrite Hr, bind_Ok, E, Hz; done).
      rewrite IH; [|done|lia]. cbn zeta. case_decide; [rewrite decide_True by lia|rewrite decide_False by lia; done].
      do 2 f_equal. lia.
Qed.

(** The last index at which [f] holds. *)
Fixpoint last_at (f : Z -> bool) (l : list Z) : option nat :=
  match l with
  | [] => None
  | b :: l => match last_at f l with Some k => Some (S k) | None => if f b then Some O else None end
  end.
Lemma strrchr_loop m c s : forall p acc fuel,
  cstr m p s -> sgn 8 c <> 0 -> (length s < fuel)%nat ->
  loop fuel (strrchr_body m c) (p, acc) =
    Ok (match last_at (fun b => sgn 8 b =? sgn 8 c) s with Some k => Some (p + Z.of_nat k) | None => acc end).
Proof.
  intros p acc fuel H Hc. revert p acc fuel H.
  induction s as [|b s IH]; intros p acc [|fuel] H Hf; try (cbn in Hf; lia); cbn [length last_at] in *.
  - apply loop_done. unfold strrchr_body. cstr_step H. change (sgn 8 0) with 0. by rewrite (proj2 (Z.eqb_neq 0 (sgn 8 c))) by lia.
  - pose proof (cstr_cons _ _ _ _ H) as (Hr & Hb & Hz & Ht).
    erewrite loop_step by (unfold strrchr_body; rewrite Hr, bind_Ok, Hz; done). rewrite IH; [|done|lia].
    destruct (last_at _ s); [do 2 f_equal; lia|]. destruct (sgn 8 b =? sgn 8 c); [do 2 f_equal; lia|done].
Qed.

Lemma cstr_drop m p s i : cstr m p s -> (i <= length s)%nat -> cstr m (p + Z.of_nat i) (drop i s).
Proof.
  intros H Hi. rewrite <- (take_drop i s) in H. apply cstr_app in H. by rewrite length_take, Nat.min_l in H.
Qed.

(** [strstr] and its variants find the first occurrence; the case-insensitive
    ones in the lower-case strings. *)
Lemma strnstr_internal_spec m h n s k lim ci :
  cstr m h s -> cstr m n k -> k <> [] -> in_u 64 (len s) -> in_u 64 (len k) -> len s <= lim ->
  let f (l : list Z) := if (ci : bool) then map tolower l else l in
  exists o, first_at (occurs_at (f s) (f k)) (Z.max 0 (len s - len k + 1)) o /\
    strnstr_internal m h n lim ci = Ok (Z.add h <$> o).
Proof.
  intros Hs Hk Hk0 Hs64 Hk64 Hlim f. assert (0 < len k) by (destruct k; [done|cbn; lia]).
  assert (forall l, length (f l) = length l) as Lf by (intros l; unfold f; destruct ci; [apply length_map|done]).
  assert (forall l i, f (drop i l) = drop i (f l)) as Hfd by (intros l i; unfold f; destruct ci; [symmetry; apply skipn_map|done]).
  assert (forall l i, f (take i l) = take i (f l)) as Hft by (intros l i; unfold f; destruct ci; [symmetry; apply firstn_map|done]).
  unfold strnstr_internal. rewrite (strlen_spec _ _ _ Hk), bind_Ok.
  destruct (Z.eqb_spec (len k) 0); [lia|]. rewrite (strnlen_spec _ _ _ _ Hs), bind_Ok, Z.min_l by lia.
  destruct (Z.ltb_spec (len s) (len k)) as [Hlt|Hge].
  { exists None. split; [|done]. intros j Hj. lia. }
  rewrite Z.max_r by lia.
  destruct (loop_first (R := option Z) (mfuel m) (strnstr_body m h n (len k) (len s) ci)
    (occurs_at (f s) (f k)) (len s - len k + 1) (fun i => Some (h + i)) None) as (o & Ho & E).
  - intros i Hi. unfold strnstr_body. rewrite (proj2 (Z.leb_le _ _)) by lia.
    pose proof (cstr_drop m h s (Z.to_nat i) Hs ltac:(lia)) as Hd. rewrite Z2Nat.id in Hd by lia.
    assert (length (f (take (length k) (drop (Z.to_nat i) s))) = length (f k)) as Lt
      by (rewrite !Lf, length_take, length_drop; lia).
    assert ((if ci then strncasecmp m (h + i) n (len k) else memcmp m (h + i) n (len k)) =
      Ok (cmp_bytes (f (take (length k) (drop (Z.to_nat i) s))) (f k))) as ->.
    { unfold f. destruct ci.
      - unfold strncasecmp. rewrite (strncasecmp_loop m (drop (Z.to_nat i) s) k) by (done || by eapply cstr_size).
        rewrite Nat2Z.id, !firstn_map, !take_app_le, (take_ge k) by (rewrite ?length_drop; lia). done.
      - rewrite <- (memcmp_spec m (h + i) n); [by rewrite length_take, length_drop, Nat.min_l by lia|by rewrite !Lf in Lt| |by apply cstr_bytes].
        apply cstr_bytes in Hd. rewrite <- (take_drop (length k)) in Hd. by apply bytes_at_app in Hd as [Hd _]. }
    rewrite bind_Ok. unfold occurs_at. rewrite Lf, <- Hfd, <- Hft. case_bool_decide as Eq.
    + by rewrite Eq, (proj2 (cmp_bytes_0 (f k) (f k) eq_refl) eq_refl).
    + destruct (Z.eqb_spec (cmp_bytes (f (take (length k) (drop (Z.to_nat i) s))) (f k)) 0) as [E0|]; [|done].
      by apply cmp_bytes_0 in E0.
  - unfold strnstr_body. by rewrite (proj2 (Z.leb_gt _ _)) by lia.
  - pose proof (cstr_size _ _ _ Hs). lia.
  - exists o. split; [done|]. rewrite E. by destruct o.
Qed.

(** ** In-place changes *)

Lemma rev_loop n : forall l m p fuel, (length l <= n)%nat -> bytes_at m p l -> (length l < fuel)%nat ->
  loop fuel rev_body (m, p, p + len l - 1) = Ok (put m p (rev l)).
Proof.
  induction n as [|n IH]; intros l m p [|fuel] Hn Hl Hf; try lia.
  - destruct l; [|cbn in *; lia]. apply loop_done. unfold rev_body. by rewrite (proj2 (Z.ltb_ge _ _)) by (cbn; lia).
  - destruct l as [|a l]; [apply loop_done; unfold rev_body; by rewrite (proj2 (Z.ltb_ge _ _)) by (cbn; lia)|].
    destruct l as [|b l _] using rev_ind.
    { apply loop_done. unfold rev_body. rewrite (proj2 (Z.ltb_ge _ _)) by (cbn; lia). by rewrite put_same. }
    cbn [length] in *. rewrite length_app in *. cbn [length] in *. apply bytes_at_cons in Hl as [Ha Hl].
    apply bytes_at_app in Hl as [Hl Hb]. apply bytes_at_cons in Hb as [Hb _].
    set (q := p + Z.of_nat (S (length l + 1)) - 1). assert (q = p + 1 + len l) as Hq by (unfold q; lia).
    assert (rd m p = Ok a) as Ra by (unfold rd; by rewrite Ha).
    assert (rd m q = Ok b) as Rb by (unfold rd; by rewrite Hq, Hb).
    erewrite loop_step.
    2: { unfold rev_body. rewrite (proj2 (Z.ltb_lt p q)) by lia. rewrite Ra, bind_Ok, Rb, bind_Ok, wr_Ok, bind_Ok by done.
      rewrite wr_Ok, bind_Ok by (rewrite lookup_insert_ne, Hq by lia; done). reflexivity. }
    rewrite Hq.
    rewrite (IH l); [|lia| |lia].
    + f_equal. cbn [rev]. rewrite rev_app_distr. cbn [rev app put].
      rewrite put_snoc, length_rev, insert_put_comm by (rewrite length_rev; lia).
      f_equal.
    + apply (bytes_at_put_ne _ (p + 1 + len l) [a]); [cbn [length]; lia|].
      apply (bytes_at_put_ne _ p [b]); [cbn [length]; lia|done].
Qed.

Lemma strrev_spec m p s : cstr m p s -> strrev m p = Ok (put m p (rev s), p).
Proof.
  intros H. unfold strrev. rewrite (strlen_spec _ _ _ H), bind_Ok.
  by rewrite (rev_loop (length s) s) by (done || by apply cstr_bytes || by eapply cstr_size).
Qed.

Lemma strdup_loop copy str s : forall m i fuel,
  cstr m (str + i) s -> mapped m (copy + i) (len s + 1) ->
  str + i + len s + 1 <= copy + i \/ copy + i + len s + 1 <= str + i -> (length s + 1 < fuel)%nat ->
  loop fuel (dup_body copy str (i + len s)) (m, i) = Ok (put m (copy + i) (s ++ [0])).
Proof.
  induction s as [|b s IH]; intros m i [|[|fuel]] H Hm Hov Hf; try (cbn in Hf; lia); cbn [length app put] in *.
  - erewrite loop_step by (unfold dup_body; rewrite (proj2 (Z.leb_le _ _)) by lia; cstr_step H; rewrite wr_Ok by (apply Hm; lia); done).
    apply loop_done. unfold dup_body. by rewrite (proj2 (Z.leb_gt _ _)) by lia.
  - pose proof (cstr_cons _ _ _ _ H) as (Hr & Hb & Hz & Ht).
    erewrite loop_step by (unfold dup_body; rewrite (proj2 (Z.leb_le _ _)) by lia; rewrite Hr, bind_Ok, wr_Ok by (apply Hm; lia); done).
    replace (i + Z.of_nat (S (length s))) with (i + 1 + len s) by lia. rewrite IH; [f_equal; f_equal; lia| | |lia|lia].
    + apply cstr_insert_ne; [lia|]. by rewrite Z.add_assoc.
    + apply mapped_insert, (mapped_sub m (copy + i) (Z.of_nat (S (length s)) + 1)); [done|lia|lia].
Qed.

Section DupSpec.
Context `{Valloc}.

Lemma valloc_cstr m p s n q :
  cstr m p s -> (valloc m n).2 = Some q -> 0 < n ->
  cstr (valloc m n).1 p s /\ (p + len s + 1 <= q \/ q + n <= p).
Proof.
  intros Hs Hq Hn. pose proof (cstr_mapped _ _ _ Hs) as Hm. split.
  - destruct Hs as [Hf Hb]. split; [done|]. intros i b Hi. rewrite valloc_keep; [by apply Hb|].
    by rewrite (Hb _ _ Hi).
  - destruct (decide (p + len s + 1 <= q \/ q + n <= p)); [done|]. exfalso.
    apply (valloc_fresh m n q (Z.max p q) Hq); [|lia]. apply Hm. lia.
Qed.

(** A duplicate is a fresh terminated copy; the original is untouched. *)
Lemma strdup_spec m p s :
  cstr m p s ->
  exists r, strdup m (Some p) = Ok r /\
    match (valloc m (len s + 1)).2 with
    | None => r.2 = None
    | Some q => r = (put (valloc m (len s + 1)).1 q (s ++ [0]), Some q) /\ cstr r.1 q s /\ cstr r.1 p s
    end.
Proof.
  intros Hs. unfold strdup. fold (strlen m p). rewrite (strlen_spec _ _ _ Hs), bind_Ok.
  destruct (valloc m (len s + 1)) as [m' [q|]] eqn:E; cbn [snd fst]; [|by eexists].
  destruct (valloc_cstr m p s (len s + 1) q Hs) as [Hs' Hd]; [by rewrite E|lia|].
  pose proof (valloc_mapped m (len s + 1) q) as Hm. rewrite E in Hm, Hs'. cbn [fst snd] in *. specialize (Hm eq_refl).
  pose proof (cstr_size _ _ _ Hs') as Hsz. pose proof (mapped_size m' q (len s + 1) ltac:(lia) Hm).
  pose proof (strdup_loop q p s m' 0 (mfuel m')) as Hl. rewrite !Z.add_0_r, Z.add_0_l in Hl.
  rewrite Hl; [|done|done|lia|unfold mfuel; lia]. rewrite bind_Ok.
  eexists. split; [done|]. cbn [fst snd]. split_and!; [done|apply cstr_put, Hs|].
  apply cstr_put_ne; [|done]. rewrite length_app. cbn [length]. lia.
Qed.

Lemma strndup_spec m p s n :
  cstr m p s -> 0 <= n ->
  exists r, strndup m (Some p) n = Ok r /\
    match (valloc m (Z.min (len s) n + 1)).2 with
    | None => r.2 = None
    | Some q => r = (put (valloc m (Z.min (len s) n + 1)).1 q (take (Z.to_nat n) s ++ [0]), Some q)
    end.
Proof.
  intros Hs Hn. unfold strndup. rewrite (strnlen_spec _ _ _ _ Hs), bind_Ok by done.
  destruct (valloc m (Z.min (len s) n + 1)) as [m' [q|]] eqn:E; cbn [snd fst]; [|by eexists].
  destruct (valloc_cstr m p s (Z.min (len s) n + 1) q Hs) as [Hs' Hd]; [by rewrite E|lia|].
  pose proof (valloc_mapped m (Z.min (len s) n + 1) q) as Hm. rewrite E in Hm, Hs'. cbn [fst snd] in *. specialize (Hm eq_refl).
  assert (Z.min (len s) n = len (take (Z.to_nat n) s)) as El by (rewrite length_take; lia).
  rewrite El in *. rewrite memcpy_spec, bind_Ok.
  - rewrite wr_Ok by (apply (mapped_put m' q _ q _ Hm); lia). rewrite bind_Ok, <- put_snoc. by eexists.
  - apply cstr_bytes in Hs'. rewrite <- (take_drop (Z.to_nat n) s) in Hs'. by apply bytes_at_app in Hs' as [Hs' _].
  - apply (mapped_sub m' q (len (take (Z.to_nat n) s) + 1)); [done|lia|lia].
  - rewrite length_take in *. lia.
Qed.
End DupSpec.

(** ** Properties *)

(** the bounded copies.  [strlcpy] stores the longest prefix of the source
    that fits, always terminated, writes nothing outside the [size] bytes and
    returns the length of the source; [strlcat] does the same behind the string
    already there.  Both work for every size and alignment of the blocks. *)
Theorem strlcpy_strlcat_correct m d src s0 s size :
  cstr m d s0 -> cstr m src s -> len s0 < size -> size + len s < 2 ^ 64 ->
  mapped m d size -> d + size <= src \/ src + len s + 1 <= d ->
  (exists m', strlcpy m d src size = Ok (m', len s) /\ cstr m' d (take (Z.to_nat (size - 1)) s) /\
     cstr m' src s /\ forall a, ~ (d <= a < d + size) -> m' !! a = m !! a) /\
  (exists m', strlcat m d src size = Ok (m', len s0 + len s) /\
     cstr m' d (take (Z.to_nat (size - 1)) (s0 ++ s)) /\
     cstr m' src s /\ forall a, ~ (d <= a < d + size) -> m' !! a = m !! a).
Proof.
  intros H0 H Hsz Hw Hm Hov. pose proof (proj1 H0) as F0. pose proof (proj1 H) as F.
  split.
  - eexists. split; [apply (strlcpy_spec m d src s size)|]; [done|lia|apply (mapped_sub m d size); [done|lia|lia]|lia|].
    split_and!; [by apply cstr_put, Forall_take|apply cstr_put_ne; [|done]|].
    + rewrite length_app, length_take. cbn [length]. lia.
    + intros a Ha. apply lookup_put_out. rewrite length_app, length_take. cbn [length]. lia.
  - eexists. split; [apply (strlcat_spec m d src s0 s size)|]; [done|done|lia|lia|apply (mapped_sub m d size); [done|lia|lia]|lia|].
    rewrite take_app, (take_ge s0) by lia.
    replace (Z.to_nat (size - 1) - length s0)%nat with (Z.to_nat (size - len s0 - 1)) by lia.
    split_and!; [|apply cstr_put_ne; [|done]|].
    + split; [apply list.Forall_app; split; [done|by apply Forall_take]|].
      rewrite <- app_assoc. apply bytes_at_app. split; [|apply bytes_at_put].
      apply bytes_at_put_ne; [lia|by apply cstr_bytes].
    + rewrite length_app, length_take. cbn [length]. lia.
    + intros a Ha. apply lookup_put_out. rewrite length_app, length_take. cbn [length]. lia.
Qed.

(** Two strings in one memory: "ab" at 16 in a buffer of eight bytes and
    "Hello" at 32. *)
Definition demo_str : mem :=
  put (put ∅ 16 [97; 98; 0; 7; 7; 7; 7; 7]) 32 [72; 101; 108; 108; 111; 0].
Ltac cstr_check := split; [repeat constructor; lia|mem_check].
Lemma strlcpy_strlcat_correct_witness :
  exists m', strlcat demo_str 16 32 6 = Ok (m', 7) /\ cstr m' 16 [97; 98; 72; 101; 108].
Proof.
  destruct (strlcpy_strlcat_correct demo_str 16 32 [97; 98] [72; 101; 108; 108; 111] 6) as [_ (m' & H1 & H2 & _)];
    [cstr_check|cstr_check|done|done|mem_check|lia|].
  exact (ex_intro _ m' (conj H1 H2)).
Defined.

(** comparison.  [strcmp], [strncmp], [strcasecmp] and [strncasecmp] return
    the difference of the first two (lower-cased) bytes in which the terminated
    strings differ within the limit, and 0 when there are none: in particular 0
    exactly for equal strings.  They stop at the terminators, whatever follows. *)
Theorem compare_correct m p1 p2 s1 s2 n :
  cstr m p1 s1 -> cstr m p2 s2 -> in_u 64 n ->
  let z1 := s1 ++ [0] in let z2 := s2 ++ [0] in let N := Z.to_nat n in
  strcmp m p1 p2 = Ok (cmp_bytes z1 z2) /\ (cmp_bytes z1 z2 = 0 <-> s1 = s2) /\
  strncmp m p1 p2 n = Ok (cmp_bytes (take N z1) (take N z2)) /\
  strcasecmp m p1 p2 = Ok (cmp_bytes (map tolower z1) (map tolower z2)) /\
  strncasecmp m p1 p2 n = Ok (cmp_bytes (take N (map tolower z1)) (take N (map tolower z2))).
Proof.
  intros H1 H2 Hn z1 z2 N. pose proof (cstr_size _ _ _ H1) as Hf. split_and!.
  - by apply strcmp_loop.
  - unfold z1, z2. destruct H1 as [F1 _], H2 as [F2 _]. clear -F1 F2. split; [|intros ->; by apply cmp_bytes_0].
    revert s2 F2. induction F1 as [|a s1 Ha F1 IH]; intros s2 F2; destruct F2 as [|b s2 Hb F2]; cbn [app cmp_bytes].
    + done.
    + destruct (Z.eqb_spec 0 b); lia.
    + destruct (Z.eqb_spec a 0); lia.
    + destruct (Z.eqb_spec a b) as [->|]; [|lia]. intros E. f_equal. by apply IH.
  - unfold strncmp. rewrite (strncmp_loop m p1 p2 n s1 s2 0); rewrite ?Z.add_0_r, ?Z.sub_0_r; done.
  - by apply strcasecmp_loop.
  - by apply strncasecmp_loop.
Qed.
Lemma compare_correct_witness :
  strcmp demo_str 16 32 = Ok (97 - 72) /\ strncasecmp demo_str 32 32 4 = Ok 0.
Proof.
  destruct (compare_correct demo_str 16 32 [97; 98] [72; 101; 108; 108; 111] 4) as (H1 & _); [cstr_check|cstr_check|done|].
  destruct (compare_correct demo_str 32 32 [72; 101; 108; 108; 111] [72; 101; 108; 108; 111] 4) as (_ & _ & _ & _ & H2); [cstr_check|cstr_check|done|].
  rewrite H1, H2. split; vm_compute; reflexivity.
Defined.

(** [strstr].  It returns the first position at which the needle occurs, or
    [NULL] when there is none, never reading beyond the terminators;
    [strcasestr] does so up to case; the empty needle is found at the start. *)
Theorem strstr_correct m h n s k :
  cstr m h s -> cstr m n k -> len s <= SIZE_MAX -> len k <= SIZE_MAX ->
  let found (f : Z -> bool) r :=
    exists o, first_at f (Z.max 0 (len s - len k + 1)) o /\ r = Ok (Z.add h <$> o) in
  (k = [] -> strstr m h n = Ok (Some h)) /\
  (k <> [] -> found (occurs_at s k) (strstr m h n) /\
     found (occurs_at (map tolower s) (map tolower k)) (strcasestr m h n)).
Proof.
  intros Hs Hk Hs64 Hk64 found. unfold SIZE_MAX in *. split.
  - intros ->. unfold strstr, strnstr_internal. by rewrite (strlen_spec _ _ _ Hk), bind_Ok.
  - intros Hk0. assert (in_u 64 (len s)) by (unfold in_u; lia). assert (in_u 64 (len k)) by (unfold in_u; lia). split.
    + by apply (strnstr_internal_spec m h n s k (2 ^ 64 - 1) false).
    + by apply (strnstr_internal_spec m h n s k (2 ^ 64 - 1) true).
Qed.
(** "Hello" at 32 and "ll" at 48. *)
Definition demo_str2 : mem := put demo_str 48 [108; 108; 0].
Lemma strstr_correct_witness : strstr demo_str2 32 48 = Ok (Some 34).
Proof.
  destruct (strstr_correct demo_str2 32 48 [72; 101; 108; 108; 111] [108; 108]) as [_ H]; [cstr_check|cstr_check|done|done|].
  destruct (H ltac:(discriminate)) as [(o & Ho & E) _]. rewrite E. destruct o as [i|]; cbn in Ho.
  - destruct Ho as (Hi & Ht & Hf). assert (i = 0 \/ i = 1 \/ i = 2 \/ i = 3) as [-> |[-> |[-> | ->]]] by lia; vm_compute in Ht; try discriminate Ht.
    reflexivity.
  - specialize (Ho 2 ltac:(lia)). vm_compute in Ho. discriminate Ho.
Defined.

(** [strchr] and bytes above 127.  [strchr] compares the signed [char] with
    the [int] it is given without converting it, so that a byte of 128 or more,
    passed as the C standard asks, is never found, while [strrchr], which
    converts, finds it. *)
Theorem strchr_misses_high_bytes m p s c :
  cstr m p s -> 128 <= c < 256 -> c ∈ s ->
  strchr m p c = Ok None /\ exists q, strrchr m p c = Ok (Some q).
Proof.
  intros H Hc Hin. pose proof (cstr_size _ _ _ H) as Hf. split.
  - unfold strchr. rewrite (strchr_loop m c s) by (done || lia). cbn zeta. rewrite decide_False; [done|].
    assert (span (fun b => negb (sgn 8 b =? c)) s = length s) as ->; [|lia].
    destruct H as [F _]. clear -F Hc. induction F as [|b s Hb F IH]; cbn [span length]; [done|].
    rewrite (sgn8_byte b) by (unfold in_u; lia). rewrite (proj2 (Z.eqb_neq _ _)); [cbn [negb]; by rewrite IH|].
    destruct (Z.ltb_spec b 128); lia.
  - unfold strrchr. rewrite (strrchr_loop m c s) by (try done; rewrite sgn8_byte by (unfold in_u; lia); destruct (Z.ltb_spec c 128); lia).
    assert (exists k, last_at (fun b => sgn 8 b =? sgn 8 c) s = Some k) as [k ->]; [|by eexists].
    clear -Hin. induction s as [|b s IH]; [by apply elem_of_nil in Hin|]. cbn [last_at].
    destruct (last_at _ s) as [k|] eqn:E; [by eexists|]. apply elem_of_cons in Hin as [->|Hin].
    + rewrite Z.eqb_refl. by eexists.
    + destruct (IH Hin) as [k Hk]. congruence.
Qed.
Lemma strchr_misses_high_bytes_witness : strchr (put ∅ 8 [65; 233; 0]) 8 233 = Ok None.
Proof.
  apply (strchr_misses_high_bytes (put ∅ 8 [65; 233; 0]) 8 [65; 233] 233); [cstr_check|lia|].
  apply elem_of_cons. right. by apply list_elem_of_singleton.
Defined.

(** The next token of [s]: its offset, the token, and what follows. *)
Definition skip_delims (d s : list Z) : nat := span (in_str d) s.
Definition token (d s : list Z) : list Z :=
  let s := drop (skip_delims d s) s in take (span (fun b => negb (in_str d b)) s) s.
Definition after_token (d s : list Z) : list Z :=
  let s := drop (skip_delims d s) s in drop (span (fun b => negb (in_str d b)) s) s.

(** [strtok_r].  On a string with a token left it returns the address of the
    first maximal run of non-delimiters, which it terminates in place, changing
    no other byte, and leaves the saved pointer at the rest of the string (or
    [NULL] when the token ends the string); without a token it returns [NULL]. *)
Theorem strtok_r_correct m p s delim d saved :
  cstr m p s -> cstr m delim d -> delim + len d < p \/ p + len s < delim ->
  let start := p + Z.of_nat (skip_delims d s) in let tok := token d s in
  (tok = [] -> exists save, strtok_r m (Some p) delim saved = Ok (m, save, None)) /\
  (tok <> [] -> exists m' save,
     strtok_r m (Some p) delim saved = Ok (m', save, Some start) /\
     cstr m' start tok /\ cstr m' delim d /\ Forall (fun b => b ∉ d) tok /\
     (forall a, a <> start + len tok -> m' !! a = m !! a) /\
     match after_token d s with
     | [] => save = None
     | c :: rest => c ∈ d /\ save = Some (start + len tok + 1) /\ cstr m' (start + len tok + 1) rest
     end).
Proof.
  intros Hs Hd Hov start tok.
  assert (drop (skip_delims d s) s = tok ++ after_token d s) as Esplit by (symmetry; apply take_drop).
  pose proof (span_le (in_str d) s) as Hle. fold (skip_delims d s) in Hle.
  pose proof (cstr_drop m p s (skip_delims d s) Hs Hle) as Hs1. fold start in Hs1.
  assert (strtok_r m (Some p) delim saved = match s with [] => Ok (m, Some p, None) | _ =>
    b ← rd m start; if b =? 0 then Ok (m, None, None) else
    k ← strcspn m start delim; b ← rd m (start + k);
    if negb (b =? 0) then m ← wr m (start + k) 0; Ok (m, Some (start + k + 1), Some start)
    else Ok (m, None, Some start) end) as ->.
  { unfold strtok_r. destruct s as [|b s]; [by rewrite (cstr_nil _ _ Hs)|].
    pose proof (cstr_cons _ _ _ _ Hs) as (Hr & _ & Hz & _). rewrite Hr, bind_Ok, Hz, (strspn_spec m p delim _ d Hs Hd), bind_Ok. done. }
  rewrite Esplit in Hs1. split; intros Ht.
  - destruct s as [|b s]; [by eexists|]. destruct (drop (skip_delims d (b :: s)) (b :: s)) as [|c k] eqn:E.
    + rewrite <- Esplit in Hs1. rewrite (cstr_nil _ _ Hs1). by eexists.
    + exfalso. unfold tok, token in Ht. rewrite E in Ht. cbn zeta in Ht. pose proof (span_drop _ _ _ _ E) as Hc.
      cbn [span] in Ht. rewrite Hc in Ht. cbn in Ht. done.
  - destruct s as [|b s]; [done|]. destruct tok as [|t tok'] eqn:Etok; [done|].
    pose proof (cstr_cons _ _ _ _ Hs1) as (Hr & _ & Hz & _). rewrite Hr, bind_Ok, Hz.
    rewrite (strcspn_spec m start delim _ d Hs1 Hd), bind_Ok, <- Esplit.
    assert (len (t :: tok') = Z.of_nat (span (fun b0 => negb (in_str d b0)) (drop (skip_delims d (b :: s)) (b :: s)))) as Hlen.
    { rewrite <- Etok. unfold tok, token. cbn zeta. rewrite length_take. f_equal.
      pose proof (span_le (fun b0 => negb (in_str d b0)) (drop (skip_delims d (b :: s)) (b :: s))). lia. }
    rewrite <- Hlen. pose proof (cstr_app m start (t :: tok') _ Hs1) as Hrest.
    assert (Forall (fun b => b ∉ d) (t :: tok')) as Hnd.
    { apply Forall_forall. intros x Hx. rewrite <- Etok in Hx. unfold tok, token in Hx. apply list_elem_of_In, span_take in Hx.
      unfold in_str in Hx. apply negb_true_iff, bool_decide_eq_false in Hx. done. }
    pose proof (proj1 Hs1) as F. apply list.Forall_app in F as [F1 F2].
    destruct (after_token d (b :: s)) as [|c rest] eqn:Ea.
    + rewrite (cstr_nil _ _ Hrest), bind_Ok. change (0 =? 0) with true. cbn [negb].
      exists m, None. rewrite app_nil_r in Hs1. split_and!; try done.
    + pose proof (cstr_cons _ _ _ _ Hrest) as (Hrc & Hbc & Hzc & Hrest'). rewrite Hrc, bind_Ok, Hzc. cbn [negb].
      assert (is_Some (m !! (start + len (t :: tok')))) as Hmap by (apply (cstr_mapped _ _ _ Hrest); cbn [length]; lia).
      rewrite wr_Ok, bind_Ok by done. exists (<[start + len (t :: tok') := 0]> m), (Some (start + len (t :: tok') + 1)).
      assert (length (b :: s) = skip_delims d (b :: s) + length (t :: tok') + S (length rest))%nat as Ltot.
      { rewrite <- (take_drop (skip_delims d (b :: s)) (b :: s)) at 1. rewrite length_app, Esplit, length_app, length_take.
        cbn [length] in Hle |- *. lia. }
      split_and!; try done.
      * split; [done|]. apply bytes_at_app. split.
        -- apply cstr_bytes, bytes_at_app in Hs1 as [Hs1 _]. apply (bytes_at_put_ne m _ [0]); [lia|done].
        -- apply bytes_at_cons. split; [apply lookup_insert_eq|apply bytes_at_nil].
      * apply cstr_insert_ne; [|done]. unfold start. lia.
      * intros a Ha. by apply lookup_insert_ne.
      * apply (span_drop (fun b0 => negb (in_str d b0))) in Ea. apply negb_false_iff in Ea. by apply bool_decide_eq_true in Ea.
      * apply cstr_insert_ne; [lia|done].
Qed.

(** "a,bc" at 8, "," at 0. *)
Definition demo_tok : mem := put (put ∅ 0 [44; 0]) 8 [44; 97; 44; 98; 99; 0].
Lemma strtok_r_correct_witness :
  exists m', strtok_r demo_tok (Some 8) 0 None = Ok (m', Some 11, Some 9) /\ cstr m' 9 [97] /\ cstr m' 11 [98; 99].
Proof.
  destruct (strtok_r_correct demo_tok 8 [44; 97; 44; 98; 99] 0 [44] None) as [_ H]; [cstr_check|cstr_check|cbn; lia|].
  destruct (H ltac:(vm_compute; discriminate)) as (m' & save & E & Ht & _ & _ & _ & Hr).
  vm_compute in Hr. destruct Hr as (_ & Hs & Hc). subst save. exists m'. split_and!; [exact E|exact Ht|exact Hc].
Defined.
