(* ===== verification/CNum.v ===== *)
(** * Number conversions of the string library

    [atoi], [atohex], [itoa], [utoa], [strtol] and [strtoull] of
    [kernel/string.c]; [strtoll] and [strtoul] are calls of the last two.  The kernel is compiled with [-fwrapv],
    so signed arithmetic wraps. *)

From S2P Require Import Prelude CMem CString.

(** ** Definitions *)

(** [while (isspace(( unsigned char) *str)) str++;] *)
Definition space_body (m : mem) (p : Z) : outcome (Z + Z) :=
  b ← rd m p; Ok (if isspace b then inl (p + 1) else inr p).
Definition skip_space (m : mem) (p : Z) : outcome Z := loop (mfuel m) (space_body m) p.

(** [while (isdigit(...)) result = result * 10 + ( *str++ - '0');] at the type
    whose conversion is [cast]. *)
Definition dec_body (m : mem) (cast : Z -> Z) : Z * Z -> outcome (Z * Z + Z) := fun '(p, result) =>
  b ← rd m p; Ok (if isdigit b then inl (p + 1, cast (result * 10 + (b - 48))) else inr result).

Definition atoi (m : mem) (str : Z) : outcome Z :=
  p ← skip_space m str;
  b ← rd m p;
  let '(sign, p) := if b =? 45 then (-1, p + 1) else if b =? 43 then (1, p + 1) else (1, p) in
  result ← loop (mfuel m) (dec_body m i64) (p, 0);
  Ok (i64 (sign * result)).


Definition hex_body (m : mem) : Z * Z -> outcome (Z * Z + Z) := fun '(p, result) =>
  c ← rd m p;
  Ok (if (48 <=? c) && (c <=? 57) then inl (p + 1, u64 (result * 16 + (c - 48)))
      else if (97 <=? c) && (c <=? 102) then inl (p + 1, u64 (result * 16 + (c - 97 + 10)))
      else if (65 <=? c) && (c <=? 70) then inl (p + 1, u64 (result * 16 + (c - 65 + 10)))
      else inr result).

(** [s[0] == '0' && (s[1] == 'x' || s[1] == 'X')]. *)
Definition hex_prefix (m : mem) (p : Z) : outcome bool :=
  b ← rd m p;
  if b =? 48 then c ← rd m (p + 1); Ok ((c =? 120) || (c =? 88)) else Ok false.

Definition atohex (m : mem) (str : Z) : outcome Z :=
  p ← skip_space m str;
  h ← hex_prefix m p;
  loop (mfuel m) (hex_body m) ((if (h : bool) then p + 2 else p), 0).

(** "0123456789abcdefghijklmnopqrstuvwxyz" *)
Definition digits : list Z := seqZ 48 10 ++ seqZ 97 26.

(** The do-while loop that stores the digits, lowest first: the memory and the
    address behind the last one. *)
Definition digit_body (base : Z) : mem * Z * Z -> outcome (mem * Z * Z + mem * Z) := fun '(m, p, uval) =>
  c ← aget digits (uval `mod` base);
  m ← wr m p c;
  let uval := uval `div` base in
  Ok (if uval =? 0 then inr (m, p + 1) else inl (m, p + 1, uval)).

Definition itoa (m : mem) (value buf base : Z) : outcome (mem * Z) :=
  if (base <? 2) || (36 <? base) then m ← wr m buf 0; Ok (m, buf) else
  let negative := (base =? 10) && (value <? 0) in
  let uval := if negative then u64 (- u64 value) else u64 value in
  r ← loop (mfuel m) (digit_body base) (m, buf, uval);
  let '(m1, p) := r in
  r ← (if negative then m1 ← wr m1 p 45; Ok (m1, p + 1) else Ok (m1, p));
  let '(m1, p) := r in
  m1 ← wr m1 p 0;
  m1 ← loop (mfuel m) rev_body (m1, buf, p - 1);
  Ok (m1, buf).

Definition utoa (m : mem) (value buf base : Z) : outcome (mem * Z) :=
  if (base <? 2) || (36 <? base) then m ← wr m buf 0; Ok (m, buf) else
  r ← loop (mfuel m) (digit_body base) (m, buf, value);
  let '(m1, p) := r in
  m1 ← wr m1 p 0;
  m1 ← loop (mfuel m) rev_body (m1, buf, p - 1);
  Ok (m1, buf).

(** [while ( *s && isspace(...)) s++;] *)
Definition nspace_body (m : mem) (p : Z) : outcome (Z + Z) :=
  b ← rd m p; Ok (if negb (b =? 0) && isspace b then inl (p + 1) else inr p).

(** The optional sign: whether it is a minus, and the address behind it. *)
Definition read_sign (m : mem) (p : Z) : outcome (bool * Z) :=
  b ← rd m p; Ok (if (b =? 43) || (b =? 45) then (b =? 45, p + 1) else (false, p)).

Definition digit_val (c : Z) : option Z :=
  if (48 <=? c) && (c <=? 57) then Some (c - 48)
  else if (97 <=? c) && (c <=? 122) then Some (10 + (c - 97))
  else if (65 <=? c) && (c <=? 90) then Some (10 + (c - 65))
  else None.

(** The inner loop after an overflow: skip the remaining digits. *)
Definition skip_digits_body (m : mem) (base s : Z) : outcome (Z + Z) :=
  let s := s + 1 in
  c ← rd m s;
  Ok (match digit_val c with
      | Some digit => if base <=? digit then inr s else inl s
      | None => inr s
      end).

(** The main loop of [strtol]: the end of the digits and the value. *)
Definition strtol_body (m : mem) (base limit : Z) : Z * Z -> outcome (Z * Z + Z * Z) := fun '(s, acc) =>
  c ← rd m s;
  match digit_val c with
  | None => Ok (inr (s, acc))
  | Some digit =>
      if base <=? digit then Ok (inr (s, acc))
      else if u64 (limit - digit) `div` base <? acc then
        s ← loop (mfuel m) (skip_digits_body m base) s; Ok (inr (s, acc))
      else Ok (inl (s + 1, u64 (acc * base + digit)))
  end.

Definition LONG_MAX : Z := 2 ^ 63 - 1.

(** The value and what is stored through [endptr]. *)
Definition strtol (m : mem) (nptr base : Z) : outcome (Z * Z) :=
  s ← loop (mfuel m) (nspace_body m) nptr;
  r ← read_sign m s;
  let '(neg, s) := (r : bool * Z) in
  if negb (base =? 0) && ((base <? 2) || (36 <? base)) then Ok (0, nptr) else
  r ← (if base =? 0 then
         b ← rd m s;
         if b =? 48 then
           h ← hex_prefix m s; Ok (if (h : bool) then (16, s + 2) else (8, s + 1))
         else Ok (10, s)
       else if base =? 16 then
         h ← hex_prefix m s; Ok (base, if (h : bool) then s + 2 else s)
       else Ok (base, s));
  let '(base, s) := (r : Z * Z) in
  let start_digits := s in
  let limit := if neg then u64 (LONG_MAX + 1) else LONG_MAX in
  r ← loop (mfuel m) (strtol_body m base limit) (s, 0);
  let '(s, acc) := (r : Z * Z) in
  if s =? start_digits then Ok (0, s)
  else if neg then (if acc =? u64 (LONG_MAX + 1) then Ok (- 2 ^ 63, s) else Ok (i64 (- i64 acc), s))
  else Ok (i64 acc, s).

Definition ULLONG_MAX : Z := 2 ^ 64 - 1.

(** The main loop of [strtoull]: the end of the digits, the value and the
    overflow flag. *)
Definition strtoull_body (m : mem) (base : Z) : Z * Z * bool -> outcome (Z * Z * bool + Z * Z * bool) :=
  fun '(s, acc, overflow) =>
  c ← rd m s;
  Ok (match digit_val c with
      | None => inr (s, acc, overflow)
      | Some digit =>
          if base <=? digit then inr (s, acc, overflow)
          else if overflow || (u64 (ULLONG_MAX - digit) `div` base <? acc) then inl (s + 1, acc, true)
          else inl (s + 1, u64 (acc * base + digit), overflow)
      end).

Definition strtoull (m : mem) (nptr base : Z) : outcome (Z * Z) :=
  s ← loop (mfuel m) (nspace_body m) nptr;
  r ← read_sign m s;
  let '(neg, s) := (r : bool * Z) in
  if negb (base =? 0) && ((base <? 2) || (36 <? base)) then Ok (0, nptr) else
  r ← (if base =? 0 then
         h ← hex_prefix m s;
         if (h : bool) then Ok (16, s + 2) else
         b ← rd m s; Ok (if b =? 48 then (8, s) else (10, s))
       else if base =? 16 then
         h ← hex_prefix m s; Ok (base, if (h : bool) then s + 2 else s)
       else Ok (base, s));
  let '(base, s) := (r : Z * Z) in
  let start_digits := s in
  r ← loop (mfuel m) (strtoull_body m base) (s, 0, false);
  let '(s, acc, overflow) := (r : Z * Z * bool) in
  let endptr := if s =? start_digits then nptr else s in
  if s =? start_digits then Ok (0, endptr)
  else if overflow then Ok (ULLONG_MAX, endptr)
  else Ok (if neg then u64 (0 - acc) else acc, endptr).


(** ** Reading digits *)

(** [b] is a digit of the base. *)
Definition dig (base b : Z) : bool := match digit_val b with Some d => d <? base | None => false end.
Definition dv (b : Z) : Z := default 0 (digit_val b).
(** The value of a digit string, appended to the digits of [acc]. *)
Definition num (base acc : Z) (ds : list Z) : Z := foldl (fun a b => a * base + dv b) acc ds.
(** The string [k] does not start with a digit of the base. *)
Definition no_dig (base : Z) (k : list Z) : Prop := match k with [] => True | c :: _ => dig base c = false end.

Lemma dig_inv base b : dig base b = true -> exists d, digit_val b = Some d /\ dv b = d /\ 0 <= d < base /\ (base <=? d) = false.
Proof.
  unfold dig, dv. destruct (digit_val b) as [d|] eqn:E; [|done]. intros Hd%Z.ltb_lt. exists d.
  assert (0 <= d) by (unfold digit_val in E; repeat case_match; lia || naive_solver lia).
  split_and!; [done|done|lia|lia|by apply Z.leb_gt].
Qed.

Lemma num_ge base acc ds : 1 <= base -> 0 <= acc -> Forall (fun b => dig base b = true) ds -> acc <= num base acc ds.
Proof.
  intros Hb. revert acc. induction ds as [|b ds IH]; intros acc Ha F; [done|]. inversion F as [|? ? Hd F']; subst.
  apply dig_inv in Hd as (d & _ & Hd & Hr & _). unfold num. cbn [foldl]. etransitivity; [|apply IH; [nia|done]]. nia.
Qed.
Lemma num_app base acc d1 d2 : num base acc (d1 ++ d2) = num base (num base acc d1) d2.
Proof. apply foldl_app. Qed.

(** The value of the longest prefix of the digits that stays within the limit. *)
Fixpoint fit (base limit acc : Z) (ds : list Z) : Z :=
  match ds with
  | [] => acc
  | b :: ds => if acc * base + dv b <=? limit then fit base limit (acc * base + dv b) ds else acc
  end.

Lemma fit_num base limit acc ds :
  1 <= base -> 0 <= acc -> Forall (fun b => dig base b = true) ds -> num base acc ds <= limit -> fit base limit acc ds = num base acc ds.
Proof.
  intros Hb. revert acc. induction ds as [|b ds IH]; intros acc Ha F Hn; [done|]. inversion F as [|? ? Hd F']; subst.
  apply dig_inv in Hd as (d & _ & Hd & Hr & _). cbn [fit]. unfold num in Hn |- *. cbn [foldl] in *.
  pose proof (num_ge base (acc * base + dv b) ds Hb ltac:(nia) F') as Hge. unfold num in Hge.
  rewrite (proj2 (Z.leb_le _ _)) by lia. apply IH; [nia|done|done].
Qed.
Lemma fit_range base limit acc ds : 0 <= acc <= limit -> 1 <= base -> Forall (fun b => dig base b = true) ds ->
  0 <= fit base limit acc ds <= limit.
Proof.
  intros Ha Hb F. revert acc Ha. induction F as [|b ds Hd F IH]; intros acc Ha; cbn [fit]; [done|].
  apply dig_inv in Hd as (d & _ & Hd & Hr & _). destruct (Z.leb_spec (acc * base + dv b) limit); [|done]. apply IH. nia.
Qed.

(** The overflow test of the code. *)
Lemma overflow_test base limit d acc :
  2 <= base -> 0 <= d < base -> base <= limit < 2 ^ 64 ->
  (u64 (limit - d) `div` base <? acc) = negb (acc * base + d <=? limit).
Proof.
  intros Hb Hd Hl. rewrite wrap_small by (unfold in_u; lia).
  pose proof (Z.div_mod (limit - d) base ltac:(lia)). pose proof (Z.mod_pos_bound (limit - d) base ltac:(lia)).
  destruct (Z.ltb_spec ((limit - d) `div` base) acc), (Z.leb_spec (acc * base + d) limit); cbn; try done; nia.
Qed.

Lemma rd_stop m p base k : cstr m p k -> no_dig base k ->
  exists c, rd m p = Ok c /\ (match digit_val c with Some d => base <=? d | None => true end) = true.
Proof.
  intros H Hs. destruct k as [|c k]; [exists 0; split; [by apply cstr_nil|done]|].
  pose proof (cstr_cons _ _ _ _ H) as (Hr & _). exists c. split; [done|]. cbn in Hs. unfold dig in Hs.
  destruct (digit_val c); [|done]. apply Z.leb_le. apply Z.ltb_ge in Hs. lia.
Qed.

Lemma skip_digits_loop m base ds k : forall b p fuel,
  cstr m p (b :: ds ++ k) -> Forall (fun b => dig base b = true) ds -> no_dig base k -> (length ds < fuel)%nat ->
  loop fuel (skip_digits_body m base) p = Ok (p + 1 + len ds).
Proof.
  induction ds as [|d ds IH]; intros b p [|fuel] H F Hk Hf; try (cbn in Hf; lia); cbn [app length] in *;
    pose proof (cstr_cons _ _ _ _ H) as (_ & _ & _ & H').
  - apply loop_done. unfold skip_digits_body. destruct (rd_stop m (p + 1) base k H' Hk) as (c & -> & Hc).
    rewrite bind_Ok. rewrite Z.add_0_r. destruct (digit_val c); [by rewrite Hc|done].
  - inversion F as [|? ? Hd F']; subst. apply dig_inv in Hd as (x & Hx & _ & _ & Hlt).
    pose proof (cstr_cons _ _ _ _ H') as (Hr & _).
    erewrite loop_step by (unfold skip_digits_body; rewrite Hr, bind_Ok, Hx, Hlt; done).
    rewrite (IH d); [f_equal; lia|done|done|done|lia].
Qed.

Lemma strtol_loop m base limit ds k : 2 <= base <= 36 -> 36 <= limit < 2 ^ 64 -> forall p acc fuel,
  cstr m p (ds ++ k) -> Forall (fun b => dig base b = true) ds -> no_dig base k -> 0 <= acc <= limit ->
  (length ds < fuel)%nat ->
  loop fuel (strtol_body m base limit) (p, acc) = Ok (p + len ds, fit base limit acc ds).
Proof.
  intros Hb Hl. induction ds as [|d ds IH]; intros p acc [|fuel] H F Hk Ha Hf; try (cbn in Hf; lia); cbn [app length fit] in *.
  - apply loop_done. unfold strtol_body. destruct (rd_stop m p base k H Hk) as (c & -> & Hc). rewrite bind_Ok, Z.add_0_r.
    destruct (digit_val c); [by rewrite Hc|done].
  - inversion F as [|? ? Hd F']; subst. apply dig_inv in Hd as (x & Hx & Hdv & Hxr & Hlt).
    pose proof (cstr_cons _ _ _ _ H) as (Hr & _ & _ & H'). rewrite Hdv.
    assert (strtol_body m base limit (p, acc) =
      if negb (acc * base + x <=? limit) then s ← loop (mfuel m) (skip_digits_body m base) p; Ok (inr (s, acc))
      else Ok (inl (p + 1, u64 (acc * base + x)))) as E.
    { unfold strtol_body. by rewrite Hr, bind_Ok, Hx, Hlt, overflow_test by lia. }
    cbn [loop]. rewrite E. clear E.
    destruct (Z.leb_spec (acc * base + x) limit) as [Hle|Hgt]; cbn [negb].
    + rewrite bind_Ok, wrap_small by (unfold in_u; nia). rewrite IH; [do 2 f_equal; lia|done|done|done|nia|lia].
    + rewrite (skip_digits_loop m base ds k d) by (try done; apply cstr_size in H; rewrite length_cons, length_app in H; lia).
      rewrite !bind_Ok. do 2 f_equal. lia.
Qed.

Lemma strtoull_loop_over m base ds k : 2 <= base <= 36 -> forall p acc fuel,
  cstr m p (ds ++ k) -> Forall (fun b => dig base b = true) ds -> no_dig base k -> (length ds < fuel)%nat ->
  loop fuel (strtoull_body m base) (p, acc, true) = Ok (p + len ds, acc, true).
Proof.
  intros Hb. induction ds as [|d ds IH]; intros p acc [|fuel] H F Hk Hf; try (cbn in Hf; lia); cbn [app length] in *.
  - apply loop_done. unfold strtoull_body. destruct (rd_stop m p base k H Hk) as (c & -> & Hc). rewrite bind_Ok, Z.add_0_r.
    destruct (digit_val c); [by rewrite Hc|done].
  - inversion F as [|? ? Hd F']; subst. apply dig_inv in Hd as (x & Hx & Hdv & Hxr & Hlt).
    pose proof (cstr_cons _ _ _ _ H) as (Hr & _ & _ & H').
    erewrite loop_step by (unfold strtoull_body; rewrite Hr, bind_Ok, Hx, Hlt; done).
    rewrite IH; [do 3 f_equal; lia|done|done|done|lia].
Qed.

Lemma strtoull_loop m base ds k : 2 <= base <= 36 -> forall p acc fuel,
  cstr m p (ds ++ k) -> Forall (fun b => dig base b = true) ds -> no_dig base k -> 0 <= acc <= ULLONG_MAX ->
  (length ds < fuel)%nat ->
  exists acc', loop fuel (strtoull_body m base) (p, acc, false) =
      Ok (p + len ds, acc', negb (num base acc ds <=? ULLONG_MAX)) /\
    (num base acc ds <= ULLONG_MAX -> acc' = num base acc ds).
Proof.
  intros Hb. unfold ULLONG_MAX. induction ds as [|d ds IH]; intros p acc [|fuel] H F Hk Ha Hf; try (cbn in Hf; lia); cbn [app length] in *.
  - exists acc. split; [|done]. apply loop_done. unfold strtoull_body. destruct (rd_stop m p base k H Hk) as (c & -> & Hc).
    rewrite bind_Ok, Z.add_0_r. unfold num. cbn [foldl]. rewrite (proj2 (Z.leb_le _ _)) by lia.
    destruct (digit_val c); [by rewrite Hc|done].
  - inversion F as [|? ? Hd F']; subst. apply dig_inv in Hd as (x & Hx & Hdv & Hxr & Hlt).
    pose proof (cstr_cons _ _ _ _ H) as (Hr & _ & _ & H'). unfold num in *. cbn [foldl]. rewrite Hdv.
    destruct (Z.leb_spec (acc * base + x) (2 ^ 64 - 1)) as [Hle|Hgt].
    + destruct (IH (p + 1) (acc * base + x) fuel) as (acc' & E & Hacc'); [done|done|done|nia|lia|].
      exists acc'. split; [|done]. erewrite loop_step.
      2: { unfold strtoull_body. rewrite Hr, bind_Ok, Hx, Hlt. unfold ULLONG_MAX. rewrite overflow_test by lia.
           rewrite (proj2 (Z.leb_le _ _) Hle). cbn [negb orb]. rewrite wrap_small by (unfold in_u; nia). reflexivity. }
      rewrite E. do 3 f_equal. lia.
    + exists acc. pose proof (num_ge base (acc * base + x) ds ltac:(lia) ltac:(nia) F') as Hge. unfold num in Hge.
      rewrite (proj2 (Z.leb_gt _ _)) by lia. split; [|lia]. erewrite loop_step.
      2: { unfold strtoull_body. rewrite Hr, bind_Ok, Hx, Hlt. unfold ULLONG_MAX. rewrite overflow_test by lia.
           rewrite (proj2 (Z.leb_gt _ _) Hgt). cbn [negb orb]. reflexivity. }
      rewrite (strtoull_loop_over m base ds k) by (done || lia). do 3 f_equal. lia.
Qed.

(** ** White space, sign and prefix *)

Definition no_space (k : list Z) : Prop := match k with [] => True | c :: _ => isspace c = false end.
(** [sg] is the sign of a number that continues with [k]. *)
Definition sign_ok (neg : bool) (sg k : list Z) : Prop :=
  (sg = [43] /\ neg = false) \/ (sg = [45] /\ neg = true) \/
  (sg = [] /\ neg = false /\ match k with [] => True | c :: _ => c <> 43 /\ c <> 45 end).
Definition starts_hex (s : list Z) : bool :=
  match s with a :: c :: _ => (a =? 48) && ((c =? 120) || (c =? 88)) | _ => false end.
(** The base in which the digits are read, and the length of the prefix: for
    [strtoull] and, with the octal 0 as a prefix, for [strtol]. *)
Definition radix (base0 : Z) (s : list Z) : Z * nat :=
  if starts_hex s && ((base0 =? 0) || (base0 =? 16)) then (16, 2%nat)
  else (if base0 =? 0 then (if head s is Some 48 then 8 else 10) else base0, O).
Definition radix_l (base0 : Z) (s : list Z) : Z * nat :=
  if starts_hex s && ((base0 =? 0) || (base0 =? 16)) then (16, 2%nat)
  else if base0 =? 0 then (if head s is Some 48 then (8, 1%nat) else (10, O)) else (base0, O).

Lemma nspace_loop m ws k : forall p fuel,
  cstr m p (ws ++ k) -> Forall (fun b => isspace b = true) ws -> no_space k -> (length ws < fuel)%nat ->
  loop fuel (nspace_body m) p = Ok (p + len ws) /\ loop fuel (space_body m) p = Ok (p + len ws).
Proof.
  induction ws as [|b ws IH]; intros p [|fuel] H F Hk Hf; try (cbn in Hf; lia); cbn [app length] in *.
  - rewrite Z.add_0_r. destruct k as [|c k].
    + split; apply loop_done; [unfold nspace_body|unfold space_body]; by rewrite (cstr_nil _ _ H).
    + pose proof (cstr_cons _ _ _ _ H) as (Hr & _). cbn in Hk.
      split; apply loop_done; [unfold nspace_body|unfold space_body]; rewrite Hr, bind_Ok, Hk; [by rewrite andb_false_r|done].
  - inversion F as [|? ? Hb F']; subst. pose proof (cstr_cons _ _ _ _ H) as (Hr & _ & Hz & H').
    destruct (IH (p + 1) fuel) as [E1 E2]; [done|done|done|lia|].
    split; (erewrite loop_step; [|try unfold nspace_body; try unfold space_body; rewrite Hr, bind_Ok, ?Hz, Hb; reflexivity]).
    + rewrite E1. f_equal. lia.
    + rewrite E2. f_equal. lia.
Qed.

Lemma read_sign_spec m p neg sg k :
  cstr m p (sg ++ k) -> sign_ok neg sg k -> read_sign m p = Ok (neg, p + len sg) /\ cstr m (p + len sg) k.
Proof.
  intros H Hs. split; [|by apply cstr_app in H]. unfold read_sign.
  destruct Hs as [[-> ->]|[[-> ->]|(-> & -> & Hk)]]; cbn [app length] in *.
  - apply cstr_cons in H as (-> & _). done.
  - apply cstr_cons in H as (-> & _). done.
  - rewrite Z.add_0_r. destruct k as [|c k]; [by rewrite (cstr_nil _ _ H)|].
    apply cstr_cons in H as (-> & _). destruct Hk. rewrite bind_Ok.
    by rewrite (proj2 (Z.eqb_neq c 43)), (proj2 (Z.eqb_neq c 45)) by done.
Qed.

Lemma hex_prefix_spec m p s : cstr m p s -> hex_prefix m p = Ok (starts_hex s).
Proof.
  intros H. unfold hex_prefix. destruct s as [|a s]; [by rewrite (cstr_nil _ _ H)|].
  pose proof (cstr_cons _ _ _ _ H) as (-> & _ & _ & H'). rewrite bind_Ok. destruct (Z.eqb_spec a 48) as [->|Ha].
  - destruct s as [|c s]; [by rewrite (cstr_nil _ _ H')|]. by pose proof (cstr_cons _ _ _ _ H') as (-> & _).
  - cbn. destruct s; [done|]. by rewrite (proj2 (Z.eqb_neq a 48) Ha).
Qed.

(** [fst_is 48]: what the code tests on the first character. *)
Lemma head_48 m p s : cstr m p s -> exists b, rd m p = Ok b /\ (b =? 48) = (if head s is Some 48 then true else false).
Proof.
  intros H. destruct s as [|a s]; [exists 0; by rewrite (cstr_nil _ _ H)|].
  pose proof (cstr_cons _ _ _ _ H) as (-> & Ha & _). exists a. split; [done|]. cbn [head].
  destruct (Z.eqb_spec a 48) as [->|]; [done|]. destruct a as [|q|q]; try done.
  repeat (destruct q as [q|q|]; try done).
Qed.

(** What both functions do up to the digits. *)
Definition base_ok (base0 : Z) : Prop := base0 = 0 \/ 2 <= base0 <= 36.

Lemma base_ok_test base0 : base_ok base0 -> negb (base0 =? 0) && ((base0 <? 2) || (36 <? base0)) = false.
Proof.
  intros [->|H]; [done|]. rewrite (proj2 (Z.ltb_ge base0 2)), (proj2 (Z.ltb_ge 36 base0)) by lia.
  apply andb_false_r.
Qed.

Lemma strtoull_radix m s base0 rest : cstr m s rest -> base_ok base0 ->
  (if base0 =? 0 then
         h ← hex_prefix m s;
         if (h : bool) then Ok (16, s + 2) else
         b ← rd m s; Ok (if b =? 48 then (8, s) else (10, s))
       else if base0 =? 16 then
         h ← hex_prefix m s; Ok (base0, if (h : bool) then s + 2 else s)
       else Ok (base0, s)) = Ok ((radix base0 rest).1, s + Z.of_nat (radix base0 rest).2).
Proof.
  intros H Hb. unfold radix. destruct (Z.eqb_spec base0 0) as [->|H0].
  - rewrite (hex_prefix_spec _ _ _ H), bind_Ok. destruct (starts_hex rest); cbn [andb orb fst snd]; [done|].
    destruct (head_48 m s rest H) as (b & -> & Eb). rewrite bind_Ok, Eb. cbn. rewrite Z.add_0_r. by repeat case_match.
  - destruct (Z.eqb_spec base0 16) as [->|H16].
    + rewrite (hex_prefix_spec _ _ _ H), bind_Ok. destruct (starts_hex rest); cbn; [done|]. by rewrite Z.add_0_r.
    + cbn [orb]. rewrite andb_false_r. cbn. by rewrite Z.add_0_r.
Qed.

Lemma strtol_radix m s base0 rest : cstr m s rest -> base_ok base0 ->
  (if base0 =? 0 then
         b ← rd m s;
         if b =? 48 then
           h ← hex_prefix m s; Ok (if (h : bool) then (16, s + 2) else (8, s + 1))
         else Ok (10, s)
       else if base0 =? 16 then
         h ← hex_prefix m s; Ok (base0, if (h : bool) then s + 2 else s)
       else Ok (base0, s)) = Ok ((radix_l base0 rest).1, s + Z.of_nat (radix_l base0 rest).2).
Proof.
  intros H Hb. unfold radix_l. destruct (Z.eqb_spec base0 0) as [->|H0].
  - destruct (head_48 m s rest H) as (b & -> & Eb). rewrite bind_Ok, Eb, (hex_prefix_spec _ _ _ H).
    destruct (starts_hex rest) eqn:Eh.
    + destruct rest as [|a [|c rest]]; try done. cbn in Eh. apply andb_true_iff in Eh as [->%Z.eqb_eq _]. done.
    + cbn [andb]. repeat case_match; simplify_eq; cbn; rewrite ?Z.add_0_r; done.
  - destruct (Z.eqb_spec base0 16) as [->|H16].
    + rewrite (hex_prefix_spec _ _ _ H), bind_Ok. destruct (starts_hex rest); cbn; [done|]. by rewrite Z.add_0_r.
    + cbn [orb]. rewrite andb_false_r. cbn. by rewrite Z.add_0_r.
Qed.
Lemma radix_range base0 s : base_ok base0 -> 2 <= (radix base0 s).1 <= 36 /\ 2 <= (radix_l base0 s).1 <= 36.
Proof. intros Hb. unfold radix, radix_l, base_ok in *. destruct (Z.eqb_spec base0 0); repeat case_match; cbn; lia. Qed.

(** ** Printing *)

Lemma digits_ok d : 0 <= d < 36 -> exists c, aget digits d = Ok c /\ digit_val c = Some d /\ 0 < c < 256.
Proof.
  intros Hd. set (ok d := match aget digits d with Ok c => bool_decide (digit_val c = Some d /\ 0 < c < 256) | _ => false end).
  assert (forallb ok (seqZ 0 36) = true) as H by (vm_compute; reflexivity).
  assert (In d (seqZ 0 36)) as Hin by (apply list_elem_of_In, elem_of_seqZ; lia).
  apply (proj1 (forallb_forall _ _) H) in Hin. unfold ok in Hin. destruct (aget digits d) as [c| |]; try done.
  apply bool_decide_eq_true in Hin. by exists c.
Qed.

(** The digits stored by the do-while loop, lowest first. *)
Lemma digit_loop base : 2 <= base <= 36 -> forall k m p u fuel,
  0 <= u < base ^ Z.of_nat (S k) -> mapped m p (Z.of_nat (S k)) -> (k < fuel)%nat ->
  exists ds, loop fuel (digit_body base) (m, p, u) = Ok (put m p ds, p + len ds) /\
    (0 < length ds <= S k)%nat /\ num base 0 (rev ds) = u /\
    Forall (fun b => dig base b = true) ds /\ Forall (fun b => 0 < b < 256) ds.
Proof.
  intros Hb. induction k as [|k IH]; intros m p u [|fuel] Hu Hm Hf; try lia;
    (destruct (digits_ok (u mod base)) as (c & Hc & Hd & Hcr); [pose proof (Z.mod_pos_bound u base); lia|]);
    pose proof (Z.mod_pos_bound u base ltac:(lia)) as Hmod; pose proof (Z.div_mod u base ltac:(lia)) as Hdm;
    assert (dig base c = true) as Hdig by (unfold dig; rewrite Hd; apply Z.ltb_lt; lia);
    assert (dv c = u mod base) as Hdv by (unfold dv; by rewrite Hd);
    assert (digit_body base (m, p, u) = Ok (if u / base =? 0 then inr (<[p := c]> m, p + 1) else inl (<[p := c]> m, p + 1, u / base))) as E
      by (unfold digit_body; rewrite Hc, bind_Ok, wr_Ok by (apply Hm; lia); done).
  - rewrite Z.pow_1_r in Hu. rewrite Z.div_small in E, Hdm by lia. exists [c]. split_and!; [by apply loop_done|cbn; lia|cbn; lia| |by constructor|by constructor].
    unfold num. cbn. lia.
  - destruct (Z.eqb_spec (u / base) 0) as [E0|E0].
    + exists [c]. split_and!; [by apply loop_done|cbn; lia|cbn; lia| |by constructor|by constructor]. unfold num. cbn. lia.
    + destruct (IH (<[p := c]> m) (p + 1) (u / base) fuel) as (ds & Hl & Hlen & Hn & F1 & F2).
      * rewrite Nat2Z.inj_succ, Z.pow_succ_r in Hu by lia. split; [apply Z.div_pos; lia|]. apply Z.div_lt_upper_bound; lia.
      * apply mapped_insert, (mapped_sub m p (Z.of_nat (S (S k)))); [done|lia|lia].
      * lia.
      * exists (c :: ds). erewrite loop_step by exact E. rewrite Hl. split_and!; [cbn [put length]; do 2 f_equal; lia|cbn; lia|cbn; lia| |by constructor|by constructor].
        cbn [rev]. rewrite num_app, Hn. unfold num. cbn. lia.
Qed.

(** Terminating the stored characters and reversing them in place. *)
Lemma finish_number m buf l k :
  (length l <= k)%nat -> mapped m buf (Z.of_nat k + 1) ->
  (m1 ← wr (put m buf l) (buf + len l) 0; m1 ← loop (mfuel m) rev_body (m1, buf, buf + len l - 1); Ok (m1, buf)) =
  Ok (put m buf (rev l ++ [0]), buf).
Proof.
  intros Hl Hm. rewrite wr_Ok by (apply (mapped_put m buf l buf (Z.of_nat k + 1) Hm); lia). rewrite bind_Ok.
  rewrite <- put_snoc. rewrite (rev_loop (length l) l).
  - rewrite bind_Ok. do 2 f_equal. rewrite !put_app. rewrite length_rev. cbn [put].
    rewrite <- insert_put_comm by (rewrite length_rev; lia). f_equal. rewrite put_put by (by rewrite length_rev). done.
  - done.
  - rewrite put_app. cbn [put]. apply (bytes_at_put_ne _ (buf + len l) [0]); [lia|apply bytes_at_put].
  - pose proof (mapped_size m buf (Z.of_nat k + 1) ltac:(lia) Hm). unfold mfuel. lia.
Qed.

(** [utoa] writes the digits of the value, [itoa] with a minus for base 10. *)
Lemma utoa_spec m v buf base k :
  2 <= base <= 36 -> 0 <= v < base ^ Z.of_nat (S k) -> mapped m buf (Z.of_nat (S k) + 1) ->
  exists ds, utoa m v buf base = Ok (put m buf (ds ++ [0]), buf) /\ (0 < length ds <= S k)%nat /\ num base 0 ds = v /\
    Forall (fun b => dig base b = true) ds /\ Forall (fun b => 0 < b < 256) ds.
Proof.
  intros Hb Hv Hm. unfold utoa. rewrite (proj2 (Z.ltb_ge base 2)), (proj2 (Z.ltb_ge 36 base)) by lia. cbn [orb].
  destruct (digit_loop base Hb k m buf v (mfuel m)) as (ds & -> & Hl & Hn & F1 & F2); [done|apply (mapped_sub _ _ _ _ _ Hm); lia| |].
  { pose proof (mapped_size m buf (Z.of_nat (S k) + 1) ltac:(lia) Hm). unfold mfuel. lia. }
  rewrite bind_Ok. exists (rev ds). rewrite (finish_number m buf ds (S k)) by (done || lia).
  rewrite length_rev. split_and!; [done|lia|lia|done|by apply Forall_rev|by apply Forall_rev].
Qed.

Lemma itoa_spec m v buf k :
  in_s 64 v -> 2 ^ 64 <= 10 ^ Z.of_nat (S k) -> mapped m buf (Z.of_nat (S k) + 2) ->
  exists ds, itoa m v buf 10 = Ok (put m buf ((if v <? 0 then 45 :: ds else ds) ++ [0]), buf) /\ (0 < length ds <= S k)%nat /\
    num 10 0 ds = Z.abs v /\ Forall (fun b => dig 10 b = true) ds /\ Forall (fun b => 0 < b < 256) ds.
Proof.
  intros Hv Hk Hm. unfold itoa. change ((10 <? 2) || (36 <? 10)) with false. change (10 =? 10) with true. cbn [andb].
  assert ((if v <? 0 then u64 (- u64 v) else u64 v) = Z.abs v) as ->.
  { unfold in_s in Hv. destruct (Z.ltb_spec v 0).
    - rewrite <- (wrap_small 64 (Z.abs v)) by (unfold in_u; lia). replace (- u64 v) with (0 - u64 v) by lia.
      rewrite wrap_sub_r. f_equal. lia.
    - rewrite wrap_small by (unfold in_u; lia). lia. }
  destruct (digit_loop 10 ltac:(lia) k m buf (Z.abs v) (mfuel m)) as (ds & -> & Hl & Hn & F1 & F2);
    [unfold in_s in Hv; lia|apply (mapped_sub _ _ _ _ _ Hm); lia| |].
  { pose proof (mapped_size m buf (Z.of_nat (S k) + 2) ltac:(lia) Hm). unfold mfuel. lia. }
  rewrite bind_Ok. exists (rev ds).
  rewrite length_rev.
  destruct (v <? 0).
  - rewrite wr_Ok by (apply (mapped_put m buf ds buf (Z.of_nat (S k) + 2) Hm); lia). rewrite !bind_Ok, <- put_snoc.
    replace (buf + len ds + 1) with (buf + len (ds ++ [45])) by (rewrite length_app; cbn [length]; lia).
    rewrite (finish_number m buf (ds ++ [45]) (S (S k))) by (rewrite ?length_app; cbn [length]; lia || (apply (mapped_sub _ _ _ _ _ Hm); lia)).
    rewrite rev_app_distr. split_and!; [done|lia|lia|done|by apply Forall_rev|by apply Forall_rev].
  - rewrite bind_Ok, (finish_number m buf ds (S k)) by (lia || (apply (mapped_sub _ _ _ _ _ Hm); lia)).
    split_and!; [done|lia|lia|done|by apply Forall_rev|by apply Forall_rev].
Qed.

(** ** [atoi] and [atoui]: the value modulo 2^64 *)

Lemma isdigit_dig b : 0 < b < 256 -> isdigit b = dig 10 b /\ (isdigit b = true -> dv b = b - 48).
Proof.
  intros Hb. set (ok b := bool_decide (isdigit b = dig 10 b /\ (isdigit b = true -> dv b = b - 48))).
  assert (forallb ok (seqZ 1 255) = true) as H by (vm_compute; reflexivity).
  assert (In b (seqZ 1 255)) as Hin by (apply list_elem_of_In, elem_of_seqZ; lia).
  apply (proj1 (forallb_forall _ _) H) in Hin. by apply bool_decide_eq_true in Hin.
Qed.

Lemma dec_loop m cast ds k : (forall x d, cast (cast x * 10 + d) = cast (x * 10 + d)) -> forall p x fuel,
  cstr m p (ds ++ k) -> Forall (fun b => dig 10 b = true) ds -> no_dig 10 k -> (length ds < fuel)%nat ->
  loop fuel (dec_body m cast) (p, cast x) = Ok (cast (num 10 x ds)).
Proof.
  intros Hc. induction ds as [|d ds IH]; intros p x [|fuel] H F Hk Hf; try (cbn in Hf; lia); cbn [app length] in *.
  - apply loop_done. unfold dec_body. destruct k as [|c k]; [by rewrite (cstr_nil _ _ H)|].
    pose proof (cstr_cons _ _ _ _ H) as (-> & Hb & _). destruct (isdigit_dig c Hb) as [E _]. cbn in Hk. by rewrite bind_Ok, E, Hk.
  - inversion F as [|? ? Hd F']; subst. pose proof (cstr_cons _ _ _ _ H) as (Hr & Hb & _ & H').
    destruct (isdigit_dig d Hb) as [E Ev]. rewrite E, Hd in Ev. specialize (Ev eq_refl).
    erewrite loop_step by (unfold dec_body; rewrite Hr, bind_Ok, E, Hd, Hc; done).
    rewrite IH by (done || lia). unfold num. cbn [foldl]. by rewrite Ev.
Qed.

Lemma sgn_mul_add w x d : 0 < w -> sgn w (sgn w x * 10 + d) = sgn w (x * 10 + d).
Proof.
  intros Hw. rewrite <- (sgn_wrap w (sgn w x * 10 + d)), <- (sgn_wrap w (x * 10 + d)). f_equal.
  rewrite <- wrap_add_l, <- wrap_mul_l, wrap_sgn, wrap_mul_l, wrap_add_l by done. done.
Qed.
Lemma sgn_mul_r w c x : 0 < w -> sgn w (c * sgn w x) = sgn w (c * x).
Proof.
  intros Hw. rewrite <- (sgn_wrap w (c * sgn w x)), <- (sgn_wrap w (c * x)). f_equal.
  rewrite <- wrap_mul_r, wrap_sgn, wrap_mul_r by done. done.
Qed.

Lemma atoi_spec m p ws sg ds k neg :
  cstr m p (ws ++ sg ++ ds ++ k) -> Forall (fun b => isspace b = true) ws -> no_space (sg ++ ds ++ k) ->
  sign_ok neg sg (ds ++ k) -> Forall (fun b => dig 10 b = true) ds -> no_dig 10 k ->
  atoi m p = Ok (i64 ((if neg then -1 else 1) * num 10 0 ds)).
Proof.
  intros H Hws Hns Hsg Hds Hk. pose proof (cstr_size _ _ _ H) as Hsz. rewrite !length_app in Hsz.
  unfold atoi, skip_space. rewrite (proj2 (nspace_loop m ws _ p (mfuel m) H Hws Hns ltac:(lia))), bind_Ok.
  apply cstr_app in H. destruct (read_sign_spec _ _ _ _ _ H Hsg) as [Hr Hc]. unfold read_sign in Hr.
  destruct (rd m (p + len ws)) as [b| |] eqn:Eb; try done. rewrite bind_Ok in Hr. rewrite bind_Ok. injection Hr as Hr.
  assert ((if b =? 45 then (-1, p + len ws + 1) else if b =? 43 then (1, p + len ws + 1) else (1, p + len ws)) =
    (if neg then -1 else 1, p + len ws + len sg)) as ->.
  { destruct (b =? 43) eqn:E1, (b =? 45) eqn:E2; cbn [orb] in Hr; try lia; injection Hr as <- Hr; by rewrite <- Hr. }
  change 0 with (i64 0) at 1. rewrite (dec_loop m i64 ds k); [|intros; by apply sgn_mul_add|done|done|done|lia].
  rewrite bind_Ok, sgn_mul_r by lia. done.
Qed.

(** ** Properties *)

Lemma strtoull_value m p base0 ws sg neg pfx ds k :
  let body := pfx ++ ds ++ k in let base := (radix base0 body).1 in
  cstr m p (ws ++ sg ++ body) -> base_ok base0 -> (radix base0 body).2 = length pfx ->
  Forall (fun b => isspace b = true) ws -> no_space (sg ++ body) -> sign_ok neg sg body ->
  Forall (fun b => dig base b = true) ds -> no_dig base k ->
  let v := num base 0 ds in
  strtoull m p base0 = Ok (
    if bool_decide (ds = []) then (0, p)
    else (if v <=? ULLONG_MAX then (if neg then u64 (0 - v) else v) else ULLONG_MAX,
          p + len ws + len sg + len pfx + len ds)).
Proof.
  intros body base H Hb Hpfx Hws Hns Hsg Hds Hk v. pose proof (cstr_size _ _ _ H) as Hsz. unfold body in Hsz. rewrite !length_app in Hsz.
  unfold strtoull. rewrite (proj1 (nspace_loop m ws _ p (mfuel m) H Hws Hns ltac:(lia))), bind_Ok.
  apply cstr_app in H. destruct (read_sign_spec _ _ _ _ _ H Hsg) as [-> Hc]. rewrite bind_Ok, base_ok_test by done.
  rewrite (strtoull_radix m _ base0 body Hc Hb), bind_Ok, Hpfx. fold base. unfold body in Hc. apply cstr_app in Hc.
  set (q := p + len ws + len sg + len pfx) in *.
  destruct (strtoull_loop m base ds k (proj1 (radix_range base0 body Hb)) q 0 (mfuel m)) as (acc & -> & Hacc);
    [done|done|done|unfold ULLONG_MAX; lia|lia|]. rewrite bind_Ok. fold v in Hacc |- *. f_equal.
  destruct ds as [|d ds].
  - cbn [length]. rewrite bool_decide_true by done. by rewrite Z.add_0_r, Z.eqb_refl.
  - rewrite bool_decide_false by done. rewrite (proj2 (Z.eqb_neq (q + len (d :: ds)) q)) by (cbn [length]; lia).
    destruct (Z.leb_spec v ULLONG_MAX) as [Hle|Hgt]; cbn [negb]; [by rewrite (Hacc Hle)|done].
Qed.

(** [strtoull].  On white space, an optional sign, the prefix the base
    selects and digits it returns the value of the digits (negated modulo 2^64
    after a minus), [ULLONG_MAX] exactly when the value does not fit, and the
    end of the digits; without a digit it returns 0 and the start.  Any bytes
    may follow the digits. *)
Theorem strtoull_correct m p base0 ws sg neg pfx ds k :
  let body := pfx ++ ds ++ k in let base := (radix base0 body).1 in
  cstr m p (ws ++ sg ++ body) -> base_ok base0 -> (radix base0 body).2 = length pfx ->
  Forall (fun b => isspace b = true) ws -> no_space (sg ++ body) -> sign_ok neg sg body ->
  Forall (fun b => dig base b = true) ds -> no_dig base k ->
  let v := num base 0 ds in
  strtoull m p base0 = Ok (
    if bool_decide (ds = []) then (0, p)
    else (if v <=? ULLONG_MAX then (if neg then u64 (0 - v) else v) else ULLONG_MAX,
          p + len ws + len sg + len pfx + len ds)).
Proof. apply strtoull_value. Qed.

(** " -0x1F;" at 8 *)
Definition demo_num : mem := put ∅ 8 [32; 45; 48; 120; 49; 70; 59; 0].
Lemma strtoull_correct_witness : strtoull demo_num 8 0 = Ok (2 ^ 64 - 31, 14).
Proof.
  rewrite (strtoull_correct demo_num 8 0 [32] [45] true [48; 120] [49; 70] [59]);
    [vm_compute; reflexivity|cstr_check|by left|reflexivity|repeat constructor|reflexivity|right; left; done|repeat constructor|reflexivity].
Defined.

Lemma strtol_value m p base0 ws sg neg pfx ds k :
  let body := pfx ++ ds ++ k in let base := (radix_l base0 body).1 in
  cstr m p (ws ++ sg ++ body) -> base_ok base0 -> (radix_l base0 body).2 = length pfx ->
  Forall (fun b => isspace b = true) ws -> no_space (sg ++ body) -> sign_ok neg sg body ->
  Forall (fun b => dig base b = true) ds -> no_dig base k ->
  let limit := if neg then 2 ^ 63 else 2 ^ 63 - 1 in let v := num base 0 ds in
  let e := p + len ws + len sg + len pfx + len ds in
  (v <= limit -> strtol m p base0 = Ok (if neg then - v else v, e)) /\
  (limit < v -> strtol m p base0 = Ok ((if neg then -1 else 1) * fit base limit 0 ds, e)).
Proof.
  intros body base H Hb Hpfx Hws Hns Hsg Hds Hk limit v e. pose proof (cstr_size _ _ _ H) as Hsz. unfold body in Hsz. rewrite !length_app in Hsz.
  pose proof (proj2 (radix_range base0 body Hb)) as Hbr. fold base in Hbr.
  assert (strtol m p base0 = Ok ((if neg then -1 else 1) * fit base limit 0 ds, e)) as Hmain.
  { unfold strtol. rewrite (proj1 (nspace_loop m ws _ p (mfuel m) H Hws Hns ltac:(lia))), bind_Ok.
    apply cstr_app in H. destruct (read_sign_spec _ _ _ _ _ H Hsg) as [-> Hc]. rewrite bind_Ok, base_ok_test by done.
    rewrite (strtol_radix m _ base0 body Hc Hb), bind_Ok, Hpfx. fold base. unfold body in Hc. apply cstr_app in Hc.
    set (q := p + len ws + len sg + len pfx) in *. replace (if neg then u64 (LONG_MAX + 1) else LONG_MAX) with limit by (by destruct neg).
    assert (36 <= limit < 2 ^ 64) as Hlim by (unfold limit; destruct neg; lia).
    rewrite (strtol_loop m base limit ds k) by (done || lia). rewrite bind_Ok. unfold e.
    pose proof (fit_range base limit 0 ds ltac:(lia) ltac:(lia) Hds) as Hfr. set (a := fit base limit 0 ds) in *.
    destruct (Z.eqb_spec (q + len ds) q) as [E0|E0].
    - destruct ds as [|d ds]; [|cbn [length] in E0; lia]. unfold a. cbn [fit]. by rewrite Z.mul_0_r.
    - change (u64 (LONG_MAX + 1)) with (2 ^ 63). unfold limit in Hfr. destruct neg.
      + destruct (Z.eqb_spec a (2 ^ 63)) as [->|]; [done|].
        rewrite (sgn_small 64 a), sgn_small by (unfold in_s; lia). by replace (-1 * a) with (- a) by lia.
      + by rewrite sgn_small, Z.mul_1_l by (unfold in_s; lia). }
  rewrite Hmain. split; intros Hv; [|done]. rewrite fit_num by (done || lia). fold v. destruct neg; [by replace (-1 * v) with (- v) by lia|by rewrite Z.mul_1_l].
Qed.

(** [strtol] returns the exact value when it fits a [long].  When it does not
    it returns neither an error nor [LONG_MAX]/[LONG_MIN] but the value of the
    longest prefix of the digits that fits, while the end pointer is behind all
    digits; without a digit the end pointer is left behind the prefix. *)
Theorem strtol_correct m p base0 ws sg neg pfx ds k :
  let body := pfx ++ ds ++ k in let base := (radix_l base0 body).1 in
  cstr m p (ws ++ sg ++ body) -> base_ok base0 -> (radix_l base0 body).2 = length pfx ->
  Forall (fun b => isspace b = true) ws -> no_space (sg ++ body) -> sign_ok neg sg body ->
  Forall (fun b => dig base b = true) ds -> no_dig base k ->
  let limit := if neg then 2 ^ 63 else 2 ^ 63 - 1 in let v := num base 0 ds in
  let e := p + len ws + len sg + len pfx + len ds in
  (v <= limit -> strtol m p base0 = Ok (if neg then - v else v, e)) /\
  (limit < v -> strtol m p base0 = Ok ((if neg then -1 else 1) * fit base limit 0 ds, e)).
Proof. apply strtol_value. Qed.

(** "9223372036854775808" at 0 *)
Definition demo_over : mem := put ∅ 0 ([57; 50; 50; 51; 51; 55; 50; 48; 51; 54; 56; 53; 52; 55; 55; 53; 56; 48; 56; 0]).
Lemma strtol_correct_witness : strtol demo_over 0 10 = Ok (922337203685477580, 19).
Proof.
  refine (proj2 (strtol_correct demo_over 0 10 [] [] false [] [57; 50; 50; 51; 51; 55; 50; 48; 51; 54; 56; 53; 52; 55; 55; 53; 56; 48; 56] []
    _ _ _ _ _ _ _ _) _);
    [cstr_check|right; lia|reflexivity|constructor|reflexivity|right; right; done|repeat constructor|reflexivity|vm_compute; reflexivity].
Defined.

Lemma no_hex_dig base ds : Forall (fun b => dig 16 b = true) ds -> base = 16 -> starts_hex ds = false.
Proof.
  intros F ->. destruct ds as [|a [|c ds]]; try done. inversion F as [|? ? _ F']; subst. inversion F' as [|? ? Hc _]; subst.
  cbn. destruct (Z.eqb_spec c 120) as [->|]; [done|]. destruct (Z.eqb_spec c 88) as [->|]; [done|]. apply andb_false_r.
Qed.
Lemma dig_head base b : dig base b = true -> isspace b = false /\ b <> 43 /\ b <> 45.
Proof.
  unfold dig, digit_val. intros H. assert (48 <= b) by (repeat case_match; try done; lia).
  split; [|lia]. unfold isspace. repeat (rewrite (proj2 (Z.eqb_neq b _)) by lia). done.
Qed.

(** A string of digits of the base, without a prefix. *)
Lemma plain_number base ds :
  2 <= base <= 36 -> Forall (fun b => dig base b = true) ds -> (0 < length ds)%nat ->
  no_space ds /\ (match ds with [] => True | c :: _ => c <> 43 /\ c <> 45 end) /\
  radix base ds = (base, O) /\ radix_l base ds = (base, O).
Proof.
  intros Hb F Hl. destruct ds as [|c ds]; [cbn in Hl; lia|]. inversion F as [|? ? Hc _]; subst.
  apply dig_head in Hc as (H1 & H2). unfold radix, radix_l. rewrite (proj2 (Z.eqb_neq base 0)) by lia. cbn [orb].
  destruct (Z.eqb_spec base 16) as [->|]; [rewrite (no_hex_dig 16) by done|rewrite andb_false_r]; done.
Qed.

(** C25: printing and reading.  What [utoa] prints in any base from 2 to 36 is
    read back by [strtoull] as the same number, and what [itoa] prints in base
    10 by [strtol], for every 64-bit value including the extreme ones; both
    consume the whole number and the printing stays inside its buffer. *)
Theorem print_read_roundtrip m buf u base v :
  in_u 64 u -> in_s 64 v -> 2 <= base <= 36 -> mapped m buf 66 ->
  (exists s, utoa m u buf base = Ok (put m buf (s ++ [0]), buf) /\ len s <= 65 /\
     strtoull (put m buf (s ++ [0])) buf base = Ok (u, buf + len s)) /\
  (exists s, itoa m v buf 10 = Ok (put m buf (s ++ [0]), buf) /\ len s <= 65 /\
     strtol (put m buf (s ++ [0])) buf 10 = Ok (v, buf + len s)).
Proof.
  intros Hu Hv Hb Hm. split.
  - destruct (utoa_spec m u buf base 63) as (ds & E & Hl & Hn & F1 & F2); [done| |apply (mapped_sub _ _ _ _ _ Hm); lia|].
    { unfold in_u in Hu. assert (2 ^ 64 <= base ^ Z.of_nat 64) by (apply (Z.pow_le_mono_l 2 base 64); lia). lia. }
    exists ds. split_and!; [done|lia|].
    destruct (plain_number base ds Hb F1) as (E1 & E2 & Hr & _); [lia|].
    pose proof (strtoull_value (put m buf (ds ++ [0])) buf base [] [] false [] ds []) as Hs.
    cbn [app] in Hs. rewrite app_nil_r, Hr in Hs. cbn [fst snd] in Hs. rewrite Hn in Hs. rewrite Hs; [| | |reflexivity|constructor|exact E1| |exact F1|exact I].
    + rewrite bool_decide_false by (destruct ds; [cbn in Hl; lia|done]).
      rewrite (proj2 (Z.leb_le _ _)) by (unfold in_u, ULLONG_MAX in *; lia). cbn [length]. do 2 f_equal. lia.
    + by apply cstr_put.
    + right. lia.
    + by right; right.
  - destruct (itoa_spec m v buf 19) as (ds & E & Hl & Hn & F1 & F2); [done|by vm_compute|apply (mapped_sub _ _ _ _ _ Hm); lia|].
    destruct (plain_number 10 ds ltac:(lia) F1) as (E1 & E2 & _ & Hr); [lia|].
    set (sg := if v <? 0 then [45] else []).
    assert ((if v <? 0 then 45 :: ds else ds) = sg ++ ds) as Eds by (unfold sg; by destruct (v <? 0)).
    rewrite Eds in E. exists (sg ++ ds). assert (length sg <= 1)%nat as Hsl by (unfold sg; destruct (v <? 0); cbn; lia).
    split_and!; [done|rewrite length_app; lia|].
    pose proof (strtol_value (put m buf ((sg ++ ds) ++ [0])) buf 10 [] sg (v <? 0) [] ds []) as Hs.
    cbn [app] in Hs. rewrite app_nil_r, Hr in Hs. cbn [fst snd] in Hs. rewrite Hn in Hs.
    assert (sign_ok (v <? 0) sg ds) as Hsg by (unfold sign_ok, sg; destruct (v <? 0); [right; left; done|by right; right]).
    rewrite (proj1 (Hs ltac:(apply cstr_put, list.Forall_app; split; [unfold sg; destruct (v <? 0); repeat constructor|done])
      ltac:(by right) eq_refl ltac:(constructor) ltac:(unfold sg; by destruct (v <? 0)) Hsg F1 I)).
    + rewrite length_app. cbn [length]. do 2 f_equal; [destruct (Z.ltb_spec v 0); lia|lia].
    + unfold in_s in Hv. destruct (Z.ltb_spec v 0); lia.
Qed.

Lemma print_read_roundtrip_witness :
  exists s, itoa (put ∅ 4 (replicate 66 7)) (- 2 ^ 63) 4 10 = Ok (put (put ∅ 4 (replicate 66 7)) 4 (s ++ [0]), 4) /\
    strtol (put (put ∅ 4 (replicate 66 7)) 4 (s ++ [0])) 4 10 = Ok (- 2 ^ 63, 4 + len s).
Proof.
  destruct (print_read_roundtrip (put ∅ 4 (replicate 66 7)) 4 0 10 (- 2 ^ 63)) as [_ (s & E1 & _ & E2)];
    [by vm_compute; split|by vm_compute; split|lia|mem_check|].
  exact (ex_intro _ s (conj E1 E2)).
Defined.
