(* ===== verification/FixedPoint.v ===== *)
(** * Fixed-point arithmetic

    [include/math/fixed.h] and [kernel/math/fixed.c]: signed 32.32 numbers in an
    [int64_t].  The arithmetic is at the widths of the code, with [-fwrapv].
    [FX(x)] rounds the constant to the nearest multiple of 2^-32; here it takes
    the constant as a fraction, which gives the same integer for every constant
    of the code.  A shift by a negative amount or by the width or more is
    undefined in C and a fault here. *)

From S2P Require Import Prelude UInt128 CMem CString.

Definition fx (x : Z) : Z := i64 x.

(** [FX(n / d)] for a non-negative constant. *)
Definition FX (n d : Z) : Z := (2 * n * 2 ^ 32 + d) `div` (2 * d).
Definition FX_ZERO : Z := 0.
Definition FX_ONE : Z := Z.shiftl 1 32.
Definition FX_PI : Z := FX 314159265358979323846 (10 ^ 20).
Definition FX32_32_MIN : Z := - 2 ^ 63.

Definition fx_add (a b : Z) : Z := i64 (a + b).
Definition fx_sub (a b : Z) : Z := i64 (a - b).
Definition fx_neg (a : Z) : Z := i64 (- a).

Definition fx_mul (a b : Z) : Z :=
  let neg := Z.lxor a b <? 0 in
  let ua := u64 (if a <? 0 then i64 (- a) else a) in
  let ub := u64 (if b <? 0 then i64 (- b) else b) in
  let a_hi := Z.shiftr ua 32 in
  let a_lo := Z.land ua 0xFFFFFFFF in
  let b_hi := Z.shiftr ub 32 in
  let b_lo := Z.land ub 0xFFFFFFFF in
  let p0 := u64 (a_lo * b_lo) in
  let p1 := u64 (a_lo * b_hi) in
  let p2 := u64 (a_hi * b_lo) in
  let p3 := u64 (a_hi * b_hi) in
  let mid := u64 (Z.shiftr p0 32 + Z.land p1 0xFFFFFFFF + Z.land p2 0xFFFFFFFF) in
  let high := u64 (p3 + Z.shiftr p1 32 + Z.shiftr p2 32 + Z.shiftr mid 32) in
  let q := Z.lor (u64 (Z.shiftl high 32)) (Z.land mid 0xFFFFFFFF) in
  i64 (if neg then i64 (- i64 q) else i64 q).

(** [for (int i = 63; i >= 0; i--)], with [k = i + 1]. *)
Fixpoint fx_div_loop (k : nat) (ub num_hi num_lo q : Z) : Z :=
  match k with
  | O => q
  | S i =>
      let bit := Z.shiftr num_hi 63 in
      let num_hi := Z.lor (u64 (Z.shiftl num_hi 1)) (Z.shiftr num_lo 63) in
      let num_lo := u64 (Z.shiftl num_lo 1) in
      if negb (bit =? 0) || (ub <=? num_hi) then
        fx_div_loop i ub (u64 (num_hi - ub)) num_lo (Z.lor q (u64 (Z.shiftl 1 (Z.of_nat i))))
      else fx_div_loop i ub num_hi num_lo q
  end.
Definition fx_div (a b : Z) : outcome Z :=
  _ ← enforce (negb (b =? 0));
  let neg := Z.lxor a b <? 0 in
  let ua := u64 (if a <? 0 then i64 (- a) else a) in
  let ub := u64 (if b <? 0 then i64 (- b) else b) in
  let q := fx_div_loop 64 ub (Z.shiftr ua 32) (u64 (Z.shiftl ua 32)) 0 in
  Ok (i64 (if neg then i64 (- i64 q) else i64 q)).

Definition fx_from_int (x : Z) : Z := i64 (u64 (Z.shiftl (u64 x) 32)).
Definition fx_to_int (x : Z) : Z := Z.shiftr x 32.
Definition fx_min (a b : Z) : Z := Z.min a b.
Definition fx_max (a b : Z) : Z := Z.max a b.

(** [while (exp)] with a non-negative exponent of at most 31 bits. *)
Fixpoint fx_pow_loop (fuel : nat) (base exp result : Z) : outcome Z :=
  match fuel with
  | O => Fault
  | S fuel =>
      if exp =? 0 then Ok result else
      let result := if Z.land exp 1 =? 1 then fx_mul result base else result in
      fx_pow_loop fuel (fx_mul base base) (Z.shiftr exp 1) result
  end.
Definition fx_pow_i32 (base exp : Z) : outcome Z :=
  if exp <? 0 then base ← fx_div FX_ONE base; fx_pow_loop 32 base (i32 (- exp)) FX_ONE
  else fx_pow_loop 32 base exp FX_ONE.

Fixpoint fx_sqrt_loop (n : nat) (x r : Z) : outcome Z :=
  match n with
  | O => Ok r
  | S n => q ← fx_div x r; fx_sqrt_loop n x (i64 (Z.shiftr (i64 (r + q)) 1))
  end.
Definition fx_sqrt (x : Z) : outcome Z := if x <=? 0 then Ok FX_ZERO else fx_sqrt_loop 8 x x.

Definition fx_map (value from_low from_high to_low to_high : Z) : outcome Z :=
  let dist := fx_sub value from_low in
  let to_range := fx_sub to_high to_low in
  let from_range := fx_sub from_high from_low in
  let num := fx_add to_low (fx_mul dist to_range) in
  fx_div num from_range.
Definition fx_round_up (x multiple : Z) : outcome Z :=
  q ← fx_div (fx_sub (fx_add x multiple) FX_ONE) multiple; Ok (fx_mul q multiple).
Definition fx_round_down (x multiple : Z) : outcome Z :=
  q ← fx_div x multiple; Ok (fx_mul q multiple).

(** [for (int i = n - 2; i >= 0; i--)]: the coefficients from the highest down. *)
Fixpoint fx_poly_loop (x r : Z) (c : list Z) : Z :=
  match c with [] => r | a :: c => fx_poly_loop x (fx_add (fx_mul r x) a) c end.
Definition fx_poly_eval (x : Z) (c : list Z) : outcome Z :=
  match rev c with [] => Fault | a :: c => Ok (fx_poly_loop x a c) end.

(** [(fx32_32_t)(poly << k)] or [poly >> -k]. *)
Definition fx_scale (poly k : Z) : outcome Z :=
  if 0 <=? k then (if k <? 64 then Ok (i64 (Z.shiftl poly k)) else Fault)
  else (if - k <? 64 then Ok (i64 (Z.shiftr poly (- k))) else Fault).

Definition fx_exp (x : Z) : outcome Z :=
  let k := fx_to_int (fx_mul x (FX 144269504089 (10 ^ 11))) in
  let k_ln2 := fx_mul (fx_from_int k) (FX 69314718056 (10 ^ 11)) in
  let r := fx_sub x k_ln2 in
  poly ← fx_poly_eval r [FX 1 1; FX 1 1; FX 1 2; FX 1 6; FX 1 24];
  fx_scale poly k.

Definition FX_LN2 : Z := FX 69314718056 (10 ^ 11).
(** The two normalising loops: [x] in [[1, 2)] and the exponent. *)
Definition norm_up (fuel : nat) : Z * Z -> outcome (Z * Z) :=
  loop fuel (fun '(x, k) => Ok (if x <? FX 1 1 then inl (i64 (Z.shiftl x 1), k - 1) else inr (x, k))).
Definition norm_down (fuel : nat) : Z * Z -> outcome (Z * Z) :=
  loop fuel (fun '(x, k) => Ok (if FX 2 1 <=? x then inl (i64 (Z.shiftr x 1), k + 1) else inr (x, k))).
Definition fx_ln (x : Z) : outcome Z :=
  if x <=? 0 then Ok FX32_32_MIN else
  r ← norm_up 64 (x, 0); r ← norm_down 64 r;
  let '(x, k) := (r : Z * Z) in
  let num := fx_sub x (FX 1 1) in
  let den := fx_add x (FX 1 1) in
  z ← fx_div num den;
  let z2 := fx_mul z z in
  let z3 := fx_mul z2 z in
  let z5 := fx_mul z3 z2 in
  third ← fx_div (FX 1 1) (FX 3 1);
  fifth ← fx_div (FX 1 1) (FX 5 1);
  let series := i64 (z + fx_mul z3 third + fx_mul z5 fifth) in
  let ln_m := fx_mul series (FX 2 1) in
  Ok (fx_add ln_m (fx_mul (fx_from_int k) FX_LN2)).

(** ** CORDIC *)

Definition cordic_atan : list Z := (fun n => FX n (10 ^ 16)) <$>
  [7853981633974483; 4636476090008061; 2449786631268641; 1243549945467614;
   624188099959574; 312398334302683; 156237286204768; 78123410601011;
   39062301319669; 19531225164788; 9765621895593; 4882812111949;
   2441406201494; 1220703118937; 610351561742; 305175781166;
   152587890863; 76293945430; 38146972715; 19073486358;
   9536743179; 4768371590; 2384185795; 1192092898;
   596046449; 298023224; 149011612; 74505806;
   37252903; 18626452; 9313226; 4656613].
Definition FX_CORDIC_K : Z := FX 6072529350088812561694 (10 ^ 22).

(** The rounds from [i] on: sine and cosine. *)
Fixpoint fx_cordic_loop (atans : list Z) (i x y z : Z) : Z * Z :=
  match atans with
  | [] => (y, x)
  | a :: atans =>
      if 0 <=? z then
        fx_cordic_loop atans (i + 1) (i64 (x - Z.shiftr y i)) (i64 (y + Z.shiftr x i)) (i64 (z - a))
      else
        fx_cordic_loop atans (i + 1) (i64 (x + Z.shiftr y i)) (i64 (y - Z.shiftr x i)) (i64 (z + a))
  end.
Definition fx_cordic (angle : Z) : Z * Z := fx_cordic_loop cordic_atan 0 FX_CORDIC_K FX_ZERO angle.
Definition fx_sin (angle : Z) : Z := (fx_cordic angle).1.
Definition fx_cos (angle : Z) : Z := (fx_cordic angle).2.

(** ** Series *)

Definition FX_2PI : Z := FX (2 * 314159265358979323846) (10 ^ 20).
Definition FX_PI_2 : Z := FX 314159265358979323846 (2 * 10 ^ 20).

Definition _fx_reduce_pi (angle : Z) : Z :=
  let TWO_PI_R := FX 15915494309189535 (10 ^ 17) in
  let cycles := fx_to_int (fx_mul angle TWO_PI_R) in
  let angle := i64 (angle - fx_mul (fx_from_int cycles) FX_2PI) in
  let angle := if FX_PI <? angle then i64 (angle - FX_2PI) else angle in
  if angle <? - FX_PI then i64 (angle + FX_2PI) else angle.

Definition fx_sin_series (angle : Z) : Z :=
  let angle := _fx_reduce_pi angle in
  let '(angle, negate) := if angle <? 0 then (fx_neg angle, true) else (angle, false) in
  let angle := if FX_PI_2 <? angle then fx_sub FX_PI angle else angle in
  let x2 := fx_mul angle angle in
  let x3 := fx_mul x2 angle in
  let x5 := fx_mul x3 x2 in
  let x7 := fx_mul x5 x2 in
  let x9 := fx_mul x7 x2 in
  let x11 := fx_mul x9 x2 in
  let x13 := fx_mul x11 x2 in
  let result := i64 (angle - fx_mul x3 (FX 1 6) + fx_mul x5 (FX 1 120) - fx_mul x7 (FX 1 5040) +
    fx_mul x9 (FX 1 362880) - fx_mul x11 (FX 1 39916800) + fx_mul x13 (FX 1 6227020800)) in
  if negate then fx_neg result else result.

Definition fx_cos_series (angle : Z) : Z :=
  let angle := _fx_reduce_pi angle in
  let angle := if angle <? 0 then fx_neg angle else angle in
  let '(angle, negate) := if FX_PI_2 <? angle then (fx_sub FX_PI angle, true) else (angle, false) in
  let x2 := fx_mul angle angle in
  let x4 := fx_mul x2 x2 in
  let x6 := fx_mul x4 x2 in
  let x8 := fx_mul x6 x2 in
  let x10 := fx_mul x8 x2 in
  let x12 := fx_mul x10 x2 in
  let result := i64 (FX 1 1 - fx_mul x2 (FX 1 2) + fx_mul x4 (FX 1 24) - fx_mul x6 (FX 1 720) +
    fx_mul x8 (FX 1 40320) - fx_mul x10 (FX 1 3628800) + fx_mul x12 (FX 1 479001600)) in
  if negate then fx_neg result else result.

Definition fx_sincos_series (angle : Z) : Z * Z :=
  let angle := _fx_reduce_pi angle in
  let '(angle, sin_neg) := if angle <? 0 then (fx_neg angle, true) else (angle, false) in
  let '(angle, cos_neg) := if FX_PI_2 <? angle then (fx_sub FX_PI angle, true) else (angle, false) in
  let x2 := fx_mul angle angle in
  let x3 := fx_mul x2 angle in
  let x4 := fx_mul x3 angle in
  let x5 := fx_mul x4 angle in
  let x6 := fx_mul x5 angle in
  let x7 := fx_mul x6 angle in
  let x8 := fx_mul x7 angle in
  let x9 := fx_mul x8 angle in
  let x10 := fx_mul x9 angle in
  let x11 := fx_mul x10 angle in
  let x12 := fx_mul x11 angle in
  let x13 := fx_mul x12 angle in
  let s := i64 (angle - fx_mul x3 (FX 1 6) + fx_mul x5 (FX 1 120) - fx_mul x7 (FX 1 5040) +
    fx_mul x9 (FX 1 362880) - fx_mul x11 (FX 1 39916800) + fx_mul x13 (FX 1 6227020800)) in
  let c := i64 (FX 1 1 - fx_mul x2 (FX 1 2) + fx_mul x4 (FX 1 24) - fx_mul x6 (FX 1 720) +
    fx_mul x8 (FX 1 40320) - fx_mul x10 (FX 1 3628800) + fx_mul x12 (FX 1 479001600)) in
  (if sin_neg then fx_neg s else s, if cos_neg then fx_neg c else c).

Definition fx_ln_series (x : Z) : outcome Z :=
  let LN2 := FX 69314718055994530941 (10 ^ 20) in
  if x <=? 0 then Ok FX32_32_MIN else
  r ← norm_up 64 (x, 0); r ← norm_down 64 r;
  let '(x, k) := (r : Z * Z) in
  z ← fx_div (fx_sub x (FX 1 1)) (fx_add x (FX 1 1));
  let z2 := fx_mul z z in
  series ← fx_poly_eval z2 [FX 2 1; FX 2 3; FX 2 5; FX 2 7; FX 2 9; FX 2 11; FX 2 13; FX 2 15];
  Ok (fx_add (fx_mul z series) (fx_mul (fx_from_int k) LN2)).

Definition fx_exp_series (x : Z) : outcome Z :=
  let LN2 := FX 69314718055994530941 (10 ^ 20) in
  let LOG2_E := FX 144269504088896340735 (10 ^ 20) in
  let k := fx_to_int (fx_mul x LOG2_E) in
  let r := fx_sub x (fx_mul (fx_from_int k) LN2) in
  poly ← fx_poly_eval r [FX 1 1; FX 1 1; FX 1 2; FX 1 6; FX 1 24; FX 1 120; FX 1 720; FX 1 5040];
  fx_scale poly k.

(** ** Parsing *)

Definition is_blank (b : Z) : bool := (b =? 32) || (b =? 9).
Definition is_dec (b : Z) : bool := (48 <=? b) && (b <=? 57).
(** [while ( *s == ' ' || *s == '\t') s++;] *)
Definition blank_body (m : mem) (p : Z) : outcome (Z + Z) :=
  b ← rd m p; Ok (if is_blank b then inl (p + 1) else inr p).
Definition skip_blank (m : mem) (p : Z) : outcome Z := loop (mfuel m) (blank_body m) p.

(** The integer digits: address, value, whether there was one. *)
Definition ipart_body (m : mem) : Z * Z * bool -> outcome (Z * Z * bool + Z * Z * bool) :=
  fun '(s, ipart, any) =>
  b ← rd m s;
  Ok (if is_dec b then inl (s + 1, u64 (ipart * 10 + (b - 48)), true) else inr (s, ipart, any)).
(** The digits after the point, of which the first 18 count: address,
    numerator, denominator, digit count, whether there was a digit. *)
Definition frac_body (m : mem) : Z * Z * Z * Z * bool -> outcome (Z * Z * Z * Z * bool + Z * Z * Z * Z * bool) :=
  fun '(s, num, den, n, any) =>
  b ← rd m s;
  Ok (if is_dec b then
        if n <? 18 then inl (s + 1, u64 (num * 10 + (b - 48)), u64 (den * 10), n + 1, true)
        else inl (s + 1, num, den, n, true)
      else inr (s, num, den, n, any)).

(** The value and what is stored through [endptr]. *)
Definition fx_parse (m : mem) (str : Z) : outcome (Z * Z) :=
  s ← skip_blank m str;
  b ← rd m s;
  let '(neg, s) := if (b =? 43) || (b =? 45) then (b =? 45, s + 1) else (false, s) in
  r ← loop (mfuel m) (ipart_body m) (s, 0, false);
  let '(s, ipart, any) := (r : Z * Z * bool) in
  b ← rd m s;
  r ← (if b =? 46 then loop (mfuel m) (frac_body m) (s + 1, 0, 1, 0, any)
       else Ok (s, 0, 1, 0, any));
  let '(s, frac_num, frac_den, _, any) := (r : Z * Z * Z * Z * bool) in
  if negb any then Ok (FX_ZERO, str) else
  let result := i64 (u64 (Z.shiftl ipart 32)) in
  result ← (if 1 <? frac_den then
              q ← __udivti3 (u128 (Z.shiftl frac_num 32)) frac_den; Ok (i64 (result + i64 (u64 q)))
            else Ok result);
  Ok (if neg then fx_neg result else result, s).

(** ** Multiplication and division *)

Lemma abs64 a : in_s 64 a -> u64 (if a <? 0 then i64 (- a) else a) = Z.abs a /\ 0 <= Z.abs a <= 2 ^ 63.
Proof.
  unfold in_s. intros Ha. split; [|lia]. destruct (Z.ltb_spec a 0).
  - rewrite wrap_sgn, wrap_small by (unfold in_u; lia). lia.
  - rewrite wrap_small by (unfold in_u; lia). lia.
Qed.

(** The magnitude computed by [fx_mul] is the product of [mul64_wide] moved
    down by 32 bits. *)
Lemma fx_mul_core ua ub :
  in_u 64 ua -> in_u 64 ub ->
  (let a_hi := Z.shiftr ua 32 in let a_lo := Z.land ua 0xFFFFFFFF in
   let b_hi := Z.shiftr ub 32 in let b_lo := Z.land ub 0xFFFFFFFF in
   let p0 := u64 (a_lo * b_lo) in let p1 := u64 (a_lo * b_hi) in
   let p2 := u64 (a_hi * b_lo) in let p3 := u64 (a_hi * b_hi) in
   let mid := u64 (Z.shiftr p0 32 + Z.land p1 0xFFFFFFFF + Z.land p2 0xFFFFFFFF) in
   let high := u64 (p3 + Z.shiftr p1 32 + Z.shiftr p2 32 + Z.shiftr mid 32) in
   Z.lor (u64 (Z.shiftl high 32)) (Z.land mid 0xFFFFFFFF)) = u64 ((ua * ub) `div` 2 ^ 32).
Proof.
  intros Ha Hb. cbn zeta. destruct (mul64_wide ua ub) as [h l] eqn:E.
  destruct (mul64_wide_spec _ _ _ _ Ha Hb E) as (Hh & Hl & Hp). unfold mul64_wide in E. cbn zeta in E.
  change 0xFFFFFFFF with (Z.ones 32) in *. rewrite !land_ones_wrap in * by lia.
  set (mid := u64 (Z.shiftr _ 32 + u32 _ + u32 _)) in *. injection E as Eh El. rewrite Eh.
  assert (wrap 32 mid = Z.shiftr l 32) as ->.
  { rewrite <- El. apply Z.bits_inj'. intros i Hi. zbits_norm. zbits_split; zbits_norm; try done.
    f_equal. lia. }
  rewrite Z.shiftl_mul_pow2, Z.shiftr_div_pow2 by lia.
  assert ((ua * ub) `div` 2 ^ 32 = h * 2 ^ 32 + l `div` 2 ^ 32) as ->.
  { rewrite <- Hp. replace (h * 2 ^ 64 + l) with (l + h * 2 ^ 32 * 2 ^ 32) by lia. rewrite Z.div_add by lia. lia. }
  assert (0 <= l `div` 2 ^ 32 < 2 ^ 32) as Hl'.
  { unfold in_u in Hl. split; [apply Z.div_pos|apply Z.div_lt_upper_bound]; lia. }
  assert (u64 (h * 2 ^ 32) = (h mod 2 ^ 32) * 2 ^ 32) as Ew.
  { unfold wrap. change (2 ^ 64) with (2 ^ 32 * 2 ^ 32). by rewrite Z.mul_mod_distr_r by lia. }
  rewrite Ew. pose proof (Z.mod_pos_bound h (2 ^ 32) ltac:(lia)).
  rewrite lor_add_disjoint.
  - rewrite <- (wrap_small 64 (_ + _)) by (unfold in_u; lia). unfold wrap. pose proof (Z.div_mod h (2 ^ 32) ltac:(lia)) as Eh'.
    apply (wrap_eq_intro 64 _ _ (- (h / 2 ^ 32))). lia.
  - rewrite <- Z.shiftl_mul_pow2 by lia. rewrite <- (wrap_small 32 (l `div` 2 ^ 32)) by (unfold in_u; lia). zbits.
Qed.

(** The common end of both: apply the sign of the quotient. *)
Lemma fx_sign a b q n d :
  in_s 64 a -> in_s 64 b -> d <> 0 -> (0 < n * d <-> 0 < a * b) -> (n * d < 0 <-> a * b < 0) ->
  u64 q = u64 (Z.abs n `div` Z.abs d) ->
  i64 (if Z.lxor a b <? 0 then i64 (- i64 q) else i64 q) = i64 (Z.quot n d).
Proof.
  intros Ha Hb Hd Hs Hs' Hq. rewrite Z.quot_div by done.
  assert (forall x, sgn 64 (sgn 64 x) = sgn 64 x) as Hss by (intros x; rewrite <- sgn_wrap, wrap_sgn, sgn_wrap by lia; done).
  pose proof (Z.lxor_nonneg a b) as Hx.
  destruct (Z.ltb_spec (Z.lxor a b) 0) as [Hn|Hn].
  - rewrite sgn_opp_sgn, Hss by lia.
    assert (Z.sgn n * Z.sgn d * (Z.abs n `div` Z.abs d) = - (Z.abs n `div` Z.abs d)) as ->.
    { destruct (decide (n = 0)) as [->|]; [by rewrite Z.abs_0, Z.div_0_l by lia|].
      assert (n * d < 0) by (apply Hs'; nia). destruct (decide (n < 0)).
      - rewrite (Z.sgn_neg n), (Z.sgn_pos d) by nia. lia.
      - rewrite (Z.sgn_pos n), (Z.sgn_neg d) by nia. lia. }
    rewrite <- (sgn_opp_sgn 64 q), <- (sgn_opp_sgn 64 (Z.abs n `div` Z.abs d)) by lia. do 2 f_equal.
    by rewrite <- (sgn_wrap 64 q), Hq, sgn_wrap.
  - rewrite Hss.
    assert (Z.sgn n * Z.sgn d * (Z.abs n `div` Z.abs d) = Z.abs n `div` Z.abs d) as ->.
    { destruct (decide (n = 0)) as [->|]; [by rewrite Z.abs_0, Z.div_0_l by lia|].
      assert (0 < n * d) by (assert (~ n * d < 0) by (rewrite Hs'; nia); nia). destruct (decide (n < 0)).
      - rewrite (Z.sgn_neg n), (Z.sgn_neg d) by nia. lia.
      - rewrite (Z.sgn_pos n), (Z.sgn_pos d) by nia. lia. }
    by rewrite <- (sgn_wrap 64 q), Hq, sgn_wrap.
Qed.

Lemma fx_mul_spec a b : in_s 64 a -> in_s 64 b -> fx_mul a b = i64 (Z.quot (a * b) (2 ^ 32)).
Proof.
  intros Ha Hb. unfold fx_mul. destruct (abs64 a Ha) as [-> Ra], (abs64 b Hb) as [-> Rb].
  pose proof (fx_mul_core (Z.abs a) (Z.abs b)) as E. cbn zeta in E |- *. rewrite E by (unfold in_u; lia). clear E.
  apply fx_sign; [done|done|lia|nia|nia|]. rewrite wrap_wrap, Z.abs_mul. done.
Qed.

(** The restoring division: [k] bits [t] of the dividend are still in the upper
    bits of [num_lo]. *)
Lemma fx_div_loop_spec ub k : forall nh t q,
  Z.of_nat k <= 64 -> 0 < ub < 2 ^ 64 -> 0 <= nh < ub -> 0 <= t < 2 ^ Z.of_nat k -> 0 <= q ->
  (2 ^ Z.of_nat k | q) ->
  fx_div_loop k ub nh (t * 2 ^ (64 - Z.of_nat k)) q = q + (nh * 2 ^ Z.of_nat k + t) `div` ub.
Proof.
  induction k as [|i IH]; intros nh t q Hk Hub Hnh Ht Hq Hdiv; cbn [fx_div_loop].
  { change (2 ^ Z.of_nat 0) with 1 in *. rewrite Z.div_small by lia. lia. }
  rewrite Nat2Z.inj_succ, <- Z.add_1_r in *. set (n := Z.of_nat i) in *. assert (0 <= n) by lia.
  assert (2 ^ (n + 1) = 2 * 2 ^ n) as P1 by (rewrite Z.pow_add_r by lia; lia).
  assert (0 < 2 ^ n) as P0 by (apply Z.pow_pos_nonneg; lia).
  assert (2 ^ (64 - n) = 2 * 2 ^ (64 - (n + 1))) as P2 by (rewrite <- Z.pow_succ_r by lia; f_equal; lia).
  assert (2 ^ n * 2 ^ (64 - (n + 1)) = 2 ^ 63) as P3 by (rewrite <- Z.pow_add_r by lia; f_equal; lia).
  pose proof (Z.div_mod t (2 ^ n) ltac:(lia)) as Et. pose proof (Z.mod_pos_bound t (2 ^ n) P0) as Hm.
  set (b := t `div` 2 ^ n) in *. set (t' := t `mod` 2 ^ n) in *.
  assert (0 <= b < 2) as Hb by (split; [apply Z.div_pos; lia|apply Z.div_lt_upper_bound; lia]).
  set (c := 2 ^ (64 - (n + 1))) in *. assert (0 < c) by (apply Z.pow_pos_nonneg; lia).
  assert (Z.shiftr (t * c) 63 = b) as ->.
  { rewrite Z.shiftr_div_pow2 by lia. symmetry. apply (Z.div_unique _ _ _ (t' * c)); nia. }
  assert (u64 (Z.shiftl (t * c) 1) = t' * 2 ^ (64 - n)) as ->.
  { rewrite Z.shiftl_mul_pow2 by lia. rewrite <- (wrap_small 64 (t' * 2 ^ (64 - n))) by (unfold in_u; nia).
    apply (wrap_eq_intro 64 _ _ b). nia. }
  set (T := 2 * nh + b).
  assert (Z.lor (u64 (Z.shiftl nh 1)) b = u64 T) as ->.
  { rewrite <- (wrap_small 64 b) at 1 by (unfold in_u; lia). rewrite Z.shiftl_mul_pow2 by lia. change (2 ^ 1) with 2.
    assert (b = 0 \/ b = 1) as [Eb|Eb] by lia; unfold T; rewrite Eb.
    - rewrite Z.lor_0_r. f_equal. lia.
    - rewrite <- wrap_lor by lia. f_equal. replace (nh * 2) with (2 * nh) by lia. rewrite lor_add_disjoint; [done|].
      apply Z.bits_inj'. intros j Hj. rewrite Z.land_spec, Z.bits_0, testbit_1.
      destruct (Z.eqb_spec j 0) as [->|]; [by rewrite Z.testbit_even_0|apply andb_false_r]. }
  assert ((negb (Z.shiftr nh 63 =? 0) || (ub <=? u64 T)) = (ub <=? T)) as ->.
  { rewrite Z.shiftr_div_pow2 by lia. destruct (decide (nh < 2 ^ 63)).
    - rewrite Z.div_small by lia. rewrite (wrap_small 64 T) by (unfold in_u, T; lia). done.
    - assert (nh `div` 2 ^ 63 = 1) as -> by (symmetry; apply (Z.div_unique _ _ _ (nh - 2 ^ 63)); lia).
      rewrite (proj2 (Z.leb_le ub T)) by (unfold T; lia). done. }
  destruct (Z.leb_spec ub T) as [Hge|Hlt].
  - assert (u64 (u64 T - ub) = T - ub) as -> by (rewrite wrap_sub_l; apply wrap_small; unfold in_u, T; lia).
    assert (Z.lor q (u64 (Z.shiftl 1 n)) = q + 2 ^ n) as ->.
    { rewrite Z.shiftl_1_l, wrap_small by (unfold in_u; pose proof (Z.pow_lt_mono_r 2 n 64); lia).
      destruct Hdiv as [z ->]. rewrite lor_add_disjoint; [done|]. rewrite P1.
      apply Z.bits_inj'. intros j Hj. rewrite Z.land_spec, Z.bits_0, testbit_pow2 by lia.
      destruct (Z.eqb_spec j n) as [->|]; [|apply andb_false_r].
      replace (z * (2 * 2 ^ n)) with (2 * z * 2 ^ n) by lia. rewrite Z.mul_pow2_bits by lia.
      rewrite Z.sub_diag, Z.testbit_even_0. done. }
    rewrite IH; [|lia|lia|unfold T; lia|lia|lia|].
    + rewrite Et, P1. replace (nh * (2 * 2 ^ n) + (2 ^ n * b + t')) with ((T - ub) * 2 ^ n + t' + 2 ^ n * ub) by (unfold T; lia).
      rewrite Z.div_add by lia. lia.
    + destruct Hdiv as [z ->]. exists (2 * z + 1). rewrite P1. lia.
  - rewrite (wrap_small 64 T) by (unfold in_u, T; lia). rewrite IH; [|lia|lia|unfold T; lia|lia|lia|].
    + rewrite Et, P1. do 2 f_equal. unfold T. lia.
    + destruct Hdiv as [z ->]. exists (2 * z). rewrite P1. lia.
Qed.

(** Division is exact, truncated toward zero, whenever the magnitude of the
    quotient fits 64 bits. *)
Lemma fx_div_spec a b :
  in_s 64 a -> in_s 64 b -> b <> 0 -> Z.abs a < Z.abs b * 2 ^ 32 ->
  fx_div a b = Ok (i64 (Z.quot (a * 2 ^ 32) b)).
Proof.
  intros Ha Hb Hb0 Hfit. unfold fx_div. rewrite (proj2 (Z.eqb_neq b 0) Hb0). cbn [negb enforce]. rewrite bind_Ok.
  destruct (abs64 a Ha) as [-> Ra], (abs64 b Hb) as [-> Rb].
  set (ua := Z.abs a) in *. set (ub := Z.abs b) in *.
  pose proof (Z.div_mod ua (2 ^ 32) ltac:(lia)) as Ea. pose proof (Z.mod_pos_bound ua (2 ^ 32) ltac:(lia)).
  assert (u64 (Z.shiftl ua 32) = (ua mod 2 ^ 32 * 2 ^ 32) * 2 ^ (64 - Z.of_nat 64)) as ->.
  { rewrite Z.shiftl_mul_pow2 by lia. change (2 ^ (64 - Z.of_nat 64)) with 1. rewrite Z.mul_1_r.
    unfold wrap. change (2 ^ 64) with (2 ^ 32 * 2 ^ 32). by rewrite Z.mul_mod_distr_r by lia. }
  rewrite Z.shiftr_div_pow2 by lia. rewrite fx_div_loop_spec.
  - f_equal. apply fx_sign; [done|done|done|nia|nia|]. f_equal. rewrite Z.add_0_l. unfold ub.
    f_equal. rewrite Z.abs_mul. change (2 ^ Z.of_nat 64) with (2 ^ 32 * 2 ^ 32). fold ua. lia.
  - lia.
  - unfold ub in *. lia.
  - split; [apply Z.div_pos; lia|]. apply Z.div_lt_upper_bound; lia.
  - change (2 ^ Z.of_nat 64) with (2 ^ 32 * 2 ^ 32). nia.
  - lia.
  - apply Z.divide_0_r.
Qed.

(** ** Newton's iteration *)

Lemma fx_sqrt_loop_spec x n : forall r j,
  0 < x < 2 ^ 62 -> 0 < r < 2 ^ 62 -> (j + n = 8)%nat -> Z.shiftr x (Z.of_nat j) <= r ->
  exists r', fx_sqrt_loop n x r = Ok r' /\ Z.shiftr x 8 <= r' < 2 ^ 62 /\ 0 < r'.
Proof.
  induction n as [|n IH]; intros r j Hx Hr Hj Hle; cbn [fx_sqrt_loop].
  { exists r. replace (Z.of_nat j) with 8 in Hle by lia. split_and!; [done|lia|lia|lia]. }
  assert (Z.shiftr x 8 <= Z.shiftr x (Z.of_nat j)) as H8.
  { rewrite !Z.shiftr_div_pow2 by lia. apply Z.div_le_compat_l; [lia|]. split; [apply Z.pow_pos_nonneg; lia|].
    apply Z.pow_le_mono_r; lia. }
  rewrite Z.shiftr_div_pow2 in H8 by lia. change (2 ^ 8) with 256 in H8.
  pose proof (Z.div_mod x 256 ltac:(lia)). pose proof (Z.mod_pos_bound x 256 ltac:(lia)).
  assert (x < 512 * r) as Hxr by lia.
  rewrite fx_div_spec, bind_Ok; [|unfold in_s; lia|unfold in_s; lia|lia|lia].
  rewrite Z.quot_div_nonneg by lia. set (q := (x * 2 ^ 32) `div` r).
  assert (0 <= q < 2 ^ 42) as Hq.
  { split; [apply Z.div_pos; lia|]. apply Z.div_lt_upper_bound; lia. }
  assert (r = 1 -> 1 <= q) as Hq1 by (intros ->; unfold q; rewrite Z.div_1_r; lia).
  rewrite (sgn_small 64 q), (sgn_small 64 (r + q)) by (unfold in_s; lia).
  rewrite Z.shiftr_div_pow2 by lia. change (2 ^ 1) with 2.
  pose proof (Z.div_mod (r + q) 2 ltac:(lia)). pose proof (Z.mod_pos_bound (r + q) 2 ltac:(lia)).
  rewrite sgn_small by (unfold in_s; lia). apply (IH _ (S j)); [done|lia|lia|].
  replace (Z.of_nat (S j)) with (Z.of_nat j + 1) by lia. rewrite <- Z.shiftr_shiftr by lia.
  rewrite (Z.shiftr_div_pow2 (Z.shiftr x _)) by lia. change (2 ^ 1) with 2.
  apply Z.div_le_mono; lia.
Qed.

(** ** Properties *)

(** multiplication and division.  [fx_mul] and [fx_div] return the exact
    product and quotient truncated toward zero whenever they are representable,
    for every combination of signs and up to the most negative number; division
    by zero panics. *)
Theorem fx_mul_div_correct a b :
  in_s 64 a -> in_s 64 b ->
  (in_s 64 (Z.quot (a * b) (2 ^ 32)) -> fx_mul a b = Z.quot (a * b) (2 ^ 32)) /\
  (b <> 0 -> in_s 64 (Z.quot (a * 2 ^ 32) b) -> fx_div a b = Ok (Z.quot (a * 2 ^ 32) b)) /\
  fx_div a 0 = Panic.
Proof.
  intros Ha Hb. split_and!; [| |done].
  - intros Hr. rewrite fx_mul_spec by done. by apply sgn_small.
  - intros Hb0 Hr. rewrite fx_div_spec; [by rewrite sgn_small|done|done|done|].
    assert (Z.abs (Z.quot (a * 2 ^ 32) b) <= 2 ^ 63) as Hq by (unfold in_s in Hr; lia).
    rewrite <- Z.quot_abs, Z.abs_mul, Z.quot_div_nonneg in Hq by lia.
    pose proof (Z.div_mod (Z.abs a * Z.abs (2 ^ 32)) (Z.abs b) ltac:(lia)).
    pose proof (Z.mod_pos_bound (Z.abs a * Z.abs (2 ^ 32)) (Z.abs b) ltac:(lia)). nia.
Qed.
Lemma fx_mul_div_correct_witness :
  fx_mul (- FX 3 2) (FX 5 2) = - FX 15 4 /\ fx_div (- FX 3 1) (FX 4 1) = Ok (- FX 3 4).
Proof.
  destruct (fx_mul_div_correct (- FX 3 2) (FX 5 2)) as (H1 & _); [by vm_compute; split|by vm_compute; split|].
  destruct (fx_mul_div_correct (- FX 3 1) (FX 4 1)) as (_ & H2 & _); [by vm_compute; split|by vm_compute; split|].
  split; [apply H1; by vm_compute; split|apply H2; [vm_compute; discriminate|by vm_compute; split]].
Defined.

(** C39: where the helpers do not compute what their names say.  [fx_round_down]
    divides in fixed point and so does not round: the result is the argument up
    to the error of one division.  [fx_sqrt] does eight Newton steps from the
    argument itself, each at most halving it, so the result is at least 1/256 of
    the argument, above the root for every argument over 65536.  [fx_map]
    divides the offset of the target range too, [fx_round_up] does not round,
    [fx_sin] does not reduce its argument, and [fx_exp] shifts by more than the
    width for large negative arguments. *)
Theorem fx_helpers_off x m y :
  0 <= x < 2 ^ 63 -> FX_ONE <= m < 2 ^ 63 -> 0 < y < 2 ^ 62 ->
  (exists r, fx_round_down x m = Ok r /\ x - m `div` 2 ^ 32 - 1 <= r <= x) /\
  (exists r, fx_sqrt y = Ok r /\ Z.shiftr y 8 <= r) /\
  fx_round_down (FX 7 1) (FX 4 1) = Ok (FX 7 1) /\
  fx_round_up (FX 5 1) (FX 3 1) = Ok (FX 7 1 - 1) /\
  fx_map (FX 5 1) FX_ZERO (FX 10 1) (FX 100 1) (FX 200 1) = Ok (FX 60 1) /\
  FX 98 100 < fx_sin FX_PI /\ fx_exp (- FX 50 1) = Fault.
Proof.
  intros Hx Hm Hy. split; [|split; [|split_and!; vm_compute; reflexivity]].
  - change FX_ONE with (2 ^ 32) in Hm. unfold fx_round_down.
    rewrite fx_div_spec; [|unfold in_s; lia|unfold in_s; lia|lia|nia].
    rewrite bind_Ok, Z.quot_div_nonneg by lia. set (q := (x * 2 ^ 32) `div` m).
    pose proof (Z.div_mod (x * 2 ^ 32) m ltac:(lia)) as E. pose proof (Z.mod_pos_bound (x * 2 ^ 32) m ltac:(lia)) as Hr. fold q in E.
    assert (0 <= q) by (apply Z.div_pos; lia). assert (q <= x) by nia.
    rewrite (sgn_small 64 q) by (unfold in_s; lia).
    rewrite fx_mul_spec, Z.quot_div_nonneg by (unfold in_s; nia).
    pose proof (Z.div_mod (q * m) (2 ^ 32) ltac:(lia)) as E2. pose proof (Z.mod_pos_bound (q * m) (2 ^ 32) ltac:(lia)).
    pose proof (Z.div_mod m (2 ^ 32) ltac:(lia)) as E3. pose proof (Z.mod_pos_bound m (2 ^ 32) ltac:(lia)).
    assert (0 <= (q * m) `div` 2 ^ 32 <= x) by nia. rewrite sgn_small by (unfold in_s; lia).
    eexists. split; [done|]. nia.
  - unfold fx_sqrt. rewrite (proj2 (Z.leb_gt y 0)) by lia.
    destruct (fx_sqrt_loop_spec y 8 y 0) as (r & E & H1 & H2); [done|done|done|by rewrite Z.shiftr_0_r|].
    exists r. split; [done|]. lia.
Qed.
Lemma fx_helpers_off_witness :
  exists r, fx_sqrt (FX 1000000 1) = Ok r /\ FX 3906 1 <= r.
Proof.
  destruct (fx_helpers_off 0 FX_ONE (FX 1000000 1)) as (_ & (r & E & H) & _); [by vm_compute; split|by vm_compute; split|by vm_compute; split|].
  exists r. split; [exact E|]. eapply Z.le_trans; [|exact H]. vm_compute. discriminate.
Defined.
