(* ===== verification/Parse.v ===== *)
(** * Value parsers

    [kernel/parse.c]: the recognisers of boot options.  A parser takes the byte
    memory and the address of a NUL-terminated string ([0] is [NULL]) and returns
    [None] where the code returns [false] and [Some v] where it returns [true]
    with [v] stored through [out].  String literals and the local buffer of
    [parse_range_internal] are placed at the addresses [LIT] and [BUF], below
    every other object. *)

From Stdlib Require Import String Ascii.
From S2P Require Import Prelude BitMath BitSet UInt128 CMem CString CNum FixedPoint.
Local Open Scope Z_scope.

Definition lit (s : string) : list Z := map (fun a => Z.of_nat (nat_of_ascii a)) (list_ascii_of_string s).
Definition LIT : Z := -4096.
Definition BUF : Z := -8192.

(** [strncasecmp(s, "...", n) == 0] *)
Definition is_lit (m : mem) (s : Z) (l : string) (n : Z) : outcome bool :=
  r ← strncasecmp (put m LIT (lit l ++ [0])) s LIT n; Ok (r =? 0).

(** [!str || *str == '\0'] *)
Definition no_text (m : mem) (str : Z) : outcome bool :=
  if str =? 0 then Ok true else b ← rd m str; Ok (b =? 0).

(** [while (end > begin && ( *(end - 1) == ' ' || *(end - 1) == '\t')) end--;] *)
Definition rtrim_body (m : mem) (begin e : Z) : outcome (Z + Z) :=
  if begin <? e then b ← rd m (e - 1); Ok (if is_blank b then inl (e - 1) else inr e) else Ok (inr e).
Definition rtrim (m : mem) (begin e : Z) : outcome Z := loop (mfuel m) (rtrim_body m begin) e.

(** ** Booleans *)

Definition enabled_terms : list string :=
  ["true"; "enabled"; "y"; "yes"; "yeah"; "yup"; "on"; "positive"; "1"; "active"; "allow"; "ok"; "open"]%string.
Definition disabled_terms : list string :=
  ["false"; "disabled"; "n"; "no"; "nope"; "off"; "negative"; "0"; "inactive"; "deny"; "blocked"; "closed"]%string.

Fixpoint any_term (m : mem) (str len : Z) (terms : list string) : outcome bool :=
  match terms with
  | [] => Ok false
  | t :: terms =>
      b ← (if len =? Z.of_nat (length (lit t)) then is_lit m str t len else Ok false);
      if (b : bool) then Ok true else any_term m str len terms
  end.

Definition parse_bool_internal (m : mem) (str : Z) : outcome (option bool) :=
  e ← no_text m str; if (e : bool) then Ok None else
  str ← skip_blank m str;
  b ← rd m str; if b =? 0 then Ok None else
  n ← strlen m str;
  fin ← rtrim m str (str + n);
  let len := fin - str in
  on ← any_term m str len enabled_terms; if (on : bool) then Ok (Some true) else
  off ← any_term m str len disabled_terms; if (off : bool) then Ok (Some false) else
  Ok None.

(** ** Sizes and durations *)

(** The decimal digits with the overflow test: [None] when the value exceeds 64
    bits. *)
Definition digits_body (m : mem) : Z * Z -> outcome (Z * Z + option (Z * Z)) := fun '(p, value) =>
  b ← rd m p;
  Ok (if is_dec b then
        let digit := b - 48 in
        if (ULLONG_MAX - digit) `div` 10 <? value then inr None else inl (p + 1, u64 (value * 10 + digit))
      else inr (Some (p, value))).
Definition read_digits (m : mem) (p : Z) : outcome (option (Z * Z)) := loop (mfuel m) (digits_body m) (p, 0).

(** The unit letter: multiplier, whether [iB] or [B] may follow, and how far the
    letter takes the cursor. *)
Definition size_unit (b : Z) : option (Z * bool * Z) :=
  if (b =? 75) || (b =? 107) then Some (Z.shiftl 1 10, true, 1)
  else if (b =? 77) || (b =? 109) then Some (Z.shiftl 1 20, true, 1)
  else if (b =? 71) || (b =? 103) then Some (Z.shiftl 1 30, true, 1)
  else if (b =? 84) || (b =? 116) then Some (Z.shiftl 1 40, true, 1)
  else if (b =? 66) || (b =? 98) then Some (1, false, 1)
  else if b =? 0 then Some (1, false, 0)
  else None.
(** The rest of the unit after a prefix letter. *)
Definition size_suffix (m : mem) (str : Z) : outcome (option Z) :=
  b ← rd m str;
  if (b =? 105) || (b =? 73) then
    c ← rd m (str + 1); Ok (if (c =? 98) || (c =? 66) then Some (str + 2) else None)
  else Ok (Some (if (b =? 98) || (b =? 66) then str + 1 else str)).

Definition parse_data_size_internal (m : mem) (str : Z) : outcome (option Z) :=
  e ← no_text m str; if (e : bool) then Ok None else
  str ← skip_blank m str;
  b ← rd m str; if (b <? 48) || (57 <? b) then Ok None else
  r ← read_digits m str;
  match r with
  | None => Ok None
  | Some (str, value) =>
      str ← skip_blank m str;
      b ← rd m str;
      match size_unit b with
      | None => Ok None
      | Some (multiplier, has_prefix, adv) =>
          let str := str + adv in
          s ← (if (has_prefix : bool) then size_suffix m str else Ok (Some str));
          match s with
          | None => Ok None
          | Some str =>
              str ← skip_blank m str;
              b ← rd m str; if negb (b =? 0) then Ok None else
              let result := u64 (value * multiplier) in
              Ok (if (1 <? multiplier) && negb (result `div` multiplier =? value) then None else Some result)
          end
      end
  end.

(** [while ( *str && *str != ' ' && *str != '\t') str++;] *)
Definition word_body (m : mem) (p : Z) : outcome (Z + Z) :=
  b ← rd m p; Ok (if negb (b =? 0) && negb (is_blank b) then inl (p + 1) else inr p).

(** One of the alternatives [unit_len == n && strncasecmp(unit_start, "...", n) == 0]. *)
Fixpoint one_of (m : mem) (unit_start unit_len : Z) (terms : list string) : outcome bool :=
  match terms with
  | [] => Ok false
  | t :: terms =>
      let n := Z.of_nat (length (lit t)) in
      b ← (if unit_len =? n then is_lit m unit_start t n else Ok false);
      if (b : bool) then Ok true else one_of m unit_start unit_len terms
  end.
Definition duration_units : list (list string * Z) :=
  [(["ns"], 1); (["us"], 1000); (["ms"], 1000000);
   (["s"; "sec"; "secs"; "second"; "seconds"], 1000000000);
   (["m"; "min"; "mins"; "minute"; "minutes"], 60 * 1000000000);
   (["h"; "hr"; "hrs"; "hour"; "hours"], 3600 * 1000000000);
   (["d"; "day"; "days"], 86400 * 1000000000)]%string.
Fixpoint find_unit (m : mem) (unit_start unit_len : Z) (us : list (list string * Z)) : outcome (option Z) :=
  match us with
  | [] => Ok None
  | (terms, mult) :: us =>
      b ← one_of m unit_start unit_len terms;
      if (b : bool) then Ok (Some mult) else find_unit m unit_start unit_len us
  end.

Definition parse_duration_internal (m : mem) (str : Z) : outcome (option Z) :=
  e ← no_text m str; if (e : bool) then Ok None else
  str ← skip_blank m str;
  b ← rd m str; if (b <? 48) || (57 <? b) then Ok None else
  r ← read_digits m str;
  match r with
  | None => Ok None
  | Some (str, value) =>
      unit_start ← skip_blank m str;
      str ← loop (mfuel m) (word_body m) unit_start;
      let unit_len := str - unit_start in
      str ← skip_blank m str;
      b ← rd m str; if negb (b =? 0) then Ok None else
      mult ← (if unit_len =? 0 then Ok (Some 1) else find_unit m unit_start unit_len duration_units);
      Ok (match mult with
          | None => None
          | Some multiplier =>
              if (0 <? multiplier) && (ULLONG_MAX `div` multiplier <? value) then None
              else Some (u64 (value * multiplier))
          end)
  end.

(** ** CPU lists *)

(** [N] or [N-M] with the overflow tests: the cursor and the two ends. *)
Definition read_cpus (m : mem) (p : Z) : outcome (option (Z * Z * Z)) :=
  b ← rd m p; if (b <? 48) || (57 <? b) then Ok None else
  r ← read_digits m p;
  match r with
  | None => Ok None
  | Some (p, start) =>
      b ← rd m p;
      if b =? 45 then
        b ← rd m (p + 1); if (b <? 48) || (57 <? b) then Ok None else
        r ← read_digits m (p + 1);
        Ok (match r with None => None | Some (p, fin) => Some (p, start, fin) end)
      else Ok (Some (p, start, start))
  end.
(** One round of the validating loop: the next cursor, or the verdict. *)
Definition validate_body (m : mem) (cpu_count p : Z) : outcome (Z + bool) :=
  b ← rd m p; if b =? 0 then Ok (inr true) else
  r ← read_cpus m p;
  match r with
  | None => Ok (inr false)
  | Some (p, start, fin) =>
      if (fin <? start) || (cpu_count <=? fin) then Ok (inr false) else
      b ← rd m p;
      if b =? 44 then c ← rd m (p + 1); Ok (if c =? 0 then inr false else inl (p + 1))
      else Ok (if negb (b =? 0) then inr false else inl p)
  end.
(** The digits without the overflow test, as the second pass reads them. *)
Definition plain_body (m : mem) : Z * Z -> outcome (Z * Z + Z * Z) := fun '(p, v) =>
  b ← rd m p; Ok (if is_dec b then inl (p + 1, u64 (v * 10 + (b - 48))) else inr (p, v)).
(** [for (i = start; i <= end; i++) cpu_mask_set(out, i);] *)
Fixpoint set_cpus (n : nat) (i : Z) (mask : list Z) : outcome (list Z) :=
  match n with O => Ok mask | S n => mask ← cpu_mask_set mask i; set_cpus n (i + 1) mask end.
Definition populate_body (m : mem) : Z * list Z -> outcome (Z * list Z + list Z) := fun '(p, mask) =>
  b ← rd m p; if b =? 0 then Ok (inr mask) else
  r ← loop (mfuel m) (plain_body m) (p, 0);
  let '(p, start) := (r : Z * Z) in
  b ← rd m p;
  r ← (if b =? 45 then loop (mfuel m) (plain_body m) (p + 1, 0) else Ok (p, start));
  let '(p, fin) := (r : Z * Z) in
  mask ← set_cpus (Z.to_nat (fin + 1 - start)) start mask;
  b ← rd m p;
  Ok (inl (if b =? 44 then p + 1 else p, mask)).

(** The verdict and the new contents of the mask [out], when there is one. *)
Definition parse_cpu_mask_internal (m : mem) (str : Z) (out : option (list Z)) (cpu_count : Z)
    : outcome (bool * option (list Z)) :=
  e ← no_text m str; if (e : bool) || (cpu_count =? 0) then Ok (false, out) else
  v ← loop (mfuel m) (validate_body m cpu_count) str;
  if negb v then Ok (false, out) else
  match out with
  | None => Ok (true, None)
  | Some mask =>
      mask ← loop (mfuel m) (populate_body m) (str, cpu_mask_init mask);
      Ok (true, Some mask)
  end.

(** ** Numbers and addresses *)

Definition hex_to_int (c : Z) : Z :=
  if (48 <=? c) && (c <=? 57) then c - 48
  else if (97 <=? c) && (c <=? 102) then c - 97 + 10
  else if (65 <=? c) && (c <=? 70) then c - 65 + 10
  else -1.
(** The loop over the bytes of the address, [n] of which are left. *)
Fixpoint mac_loop (m : mem) (n : nat) (p mac : Z) : outcome (option (Z * Z)) :=
  match n with
  | O => Ok (Some (p, mac))
  | S n =>
      b ← rd m p; let high := hex_to_int b in if high <? 0 then Ok None else
      b ← rd m (p + 1); let low := hex_to_int b in if low <? 0 then Ok None else
      let mac := Z.lor (Z.lor (u64 (Z.shiftl mac 8)) (Z.shiftl high 4)) low in
      let p := p + 2 in
      match n with
      | O => mac_loop m n p mac
      | S _ => b ← rd m p; if negb (b =? 58) then Ok None else mac_loop m n (p + 1) mac
      end
  end.
Definition parse_mac_internal (m : mem) (str : Z) : outcome (option Z) :=
  e ← no_text m str; if (e : bool) then Ok None else
  r ← mac_loop m 6 str 0;
  match r with
  | None => Ok None
  | Some (p, mac) => b ← rd m p; Ok (if negb (b =? 0) then None else Some mac)
  end.

(** The test of a conversion that reports its end: everything was consumed. *)
Definition whole (m : mem) (str : Z) (r : Z * Z) : outcome (option Z) :=
  let '(val, fin) := r in
  if fin =? str then Ok None else b ← rd m fin; Ok (if negb (b =? 0) then None else Some val).

Definition parse_fx_internal (m : mem) (str : Z) : outcome (option Z) :=
  e ← no_text m str; if (e : bool) then Ok None else
  r ← fx_parse m str; whole m str r.
Definition parse_int_internal (m : mem) (str : Z) : outcome (option Z) :=
  e ← no_text m str; if (e : bool) then Ok None else
  r ← strtol m str 0; whole m str r.
Definition parse_uint_internal (m : mem) (str : Z) : outcome (option Z) :=
  e ← no_text m str; if (e : bool) then Ok None else
  p ← skip_blank m str;
  b ← rd m p; if b =? 45 then Ok None else
  r ← strtoull m str 0; whole m str r.

(** ** Ranges *)

(** The separator: its address and length. *)
Definition find_sep (m : mem) (str : Z) : outcome (option (Z * Z)) :=
  sep ← strstr (put m LIT (lit ".." ++ [0])) str LIT;
  match sep with
  | Some sep => Ok (Some (sep, 2))
  | None => sep ← strchr m (str + 1) 45; Ok (match sep with Some sep => Some (sep, 1) | None => None end)
  end.
(** Both texts with one parser. *)
Definition both (parse : mem -> Z -> outcome (option Z)) (m : mem) (l r : Z) : outcome (option (Z * Z)) :=
  a ← parse m l;
  match a with
  | None => Ok None
  | Some a => b ← parse m r; Ok (match b with None => None | Some b => Some (a, b) end)
  end.
(** The ends with the parsers in the order tried. *)
Definition range_ends (m : mem) (l r : Z) : outcome (option (Z * Z)) :=
  d ← both parse_duration_internal m l r;
  match d with Some d => Ok (Some d) | None =>
  d ← both parse_data_size_internal m l r;
  match d with Some d => Ok (Some d) | None =>
  d ← both parse_fx_internal m l r;
  match d with Some (a, b) => Ok (Some (u64 a, u64 b)) | None =>
  a ← strtoull m l 0; b ← strtoull m r 0;
  let '(s, end_l) := (a : Z * Z) in
  let '(f, end_r) := (b : Z * Z) in
  if end_l =? l then Ok None else
  x ← rd m end_l; if negb (x =? 0) then Ok None else
  if end_r =? r then Ok None else
  y ← rd m end_r; Ok (if negb (y =? 0) then None else Some (s, f))
  end end end.

Definition parse_range_internal (m : mem) (str : Z) : outcome (option (Z * Z)) :=
  e ← no_text m str; if (e : bool) then Ok None else
  str ← skip_blank m str;
  b ← rd m str; if (b =? 45) || (b =? 0) then Ok None else
  sep ← find_sep m str;
  match sep with
  | None => Ok None
  | Some (sep, sep_len) =>
      fin ← rtrim m str sep;
      let left_len := fin - str in
      right_str ← skip_blank m (sep + sep_len);
      b ← rd m right_str;
      if (left_len =? 0) || (b =? 0) then Ok None else
      if 64 <=? left_len then Ok None else
      let m := put m BUF (replicate 64 0) in
      m ← CMem.memcpy m BUF str left_len;
      m ← wr m (BUF + left_len) 0;
      r ← range_ends m BUF right_str;
      Ok (match r with None => None | Some (s, f) => if f <? s then None else Some (s, f) end)
  end.

(** ** Lists *)

Definition unescape_char (b : Z) : Z :=
  if b =? 110 then 10 else if b =? 116 then 9 else if b =? 114 then 13 else b.
Definition unescape_body (fin : Z) : mem * Z * Z -> outcome (mem * Z * Z + mem) := fun '(m, dst, begin) =>
  if begin <? fin then
    b ← rd m begin;
    if (b =? 92) && (begin + 1 <? fin) then
      c ← rd m (begin + 1); m ← wr m dst (unescape_char c); Ok (inl (m, dst + 1, begin + 2))
    else m ← wr m dst b; Ok (inl (m, dst + 1, begin + 1))
  else m ← wr m dst 0; Ok (inr m).
Definition parse_unescape (m : mem) (dst begin fin : Z) : outcome mem :=
  loop (mfuel m) (unescape_body fin) (m, dst, begin).

(** The counting pass: cursor, number of items, inside quotes. *)
Definition count_body (m : mem) : Z * Z * bool -> outcome (Z * Z * bool + Z * bool) := fun '(p, count, quoted) =>
  b ← rd m p; if b =? 0 then Ok (inr (count, quoted)) else
  c ← (if b =? 92 then c ← rd m (p + 1); Ok (negb (c =? 0)) else Ok false);
  Ok (if (c : bool) then inl (p + 2, count, quoted)
      else if b =? 34 then inl (p + 1, count, negb quoted)
      else if (b =? 44) && negb quoted then inl (p + 1, count + 1, quoted)
      else inl (p + 1, count, quoted)).

(** [while (begin < end && ( *begin == ' ' || *begin == '\t')) begin++;] *)
Definition ltrim_body (m : mem) (fin begin : Z) : outcome (Z + Z) :=
  if begin <? fin then b ← rd m begin; Ok (if is_blank b then inl (begin + 1) else inr begin) else Ok (inr begin).
Definition trim (m : mem) (begin fin : Z) : outcome (Z * Z) :=
  b ← loop (mfuel m) (ltrim_body m fin) begin;
  e ← rtrim m b fin; Ok (b, e).

(** One round of the two passes over the items: the cursor, the start of the
    item and the quote state move on, or an item from [item_start] to the cursor
    is complete. *)
Inductive scan_step := Move (p : Z) (quoted : bool) | Item (last : bool) (quoted : bool).
Definition scan_char (m : mem) (p : Z) (quoted : bool) : outcome scan_step :=
  b ← rd m p;
  c ← (if b =? 92 then c ← rd m (p + 1); Ok (negb (c =? 0)) else Ok false);
  Ok (if (c : bool) then Move (p + 2) quoted
      else let quoted := if b =? 34 then negb quoted else quoted in
           if ((b =? 44) && negb quoted) || (b =? 0) then Item (b =? 0) quoted else Move (p + 1) quoted).

Definition check_body (m : mem) : Z * Z * bool -> outcome (Z * Z * bool + bool) := fun '(p, item_start, quoted) =>
  s ← scan_char m p quoted;
  match s with
  | Move p quoted => Ok (inl (p, item_start, quoted))
  | Item last quoted =>
      r ← trim m item_start p;
      let '(begin, fin) := (r : Z * Z) in
      if begin =? fin then Ok (inr false) else
      b ← rd m begin;
      c ← rd m (fin - 1);
      if (b =? 34) && ((fin - begin <? 2) || negb (c =? 34)) then Ok (inr false) else
      Ok (if (last : bool) then inr true else inl (p + 1, p + 1, quoted))
  end.

Section List.
Context `{Valloc} (vfree : mem -> Z -> mem).

Definition free_all (m : mem) (l : list Z) : mem := foldl vfree m l.

(** The building pass: memory, cursor, start of the item, quote state and the
    addresses stored in [items] so far. *)
Definition build_body (items : Z) : mem * Z * Z * bool * list Z ->
    outcome (mem * Z * Z * bool * list Z + mem * option (list Z)) := fun '(m, p, item_start, quoted, texts) =>
  s ← scan_char m p quoted;
  match s with
  | Move p quoted => Ok (inl (m, p, item_start, quoted, texts))
  | Item last quoted =>
      r ← trim m item_start p;
      let '(begin, fin) := (r : Z * Z) in
      b ← rd m begin;
      let '(begin, fin) := if b =? 34 then (begin + 1, fin - 1) else (begin, fin) in
      let '(m, text) := valloc m (u64 (fin - begin) + 1) in
      match text with
      | None => Ok (inr (vfree (free_all m texts) items, None))
      | Some text =>
          m ← parse_unescape m text begin fin;
          Ok (if (last : bool) then inr (m, Some (texts ++ [text])) else inl (m, p + 1, p + 1, quoted, texts ++ [text]))
      end
  end.

(** The memory, the verdict, and the count, array and item addresses of the
    list stored through [out].  The array [items] is allocated; the pointers in
    it are kept as the list of addresses. *)
Definition parse_list_internal (m : mem) (str : Z) (out : bool) : outcome (mem * bool * option (Z * Z * list Z)) :=
  e ← no_text m str; if (e : bool) then Ok (m, false, None) else
  c ← loop (mfuel m) (count_body m) (str, 1, false);
  let '(count, quoted) := (c : Z * bool) in
  if quoted then Ok (m, false, None) else
  v ← loop (mfuel m) (check_body m) (str, str, false);
  if negb v then Ok (m, false, None) else
  if negb out then Ok (m, true, None) else
  let '(m, items) := valloc m (8 * count) in
  match items with
  | None => Ok (m, false, None)
  | Some items =>
      r ← loop (mfuel m) (build_body items) (m, str, str, false, []);
      let '(m, texts) := (r : mem * option (list Z)) in
      match texts with
      | None => Ok (m, false, None)
      | Some texts => Ok (m, true, Some (count, items, texts))
      end
  end.
Definition parse_list_free (m : mem) (items : option Z) (texts : list Z) : mem :=
  match items with None => m | Some items => vfree (free_all m texts) items end.
End List.

(** ** The exported names *)

Definition parse_is_bool := parse_bool_internal.
Definition parse_is_data_size := parse_data_size_internal.
Definition parse_is_duration := parse_duration_internal.
Definition parse_is_cpu_mask := parse_cpu_mask_internal.

(** ** Reading a string *)

(** The longest prefix of bytes with [f], and what follows it. *)
Definition tw (f : Z -> bool) (s : list Z) : list Z := take (span f s) s.
Definition dw (f : Z -> bool) (s : list Z) : list Z := drop (span f s) s.

Lemma tw_cons f b s : tw f (b :: s) = if f b then b :: tw f s else [].
Proof. unfold tw. cbn [span]. by destruct (f b). Qed.
Lemma dw_cons f b s : dw f (b :: s) = if f b then dw f s else b :: s.
Proof. unfold dw. cbn [span]. by destruct (f b). Qed.
Lemma tw_dw f s : s = tw f s ++ dw f s.
Proof. symmetry. apply take_drop. Qed.
Lemma len_tw f s : len (tw f s) = Z.of_nat (span f s).
Proof. unfold tw. rewrite length_take. pose proof (span_le f s). lia. Qed.
Lemma dw_head f s b k : dw f s = b :: k -> f b = false.
Proof. apply span_drop. Qed.
Lemma tw_Forall f s : Forall (fun b => f b = true) (tw f s).
Proof. apply list.Forall_forall. intros b. apply span_take. Qed.
Lemma cstr_dw m p f s : cstr m p s -> cstr m (p + Z.of_nat (span f s)) (dw f s).
Proof. intros H. rewrite (tw_dw f s) in H. apply cstr_app in H. by rewrite len_tw in H. Qed.
Lemma cstr_range m p s : cstr m p s -> Forall (fun b => 0 < b < 256) s.
Proof. by intros [H _]. Qed.

(** A loop that moves a cursor over the bytes with [f]. *)
Lemma advance_loop f (body : Z -> outcome (Z + Z)) m s : f 0 = false ->
  (forall q b, rd m q = Ok b -> body q = Ok (if f b then inl (q + 1) else inr q)) ->
  forall p fuel, cstr m p s -> (length s < fuel)%nat -> loop fuel body p = Ok (p + Z.of_nat (span f s)).
Proof.
  intros H0 Hb. induction s as [|b s IH]; intros p [|fuel] H Hf; try (cbn in Hf; lia); cbn [span].
  - rewrite Z.add_0_r. apply loop_done. rewrite (Hb p 0) by (by apply cstr_nil). by rewrite H0.
  - pose proof (cstr_cons _ _ _ _ H) as (Hr & _ & _ & H'). destruct (f b) eqn:E.
    + erewrite loop_step by (rewrite (Hb p b Hr), E; done). rewrite IH by (done || (cbn in Hf; lia)). f_equal. lia.
    + rewrite Z.add_0_r. apply loop_done. by rewrite (Hb p b Hr), E.
Qed.
Lemma skip_blank_spec m p s : cstr m p s -> skip_blank m p = Ok (p + Z.of_nat (span is_blank s)).
Proof.
  intros H. apply (advance_loop is_blank _ m s); [done| |done|by eapply cstr_size].
  intros q b Hq. unfold blank_body. by rewrite Hq.
Qed.
Definition in_word (b : Z) : bool := negb (b =? 0) && negb (is_blank b).
Lemma word_spec m p s : cstr m p s -> loop (mfuel m) (word_body m) p = Ok (p + Z.of_nat (span in_word s)).
Proof.
  intros H. apply (advance_loop in_word _ m s); [done| |done|by eapply cstr_size].
  intros q b Hq. unfold word_body. by rewrite Hq.
Qed.

Lemma rd_head m p s : cstr m p s -> rd m p = Ok (hd 0 s).
Proof. intros H. destruct s; [by apply cstr_nil|]. by apply cstr_cons in H as (-> & _). Qed.
Lemma no_text_spec m p s : cstr m p s -> 0 < p -> no_text m p = Ok (bool_decide (s = [])).
Proof.
  intros H Hp. unfold no_text. rewrite (proj2 (Z.eqb_neq p 0)) by lia. rewrite (rd_head m p s H), bind_Ok. f_equal.
  destruct s as [|b s]; [done|]. apply cstr_cons in H as (_ & _ & H & _). cbn. by rewrite H.
Qed.

(** *** Digits *)

Lemma is_dec_inv b : is_dec b = true -> 48 <= b <= 57.
Proof. unfold is_dec. rewrite andb_true_iff, !Z.leb_le. done. Qed.
Lemma not_dec b : (b <? 48) || (57 <? b) = negb (is_dec b).
Proof. unfold is_dec. destruct (Z.ltb_spec b 48), (Z.ltb_spec 57 b), (Z.leb_spec 48 b), (Z.leb_spec b 57); cbn; done || lia. Qed.

(** The value of decimal digits. *)
Definition dec (acc : Z) (ds : list Z) : Z := foldl (fun a b => a * 10 + (b - 48)) acc ds.
Lemma dec_mono ds : forall acc, 0 <= acc -> Forall (fun b => is_dec b = true) ds -> acc <= dec acc ds.
Proof.
  induction ds as [|b ds IH]; intros acc Ha F; [done|]. inversion F as [|? ? Hd F']; subst. apply is_dec_inv in Hd.
  cbn. etransitivity; [|apply IH; [lia|done]]. lia.
Qed.

Lemma digits_loop m s : forall p v fuel, cstr m p s -> 0 <= v <= ULLONG_MAX -> (length s < fuel)%nat ->
  loop fuel (digits_body m) (p, v) =
    Ok (if dec v (tw is_dec s) <=? ULLONG_MAX then Some (p + Z.of_nat (span is_dec s), dec v (tw is_dec s)) else None).
Proof.
  induction s as [|b s IH]; intros p v [|fuel] H Hv Hf; try (cbn in Hf; lia).
  - apply loop_done. unfold digits_body. rewrite (cstr_nil _ _ H). cbn. rewrite Z.add_0_r.
    by rewrite (proj2 (Z.leb_le _ _)) by lia.
  - pose proof (cstr_cons _ _ _ _ H) as (Hr & Hb & _ & H'). rewrite tw_cons. cbn [span].
    destruct (is_dec b) eqn:E.
    + pose proof (is_dec_inv b E) as Hd. cbn [dec foldl]. fold (dec (v * 10 + (b - 48)) (tw is_dec s)).
      assert (Hov : ((ULLONG_MAX - (b - 48)) `div` 10 <? v) = negb (v * 10 + (b - 48) <=? ULLONG_MAX)).
      { rewrite <- (overflow_test 10 ULLONG_MAX (b - 48) v) by (unfold ULLONG_MAX in *; lia).
        by rewrite wrap_small by (unfold in_u, ULLONG_MAX in *; lia). }
      destruct (Z.leb_spec (v * 10 + (b - 48)) ULLONG_MAX) as [Hle|Hgt].
      * erewrite loop_step by (unfold digits_body; rewrite Hr, bind_Ok, E; cbv zeta; rewrite Hov; done).
        rewrite wrap_small by (unfold in_u, ULLONG_MAX in *; lia).
        rewrite IH by (done || lia || (cbn in Hf; lia)). by rewrite Nat2Z.inj_succ, <- Z.add_1_l, Z.add_assoc.
      * pose proof (dec_mono (tw is_dec s) (v * 10 + (b - 48)) ltac:(lia) (tw_Forall _ _)).
        rewrite (proj2 (Z.leb_gt _ _)) by lia. apply loop_done. unfold digits_body. rewrite Hr, bind_Ok, E. cbv zeta. by rewrite Hov.
    + apply loop_done. unfold digits_body. rewrite Hr, bind_Ok, E. cbn. rewrite Z.add_0_r. by rewrite (proj2 (Z.leb_le _ _)) by lia.
Qed.
Lemma read_digits_spec m p s : cstr m p s ->
  read_digits m p = Ok (if dec 0 (tw is_dec s) <=? ULLONG_MAX
                        then Some (p + Z.of_nat (span is_dec s), dec 0 (tw is_dec s)) else None).
Proof. intros H. apply digits_loop; [done|by vm_compute|by eapply cstr_size]. Qed.

(** ** Quantities: the reference *)

(** A quantity: blanks, decimal digits, blanks, a unit word, blanks; the value is
    the exact product and must fit 64 bits. *)
Definition quantity (unit : list Z -> option Z) (s : list Z) : option Z :=
  let s := dw is_blank s in
  let ds := tw is_dec s in
  let r := dw is_blank (dw is_dec s) in
  if bool_decide (ds = []) then None else
  if bool_decide (dw is_blank (dw in_word r) = []) then
    match unit (tw in_word r) with
    | Some k => if dec 0 ds * k <=? ULLONG_MAX then Some (dec 0 ds * k) else None
    | None => None
    end
  else None.

Definition prefix_mult (c : Z) : option Z :=
  if (c =? 75) || (c =? 107) then Some (2 ^ 10) else if (c =? 77) || (c =? 109) then Some (2 ^ 20)
  else if (c =? 71) || (c =? 103) then Some (2 ^ 30) else if (c =? 84) || (c =? 116) then Some (2 ^ 40) else None.
Definition is_b (c : Z) : bool := (c =? 98) || (c =? 66).
Definition is_i (c : Z) : bool := (c =? 105) || (c =? 73).
#[local] Arguments prefix_mult : simpl never.
#[local] Arguments is_b : simpl never.
#[local] Arguments is_i : simpl never.
#[local] Arguments is_blank : simpl never.
(** Nothing, [B], or one of [K M G T] alone or followed by [B] or [iB]. *)
Definition size_word (u : list Z) : option Z :=
  match u with
  | [] => Some 1
  | [c] => if is_b c then Some 1 else prefix_mult c
  | [c; b] => if is_b b then prefix_mult c else None
  | [c; i; b] => if is_i i && is_b b then prefix_mult c else None
  | _ => None
  end.
(** Nothing or one of the words for a unit of time, in any case. *)
Definition time_words : list (list string * Z) :=
  [(["d"; "day"; "days"], 24 * 60 * 60 * 10 ^ 9); (["h"; "hr"; "hrs"; "hour"; "hours"], 60 * 60 * 10 ^ 9);
   (["m"; "min"; "mins"; "minute"; "minutes"], 60 * 10 ^ 9); (["s"; "sec"; "secs"; "second"; "seconds"], 10 ^ 9);
   (["ms"], 10 ^ 6); (["us"], 10 ^ 3); (["ns"], 1)]%string.
Definition names (u : list Z) (terms : list string) : bool := existsb (fun t => bool_decide (map tolower u = lit t)) terms.
Fixpoint unit_named (u : list Z) (us : list (list string * Z)) : option Z :=
  match us with [] => None | (terms, k) :: us => if names u terms then Some k else unit_named u us end.
Definition duration_word (u : list Z) : option Z :=
  if bool_decide (u = []) then Some 1 else unit_named u time_words.

(** *** Units of size *)

Lemma in_word_byte b : 0 < b < 256 -> in_word b = negb (is_blank b).
Proof. intros Hb. unfold in_word. by rewrite (proj2 (Z.eqb_neq b 0)) by lia. Qed.

(** What the parser reads after a prefix letter, on the bytes that are left. *)
Definition suffix_l (r : list Z) : option (list Z) :=
  match r with
  | c :: r' =>
      if is_i c then match r' with b :: r'' => if is_b b then Some r'' else None | [] => None end
      else Some (if is_b c then r' else r)
  | [] => Some []
  end.
Lemma size_suffix_spec m p r : cstr m p r ->
  exists o, size_suffix m p = Ok o /\
    match suffix_l r with Some k => exists q, o = Some q /\ cstr m q k | None => o = None end.
Proof.
  intros H. unfold size_suffix. rewrite (rd_head m p r H), bind_Ok. destruct r as [|c r].
  - exists (Some p). split; [done|]. by exists p.
  - apply cstr_cons in H as Hc. destruct Hc as (_ & _ & _ & H'). cbn [hd suffix_l]. fold (is_i c). fold (is_b c).
    destruct (is_i c).
    + rewrite (rd_head _ _ _ H'), bind_Ok. destruct r as [|b r]; [by exists None|]. cbn [hd]. fold (is_b b).
      destruct (is_b b); [|by exists None]. exists (Some (p + 2)). split; [done|]. exists (p + 2). split; [done|].
      apply cstr_cons in H' as (_ & _ & _ & H'). by replace (p + 2) with (p + 1 + 1) by lia.
    + destruct (is_b c); [exists (Some (p + 1))|exists (Some p)]; (split; [done|]); eexists; done.
Qed.

(** Letters of units are no blanks. *)
Lemma unit_letter c : is_blank c = true -> is_b c = false /\ is_i c = false /\ prefix_mult c = None.
Proof.
  unfold is_blank. rewrite orb_true_iff, !Z.eqb_eq. intros [->| ->]; done.
Qed.
Lemma b_not_i c : is_b c = true -> is_i c = false.
Proof. unfold is_b. rewrite orb_true_iff, !Z.eqb_eq. intros [->| ->]; done. Qed.

Lemma prefix_not_b c k : prefix_mult c = Some k -> is_b c = false.
Proof.
  intros Hc. destruct (is_b c) eqn:E; [|done]. unfold is_b in E. apply orb_true_iff in E.
  rewrite !Z.eqb_eq in E. by destruct E as [->| ->].
Qed.
Lemma prefix_word_mult c k u k' : prefix_mult c = Some k -> size_word (c :: u) = Some k' -> k' = k.
Proof.
  intros Hc. destruct u as [|x [|y [|]]]; cbn; rewrite ?(prefix_not_b c k Hc), ?Hc; repeat case_match; congruence.
Qed.

Definition blank_rest (r : list Z) : bool := bool_decide (dw is_blank r = []).
Lemma blank_rest_cons c r : blank_rest (c :: r) = is_blank c && blank_rest r.
Proof. unfold blank_rest. rewrite dw_cons. by destruct (is_blank c). Qed.

(** The letter-by-letter reading of a unit is the lookup of the whole word. *)
Lemma prefix_word c k r : Forall (fun b => 0 < b < 256) r -> prefix_mult c = Some k ->
  (match suffix_l r with Some r => blank_rest r | None => false end) =
  (blank_rest (dw in_word r) && bool_decide (size_word (c :: tw in_word r) = Some k)).
Proof.
  intros F Hc. pose proof (prefix_not_b c k Hc) as Hnb.
  assert (S1 : size_word [c] = Some k) by (cbn; by rewrite Hnb).
  destruct r as [|x r]; [change (tw in_word []) with (@nil Z); by rewrite S1, bool_decide_true|]. inversion F as [|? ? Hx F1]; subst.
  rewrite tw_cons, dw_cons, in_word_byte by done. cbn [suffix_l].
  destruct (is_blank x) eqn:Bx; cbn [negb].
  { destruct (unit_letter x Bx) as (-> & -> & _). by rewrite S1, (bool_decide_true (Some k = Some k)), andb_true_r. }
  destruct (is_i x) eqn:Ix.
  - destruct r as [|y r]; [cbn; destruct (is_b x) eqn:Eb; [by rewrite (b_not_i x Eb) in Ix|done]|].
    inversion F1 as [|? ? Hy F2]; subst. rewrite tw_cons, dw_cons, in_word_byte by done.
    destruct (is_blank y) eqn:By; cbn [negb].
    { destruct (unit_letter y By) as (-> & _ & _). cbn. destruct (is_b x) eqn:Eb; [by rewrite (b_not_i x Eb) in Ix|]. by rewrite andb_false_r. }
    destruct r as [|z r]; [cbn; rewrite Ix, Hc; destruct (is_b y); [by rewrite bool_decide_true|done]|].
    inversion F2 as [|? ? Hz F3]; subst. rewrite tw_cons, dw_cons, in_word_byte by done.
    destruct (is_blank z) eqn:Bz; cbn [negb].
    + cbn. rewrite Ix, Hc. destruct (is_b y); cbn [andb]; [by rewrite bool_decide_true, andb_true_r|by rewrite andb_false_r].
    + cbn. rewrite andb_false_r. destruct (is_b y); [|done]. by rewrite blank_rest_cons, Bz.
  - destruct r as [|y r].
    { cbn. rewrite Hc. destruct (is_b x); [by rewrite bool_decide_true|]. by rewrite blank_rest_cons, Bx. }
    inversion F1 as [|? ? Hy F2]; subst. rewrite tw_cons, dw_cons, in_word_byte by done.
    destruct (is_blank y) eqn:By; cbn [negb].
    + cbn. rewrite Hc. destruct (is_b x); [by rewrite bool_decide_true, andb_true_r|]. by rewrite blank_rest_cons, Bx, andb_false_r.
    + assert (size_word (c :: x :: y :: tw in_word r) = None) as ->.
      { cbn. destruct (tw in_word r); [by rewrite Ix|done]. }
      rewrite andb_false_r. destruct (is_b x); rewrite blank_rest_cons; [by rewrite By|by rewrite Bx].
Qed.

Lemma size_unit_spec b : size_unit b =
  match prefix_mult b with
  | Some k => Some (k, true, 1)
  | None => if is_b b then Some (1, false, 1) else if b =? 0 then Some (1, false, 0) else None
  end.
Proof.
  unfold size_unit, prefix_mult, is_b. repeat (case_match; [done|]). by rewrite orb_comm.
Qed.

(** The overflow tests after the multiplication. *)
Lemma scaled v k : 0 <= v <= ULLONG_MAX -> 1 <= k ->
  (if (1 <? k) && negb (u64 (v * k) `div` k =? v) then None else Some (u64 (v * k))) =
  (if v * k <=? ULLONG_MAX then Some (v * k) else None) /\
  (if (0 <? k) && (ULLONG_MAX `div` k <? v) then None else Some (u64 (v * k))) =
  (if v * k <=? ULLONG_MAX then Some (v * k) else None).
Proof.
  intros Hv Hk. unfold ULLONG_MAX in *. rewrite (proj2 (Z.ltb_lt 0 k)) by lia. destruct (Z.leb_spec (v * k) (2 ^ 64 - 1)) as [Hle|Hgt].
  - rewrite wrap_small by (unfold in_u; nia). rewrite Z.div_mul, Z.eqb_refl, andb_false_r by lia. split; [done|].
    rewrite (proj2 (Z.ltb_ge _ v)); [done|]. apply Z.div_le_lower_bound; lia.
  - assert (1 < k) by nia. rewrite (proj2 (Z.ltb_lt 1 k)) by lia. split.
    + rewrite (proj2 (Z.eqb_neq _ v)); [done|]. unfold wrap. pose proof (Z.div_mod (v * k) (2 ^ 64) ltac:(lia)).
      pose proof (Z.div_le_lower_bound (v * k) (2 ^ 64) 1 ltac:(lia) ltac:(lia)).
      pose proof (Z.div_lt_upper_bound ((v * k) `mod` 2 ^ 64) k v ltac:(lia) ltac:(lia)). lia.
    + rewrite (proj2 (Z.ltb_lt _ v)); [done|]. apply Z.div_lt_upper_bound; lia.
Qed.

Lemma size_word_pos u k : size_word u = Some k -> 1 <= k.
Proof.
  assert (forall c, prefix_mult c = Some k -> 1 <= k) as Hp.
  { intros c. unfold prefix_mult. repeat (case_match; [intros [= <-]; lia|]). done. }
  destruct u as [|a [|b [|c [|]]]]; cbn; intros E; repeat case_match; try done; eauto; injection E; lia.
Qed.

(** The part after the number: the unit and the blanks up to the end. *)
Lemma size_tail m p r v : cstr m p r -> 0 <= v <= ULLONG_MAX -> (match r with c :: _ => is_blank c = false | [] => True end) ->
  (b ← rd m p;
   match size_unit b with
   | None => Ok None
   | Some (multiplier, has_prefix, adv) =>
       let str := p + adv in
       s ← (if (has_prefix : bool) then size_suffix m str else Ok (Some str));
       match s with
       | None => Ok None
       | Some str =>
           str ← skip_blank m str;
           b ← rd m str; if negb (b =? 0) then Ok None else
           let result := u64 (v * multiplier) in
           Ok (if (1 <? multiplier) && negb (result `div` multiplier =? v) then None else Some result)
       end
   end) =
  Ok (if blank_rest (dw in_word r) then
        match size_word (tw in_word r) with
        | Some k => if v * k <=? ULLONG_MAX then Some (v * k) else None
        | None => None
        end else None).
Proof.
  intros H Hv Hnb.
  (* the check that only blanks follow *)
  assert (Hend : forall q k (x : option Z), cstr m q k ->
    (q' ← skip_blank m q; b ← rd m q'; if negb (b =? 0) then Ok None else Ok x) = Ok (if blank_rest k then x else None)).
  { intros q k x Hq. rewrite (skip_blank_spec m q k Hq), bind_Ok. pose proof (cstr_dw m q is_blank k Hq) as Hd.
    rewrite (rd_head _ _ _ Hd), bind_Ok. unfold blank_rest. destruct (dw is_blank k) as [|c k'] eqn:E; [done|].
    apply cstr_cons in Hd as (_ & _ & Hc & _). cbn [hd]. by rewrite Hc. }
  rewrite (rd_head m p r H), bind_Ok, size_unit_spec. destruct r as [|c r].
  { cbn [hd]. change (prefix_mult 0) with (@None Z). change (is_b 0) with false. change (0 =? 0) with true. cbv iota zeta.
    rewrite bind_Ok, Z.add_0_r. rewrite (Hend p []) by done. cbn. rewrite Z.mul_1_r, (proj2 (Z.leb_le v _)) by lia.
    by rewrite wrap_small by (unfold in_u, ULLONG_MAX in *; lia). }
  cbn [hd]. pose proof (cstr_cons _ _ _ _ H) as (_ & Hc & Hcz & H'). rewrite Hcz.
  pose proof (cstr_range _ _ _ H') as F. rewrite tw_cons, dw_cons, in_word_byte, Hnb by done. cbn [negb].
  destruct (prefix_mult c) as [k|] eqn:Ec; cbv zeta.
  - pose proof (prefix_word c k r F Ec) as Hw. destruct (size_suffix_spec m (p + 1) r H') as (o & -> & Ho). rewrite bind_Ok.
    pose proof (fun k' => prefix_word_mult c k (tw in_word r) k' Ec) as Hsw.
    destruct (suffix_l r) as [r'|].
    + destruct Ho as (q & -> & Hq). rewrite (Hend q r') by done. f_equal. rewrite Hw.
      destruct (blank_rest (dw in_word r)); [|done]. cbn [andb].
      destruct (size_word (c :: tw in_word r)) as [k'|] eqn:Es.
      * rewrite (Hsw k' eq_refl), bool_decide_true by done. apply scaled; [done|]. rewrite <- (Hsw k' eq_refl). by eapply size_word_pos.
      * by rewrite bool_decide_false.
    + subst o. f_equal. symmetry in Hw. apply andb_false_iff in Hw as [->|Hw]; [done|]. apply bool_decide_eq_false in Hw.
      destruct (size_word (c :: tw in_word r)) as [k'|]; [|by destruct (blank_rest _)]. by rewrite (Hsw k' eq_refl) in Hw.
  - destruct (is_b c) eqn:Eb.
    + rewrite bind_Ok. rewrite (Hend (p + 1) r) by done. f_equal. rewrite Z.mul_1_r.
      rewrite wrap_small by (unfold in_u, ULLONG_MAX in *; lia). destruct r as [|x r].
      { cbn. rewrite Eb. by rewrite Z.mul_1_r, (proj2 (Z.leb_le v _)) by lia. }
      inversion F as [|? ? Hx F']; subst. rewrite tw_cons, dw_cons, in_word_byte by done. rewrite blank_rest_cons.
      destruct (is_blank x) eqn:Bx; cbn [negb andb].
      * rewrite blank_rest_cons, Bx. cbn. rewrite Eb. rewrite Z.mul_1_r, (proj2 (Z.leb_le v _)) by lia. done.
      * assert (size_word (c :: x :: tw in_word r) = None) as ->; [|by destruct (blank_rest _)].
        destruct (tw in_word r) as [|y [|]]; cbn; rewrite ?Ec; by repeat case_match.
    + f_equal. assert (size_word (c :: tw in_word r) = None) as ->; [|by destruct (blank_rest _)].
      destruct (tw in_word r) as [|x [|y [|]]]; cbn; rewrite ?Eb, ?Ec; by repeat case_match.
Qed.

(** The common front of the two parsers. *)
Lemma quantity_front unit (tail : Z -> Z -> outcome (option Z)) m p s : cstr m p s -> 0 < p ->
  (forall u k, unit u = Some k -> 1 <= k) ->
  (forall q r v, cstr m q r -> p <= q -> 0 <= v <= ULLONG_MAX ->
     tail q v = Ok (let r := dw is_blank r in
                    if blank_rest (dw in_word r) then
                      match unit (tw in_word r) with
                      | Some k => if v * k <=? ULLONG_MAX then Some (v * k) else None
                      | None => None
                      end else None)) ->
  (e ← no_text m p; if (e : bool) then Ok None else
   str ← skip_blank m p;
   b ← rd m str; if (b <? 48) || (57 <? b) then Ok None else
   r ← read_digits m str;
   match r with None => Ok None | Some (str, value) => tail str value end) = Ok (quantity unit s).
Proof.
  intros H Hp Hu Ht. rewrite (no_text_spec m p s H Hp), bind_Ok. case_bool_decide as Hs.
  { by subst s. }
  rewrite (skip_blank_spec m p s H), bind_Ok. pose proof (cstr_dw m p is_blank s H) as H1.
  unfold quantity. cbv zeta. set (p1 := p + _) in *. assert (p <= p1) by lia. clearbody p1.
  rewrite (rd_head _ _ _ H1), bind_Ok, not_dec. destruct (dw is_blank s) as [|b s1]; [done|]. cbn [hd].
  destruct (is_dec b) eqn:Eb; cbn [negb]; [|by rewrite tw_cons, Eb].
  rewrite (read_digits_spec m p1 _ H1), bind_Ok. rewrite (bool_decide_false (tw is_dec (b :: s1) = [])) by (by rewrite tw_cons, Eb).
  pose proof (cstr_dw m p1 is_dec _ H1) as H2. pose proof (dec_mono (tw is_dec (b :: s1)) 0 ltac:(lia) (tw_Forall _ _)) as Hd.
  destruct (Z.leb_spec (dec 0 (tw is_dec (b :: s1))) ULLONG_MAX) as [Hle|Hgt].
  - rewrite (Ht _ (dw is_dec (b :: s1))); [done|done|lia|lia].
  - f_equal. symmetry. case_bool_decide; [|done]. destruct (unit _) as [k|] eqn:Ek; [|done].
    specialize (Hu _ _ Ek). by rewrite (proj2 (Z.leb_gt _ _)) by nia.
Qed.

Lemma parse_data_size_spec m p s : cstr m p s -> 0 < p ->
  parse_data_size_internal m p = Ok (quantity size_word s).
Proof.
  intros H Hp. unfold parse_data_size_internal. apply (quantity_front size_word); [done..|apply size_word_pos|].
  intros q r v Hq Hpq Hv. rewrite (skip_blank_spec m q r Hq), bind_Ok. pose proof (cstr_dw m q is_blank r Hq) as Hr.
  cbv zeta. apply (size_tail m _ (dw is_blank r) v Hr Hv). destruct (dw is_blank r) eqn:E; [done|]. by eapply dw_head.
Qed.

(** *** Units of time *)

Lemma take_cmp (l1 l2 : list Z) n : (n <= length l1)%nat -> (n <= length l2)%nat ->
  (cmp_bytes (take n l1) (take n l2) =? 0) = bool_decide (take n l1 = take n l2).
Proof.
  intros H1 H2. apply eq_bool_prop_intro. rewrite bool_decide_spec, Is_true_true, Z.eqb_eq.
  apply cmp_bytes_0. rewrite !length_take. lia.
Qed.

Definition low_text (t : string) : bool := forallb (fun b => (0 <? b) && (b <? 256) && (tolower b =? b)) (lit t).
(** The comparison of the first bytes with a literal, as a comparison of the
    lower-case texts. *)
Lemma is_lit_spec m p s t : cstr m p s -> 0 < p -> low_text t = true -> (length (lit t) <= length s)%nat ->
  len (lit t) < 4000 ->
  is_lit m p t (len (lit t)) = Ok (bool_decide (map tolower (take (length (lit t)) s) = lit t)).
Proof.
  intros H Hp Ht Hl Hn. unfold is_lit.
  assert (Hb : Forall (fun b => 0 < b < 256 /\ tolower b = b) (lit t)).
  { apply list.Forall_forall. intros b Hb%list_elem_of_In. unfold low_text in Ht. rewrite forallb_forall in Ht.
    specialize (Ht b Hb). rewrite !andb_true_iff, !Z.ltb_lt, Z.eqb_eq in Ht. tauto. }
  assert (Hc1 : cstr (put m LIT (lit t ++ [0])) p s).
  { apply cstr_put_ne; [|done]. rewrite length_app. unfold LIT. cbn [length]. lia. }
  assert (Hc2 : cstr (put m LIT (lit t ++ [0])) LIT (lit t)).
  { apply cstr_put. eapply list.Forall_impl; [exact Hb|]. by intros b [? _]. }
  unfold strncasecmp. rewrite (strncasecmp_loop _ s (lit t) p LIT); [|done|done|unfold in_u; lia|by eapply cstr_size].
  rewrite bind_Ok, Nat2Z.id. f_equal. rewrite take_cmp by (rewrite length_map, length_app; lia).
  rewrite !firstn_map, !take_app_le, (take_ge (lit t)) by lia.
  replace (map tolower (lit t)) with (lit t); [done|]. clear -Hb. induction Hb as [|b l [_ Hb] _ IH]; [done|]. cbn. by rewrite Hb, <- IH.
Qed.

(** The comparison of a whole word with a literal of the same length. *)
Lemma word_is_lit m p u w t : cstr m p (u ++ w) -> 0 < p -> low_text t = true -> len (lit t) < 4000 ->
  (if len u =? len (lit t) then is_lit m p t (len (lit t)) else Ok false) = Ok (bool_decide (map tolower u = lit t)).
Proof.
  intros H Hp Ht Hn. destruct (Z.eqb_spec (len u) (len (lit t))) as [E|E].
  - rewrite (is_lit_spec m p (u ++ w)) by (rewrite ?length_app; done || lia).
    replace (length (lit t)) with (length u) by lia. by rewrite take_app_length.
  - f_equal. symmetry. apply bool_decide_eq_false. intros He. apply E. rewrite <- He. by rewrite length_map.
Qed.
Definition short_low (t : string) : bool := low_text t && (len (lit t) <? 4000).
Lemma short_low_inv t : short_low t = true -> low_text t = true /\ len (lit t) < 4000.
Proof. unfold short_low. by rewrite andb_true_iff, Z.ltb_lt. Qed.

Lemma one_of_spec m p u w terms : cstr m p (u ++ w) -> 0 < p -> forallb short_low terms = true ->
  one_of m p (len u) terms = Ok (names u terms).
Proof.
  intros H Hp. induction terms as [|t terms IH]; intros Ht; [done|]. cbn [one_of forallb] in *.
  apply andb_true_iff in Ht as [[Ht1 Ht2]%short_low_inv Hts]. unfold names. cbn [existsb].
  rewrite (word_is_lit m p u w t) by done. rewrite bind_Ok. destruct (bool_decide _); [done|]. cbn [orb]. by apply IH.
Qed.
Lemma any_term_spec m p u w terms : cstr m p (u ++ w) -> 0 < p -> forallb short_low terms = true ->
  any_term m p (len u) terms = Ok (names u terms).
Proof.
  intros H Hp. induction terms as [|t terms IH]; intros Ht; [done|]. cbn [any_term forallb] in *.
  apply andb_true_iff in Ht as [[Ht1 Ht2]%short_low_inv Hts]. unfold names. cbn [existsb].
  assert ((if len u =? len (lit t) then is_lit m p t (len u) else Ok false) =
          (if len u =? len (lit t) then is_lit m p t (len (lit t)) else Ok false)) as ->.
  { destruct (Z.eqb_spec (len u) (len (lit t))) as [->|]; done. }
  rewrite (word_is_lit m p u w t) by done. rewrite bind_Ok. destruct (bool_decide _); [done|]. cbn [orb]. by apply IH.
Qed.
Lemma find_unit_spec m p u w us : cstr m p (u ++ w) -> 0 < p ->
  forallb (fun e => forallb short_low e.1) us = true ->
  find_unit m p (len u) us = Ok (unit_named u us).
Proof.
  intros H Hp. induction us as [|[terms k] us IH]; intros Ht; [done|]. cbn [find_unit unit_named forallb fst] in *.
  apply andb_true_iff in Ht as [Ht Hts]. rewrite (one_of_spec m p u w) by done. rewrite bind_Ok.
  destruct (names u terms); [done|]. by apply IH.
Qed.
Lemma unit_named_pos u us k : Forall (fun e : list string * Z => 1 <= e.2) us -> unit_named u us = Some k -> 1 <= k.
Proof.
  induction 1 as [|[t k'] us Hk _ IH]; [done|]. cbn. destruct (names u t); [|done]. intros [= <-]. done.
Qed.
(** No word is in two lists, so that their order does not matter. *)
Lemma names_In u ts : names u ts = true <-> map tolower u ∈ map lit ts.
Proof. unfold names. rewrite existsb_exists, list_elem_of_fmap. split; intros (t & H1 & H2); exists t; rewrite ?bool_decide_eq_true, ?list_elem_of_In in *; done. Qed.
Lemma unit_named_In u (us : list (list string * Z)) k : NoDup (concat (map (fun e : list string * Z => map lit e.1) us)) -> unit_named u us = Some k <-> exists ts, (ts, k) ∈ us /\ names u ts = true.
Proof.
  induction us as [|[ts k'] us IH]; cbn; intros Hnd; [split; [done|]; by intros (ts & ?%elem_of_nil & _)|]. apply list.NoDup_app in Hnd as (_ & Hd & Hnd). setoid_rewrite elem_of_cons. destruct (names u ts) eqn:E.
  - split; [intros [= <-]; exists ts; by split; [left|]|]. intros (ts' & [[= -> ->]|Hin] & Hn); [done|]. exfalso. apply (Hd (map tolower u)); [by apply names_In|]. apply list_elem_of_In, in_concat. exists (map lit ts'). split; [|by apply list_elem_of_In, names_In].
    apply in_map_iff. exists (ts', k). split; [done|]. by apply list_elem_of_In.
  - rewrite IH by done. split; [intros (ts' & ? & ?); exists ts'; tauto|]. intros (ts' & [[= -> ->]|?] & ?); [congruence|by exists ts'].
Qed.
Lemma time_words_units u : unit_named u time_words = unit_named u duration_units.
Proof.
  assert (forall k, unit_named u time_words = Some k <-> unit_named u duration_units = Some k) as H.
  { intros k. rewrite !unit_named_In by (apply (bool_decide_unpack _); by vm_compute). apply exist_proper. intros ts. enough ((ts, k) ∈ time_words <-> (ts, k) ∈ duration_units) by tauto.
    unfold time_words, duration_units. rewrite !elem_of_cons. change (24 * 60 * 60 * 10 ^ 9) with (86400 * 1000000000). change (60 * 60 * 10 ^ 9) with (3600 * 1000000000). change (10 ^ 9) with 1000000000. change (10 ^ 6) with 1000000. change (10 ^ 3) with 1000. tauto. }
  destruct (unit_named u time_words) as [k|]; [symmetry; by apply H|]. destruct (unit_named u duration_units) as [k|]; [|done]. by apply H.
Qed.
Lemma duration_word_pos u k : duration_word u = Some k -> 1 <= k.
Proof.
  unfold duration_word. case_bool_decide; [intros [= <-]; lia|]. apply unit_named_pos. unfold time_words.
  repeat constructor; cbn; lia.
Qed.

Lemma parse_duration_spec m p s : cstr m p s -> 0 < p ->
  parse_duration_internal m p = Ok (quantity duration_word s).
Proof.
  intros H Hp. unfold parse_duration_internal. apply (quantity_front duration_word); [done..|apply duration_word_pos|].
  intros q r v Hq Hpq Hv. rewrite (skip_blank_spec m q r Hq), bind_Ok. pose proof (cstr_dw m q is_blank r Hq) as Hr.
  set (q1 := q + _) in *. assert (0 < q1) by lia. clearbody q1. cbv zeta. generalize dependent (dw is_blank r). clear r Hq. intros r Hr.
  rewrite (word_spec m q1 r Hr), bind_Ok. pose proof (cstr_dw m q1 in_word r Hr) as Hw.
  rewrite (skip_blank_spec _ _ _ Hw), bind_Ok, (rd_head _ _ _ (cstr_dw _ _ is_blank _ Hw)), bind_Ok.
  unfold blank_rest. destruct (dw is_blank (dw in_word r)) as [|c k] eqn:E.
  - cbn [hd]. change (0 =? 0) with true. cbn [negb]. rewrite bool_decide_true by done.
    replace (q1 + Z.of_nat (span in_word r) - q1) with (len (tw in_word r)) by (rewrite len_tw; lia).
    assert ((if len (tw in_word r) =? 0 then Ok (Some 1) else find_unit m q1 (len (tw in_word r)) duration_units) =
            Ok (duration_word (tw in_word r))) as ->.
    { unfold duration_word. rewrite (tw_dw in_word r) in Hr. destruct (tw in_word r) as [|c u]; [done|].
      rewrite (proj2 (Z.eqb_neq _ 0)) by (cbn; lia). rewrite time_words_units. apply (find_unit_spec m q1 (c :: u) (dw in_word r)); [done|done|by vm_compute]. }
    rewrite bind_Ok. f_equal. destruct (duration_word _) as [k|] eqn:Ek; [|done].
    apply scaled; [done|]. by eapply duration_word_pos.
  - pose proof (cstr_dw _ _ is_blank _ Hw) as Hd. rewrite E in Hd. apply cstr_cons in Hd as (_ & _ & Hc & _). cbn [hd].
    by rewrite Hc.
Qed.

(** *** Booleans *)

(** The text without trailing blanks. *)
Definition rt (s : list Z) : list Z := reverse (dw is_blank (reverse s)).
Lemma rt_snoc s b : rt (s ++ [b]) = if is_blank b then rt s else s ++ [b].
Proof.
  unfold rt. rewrite reverse_app. cbn [reverse rev_append app]. change (reverse [b]) with [b]. cbn [app].
  rewrite dw_cons. destruct (is_blank b); [done|]. by rewrite reverse_cons, reverse_involutive.
Qed.
Lemma rt_prefix s : exists w, s = rt s ++ w.
Proof.
  unfold rt. exists (reverse (tw is_blank (reverse s))). rewrite <- reverse_app, <- tw_dw. by rewrite reverse_involutive.
Qed.
Lemma rtrim_loop m p s : forall fuel, bytes_at m p s -> (length s < fuel)%nat ->
  loop fuel (rtrim_body m p) (p + len s) = Ok (p + len (rt s)).
Proof.
  induction s as [|b s IH] using rev_ind; intros [|fuel] H Hf; try (rewrite length_app in Hf; cbn in Hf; lia).
  - lia.
  - apply loop_done. unfold rtrim_body. by rewrite (proj2 (Z.ltb_ge p _)) by (cbn; lia).
  - apply bytes_at_app in H as [H Hb]. apply bytes_at_cons in Hb as [Hb _]. rewrite length_app in *. cbn [length] in *.
    assert (Hbody : rtrim_body m p (p + Z.of_nat (length s + 1)) =
      Ok (if is_blank b then inl (p + len s) else inr (p + Z.of_nat (length s + 1)))).
    { unfold rtrim_body. rewrite (proj2 (Z.ltb_lt p _)) by lia. replace (p + Z.of_nat (length s + 1) - 1) with (p + len s) by lia.
      unfold rd. rewrite Hb. cbn. by destruct (is_blank b). }
    rewrite rt_snoc. destruct (is_blank b).
    + erewrite loop_step by exact Hbody. apply IH; [done|lia].
    + rewrite length_app. by apply loop_done.
Qed.
Lemma rtrim_spec m p s w : cstr m p (s ++ w) -> rtrim m p (p + len s) = Ok (p + len (rt s)).
Proof.
  intros H. pose proof (cstr_size _ _ _ H) as Hs. rewrite length_app in Hs. apply rtrim_loop; [|lia].
  apply cstr_bytes in H. by apply bytes_at_app in H as [H _].
Qed.

(** The trimmed text is a word for yes or for no, in any case. *)
Definition yes_words : list string := ["1"; "on"; "y"; "yes"; "yeah"; "yup"; "ok"; "true"; "enabled"; "active"; "positive"; "allow"; "open"]%string.
Definition no_words : list string := ["0"; "off"; "n"; "no"; "nope"; "false"; "disabled"; "inactive"; "negative"; "deny"; "blocked"; "closed"]%string.
Definition bool_text (s : list Z) : option bool :=
  let u := rt (dw is_blank s) in
  if names u yes_words then Some true else if names u no_words then Some false else None.
Lemma names_perm u ts ts' : ts ≡ₚ ts' -> names u ts = names u ts'.
Proof. intros Hp. apply eq_iff_eq_true. by rewrite !names_In, Hp. Qed.
Lemma yes_terms u : names u yes_words = names u enabled_terms.
Proof. apply names_perm. apply (bool_decide_unpack _). by vm_compute. Qed.
Lemma no_terms u : names u no_words = names u disabled_terms.
Proof. apply names_perm. apply (bool_decide_unpack _). by vm_compute. Qed.

Lemma parse_bool_spec m p s : cstr m p s -> 0 < p -> parse_bool_internal m p = Ok (bool_text s).
Proof.
  intros H Hp. unfold parse_bool_internal, bool_text. rewrite (no_text_spec m p s H Hp), bind_Ok. case_bool_decide; [by subst s|].
  rewrite (skip_blank_spec m p s H), bind_Ok. pose proof (cstr_dw m p is_blank s H) as H1.
  set (p1 := p + _) in *. assert (0 < p1) by lia. clearbody p1. cbv zeta. generalize dependent (dw is_blank s). clear s H H0. intros s H.
  rewrite (rd_head _ _ _ H), bind_Ok. destruct s as [|b s]; [by vm_compute|]. cbn [hd].
  pose proof (cstr_cons _ _ _ _ H) as (_ & _ & -> & _). rewrite (strlen_spec _ _ _ H), bind_Ok.
  rewrite (rtrim_spec m p1 (b :: s) []), bind_Ok by (by rewrite app_nil_r).
  replace (p1 + len (rt (b :: s)) - p1) with (len (rt (b :: s))) by lia.
  destruct (rt_prefix (b :: s)) as [w Hw]. rewrite Hw in H. clear Hw. set (u := rt (b :: s)) in *. clearbody u.
  rewrite yes_terms, no_terms, (any_term_spec m p1 u w enabled_terms H H2), bind_Ok by (by vm_compute).
  destruct (names u enabled_terms); [done|].
  rewrite (any_term_spec m p1 u w disabled_terms H H2), bind_Ok by (by vm_compute). by destruct (names u disabled_terms).
Qed.

(** *** CPU lists *)

(** The text cut at every comma. *)
Fixpoint split_items (s : list Z) : list (list Z) :=
  match s with
  | [] => [[]]
  | b :: s =>
      if b =? 44 then [] :: split_items s
      else match split_items s with i :: rest => (b :: i) :: rest | [] => [[b]] end
  end.
(** The ends of [N] or [N-M]. *)
Definition cpu_item (i : list Z) : option (Z * Z) :=
  let a := tw is_dec i in
  if bool_decide (a = []) then None else
  match dw is_dec i with
  | [] => Some (dec 0 a, dec 0 a)
  | c :: r =>
      if (c =? 45) && bool_decide (r <> []) && bool_decide (dw is_dec r = []) then Some (dec 0 a, dec 0 r) else None
  end.
Definition item_ok (cpu_count : Z) (i : list Z) : bool :=
  match cpu_item i with Some (a, b) => (a <=? b) && (b <? cpu_count) | None => false end.

Definition not_comma (b : Z) : bool := negb (b =? 44).
Lemma split_items_step s : split_items s =
  tw not_comma s :: match dw not_comma s with [] => [] | _ :: r => split_items r end.
Proof.
  induction s as [|b s IH]; [done|]. cbn [split_items]. rewrite tw_cons, dw_cons. unfold not_comma at 1 3.
  destruct (b =? 44); cbn [negb]; [done|]. by rewrite IH.
Qed.
Lemma tw_tw (f g : Z -> bool) s : (forall b, f b = true -> g b = true) ->
  tw f (tw g s) = tw f s /\ dw f (tw g s) = tw g (dw f s) /\ dw g s = dw g (dw f s).
Proof.
  intros Hfg. induction s as [|b s (IH1 & IH2 & IH3)]; [done|]. rewrite !tw_cons, !dw_cons.
  destruct (f b) eqn:Ef.
  - rewrite (Hfg b Ef), tw_cons, dw_cons, Ef, IH1. done.
  - rewrite tw_cons, dw_cons. destruct (g b); [|done]. by rewrite tw_cons, dw_cons, Ef.
Qed.
Lemma dec_not_comma b : is_dec b = true -> not_comma b = true.
Proof. intros Hb%is_dec_inv. unfold not_comma. by rewrite (proj2 (Z.eqb_neq b 44)) by lia. Qed.
Definition cpu_tw s := tw_tw is_dec not_comma s dec_not_comma.

(** The first item of a text, in terms of the digits at its start. *)
Lemma cpu_item_first s : cpu_item (tw not_comma s) =
  if bool_decide (tw is_dec s = []) then None else
  match dw is_dec s with
  | [] => Some (dec 0 (tw is_dec s), dec 0 (tw is_dec s))
  | c :: r =>
      if c =? 44 then Some (dec 0 (tw is_dec s), dec 0 (tw is_dec s))
      else if (c =? 45) && bool_decide (tw is_dec r <> []) && bool_decide (tw not_comma (dw is_dec r) = [])
      then Some (dec 0 (tw is_dec s), dec 0 (tw is_dec r)) else None
  end.
Proof.
  unfold cpu_item. destruct (cpu_tw s) as (-> & -> & _). cbv zeta. destruct (bool_decide _); [done|].
  destruct (dw is_dec s) as [|c r]; [done|]. rewrite tw_cons. unfold not_comma at 1. destruct (c =? 44); [done|]. cbn [negb].
  destruct (c =? 45); [|done]. cbn [andb]. destruct (cpu_tw r) as (Ht & Hd & _).
  destruct (bool_decide_reflect (tw not_comma (dw is_dec r) = [])) as [E|E].
  - rewrite (bool_decide_true (dw is_dec (tw not_comma r) = [])) by (by rewrite Hd).
    assert (tw not_comma r = tw is_dec r) as ->; [|done].
    rewrite (tw_dw is_dec (tw not_comma r)), Ht, Hd, E. apply app_nil_r.
  - rewrite (bool_decide_false (dw is_dec (tw not_comma r) = [])) by (by rewrite Hd). by rewrite !andb_false_r.
Qed.

Lemma item_over a b cc : ULLONG_MAX < a -> cc <= ULLONG_MAX -> (a <=? b) && (b <? cc) = false.
Proof. intros Ha Hc. destruct (Z.leb_spec a b), (Z.ltb_spec b cc); done || lia. Qed.

(** An item read from memory: what the cursor is left at decides whether the
    item is the whole text up to the next comma. *)
Lemma read_cpus_spec m p s : cstr m p s ->
  exists o, read_cpus m p = Ok o /\
    match o with
    | None => forall cc, cc <= ULLONG_MAX -> item_ok cc (tw not_comma s) = false
    | Some (q, a, b) => exists k, cstr m q k /\ (0 <= a <= ULLONG_MAX) /\ (0 <= b <= ULLONG_MAX) /\
        dw not_comma s = dw not_comma k /\ (length k < length s)%nat /\
        match k with
        | c :: _ => if c =? 44 then cpu_item (tw not_comma s) = Some (a, b) else cpu_item (tw not_comma s) = None
        | [] => cpu_item (tw not_comma s) = Some (a, b)
        end
    end.
Proof.
  intros H. unfold read_cpus. rewrite (rd_head _ _ _ H), bind_Ok, not_dec.
  assert (Hpos : forall l, 0 <= dec 0 (tw is_dec l)) by (intros l; apply dec_mono; [lia|apply tw_Forall]).
  destruct (is_dec (hd 0 s)) eqn:E0; cbn [negb].
  2: { exists None. split; [done|]. intros cc _. unfold item_ok. rewrite cpu_item_first.
       rewrite bool_decide_true; [done|]. destruct s as [|b s]; [done|]. cbn in E0. by rewrite tw_cons, E0. }
  assert (Hne : tw is_dec s <> []) by (destruct s; [done|cbn in E0; by rewrite tw_cons, E0]).
  rewrite (read_digits_spec m p s H), bind_Ok. pose proof (cstr_dw m p is_dec s H) as H1.
  assert (Hlen : (length (dw is_dec s) < length s)%nat).
  { rewrite (tw_dw is_dec s) at 2. rewrite length_app. destruct (tw is_dec s); [done|cbn; lia]. }
  pose proof (proj2 (proj2 (cpu_tw s))) as Hdw.
  assert (Hitem := cpu_item_first s). rewrite bool_decide_false in Hitem by done.
  destruct (Z.leb_spec (dec 0 (tw is_dec s)) ULLONG_MAX) as [Ha|Ha].
  2: { exists None. split; [done|]. intros cc Hcc. unfold item_ok. rewrite Hitem.
       destruct (dw is_dec s) as [|c r]; [|destruct (c =? 44); [|destruct (_ && _)]]; try done; by apply item_over. }
  set (q := p + Z.of_nat (span is_dec s)) in *. clearbody q. rewrite (rd_head _ _ _ H1), bind_Ok.
  destruct (dw is_dec s) as [|c r] eqn:Er.
  { cbn. exists (Some (q, dec 0 (tw is_dec s), dec 0 (tw is_dec s))). split; [done|]. exists []. by specialize (Hpos s). }
  cbn [hd]. destruct (Z.eqb_spec c 45) as [->|Hc].
  - apply cstr_cons in H1 as (_ & _ & _ & H2). cbn in Hitem.
    rewrite (rd_head _ _ _ H2), bind_Ok, not_dec. destruct (is_dec (hd 0 r)) eqn:E1; cbn [negb].
    2: { exists None. split; [done|]. intros cc _. unfold item_ok. rewrite Hitem.
         rewrite bool_decide_false; [done|]. intros Hx; apply Hx. destruct r as [|b r]; [done|]. cbn in E1. by rewrite tw_cons, E1. }
    assert (Hne1 : tw is_dec r <> []) by (destruct r; [done|cbn in E1; by rewrite tw_cons, E1]).
    rewrite bool_decide_true in Hitem by done. cbn [andb] in Hitem.
    rewrite (read_digits_spec _ _ r H2), bind_Ok. pose proof (cstr_dw _ _ is_dec r H2) as H3.
    destruct (Z.leb_spec (dec 0 (tw is_dec r)) ULLONG_MAX) as [Hb|Hb].
    2: { exists None. split; [done|]. intros cc Hcc. unfold item_ok. rewrite Hitem. destruct (bool_decide _); [|done].
         apply andb_false_iff. right. apply Z.ltb_ge. lia. }
    eexists. split; [done|]. exists (dw is_dec r). split_and!; [done|by specialize (Hpos s)|done|by specialize (Hpos r)|done| | |].
    + rewrite Hdw, dw_cons. cbn. apply (cpu_tw r).
    + rewrite (tw_dw is_dec r) in Hlen. cbn in Hlen. rewrite length_app in Hlen. lia.
    + rewrite Hitem. destruct (dw is_dec r) as [|x k]; [done|]. rewrite tw_cons. unfold not_comma. destruct (x =? 44); done.
  - eexists. split; [done|]. exists (c :: r). specialize (Hpos s). split_and!; [done..|].
    rewrite Hitem. by destruct (c =? 44).
Qed.

Lemma validate_loop m cc : cc <= ULLONG_MAX -> forall n s p fuel, (length s < n)%nat -> cstr m p s -> (length s < fuel)%nat ->
  loop fuel (validate_body m cc) p = Ok (bool_decide (s = []) || forallb (item_ok cc) (split_items s)).
Proof.
  intros Hcc. induction n as [|n IH]; intros s p [|fuel] Hn H Hf; try lia.
  destruct s as [|b s]; [apply loop_done; unfold validate_body; by rewrite (cstr_nil _ _ H)|].
  rewrite bool_decide_false by done. cbn [orb]. rewrite split_items_step. cbn [forallb].
  pose proof (cstr_cons _ _ _ _ H) as (Hr & _ & Hbz & _).
  destruct (read_cpus_spec m p (b :: s) H) as ([[[q x] y]|] & E & Ho).
  2: { rewrite (Ho cc Hcc). apply loop_done. unfold validate_body. rewrite Hr, bind_Ok, Hbz, E, bind_Ok. done. }
  destruct Ho as (k & Hk & Hx & Hy & Hd & Hl & Hi). cbn [length] in *.
  assert (Hv : validate_body m cc p = if (y <? x) || (cc <=? y) then Ok (inr false) else
    if hd 0 k =? 44 then c ← rd m (q + 1); Ok (if c =? 0 then inr false else inl (q + 1))
    else Ok (if negb (hd 0 k =? 0) then inr false else inl q)).
  { unfold validate_body. rewrite Hr, bind_Ok, Hbz, E, bind_Ok. by rewrite (rd_head _ _ _ Hk). }
  unfold item_ok at 1. rewrite Hd.
  assert (Hxy : (y <? x) || (cc <=? y) = negb ((x <=? y) && (y <? cc))) 
    by (destruct (Z.ltb_spec y x), (Z.leb_spec cc y), (Z.leb_spec x y), (Z.ltb_spec y cc); cbn; done || lia).
  destruct k as [|c k]; cbn [hd] in Hv.
  - change (0 =? 44) with false in Hv. change (0 =? 0) with true in Hv. cbn [negb] in Hv. rewrite Hi.
    change (dw not_comma []) with (@nil Z). cbn [forallb]. rewrite andb_true_r.
    destruct ((x <=? y) && (y <? cc)); rewrite Hxy in Hv; cbn [negb] in Hv; [|by apply loop_done].
    erewrite loop_step by exact Hv. rewrite (IH [] q fuel); [done|cbn; lia|done|cbn in *; lia].
  - rewrite dw_cons. change (not_comma c) with (negb (c =? 44)). destruct (Z.eqb_spec c 44) as [->|Hc]; cbn [negb].
    + rewrite Hi. destruct ((x <=? y) && (y <? cc)); rewrite Hxy in Hv; cbn [negb] in Hv; [|by apply loop_done].
      apply cstr_cons in Hk as (_ & _ & _ & Hk'). rewrite (rd_head _ _ _ Hk'), bind_Ok in Hv. cbn [length andb] in *.
      destruct k as [|z k]; [by apply loop_done|]. cbn [hd] in Hv.
      pose proof (cstr_cons _ _ _ _ Hk') as (_ & _ & Hz & _). rewrite Hz in Hv. erewrite loop_step by exact Hv.
      rewrite (IH (z :: k) (q + 1) fuel); [done|lia|done|lia].
    + rewrite Hi. apply cstr_cons in Hk as (_ & _ & Hcz & _). rewrite Hcz in Hv. cbn [negb] in Hv. cbn [andb].
      apply loop_done. rewrite Hv. by destruct (_ || _).
Qed.

(** *** The second pass *)

Lemma plain_loop m s : forall p v fuel, cstr m p s -> 0 <= v -> dec v (tw is_dec s) <= ULLONG_MAX -> (length s < fuel)%nat ->
  loop fuel (plain_body m) (p, v) = Ok (p + Z.of_nat (span is_dec s), dec v (tw is_dec s)).
Proof.
  induction s as [|b s IH]; intros p v [|fuel] H Hv Hd Hf; try (cbn in Hf; lia).
  - apply loop_done. unfold plain_body. rewrite (cstr_nil _ _ H). cbn. by rewrite Z.add_0_r.
  - pose proof (cstr_cons _ _ _ _ H) as (Hr & _ & _ & H'). rewrite tw_cons in *. cbn [span]. destruct (is_dec b) eqn:E.
    + pose proof (is_dec_inv b E). cbn [dec foldl] in *. fold (dec (v * 10 + (b - 48)) (tw is_dec s)) in *.
      pose proof (dec_mono (tw is_dec s) (v * 10 + (b - 48)) ltac:(lia) (tw_Forall _ _)).
      erewrite loop_step by (unfold plain_body; rewrite Hr, bind_Ok, E; done).
      rewrite wrap_small by (unfold in_u, ULLONG_MAX in *; lia). rewrite IH by (done || lia || (cbn in Hf; lia)).
      by rewrite Nat2Z.inj_succ, <- Z.add_1_l, Z.add_assoc.
    + apply loop_done. unfold plain_body. rewrite Hr, bind_Ok, E. cbn. by rewrite Z.add_0_r.
Qed.

Lemma cpu_mask_set_repr mask S cpu : repr mask CPU_MASK_BITS S -> 0 <= cpu ->
  exists mask', cpu_mask_set mask cpu = Ok mask' /\
    repr mask' CPU_MASK_BITS (if cpu <? CPU_MASK_BITS then {[cpu]} ∪ S else S).
Proof.
  intros H Hc. unfold cpu_mask_set, cpu_guard. destruct (Z.ltb_spec cpu CPU_MASK_BITS); [|by exists mask].
  apply repr_set; [done|lia].
Qed.
Lemma set_cpus_spec n : forall i mask S, repr mask CPU_MASK_BITS S -> 0 <= i ->
  exists mask' S', set_cpus n i mask = Ok mask' /\ repr mask' CPU_MASK_BITS S' /\
    forall c, c ∈ S' <-> c ∈ S \/ (i <= c < i + Z.of_nat n /\ c < CPU_MASK_BITS).
Proof.
  induction n as [|n IH]; intros i mask S H Hi; cbn [set_cpus].
  - exists mask, S. split_and!; [done..|]. intros c. split; [tauto|]. intros [?|?]; [done|lia].
  - destruct (cpu_mask_set_repr mask S i H Hi) as (mask1 & -> & H1). rewrite bind_Ok.
    destruct (IH (i + 1) mask1 _ H1 ltac:(lia)) as (mask' & S' & -> & H' & Hs). exists mask', S'. split_and!; [done..|].
    intros c. rewrite Hs. destruct (Z.ltb_spec i CPU_MASK_BITS); rewrite ?elem_of_union, ?elem_of_singleton.
    + split; [intros [[->|?]|?]; [right; lia|tauto|right; lia]|]. intros [?|?]; [tauto|].
      destruct (decide (c = i)); [tauto|right; lia].
    + split; [intros [?|?]; [tauto|right; lia]|]. intros [?|?]; [tauto|right; lia].
Qed.

(** The text after the next comma. *)
Definition after_item (s : list Z) : list Z := match dw not_comma s with [] => [] | _ :: r => r end.

Lemma populate_step m p s mask a b : cstr m p s -> cpu_item (tw not_comma s) = Some (a, b) ->
  a <= ULLONG_MAX -> b <= ULLONG_MAX ->
  exists q, cstr m q (after_item s) /\
    populate_body m (p, mask) = mask' ← set_cpus (Z.to_nat (b + 1 - a)) a mask; Ok (inl (q, mask')).
Proof.
  intros H Hi Ha Hb. rewrite cpu_item_first in Hi. case_bool_decide as Hne; [done|].
  pose proof (cstr_dw m p is_dec s H) as H1. pose proof (proj2 (proj2 (cpu_tw s))) as Hd.
  assert (Hs : rd m p = Ok (hd 0 s) /\ (hd 0 s =? 0) = false).
  { split; [by apply rd_head|]. destruct s; [done|]. cbn [hd]. by apply cstr_cons in H as (_ & _ & -> & _). }
  destruct Hs as [Hr Hz]. unfold populate_body. rewrite Hr, bind_Ok, Hz.
  assert (Hdig : forall l q, cstr m q l -> dec 0 (tw is_dec l) <= ULLONG_MAX ->
    loop (mfuel m) (plain_body m) (q, 0) = Ok (q + Z.of_nat (span is_dec l), dec 0 (tw is_dec l))).
  { intros l q Hl Hle. apply plain_loop; [done|done|done|by eapply cstr_size]. }
  assert (Hlast : forall q k, cstr m q k -> dw not_comma s = k -> match k with c :: _ => c = 44 | [] => True end ->
    exists q', cstr m q' (after_item s) /\
      forall mk, (c ← rd m q; Ok (inl (if c =? 44 then q + 1 else q, mk))) = Ok (inl (q', mk)) :> outcome (Z * list Z + list Z)).
  { intros q k Hk Hdk Hc. unfold after_item. rewrite Hdk, (rd_head _ _ _ Hk). destruct k as [|c k].
    - exists q. by split.
    - subst c. exists (q + 1). apply cstr_cons in Hk as (_ & _ & _ & Hk). by split. }
  unfold after_item in *. destruct (dw is_dec s) as [|c r] eqn:Er.
  - injection Hi as <- <-. rewrite (Hdig s p H Ha), bind_Ok, (rd_head _ _ _ H1), bind_Ok. cbn [hd]. change (0 =? 45) with false. cbv iota.
    rewrite bind_Ok. destruct (Hlast _ _ H1) as (q' & Hq & Hm); [done|done|]. exists q'. split; [done|].
    destruct (set_cpus _ _ _); [|done..]. cbn. apply Hm.
  - destruct (Z.eqb_spec c 44) as [->|Hc].
    + injection Hi as <- <-. rewrite (Hdig s p H Ha), bind_Ok, (rd_head _ _ _ H1), bind_Ok. cbn [hd]. change (44 =? 45) with false. cbv iota.
      rewrite bind_Ok. destruct (Hlast _ _ H1) as (q' & Hq & Hm); [by rewrite Hd, dw_cons|done|]. exists q'. split; [done|].
      destruct (set_cpus _ _ _); [|done..]. cbn. apply Hm.
    + destruct (Z.eqb_spec c 45) as [->|]; [|done]. cbn [andb] in Hi. case_bool_decide as Hne1; [|done].
      case_bool_decide as Hnc; [|done]. cbn [andb] in Hi. injection Hi as <- <-.
      apply cstr_cons in H1 as H1'. destruct H1' as (_ & _ & _ & H2). pose proof (cstr_dw _ _ is_dec r H2) as H3.
      rewrite (Hdig s p H Ha), bind_Ok, (rd_head _ _ _ H1), bind_Ok. cbn [hd]. change (45 =? 45) with true. cbv iota.
      rewrite (Hdig r _ H2 Hb), bind_Ok. destruct (Hlast _ _ H3) as (q' & Hq & Hm).
      * rewrite Hd, dw_cons. cbn. rewrite (proj2 (proj2 (cpu_tw r))). destruct (dw is_dec r) as [|x k]; [done|].
        rewrite tw_cons in Hnc. rewrite dw_cons. by destruct (not_comma x).
      * destruct (dw is_dec r) as [|x k]; [done|]. rewrite tw_cons in Hnc. unfold not_comma in Hnc.
        destruct (Z.eqb_spec x 44); done.
      * exists q'. split; [done|]. destruct (set_cpus _ _ _); [|done..]. cbn. apply Hm.
Qed.

(** The CPUs a list names. *)
Definition named (s : list Z) (c : Z) : Prop :=
  exists i a b, i ∈ split_items s /\ cpu_item i = Some (a, b) /\ a <= c <= b.

Lemma cpu_item_pos i a b : cpu_item i = Some (a, b) -> 0 <= a.
Proof.
  unfold cpu_item. cbv zeta. case_bool_decide; [done|].
  pose proof (dec_mono (tw is_dec i) 0 ltac:(lia) (tw_Forall _ _)). repeat case_match; naive_solver.
Qed.
Lemma populate_loop m cc : cc <= ULLONG_MAX -> forall n s p mask S fuel, (length s < n)%nat -> cstr m p s ->
  repr mask CPU_MASK_BITS S -> (s <> [] -> forallb (item_ok cc) (split_items s) = true) -> (length s < fuel)%nat ->
  exists mask' S', loop fuel (populate_body m) (p, mask) = Ok mask' /\ repr mask' CPU_MASK_BITS S' /\
    forall c, c ∈ S' <-> c ∈ S \/ (s <> [] /\ named s c /\ c < CPU_MASK_BITS).
Proof.
  intros Hcc. induction n as [|n IH]; intros s p mask S [|fuel] Hn H HS Hok Hf; try lia.
  destruct s as [|b0 s].
  { exists mask, S. split_and!; [|done|intros c; naive_solver]. apply loop_done. unfold populate_body. by rewrite (cstr_nil _ _ H). }
  specialize (Hok ltac:(done)). rewrite split_items_step in Hok. cbn [forallb] in Hok. apply andb_true_iff in Hok as [Hi Hrest].
  unfold item_ok in Hi. destruct (cpu_item (tw not_comma (b0 :: s))) as [[a b]|] eqn:Ei; [|done].
  apply andb_true_iff in Hi as [Hab Hbc]. apply Z.leb_le in Hab. apply Z.ltb_lt in Hbc.
  pose proof (cpu_item_pos _ _ _ Ei) as Ha0.
  destruct (populate_step m p (b0 :: s) mask a b H Ei ltac:(lia) ltac:(lia)) as (q & Hq & Hstep).
  destruct (set_cpus_spec (Z.to_nat (b + 1 - a)) a mask S HS Ha0) as (mask1 & S1 & E1 & HS1 & Hin1). rewrite E1, bind_Ok in Hstep.
  assert (Hla : (length (after_item (b0 :: s)) <= length s)%nat).
  { unfold after_item. pose proof (f_equal length (tw_dw not_comma (b0 :: s))) as Hl. rewrite length_app in Hl.
    destruct (dw not_comma (b0 :: s)); cbn in *; lia. }
  destruct (IH (after_item (b0 :: s)) q mask1 S1 fuel) as (mask' & S' & E' & HS' & Hin'); [cbn in *; lia|done|done| |cbn in *; lia|].
  { intros Hne. unfold after_item in *. by destruct (dw not_comma (b0 :: s)). }
  exists mask', S'. split_and!; [by erewrite loop_step by exact Hstep|done|]. intros c. rewrite Hin', Hin1.
  assert (Hnamed : named (b0 :: s) c <-> a <= c <= b \/ (after_item (b0 :: s) <> [] /\ named (after_item (b0 :: s)) c)).
  { unfold named, after_item. rewrite split_items_step. split.
    - intros (i & x & y & [->|Hin]%elem_of_cons & Hxy & Hc); [rewrite Ei in Hxy; left; naive_solver|].
      destruct (dw not_comma (b0 :: s)) as [|z r]; [by apply elem_of_nil in Hin|]. right. split; [|by exists i, x, y].
      intros ->. cbn in Hin. apply list_elem_of_singleton in Hin. by subst i.
    - intros [Hc|[Hne (i & x & y & Hin & Hxy & Hc)]]; [exists (tw not_comma (b0 :: s)), a, b; split; [by left|done]|].
      destruct (dw not_comma (b0 :: s)) as [|z r]; [done|]. exists i, x, y. split; [by right|done]. }
  rewrite Hnamed. split.
  - intros [[?|?]|?]; [tauto|right; split_and!; [done|left; lia|lia]|right; split_and!; [done|right; tauto|tauto]].
  - intros [?|(_ & [?|?] & ?)]; [tauto| |tauto]. left. right. lia.
Qed.

(** *** Lists *)

Definition push (b : Z) (l : list (list Z)) : list (list Z) :=
  match l with i :: r => (b :: i) :: r | [] => [[b]] end.
(** The text cut at the commas outside quotes; a backslash takes the next byte
    with it. *)
Fixpoint cut (q : bool) (s : list Z) : list (list Z) :=
  match s with
  | [] => [[]]
  | b :: s1 =>
      let plain := let q := if b =? 34 then negb q else q in
                   if (b =? 44) && negb q then [] :: cut q s1 else push b (cut q s1) in
      match s1 with c :: s2 => if b =? 92 then push b (push c (cut q s2)) else plain | [] => plain end
  end.
(** Whether a quote is left open. *)
Fixpoint open_quote (q : bool) (s : list Z) : bool :=
  match s with
  | [] => q
  | b :: s1 =>
      let plain := open_quote (if b =? 34 then negb q else q) s1 in
      match s1 with _ :: s2 => if b =? 92 then open_quote q s2 else plain | [] => plain end
  end.
Definition trimmed (i : list Z) : list Z := rt (dw is_blank i).
(** An item is not blank, and a quote at its start is closed at its end. *)
Definition item_valid (i : list Z) : bool :=
  let t := trimmed i in
  bool_decide (t <> []) &&
  negb ((hd 0 t =? 34) && ((len t <? 2) || negb (default 0 (list.last t) =? 34))).
Definition unquote (t : list Z) : list Z := if hd 0 t =? 34 then take (length t - 2) (drop 1 t) else t.
Fixpoint unescape (l : list Z) : list Z :=
  match l with
  | [] => []
  | b :: l1 =>
      match l1 with
      | c :: l2 => if b =? 92 then unescape_char c :: unescape l2 else b :: unescape l1
      | [] => [b]
      end
  end.
Definition item_text (i : list Z) : list Z := unescape (unquote (trimmed i)).

Lemma push_cons b l : exists i r, push b l = i :: r.
Proof. destruct l; by eexists _, _. Qed.
Lemma cut_cons q s : exists i r, cut q s = i :: r.
Proof.
  destruct s as [|b [|c s]]; [by eexists _, _|..]; cbn [cut]; repeat case_match; (apply push_cons || by eexists _, _).
Qed.

(** What the loops do at the head of the text: skip an escaped byte, or take one
    byte in the quote state it leaves. *)
Definition escaped (s : list Z) : bool := match s with b :: _ :: _ => b =? 92 | _ => false end.
Definition quote_after (q : bool) (b : Z) : bool := if b =? 34 then negb q else q.
Lemma cut_escaped q s : escaped s = true ->
  exists b c s2, s = b :: c :: s2 /\ cut q s = push b (push c (cut q s2)) /\ open_quote q s = open_quote q s2.
Proof.
  destruct s as [|b [|c s2]]; [done..|]. intros Hb. exists b, c, s2. cbn [escaped] in Hb. split; [done|].
  cbn [cut open_quote]. by rewrite Hb.
Qed.
Lemma cut_plain q b s : escaped (b :: s) = false ->
  cut q (b :: s) = (if (b =? 44) && negb (quote_after q b) then [] :: cut (quote_after q b) s
                    else push b (cut (quote_after q b) s)) /\
  open_quote q (b :: s) = open_quote (quote_after q b) s.
Proof.
  intros He. destruct s as [|c s]; [done|]. cbn [escaped] in He. cbn [cut open_quote]. by rewrite He.
Qed.
Lemma rd_escape m p b s : cstr m p (b :: s) ->
  (if b =? 92 then c ← rd m (p + 1); Ok (negb (c =? 0)) else Ok false) = Ok (escaped (b :: s)).
Proof.
  intros H. apply cstr_cons in H as (_ & _ & _ & H). cbn [escaped]. destruct (b =? 92) eqn:E.
  - rewrite (rd_head _ _ _ H), bind_Ok. destruct s as [|c s]; [done|]. apply cstr_cons in H as (_ & _ & Hc & _). cbn [hd]. by rewrite Hc.
  - by destruct s.
Qed.
Lemma scan_char_spec m p s q : cstr m p s ->
  scan_char m p q = Ok (match s with
    | [] => Item true q
    | b :: _ => if escaped s then Move (p + 2) q
                else if (b =? 44) && negb (quote_after q b) then Item false (quote_after q b) else Move (p + 1) (quote_after q b)
    end).
Proof.
  intros H. unfold scan_char. rewrite (rd_head _ _ _ H), bind_Ok. destruct s as [|b s]; [by destruct q|]. cbn [hd].
  rewrite (rd_escape m p b s H), bind_Ok. pose proof (cstr_cons _ _ _ _ H) as (_ & _ & Hz & _).
  destruct (escaped (b :: s)); [done|]. cbv zeta. fold (quote_after q b). rewrite Hz, orb_false_r. done.
Qed.

Lemma length_push b l : l <> [] -> length (push b l) = length l.
Proof. by destruct l. Qed.
Lemma cut_ne q s : cut q s <> [].
Proof. destruct (cut_cons q s) as (i & r & ->). done. Qed.
#[local] Hint Resolve cut_ne : core.
Lemma push_ne b l : push b l <> [].
Proof. by destruct l. Qed.
#[local] Hint Resolve push_ne : core.

Lemma count_loop m : forall n s p c q fuel, (length s < n)%nat -> cstr m p s -> (length s < fuel)%nat ->
  loop fuel (count_body m) (p, c, q) = Ok (c + Z.of_nat (length (cut q s)) - 1, open_quote q s).
Proof.
  induction n as [|n IH]; intros s p c q [|fuel] Hn H Hf; try lia. destruct s as [|b s].
  { apply loop_done. unfold count_body. rewrite (cstr_nil _ _ H). cbn. do 2 f_equal. f_equal. lia. }
  pose proof (cstr_cons _ _ _ _ H) as (Hr & _ & Hz & H'). pose proof (rd_escape m p b s H) as He.
  destruct (escaped (b :: s)) eqn:E.
  - destruct (cut_escaped q _ E) as (? & x & s2 & [= <- ->] & -> & ->). cbn [length] in *.
    erewrite loop_step by (unfold count_body; rewrite Hr, bind_Ok, Hz, He, bind_Ok; done).
    apply cstr_cons in H' as (_ & _ & _ & H2). replace (p + 1 + 1) with (p + 2) in H2 by lia.
    rewrite (IH s2) by (done || lia). by rewrite !length_push by auto.
  - destruct (cut_plain q b s E) as [-> ->]. cbn [length] in *.
    assert (Hb : count_body m (p, c, q) =
      Ok (inl (p + 1, if (b =? 44) && negb (quote_after q b) then c + 1 else c, quote_after q b))).
    { unfold count_body. rewrite Hr, bind_Ok, Hz, He, bind_Ok. unfold quote_after. destruct (Z.eqb_spec b 34) as [->|]; [done|].
      by destruct ((b =? 44) && negb q). }
    erewrite loop_step by exact Hb. rewrite (IH s) by (done || lia).
    destruct ((b =? 44) && _); [cbn [length]; do 2 f_equal; lia|]. by rewrite length_push by auto.
Qed.

(** The item from [st] on that the cursor has passed over. *)
Definition prepend (pre : list Z) (l : list (list Z)) : list (list Z) :=
  match l with i :: r => (pre ++ i) :: r | [] => [pre] end.
Lemma prepend_push pre b l : l <> [] -> prepend pre (push b l) = prepend (pre ++ [b]) l.
Proof. destruct l as [|i r]; [done|]. intros _. cbn. by rewrite <- (assoc (++)). Qed.

Lemma ltrim_loop m raw : forall st fuel, bytes_at m st raw -> (length raw < fuel)%nat ->
  loop fuel (ltrim_body m (st + len raw)) st = Ok (st + Z.of_nat (span is_blank raw)).
Proof.
  induction raw as [|b raw IH]; intros st [|fuel] H Hf; try (cbn in Hf; lia).
  - apply loop_done. unfold ltrim_body. rewrite (proj2 (Z.ltb_ge st _)) by (cbn; lia). cbn. by rewrite Z.add_0_r.
  - apply bytes_at_cons in H as [Hb H]. cbn [length span] in *.
    assert (Hbody : ltrim_body m (st + Z.of_nat (S (length raw))) st = Ok (if is_blank b then inl (st + 1) else inr st)).
    { unfold ltrim_body. rewrite (proj2 (Z.ltb_lt st _)) by lia. unfold rd. by rewrite Hb. }
    destruct (is_blank b).
    + erewrite loop_step by exact Hbody. replace (st + Z.of_nat (S (length raw))) with (st + 1 + len raw) by lia.
      rewrite IH by (done || lia). f_equal. lia.
    + rewrite Z.add_0_r. by apply loop_done.
Qed.
Lemma trim_spec m st raw : bytes_at m st raw ->
  exists b, trim m st (st + len raw) = Ok (b, b + len (trimmed raw)) /\ bytes_at m b (trimmed raw) /\ st <= b.
Proof.
  intros H. pose proof (bytes_at_size _ _ _ H) as Hs. unfold trim.
  rewrite ltrim_loop by (done || (unfold mfuel; lia)). rewrite bind_Ok. exists (st + Z.of_nat (span is_blank raw)).
  rewrite (tw_dw is_blank raw) in H. apply bytes_at_app in H as [_ H]. rewrite len_tw in H.
  assert (len raw = Z.of_nat (span is_blank raw) + len (dw is_blank raw)) as ->.
  { rewrite (tw_dw is_blank raw) at 1. rewrite length_app, Nat2Z.inj_add, len_tw. done. }
  assert (length (dw is_blank raw) <= size m)%nat by (by apply bytes_at_size in H).
  rewrite Z.add_assoc. unfold rtrim. rewrite rtrim_loop by (done || (unfold mfuel; lia)). rewrite bind_Ok.
  split_and!; [done| |lia]. destruct (rt_prefix (dw is_blank raw)) as [w Hw]. rewrite Hw in H. by apply bytes_at_app in H as [H _].
Qed.

Lemma rd_hd_last m b t : bytes_at m b t -> t <> [] ->
  rd m b = Ok (hd 0 t) /\ rd m (b + len t - 1) = Ok (default 0 (list.last t)).
Proof.
  intros H Ht. split.
  - destruct t as [|x t]; [done|]. apply bytes_at_cons in H as [H _]. unfold rd. by rewrite H.
  - destruct t as [|x t _] using rev_ind; [done|]. apply bytes_at_app in H as [_ H]. apply bytes_at_cons in H as [H _].
    rewrite length_app, last_snoc. cbn. unfold rd. replace (b + Z.of_nat (length t + 1) - 1) with (b + len t) by lia. by rewrite H.
Qed.
(** What the validating pass does when an item is complete. *)
Lemma check_item m st raw (last : bool) p q : bytes_at m st raw -> p = st + len raw ->
  (r ← trim m st p;
   let '(begin, fin) := (r : Z * Z) in
   if begin =? fin then Ok (inr false) else
   b ← rd m begin; c ← rd m (fin - 1);
   if (b =? 34) && ((fin - begin <? 2) || negb (c =? 34)) then Ok (inr false) else
   Ok (if last then inr true else inl (p + 1, p + 1, q))) =
  Ok (if item_valid raw then (if last then inr true else inl (p + 1, p + 1, q)) else inr false) :> outcome (Z * Z * bool + bool).
Proof.
  intros H ->. destruct (trim_spec m st raw H) as (b & -> & Hb & _). rewrite bind_Ok. unfold item_valid. cbv zeta.
  destruct (bool_decide_reflect (trimmed raw <> [])) as [Hne|Hne].
  - rewrite (proj2 (Z.eqb_neq b _)) by (destruct (trimmed raw); [done|cbn; lia]).
    destruct (rd_hd_last m b _ Hb Hne) as [-> ->]. rewrite !bind_Ok. replace (b + len (trimmed raw) - b) with (len (trimmed raw)) by lia.
    cbn [andb]. by destruct (_ && _).
  - apply dec_stable in Hne. rewrite Hne. cbn. by rewrite Z.add_0_r, Z.eqb_refl.
Qed.

Lemma bytes_at_snoc m st pre b : bytes_at m st pre -> rd m (st + len pre) = Ok b -> bytes_at m st (pre ++ [b]).
Proof.
  intros H Hb. apply bytes_at_app. split; [done|]. apply bytes_at_cons. split; [|apply bytes_at_nil].
  unfold rd in Hb. destruct (m !! _); cbn in Hb; [by injection Hb as ->|done].
Qed.

Lemma check_loop m : forall n s p st pre q fuel, (length s < n)%nat -> cstr m p s -> bytes_at m st pre -> p = st + len pre ->
  (length s < fuel)%nat -> loop fuel (check_body m) (p, st, q) = Ok (forallb item_valid (prepend pre (cut q s))).
Proof.
  induction n as [|n IH]; intros s p st pre q [|fuel] Hn H Hpre Hp Hf; try lia.
  pose proof (scan_char_spec m p s q H) as Hsc. destruct s as [|b s].
  { cbn [cut prepend forallb]. rewrite app_nil_r, andb_true_r. apply loop_done. unfold check_body. rewrite Hsc, bind_Ok.
    rewrite (check_item m st pre true p q Hpre Hp). by destruct (item_valid pre). }
  pose proof (cstr_cons _ _ _ _ H) as (Hr & _ & _ & H'). cbn [length] in *.
  assert (Hpb : bytes_at m st (pre ++ [b])) by (apply bytes_at_snoc; [done|by rewrite <- Hp]).
  assert (Hlb : p + 1 = st + len (pre ++ [b])) by (rewrite length_app; cbn; lia).
  destruct (escaped (b :: s)) eqn:E.
  - destruct (cut_escaped q _ E) as (? & x & s2 & [= <- ->] & -> & _). cbn [length] in *.
    pose proof (cstr_cons _ _ _ _ H') as (Hr2 & _ & _ & H2). replace (p + 1 + 1) with (p + 2) in H2 by lia.
    erewrite loop_step by (unfold check_body; rewrite Hsc, bind_Ok; done). rewrite !prepend_push by auto.
    apply IH; [lia|done| |rewrite length_app; cbn; lia|lia]. apply bytes_at_snoc; [done|by rewrite <- Hlb].
  - destruct (cut_plain q b s E) as [-> _]. destruct ((b =? 44) && negb (quote_after q b)) eqn:Ec.
    + cbn [prepend forallb]. rewrite app_nil_r.
      assert (Hbody : check_body m (p, st, q) = Ok (if item_valid pre then inl (p + 1, p + 1, quote_after q b) else inr false)).
      { unfold check_body. rewrite Hsc, bind_Ok. by apply (check_item m st pre false p). }
      destruct (item_valid pre); [|by apply loop_done]. erewrite loop_step by exact Hbody. cbn [andb].
      destruct (cut_cons (quote_after q b) s) as (i & r & Ei).
      rewrite (IH s (p + 1) (p + 1) [] (quote_after q b)); [by rewrite Ei|lia|done|apply bytes_at_nil|cbn; lia|lia].
    + erewrite loop_step by (unfold check_body; rewrite Hsc, bind_Ok; done). rewrite prepend_push by auto.
      apply IH; [lia|done..|lia].
Qed.

Lemma unescape_step b c l :
  unescape (b :: c :: l) = if b =? 92 then unescape_char c :: unescape l else b :: unescape (c :: l).
Proof. done. Qed.
Lemma length_unescape : forall n l, (length l < n)%nat -> (length (unescape l) <= length l)%nat.
Proof.
  induction n as [|n IH]; intros l Hn; [lia|]. destruct l as [|b [|c l]]; [done..|]. rewrite unescape_step.
  destruct (b =? 92); cbn [length] in *.
  - specialize (IH l ltac:(lia)). lia.
  - specialize (IH (c :: l) ltac:(cbn; lia)). cbn [length] in IH. lia.
Qed.
Lemma unescape_loop : forall n l m dst begin fuel, (length l < n)%nat -> bytes_at m begin l -> mapped m dst (len l + 1) ->
  len l = 0 \/ dst + len l + 1 <= begin \/ begin + len l <= dst -> (length l < fuel)%nat ->
  loop fuel (unescape_body (begin + len l)) (m, dst, begin) = Ok (put m dst (unescape l ++ [0])).
Proof.
  induction n as [|n IH]; intros l m dst begin [|fuel] Hn H Hm Hd Hf; try lia. destruct l as [|b l].
  { cbn [length] in *. apply loop_done. unfold unescape_body. rewrite (proj2 (Z.ltb_ge begin _)) by lia.
    rewrite wr_Ok by (apply Hm; lia). done. }
  apply bytes_at_cons in H as [Hb H]. cbn [length] in *.
  assert (Hrb : rd m begin = Ok b) by (unfold rd; by rewrite Hb).
  assert (Hlt : (begin <? begin + Z.of_nat (S (length l))) = true) by (apply Z.ltb_lt; lia).
  assert (Hw : forall x, wr m dst x = Ok (<[dst := x]> m)) by (intros x; apply wr_Ok, Hm; lia).
  assert (Hnext : forall x k, bytes_at m k l -> dst < k \/ k + len l <= dst -> bytes_at (<[dst := x]> m) k l).
  { intros x k Hk Hdk. apply (bytes_at_put_ne m dst [x] k l); [|done]. cbn. lia. }
  destruct l as [|c l].
  - assert (Hs : unescape_body (begin + Z.of_nat 1) (m, dst, begin) = Ok (inl (<[dst := b]> m, dst + 1, begin + 1))).
    { unfold unescape_body. cbn [length] in Hlt. rewrite Hlt, Hrb, bind_Ok.
      rewrite (proj2 (Z.ltb_ge (begin + 1) _)) by lia. by rewrite andb_false_r, Hw. }
    cbn [length]. erewrite loop_step by exact Hs. replace (begin + Z.of_nat 1) with (begin + 1 + len (@nil Z)) by (cbn; lia).
    apply (IH [] (<[dst := b]> m) (dst + 1) (begin + 1) fuel); [cbn in *; lia|apply bytes_at_nil| |cbn in *; lia|cbn in *; lia].
    apply mapped_insert. eapply mapped_sub; [exact Hm|lia|cbn; lia].
  - rewrite unescape_step. destruct (b =? 92) eqn:Eb.
    + apply bytes_at_cons in H as [Hc H]. cbn [length] in *.
      assert (Hrc : rd m (begin + 1) = Ok c) by (unfold rd; by rewrite Hc).
      assert (Hs : unescape_body (begin + Z.of_nat (S (S (length l)))) (m, dst, begin) =
                   Ok (inl (<[dst := unescape_char c]> m, dst + 1, begin + 2))).
      { unfold unescape_body. rewrite Hlt, Hrb, bind_Ok, Eb. rewrite (proj2 (Z.ltb_lt (begin + 1) _)) by lia.
        cbn [andb]. by rewrite Hrc, bind_Ok, Hw. }
      erewrite loop_step by exact Hs. replace (begin + Z.of_nat (S (S (length l)))) with (begin + 2 + len l) by lia.
      apply (IH l (<[dst := unescape_char c]> m) (dst + 1) (begin + 2) fuel); [lia| | |lia|lia].
      * replace (begin + 1 + 1) with (begin + 2) in H by lia. apply (bytes_at_put_ne m dst [_] _ l); [cbn; lia|done].
      * apply mapped_insert. eapply mapped_sub; [exact Hm|lia|lia].
    + assert (Hs : unescape_body (begin + Z.of_nat (S (length (c :: l)))) (m, dst, begin) =
                   Ok (inl (<[dst := b]> m, dst + 1, begin + 1))).
      { unfold unescape_body. rewrite Hlt, Hrb, bind_Ok, Eb. cbn [andb]. by rewrite Hw. }
      erewrite loop_step by exact Hs. replace (begin + Z.of_nat (S (length (c :: l)))) with (begin + 1 + len (c :: l)) by lia.
      apply (IH (c :: l) (<[dst := b]> m) (dst + 1) (begin + 1) fuel); [lia| | |lia|lia].
      * apply Hnext; [done|lia].
      * apply mapped_insert. eapply mapped_sub; [exact Hm|lia|lia].
Qed.

(** *** Building the items *)

(** [m'] has the contents of [m] wherever [m] is mapped. *)
Definition keeps (m m' : mem) : Prop := forall a, is_Some (m !! a) -> m' !! a = m !! a.
Lemma keeps_trans m1 m2 m3 : keeps m1 m2 -> keeps m2 m3 -> keeps m1 m3.
Proof. intros H12 H23 a Ha. rewrite H23; [by apply H12|]. by rewrite H12. Qed.
Lemma keeps_bytes m m' a l : keeps m m' -> bytes_at m a l -> bytes_at m' a l.
Proof. intros Hk H i b Hi. rewrite Hk; [by apply H|]. rewrite (H i b Hi). by eexists. Qed.
Lemma keeps_cstr m m' a s : keeps m m' -> cstr m a s -> cstr m' a s.
Proof. intros Hk [Hf H]. split; [done|]. by eapply keeps_bytes. Qed.

(** The block a text is stored in is disjoint from its source. *)
Lemma disjoint_blocks (d n b k : Z) : 0 <= k -> 0 < n -> (forall a, b <= a < b + k -> ~ (d <= a < d + n)) ->
  k = 0 \/ d + n <= b \/ b + k <= d.
Proof.
  intros Hk Hn H. destruct (decide (k = 0)); [by left|]. destruct (decide (d + n <= b)); [tauto|].
  destruct (decide (b + k <= d)); [tauto|]. exfalso. apply (H (Z.max d b)); lia.
Qed.

Lemma unquote_src m b t : bytes_at m b t -> negb ((hd 0 t =? 34) && ((len t <? 2) || negb (default 0 (list.last t) =? 34))) = true ->
  let '(begin, fin) := if hd 0 t =? 34 then (b + 1, b + len t - 1) else (b, b + len t) in
  bytes_at m begin (unquote t) /\ fin = begin + len (unquote t).
Proof.
  intros H Hv. unfold unquote. destruct (hd 0 t =? 34); [|done]. cbn [andb] in Hv.
  apply negb_true_iff, orb_false_iff in Hv as [Hl _]. apply Z.ltb_ge in Hl. destruct t as [|x t]; [cbn in Hl; lia|]. cbn [drop length] in *.
  apply bytes_at_cons in H as [_ H]. split.
  - rewrite <- (take_drop (S (length t) - 2) t) in H. by apply bytes_at_app in H as [H _].
  - rewrite drop_0, length_take. lia.
Qed.

Section Build.
Context `{Valloc} (vfree : mem -> Z -> mem).

(** The texts of the first items of [all] are stored, and there is no room for that
    of the next one. *)
Definition text_fails (m : mem) (all : list (list Z)) : Prop := exists m0 ready raw rest texts, keeps m m0 /\ all = ready ++ raw :: rest /\
  Forall2 (fun t raw => bytes_at m0 t (item_text raw ++ [0])) texts ready /\ (valloc m0 (len (unquote (trimmed raw)) + 1)).2 = None.
Lemma text_fails_keeps m m2 all : keeps m m2 -> text_fails m2 all -> text_fails m all.
Proof using Type. intros Hk (m0 & ready & raw & rest & texts & Hk0 & Hx). exists m0, ready, raw, rest, texts. split; [by eapply keeps_trans|done]. Qed.
Lemma build_item m st raw (p : Z) : bytes_at m st raw -> p = st + len raw -> item_valid raw = true -> len raw < 2 ^ 64 ->
  exists begin fin text m1, trim m st p = Ok (begin, fin) /\ rd m begin = Ok (hd 0 (trimmed raw)) /\
    let '(begin, fin) := if hd 0 (trimmed raw) =? 34 then (begin + 1, fin - 1) else (begin, fin) in
    valloc m (u64 (fin - begin) + 1) = (m1, text) /\
    match text with
    | None => (valloc m (len (unquote (trimmed raw)) + 1)).2 = None
    | Some text => exists m2, parse_unescape m1 text begin fin = Ok m2 /\ keeps m m2 /\ bytes_at m2 text (item_text raw ++ [0])
    end.
Proof.
  intros Hr -> Hv Hlen. destruct (trim_spec m st raw Hr) as (b & Ht & Hb & _).
  unfold item_valid in Hv. apply andb_true_iff in Hv as [Hne Hv]. apply bool_decide_eq_true in Hne.
  destruct (rd_hd_last m b _ Hb Hne) as [Hhd _]. pose proof (unquote_src m b (trimmed raw) Hb Hv) as Hu.
  set (src := if hd 0 (trimmed raw) =? 34 then (b + 1, b + len (trimmed raw) - 1) else (b, b + len (trimmed raw))) in *.
  assert (Hlu : (length (unquote (trimmed raw)) <= length raw)%nat).
  { assert (length (trimmed raw) <= length raw)%nat.
    { unfold trimmed, rt. rewrite length_reverse. unfold dw. rewrite !length_drop, length_reverse, length_drop. lia. }
    unfold unquote. destruct (_ =? 34); [rewrite length_take, length_drop|]; lia. }
  destruct (valloc m (u64 (src.2 - src.1) + 1)) as [m1 text] eqn:Ea.
  exists b, (b + len (trimmed raw)), text, m1. split_and!; [done|done|]. fold src. destruct src as [begin fin]. cbn [fst snd] in Ea.
  split; [done|]. destruct Hu as [Hsrc Hfin].
  replace (fin - begin) with (len (unquote (trimmed raw))) in Ea by lia. rewrite wrap_small in Ea by (unfold in_u; lia).
  destruct text as [text|]; [|by rewrite Ea].
  set (u := unquote (trimmed raw)) in *.
  assert (Hfresh : forall a, is_Some (m !! a) -> ~ (text <= a < text + (len u + 1))).
  { intros a Ha. apply (valloc_fresh m (len u + 1)); [by rewrite Ea|done]. }
  assert (Hk1 : keeps m m1) by (intros a Ha; change m1 with (m1, Some text).1; rewrite <- Ea; by apply valloc_keep).
  assert (Hm1 : mapped m1 text (len u + 1)).
  { change m1 with (m1, Some text).1. rewrite <- Ea. apply valloc_mapped. by rewrite Ea. }
  pose proof (bytes_at_mapped _ _ _ Hsrc) as Hmp. pose proof (length_unescape (S (length u)) u ltac:(lia)) as Hlesc.
  exists (put m1 text (unescape u ++ [0])). split_and!.
  - unfold parse_unescape. rewrite Hfin. pose proof (bytes_at_size _ _ _ (keeps_bytes _ _ _ _ Hk1 Hsrc)) as Hsz.
    apply (unescape_loop (S (length u))); [lia|by eapply keeps_bytes|done| |unfold mfuel; lia].
    rewrite <- Z.add_assoc. apply disjoint_blocks; [lia|lia|]. intros a Ha. apply Hfresh. by apply Hmp.
  - intros a Ha. rewrite lookup_put_out; [by apply Hk1|]. specialize (Hfresh a Ha). rewrite length_app. cbn [length]. lia.
  - apply bytes_at_put.
Qed.

Lemma build_loop items : forall n s m p st pre q texts done fuel, (length s < n)%nat -> cstr m p s -> bytes_at m st pre ->
  p = st + len pre -> len pre + len s < 2 ^ 64 -> (length s < fuel)%nat ->
  forallb item_valid (prepend pre (cut q s)) = true ->
  Forall2 (fun t raw => bytes_at m t (item_text raw ++ [0])) texts done ->
  exists m' o, loop fuel (build_body vfree items) (m, p, st, q, texts) = Ok (m', o) /\
    match o with
    | Some texts' => Forall2 (fun t raw => bytes_at m' t (item_text raw ++ [0])) texts' (done ++ prepend pre (cut q s)) /\ keeps m m'
    | None => text_fails m (done ++ prepend pre (cut q s))
    end.
Proof using Type.
  induction n as [|n IH]; intros s m p st pre q texts ready [|fuel] Hn H0 Hpre Hp Hlen Hf Hv Hd; try lia.
  pose proof (scan_char_spec m p s q H0) as Hsc.
  (* an item is complete: the text is stored and everything before is kept *)
  assert (Hitem : forall last q', scan_char m p q = Ok (Item last q') -> item_valid pre = true ->
    (exists m1, build_body vfree items (m, p, st, q, texts) = Ok (inr (m1, None)) /\ forall rest, text_fails m (ready ++ pre :: rest)) \/
    (exists m2 text, keeps m m2 /\ bytes_at m2 text (item_text pre ++ [0]) /\
       build_body vfree items (m, p, st, q, texts) =
         Ok (if (last : bool) then inr (m2, Some (texts ++ [text])) else inl (m2, p + 1, p + 1, q', texts ++ [text])))).
  { intros last q' Hs Hvp. destruct (build_item m st pre p Hpre Hp Hvp ltac:(lia)) as (b & e & text & m1 & Et & Er & Hx).
    unfold build_body. rewrite Hs, bind_Ok, Et, bind_Ok, Er, bind_Ok. destruct (if _ =? 34 then _ else _) as [b' e'].
    destruct Hx as [-> Hx]. destruct text as [text|].
    - right. destruct Hx as (m2 & -> & Hk & Hb). exists m2, text. split_and!; [done..|]. by rewrite bind_Ok.
    - left. eexists. split; [done|]. intros rest. by exists m, ready, pre, rest, texts. }
  assert (Hmono : forall m2 text, keeps m m2 -> bytes_at m2 text (item_text pre ++ [0]) ->
    Forall2 (fun t raw => bytes_at m2 t (item_text raw ++ [0])) (texts ++ [text]) (ready ++ [pre])).
  { intros m2 text Hk Hb. apply Forall2_app; [|by repeat constructor].
    eapply Forall2_impl; [|exact Hd]. intros t raw. by apply keeps_bytes. }
  destruct s as [|b s].
  { cbn [cut prepend forallb] in *. rewrite app_nil_r in *. apply andb_true_iff in Hv as [Hv _].
    destruct (Hitem true q Hsc Hv) as [(m1 & E & Hfail)|(m2 & text & Hk & Hb & E)].
    - exists m1, None. split; [by apply loop_done|apply Hfail].
    - exists m2, (Some (texts ++ [text])). split_and!; [by apply loop_done|by apply Hmono|done]. }
  pose proof (cstr_cons _ _ _ _ H0) as (Hr & _ & _ & H'). cbn [length] in *.
  assert (Hpb : bytes_at m st (pre ++ [b])) by (apply bytes_at_snoc; [done|by rewrite <- Hp]).
  assert (Hlb : p + 1 = st + len (pre ++ [b])) by (rewrite length_app; cbn; lia).
  destruct (escaped (b :: s)) eqn:E.
  - destruct (cut_escaped q _ E) as (? & x & s2 & [= <- ->] & Ecut & _). rewrite Ecut in *. cbn [length] in *.
    pose proof (cstr_cons _ _ _ _ H') as (Hr2 & _ & _ & H2). replace (p + 1 + 1) with (p + 2) in H2 by lia.
    rewrite !prepend_push in * by auto. erewrite loop_step by (unfold build_body; rewrite Hsc, bind_Ok; done).
    apply IH; [lia|done| |rewrite length_app; cbn; lia|rewrite !length_app; cbn; lia|lia|done|done].
    apply bytes_at_snoc; [done|by rewrite <- Hlb].
  - destruct (cut_plain q b s E) as [Ecut _]. rewrite Ecut in *. destruct ((b =? 44) && negb (quote_after q b)) eqn:Ec.
    + cbn [prepend forallb] in *. rewrite app_nil_r in *. apply andb_true_iff in Hv as [Hvp Hv].
      destruct (Hitem false _ Hsc Hvp) as [(m1 & Eb & Hfail)|(m2 & text & Hk & Hb & Eb)].
      { exists m1, None. split; [by apply loop_done|apply Hfail]. }
      destruct (cut_cons (quote_after q b) s) as (i & r & Ei).
      destruct (IH s m2 (p + 1) (p + 1) [] (quote_after q b) (texts ++ [text]) (ready ++ [pre]) fuel)
        as (m' & o & El & Ho); [lia|by eapply keeps_cstr|apply bytes_at_nil|cbn; lia|cbn; lia|lia|by rewrite Ei in *|by apply Hmono|].
      exists m', o. split; [by erewrite loop_step by exact Eb|]. rewrite Ei in *. destruct o as [texts'|]; cbn [prepend app] in Ho; rewrite <- (assoc (++)) in Ho; cbn [app] in Ho; [|by eapply text_fails_keeps]. destruct Ho as [Ho Hk2]. split; [done|]. by eapply keeps_trans.
    + rewrite prepend_push in * by auto. erewrite loop_step by (unfold build_body; rewrite Hsc, bind_Ok; done).
      apply IH; [lia|done..|rewrite length_app; cbn; lia|lia|done|done].
Qed.
End Build.

(** ** Claims *)

(** C28: sizes, durations and truth values.  On any string the parsers return the
    value of the quantity it spells, in exact arithmetic, or refuse it: an
    optional unit word out of the table follows the digits, and a value that
    does not fit 64 bits is refused; a truth value is one of the names, in any
    case, with blanks around it.  The scanning, the unit letters, the overflow
    tests before each digit and after the multiplication, and the string
    comparisons agree with the table lookup. *)
Theorem parse_quantities_exact m p s :
  cstr m p s -> 0 < p ->
  parse_is_data_size m p = Ok (quantity size_word s) /\
  parse_is_duration m p = Ok (quantity duration_word s) /\
  parse_is_bool m p = Ok (bool_text s).
Proof.
  intros H Hp. split_and!; [by apply parse_data_size_spec|by apply parse_duration_spec|by apply parse_bool_spec].
Qed.

Definition demo_size : mem := put ∅ 16 (lit " 16 MiB " ++ [0]).
Lemma parse_quantities_exact_witness : parse_is_data_size demo_size 16 = Ok (Some (16 * 2 ^ 20)).
Proof.
  destruct (parse_quantities_exact demo_size 16 (lit " 16 MiB ")) as [H _]; [cstr_check|lia|].
  rewrite H. vm_compute. reflexivity.
Defined.

(** C27: CPU lists.  A list is accepted exactly when every comma-separated item is
    [N] or [N-M] with [N <= M < cpu_count] in exact arithmetic.  An accepted list
    leaves in the mask exactly the CPUs it names that the mask has room for, and
    nothing of its former contents; a refused one leaves the mask alone.  Both
    passes end and read nothing outside the string. *)
Theorem parse_cpu_mask_correct m p s mask cpu_count :
  cstr m p s -> 0 < p -> length mask = 2%nat -> 0 <= cpu_count <= ULLONG_MAX ->
  if bool_decide (s <> []) && forallb (item_ok cpu_count) (split_items s) then
    exists mask' S, parse_is_cpu_mask m p (Some mask) cpu_count = Ok (true, Some mask') /\
      repr mask' CPU_MASK_BITS S /\ forall c, c ∈ S <-> named s c /\ c < CPU_MASK_BITS
  else parse_is_cpu_mask m p (Some mask) cpu_count = Ok (false, Some mask).
Proof.
  intros H Hp Hm Hcc. unfold parse_is_cpu_mask, parse_cpu_mask_internal. rewrite (no_text_spec m p s H Hp), bind_Ok.
  rewrite bool_decide_not. case_bool_decide as Hs; [done|]. cbn [negb orb andb].
  assert (Hz : cpu_count = 0 -> forallb (item_ok cpu_count) (split_items s) = false).
  { intros ->. rewrite split_items_step. cbn [forallb]. unfold item_ok at 1. destruct (cpu_item _) as [[a b]|] eqn:E; [|done].
    pose proof (cpu_item_pos _ _ _ E). destruct (Z.leb_spec a b), (Z.ltb_spec b 0); cbn; done || lia. }
  destruct (Z.eqb_spec cpu_count 0) as [E0|_]; [by rewrite (Hz E0)|]. clear Hz.
  rewrite (validate_loop m cpu_count ltac:(lia) (S (length s)) s p) by (done || lia || by eapply cstr_size).
  rewrite bind_Ok, bool_decide_false by done. cbn [orb].
  destruct (forallb (item_ok cpu_count) (split_items s)) eqn:Eok; cbn [negb]; [|done].
  assert (HS : repr (cpu_mask_init mask) CPU_MASK_BITS ∅).
  { unfold cpu_mask_init. rewrite Hm. apply (repr_of_list [0; 0] 128 []). by vm_compute. }
  destruct (populate_loop m cpu_count ltac:(lia) (S (length s)) s p _ _ (mfuel m) ltac:(lia) H HS (fun _ => Eok))
    as (mask' & S' & -> & HS' & Hin); [by eapply cstr_size|].
  rewrite bind_Ok. exists mask', S'. split_and!; [done..|]. intros c. rewrite Hin. set_solver.
Qed.

Definition demo_cpus : mem := put ∅ 16 (lit "0,2-3,9" ++ [0]).
Lemma parse_cpu_mask_correct_witness :
  exists mask' S, parse_is_cpu_mask demo_cpus 16 (Some [5; 6]) 10 = Ok (true, Some mask') /\
    repr mask' CPU_MASK_BITS S /\ forall c, c ∈ S <-> named (lit "0,2-3,9") c /\ c < CPU_MASK_BITS.
Proof.
  pose proof (parse_cpu_mask_correct demo_cpus 16 (lit "0,2-3,9") [5; 6] 10) as H.
  destruct (bool_decide _ && _) eqn:E; [|by vm_compute in E]. apply H; [cstr_check|lia|done|by vm_compute].
Defined.

(** C26: lists.  A text is accepted exactly when its quotes are closed, no item is
    blank, and an item that starts with a quote ends with one.  When the
    allocator has room, an accepted text gives one string per item, in order:
    the item without the blanks around it and its quotes, with its escapes
    replaced.  The number of items stored is the number the array was allocated
    for, nothing that was mapped before is changed, and no pass reads or writes
    outside the text and the allocated blocks.  It reports failure for an accepted
    text only when the allocation of the array, or that of the text of an item with
    those before it stored, fails. *)
Theorem parse_list_correct `{Valloc} vfree m p s :
  cstr m p s -> 0 < p -> len s < 2 ^ 64 ->
  if bool_decide (s <> []) && negb (open_quote false s) && forallb item_valid (cut false s) then
    exists m' ok r, parse_list_internal vfree m p true = Ok (m', ok, r) /\
      match r with
      | Some (count, items, texts) => ok = true /\ count = Z.of_nat (length texts) /\ keeps m m' /\
          Forall2 (fun t raw => bytes_at m' t (item_text raw ++ [0])) texts (cut false s)
      | None => ok = false /\ ((valloc m (8 * len (cut false s))).2 = None \/ text_fails m (cut false s))
      end
  else parse_list_internal vfree m p true = Ok (m, false, None).
Proof.
  intros Hs Hp Hl. unfold parse_list_internal. rewrite (no_text_spec m p s Hs Hp), bind_Ok. rewrite bool_decide_not.
  case_bool_decide as Hne; [done|]. cbn [negb andb].
  rewrite (count_loop m (S (length s)) s p 1 false) by (done || lia || by eapply cstr_size). rewrite bind_Ok.
  destruct (open_quote false s); [done|]. cbn [negb andb].
  assert (Epre : prepend [] (cut false s) = cut false s) by (destruct (cut_cons false s) as (? & ? & ->); done).
  rewrite (check_loop m (S (length s)) s p p [] false) by (done || apply bytes_at_nil || (cbn; lia) || by eapply cstr_size).
  rewrite Epre, bind_Ok.
  destruct (forallb item_valid (cut false s)) eqn:Ev; cbn [negb]; [|done].
  destruct (valloc m (8 * (1 + Z.of_nat (length (cut false s)) - 1))) as [m1 [items|]] eqn:Ea.
  2: { exists m1, false, None. split; [done|]. split; [done|]. left. replace (8 * len (cut false s)) with (8 * (1 + len (cut false s) - 1)) by lia. by rewrite Ea. }
  assert (Hk1 : keeps m m1) by (intros a Ha; change m1 with (m1, Some items).1; rewrite <- Ea; by apply valloc_keep).
  pose proof (keeps_cstr _ _ _ _ Hk1 Hs) as Hs1.
  destruct (build_loop vfree items (S (length s)) s m1 p p [] false [] [] (mfuel m1))
    as (m' & o & -> & Ho); [lia|done|apply bytes_at_nil|cbn; lia|cbn; lia|by eapply cstr_size|by rewrite Epre|constructor|].
  rewrite bind_Ok. cbn [app] in Ho. rewrite Epre in Ho. destruct o as [texts|]; [|eexists _, _, _; split; [done|]; split; [done|]; right; by eapply text_fails_keeps].
  eexists _, _, _. split; [done|]. destruct Ho as [Ho Hk2].
  split_and!; [done| |by eapply keeps_trans|done]. rewrite (Forall2_length Ho). lia.
Qed.

Definition demo_list : mem := put ∅ 16 (lit " a\,b , c" ++ [0]).
Lemma parse_list_correct_witness :
  exists m' ok r, @parse_list_internal bump (fun m _ => m) demo_list 16 true = Ok (m', ok, r) /\
    match r with
    | Some (count, items, texts) => ok = true /\ count = Z.of_nat (length texts) /\ keeps demo_list m' /\
        Forall2 (fun t raw => bytes_at m' t (item_text raw ++ [0])) texts [lit " a\,b "; lit " c"]
    | None => ok = false /\ (((@valloc bump) demo_list 16).2 = None \/ @text_fails bump demo_list [lit " a\,b "; lit " c"])
    end.
Proof. apply (@parse_list_correct bump (fun m _ => m) demo_list 16 (lit " a\,b , c")); [cstr_check|lia|by vm_compute]. Defined.
