(* ===== verification/Sort.v ===== *)
(** * Heap sort and binary search

    [kernel/math/sort.c] over the byte memory: the swaps by words and by bytes,
    sifting, sorting in place and binary search, with the comparison function a
    parameter.  The array is also seen as the list of its elements (each the
    list of its bytes), on which the algorithm is proved to sort. *)

From S2P Require Import Prelude CMem.

(** ** The code *)

(** [swapcode(TYPE, ...)] with [w = sizeof(TYPE)]: state is the memory, the two
    cursors and the count. *)
Definition swapcode_body (w : Z) : mem * Z * Z * Z -> outcome (mem * Z * Z * Z + mem) := fun '(m, pi, pj, i) =>
  t ← load_bytes m pi (Z.to_nat w);
  u ← load_bytes m pj (Z.to_nat w);
  m ← store_bytes m pi u;
  m ← store_bytes m pj t;
  let i := u64 (i - 1) in
  Ok (if 0 <? i then inl (m, pi + w, pj + w, i) else inr m).
Definition swapcode (w : Z) (m : mem) (parmi parmj n : Z) : outcome mem :=
  loop (mfuel m) (swapcode_body w) (m, parmi, parmj, n `div` w).

Definition SWAPINIT (a es : Z) : Z :=
  if negb (a `mod` 8 =? 0) || negb (es `mod` 8 =? 0) then 2 else if es =? 8 then 0 else 1.

Definition swapfunc (m : mem) (a b n swaptype : Z) : outcome mem :=
  if swaptype =? 0 then
    t ← load_bytes m a 8; u ← load_bytes m b 8;
    m ← store_bytes m a u; store_bytes m b t
  else if swaptype =? 1 then swapcode 8 m a b n
  else swapcode 1 m a b n.

Section Code.
Context (compar : mem -> Z -> Z -> outcome Z).

Definition sift_body (base n size swaptype : Z) : mem * Z -> outcome (mem * Z + mem) := fun '(m, root) =>
  let child := u64 (2 * root + 1) in
  if child <? n then
    right ← (if child + 1 <? n then
               c ← compar m (base + (child + 1) * size) (base + child * size); Ok (0 <? c)
             else Ok false);
    let child := if (right : bool) then child + 1 else child in
    c ← compar m (base + child * size) (base + root * size);
    if 0 <? c then
      m ← swapfunc m (base + root * size) (base + child * size) size swaptype;
      Ok (inl (m, child))
    else Ok (inr m)
  else Ok (inr m).
Definition sift_down (m : mem) (base root n size swaptype : Z) : outcome mem :=
  loop (S (Z.to_nat n)) (sift_body base n size swaptype) (m, root).

(** [for (i = k; i > 0; i--) sift_down(base, i - 1, ...);] *)
Fixpoint heapify (k : nat) (m : mem) (base nmemb size swaptype : Z) : outcome mem :=
  match k with
  | O => Ok m
  | S k' => m ← sift_down m base (Z.of_nat k') nmemb size swaptype; heapify k' m base nmemb size swaptype
  end.
(** [for (i = k; i > 0; i--) { swap the first and the i-th; sift the first }] *)
Fixpoint unheap (k : nat) (m : mem) (base size swaptype : Z) : outcome mem :=
  match k with
  | O => Ok m
  | S k' =>
      m ← swapfunc m base (base + Z.of_nat k * size) size swaptype;
      m ← sift_down m base 0 (Z.of_nat k) size swaptype;
      unheap k' m base size swaptype
  end.

(** The memory and the return value. *)
Definition heapsort (m : mem) (base nmemb size : Z) : outcome (mem * Z) :=
  if (base =? 0) || (nmemb <=? 1) then Ok (m, 0) else
  if size =? 0 then Ok (m, -1) else
  let swaptype := SWAPINIT base size in
  m ← heapify (Z.to_nat (nmemb `div` 2)) m base nmemb size swaptype;
  m ← unheap (Z.to_nat (nmemb - 1)) m base size swaptype;
  Ok (m, 0).

Definition bsearch_body (m : mem) (key base size : Z) : Z * Z -> outcome (Z * Z + option Z) := fun '(l, r) =>
  if l <? r then
    let mid := l + (r - l) `div` 2 in
    let elem := base + mid * size in
    c ← compar m key elem;
    Ok (if c <? 0 then inl (l, mid) else if 0 <? c then inl (mid + 1, r) else inr (Some elem))
  else Ok (inr None).
Definition bsearch (m : mem) (key base nmemb size : Z) : outcome (option Z) :=
  if (key =? 0) || (base =? 0) || (size =? 0) then Ok None else
  loop (S (Z.to_nat nmemb)) (bsearch_body m key base size) (0, nmemb).
End Code.

(** ** Sorting a list of elements *)

Section Heap.
Context {A : Type} `{!Inhabited A} (cmp : A -> A -> Z).

Definition le (x y : A) : Prop := cmp x y <= 0.
Definition swap (es : list A) (i j : nat) : list A := <[i := es !!! j]> (<[j := es !!! i]> es).
Definition big_child (es : list A) (child n : nat) : nat :=
  if bool_decide (child + 1 < n)%nat && (0 <? cmp (es !!! (child + 1)%nat) (es !!! child)) then child + 1 else child.
Fixpoint sift (fuel : nat) (es : list A) (root n : nat) : list A :=
  match fuel with
  | O => es
  | S f =>
      let child := (2 * root + 1)%nat in
      if bool_decide (child < n)%nat then
        let child := big_child es child n in
        if 0 <? cmp (es !!! child) (es !!! root) then sift f (swap es root child) child n else es
      else es
  end.
Fixpoint heapify_l (k : nat) (es : list A) (n : nat) : list A :=
  match k with O => es | S k' => heapify_l k' (sift (S n) es k' n) n end.
Fixpoint unheap_l (k : nat) (es : list A) : list A :=
  match k with O => es | S k' => unheap_l k' (sift (S k) (swap es 0 k) 0 k) end.

Lemma length_swap es i j : length (swap es i j) = length es.
Proof. unfold swap. by rewrite !length_insert. Qed.
Lemma lookup_swap es i j k : (i < length es)%nat -> (j < length es)%nat ->
  swap es i j !!! k = if decide (k = i) then es !!! j else if decide (k = j) then es !!! i else es !!! k.
Proof.
  intros Hi Hj. unfold swap. case_decide as H1; [subst; rewrite list_lookup_total_insert_eq by (by rewrite length_insert); done|].
  rewrite list_lookup_total_insert_ne by done. case_decide as H2; [subst; by rewrite list_lookup_total_insert_eq|].
  by rewrite list_lookup_total_insert_ne.
Qed.
Lemma swap_perm es i j : (i < length es)%nat -> (j < length es)%nat -> swap es i j ≡ₚ es.
Proof.
  intros Hi Hj. apply Permutation_inj. split; [apply length_swap|].
  exists (fun k => if decide (k = i) then j else if decide (k = j) then i else k). split.
  - intros x y. repeat case_decide; congruence.
  - intros k. destruct (decide (k < length es)%nat) as [Hk|Hk].
    + assert (forall l : list A, length l = length es -> l !! k = Some (l !!! k)) as Hl.
      { intros l El. rewrite list_lookup_lookup_total_lt by lia. done. }
      rewrite Hl by apply length_swap. rewrite lookup_swap by done.
      repeat case_decide; rewrite list_lookup_lookup_total_lt by (done || lia); done.
    + rewrite !lookup_ge_None_2; [done| |rewrite length_swap; lia]. repeat case_decide; lia.
Qed.
Lemma big_child_cases es child n : big_child es child n = child \/ big_child es child n = (child + 1)%nat /\ (child + 1 < n)%nat.
Proof. unfold big_child. case_bool_decide; [|by left]. cbn. destruct (0 <? _); [by right|by left]. Qed.

(** Every element of [lo, n) is above its children below [n]. *)
Definition child_of (c i : nat) : Prop := c = (2 * i + 1)%nat \/ c = (2 * i + 2)%nat.
Definition heap (es : list A) (lo n : nat) : Prop :=
  forall i c, (lo <= i)%nat -> child_of c i -> (c < n)%nat -> le (es !!! c) (es !!! i).
(** A heap but for the element [k] in it. *)
Definition heap_but (es : list A) (lo n k : nat) : Prop :=
  (forall i c, (lo <= i)%nat -> i <> k -> child_of c i -> (c < n)%nat -> le (es !!! c) (es !!! i)) /\
  (forall p c, (lo <= p)%nat -> child_of k p -> child_of c k -> (c < n)%nat -> le (es !!! c) (es !!! p)).

Context (cmp_trans : forall x y z, cmp x y <= 0 -> cmp y z <= 0 -> cmp x z <= 0).
Context (cmp_total : forall x y, 0 < cmp x y -> cmp y x <= 0).

Lemma le_refl x : le x x.
Proof using cmp_total. unfold le. destruct (Z.le_gt_cases (cmp x x) 0); [done|]. apply cmp_total. lia. Qed.
(** The child chosen is above its sibling. *)
Lemma big_child_max es k n c : child_of c k -> (c < n)%nat ->
  le (es !!! c) (es !!! big_child es (2 * k + 1) n).
Proof using cmp_total.
  intros Hc Hn. unfold big_child. case_bool_decide as Hs; cbn [andb].
  - destruct (Z.ltb_spec 0 (cmp (es !!! (2 * k + 1 + 1)%nat) (es !!! (2 * k + 1)%nat))) as [Hg|Hg].
    + destruct Hc as [->| ->]; [by apply cmp_total|]. replace (2 * k + 2)%nat with (2 * k + 1 + 1)%nat by lia. apply le_refl.
    + destruct Hc as [->| ->]; [apply le_refl|]. by replace (2 * k + 2)%nat with (2 * k + 1 + 1)%nat by lia.
  - destruct Hc as [->| ->]; [apply le_refl|lia].
Qed.
Lemma big_child_of es k n : (2 * k + 1 < n)%nat ->
  child_of (big_child es (2 * k + 1) n) k /\ (k < big_child es (2 * k + 1) n < n)%nat.
Proof using Type. unfold child_of. destruct (big_child_cases es (2 * k + 1) n) as [->|[-> ?]]; lia. Qed.

Lemma sift_heap fuel : forall es lo n k, (lo <= k)%nat -> (n <= length es)%nat -> (n < k + fuel)%nat ->
  heap_but es lo n k -> heap (sift fuel es k n) lo n.
Proof using cmp_trans cmp_total.
  induction fuel as [|fuel IH]; intros es lo n k Hlo Hn Hf [H1 H2].
  { intros i c Hi Hc Hcn. apply H1; [done|unfold child_of in *; lia|done|done]. }
  cbn [sift]. case_bool_decide as Hk.
  2: { intros i c Hi Hc Hcn. apply H1; [done|unfold child_of in *; lia|done|done]. }
  pose proof (big_child_of es k n Hk) as [Hch Hr]. pose proof (big_child_max es k n) as Hmax.
  set (ch := big_child es (2 * k + 1) n) in *. clearbody ch.
  destruct (Z.ltb_spec 0 (cmp (es !!! ch) (es !!! k))) as [Hg|Hle].
  2: { intros i c Hi Hc Hcn. destruct (decide (i = k)) as [->|]; [|by apply H1].
       apply cmp_trans with (es !!! ch); [by apply Hmax|done]. }
  apply IH; [lia|by rewrite length_swap|lia|]. split.
  - intros i c Hi Hne Hc Hcn. rewrite !lookup_swap by lia.
    destruct (decide (i = k)) as [->|Hik].
    + rewrite (decide_False (P := c = k)) by (unfold child_of in Hc; lia).
      case_decide; [by apply cmp_total|by apply Hmax].
    + rewrite (decide_False (P := i = ch)) by done. case_decide as Hck; [subst c; apply (H2 i); [done..|lia]|].
      rewrite (decide_False (P := c = ch)) by (intros ->; unfold child_of in *; lia). by apply H1.
  - intros p c Hp Hpc Hc Hcn. assert (p = k) as -> by (unfold child_of in *; lia). rewrite !lookup_swap by lia.
    rewrite (decide_False (P := c = k)), (decide_False (P := c = ch)), decide_True by (done || unfold child_of in *; lia).
    apply H1; [lia|lia|done|done].
Qed.

Lemma sift_perm fuel : forall es n k, (n <= length es)%nat -> sift fuel es k n ≡ₚ es.
Proof using Type.
  induction fuel as [|fuel IH]; intros es n k Hn; [done|]. cbn [sift]. case_bool_decide as Hk; [|done].
  pose proof (big_child_of es k n Hk) as [_ Hr]. destruct (0 <? _); [|done].
  rewrite IH by (by rewrite length_swap). apply swap_perm; lia.
Qed.
Lemma sift_out fuel : forall es n k i, (n <= length es)%nat -> (n <= i)%nat -> sift fuel es k n !!! i = es !!! i.
Proof using Type.
  induction fuel as [|fuel IH]; intros es n k i Hn Hi; [done|]. cbn [sift]. case_bool_decide as Hk; [|done].
  pose proof (big_child_of es k n Hk) as [_ Hr]. destruct (0 <? _); [|done].
  rewrite IH by (rewrite ?length_swap; lia). rewrite lookup_swap by lia. by rewrite !decide_False by lia.
Qed.
Lemma sift_all fuel (P : A -> Prop) : forall es n k, (n <= length es)%nat ->
  (forall i, (i < n)%nat -> P (es !!! i)) -> forall i, (i < n)%nat -> P (sift fuel es k n !!! i).
Proof using Type.
  induction fuel as [|fuel IH]; intros es n k Hn HP i Hi; [by apply HP|]. cbn [sift]. case_bool_decide as Hk; [|by apply HP].
  pose proof (big_child_of es k n Hk) as [_ Hr]. destruct (0 <? _); [|by apply HP].
  apply IH; [by rewrite length_swap| |done]. intros j Hj. rewrite lookup_swap by lia. repeat case_decide; apply HP; lia.
Qed.
Lemma length_sift fuel es n k : (n <= length es)%nat -> length (sift fuel es k n) = length es.
Proof using Type. intros Hn. by apply Permutation_length, sift_perm. Qed.

Lemma heapify_heap k : forall es n, (n <= length es)%nat -> heap es k n -> heap (heapify_l k es n) 0 n.
Proof using cmp_trans cmp_total.
  induction k as [|k IH]; intros es n Hn H; [done|]. cbn [heapify_l]. apply IH; [by rewrite length_sift|].
  apply sift_heap; [lia|done|lia|]. split.
  - intros i c Hi Hne Hc Hcn. apply H; [lia|done|done].
  - intros p c Hp Hkp. unfold child_of in Hkp. lia.
Qed.
Lemma heapify_perm k : forall es n, (n <= length es)%nat -> heapify_l k es n ≡ₚ es.
Proof using Type.
  induction k as [|k IH]; intros es n Hn; [done|]. cbn [heapify_l]. rewrite IH by (by rewrite length_sift). by apply sift_perm.
Qed.
Lemma heap_top es n : heap es 0 n -> forall i, (i < n)%nat -> le (es !!! i) (es !!! 0%nat).
Proof using cmp_trans cmp_total.
  intros H i. induction (lt_wf i) as [i _ IH]. intros Hi. destruct (decide (i = 0%nat)) as [->|Hne]; [apply le_refl|].
  set (p := ((i - 1) / 2)%nat). assert (Hp : child_of i p /\ (p < i)%nat).
  { unfold child_of, p. pose proof (Nat.div_mod (i - 1) 2). pose proof (Nat.mod_upper_bound (i - 1) 2). lia. }
  destruct Hp as [Hc Hpi]. apply cmp_trans with (es !!! p); [apply H; [lia|done|done]|]. apply IH; lia.
Qed.

(** The prefix up to [k] is a heap, below the rest, which is sorted. *)
Definition partly (es : list A) (k : nat) : Prop :=
  heap es 0 (k + 1) /\
  (forall a b, (a <= k)%nat -> (k < b < length es)%nat -> le (es !!! a) (es !!! b)) /\
  (forall a b, (k < a)%nat -> (a <= b < length es)%nat -> le (es !!! a) (es !!! b)).
Lemma unheap_step es k : (S k < length es)%nat -> partly es (S k) -> partly (sift (S (S k)) (swap es 0 (S k)) 0 (S k)) k.
Proof using cmp_trans cmp_total.
  intros Hk (H1 & H2 & H3). set (es1 := swap es 0 (S k)). assert (Hl1 : length es1 = length es) by apply length_swap.
  assert (Hs : forall i, es1 !!! i = if decide (i = 0%nat) then es !!! S k else if decide (i = S k) then es !!! 0%nat else es !!! i).
  { intros i. apply lookup_swap; lia. }
  pose proof (heap_top es (S k + 1) H1) as Htop.
  assert (Hout : forall b, (S k <= b)%nat -> sift (S (S k)) es1 0 (S k) !!! b = es1 !!! b) by (intros b Hb; apply sift_out; lia).
  split_and!.
  - replace (k + 1)%nat with (S k) by lia. apply sift_heap; [lia|lia|lia|]. split.
    + intros i c _ Hi Hc Hcn. rewrite !Hs, !decide_False by (unfold child_of in Hc; lia). apply H1; [lia|done|lia].
    + intros p c _ Hp. unfold child_of in Hp. lia.
  - intros a b Ha Hb. rewrite length_sift, Hl1 in Hb by lia. rewrite (Hout b) by lia. rewrite (Hs b).
    rewrite (decide_False (P := b = 0%nat)) by lia.
    apply (sift_all (S (S k)) (fun x => le x (if decide (b = S k) then es !!! 0%nat else es !!! b))); [lia| |lia].
    intros i Hi. rewrite Hs. rewrite (decide_False (P := i = S k)) by lia.
    case_decide; case_decide; (apply Htop; lia) || (apply H2; lia).
  - intros a b Ha Hb. rewrite length_sift, Hl1 in Hb by lia. rewrite !Hout, !Hs by lia.
    rewrite (decide_False (P := a = 0%nat)), (decide_False (P := b = 0%nat)) by lia.
    case_decide; case_decide; [apply le_refl|apply H2; lia|lia|apply H3; lia].
Qed.
Lemma unheap_sorted k : forall es, (k < length es)%nat -> partly es k ->
  forall a b, (a <= b < length es)%nat -> le (unheap_l k es !!! a) (unheap_l k es !!! b).
Proof using cmp_trans cmp_total.
  induction k as [|k IH]; intros es Hk H a b Hab; cbn [unheap_l].
  - destruct H as (_ & H2 & H3). destruct (decide (a = b)) as [->|]; [apply le_refl|].
    destruct (decide (a = 0%nat)) as [->|]; [apply H2; lia|apply H3; lia].
  - assert (Hl : length (sift (S (S k)) (swap es 0 (S k)) 0 (S k)) = length es) by (by rewrite length_sift, length_swap by (rewrite length_swap; lia)).
    apply IH; [lia|by apply unheap_step|lia].
Qed.
Lemma unheap_perm k : forall es, (k < length es)%nat -> unheap_l k es ≡ₚ es.
Proof using Type.
  induction k as [|k IH]; intros es Hk; cbn [unheap_l]; [done|].
  assert (Hl : length (sift (S (S k)) (swap es 0 (S k)) 0 (S k)) = length es) by (by rewrite length_sift, length_swap by (rewrite length_swap; lia)).
  rewrite IH by lia. rewrite sift_perm by (rewrite length_swap; lia). apply swap_perm; lia.
Qed.

(** Building the heap and taking the elements off it sorts. *)
Definition heapsort_l (es : list A) : list A :=
  unheap_l (length es - 1) (heapify_l (length es / 2) es (length es)).
Lemma heapsort_l_sorted es : (0 < length es)%nat -> heapsort_l es ≡ₚ es /\
  forall a b, (a <= b < length es)%nat -> le (heapsort_l es !!! a) (heapsort_l es !!! b).
Proof using cmp_trans cmp_total.
  intros Hl. unfold heapsort_l. set (hs := heapify_l _ _ _). assert (Hp : hs ≡ₚ es) by (by apply heapify_perm).
  pose proof (Permutation_length Hp) as Hlen. split.
  - rewrite unheap_perm by lia. done.
  - intros a b Hab. apply unheap_sorted; [lia| |lia]. split_and!; [|intros; lia|intros; lia].
    replace (length es - 1 + 1)%nat with (length es) by lia. apply heapify_heap; [done|].
    intros i c Hi Hc Hcn. unfold child_of in Hc. pose proof (Nat.div_mod (length es) 2). pose proof (Nat.mod_upper_bound (length es) 2). lia.
Qed.
End Heap.

(** ** The array in memory *)

Section Array.
Context (base size : Z) (Hsize : 0 < size).
Abbreviation sz := (Z.to_nat size).
Definition sized (es : list (list Z)) : Prop := Forall (fun e => length e = sz) es.
(** The memory [m] with the elements [es] stored from [base] on. *)
Definition arr (m : mem) (es : list (list Z)) : mem := put m base (concat es).

Lemma length_concat_sized es : sized es -> length (concat es) = (length es * sz)%nat.
Proof using Type. induction 1 as [|e es He _ IH]; [done|]. cbn. rewrite length_app, IH, He. lia. Qed.
Lemma split_at (es : list (list Z)) i : (i < length es)%nat -> es = take i es ++ (es !!! i) :: drop (S i) es.
Proof using Type.
  intros Hi. symmetry. apply take_drop_middle. by apply list_lookup_lookup_total_lt.
Qed.
Lemma sized_app l1 l2 : sized (l1 ++ l2) <-> sized l1 /\ sized l2.
Proof using Type. apply list.Forall_app. Qed.

Lemma sized_lookup es (i : nat) : sized es -> (i < length es)%nat -> length (es !!! i) = sz.
Proof using Type.
  intros H Hi. apply (Forall_lookup_1 _ _ i _ H). by apply list_lookup_lookup_total_lt.
Qed.
Lemma off_take es i : sized es -> (i < length es)%nat -> len (concat (take i es)) = Z.of_nat i * size.
Proof using Hsize.
  intros H Hi. rewrite length_concat_sized; [rewrite length_take; lia|]. by apply Forall_take.
Qed.
Lemma elem_at m es i : sized es -> (i < length es)%nat -> bytes_at (arr m es) (base + Z.of_nat i * size) (es !!! i).
Proof using Hsize.
  intros H Hi. pose proof (bytes_at_put m base (concat es)) as Hb. fold (arr m es) in Hb.
  rewrite (split_at es i Hi), concat_app in Hb. cbn [concat] in Hb.
  apply bytes_at_app in Hb as [_ Hb]. apply bytes_at_app in Hb as [Hb _].
  rewrite <- (split_at es i Hi) in Hb. by rewrite off_take in Hb.
Qed.
Lemma put_elem m es i x : sized es -> (i < length es)%nat -> length x = sz ->
  put (arr m es) (base + Z.of_nat i * size) x = arr m (<[i := x]> es).
Proof using Hsize.
  intros H Hi Hx. unfold arr. rewrite <- (off_take es i H Hi).
  assert (E : <[i := x]> es = take i es ++ x :: drop (S i) es) by (by rewrite insert_take_drop).
  rewrite E. rewrite (split_at es i Hi) at 1. rewrite !concat_app. cbn [concat]. rewrite !put_app.
  pose proof (sized_lookup es i H Hi) as He. set (p := base + _). replace (p + len (es !!! i)) with (p + len x) by lia.
  rewrite put_comm by (right; lia). by rewrite put_put by lia.
Qed.
Lemma sized_insert es i x : sized es -> length x = sz -> sized (<[i := x]> es).
Proof using Type. intros H Hx. by apply Forall_insert. Qed.
Lemma sized_swap es i j : sized es -> (i < length es)%nat -> (j < length es)%nat -> sized (swap es i j).
Proof using Type. intros H Hi Hj. unfold swap. repeat apply sized_insert; [done|by apply sized_lookup..]. Qed.
End Array.

(** *** Swapping two blocks *)

Lemma split_block (x : list Z) w k : 0 < w -> len x = w * Z.of_nat (S k) ->
  exists x1 x2, x = x1 ++ x2 /\ len x1 = w /\ len x2 = w * Z.of_nat k.
Proof.
  intros Hw Hx. exists (take (Z.to_nat w) x), (drop (Z.to_nat w) x). rewrite take_drop.
  split_and!; [done|rewrite length_take, Nat.min_l by nia; lia|rewrite length_drop; nia].
Qed.
Lemma swapcode_loop w : 0 < w -> forall k m a b x y fuel, (0 < k)%nat -> Z.of_nat k < 2 ^ 64 ->
  len x = w * Z.of_nat k -> len y = w * Z.of_nat k -> bytes_at m a x -> bytes_at m b y ->
  a + len x <= b \/ b + len y <= a -> (k <= fuel)%nat ->
  loop fuel (swapcode_body w) (m, a, b, Z.of_nat k) = Ok (put (put m a y) b x).
Proof.
  intros Hw. induction k as [|k IH]; intros m a b x y [|fuel] Hk Hk64 Hx Hy Ha Hb Hd Hf; try lia.
  destruct (split_block x w k Hw Hx) as (x1 & x2 & -> & Lx1 & Lx2). destruct (split_block y w k Hw Hy) as (y1 & y2 & -> & Ly1 & Ly2).
  rewrite !length_app in Hd. apply bytes_at_app in Ha as [Ha1 Ha2]. apply bytes_at_app in Hb as [Hb1 Hb2].
  rewrite Lx1 in Ha2. rewrite Ly1 in Hb2.
  pose proof (bytes_at_mapped _ _ _ Ha1) as Ma. pose proof (bytes_at_mapped _ _ _ Hb1) as Mb.
  assert (Hbody : swapcode_body w (m, a, b, Z.of_nat (S k)) =
    Ok (if (0 <? Z.of_nat k) then inl (put (put m a y1) b x1, a + w, b + w, Z.of_nat k) else inr (put (put m a y1) b x1))).
  { unfold swapcode_body. replace (Z.to_nat w) with (length x1) by lia. rewrite (load_bytes_at m a x1 Ha1), bind_Ok.
    replace (length x1) with (length y1) by lia. rewrite (load_bytes_at m b y1 Hb1), bind_Ok.
    rewrite store_bytes_put by (by replace (len y1) with (len x1) by lia). rewrite bind_Ok.
    rewrite store_bytes_put by (apply mapped_put; by replace (len x1) with (len y1) by lia). rewrite bind_Ok.
    replace (Z.of_nat (S k) - 1) with (Z.of_nat k) by lia. by rewrite wrap_small by (unfold in_u; lia). }
  rewrite !put_app, Lx1, Ly1. destruct (Z.ltb_spec 0 (Z.of_nat k)) as [Hk0|Hk0].
  - erewrite loop_step by exact Hbody. rewrite (IH _ (a + w) (b + w) x2 y2); try nia.
    + f_equal. f_equal. apply put_comm. lia.
    + do 2 (apply bytes_at_put_ne; [lia|]). done.
    + do 2 (apply bytes_at_put_ne; [lia|]). done.
  - assert (x2 = []) as -> by (apply length_zero_iff_nil; nia). assert (y2 = []) as -> by (apply length_zero_iff_nil; nia).
    cbn [put]. by apply loop_done.
Qed.
Lemma swapfunc_spec base m a b x y size : 0 < size < 2 ^ 64 -> len x = size -> len y = size ->
  bytes_at m a x -> bytes_at m b y -> a + size <= b \/ b + size <= a ->
  swapfunc m a b size (SWAPINIT base size) = Ok (put (put m a y) b x).
Proof.
  intros Hs Lx Ly Ha Hb Hd. unfold swapfunc, SWAPINIT.
  pose proof (bytes_at_size _ _ _ Ha) as Hsz. pose proof (bytes_at_mapped _ _ _ Ha) as Ma. pose proof (bytes_at_mapped _ _ _ Hb) as Mb.
  destruct (negb (base `mod` 8 =? 0)) eqn:E1; cbn [orb].
  { change (2 =? 0) with false. change (2 =? 1) with false. cbv iota. unfold swapcode. rewrite Z.div_1_r. rewrite <- (Z2Nat.id size) by lia. apply swapcode_loop; try done || lia. unfold mfuel. lia. }
  destruct (Z.eqb_spec (size `mod` 8) 0) as [E2|E2]; cbn [negb].
  2: { change (2 =? 0) with false. change (2 =? 1) with false. cbv iota. unfold swapcode. rewrite Z.div_1_r. rewrite <- (Z2Nat.id size) by lia. apply swapcode_loop; try done || lia. unfold mfuel. lia. }
  destruct (Z.eqb_spec size 8) as [->|Hn8].
  - change (0 =? 0) with true. cbv iota. replace 8%nat with (length x) by lia. rewrite (load_bytes_at m a x Ha), bind_Ok.
    replace (length x) with (length y) by lia. rewrite (load_bytes_at m b y Hb), bind_Ok.
    rewrite store_bytes_put by (by replace (len y) with (len x) by lia). rewrite bind_Ok.
    rewrite store_bytes_put by (apply mapped_put; by replace (len x) with (len y) by lia). done.
  - change (1 =? 0) with false. change (1 =? 1) with true. cbv iota. unfold swapcode. pose proof (Z.div_mod size 8 ltac:(lia)) as Hdm. rewrite E2, Z.add_0_r in Hdm.
    rewrite <- (Z2Nat.id (size `div` 8)) by lia. apply swapcode_loop; try done || lia. unfold mfuel. lia.
Qed.

(** ** The code sorts the elements in memory *)

(** What the code relies on of the comparison function: its result depends on the
    bytes of the two elements only, and is the sign of a total preorder. *)
Class Comparator (size : Z) (compar : mem -> Z -> Z -> outcome Z) (cmp : list Z -> list Z -> Z) := {
  compar_bytes m p q x y : bytes_at m p x -> bytes_at m q y -> len x = size -> len y = size ->
    compar m p q = Ok (cmp x y);
  cmp_le_trans x y z : cmp x y <= 0 -> cmp y z <= 0 -> cmp x z <= 0;
  cmp_gt_le x y : 0 < cmp x y -> cmp y x <= 0;
}.

Section Simulation.
Context (base size : Z) (compar : mem -> Z -> Z -> outcome Z) (cmp : list Z -> list Z -> Z).
Context `{!Comparator size compar cmp} (Hsize : 0 < size < 2 ^ 64).
Abbreviation st := (SWAPINIT base size).
Abbreviation at_ := (arr base).

Lemma compar_elem m es i j : sized size es -> (i < length es)%nat -> (j < length es)%nat ->
  compar (at_ m es) (base + Z.of_nat i * size) (base + Z.of_nat j * size) = Ok (cmp (es !!! i) (es !!! j)).
Proof using Hsize Comparator0.
  intros H Hi Hj. pose proof (sized_lookup size es i H Hi). pose proof (sized_lookup size es j H Hj).
  apply compar_bytes; [by apply elem_at; [lia|..]|by apply elem_at; [lia|..]|lia|lia].
Qed.
Lemma swap_elem m es i j : sized size es -> (i < length es)%nat -> (j < length es)%nat -> i <> j ->
  swapfunc (at_ m es) (base + Z.of_nat i * size) (base + Z.of_nat j * size) size st = Ok (at_ m (swap es i j)).
Proof using Hsize.
  intros H Hi Hj Hij. pose proof (sized_lookup size es i H Hi) as Li. pose proof (sized_lookup size es j H Hj) as Lj.
  rewrite (swapfunc_spec base _ _ _ (es !!! i) (es !!! j));
    [|lia|lia|lia|by apply elem_at; [lia|..]|by apply elem_at; [lia|..]|nia].
  f_equal. unfold swap. rewrite put_elem by (done || lia). rewrite put_elem by (done || lia || (by apply sized_insert) || (by rewrite length_insert)).
  f_equal. by rewrite list_insert_insert_ne by done.
Qed.

Lemma sift_mem m n : forall fuel es root, sized size es -> (n <= length es)%nat -> (root < length es)%nat ->
  Z.of_nat (length es) < 2 ^ 63 -> (0 < fuel)%nat -> (n < root + fuel)%nat ->
  loop fuel (sift_body compar base (Z.of_nat n) size st) (at_ m es, Z.of_nat root) = Ok (at_ m (sift cmp fuel es root n)).
Proof using Hsize Comparator0.
  induction fuel as [|fuel IH]; intros es root H Hn Hr H63 Hf0 Hf; [lia|]. cbn [sift].
  assert (Hchild : u64 (2 * Z.of_nat root + 1) = Z.of_nat (2 * root + 1)) by (rewrite wrap_small by (unfold in_u; lia); lia).
  assert (Hbody : sift_body compar base (Z.of_nat n) size st (at_ m es, Z.of_nat root) =
    if bool_decide (2 * root + 1 < n)%nat then
      let child := big_child cmp es (2 * root + 1) n in
      Ok (if 0 <? cmp (es !!! child) (es !!! root) then inl (at_ m (swap es root child), Z.of_nat child) else inr (at_ m es))
    else Ok (inr (at_ m es))).
  { unfold sift_body. rewrite Hchild. cbv zeta. case_bool_decide as Hc.
    2: { by rewrite (proj2 (Z.ltb_ge _ _)) by lia. }
    rewrite (proj2 (Z.ltb_lt _ _)) by lia. destruct (big_child_of cmp es root n Hc) as [_ Hb].
    assert ((if Z.of_nat (2 * root + 1) + 1 <? Z.of_nat n then
       c ← compar (at_ m es) (base + (Z.of_nat (2 * root + 1) + 1) * size) (base + Z.of_nat (2 * root + 1) * size); Ok (0 <? c)
       else Ok false) = Ok (bool_decide (2 * root + 1 + 1 < n)%nat && (0 <? cmp (es !!! (2 * root + 1 + 1)%nat) (es !!! (2 * root + 1)%nat)))) as ->.
    { case_bool_decide as Hc1.
      - rewrite (proj2 (Z.ltb_lt _ _)) by lia. replace (Z.of_nat (2 * root + 1) + 1) with (Z.of_nat (2 * root + 1 + 1)) by lia.
        by rewrite compar_elem by (done || lia).
      - by rewrite (proj2 (Z.ltb_ge _ _)) by lia. }
    rewrite bind_Ok. assert ((if bool_decide (2 * root + 1 + 1 < n)%nat && (0 <? cmp (es !!! (2 * root + 1 + 1)%nat) (es !!! (2 * root + 1)%nat))
      then Z.of_nat (2 * root + 1) + 1 else Z.of_nat (2 * root + 1)) = Z.of_nat (big_child cmp es (2 * root + 1) n)) as ->.
    { unfold big_child. destruct (_ && _); lia. }
    set (ch := big_child _ _ _ _) in *. clearbody ch. rewrite compar_elem, bind_Ok by (done || lia).
    destruct (0 <? _); [|done]. by rewrite swap_elem by (done || lia). }
  case_bool_decide as Hc; [|by apply loop_done]. cbv zeta in Hbody. destruct (big_child_of cmp es root n Hc) as [_ Hb].
  set (ch := big_child _ _ _ _) in *. clearbody ch. destruct (0 <? _); [|by apply loop_done].
  erewrite loop_step by exact Hbody. apply IH; [by apply sized_swap; [..|lia]|by rewrite length_swap|rewrite length_swap; lia|by rewrite length_swap|lia|lia].
Qed.
Lemma sift_down_mem m es root n : sized size es -> (n <= length es)%nat -> (root < length es)%nat ->
  Z.of_nat (length es) < 2 ^ 63 ->
  sift_down compar (at_ m es) base (Z.of_nat root) (Z.of_nat n) size st = Ok (at_ m (sift cmp (S n) es root n)).
Proof using Hsize Comparator0. intros H Hn Hr H63. unfold sift_down. rewrite Nat2Z.id. apply sift_mem; done || lia. Qed.

Lemma sized_perm es es' : es ≡ₚ es' -> sized size es' -> sized size es.
Proof using Type. intros Hp H. unfold sized. by rewrite Hp. Qed.
Lemma heapify_mem m n k : forall es, sized size es -> n = length es -> (k <= n)%nat -> Z.of_nat n < 2 ^ 63 ->
  heapify compar k (at_ m es) base (Z.of_nat n) size st = Ok (at_ m (heapify_l cmp k es n)).
Proof using Hsize Comparator0.
  induction k as [|k IH]; intros es H -> Hk H63; [done|]. cbn [heapify heapify_l].
  rewrite sift_down_mem, bind_Ok by (done || lia).
  apply IH; [eapply sized_perm; [by apply sift_perm|done]|by rewrite length_sift|lia|done].
Qed.
Lemma unheap_mem m k : forall es, sized size es -> (k < length es)%nat -> Z.of_nat (length es) < 2 ^ 63 ->
  unheap compar k (at_ m es) base size st = Ok (at_ m (unheap_l cmp k es)).
Proof using Hsize Comparator0.
  induction k as [|k IH]; intros es H Hk H63; [done|]. cbn [unheap unheap_l].
  pose proof (swap_elem m es 0 (S k) H ltac:(lia) Hk ltac:(lia)) as Hsw. rewrite Z.mul_0_l, Z.add_0_r in Hsw. rewrite Hsw, bind_Ok.
  assert (Hs1 : sized size (swap es 0 (S k))) by (apply sized_swap; [done|lia|lia]).
  change 0 with (Z.of_nat 0). rewrite sift_down_mem, bind_Ok by (rewrite ?length_swap; done || lia).
  apply IH; [eapply sized_perm; [apply sift_perm; rewrite length_swap; lia|done]|rewrite length_sift; rewrite length_swap; lia
    |rewrite length_sift; rewrite length_swap; lia].
Qed.
End Simulation.

(** ** Claims *)

(** C29: [heapsort].  On an array of [nmemb] elements of [size] bytes the function
    ends, returns 0, and leaves in the array a permutation of the elements that
    is ascending in the order of the comparison function, whichever of its three
    ways of swapping applies; no byte outside the array is read or written. *)
Theorem heapsort_correct m base size compar cmp `{!Comparator size compar cmp} es :
  base <> 0 -> 0 < size < 2 ^ 64 -> sized size es -> bytes_at m base (concat es) -> Z.of_nat (length es) < 2 ^ 63 ->
  exists es', heapsort compar m base (Z.of_nat (length es)) size = Ok (put m base (concat es'), 0) /\ es' ≡ₚ es /\
    forall a b, (a <= b < length es)%nat -> cmp (es' !!! a) (es' !!! b) <= 0.
Proof.
  intros Hb Hs Hes Hm H63. unfold heapsort. rewrite (proj2 (Z.eqb_neq base 0)) by done. cbn [orb].
  assert (Earr : arr base m es = m) by (by apply put_same).
  destruct (Z.leb_spec (Z.of_nat (length es)) 1) as [Hn|Hn].
  { exists es. fold (arr base m es). rewrite Earr. split_and!; [done..|]. intros a b Hab. assert (a = b) as -> by lia.
    destruct (Z.le_gt_cases (cmp (es !!! b) (es !!! b)) 0) as [|Hg]; [done|]. apply cmp_gt_le. lia. }
  rewrite (proj2 (Z.eqb_neq size 0)) by lia. cbv zeta.
  assert (Hhalf : Z.to_nat (Z.of_nat (length es) `div` 2) = (length es / 2)%nat) by (rewrite <- (Nat2Z.inj_div _ 2), Nat2Z.id; done).
  assert (Hle : (length es / 2 <= length es)%nat) by (apply Nat.Div0.div_le_upper_bound; lia).
  pose proof (heapify_mem base size compar cmp Hs m (length es) (length es / 2) es Hes eq_refl Hle H63) as Hh.
  rewrite Earr in Hh. rewrite Hhalf, Hh, bind_Ok.
  pose proof (heapify_perm cmp (length es / 2) es (length es) ltac:(lia)) as Hp. pose proof (Permutation_length Hp) as Hl.
  replace (Z.to_nat (Z.of_nat (length es) - 1)) with (length es - 1)%nat by lia.
  rewrite (unheap_mem base size compar cmp Hs), bind_Ok by (rewrite ?Hl; lia || by eapply sized_perm).
  exists (heapsort_l cmp es). destruct (heapsort_l_sorted cmp cmp_le_trans cmp_gt_le es ltac:(lia)) as [Hperm Hsorted].
  split_and!; [done|done|]. intros a b Hab. by apply Hsorted.
Qed.

(** A comparison of single bytes, as such a function. *)
Definition byte_compar (m : mem) (p q : Z) : outcome Z := a ← rd m p; b ← rd m q; Ok (a - b).
#[export] Instance byte_comparator : Comparator 1 byte_compar (fun x y => hd 0 x - hd 0 y).
Proof.
  split.
  - intros m p q x y Hx Hy Lx Ly. destruct x as [|a [|]]; [done| |cbn in Lx; lia]. destruct y as [|b [|]]; [done| |cbn in Ly; lia].
    apply bytes_at_cons in Hx as [Hx _]. apply bytes_at_cons in Hy as [Hy _]. unfold byte_compar, rd. by rewrite Hx, Hy.
  - lia.
  - lia.
Qed.
Lemma heapsort_correct_witness :
  exists es', heapsort byte_compar (put ∅ 64 [5; 1; 4; 2; 3]) 64 5 1 = Ok (put (put ∅ 64 [5; 1; 4; 2; 3]) 64 (concat es'), 0) /\
    es' ≡ₚ [[5]; [1]; [4]; [2]; [3]] /\
    forall a b, (a <= b < 5)%nat -> hd 0 (es' !!! a) - hd 0 (es' !!! b) <= 0.
Proof.
  apply (heapsort_correct (put ∅ 64 [5; 1; 4; 2; 3]) 64 1 byte_compar (fun x y => hd 0 x - hd 0 y) [[5]; [1]; [4]; [2]; [3]]);
    [done|lia|repeat constructor|mem_check|cbn; lia].
Defined.

Lemma bsearch_loop compar m key base size es (kc : list Z -> Z) : 0 < size < 2 ^ 64 -> sized size es -> bytes_at m base (concat es) ->
  (forall p e, bytes_at m p e -> len e = size -> compar m key p = Ok (kc e)) ->
  (forall a b, (a <= b < length es)%nat -> (kc (es !!! a) < 0 -> kc (es !!! b) < 0) /\ (0 < kc (es !!! b) -> 0 < kc (es !!! a))) ->
  forall fuel l r, (l <= r <= length es)%nat -> (r - l < fuel)%nat ->
  (forall i, (i < l)%nat -> 0 < kc (es !!! i)) -> (forall i, (r <= i < length es)%nat -> kc (es !!! i) < 0) ->
  exists o, loop fuel (bsearch_body compar m key base size) (Z.of_nat l, Z.of_nat r) = Ok o /\
    match o with
    | Some p => exists i, (i < length es)%nat /\ p = base + Z.of_nat i * size /\ kc (es !!! i) = 0
    | None => forall i, (i < length es)%nat -> kc (es !!! i) <> 0
    end.
Proof.
  intros Hs Hes Hm Hkc Hord. assert (Earr : arr base m es = m) by (by apply put_same).
  induction fuel as [|fuel IH]; intros l r Hlr Hf Hlo Hhi; [lia|].
  destruct (Z.ltb_spec (Z.of_nat l) (Z.of_nat r)) as [Hlt|Hge].
  2: { exists None. split.
       - apply loop_done. unfold bsearch_body. by rewrite (proj2 (Z.ltb_ge _ _)) by lia.
       - intros i Hi. destruct (decide (i < l)%nat); [specialize (Hlo i ltac:(lia)); lia|specialize (Hhi i ltac:(lia)); lia]. }
  set (mid := (l + (r - l) / 2)%nat).
  assert (Hmid : (l <= mid < r)%nat).
  { subst mid. pose proof (Nat.div_mod (r - l) 2 ltac:(lia)). pose proof (Nat.mod_upper_bound (r - l) 2 ltac:(lia)). lia. }
  assert (Emid : Z.of_nat l + (Z.of_nat r - Z.of_nat l) `div` 2 = Z.of_nat mid).
  { subst mid. rewrite Nat2Z.inj_add, Nat2Z.inj_div, Nat2Z.inj_sub by lia. done. }
  clearbody mid.
  assert (Hbody : bsearch_body compar m key base size (Z.of_nat l, Z.of_nat r) =
    Ok (if kc (es !!! mid) <? 0 then inl (Z.of_nat l, Z.of_nat mid) else if 0 <? kc (es !!! mid) then inl (Z.of_nat (S mid), Z.of_nat r)
        else inr (Some (base + Z.of_nat mid * size)))).
  { unfold bsearch_body. rewrite (proj2 (Z.ltb_lt _ _)) by lia. cbv zeta. rewrite Emid.
    rewrite (Hkc _ (es !!! mid)); [by rewrite bind_Ok, Nat2Z.inj_succ, <- Z.add_1_r| |].
    - rewrite <- Earr. apply elem_at; [lia|done|lia].
    - rewrite (sized_lookup size es mid Hes) by lia. lia. }
  destruct (Z.ltb_spec (kc (es !!! mid)) 0) as [Hneg|Hnn]; [|destruct (Z.ltb_spec 0 (kc (es !!! mid))) as [Hpos|Hz]].
  - erewrite loop_step by exact Hbody. apply IH; [lia|lia|done|]. intros i Hi. apply (Hord mid i); [lia|done].
  - erewrite loop_step by exact Hbody. apply IH; [lia|lia| |done]. intros i Hi. apply (Hord i mid); [lia|done].
  - eexists. split; [by apply loop_done|]. cbn. exists mid. split_and!; [lia|done|lia].
Qed.

(** [bsearch].  On an array that is sorted with respect to the key the search
    ends and returns the address of an element that compares equal to the key,
    or [NULL] exactly when there is none. *)
Theorem bsearch_correct compar m key base size es (kc : list Z -> Z) :
  key <> 0 -> base <> 0 -> 0 < size < 2 ^ 64 -> sized size es -> bytes_at m base (concat es) ->
  (forall p e, bytes_at m p e -> len e = size -> compar m key p = Ok (kc e)) ->
  (forall a b, (a <= b < length es)%nat -> (kc (es !!! a) < 0 -> kc (es !!! b) < 0) /\ (0 < kc (es !!! b) -> 0 < kc (es !!! a))) ->
  exists o, bsearch compar m key base (Z.of_nat (length es)) size = Ok o /\
    match o with
    | Some p => exists i, (i < length es)%nat /\ p = base + Z.of_nat i * size /\ kc (es !!! i) = 0
    | None => forall i, (i < length es)%nat -> kc (es !!! i) <> 0
    end.
Proof.
  intros Hk Hb Hs Hes Hm Hkc Hord. unfold bsearch.
  rewrite (proj2 (Z.eqb_neq key 0)), (proj2 (Z.eqb_neq base 0)), (proj2 (Z.eqb_neq size 0)) by (done || lia). cbn [orb].
  rewrite Nat2Z.id. change 0 with (Z.of_nat 0) at 1.
  apply (bsearch_loop compar m key base size es kc Hs Hes Hm Hkc Hord); [lia|lia|lia|lia].
Qed.

Lemma bsearch_correct_witness :
  exists o, bsearch byte_compar (put (put ∅ 64 [1; 3; 5; 7]) 32 [5]) 32 64 4 1 = Ok o /\
    match o with
    | Some p => exists i, (i < 4)%nat /\ p = 64 + Z.of_nat i * 1 /\ 5 - hd 0 ([[1]; [3]; [5]; [7]] !!! i) = 0
    | None => forall i, (i < 4)%nat -> 5 - hd 0 ([[1]; [3]; [5]; [7]] !!! i) <> 0
    end.
Proof.
  apply (bsearch_correct byte_compar (put (put ∅ 64 [1; 3; 5; 7]) 32 [5]) 32 64 1 [[1]; [3]; [5]; [7]] (fun e => 5 - hd 0 e));
    [done|done|lia|repeat constructor|mem_check| |].
  - intros p e He Le. apply (compar_bytes (cmp := fun x y => hd 0 x - hd 0 y) _ 32 p [5] e); [mem_check|done|done|done].
  - intros a b Hab. cbn in Hab.
    assert (b = 0 \/ b = 1 \/ b = 2 \/ b = 3)%nat as [->|[->|[->| ->]]] by lia;
    assert (a = 0 \/ a = 1 \/ a = 2 \/ a = 3)%nat as [->|[->|[->| ->]]] by lia; cbn; lia.
Defined.
