(* ===== verification/TimerWheel.v ===== *)
(** * The timer wheel

    The part of [kernel/time/timer.c] that works on one [struct timer_base],
    with its constants and the structure from [kernel/time/internal.h]: placing
    an expiration time on the wheel, finding the next pending bucket, the next
    expiration, and collecting the buckets that are due.  A bucket is the list
    of the timers linked into it, first one first.  The base's lock is held by
    the callers, so the functions here are sequential. *)

From stdpp Require Import sorting.
From S2P Require Import Prelude BitMath BitSet.

Definition TIME_US_MAX : Z := 2 ^ 64 - 1.

Definition TIMER_LEVELS : Z := 10.
Definition TIMER_LEVEL_BITS : Z := 6.
Definition TIMER_LEVEL_SIZE : Z := BIT TIMER_LEVEL_BITS.
Definition TIMER_LEVEL_MASK : Z := TIMER_LEVEL_SIZE - 1.
Definition TIMER_LEVEL_OFFSET (n : Z) : Z := n * TIMER_LEVEL_SIZE.
Definition TIMER_CLOCK_SHIFT : Z := 4.
Definition TIMER_CLOCK_FACTOR : Z := BIT TIMER_CLOCK_SHIFT.
Definition TIMER_CLOCK_MASK : Z := TIMER_CLOCK_FACTOR - 1.
Definition TIMER_LEVEL_SHIFT (n : Z) : Z := n * TIMER_CLOCK_SHIFT.
Definition TIMER_LEVEL_GRANULARITY (n : Z) : Z := BIT (TIMER_LEVEL_SHIFT n).
Definition TIMER_LEVEL_START (n : Z) : Z :=
  u64 (Z.shiftl (TIMER_LEVEL_SIZE - 1) ((n - 1) * TIMER_CLOCK_SHIFT)).
Definition TIMER_WHEEL_SIZE : Z := TIMER_LEVELS * TIMER_LEVEL_SIZE.
Definition TIMER_WHEEL_TIMEOUT_CUTOFF : Z := TIMER_LEVEL_START TIMER_LEVELS.
Definition TIMER_WHEEL_TIMEOUT_MAX : Z :=
  TIMER_WHEEL_TIMEOUT_CUTOFF - TIMER_LEVEL_GRANULARITY (TIMER_LEVELS - 1).

(** [struct timer_base]; the back pointer [percpu] is the per-CPU structure of
    [cpu].  [idle] is never read or written by the code. *)
Record timer_base := mkBase {
  type : Z;
  cpu : Z;
  running : option Z;
  clock : Z;
  next_expiration_us : Z;
  pending : bool;
  next_expiration_recalc : bool;
  pending_map : list Z;
  buckets : list (list Z);
}.

(** The index of the bucket and the time the bucket is run at
    ([bucket_expiration]). *)
Definition wheel_index_for_level (expiration level : Z) : Z * Z :=
  let expiration := u64 (Z.shiftr expiration (TIMER_LEVEL_SHIFT level) + 1) in
  let bucket_expiration := u64 (Z.shiftl expiration (TIMER_LEVEL_SHIFT level)) in
  (u32 (TIMER_LEVEL_OFFSET level + Z.land expiration TIMER_LEVEL_MASK), bucket_expiration).

Definition wheel_index_for (expiration now : Z) : Z * Z :=
  let delta := u64 (expiration - now) in
  if expiration <? now then (u32 (Z.land now TIMER_LEVEL_MASK), now)
  else if delta <? TIMER_LEVEL_START 1 then wheel_index_for_level expiration 0
  else if delta <? TIMER_LEVEL_START 2 then wheel_index_for_level expiration 1
  else if delta <? TIMER_LEVEL_START 3 then wheel_index_for_level expiration 2
  else if delta <? TIMER_LEVEL_START 4 then wheel_index_for_level expiration 3
  else if delta <? TIMER_LEVEL_START 5 then wheel_index_for_level expiration 4
  else if delta <? TIMER_LEVEL_START 6 then wheel_index_for_level expiration 5
  else if delta <? TIMER_LEVEL_START 7 then wheel_index_for_level expiration 6
  else if delta <? TIMER_LEVEL_START 8 then wheel_index_for_level expiration 7
  else if delta <? TIMER_LEVEL_START 9 then wheel_index_for_level expiration 8
  else if delta <? TIMER_LEVEL_START 10 then wheel_index_for_level expiration 9
  else
    let expiration := if TIMER_WHEEL_TIMEOUT_CUTOFF <=? delta then u64 (now + TIMER_WHEEL_TIMEOUT_MAX) else expiration in
    wheel_index_for_level expiration (TIMER_LEVELS - 1).

(** [timer_collect_expired]: the loop over the levels, with the lists moved to
    the array [heads], in the order of the array. *)
Fixpoint collect_levels (n : nat) (i clock : Z) (map : list Z) (bs heads : list (list Z))
    : outcome (list Z * list (list Z) * list (list Z)) :=
  match n with
  | O => Ok (map, bs, heads)
  | S n =>
      let idx := u32 (Z.land clock TIMER_LEVEL_MASK + i * TIMER_LEVEL_SIZE) in
      r ← bitmap_test_and_clear map idx;
      let '(map, set) := r in
      bh ← (if set : bool then
              tmp ← aget bs idx; bs ← aset bs idx []; Ok (bs, heads ++ [tmp])
            else Ok (bs, heads));
      let '(bs, heads) := bh in
      if negb (Z.land clock TIMER_CLOCK_MASK =? 0) then Ok (map, bs, heads)
      else collect_levels n (i + 1) (Z.shiftr clock TIMER_CLOCK_SHIFT) map bs heads
  end.
Definition timer_collect_expired (b : timer_base) : outcome (timer_base * list (list Z)) :=
  r ← collect_levels (Z.to_nat TIMER_LEVELS) 0 (next_expiration_us b) (pending_map b) (buckets b) [];
  let '(map, bs, heads) := r in
  Ok (mkBase (type b) (cpu b) (running b) (next_expiration_us b) (next_expiration_us b) (pending b)
        (next_expiration_recalc b) map bs, heads).

(** The distance from [clock] (a bucket of the level) to the next pending
    bucket of the level at [offset], going round; -1 when there is none. *)
Definition timer_next_pending (map : list Z) (offset clock : Z) : outcome Z :=
  let fin := u32 (offset + TIMER_LEVEL_SIZE) in
  let start := u32 (offset + clock) in
  pos ← bitmap_find_next_bit map fin start;
  let pos := u32 pos in
  if pos <? fin then Ok (i32 (pos - start)) else
  pos ← bitmap_find_next_bit map start offset;
  let pos := u32 pos in
  Ok (if pos <? start then i32 (pos + TIMER_LEVEL_SIZE - start) else -1).

(** The loop over the levels of [timer_recalc_next_expiration]. *)
Fixpoint recalc_levels (n : nat) (lvl : Z) (map : list Z) (next clock : Z) : outcome Z :=
  match n with
  | O => Ok next
  | S n =>
      let offset := u32 (lvl * TIMER_LEVEL_SIZE) in
      pos ← timer_next_pending map offset (Z.land clock TIMER_LEVEL_MASK);
      let clock_lvl := Z.land clock TIMER_CLOCK_MASK in
      let up := u64 (Z.shiftr clock TIMER_CLOCK_SHIFT + (if clock_lvl =? 0 then 0 else 1)) in
      if 0 <=? pos then
        let sum := u64 (Z.shiftl (u64 (clock + pos)) (TIMER_LEVEL_SHIFT lvl)) in
        let next := if sum <? next then sum else next in
        if pos <=? Z.land (u64 (TIMER_CLOCK_FACTOR - clock_lvl)) TIMER_CLOCK_MASK then Ok next
        else recalc_levels n (lvl + 1) map next up
      else recalc_levels n (lvl + 1) map next up
  end.
Definition timer_recalc_next_expiration (b : timer_base) : outcome timer_base :=
  next ← recalc_levels (Z.to_nat TIMER_LEVELS) 0 (pending_map b) TIME_US_MAX (clock b);
  Ok (mkBase (type b) (cpu b) (running b) (clock b) next (negb (next =? TIME_US_MAX)) false
        (pending_map b) (buckets b)).

(** The part of [timer_enqueue_internal] that changes the base, and whether the
    hardware has to be programmed anew. *)
Definition enqueue_base (b : timer_base) (timer idx bucket_expiration : Z) : outcome (timer_base * bool) :=
  head ← aget (buckets b) idx;
  bs ← aset (buckets b) idx (timer :: head);
  map ← bitmap_set (pending_map b) idx;
  Ok (if negb (pending b) || (bucket_expiration <? next_expiration_us b) then
        (mkBase (type b) (cpu b) (running b) (clock b) bucket_expiration true false map bs, true)
      else (mkBase (type b) (cpu b) (running b) (clock b) (next_expiration_us b) (pending b)
              (next_expiration_recalc b) map bs, false)).

(** ** When a bucket is due

    A bucket of level [L] stands for multiples of [16 ^ L] microseconds.  With
    the base's clock at [clk], bucket [idx] is due at the first multiple from
    the clock on whose number is the bucket's, modulo 64. *)
Definition ceil_at (clk lvl : Z) : Z := (clk + 16 ^ lvl - 1) `div` 16 ^ lvl.
Definition slot_time (clk idx : Z) : Z :=
  let lvl := idx `div` 64 in
  let c := ceil_at clk lvl in
  (c + (idx - c) `mod` 64) * 16 ^ lvl.

Lemma pow16_pos l : 0 <= l -> 0 < 16 ^ l.
Proof. intros. apply Z.pow_pos_nonneg; lia. Qed.
Lemma pow16_split l k : 0 <= l -> 0 <= k -> 16 ^ (l + k) = 16 ^ l * 16 ^ k.
Proof. intros. by rewrite Z.pow_add_r. Qed.
Lemma pow16_le9 l : 0 <= l <= 9 -> 16 ^ l <= 2 ^ 36.
Proof. intros. change (2 ^ 36) with (16 ^ 9). apply Z.pow_le_mono_r; lia. Qed.
Lemma shift_lvl l : 0 <= l -> 2 ^ (TIMER_LEVEL_SHIFT l) = 16 ^ l.
Proof. intros. unfold TIMER_LEVEL_SHIFT, TIMER_CLOCK_SHIFT. by rewrite Z.mul_comm, Z.pow_mul_r by lia. Qed.

Lemma ceil_at_spec clk l : 0 <= l -> (ceil_at clk l - 1) * 16 ^ l < clk <= ceil_at clk l * 16 ^ l.
Proof.
  intros Hl. pose proof (pow16_pos l Hl). unfold ceil_at.
  pose proof (Z.div_mod (clk + 16 ^ l - 1) (16 ^ l)). pose proof (Z.mod_pos_bound (clk + 16 ^ l - 1) (16 ^ l)). nia.
Qed.
Lemma ceil_at_unique clk l c : 0 <= l -> (c - 1) * 16 ^ l < clk <= c * 16 ^ l -> ceil_at clk l = c.
Proof. intros Hl Hc. pose proof (pow16_pos l Hl). pose proof (ceil_at_spec clk l Hl). nia. Qed.
Lemma ceil_at_0 clk : ceil_at clk 0 = clk.
Proof. apply ceil_at_unique; lia. Qed.
Lemma ceil_at_le clk l e : 0 <= l -> clk <= e * 16 ^ l -> ceil_at clk l <= e.
Proof. intros Hl He. pose proof (pow16_pos l Hl). pose proof (ceil_at_spec clk l Hl). nia. Qed.
Lemma ceil_at_mono clk clk' l : 0 <= l -> clk <= clk' -> ceil_at clk l <= ceil_at clk' l.
Proof. intros Hl He. apply ceil_at_le; [done|]. pose proof (ceil_at_spec clk' l Hl). lia. Qed.
Lemma ceil_at_nonneg clk l : 0 <= l -> 0 <= clk -> 0 <= ceil_at clk l.
Proof. intros Hl Hc. pose proof (pow16_pos l Hl). pose proof (ceil_at_spec clk l Hl). nia. Qed.
(** One level up, the clock is divided by 16, rounding up. *)
Lemma ceil_at_up clk l : 0 <= l ->
  ceil_at clk (l + 1) = ceil_at clk l `div` 16 + (if ceil_at clk l `mod` 16 =? 0 then 0 else 1).
Proof.
  intros Hl. apply ceil_at_unique; [lia|]. rewrite (pow16_split l 1), Z.pow_1_r by lia. pose proof (pow16_pos l Hl).
  pose proof (ceil_at_spec clk l Hl). set (c := ceil_at clk l) in *.
  pose proof (Z.div_mod c 16). pose proof (Z.mod_pos_bound c 16). destruct (Z.eqb_spec (c `mod` 16) 0); nia.
Qed.
(** The times of the levels' first buckets do not decrease with the level. *)
Lemma ceil_at_climb clk l l' : 0 <= l <= l' -> ceil_at clk l * 16 ^ l <= ceil_at clk l' * 16 ^ l'.
Proof.
  intros Hl. replace l' with (l + (l' - l)) by lia. generalize (l' - l) (Zle_minus_le_0 _ _ (proj2 Hl)). intros k Hk.
  pose proof (ceil_at_spec clk (l + k)) as Hs. rewrite pow16_split in * by lia.
  pose proof (ceil_at_le clk l (ceil_at clk (l + k) * 16 ^ k)). pose proof (pow16_pos l). nia.
Qed.

(** A bucket's time, and how to recognise it. *)
Lemma slot_time_spec clk idx : 0 <= idx -> exists e, slot_time clk idx = e * 16 ^ (idx `div` 64) /\
  e `mod` 64 = idx `mod` 64 /\ ceil_at clk (idx `div` 64) <= e < ceil_at clk (idx `div` 64) + 64.
Proof.
  intros Hi. unfold slot_time. set (c := ceil_at clk _). exists (c + (idx - c) `mod` 64). split_and!; [done| | |].
  - rewrite Zplus_mod_idemp_r. f_equal. lia.
  - pose proof (Z.mod_pos_bound (idx - c) 64). lia.
  - pose proof (Z.mod_pos_bound (idx - c) 64). lia.
Qed.
Lemma slot_time_unique clk l e s : 0 <= l -> 0 <= s < 64 -> e `mod` 64 = s -> ceil_at clk l <= e < ceil_at clk l + 64 ->
  slot_time clk (64 * l + s) = e * 16 ^ l.
Proof.
  intros Hl Hs He Hc. unfold slot_time.
  replace ((64 * l + s) `div` 64) with l by (rewrite Z.mul_comm, Z.div_add_l, (Z.div_small s 64) by lia; lia).
  set (c := ceil_at clk l) in *. f_equal.
  replace ((64 * l + s - c) `mod` 64) with (e - c); [lia|]. rewrite <- (Z.mod_small (e - c) 64) by lia.
  pose proof (Z.div_mod e 64 ltac:(lia)). replace (e - c) with (64 * l + s - c + (e `div` 64 - l) * 64) by lia.
  by rewrite Z_mod_plus_full.
Qed.
Lemma idx_split idx : 0 <= idx -> idx = 64 * (idx `div` 64) + idx `mod` 64 /\ 0 <= idx `mod` 64 < 64 /\ 0 <= idx `div` 64.
Proof. intros. pose proof (div_mod64 idx). pose proof (Z.div_pos idx 64). lia. Qed.

Lemma slot_time_ge clk idx : 0 <= idx -> clk <= slot_time clk idx.
Proof.
  intros Hi. destruct (slot_time_spec clk idx Hi) as (e & -> & _ & He). destruct (idx_split idx Hi) as (_ & _ & Hl).
  pose proof (pow16_pos _ Hl). pose proof (ceil_at_spec clk _ Hl). nia.
Qed.
(** Advancing the clock up to a bucket's time does not change the time. *)
Lemma slot_time_shift clk clk' idx : 0 <= idx -> clk <= clk' <= slot_time clk idx ->
  slot_time clk' idx = slot_time clk idx.
Proof.
  intros Hi Hc. destruct (idx_split idx Hi) as (Ei & Hs & Hl). destruct (slot_time_spec clk idx Hi) as (e & Ee & Hm & He).
  rewrite Ee in *. rewrite Ei at 1. apply slot_time_unique; [done..|].
  pose proof (ceil_at_le clk' _ e Hl (proj2 Hc)). pose proof (ceil_at_mono clk clk' _ Hl (proj1 Hc)). lia.
Qed.
Lemma slot_time_bound clk idx : 0 <= idx < 640 -> slot_time clk idx < clk + 64 * 2 ^ 36.
Proof.
  intros Hi. destruct (slot_time_spec clk idx ltac:(lia)) as (e & -> & _ & He). destruct (idx_split idx ltac:(lia)) as (Ei & Hm & Hl).
  pose proof (pow16_pos _ Hl). pose proof (ceil_at_spec clk _ Hl).
  pose proof (pow16_le9 (idx `div` 64) ltac:(lia)). nia.
Qed.

(** ** Placing a timer *)

Lemma land_level x : Z.land x TIMER_LEVEL_MASK = x `mod` 64.
Proof. change TIMER_LEVEL_MASK with (Z.ones 6). by rewrite Z.land_ones. Qed.
Lemma land_clock x : Z.land x TIMER_CLOCK_MASK = x `mod` 16.
Proof. change TIMER_CLOCK_MASK with (Z.ones 4). by rewrite Z.land_ones. Qed.
Lemma shiftr_clock x : Z.shiftr x TIMER_CLOCK_SHIFT = x `div` 16.
Proof. by rewrite Z.shiftr_div_pow2. Qed.
Lemma u32_idx idx : 0 <= idx < 2 ^ 32 -> u32 idx = idx.
Proof. apply wrap_small. Qed.

Lemma wheel_index_for_level_eq exp l : 0 <= l <= 9 -> 0 <= exp < 2 ^ 64 - 2 ^ 37 ->
  let e := exp `div` 16 ^ l + 1 in
  wheel_index_for_level exp l = (64 * l + e `mod` 64, e * 16 ^ l) /\ exp < e * 16 ^ l <= exp + 16 ^ l.
Proof.
  intros Hl He e. pose proof (pow16_pos l ltac:(lia)) as Hp. pose proof (pow16_le9 l Hl).
  pose proof (Z.div_mod exp (16 ^ l)). pose proof (Z.mod_pos_bound exp (16 ^ l) Hp).
  assert (Hb : exp < e * 16 ^ l <= exp + 16 ^ l) by (unfold e; nia). split; [|done].
  assert (0 < e) by nia. assert (e <= e * 16 ^ l) by nia.
  unfold wheel_index_for_level. rewrite Z.shiftr_div_pow2 by (unfold TIMER_LEVEL_SHIFT, TIMER_CLOCK_SHIFT; lia).
  rewrite shift_lvl by lia. fold e. rewrite (wrap_small 64 e) by (unfold in_u; lia).
  rewrite Z.shiftl_mul_pow2, shift_lvl by (unfold TIMER_LEVEL_SHIFT, TIMER_CLOCK_SHIFT; lia).
  rewrite land_level, (wrap_small 64) by (unfold in_u; lia). pose proof (Z.mod_pos_bound e 64).
  unfold TIMER_LEVEL_OFFSET. change TIMER_LEVEL_SIZE with 64. rewrite wrap_small by (unfold in_u; lia). f_equal. lia.
Qed.

(** What [wheel_index_for] promises of the bucket [idx] and its time [at_]. *)
Definition placed (expiration now idx at_ : Z) : Prop :=
  0 <= idx < TIMER_WHEEL_SIZE /\ slot_time now idx = at_ /\
  (expiration < now -> at_ = now) /\
  (now <= expiration < now + TIMER_WHEEL_TIMEOUT_CUTOFF ->
     expiration < at_ <= expiration + Z.max 1 ((16 * (expiration - now)) `div` 63)) /\
  (now + TIMER_WHEEL_TIMEOUT_CUTOFF <= expiration ->
     now + TIMER_WHEEL_TIMEOUT_MAX < at_ <= now + TIMER_WHEEL_TIMEOUT_CUTOFF).

(** The constants of the wheel as numbers. *)
Ltac wheel_consts :=
  change TIMER_WHEEL_TIMEOUT_CUTOFF with (63 * 2 ^ 36) in *; change TIMER_WHEEL_TIMEOUT_MAX with (62 * 2 ^ 36) in *;
  change TIMER_WHEEL_SIZE with 640 in *; change TIMER_LEVEL_SIZE with 64 in *; change TIMER_LEVELS with 10 in *;
  change TIMER_CLOCK_FACTOR with 16 in *.

Lemma level_slot exp now l : 0 <= l <= 9 -> 0 <= now <= exp -> exp < 2 ^ 64 - 2 ^ 37 -> exp - now < 63 * 16 ^ l ->
  let '(idx, at_) := wheel_index_for_level exp l in
  0 <= idx < 640 /\ slot_time now idx = at_ /\ exp < at_ <= exp + 16 ^ l.
Proof.
  intros Hl Hn He Hd. pose proof (pow16_pos l ltac:(lia)) as Hp.
  destruct (wheel_index_for_level_eq exp l Hl ltac:(lia)) as [-> Hb].
  set (e := exp `div` 16 ^ l + 1) in *. pose proof (Z.mod_pos_bound e 64). split_and!; [lia..| |lia|lia].
  apply slot_time_unique; [lia..|]. pose proof (ceil_at_spec now l ltac:(lia)). nia.
Qed.
(** A level above the first is used only for a distance past the level below. *)
Lemma level_placed exp now l : 0 <= l <= 9 -> 0 <= now <= exp -> exp < 2 ^ 64 - 2 ^ 37 ->
  (l = 0 \/ 63 * 16 ^ (l - 1) <= exp - now) -> exp - now < 63 * 16 ^ l ->
  let '(idx, at_) := wheel_index_for_level exp l in placed exp now idx at_.
Proof.
  intros Hl Hn He Hlo Hd. pose proof (level_slot exp now l Hl Hn He Hd) as H.
  destruct (wheel_index_for_level exp l) as [idx at_]. destruct H as (Hi & Hs & Ha).
  assert (Hc : 63 * 16 ^ l <= TIMER_WHEEL_TIMEOUT_CUTOFF).
  { change TIMER_WHEEL_TIMEOUT_CUTOFF with (63 * 2 ^ 36). pose proof (pow16_le9 l Hl). lia. }
  unfold placed. wheel_consts. split_and!; [lia|lia|done|lia|intros _|lia]. split; [lia|].
  destruct Hlo as [->|Hlo]; [lia|]. destruct (decide (l = 0)) as [->|]; [lia|].
  assert (16 ^ l <= (16 * (exp - now)) `div` 63); [|lia]. apply Z.div_le_lower_bound; [lia|].
  replace l with (l - 1 + 1) by lia. rewrite pow16_split by lia. lia.
Qed.

Lemma wheel_index_for_spec exp now : 0 <= now < 2 ^ 63 -> 0 <= exp < 2 ^ 64 ->
  let '(idx, at_) := wheel_index_for exp now in placed exp now idx at_.
Proof.
  intros Hn He. unfold wheel_index_for. destruct (Z.ltb_spec exp now).
  { rewrite land_level. pose proof (Z.mod_pos_bound now 64). rewrite wrap_small by (unfold in_u; lia).
    assert (slot_time now (now `mod` 64) = now).
    { pose proof (slot_time_unique now 0 now (now `mod` 64)) as E. change (64 * 0 + now `mod` 64) with (now `mod` 64) in E. rewrite ceil_at_0 in E. rewrite E; lia. }
    unfold placed. wheel_consts. split_and!; [lia|lia|done|done|lia|lia]. }
  rewrite wrap_small by (unfold in_u; lia).
  change (TIMER_LEVEL_START 1) with (63 * 16 ^ 0). change (TIMER_LEVEL_START 2) with (63 * 16 ^ 1).
  change (TIMER_LEVEL_START 3) with (63 * 16 ^ 2). change (TIMER_LEVEL_START 4) with (63 * 16 ^ 3).
  change (TIMER_LEVEL_START 5) with (63 * 16 ^ 4). change (TIMER_LEVEL_START 6) with (63 * 16 ^ 5).
  change (TIMER_LEVEL_START 7) with (63 * 16 ^ 6). change (TIMER_LEVEL_START 8) with (63 * 16 ^ 7).
  change (TIMER_LEVEL_START 9) with (63 * 16 ^ 8). change (TIMER_LEVEL_START 10) with (63 * 16 ^ 9).
  repeat match goal with
  | |- context [if ?a <? 63 * 16 ^ ?l then _ else _] => destruct (Z.ltb_spec a (63 * 16 ^ l)) as [Hd|Hd];
      [apply level_placed; [lia|lia|lia|first [by left|right; exact Hlast]|exact Hd]|try clear Hlast; rename Hd into Hlast]
  end.
  change TIMER_WHEEL_TIMEOUT_CUTOFF with (63 * 16 ^ 9) at 1. rewrite (proj2 (Z.leb_le _ _)) by done.
  change (TIMER_LEVELS - 1) with 9. change TIMER_WHEEL_TIMEOUT_MAX with (62 * 2 ^ 36).
  rewrite wrap_small by (unfold in_u; lia).
  pose proof (level_slot (now + 62 * 2 ^ 36) now 9 ltac:(lia) ltac:(lia) ltac:(lia) ltac:(lia)) as H9.
  destruct (wheel_index_for_level _ 9) as [idx at_]. destruct H9 as (Hi & Hs & Ha).
  unfold placed. wheel_consts. split_and!; [lia|lia|done|lia|lia|lia].
Qed.

(** ** The next expiration *)

Lemma bm_wf_le map n k : 0 <= k <= n -> bm_wf map n -> bm_wf map k.
Proof.
  intros Hk (_ & Hl & F). split_and!; [lia| |done].
  pose proof (words_bound k ltac:(lia)). pose proof (words_bound n ltac:(lia)). lia.
Qed.
Lemma find_next_bit_spec map nbits start : bm_wf map nbits -> 0 <= start ->
  exists r, bitmap_find_next_bit map nbits start = Ok r /\ least_in (tb map) (Z.min nbits start) nbits r.
Proof. intros Hwf Hs. by apply (find_next_spec (fun w => w) (fun b => b)). Qed.

Section wheel.
Context (map : list Z) (Hwf : bm_wf map 640).

(** The first pending bucket of a level, counted from the clock. *)
Lemma timer_next_pending_spec l c : 0 <= l <= 9 ->
  exists pos, timer_next_pending map (64 * l) (c `mod` 64) = Ok pos /\
    (pos = -1 /\ (forall j, 0 <= j < 64 -> tb map (64 * l + j) = false) \/
     0 <= pos < 64 /\ tb map (64 * l + (c + pos) `mod` 64) = true /\
     forall j, 0 <= j < pos -> tb map (64 * l + (c + j) `mod` 64) = false).
Proof using Hwf.
  intros Hl. pose proof (div_mod64 c) as [Ec Hs]. set (s := c `mod` 64) in *.
  assert (Hmod : forall j, 0 <= j < 64 -> (c + j) `mod` 64 = if s + j <? 64 then s + j else s + j - 64).
  { intros j Hj. rewrite <- Zplus_mod_idemp_l. fold s. destruct (Z.ltb_spec (s + j) 64); [by rewrite Z.mod_small by lia|].
    rewrite <- (Z_mod_plus_full _ (-1)). by rewrite Z.mod_small by lia. }
  unfold timer_next_pending. wheel_consts. rewrite (u32_idx (64 * l + 64)), (u32_idx (64 * l + s)) by lia.
  destruct (find_next_bit_spec map (64 * l + 64) (64 * l + s)) as (r & -> & Hr & Hn & Ht);
    [by apply (bm_wf_le _ 640); [lia|]|lia|]. rewrite bind_Ok. cbv zeta. rewrite u32_idx by lia. rewrite Z.min_r in * by lia.
  destruct (Z.ltb_spec r (64 * l + 64)) as [Hlt|Hge].
  - exists (r - (64 * l + s)). rewrite sgn_small by (done || unfold in_s; lia). split; [done|]. right. split_and!; [lia..| |].
    + rewrite Hmod by lia. rewrite (proj2 (Z.ltb_lt _ _)) by lia.
      replace (64 * l + _) with r by lia. by apply Ht.
    + intros j Hj. rewrite Hmod by lia. rewrite (proj2 (Z.ltb_lt _ _)) by lia. apply Hn. lia.
  - destruct (find_next_bit_spec map (64 * l + s) (64 * l)) as (r' & -> & Hr' & Hn' & Ht');
      [by apply (bm_wf_le _ 640); [lia|]|lia|]. rewrite bind_Ok. rewrite u32_idx by lia. rewrite Z.min_r in * by lia.
    eexists. split; [done|]. destruct (Z.ltb_spec r' (64 * l + s)) as [Hlt|Hge'].
    + right. rewrite sgn_small by (done || unfold in_s; lia). split_and!; [lia..| |].
      * rewrite Hmod by lia. rewrite (proj2 (Z.ltb_ge _ _)) by lia.
        replace (64 * l + _) with r' by lia. by apply Ht'.
      * intros j Hj. rewrite Hmod by lia. destruct (Z.ltb_spec (s + j) 64); [apply Hn|apply Hn']; lia.
    + left. split; [done|]. intros j Hj. destruct (decide (j < s)); [apply Hn'|apply Hn]; lia.
Qed.

(** [r] is the least of [next] and the times of the pending buckets from level
    [l] on. *)
Definition least_due (clk l next r : Z) : Prop :=
  r <= next /\ (forall idx, 64 * l <= idx < 640 -> tb map idx = true -> r <= slot_time clk idx) /\
  (r = next \/ exists idx, 64 * l <= idx < 640 /\ tb map idx = true /\ r = slot_time clk idx).

(** The buckets of one level, by their distance from the clock. *)
Lemma level_idx clk l j : 0 <= l -> 0 <= j < 64 ->
  slot_time clk (64 * l + (ceil_at clk l + j) `mod` 64) = (ceil_at clk l + j) * 16 ^ l.
Proof using Type. intros Hl Hj. apply slot_time_unique; [done| |done|lia]. apply Z.mod_pos_bound. lia. Qed.
Lemma level_dist clk l idx : 0 <= l -> 64 * l <= idx < 64 * (l + 1) ->
  exists j, 0 <= j < 64 /\ idx = 64 * l + (ceil_at clk l + j) `mod` 64.
Proof using Type.
  intros Hl Hi. exists ((idx - ceil_at clk l) `mod` 64). split; [apply Z.mod_pos_bound; lia|].
  rewrite Zplus_mod_idemp_r. replace (ceil_at clk l + (idx - ceil_at clk l)) with (idx - 64 * l + l * 64) by lia.
  rewrite Z_mod_plus_full, Z.mod_small by lia. lia.
Qed.
(** Buckets of the levels above are due no earlier than the first multiple of
    the next level's granularity. *)
Lemma higher_level clk l idx : 0 <= l -> 64 * l <= idx -> ceil_at clk l * 16 ^ l <= slot_time clk idx.
Proof using Type.
  intros Hl Hi. destruct (idx_split idx ltac:(lia)) as (Ei & Hm & Hd). destruct (slot_time_spec clk idx ltac:(lia)) as (e & -> & _ & He).
  pose proof (ceil_at_climb clk l (idx `div` 64) ltac:(lia)). pose proof (pow16_pos _ Hd). nia.
Qed.
Lemma least_due_up clk l next next' r : 0 <= l ->
  least_due clk (l + 1) next' r -> next' <= next ->
  (forall idx, 64 * l <= idx < 64 * (l + 1) -> tb map idx = true -> next' <= slot_time clk idx) ->
  (next' = next \/ exists idx, 64 * l <= idx < 640 /\ tb map idx = true /\ next' = slot_time clk idx) ->
  least_due clk l next r.
Proof using Type.
  intros Hl (H1 & H2 & H3) Hn Hlow Hwit. split_and!; [lia| |].
  - intros idx Hi Ht. destruct (decide (idx < 64 * (l + 1))); [specialize (Hlow idx ltac:(lia) Ht); lia|apply H2; [lia|done]].
  - destruct H3 as [->|(idx & Hi & H3)]; [destruct Hwit as [->|?]; eauto|]. right. exists idx. split; [lia|done].
Qed.

(** Stopping early: a bucket before the end of the round of 16 is due before
    everything in the levels above. *)
Lemma least_due_break clk l next pos : 0 <= l ->
  pos <= (16 - ceil_at clk l `mod` 16) `mod` 16 -> next <= (ceil_at clk l + pos) * 16 ^ l ->
  least_due clk (l + 1) next next.
Proof using Type.
  intros Hl Hpos Hn. split_and!; [lia| |by left]. intros idx Hi _. pose proof (higher_level clk (l + 1) idx ltac:(lia) ltac:(lia)) as Hh.
  rewrite ceil_at_up, pow16_split, Z.pow_1_r in Hh by lia. set (c := ceil_at clk l) in *. pose proof (pow16_pos l Hl).
  pose proof (Z.div_mod c 16 ltac:(lia)). pose proof (Z.mod_pos_bound c 16 ltac:(lia)).
  destruct (Z.eqb_spec (c `mod` 16) 0) as [E0|E0].
  - rewrite E0, Z.sub_0_r, Z_mod_same_full in Hpos. nia.
  - rewrite (Z.mod_small (16 - _)) in Hpos by lia. nia.
Qed.

Lemma level_min clk l pos : 0 <= l <= 9 -> 0 <= pos < 64 ->
  (forall j, 0 <= j < pos -> tb map (64 * l + (ceil_at clk l + j) `mod` 64) = false) ->
  forall idx, 64 * l <= idx < 64 * (l + 1) -> tb map idx = true -> (ceil_at clk l + pos) * 16 ^ l <= slot_time clk idx.
Proof using Type.
  intros Hl Hpos Hno idx Hi Ht. destruct (level_dist clk l idx ltac:(lia) Hi) as (j & Hj & ->).
  rewrite level_idx by lia. pose proof (pow16_pos l ltac:(lia)). destruct (decide (j < pos)); [|nia].
  by rewrite Hno in Ht by lia.
Qed.

Lemma recalc_levels_spec clk n : 0 <= clk < 2 ^ 63 -> forall l next, 0 <= l -> l + Z.of_nat n = 10 ->
  exists r, recalc_levels n l map next (ceil_at clk l) = Ok r /\ least_due clk l next r.
Proof using Hwf.
  intros Hclk. induction n as [|n IH]; intros l next Hl Hn; cbn [recalc_levels].
  { exists next. split; [done|]. split_and!; [lia|intros; lia|by left]. }
  rewrite land_level, !land_clock, shiftr_clock. wheel_consts. rewrite (Z.mul_comm l 64), u32_idx by lia.
  pose proof (ceil_at_nonneg clk l Hl ltac:(lia)) as Hc0. pose proof (ceil_at_spec clk l Hl) as Hcs.
  pose proof (ceil_at_up clk l Hl) as Hup. pose proof (pow16_pos l Hl) as Hp. pose proof (pow16_le9 l ltac:(lia)) as Hp9.
  destruct (timer_next_pending_spec l (ceil_at clk l)) as (pos & -> & Hpos); [lia|]. rewrite bind_Ok. cbv zeta.
  assert (ceil_at clk l < 2 ^ 63 + 1) by nia. pose proof (Z.mod_pos_bound (ceil_at clk l) 16 ltac:(lia)).
  pose proof (Z.div_mod (ceil_at clk l) 16 ltac:(lia)).
  rewrite <- Hup, (wrap_small 64 (ceil_at clk (l + 1)))
    by (rewrite Hup; unfold in_u; destruct (_ =? 0); lia). rewrite (wrap_small 64 (16 - _)) by (unfold in_u; lia).
  destruct Hpos as [[-> Hnone]|(Hpos & Hset & Hno)].
  - change (0 <=? -1) with false. cbv iota. destruct (IH (l + 1) next) as (r & -> & Hr); [lia..|]. exists r. split; [done|].
    apply (least_due_up clk l next next); [done|done|lia| |by left]. intros idx Hi Ht.
    specialize (Hnone (idx - 64 * l) ltac:(lia)). replace (64 * l + (idx - 64 * l)) with idx in Hnone by lia. congruence.
  - rewrite (proj2 (Z.leb_le 0 pos)) by lia. set (sum := (ceil_at clk l + pos) * 16 ^ l).
    assert (Hsum : u64 (Z.shiftl (u64 (ceil_at clk l + pos)) (TIMER_LEVEL_SHIFT l)) = sum).
    { rewrite (wrap_small 64 (_ + _)) by (unfold in_u; lia).
      rewrite Z.shiftl_mul_pow2, shift_lvl by (unfold TIMER_LEVEL_SHIFT, TIMER_CLOCK_SHIFT; lia).
      apply wrap_small. unfold in_u, sum. nia. }
    rewrite Hsum. set (next' := if sum <? next then sum else next).
    assert (Hn' : next' <= next /\ next' <= sum /\ (next' = next \/ next' = sum))
      by (unfold next'; destruct (Z.ltb_spec sum next); lia).
    assert (Hw : next' = next \/ exists idx, 64 * l <= idx < 640 /\ tb map idx = true /\ next' = slot_time clk idx).
    { destruct Hn' as (_ & _ & [?| ->]); [by left|right]. pose proof (Z.mod_pos_bound (ceil_at clk l + pos) 64 ltac:(lia)).
      eexists. split_and!; [| |exact Hset|]; [lia..|]. by rewrite level_idx by lia. }
    assert (Hlow : forall idx, 64 * l <= idx < 64 * (l + 1) -> tb map idx = true -> next' <= slot_time clk idx).
    { intros idx Hi Ht. pose proof (level_min clk l pos ltac:(lia) Hpos Hno idx Hi Ht). fold sum in H2. lia. }
    destruct (Z.leb_spec pos ((16 - ceil_at clk l `mod` 16) `mod` 16)) as [Hbr|Hbr].
    + exists next'. split; [done|]. apply (least_due_up clk l next next'); [done| |lia|done|done].
      apply (least_due_break clk l next' pos); [done|done|lia].
    + destruct (IH (l + 1) next') as (r & -> & Hr); [lia..|]. exists r. split; [done|].
      apply (least_due_up clk l next next'); [done|done|lia|done|done].
Qed.
End wheel.

(** ** Collecting what is due *)

(** The bucket [idx]. *)
Definition at_idx (bs : list (list Z)) (idx : Z) : list Z := default [] (bs !! Z.to_nat idx).

Lemma at_idx_insert bs i j x : 0 <= i < Z.of_nat (length bs) -> 0 <= j ->
  at_idx (<[Z.to_nat i := x]> bs) j = if j =? i then x else at_idx bs j.
Proof.
  intros Hi Hj. unfold at_idx. destruct (Z.eqb_spec j i) as [->|].
  - by rewrite list_lookup_insert_eq by lia.
  - by rewrite list_lookup_insert_ne by lia.
Qed.
Lemma aget_at_idx bs i : 0 <= i < Z.of_nat (length bs) -> aget bs i = Ok (at_idx bs i).
Proof.
  intros Hi. apply aget_Ok. split; [lia|]. unfold at_idx. destruct (lookup_lt_is_Some_2 bs (Z.to_nat i)) as [x ->]; [lia|done].
Qed.

Lemma filter_seqZ_none (P : Z -> bool) a n : (forall y, a <= y < a + n -> P y = false) -> filter P (seqZ a n) = [].
Proof.
  intros H. apply elem_of_nil_inv. intros y Hy. apply list_elem_of_filter in Hy as [Hp Hy]. apply elem_of_seqZ in Hy.
  by rewrite H in Hp.
Qed.
Lemma filter_seqZ_one (P : Z -> bool) a n x : a <= x < a + n -> (forall y, a <= y < a + n -> P y = true -> y = x) ->
  filter P (seqZ a n) = if P x then [x] else [].
Proof.
  intros Hx Hu. replace n with ((x - a) + (1 + (a + n - x - 1))) by lia. rewrite !seqZ_app by lia.
  rewrite !list.filter_app, (filter_seqZ_none P a), (filter_seqZ_none P (a + (x - a) + 1)).
  - rewrite app_nil_r. replace (a + (x - a)) with x by lia. change (seqZ x 1) with [0 + x]. rewrite Z.add_0_l, filter_cons, filter_nil. by destruct (P x).
  - intros y Hy. destruct (P y) eqn:E; [|done]. specialize (Hu y ltac:(lia) E). lia.
  - intros y Hy. destruct (P y) eqn:E; [|done]. specialize (Hu y ltac:(lia) E). lia.
Qed.

Lemma filter_seqZ_sorted (P : Z -> bool) a n : StronglySorted Z.lt (filter P (seqZ a n)).
Proof.
  destruct (decide (n < 0)) as [Hn|Hn]; [by rewrite seqZ_nil by lia; constructor|].
  replace n with (Z.of_nat (Z.to_nat n)) by lia. clear Hn. revert a. induction (Z.to_nat n) as [|m IH]; intros a; [constructor|].
  rewrite seqZ_cons by lia. replace (Z.pred (Z.of_nat (S m))) with (Z.of_nat m) by lia. rewrite filter_cons.
  destruct (decide (P a)); [|done]. constructor; [done|]. apply list.Forall_forall. intros x Hx.
  apply list_elem_of_filter in Hx as [_ Hx%elem_of_seqZ]. lia.
Qed.

(** The pending buckets from level [l] on that are due at [c], the clock. *)
Definition due_at (map : list Z) (c idx : Z) : bool := tb map idx && (slot_time c idx =? c).
Definition due_slots (map : list Z) (c l : Z) : list Z := filter (due_at map c) (seqZ (64 * l) (640 - 64 * l)).

(** At a level whose granularity divides the clock, one bucket is due. *)
Lemma slot_now c l idx : 0 <= l -> c `mod` 16 ^ l = 0 -> 64 * l <= idx < 64 * (l + 1) ->
  slot_time c idx = c <-> idx = 64 * l + (c `div` 16 ^ l) `mod` 64.
Proof.
  intros Hl Hc Hi. pose proof (pow16_pos l Hl) as Hp. pose proof (Z.div_mod c (16 ^ l)) as Hd.
  assert (Ec : ceil_at c l = c `div` 16 ^ l) by (apply ceil_at_unique; [done|nia]).
  destruct (level_dist c l idx Hl Hi) as (j & Hj & Ei). rewrite Ei, level_idx, Ec by done. split.
  - intros E. assert (j = 0) as -> by nia. by rewrite Z.add_0_r.
  - intros E. assert (j = 0) as ->; [|nia]. assert ((c `div` 16 ^ l + j) `mod` 64 = (c `div` 16 ^ l) `mod` 64) as E' by lia.
    pose proof (Z.div_mod (c `div` 16 ^ l + j) 64). pose proof (Z.div_mod (c `div` 16 ^ l) 64). lia.
Qed.
(** No bucket of a level whose granularity does not divide the clock is due. *)
Lemma slot_not_now c l idx : 0 <= l -> c `mod` 16 ^ l <> 0 -> 64 * l <= idx -> slot_time c idx <> c.
Proof.
  intros Hl Hc Hi E. apply Hc. destruct (idx_split idx ltac:(lia)) as (Ei & Hm & Hd).
  destruct (slot_time_spec c idx ltac:(lia)) as (e & Es & _). rewrite E in Es.
  rewrite Es. replace (idx `div` 64) with (l + (idx `div` 64 - l)) by lia. rewrite pow16_split by lia.
  rewrite (Z.mul_comm (16 ^ l)), Z.mul_assoc. apply Z_mod_mult.
Qed.
Lemma pow16_next c l : 0 <= l -> c `mod` 16 ^ l = 0 ->
  (c `mod` 16 ^ (l + 1) = 0 <-> (c `div` 16 ^ l) `mod` 16 = 0) /\ c `div` 16 ^ (l + 1) = (c `div` 16 ^ l) `div` 16.
Proof.
  intros Hl Hc. pose proof (pow16_pos l Hl). rewrite (pow16_split l 1), Z.pow_1_r by lia.
  rewrite Z.div_div by lia. split; [|done]. rewrite Z.rem_mul_r by lia. rewrite Hc. nia.
Qed.
Lemma due_slots_none map c l : 0 <= l -> c `mod` 16 ^ l <> 0 -> due_slots map c l = [].
Proof.
  intros Hl Hc. apply filter_seqZ_none. intros y Hy. unfold due_at. apply andb_false_iff. right. apply Z.eqb_neq.
  apply (slot_not_now c l); [done|done|lia].
Qed.
Lemma due_slots_level map c l : 0 <= l <= 9 -> c `mod` 16 ^ l = 0 ->
  let idx := 64 * l + (c `div` 16 ^ l) `mod` 64 in
  due_slots map c l = (if tb map idx then [idx] else []) ++ due_slots map c (l + 1).
Proof.
  intros Hl Hc idx. pose proof (Z.mod_pos_bound (c `div` 16 ^ l) 64 ltac:(lia)).
  unfold due_slots. replace (640 - 64 * l) with (64 + (640 - 64 * (l + 1))) by lia. rewrite seqZ_app by lia.
  rewrite list.filter_app. f_equal; [|by replace (64 * l + 64) with (64 * (l + 1)) by lia].
  rewrite (filter_seqZ_one (due_at map c) _ _ idx).
  - unfold due_at. rewrite (proj2 (Z.eqb_eq _ _)); [by rewrite andb_true_r|]. apply (slot_now c l); [lia|done|lia|done].
  - lia.
  - intros y Hy Hd. apply andb_true_iff in Hd as [_ Hd]. apply Z.eqb_eq in Hd. apply (slot_now c l) in Hd; [done|lia|done|lia].
Qed.

Lemma due_slots_range map c l idx : idx ∈ due_slots map c l -> 64 * l <= idx < 640.
Proof. intros H. apply list_elem_of_filter in H as [_ H]. apply elem_of_seqZ in H. lia. Qed.
Lemma filter_ext_in (P Q : Z -> bool) (l : list Z) : (forall x, x ∈ l -> P x = Q x) -> filter P l = filter Q l.
Proof.
  induction l as [|x l IH]; intros H; [done|]. rewrite !filter_cons, (H x) by left. rewrite IH; [done|].
  intros y Hy. apply H. by right.
Qed.
Lemma due_slots_ext map map' c l : (forall idx, 64 * l <= idx < 640 -> tb map idx = tb map' idx) ->
  due_slots map c l = due_slots map' c l.
Proof. intros H. apply filter_ext_in. intros x Hx%elem_of_seqZ. unfold due_at. by rewrite H by lia. Qed.

(** The map and the buckets after the buckets of [S] have been taken out. *)
Record cleared (S : list Z) (map : list Z) (bs : list (list Z)) (map' : list Z) (bs' : list (list Z)) : Prop := mkCleared {
  cl_wf : bm_wf map' 640;
  cl_len : length bs' = 640%nat;
  cl_map : forall idx, 0 <= idx -> tb map' idx = tb map idx && negb (bool_decide (idx ∈ S));
  cl_buckets : forall idx, 0 <= idx -> at_idx bs' idx = if bool_decide (idx ∈ S) then [] else at_idx bs idx;
}.

Lemma cleared_nil map bs : bm_wf map 640 -> length bs = 640%nat -> cleared [] map bs map bs.
Proof. intros. split; [done..| |]; intros idx _; rewrite bool_decide_false by apply not_elem_of_nil; by rewrite ?andb_true_r. Qed.
Lemma cleared_app S1 S2 m0 b0 m1 b1 m2 b2 :
  cleared S1 m0 b0 m1 b1 -> cleared S2 m1 b1 m2 b2 -> cleared (S1 ++ S2) m0 b0 m2 b2.
Proof.
  intros [_ _ M1 B1] [W L M2 B2]. split; [done..| |]; intros idx Hi; [rewrite M2, M1|rewrite B2, B1]; try done;
    rewrite (bool_decide_ext (idx ∈ S1 ++ S2) (idx ∈ S1 \/ idx ∈ S2)) by apply elem_of_app; rewrite bool_decide_or;
    do 2 destruct (bool_decide _); rewrite ?andb_true_r, ?andb_false_r; done.
Qed.

(** One level of the loop. *)
Lemma collect_level map bs (heads : list (list Z)) idx : bm_wf map 640 -> length bs = 640%nat -> 0 <= idx < 640 ->
  let S := if tb map idx then [idx] else [] in
  exists map' bs', cleared S map bs map' bs' /\
    bitmap_test_and_clear map idx = Ok (map', tb map idx) /\
    (if tb map idx then tmp ← aget bs idx; bs ← aset bs idx []; Ok (bs, heads ++ [tmp]) else Ok (bs, heads))
    = Ok (bs', heads ++ (at_idx bs <$> S)).
Proof.
  intros Hwf Hlen Hi S. destruct (bitmap_test_and_clear_spec map 640 idx Hwf Hi) as (map1 & -> & Hwf1 & Ht1).
  unfold S. destruct (tb map idx) eqn:Et.
  - rewrite aget_at_idx, bind_Ok, aset_Ok, bind_Ok by lia. eexists _, _. split; [|done].
    split; [done|by rewrite length_insert| |]; intros j Hj.
    + rewrite Ht1 by done. case_bool_decide as Hm; rewrite list_elem_of_singleton in Hm.
      * subst j. by rewrite Z.eqb_refl, andb_false_r.
      * by rewrite (proj2 (Z.eqb_neq _ _)), andb_true_r by done.
    + rewrite at_idx_insert by lia. case_bool_decide as Hm; rewrite list_elem_of_singleton in Hm.
      * subst j. by rewrite Z.eqb_refl.
      * by rewrite (proj2 (Z.eqb_neq _ _)) by done.
  - cbn. rewrite app_nil_r. eexists _, _. split; [|done]. split; [done..| |]; intros j Hj;
      rewrite bool_decide_false by apply not_elem_of_nil; [|done].
    rewrite Ht1, andb_true_r by done. destruct (Z.eqb_spec j idx) as [->|]; congruence.
Qed.

Lemma collect_levels_spec c n : forall l map bs heads, 0 <= l -> l + Z.of_nat n = 10 ->
  bm_wf map 640 -> length bs = 640%nat -> c `mod` 16 ^ l = 0 ->
  exists map' bs', cleared (due_slots map c l) map bs map' bs' /\
    collect_levels n l (c `div` 16 ^ l) map bs heads = Ok (map', bs', heads ++ (at_idx bs <$> due_slots map c l)).
Proof.
  induction n as [|n IH]; intros l map bs heads Hl Hn Hwf Hlen Hmod; cbn [collect_levels].
  { assert (due_slots map c l = []) as ->. { apply elem_of_nil_inv. intros x Hx. apply due_slots_range in Hx. lia. }
    exists map, bs. cbn. rewrite app_nil_r. split; [by apply cleared_nil|done]. }
  rewrite land_level, land_clock, shiftr_clock. wheel_consts.
  pose proof (Z.mod_pos_bound (c `div` 16 ^ l) 64 ltac:(lia)) as Hb.
  rewrite (Z.add_comm _ (l * 64)), (Z.mul_comm l 64), u32_idx by lia.
  rewrite (due_slots_level map c l) by (lia || done). set (idx := 64 * l + _) in *.
  destruct (collect_level map bs heads idx Hwf Hlen ltac:(lia)) as (map1 & bs1 & Hcl1 & -> & E). rewrite bind_Ok.
  rewrite E, bind_Ok. clear E.
  destruct (pow16_next c l Hl Hmod) as [Hnext Hdiv]. destruct (Z.eqb_spec ((c `div` 16 ^ l) `mod` 16) 0) as [E0|E0]; cbn [negb].
  - rewrite <- Hdiv. destruct (IH (l + 1) map1 bs1 (heads ++ (at_idx bs <$> (if tb map idx then [idx] else [])))) as (map2 & bs2 & Hcl2 & ->);
      [lia..|apply Hcl1|apply Hcl1|by apply Hnext|].
    assert (Hext : due_slots map1 c (l + 1) = due_slots map c (l + 1)).
    { apply due_slots_ext. intros j Hj. rewrite (cl_map _ _ _ _ _ Hcl1) by lia.
      rewrite bool_decide_false; [by rewrite andb_true_r|]. destruct (tb map idx); set_unfold; lia. }
    rewrite Hext in *. exists map2, bs2. split; [by eapply cleared_app|]. f_equal. f_equal.
    rewrite <- app_assoc, fmap_app. f_equal. f_equal. apply list_fmap_ext. intros i j Hj.
    assert (64 * (l + 1) <= j) by (eapply due_slots_range, list_elem_of_lookup_2; exact Hj).
    rewrite (cl_buckets _ _ _ _ _ Hcl1) by lia. rewrite bool_decide_false; [done|]. destruct (tb map idx); set_unfold; lia.
  - rewrite (due_slots_none map c (l + 1)), app_nil_r by (lia || naive_solver). by exists map1, bs1.
Qed.

(** ** The invariant of a base *)

(** The bitmap says which buckets hold timers. *)
Record wheel_ok (b : timer_base) : Prop := mkWheelOk {
  wh_map : bm_wf (pending_map b) 640;
  wh_len : length (buckets b) = 640%nat;
  wh_bits : forall idx, 0 <= idx < 640 -> tb (pending_map b) idx = true <-> at_idx (buckets b) idx <> [];
  wh_clock : 0 <= clock b < 2 ^ 62;
}.
(** The next expiration is the time of the first pending bucket. *)
Record base_ok (b : timer_base) : Prop := mkBaseOk {
  ok_wheel : wheel_ok b;
  ok_next : least_due (pending_map b) (clock b) 0 TIME_US_MAX (next_expiration_us b);
  ok_pending : pending b = negb (next_expiration_us b =? TIME_US_MAX);
}.
(** Bucket [idx] holds timers and is due at time [at_]. *)
Definition due (b : timer_base) (idx at_ : Z) : Prop :=
  0 <= idx < 640 /\ tb (pending_map b) idx = true /\ slot_time (clock b) idx = at_.

Lemma pending_next b : base_ok b -> pending b = true ->
  (exists idx, due b idx (next_expiration_us b)) /\ clock b <= next_expiration_us b.
Proof.
  intros [W (_ & _ & N) P] Hp. rewrite P in Hp. apply negb_true_iff, Z.eqb_neq in Hp.
  destruct N as [?|(idx & Hi & Ht & E)]; [done|]. split; [by exists idx|]. rewrite E. apply slot_time_ge. lia.
Qed.
Lemma next_le b idx at_ : base_ok b -> due b idx at_ -> next_expiration_us b <= at_ /\ pending b = true.
Proof.
  intros [W (_ & N & _) P] (Hi & Ht & <-). specialize (N idx ltac:(lia) Ht). split; [done|].
  rewrite P. apply negb_true_iff, Z.eqb_neq. pose proof (slot_time_bound (clock b) idx Hi). destruct W. unfold TIME_US_MAX. lia.
Qed.
Lemma not_pending b : base_ok b -> pending b = false -> forall idx at_, ~ due b idx at_.
Proof. intros Hb Hp idx at_ Hd. destruct (next_le b idx at_ Hb Hd). congruence. Qed.

Lemma recalc_ok b : wheel_ok b -> exists b', timer_recalc_next_expiration b = Ok b' /\ base_ok b' /\
  pending_map b' = pending_map b /\ buckets b' = buckets b /\ clock b' = clock b /\ running b' = running b /\
  cpu b' = cpu b /\ type b' = type b.
Proof.
  intros [W L B C]. unfold timer_recalc_next_expiration. change (Z.to_nat TIMER_LEVELS) with 10%nat.
  destruct (recalc_levels_spec (pending_map b) W (clock b) 10 ltac:(lia) 0 TIME_US_MAX) as (r & E & Hr); [lia..|].
  rewrite ceil_at_0 in E. rewrite E, bind_Ok. eexists. split; [done|]. by split_and!.
Qed.

(** Moving the clock to a time no pending bucket is before leaves the times of
    the pending buckets alone. *)
Lemma due_clock b clk : clock b <= clk -> (forall idx at_, due b idx at_ -> clk <= at_) ->
  forall idx, 0 <= idx < 640 -> tb (pending_map b) idx = true -> slot_time clk idx = slot_time (clock b) idx.
Proof. intros Hc Hd idx Hi Ht. apply slot_time_shift; [lia|]. split; [done|]. by apply (Hd idx). Qed.

(** Collecting: exactly the buckets due at the next expiration are taken, in the
    order of the levels, and what is left is due later. *)
Lemma collect_ok b : base_ok b -> pending b = true -> next_expiration_us b < 2 ^ 62 ->
  exists b' S, timer_collect_expired b = Ok (b', at_idx (buckets b) <$> S) /\ wheel_ok b' /\
    cleared S (pending_map b) (buckets b) (pending_map b') (buckets b') /\ clock b' = next_expiration_us b /\
    running b' = running b /\ cpu b' = cpu b /\ type b' = type b /\
    StronglySorted Z.lt S /\ (forall idx, idx ∈ S <-> due b idx (next_expiration_us b)) /\
    (forall idx at_, due b' idx at_ <-> due b idx at_ /\ next_expiration_us b < at_).
Proof.
  intros Hb Hp Hn. destruct (pending_next b Hb Hp) as [_ Hclk]. pose proof (ok_wheel b Hb) as [W L B C].
  unfold timer_collect_expired. change (Z.to_nat TIMER_LEVELS) with 10%nat. set (c := next_expiration_us b) in *.
  destruct (collect_levels_spec c 10 0 (pending_map b) (buckets b) []) as (map' & bs' & Hcl & E); [lia|lia|done|done|apply Z.mod_1_r|].
  rewrite Z.pow_0_r, Z.div_1_r in E. rewrite E, bind_Ok. cbn [app].
  assert (Hst := due_clock b c Hclk (fun idx at_ Hd => proj1 (next_le b idx at_ Hb Hd))).
  assert (HS : forall idx, idx ∈ due_slots (pending_map b) c 0 <-> due b idx c).
  { intros idx. unfold due_slots. rewrite list_elem_of_filter, elem_of_seqZ, Is_true_true. unfold due_at. rewrite andb_true_iff, Z.eqb_eq.
    split; [intros [[Ht Es] Hi]|intros (Hi & Ht & Es)]; [|split; [split|]; [done| |lia]].
    - split_and!; [lia..|done|]. by rewrite <- Hst by (done || lia).
    - by rewrite Hst. }
  eexists _, _. split; [done|]. split_and!; [|exact Hcl|done|done|done|done| |exact HS|].
  - split; [apply Hcl|apply Hcl| |cbn; lia]. cbn. intros idx Hi.
    rewrite (cl_map _ _ _ _ _ Hcl), (cl_buckets _ _ _ _ _ Hcl) by lia. rewrite andb_true_iff, B by done.
    case_bool_decide; cbn [negb]; (split; [intros [? ?]|intros ?; split]); done.
  - apply filter_seqZ_sorted.
  - intros idx at_. unfold due. cbn. split.
    + intros (Hi & Ht & <-). rewrite (cl_map _ _ _ _ _ Hcl) in Ht by lia. apply andb_true_iff in Ht as [Ht Hnot].
      apply negb_true_iff, bool_decide_eq_false in Hnot. rewrite Hst by done. split; [exact (conj Hi (conj Ht eq_refl))|].
      rewrite HS in Hnot. pose proof (next_le b idx _ Hb (conj Hi (conj Ht eq_refl))) as [Hle _]. fold c in Hle.
      destruct (decide (slot_time (clock b) idx = c)); [|lia]. exfalso. by apply Hnot.
    + intros [(Hi & Ht & <-) Hlt]. split; [done|]. rewrite Hst by done. split; [|done].
      rewrite (cl_map _ _ _ _ _ Hcl) by lia. rewrite Ht. cbn. apply negb_true_iff, bool_decide_eq_false. rewrite HS.
      intros (_ & _ & E'). lia.
Qed.

(** ** Adding to and removing from a base *)

(** The start of [timer_add_internal]: the clock is brought up to date unless
    buckets are waiting to be run. *)
Definition advance_clock (b : timer_base) (now : Z) : timer_base :=
  if negb (pending b) || (now <? next_expiration_us b) then
    mkBase (type b) (cpu b) (running b) now (next_expiration_us b) (pending b) (next_expiration_recalc b)
      (pending_map b) (buckets b)
  else b.

Lemma advance_ok b now : base_ok b -> clock b <= now < 2 ^ 62 ->
  let b' := advance_clock b now in
  base_ok b' /\ (forall idx at_, due b' idx at_ <-> due b idx at_) /\
  buckets b' = buckets b /\ next_expiration_us b' = next_expiration_us b /\ pending b' = pending b /\
  clock b <= clock b' <= now /\ (clock b' < now -> next_expiration_us b <= now).
Proof.
  intros Hb Hn. unfold advance_clock. destruct (negb (pending b) || (now <? next_expiration_us b)) eqn:E; cbv zeta.
  2: { apply orb_false_iff in E as [_ E%Z.ltb_ge]. split_and!; done || lia. }
  assert (Hlt : forall idx at_, due b idx at_ -> now <= at_).
  { intros idx at_ Hd. destruct (next_le b idx at_ Hb Hd) as [Hle Hp]. rewrite Hp in E. cbn in E. apply Z.ltb_lt in E. lia. }
  pose proof (due_clock b now ltac:(lia) Hlt) as Hst. destruct Hb as [[W L B C] (N1 & N2 & N3) P]. split_and!; cbn; try done || lia.
  - split; [split; cbn; try done; lia| |done]. cbn. split_and!; [done| |].
    + intros idx Hi Ht. rewrite Hst by (done || lia). by apply N2.
    + destruct N3 as [?|(idx & Hi & Ht & E')]; [by left|right]. exists idx. split_and!; [lia..|done|]. by rewrite Hst by (done || lia).
  - intros idx at_. unfold due. cbn. split; intros (Hi & Ht & Es); (split; [done|split; [done|]]).
    + by rewrite <- Hst.
    + by rewrite Hst.
Qed.

Lemma enqueue_ok b timer idx at_ : base_ok b -> 0 <= idx < 640 -> slot_time (clock b) idx = at_ ->
  exists b' flag, enqueue_base b timer idx at_ = Ok (b', flag) /\ base_ok b' /\
    (forall j a, due b' j a <-> due b j a \/ j = idx /\ a = at_) /\
    buckets b' = <[Z.to_nat idx := timer :: at_idx (buckets b) idx]> (buckets b) /\
    clock b' = clock b /\ running b' = running b /\ cpu b' = cpu b /\ type b' = type b /\
    next_expiration_us b' = Z.min (next_expiration_us b) at_ /\ pending b' = true.
Proof.
  intros Hb Hi Hat. destruct (Hb) as [[W L B C] (N1 & N2 & N3) P]. unfold enqueue_base.
  rewrite aget_at_idx, bind_Ok, aset_Ok, bind_Ok by lia.
  destruct (bitmap_set_spec _ _ idx W Hi) as (map' & -> & W' & T'). rewrite bind_Ok.
  assert (Hat' : clock b <= at_ < TIME_US_MAX).
  { subst at_. pose proof (slot_time_ge (clock b) idx ltac:(lia)). pose proof (slot_time_bound (clock b) idx Hi). unfold TIME_US_MAX. lia. }
  assert (Hnext : (if negb (pending b) || (at_ <? next_expiration_us b) then at_ else next_expiration_us b)
                  = Z.min (next_expiration_us b) at_).
  { destruct (pending b) eqn:Ep; cbn; [destruct (Z.ltb_spec at_ (next_expiration_us b)); lia|].
    symmetry in P. apply negb_false_iff, Z.eqb_eq in P. lia. }
  set (cond := negb (pending b) || (at_ <? next_expiration_us b)) in *.
  exists (mkBase (type b) (cpu b) (running b) (clock b) (Z.min (next_expiration_us b) at_) true
           (if cond then false else next_expiration_recalc b) map' (<[Z.to_nat idx := timer :: at_idx (buckets b) idx]> (buckets b))), cond.
  split.
  { rewrite <- Hnext. destruct cond eqn:E; [done|]. apply orb_false_iff in E as [E%negb_false_iff _]. by rewrite E. }
  assert (Hdue : forall j a, 0 <= j < 640 /\ tb map' j = true /\ slot_time (clock b) j = a <-> due b j a \/ j = idx /\ a = at_).
  { intros j a. unfold due. destruct (Z.eqb_spec j idx) as [->|Hne].
    - rewrite T', Z.eqb_refl by lia. split; [naive_solver|]. intros [(?&_&?)|[_ ->]]; done.
    - split; [intros (Hj & Ht & ?); rewrite T', (proj2 (Z.eqb_neq _ _)) in Ht by (done || lia); by left|].
      intros [(Hj & Ht & ?)|[? _]]; [|done]. rewrite T', (proj2 (Z.eqb_neq _ _)) by (done || lia). done. }
  split_and!; try done. split; cbn.
  - split; cbn; [done|by rewrite length_insert| |done]. intros j Hj. rewrite T', at_idx_insert by lia.
    destruct (Z.eqb_spec j idx); [done|by apply B].
  - split_and!; [lia| |].
    + intros j Hj Ht. assert (Hj' : 0 <= j < 640) by lia.
      destruct (proj1 (Hdue j _) (conj Hj' (conj Ht eq_refl))) as [Hd|[_ Ea]]; [|lia].
      destruct (next_le b j _ Hb Hd). lia.
    + right. destruct (decide (at_ <= next_expiration_us b)) as [Hle|Hgt].
      * exists idx. split; [lia|]. destruct (proj2 (Hdue idx at_) (or_intror (conj eq_refl eq_refl))) as (_ & ? & Ea). split; [done|lia].
      * destruct N3 as [?|(j & Hj & Ht & Ej)]; [lia|]. assert (Hj' : 0 <= j < 640) by lia.
        destruct (proj2 (Hdue j _) (or_introl (conj Hj' (conj Ht eq_refl)))) as (_ & ? & _). exists j. split; [lia|]. split; [done|lia].
  - symmetry. apply negb_true_iff, Z.eqb_neq. lia.
Qed.

(** [timer_dequeue_bucket] after the timer has been unlinked. *)
Definition dequeue_base (b : timer_base) (idx : Z) : outcome timer_base :=
  head ← aget (buckets b) idx;
  map ← (match head with [] => bitmap_clear (pending_map b) idx | _ => Ok (pending_map b) end);
  timer_recalc_next_expiration
    (mkBase (type b) (cpu b) (running b) (clock b) (next_expiration_us b) (pending b) (next_expiration_recalc b) map (buckets b)).

Lemma dequeue_ok b idx : bm_wf (pending_map b) 640 -> length (buckets b) = 640%nat -> 0 <= clock b < 2 ^ 62 -> 0 <= idx < 640 ->
  tb (pending_map b) idx = true ->
  (forall j, 0 <= j < 640 -> j <> idx -> tb (pending_map b) j = true <-> at_idx (buckets b) j <> []) ->
  exists b', dequeue_base b idx = Ok b' /\ base_ok b' /\
    (forall j a, due b' j a <-> due b j a /\ at_idx (buckets b) j <> []) /\
    buckets b' = buckets b /\ clock b' = clock b /\ running b' = running b /\ cpu b' = cpu b /\ type b' = type b.
Proof.
  intros W L C Hi Ht B. unfold dequeue_base. rewrite aget_at_idx, bind_Ok by lia.
  assert (exists map', match at_idx (buckets b) idx with [] => bitmap_clear (pending_map b) idx | _ => Ok (pending_map b) end = Ok map' /\
    bm_wf map' 640 /\ forall j, 0 <= j < 640 -> tb map' j = true <-> tb (pending_map b) j = true /\ at_idx (buckets b) j <> [])
    as (map' & -> & W' & T').
  { destruct (at_idx (buckets b) idx) as [|t l] eqn:E.
    - destruct (bitmap_clear_spec _ _ idx W Hi) as (map' & -> & W' & T'). exists map'. split_and!; [done..|]. intros j Hj.
      rewrite T' by lia. destruct (Z.eqb_spec j idx) as [->|Hne]; [naive_solver|]. specialize (B j Hj Hne). tauto.
    - exists (pending_map b). split_and!; [done..|]. intros j Hj. destruct (Z.eqb_spec j idx) as [->|Hne]; [by rewrite E|].
      specialize (B j Hj Hne). tauto. }
  rewrite bind_Ok. match goal with |- context [timer_recalc_next_expiration ?b1] => destruct (recalc_ok b1) as (b' & -> & Hb' & Em & Eb & Ec & Er & Eu & Ety) end.
  - split; cbn; [done..| |done]. intros j Hj. rewrite T' by done. destruct (Z.eqb_spec j idx) as [->|Hne]; [tauto|].
    specialize (B j Hj Hne). tauto.
  - exists b'. split; [done|]. split; [done|]. split; [|by split_and!].
    intros j a. unfold due. rewrite Em, Ec. cbn. split.
    + intros (Hj & Ht' & Es). apply T' in Ht' as [? ?]; [|done]. done.
    + intros ((Hj & Ht' & Es) & Hne). split; [done|]. rewrite T' by done. done.
Qed.
