(* ===== verification/Timer.v ===== *)
(** * Kernel timers

    The rest of [kernel/time/timer.c] with [include/time/timer.h] and
    [include/time/timer_types.h]: the per-CPU structures, adding, deleting and
    modifying timers, the timer interrupt, the DPC that calls the timers'
    functions, and programming the hardware.  The functions run in sequence, as
    each does under the base's lock.

    A timer is named by a number and its node is on at most one list, so the
    node is hashed ([pprev] not null) when some list has the timer.  The
    parameters are the code the timers call: [call f t] is the call of the
    function [f] with timer [t], and [set_next_event] says whether the clock
    event device accepts the delay.  The definitions let a timer's function
    change anything; the theorems on running timers are about functions that work
    on their own state and do not call the timer operations. *)

From stdpp Require Import sorting.
From S2P Require Import Prelude BitMath BitSet TimerWheel.

Definition TIMER_BASE_LOCAL : Z := 0.
Definition TIMER_BASE_GLOBAL : Z := 1.
Definition TIMER_BASE_DEFERRED : Z := 2.
Definition TIMER_BASE_MAX : Z := 3.

Definition TIMER_FLAG_NONE : Z := 0.
Definition TIMER_FLAG_DEFERRABLE : Z := Z.shiftl 1 18.
Definition TIMER_FLAG_IRQ : Z := Z.shiftl 1 19.
Definition TIMER_FLAG_DPC_QUEUED : Z := Z.shiftl 1 20.
Definition TIMER_FLAG_PINNED : Z := Z.shiftl 1 21.
Definition TIMER_FLAG_CPU_MASK : Z := 262143.
Definition TIMER_FLAG_CPU (c : Z) : Z := Z.land c TIMER_FLAG_CPU_MASK.
Definition TIMER_FLAG_BUCKET_MASK : Z := 1023.
Definition TIMER_FLAG_BUCKET_SHIFT : Z := 22.
Definition TIMER_FLAG_BUCKET (b : Z) : Z := u32 (Z.shiftl (Z.land b TIMER_FLAG_BUCKET_MASK) TIMER_FLAG_BUCKET_SHIFT).

(** [struct timer], without the list node; the function pointer is a number and
    the null pointer [None]. *)
Record timer := mkTimer { expiration_us : Z; func : option Z; flags : Z }.

Definition timer_init (f : option Z) : timer := mkTimer 0 f TIMER_FLAG_NONE.
Definition set_flags (t : timer) (f : Z) : timer := mkTimer (expiration_us t) (func t) f.
Definition timer_bucket_set (t : timer) (bucket : Z) : timer :=
  set_flags t (Z.lor (Z.land (flags t) (not_w 32 (Z.shiftl TIMER_FLAG_BUCKET_MASK TIMER_FLAG_BUCKET_SHIFT))) (TIMER_FLAG_BUCKET bucket)).
Definition timer_bucket_get (t : timer) : Z :=
  Z.land (Z.shiftr (flags t) TIMER_FLAG_BUCKET_SHIFT) TIMER_FLAG_BUCKET_MASK.
Definition timer_cpu_set (t : timer) (cpu : Z) : timer :=
  set_flags t (Z.lor (Z.land (flags t) (not_w 32 TIMER_FLAG_CPU_MASK)) (TIMER_FLAG_CPU cpu)).
Definition timer_cpu_get (t : timer) : Z := Z.land (flags t) TIMER_FLAG_CPU_MASK.
Definition has_flag (t : timer) (f : Z) : bool := negb (Z.land (flags t) f =? 0).
Definition flag_set (t : timer) (f : Z) : timer := set_flags t (Z.lor (flags t) f).
Definition flag_clear (t : timer) (f : Z) : timer := set_flags t (Z.land (flags t) (not_w 32 f)).

(** The part of [struct clock_evdev] the timers use; [oneshot] is [state ==
    CLOCK_EVDEV_STATE_ONESHOT]. *)
Record clock_evdev := mkEvdev { oneshot : bool; min_delta_ns : Z; max_delta_ns : Z }.

(** [struct timer_percpu]; [dpc_enqueued] is the flag of the DPC [timer_dpc]. *)
Record timer_percpu := mkPercpu {
  bases : list timer_base;
  dpc_enqueued : bool;
  dpc_timers : list Z;
  dispatching : option Z;
  active_evdev : option clock_evdev;
}.

Definition timer_percpu_ctor (cpu : Z) : timer_percpu :=
  mkPercpu
    ((fun i => mkBase i cpu None 0 TIME_US_MAX false false (replicate 10 0) (replicate (Z.to_nat TIMER_WHEEL_SIZE) []))
       <$> [TIMER_BASE_LOCAL; TIMER_BASE_GLOBAL; TIMER_BASE_DEFERRED])
    false [] None None.

(** The state the code works on, as seen from the CPU [smp_id] at the time
    [time_us]: the timers, the per-CPU structures, the array [heads] of a running
    [timer_base_run], the mask of deferred timer IPIs of each CPU, the delays handed
    to the clock event devices, and what the timers' functions work on. *)
Record world {E : Type} := mkWorld {
  env : E;
  smp_id : Z;
  time_us : Z;
  timers : gmap Z timer;
  percpus : gmap Z timer_percpu;
  heads : list (list Z);
  deferred_timer_ipis : Z -> list Z;
  events : list (Z * Z);
}.
Arguments world : clear implicits.
Arguments mkWorld {E}.

Section Code.
Context {E : Type} (call : Z -> Z -> world E -> outcome (world E)).
Context (set_next_event : Z -> clock_evdev -> Z -> bool).
Implicit Types (w : world E) (r : Z * Z).

Definition set_timers w ts := mkWorld (env w) (smp_id w) (time_us w) ts (percpus w) (heads w) (deferred_timer_ipis w) (events w).
Definition set_percpus w ps := mkWorld (env w) (smp_id w) (time_us w) (timers w) ps (heads w) (deferred_timer_ipis w) (events w).
Definition set_heads w hs := mkWorld (env w) (smp_id w) (time_us w) (timers w) (percpus w) hs (deferred_timer_ipis w) (events w).
Definition set_ipis w m := mkWorld (env w) (smp_id w) (time_us w) (timers w) (percpus w) (heads w) m (events w).
Definition set_events w es := mkWorld (env w) (smp_id w) (time_us w) (timers w) (percpus w) (heads w) (deferred_timer_ipis w) es.

(** A [struct timer *] and a [struct timer_base *]: the CPU and the type. *)
Definition get_timer w (t : Z) : outcome timer := deref (timers w !! t).
Definition put_timer w (t : Z) (tm : timer) : world E := set_timers w (<[t := tm]> (timers w)).
Definition upd_timer w (t : Z) (f : timer -> timer) : outcome (world E) :=
  tm ← get_timer w t; Ok (put_timer w t (f tm)).
Definition get_percpu w (c : Z) : outcome timer_percpu := deref (percpus w !! c).
Definition put_percpu w (c : Z) (p : timer_percpu) : world E := set_percpus w (<[c := p]> (percpus w)).
Definition set_bases (p : timer_percpu) bs := mkPercpu bs (dpc_enqueued p) (dpc_timers p) (dispatching p) (active_evdev p).
Definition get_base w r : outcome timer_base := p ← get_percpu w r.1; aget (bases p) r.2.
Definition put_base w r (b : timer_base) : outcome (world E) :=
  p ← get_percpu w r.1; bs ← aset (bases p) r.2 b; Ok (put_percpu w r.1 (set_bases p bs)).
Definition set_running (b : timer_base) (t : option Z) : timer_base :=
  mkBase (type b) (cpu b) t (clock b) (next_expiration_us b) (pending b) (next_expiration_recalc b) (pending_map b) (buckets b).
Definition put_running w r (t : option Z) : outcome (world E) :=
  b ← get_base w r; put_base w r (set_running b t).
Definition put_dispatching w (c : Z) (t : option Z) : outcome (world E) :=
  p ← get_percpu w c; Ok (put_percpu w c (mkPercpu (bases p) (dpc_enqueued p) (dpc_timers p) t (active_evdev p))).

(** *** The hash lists *)

(** The timers on the lists of one CPU. *)
Definition nodes (p : timer_percpu) : list Z := dpc_timers p ++ concat ((fun b => concat (buckets b)) <$> bases p).
Definition hashed w (t : Z) : Prop :=
  t ∈ concat (heads w) \/ map_Exists (fun _ p => t ∈ nodes p) (percpus w).
#[global] Instance hashed_dec w t : Decision (hashed w t).
Proof using Type. apply _. Defined.
Definition hlist_unhashed w (t : Z) : bool := negb (bool_decide (hashed w t)).

Definition unlink (t : Z) (l : list Z) : list Z := filter (fun x => x <> t) l.
Definition unlink_base (t : Z) (b : timer_base) : timer_base :=
  mkBase (type b) (cpu b) (running b) (clock b) (next_expiration_us b) (pending b) (next_expiration_recalc b)
    (pending_map b) (unlink t <$> buckets b).
Definition unlink_percpu (t : Z) (p : timer_percpu) : timer_percpu :=
  mkPercpu (unlink_base t <$> bases p) (dpc_enqueued p) (unlink t (dpc_timers p)) (dispatching p) (active_evdev p).
(** [hlist_del]; the null [pprev] of an unhashed node is dereferenced. *)
Definition hlist_del w (t : Z) : outcome (world E) :=
  if hlist_unhashed w t then Fault
  else Ok (set_heads (set_percpus w (unlink_percpu t <$> percpus w)) (unlink t <$> heads w)).
Definition timer_list_del w (t : Z) : outcome (world E) := hlist_del w t.

(** *** Programming the hardware *)

Definition US_TO_NS (us : Z) : Z := u64 (us * 1000).
Definition clamp (v lo hi : Z) : outcome Z :=
  _ ← enforce (lo <=? hi);
  let v := if hi <? v then hi else v in
  Ok (if v <? lo then lo else v).
Definition base_next (b : timer_base) (next_us : Z) : Z :=
  if pending b then Z.min next_us (next_expiration_us b) else next_us.

Definition timer_base_reprogram_hardware w (cpu : Z) : outcome (world E) :=
  if negb (cpu =? smp_id w) then
    m ← cpu_mask_set (deferred_timer_ipis w (smp_id w)) cpu;
    Ok (set_ipis w (fun c => if c =? smp_id w then m else deferred_timer_ipis w c))
  else
    pcpu ← get_percpu w cpu;
    match active_evdev pcpu with
    | None => Ok w
    | Some ced =>
        if negb (oneshot ced) then Ok w else
        l ← aget (bases pcpu) TIMER_BASE_LOCAL;
        g ← aget (bases pcpu) TIMER_BASE_GLOBAL;
        let next_us := base_next g (base_next l TIME_US_MAX) in
        if next_us =? TIME_US_MAX then Ok w else
        let now_us := time_us w in
        let delta_ns := if now_us <? next_us then US_TO_NS (u64 (next_us - now_us)) else min_delta_ns ced in
        delta_ns ← clamp delta_ns (min_delta_ns ced) (max_delta_ns ced);
        _ ← enforce (set_next_event cpu ced delta_ns);
        Ok (set_events w (events w ++ [(cpu, delta_ns)]))
    end.

(** *** Adding *)

Definition timer_enqueue_internal w r (t idx bucket_expiration : Z) : outcome (world E) :=
  b ← get_base w r;
  be ← enqueue_base b t idx bucket_expiration;
  w ← put_base w r be.1;
  w ← upd_timer w t (fun tm => timer_bucket_set tm idx);
  if be.2 : bool then timer_base_reprogram_hardware w (cpu b) else Ok w.

Definition timer_add_internal w r (t : Z) : outcome (world E) :=
  b ← get_base w r;
  tm ← get_timer w t;
  let b := advance_clock b (time_us w) in
  w ← put_base w r b;
  let '(idx, bucket_expiration) := wheel_index_for (expiration_us tm) (clock b) in
  timer_enqueue_internal w r t idx bucket_expiration.

Definition timer_base_for_cpu (fl cpu : Z) : Z * Z :=
  let type := if negb (Z.land fl TIMER_FLAG_PINNED =? 0) then TIMER_BASE_LOCAL else TIMER_BASE_GLOBAL in
  let type := if negb (Z.land fl TIMER_FLAG_DEFERRABLE =? 0) then TIMER_BASE_DEFERRED else type in
  (cpu, type).
Definition timer_base_for_flags (fl : Z) : Z * Z := timer_base_for_cpu fl (Z.land fl TIMER_FLAG_CPU_MASK).

Definition timer_add_on w (t cpu : Z) : outcome (world E) :=
  tm ← get_timer w t;
  let r := timer_base_for_cpu (flags tm) cpu in
  w ← upd_timer w t (fun tm => timer_cpu_set tm cpu);
  w ← timer_add_internal w r t;
  timer_base_reprogram_hardware w cpu.
Definition timer_add w (t : Z) : outcome (world E) := timer_add_on w t (smp_id w).
Definition timer_add_local w (t : Z) : outcome (world E) :=
  w ← upd_timer w t (fun tm => flag_set tm TIMER_FLAG_PINNED); timer_add w t.
Definition timer_add_global w (t : Z) : outcome (world E) :=
  w ← upd_timer w t (fun tm => flag_clear tm TIMER_FLAG_PINNED); timer_add w t.

(** *** Running *)

Definition timer_fn_call w (t : Z) : outcome (world E) :=
  tm ← get_timer w t; f ← deref (func tm); call f t w.

(** The DPC of the CPU [c]: every queued timer's function, first one first. *)
Definition dpc_body (c : Z) w : outcome (world E + world E) :=
  pcpu ← get_percpu w c;
  match dpc_timers pcpu with
  | [] => Ok (inr w)
  | t :: _ =>
      w ← timer_list_del w t;
      w ← upd_timer w t (fun tm => flag_clear tm TIMER_FLAG_DPC_QUEUED);
      w ← put_dispatching w c (Some t);
      tm ← get_timer w t;
      let r := timer_base_for_flags (flags tm) in
      w ← put_running w r (Some t);
      _ ← enforce (negb (has_flag tm TIMER_FLAG_IRQ));
      w ← timer_fn_call w t;
      w ← put_running w r None;
      w ← put_dispatching w c None;
      Ok (inl w)
  end.
Definition timer_dpc (fuel : nat) w (c : Z) : outcome (world E) := loop fuel (dpc_body c) w.

(** [hlist_add_head(&timer->hlist_node, &base->percpu->dpc_timers)] and
    [dpc_enqueue_local] *)
Definition push_dpc w (c t : Z) : outcome (world E) :=
  p ← get_percpu w c; Ok (put_percpu w c (mkPercpu (bases p) true (t :: dpc_timers p) (dispatching p) (active_evdev p))).

Definition expire_body r (i : Z) w : outcome (world E + world E) :=
  head ← aget (heads w) i;
  match head with
  | [] => Ok (inr w)
  | t :: _ =>
      w ← timer_list_del w t;
      tm ← get_timer w t;
      _ ← enforce (bool_decide (is_Some (func tm)));
      if has_flag tm TIMER_FLAG_IRQ then
        w ← put_running w r (Some t);
        w ← timer_fn_call w t;
        w ← put_running w r None;
        Ok (inl w)
      else
        w ← push_dpc w r.1 t;
        w ← upd_timer w t (fun tm => flag_set tm TIMER_FLAG_DPC_QUEUED);
        Ok (inl w)
  end.
Definition timer_expire_bucket (fuel : nat) w r (i : Z) : outcome (world E) := loop fuel (expire_body r i) w.

(** [for (i = 0; i < levels; i++) timer_expire_bucket(base, &heads[i], irql);] *)
Fixpoint expire_heads (fuel : nat) (n : nat) w r (i : Z) : outcome (world E) :=
  match n with
  | O => Ok w
  | S n => w ← timer_expire_bucket fuel w r i; expire_heads fuel n w r (i + 1)
  end.

Definition run_body (fuel : nat) r (time : Z) w : outcome (world E + world E) :=
  b ← get_base w r;
  if (clock b <=? time) && pending b && (next_expiration_us b <=? time) then
    bh ← timer_collect_expired b;
    w ← put_base w r bh.1;
    w ← expire_heads fuel (length bh.2) (set_heads w bh.2) r 0;
    b ← get_base w r;
    b ← timer_recalc_next_expiration b;
    w ← put_base w r b;
    Ok (inl w)
  else Ok (inr (set_heads w [])).
Definition timer_base_run (fuel : nat) w r : outcome (world E) := loop fuel (run_body fuel r (time_us w)) w.

Fixpoint run_bases (fuel : nat) (n : nat) w (i : Z) : outcome (world E) :=
  match n with
  | O => Ok w
  | S n => w ← timer_base_run fuel w (smp_id w, i); run_bases fuel n w (i + 1)
  end.
(** The per-CPU structure is absent until it is ready. *)
Definition timer_isr (fuel : nat) w : outcome (world E) :=
  match percpus w !! smp_id w with
  | None => Ok w
  | Some _ =>
      w ← run_bases fuel (Z.to_nat TIMER_BASE_MAX) w 0;
      timer_base_reprogram_hardware w (smp_id w)
  end.

(** *** Deleting and modifying *)

(** With nobody else running, the CPU read before taking the lock is the CPU
    read after it. *)
Definition timer_lock_base w (t : Z) : outcome (Z * Z) :=
  tm ← get_timer w t; Ok (timer_base_for_cpu (flags tm) (timer_cpu_get tm)).

Definition timer_detach_if_dpc_queued w (t : Z) : outcome (world E * bool) :=
  tm ← get_timer w t;
  if has_flag tm TIMER_FLAG_DPC_QUEUED then
    w ← timer_list_del w t;
    w ← upd_timer w t (fun tm => flag_clear tm TIMER_FLAG_DPC_QUEUED);
    Ok (w, true)
  else Ok (w, false).

Definition timer_dequeue_bucket w r (t : Z) : outcome (world E) :=
  w ← timer_list_del w t;
  tm ← get_timer w t;
  b ← get_base w r;
  b ← dequeue_base b (timer_bucket_get tm);
  put_base w r b.

Definition set_func (tm : timer) (f : option Z) : timer := mkTimer (expiration_us tm) f (flags tm).
Definition set_expiration (tm : timer) (e : Z) : timer := mkTimer e (func tm) (flags tm).

Definition timer_delete_internal w (t : Z) (shutdown : bool) : outcome (world E * bool) :=
  r ← timer_lock_base w t;
  wd ← timer_detach_if_dpc_queued w t;
  let '(w, dpc_queued) := wd in
  let bucketed := negb dpc_queued && negb (hlist_unhashed w t) in
  w ← (if bucketed then timer_dequeue_bucket w r t else Ok w);
  let pending := dpc_queued || bucketed in
  w ← (if shutdown then upd_timer w t (fun tm => set_func tm None) else Ok w);
  b ← get_base w r;
  w ← (if bucketed then timer_base_reprogram_hardware w (cpu b) else Ok w);
  Ok (w, pending).
Definition timer_delete w (t : Z) := timer_delete_internal w t false.
Definition timer_shutdown w (t : Z) := timer_delete_internal w t true.

Definition timer_dpc_is_dispatching w r (t : Z) : outcome bool :=
  p ← get_percpu w r.1; Ok (bool_decide (dispatching p = Some t)).
(** The wait for another CPU to finish the timer's function. *)
Definition sync_body (t : Z) w : outcome (world E + world E) :=
  r ← timer_lock_base w t;
  b ← get_base w r;
  d ← timer_dpc_is_dispatching w r t;
  Ok (if bool_decide (running b = Some t) || d then inl w else inr w).
Definition timer_sync_wait (fuel : nat) w (t : Z) : outcome (world E) := loop fuel (sync_body t) w.
Definition timer_delete_sync (fuel : nat) w (t : Z) : outcome (world E * bool) :=
  wp ← timer_delete w t; w ← timer_sync_wait fuel wp.1 t; Ok (w, wp.2).
Definition timer_shutdown_sync (fuel : nat) w (t : Z) : outcome (world E * bool) :=
  wp ← timer_shutdown w t; w ← timer_sync_wait fuel wp.1 t; Ok (w, wp.2).

(** The end of the functions that modify a timer: the new time, the base. *)
Definition modify_add w r (t new_exp : Z) (pending : bool) : outcome (world E * bool) :=
  w ← upd_timer w t (fun tm => set_expiration tm new_exp);
  w ← timer_add_internal w r t;
  b ← get_base w r;
  w ← timer_base_reprogram_hardware w (cpu b);
  Ok (w, pending).
(** A timer that is not pending moves to the CPU it is modified on, unless it is
    pinned. *)
Definition modify_migrate w r (t : Z) : outcome (world E * (Z * Z)) :=
  tm ← get_timer w t;
  let pinned := has_flag tm TIMER_FLAG_PINNED in
  if negb pinned && negb (timer_cpu_get tm =? smp_id w) then
    w ← upd_timer w t (fun tm => timer_cpu_set tm (smp_id w));
    r ← timer_lock_base w t;
    Ok (w, r)
  else Ok (w, r).

(** What becomes of the timer before it is added again. *)
Definition modify_move w r (t : Z) (pending dpc_queued : bool) : outcome (world E * (Z * Z)) :=
  if pending && negb dpc_queued then w ← timer_dequeue_bucket w r t; Ok (w, r)
  else if negb pending then modify_migrate w r t
  else Ok (w, r).

Definition timer_modify w (t new_exp : Z) : outcome (world E * bool) :=
  r ← timer_lock_base w t;
  wd ← timer_detach_if_dpc_queued w t;
  let '(w, dpc_queued) := wd in
  let pending := dpc_queued || negb (hlist_unhashed w t) in
  wr ← modify_move w r t pending dpc_queued;
  modify_add wr.1 wr.2 t new_exp pending.

Definition timer_modify_pending w (t new_exp : Z) : outcome (world E * bool) :=
  r ← timer_lock_base w t;
  wd ← timer_detach_if_dpc_queued w t;
  let '(w, dpc_queued) := wd in
  let pending := dpc_queued || negb (hlist_unhashed w t) in
  if pending then
    w ← (if negb dpc_queued then timer_dequeue_bucket w r t else Ok w);
    modify_add w r t new_exp pending
  else Ok (w, pending).

Definition timer_modify_reduce w (t new_exp : Z) : outcome (world E * bool) :=
  r ← timer_lock_base w t;
  wd ← timer_detach_if_dpc_queued w t;
  let '(w, dpc_queued) := wd in
  let pending := dpc_queued || negb (hlist_unhashed w t) in
  tm ← get_timer w t;
  if pending && negb dpc_queued && (expiration_us tm <=? new_exp) then Ok (w, true) else
  wr ← modify_move w r t pending dpc_queued;
  modify_add wr.1 wr.2 t new_exp pending.

(** *** Setting up *)

(** The event device of the CPU, as [clock_evdev_for_cpu] finds it in the group
    of the command line, and its [change_state], when it has one: the device
    afterwards and whether it returned [ERR_OK]. *)
Definition timers_init (evdev_for_cpu : Z -> outcome clock_evdev) (change_state : option (clock_evdev -> clock_evdev * bool))
    w (cpu : Z) : outcome (world E) :=
  ced ← evdev_for_cpu cpu;
  this ← get_percpu w cpu;
  ced ← match change_state with
        | None => Ok ced
        | Some f => _ ← enforce (f ced).2; Ok (f ced).1
        end;
  Ok (put_percpu w cpu (mkPercpu (bases this) (dpc_enqueued this) (dpc_timers this) (dispatching this) (Some ced))).
Definition timers_init_bsp evdev_for_cpu change_state w := timers_init evdev_for_cpu change_state w 0.
Definition timers_init_ap evdev_for_cpu change_state w (cpu : Z) := timers_init evdev_for_cpu change_state w cpu.
End Code.

(** ** The flags word

    Bits 0 to 17 are the CPU, 18 to 21 the flags proper, 22 to 31 the bucket. *)

Lemma land_bit x k : 0 <= k -> negb (Z.land x (Z.shiftl 1 k) =? 0) = Z.testbit x k.
Proof.
  intros Hk. rewrite Z.shiftl_1_l. destruct (Z.testbit x k) eqn:Et.
  - apply negb_true_iff, Z.eqb_neq. intros E0. apply (f_equal (fun z => Z.testbit z k)) in E0.
    by rewrite Z.land_spec, Et, testbit_pow2, Z.eqb_refl, Z.bits_0 in E0 by lia.
  - apply negb_false_iff, Z.eqb_eq. apply Z.bits_inj'. intros j Hj.
    rewrite Z.land_spec, Z.bits_0, testbit_pow2 by lia. destruct (Z.eqb_spec j k) as [->|]; [by rewrite Et|apply andb_false_r].
Qed.
Lemma has_flag_bit tm k : 0 <= k -> has_flag tm (Z.shiftl 1 k) = Z.testbit (flags tm) k.
Proof. apply land_bit. Qed.

(** What one of the changes of the flags does to a bit. *)
Lemma bit_bucket_set tm idx i : 0 <= i < 32 -> 0 <= idx < 1024 ->
  Z.testbit (flags (timer_bucket_set tm idx)) i = if i <? 22 then Z.testbit (flags tm) i else Z.testbit idx (i - 22).
Proof.
  intros Hi Hidx. cbn. unfold TIMER_FLAG_BUCKET, TIMER_FLAG_BUCKET_MASK, TIMER_FLAG_BUCKET_SHIFT. change 1023 with (Z.ones 10).
  rewrite not_w_alt by lia. zbits_norm. zbits_split; zbits_norm; zbits_neg; zbits_norm; done.
Qed.
Lemma bit_cpu_set tm c i : 0 <= i < 32 -> 0 <= c < 2 ^ 18 ->
  Z.testbit (flags (timer_cpu_set tm c)) i = if i <? 18 then Z.testbit c i else Z.testbit (flags tm) i.
Proof.
  intros Hi Hc. cbn. unfold TIMER_FLAG_CPU, TIMER_FLAG_CPU_MASK. change 262143 with (Z.ones 18).
  rewrite not_w_alt by lia. zbits_norm. zbits_split; zbits_norm; done.
Qed.
Lemma bit_flag_set tm k i : 0 <= i < 32 -> 0 <= k < 32 ->
  Z.testbit (flags (flag_set tm (Z.shiftl 1 k))) i = if i =? k then true else Z.testbit (flags tm) i.
Proof. intros Hi Hk. cbn. rewrite Z.shiftl_1_l. zbits_norm. zbits_split; zbits_norm; done. Qed.
Lemma bit_flag_clear tm k i : 0 <= i < 32 -> 0 <= k < 32 ->
  Z.testbit (flags (flag_clear tm (Z.shiftl 1 k))) i = if i =? k then false else Z.testbit (flags tm) i.
Proof. intros Hi Hk. cbn. rewrite Z.shiftl_1_l, not_w_alt by lia. zbits_norm. zbits_split; zbits_norm; done. Qed.

Lemma cpu_get_ext tm tm' : (forall i, 0 <= i < 18 -> Z.testbit (flags tm) i = Z.testbit (flags tm') i) ->
  timer_cpu_get tm = timer_cpu_get tm'.
Proof.
  intros H. unfold timer_cpu_get, TIMER_FLAG_CPU_MASK. change 262143 with (Z.ones 18). apply Z.bits_inj'. intros i Hi.
  zbits_norm. zbits_split; zbits_norm; first [done|apply H; lia].
Qed.
Lemma bucket_get_ext tm tm' : (forall i, 22 <= i < 32 -> Z.testbit (flags tm) i = Z.testbit (flags tm') i) ->
  timer_bucket_get tm = timer_bucket_get tm'.
Proof.
  intros H. unfold timer_bucket_get, TIMER_FLAG_BUCKET_MASK, TIMER_FLAG_BUCKET_SHIFT. change 1023 with (Z.ones 10).
  apply Z.bits_inj'. intros i Hi. zbits_norm. zbits_split; zbits_norm; first [done|apply H; lia].
Qed.
Lemma cpu_get_set tm c : 0 <= c < 2 ^ 18 -> timer_cpu_get (timer_cpu_set tm c) = c.
Proof.
  intros Hc. unfold timer_cpu_get, TIMER_FLAG_CPU_MASK. change 262143 with (Z.ones 18). apply Z.bits_inj'. intros i Hi.
  rewrite Z.land_spec, testbit_ones_ltb by lia. destruct (Z.ltb_spec i 18).
  - rewrite bit_cpu_set by lia. rewrite (proj2 (Z.ltb_lt _ _)), (proj2 (Z.leb_le 0 i)) by lia. apply andb_true_r.
  - rewrite !andb_false_r. symmetry. apply (testbit_small 18); [exact Hc|lia].
Qed.
Lemma bucket_get_set tm idx : 0 <= idx < 1024 -> timer_bucket_get (timer_bucket_set tm idx) = idx.
Proof.
  intros Hc. unfold timer_bucket_get, TIMER_FLAG_BUCKET_MASK, TIMER_FLAG_BUCKET_SHIFT. change 1023 with (Z.ones 10). apply Z.bits_inj'. intros i Hi.
  rewrite Z.land_spec, testbit_ones_ltb, testbit_shiftr by lia. destruct (Z.ltb_spec i 10).
  - rewrite bit_bucket_set by lia. rewrite (proj2 (Z.ltb_ge _ _)), (proj2 (Z.leb_le 0 i)) by lia.
    replace (i + 22 - 22) with i by lia. apply andb_true_r.
  - rewrite !andb_false_r. symmetry. apply (testbit_small 10); [exact Hc|lia].
Qed.
Lemma cpu_get_range tm : 0 <= timer_cpu_get tm < 2 ^ 18.
Proof. unfold timer_cpu_get, TIMER_FLAG_CPU_MASK. change 262143 with (Z.ones 18). rewrite Z.land_ones by lia. by apply Z.mod_pos_bound. Qed.

(** The base of a timer depends on the CPU and on two flags. *)
Definition base_of (tm : timer) : Z * Z := timer_base_for_cpu (flags tm) (timer_cpu_get tm).
Lemma base_of_type fl c : 0 <= (timer_base_for_cpu fl c).2 < 3.
Proof. unfold timer_base_for_cpu. cbn [snd]. repeat case_match; unfold TIMER_BASE_LOCAL, TIMER_BASE_GLOBAL, TIMER_BASE_DEFERRED; lia. Qed.
Lemma base_for_cpu_ext fl fl' c : Z.testbit fl 18 = Z.testbit fl' 18 -> Z.testbit fl 21 = Z.testbit fl' 21 ->
  timer_base_for_cpu fl c = timer_base_for_cpu fl' c.
Proof. intros H1 H2. unfold timer_base_for_cpu, TIMER_FLAG_PINNED, TIMER_FLAG_DEFERRABLE. rewrite !land_bit by lia. by rewrite H1, H2. Qed.

(** ** The lists *)

#[local] Arguments unlink : simpl never.

Lemma concat_insert_perm {A} (l : list (list A)) i x x' X :
  l !! i = Some x -> x ≡ₚ x' ++ X -> concat l ≡ₚ concat (<[i := x']> l) ++ X.
Proof.
  revert i. induction l as [|y l IH]; intros [|i] Hi Hx; cbn in *; try done.
  - injection Hi as ->. rewrite Hx. rewrite <- !app_assoc. f_equiv. apply Permutation_app_comm.
  - rewrite (IH i Hi Hx). by rewrite app_assoc.
Qed.
Lemma concat_insert_add {A} (l : list (list A)) i x t :
  l !! i = Some x -> concat (<[i := t :: x]> l) ≡ₚ t :: concat l.
Proof.
  intros Hi. symmetry. rewrite (concat_insert_perm l i x x []) by (done || by rewrite app_nil_r).
  revert i Hi. induction l as [|y l IH]; intros [|i] Hi; cbn in *; try done.
  - injection Hi as ->. by rewrite app_nil_r.
  - rewrite <- (IH i Hi). rewrite <- !app_assoc. apply Permutation_middle.
Qed.
Lemma elem_of_concat {A} (l : list (list A)) x : x ∈ concat l <-> exists i y, l !! i = Some y /\ x ∈ y.
Proof.
  induction l as [|y l IH]; cbn; [split; [by intros ?%elem_of_nil|by intros (i & y & ? & _)]|].
  rewrite elem_of_app, IH. split.
  - intros [Hx|(i & z & Hi & Hx)]; [by exists O, y|by exists (S i), z].
  - intros ([|i] & z & Hi & Hx); cbn in Hi; [left; congruence|right; eauto].
Qed.
Lemma unlink_app t l k : unlink t (l ++ k) = unlink t l ++ unlink t k.
Proof. apply list.filter_app. Qed.
Lemma filter_concat (t : Z) (ls : list (list Z)) : unlink t (concat ls) = concat (unlink t <$> ls).
Proof. induction ls as [|l ls IH]; [done|]. cbn [concat fmap list_fmap]. by rewrite unlink_app, IH. Qed.
Lemma unlink_id t l : t ∉ l -> unlink t l = l.
Proof.
  induction l as [|x l IH]; intros Ht; [done|]. apply not_elem_of_cons in Ht as [Hne Ht]. unfold unlink in *.
  rewrite filter_cons_True by congruence. by rewrite IH.
Qed.
Lemma unlink_head t l : t ∉ l -> unlink t (t :: l) = l.
Proof. intros Ht. unfold unlink. rewrite filter_cons_False by (by intros ?). by apply unlink_id. Qed.
Lemma elem_of_unlink t l x : x ∈ unlink t l <-> x ∈ l /\ x <> t.
Proof. unfold unlink. rewrite list_elem_of_filter. tauto. Qed.
Lemma nodup_unlink t l : NoDup l -> NoDup (unlink t l).
Proof. apply list.NoDup_filter. Qed.
Lemma unlink_nil t : unlink t [] = [].
Proof. done. Qed.

Lemma at_idx_elem bs x : (exists i y, bs !! i = Some y /\ x ∈ y) <-> exists idx, 0 <= idx < Z.of_nat (length bs) /\ x ∈ at_idx bs idx.
Proof.
  split.
  - intros (i & y & Hi & Hx). exists (Z.of_nat i). apply lookup_lt_Some in Hi as Hlt. split; [lia|].
    unfold at_idx. by rewrite Nat2Z.id, Hi.
  - intros (idx & Hi & Hx). exists (Z.to_nat idx). unfold at_idx in Hx.
    destruct (bs !! Z.to_nat idx) as [y|]; [|by apply elem_of_nil in Hx]. by exists y.
Qed.
Lemma at_idx_lookup bs idx : 0 <= idx < Z.of_nat (length bs) -> bs !! Z.to_nat idx = Some (at_idx bs idx).
Proof. intros Hi. unfold at_idx. by destruct (lookup_lt_is_Some_2 bs (Z.to_nat idx)) as [y ->]; [lia|]. Qed.
Lemma at_idx_ext bs bs' : length bs = length bs' -> (forall idx, 0 <= idx -> at_idx bs idx = at_idx bs' idx) -> bs = bs'.
Proof.
  intros Hl H. apply list_eq_same_length with (length bs); [done..|]. intros i x y Hi Hx Hy. specialize (H (Z.of_nat i) ltac:(lia)).
  unfold at_idx in H. rewrite Nat2Z.id, Hx, Hy in H. done.
Qed.

Lemma sorted_nodup (l : list Z) : StronglySorted Z.lt l -> NoDup l.
Proof.
  induction 1 as [|x l _ IH Hx]; constructor; [|done]. intros Hin.
  pose proof (proj1 (list.Forall_forall _ l) Hx x Hin). lia.
Qed.
(** Clearing buckets moves their timers. *)
Lemma clear_perm S : forall bs, NoDup S -> (forall idx, idx ∈ S -> 0 <= idx < Z.of_nat (length bs)) ->
  let bs' := foldr (fun idx bs => <[Z.to_nat idx := []]> bs) bs S in
  length bs' = length bs /\ (forall idx, 0 <= idx -> at_idx bs' idx = if bool_decide (idx ∈ S) then [] else at_idx bs idx) /\
  concat bs ≡ₚ concat bs' ++ concat (at_idx bs <$> S).
Proof.
  induction S as [|i S IH]; intros bs Hnd Hr; cbn.
  { split_and!; [done| |by rewrite app_nil_r]. intros idx _. by rewrite bool_decide_false by apply not_elem_of_nil. }
  apply list.NoDup_cons in Hnd as [Hi Hnd]. destruct (IH bs Hnd) as (L & A & P); [intros; apply Hr; by right|].
  set (bs1 := foldr _ bs S) in *. pose proof (Hr i ltac:(left)) as Hir. split_and!.
  - by rewrite length_insert.
  - intros idx Hidx. rewrite at_idx_insert, A by lia.
    destruct (Z.eqb_spec idx i) as [->|Hne]; [by rewrite bool_decide_true by left|].
    by rewrite (bool_decide_ext (idx ∈ i :: S) (idx ∈ S)) by (rewrite elem_of_cons; tauto).
  - rewrite P. rewrite (concat_insert_perm bs1 (Z.to_nat i) (at_idx bs1 i) [] (at_idx bs1 i)); [|apply at_idx_lookup; lia|done].
    rewrite A by lia. rewrite bool_decide_false by done. by rewrite <- app_assoc.
Qed.
Lemma cleared_perm S map bs map' bs' : cleared S map bs map' bs' -> NoDup S -> (forall idx, idx ∈ S -> 0 <= idx < 640) ->
  length bs = 640%nat -> concat bs ≡ₚ concat bs' ++ concat (at_idx bs <$> S).
Proof.
  intros [_ L _ B] Hnd Hr Hl. destruct (clear_perm S bs Hnd) as (L1 & A1 & P); [rewrite Hl; done|].
  rewrite (at_idx_ext bs' (foldr (fun idx bs => <[Z.to_nat idx := []]> bs) bs S)); [done|lia|].
  intros idx Hi. by rewrite A1, B.
Qed.

(** ** Reading and writing the state *)

Lemma alter_twice (f g : timer_percpu -> timer_percpu) c (m : gmap Z timer_percpu) :
  alter f c (alter g c m) = alter (fun p => f (g p)) c m.
Proof.
  apply map_eq. intros c'. rewrite !lookup_alter. case_decide as Hc; [subst c'|done].
  rewrite decide_True by done. by destruct (m !! c).
Qed.
Lemma alter_swap (f g : timer_percpu -> timer_percpu) c c' (m : gmap Z timer_percpu) :
  (forall p, f (g p) = g (f p)) -> alter f c (alter g c' m) = alter g c' (alter f c m).
Proof.
  intros H. apply map_eq. intros j. rewrite !lookup_alter. repeat case_decide; subst; try done.
  destruct (m !! _); cbn; by rewrite ?H.
Qed.

Section State.
Context {E : Type}.
Implicit Types (w : world E) (r : Z * Z).

Definition base_at w r : option timer_base := p ← percpus w !! r.1; bases p !! Z.to_nat r.2.
Definition place w r (b : timer_base) : world E :=
  set_percpus w (alter (fun p => set_bases p (<[Z.to_nat r.2 := b]> (bases p))) r.1 (percpus w)).

Lemma base_at_Some w r b : base_at w r = Some b <-> exists p, percpus w !! r.1 = Some p /\ bases p !! Z.to_nat r.2 = Some b.
Proof using Type. unfold base_at. destruct (percpus w !! r.1) as [p|]; cbn; naive_solver. Qed.
Lemma get_base_at w r b : 0 <= r.2 -> base_at w r = Some b -> get_base w r = Ok b.
Proof using Type.
  intros Hr (p & Hp & Hb)%base_at_Some. unfold get_base, get_percpu. rewrite Hp. cbn. by apply aget_Ok.
Qed.
Lemma put_base_at w r b b' : 0 <= r.2 -> base_at w r = Some b -> put_base w r b' = Ok (place w r b').
Proof using Type.
  intros Hr (p & Hp & Hb)%base_at_Some. unfold put_base, get_percpu. rewrite Hp. cbn. apply lookup_lt_Some in Hb as Hl.
  rewrite aset_Ok by lia. cbn. unfold place, put_percpu, set_percpus. f_equal. f_equal. apply map_eq. intros c.
  destruct (decide (c = r.1)) as [->|Hne]; [by rewrite lookup_insert_eq, lookup_alter_eq, Hp|].
  by rewrite lookup_insert_ne, lookup_alter_ne by done.
Qed.
Lemma base_at_place w r b b' r' : base_at w r = Some b -> 0 <= r.2 -> 0 <= r'.2 ->
  base_at (place w r b') r' = if decide (r' = r) then Some b' else base_at w r'.
Proof using Type.
  intros (p & Hp & Hb)%base_at_Some Hr Hr'. apply lookup_lt_Some in Hb. unfold base_at, place. cbn.
  destruct r as [c ty], r' as [c' ty']; cbn in *. destruct (decide (c' = c)) as [->|Hne].
  - rewrite lookup_alter_eq, Hp. cbn. case_decide as Heq.
    + injection Heq as ->. by rewrite list_lookup_insert_eq.
    + rewrite list_lookup_insert_ne; [done|]. intros ?. apply Heq. f_equal. lia.
  - rewrite lookup_alter_ne by done. rewrite decide_False by congruence. done.
Qed.
Lemma place_place w r b b' : place (place w r b) r b' = place w r b'.
Proof using Type.
  unfold place, set_percpus. cbn. f_equal. rewrite alter_twice. apply alter_ext. intros p _. cbn. unfold set_bases. cbn.
  f_equal. apply list_insert_insert_eq.
Qed.
Lemma place_same w r b : base_at w r = Some b -> place w r b = w.
Proof using Type.
  intros (p & Hp & Hb)%base_at_Some. destruct w. unfold place, set_percpus. cbn in *. f_equal. apply map_eq. intros c.
  destruct (decide (c = r.1)) as [->|Hne]; [|by rewrite lookup_alter_ne].
  rewrite lookup_alter_eq, Hp. cbn. f_equal. destruct p. unfold set_bases. cbn in *. f_equal. by apply list_insert_id.
Qed.
Lemma percpu_place w r b c :
  percpus (place w r b) !! c = if decide (r.1 = c) then (fun p => set_bases p (<[Z.to_nat r.2 := b]> (bases p))) <$> percpus w !! c
                               else percpus w !! c.
Proof using Type. cbn. rewrite lookup_alter. by case_decide; subst. Qed.

(** No timer is on two lists, or twice on one. *)
Record lists_ok w : Prop := mkListsOk {
  lo_heads : NoDup (concat (heads w));
  lo_nodes : forall c p, percpus w !! c = Some p -> NoDup (nodes p);
  lo_cpus : forall c c' p p' t, percpus w !! c = Some p -> percpus w !! c' = Some p' -> t ∈ nodes p -> t ∈ nodes p' -> c = c';
  lo_apart : forall c p t, percpus w !! c = Some p -> t ∈ concat (heads w) -> t ∉ nodes p;
}.
End State.

Section Lists.
Context {E : Type}.
Implicit Types (w : world E).

Lemma nodes_unlink t p : nodes (unlink_percpu t p) = unlink t (nodes p).
Proof using Type.
  unfold nodes, unlink_percpu. cbn. rewrite unlink_app. f_equal.
  rewrite filter_concat. f_equal. rewrite <- !list_fmap_compose. apply list_fmap_ext. intros i b _. cbn. by rewrite filter_concat.
Qed.
Lemma unlink_map_id t (ls : list (list Z)) : t ∉ concat ls -> unlink t <$> ls = ls.
Proof using Type.
  intros Ht. rewrite <- (list_fmap_id ls) at 2. apply list_fmap_ext. intros i l Hl. cbn. apply unlink_id.
  intros Hin. apply Ht. apply elem_of_concat. eauto.
Qed.
Lemma unlink_percpu_id t p : t ∉ nodes p -> unlink_percpu t p = p.
Proof using Type.
  unfold nodes. rewrite not_elem_of_app. intros [Hd Hb]. destruct p as [bs dq dt di ae]. unfold unlink_percpu. cbn in *.
  f_equal; [|by apply unlink_id]. rewrite <- (list_fmap_id bs) at 2. apply list_fmap_ext. intros i b Hl. cbn.
  destruct b as [ty c ru cl ne pe rc map bk]. unfold unlink_base. cbn. f_equal. apply unlink_map_id. intros Hin. apply Hb. apply elem_of_concat.
  exists i. rewrite list_lookup_fmap, Hl. cbn. eauto.
Qed.
Lemma unlink_head_map t ts hs i : NoDup (concat hs) -> hs !! i = Some (t :: ts) -> unlink t <$> hs = <[i := ts]> hs.
Proof using Type.
  revert i. induction hs as [|y hs IH]; intros [|i] Hnd Hi; cbn in *; try done; apply list.NoDup_app in Hnd as (Hy & Hd & Hn).
  - injection Hi as ->. apply list.NoDup_cons in Hy as [Hy _]. rewrite unlink_head by done. f_equal. apply unlink_map_id.
    apply Hd. left.
  - rewrite (IH i Hn Hi). f_equal. apply unlink_id. intros Hin. apply (Hd t Hin). apply elem_of_concat. exists i, (t :: ts).
    split; [done|left].
Qed.

(** The first timer of a list of the array [heads]. *)
Lemma hlist_del_head w i t ts : lists_ok w -> heads w !! i = Some (t :: ts) ->
  hlist_del w t = Ok (set_heads w (<[i := ts]> (heads w))).
Proof using Type.
  intros Hw Hi. assert (Hin : t ∈ concat (heads w)) by (apply elem_of_concat; exists i, (t :: ts); split; [done|left]).
  unfold hlist_del, hlist_unhashed. rewrite bool_decide_true by (by left). cbn. f_equal.
  rewrite (unlink_head_map t ts _ i) by (done || apply Hw). unfold set_heads, set_percpus. cbn. f_equal.
  apply map_eq. intros c. rewrite lookup_fmap. destruct (percpus w !! c) as [p|] eqn:Hp; [|done]. cbn. f_equal.
  apply unlink_percpu_id. by apply (lo_apart w Hw c).
Qed.

(** Timers that move between the lists of one CPU and the array [heads]. *)
Lemma lists_ok_move w w' c p p' : lists_ok w -> percpus w !! c = Some p -> percpus w' = <[c := p']> (percpus w) ->
  nodes p' ++ concat (heads w') ⊆+ nodes p ++ concat (heads w) -> lists_ok w'.
Proof using Type.
  intros Hw Hp Ew Hsub. assert (Hnd : NoDup (nodes p ++ concat (heads w))).
  { apply list.NoDup_app. split_and!; [by apply (lo_nodes w Hw c)| |apply Hw]. intros t Ht Hh. by apply (lo_apart w Hw c p t). }
  pose proof (submseteq_Permutation _ _ Hsub) as [k Hk]. rewrite Hk in Hnd. apply list.NoDup_app in Hnd as (Hnd & _ & _).
  apply list.NoDup_app in Hnd as (Hn1 & Hn2 & Hn3).
  assert (Hel : forall t, t ∈ nodes p' \/ t ∈ concat (heads w') -> t ∈ nodes p \/ t ∈ concat (heads w)).
  { intros t. rewrite <- !elem_of_app. intros Ht. by eapply elem_of_submseteq. }
  assert (Hother : forall c' p1 t, c' <> c -> percpus w !! c' = Some p1 -> t ∈ nodes p' \/ t ∈ concat (heads w') -> t ∉ nodes p1).
  { intros c' p1 t Hne Hp1 Ht Hin. destruct (Hel t Ht) as [Ht'|Ht']; [|by apply (lo_apart w Hw c' p1 t)].
    apply Hne. by apply (lo_cpus w Hw c' c p1 p t). }
  split; [done| | |]; rewrite Ew.
  - intros c' p1 [[<- <-]|[Hne Hp1]]%lookup_insert_Some; [done|by apply (lo_nodes w Hw c')].
  - intros c1 c2 p1 p2 t [[<- <-]|[Hne1 H1]]%lookup_insert_Some [[<- <-]|[Hne2 H2]]%lookup_insert_Some Ht1 Ht2; try done.
    + exfalso. eapply (Hother c2 p2 t); eauto.
    + exfalso. eapply (Hother c1 p1 t); eauto.
    + by apply (lo_cpus w Hw c1 c2 p1 p2 t).
  - intros c1 p1 t [[<- <-]|[Hne1 H1]]%lookup_insert_Some Ht; [intros Hin; by apply (Hn2 t)|].
    eapply (Hother c1 p1 t); eauto.
Qed.

Lemma nodes_set_base p i b b' X : bases p !! i = Some b -> concat (buckets b) ≡ₚ concat (buckets b') ++ X ->
  nodes p ≡ₚ nodes (set_bases p (<[i := b']> (bases p))) ++ X.
Proof using Type.
  intros Hb HX. unfold nodes. cbn. rewrite <- app_assoc. f_equiv. rewrite list_fmap_insert.
  apply (concat_insert_perm _ i (concat (buckets b))); [|done]. by rewrite list_lookup_fmap, Hb.
Qed.
Lemma elem_of_nodes p t : t ∈ nodes p <-> t ∈ dpc_timers p \/ exists i b, bases p !! i = Some b /\ t ∈ concat (buckets b).
Proof using Type.
  unfold nodes. rewrite elem_of_app. f_equiv. rewrite elem_of_concat. split.
  - intros (i & y & Hi & Ht). rewrite list_lookup_fmap in Hi. destruct (bases p !! i) as [b|] eqn:Hb; [|done].
    injection Hi as <-. eauto.
  - intros (i & b & Hi & Ht). exists i, (concat (buckets b)). by rewrite list_lookup_fmap, Hi.
Qed.
End Lists.

(** ** Running a base

    The functions of the timers work on their own part of the state: [effect f t]
    is what function [f] does there when it is called with timer [t]. *)
Definition set_env {E} (w : world E) (e : E) : world E :=
  mkWorld e (smp_id w) (time_us w) (timers w) (percpus w) (heads w) (deferred_timer_ipis w) (events w).

Section Run.
Context {E : Type} (effect : Z -> Z -> E -> E) (call : Z -> Z -> world E -> outcome (world E)).
Context (Hcall : forall f t w, call f t w = Ok (set_env w (effect f t (env w)))).
Implicit Types (w : world E) (r : Z * Z).

Definition queue_dpc (t : Z) (p : timer_percpu) : timer_percpu :=
  mkPercpu (bases p) true (t :: dpc_timers p) (dispatching p) (active_evdev p).
(** What becomes of a timer that is due on CPU [c]: an interrupt timer's function
    is called, another timer goes to the front of the CPU's DPC queue. *)
Definition deliver (c : Z) w (t : Z) : world E :=
  match timers w !! t with
  | Some tm =>
      if has_flag tm TIMER_FLAG_IRQ then
        match func tm with Some f => set_env w (effect f t (env w)) | None => w end
      else put_timer (set_percpus w (alter (queue_dpc t) c (percpus w))) t (flag_set tm TIMER_FLAG_DPC_QUEUED)
  | None => w
  end.

Lemma deliver_place c w r b t : deliver c (place w r b) t = place (deliver c w t) r b.
Proof using Type.
  unfold deliver. change (timers (place w r b)) with (timers w). destruct (timers w !! t) as [tm|]; [|done].
  destruct (has_flag tm TIMER_FLAG_IRQ); [by destruct (func tm)|].
  unfold place, put_timer, set_percpus, set_timers. cbn. f_equal. by apply alter_swap.
Qed.
Lemma deliver_heads c w hs t : deliver c (set_heads w hs) t = set_heads (deliver c w t) hs.
Proof using Type.
  unfold deliver. change (timers (set_heads w hs)) with (timers w). destruct (timers w !! t) as [tm|]; [|done].
  destruct (has_flag tm TIMER_FLAG_IRQ); [by destruct (func tm)|done].
Qed.
Lemma delivers_place c r b ts : forall w, foldl (deliver c) (place w r b) ts = place (foldl (deliver c) w ts) r b.
Proof using Type. induction ts as [|t ts IH]; intros w; [done|]. cbn [foldl]. by rewrite deliver_place, IH. Qed.
Lemma delivers_heads c hs ts : forall w, foldl (deliver c) (set_heads w hs) ts = set_heads (foldl (deliver c) w ts) hs.
Proof using Type. induction ts as [|t ts IH]; intros w; [done|]. cbn [foldl]. by rewrite deliver_heads, IH. Qed.
Lemma deliver_facts c w t :
  heads (deliver c w t) = heads w /\ time_us (deliver c w t) = time_us w /\
  (forall r, base_at (deliver c w t) r = base_at w r) /\
  (forall u tm f, timers w !! u = Some tm -> func tm = Some f -> exists tm', timers (deliver c w t) !! u = Some tm' /\ func tm' = Some f).
Proof using Type.
  unfold deliver. destruct (timers w !! t) as [tm|] eqn:Ht; [|eauto 10].
  destruct (has_flag tm TIMER_FLAG_IRQ); [destruct (func tm); cbn; eauto 10|]. split_and!; [done..| |].
  - intros r. unfold base_at. cbn. rewrite lookup_alter. case_decide as Hc; [subst c|done]. by destruct (percpus w !! r.1).
  - intros u tm' f Hu Hf. cbn. destruct (decide (t = u)) as [<-|Hne].
    + rewrite lookup_insert_eq. eexists. split; [done|]. cbn. congruence.
    + rewrite lookup_insert_ne by done. eauto.
Qed.

Lemma set_running_same b : set_running b (running b) = b.
Proof using Type. by destruct b. Qed.
Lemma put_running_at w r b x : 0 <= r.2 -> base_at w r = Some b -> put_running w r x = Ok (place w r (set_running b x)).
Proof using Type. intros Hr Hb. unfold put_running. rewrite (get_base_at w r b), bind_Ok by done. by apply (put_base_at w r b). Qed.

Lemma expire_step w r b i t ts tm f : lists_ok w -> heads w !! i = Some (t :: ts) -> base_at w r = Some b -> 0 <= r.2 ->
  timers w !! t = Some tm -> func tm = Some f ->
  exists x, expire_body call r (Z.of_nat i) w =
    Ok (inl (place (deliver r.1 (set_heads w (<[i := ts]> (heads w))) t) r (set_running b x))).
Proof using Hcall.
  intros Hw Hi Hb Hr Ht Hf. unfold expire_body. unfold aget at 1. rewrite decide_True by lia. rewrite Nat2Z.id, Hi. cbn [deref].
  rewrite bind_Ok. unfold timer_list_del. rewrite (hlist_del_head w i t ts), bind_Ok by done. set (w1 := set_heads w _).
  assert (Hb1 : base_at w1 r = Some b) by done. assert (Ht1 : timers w1 !! t = Some tm) by done.
  unfold get_timer at 1. rewrite Ht1. cbn [deref]. rewrite bind_Ok, Hf, bool_decide_true by done. cbn [enforce]. rewrite bind_Ok.
  unfold deliver. rewrite Ht1, Hf. destruct (has_flag tm TIMER_FLAG_IRQ).
  - rewrite (put_running_at w1 r b), bind_Ok by done. unfold timer_fn_call, get_timer. change (timers (place w1 r _)) with (timers w1).
    rewrite Ht1. cbn [deref]. rewrite bind_Ok, Hf. cbn [deref]. rewrite bind_Ok, Hcall, bind_Ok.
    erewrite put_running_at; [rewrite bind_Ok| done |].
    2: { change (base_at (set_env ?a ?e) r) with (base_at a r). rewrite (base_at_place w1 r b) by done. by rewrite decide_True. }
    exists None. cbn [set_running]. do 2 f_equal.
    exact (place_place (set_env w1 (effect f t (env w1))) r (set_running b (Some t)) (set_running b None)).
  - exists (running b). rewrite set_running_same. apply base_at_Some in Hb1 as (p & Hp & Hb1).
    unfold push_dpc, get_percpu. rewrite Hp. cbn [deref]. rewrite !bind_Ok. unfold upd_timer, get_timer.
    change (timers (put_percpu w1 _ _)) with (timers w1). rewrite Ht1. cbn [deref]. rewrite !bind_Ok. do 2 f_equal.
    rewrite place_same.
    + unfold put_percpu, put_timer, set_percpus, set_timers. cbn. f_equal. apply map_eq. intros c.
      rewrite lookup_alter, lookup_insert. case_decide as Hc; [subst c|done]. change (percpus w) with (percpus w1). by rewrite Hp.
    + unfold base_at. cbn. rewrite lookup_alter_eq. change (percpus w) with (percpus w1). by rewrite Hp.
Qed.

Lemma alter_insert_at (f : timer_percpu -> timer_percpu) c p (m : gmap Z timer_percpu) :
  m !! c = Some p -> alter f c m = <[c := f p]> m.
Proof using Type.
  intros Hp. apply map_eq. intros c'. rewrite lookup_alter, lookup_insert. case_decide as Hc; [subst c'; by rewrite Hp|done].
Qed.
Lemma heads_step w i t ts : heads w !! i = Some (t :: ts) ->
  concat (heads w) ≡ₚ t :: concat (<[i := ts]> (heads w)).
Proof using Type.
  intros Hi. rewrite (concat_insert_perm _ i (t :: ts) ts [t]); [|done|apply Permutation_cons_append].
  symmetry. apply Permutation_cons_append.
Qed.
Lemma nodes_running p i b x : bases p !! i = Some b -> nodes (set_bases p (<[i := set_running b x]> (bases p))) ≡ₚ nodes p.
Proof using Type. intros Hb. rewrite (nodes_set_base p i b (set_running b x) [] Hb); by rewrite app_nil_r. Qed.

Lemma lists_ok_deliver w r b i t ts x : lists_ok w -> heads w !! i = Some (t :: ts) -> base_at w r = Some b ->
  lists_ok (place (deliver r.1 (set_heads w (<[i := ts]> (heads w))) t) r (set_running b x)).
Proof using Type.
  intros Hw Hi (p & Hp & Hb)%base_at_Some. pose proof (heads_step w i t ts Hi) as Hh.
  rewrite deliver_heads. unfold deliver.
  assert (Hplain : forall w1, percpus w1 = percpus w ->
    lists_ok (place (set_heads w1 (<[i := ts]> (heads w))) r (set_running b x))).
  { intros w1 E1. eapply (lists_ok_move w _ r.1 p); [done|done|cbn; rewrite E1; by apply alter_insert_at|]. cbn [heads set_heads place set_percpus].
    rewrite (nodes_running p _ b x Hb), Hh. apply submseteq_app; [done|]. by apply submseteq_cons. }
  destruct (timers w !! t) as [tm|]; [|by apply Hplain]. destruct (has_flag tm TIMER_FLAG_IRQ).
  { destruct (func tm); by apply Hplain. }
  eapply (lists_ok_move w _ r.1 p); [done|done| |].
  - cbn. rewrite alter_twice. by apply alter_insert_at.
  - cbn [heads set_heads place set_percpus put_timer set_timers].
    rewrite (nodes_running (queue_dpc t p) _ b x Hb), Hh. unfold nodes. cbn. rewrite <- !app_assoc.
    apply (Permutation_submseteq (t :: dpc_timers p ++ _)). by rewrite !Permutation_middle.
Qed.

(** Every timer of a list is delivered, first one first. *)
Definition armed w (ts : list Z) : Prop := forall t, t ∈ ts -> exists tm f, timers w !! t = Some tm /\ func tm = Some f.

Lemma armed_deliver c w hs r b t ts : armed w ts -> armed (place (deliver c (set_heads w hs) t) r b) ts.
Proof using Type.
  intros Ha u Hu. destruct (Ha u Hu) as (tm & f & Hu1 & Hf).
  destruct (deliver_facts c (set_heads w hs) t) as (_ & _ & _ & Ht). destruct (Ht u tm f Hu1 Hf) as (tm' & ? & ?). by exists tm', f.
Qed.

Lemma expire_loop r i ts : 0 <= r.2 -> forall w b fuel, lists_ok w -> heads w !! i = Some ts -> base_at w r = Some b ->
  armed w ts -> (length ts < fuel)%nat ->
  exists x, let w' := place (foldl (deliver r.1) (set_heads w (<[i := []]> (heads w))) ts) r (set_running b x) in
    loop fuel (expire_body call r (Z.of_nat i)) w = Ok w' /\ lists_ok w'.
Proof using Hcall.
  intros Hr. induction ts as [|t ts IH]; intros w b [|fuel] Hw Hi Hb Ha Hf; cbn [length] in *; try lia.
  - exists (running b). rewrite set_running_same, list_insert_id by done. cbn [foldl].
    replace (set_heads w (heads w)) with w by (by destruct w). rewrite place_same by done. split; [|done].
    apply loop_done. unfold expire_body, aget. rewrite decide_True by lia. by rewrite Nat2Z.id, Hi.
  - destruct (Ha t) as (tm & f & Ht & Hfun); [left|].
    destruct (expire_step w r b i t ts tm f) as (x & Hx); [done..|]. rewrite (loop_step _ _ _ _ Hx).
    set (w2 := place _ r (set_running b x)) in *. apply lookup_lt_Some in Hi as Hlt.
    assert (Hh2 : heads w2 = <[i := ts]> (heads w)) by (cbn; by destruct (deliver_facts r.1 (set_heads w (<[i := ts]> (heads w))) t) as (-> & _)).
    destruct (IH w2 (set_running b x) fuel) as (y & Hy & Hok).
    + by apply lists_ok_deliver.
    + rewrite Hh2. by rewrite list_lookup_insert_eq.
    + unfold w2. erewrite base_at_place; [by rewrite decide_True| |done|done].
      destruct (deliver_facts r.1 (set_heads w (<[i := ts]> (heads w))) t) as (_ & _ & -> & _). exact Hb.
    + apply armed_deliver. intros u Hu. apply Ha. by right.
    + lia.
    + exists y. cbv zeta in *. rewrite Hh2, list_insert_insert_eq in Hy, Hok. unfold w2 in Hy, Hok.
      change (set_heads (place ?a r ?c) ?h) with (place (set_heads a h) r c) in Hy, Hok.
      rewrite delivers_place, place_place, <- deliver_heads in Hy, Hok. by split.
Qed.

Lemma delivers_facts c ts : forall w,
  heads (foldl (deliver c) w ts) = heads w /\ time_us (foldl (deliver c) w ts) = time_us w /\
  (forall r, base_at (foldl (deliver c) w ts) r = base_at w r) /\
  (forall us, armed w us -> armed (foldl (deliver c) w ts) us).
Proof using Type.
  induction ts as [|t ts IH]; intros w; [done|]. cbn [foldl]. destruct (IH (deliver c w t)) as (-> & -> & Hb & Ha).
  destruct (deliver_facts c w t) as (-> & -> & Hb1 & Ha1). split_and!; [done..| |].
  - intros r. by rewrite Hb.
  - intros us Hus. apply Ha. intros u Hu. destruct (Hus u Hu) as (tm & f & Hu1 & Hf). destruct (Ha1 u tm f Hu1 Hf) as (tm' & ? & ?).
    by exists tm', f.
Qed.

Lemma expire_heads_spec fuel r hs : 0 <= r.2 -> forall k w b, lists_ok w -> heads w = replicate k [] ++ hs -> base_at w r = Some b ->
  armed w (concat hs) -> (forall ts, ts ∈ hs -> (length ts < fuel)%nat) ->
  exists x, let w' := place (foldl (deliver r.1) (set_heads w (replicate (k + length hs) [])) (concat hs)) r (set_running b x) in
    expire_heads call fuel (length hs) w r (Z.of_nat k) = Ok w' /\ lists_ok w'.
Proof using Hcall.
  intros Hr. induction hs as [|ts hs IH]; intros k w b Hw Hh Hb Ha Hf; cbn [length expire_heads].
  - exists (running b). rewrite set_running_same, Nat.add_0_r. cbn [concat foldl]. rewrite app_nil_r in Hh. rewrite <- Hh.
    replace (set_heads w (heads w)) with w by (by destruct w). by rewrite place_same.
  - cbn [concat] in *. assert (Hk : heads w !! k = Some ts) by (rewrite Hh, lookup_app_r; rewrite length_replicate, ?Nat.sub_diag; done).
    destruct (expire_loop r k ts Hr w b fuel) as (x & Ex & Hok); [done..| | |].
    + intros t Ht. apply Ha. apply elem_of_app. by left.
    + apply Hf. left.
    + unfold timer_expire_bucket. rewrite Ex, bind_Ok. clear Ex.
      assert (Hrep : <[k := []]> (heads w) = replicate (S k) [] ++ hs).
      { rewrite Hh, insert_app_r_alt by (by rewrite length_replicate). rewrite length_replicate, Nat.sub_diag. cbn [insert list_insert].
        by rewrite replicate_S_end, <- app_assoc. }
      rewrite Hrep in *. cbv zeta in *. set (w1 := place _ r (set_running b x)) in *.
      destruct (delivers_facts r.1 ts (set_heads w (replicate (S k) [] ++ hs))) as (Hh1 & _ & Hb1 & Ha1).
      destruct (IH (S k) w1 (set_running b x)) as (y & Ey & Hok'); [done|exact Hh1| | |by intros; apply Hf; right|].
      * unfold w1. erewrite base_at_place; [by rewrite decide_True| |done|done]. rewrite Hb1. exact Hb.
      * apply Ha1. intros t Ht. apply Ha. apply elem_of_app. by right.
      * exists y. replace (Z.of_nat k + 1) with (Z.of_nat (S k)) by lia. unfold w1 in Ey, Hok'.
        change (set_heads (place ?a r ?c) ?h) with (place (set_heads a h) r c) in Ey, Hok'.
        rewrite delivers_place, place_place, <- delivers_heads in Ey, Hok'. rewrite foldl_app.
        replace (k + S (length hs))%nat with (S k + length hs)%nat by lia. by split.
Qed.

Lemma wheel_ok_running b x : wheel_ok b -> wheel_ok (set_running b x).
Proof using Type. intros []. by split. Qed.

(** One round of [timer_base_run]: the buckets due next are delivered, those of a
    lower level first, and the rest of the wheel stays. *)
Lemma run_round fuel time w r b : lists_ok w -> concat (heads w) = [] -> base_at w r = Some b -> 0 <= r.2 -> base_ok b ->
  armed w (concat (buckets b)) -> (length (concat (buckets b)) < fuel)%nat -> time < 2 ^ 62 ->
  pending b = true -> next_expiration_us b <= time ->
  exists S b', let w' := place (foldl (deliver r.1) (set_heads w (replicate (length S) [])) (concat (at_idx (buckets b) <$> S))) r b' in
    run_body call fuel r time w = Ok (inl w') /\ lists_ok w' /\ base_ok b' /\
    StronglySorted Z.lt S /\ (forall idx, idx ∈ S <-> due b idx (next_expiration_us b)) /\
    (forall idx at_, due b' idx at_ <-> due b idx at_ /\ next_expiration_us b < at_) /\
    cleared S (pending_map b) (buckets b) (pending_map b') (buckets b') /\ cpu b' = cpu b /\ clock b' = next_expiration_us b.
Proof using Hcall.
  intros Hw Hh Hb Hr Hok Ha Hf Ht Hp Hn. destruct (pending_next b Hok Hp) as [_ Hclk]. unfold run_body.
  rewrite (get_base_at w r b), bind_Ok by done. rewrite (proj2 (Z.leb_le (clock b) time)), Hp, (proj2 (Z.leb_le _ time)) by lia. cbn [andb].
  destruct (collect_ok b Hok Hp ltac:(lia)) as (b1 & S & -> & Hwh & Hcl & Hc1 & _ & Hcpu1 & _ & HS & HSd & Hdue).
  rewrite bind_Ok. cbn [fst snd]. rewrite (put_base_at w r b), bind_Ok by done. set (hs := at_idx (buckets b) <$> S).
  assert (Hnd : NoDup S) by (by apply sorted_nodup).
  pose proof (cleared_perm _ _ _ _ _ Hcl Hnd (fun idx Hi => proj1 (proj1 (HSd idx) Hi)) (wh_len b (ok_wheel b Hok))) as Hperm. fold hs in Hperm.
  assert (Hpl : base_at (place w r b1) r = Some b1) by (rewrite (base_at_place w r b) by done; by rewrite decide_True).
  apply base_at_Some in Hb as Hb'. destruct Hb' as (p & Hp' & Hbp).
  destruct (expire_heads_spec fuel r hs Hr 0 (set_heads (place w r b1) hs) b1) as (x & Ex & Hok1).
  - eapply (lists_ok_move w _ r.1 p); [done|done|by apply alter_insert_at|]. cbn [heads set_heads place set_percpus].
    rewrite Hh, app_nil_r. by rewrite (nodes_set_base p _ b b1 (concat hs) Hbp Hperm).
  - done.
  - exact Hpl.
  - intros t Hin. apply (Ha t). rewrite Hperm. apply elem_of_app. by right.
  - intros ts Hts. apply (Nat.le_lt_trans _ (length (concat (buckets b)))); [|done]. rewrite Hperm, length_app.
    apply list_elem_of_lookup in Hts as [i Hi]. rewrite (concat_insert_perm hs i ts [] ts Hi) by done. rewrite !length_app. lia.
  - change (Z.of_nat 0) with 0 in Ex. rewrite Ex, bind_Ok. clear Ex. cbv zeta in Hok1. cbn [Nat.add] in *. set (w1 := place _ r (set_running b1 x)) in *.
    destruct (delivers_facts r.1 (concat hs) (set_heads (set_heads (place w r b1) hs) (replicate (length hs) []))) as (_ & _ & Hb1 & _).
    assert (Hbw : base_at w1 r = Some (set_running b1 x)).
    { unfold w1. erewrite base_at_place; [by rewrite decide_True| |done|done]. rewrite Hb1.
      exact Hpl. }
    rewrite (get_base_at w1 r (set_running b1 x)), bind_Ok by done.
    destruct (recalc_ok (set_running b1 x) (wheel_ok_running b1 x Hwh)) as (b2 & -> & Hb2 & Em & Eb & Ec & _ & Ecpu & _). rewrite bind_Ok.
    rewrite (put_base_at w1 r _ b2 Hr Hbw), bind_Ok. exists S, b2. cbv zeta.
    assert (Ew : place w1 r b2 = place (foldl (deliver r.1) (set_heads w (replicate (length S) [])) (concat hs)) r b2).
    { unfold w1. rewrite place_place. change (set_heads (set_heads (place w r b1) hs) ?h) with (place (set_heads w h) r b1).
      rewrite delivers_place, place_place. unfold hs at 1. by rewrite length_fmap. }
    fold hs. rewrite <- Ew. split_and!; [done| |done|done|done| | |by rewrite Ecpu|by rewrite Ec].
    + apply base_at_Some in Hbw as (p1 & Hp1 & Hbp1). eapply (lists_ok_move w1 _ r.1 p1); [done|done|by apply alter_insert_at|].
      cbn [heads place set_percpus]. apply Permutation_submseteq. f_equiv.
      rewrite (nodes_set_base p1 _ _ b2 [] Hbp1); [by rewrite app_nil_r|]. rewrite Eb. by rewrite app_nil_r.
    + intros idx at_. rewrite <- Hdue. unfold due. by rewrite Em, Ec.
    + by rewrite Em, Eb.
Qed.

(** The order in which the pending buckets of a base are due: by time, and the
    finer level first. *)
Definition fires_before (b : timer_base) (i j : Z) : Prop :=
  slot_time (clock b) i < slot_time (clock b) j \/ slot_time (clock b) i = slot_time (clock b) j /\ i < j.

Lemma sorted_impl (P Q : Z -> Z -> Prop) l : StronglySorted P l -> (forall i j, i ∈ l -> j ∈ l -> P i j -> Q i j) -> StronglySorted Q l.
Proof using Type.
  induction 1 as [|x l _ IH Hx]; intros H; constructor.
  - apply IH. intros i j Hi Hj. apply H; by right.
  - apply list.Forall_forall. intros y Hy. apply H; [left|by right|]. by apply (proj1 (list.Forall_forall _ l) Hx).
Qed.
Lemma due_time b idx at_ : due b idx at_ -> slot_time (clock b) idx = at_.
Proof using Type. by intros (_ & _ & ?). Qed.
(** The buckets of one round come before those of the rounds after it. *)
Lemma rounds_sorted b b' S slots n : StronglySorted Z.lt S -> (forall idx, idx ∈ S <-> due b idx n) ->
  (forall idx at_, due b' idx at_ -> due b idx at_ /\ n < at_) -> (forall idx, idx ∈ slots -> exists at_, due b' idx at_) ->
  StronglySorted (fires_before b') slots -> StronglySorted (fires_before b) (S ++ slots).
Proof using Type.
  intros HS HSd Hdue Hsl Hs. apply StronglySorted_app_2.
  - intros i j Hi Hj. apply HSd, due_time in Hi. destruct (Hsl j Hj) as [a Ha]. apply Hdue in Ha as [Ha%due_time Hn]. left. lia.
  - eapply sorted_impl; [exact HS|]. intros i j Hi%HSd%due_time Hj%HSd%due_time Hlt. right. split; [congruence|done].
  - eapply sorted_impl; [exact Hs|]. intros i j Hi Hj Hlt. destruct (Hsl i Hi) as [ai Hai], (Hsl j Hj) as [aj Haj].
    unfold fires_before in *. rewrite (due_time _ _ _ Hai), (due_time _ _ _ Haj) in Hlt.
    by rewrite (due_time _ _ _ (proj1 (Hdue _ _ Hai))), (due_time _ _ _ (proj1 (Hdue _ _ Haj))).
Qed.

Lemma concat_replicate_nil (n : nat) : concat (replicate n ([] : list Z)) = [].
Proof using Type. by induction n. Qed.
Lemma round_after w r b b1 S n : base_at w r = Some b -> 0 <= r.2 -> base_ok b -> armed w (concat (buckets b)) ->
  StronglySorted Z.lt S -> S <> [] -> (forall idx, idx ∈ S <-> due b idx n) ->
  cleared S (pending_map b) (buckets b) (pending_map b1) (buckets b1) ->
  let w1 := place (foldl (deliver r.1) (set_heads w (replicate (length S) [])) (concat (at_idx (buckets b) <$> S))) r b1 in
  base_at w1 r = Some b1 /\ concat (heads w1) = [] /\ armed w1 (concat (buckets b1)) /\
  (length (concat (buckets b1)) < length (concat (buckets b)))%nat.
Proof using Type.
  intros Hb Hr Hok Ha HS Hne HSd Hcl w1.
  pose proof (cleared_perm _ _ _ _ _ Hcl (sorted_nodup S HS) (fun idx Hi => proj1 (proj1 (HSd idx) Hi)) (wh_len b (ok_wheel b Hok))) as Hperm.
  destruct (delivers_facts r.1 (concat (at_idx (buckets b) <$> S)) (set_heads w (replicate (length S) []))) as (Hh1 & _ & Hb1 & Ha1).
  split_and!.
  - unfold w1. rewrite (base_at_place _ r b) by (done || by rewrite Hb1). by rewrite decide_True.
  - change (heads w1) with (heads (foldl (deliver r.1) (set_heads w (replicate (length S) [])) (concat (at_idx (buckets b) <$> S)))).
    rewrite Hh1. apply concat_replicate_nil.
  - apply Ha1. intros t Hin. apply Ha. rewrite Hperm. apply elem_of_app. by left.
  - rewrite Hperm, length_app. destruct S as [|i S]; [done|]. destruct (proj1 (HSd i) ltac:(left)) as (Hi & Hti & _).
    apply (wh_bits b (ok_wheel b Hok) i Hi) in Hti. cbn. rewrite length_app. destruct (at_idx (buckets b) i); [done|cbn; lia].
Qed.

Lemma run_loop F time r : 0 <= r.2 -> time < 2 ^ 62 -> forall k w b, lists_ok w -> concat (heads w) = [] -> base_at w r = Some b -> base_ok b ->
  armed w (concat (buckets b)) -> (length (concat (buckets b)) < k)%nat -> (length (concat (buckets b)) < F)%nat ->
  exists slots b', let w' := place (set_heads (foldl (deliver r.1) w (concat (at_idx (buckets b) <$> slots))) []) r b' in
    loop k (run_body call F r time) w = Ok w' /\ lists_ok w' /\ base_ok b' /\
    StronglySorted (fires_before b) slots /\ (forall idx, idx ∈ slots <-> exists at_, due b idx at_ /\ at_ <= time) /\
    (forall idx at_, due b' idx at_ <-> due b idx at_ /\ time < at_) /\
    (forall idx, 0 <= idx -> at_idx (buckets b') idx = if bool_decide (idx ∈ slots) then [] else at_idx (buckets b) idx) /\
    cpu b' = cpu b /\ clock b' <= Z.max (clock b) time.
Proof using Hcall.
  intros Hr Ht. induction k as [|k IH]; intros w b Hw Hh Hb Hok Ha Hk HF; [lia|].
  destruct (decide (pending b = true /\ next_expiration_us b <= time)) as [[Hp Hn]|Hnot].
  - destruct (run_round F time w r b Hw Hh Hb Hr Hok Ha HF Ht Hp Hn) as (S & b1 & Hbody & Hw1 & Hok1 & HS & HSd & Hdue & Hcl & Hcpu & Hclk).
    destruct (pending_next b Hok Hp) as [(i0 & Hi0) _]. apply HSd in Hi0.
    destruct (round_after w r b b1 S _ Hb Hr Hok Ha HS ltac:(by intros ->; apply elem_of_nil in Hi0) HSd Hcl) as (Hb1 & Hh1 & Ha1 & Hl1).
    rewrite (loop_step _ _ _ _ Hbody). set (w1 := place _ r b1) in *.
    destruct (IH w1 b1 Hw1 Hh1 Hb1 Hok1 Ha1 ltac:(lia) ltac:(lia)) as (slots & b' & El & Hw' & Hok' & Hs & Hsd & Hdue' & Hbk & Hcpu' & Hclk').
    exists (S ++ slots), b'. cbv zeta in *. rewrite fmap_app, concat_app, foldl_app.
    assert (Hfm : at_idx (buckets b1) <$> slots = at_idx (buckets b) <$> slots).
    { apply list_fmap_ext. intros n i Hi. apply list_elem_of_lookup_2 in Hi. apply Hsd in Hi as (a & Hd1 & _).
      apply Hdue in Hd1 as [Hd1 Hlt]. rewrite (cl_buckets _ _ _ _ _ Hcl) by apply Hd1. rewrite bool_decide_false; [done|].
      intros HiS%HSd%due_time. apply due_time in Hd1. lia. }
    rewrite Hfm in *. unfold w1 in El, Hw'.
    rewrite delivers_place, delivers_heads, delivers_heads in El, Hw'.
    change (set_heads (place (set_heads ?z ?h) r b1) []) with (place (set_heads z []) r b1) in El, Hw'. rewrite place_place in El, Hw'.
    split_and!; [unfold w1; by rewrite delivers_heads|done|done| | | | |congruence|lia].
    + eapply rounds_sorted; [done|exact HSd|by intros idx a Hd; apply Hdue| |done]. intros idx Hi. apply Hsd in Hi as (a & ? & _). by exists a.
    + intros idx. rewrite elem_of_app, HSd, Hsd. split.
      * intros [Hd|(a & Hd & Hle)]; [by exists (next_expiration_us b)|]. apply Hdue in Hd as [? _]. by exists a.
      * intros (a & Hd & Hle). destruct (next_le b idx a Hok Hd) as [Hna _].
        destruct (decide (a = next_expiration_us b)) as [->|]; [by left|right]. exists a. split; [|done]. apply Hdue. split; [done|lia].
    + intros idx a. rewrite Hdue', Hdue. split; [tauto|]. intros [? ?]. split; [split; [done|lia]|done].
    + intros idx Hi. rewrite Hbk, (cl_buckets _ _ _ _ _ Hcl) by done.
      rewrite (bool_decide_ext (idx ∈ S ++ slots) (idx ∈ S \/ idx ∈ slots)) by apply elem_of_app. rewrite bool_decide_or.
      by destruct (bool_decide (idx ∈ S)), (bool_decide (idx ∈ slots)).
  - exists [], b. cbn. replace (place (set_heads w []) r b) with (set_heads w []) by (by rewrite place_same).
    assert (Hnone : forall idx a, due b idx a -> time < a).
    { intros idx a Hd. destruct (next_le b idx a Hok Hd) as [Hle Hp]. destruct (decide (next_expiration_us b <= time)); [naive_solver|lia]. }
    split_and!; [| |done|constructor| | |done|done|lia].
    + apply loop_done. unfold run_body. rewrite (get_base_at w r b), bind_Ok by done.
      destruct (pending b) eqn:Hp; [|by rewrite andb_false_r]. destruct (Z.leb_spec (next_expiration_us b) time); [naive_solver|by rewrite andb_false_r].
    + apply base_at_Some in Hb as (p & Hp & Hb). eapply (lists_ok_move w _ r.1 p p); [done|done|by rewrite insert_id|].
      cbn [heads set_heads]. cbn [concat]. by rewrite Hh.
    + intros idx. split; [by intros ?%elem_of_nil|]. intros (a & Hd & Hle). specialize (Hnone idx a Hd). lia.
    + intros idx a. split; [|tauto]. intros Hd. split; [done|]. by apply (Hnone idx).
Qed.
End Run.
