(* ===== verification/TimerApi.v ===== *)
(** * The invariant of the kernel timers

    Every operation of [Timer.v] keeps the timers, their lists, the wheels and
    the flags consistent, and none of them faults or panics.  The functions of
    the timers are assumed to work on their own state ([effect]): a function that
    calls the timer operations, as the scheduler's tick does to arm its timer
    again, is not covered by the theorems on the interrupt and the DPC. *)

From stdpp Require Import sorting.
From S2P Require Import Prelude BitMath BitSet TimerWheel Timer.

#[local] Arguments unlink : simpl never.

(** The two flags that say where a timer may be. *)
Definition queued (tm : timer) : bool := Z.testbit (flags tm) 20.
Definition irq (tm : timer) : bool := Z.testbit (flags tm) 19.

#[local] Arguments queued : simpl never.
#[local] Arguments irq : simpl never.

Lemma has_flag_queued tm : has_flag tm TIMER_FLAG_DPC_QUEUED = queued tm.
Proof. by apply has_flag_bit. Qed.
Lemma has_flag_irq tm : has_flag tm TIMER_FLAG_IRQ = irq tm.
Proof. by apply has_flag_bit. Qed.

(** Two timers alike but for the bucket and the flag [DPC_QUEUED]. *)
Definition same_home (tm tm' : timer) : Prop :=
  func tm' = func tm /\ expiration_us tm' = expiration_us tm /\ in_u 32 (flags tm') /\
  (forall i, 0 <= i < 20 -> Z.testbit (flags tm') i = Z.testbit (flags tm) i) /\
  Z.testbit (flags tm') 21 = Z.testbit (flags tm) 21.

Lemma same_home_facts tm tm' : same_home tm tm' ->
  timer_cpu_get tm' = timer_cpu_get tm /\ base_of tm' = base_of tm /\ irq tm' = irq tm /\ func tm' = func tm.
Proof.
  intros (Hf & _ & _ & Hlow & H21). assert (Ec : timer_cpu_get tm' = timer_cpu_get tm) by (apply cpu_get_ext; intros; apply Hlow; lia).
  split_and!; [done| |by apply Hlow|done]. unfold base_of. rewrite Ec. apply base_for_cpu_ext; [by apply Hlow|done].
Qed.
Lemma in_u_land x y : in_u 32 x -> in_u 32 (Z.land x y).
Proof. by apply land_range_l. Qed.
Lemma bucket_set_home tm idx : in_u 32 (flags tm) -> 0 <= idx < 1024 ->
  same_home tm (timer_bucket_set tm idx) /\ queued (timer_bucket_set tm idx) = queued tm /\ timer_bucket_get (timer_bucket_set tm idx) = idx.
Proof.
  intros Hf Hi. unfold same_home. split_and!; [done|done| |intros i Hb; by rewrite bit_bucket_set, (proj2 (Z.ltb_lt _ _)) by lia
    |by rewrite bit_bucket_set by lia|by unfold queued; rewrite bit_bucket_set by lia|by apply bucket_get_set].
  cbn. apply lor_range; [lia|by apply in_u_land|]. by apply wrap_range.
Qed.
Lemma queued_set_home tm : in_u 32 (flags tm) -> let tm' := flag_set tm TIMER_FLAG_DPC_QUEUED in
  same_home tm tm' /\ queued tm' = true /\ timer_bucket_get tm' = timer_bucket_get tm.
Proof.
  intros Hf tm'. assert (Hb : forall i, 0 <= i < 32 -> i <> 20 -> Z.testbit (flags tm') i = Z.testbit (flags tm) i).
  { intros i Hi Hne. unfold tm', TIMER_FLAG_DPC_QUEUED. rewrite bit_flag_set by lia. by rewrite (proj2 (Z.eqb_neq _ _)). }
  unfold same_home. split_and!; [done|done| |intros; apply Hb; lia|apply Hb; lia|by unfold queued, tm', TIMER_FLAG_DPC_QUEUED; rewrite bit_flag_set
    |apply bucket_get_ext; intros; apply Hb; lia].
  cbn. by apply lor_range.
Qed.
Lemma queued_clear_home tm : in_u 32 (flags tm) -> let tm' := flag_clear tm TIMER_FLAG_DPC_QUEUED in
  same_home tm tm' /\ queued tm' = false /\ timer_bucket_get tm' = timer_bucket_get tm.
Proof.
  intros Hf tm'. assert (Hb : forall i, 0 <= i < 32 -> i <> 20 -> Z.testbit (flags tm') i = Z.testbit (flags tm) i).
  { intros i Hi Hne. unfold tm', TIMER_FLAG_DPC_QUEUED. rewrite bit_flag_clear by lia. by rewrite (proj2 (Z.eqb_neq _ _)). }
  unfold same_home. split_and!; [done|done| |intros; apply Hb; lia|apply Hb; lia|by unfold queued, tm', TIMER_FLAG_DPC_QUEUED; rewrite bit_flag_clear
    |apply bucket_get_ext; intros; apply Hb; lia].
  cbn. by apply in_u_land.
Qed.

Section Api.
Context {E : Type}.
Implicit Types (w : world E) (r : Z * Z).

Record world_ok w : Prop := mkWorldOk {
  wo_lists : lists_ok w;
  wo_heads : heads w = [];
  wo_time : 0 <= time_us w < 2 ^ 62;
  wo_ipis : forall c, bm_wf (deferred_timer_ipis w c) 128;
  wo_percpu : forall c p, percpus w !! c = Some p -> 0 <= c < 2 ^ 18 /\ length (bases p) = 3%nat /\
    (forall ced, active_evdev p = Some ced -> min_delta_ns ced <= max_delta_ns ced);
  wo_base : forall r b, base_at w r = Some b -> 0 <= r.2 -> base_ok b /\ cpu b = r.1 /\ clock b <= time_us w;
  wo_timer : forall t tm, timers w !! t = Some tm -> in_u 32 (flags tm) /\ in_u 64 (expiration_us tm) /\ is_Some (percpus w !! timer_cpu_get tm);
  wo_bucket : forall r b idx t, base_at w r = Some b -> 0 <= r.2 -> 0 <= idx -> t ∈ at_idx (buckets b) idx ->
    exists tm, timers w !! t = Some tm /\ is_Some (func tm) /\ timer_bucket_get tm = idx /\ base_of tm = r /\ queued tm = false;
  wo_dpc : forall c p t, percpus w !! c = Some p -> t ∈ dpc_timers p ->
    exists tm, timers w !! t = Some tm /\ is_Some (func tm) /\ timer_cpu_get tm = c /\ queued tm = true /\ irq tm = false;
  wo_queued : forall t tm, timers w !! t = Some tm -> queued tm = true ->
    exists p, percpus w !! timer_cpu_get tm = Some p /\ t ∈ dpc_timers p;
}.

(** A timer is on a list of its own base, or queued on its own CPU, or nowhere. *)
Lemma hashed_cases w t : world_ok w -> hashed w t <->
  (exists r b idx, base_at w r = Some b /\ 0 <= r.2 /\ 0 <= idx < 640 /\ t ∈ at_idx (buckets b) idx) \/
  (exists c p, percpus w !! c = Some p /\ t ∈ dpc_timers p).
Proof using Type.
  intros Hw. unfold hashed. rewrite (wo_heads w Hw). cbn [concat]. unfold map_Exists. split.
  - intros [?%elem_of_nil|(c & p & Hp & Ht)]; [done|]. apply elem_of_nodes in Ht as [Ht|(i & b & Hi & Ht)]; [right; eauto|left].
    assert (Hb : base_at w (c, Z.of_nat i) = Some b) by (apply base_at_Some; exists p; cbn; by rewrite Nat2Z.id).
    destruct (wo_base w Hw _ _ Hb) as [Hok _]; [cbn; lia|].
    apply elem_of_concat, at_idx_elem in Ht as (idx & Hidx & Ht). rewrite (wh_len b (ok_wheel b Hok)) in Hidx.
    exists (c, Z.of_nat i), b, idx. split_and!; done || (cbn; lia).
  - intros [(r & b & idx & (p & Hp & Hb)%base_at_Some & Hr & Hi & Ht)|(c & p & Hp & Ht)]; right.
    + exists r.1, p. split; [done|]. apply elem_of_nodes. right. exists (Z.to_nat r.2), b. split; [done|].
      apply elem_of_concat, at_idx_elem. exists idx. split; [|done]. split; [lia|].
      destruct (decide (idx < Z.of_nat (length (buckets b)))); [done|]. unfold at_idx in Ht. rewrite lookup_ge_None_2 in Ht by lia.
      by apply elem_of_nil in Ht.
    + exists c, p. split; [done|]. apply elem_of_nodes. by left.
Qed.

Lemma unlink_base_id t b : t ∉ concat (buckets b) -> unlink_base t b = b.
Proof using Type. intros Ht. destruct b. unfold unlink_base. cbn in *. by rewrite unlink_map_id. Qed.

Lemma in_bucket_nodes w r b idx t p : percpus w !! r.1 = Some p -> bases p !! Z.to_nat r.2 = Some b -> 0 <= idx ->
  t ∈ at_idx (buckets b) idx -> t ∈ nodes p /\ t ∈ concat (buckets b).
Proof using Type.
  intros Hp Hb Hi Ht. assert (Hc : t ∈ concat (buckets b)).
  { apply elem_of_concat. unfold at_idx in Ht. destruct (buckets b !! Z.to_nat idx) as [l|] eqn:El; [|by apply elem_of_nil in Ht].
    by exists (Z.to_nat idx), l. }
  split; [|done]. apply elem_of_nodes. right. eauto.
Qed.
(** A base's lists hold only timers of the base. *)
Lemma in_base w r b t : world_ok w -> base_at w r = Some b -> 0 <= r.2 -> t ∈ concat (buckets b) ->
  exists tm, timers w !! t = Some tm /\ is_Some (func tm) /\ base_of tm = r /\ queued tm = false /\
    0 <= timer_bucket_get tm < 640 /\ t ∈ at_idx (buckets b) (timer_bucket_get tm).
Proof using Type.
  intros Hw Hb Hr Ht. apply elem_of_concat, at_idx_elem in Ht as (idx & Hi & Ht).
  destruct (wo_base w Hw r b Hb Hr) as [Hok _]. rewrite (wh_len b (ok_wheel b Hok)) in Hi.
  destruct (wo_bucket w Hw r b idx t Hb Hr ltac:(lia) Ht) as (tm & Ht1 & Hf & <- & Hbase & Hq). exists tm. split_and!; done || lia.
Qed.

Lemma set_heads_nil w : heads w = [] -> forall ps, set_heads (set_percpus w ps) [] = set_percpus w ps.
Proof using Type. intros Hh ps. unfold set_heads, set_percpus. cbn. by rewrite Hh. Qed.

(** Unlinking a timer changes the one list it is on. *)
Lemma hlist_del_bucket w r b t : world_ok w -> base_at w r = Some b -> 0 <= r.2 -> t ∈ concat (buckets b) ->
  hlist_del w t = Ok (place w r (unlink_base t b)).
Proof using Type.
  intros Hw Hb Hr Ht. destruct (in_base w r b t Hw Hb Hr Ht) as (tm & Ht1 & _ & Hbase & Hq & Hidx & Hti).
  unfold hlist_del, hlist_unhashed. rewrite bool_decide_true by (apply hashed_cases; [done|]; left; eauto 10).
  cbn [negb]. rewrite (wo_heads w Hw). cbn [fmap list_fmap]. rewrite set_heads_nil by apply Hw. f_equal. unfold place. f_equal.
  apply base_at_Some in Hb as Hb'. destruct Hb' as (p & Hp & Hbp). destruct (in_bucket_nodes w r b (timer_bucket_get tm) t p Hp Hbp ltac:(lia) Hti) as [Hnode _].
  apply map_eq. intros c. rewrite lookup_fmap, lookup_alter. case_decide as Hc.
  2: { destruct (percpus w !! c) as [p'|] eqn:Hp'; [|done]. cbn. f_equal. apply unlink_percpu_id. intros Hin. apply Hc.
       by apply (lo_cpus w (wo_lists w Hw) r.1 c p p' t). }
  subst c. rewrite Hp. cbn. f_equal. unfold unlink_percpu, set_bases. f_equal.
  - apply list_eq. intros i. rewrite list_lookup_fmap, list_lookup_insert. case_decide as Hi.
    + destruct Hi as [<- Hi]. by rewrite Hbp.
    + destruct (bases p !! i) as [b2|] eqn:Hb2; [|done]. cbn. f_equal. apply unlink_base_id. intros Hin.
      destruct (in_base w (r.1, Z.of_nat i) b2 t Hw) as (tm2 & Ht2 & _ & Hbase2 & _); [apply base_at_Some; exists p; cbn; by rewrite Nat2Z.id
        |cbn; lia|done|]. rewrite Ht1 in Ht2. injection Ht2 as <-. rewrite Hbase in Hbase2. apply Hi. rewrite Hbase2. cbn.
      rewrite Nat2Z.id. split; [done|]. by apply lookup_lt_Some in Hb2.
  - apply unlink_id. intros Hin. destruct (wo_dpc w Hw r.1 p t Hp Hin) as (tm2 & Ht2 & _ & _ & Hq2 & _). congruence.
Qed.

Definition drop_dpc (t : Z) (p : timer_percpu) : timer_percpu :=
  mkPercpu (bases p) (dpc_enqueued p) (unlink t (dpc_timers p)) (dispatching p) (active_evdev p).
Lemma hlist_del_dpc w c p t : world_ok w -> percpus w !! c = Some p -> t ∈ dpc_timers p ->
  hlist_del w t = Ok (set_percpus w (<[c := drop_dpc t p]> (percpus w))).
Proof using Type.
  intros Hw Hp Ht. destruct (wo_dpc w Hw c p t Hp Ht) as (tm & Ht1 & _ & _ & Hq & _).
  unfold hlist_del, hlist_unhashed. rewrite bool_decide_true by (apply hashed_cases; [done|]; right; eauto).
  cbn [negb]. rewrite (wo_heads w Hw). cbn [fmap list_fmap]. rewrite set_heads_nil by apply Hw. f_equal. f_equal.
  assert (Hnode : t ∈ nodes p) by (apply elem_of_nodes; by left).
  apply map_eq. intros c'. rewrite lookup_fmap, lookup_insert. case_decide as Hc.
  2: { destruct (percpus w !! c') as [p'|] eqn:Hp'; [|done]. cbn. f_equal. apply unlink_percpu_id. intros Hin. apply Hc.
       by apply (lo_cpus w (wo_lists w Hw) c c' p p' t). }
  subst c'. rewrite Hp. cbn. f_equal. unfold unlink_percpu, drop_dpc. f_equal.
  rewrite <- (list_fmap_id (bases p)) at 2. apply list_fmap_ext. intros i b Hb. cbn. apply unlink_base_id. intros Hin.
  destruct (in_base w (c, Z.of_nat i) b t Hw) as (tm2 & Ht2 & _ & _ & Hq2 & _);
    [apply base_at_Some; exists p; cbn; by rewrite Nat2Z.id|cbn; lia|done|]. congruence.
Qed.

(** *** What keeps the invariant *)

(** Programming the hardware. *)
Definition programmed w m es : world E := set_events (set_ipis w m) es.
Lemma world_ok_programmed w m es : world_ok w -> (forall c, bm_wf (m c) 128) -> world_ok (programmed w m es).
Proof using Type. intros [[] ? ? ? ? ? ? ? ? ?] Hm. split; [by split|done..]. Qed.
Lemma hashed_programmed w m es t : hashed (programmed w m es) t <-> hashed w t.
Proof using Type. done. Qed.

Lemma percpus_place w r b p : percpus w !! r.1 = Some p ->
  percpus (place w r b) = <[r.1 := set_bases p (<[Z.to_nat r.2 := b]> (bases p))]> (percpus w).
Proof using Type. intros Hp. exact (alter_insert_at _ _ _ _ Hp). Qed.

(** A base replaced. *)
Lemma world_ok_place w r b b' : world_ok w -> base_at w r = Some b -> 0 <= r.2 -> base_ok b' -> cpu b' = cpu b -> clock b' <= time_us w ->
  lists_ok (place w r b') ->
  (forall idx t, 0 <= idx -> t ∈ at_idx (buckets b') idx ->
    exists tm, timers w !! t = Some tm /\ is_Some (func tm) /\ timer_bucket_get tm = idx /\ base_of tm = r /\ queued tm = false) ->
  world_ok (place w r b').
Proof using Type.
  intros Hw Hb Hr Hok Hcpu Hclk Hlists Hin. apply base_at_Some in Hb as Hb'. destruct Hb' as (p & Hp & Hbp).
  assert (Hplace : percpus (place w r b') = <[r.1 := set_bases p (<[Z.to_nat r.2 := b']> (bases p))]> (percpus w)) by (by apply percpus_place).
  assert (Hlook : forall c p', percpus (place w r b') !! c = Some p' -> exists p0, percpus w !! c = Some p0 /\
    dpc_timers p' = dpc_timers p0 /\ length (bases p') = length (bases p0) /\ active_evdev p' = active_evdev p0).
  { intros c p'. rewrite Hplace. intros [[<- <-]|[_ Hp']]%lookup_insert_Some; [|by exists p'].
    exists p. split_and!; [done|done|apply length_insert|done]. }
  assert (Hsome : forall c p0, percpus w !! c = Some p0 -> exists p', percpus (place w r b') !! c = Some p' /\ dpc_timers p' = dpc_timers p0).
  { intros c p0 Hp0. rewrite Hplace. destruct (decide (r.1 = c)) as [<-|Hne]; [|rewrite lookup_insert_ne by done; eauto].
    rewrite lookup_insert_eq. eexists. split; [done|]. cbn. congruence. }
  assert (Hbase : forall r' b0, base_at (place w r b') r' = Some b0 -> 0 <= r'.2 -> r' = r /\ b0 = b' \/ base_at w r' = Some b0).
  { intros r' b0 Hb0 Hr'. rewrite (base_at_place w r b) in Hb0 by done. case_decide; [left; split; congruence|by right]. }
  split.
  - done.
  - apply Hw.
  - apply Hw.
  - apply Hw.
  - intros c p' Hp'. destruct (Hlook c p' Hp') as (p0 & Hp0 & _ & -> & ->). by apply (wo_percpu w Hw c).
  - intros r' b0 Hb0 Hr'. destruct (Hbase r' b0 Hb0 Hr') as [[-> ->]|Hb1]; [|by apply (wo_base w Hw)].
    destruct (wo_base w Hw r b Hb Hr) as (_ & Hc & _). split_and!; [done|congruence|done].
  - intros t tm Ht. destruct (wo_timer w Hw t tm Ht) as (? & ? & p0 & Hp0). split_and!; [done|done|].
    destruct (Hsome _ _ Hp0) as (p' & ? & _). by exists p'.
  - intros r' b0 idx t Hb0 Hr' Hi Ht. destruct (Hbase r' b0 Hb0 Hr') as [[-> ->]|Hb1]; [|by apply (wo_bucket w Hw r' b0 idx t)].
    by apply Hin.
  - intros c p' t Hp' Ht. destruct (Hlook c p' Hp') as (p0 & Hp0 & Ed & _ & _). rewrite Ed in Ht. by apply (wo_dpc w Hw c p0).
  - intros t tm Ht Hq. destruct (wo_queued w Hw t tm Ht Hq) as (p0 & Hp0 & Hin0). destruct (Hsome _ _ Hp0) as (p' & Hp' & Ed).
    exists p'. by rewrite Ed.
Qed.

(** A base replaced by one with no more timers. *)
Lemma world_ok_base w r b b' : world_ok w -> base_at w r = Some b -> 0 <= r.2 -> base_ok b' -> cpu b' = cpu b -> clock b' <= time_us w ->
  concat (buckets b') ⊆+ concat (buckets b) ->
  (forall idx t, 0 <= idx -> t ∈ at_idx (buckets b') idx -> t ∈ at_idx (buckets b) idx) -> world_ok (place w r b').
Proof using Type.
  intros Hw Hb Hr Hok Hcpu Hclk Hsub Hin. apply (world_ok_place w r b); [done..| |].
  - apply base_at_Some in Hb as (p & Hp & Hbp).
    apply (lists_ok_move w _ r.1 p _ (wo_lists w Hw) Hp (percpus_place w r b' p Hp)). cbn [heads place set_percpus]. apply submseteq_app; [|done].
    destruct (submseteq_Permutation _ _ Hsub) as [k Hk]. rewrite (nodes_set_base p _ b b' k Hbp Hk). by apply submseteq_inserts_r.
  - intros idx t Hi Ht. apply (wo_bucket w Hw r b idx t); [done..|]. by apply Hin.
Qed.

(** A timer on no list changed. *)
Lemma world_ok_timer w t tm' : world_ok w -> ~ hashed w t -> queued tm' = false -> in_u 32 (flags tm') -> in_u 64 (expiration_us tm') ->
  is_Some (percpus w !! timer_cpu_get tm') -> world_ok (put_timer w t tm').
Proof using Type.
  intros Hw Hh Hq Hf He Hc. destruct (Hw) as [[] ? ? ? ? ? Htm Hbk Hdpc Hqd]. split; try done.
  - intros u tm. cbn. intros [[<- <-]|[Hne Hu]]%lookup_insert_Some; [done|by apply (Htm u)].
  - intros r b idx u Hb Hr Hi Hu. destruct (Hbk r b idx u Hb Hr Hi Hu) as (tm & Hu1 & ?). exists tm. split; [|done]. cbn.
    rewrite lookup_insert_ne; [done|]. intros <-. apply Hh, hashed_cases; [done|]. left. exists r, b, idx. split_and!; try done.
    destruct (wo_base w Hw r b Hb Hr) as [Hok _]. destruct (decide (idx < 640)); [done|].
    unfold at_idx in Hu. rewrite lookup_ge_None_2 in Hu by (rewrite (wh_len b (ok_wheel b Hok)); lia). by apply elem_of_nil in Hu.
  - intros c p u Hp Hu. destruct (Hdpc c p u Hp Hu) as (tm & Hu1 & ?). exists tm. split; [|done]. cbn.
    rewrite lookup_insert_ne; [done|]. intros <-. apply Hh, hashed_cases; [done|]. right. eauto.
  - intros u tm. cbn. intros [[<- <-]|[Hne Hu]]%lookup_insert_Some Hqu; [congruence|by apply (Hqd u)].
Qed.

Lemma lists_ok_add w w' c p p' t : lists_ok w -> ~ hashed w t -> percpus w !! c = Some p -> percpus w' = <[c := p']> (percpus w) ->
  heads w' = heads w -> nodes p' ≡ₚ t :: nodes p -> lists_ok w'.
Proof using Type.
  intros Hw Hh Hp Ew Eh Hn. assert (Hnot : forall c1 p1, percpus w !! c1 = Some p1 -> t ∉ nodes p1).
  { intros c1 p1 Hp1 Hin. apply Hh. right. by exists c1, p1. }
  assert (Hhd : t ∉ concat (heads w)) by (intros Hin; apply Hh; by left).
  assert (Hmem : forall u, u ∈ nodes p' <-> u = t \/ u ∈ nodes p) by (intros u; rewrite Hn; apply elem_of_cons).
  split; rewrite ?Eh, ?Ew.
  - apply Hw.
  - intros c1 p1 [[<- <-]|[_ H1]]%lookup_insert_Some; [|by apply (lo_nodes w Hw c1)]. rewrite Hn. apply list.NoDup_cons.
    split; [by apply (Hnot c)|by apply (lo_nodes w Hw c)].
  - intros c1 c2 p1 p2 u [[<- <-]|[Hne1 H1]]%lookup_insert_Some [[<- <-]|[Hne2 H2]]%lookup_insert_Some Hu1 Hu2; try done.
    + apply Hmem in Hu1 as [->|Hu1]; [by apply (Hnot c2) in Hu2|]. by apply (lo_cpus w Hw c c2 p p2 u).
    + apply Hmem in Hu2 as [->|Hu2]; [by apply (Hnot c1) in Hu1|]. by apply (lo_cpus w Hw c1 c p1 p u).
    + by apply (lo_cpus w Hw c1 c2 p1 p2 u).
  - intros c1 p1 u [[<- <-]|[_ H1]]%lookup_insert_Some Hu; [|by apply (lo_apart w Hw c1)].
    rewrite Hmem. intros [->|Hin]; [done|]. by apply (lo_apart w Hw c p u).
Qed.
End Api.

(** ** The operations *)

Section Ops.
Context {E : Type} (set_next_event : Z -> clock_evdev -> Z -> bool).
Context (Hdev : forall c ced d, min_delta_ns ced <= d <= max_delta_ns ced -> set_next_event c ced d = true).
Implicit Types (w : world E) (r : Z * Z).

Lemma clamp_ok v lo hi : lo <= hi -> exists d, clamp v lo hi = Ok d /\ lo <= d <= hi.
Proof using Type.
  intros H. unfold clamp. rewrite (proj2 (Z.leb_le _ _)) by done. cbn. eexists. split; [done|].
  destruct (Z.ltb_spec hi v); [destruct (Z.ltb_spec hi lo)|destruct (Z.ltb_spec v lo)]; lia.
Qed.

Lemma reprogram_ok w c : world_ok w -> is_Some (percpus w !! c) ->
  exists m es, timer_base_reprogram_hardware set_next_event w c = Ok (programmed w m es) /\ forall c', bm_wf (m c') 128.
Proof using Hdev.
  intros Hw [p Hp]. destruct (wo_percpu w Hw c p Hp) as (Hc & Hl & Hd). unfold timer_base_reprogram_hardware.
  assert (Hsame : Ok w = Ok (programmed w (deferred_timer_ipis w) (events w))) by (by destruct w).
  destruct (Z.eqb_spec c (smp_id w)) as [->|Hne]; cbn [negb].
  - unfold get_percpu. rewrite Hp. cbn [deref]. rewrite bind_Ok. pose proof (wo_ipis w Hw) as Hi.
    destruct (active_evdev p) as [ced|]; [|eauto]. destruct (oneshot ced); cbn [negb]; [|eauto].
    destruct (bases p) as [|l [|g [|d bs]]] eqn:Ebs; try done. change (aget (l :: g :: d :: bs) TIMER_BASE_LOCAL) with (Ok l).
    change (aget (l :: g :: d :: bs) TIMER_BASE_GLOBAL) with (Ok g). rewrite !bind_Ok. cbv zeta.
    destruct (base_next g (base_next l TIME_US_MAX) =? TIME_US_MAX); [eauto|].
    match goal with |- context [clamp ?v _ _] => destruct (clamp_ok v (min_delta_ns ced) (max_delta_ns ced)) as (dl & -> & Hdl) end; [by apply Hd|].
    rewrite bind_Ok, Hdev by done. cbn [enforce]. rewrite bind_Ok. exists (deferred_timer_ipis w). eexists. split; [|done].
    by destruct w.
  - assert (exists m, cpu_mask_set (deferred_timer_ipis w (smp_id w)) c = Ok m /\ bm_wf m 128) as (m & -> & Hm).
    { unfold cpu_mask_set, cpu_guard. change CPU_MASK_BITS with 128. destruct (Z.ltb_spec c 128).
      - destruct (bitmap_set_spec _ _ c (wo_ipis w Hw (smp_id w)) ltac:(lia)) as (m & -> & Hm & _). eauto.
      - eexists. split; [done|apply Hw]. }
    rewrite bind_Ok. exists (fun c' => if c' =? smp_id w then m else deferred_timer_ipis w c'), (events w). split; [by destruct w|]. intros c'. cbn beta. destruct (c' =? smp_id w); [done|apply Hw].
Qed.

Lemma cpu_get_some w t tm : world_ok w -> timers w !! t = Some tm ->
  exists p b, percpus w !! timer_cpu_get tm = Some p /\ bases p !! Z.to_nat (base_of tm).2 = Some b /\
    base_at w (base_of tm) = Some b /\ 0 <= (base_of tm).2.
Proof using Type.
  intros Hw Ht. destruct (wo_timer w Hw t tm Ht) as (_ & _ & [p Hp]). destruct (wo_percpu w Hw _ p Hp) as (_ & Hl & _).
  pose proof (base_of_type (flags tm) (timer_cpu_get tm)) as Hty. change (timer_base_for_cpu _ _) with (base_of tm) in Hty.
  destruct (lookup_lt_is_Some_2 (bases p) (Z.to_nat (base_of tm).2)) as [b Hbp]; [lia|].
  exists p, b. split_and!; [done|done|apply base_at_Some; by exists p|lia].
Qed.

Lemma nodes_add_base p i b b' t : bases p !! i = Some b -> concat (buckets b') ≡ₚ t :: concat (buckets b) ->
  nodes (set_bases p (<[i := b']> (bases p))) ≡ₚ t :: nodes p.
Proof using Type.
  intros Hb Hbk. apply lookup_lt_Some in Hb as Hl.
  rewrite (nodes_set_base (set_bases p (<[i := b']> (bases p))) i b' b [t]).
  - change (bases (set_bases p ?x)) with x. rewrite list_insert_insert_eq, (list_insert_id (bases p) i b) by done.
    replace (set_bases (set_bases p (<[i := b']> (bases p))) (bases p)) with p by (by destruct p).
    symmetry. apply Permutation_cons_append.
  - cbn. by rewrite list_lookup_insert_eq.
  - rewrite Hbk. apply Permutation_cons_append.
Qed.

(** Linking an idle timer into a bucket of its base. *)
Lemma world_ok_link w t tm b b2 idx : world_ok w -> timers w !! t = Some tm -> ~ hashed w t -> is_Some (func tm) -> queued tm = false ->
  base_at w (base_of tm) = Some b -> base_ok b2 -> cpu b2 = cpu b -> clock b2 <= time_us w -> 0 <= idx < 640 ->
  buckets b2 = <[Z.to_nat idx := t :: at_idx (buckets b) idx]> (buckets b) ->
  world_ok (put_timer (place w (base_of tm) b2) t (timer_bucket_set tm idx)).
Proof using Type.
  intros Hw Ht Hh Hf Hq Hb Hok2 Hcpu Hclk Hidx Hbk. destruct (wo_timer w Hw t tm Ht) as (Hfl & Hexp & Hp).
  destruct (bucket_set_home tm idx Hfl ltac:(lia)) as (Hhome & Hq2 & Hbg). destruct (same_home_facts _ _ Hhome) as (Hcg & Hbo & _ & Hfn).
  set (tm2 := timer_bucket_set tm idx) in *. set (r := base_of tm) in *.
  assert (Hr : 0 <= r.2) by (by destruct (cpu_get_some w t tm Hw Ht) as (_ & _ & _ & _ & _ & Hr)).
  destruct (wo_base w Hw r b Hb Hr) as (Hok & _). pose proof (wh_len b (ok_wheel b Hok)) as Hlen.
  assert (Hw1 : world_ok (put_timer w t tm2)).
  { apply world_ok_timer; [done|done|congruence|apply Hhome| |by rewrite Hcg]. destruct Hhome as (_ & -> & _). done. }
  change (world_ok (place (put_timer w t tm2) r b2)). apply (world_ok_place _ r b); [done..| |].
  - apply base_at_Some in Hb as (p & Hp1 & Hbp). eapply (lists_ok_add w _ r.1 p);
      [apply Hw|exact Hh|done|exact (percpus_place (put_timer w t tm2) r b2 p Hp1)|done|].
    apply (nodes_add_base p _ b); [done|]. rewrite Hbk. apply concat_insert_add, at_idx_lookup. lia.
  - intros j u Hj Hu. rewrite Hbk, at_idx_insert in Hu by lia.
    assert (Hcase : u = t /\ j = idx \/ u ∈ at_idx (buckets b) j).
    { destruct (Z.eqb_spec j idx) as [->|]; [|by right]. apply elem_of_cons in Hu as [->|Hu]; [by left|by right]. }
    destruct Hcase as [[-> ->]|Hu']; [|by apply (wo_bucket _ Hw1 r b j u)].
    exists tm2. cbn. rewrite lookup_insert_eq. split_and!; [done|done|done|done|congruence].
Qed.

(** Timer [t] is in a bucket of base [r] that is due at [at_]. *)
Definition due_in w r (t at_ : Z) : Prop :=
  exists b idx, base_at w r = Some b /\ due b idx at_ /\ t ∈ at_idx (buckets b) idx.
Definition queued_on w (c t : Z) : Prop := exists p, percpus w !! c = Some p /\ t ∈ dpc_timers p.
(** From [w] to [w'] nothing but timer [t] has moved. *)
Record only_moves w w' (t : Z) : Prop := mkOnly {
  om_due : forall r u a, 0 <= r.2 -> u <> t -> due_in w' r u a <-> due_in w r u a;
  om_queued : forall c u, u <> t -> queued_on w' c u <-> queued_on w c u;
  om_timers : forall u, u <> t -> timers w' !! u = timers w !! u;
  om_cpu : smp_id w' = smp_id w;
  om_time : time_us w' = time_us w;
  om_env : env w' = env w;
}.
Lemma only_refl w t : only_moves w w t.
Proof using Type. by split. Qed.
Lemma only_trans w1 w2 w3 t : only_moves w1 w2 t -> only_moves w2 w3 t -> only_moves w1 w3 t.
Proof using Type.
  intros [A1 A2 A3 A4 A5 A6] [B1 B2 B3 B4 B5 B6]. split; try congruence.
  - intros r u a Hr Hu. by rewrite B1, A1.
  - intros c u Hu. by rewrite B2, A2.
  - intros u Hu. by rewrite B3, A3.
Qed.
Lemma only_programmed w w' t m es : only_moves w w' t -> only_moves w (programmed w' m es) t.
Proof using Type. intros []. by split. Qed.
Lemma only_timer w t tm : only_moves w (put_timer w t tm) t.
Proof using Type. split; try done. intros u Hu. cbn. by rewrite lookup_insert_ne. Qed.
(** A base replaced by one that differs in [t] only. *)
Lemma only_place w r b b' t : base_at w r = Some b -> 0 <= r.2 ->
  (forall idx a u, u <> t -> due b' idx a /\ u ∈ at_idx (buckets b') idx <-> due b idx a /\ u ∈ at_idx (buckets b) idx) ->
  only_moves w (place w r b') t.
Proof using Type.
  intros Hb Hr H. split; try done.
  - intros r' u a Hr' Hu. unfold due_in. rewrite (base_at_place w r b) by done. case_decide as Heq; [|done]. subst r'. split.
    + intros (b0 & idx & [= <-] & Hd & Hin). destruct (proj1 (H idx a u Hu) (conj Hd Hin)). by exists b, idx.
    + intros (b0 & idx & Hb0 & Hd & Hin). rewrite Hb in Hb0. injection Hb0 as <-. destruct (proj2 (H idx a u Hu) (conj Hd Hin)). by exists b', idx.
  - intros c u _. unfold queued_on. rewrite percpu_place. case_decide as Hc; [subst c|done].
    apply base_at_Some in Hb as (p & -> & _). cbn. split; intros (p' & [= <-] & Hin); eexists; by split.
Qed.

(** [timer_add_internal]: a timer on no list goes to a bucket of its base. *)
Lemma add_internal_ok w t tm : world_ok w -> timers w !! t = Some tm -> ~ hashed w t -> is_Some (func tm) -> queued tm = false ->
  exists w' b idx at_, timer_add_internal set_next_event w (base_of tm) t = Ok w' /\ world_ok w' /\
    base_at w (base_of tm) = Some b /\ placed (expiration_us tm) (clock (advance_clock b (time_us w))) idx at_ /\
    due_in w' (base_of tm) t at_ /\ only_moves w w' t /\ timers w' !! t = Some (timer_bucket_set tm idx).
Proof using Hdev.
  intros Hw Ht Hh Hf Hq. set (r := base_of tm). destruct (cpu_get_some w t tm Hw Ht) as (p & b & Hp & Hbp & Hb & Hr). fold r in Hbp, Hb, Hr.
  destruct (wo_base w Hw r b Hb Hr) as (Hok & Hcpu & Hclk). pose proof (wo_time w Hw) as Htime.
  destruct (advance_ok b (time_us w) Hok ltac:(lia)) as (Hok1 & Hdue1 & Hbk1 & _ & _ & Hclk1 & _).
  unfold timer_add_internal. rewrite (get_base_at w r b), bind_Ok by done. unfold get_timer. rewrite Ht. cbn [deref]. rewrite bind_Ok. cbv zeta.
  set (b1 := advance_clock b (time_us w)) in *. rewrite (put_base_at w r b), bind_Ok by done.
  destruct (wo_timer w Hw t tm Ht) as (Hfl & Hexp & _). pose proof (wh_clock b (ok_wheel b Hok)).
  pose proof (wheel_index_for_spec (expiration_us tm) (clock b1) ltac:(lia) Hexp) as Hpl.
  destruct (wheel_index_for (expiration_us tm) (clock b1)) as [idx at_]. destruct (Hpl) as (Hidx & Hslot & _). change TIMER_WHEEL_SIZE with 640 in Hidx.
  destruct (enqueue_ok b1 t idx at_ Hok1 Hidx Hslot) as (b2 & flag & Eq & Hok2 & Hdue2 & Hbk2 & Hclk2 & _ & Hcpu2 & _).
  rewrite Hbk1 in Hbk2. pose proof (wh_len b (ok_wheel b Hok)) as Hlen.
  assert (Hcpu1 : cpu b1 = cpu b) by (unfold b1, advance_clock; by case_match).
  assert (Hw2 : world_ok (put_timer (place w r b2) t (timer_bucket_set tm idx)))
    by (apply (world_ok_link w t tm b); try done; [congruence|lia]).
  set (w2 := put_timer (place w r b2) t (timer_bucket_set tm idx)) in *.
  assert (Hpl1 : base_at (place w r b1) r = Some b1) by (rewrite (base_at_place w r b) by done; by rewrite decide_True).
  assert (Hbu : forall j, 0 <= j -> at_idx (buckets b2) j = if j =? idx then t :: at_idx (buckets b) idx else at_idx (buckets b) j)
    by (intros j Hj; rewrite Hbk2; apply at_idx_insert; lia).
  assert (Hrun : exists m es, timer_enqueue_internal set_next_event (place w r b1) r t idx at_ = Ok (programmed w2 m es) /\ forall c, bm_wf (m c) 128).
  { unfold timer_enqueue_internal. rewrite (get_base_at _ r b1), bind_Ok by done. rewrite Eq, bind_Ok. cbn [fst snd].
    rewrite (put_base_at _ r b1), bind_Ok, place_place by done. unfold upd_timer, get_timer. change (timers (place w r b2)) with (timers w).
    rewrite Ht. cbn [deref]. rewrite !bind_Ok. fold w2. destruct flag.
    - rewrite Hcpu1, Hcpu. apply reprogram_ok; [done|]. cbn. rewrite lookup_alter_eq. change r.1 with (timer_cpu_get tm). rewrite Hp. by eexists.
    - exists (deferred_timer_ipis w2), (events w2). split; [|apply Hw2]. by destruct w. }
  destruct Hrun as (m & es & -> & Hm). exists (programmed w2 m es), b, idx, at_.
  split; [done|]. split; [by apply world_ok_programmed|]. split; [done|]. split; [done|]. split; [|split].
  - exists b2, idx. split.
    + change (base_at (place w r b2) r = Some b2). rewrite (base_at_place w r b) by done. by rewrite decide_True.
    + split; [apply Hdue2; by right|]. rewrite Hbu, Z.eqb_refl by lia. left.
  - apply only_programmed. eapply only_trans; [|apply only_timer]. apply (only_place w r b); [done..|].
    intros j a u Hu. rewrite Hdue2. fold b1 in Hdue1. rewrite Hdue1. split.
    + intros [Hd Hin]. assert (Hj : 0 <= j) by (destruct Hd as [[? _]|[-> _]]; lia). rewrite Hbu in Hin by done.
      assert (Hin' : u ∈ at_idx (buckets b) j).
      { destruct (Z.eqb_spec j idx) as [->|]; [|done]. apply elem_of_cons in Hin as [?|?]; done. }
      split; [|done]. destruct Hd as [Hd|[-> ->]]; [done|]. apply Hdue1. split; [done|]. split; [|done].
      apply (wh_bits b1 (ok_wheel b1 Hok1) idx Hidx). rewrite Hbk1. intros Hnil. rewrite Hnil in Hin'. by apply elem_of_nil in Hin'.
    + intros [Hd Hin]. split; [by left|]. rewrite Hbu by apply Hd. destruct (Z.eqb_spec j idx) as [->|]; [by right|done].
  - cbn. by rewrite lookup_insert_eq.
Qed.

Lemma at_idx_unlink t bs j : at_idx (unlink t <$> bs) j = unlink t (at_idx bs j).
Proof using Type. unfold at_idx. rewrite list_lookup_fmap. by destruct (bs !! Z.to_nat j). Qed.
Lemma not_hashed_intro w t tm : world_ok w -> timers w !! t = Some tm -> queued tm = false ->
  (forall b idx, base_at w (base_of tm) = Some b -> 0 <= idx -> t ∉ at_idx (buckets b) idx) -> ~ hashed w t.
Proof using Type.
  intros Hw Ht Hq Hno Hh. apply hashed_cases in Hh as [(r & b & idx & Hb & Hr & Hi & Hin)|(c & p & Hp & Hin)]; [| |done].
  - destruct (wo_bucket w Hw r b idx t Hb Hr ltac:(lia) Hin) as (tm2 & Ht2 & _ & _ & Hbo & _). assert (tm2 = tm) as -> by congruence.
    subst r. apply (Hno b idx); [done|lia|done].
  - destruct (wo_dpc w Hw c p t Hp Hin) as (tm2 & Ht2 & _ & _ & Hq2 & _). congruence.
Qed.

(** [timer_dequeue_bucket] *)
Lemma dequeue_bucket_ok w t tm : world_ok w -> timers w !! t = Some tm -> queued tm = false -> hashed w t ->
  exists w', timer_dequeue_bucket w (base_of tm) t = Ok w' /\ world_ok w' /\ only_moves w w' t /\ timers w' = timers w /\ ~ hashed w' t /\
    forall c, is_Some (percpus w' !! c) <-> is_Some (percpus w !! c).
Proof using Type.
  intros Hw Ht Hq Hh. destruct (cpu_get_some w t tm Hw Ht) as (p & b & Hp & Hbp & Hb & Hr). set (r := base_of tm) in *.
  destruct (wo_base w Hw r b Hb Hr) as (Hok & Hcpu & Hclk). destruct (ok_wheel b Hok) as [Wm Wl Wb Wc].
  assert (Hin : t ∈ concat (buckets b)).
  { destruct (decide (t ∈ concat (buckets b))) as [|Hno]; [done|]. exfalso. apply (not_hashed_intro w t tm Hw Ht Hq); [|done].
    intros b0 idx Hb0 _ Hin0. fold r in Hb0. assert (b0 = b) as -> by congruence. apply Hno. unfold at_idx in Hin0.
    destruct (buckets b !! Z.to_nat idx) as [l|] eqn:El; [|by apply elem_of_nil in Hin0]. apply elem_of_concat. eauto. }
  destruct (in_base w r b t Hw Hb Hr Hin) as (tm2 & Ht2 & _ & _ & _ & Hidx & Hti). assert (tm2 = tm) as -> by congruence.
  set (idx := timer_bucket_get tm) in *.
  assert (Honly : forall j, 0 <= j -> j <> idx -> t ∉ at_idx (buckets b) j).
  { intros j Hj Hne Hin'. destruct (wo_bucket w Hw r b j t Hb Hr Hj Hin') as (tm3 & Ht3 & _ & Hbg & _). apply Hne. unfold idx. congruence. }
  unfold timer_dequeue_bucket, timer_list_del. rewrite (hlist_del_bucket w r b t), bind_Ok by done.
  set (b1 := unlink_base t b). assert (Hpl : base_at (place w r b1) r = Some b1) by (rewrite (base_at_place w r b) by done; by rewrite decide_True).
  unfold get_timer. change (timers (place w r b1)) with (timers w). rewrite Ht. cbn [deref]. rewrite bind_Ok.
  rewrite (get_base_at _ r b1), bind_Ok by done. fold idx.
  destruct (dequeue_ok b1 idx) as (b2 & -> & Hok2 & Hdue2 & Hbk2 & Hclk2 & _ & Hcpu2 & _); [done|by unfold b1; cbn; rewrite length_fmap|done|done| | |].
  { apply (Wb idx Hidx). intros Hnil. rewrite Hnil in Hti. by apply elem_of_nil in Hti. }
  { intros j Hj Hne. cbn. rewrite at_idx_unlink, unlink_id by (apply Honly; [lia|done]). by apply Wb. }
  rewrite bind_Ok, (put_base_at _ r b1), place_place by done. exists (place w r b2). split; [done|].
  assert (Hat : forall j, at_idx (buckets b2) j = unlink t (at_idx (buckets b) j)) by (intros j; rewrite Hbk2; apply at_idx_unlink).
  assert (Hw2 : world_ok (place w r b2)).
  { apply (world_ok_base w r b); [done..|by rewrite Hcpu2|rewrite Hclk2; done| |].
    - rewrite Hbk2. cbn. rewrite <- filter_concat. apply sublist_submseteq, sublist_filter.
    - intros j u Hj Hu. rewrite Hat in Hu. by apply elem_of_unlink in Hu as [? _]. }
  split_and!; [done| |done| |].
  - apply (only_place w r b); [done..|]. intros j a u Hu. rewrite Hdue2, Hat, elem_of_unlink. cbn. rewrite at_idx_unlink. split.
    + intros ((Hd & _) & Hin1 & _). by split.
    + intros (Hd & Hin1). split_and!; [done| |done|done]. intros Hnil. assert (u ∈ unlink t (at_idx (buckets b) j)) as Hm by (by apply elem_of_unlink).
      rewrite Hnil in Hm. by apply elem_of_nil in Hm.
  - apply (not_hashed_intro _ t tm); [done..|]. fold r. intros b0 j Hb0 _. rewrite (base_at_place w r b), decide_True in Hb0 by done.
    injection Hb0 as <-. rewrite Hat. intros Hm. apply elem_of_unlink in Hm as [_ ?]. done.
  - intros c. rewrite percpu_place. case_decide; [|done]. by rewrite fmap_is_Some.
Qed.

Lemma base_at_percpu w c p p' r : percpus w !! c = Some p -> bases p' = bases p ->
  base_at (set_percpus w (<[c := p']> (percpus w))) r = base_at w r.
Proof using Type.
  intros Hp Hb. unfold base_at. cbn. destruct (decide (c = r.1)) as [->|]; [by rewrite lookup_insert_eq, Hp; cbn; rewrite Hb|].
  by rewrite lookup_insert_ne.
Qed.
(** A timer taken off the DPC queue. *)
Lemma world_ok_drop w c p t tm tm' : world_ok w -> percpus w !! c = Some p -> t ∈ dpc_timers p -> timers w !! t = Some tm ->
  same_home tm tm' -> queued tm' = false ->
  let w' := put_timer (set_percpus w (<[c := drop_dpc t p]> (percpus w))) t tm' in
  world_ok w'.
Proof using Type.
  intros Hw Hp Hin Ht Hhome Hq w'. destruct (same_home_facts tm tm' Hhome) as (Hcg & Hbo & Hir & Hfn).
  assert (Hbase : forall r, base_at w' r = base_at w r) by (intros r; by apply (base_at_percpu w c p)).
  assert (Hlook : forall c1 p1, percpus w' !! c1 = Some p1 -> exists p0, percpus w !! c1 = Some p0 /\ bases p1 = bases p0 /\
    active_evdev p1 = active_evdev p0 /\ (forall u, u ∈ dpc_timers p1 -> u ∈ dpc_timers p0 /\ u <> t)).
  { intros c1 p1. cbn. intros [[<- <-]|[Hne H1]]%lookup_insert_Some.
    - exists p. split_and!; [done..|]. intros u Hu. by apply elem_of_unlink in Hu.
    - exists p1. split_and!; [done..|]. intros u Hu. split; [done|]. intros ->. apply Hne.
      apply (lo_cpus w (wo_lists w Hw) c c1 p p1 t Hp H1); apply elem_of_nodes; by left. }
  assert (Hsome : forall c1 p0, percpus w !! c1 = Some p0 -> exists p1, percpus w' !! c1 = Some p1 /\
    (forall u, u ∈ dpc_timers p0 -> u <> t -> u ∈ dpc_timers p1)).
  { intros c1 p0 Hp0. cbn. destruct (decide (c = c1)) as [<-|Hne]; [rewrite lookup_insert_eq|rewrite lookup_insert_ne by done; eauto].
    eexists. split; [done|]. intros u Hu Hne. apply elem_of_unlink. split; [congruence|done]. }
  destruct (wo_timer w Hw t tm Ht) as (Hfl & Hexp & [p1 Hp1]).
  split; try apply Hw.
  - eapply (lists_ok_move w w' c p); [apply Hw|done|done|]. cbn [heads]. apply submseteq_app; [|done].
    unfold nodes, drop_dpc. cbn. apply submseteq_app; [|done]. apply sublist_submseteq, sublist_filter.
  - intros c1 p2 Hp2. destruct (Hlook c1 p2 Hp2) as (p0 & Hp0 & -> & -> & _). by apply (wo_percpu w Hw c1).
  - intros r b. rewrite Hbase. apply Hw.
  - intros u tmu. cbn. intros [[<- <-]|[Hne Hu]]%lookup_insert_Some.
    + split_and!; [apply Hhome|by destruct Hhome as (_ & -> & _)|]. rewrite Hcg. destruct (Hsome _ _ Hp1) as (p2 & ? & _). by exists p2.
    + destruct (wo_timer w Hw u tmu Hu) as (? & ? & [p2 Hp2]). split_and!; [done..|]. destruct (Hsome _ _ Hp2) as (p3 & ? & _). by exists p3.
  - intros r b idx u. rewrite Hbase. intros Hb Hr Hi Hu. destruct (wo_bucket w Hw r b idx u Hb Hr Hi Hu) as (tmu & Hu1 & Hu2).
    exists tmu. split; [|done]. cbn. rewrite lookup_insert_ne; [done|]. intros <-. destruct Hu2 as (_ & _ & _ & Hqu).
    destruct (wo_dpc w Hw c p t Hp Hin) as (tmt & Htt & _ & _ & Hqt & _). congruence.
  - intros c1 p2 u Hp2 Hu. destruct (Hlook c1 p2 Hp2) as (p0 & Hp0 & _ & _ & Hd). destruct (Hd u Hu) as [Hu0 Hne].
    destruct (wo_dpc w Hw c1 p0 u Hp0 Hu0) as (tmu & Hu1 & Hu2). exists tmu. split; [|done]. cbn. by rewrite lookup_insert_ne.
  - intros u tmu. cbn. intros [[<- <-]|[Hne Hu]]%lookup_insert_Some Hqu; [congruence|].
    destruct (wo_queued w Hw u tmu Hu Hqu) as (p0 & Hp0 & Hu0). destruct (Hsome _ _ Hp0) as (p2 & Hp2 & Hu2). exists p2. split; [done|].
    apply Hu2; [done|by intros ->].
Qed.
Lemma drop_idle w c p t tm tm' : world_ok w -> percpus w !! c = Some p -> t ∈ dpc_timers p -> timers w !! t = Some tm ->
  same_home tm tm' -> queued tm' = false ->
  let w' := put_timer (set_percpus w (<[c := drop_dpc t p]> (percpus w))) t tm' in
  ~ hashed w' t /\ only_moves w w' t.
Proof using Type.
  intros Hw Hp Hin Ht Hhome Hq w'. destruct (same_home_facts tm tm' Hhome) as (Hcg & Hbo & Hir & Hfn).
  assert (Hbase : forall r, base_at w' r = base_at w r) by (intros r; by apply (base_at_percpu w c p)).
  split.
  - apply (not_hashed_intro w' t tm'); [by apply (world_ok_drop w c p t tm)|by cbn; rewrite lookup_insert_eq|done|].
    intros b idx Hb Hi Hin1. rewrite Hbase, Hbo in Hb. destruct (cpu_get_some w t tm Hw Ht) as (_ & _ & _ & _ & _ & Hr).
    destruct (wo_bucket w Hw _ b idx t Hb Hr Hi Hin1) as (tmu & Hu1 & _ & _ & _ & Hqu).
    destruct (wo_dpc w Hw c p t Hp Hin) as (tmt & Htt & _ & _ & Hqt & _). congruence.
  - eapply only_trans; [|apply only_timer]. split; try done.
    + intros r u a Hr Hu. unfold due_in. by rewrite (base_at_percpu w c p (drop_dpc t p) r Hp eq_refl).
    + intros c1 u Hu. unfold queued_on. cbn. destruct (decide (c = c1)) as [<-|Hne]; [|by rewrite lookup_insert_ne].
      rewrite lookup_insert_eq, Hp. split; intros (p1 & [= <-] & Hin1); eexists; (split; [done|]); cbn in *.
      * by apply elem_of_unlink in Hin1 as [? _].
      * by apply elem_of_unlink.
Qed.

(** Timer [t] is armed for the time [e]: it is in a bucket of its base that is due
    as [wheel_index_for] promises from the base's clock, which is the present time
    unless a bucket of the base is overdue. *)
Definition armed_for w w' (t e : Z) : Prop :=
  exists tm' clk idx at_, timers w' !! t = Some tm' /\ expiration_us tm' = e /\ due_in w' (base_of tm') t at_ /\
    placed e clk idx at_ /\ clk <= time_us w /\
    (clk < time_us w -> exists u a, u <> t /\ due_in w (base_of tm') u a /\ a <= time_us w).

Lemma add_armed w t tm : world_ok w -> timers w !! t = Some tm -> ~ hashed w t -> is_Some (func tm) -> queued tm = false ->
  exists w', timer_add_internal set_next_event w (base_of tm) t = Ok w' /\ world_ok w' /\ only_moves w w' t /\
    armed_for w w' t (expiration_us tm) /\ (exists tm', timers w' !! t = Some tm' /\ same_home tm tm').
Proof using Hdev.
  intros Hw Ht Hh Hf Hq. destruct (add_internal_ok w t tm Hw Ht Hh Hf Hq) as (w' & b & idx & at_ & Ew & Hw' & Hb & Hpl & Hdue & Hom & Ht').
  destruct (wo_timer w Hw t tm Ht) as (Hfl & _). destruct (cpu_get_some w t tm Hw Ht) as (_ & _ & _ & _ & _ & Hr).
  destruct (wo_base w Hw _ b Hb Hr) as (Hok & _ & Hclk). pose proof (wo_time w Hw) as Htime.
  destruct (advance_ok b (time_us w) Hok ltac:(lia)) as (_ & _ & _ & _ & _ & Hclk1 & Hlate).
  assert (Hidx : 0 <= idx < 640) by apply Hpl.
  destruct (bucket_set_home tm idx Hfl ltac:(lia)) as (Hhome & _). destruct (same_home_facts _ _ Hhome) as (_ & Hbo & _).
  exists w'. split_and!; [done..| |by eexists]. exists (timer_bucket_set tm idx), (clock (advance_clock b (time_us w))), idx, at_.
  split_and!; [done|done|by rewrite Hbo|done|lia|]. intros Hlt. specialize (Hlate Hlt). rewrite Hbo.
  assert (Hp : pending b = true). { rewrite (ok_pending b Hok). apply negb_true_iff, Z.eqb_neq. unfold TIME_US_MAX. lia. }
  destruct (pending_next b Hok Hp) as [(j & Hj) _]. pose proof (proj1 (wh_bits b (ok_wheel b Hok) j (proj1 Hj)) (proj1 (proj2 Hj))) as Hne.
  destruct (at_idx (buckets b) j) as [|u us] eqn:El; [done|]. assert (Hu : u ∈ at_idx (buckets b) j) by (rewrite El; left).
  exists u, (next_expiration_us b). split_and!; [|by exists b, j|done]. intros ->. apply Hh, hashed_cases; [done|]. left.
  exists (base_of tm), b, j. split_and!; try done; apply Hj.
Qed.

(** [timer_detach_if_dpc_queued] *)
Lemma detach_ok w t tm : world_ok w -> timers w !! t = Some tm ->
  exists w' tm', timer_detach_if_dpc_queued w t = Ok (w', queued tm) /\ world_ok w' /\ only_moves w w' t /\
    timers w' !! t = Some tm' /\ same_home tm tm' /\ queued tm' = false /\ (if queued tm then ~ hashed w' t else w' = w) /\
    (queued tm = true -> hashed w t) /\ (forall c, is_Some (percpus w' !! c) <-> is_Some (percpus w !! c)).
Proof using Type.
  intros Hw Ht. destruct (wo_timer w Hw t tm Ht) as (Hfl & Hexp & _). unfold timer_detach_if_dpc_queued, get_timer. rewrite Ht. cbn [deref].
  rewrite bind_Ok, has_flag_queued. destruct (queued tm) eqn:Hq.
  2: { exists w, tm. unfold same_home. by split_and!; [..|done]. }
  destruct (wo_queued w Hw t tm Ht Hq) as (p & Hp & Hin). unfold timer_list_del. rewrite (hlist_del_dpc w _ p t), bind_Ok by done.
  unfold upd_timer, get_timer. change (timers (set_percpus w ?x)) with (timers w). rewrite Ht. cbn [deref]. rewrite !bind_Ok.
  destruct (queued_clear_home tm Hfl) as (Hhome & Hq' & _).
  destruct (drop_idle w _ p t tm _ Hw Hp Hin Ht Hhome Hq') as [Hidle Hom].
  eexists _, _. split; [done|]. split_and!; [by apply (world_ok_drop w _ p t tm)|done| |exact Hhome|done|done| |].
  - cbn. by rewrite lookup_insert_eq.
  - intros _. apply hashed_cases; [done|]. right. eauto.
  - intros c. cbn. rewrite lookup_insert_is_Some. destruct (decide (timer_cpu_get tm = c)) as [<-|]; [|tauto]. rewrite Hp. naive_solver.
Qed.

(** Taking a timer off whatever list it is on, as deleting and modifying do. *)
Lemma take_off w t tm : world_ok w -> timers w !! t = Some tm ->
  exists w1 tm1 w2, timer_detach_if_dpc_queued w t = Ok (w1, queued tm) /\
    negb (hlist_unhashed w1 t) = bool_decide (hashed w t) && negb (queued tm) /\ (queued tm = true -> bool_decide (hashed w t) = true) /\
    (if negb (hlist_unhashed w1 t) then timer_dequeue_bucket w1 (base_of tm) t else Ok w1) = Ok w2 /\
    world_ok w2 /\ only_moves w w2 t /\ timers w1 !! t = Some tm1 /\ timers w2 !! t = Some tm1 /\ same_home tm tm1 /\ queued tm1 = false /\
    ~ hashed w2 t /\ (forall c, is_Some (percpus w2 !! c) <-> is_Some (percpus w !! c)).
Proof using Type.
  intros Hw Ht. destruct (detach_ok w t tm Hw Ht) as (w1 & tm1 & E1 & Hw1 & Hom1 & Ht1 & Hhome & Hq1 & Hcase & Hhq & Hps).
  destruct (same_home_facts tm tm1 Hhome) as (_ & Hbo & _). exists w1, tm1. unfold hlist_unhashed. rewrite negb_involutive.
  destruct (queued tm) eqn:Hq.
  - exists w1. rewrite (bool_decide_false (hashed w1 t)) by done. rewrite (bool_decide_true (hashed w t)) by auto. by split_and!.
  - subst w1. destruct (decide (hashed w t)) as [Hh|Hh].
    + rewrite bool_decide_true by done. destruct (dequeue_bucket_ok w t tm Hw Ht Hq Hh) as (w2 & E2 & Hw2 & Hom2 & Et2 & Hh2 & Hps2).
      exists w2. split_and!; try done. by rewrite Et2.
    + rewrite bool_decide_false by done. exists w. by split_and!.
Qed.

(** [timer_delete] and [timer_shutdown]. *)
Lemma delete_internal_ok w t tm shutdown : world_ok w -> timers w !! t = Some tm ->
  exists w', timer_delete_internal set_next_event w t shutdown = Ok (w', bool_decide (hashed w t)) /\ world_ok w' /\ only_moves w w' t /\
    ~ hashed w' t /\ exists tm', timers w' !! t = Some tm' /\ queued tm' = false /\ (shutdown = true -> func tm' = None).
Proof using Hdev.
  intros Hw Ht. destruct (take_off w t tm Hw Ht) as (w1 & tm1 & w2 & E1 & Eh & Hqh & E2 & Hw2 & Hom & _ & Ht2 & Hhome & Hq2 & Hh2 & Hps).
  destruct (same_home_facts tm tm1 Hhome) as (Hcg & Hbo & _).
  unfold timer_delete_internal, timer_lock_base. unfold get_timer at 1. rewrite Ht. cbn [deref]. rewrite !bind_Ok. change (timer_base_for_cpu _ _) with (base_of tm).
  rewrite E1, bind_Ok. cbv beta iota zeta.
  assert (Eb : negb (queued tm) && negb (hlist_unhashed w1 t) = negb (hlist_unhashed w1 t)) by (rewrite Eh; by destruct (bool_decide _), (queued tm)).
  rewrite Eb, E2, bind_Ok.
  assert (Ep : queued tm || negb (hlist_unhashed w1 t) = bool_decide (hashed w t)).
  { rewrite Eh. destruct (queued tm); [by rewrite Hqh|by rewrite andb_true_r]. }
  set (w3 := if shutdown then put_timer w2 t (set_func tm1 None) else w2).
  assert (E3 : (if shutdown then upd_timer w2 t (fun tm => set_func tm None) else Ok w2) = Ok w3).
  { unfold w3. destruct shutdown; [|done]. unfold upd_timer, get_timer. rewrite Ht2. done. }
  rewrite E3, bind_Ok. destruct (wo_timer w2 Hw2 t tm1 Ht2) as (Hf1 & He1 & Hp1).
  assert (Hw3 : world_ok w3) by (unfold w3; destruct shutdown; [by apply world_ok_timer|done]).
  assert (Hom3 : only_moves w w3 t) by (unfold w3; destruct shutdown; [eapply only_trans; [exact Hom|apply only_timer]|done]).
  assert (Hh3 : ~ hashed w3 t) by (unfold w3; by destruct shutdown).
  assert (Ht3 : exists tm', timers w3 !! t = Some tm' /\ queued tm' = false /\ (shutdown = true -> func tm' = None)).
  { unfold w3. destruct shutdown; [|by exists tm1]. eexists. cbn. rewrite lookup_insert_eq. by split_and!. }
  destruct (cpu_get_some w2 t tm1 Hw2 Ht2) as (p & b & Hp & _ & Hb & Hr). rewrite Hbo in Hb, Hr.
  assert (Hb3 : base_at w3 (base_of tm) = Some b) by (unfold w3; by destruct shutdown).
  rewrite (get_base_at w3 (base_of tm) b), bind_Ok by done. rewrite Ep.
  destruct (wo_base w3 Hw3 _ b Hb3 Hr) as (_ & -> & _).
  assert (Hp3 : is_Some (percpus w3 !! (base_of tm).1)).
  { change (base_of tm).1 with (timer_cpu_get tm). rewrite <- Hcg. unfold w3. destruct shutdown; by exists p. }
  destruct (reprogram_ok w3 _ Hw3 Hp3) as (m & es & Er & Hm). destruct (negb (hlist_unhashed w1 t)).
  - rewrite Er, bind_Ok. exists (programmed w3 m es). split_and!; [done|by apply world_ok_programmed|by apply only_programmed|done|done].
  - rewrite bind_Ok. exists w3. by split_and!.
Qed.

Lemma modify_add_ok w t tm e pd : world_ok w -> timers w !! t = Some tm -> ~ hashed w t -> is_Some (func tm) -> queued tm = false -> in_u 64 e ->
  exists w', modify_add set_next_event w (base_of tm) t e pd = Ok (w', pd) /\ world_ok w' /\ only_moves w w' t /\ armed_for w w' t e.
Proof using Hdev.
  intros Hw Ht Hh Hf Hq He. destruct (wo_timer w Hw t tm Ht) as (Hfl & _ & Hp). unfold modify_add, upd_timer, get_timer. rewrite Ht. cbn [deref].
  rewrite !bind_Ok. set (tm1 := set_expiration tm e). set (w1 := put_timer w t tm1).
  assert (Hw1 : world_ok w1) by (by apply world_ok_timer). assert (Ht1 : timers w1 !! t = Some tm1) by (cbn; by rewrite lookup_insert_eq).
  destruct (add_armed w1 t tm1 Hw1 Ht1 Hh Hf Hq) as (w2 & E2 & Hw2 & Hom & Harm & tm2 & Ht2 & Hhome).
  change (base_of tm) with (base_of tm1). rewrite E2, bind_Ok. destruct (same_home_facts _ _ Hhome) as (Hcg & Hbo & _).
  destruct (cpu_get_some w2 t tm2 Hw2 Ht2) as (p & b & Hp2 & _ & Hb & Hr). rewrite Hbo in Hb, Hr.
  rewrite (get_base_at w2 _ b), bind_Ok by done. destruct (wo_base w2 Hw2 _ b Hb Hr) as (_ & -> & _).
  destruct (reprogram_ok w2 (base_of tm1).1) as (m & es & -> & Hm); [done|change (base_of tm1).1 with (timer_cpu_get tm1); rewrite <- Hcg; by exists p|].
  rewrite bind_Ok. exists (programmed w2 m es). split_and!; [done|by apply world_ok_programmed| |exact Harm].
  apply only_programmed. eapply only_trans; [apply only_timer|exact Hom].
Qed.

Lemma cpu_set_facts tm c : in_u 32 (flags tm) -> 0 <= c < 2 ^ 18 ->
  let tm' := timer_cpu_set tm c in in_u 32 (flags tm') /\ queued tm' = queued tm /\ timer_cpu_get tm' = c.
Proof using Type.
  intros Hf Hc tm'. split_and!; [|unfold queued, tm'; by rewrite bit_cpu_set|by apply cpu_get_set].
  cbn. apply lor_range; [lia|by apply in_u_land|]. unfold TIMER_FLAG_CPU, TIMER_FLAG_CPU_MASK. change 262143 with (Z.ones 18).
  rewrite Z.land_ones by lia. pose proof (Z.mod_pos_bound c (2 ^ 18)). unfold in_u. lia.
Qed.

Lemma migrate_ok w t tm : world_ok w -> timers w !! t = Some tm -> ~ hashed w t -> queued tm = false -> is_Some (percpus w !! smp_id w) ->
  exists w' tm', modify_migrate w (base_of tm) t = Ok (w', base_of tm') /\ world_ok w' /\ only_moves w w' t /\ timers w' !! t = Some tm' /\
    ~ hashed w' t /\ func tm' = func tm /\ queued tm' = false.
Proof using Type.
  intros Hw Ht Hh Hq [p Hp]. destruct (wo_timer w Hw t tm Ht) as (Hfl & He & _). destruct (wo_percpu w Hw _ p Hp) as (Hc & _).
  unfold modify_migrate, get_timer. rewrite Ht. cbn [deref]. rewrite bind_Ok.
  destruct (negb (has_flag tm TIMER_FLAG_PINNED) && negb (timer_cpu_get tm =? smp_id w)); [|by exists w, tm].
  unfold upd_timer, timer_lock_base, get_timer. rewrite Ht. cbn [deref]. rewrite !bind_Ok.
  destruct (cpu_set_facts tm (smp_id w) Hfl Hc) as (Hf' & Hq' & Hcg). set (tm' := timer_cpu_set tm (smp_id w)) in *.
  assert (Ht' : timers (put_timer w t tm') !! t = Some tm') by (cbn; by rewrite lookup_insert_eq).
  rewrite Ht'. cbn [deref]. rewrite !bind_Ok. exists (put_timer w t tm'), tm'.
  split_and!; [done| |apply only_timer|done|done|done|congruence]. apply world_ok_timer; [done..|congruence|done|done|].
  rewrite Hcg. by exists p.
Qed.

Lemma armed_trans w1 w2 w3 t e : only_moves w1 w2 t -> armed_for w2 w3 t e -> armed_for w1 w3 t e.
Proof using Type.
  intros Hom (tm' & clk & idx & at_ & Ht & He & Hd & Hpl & Hc & Hlate). exists tm', clk, idx, at_. rewrite (om_time _ _ _ Hom) in *.
  split_and!; try done. intros Hlt. destruct (Hlate Hlt) as (u & a & Hne & Hdu & Ha). exists u, a. split_and!; try done.
  apply (om_due _ _ _ Hom); [apply base_of_type|done|done].
Qed.

Lemma modify_move_ok w t tm : world_ok w -> timers w !! t = Some tm -> is_Some (percpus w !! smp_id w) ->
  exists w1 tm1 w3 tm3, timer_detach_if_dpc_queued w t = Ok (w1, queued tm) /\
    queued tm || negb (hlist_unhashed w1 t) = bool_decide (hashed w t) /\ timers w1 !! t = Some tm1 /\ expiration_us tm1 = expiration_us tm /\
    modify_move w1 (base_of tm) t (bool_decide (hashed w t)) (queued tm) = Ok (w3, base_of tm3) /\
    world_ok w3 /\ only_moves w w3 t /\ timers w3 !! t = Some tm3 /\ ~ hashed w3 t /\ func tm3 = func tm /\ queued tm3 = false /\
    (queued tm = false -> w1 = w).
Proof using Type.
  intros Hw Ht Hp. destruct (take_off w t tm Hw Ht) as (w1 & tm1 & w2 & E1 & Eh & Hqh & E2 & Hw2 & Hom & Ht1 & Ht2 & Hhome & Hq2 & Hh2 & Hps).
  destruct (same_home_facts tm tm1 Hhome) as (Hcg & Hbo & _ & Hfn).
  assert (Hw1 : queued tm = false -> w1 = w).
  { intros Hq. revert E1. unfold timer_detach_if_dpc_queued, get_timer. rewrite Ht. cbn [deref]. rewrite bind_Ok, has_flag_queued, Hq.
    by intros [= <-]. }
  assert (Ep : queued tm || negb (hlist_unhashed w1 t) = bool_decide (hashed w t)).
  { rewrite Eh. destruct (queued tm); [by rewrite Hqh|by rewrite andb_true_r]. }
  assert (Hexp : expiration_us tm1 = expiration_us tm) by apply Hhome.
  exists w1, tm1. unfold modify_move. rewrite Eh in E2. destruct (bool_decide (hashed w t)) eqn:Ehd; cbn [andb negb] in *.
  - exists w2, tm1. rewrite Hbo. split_and!; try done. destruct (queued tm); cbn [negb] in *; [congruence|]. by rewrite E2, bind_Ok.
  - injection E2 as ->. assert (Hq : queued tm = false) by (by destruct (queued tm); [by rewrite Hqh in Ehd|]).
    destruct (migrate_ok w2 t tm1 Hw2 Ht2 Hh2 Hq2) as (w3 & tm3 & E3 & Hw3 & Hom3 & Ht3 & Hh3 & Hf3 & Hq3).
    { rewrite (om_cpu _ _ _ Hom). by apply Hps. }
    exists w3, tm3. rewrite <- Hbo. split_and!; try done; [by eapply only_trans|congruence].
Qed.

(** [timer_modify] *)
Lemma modify_ok w t tm e : world_ok w -> timers w !! t = Some tm -> is_Some (func tm) -> is_Some (percpus w !! smp_id w) -> in_u 64 e ->
  exists w', timer_modify set_next_event w t e = Ok (w', bool_decide (hashed w t)) /\ world_ok w' /\ only_moves w w' t /\ armed_for w w' t e.
Proof using Hdev.
  intros Hw Ht Hf Hp He.
  destruct (modify_move_ok w t tm Hw Ht Hp) as (w1 & tm1 & w3 & tm3 & E1 & Ep & Ht1 & _ & E3 & Hw3 & Hom & Ht3 & Hh3 & Hf3 & Hq3 & _).
  unfold timer_modify, timer_lock_base, get_timer. rewrite Ht. cbn [deref]. rewrite !bind_Ok. change (timer_base_for_cpu _ _) with (base_of tm).
  rewrite E1, bind_Ok. cbv beta iota zeta. rewrite Ep, E3, bind_Ok. cbn [fst snd].
  destruct (modify_add_ok w3 t tm3 e (bool_decide (hashed w t))) as (w' & -> & Hw' & Hom' & Harm); [done..|by rewrite Hf3|done|done|].
  exists w'. split_and!; [done|done|by eapply only_trans|by eapply armed_trans].
Qed.

(** [timer_modify_reduce] leaves a timer in a bucket alone unless the new time is
    earlier. *)
Lemma modify_reduce_ok w t tm e : world_ok w -> timers w !! t = Some tm -> is_Some (func tm) -> is_Some (percpus w !! smp_id w) -> in_u 64 e ->
  exists w', timer_modify_reduce set_next_event w t e = Ok (w', bool_decide (hashed w t)) /\ world_ok w' /\ only_moves w w' t /\
    if bool_decide (hashed w t) && negb (queued tm) && (expiration_us tm <=? e) then w' = w else armed_for w w' t e.
Proof using Hdev.
  intros Hw Ht Hf Hp He.
  destruct (modify_move_ok w t tm Hw Ht Hp) as (w1 & tm1 & w3 & tm3 & E1 & Ep & Ht1 & Hexp & E3 & Hw3 & Hom & Ht3 & Hh3 & Hf3 & Hq3 & Hsame).
  unfold timer_modify_reduce, timer_lock_base, get_timer. rewrite Ht. cbn [deref]. rewrite !bind_Ok. change (timer_base_for_cpu _ _) with (base_of tm).
  rewrite E1, bind_Ok. cbv beta iota zeta. rewrite Ep. unfold get_timer. rewrite Ht1. cbn [deref]. rewrite bind_Ok, Hexp.
  destruct (bool_decide (hashed w t) && negb (queued tm) && (expiration_us tm <=? e)) eqn:Ec.
  - apply andb_true_iff in Ec as [Ec _]. apply andb_true_iff in Ec as [Hh Hq]. apply negb_true_iff in Hq. rewrite Hsame, Hh by done.
    exists w. split_and!; [done|done|apply only_refl|done].
  - rewrite E3, bind_Ok. cbn [fst snd].
    destruct (modify_add_ok w3 t tm3 e (bool_decide (hashed w t))) as (w' & -> & Hw' & Hom' & Harm); [done..|by rewrite Hf3|done|done|].
    exists w'. split_and!; [done|done|by eapply only_trans|by eapply armed_trans].
Qed.

(** [timer_modify_pending] *)
Lemma modify_pending_ok w t tm e : world_ok w -> timers w !! t = Some tm -> is_Some (func tm) -> in_u 64 e ->
  exists w', timer_modify_pending set_next_event w t e = Ok (w', bool_decide (hashed w t)) /\ world_ok w' /\ only_moves w w' t /\
    if bool_decide (hashed w t) then armed_for w w' t e else w' = w.
Proof using Hdev.
  intros Hw Ht Hf He. destruct (take_off w t tm Hw Ht) as (w1 & tm1 & w2 & E1 & Eh & Hqh & E2 & Hw2 & Hom & Ht1 & Ht2 & Hhome & Hq2 & Hh2 & Hps).
  destruct (same_home_facts tm tm1 Hhome) as (Hcg & Hbo & _ & Hfn).
  assert (Ep : queued tm || negb (hlist_unhashed w1 t) = bool_decide (hashed w t)).
  { rewrite Eh. destruct (queued tm); [by rewrite Hqh|by rewrite andb_true_r]. }
  unfold timer_modify_pending, timer_lock_base, get_timer. rewrite Ht. cbn [deref]. rewrite !bind_Ok. change (timer_base_for_cpu _ _) with (base_of tm).
  rewrite E1, bind_Ok. cbv beta iota zeta. rewrite Ep. rewrite Eh in E2. destruct (bool_decide (hashed w t)) eqn:Ehd; cbn [andb] in E2.
  - rewrite E2, bind_Ok, <- Hbo. destruct (modify_add_ok w2 t tm1 e true) as (w' & -> & Hw' & Hom' & Harm); [done..|by rewrite Hfn|done|done|].
    exists w'. split_and!; [done|done|by eapply only_trans|by eapply armed_trans].
  - assert (Hq : queued tm = false) by (by destruct (queued tm); [by rewrite Hqh in Ehd|]).
    revert E1. unfold timer_detach_if_dpc_queued, get_timer. rewrite Ht. cbn [deref]. rewrite bind_Ok, has_flag_queued, Hq. intros [= <-].
    exists w. split_and!; [done|done|apply only_refl|done].
Qed.

(** [timer_add_on] *)
Lemma add_on_ok w t tm c : world_ok w -> timers w !! t = Some tm -> ~ hashed w t -> is_Some (func tm) -> is_Some (percpus w !! c) ->
  exists w', timer_add_on set_next_event w t c = Ok w' /\ world_ok w' /\ only_moves w w' t /\ armed_for w w' t (expiration_us tm).
Proof using Hdev.
  intros Hw Ht Hh Hf [p Hp]. destruct (wo_timer w Hw t tm Ht) as (Hfl & He & _). destruct (wo_percpu w Hw _ p Hp) as (Hc & _).
  destruct (cpu_set_facts tm c Hfl Hc) as (Hf' & Hq' & Hcg). set (tm' := timer_cpu_set tm c) in *.
  assert (Hq : queued tm = false).
  { destruct (queued tm) eqn:Hq; [|done]. exfalso. apply Hh. destruct (wo_queued w Hw t tm Ht Hq) as (p' & ? & ?). apply hashed_cases; [done|]. right. eauto. }
  assert (Hr : timer_base_for_cpu (flags tm) c = base_of tm').
  { unfold base_of. rewrite Hcg. unfold tm'. apply base_for_cpu_ext; by rewrite bit_cpu_set. }
  unfold timer_add_on, upd_timer. unfold get_timer. rewrite Ht. cbn [deref]. rewrite !bind_Ok. fold tm'. rewrite Hr.
  assert (Hw1 : world_ok (put_timer w t tm')) by (apply world_ok_timer; [done..|congruence|done|done|rewrite Hcg; by exists p]).
  destruct (add_armed (put_timer w t tm') t tm') as (w2 & -> & Hw2 & Hom & Harm & tm2 & Ht2 & Hhome); [done|by cbn; rewrite lookup_insert_eq|done|done|congruence|].
  rewrite bind_Ok. destruct (same_home_facts _ _ Hhome) as (Hcg2 & _). destruct (wo_timer w2 Hw2 t tm2 Ht2) as (_ & _ & Hp2).
  rewrite Hcg2, Hcg in Hp2. destruct (reprogram_ok w2 c Hw2 Hp2) as (m & es & -> & Hm).
  exists (programmed w2 m es). split_and!; [done|by apply world_ok_programmed| |exact Harm].
  apply only_programmed. eapply only_trans; [apply only_timer|exact Hom].
Qed.
End Ops.

(** ** The timer interrupt and the DPC *)

Section Dispatch.
Context {E : Type} (effect : Z -> Z -> E -> E) (call : Z -> Z -> world E -> outcome (world E)).
Context (Hcall : forall f t w, call f t w = Ok (set_env w (effect f t (env w)))).
Context (set_next_event : Z -> clock_evdev -> Z -> bool).
Context (Hdev : forall c ced d, min_delta_ns ced <= d <= max_delta_ns ced -> set_next_event c ced d = true).
Implicit Types (w : world E) (r : Z * Z).

(** A timer's record after it has been delivered. *)
Definition delivered (tm : timer) : timer := if irq tm then tm else flag_set tm TIMER_FLAG_DPC_QUEUED.

Lemma deliver_timers c w t u : timers (deliver effect c w t) !! u = if decide (u = t) then delivered <$> timers w !! u else timers w !! u.
Proof using Type.
  unfold deliver, delivered. destruct (timers w !! t) as [tm|] eqn:Ht.
  - rewrite has_flag_irq. destruct (irq tm) eqn:Hi.
    + assert (timers (match func tm with Some f => set_env w (effect f t (env w)) | None => w end) = timers w) as -> by (by destruct (func tm)).
      case_decide; [subst u|done]. rewrite Ht. cbn. by rewrite Hi.
    + cbn. rewrite lookup_insert. case_decide as H1; [subst u|]; [by rewrite decide_True, Ht by done; cbn; rewrite Hi|].
      by rewrite decide_False by congruence.
  - case_decide; [subst u; by rewrite Ht|done].
Qed.
Definition fires_dpc w (t : Z) : Prop := exists tm, timers w !! t = Some tm /\ irq tm = false.
(** The per-CPU structures before and after the timers [ts] have been delivered
    to [c]. *)
Definition dpc_after w w' (c : Z) (ts : list Z) : Prop := forall c1,
  match percpus w !! c1, percpus w' !! c1 with
  | Some p, Some p' => bases p' = bases p /\ active_evdev p' = active_evdev p /\
      forall u, u ∈ dpc_timers p' <-> u ∈ dpc_timers p \/ c1 = c /\ u ∈ ts /\ fires_dpc w u
  | None, None => True
  | _, _ => False
  end.
Lemma deliver_percpu c w t : dpc_after w (deliver effect c w t) c [t].
Proof using Type.
  intros c1. unfold deliver. destruct (timers w !! t) as [tm|] eqn:Ht.
  - rewrite has_flag_irq. destruct (irq tm) eqn:Hi.
    + assert (percpus (match func tm with Some f => set_env w (effect f t (env w)) | None => w end) = percpus w) as -> by (by destruct (func tm)).
      destruct (percpus w !! c1); [|done]. split_and!; [done..|]. intros u. rewrite list_elem_of_singleton.
      split; [by left|]. intros [?|(_ & -> & tm2 & Ht2 & Hi2)]; [done|congruence].
    + assert (Hfd : fires_dpc w t) by (by exists tm).
      cbn. rewrite lookup_alter. case_decide as Hc; [subst c1|]; (destruct (percpus w !! _) as [p|]; [|done]); cbn; split_and!; try done; intros u.
      * rewrite elem_of_cons, list_elem_of_singleton. split; [intros [->|?]; [by right|by left]|intros [?|(_ & -> & _)]; [by right|by left]].
      * split; [by left|]. intros [?|(-> & _)]; done.
  - destruct (percpus w !! c1); [|done]. split_and!; [done..|]. intros u. rewrite list_elem_of_singleton.
    split; [by left|]. intros [?|(_ & -> & tm2 & Ht2 & _)]; [done|congruence].
Qed.
Lemma deliver_idle c w t : smp_id (deliver effect c w t) = smp_id w /\ deferred_timer_ipis (deliver effect c w t) = deferred_timer_ipis w.
Proof using Type. unfold deliver. destruct (timers w !! t) as [tm|]; [|done]. destruct (has_flag tm TIMER_FLAG_IRQ); [by destruct (func tm)|done]. Qed.

(** Delivering distinct timers: the records, and the DPC queues. *)
Lemma delivers_spec c ts : NoDup ts -> forall w,
  let w' := foldl (deliver effect c) w ts in
  (forall u, timers w' !! u = if bool_decide (u ∈ ts) then delivered <$> timers w !! u else timers w !! u) /\
  dpc_after w w' c ts /\ smp_id w' = smp_id w /\ deferred_timer_ipis w' = deferred_timer_ipis w.
Proof using Type.
  induction ts as [|t ts IH]; intros Hnd w; cbn [foldl].
  { split_and!; [done| |done|done]. intros c1. destruct (percpus w !! c1); [|done]. split_and!; [done..|]. intros u. rewrite elem_of_nil. tauto. }
  apply list.NoDup_cons in Hnd as [Hnot Hnd]. destruct (IH Hnd (deliver effect c w t)) as (Hts & Hps & Hid & Hip). clear IH.
  destruct (deliver_idle c w t) as [Hid1 Hip1]. split_and!; [| |congruence|congruence].
  - intros u. rewrite Hts, deliver_timers. destruct (decide (u = t)) as [->|Hne].
    + rewrite bool_decide_false by done. by rewrite bool_decide_true by left.
    + by rewrite (bool_decide_ext (u ∈ t :: ts) (u ∈ ts)) by (rewrite elem_of_cons; tauto).
  - intros c1. specialize (Hps c1). pose proof (deliver_percpu c w t c1) as Hp1.
    destruct (percpus (foldl (deliver effect c) (deliver effect c w t) ts) !! c1) as [p'|], (percpus w !! c1) as [p|],
      (percpus (deliver effect c w t) !! c1) as [p1|]; try done.
    destruct Hps as (Eb & Ee & Hd), Hp1 as (Eb1 & Ee1 & Hd1). split_and!; [congruence..|]. intros u. rewrite Hd, Hd1, list_elem_of_singleton, elem_of_cons.
    assert (Hfd : u ∈ ts -> fires_dpc (deliver effect c w t) u <-> fires_dpc w u).
    { intros Hu. unfold fires_dpc. rewrite deliver_timers, decide_False by (by intros ->). done. }
    tauto.
Qed.

Lemma fires_sorted_nodup b l : StronglySorted (fires_before b) l -> NoDup l.
Proof using Type.
  induction 1 as [|x l _ IH Hx]; constructor; [|done]. intros Hin.
  pose proof (proj1 (list.Forall_forall _ l) Hx x Hin) as Hlt. unfold fires_before in Hlt. lia.
Qed.

(** The timers of some buckets of a base. *)
Lemma fired_facts w r b slots : world_ok w -> base_at w r = Some b -> 0 <= r.2 -> NoDup slots -> (forall idx, idx ∈ slots -> 0 <= idx < 640) ->
  let ts := concat (at_idx (buckets b) <$> slots) in
  NoDup ts /\ forall t, t ∈ ts <-> exists tm, timers w !! t = Some tm /\ base_of tm = r /\ timer_bucket_get tm ∈ slots /\
    t ∈ at_idx (buckets b) (timer_bucket_get tm).
Proof using Type.
  intros Hw Hb Hr Hnd Hsl ts. destruct (wo_base w Hw r b Hb Hr) as (Hok & _). pose proof (wh_len b (ok_wheel b Hok)) as Hlen.
  apply base_at_Some in Hb as Hb'. destruct Hb' as (p & Hp & Hbp).
  assert (Hel : forall t, t ∈ ts <-> exists idx, idx ∈ slots /\ t ∈ at_idx (buckets b) idx).
  { intros t. unfold ts. rewrite elem_of_concat. split.
    - intros (i & l & Hi & Hin). rewrite list_lookup_fmap in Hi. destruct (slots !! i) as [idx|] eqn:El; [|done]. injection Hi as <-.
      exists idx. split; [by apply list_elem_of_lookup_2 in El|done].
    - intros (idx & Hi & Hin). apply list_elem_of_lookup in Hi as [i Hi]. exists i, (at_idx (buckets b) idx). by rewrite list_lookup_fmap, Hi. }
  split.
  - destruct (clear_perm slots (buckets b) Hnd) as (_ & _ & Hperm); [rewrite Hlen; done|]. fold ts in Hperm.
    assert (Hn : NoDup (concat (buckets b))).
    { pose proof (lo_nodes w (wo_lists w Hw) r.1 p Hp) as Hn. unfold nodes in Hn. apply list.NoDup_app in Hn as (_ & _ & Hn).
      rewrite (concat_insert_perm _ (Z.to_nat r.2) (concat (buckets b)) [] (concat (buckets b))) in Hn;
        [by apply list.NoDup_app in Hn as (_ & _ & ?)|by rewrite list_lookup_fmap, Hbp|done]. }
    rewrite Hperm in Hn. by apply list.NoDup_app in Hn as (_ & _ & ?).
  - intros t. rewrite Hel. split.
    + intros (idx & Hi & Hin). pose proof (Hsl idx Hi). destruct (wo_bucket w Hw r b idx t Hb Hr ltac:(lia) Hin) as (tm & Ht & _ & <- & Hbo & _). eauto.
    + intros (tm & _ & _ & ? & ?). eauto.
Qed.

Lemma delivered_home tm : in_u 32 (flags tm) -> same_home tm (delivered tm) /\ queued (delivered tm) = negb (irq tm) || queued tm.
Proof using Type.
  intros Hf. unfold delivered. destruct (irq tm); [by unfold same_home; split_and!|].
  by destruct (queued_set_home tm Hf) as (? & ? & _).
Qed.

(** A base whose due buckets have been delivered. *)
Lemma world_ok_fired w r b b' slots : world_ok w -> base_at w r = Some b -> 0 <= r.2 -> NoDup slots -> (forall idx, idx ∈ slots -> 0 <= idx < 640) ->
  let w1 := foldl (deliver effect r.1) w (concat (at_idx (buckets b) <$> slots)) in
  lists_ok (place w1 r b') -> base_ok b' -> cpu b' = cpu b -> clock b' <= time_us w ->
  (forall idx, 0 <= idx -> at_idx (buckets b') idx = if bool_decide (idx ∈ slots) then [] else at_idx (buckets b) idx) ->
  world_ok (place w1 r b').
Proof using Type.
  intros Hw Hb Hr Hnd Hsl w1 Hlists Hok Hcpu Hclk Hbk. set (ts := concat (at_idx (buckets b) <$> slots)) in *.
  destruct (fired_facts w r b slots Hw Hb Hr Hnd Hsl) as [Hndt Hfired]. fold ts in Hndt, Hfired.
  destruct (delivers_spec r.1 ts Hndt w) as (Htm & Hps & Hid & Hip). fold w1 in Htm, Hps, Hid, Hip.
  destruct (delivers_facts effect r.1 ts w) as (Hh & Hti & Hba & _). fold w1 in Hh, Hti, Hba.
  assert (Hb1 : base_at w1 r = Some b) by (by rewrite Hba).
  assert (Hlook : forall c p', percpus (place w1 r b') !! c = Some p' -> exists p, percpus w !! c = Some p /\ length (bases p') = length (bases p) /\
    active_evdev p' = active_evdev p /\ forall u, u ∈ dpc_timers p' <-> u ∈ dpc_timers p \/ c = r.1 /\ u ∈ ts /\ fires_dpc w u).
  { intros c p'. rewrite percpu_place. specialize (Hps c). intros Hp'. destruct (percpus w1 !! c) as [p1|]; [|by case_decide].
    destruct (percpus w !! c) as [p|]; [|done]. destruct Hps as (Eb & Ee & Hd). exists p. case_decide; injection Hp' as <-; cbn; rewrite ?length_insert, Eb; done. }
  assert (Hsome : forall c p, percpus w !! c = Some p -> exists p', percpus (place w1 r b') !! c = Some p').
  { intros c p Hp. rewrite percpu_place. specialize (Hps c). rewrite Hp in Hps. destruct (percpus w1 !! c); [|done]. case_decide; eauto. }
  assert (Hother : forall t tm, timers w !! t = Some tm -> t ∉ ts -> timers w1 !! t = Some tm) by (intros t tm Ht Hn; by rewrite Htm, bool_decide_false).
  assert (Hq : forall t, t ∈ ts -> exists tm, timers w !! t = Some tm /\ queued tm = false /\ is_Some (func tm) /\ timer_cpu_get tm = r.1).
  { intros t Hin. destruct (proj1 (Hfired t) Hin) as (tm & Ht & Hbo & Hsl1 & Hin1). pose proof (Hsl _ Hsl1).
    destruct (wo_bucket w Hw r b (timer_bucket_get tm) t Hb Hr ltac:(lia) Hin1) as (tm2 & Ht2 & Hf2 & _ & _ & Hq2). assert (tm2 = tm) as -> by congruence.
    exists tm. split_and!; [done..|]. by rewrite <- Hbo. }
  split; try done.
  - change (heads (place w1 r b')) with (heads w1). rewrite Hh. apply Hw.
  - change (time_us (place w1 r b')) with (time_us w1). rewrite Hti. apply Hw.
  - change (deferred_timer_ipis (place w1 r b')) with (deferred_timer_ipis w1). rewrite Hip. apply Hw.
  - intros c p' Hp'. destruct (Hlook c p' Hp') as (p & Hp & -> & -> & _). by apply (wo_percpu w Hw c).
  - intros r' b0 Hb0 Hr'. change (time_us (place w1 r b')) with (time_us w1). rewrite Hti.
    rewrite (base_at_place w1 r b) in Hb0 by done. case_decide as He; [|rewrite Hba in Hb0; by apply (wo_base w Hw)].
    injection Hb0 as <-. subst r'. destruct (wo_base w Hw r b Hb Hr) as (_ & Hc & _). split_and!; [done|congruence|done].
  - intros t tm'. change (timers (place w1 r b')) with (timers w1). rewrite Htm. intros Ht.
    assert (exists tm, timers w !! t = Some tm /\ (tm' = tm \/ tm' = delivered tm)) as (tm & Ht0 & Hcase).
    { destruct (timers w !! t) as [tm|]; [|by case_bool_decide]. exists tm. case_bool_decide; injection Ht as <-; auto. }
    destruct (wo_timer w Hw t tm Ht0) as (Hf & He & [p Hp]). destruct (delivered_home tm Hf) as [Hhome _].
    assert (Hhome' : same_home tm tm') by (destruct Hcase as [->| ->]; [by unfold same_home; split_and!|done]).
    destruct (same_home_facts _ _ Hhome') as (Hcg & _). destruct Hhome' as (_ & Hex & Hf' & _). rewrite Hex, Hcg.
    split_and!; [done|done|]. destruct (Hsome _ _ Hp) as [p' ?]. by exists p'.
  - intros r' b0 idx t Hb0 Hr' Hi Hin. change (timers (place w1 r b')) with (timers w1).
    assert (Hin0 : exists b1, base_at w r' = Some b1 /\ t ∈ at_idx (buckets b1) idx /\ (r' = r -> idx ∉ slots)).
    { rewrite (base_at_place w1 r b) in Hb0 by done. case_decide as He; [|rewrite Hba in Hb0; by exists b0].
      injection Hb0 as <-. subst r'. exists b. rewrite Hbk in Hin by done. case_bool_decide; [by apply elem_of_nil in Hin|done]. }
    destruct Hin0 as (b1 & Hb1' & Hin1 & Hns). destruct (wo_bucket w Hw r' b1 idx t Hb1' Hr' Hi Hin1) as (tm & Ht & Hf & Hbg & Hbo & Hq1).
    exists tm. split_and!; try done. apply Hother; [done|]. rewrite Hfired. intros (tm2 & Ht2 & Hbo2 & Hsl2 & _).
    assert (tm2 = tm) as -> by congruence. apply Hns; congruence.
  - intros c p' t Hp' Hin. change (timers (place w1 r b')) with (timers w1). destruct (Hlook c p' Hp') as (p & Hp & _ & _ & Hd).
    destruct (proj1 (Hd t) Hin) as [Hin1|(Hcr & Hin1 & tm & Ht & Hirq)]; clear Hin; rename Hin1 into Hin.
    + destruct (wo_dpc w Hw c p t Hp Hin) as (tm & Ht & Hrest). exists tm. split; [|done]. apply Hother; [done|]. intros Hts.
      destruct (Hq t Hts) as (tm2 & Ht2 & Hq2 & _). destruct Hrest as (_ & _ & Hq1 & _). congruence.
    + destruct (Hq t Hin) as (tm2 & Ht2 & Hq2 & Hf2 & Hc2). assert (tm2 = tm) as -> by congruence.
      destruct (wo_timer w Hw t tm Ht) as (Hfl & _). destruct (delivered_home tm Hfl) as [Hhome Hqd].
      destruct (same_home_facts _ _ Hhome) as (Hcg & _ & Hir & Hfn). exists (delivered tm). rewrite Htm, bool_decide_true, Ht by done.
      split_and!; [done|by rewrite Hfn|congruence|by rewrite Hqd, Hirq|congruence].
  - intros t tm'. change (timers (place w1 r b')) with (timers w1). rewrite Htm. intros Ht Hqt. case_bool_decide as Hts.
    + destruct (Hq t Hts) as (tm & Ht0 & Hq0 & _ & Hc0). rewrite Ht0 in Ht. injection Ht as <-.
      destruct (wo_timer w Hw t tm Ht0) as (Hfl & _ & [p Hp]). destruct (delivered_home tm Hfl) as [Hhome Hqd].
      destruct (same_home_facts _ _ Hhome) as (Hcg & _). rewrite Hcg. destruct (Hsome _ _ Hp) as [p' Hp']. exists p'. split; [done|].
      destruct (Hlook _ p' Hp') as (p0 & _ & _ & _ & Hd). apply Hd. right. split_and!; [done..|]. exists tm. split; [done|].
      rewrite Hqd, Hq0, orb_false_r in Hqt. by apply negb_true_iff.
    + destruct (wo_queued w Hw t tm' Ht Hqt) as (p & Hp & Hin). destruct (Hsome _ _ Hp) as [p' Hp']. exists p'. split; [done|].
      destruct (Hlook _ p' Hp') as (p0 & Hp0 & _ & _ & Hd). apply Hd. left. congruence.
Qed.

(** Nothing of base [r] is overdue. *)
Definition up_to_date w r : Prop := forall t a, due_in w r t a -> time_us w < a.

(** [timer_base_run], as in [run_loop]. *)
Lemma base_run_spec fuel w r b : world_ok w -> base_at w r = Some b -> 0 <= r.2 -> (length (concat (buckets b)) < fuel)%nat ->
  exists slots b', let w1 := foldl (deliver effect r.1) w (concat (at_idx (buckets b) <$> slots)) in
    timer_base_run call fuel w r = Ok (place w1 r b') /\ lists_ok (place w1 r b') /\ base_ok b' /\
    StronglySorted (fires_before b) slots /\ (forall idx, idx ∈ slots <-> exists at_, due b idx at_ /\ at_ <= time_us w) /\
    (forall idx at_, due b' idx at_ <-> due b idx at_ /\ time_us w < at_) /\
    (forall idx, 0 <= idx -> at_idx (buckets b') idx = if bool_decide (idx ∈ slots) then [] else at_idx (buckets b) idx) /\
    cpu b' = cpu b /\ clock b' <= time_us w.
Proof using Hcall.
  intros Hw Hb Hr Hfuel. destruct (wo_base w Hw r b Hb Hr) as (Hok & _ & Hclk). pose proof (wo_time w Hw) as Htime.
  assert (Harm : armed w (concat (buckets b))).
  { intros t Hin. destruct (in_base w r b t Hw Hb Hr Hin) as (tm & Ht & [f Hf] & _). by exists tm, f. }
  destruct (run_loop effect call Hcall fuel (time_us w) r Hr ltac:(lia) fuel w b) as
    (slots & b' & El & Hlists & Hok' & Hs & Hsd & Hdue & Hbk & Hcpu & Hclk'); [apply Hw|by rewrite (wo_heads w Hw)|done..|].
  exists slots, b'. set (w1 := foldl (deliver effect r.1) w (concat (at_idx (buckets b) <$> slots))) in *.
  destruct (delivers_facts effect r.1 (concat (at_idx (buckets b) <$> slots)) w) as (Hh & _). fold w1 in Hh.
  assert (Ew : set_heads w1 [] = w1) by (rewrite (wo_heads w Hw) in Hh; by destruct w1; cbn in *; rewrite Hh).
  rewrite Ew in El, Hlists. split_and!; try done. lia.
Qed.

(** Timers queued for the DPC stay queued, and timers keep their function. *)
Record keeps w w' : Prop := mkKeeps {
  kp_queue : forall c t, queued_on w c t -> queued_on w' c t;
  kp_timers : forall t tm, timers w !! t = Some tm -> exists tm', timers w' !! t = Some tm' /\ irq tm' = irq tm /\ func tm' = func tm;
  kp_cpu : smp_id w' = smp_id w;
  kp_time : time_us w' = time_us w;
  kp_percpu : forall c, is_Some (percpus w !! c) -> is_Some (percpus w' !! c);
}.
Lemma keeps_refl w : keeps w w.
Proof using Type. split; eauto. Qed.
Lemma keeps_world_trans w1 w2 w3 : keeps w1 w2 -> keeps w2 w3 -> keeps w1 w3.
Proof using Type.
  intros [A1 A2 A3 A4 A5] [B1 B2 B3 B4 B5]. split; [eauto| |congruence..|eauto]. intros t tm Ht. destruct (A2 t tm Ht) as (tm1 & Ht1 & Hi1 & Hf1).
  destruct (B2 t tm1 Ht1) as (tm2 & Ht2 & Hi2 & Hf2). exists tm2. split_and!; congruence.
Qed.
(** The timers of base [r] in [w] that are due now and have no interrupt function
    are queued in [w']. *)
Definition queues_due w w' r : Prop := forall t a, due_in w r t a -> a <= time_us w -> fires_dpc w t -> queued_on w' r.1 t.

Lemma fired_keeps w r b b' slots : world_ok w -> base_at w r = Some b -> 0 <= r.2 -> NoDup slots -> (forall idx, idx ∈ slots -> 0 <= idx < 640) ->
  let ts := concat (at_idx (buckets b) <$> slots) in
  let w' := place (foldl (deliver effect r.1) w ts) r b' in
  keeps w w' /\ (forall t, t ∈ ts -> fires_dpc w t -> queued_on w' r.1 t).
Proof using Type.
  intros Hw Hb Hr Hnd Hsl ts w'. destruct (fired_facts w r b slots Hw Hb Hr Hnd Hsl) as [Hndt Hfired]. fold ts in Hndt, Hfired.
  destruct (delivers_spec r.1 ts Hndt w) as (Htm & Hps & Hid & _). set (w1 := foldl (deliver effect r.1) w ts) in *.
  destruct (delivers_facts effect r.1 ts w) as (_ & Hti & _). fold w1 in Hti.
  assert (Hq : forall c t p, percpus w !! c = Some p -> t ∈ dpc_timers p \/ c = r.1 /\ t ∈ ts /\ fires_dpc w t -> queued_on w' c t).
  { intros c t p Hp Hin. specialize (Hps c). rewrite Hp in Hps. unfold queued_on, w'. rewrite percpu_place.
    destruct (percpus w1 !! c) as [p1|]; [|done]. destruct Hps as (_ & _ & Hd). apply Hd in Hin. case_decide; eexists; by split. }
  split.
  - split; [|intros t tm Ht|done|done|].
    + intros c t (p & Hp & Hin). apply (Hq c t p Hp). by left.
    + change (timers w') with (timers w1). rewrite Htm, Ht. destruct (wo_timer w Hw t tm Ht) as (Hfl & _).
      destruct (delivered_home tm Hfl) as [Hhome _]. destruct (same_home_facts _ _ Hhome) as (_ & _ & Hi & Hf). case_bool_decide; cbn; eauto.
    + intros c [p Hp]. unfold w'. rewrite percpu_place. specialize (Hps c). rewrite Hp in Hps. destruct (percpus w1 !! c); [|done]. case_decide; by eexists.
  - intros t Hin Hfd. apply base_at_Some in Hb as (p & Hp & _). apply (Hq r.1 t p Hp). by right.
Qed.

Lemma base_run_ok fuel w r b : world_ok w -> base_at w r = Some b -> 0 <= r.2 -> (length (concat (buckets b)) < fuel)%nat ->
  exists w', timer_base_run call fuel w r = Ok w' /\ world_ok w' /\ up_to_date w' r /\ queues_due w w' r /\ keeps w w' /\
    (forall r', 0 <= r'.2 -> r' <> r -> base_at w' r' = base_at w r').
Proof using Hcall.
  intros Hw Hb Hr Hfuel. destruct (base_run_spec fuel w r b Hw Hb Hr Hfuel) as (slots & b' & El & Hlists & Hok' & Hs & Hsd & Hdue & Hbk & Hcpu & Hclk').
  set (w1 := foldl (deliver effect r.1) w (concat (at_idx (buckets b) <$> slots))) in *.
  destruct (delivers_facts effect r.1 (concat (at_idx (buckets b) <$> slots)) w) as (_ & Hti & Hba & _). fold w1 in Hti, Hba.
  pose proof (fires_sorted_nodup b slots Hs) as Hnd.
  assert (Hsl : forall idx, idx ∈ slots -> 0 <= idx < 640) by (intros idx Hi; apply Hsd in Hi as (a & Hd & _); apply Hd).
  exists (place w1 r b'). assert (Hb1 : base_at w1 r = Some b) by (by rewrite Hba).
  destruct (fired_keeps w r b b' slots Hw Hb Hr Hnd Hsl) as [Hkeep Hqueue]. fold w1 in Hkeep, Hqueue.
  split_and!; [done| | | |done|].
  - by apply (world_ok_fired w r b b' slots).
  - intros t a (b0 & idx & Hb0 & Hd & _). rewrite (base_at_place w1 r b), decide_True in Hb0 by done. injection Hb0 as <-.
    apply Hdue in Hd as [_ Hd]. cbn. by rewrite Hti.
  - intros t a (b0 & idx & Hb0 & Hd & Hin) Ha Hfd. assert (b0 = b) as -> by congruence. apply Hqueue; [|done].
    apply elem_of_concat. assert (Hsl1 : idx ∈ slots) by (apply Hsd; eauto). apply list_elem_of_lookup in Hsl1 as [i Hi].
    exists i, (at_idx (buckets b) idx). by rewrite list_lookup_fmap, Hi.
  - intros r' Hr' Hne. rewrite (base_at_place w1 r b) by done. rewrite decide_False by done. apply Hba.
Qed.

(** [timer_isr] runs the three bases of the CPU. *)
Lemma run_bases_ok fuel n : forall w i, world_ok w -> 0 <= i -> i + Z.of_nat n = 3 -> is_Some (percpus w !! smp_id w) ->
  (forall j b, i <= j -> base_at w (smp_id w, j) = Some b -> (length (concat (buckets b)) < fuel)%nat) ->
  (forall j, 0 <= j < i -> up_to_date w (smp_id w, j)) ->
  exists w', run_bases call fuel n w i = Ok w' /\ world_ok w' /\ keeps w w' /\ is_Some (percpus w' !! smp_id w) /\
    (forall j, 0 <= j < 3 -> up_to_date w' (smp_id w, j)) /\ (forall j, i <= j < 3 -> queues_due w w' (smp_id w, j)).
Proof using Hcall.
  induction n as [|n IH]; intros w i Hw Hi Hn [p Hp] Hf Hup; cbn [run_bases].
  { exists w. split_and!; [done|done|apply keeps_refl|by eexists|intros j Hj; apply Hup; lia|intros; lia]. }
  destruct (wo_percpu w Hw _ p Hp) as (_ & Hl & _). destruct (lookup_lt_is_Some_2 (bases p) (Z.to_nat i)) as [b Hb]; [lia|].
  assert (Hbi : base_at w (smp_id w, i) = Some b) by (apply base_at_Some; by exists p).
  destruct (base_run_ok fuel w (smp_id w, i) b) as (w1 & -> & Hw1 & Hup1 & Hq1 & Hk1 & Hba1);
    [done|done|done|apply (Hf i b); [lia|done]|]. rewrite bind_Ok. pose proof (kp_cpu _ _ Hk1) as Hid1. pose proof (kp_time _ _ Hk1) as Hti1.
  assert (Hsame : forall j, 0 <= j -> j <> i -> base_at w1 (smp_id w, j) = base_at w (smp_id w, j)) by (intros j Hj Hne; apply Hba1; [done|congruence]).
  destruct (IH w1 (i + 1) Hw1) as (w' & E' & Hw' & Hk' & Hps' & Hup' & Hq'); [lia|lia|rewrite Hid1; apply (kp_percpu _ _ Hk1); by eexists| | |].
  - intros j b0 Hj. rewrite Hid1, Hsame by lia. apply Hf. lia.
  - intros j Hj. rewrite Hid1. destruct (decide (j = i)) as [->|Hne]; [done|]. intros t a (b0 & idx & Hb0 & Hd).
    rewrite Hti1. rewrite Hsame in Hb0 by lia. apply (Hup j ltac:(lia) t a). by exists b0, idx.
  - exists w'. rewrite Hid1 in *. split_and!; [done|done|by eapply keeps_world_trans|done|done|]. intros j Hj t a Hd Ha Hfd.
    destruct (decide (j = i)) as [->|Hne]; [by apply (kp_queue _ _ Hk'), (Hq1 t a)|]. apply (Hq' j ltac:(lia) t a); [|by rewrite Hti1|].
    + destruct Hd as (b0 & idx & Hb0 & Hd). exists b0, idx. by rewrite Hsame by lia.
    + destruct Hfd as (tm & Ht & Hirq). destruct (kp_timers _ _ Hk1 t tm Ht) as (tm' & Ht' & Hi' & _). exists tm'. split; [done|congruence].
Qed.

Lemma isr_ok fuel w : world_ok w -> (forall j b, base_at w (smp_id w, j) = Some b -> (length (concat (buckets b)) < fuel)%nat) ->
  exists w', timer_isr call set_next_event fuel w = Ok w' /\ world_ok w' /\ keeps w w' /\
    forall j, 0 <= j < 3 -> up_to_date w' (smp_id w, j) /\ queues_due w w' (smp_id w, j).
Proof using Hcall Hdev.
  intros Hw Hf. unfold timer_isr. destruct (percpus w !! smp_id w) as [p|] eqn:Hp.
  - change (Z.to_nat TIMER_BASE_MAX) with 3%nat.
    destruct (run_bases_ok fuel 3 w 0 Hw) as (w1 & -> & Hw1 & Hk & Hps & Hup & Hq); [lia|lia|by rewrite Hp|by intros; eapply Hf|intros; lia|].
    rewrite bind_Ok. rewrite (kp_cpu _ _ Hk). destruct (reprogram_ok set_next_event Hdev w1 (smp_id w) Hw1 Hps) as (m & es & -> & Hm).
    exists (programmed w1 m es). split_and!; [done|by apply world_ok_programmed|by destruct Hk|]. intros j Hj. split; [by apply Hup|by apply Hq].
  - exists w. split_and!; [done|done|apply keeps_refl|]. intros j Hj.
    assert (Hno : forall t a, ~ due_in w (smp_id w, j) t a).
    { intros t a (b & idx & Hb & _). apply base_at_Some in Hb as (p & Hp1 & _). cbn in Hp1. congruence. }
    split; intros t a Hd; by apply Hno in Hd.
Qed.

(** Changes of the fields the invariant does not speak of. *)
Record same_but_marks w w' : Prop := mkSame {
  sm_timers : timers w' = timers w;
  sm_dpc : forall c p, percpus w !! c = Some p -> exists p', percpus w' !! c = Some p' /\ dpc_timers p' = dpc_timers p;
  sm_cpu : smp_id w' = smp_id w;
  sm_time : time_us w' = time_us w;
}.
Lemma same_trans w1 w2 w3 : same_but_marks w1 w2 -> same_but_marks w2 w3 -> same_but_marks w1 w3.
Proof using Type.
  intros [A1 A2 A3 A4] [B1 B2 B3 B4]. split; try congruence. intros c p Hp. destruct (A2 c p Hp) as (p1 & Hp1 & E1).
  destruct (B2 c p1 Hp1) as (p2 & Hp2 & E2). exists p2. split; [done|congruence].
Qed.
Lemma marks_ok w c p x ev : world_ok w -> percpus w !! c = Some p ->
  (forall ced, ev = Some ced -> min_delta_ns ced <= max_delta_ns ced) ->
  let w' := put_percpu w c (mkPercpu (bases p) (dpc_enqueued p) (dpc_timers p) x ev) in world_ok w' /\ same_but_marks w w'.
Proof using Type.
  intros Hw Hp Hev. set (p' := mkPercpu (bases p) (dpc_enqueued p) (dpc_timers p) x ev).
  assert (Hlook : forall c1 p1, percpus (put_percpu w c p') !! c1 = Some p1 -> exists p0, percpus w !! c1 = Some p0 /\ nodes p1 = nodes p0 /\
    dpc_timers p1 = dpc_timers p0 /\ bases p1 = bases p0 /\ (active_evdev p1 = active_evdev p0 \/ active_evdev p1 = ev)).
  { intros c1 p1. cbn. intros [[<- <-]|[_ H1]]%lookup_insert_Some; [exists p|exists p1]; split_and!; eauto. }
  assert (Hsome : forall c1 p0, percpus w !! c1 = Some p0 -> exists p1, percpus (put_percpu w c p') !! c1 = Some p1 /\ dpc_timers p1 = dpc_timers p0).
  { intros c1 p0 Hp0. cbn. destruct (decide (c = c1)) as [<-|]; [rewrite lookup_insert_eq|rewrite lookup_insert_ne by done; eauto].
    eexists. split; [done|]. cbn. congruence. }
  assert (Hbase : forall r, base_at (put_percpu w c p') r = base_at w r) by (intros r; by apply (base_at_percpu w c p)).
  split; [|by split]. split; try apply Hw.
  - by eapply (lists_ok_move w _ c p p'); [apply Hw|done|done|].
  - intros c1 p1 Hp1. destruct (Hlook c1 p1 Hp1) as (p0 & Hp0 & _ & _ & -> & Ea). destruct (wo_percpu w Hw c1 p0 Hp0) as (? & ? & Hd).
    split_and!; try lia. intros ced Hc. destruct Ea as [Ea|Ea]; rewrite Ea in Hc; [by apply Hd|by apply Hev].
  - intros r b. rewrite Hbase. apply Hw.
  - intros t tm Ht. destruct (wo_timer w Hw t tm Ht) as (? & ? & [p0 Hp0]). split_and!; [done..|]. destruct (Hsome _ _ Hp0) as (p1 & ? & _). by exists p1.
  - intros r b idx t. rewrite Hbase. apply Hw.
  - intros c1 p1 t Hp1 Hin. destruct (Hlook c1 p1 Hp1) as (p0 & Hp0 & _ & Ed & _). rewrite Ed in Hin. by apply (wo_dpc w Hw c1 p0).
  - intros t tm Ht Hq. destruct (wo_queued w Hw t tm Ht Hq) as (p0 & Hp0 & Hin). destruct (Hsome _ _ Hp0) as (p1 & Hp1 & Ed). exists p1. by rewrite Ed.
Qed.
Lemma dispatching_ok w c p x : world_ok w -> percpus w !! c = Some p ->
  exists w', put_dispatching w c x = Ok w' /\ world_ok w' /\ same_but_marks w w' /\ env w' = env w.
Proof using Type.
  intros Hw Hp. unfold put_dispatching, get_percpu. rewrite Hp. cbn [deref]. rewrite bind_Ok. eexists. split; [done|].
  destruct (marks_ok w c p x (active_evdev p) Hw Hp) as [? ?]; [by apply (wo_percpu w Hw c p)|done].
Qed.
Lemma running_ok w t tm x : world_ok w -> timers w !! t = Some tm ->
  exists w', put_running w (base_of tm) x = Ok w' /\ world_ok w' /\ same_but_marks w w' /\ env w' = env w.
Proof using Type.
  intros Hw Ht. destruct (cpu_get_some w t tm Hw Ht) as (p & b & Hp & Hbp & Hb & Hr). destruct (wo_base w Hw _ b Hb Hr) as (Hok & _ & Hclk).
  rewrite (put_running_at w _ b) by done. eexists. split; [done|]. split_and!; [|split; try done|done].
  - apply (world_ok_base w _ b); try done. destruct Hok as [? ? ?]. split; [by apply wheel_ok_running|done|done].
  - intros c p0 Hp0. rewrite percpu_place, Hp0. case_decide; cbn; eexists; by split.
Qed.
Lemma world_ok_env w e : world_ok w -> world_ok (set_env w e).
Proof using Type. intros [[] ? ? ? ? ? ? ? ? ?]. split; [by split|done..]. Qed.

Lemma dpc_step w c p t ts : world_ok w -> percpus w !! c = Some p -> dpc_timers p = t :: ts ->
  exists w' tm f, timers w !! t = Some tm /\ func tm = Some f /\ dpc_body call c w = Ok (inl w') /\ world_ok w' /\
    (exists p', percpus w' !! c = Some p' /\ dpc_timers p' = ts) /\ env w' = effect f t (env w) /\
    (forall u, u <> t -> timers w' !! u = timers w !! u) /\ smp_id w' = smp_id w /\ time_us w' = time_us w.
Proof using Hcall.
  intros Hw Hp Hts. assert (Hin : t ∈ dpc_timers p) by (rewrite Hts; left).
  destruct (wo_dpc w Hw c p t Hp Hin) as (tm & Ht & [f Hf] & Hcg & Hq & Hirq). destruct (wo_timer w Hw t tm Ht) as (Hfl & _).
  assert (Hnin : t ∉ ts).
  { pose proof (lo_nodes w (wo_lists w Hw) c p Hp) as Hn. unfold nodes in Hn. rewrite Hts in Hn. apply list.NoDup_app in Hn as (Hn & _).
    by apply list.NoDup_cons in Hn as [? _]. }
  destruct (queued_clear_home tm Hfl) as (Hhome & Hq' & _). set (tm' := flag_clear tm TIMER_FLAG_DPC_QUEUED) in *.
  destruct (same_home_facts _ _ Hhome) as (Hcg' & _ & Hirq' & Hf').
  unfold dpc_body, get_percpu, timer_list_del. rewrite Hp. cbn [deref]. rewrite bind_Ok, Hts, (hlist_del_dpc w c p t), bind_Ok by done.
  unfold upd_timer, get_timer. change (timers (set_percpus w ?x)) with (timers w). rewrite Ht. cbn [deref]. rewrite !bind_Ok. fold tm'.
  pose proof (world_ok_drop w c p t tm tm' Hw Hp Hin Ht Hhome Hq') as Hw2. set (w2 := put_timer _ t tm') in *.
  assert (Hp2 : percpus w2 !! c = Some (drop_dpc t p)) by (cbn; by rewrite lookup_insert_eq).
  assert (Ht2 : timers w2 !! t = Some tm') by (cbn; by rewrite lookup_insert_eq).
  destruct (dispatching_ok w2 c _ (Some t) Hw2 Hp2) as (w3 & -> & Hw3 & Hs3 & He3). rewrite bind_Ok.
  assert (Ht3 : timers w3 !! t = Some tm') by (by rewrite (sm_timers _ _ Hs3)).
  rewrite Ht3. cbn [deref]. rewrite bind_Ok. cbv zeta. change (timer_base_for_flags (flags tm')) with (base_of tm').
  destruct (running_ok w3 t tm' (Some t) Hw3 Ht3) as (w4 & -> & Hw4 & Hs4 & He4). rewrite bind_Ok, has_flag_irq, Hirq', Hirq. cbn [negb enforce].
  rewrite bind_Ok. assert (Ht4 : timers w4 !! t = Some tm') by (by rewrite (sm_timers _ _ Hs4)).
  unfold timer_fn_call, get_timer. rewrite Ht4. cbn [deref]. rewrite bind_Ok, Hf', Hf. cbn [deref]. rewrite bind_Ok, Hcall, bind_Ok.
  set (w5 := set_env w4 _). pose proof (world_ok_env w4 (effect f t (env w4)) Hw4) as Hw5.
  destruct (running_ok w5 t tm' None Hw5 Ht4) as (w6 & -> & Hw6 & Hs6 & He6). rewrite bind_Ok.
  assert (Hs5 : same_but_marks w4 w5) by (split; try done; eauto).
  pose proof (same_trans _ _ _ (same_trans _ _ _ Hs3 Hs4) (same_trans _ _ _ Hs5 Hs6)) as Hs. destruct (sm_dpc _ _ Hs c _ Hp2) as (p6 & Hp6 & Ed6).
  destruct (dispatching_ok w6 c _ None Hw6 Hp6) as (w7 & -> & Hw7 & Hs7 & He7). rewrite bind_Ok.
  destruct (sm_dpc _ _ Hs7 c _ Hp6) as (p7 & Hp7 & Ed7). pose proof (same_trans _ _ _ Hs Hs7) as Hs'.
  exists w7, tm, f. split_and!; try done.
  - exists p7. split; [done|]. rewrite Ed7, Ed6. cbn. rewrite Hts. by apply unlink_head.
  - rewrite He7, He6. cbn. by rewrite He4, He3.
  - intros u Hu. rewrite (sm_timers _ _ Hs'). cbn. by rewrite lookup_insert_ne.
  - by rewrite (sm_cpu _ _ Hs').
  - by rewrite (sm_time _ _ Hs').
Qed.

(** The functions of the timers [ts], called in the order of the list. *)
Definition run_func w (e : E) (t : Z) : E :=
  match timers w !! t with Some tm => match func tm with Some f => effect f t e | None => e end | None => e end.

Lemma run_func_ext w w1 us : (forall u, u ∈ us -> timers w1 !! u = timers w !! u) ->
  forall e, foldl (run_func w1) e us = foldl (run_func w) e us.
Proof using Type.
  induction us as [|u us IH]; intros H e; [done|]. cbn [foldl]. unfold run_func at 2 4. rewrite (H u) by left.
  apply IH. intros v Hv. apply H. by right.
Qed.

Lemma dpc_ok c ts : forall fuel w p, world_ok w -> percpus w !! c = Some p -> dpc_timers p = ts -> (length ts < fuel)%nat ->
  exists w', timer_dpc call fuel w c = Ok w' /\ world_ok w' /\ (exists p', percpus w' !! c = Some p' /\ dpc_timers p' = []) /\
    env w' = foldl (run_func w) (env w) ts /\ smp_id w' = smp_id w /\ time_us w' = time_us w.
Proof using Hcall.
  unfold timer_dpc. induction ts as [|t ts IH]; intros [|fuel] w p Hw Hp Hts Hf; cbn [length] in Hf; try lia.
  - exists w. split_and!; try done; [|by exists p]. apply loop_done. unfold dpc_body, get_percpu. rewrite Hp. cbn [deref]. by rewrite bind_Ok, Hts.
  - destruct (dpc_step w c p t ts Hw Hp Hts) as (w1 & tm & f & Ht & Hfn & E1 & Hw1 & (p1 & Hp1 & Hts1) & He1 & Htm1 & Hid1 & Hti1).
    assert (Hnin : t ∉ ts).
    { pose proof (lo_nodes w (wo_lists w Hw) c p Hp) as Hn. unfold nodes in Hn. rewrite Hts in Hn. apply list.NoDup_app in Hn as (Hn & _).
      by apply list.NoDup_cons in Hn as [? _]. }
    rewrite (loop_step _ _ _ _ E1). destruct (IH fuel w1 p1 Hw1 Hp1 Hts1 ltac:(lia)) as (w' & E' & Hw' & Hp' & He' & Hid' & Hti').
    exists w'. split_and!; try done; [|congruence|congruence]. rewrite He', He1. cbn [foldl]. unfold run_func at 3. rewrite Ht, Hfn.
    apply run_func_ext. intros u Hu. apply Htm1. by intros ->.
Qed.
End Dispatch.

(** ** From boot on *)

(** The state after the per-CPU constructors of the CPUs [cpus] have run. *)
Definition boot {E} (e : E) (cpus : list Z) (now : Z) : world E :=
  mkWorld e 0 now ∅ (list_to_map ((fun c => (c, timer_percpu_ctor c)) <$> cpus)) [] (fun _ => CPU_MASK_INIT) [].

Lemma at_idx_nil n idx : at_idx (replicate n []) idx = [].
Proof. unfold at_idx. destruct (replicate n [] !! Z.to_nat idx) as [l|] eqn:El; [|done]. by apply lookup_replicate in El as [-> _]. Qed.
Lemma ctor_base_ok i c : base_ok (mkBase i c None 0 TIME_US_MAX false false (replicate 10 0) (replicate (Z.to_nat TIMER_WHEEL_SIZE) [])).
Proof.
  assert (Hno : forall idx, tb (replicate 10 0) idx = false).
  { intros idx. unfold tb, word. destruct (replicate 10 0 !! Z.to_nat (idx `div` 64)) as [x|] eqn:El; [|apply Z.bits_0].
    apply lookup_replicate in El as [-> _]. apply Z.bits_0. }
  split; cbn.
  - split; cbn; [|done| |lia].
    + split_and!; [lia|done|]. by repeat constructor.
    + intros idx Hi. by rewrite Hno, at_idx_nil.
  - split_and!; [done| |by left]. intros idx _ Ht. by rewrite Hno in Ht.
  - done.
Qed.
Lemma boot_percpu {E} (e : E) cpus now c p : percpus (boot e cpus now) !! c = Some p -> p = timer_percpu_ctor c /\ c ∈ cpus.
Proof.
  cbn. intros Hp. apply elem_of_list_to_map_2 in Hp. apply list_elem_of_fmap in Hp as (c' & [= -> ->] & Hin). done.
Qed.
Lemma ctor_nodes c : nodes (timer_percpu_ctor c) = [].
Proof. unfold nodes. cbn. by rewrite !concat_replicate_nil. Qed.

Lemma boot_ok {E} (e : E) cpus now : (forall c, c ∈ cpus -> 0 <= c < 2 ^ 18) -> 0 <= now < 2 ^ 62 -> world_ok (boot e cpus now).
Proof.
  intros Hc Hn. assert (Hnil : forall c p t, percpus (boot e cpus now) !! c = Some p -> t ∉ nodes p).
  { intros c p t Hp. apply boot_percpu in Hp as [-> _]. rewrite ctor_nodes. apply not_elem_of_nil. }
  split; try done.
  - split; [constructor| | |].
    + intros c p Hp. apply boot_percpu in Hp as [-> _]. rewrite ctor_nodes. constructor.
    + intros c c' p p' t Hp _ Ht. by apply (Hnil c p t) in Hp.
    + intros c p t Hp _. by apply (Hnil c p t).
  - intros c. cbn. split_and!; [lia|done|]. by repeat constructor.
  - intros c p Hp. apply boot_percpu in Hp as [-> Hin]. split_and!; [by apply Hc|by apply Hc|done|done].
  - intros r b (p & Hp & Hb)%base_at_Some Hr. apply boot_percpu in Hp as [-> Hin]. cbn in Hb.
    assert (exists i, b = mkBase i r.1 None 0 TIME_US_MAX false false (replicate 10 0) (replicate (Z.to_nat TIMER_WHEEL_SIZE) [])) as [i ->].
    { destruct (Z.to_nat r.2) as [|[|[|k]]]; cbn in Hb; [injection Hb as <-; eauto..|done]. }
    split_and!; [apply ctor_base_ok|done|cbn; lia].
  - intros r b idx t (p & Hp & Hb)%base_at_Some Hr Hi Hin. destruct (in_bucket_nodes (boot e cpus now) r b idx t p Hp Hb Hi Hin) as [Hno _].
    by apply (Hnil r.1 p t) in Hp.
  - intros c p t Hp Hin. exfalso. apply (Hnil c p t Hp). apply elem_of_nodes. by left.
Qed.

(** What a client of the timers, the interrupt and the DPC do. *)
Inductive timer_call : Type :=
  | CInit (t f : Z)
  | CSetExpiration (t e : Z)
  | CSetFlags (t fl : Z)
  | CTimersInit (c : Z) (ced : clock_evdev) (change_state : option (clock_evdev -> clock_evdev * bool))
  | CAddOn (t c : Z)
  | CAdd (t : Z)
  | CAddLocal (t : Z)
  | CAddGlobal (t : Z)
  | CDelete (t : Z)
  | CShutdown (t : Z)
  | CModify (t e : Z)
  | CModifyPending (t e : Z)
  | CModifyReduce (t e : Z)
  | CIsr
  | CDpc
  | CTime (now : Z)
  | CCpu (c : Z).

Section Calls.
Context {E : Type} (effect : Z -> Z -> E -> E) (call : Z -> Z -> world E -> outcome (world E)).
Context (Hcall : forall f t w, call f t w = Ok (set_env w (effect f t (env w)))).
Context (set_next_event : Z -> clock_evdev -> Z -> bool).
Context (Hdev : forall c ced d, min_delta_ns ced <= d <= max_delta_ns ced -> set_next_event c ced d = true).
Context (fuel : nat).
Implicit Types (w : world E).

Definition set_time w now : world E :=
  mkWorld (env w) (smp_id w) now (timers w) (percpus w) (heads w) (deferred_timer_ipis w) (events w).
Definition set_cpu w c : world E :=
  mkWorld (env w) c (time_us w) (timers w) (percpus w) (heads w) (deferred_timer_ipis w) (events w).

Definition do_call (o : timer_call) w : outcome (world E) :=
  match o with
  | CInit t f => Ok (put_timer w t (timer_init (Some f)))
  | CSetExpiration t e => upd_timer w t (fun tm => set_expiration tm e)
  | CSetFlags t fl => upd_timer w t (fun tm => set_flags tm fl)
  | CTimersInit c ced change_state => timers_init (fun _ => Ok ced) change_state w c
  | CAddOn t c => timer_add_on set_next_event w t c
  | CAdd t => timer_add set_next_event w t
  | CAddLocal t => timer_add_local set_next_event w t
  | CAddGlobal t => timer_add_global set_next_event w t
  | CDelete t => r ← timer_delete set_next_event w t; Ok r.1
  | CShutdown t => r ← timer_shutdown set_next_event w t; Ok r.1
  | CModify t e => r ← timer_modify set_next_event w t e; Ok r.1
  | CModifyPending t e => r ← timer_modify_pending set_next_event w t e; Ok r.1
  | CModifyReduce t e => r ← timer_modify_reduce set_next_event w t e; Ok r.1
  | CIsr => timer_isr call set_next_event fuel w
  | CDpc => timer_dpc call fuel w (smp_id w)
  | CTime now => Ok (set_time w now)
  | CCpu c => Ok (set_cpu w c)
  end.

(** A timer that has a function and is on no list. *)
Definition idle w t : Prop := exists tm, timers w !! t = Some tm /\ is_Some (func tm) /\ ~ hashed w t.
Definition usable w t : Prop := exists tm, timers w !! t = Some tm /\ is_Some (func tm).
(** The calls the interface allows: a timer is added only when it is not pending,
    and has a function; its fields are assigned only when it is not pending, and
    the flags without [TIMER_FLAG_DPC_QUEUED]; the event device takes the state
    asked for; time does not go back; the loops have [fuel] rounds. *)
Definition legal w (o : timer_call) : Prop :=
  match o with
  | CInit t f => ~ hashed w t /\ is_Some (percpus w !! 0)
  | CSetExpiration t e => is_Some (timers w !! t) /\ ~ hashed w t /\ in_u 64 e
  | CSetFlags t fl => is_Some (timers w !! t) /\ ~ hashed w t /\ in_u 32 fl /\ Z.land fl TIMER_FLAG_DPC_QUEUED = 0 /\
      is_Some (percpus w !! Z.land fl TIMER_FLAG_CPU_MASK)
  | CTimersInit c ced change_state => is_Some (percpus w !! c) /\
      let r := match change_state with None => (ced, true) | Some f => f ced end in
      r.2 = true /\ min_delta_ns r.1 <= max_delta_ns r.1
  | CAddOn t c => idle w t /\ is_Some (percpus w !! c)
  | CAdd t | CAddLocal t | CAddGlobal t => idle w t /\ is_Some (percpus w !! smp_id w)
  | CDelete t | CShutdown t => is_Some (timers w !! t)
  | CModify t e | CModifyReduce t e => usable w t /\ is_Some (percpus w !! smp_id w) /\ in_u 64 e
  | CModifyPending t e => usable w t /\ in_u 64 e
  | CIsr => forall j b, base_at w (smp_id w, j) = Some b -> (length (concat (buckets b)) < fuel)%nat
  | CDpc => exists p, percpus w !! smp_id w = Some p /\ (length (dpc_timers p) < fuel)%nat
  | CTime now => time_us w <= now < 2 ^ 62
  | CCpu c => is_Some (percpus w !! c)
  end.

(** The states reached from [w0] by allowed calls. *)
Inductive reach (w0 : world E) : world E -> Prop :=
  | reach_refl : reach w0 w0
  | reach_step w o w' : reach w0 w -> legal w o -> do_call o w = Ok w' -> reach w0 w'.

Lemma not_hashed_queued w t tm : world_ok w -> timers w !! t = Some tm -> ~ hashed w t -> queued tm = false.
Proof using Type.
  intros Hw Ht Hh. destruct (queued tm) eqn:Hq; [|done]. exfalso. apply Hh. destruct (wo_queued w Hw t tm Ht Hq) as (p & ? & ?).
  apply hashed_cases; [done|]. right. eauto.
Qed.
(** Setting or clearing the flag [PINNED] of a timer on no list. *)
Lemma pinned_ok w t tm tm' : world_ok w -> timers w !! t = Some tm -> ~ hashed w t -> is_Some (func tm) ->
  (tm' = flag_set tm TIMER_FLAG_PINNED \/ tm' = flag_clear tm TIMER_FLAG_PINNED) ->
  world_ok (put_timer w t tm') /\ idle (put_timer w t tm') t.
Proof using Type.
  intros Hw Ht Hh Hf Htm. destruct (wo_timer w Hw t tm Ht) as (Hfl & He & Hp).
  assert (Hb : forall i, 0 <= i < 21 -> Z.testbit (flags tm') i = Z.testbit (flags tm) i).
  { intros i Hi. destruct Htm as [->| ->]; unfold TIMER_FLAG_PINNED; [rewrite bit_flag_set by lia|rewrite bit_flag_clear by lia];
      by rewrite (proj2 (Z.eqb_neq _ _)) by lia. }
  assert (Hcg : timer_cpu_get tm' = timer_cpu_get tm) by (apply cpu_get_ext; intros; apply Hb; lia).
  split.
  - apply world_ok_timer; [done|done| | |by destruct Htm as [->| ->]|by rewrite Hcg].
    + unfold queued. rewrite Hb by lia. by apply (not_hashed_queued w t tm).
    + destruct Htm as [->| ->]; cbn; [by apply lor_range|by apply in_u_land].
  - exists tm'. cbn. rewrite lookup_insert_eq. split_and!; [done|by destruct Htm as [->| ->]|done].
Qed.
Lemma add_call_ok w t c : world_ok w -> idle w t -> is_Some (percpus w !! c) ->
  exists w', timer_add_on set_next_event w t c = Ok w' /\ world_ok w'.
Proof using Hdev.
  intros Hw (tm & Ht & Hf & Hh) Hp. destruct (add_on_ok set_next_event Hdev w t tm c Hw Ht Hh Hf Hp) as (w' & ? & ? & _). eauto.
Qed.

Lemma timers_init_ok w c ced change_state : world_ok w -> is_Some (percpus w !! c) ->
  let r := match change_state with None => (ced, true) | Some f => f ced end in
  r.2 = true -> min_delta_ns r.1 <= max_delta_ns r.1 ->
  exists w', timers_init (fun _ => Ok ced) change_state w c = Ok w' /\ world_ok w'.
Proof using Type.
  intros Hw [p Hp] r Hok Hd. exists (put_percpu w c (mkPercpu (bases p) (dpc_enqueued p) (dpc_timers p) (dispatching p) (Some r.1))).
  split; [|apply marks_ok; [done|done|by intros ? [= <-]]]. unfold timers_init, get_percpu. rewrite bind_Ok, Hp. cbn [deref]. rewrite bind_Ok.
  unfold r in *. destruct change_state as [f|]; [rewrite Hok; cbn [enforce]|]; by rewrite !bind_Ok.
Qed.

(** Every allowed call returns and keeps the invariant. *)
Lemma call_ok w o : world_ok w -> legal w o -> exists w', do_call o w = Ok w' /\ world_ok w'.
Proof using Hcall Hdev.
  intros Hw Hl. destruct o; cbn in Hl |- *.
  - destruct Hl as [Hh Hp]. eexists. split; [done|]. by apply world_ok_timer.
  - destruct Hl as ([tm Ht] & Hh & He). unfold upd_timer, get_timer. rewrite Ht. cbn. eexists. split; [done|].
    destruct (wo_timer w Hw t tm Ht) as (Hfl & _ & Hp). apply world_ok_timer; try done. by apply (not_hashed_queued w t tm).
  - destruct Hl as ([tm Ht] & Hh & Hfl & Hq & Hp). unfold upd_timer, get_timer. rewrite Ht. cbn. eexists. split; [done|].
    destruct (wo_timer w Hw t tm Ht) as (_ & He & _). apply world_ok_timer; try done.
    rewrite <- has_flag_queued. unfold has_flag. cbn. by rewrite Hq.
  - destruct Hl as (Hp & Hok & Hd). by apply (timers_init_ok w c ced change_state).
  - destruct Hl. by apply add_call_ok.
  - destruct Hl. by apply add_call_ok.
  - destruct Hl as [(tm & Ht & Hf & Hh) Hp]. unfold timer_add_local, upd_timer, get_timer. rewrite Ht. cbn [deref]. rewrite !bind_Ok.
    destruct (pinned_ok w t tm _ Hw Ht Hh Hf (or_introl eq_refl)) as [Hw1 Hi]. by apply add_call_ok.
  - destruct Hl as [(tm & Ht & Hf & Hh) Hp]. unfold timer_add_global, upd_timer, get_timer. rewrite Ht. cbn [deref]. rewrite !bind_Ok.
    destruct (pinned_ok w t tm _ Hw Ht Hh Hf (or_intror eq_refl)) as [Hw1 Hi]. by apply add_call_ok.
  - destruct Hl as [tm Ht]. destruct (delete_internal_ok set_next_event Hdev w t tm false Hw Ht) as (w' & E' & Hw' & _).
    unfold timer_delete. rewrite E', bind_Ok. eauto.
  - destruct Hl as [tm Ht]. destruct (delete_internal_ok set_next_event Hdev w t tm true Hw Ht) as (w' & E' & Hw' & _).
    unfold timer_shutdown. rewrite E', bind_Ok. eauto.
  - destruct Hl as ((tm & Ht & Hf) & Hp & He). destruct (modify_ok set_next_event Hdev w t tm e Hw Ht Hf Hp He) as (w' & -> & Hw' & _).
    rewrite bind_Ok. eauto.
  - destruct Hl as ((tm & Ht & Hf) & He). destruct (modify_pending_ok set_next_event Hdev w t tm e Hw Ht Hf He) as (w' & -> & Hw' & _).
    rewrite bind_Ok. eauto.
  - destruct Hl as ((tm & Ht & Hf) & Hp & He). destruct (modify_reduce_ok set_next_event Hdev w t tm e Hw Ht Hf Hp He) as (w' & -> & Hw' & _).
    rewrite bind_Ok. eauto.
  - destruct (isr_ok effect call Hcall set_next_event Hdev fuel w Hw Hl) as (w' & ? & ? & _). eauto.
  - destruct Hl as (p & Hp & Hf). destruct (dpc_ok effect call Hcall (smp_id w) _ fuel w p Hw Hp eq_refl Hf) as (w' & ? & ? & _). eauto.
  - eexists. split; [done|]. destruct (Hw) as [[] ? Ht ? ? Hb ? ? ? ?]. split; [by split|done|cbn; lia|done|done| |done..].
    intros r b Hbr Hr. destruct (Hb r b Hbr Hr) as (? & ? & ?). split_and!; try done. cbn. lia.
  - eexists. split; [done|]. destruct (Hw) as [[] ? ? ? ? ? ? ? ? ?]. split; [by split|done..].
Qed.
Lemma reach_ok w0 w : world_ok w0 -> reach w0 w -> world_ok w.
Proof using Hcall Hdev.
  intros H0. induction 1 as [|w o w' _ IH Hl Ex]; [done|]. destruct (call_ok w o IH Hl) as (w1 & E1 & Hw1). congruence.
Qed.
End Calls.

(** *** An example: two CPUs, the first with an event device, and one timer *)

Definition demo_effect (f t : Z) (e : list Z) : list Z := e ++ [t].
Definition demo_call (f t : Z) (w : world (list Z)) : outcome (world (list Z)) := Ok (set_env w (demo_effect f t (env w))).
Definition demo_event (c : Z) (ced : clock_evdev) (d : Z) : bool := (min_delta_ns ced <=? d) && (d <=? max_delta_ns ced).
Definition demo_evdev (on : bool) : clock_evdev := mkEvdev on 1000 1000000.
Definition demo_state : option (clock_evdev -> clock_evdev * bool) := Some (fun _ => (demo_evdev true, true)).
Definition demo_boot : world (list Z) :=
  match timers_init (fun _ => Ok (demo_evdev false)) demo_state (boot [] [0; 1] 1000) 0 with Ok w => w | _ => boot [] [0; 1] 1000 end.
(** Timer 7, set up to run at 1010. *)
Definition demo_idle : world (list Z) := put_timer demo_boot 7 (mkTimer 1010 (Some 3) 0).
Definition demo_added : world (list Z) := match timer_add demo_event demo_idle 7 with Ok w => w | _ => demo_idle end.
Definition demo_late : world (list Z) := set_time demo_added 2000.
Definition demo_base : timer_base := default (mkBase 0 0 None 0 0 false false [] []) (base_at demo_late (0, 1)).

Lemma demo_event_ok c ced d : min_delta_ns ced <= d <= max_delta_ns ced -> demo_event c ced d = true.
Proof. intros [? ?]. unfold demo_event. by rewrite !(proj2 (Z.leb_le _ _)). Qed.
Lemma demo_idle_ok : world_ok demo_idle /\ ~ hashed demo_idle 7.
Proof.
  assert (H0 : world_ok (boot ([] : list Z) [0; 1] 1000)) by (apply boot_ok; [intros c Hc; set_unfold; lia|lia]).
  destruct (timers_init_ok _ 0 (demo_evdev false) demo_state H0) as (w0 & E0 & Hb); [by vm_compute; eauto|done|done|].
  assert (w0 = demo_boot) as -> by (unfold demo_boot; by rewrite E0).
  assert (Hh : ~ hashed demo_boot 7) by (apply (bool_decide_eq_false (hashed demo_boot 7)); by vm_compute).
  split; [|exact Hh]. apply world_ok_timer; done.
Qed.
Lemma demo_late_ok : world_ok demo_late.
Proof.
  destruct demo_idle_ok as [Hw Hh]. destruct (call_ok demo_effect demo_call (fun _ _ _ => eq_refl) demo_event demo_event_ok 1 demo_idle (CAdd 7) Hw) as (w' & Ew & Hw').
  { split; [|by vm_compute; eauto]. exists (mkTimer 1010 (Some 3) 0). split_and!; [by vm_compute|by eexists|done]. }
  assert (Hw1 : world_ok demo_added) by (unfold demo_added; cbn in Ew; by rewrite Ew).
  destruct (call_ok demo_effect demo_call (fun _ _ _ => eq_refl) demo_event demo_event_ok 1 demo_added (CTime 2000) Hw1) as (w2 & [= <-] & Hw2); [|done].
  cbn. assert (time_us demo_added = 1000) as -> by (by vm_compute). lia.
Qed.

(** The same timer as a pinned interrupt timer, added. *)
Definition demo_irq_flags : Z := Z.lor TIMER_FLAG_IRQ TIMER_FLAG_PINNED.
Definition demo_flags : world (list Z) := put_timer demo_boot 7 (mkTimer 0 (Some 3) demo_irq_flags).
Definition demo_irq : world (list Z) := match timer_add demo_event demo_flags 7 with Ok w => w | _ => demo_flags end.

(** ** The properties *)

(** C31: running a base delivers exactly the timers of the buckets that are due by
    now, in the order of the buckets' times (the finer level first, and within a
    bucket the timer added last first): an interrupt timer's function is called,
    any other timer is put in front of the CPU's DPC queue.  The buckets not yet
    due keep their timers and their times, the base's invariant holds again, and
    the loop ends within one round per pending timer.  The timers' functions work
    on their own state and do not call the timer operations. *)
Theorem timer_base_run_correct {E} (effect : Z -> Z -> E -> E) (call : Z -> Z -> world E -> outcome (world E)) fuel (w : world E) r b :
  (forall f t w, call f t w = Ok (set_env w (effect f t (env w)))) ->
  world_ok w -> base_at w r = Some b -> 0 <= r.2 -> (length (concat (buckets b)) < fuel)%nat ->
  exists slots b',
    timer_base_run call fuel w r = Ok (place (foldl (deliver effect r.1) w (concat (at_idx (buckets b) <$> slots))) r b') /\
    StronglySorted (fires_before b) slots /\ (forall idx, idx ∈ slots <-> exists at_, due b idx at_ /\ at_ <= time_us w) /\
    base_ok b' /\ (forall idx at_, due b' idx at_ <-> due b idx at_ /\ time_us w < at_) /\
    (forall idx, 0 <= idx -> at_idx (buckets b') idx = if bool_decide (idx ∈ slots) then [] else at_idx (buckets b) idx).
Proof.
  intros Hcall Hw Hb Hr Hf. destruct (base_run_spec effect call Hcall fuel w r b Hw Hb Hr Hf) as (slots & b' & ? & ? & ? & ? & ? & ? & ? & _).
  exists slots, b'. by split_and!.
Qed.
Lemma timer_base_run_correct_witness : exists slots b',
  timer_base_run demo_call 5 demo_late (0, 1) = Ok (place (foldl (deliver demo_effect 0) demo_late (concat (at_idx (buckets demo_base) <$> slots))) (0, 1) b') /\
  StronglySorted (fires_before demo_base) slots /\ (forall idx, idx ∈ slots <-> exists at_, due demo_base idx at_ /\ at_ <= time_us demo_late) /\
  base_ok b' /\ (forall idx at_, due b' idx at_ <-> due demo_base idx at_ /\ time_us demo_late < at_) /\
  (forall idx, 0 <= idx -> at_idx (buckets b') idx = if bool_decide (idx ∈ slots) then [] else at_idx (buckets demo_base) idx).
Proof.
  apply (timer_base_run_correct demo_effect demo_call 5 demo_late (0, 1) demo_base).
  - reflexivity.
  - exact demo_late_ok.
  - vm_compute. reflexivity.
  - simpl. lia.
  - vm_compute. lia.
Defined.

(** C30: from boot on, whatever event devices and timers are set up, whatever timers
    are added, modified, deleted and shut down on whatever CPUs, however time
    advances and whenever the interrupt and the DPC run, one call after the other,
    the invariant holds: every timer is on at most one list, the bitmaps, clocks
    and next expirations of the bases agree with the buckets, and the flags of a
    timer say where it is.  No allowed call faults or panics.  The timers'
    functions work on their own state and do not call the timer operations, and
    the event device accepts every delay within its bounds. *)
Theorem timers_never_fault {E} (effect : Z -> Z -> E -> E) (call : Z -> Z -> world E -> outcome (world E))
    (set_next_event : Z -> clock_evdev -> Z -> bool) fuel (e : E) cpus now (w : world E) :
  (forall f t w, call f t w = Ok (set_env w (effect f t (env w)))) ->
  (forall c ced d, min_delta_ns ced <= d <= max_delta_ns ced -> set_next_event c ced d = true) ->
  (forall c, c ∈ cpus -> 0 <= c < 2 ^ 18) -> 0 <= now < 2 ^ 62 ->
  reach call set_next_event fuel (boot e cpus now) w ->
  world_ok w /\ forall o, legal fuel w o -> exists w', do_call call set_next_event fuel o w = Ok w'.
Proof.
  intros Hcall Hdev Hc Hn Hr. assert (Hw : world_ok w) by (eapply reach_ok; [exact Hcall|exact Hdev| |exact Hr]; by apply boot_ok).
  split; [done|]. intros o Hl. destruct (call_ok effect call Hcall set_next_event Hdev fuel w o Hw Hl) as (w' & ? & _). eauto.
Qed.
Lemma timers_never_fault_witness :
  world_ok demo_irq /\ forall o, legal 5 demo_irq o -> exists w', do_call demo_call demo_event 5 o demo_irq = Ok w'.
Proof.
  apply (timers_never_fault demo_effect demo_call demo_event 5 [] [0; 1] 1000).
  - reflexivity.
  - exact demo_event_ok.
  - intros c Hc. set_unfold. lia.
  - lia.
  - apply (reach_step demo_call demo_event 5 _ demo_flags (CAdd 7)); [| |vm_compute; reflexivity].
    + apply (reach_step demo_call demo_event 5 _ (put_timer demo_boot 7 (timer_init (Some 3))) (CSetFlags 7 demo_irq_flags)); [| |vm_compute; reflexivity].
      * apply (reach_step demo_call demo_event 5 _ demo_boot (CInit 7 3)); [| |reflexivity].
        { apply (reach_step demo_call demo_event 5 _ (boot [] [0; 1] 1000) (CTimersInit 0 (demo_evdev false) demo_state)); [apply reach_refl| |vm_compute; reflexivity].
          split; [vm_compute; eauto|]. split; [reflexivity|simpl; lia]. }
        split; [apply (bool_decide_eq_false (hashed demo_boot 7)); vm_compute; reflexivity|vm_compute; eauto].
      * split; [vm_compute; eauto|]. split; [apply (bool_decide_eq_false (hashed _ 7)); vm_compute; reflexivity|].
        split; [unfold in_u; vm_compute; split; congruence|]. split; [reflexivity|vm_compute; eauto].
    + split; [|vm_compute; eauto]. exists (mkTimer 0 (Some 3) demo_irq_flags). split; [vm_compute; reflexivity|]. split; [eauto|].
      apply (bool_decide_eq_false (hashed demo_flags 7)). vm_compute. reflexivity.
Defined.

(** C33: adding, modifying and deleting a timer.  Adding arms it for its time;
    modifying arms it for the new time and returns whether it was pending; the
    variant for pending timers does nothing to another timer; the variant that
    only reduces leaves a timer in a bucket alone unless the new time is earlier,
    but arms a timer whose DPC is queued, or that is not pending, for any new
    time; deleting takes it off
    every list and returns whether it was pending.  No other timer moves. *)
Theorem timer_ops_correct {E} (set_next_event : Z -> clock_evdev -> Z -> bool) (w : world E) t tm e :
  (forall c ced d, min_delta_ns ced <= d <= max_delta_ns ced -> set_next_event c ced d = true) ->
  world_ok w -> timers w !! t = Some tm -> is_Some (func tm) -> is_Some (percpus w !! smp_id w) -> in_u 64 e ->
  let pending := bool_decide (hashed w t) in
  (pending = false -> exists w', timer_add set_next_event w t = Ok w' /\ only_moves w w' t /\ armed_for w w' t (expiration_us tm)) /\
  (exists w', timer_modify set_next_event w t e = Ok (w', pending) /\ only_moves w w' t /\ armed_for w w' t e) /\
  (exists w', timer_modify_pending set_next_event w t e = Ok (w', pending) /\ only_moves w w' t /\
    if pending then armed_for w w' t e else w' = w) /\
  (exists w', timer_modify_reduce set_next_event w t e = Ok (w', pending) /\ only_moves w w' t /\
    if pending && negb (queued tm) && (expiration_us tm <=? e) then w' = w else armed_for w w' t e) /\
  (exists w', timer_delete set_next_event w t = Ok (w', pending) /\ only_moves w w' t /\ ~ hashed w' t).
Proof.
  intros Hdev Hw Ht Hf Hp He pending. split_and!.
  - intros Hno. apply bool_decide_eq_false in Hno. destruct (add_on_ok set_next_event Hdev w t tm _ Hw Ht Hno Hf Hp) as (w' & ? & _ & ? & ?). by exists w'.
  - destruct (modify_ok set_next_event Hdev w t tm e Hw Ht Hf Hp He) as (w' & ? & _ & ? & ?). by exists w'.
  - destruct (modify_pending_ok set_next_event Hdev w t tm e Hw Ht Hf He) as (w' & ? & _ & ? & ?). by exists w'.
  - destruct (modify_reduce_ok set_next_event Hdev w t tm e Hw Ht Hf Hp He) as (w' & ? & _ & ? & ?). by exists w'.
  - destruct (delete_internal_ok set_next_event Hdev w t tm false Hw Ht) as (w' & ? & _ & ? & ? & _). by exists w'.
Qed.
Lemma timer_ops_correct_witness :
  let pending := bool_decide (hashed demo_late 7) in
  (exists w', timer_modify demo_event demo_late 7 5000 = Ok (w', pending) /\ only_moves demo_late w' 7 /\ armed_for demo_late w' 7 5000) /\
  (exists w', timer_delete demo_event demo_late 7 = Ok (w', pending) /\ only_moves demo_late w' 7 /\ ~ hashed w' 7).
Proof.
  destruct (timer_ops_correct demo_event demo_late 7 (timer_bucket_set (mkTimer 1010 (Some 3) 0) 51) 5000) as (_ & Hm & _ & _ & Hd).
  - exact demo_event_ok.
  - exact demo_late_ok.
  - vm_compute. reflexivity.
  - vm_compute. eauto.
  - vm_compute. eauto.
  - unfold in_u. lia.
  - split; [exact Hm|exact Hd].
Defined.

(** C32: no timer is lost.  After the timer interrupt nothing on the CPU's three
    bases is overdue, and every timer that was due and has no interrupt function
    is in the CPU's DPC queue, with what was queued before; the DPC then calls the
    function of every timer of the queue, in the order of the queue, and leaves
    it empty.  The timers' functions work on their own state and do not call the
    timer operations. *)
Theorem timer_dispatch_correct {E} (effect : Z -> Z -> E -> E) (call : Z -> Z -> world E -> outcome (world E))
    (set_next_event : Z -> clock_evdev -> Z -> bool) fuel (w : world E) p :
  (forall f t w, call f t w = Ok (set_env w (effect f t (env w)))) ->
  (forall c ced d, min_delta_ns ced <= d <= max_delta_ns ced -> set_next_event c ced d = true) ->
  world_ok w -> percpus w !! smp_id w = Some p ->
  (forall j b, base_at w (smp_id w, j) = Some b -> (length (concat (buckets b)) < fuel)%nat) ->
  exists w1 p1, timer_isr call set_next_event fuel w = Ok w1 /\
    (forall j, 0 <= j < 3 -> up_to_date w1 (smp_id w, j)) /\
    percpus w1 !! smp_id w = Some p1 /\
    (forall j t a, 0 <= j < 3 -> due_in w (smp_id w, j) t a -> a <= time_us w -> fires_dpc w t -> t ∈ dpc_timers p1) /\
    (forall t, t ∈ dpc_timers p -> t ∈ dpc_timers p1) /\
    exists w2 p2, timer_dpc call (S (length (dpc_timers p1))) w1 (smp_id w) = Ok w2 /\
      env w2 = foldl (run_func effect w1) (env w1) (dpc_timers p1) /\ percpus w2 !! smp_id w = Some p2 /\ dpc_timers p2 = [].
Proof.
  intros Hcall Hdev Hw Hp Hf. destruct (isr_ok effect call Hcall set_next_event Hdev fuel w Hw Hf) as (w1 & E1 & Hw1 & Hk & Hj).
  destruct (kp_percpu _ _ Hk (smp_id w)) as [p1 Hp1]; [by eexists|].
  assert (Hon : forall t, queued_on w1 (smp_id w) t -> t ∈ dpc_timers p1) by (intros t (p' & Hp' & Hin); congruence).
  destruct (dpc_ok effect call Hcall (smp_id w) _ (S (length (dpc_timers p1))) w1 p1 Hw1 Hp1 eq_refl ltac:(lia)) as (w2 & E2 & _ & (p2 & Hp2 & Hd2) & He2 & _).
  exists w1, p1. split_and!; [done|by intros j Hj'; apply Hj|done| | |by exists w2, p2].
  - intros j t a Hj' Hd Ha Hfd. apply Hon. by apply (proj2 (Hj j Hj') t a).
  - intros t Hin. apply Hon, (kp_queue _ _ Hk). by exists p.
Qed.
Lemma timer_dispatch_correct_witness : exists w1 p1, timer_isr demo_call demo_event 5 demo_late = Ok w1 /\
  (forall j, 0 <= j < 3 -> up_to_date w1 (smp_id demo_late, j)) /\
  percpus w1 !! smp_id demo_late = Some p1 /\
  exists w2 p2, timer_dpc demo_call (S (length (dpc_timers p1))) w1 (smp_id demo_late) = Ok w2 /\
    env w2 = foldl (run_func demo_effect w1) (env w1) (dpc_timers p1) /\ percpus w2 !! smp_id demo_late = Some p2 /\ dpc_timers p2 = [].
Proof.
  destruct (timer_dispatch_correct demo_effect demo_call demo_event 5 demo_late
    (default (timer_percpu_ctor 0) (percpus demo_late !! 0))) as (w1 & p1 & H1 & H2 & H3 & _ & _ & H4).
  - reflexivity.
  - exact demo_event_ok.
  - exact demo_late_ok.
  - vm_compute. reflexivity.
  - intros j b Hb. apply base_at_Some in Hb as (p & Hp & Hb). vm_compute in Hp. injection Hp as <-. simpl in Hb.
    destruct (Z.to_nat j) as [|[|[|k]]]; [injection Hb as <-; vm_compute; lia..|discriminate].
  - exists w1, p1. split; [exact H1|]. split; [exact H2|]. split; [exact H3|exact H4].
Defined.
