(* ===== verification/Rbt.v ===== *)
(** * The red-black tree: the code

    [kernel/structures/rbt.c] and [include/structures/rbt.h], over a memory of
    nodes.  A pointer is an address, [NULL] is 0; the parent pointer and the
    colour share one word as in the code.  The comparison of two nodes and the
    key of a node are parameters: they read the structures the nodes are part
    of, which the tree does not change.  The checks of the debug builds
    ([DEBUG_RBT], [DEBUG_RBT_DEEP], [DEBUG_LOCK_CHK]) are modelled, each on a
    flag.  A loop has as many rounds as there are nodes in memory, and one. *)

From S2P Require Import Prelude.

(** [enum rbt_node_color] *)
Inductive rbt_node_color := TREE_NODE_RED | TREE_NODE_BLACK.
#[export] Instance rbt_node_color_eq_dec : EqDecision rbt_node_color.
Proof. solve_decision. Defined.
Definition color_bit (c : rbt_node_color) : Z := match c with TREE_NODE_RED => 0 | TREE_NODE_BLACK => 1 end.

Record rbt_node := mkNode { left : Z; right : Z; parent_data : Z }.

(** [struct rbt] with the memory of the nodes. *)
Record rbt := mkRbt { root : Z; nodes : gmap Z rbt_node }.

(** The fields of one node. *)
Definition parent_of (n : rbt_node) : Z := Z.land (parent_data n) (not_w 64 1).
Definition color_of (n : rbt_node) : rbt_node_color :=
  if Z.land (parent_data n) 1 =? 0 then TREE_NODE_RED else TREE_NODE_BLACK.
Definition with_color (n : rbt_node) (c : rbt_node_color) : rbt_node :=
  mkNode (left n) (right n) (Z.lor (Z.land (parent_data n) (not_w 64 1)) (color_bit c)).
Definition with_parent (n : rbt_node) (p : Z) : rbt_node :=
  mkNode (left n) (right n) (Z.lor (Z.land (parent_data n) 1) p).

Definition node (t : rbt) (p : Z) : outcome rbt_node := if p =? 0 then Fault else deref (nodes t !! p).
Definition put_node (t : rbt) (p : Z) (n : rbt_node) : rbt := mkRbt (root t) (<[p := n]> (nodes t)).
Definition set_root (t : rbt) (p : Z) : rbt := mkRbt p (nodes t).
Definition set_left (t : rbt) (p v : Z) : outcome rbt :=
  n ← node t p; Ok (put_node t p (mkNode v (right n) (parent_data n))).
Definition set_right (t : rbt) (p v : Z) : outcome rbt :=
  n ← node t p; Ok (put_node t p (mkNode (left n) v (parent_data n))).

Definition rbt_parent (t : rbt) (p : Z) : outcome Z := n ← node t p; Ok (parent_of n).
Definition rbt_color (t : rbt) (p : Z) : outcome rbt_node_color := n ← node t p; Ok (color_of n).
Definition rbt_set_color (t : rbt) (p : Z) (c : rbt_node_color) : outcome rbt :=
  n ← node t p; Ok (put_node t p (with_color n c)).
Definition rbt_set_parent (t : rbt) (p parent : Z) : outcome rbt :=
  _ ← enforce (Z.land parent 1 =? 0);
  n ← node t p; Ok (put_node t p (with_parent n parent)).
Definition rbt_init_node (t : rbt) (p : Z) : outcome rbt :=
  _ ← node t p; Ok (put_node t p (mkNode 0 0 (color_bit TREE_NODE_BLACK))).
(** [if (p) rbt_set_parent(p, parent);] and [if (p) rbt_set_color(p, c);] *)
Definition set_parent_if (t : rbt) (p parent : Z) : outcome rbt :=
  if p =? 0 then Ok t else rbt_set_parent t p parent.
Definition set_color_if (t : rbt) (p : Z) (c : rbt_node_color) : outcome rbt :=
  if p =? 0 then Ok t else rbt_set_color t p c.

Definition rbt_init (t : rbt) : rbt := set_root t 0.
Definition rbt_empty (t : rbt) : bool := root t =? 0.

Definition RBT_DEBUG_MAX_DEPTH : Z := 128.

Section Rbt.
Context (get_data : Z -> Z) (compare : Z -> Z -> Z).
Context (DEBUG_RBT DEBUG_RBT_DEEP DEBUG_LOCK_CHK : bool).

(** Rounds for a loop that visits a node at most once. *)
Definition rounds (t : rbt) : nat := S (size (nodes t)).

(** *** The checks of the debug builds *)

Definition rbt_debug_step (steps : Z) : outcome Z :=
  if DEBUG_RBT then
    let steps := u64 (steps + 1) in if RBT_DEBUG_MAX_DEPTH <? steps then Panic else Ok steps
  else Ok steps.

Definition linked_body (t : rbt) (s : Z * Z) : outcome (Z * Z + Z) :=
  let '(n, steps) := s in
  p ← rbt_parent t n;
  if p =? 0 then Ok (inr n) else
  pn ← node t p;
  if negb (left pn =? n) && negb (right pn =? n) then Panic else
  steps ← rbt_debug_step steps;
  Ok (inl (p, steps)).
Definition rbt_debug_check_linked (t : rbt) (z : Z) : outcome unit :=
  if DEBUG_RBT then
    n ← loop (rounds t) (linked_body t) (z, 0);
    if negb (n =? root t) then Panic else Ok tt
  else Ok tt.

(** [p && rbt_parent(p) != parent] and [p && rbt_color(p) == TREE_NODE_RED] *)
Definition misparented (t : rbt) (p parent : Z) : outcome bool :=
  if p =? 0 then Ok false else q ← rbt_parent t p; Ok (negb (q =? parent)).
Definition is_red (t : rbt) (p : Z) : outcome bool :=
  if p =? 0 then Ok false else c ← rbt_color t p; Ok (bool_decide (c = TREE_NODE_RED)).

(** The depth bounds the recursion. *)
Fixpoint validate_subtree (fuel : nat) (t : rbt) (p depth : Z) : outcome Z :=
  match fuel with
  | O => Fault
  | S fuel =>
      if p =? 0 then Ok 1 else
      if RBT_DEBUG_MAX_DEPTH <? depth then Panic else
      n ← node t p;
      if negb (left n =? 0) && (left n =? right n) then Panic else
      bl ← misparented t (left n) p;
      if bl : bool then Panic else
      br ← misparented t (right n) p;
      if br : bool then Panic else
      rr ← (if bool_decide (color_of n = TREE_NODE_RED) then
              rl ← is_red t (left n); if rl : bool then Ok true else is_red t (right n)
            else Ok false);
      if rr : bool then Panic else
      lh ← validate_subtree fuel t (left n) (depth + 1);
      rh ← validate_subtree fuel t (right n) (depth + 1);
      if negb (lh =? rh) then Panic else
      Ok (u64 (lh + if bool_decide (color_of n = TREE_NODE_BLACK) then 1 else 0))
  end.
Definition rbt_debug_validate_subtree (t : rbt) (p : Z) : outcome Z := validate_subtree 130 t p 0.
Definition rbt_debug_validate (t : rbt) : outcome unit :=
  if DEBUG_RBT_DEEP then
    if root t =? 0 then Ok tt else
    p ← rbt_parent t (root t);
    if negb (p =? 0) then Panic else
    c ← rbt_color t (root t);
    if negb (bool_decide (c = TREE_NODE_BLACK)) then Panic else
    _ ← rbt_debug_validate_subtree t (root t);
    Ok tt
  else Ok tt.

(** *** Walking *)

Definition find_min_body (t : rbt) (s : Z * Z) : outcome (Z * Z + Z) :=
  let '(p, steps) := s in
  if p =? 0 then Ok (inr p) else
  n ← node t p;
  if left n =? 0 then Ok (inr p) else
  steps ← rbt_debug_step steps; Ok (inl (left n, steps)).
Definition rbt_find_min (t : rbt) (p : Z) : outcome Z := loop (rounds t) (find_min_body t) (p, 0).
Definition find_max_body (t : rbt) (s : Z * Z) : outcome (Z * Z + Z) :=
  let '(p, steps) := s in
  if p =? 0 then Ok (inr p) else
  n ← node t p;
  if right n =? 0 then Ok (inr p) else
  steps ← rbt_debug_step steps; Ok (inl (right n, steps)).
Definition rbt_find_max (t : rbt) (p : Z) : outcome Z := loop (rounds t) (find_max_body t) (p, 0).
Definition rbt_max (t : rbt) : outcome Z := rbt_find_max t (root t).
Definition rbt_min (t : rbt) : outcome Z := rbt_find_min t (root t).

Definition next_body (t : rbt) (s : Z * Z * Z) : outcome (Z * Z * Z + Z) :=
  let '(p, parent, steps) := s in
  if parent =? 0 then Ok (inr parent) else
  n ← node t parent;
  if negb (p =? right n) then Ok (inr parent) else
  steps ← rbt_debug_step steps; Ok (inl (parent, parent_of n, steps)).
Definition rbt_next (t : rbt) (p : Z) : outcome Z :=
  if p =? 0 then Ok 0 else
  n ← node t p;
  if negb (right n =? 0) then rbt_find_min t (right n)
  else loop (rounds t) (next_body t) (p, parent_of n, 0).

(** [while (node->left) node = node->left;] of [rbt_first], and the same to the
    right of [rbt_last] and [rbt_prev]. *)
Definition leftmost_body (t : rbt) (p : Z) : outcome (Z + Z) :=
  n ← node t p; Ok (if left n =? 0 then inr p else inl (left n)).
Definition rightmost_body (t : rbt) (p : Z) : outcome (Z + Z) :=
  n ← node t p; Ok (if right n =? 0 then inr p else inl (right n)).
Definition rbt_first (t : rbt) : outcome Z :=
  if root t =? 0 then Ok 0 else loop (rounds t) (leftmost_body t) (root t).
Definition rbt_last (t : rbt) : outcome Z :=
  if root t =? 0 then Ok 0 else loop (rounds t) (rightmost_body t) (root t).
Definition prev_body (t : rbt) (s : Z * Z) : outcome (Z * Z + Z) :=
  let '(p, parent) := s in
  if parent =? 0 then Ok (inr parent) else
  n ← node t parent;
  Ok (if p =? left n then inl (parent, parent_of n) else inr parent).
Definition rbt_prev (t : rbt) (p : Z) : outcome Z :=
  n ← node t p;
  if negb (left n =? 0) then loop (rounds t) (rightmost_body t) (left n)
  else loop (rounds t) (prev_body t) (p, parent_of n).

Definition predecessor_body (t : rbt) (data : Z) (s : Z * Z) : outcome (Z * Z + Z) :=
  let '(curr, pred) := s in
  if curr =? 0 then Ok (inr pred) else
  n ← node t curr;
  Ok (inl (if get_data curr <? data then (right n, curr) else (left n, pred))).
Definition rbt_find_predecessor (t : rbt) (data : Z) : outcome Z :=
  loop (rounds t) (predecessor_body t data) (root t, 0).
Definition successor_body (t : rbt) (data : Z) (s : Z * Z) : outcome (Z * Z + Z) :=
  let '(curr, succ) := s in
  if curr =? 0 then Ok (inr succ) else
  n ← node t curr;
  Ok (inl (if data <? get_data curr then (left n, curr) else (right n, succ))).
Definition rbt_find_successor (t : rbt) (data : Z) : outcome Z :=
  loop (rounds t) (successor_body t data) (root t, 0).

Definition search_body (t : rbt) (data : Z) (p : Z) : outcome (Z + Z) :=
  if (p =? 0) || (get_data p =? data) then Ok (inr p) else
  n ← node t p; Ok (inl (if data <? get_data p then left n else right n)).
Definition rbt_search_internal (t : rbt) (p data : Z) : outcome Z := loop (rounds t) (search_body t data) p.
Definition rbt_search (t : rbt) (data : Z) : outcome Z :=
  p ← loop (rounds t) (search_body t data) (root t);
  Ok (if negb (p =? 0) && (get_data p =? data) then p else 0).

(** [rbt_for_each(iter, tree) { if (iter == node) return true; }] *)
Definition has_node_body (t : rbt) (p : Z) (iter : Z) : outcome (Z + bool) :=
  if iter =? 0 then Ok (inr false) else
  if iter =? p then Ok (inr true) else
  nx ← rbt_next t iter; Ok (inl nx).
Definition rbt_has_node (t : rbt) (p : Z) : outcome bool :=
  iter ← rbt_first t; loop (rounds t) (has_node_body t p) iter.

Definition rbt_position_valid (t : rbt) (p : Z) : outcome bool :=
  prev ← rbt_prev t p;
  if negb (prev =? 0) && (0 <? compare prev p) then Ok false else
  next ← rbt_next t p;
  Ok (negb (negb (next =? 0) && (0 <? compare p next))).

(** *** Rotations *)

(** What hangs at [u] now hangs at [v]:
    [if (!parent) root = v; else if (u == parent->left) ... else ...] *)
Definition rb_transplant (t : rbt) (u v : Z) : outcome rbt :=
  pu ← rbt_parent t u;
  t ← (if pu =? 0 then Ok (set_root t v) else
       n ← node t pu;
       if u =? left n then set_left t pu v else set_right t pu v);
  if v =? 0 then Ok t else rbt_set_parent t v pu.

Definition left_rotate (t : rbt) (x : Z) : outcome rbt :=
  nx ← node t x;
  let y := right nx in
  ny ← node t y;
  t ← set_right t x (left ny);
  t ← set_parent_if t (left ny) x;
  px ← rbt_parent t x;
  t ← rbt_set_parent t y px;
  t ← (if px =? 0 then Ok (set_root t y) else
       n ← node t px;
       if x =? left n then set_left t px y else set_right t px y);
  t ← set_left t y x;
  rbt_set_parent t x y.

Definition right_rotate (t : rbt) (y : Z) : outcome rbt :=
  ny ← node t y;
  let x := left ny in
  nx ← node t x;
  t ← set_left t y (right nx);
  t ← set_parent_if t (right nx) y;
  py ← rbt_parent t y;
  t ← rbt_set_parent t x py;
  t ← (if py =? 0 then Ok (set_root t x) else
       n ← node t py;
       if y =? right n then set_right t py x else set_left t py x);
  t ← set_right t x y;
  rbt_set_parent t y x.

Definition rbt_is_black (t : rbt) (p : Z) : outcome bool :=
  if p =? 0 then Ok true else c ← rbt_color t p; Ok (bool_decide (c = TREE_NODE_BLACK)).

(** *** Deleting *)

(** One round of [fix_deletion], where [x] is the left child and where it is the
    right one: first a black sibling is made, then its children decide.  The
    result is the new [x] and [x_parent]. *)
Definition fix_left_nephews (t : rbt) (x_parent sibling : Z) : outcome (rbt * Z * Z) :=
  black ← (if sibling =? 0 then Ok true else
           ns ← node t sibling;
           bl ← rbt_is_black t (left ns);
           if bl : bool then rbt_is_black t (right ns) else Ok false);
  if black : bool then
    t ← set_color_if t sibling TREE_NODE_RED;
    gp ← rbt_parent t x_parent;
    Ok (t, x_parent, gp)
  else
    ns ← node t sibling;
    br ← rbt_is_black t (right ns);
    ts ← (if br : bool then
            t ← set_color_if t (left ns) TREE_NODE_BLACK;
            t ← rbt_set_color t sibling TREE_NODE_RED;
            t ← right_rotate t sibling;
            np ← node t x_parent;
            Ok (t, right np)
          else Ok (t, sibling));
    let '(t, sibling) := ts in
    c ← rbt_color t x_parent;
    t ← rbt_set_color t sibling c;
    t ← rbt_set_color t x_parent TREE_NODE_BLACK;
    ns ← node t sibling;
    t ← set_color_if t (right ns) TREE_NODE_BLACK;
    t ← left_rotate t x_parent;
    Ok (t, root t, 0).
Definition fix_deletion_left (t : rbt) (x_parent : Z) : outcome (rbt * Z * Z) :=
  np ← node t x_parent;
  let sibling := right np in
  red ← is_red t sibling;
  if red : bool then
    t ← rbt_set_color t sibling TREE_NODE_BLACK;
    t ← rbt_set_color t x_parent TREE_NODE_RED;
    t ← left_rotate t x_parent;
    np ← node t x_parent;
    fix_left_nephews t x_parent (right np)
  else fix_left_nephews t x_parent sibling.
Definition fix_right_nephews (t : rbt) (x_parent sibling : Z) : outcome (rbt * Z * Z) :=
  black ← (if sibling =? 0 then Ok true else
           ns ← node t sibling;
           bl ← rbt_is_black t (left ns);
           if bl : bool then rbt_is_black t (right ns) else Ok false);
  if black : bool then
    t ← set_color_if t sibling TREE_NODE_RED;
    gp ← rbt_parent t x_parent;
    Ok (t, x_parent, gp)
  else
    ns ← node t sibling;
    bl ← rbt_is_black t (left ns);
    ts ← (if bl : bool then
            t ← set_color_if t (right ns) TREE_NODE_BLACK;
            t ← rbt_set_color t sibling TREE_NODE_RED;
            t ← left_rotate t sibling;
            np ← node t x_parent;
            Ok (t, left np)
          else Ok (t, sibling));
    let '(t, sibling) := ts in
    c ← rbt_color t x_parent;
    t ← rbt_set_color t sibling c;
    t ← rbt_set_color t x_parent TREE_NODE_BLACK;
    ns ← node t sibling;
    t ← set_color_if t (left ns) TREE_NODE_BLACK;
    t ← right_rotate t x_parent;
    Ok (t, root t, 0).
Definition fix_deletion_right (t : rbt) (x_parent : Z) : outcome (rbt * Z * Z) :=
  np ← node t x_parent;
  let sibling := left np in
  red ← is_red t sibling;
  if red : bool then
    t ← rbt_set_color t sibling TREE_NODE_BLACK;
    t ← rbt_set_color t x_parent TREE_NODE_RED;
    t ← right_rotate t x_parent;
    np ← node t x_parent;
    fix_right_nephews t x_parent (left np)
  else fix_right_nephews t x_parent sibling.

Definition fix_deletion_body (s : rbt * Z * Z * Z) : outcome (rbt * Z * Z * Z + rbt) :=
  let '(t, x, x_parent, steps) := s in
  again ← (if x =? root t then Ok false else rbt_is_black t x);
  if again : bool then
    if x_parent =? 0 then t ← set_color_if t x TREE_NODE_BLACK; Ok (inr t) else
    steps ← rbt_debug_step steps;
    np ← node t x_parent;
    r ← (if x =? left np then fix_deletion_left t x_parent else fix_deletion_right t x_parent);
    Ok (inl (r, steps))
  else t ← set_color_if t x TREE_NODE_BLACK; Ok (inr t).
Definition fix_deletion (t : rbt) (x x_parent : Z) : outcome rbt :=
  loop (rounds t) fix_deletion_body (t, x, x_parent, 0).

(** The node [z] with two children is replaced by its successor: the state, the
    colour of the successor, [x] and [x_parent]. *)
Definition delete_two (t : rbt) (z : Z) : outcome (rbt * rbt_node_color * Z * Z) :=
  nz ← node t z;
  y ← rbt_find_min t (right nz);
  y_original_color ← rbt_color t y;
  ny ← node t y;
  let x := right ny in
  tx ← (if negb (parent_of ny =? z) then
          t ← rb_transplant t y (right ny);
          nz ← node t z;
          t ← set_right t y (right nz);
          t ← set_parent_if t (right nz) y;
          Ok (t, parent_of ny)
        else Ok (t, y));
  let '(t, x_parent) := tx in
  t ← rb_transplant t z y;
  nz ← node t z;
  t ← set_left t y (left nz);
  t ← set_parent_if t (left nz) y;
  c ← rbt_color t z;
  t ← rbt_set_color t y c;
  Ok (t, y_original_color, x, x_parent).

Definition rbt_delete (t : rbt) (z : Z) : outcome rbt :=
  nz ← node t z;
  _ ← enforce (negb (parent_of nz =? 0) || (z =? root t));
  _ ← rbt_debug_check_linked t z;
  _ ← rbt_debug_validate t;
  r ← (if left nz =? 0 then
         t ← rb_transplant t z (right nz); Ok (t, color_of nz, right nz, parent_of nz)
       else if right nz =? 0 then
         t ← rb_transplant t z (left nz); Ok (t, color_of nz, left nz, parent_of nz)
       else delete_two t z);
  let '(t, y_original_color, x, x_parent) := r in
  t ← (if bool_decide (y_original_color = TREE_NODE_BLACK) then fix_deletion t x x_parent else Ok t);
  t ← set_left t z 0;
  t ← set_right t z 0;
  t ← rbt_set_parent t z 0;
  _ ← rbt_debug_validate t;
  Ok t.

Definition rbt_remove (t : rbt) (data : Z) : outcome rbt :=
  p ← rbt_search_internal t (root t) data;
  if p =? 0 then Ok t else rbt_delete t p.

(** *** Inserting *)

Definition fix_insertion_left (t : rbt) (p parent grandparent : Z) : outcome (rbt * Z) :=
  ng ← node t grandparent;
  let uncle := right ng in
  red ← is_red t uncle;
  if red : bool then
    t ← rbt_set_color t parent TREE_NODE_BLACK;
    t ← rbt_set_color t uncle TREE_NODE_BLACK;
    t ← rbt_set_color t grandparent TREE_NODE_RED;
    Ok (t, grandparent)
  else
    np ← node t parent;
    r ← (if p =? right np then
           t ← left_rotate t parent; pp ← rbt_parent t parent; Ok (t, parent, pp)
         else Ok (t, p, parent));
    let '(t, p, parent) := r in
    t ← rbt_set_color t parent TREE_NODE_BLACK;
    t ← rbt_set_color t grandparent TREE_NODE_RED;
    t ← right_rotate t grandparent;
    Ok (t, p).
Definition fix_insertion_right (t : rbt) (p parent grandparent : Z) : outcome (rbt * Z) :=
  ng ← node t grandparent;
  let uncle := left ng in
  red ← is_red t uncle;
  if red : bool then
    t ← rbt_set_color t parent TREE_NODE_BLACK;
    t ← rbt_set_color t uncle TREE_NODE_BLACK;
    t ← rbt_set_color t grandparent TREE_NODE_RED;
    Ok (t, grandparent)
  else
    np ← node t parent;
    r ← (if p =? left np then
           t ← right_rotate t parent; pp ← rbt_parent t parent; Ok (t, parent, pp)
         else Ok (t, p, parent));
    let '(t, p, parent) := r in
    t ← rbt_set_color t parent TREE_NODE_BLACK;
    t ← rbt_set_color t grandparent TREE_NODE_RED;
    t ← left_rotate t grandparent;
    Ok (t, p).
Definition fix_insertion_body (s : rbt * Z * Z) : outcome (rbt * Z * Z + rbt) :=
  let '(t, p, steps) := s in
  red ← (if p =? root t then Ok false else
         parent ← rbt_parent t p; c ← rbt_color t parent; Ok (bool_decide (c = TREE_NODE_RED)));
  if red : bool then
    steps ← rbt_debug_step steps;
    parent ← rbt_parent t p;
    grandparent ← rbt_parent t parent;
    ng ← node t grandparent;
    r ← (if parent =? left ng then fix_insertion_left t p parent grandparent
         else fix_insertion_right t p parent grandparent);
    Ok (inl (r, steps))
  else t ← rbt_set_color t (root t) TREE_NODE_BLACK; Ok (inr t).
Definition fix_insertion (t : rbt) (p : Z) : outcome rbt := loop (rounds t) fix_insertion_body (t, p, 0).

(** The walk from the root to the place of the new node: the node it hangs at
    and the last comparison. *)
Definition descend_body (t : rbt) (new_node : Z) (s : Z * Z * Z * Z) : outcome (Z * Z * Z * Z + Z * Z) :=
  let '(current, parent, cmp, steps) := s in
  if current =? 0 then Ok (inr (parent, cmp)) else
  if DEBUG_RBT && (current =? new_node) then Panic else
  steps ← rbt_debug_step steps;
  let cmp := compare new_node current in
  n ← node t current;
  Ok (inl (if cmp <? 0 then left n else right n, current, cmp, steps)).

Definition rbt_insert (t : rbt) (new_node : Z) : outcome rbt :=
  _ ← rbt_debug_validate t;
  t ← set_left t new_node 0;
  t ← set_right t new_node 0;
  t ← rbt_set_color t new_node TREE_NODE_RED;
  if root t =? 0 then
    t ← rbt_set_color t new_node TREE_NODE_BLACK;
    t ← rbt_set_parent t new_node 0;
    Ok (set_root t new_node)
  else
    r ← loop (rounds t) (descend_body t new_node) (root t, 0, 0, 0);
    let '(parent, cmp) := r in
    t ← rbt_set_parent t new_node parent;
    np ← node t parent;
    if DEBUG_LOCK_CHK && (((cmp <? 0) && negb (left np =? 0)) || ((0 <=? cmp) && negb (right np =? 0))) then Panic else
    t ← (if cmp <? 0 then set_left t parent new_node else set_right t parent new_node);
    t ← fix_insertion t new_node;
    cp ← rbt_color t parent;
    cn ← rbt_color t new_node;
    _ ← enforce (negb (bool_decide (cp = TREE_NODE_RED) && bool_decide (cn = TREE_NODE_RED)));
    _ ← rbt_debug_validate t;
    Ok t.

(** [*link = node] where [link] is the left ([side] true) or right field of the
    parent, or the root when the parent is [NULL]. *)
Definition rbt_link_node (t : rbt) (p parent : Z) (side : bool) : outcome rbt :=
  t ← rbt_set_parent t p parent;
  t ← set_left t p 0;
  t ← set_right t p 0;
  t ← rbt_set_color t p TREE_NODE_RED;
  if parent =? 0 then Ok (set_root t p) else
  if side then set_left t parent p else set_right t parent p.
Definition rbt_insert_color (t : rbt) (p : Z) : outcome rbt :=
  t ← fix_insertion t p; _ ← rbt_debug_validate t; Ok t.

Definition rbt_reinsert (t : rbt) (p : Z) : outcome (rbt * bool) :=
  v ← rbt_position_valid t p;
  if v : bool then Ok (t, false) else
  t ← rbt_delete t p;
  t ← rbt_insert t p;
  Ok (t, true).

(** Two trees whose nodes are in one memory: [rbt_move(from, to, node)]. *)
Definition rbt_move (from : rbt) (to_root : Z) (p : Z) : outcome (rbt * Z) :=
  from ← rbt_delete from p;
  to ← rbt_insert (mkRbt to_root (nodes from)) p;
  Ok (mkRbt (root from) (nodes to), root to).
End Rbt.
