(* ===== verification/RbtShape.v ===== *)
(** * The red-black tree: shapes in memory

    A functional tree of node addresses, its contexts (the path from a subtree
    up to the root), what it means that the memory holds a tree, and the
    red-black invariant of trees and of contexts.  The rotations of [Rbt.v] are
    rotations of the functional tree. *)

From S2P Require Import Prelude Rbt.

Abbreviation Red := TREE_NODE_RED.
Abbreviation Black := TREE_NODE_BLACK.

Inductive tree := E | T (c : rbt_node_color) (l : tree) (p : Z) (r : tree).
Definition addr (t : tree) : Z := match t with E => 0 | T _ _ p _ => p end.
Fixpoint elems (t : tree) : list Z :=
  match t with E => [] | T _ l p r => elems l ++ p :: elems r end.
Fixpoint height (t : tree) : nat :=
  match t with E => 0 | T _ l _ r => S (max (height l) (height r)) end.

(** One step up: the subtree is the left child of [p], or the right one. *)
Inductive frame := FL (c : rbt_node_color) (p : Z) (r : tree) | FR (c : rbt_node_color) (l : tree) (p : Z).
Abbreviation ctx := (list frame).
Definition up (f : frame) (t : tree) : tree :=
  match f with FL c p r => T c t p r | FR c l p => T c l p t end.
Definition faddr (f : frame) : Z := match f with FL _ p _ => p | FR _ _ p => p end.
Definition fcolor (f : frame) : rbt_node_color := match f with FL c _ _ => c | FR c _ _ => c end.
Definition kaddr (k : ctx) : Z := match k with [] => 0 | f :: _ => faddr f end.
Fixpoint plug (k : ctx) (t : tree) : tree := match k with [] => t | f :: k => plug k (up f t) end.
(** The nodes before and after the hole, in order. *)
Fixpoint kpre (k : ctx) : list Z :=
  match k with [] => [] | FL _ _ _ :: k => kpre k | FR _ l p :: k => kpre k ++ elems l ++ [p] end.
Fixpoint kpost (k : ctx) : list Z :=
  match k with [] => [] | FL _ p r :: k => p :: elems r ++ kpost k | FR _ _ _ :: k => kpost k end.

Definition all (k : ctx) (t : tree) : list Z := kpre k ++ elems t ++ kpost k.
Lemma all_up f k t : all k (up f t) = all (f :: k) t.
Proof. unfold all. destruct f; cbn; by rewrite <- !app_assoc. Qed.
Lemma elems_plug k : forall t, elems (plug k t) = all k t.
Proof. induction k as [|f k IH]; intros t; [unfold all; cbn; by rewrite app_nil_r|]. cbn [plug]. by rewrite IH, all_up. Qed.
Lemma plug_app k1 : forall k2 t, plug (k1 ++ k2) t = plug k2 (plug k1 t).
Proof. induction k1 as [|f k1 IH]; intros; [done|]. apply IH. Qed.

(** ** The memory *)

(** An aligned address other than [NULL]. *)
Definition ok_addr (p : Z) : Prop := 0 < p < 2 ^ 64 /\ Z.land p 1 = 0.
Definition even (p : Z) : Prop := in_u 64 p /\ Z.land p 1 = 0.
Definition cell (l r par : Z) (c : rbt_node_color) : rbt_node := mkNode l r (Z.lor par (color_bit c)).

Lemma ok_even p : ok_addr p -> even p.
Proof. intros [??]. split; [unfold in_u; lia|done]. Qed.
Lemma even_0 : even 0.
Proof. by split. Qed.
#[export] Hint Resolve ok_even even_0 : charm.

Lemma even_bit p : even p -> Z.testbit p 0 = false.
Proof.
  intros [_ He]. apply (f_equal (fun z => Z.testbit z 0)) in He.
  by rewrite Z.land_spec, andb_true_r in He.
Qed.
Lemma color_bit_range c : in_u 1 (color_bit c).
Proof. destruct c; unfold in_u; cbn; lia. Qed.
Lemma color_bit_high c i : 1 <= i -> Z.testbit (color_bit c) i = false.
Proof. intros. apply (testbit_small 1); [apply color_bit_range|lia]. Qed.
Lemma land_word_1 p c : even p -> Z.land (Z.lor p (color_bit c)) 1 = color_bit c.
Proof.
  intros He. apply Z.bits_inj'. intros i Hi. rewrite Z.land_spec, Z.lor_spec, testbit_1.
  destruct (Z.eqb_spec i 0) as [->|]; [by rewrite even_bit, andb_true_r|].
  rewrite andb_false_r. symmetry. apply color_bit_high. lia.
Qed.
Lemma land_word_hi p c : even p -> Z.land (Z.lor p (color_bit c)) (not_w 64 1) = p.
Proof.
  intros He. apply Z.bits_inj'. intros i Hi. rewrite not_w_alt, Z.land_spec, Z.lor_spec, testbit_wrap, testbit_lnot, testbit_1 by lia.
  destruct (Z.eqb_spec i 0) as [->|]; [by rewrite (even_bit p), !andb_false_r|].
  rewrite color_bit_high by lia. rewrite orb_false_r, andb_true_r. destruct (Z.ltb_spec i 64); [apply andb_true_r|].
  rewrite andb_false_r. symmetry. apply (testbit_small 64); [apply He|lia].
Qed.

Lemma parent_cell l r p c : even p -> parent_of (cell l r p c) = p.
Proof. apply land_word_hi. Qed.
Lemma color_cell l r p c : even p -> color_of (cell l r p c) = c.
Proof. intros He. unfold color_of. cbn. rewrite land_word_1 by done. by destruct c. Qed.
Lemma with_color_cell l r p c c' : even p -> with_color (cell l r p c) c' = cell l r p c'.
Proof. intros He. unfold with_color, cell. cbn. by rewrite land_word_hi. Qed.
Lemma with_parent_cell l r p c q : even p -> with_parent (cell l r p c) q = cell l r q c.
Proof. intros He. unfold with_parent, cell. cbn. rewrite land_word_1 by done. by rewrite Z.lor_comm. Qed.

(** The memory holds the tree under the parent [par], and the context around a
    subtree at the address [hole]. *)
Fixpoint rep (h : gmap Z rbt_node) (par : Z) (t : tree) : Prop :=
  match t with
  | E => True
  | T c l p r => h !! p = Some (cell (addr l) (addr r) par c) /\ rep h p l /\ rep h p r
  end.
Fixpoint krep (h : gmap Z rbt_node) (k : ctx) (hole : Z) : Prop :=
  match k with
  | [] => True
  | FL c p r :: k => h !! p = Some (cell hole (addr r) (kaddr k) c) /\ rep h p r /\ krep h k p
  | FR c l p :: k => h !! p = Some (cell (addr l) hole (kaddr k) c) /\ rep h p l /\ krep h k p
  end.
Fixpoint kroot (k : ctx) (hole : Z) : Z := match k with [] => hole | f :: k => kroot k (faddr f) end.

Record shape (st : rbt) (k : ctx) (t : tree) : Prop := mkShape {
  sh_root : root st = kroot k (addr t);
  sh_ctx : krep (nodes st) k (addr t);
  sh_tree : rep (nodes st) (kaddr k) t;
  sh_nodup : NoDup (all k t);
  sh_addr : Forall ok_addr (all k t);
}.

(** The subtree and the step above it are one subtree. *)
Lemma shape_up st f k t : shape st (f :: k) t <-> shape st k (up f t).
Proof.
  split; intros [H1 H2 H3 H4 H5]; destruct f; cbn [kroot krep kaddr faddr up addr rep] in *;
    try rewrite <- all_up in *; split; cbn [kroot krep kaddr faddr up addr rep]; try rewrite <- all_up; by (done || tauto).
Qed.
Lemma shape_plug st k : forall k' t, shape st (k ++ k') t <-> shape st k' (plug k t).
Proof. induction k as [|f k IH]; intros k' t; [done|]. cbn [app plug]. by rewrite shape_up, IH. Qed.

(** ** Distinct nodes

    That two parts of a list without duplicates are disjoint is shown by
    inclusion of multisets. *)
Lemma nd_sub (L l : list Z) : NoDup L -> l ⊆+ L -> NoDup l.
Proof. intros HL (k & Hk)%submseteq_Permutation. rewrite Hk in HL. by apply list.NoDup_app in HL as [? _]. Qed.
Lemma nd_notin (L l : list Z) x : NoDup L -> x :: l ⊆+ L -> x ∉ l.
Proof. intros HL Hs. by pose proof (nd_sub _ _ HL Hs) as [? _]%list.NoDup_cons. Qed.
Lemma nd_disj (L l1 l2 : list Z) : NoDup L -> l1 ++ l2 ⊆+ L -> forall p, p ∈ l1 -> p ∉ l2.
Proof. intros HL Hs. by pose proof (nd_sub _ _ HL Hs) as (_ & ? & _)%list.NoDup_app. Qed.
Lemma nd_ne (L : list Z) x y : NoDup L -> [x; y] ⊆+ L -> x <> y.
Proof. intros HL Hs. pose proof (nd_notin L [y] x HL Hs) as H. intros ->. apply H. by left. Qed.
Lemma sub_elem (L : list Z) x : [x] ⊆+ L -> x ∈ L.
Proof. intros Hs. eapply elem_of_submseteq; [|exact Hs]. by left. Qed.
Lemma sub_ok (L : list Z) x : Forall ok_addr L -> [x] ⊆+ L -> ok_addr x.
Proof. rewrite list.Forall_forall. intros H Hs. by apply H, sub_elem. Qed.

(** Unfold the nodes of a concrete piece of a tree and compare. *)
Ltac sub := unfold all; cbn [elems kpre kpost plug up app]; rewrite <- ?app_assoc; cbn [app]; solve_submseteq.

(** ** Changes of the memory *)

(** Only nodes of [L] change, and none comes or goes. *)
Record same_out (L : list Z) (st st' : rbt) : Prop := mkOut {
  so_out : forall p, p ∉ L -> nodes st' !! p = nodes st !! p;
  so_dom : dom (nodes st') = dom (nodes st);
}.
Lemma so_refl L st : same_out L st st.
Proof. by split. Qed.
Lemma so_trans L st1 st2 st3 : same_out L st1 st2 -> same_out L st2 st3 -> same_out L st1 st3.
Proof. intros [A1 A2] [B1 B2]. split; [|congruence]. intros p Hp. rewrite B1, A1 by done. done. Qed.
Lemma so_sub L L' st st' : L ⊆+ L' -> same_out L st st' -> same_out L' st st'.
Proof. intros Hs [A B]. split; [|done]. intros p Hp. apply A. intros Hin. by apply Hp, (elem_of_submseteq L). Qed.
#[export] Instance same_out_perm : Proper (Permutation ==> eq ==> eq ==> iff) same_out.
Proof. intros L L' HL st _ <- st' _ <-. split; apply so_sub; by rewrite HL. Qed.
Lemma so_put st p n n' : nodes st !! p = Some n -> same_out [p] st (put_node st p n').
Proof.
  intros Hp. split; cbn.
  - intros q Hq. rewrite lookup_insert_ne; [done|]. intros ->. apply Hq. by left.
  - rewrite dom_insert_L. apply elem_of_dom_2 in Hp. set_solver.
Qed.
Lemma so_root L st p : same_out L st (set_root st p).
Proof. by split. Qed.
Lemma so_rounds L st st' : same_out L st st' -> rounds st' = rounds st.
Proof. intros [_ H]. unfold rounds. by rewrite <- !size_dom, H. Qed.
#[export] Hint Resolve so_refl so_root : charm.

Lemma rep_agree h h' par t : (forall p, p ∈ elems t -> h' !! p = h !! p) -> rep h par t -> rep h' par t.
Proof.
  revert par. induction t as [|c l IHl p r IHr]; intros par Ha H; [done|]. destruct H as (Hp & Hl & Hr). cbn [elems] in Ha.
  split_and!; [rewrite Ha; [done|set_solver]|apply IHl; [|done]; intros; apply Ha; set_solver|apply IHr; [|done]; intros; apply Ha; set_solver].
Qed.
Lemma krep_agree h h' k : forall hole, (forall p, p ∈ kpre k ++ kpost k -> h' !! p = h !! p) -> krep h k hole -> krep h' k hole.
Proof.
  induction k as [|f k IH]; intros hole Ha H; [done|].
  destruct f as [c p r|c l p]; destruct H as (Hp & Ht & Hk); cbn [kpre kpost krep] in *;
    (split_and!; [rewrite Ha; [done|set_solver]|eapply rep_agree; [|done]; intros; apply Ha; set_solver|apply IH; [|done]; intros; apply Ha; set_solver]).
Qed.
Lemma rep_same L st st' par t : same_out L st st' -> (forall p, p ∈ elems t -> p ∉ L) -> rep (nodes st) par t -> rep (nodes st') par t.
Proof. intros Hs Hd. apply rep_agree. intros p Hp. by apply Hs, Hd. Qed.
Lemma krep_same L st st' k hole : same_out L st st' -> (forall p, p ∈ kpre k ++ kpost k -> p ∉ L) ->
  krep (nodes st) k hole -> krep (nodes st') k hole.
Proof. intros Hs Hd. apply krep_agree. intros p Hp. by apply Hs, Hd. Qed.

(** *** Single writes *)

Lemma ok_ne0 p : ok_addr p -> (p =? 0) = false.
Proof. intros [? _]. apply Z.eqb_neq. lia. Qed.
Lemma node_at st p n : ok_addr p -> nodes st !! p = Some n -> node st p = Ok n.
Proof. intros Hp Hn. unfold node. by rewrite ok_ne0, Hn. Qed.
Lemma set_left_at st p n v : ok_addr p -> nodes st !! p = Some n -> set_left st p v = Ok (put_node st p (mkNode v (right n) (parent_data n))).
Proof. intros Hp Hn. unfold set_left. by rewrite (node_at st p n). Qed.
Lemma set_right_at st p n v : ok_addr p -> nodes st !! p = Some n -> set_right st p v = Ok (put_node st p (mkNode (left n) v (parent_data n))).
Proof. intros Hp Hn. unfold set_right. by rewrite (node_at st p n). Qed.
Lemma parent_at st p l r par c : ok_addr p -> even par -> nodes st !! p = Some (cell l r par c) -> rbt_parent st p = Ok par.
Proof. intros Hp He Hn. unfold rbt_parent. rewrite (node_at st p _ Hp Hn), bind_Ok. by rewrite parent_cell. Qed.
Lemma color_at st p l r par c : ok_addr p -> even par -> nodes st !! p = Some (cell l r par c) -> rbt_color st p = Ok c.
Proof. intros Hp He Hn. unfold rbt_color. rewrite (node_at st p _ Hp Hn), bind_Ok. by rewrite color_cell. Qed.
Lemma set_color_at st p l r par c c' : ok_addr p -> even par -> nodes st !! p = Some (cell l r par c) ->
  rbt_set_color st p c' = Ok (put_node st p (cell l r par c')).
Proof. intros Hp He Hn. unfold rbt_set_color. rewrite (node_at st p _ Hp Hn), bind_Ok. by rewrite with_color_cell. Qed.
Lemma set_parent_at st p l r par c q : ok_addr p -> even par -> even q -> nodes st !! p = Some (cell l r par c) ->
  rbt_set_parent st p q = Ok (put_node st p (cell l r q c)).
Proof.
  intros Hp He [_ Hq] Hn. unfold rbt_set_parent. rewrite Hq. cbn [Z.eqb enforce]. rewrite bind_Ok, (node_at st p _ Hp Hn), bind_Ok.
  by rewrite with_parent_cell.
Qed.

Lemma kaddr_even k : Forall ok_addr (kpre k ++ kpost k) -> even (kaddr k).
Proof.
  destruct k as [|[]]; cbn [kaddr faddr kpre kpost]; intros H; [apply even_0|apply ok_even..];
    (eapply sub_ok; [exact H|]; sub).
Qed.

(** A subtree gets a new parent. *)
Lemma reparent st par t q : rep (nodes st) par t -> NoDup (elems t) -> Forall ok_addr (elems t) -> even par -> even q ->
  exists st', set_parent_if st (addr t) q = Ok st' /\ root st' = root st /\ rep (nodes st') q t /\ same_out (elems t) st st'.
Proof.
  intros Hr Hn Ho He Hq. destruct t as [|c l p r]; [exists st; by auto using so_refl|]. destruct Hr as (Hp & Hl & Hr). cbn [addr elems] in *.
  assert (Hok : ok_addr p) by (eapply sub_ok; [exact Ho|sub]). unfold set_parent_if. rewrite ok_ne0 by done.
  rewrite (set_parent_at st p _ _ _ _ q Hok He Hq Hp). eexists. split; [done|].
  pose proof (so_put st p _ (cell (addr l) (addr r) q c) Hp) as Hs. split_and!; [done| |eapply so_sub; [|exact Hs]; sub].
  cbn [rep]. split_and!; [by cbn; rewrite lookup_insert_eq|..]; (eapply rep_same; [exact Hs| |done]; eapply nd_disj; [exact Hn|sub]).
Qed.

Lemma addr_in t : addr t = 0 \/ addr t ∈ elems t.
Proof. destruct t; [by left|right]. cbn. set_solver. Qed.
Lemma addr_ne u t : ok_addr u -> u ∉ elems t -> (u =? addr t) = false.
Proof. intros [? _] Hn. apply Z.eqb_neq. intros ->. destruct (addr_in t) as [?|?]; [lia|done]. Qed.

(** The link from the step above to the subtree is changed. *)
Lemma relink st k u v : krep (nodes st) k u -> root st = kroot k u -> ok_addr u ->
  NoDup (u :: kpre k ++ kpost k) -> Forall ok_addr (kpre k ++ kpost k) ->
  exists st', krep (nodes st') k v /\ root st' = kroot k v /\ same_out (kpre k ++ kpost k) st st' /\
    (if kaddr k =? 0 then Ok (set_root st v) else
     n ← node st (kaddr k); if u =? left n then set_left st (kaddr k) v else set_right st (kaddr k) v) = Ok st' /\
    (if kaddr k =? 0 then Ok (set_root st v) else
     n ← node st (kaddr k); if u =? right n then set_right st (kaddr k) v else set_left st (kaddr k) v) = Ok st'.
Proof.
  intros Hk Hroot Hu Hn Ho. destruct k as [|[c p r|c l p] k]; cbn [kaddr faddr kpre kpost kroot krep] in *.
  - exists (set_root st v). by split_and!; auto with charm.
  - destruct Hk as (Hp & Hr & Hk). assert (Hok : ok_addr p) by (eapply sub_ok; [exact Ho|sub]).
    pose proof (so_put st p _ (cell v (addr r) (kaddr k) c) Hp) as Hs. exists (put_node st p (cell v (addr r) (kaddr k) c)).
    rewrite ok_ne0, (node_at st p _ Hok Hp), !bind_Ok by done. cbn [left right cell]. rewrite Z.eqb_refl.
    rewrite addr_ne by (done || (eapply nd_notin; [exact Hn|sub])). rewrite (set_left_at st p _ v Hok Hp). split_and!; try done.
    + by cbn; rewrite lookup_insert_eq.
    + eapply rep_same; [exact Hs| |done]. eapply nd_disj; [exact Hn|sub].
    + eapply krep_same; [exact Hs| |done]. eapply nd_disj; [exact Hn|sub].
    + eapply so_sub; [|exact Hs]. sub.
  - destruct Hk as (Hp & Hr & Hk). assert (Hok : ok_addr p) by (eapply sub_ok; [exact Ho|sub]).
    pose proof (so_put st p _ (cell (addr l) v (kaddr k) c) Hp) as Hs. exists (put_node st p (cell (addr l) v (kaddr k) c)).
    rewrite ok_ne0, (node_at st p _ Hok Hp), !bind_Ok by done. cbn [left right cell]. rewrite Z.eqb_refl.
    rewrite addr_ne by (done || (eapply nd_notin; [exact Hn|sub])). rewrite (set_right_at st p _ v Hok Hp). split_and!; try done.
    + by cbn; rewrite lookup_insert_eq.
    + eapply rep_same; [exact Hs| |done]. eapply nd_disj; [exact Hn|sub].
    + eapply krep_same; [exact Hs| |done]. eapply nd_disj; [exact Hn|sub].
    + eapply so_sub; [|exact Hs]. sub.
Qed.

Lemma all_perm k t : all k t ≡ₚ elems t ++ kpre k ++ kpost k.
Proof. unfold all. rewrite (Permutation_app_comm (elems t) (kpost k)), app_assoc. apply Permutation_app_comm. Qed.

Lemma sub_oks (L l : list Z) : Forall ok_addr L -> l ⊆+ L -> Forall ok_addr l.
Proof. rewrite !list.Forall_forall. intros H Hs p Hp. apply H. by eapply elem_of_submseteq. Qed.

(** Separation: what follows from distinct and aligned nodes of the tree. *)
Ltac sep := solve [
  done |
  match goal with
  | HN : NoDup _ |- NoDup _ => eapply nd_sub; [exact HN|sub]
  | HN : NoDup _ |- _ ∉ _ => eapply nd_notin; [exact HN|sub]
  | HN : NoDup _ |- _ <> _ => eapply nd_ne; [exact HN|sub]
  | HN : NoDup _ |- forall p, p ∈ _ -> p ∉ _ => eapply nd_disj; [exact HN|sub]
  | HO : Forall ok_addr _ |- ok_addr _ => eapply sub_ok; [exact HO|sub]
  | HO : Forall ok_addr _ |- Forall ok_addr _ => eapply sub_oks; [exact HO|sub]
  | HO : Forall ok_addr _ |- even (kaddr _) => apply kaddr_even; eapply sub_oks; [exact HO|sub]
  | HO : Forall ok_addr _ |- even _ => apply ok_even; eapply sub_ok; [exact HO|sub]
  end ].
(** A piece of the tree is the same after some changes elsewhere; each change is
    given by its [same_out]. *)
Ltac keep := solve [ done | repeat first [ done
  | match goal with H : same_out _ _ ?st |- rep (nodes ?st) _ _ => eapply rep_same; [exact H|sep|] end
  | match goal with H : same_out _ _ ?st |- krep (nodes ?st) _ _ => eapply krep_same; [exact H|sep|] end
  | match goal with H : same_out _ _ ?st |- nodes ?st !! _ = _ => rewrite (so_out _ _ _ H) by sep end
  | match goal with |- nodes (put_node _ ?p _) !! ?p = _ => cbn; rewrite lookup_insert_eq end ] ].
(** The changes together stay within the tree. *)
Ltac within := solve [ repeat first [ apply so_refl
  | match goal with H : same_out _ _ ?st |- same_out _ _ ?st => eapply so_trans; [|eapply so_sub; [|exact H]; sub] end ] ].

(** ** Rotations *)

Lemma all_rotate k c cy a x b y d : all k (T cy (T c a x b) y d) = all k (T c a x (T cy b y d)).
Proof. unfold all. cbn. by rewrite <- (app_assoc (elems a)). Qed.
Lemma left_rotate_shape st k c a x cy b y d : shape st k (T c a x (T cy b y d)) ->
  exists st', left_rotate st x = Ok st' /\ shape st' k (T cy (T c a x b) y d) /\ same_out (all k (T c a x (T cy b y d))) st st'.
Proof.
  intros [Hroot Hk (Hx & Ha & Hy & Hb & Hd) HN HO]. cbn [addr] in *.
  unfold left_rotate. rewrite (node_at st x _ ltac:(sep) Hx), bind_Ok. cbv zeta. cbn [right cell].
  rewrite (node_at st y _ ltac:(sep) Hy), bind_Ok, (set_right_at st x _ _ ltac:(sep) Hx), bind_Ok. cbn [left right parent_data cell]. fold (cell (addr a) (addr b) (kaddr k) c).
  pose proof (so_put st x _ (cell (addr a) (addr b) (kaddr k) c) Hx) as S1.
  set (n1 := cell (addr a) (addr b) (kaddr k) c) in *. set (st1 := put_node st x n1) in *.
  destruct (reparent st1 y b x) as (st2 & -> & R2 & Hb2 & S2); [keep|sep..|]. rewrite bind_Ok.
  assert (Hx2 : nodes st2 !! x = Some n1) by (rewrite (so_out _ _ _ S2) by sep; cbn; by rewrite lookup_insert_eq).
  rewrite (parent_at st2 x _ _ (kaddr k) c ltac:(sep) ltac:(sep) Hx2), bind_Ok.
  assert (Hy2 : nodes st2 !! y = Some (cell (addr b) (addr d) x cy)) by keep.
  rewrite (set_parent_at st2 y _ _ x _ (kaddr k) ltac:(sep) ltac:(sep) ltac:(sep) Hy2), bind_Ok.
  pose proof (so_put st2 y _ (cell (addr b) (addr d) (kaddr k) cy) Hy2) as S3. set (st3 := put_node st2 y _) in *.
  destruct (relink st3 k x y) as (st4 & Hk4 & R4 & S4 & E4 & _); [keep|cbn; by rewrite R2|sep..|]. rewrite E4, bind_Ok.
  assert (Hy4 : nodes st4 !! y = Some (cell (addr b) (addr d) (kaddr k) cy)) by (rewrite (so_out _ _ _ S4) by sep; cbn; by rewrite lookup_insert_eq).
  rewrite (set_left_at st4 y _ _ ltac:(sep) Hy4), bind_Ok. cbn [right parent_data cell]. fold (cell x (addr d) (kaddr k) cy).
  pose proof (so_put st4 y _ (cell x (addr d) (kaddr k) cy) Hy4) as S5. set (st5 := put_node st4 y _) in *.
  assert (Hx5 : nodes st5 !! x = Some n1) by (rewrite (so_out _ _ _ S5), (so_out _ _ _ S4), (so_out _ _ _ S3) by sep; done).
  rewrite (set_parent_at st5 x _ _ (kaddr k) _ y ltac:(sep) ltac:(sep) ltac:(sep) Hx5). pose proof (so_put st5 x _ (cell (addr a) (addr b) y c) Hx5) as S6.
  set (st6 := put_node st5 x _) in *. exists st6. split; [done|]. split; [|within].
  split; [done|keep| |by rewrite all_rotate..]. cbn [rep addr].
  split_and!; [rewrite (so_out _ _ _ S6) by sep|cbn| | |]; [cbn; by rewrite lookup_insert_eq..|keep|keep|keep].
Qed.

Lemma right_rotate_shape st k c cx a x b y d : shape st k (T c (T cx a x b) y d) ->
  exists st', right_rotate st y = Ok st' /\ shape st' k (T cx a x (T c b y d)) /\ same_out (all k (T c (T cx a x b) y d)) st st'.
Proof.
  intros [Hroot Hk (Hy & (Hx & Ha & Hb) & Hd) HN HO]. cbn [addr] in *.
  unfold right_rotate. rewrite (node_at st y _ ltac:(sep) Hy), bind_Ok. cbv zeta. cbn [left cell].
  rewrite (node_at st x _ ltac:(sep) Hx), bind_Ok, (set_left_at st y _ _ ltac:(sep) Hy), bind_Ok. cbn [left right parent_data cell]. fold (cell (addr b) (addr d) (kaddr k) c).
  pose proof (so_put st y _ (cell (addr b) (addr d) (kaddr k) c) Hy) as S1.
  set (n1 := cell (addr b) (addr d) (kaddr k) c) in *. set (st1 := put_node st y n1) in *.
  destruct (reparent st1 x b y) as (st2 & -> & R2 & Hb2 & S2); [keep|sep..|]. rewrite bind_Ok.
  assert (Hy2 : nodes st2 !! y = Some n1) by (rewrite (so_out _ _ _ S2) by sep; cbn; by rewrite lookup_insert_eq).
  rewrite (parent_at st2 y _ _ (kaddr k) c ltac:(sep) ltac:(sep) Hy2), bind_Ok.
  assert (Hx2 : nodes st2 !! x = Some (cell (addr a) (addr b) y cx)) by keep.
  rewrite (set_parent_at st2 x _ _ y _ (kaddr k) ltac:(sep) ltac:(sep) ltac:(sep) Hx2), bind_Ok.
  pose proof (so_put st2 x _ (cell (addr a) (addr b) (kaddr k) cx) Hx2) as S3. set (st3 := put_node st2 x _) in *.
  destruct (relink st3 k y x) as (st4 & Hk4 & R4 & S4 & _ & E4); [keep|cbn; by rewrite R2|sep..|]. rewrite E4, bind_Ok.
  assert (Hx4 : nodes st4 !! x = Some (cell (addr a) (addr b) (kaddr k) cx)) by (rewrite (so_out _ _ _ S4) by sep; cbn; by rewrite lookup_insert_eq).
  rewrite (set_right_at st4 x _ _ ltac:(sep) Hx4), bind_Ok. cbn [left parent_data cell]. fold (cell (addr a) y (kaddr k) cx).
  pose proof (so_put st4 x _ (cell (addr a) y (kaddr k) cx) Hx4) as S5. set (st5 := put_node st4 x _) in *.
  assert (Hy5 : nodes st5 !! y = Some n1) by (rewrite (so_out _ _ _ S5), (so_out _ _ _ S4), (so_out _ _ _ S3) by sep; done).
  rewrite (set_parent_at st5 y _ _ (kaddr k) _ x ltac:(sep) ltac:(sep) ltac:(sep) Hy5). pose proof (so_put st5 y _ (cell (addr b) (addr d) x c) Hy5) as S6.
  set (st6 := put_node st5 y _) in *. exists st6. split; [done|]. split; [|within].
  split; [done|keep| |by rewrite <- all_rotate with (cy := c)..]. cbn [rep addr].
  split_and!; [rewrite (so_out _ _ _ S6) by sep| |cbn| |]; [cbn; by rewrite lookup_insert_eq|keep|by rewrite lookup_insert_eq|keep|keep].
Qed.

(** ** The same inside a subtree

    [kp] is the path from the subtree to the place of the change. *)

Lemma all_plug kp k t : all k (plug kp t) = all (kp ++ k) t.
Proof. by rewrite <- !elems_plug, plug_app. Qed.
Lemma left_rotate_at kp st k c a x cy b y d : shape st k (plug kp (T c a x (T cy b y d))) ->
  exists st', left_rotate st x = Ok st' /\ shape st' k (plug kp (T cy (T c a x b) y d)) /\ same_out (all k (plug kp (T c a x (T cy b y d)))) st st'.
Proof. rewrite <- shape_plug, all_plug. intros (st' & ? & ? & ?)%left_rotate_shape. exists st'. by rewrite <- shape_plug. Qed.
Lemma right_rotate_at kp st k c cx a x b y d : shape st k (plug kp (T c (T cx a x b) y d)) ->
  exists st', right_rotate st y = Ok st' /\ shape st' k (plug kp (T cx a x (T c b y d))) /\ same_out (all k (plug kp (T c (T cx a x b) y d))) st st'.
Proof. rewrite <- shape_plug, all_plug. intros (st' & ? & ? & ?)%right_rotate_shape. exists st'. by rewrite <- shape_plug. Qed.

Lemma node_shape kp st k c l p r : shape st k (plug kp (T c l p r)) -> let par := kaddr (kp ++ k) in
  ok_addr p /\ even par /\ nodes st !! p = Some (cell (addr l) (addr r) par c).
Proof. rewrite <- shape_plug. intros [_ _ (Hp & _) HN HO]. split_and!; [sep|sep|done]. Qed.
Lemma set_color_at_path kp st k c l p r c' : shape st k (plug kp (T c l p r)) ->
  exists st', rbt_set_color st p c' = Ok st' /\ shape st' k (plug kp (T c' l p r)) /\ same_out (all k (plug kp (T c l p r))) st st'.
Proof.
  intros H. destruct (node_shape kp st k c l p r H) as (Hp & He & Hn). rewrite (set_color_at st p _ _ _ _ c' Hp He Hn). eexists. split; [done|].
  rewrite <- shape_plug in *. rewrite all_plug. destruct H as [Hr Hk (_ & Hl & Hrr) HN HO]. pose proof (so_put st p _ (cell (addr l) (addr r) (kaddr (kp ++ k)) c') Hn) as S1.
  split; [|within]. split; [done|keep| |done|done]. cbn [rep]. split_and!; [cbn; by rewrite lookup_insert_eq|keep|keep].
Qed.

(** ** Replacing a subtree *)

Lemma transplant_rep st k z zl zr c v q : krep (nodes st) k z -> root st = kroot k z -> nodes st !! z = Some (cell zl zr (kaddr k) c) ->
  rep (nodes st) q v -> even q -> NoDup (z :: elems v ++ kpre k ++ kpost k) -> Forall ok_addr (z :: elems v ++ kpre k ++ kpost k) ->
  exists st', rb_transplant st z (addr v) = Ok st' /\ krep (nodes st') k (addr v) /\ root st' = kroot k (addr v) /\
    rep (nodes st') (kaddr k) v /\ same_out (elems v ++ kpre k ++ kpost k) st st'.
Proof.
  intros Hk Hr Hz Hv Hq HN HO. unfold rb_transplant. rewrite (parent_at st z _ _ (kaddr k) c ltac:(sep) ltac:(sep) Hz), bind_Ok.
  destruct (relink st k z (addr v)) as (st1 & Hk1 & R1 & S1 & -> & _); [done|done|sep..|]. rewrite bind_Ok.
  destruct (reparent st1 q v (kaddr k)) as (st2 & E2 & R2 & Hv2 & S2); [keep|sep|sep|done|sep|].
  unfold set_parent_if in E2. exists st2. split_and!; [done|keep|congruence|done|within].
Qed.

(** The orphan [y] with the right subtree [r] takes the place of [z], and the
    left subtree and the colour of [z]: the end of [delete_two]. *)
Lemma splice_rep st k c l z zr cy y r q : krep (nodes st) k z -> root st = kroot k z -> nodes st !! z = Some (cell (addr l) zr (kaddr k) c) ->
  rep (nodes st) z l -> rep (nodes st) q (T cy E y r) -> even q ->
  NoDup (z :: elems l ++ y :: elems r ++ kpre k ++ kpost k) -> Forall ok_addr (z :: elems l ++ y :: elems r ++ kpre k ++ kpost k) ->
  exists st', (t ← rb_transplant st z y; nz ← node t z; t ← set_left t y (left nz); t ← set_parent_if t (left nz) y;
    c ← rbt_color t z; rbt_set_color t y c) = Ok st' /\ shape st' k (T c l y r) /\
    same_out (elems l ++ y :: elems r ++ kpre k ++ kpost k) st st'.
Proof.
  intros Hk Hr Hz Hl Hy Hq HN HO.
  destruct (transplant_rep st k z (addr l) zr c (T cy E y r) q) as (st1 & E1 & Hk1 & R1 & (Hy1 & _ & Hr1) & S1); try done; [sep|sep|].
  cbn [addr] in E1, Hk1, R1, Hy1. rewrite E1, bind_Ok. assert (Hz1 : nodes st1 !! z = Some (cell (addr l) zr (kaddr k) c)) by keep.
  rewrite (node_at st1 z _ ltac:(sep) Hz1), bind_Ok. cbn [left cell]. rewrite (set_left_at st1 y _ _ ltac:(sep) Hy1), bind_Ok.
  cbn [right parent_data cell]. fold (cell (addr l) (addr r) (kaddr k) cy).
  pose proof (so_put st1 y _ (cell (addr l) (addr r) (kaddr k) cy) Hy1) as S2. set (st2 := put_node st1 y _) in *.
  destruct (reparent st2 z l y) as (st3 & E3 & R3 & Hl3 & S3); [keep|sep..|]. rewrite E3, bind_Ok.
  assert (Hz3 : nodes st3 !! z = Some (cell (addr l) zr (kaddr k) c)) by keep.
  rewrite (color_at st3 z _ _ (kaddr k) c ltac:(sep) ltac:(sep) Hz3), bind_Ok.
  assert (Hy3 : nodes st3 !! y = Some (cell (addr l) (addr r) (kaddr k) cy)) by (rewrite (so_out _ _ _ S3) by sep; cbn; by rewrite lookup_insert_eq).
  rewrite (set_color_at st3 y _ _ (kaddr k) cy c ltac:(sep) ltac:(sep) Hy3). pose proof (so_put st3 y _ (cell (addr l) (addr r) (kaddr k) c) Hy3) as S4.
  eexists. split; [done|]. split; [|within]. split; [cbn; by rewrite R3|keep| |sep|sep].
  cbn [rep addr]. split_and!; [cbn; by rewrite lookup_insert_eq|keep|keep].
Qed.
