(* ===== verification/RbtInv.v ===== *)
(** * The red-black invariant

    The invariant of trees and of contexts, the bound on the height that follows
    from it, and what the walks and the checks of the debug builds do on a tree
    that has it. *)

From S2P Require Import Prelude Rbt RbtShape.

Definition tcolor (t : tree) : rbt_node_color := match t with E => Black | T c _ _ _ => c end.
(** No red node has a red child, and there are [n] black nodes on every path. *)
Inductive rb : tree -> nat -> Prop :=
  | rb_E : rb E 0
  | rb_R l p r n : rb l n -> rb r n -> tcolor l = Black -> tcolor r = Black -> rb (T Red l p r) n
  | rb_B l p r n : rb l n -> rb r n -> rb (T Black l p r) (S n).

Definition fsib (f : frame) : tree := match f with FL _ _ r => r | FR _ l _ => l end.
Definition kcolor (k : ctx) : rbt_node_color := match k with [] => Black | f :: _ => fcolor f end.
(** The same of the context of a subtree with [n] black nodes on every path. *)
Inductive rbk : ctx -> nat -> Prop :=
  | rbk_nil n : rbk [] n
  | rbk_red f g k n : fcolor f = Red -> fcolor g = Black -> rb (fsib f) n -> tcolor (fsib f) = Black -> rbk (g :: k) n -> rbk (f :: g :: k) n
  | rbk_black f k n : fcolor f = Black -> rb (fsib f) n -> rbk k (S n) -> rbk (f :: k) n.

(** A red-black tree: the invariant, and a black root. *)
Definition redblack (t : tree) : Prop := tcolor t = Black /\ exists n, rb t n.

Lemma rb_up f t n : rb (up f t) n -> (fcolor f = Red /\ tcolor t = Black /\ tcolor (fsib f) = Black /\ rb t n /\ rb (fsib f) n) \/
  (fcolor f = Black /\ exists m, n = S m /\ rb t m /\ rb (fsib f) m).
Proof. destruct f; cbn; inversion 1; subst; [left|right|left|right]; eauto 10. Qed.
Lemma up_rb_red f t n : fcolor f = Red -> tcolor t = Black -> tcolor (fsib f) = Black -> rb t n -> rb (fsib f) n -> rb (up f t) n.
Proof. destruct f; cbn; intros ->; by constructor. Qed.
Lemma up_rb_black f t n : fcolor f = Black -> rb t n -> rb (fsib f) n -> rb (up f t) (S n).
Proof. destruct f; cbn; intros ->; by constructor. Qed.
Lemma tcolor_up f t : tcolor (up f t) = fcolor f.
Proof. by destruct f. Qed.

Lemma rb_split k : forall t, redblack (plug k t) -> exists n, rbk k n /\ rb t n /\ (kcolor k = Red -> tcolor t = Black) /\ (k = [] -> tcolor t = Black).
Proof.
  induction k as [|f k IH]; intros t H.
  - destruct H as (Hc & n & Hn). exists n. split_and!; [constructor|done|done|done].
  - cbn [plug] in H. destruct (IH (up f t) H) as (n & Hk & Ht & Hc & Hnil). rewrite tcolor_up in Hc, Hnil.
    destruct (rb_up f t n Ht) as [(Hf & Hct & Hcs & Hrt & Hrs)|(Hf & m & -> & Hrt & Hrs)].
    + exists n. split_and!; [|done|done|done]. destruct k as [|g k]; [rewrite Hnil in Hf; done|].
      constructor; try done. destruct (fcolor g) eqn:Eg; [|done]. cbn in Hc. rewrite (Hc Eg) in Hf. done.
    + exists m. split_and!; [by constructor|done| |done]. cbn. by rewrite Hf.
Qed.
Lemma rb_join k : forall n t, rbk k n -> rb t n -> (kcolor k = Red -> tcolor t = Black) -> (k = [] -> tcolor t = Black) -> redblack (plug k t).
Proof.
  induction k as [|f k IH]; intros n t Hk Ht Hc Hn; [split; eauto|]. cbn [plug]. inversion Hk; subst.
  - apply (IH n); [done|by apply up_rb_red; auto|rewrite tcolor_up; cbn; congruence|done].
  - apply (IH (S n)); [done|by apply up_rb_black|by rewrite tcolor_up|by rewrite tcolor_up].
Qed.

(** ** The height *)

Lemma rb_size t n : rb t n -> 2 ^ Z.of_nat n <= Z.of_nat (length (elems t)) + 1.
Proof.
  induction 1; cbn [elems length]; rewrite ?length_app; cbn [length]; [done|lia|]. rewrite Nat2Z.inj_succ, Z.pow_succ_r by lia. lia.
Qed.
Lemma rb_height t n : rb t n -> (height t <= 2 * n + match tcolor t with Red => 1 | Black => 0 end)%nat.
Proof. induction 1 as [|l p r n ? IHl ? IHr Hl Hr|l p r n ? IHl ? IHr]; cbn; [lia| |]; [rewrite Hl in IHl; rewrite Hr in IHr|]; repeat case_match; lia. Qed.

Lemma bounded_length (l : list Z) N : NoDup l -> (forall x, x ∈ l -> 0 <= x < N) -> Z.of_nat (length l) <= Z.max 0 N.
Proof.
  intros Hn Hb. assert (Hs : l ⊆+ seqZ 0 N) by (apply NoDup_submseteq; [done|]; intros x Hx; apply elem_of_seqZ; by apply Hb in Hx).
  apply submseteq_length in Hs. rewrite length_seqZ in Hs. lia.
Qed.
Lemma even_double p : Z.land p 1 = 0 -> p = 2 * (p `div` 2).
Proof. change 1 with (Z.ones 1). rewrite Z.land_ones by lia. intros H. pose proof (Z.div_mod p 2). change (2 ^ 1) with 2 in H. lia. Qed.
Lemma addr_count (l : list Z) : NoDup l -> Forall ok_addr l -> Z.of_nat (length l) < 2 ^ 63.
Proof.
  intros Hn Ho. rewrite list.Forall_forall in Ho.
  assert (Hl : Z.of_nat (length ((fun p => p `div` 2 - 1) <$> l)) <= Z.max 0 (2 ^ 63 - 1)).
  { apply bounded_length.
    - apply NoDup_fmap_2_strong; [|done]. intros x y Hx Hy Hxy. cbv beta in Hxy. destruct (Ho x Hx) as [_ ?%even_double], (Ho y Hy) as [_ ?%even_double]. lia.
    - intros q (p & -> & Hp)%list_elem_of_fmap. destruct (Ho p Hp) as [? He%even_double]. lia. }
  rewrite length_fmap in Hl. lia.
Qed.

(** A red-black tree of aligned 64-bit addresses is less than 128 high. *)
Lemma height_bound t : redblack t -> NoDup (elems t) -> Forall ok_addr (elems t) -> (height t < 128)%nat.
Proof.
  intros (Hc & n & Hr) Hn Ho. pose proof (rb_height t n Hr) as Hh. rewrite Hc in Hh. pose proof (rb_size t n Hr). pose proof (addr_count _ Hn Ho).
  assert (Z.of_nat n < 64); [|lia]. destruct (decide (Z.of_nat n < 64)); [done|].
  assert (2 ^ 64 <= 2 ^ Z.of_nat n) by (apply Z.pow_le_mono_r; lia). lia.
Qed.
Lemma height_plug k : forall t, (length k + height t <= height (plug k t))%nat.
Proof. induction k as [|f k IH]; intros t; [cbn; lia|]. cbn [plug length]. specialize (IH (up f t)). destruct f; cbn [up height] in *; lia. Qed.
Lemma height_elems t : (height t <= length (elems t))%nat.
Proof. induction t; cbn; [lia|]. rewrite length_app. cbn. lia. Qed.

(** The nodes of the tree are in memory, so there are rounds enough. *)
Lemma rep_dom h par t p : rep h par t -> p ∈ elems t -> p ∈ dom h.
Proof.
  revert par. induction t as [|c l IHl q r IHr]; intros par Hr Hp; [by apply elem_of_nil in Hp|]. destruct Hr as (Hq & Hl & Hr). cbn in Hp.
  apply elem_of_app in Hp as [Hp|[->|Hp]%elem_of_cons]; [by eapply IHl|by eapply elem_of_dom_2|by eapply IHr].
Qed.
Lemma shape_rounds st k t : shape st k t -> (length (all k t) < rounds st)%nat.
Proof.
  intros H. rewrite <- (app_nil_r k) in H. apply shape_plug in H as [_ _ Hr Hn _]. rewrite <- elems_plug. unfold all in Hn. cbn in Hn. rewrite app_nil_r in Hn.
  unfold rounds. rewrite <- size_dom. assert (Hs : list_to_set (elems (plug k t)) ⊆ dom (nodes st)).
  { intros p Hp%elem_of_list_to_set. by eapply rep_dom. }
  apply subseteq_size in Hs. rewrite size_list_to_set in Hs by done. lia.
Qed.

(** A red-black tree in memory. *)
Definition holds (st : rbt) (t : tree) : Prop := shape st [] t /\ redblack t.
Lemma holds_depth st k t : shape st k t -> redblack (plug k t) -> (length k + height t < 128)%nat.
Proof.
  intros H Hr. rewrite <- (app_nil_r k) in H. apply shape_plug in H as [_ _ _ Hn Ho]. unfold all in Hn, Ho. cbn in Hn, Ho. rewrite app_nil_r in Hn, Ho.
  pose proof (height_bound _ Hr Hn Ho). pose proof (height_plug k t). lia.
Qed.
Lemma holds_rounds st k t : shape st k t -> (length k + height t < rounds st)%nat.
Proof.
  intros H. pose proof (shape_rounds st k t H). rewrite <- elems_plug in *. pose proof (height_elems (plug k t)). pose proof (height_plug k t). lia.
Qed.

(** ** The checks *)

Section Checks.
Context (DEBUG_RBT DEBUG_RBT_DEEP : bool).

Lemma debug_step_ok steps : 0 <= steps < 128 -> exists steps', rbt_debug_step DEBUG_RBT steps = Ok steps' /\ 0 <= steps' <= steps + 1.
Proof.
  intros Hs. unfold rbt_debug_step. destruct DEBUG_RBT; [|exists steps; split; [done|lia]].
  rewrite wrap_small by (unfold in_u; lia). cbv zeta. rewrite (proj2 (Z.ltb_ge _ _)) by (unfold RBT_DEBUG_MAX_DEPTH; lia). eexists. split; [done|lia].
Qed.

Lemma is_red_at st par t : rep (nodes st) par t -> Forall ok_addr (elems t) -> even par -> is_red st (addr t) = Ok (bool_decide (tcolor t = Red)).
Proof.
  intros Hr Ho He. destruct t as [|c l p r]; [done|]. destruct Hr as (Hp & _). unfold is_red. cbn [addr].
  assert (Hok : ok_addr p) by sep. by rewrite ok_ne0, (color_at st p _ _ par c Hok He Hp).
Qed.
Lemma is_black_at st par t : rep (nodes st) par t -> Forall ok_addr (elems t) -> even par -> rbt_is_black st (addr t) = Ok (bool_decide (tcolor t = Black)).
Proof.
  intros Hr Ho He. destruct t as [|c l p r]; [done|]. destruct Hr as (Hp & _). unfold rbt_is_black. cbn [addr].
  assert (Hok : ok_addr p) by sep. by rewrite ok_ne0, (color_at st p _ _ par c Hok He Hp).
Qed.
Lemma misparented_at st par t : rep (nodes st) par t -> Forall ok_addr (elems t) -> even par -> misparented st (addr t) par = Ok false.
Proof.
  intros Hr Ho He. destruct t as [|c l p r]; [done|]. destruct Hr as (Hp & _). unfold misparented. cbn [addr].
  assert (Hok : ok_addr p) by sep. rewrite ok_ne0, (parent_at st p _ _ par c Hok He Hp) by done. cbn. by rewrite Z.eqb_refl.
Qed.

Lemma validate_ok st : forall t fuel par n depth, rep (nodes st) par t -> NoDup (elems t) -> Forall ok_addr (elems t) -> even par -> rb t n ->
  (height t < fuel)%nat -> 0 <= depth -> depth + Z.of_nat (height t) <= 128 -> Z.of_nat n < 2 ^ 32 ->
  validate_subtree fuel st (addr t) depth = Ok (Z.of_nat n + 1).
Proof.
  induction t as [|c l IHl p r IHr]; intros fuel par n depth Hr HN HO He Hrb Hf Hd Hb Hn; (destruct fuel as [|fuel]; [lia|]); cbn [validate_subtree addr].
  { by inversion Hrb. }
  destruct Hr as (Hp & Hl & Hr). cbn [height elems] in *. assert (Hok : ok_addr p) by sep. rewrite ok_ne0 by done.
  rewrite (proj2 (Z.ltb_ge _ _)) by (unfold RBT_DEBUG_MAX_DEPTH; lia). rewrite (node_at st p _ Hok Hp), bind_Ok. cbn [left right cell].
  assert (Hne : negb (addr l =? 0) && (addr l =? addr r) = false).
  { destruct (addr_in l) as [E0|Hin]; [by rewrite E0|]. apply andb_false_intro2. apply addr_ne; [rewrite list.Forall_forall in HO; apply HO; set_solver|].
    revert Hin. generalize (addr l). assert (Hd' : forall q, q ∈ elems l -> q ∉ elems r) by sep. exact Hd'. }
  rewrite Hne, (misparented_at st p l), bind_Ok by (done || sep). rewrite (misparented_at st p r), bind_Ok by (done || sep).
  change (mkNode _ _ _) with (cell (addr l) (addr r) par c). rewrite color_cell by done.
  assert (Hrr : (if bool_decide (c = Red) then rl ← is_red st (addr l); if rl : bool then Ok true else is_red st (addr r) else Ok false) = Ok false).
  { destruct c; [|done]. cbn. rewrite (is_red_at st p l), bind_Ok, (is_red_at st p r) by (done || sep). inversion Hrb; subst.
    by rewrite (bool_decide_eq_false_2 (tcolor l = Red)), (bool_decide_eq_false_2 (tcolor r = Red)) by congruence. }
  rewrite Hrr, bind_Ok. inversion Hrb; subst.
  - rewrite (IHl fuel p n (depth + 1)), bind_Ok, (IHr fuel p n (depth + 1)), bind_Ok by (done || lia || sep). rewrite Z.eqb_refl. cbn.
    rewrite Z.add_0_r, wrap_small by (unfold in_u; lia). done.
  - rewrite (IHl fuel p n0 (depth + 1)), bind_Ok, (IHr fuel p n0 (depth + 1)), bind_Ok by (done || lia || sep). rewrite Z.eqb_refl. cbn [negb bool_decide decide].
    rewrite bool_decide_true, wrap_small by (done || unfold in_u; lia). f_equal. lia.
Qed.
Lemma debug_validate_ok st t : holds st t -> rbt_debug_validate DEBUG_RBT_DEEP st = Ok tt.
Proof.
  intros [H Hr]. pose proof (holds_depth st [] t H Hr) as Hh. destruct H as [Hroot _ Ht HN HO]. unfold rbt_debug_validate. destruct DEBUG_RBT_DEEP; [|done].
  cbn in Hroot. rewrite Hroot. unfold all in *. cbn in HN, HO, Hh. rewrite app_nil_r in HN, HO. destruct Hr as (Hc & n & Hrb).
  pose proof (rb_size t n Hrb). pose proof (addr_count _ HN HO). assert (Hn : Z.of_nat n < 64).
  { destruct (decide (Z.of_nat n < 64)); [done|]. assert (2 ^ 64 <= 2 ^ Z.of_nat n) by (apply Z.pow_le_mono_r; lia). lia. }
  unfold rbt_debug_validate_subtree. rewrite (validate_ok st t 130 0 n 0) by (done || lia || apply even_0).
  destruct t as [|c l p r]; [done|]. destruct Ht as (Hp & _). cbn [addr] in *. assert (Hok : ok_addr p) by sep.
  rewrite ok_ne0, (parent_at st p _ _ 0 c Hok even_0 Hp), bind_Ok by done. cbn [Z.eqb negb].
  rewrite (color_at st p _ _ 0 c Hok even_0 Hp), bind_Ok. cbn in Hc. subst c. done.
Qed.
End Checks.

(** ** Reading at a path *)

Lemma node_read kp st k c l p r : shape st k (plug kp (T c l p r)) -> node st p = Ok (cell (addr l) (addr r) (kaddr (kp ++ k)) c).
Proof. intros (Hp & _ & Hn)%node_shape. by apply node_at. Qed.
Lemma parent_read kp st k c l p r : shape st k (plug kp (T c l p r)) -> rbt_parent st p = Ok (kaddr (kp ++ k)).
Proof. intros (Hp & He & Hn)%node_shape. by eapply parent_at. Qed.
Lemma color_read kp st k c l p r : shape st k (plug kp (T c l p r)) -> rbt_color st p = Ok c.
Proof. intros (Hp & He & Hn)%node_shape. by eapply color_at. Qed.
Lemma is_red_read kp st k t : shape st k (plug kp t) -> is_red st (addr t) = Ok (bool_decide (tcolor t = Red)).
Proof. rewrite <- shape_plug. intros [_ _ Ht HN HO]. apply (is_red_at st (kaddr (kp ++ k))); [done|sep|sep]. Qed.
Lemma is_black_read kp st k t : shape st k (plug kp t) -> rbt_is_black st (addr t) = Ok (bool_decide (tcolor t = Black)).
Proof. rewrite <- shape_plug. intros [_ _ Ht HN HO]. apply (is_black_at st (kaddr (kp ++ k))); [done|sep|sep]. Qed.
