(* ===== verification/RbtWalk.v ===== *)
(** * The red-black tree: walks

    The searches and the steps from node to node, on a tree whose nodes in order
    are a list: the least and greatest node, the neighbours of a node, the
    neighbours of a key, search by key, membership. *)

From stdpp Require Import sorting.
From S2P Require Import Prelude Rbt RbtShape RbtInv.

Section Walk.
Context (DEBUG_RBT : bool).
Implicit Types (t l r : tree) (k : ctx).

(** *** Down *)

Lemma find_min_loop st : forall t fuel par steps, rep (nodes st) par t -> Forall ok_addr (elems t) -> t <> E ->
  (height t < fuel)%nat -> 0 <= steps -> steps + Z.of_nat (height t) <= 128 ->
  exists kr c y yr, t = plug kr (T c E y yr) /\ kpre kr = [] /\ loop fuel (find_min_body DEBUG_RBT st) (addr t, steps) = Ok y.
Proof.
  induction t as [|c l IHl p r IHr]; intros fuel par steps Hr HO Hne Hf Hs Hb; [done|]. destruct fuel as [|fuel]; [lia|].
  destruct Hr as (Hp & Hl & Hr). cbn [height elems addr] in *. assert (Hok : ok_addr p) by sep.
  assert (Hbody : find_min_body DEBUG_RBT st (p, steps) = if addr l =? 0 then Ok (inr p) else steps ← rbt_debug_step DEBUG_RBT steps; Ok (inl (addr l, steps))).
  { unfold find_min_body. rewrite ok_ne0, (node_at st p _ Hok Hp) by done. done. }
  destruct l as [|cl ll pl rl].
  - exists [], c, p, r. split_and!; [done|done|]. by apply loop_done.
  - cbn [addr] in Hbody. rewrite ok_ne0 in Hbody by sep. destruct (debug_step_ok DEBUG_RBT steps) as (s' & Es & Hs'); [cbn [height] in Hb; lia|].
    rewrite Es in Hbody. rewrite (loop_step _ _ _ _ Hbody). destruct (IHl fuel p s') as (kr & c' & y & yr & Et & Hk & El); try done; try lia; [sep|].
    exists (kr ++ [FL c p r]), c', y, yr. rewrite plug_app. cbn [plug up]. rewrite <- Et. split_and!; [done| |done].
    clear - Hk. induction kr as [|[] kr IH]; cbn in *; [done|by apply IH|]. by destruct (kpre kr), (elems l).
Qed.
Lemma find_max_loop st : forall t fuel par steps, rep (nodes st) par t -> Forall ok_addr (elems t) -> t <> E ->
  (height t < fuel)%nat -> 0 <= steps -> steps + Z.of_nat (height t) <= 128 ->
  exists y, list.last (elems t) = Some y /\ loop fuel (find_max_body DEBUG_RBT st) (addr t, steps) = Ok y.
Proof.
  induction t as [|c l IHl p r IHr]; intros fuel par steps Hr HO Hne Hf Hs Hb; [done|]. destruct fuel as [|fuel]; [lia|].
  destruct Hr as (Hp & Hl & Hr). cbn [height elems addr] in *. assert (Hok : ok_addr p) by sep.
  assert (Hbody : find_max_body DEBUG_RBT st (p, steps) = if addr r =? 0 then Ok (inr p) else steps ← rbt_debug_step DEBUG_RBT steps; Ok (inl (addr r, steps))).
  { unfold find_max_body. rewrite ok_ne0, (node_at st p _ Hok Hp) by done. done. }
  destruct r as [|cr lr pr rr].
  - exists p. cbn [elems]. rewrite last_snoc. split; [done|]. by apply loop_done.
  - cbn [addr] in Hbody. rewrite ok_ne0 in Hbody by sep. destruct (debug_step_ok DEBUG_RBT steps) as (s' & Es & Hs'); [cbn [height] in Hb; lia|].
    rewrite Es in Hbody. rewrite (loop_step _ _ _ _ Hbody). destruct (IHr fuel p s') as (y & Ey & El); try done; try lia; [sep|].
    exists y. split; [|done]. rewrite last_app, last_cons, Ey. done.
Qed.
Lemma leftmost_loop st : forall t fuel par, rep (nodes st) par t -> Forall ok_addr (elems t) -> t <> E -> (height t < fuel)%nat ->
  exists y, head (elems t) = Some y /\ loop fuel (leftmost_body st) (addr t) = Ok y.
Proof.
  induction t as [|c l IHl p r IHr]; intros fuel par Hr HO Hne Hf; [done|]. destruct fuel as [|fuel]; [lia|].
  destruct Hr as (Hp & Hl & Hr). cbn [height elems addr] in *. assert (Hok : ok_addr p) by sep.
  assert (Hbody : leftmost_body st p = Ok (if addr l =? 0 then inr p else inl (addr l))) by (unfold leftmost_body; by rewrite (node_at st p _ Hok Hp)).
  destruct l as [|cl ll pl rl].
  - exists p. split; [done|]. by apply loop_done.
  - cbn [addr] in Hbody. rewrite ok_ne0 in Hbody by sep. rewrite (loop_step _ _ _ _ Hbody). destruct (IHl fuel p) as (y & Ey & El); try done; try lia; [sep|].
    exists y. split; [|done]. by rewrite head_app, Ey.
Qed.
Lemma rightmost_loop st : forall t fuel par, rep (nodes st) par t -> Forall ok_addr (elems t) -> t <> E -> (height t < fuel)%nat ->
  exists y, list.last (elems t) = Some y /\ loop fuel (rightmost_body st) (addr t) = Ok y.
Proof.
  induction t as [|c l IHl p r IHr]; intros fuel par Hr HO Hne Hf; [done|]. destruct fuel as [|fuel]; [lia|].
  destruct Hr as (Hp & Hl & Hr). cbn [height elems addr] in *. assert (Hok : ok_addr p) by sep.
  assert (Hbody : rightmost_body st p = Ok (if addr r =? 0 then inr p else inl (addr r))) by (unfold rightmost_body; by rewrite (node_at st p _ Hok Hp)).
  destruct r as [|cr lr pr rr].
  - exists p. cbn [elems]. rewrite last_snoc. split; [done|]. by apply loop_done.
  - cbn [addr] in Hbody. rewrite ok_ne0 in Hbody by sep. rewrite (loop_step _ _ _ _ Hbody). destruct (IHr fuel p) as (y & Ey & El); try done; try lia; [sep|].
    exists y. split; [|done]. by rewrite last_app, last_cons, Ey.
Qed.

(** *** Up *)

(** From the hole upwards, the first node entered from its left subtree. *)
Lemma next_loop st : forall k fuel hole steps, krep (nodes st) k hole -> ok_addr hole -> NoDup (hole :: kpre k ++ kpost k) -> Forall ok_addr (kpre k ++ kpost k) ->
  (length k < fuel)%nat -> 0 <= steps -> steps + Z.of_nat (length k) <= 128 ->
  loop fuel (next_body DEBUG_RBT st) (hole, kaddr k, steps) = Ok (default 0 (head (kpost k))).
Proof.
  induction k as [|f k IH]; intros fuel hole steps Hk Hh HN HO Hf Hs Hb; (destruct fuel as [|fuel]; [lia|]); [by apply loop_done|].
  destruct f as [c p r|c l p]; destruct Hk as (Hp & Hr & Hk); cbn [kaddr faddr kpre kpost length] in *; assert (Hok : ok_addr p) by sep; assert (He : even (kaddr k)) by sep.
  - cbn [head default]. apply loop_done. unfold next_body. rewrite ok_ne0, (node_at st p _ Hok Hp), bind_Ok by done. cbn [right cell].
    rewrite addr_ne by (done || sep). done.
  - destruct (debug_step_ok DEBUG_RBT steps) as (s' & Es & Hs'); [lia|].
    rewrite (loop_step fuel _ _ (p, kaddr k, s')); [apply IH; try done; try lia; sep|].
    unfold next_body. rewrite ok_ne0, (node_at st p _ Hok Hp), bind_Ok by done. cbn [right cell]. rewrite Z.eqb_refl. cbn [negb]. rewrite Es, bind_Ok.
    change (mkNode _ _ _) with (cell (addr l) hole (kaddr k) c). by rewrite parent_cell.
Qed.
Lemma prev_loop st : forall k fuel hole, krep (nodes st) k hole -> ok_addr hole -> NoDup (hole :: kpre k ++ kpost k) -> Forall ok_addr (kpre k ++ kpost k) ->
  (length k < fuel)%nat -> loop fuel (prev_body st) (hole, kaddr k) = Ok (default 0 (list.last (kpre k))).
Proof.
  induction k as [|f k IH]; intros fuel hole Hk Hh HN HO Hf; (destruct fuel as [|fuel]; [lia|]); [by apply loop_done|].
  destruct f as [c p r|c l p]; destruct Hk as (Hp & Hr & Hk); cbn [kaddr faddr kpre kpost length] in *; assert (Hok : ok_addr p) by sep; assert (He : even (kaddr k)) by sep.
  - rewrite (loop_step fuel _ _ (p, kaddr k)); [apply IH; try done; try lia; sep|].
    unfold prev_body. rewrite ok_ne0, (node_at st p _ Hok Hp), bind_Ok by done. cbn [left cell]. rewrite Z.eqb_refl.
    change (mkNode _ _ _) with (cell hole (addr r) (kaddr k) c). by rewrite parent_cell.
  - rewrite app_assoc, last_snoc. cbn [default]. apply loop_done. unfold prev_body. rewrite ok_ne0, (node_at st p _ Hok Hp), bind_Ok by done. cbn [left cell].
    by rewrite addr_ne by (done || sep).
Qed.
Lemma linked_loop st : forall k fuel hole hl hr c steps, krep (nodes st) k hole -> nodes st !! hole = Some (cell hl hr (kaddr k) c) -> ok_addr hole ->
  Forall ok_addr (kpre k ++ kpost k) -> (length k < fuel)%nat -> 0 <= steps -> steps + Z.of_nat (length k) <= 128 ->
  loop fuel (linked_body DEBUG_RBT st) (hole, steps) = Ok (kroot k hole).
Proof.
  induction k as [|f k IH]; intros fuel hole hl hr c steps Hk Hh Hoh HO Hf Hs Hb; (destruct fuel as [|fuel]; [lia|]); cbn [kroot].
  - apply loop_done. unfold linked_body. by rewrite (parent_at st hole _ _ 0 c Hoh even_0 Hh).
  - assert (He : even (kaddr (f :: k))) by sep. destruct (debug_step_ok DEBUG_RBT steps) as (s' & Es & Hs'); [cbn [length] in Hb; lia|].
    destruct f as [cf p rf|cf lf p]; destruct Hk as (Hp & Hr & Hk); cbn [kaddr faddr kpre kpost length] in *; assert (Hok : ok_addr p) by sep;
    (rewrite (loop_step fuel _ _ (p, s')); [eapply IH; try done; try lia; sep|]; unfold linked_body;
      rewrite (parent_at st hole _ _ p c Hoh He Hh), bind_Ok, ok_ne0, (node_at st p _ Hok Hp), bind_Ok by done; cbn [left right cell];
      rewrite Z.eqb_refl; cbn [negb andb]; rewrite ?andb_false_r, Es; done).
Qed.

(** *** On a red-black tree *)

Lemma elems_split (t : tree) p : p ∈ elems t -> exists k c l r, t = plug k (T c l p r).
Proof.
  induction t as [|c l IHl q r IHr]; intros Hp; [by apply elem_of_nil in Hp|].
  cbn in Hp. apply elem_of_app in Hp as [Hp|[->|Hp]%elem_of_cons].
  - destruct (IHl Hp) as (k & c' & l' & r' & ->). exists (k ++ [FL c q r]), c', l', r'. by rewrite plug_app.
  - by exists [], c, l, r.
  - destruct (IHr Hp) as (k & c' & l' & r' & ->). exists (k ++ [FR c l q]), c', l', r'. by rewrite plug_app.
Qed.
(** The place of a node of the tree. *)
Lemma holds_at st t p : holds st t -> p ∈ elems t ->
  exists k c l r, t = plug k (T c l p r) /\ shape st k (T c l p r) /\ redblack (plug k (T c l p r)).
Proof.
  intros [H Hr] Hp. destruct (elems_split t p Hp) as (k & c & l & r & ->). exists k, c, l, r. split_and!; [done| |done].
  rewrite <- (app_nil_r k). by apply shape_plug.
Qed.

Lemma find_min_ok st k t : shape st k t -> redblack (plug k t) -> t <> E -> exists kr c y yr,
  t = plug kr (T c E y yr) /\ kpre kr = [] /\ rbt_find_min DEBUG_RBT st (addr t) = Ok y.
Proof.
  intros H Hr Hne. pose proof (holds_depth st k t H Hr). pose proof (holds_rounds st k t H). destruct H as [_ _ Ht HN HO].
  apply (find_min_loop st t _ (kaddr k)); try done; try lia. sep.
Qed.
Lemma min_head kr c y yr : kpre kr = [] -> head (elems (plug kr (T c E y yr))) = Some y.
Proof. intros Hk. rewrite elems_plug. unfold all. by rewrite Hk. Qed.
Lemma check_linked_ok st k c l p r : shape st k (T c l p r) -> redblack (plug k (T c l p r)) -> rbt_debug_check_linked DEBUG_RBT st p = Ok tt.
Proof.
  intros H Hr. pose proof (holds_depth st k _ H Hr). pose proof (holds_rounds st k _ H). unfold rbt_debug_check_linked. destruct DEBUG_RBT eqn:ED; [|done]. rewrite <- ED.
  destruct H as [Hroot Hk (Hp & _) HN HO]. rewrite (linked_loop st k (rounds st) p (addr l) (addr r) c 0) by (done || lia || sep).
  rewrite bind_Ok, Hroot. cbn [addr]. by rewrite Z.eqb_refl.
Qed.

(** The next and the previous node in order. *)
Lemma next_at st k c l p r : shape st k (T c l p r) -> redblack (plug k (T c l p r)) ->
  rbt_next DEBUG_RBT st p = Ok (default 0 (head (elems r ++ kpost k))).
Proof.
  intros H Hr. pose proof (holds_depth st k _ H Hr). pose proof (holds_rounds st k _ H). assert (Hup : shape st (FR c l p :: k) r) by (by apply shape_up).
  destruct (H) as [Hroot Hk (Hp & Hl & Hrr) HN HO]. unfold rbt_next. assert (Hok : ok_addr p) by sep.
  rewrite ok_ne0, (node_at st p _ Hok Hp), bind_Ok by done. cbn [right cell]. destruct r as [|cr lr pr rr].
  - cbn [addr Z.eqb negb elems app]. change (mkNode _ _ _) with (cell (addr l) 0 (kaddr k) c). rewrite parent_cell by sep.
    apply next_loop; try done; try lia; sep.
  - cbn [addr]. rewrite ok_ne0 by sep. cbn [negb].
    destruct (find_min_ok st _ _ Hup) as (kr & c' & y & yr & Et & Hkr & Em); [done|done|]. cbn [addr] in Em. rewrite Em, Et, head_app, min_head by done. done.
Qed.
Lemma prev_at st k c l p r : shape st k (T c l p r) -> rbt_prev st p = Ok (default 0 (list.last (kpre k ++ elems l))).
Proof.
  intros H. pose proof (holds_rounds st k _ H). destruct (H) as [Hroot Hk (Hp & Hl & Hrr) HN HO]. unfold rbt_prev. assert (Hok : ok_addr p) by sep.
  rewrite (node_at st p _ Hok Hp), bind_Ok. cbn [left cell]. destruct l as [|cl ll pl rl].
  - cbn [addr Z.eqb negb elems]. change (mkNode _ _ _) with (cell 0 (addr r) (kaddr k) c). rewrite parent_cell by sep. rewrite app_nil_r.
    apply prev_loop; try done; try lia; sep.
  - cbn [addr]. rewrite ok_ne0 by sep. cbn [negb]. destruct (rightmost_loop st (T cl ll pl rl) (rounds st) p) as (y & Ey & El); [done|sep|done|cbn in *; lia|].
    cbn [addr] in El. by rewrite El, last_app, Ey.
Qed.

Lemma holds_nodup st t : holds st t -> NoDup (elems t) /\ Forall ok_addr (elems t).
Proof. intros [[_ _ _ HN HO] _]. unfold all in *. cbn in HN, HO. rewrite app_nil_r in HN, HO. done. Qed.
Lemma nodup_split (l1 l2 l1' l2' : list Z) p : NoDup (l1 ++ p :: l2) -> l1 ++ p :: l2 = l1' ++ p :: l2' -> l1 = l1' /\ l2 = l2'.
Proof.
  revert l1'. induction l1 as [|x l1 IH]; intros [|y l1'] HN Heq; cbn in *.
  - by injection Heq.
  - injection Heq as <- ->. apply list.NoDup_cons in HN as [HN _]. exfalso. apply HN. set_solver.
  - injection Heq as -> <-. apply list.NoDup_cons in HN as [HN _]. exfalso. apply HN. set_solver.
  - injection Heq as -> Heq. apply list.NoDup_cons in HN as [_ HN]. by destruct (IH l1' HN Heq) as [-> ->].
Qed.
(** The neighbours in the list of the nodes. *)
Lemma neighbours st t (l1 l2 : list Z) p : holds st t -> elems t = l1 ++ p :: l2 ->
  rbt_next DEBUG_RBT st p = Ok (default 0 (head l2)) /\ rbt_prev st p = Ok (default 0 (list.last l1)).
Proof.
  intros H HL. destruct (holds_nodup st t H) as [HN _]. destruct (holds_at st t p H) as (k & c & l & r & -> & Hs & Hr); [rewrite HL; set_solver|].
  rewrite HL in HN. assert (Heq : l1 ++ p :: l2 = (kpre k ++ elems l) ++ p :: elems r ++ kpost k).
  { rewrite <- HL, elems_plug. unfold all. cbn. by rewrite <- !app_assoc. }
  destruct (nodup_split _ _ _ _ _ HN Heq) as [-> ->]. split; [by apply (next_at st k c l p r)|by apply (prev_at st k c l p r)].
Qed.

Lemma holds_rep st t : holds st t -> root st = addr t /\ rep (nodes st) 0 t /\ (height t < 128)%nat /\ (height t < rounds st)%nat.
Proof. intros [H Hr]. pose proof (holds_depth st [] t H Hr). pose proof (holds_rounds st [] t H). destruct H as [? _ ? _ _]. cbn in *. by split_and!. Qed.

Lemma first_ok st t : holds st t -> rbt_first st = Ok (default 0 (head (elems t))).
Proof.
  intros H. destruct (holds_rep st t H) as (Hroot & Ht & _ & Hf). destruct (holds_nodup st t H) as [_ HO]. unfold rbt_first. rewrite Hroot.
  destruct t as [|c l p r]; [done|]. cbn [addr]. rewrite ok_ne0 by (cbn [elems] in HO; sep).
  destruct (leftmost_loop st (T c l p r) (rounds st) 0) as (y & -> & El); try done. 
Qed.
Lemma last_ok st t : holds st t -> rbt_last st = Ok (default 0 (list.last (elems t))).
Proof.
  intros H. destruct (holds_rep st t H) as (Hroot & Ht & _ & Hf). destruct (holds_nodup st t H) as [_ HO]. unfold rbt_last. rewrite Hroot.
  destruct t as [|c l p r]; [done|]. cbn [addr]. rewrite ok_ne0 by (cbn [elems] in HO; sep).
  destruct (rightmost_loop st (T c l p r) (rounds st) 0) as (y & -> & El); try done.
Qed.
Lemma min_ok st t : holds st t -> rbt_min DEBUG_RBT st = Ok (default 0 (head (elems t))).
Proof.
  intros H. destruct (holds_rep st t H) as (Hroot & _). unfold rbt_min. rewrite Hroot. destruct t as [|c l p r]; [done|]. destruct H as [H Hr].
  destruct (find_min_ok st [] _ H Hr) as (kr & c' & y & yr & Et & Hk & Em); [done|]. rewrite Em, Et, min_head by done. done.
Qed.
Lemma max_ok st t : holds st t -> rbt_max DEBUG_RBT st = Ok (default 0 (list.last (elems t))).
Proof.
  intros H. destruct (holds_rep st t H) as (Hroot & Ht & Hh & Hf). destruct (holds_nodup st t H) as [_ HO]. unfold rbt_max, rbt_find_max. rewrite Hroot.
  destruct t as [|c l p r]; [done|]. destruct (find_max_loop st (T c l p r) (rounds st) 0 0) as (y & -> & El); try done. lia.
Qed.

(** Visiting the nodes in order finds exactly those of the tree. *)
Lemma has_node_ok st t p : holds st t -> p <> 0 -> rbt_has_node DEBUG_RBT st p = Ok (bool_decide (p ∈ elems t)).
Proof.
  intros H Hp. unfold rbt_has_node. rewrite (first_ok st t H), bind_Ok. pose proof (shape_rounds st [] t (proj1 H)) as Hf. unfold all in Hf. cbn in Hf. rewrite app_nil_r in Hf.
  destruct (holds_nodup st t H) as [HN HO]. rewrite list.Forall_forall in HO.
  cut (forall (l2 l1 : list Z) fuel, elems t = l1 ++ l2 -> p ∉ l1 -> (length l2 < fuel)%nat ->
    loop fuel (has_node_body DEBUG_RBT st p) (default 0 (head l2)) = Ok (bool_decide (p ∈ elems t))).
  { intros Hc. apply (Hc (elems t) []); [done|apply not_elem_of_nil|done]. }
  induction l2 as [|x l2 IH]; intros l1 fuel HL Hn Hl; (destruct fuel as [|fuel]; [cbn in Hl; lia|]); cbn [list.head default from_option]; unfold id.
  - apply loop_done. unfold has_node_body. cbn. rewrite bool_decide_eq_false_2; [done|]. by rewrite HL, app_nil_r.
  - destruct (neighbours st t l1 l2 x H HL) as [Hnx _]. assert (Hx : ok_addr x) by (apply HO; rewrite HL; set_solver).
    destruct (decide (x = p)) as [->|Hxp].
    + apply loop_done. unfold has_node_body. rewrite ok_ne0, Z.eqb_refl by done. rewrite bool_decide_eq_true_2; [done|]. rewrite HL. set_solver.
    + rewrite (loop_step _ _ _ (default 0 (head l2))); [apply (IH (l1 ++ [x])); [by rewrite HL, <- app_assoc|set_solver|cbn in Hl; lia]|].
      unfold has_node_body. rewrite ok_ne0, (proj2 (Z.eqb_neq _ _)), Hnx by done. done.
Qed.

(** *** Search by key *)

Lemma sorted_app_l (R : Z -> Z -> Prop) (l1 l2 : list Z) : StronglySorted R (l1 ++ l2) ->
  StronglySorted R l1 /\ StronglySorted R l2 /\ forall a b, a ∈ l1 -> b ∈ l2 -> R a b.
Proof.
  induction l1 as [|x l1 IH]; cbn; intros H; [split_and!; [constructor|done|intros a b ?%elem_of_nil; done]|].
  apply StronglySorted_inv in H as [H Hx]. destruct (IH H) as (? & ? & Hd). rewrite list.Forall_forall in Hx. split_and!; [|done|].
  - constructor; [done|]. apply list.Forall_forall. intros y Hy. apply Hx. set_solver.
  - intros a b [->|Ha]%elem_of_cons Hb; [apply Hx; set_solver|by apply Hd].
Qed.


Context (get_data : Z -> Z).

Definition by_data (a b : Z) : Prop := get_data a <= get_data b.

Lemma predecessor_loop st data : forall t fuel par pred, rep (nodes st) par t -> Forall ok_addr (elems t) -> StronglySorted by_data (elems t) -> (height t < fuel)%nat ->
  loop fuel (predecessor_body get_data st data) (addr t, pred) = Ok (default pred (list.last (filter (fun p => get_data p < data) (elems t)))).
Proof.
  induction t as [|c l IHl p r IHr]; intros fuel par pred Hr HO Hs Hf; (destruct fuel as [|fuel]; [lia|]); [by apply loop_done|].
  destruct Hr as (Hp & Hl & Hr). cbn [height elems addr] in *. assert (Hok : ok_addr p) by sep. destruct (sorted_app_l _ _ _ Hs) as (Hsl & Hsr & _).
  apply StronglySorted_inv in Hsr as [Hsr Hpr]. rewrite list.Forall_forall in Hpr.
  assert (Hb : predecessor_body get_data st data (p, pred) = Ok (inl (if get_data p <? data then (addr r, p) else (addr l, pred)))).
  { unfold predecessor_body. by rewrite ok_ne0, (node_at st p _ Hok Hp). }
  rewrite (loop_step _ _ _ _ Hb), list.filter_app. destruct (Z.ltb_spec (get_data p) data) as [Hlt|Hge].
  - rewrite (IHr fuel p p), filter_cons_True, last_app, last_cons by (done || lia || sep). by destruct (list.last (filter _ (elems r))).
  - rewrite (IHl fuel p pred), filter_cons_False by (done || lia || sep). rewrite (filter_none _ (elems r)); [by rewrite app_nil_r|].
    intros q Hq. specialize (Hpr q Hq). unfold by_data in Hpr. lia.
Qed.
Lemma successor_loop st data : forall t fuel par succ, rep (nodes st) par t -> Forall ok_addr (elems t) -> StronglySorted by_data (elems t) -> (height t < fuel)%nat ->
  loop fuel (successor_body get_data st data) (addr t, succ) = Ok (default succ (head (filter (fun p => data < get_data p) (elems t)))).
Proof.
  induction t as [|c l IHl p r IHr]; intros fuel par succ Hr HO Hs Hf; (destruct fuel as [|fuel]; [lia|]); [by apply loop_done|].
  destruct Hr as (Hp & Hl & Hr). cbn [height elems addr] in *. assert (Hok : ok_addr p) by sep. destruct (sorted_app_l _ _ _ Hs) as (Hsl & Hsr & Hlp).
  apply StronglySorted_inv in Hsr as [Hsr Hpr].
  assert (Hb : successor_body get_data st data (p, succ) = Ok (inl (if data <? get_data p then (addr l, p) else (addr r, succ)))).
  { unfold successor_body. by rewrite ok_ne0, (node_at st p _ Hok Hp). }
  rewrite (loop_step _ _ _ _ Hb), list.filter_app. destruct (Z.ltb_spec data (get_data p)) as [Hlt|Hge].
  - rewrite (IHl fuel p p), filter_cons_True, head_app by (done || lia || sep). by destruct (list.head (filter _ (elems l))).
  - rewrite (IHr fuel p succ), filter_cons_False by (done || lia || sep). rewrite (filter_none _ (elems l)); [done|].
    intros q Hq. specialize (Hlp q p Hq ltac:(set_solver)). unfold by_data in Hlp. lia.
Qed.
(** A node with the key, or [NULL] when there is none. *)
Lemma search_loop st data : forall t fuel par, rep (nodes st) par t -> Forall ok_addr (elems t) -> StronglySorted by_data (elems t) -> (height t < fuel)%nat ->
  exists p, loop fuel (search_body get_data st data) (addr t) = Ok p /\ ((p ∈ elems t /\ get_data p = data) \/ (p = 0 /\ forall q, q ∈ elems t -> get_data q <> data)).
Proof.
  induction t as [|c l IHl p r IHr]; intros fuel par Hr HO Hs Hf; (destruct fuel as [|fuel]; [lia|]).
  { exists 0. split; [by apply loop_done|right]. split; [done|]. intros q ?%elem_of_nil. done. }
  destruct Hr as (Hp & Hl & Hr). cbn [height elems addr] in *. assert (Hok : ok_addr p) by sep. destruct (sorted_app_l _ _ _ Hs) as (Hsl & Hsr & Hlp).
  apply StronglySorted_inv in Hsr as [Hsr Hpr]. rewrite list.Forall_forall in Hpr. destruct (Z.eqb_spec (get_data p) data) as [Heq|Hne].
  { exists p. split; [|left; set_solver]. apply loop_done. unfold search_body. by rewrite (proj2 (Z.eqb_eq _ _) Heq), orb_true_r. }
  assert (Hb : search_body get_data st data p = Ok (inl (if data <? get_data p then addr l else addr r))).
  { unfold search_body. by rewrite ok_ne0, (proj2 (Z.eqb_neq _ _) Hne), (node_at st p _ Hok Hp). }
  rewrite (loop_step _ _ _ _ Hb). destruct (Z.ltb_spec data (get_data p)) as [Hlt|Hge].
  - destruct (IHl fuel p) as (q & -> & Hq); try done; try lia; [sep|]. exists q. split; [done|]. destruct Hq as [[? ?]|[-> Hq]]; [left; set_solver|right].
    split; [done|]. intros x [Hx|[->|Hx]%elem_of_cons]%elem_of_app; [by apply Hq|done|]. specialize (Hpr x Hx). unfold by_data in Hpr. lia.
  - destruct (IHr fuel p) as (q & -> & Hq); try done; try lia; [sep|]. exists q. split; [done|]. destruct Hq as [[? ?]|[-> Hq]]; [left; set_solver|right].
    split; [done|]. intros x [Hx|[->|Hx]%elem_of_cons]%elem_of_app; [|done|by apply Hq]. specialize (Hlp x p Hx ltac:(set_solver)). unfold by_data in Hlp. lia.
Qed.
End Walk.
