(* ===== verification/RbtInsert.v ===== *)
(** * The red-black tree: inserting

    What the repair loop of [fix_insertion] does to the tree, and that
    [rbt_insert] puts the node into the ordered list of the nodes, behind those
    it does not precede. *)

From stdpp Require Import sorting.
From S2P Require Import Prelude Rbt RbtShape RbtInv RbtWalk.

(** The change of colour of a node at a path, with the tree before and after
    computed. *)
Ltac recolor kp c := match goal with H : shape ?st ?k _ |- context [rbt_set_color ?st ?p ?c'] =>
  let st' := fresh "st" in let Ec := fresh "E" in let H' := fresh "H" in let S := fresh "S" in
  destruct (set_color_at_path kp st k c _ p _ c' H) as (st' & Ec & H' & S); rewrite Ec, bind_Ok; clear Ec; cbn [plug up] in H', S end.

Lemma fix_left_red st k c x q y g ul v ur p : shape st k (T Black (T c x q y) g (T Red ul v ur)) ->
  exists st', fix_insertion_left st p q g = Ok (st', g) /\ shape st' k (T Red (T Black x q y) g (T Black ul v ur)) /\
    same_out (all k (T Black (T c x q y) g (T Red ul v ur))) st st'.
Proof.
  intros H. unfold fix_insertion_left. rewrite (node_read [] _ _ _ _ _ _ H), bind_Ok. cbn [right cell].
  rewrite (is_red_read [FR Black (T c x q y) g] _ _ _ H), bind_Ok. cbn [tcolor]. rewrite bool_decide_true by done.
  recolor [FL Black g (T Red ul v ur)] c. recolor [FR Black (T Black x q y) g] Red. recolor (@nil frame) Black.
  eexists. split; [done|]. split; [done|within].
Qed.
Lemma fix_right_red st k c x q y g ul v ur p : shape st k (T Black (T Red ul v ur) g (T c x q y)) ->
  exists st', fix_insertion_right st p q g = Ok (st', g) /\ shape st' k (T Red (T Black ul v ur) g (T Black x q y)) /\
    same_out (all k (T Black (T Red ul v ur) g (T c x q y))) st st'.
Proof.
  intros H. unfold fix_insertion_right. rewrite (node_read [] _ _ _ _ _ _ H), bind_Ok. cbn [left cell].
  rewrite (is_red_read [FL Black g (T c x q y)] _ _ _ H), bind_Ok. cbn [tcolor]. rewrite bool_decide_true by done.
  recolor [FR Black (T Red ul v ur) g] c. recolor [FL Black g (T Black x q y)] Red. recolor (@nil frame) Black.
  eexists. split; [done|]. split; [done|within].
Qed.

(** The uncle is black, and the node on the same side as its parent ... *)
Lemma fix_left_outer st k l p r q y g u : tcolor u = Black -> shape st k (T Black (T Red (T Red l p r) q y) g u) ->
  exists st', fix_insertion_left st p q g = Ok (st', p) /\ shape st' k (T Black (T Red l p r) q (T Red y g u)) /\
    same_out (all k (T Black (T Red (T Red l p r) q y) g u)) st st'.
Proof.
  intros Hu H. unfold fix_insertion_left. rewrite (node_read [] _ _ _ _ _ _ H), bind_Ok. cbn [right cell].
  rewrite (is_red_read [FR Black _ g] _ _ _ H), bind_Ok, Hu. cbn [bool_decide decide]. rewrite bool_decide_false by done.
  rewrite (node_read [FL Black g u] _ _ _ _ _ _ H), bind_Ok. cbn [right cell]. destruct (H) as [_ _ _ HN HO].
  rewrite addr_ne by sep. rewrite bind_Ok. recolor [FL Black g u] Red. recolor (@nil frame) Black.
  destruct (right_rotate_at [] st1 k _ _ _ _ _ _ _ H1) as (st2 & E2 & H2 & S2). rewrite E2, bind_Ok. eexists. split; [done|]. split; [done|within].
Qed.
Lemma fix_right_outer st k l p r q y g u : tcolor u = Black -> shape st k (T Black u g (T Red y q (T Red l p r))) ->
  exists st', fix_insertion_right st p q g = Ok (st', p) /\ shape st' k (T Black (T Red u g y) q (T Red l p r)) /\
    same_out (all k (T Black u g (T Red y q (T Red l p r)))) st st'.
Proof.
  intros Hu H. unfold fix_insertion_right. rewrite (node_read [] _ _ _ _ _ _ H), bind_Ok. cbn [left cell].
  rewrite (is_red_read [FL Black g _] _ _ _ H), bind_Ok, Hu. cbn [bool_decide decide]. rewrite bool_decide_false by done.
  rewrite (node_read [FR Black u g] _ _ _ _ _ _ H), bind_Ok. cbn [left cell]. destruct (H) as [_ _ _ HN HO].
  rewrite addr_ne by sep. rewrite bind_Ok. recolor [FR Black u g] Red. recolor (@nil frame) Black.
  destruct (left_rotate_at [] st1 k _ _ _ _ _ _ _ H1) as (st2 & E2 & H2 & S2). rewrite E2, bind_Ok. eexists. split; [done|]. split; [done|within].
Qed.

(** ... or on the other side. *)
Lemma fix_left_inner st k l p r q y g u : tcolor u = Black -> shape st k (T Black (T Red y q (T Red l p r)) g u) ->
  exists st', fix_insertion_left st p q g = Ok (st', q) /\ shape st' k (T Black (T Red y q l) p (T Red r g u)) /\
    same_out (all k (T Black (T Red y q (T Red l p r)) g u)) st st'.
Proof.
  intros Hu H. unfold fix_insertion_left. rewrite (node_read [] _ _ _ _ _ _ H), bind_Ok. cbn [right cell].
  rewrite (is_red_read [FR Black _ g] _ _ _ H), bind_Ok, Hu. cbn [bool_decide decide]. rewrite bool_decide_false by done.
  rewrite (node_read [FL Black g u] _ _ _ _ _ _ H), bind_Ok. cbn [right cell addr]. rewrite Z.eqb_refl.
  destruct (left_rotate_at [FL Black g u] st k _ _ _ _ _ _ _ H) as (st0 & E0 & H0 & S0). cbn [plug up] in H0, S0. rewrite E0, bind_Ok.
  rewrite (parent_read [FL Red p r; FL Black g u] _ _ _ _ _ _ H0), !bind_Ok. cbn [kaddr faddr app].
  recolor [FL Black g u] Red. recolor (@nil frame) Black.
  destruct (right_rotate_at [] st2 k _ _ _ _ _ _ _ H2) as (st3 & E3 & H3 & S3). rewrite E3, bind_Ok. eexists. split; [done|]. split; [done|within].
Qed.
Lemma fix_right_inner st k l p r q y g u : tcolor u = Black -> shape st k (T Black u g (T Red (T Red l p r) q y)) ->
  exists st', fix_insertion_right st p q g = Ok (st', q) /\ shape st' k (T Black (T Red u g l) p (T Red r q y)) /\
    same_out (all k (T Black u g (T Red (T Red l p r) q y))) st st'.
Proof.
  intros Hu H. unfold fix_insertion_right. rewrite (node_read [] _ _ _ _ _ _ H), bind_Ok. cbn [left cell].
  rewrite (is_red_read [FL Black g _] _ _ _ H), bind_Ok, Hu. cbn [bool_decide decide]. rewrite bool_decide_false by done.
  rewrite (node_read [FR Black u g] _ _ _ _ _ _ H), bind_Ok. cbn [left cell addr]. rewrite Z.eqb_refl.
  destruct (right_rotate_at [FR Black u g] st k _ _ _ _ _ _ _ H) as (st0 & E0 & H0 & S0). cbn [plug up] in H0, S0. rewrite E0, bind_Ok.
  rewrite (parent_read [FR Red l p; FR Black u g] _ _ _ _ _ _ H0), !bind_Ok. cbn [kaddr faddr app].
  recolor [FR Black u g] Red. recolor (@nil frame) Black.
  destruct (left_rotate_at [] st2 k _ _ _ _ _ _ _ H2) as (st3 & E3 & H3 & S3). rewrite E3, bind_Ok. eexists. split; [done|]. split; [done|within].
Qed.

(** *** The loop *)

Lemma kroot_in k hole : kroot k hole = hole /\ k = [] \/ kroot k hole ∈ kpre k ++ kpost k.
Proof.
  revert hole. induction k as [|f k IH]; intros hole; [by left|right]. cbn [kroot].
  destruct (IH (faddr f)) as [[-> ->]|Hin]; destruct f; cbn [faddr kpre kpost]; set_solver.
Qed.
Lemma root_ne st f k c l p r : shape st (f :: k) (T c l p r) -> (p =? root st) = false.
Proof.
  intros [Hroot _ _ HN _]. apply Z.eqb_neq. rewrite Hroot. cbn [addr]. destruct (kroot_in (f :: k) p) as [[_ ?]|Hin]; [done|].
  intros Heq. rewrite <- Heq in Hin. assert (p ∉ kpre (f :: k) ++ kpost (f :: k)) by (eapply nd_notin; [exact HN|rewrite all_perm; cbn [elems]; solve_submseteq]). done.
Qed.
Definition blacken (t : tree) : tree := match t with E => E | T _ l p r => T Black l p r end.
Lemma elems_blacken t : elems (blacken t) = elems t.
Proof. by destruct t. Qed.
Lemma blacken_root st t : shape st [] t -> t <> E -> exists st', rbt_set_color st (root st) Black = Ok st' /\ shape st' [] (blacken t) /\ same_out (elems t) st st'.
Proof.
  intros H Hne. destruct t as [|c l p r]; [done|]. rewrite (sh_root _ _ _ H). cbn [kroot addr].
  destruct (set_color_at_path [] st [] c l p r Black H) as (st' & -> & H' & S). exists st'. split_and!; [done|done|]. eapply so_sub; [|exact S]. cbn. sub.
Qed.
Lemma shape_top st k t : shape st k t <-> shape st [] (plug k t).
Proof. by rewrite <- shape_plug, app_nil_r. Qed.

(** *** The red nodes *)

Fixpoint reds (t : tree) : list Z :=
  match t with E => [] | T c l p r => reds l ++ match c with Red => [p] | Black => [] end ++ reds r end.
Fixpoint kreds (k : ctx) : list Z :=
  match k with
  | [] => []
  | FL c p r :: k => match c with Red => [p] | Black => [] end ++ reds r ++ kreds k
  | FR c l p :: k => match c with Red => [p] | Black => [] end ++ reds l ++ kreds k
  end.
(** The nodes above a red one on the path. *)
Fixpoint reddened (k : ctx) : list Z :=
  match k with
  | [] => []
  | f :: k => match fcolor f, k with Red, g :: _ => [faddr g] | _, _ => [] end ++ reddened k
  end.
Lemma reds_sub t e : e ∈ reds t -> e ∈ elems t.
Proof. induction t as [|[] l IHl p r IHr]; cbn; set_solver. Qed.
Lemma kreds_sub k e : e ∈ kreds k -> e ∈ kpre k ++ kpost k.
Proof. induction k as [|[[] p r|[] l p] k IH]; cbn [kreds kpre kpost]; pose proof reds_sub; set_solver. Qed.
Lemma reddened_sub k e : e ∈ reddened k -> e ∈ kpre k ++ kpost k.
Proof.
  induction k as [|f k IH]; cbn [reddened]; [done|]. intros [He|He]%elem_of_app.
  - destruct (fcolor f), k as [|g k]; try by apply elem_of_nil in He. apply list_elem_of_singleton in He as ->. destruct f, g; cbn; set_solver.
  - apply IH in He. destruct f; cbn; set_solver.
Qed.
Lemma reds_plug k e : forall t, e ∈ reds (plug k t) <-> e ∈ reds t \/ e ∈ kreds k.
Proof. induction k as [|[c p r|c l p] k IH]; intros t; cbn [plug up kreds]; [set_solver|rewrite IH; cbn [reds]; set_solver..]. Qed.

(** A black node is not among the red ones. *)
Lemma black_not_red st f k a q b : shape st (f :: k) (T Black a q b) -> ~ (q ∈ reds (plug (f :: k) (T Black a q b)) \/ q ∈ reddened k).
Proof.
  intros [_ _ _ HN _]. assert (Hq : q ∉ elems a ++ elems b ++ kpre (f :: k) ++ kpost (f :: k)).
  { eapply nd_notin; [exact HN|]. rewrite all_perm. cbn [elems]. rewrite <- app_assoc. cbn [app]. solve_submseteq. }
  rewrite reds_plug. cbn [reds app]. intros [[Hin|Hin%kreds_sub]|Hin%reddened_sub]; apply Hq.
  - apply elem_of_app in Hin as [Hin%reds_sub|Hin%reds_sub]; set_solver.
  - set_solver.
  - destruct f; cbn [kpre kpost]; set_solver.
Qed.

Lemma color_holds st t e : holds st t -> e ∈ elems t -> exists c, rbt_color st e = Ok c /\ (c = Red <-> e ∈ reds t).
Proof.
  intros H He. destruct (holds_at st t e H He) as (k & c & l & r & -> & Hs & _). exists c. split; [by apply (color_read [] st k c l e r)|].
  split; [intros ->; apply reds_plug; left; cbn; set_solver|]. intros Hin. destruct c; [done|]. exfalso.
  destruct k as [|f k]; [|by apply (black_not_red st f k l e r Hs); left].
  destruct Hs as [_ _ _ HN _]. assert (Hn : e ∉ elems l ++ elems r) by sep. apply Hn. cbn in Hin. pose proof (reds_sub l e). pose proof (reds_sub r e). set_solver.
Qed.

(** A comparison function that orders the nodes: a total preorder. *)
Class NodeOrder (compare : Z -> Z -> Z) := {
  cmp_anti a b : compare a b < 0 <-> 0 < compare b a;
  cmp_trans a b c : compare a b <= 0 -> compare b c <= 0 -> compare a c <= 0;
}.
Definition ordered (compare : Z -> Z -> Z) : list Z -> Prop := StronglySorted (fun a b => compare a b <= 0).
(** A node is put behind the last one it does not precede. *)
Fixpoint put_ordered (compare : Z -> Z -> Z) (x : Z) (l : list Z) : list Z :=
  match l with [] => [x] | y :: l' => if compare x y <? 0 then x :: l else y :: put_ordered compare x l' end.

Section Insert.
Context (compare : Z -> Z -> Z) (DEBUG_RBT DEBUG_RBT_DEEP DEBUG_LOCK_CHK : bool).

(** The parent is black, or the node is the root: only the root's colour is set. *)
Lemma fix_insertion_stop st k l p r steps : shape st k (T Red l p r) -> kcolor k = Black -> exists st',
  fix_insertion_body DEBUG_RBT (st, p, steps) = Ok (inr st') /\ shape st' [] (blacken (plug k (T Red l p r))) /\ same_out (all k (T Red l p r)) st st'.
Proof.
  intros H Hk. destruct (blacken_root st (plug k (T Red l p r))) as (st' & E1 & H1 & S1); [by rewrite <- shape_top|..].
  { intros E0. apply (f_equal elems) in E0. rewrite elems_plug in E0. unfold all in E0. cbn in E0. destruct (kpre k), (elems l); done. }
  exists st'. rewrite elems_plug in S1. split_and!; [|done|done]. unfold fix_insertion_body. destruct k as [|f k].
  - rewrite (sh_root _ _ _ H). cbn [kroot addr]. rewrite Z.eqb_refl, bind_Ok. rewrite (sh_root _ _ _ H) in E1. cbn [kroot addr plug] in E1. by rewrite E1.
  - rewrite (root_ne _ _ _ _ _ _ _ H). rewrite (parent_read [] _ _ _ _ _ _ H), bind_Ok. cbn [app kaddr].
    assert (Hc : rbt_color st (faddr f) = Ok Black).
    { apply (proj1 (shape_up _ _ _ _)) in H. destruct f; cbn in Hk; subst; cbn [faddr up] in *; by rewrite (color_read [] _ _ _ _ _ _ H). }
    rewrite Hc, !bind_Ok. cbn [bool_decide decide]. rewrite bool_decide_false, E1 by done. done.
Qed.
(** The parent is red: one of the two halves. *)
Lemma fix_insertion_go st f g k l p r steps steps' : shape st (f :: g :: k) (T Red l p r) -> fcolor f = Red -> rbt_debug_step DEBUG_RBT steps = Ok steps' ->
  fix_insertion_body DEBUG_RBT (st, p, steps) = match g with
    | FL _ gp _ => r ← fix_insertion_left st p (faddr f) gp; Ok (inl (r, steps'))
    | FR _ _ gp => r ← fix_insertion_right st p (faddr f) gp; Ok (inl (r, steps'))
    end.
Proof.
  intros H Hf Hs. unfold fix_insertion_body. rewrite (root_ne _ _ _ _ _ _ _ H). rewrite (parent_read [] _ _ _ _ _ _ H), !bind_Ok. cbn [app kaddr].
  destruct (H) as [_ _ _ HN HO]. apply (proj1 (shape_up _ _ _ _)) in H. assert (Hc : rbt_color st (faddr f) = Ok Red /\ rbt_parent st (faddr f) = Ok (faddr g)).
  { destruct f; cbn in Hf; subst; cbn [faddr up] in *; by rewrite (color_read [] _ _ _ _ _ _ H), (parent_read [] _ _ _ _ _ _ H). }
  destruct Hc as [Hc1 Hc2]. rewrite Hc1, !bind_Ok, bool_decide_true, Hs, !bind_Ok, Hc2, !bind_Ok by done. apply (proj1 (shape_up _ _ _ _)) in H.
  destruct g as [cg gp u|cg u gp]; cbn [up faddr] in *; rewrite (node_read [] _ _ _ _ _ _ H), bind_Ok; cbn [left cell].
  - destruct f; cbn [up addr faddr]; by rewrite Z.eqb_refl.
  - rewrite addr_ne; [done|..]; destruct f; cbn [faddr]; sep.
Qed.

(** The repair from the place [k] of the red node [p]: a red-black tree of the
    same nodes, in which only grandparents of red children are newly red, and not
    both [p] and its parent are red. *)
Definition repaired (st : rbt) (k : ctx) (l : tree) (p : Z) (r : tree) (res : outcome rbt) : Prop :=
  exists st' t, res = Ok st' /\ holds st' t /\ elems t = all k (T Red l p r) /\ same_out (all k (T Red l p r)) st st' /\
    (forall e, e ∈ reds t -> e ∈ reds (plug k (T Red l p r)) \/ e ∈ reddened k) /\ (k <> [] -> p ∈ reds t -> kaddr k ∉ reds t).
Lemma repaired_step st st1 fuel s s' k l p r k1 l1 p1 r1 : fix_insertion_body DEBUG_RBT s = Ok (inl s') ->
  all k1 (T Red l1 p1 r1) = all k (T Red l p r) -> same_out (all k (T Red l p r)) st st1 ->
  (forall e, e ∈ reds (plug k1 (T Red l1 p1 r1)) -> e ∈ reds (plug k (T Red l p r)) \/ e ∈ reddened k) -> (forall e, e ∈ reddened k1 -> e ∈ reddened k) ->
  (forall R : list Z, (forall e, e ∈ R -> e ∈ reds (plug k1 (T Red l1 p1 r1)) \/ e ∈ reddened k1) -> (k1 <> [] -> p1 ∈ R -> kaddr k1 ∉ R) -> p ∈ R -> kaddr k ∉ R) ->
  repaired st1 k1 l1 p1 r1 (loop fuel (fix_insertion_body DEBUG_RBT) s') -> repaired st k l p r (loop (S fuel) (fix_insertion_body DEBUG_RBT) s).
Proof.
  intros Eb EL S1 HN HR HB (st' & t & El & Hh & HL & S2 & HN1 & HB1). rewrite EL in *. exists st', t. rewrite (loop_step _ _ _ _ Eb).
  split_and!; try done; [by eapply so_trans| |by intros _; apply HB].
  intros e He. destruct (HN1 e He) as [He1|He1]; [by apply HN|right; by apply HR].
Qed.
Lemma reds_blacken t e : e ∈ reds (blacken t) -> e ∈ reds t.
Proof. destruct t as [|[] l p r]; cbn; set_solver. Qed.
Lemma insertion_done st k l p r n steps fuel : shape st k (T Red l p r) -> rbk k n -> rb (T Red l p r) n -> kcolor k = Black ->
  repaired st k l p r (loop (S fuel) (fix_insertion_body DEBUG_RBT) (st, p, steps)).
Proof.
  intros H Hk Hr Hc. destruct (fix_insertion_stop st k l p r steps H Hc) as (st' & Eb & H' & S). exists st', (blacken (plug k (T Red l p r))).
  rewrite (loop_done _ _ _ _ Eb), elems_blacken, elems_plug. split_and!; try done.
  - split; [done|]. destruct k as [|f k]; [split; [done|]; inversion Hr; subst; eexists; by constructor|].
    assert (Hrb : redblack (plug (f :: k) (T Red l p r))) by (apply (rb_join _ n); [done|done|congruence|done]).
    destruct (plug (f :: k) (T Red l p r)) as [|c' ? ? ?]; [done|]. destruct Hrb as [Hc' ?]. cbn in Hc'. by subst c'.
  - intros e He%reds_blacken. by left.
  - intros Hne _ Hin%reds_blacken. destruct (H) as [_ _ _ HN _]. destruct k as [|f k]; [done|]. apply reds_plug in Hin.
    destruct f as [[] q y|[] y q]; cbn in Hc; try done; cbn [kaddr faddr kreds app] in Hin;
      (assert (Hq : q ∉ elems (T Red l p r) ++ elems y ++ kpre k ++ kpost k) by sep; apply Hq;
       destruct Hin as [Hin%reds_sub|[Hin%reds_sub|Hin%kreds_sub]%elem_of_app]; set_solver).
Qed.

Ltac all_eq := unfold all; cbn [elems kpre kpost]; repeat (rewrite <- ?app_assoc; cbn [app]); done.

(** After one round, go on with the induction hypothesis. *)
Ltac go_reds := intros e; rewrite !reds_plug; cbn [reds kreds reddened fcolor faddr app]; clear; set_solver.
Ltac go st1 k n := match goal with Hbody : fix_insertion_body _ _ = Ok (inl _), S1 : same_out _ _ st1, H1 : shape st1 k (T Red ?l1 ?p1 ?r1), IH : context [repaired] |- _ =>
  eapply (repaired_step _ st1 _ _ _ _ _ _ _ k l1 p1 r1); [exact Hbody|all_eq|eapply so_sub; [|exact S1]; sub|go_reds|cbn [reddened fcolor faddr]; clear; set_solver| |];
  [|eapply (IH st1 k _ _ _ n)]; try done; try (cbn [length]; lia);
  try first [by repeat constructor|apply rbk_black; [done|by repeat constructor|done]] end.
Lemma fix_insertion_loop : forall m st k l p r n fuel steps, (length k <= m)%nat -> shape st k (T Red l p r) -> rbk k n -> rb (T Red l p r) n ->
  (length k < fuel)%nat -> 0 <= steps -> steps + Z.of_nat (length k) <= 128 ->
  repaired st k l p r (loop fuel (fix_insertion_body DEBUG_RBT) (st, p, steps)).
Proof.
  induction m as [|m IH]; intros st k l p r n fuel steps Hm H Hk Hr Hf Hs Hb; (destruct fuel as [|fuel]; [lia|]).
  { destruct k; [|cbn in Hm; lia]. by apply (insertion_done st [] l p r n). }
  destruct (kcolor k) eqn:Ekc; [|by apply (insertion_done st k l p r n)].
  destruct Hk as [n|f g k n Hfc Hgc Hsf Hcf Hgk|]; [done| |cbn in Ekc; congruence]. clear Ekc. cbn [length] in *.
  destruct (debug_step_ok DEBUG_RBT steps) as (s' & Es & Hs'); [lia|]. pose proof (fix_insertion_go _ _ _ _ _ _ _ _ s' H Hfc Es) as Hbody.
  inversion Hgk as [|? ? ? ? Hg'|? ? ? Hg' Hsg Hk']; subst; [congruence|]. clear Hgk Hg'. inversion Hr as [|? ? ? ? Hl Hrr Hcl Hcr|]; subst.
  apply (proj1 (shape_up _ _ _ _)) in H. apply (proj1 (shape_up _ _ _ _)) in H.
  destruct f as [cf q y|cf y q], g as [cg g u|cg u g]; cbn [up fcolor fsib faddr] in *; subst cf cg;
    (destruct (tcolor u) eqn:Ecu; [destruct u as [|[] ul v ur]; try done; inversion Hsg; subst|]).
  - destruct (fix_left_red st k Red _ _ _ _ _ _ _ p H) as (st1 & E1 & H1 & S1). rewrite E1, bind_Ok in Hbody. go st1 k (S n).
    intros R HR _ _ Hq%HR. revert Hq. apply (black_not_red st1 (FL Red g (T Black ul v ur))). by apply (proj2 (shape_up _ _ _ _)).
  - destruct (fix_left_outer st k _ _ _ _ _ _ _ Ecu H) as (st1 & E1 & H1 & S1). rewrite E1, bind_Ok in Hbody.
    apply (proj2 (shape_up _ (FL Black q (T Red y g u)) k (T Red l p r))) in H1. go st1 (FL Black q (T Red y g u) :: k) n. intros R _ HB Hp. by apply HB.
  - destruct (fix_right_red st k Red _ _ _ _ _ _ _ p H) as (st1 & E1 & H1 & S1). rewrite E1, bind_Ok in Hbody. go st1 k (S n).
    intros R HR _ _ Hq%HR. revert Hq. apply (black_not_red st1 (FR Red (T Black ul v ur) g)). by apply (proj2 (shape_up _ _ _ _)).
  - destruct (fix_right_inner st k _ _ _ _ _ _ _ Ecu H) as (st1 & E1 & H1 & S1). rewrite E1, bind_Ok in Hbody.
    apply (proj2 (shape_up _ (FR Black (T Red u g l) p) k (T Red r q y))) in H1. go st1 (FR Black (T Red u g l) p :: k) n. intros R _ HB Hp Hq. by apply (HB ltac:(done) Hq).
  - destruct (fix_left_red st k Red _ _ _ _ _ _ _ p H) as (st1 & E1 & H1 & S1). rewrite E1, bind_Ok in Hbody. go st1 k (S n).
    intros R HR _ _ Hq%HR. revert Hq. apply (black_not_red st1 (FL Red g (T Black ul v ur))). by apply (proj2 (shape_up _ _ _ _)).
  - destruct (fix_left_inner st k _ _ _ _ _ _ _ Ecu H) as (st1 & E1 & H1 & S1). rewrite E1, bind_Ok in Hbody.
    apply (proj2 (shape_up _ (FL Black p (T Red r g u)) k (T Red y q l))) in H1. go st1 (FL Black p (T Red r g u) :: k) n. intros R _ HB Hp Hq. by apply (HB ltac:(done) Hq).
  - destruct (fix_right_red st k Red _ _ _ _ _ _ _ p H) as (st1 & E1 & H1 & S1). rewrite E1, bind_Ok in Hbody. go st1 k (S n).
    intros R HR _ _ Hq%HR. revert Hq. apply (black_not_red st1 (FR Red (T Black ul v ur) g)). by apply (proj2 (shape_up _ _ _ _)).
  - destruct (fix_right_outer st k _ _ _ _ _ _ _ Ecu H) as (st1 & E1 & H1 & S1). rewrite E1, bind_Ok in Hbody.
    apply (proj2 (shape_up _ (FR Black (T Red u g y) q) k (T Red l p r))) in H1. go st1 (FR Black (T Red u g y) q :: k) n. intros R _ HB Hp. by apply HB.
Qed.

(** *** The way down *)

Context `{!NodeOrder compare}.

Lemma ge_of_le a b : compare a b <= 0 <-> 0 <= compare b a.
Proof using NodeOrder0. pose proof (cmp_anti a b). pose proof (cmp_anti b a). lia. Qed.
Lemma put_ordered_at x l1 l2 : (forall e, e ∈ l1 -> 0 <= compare x e) -> (forall e, e ∈ l2 -> compare x e < 0) ->
  put_ordered compare x (l1 ++ l2) = l1 ++ x :: l2.
Proof using NodeOrder0.
  intros H1 H2. induction l1 as [|y l1 IH]; cbn.
  - destruct l2 as [|y l2]; [done|]. cbn. by rewrite (proj2 (Z.ltb_lt _ _)) by (apply H2; set_solver).
  - rewrite (proj2 (Z.ltb_ge _ _)) by (apply H1; set_solver). f_equal. apply IH. intros e He. apply H1. set_solver.
Qed.
Lemma put_ordered_sorted x l : ordered compare l -> ordered compare (put_ordered compare x l).
Proof using NodeOrder0.
  unfold ordered. induction 1 as [|y l Hl IH Hy]; cbn; [by repeat constructor|]. rewrite list.Forall_forall in Hy. destruct (Z.ltb_spec (compare x y) 0) as [Hlt|Hge].
  - constructor; [by constructor; [|rewrite list.Forall_forall]|]. apply list.Forall_forall. intros z [->|Hz]%elem_of_cons; [lia|].
    apply (cmp_trans x y z); [lia|by apply Hy].
  - constructor; [done|]. apply list.Forall_forall. intros z Hz.
    assert (Hz' : z ∈ x :: l). { clear - Hz. induction l as [|w l IHl]; cbn in *; [done|]. case_match; set_solver. }
    apply elem_of_cons in Hz' as [->|Hz']; [by apply ge_of_le|by apply Hy].
Qed.
Lemma put_ordered_perm x l : put_ordered compare x l ≡ₚ x :: l.
Proof using Type. induction l as [|y l IH]; cbn; [done|]. case_match; [done|]. rewrite IH. apply Permutation_swap. Qed.

(** The last comparison says on which side of the step above the place is. *)
Definition side (k : ctx) (cmp : Z) : Prop :=
  match k with [] => True | FL _ _ _ :: _ => cmp < 0 | FR _ _ _ :: _ => 0 <= cmp end.

Lemma descend_loop st new : forall t k fuel cmp steps, rep (nodes st) (kaddr k) t -> Forall ok_addr (elems t) -> ordered compare (elems t) -> new ∉ elems t ->
  side k cmp -> (forall e, e ∈ kpre k -> 0 <= compare new e) -> (forall e, e ∈ kpost k -> compare new e < 0) ->
  (height t < fuel)%nat -> 0 <= steps -> steps + Z.of_nat (height t) <= 128 ->
  exists k' cmp', loop fuel (descend_body compare DEBUG_RBT st new) (addr t, kaddr k, cmp, steps) = Ok (kaddr k', cmp') /\ plug k' E = plug k t /\
    side k' cmp' /\ (t <> E -> k' <> []) /\ (forall e, e ∈ kpre k' -> 0 <= compare new e) /\ (forall e, e ∈ kpost k' -> compare new e < 0).
Proof using NodeOrder0.
  induction t as [|c l IHl p r IHr]; intros k fuel cmp steps Hr HO Hs Hnew Hside Hpre Hpost Hf Hst Hb; (destruct fuel as [|fuel]; [lia|]).
  { exists k, cmp. by split_and!. }
  destruct Hr as (Hp & Hl & Hr). cbn [height elems addr] in *. assert (Hok : ok_addr p) by sep.
  unfold ordered in Hs. destruct (sorted_app_l _ _ _ Hs) as (Hsl & Hsr & Hlp). apply StronglySorted_inv in Hsr as [Hsr Hpr]. rewrite list.Forall_forall in Hpr.
  destruct (debug_step_ok DEBUG_RBT steps) as (s' & Es & Hs'); [lia|].
  assert (Hbody : descend_body compare DEBUG_RBT st new (p, kaddr k, cmp, steps) =
    Ok (inl (if compare new p <? 0 then addr l else addr r, p, compare new p, s'))).
  { unfold descend_body. rewrite ok_ne0 by done. rewrite (proj2 (Z.eqb_neq p new)) by set_solver. rewrite andb_false_r, Es, bind_Ok, (node_at st p _ Hok Hp). done. }
  rewrite (loop_step _ _ _ _ Hbody). destruct (Z.ltb_spec (compare new p) 0) as [Hlt|Hge].
  - destruct (IHl (FL c p r :: k) fuel (compare new p) s') as (k' & cmp' & El & Ek & Hsd & Hne & Hpre' & Hpost'); try done; try lia; [sep|set_solver| |].
    { cbn [kpost]. intros e [->|[He|He]%elem_of_app]%elem_of_cons; [done| |by apply Hpost]. specialize (Hpr e He). cbn beta in Hpr.
      destruct (decide (compare new e < 0)) as [|Hn]; [done|]. exfalso. assert (He' : compare e new <= 0) by (apply ge_of_le; lia).
      pose proof (cmp_trans p e new Hpr He') as Hpn. apply ge_of_le in Hpn. lia. }
    exists k', cmp'. split_and!; try done. intros _ ->. cbn in Ek. by apply (f_equal elems) in Ek; rewrite elems_plug in Ek; unfold all in Ek; cbn in Ek; destruct (kpre k), (elems l).
  - destruct (IHr (FR c l p :: k) fuel (compare new p) s') as (k' & cmp' & El & Ek & Hsd & Hne & Hpre' & Hpost'); try done; try lia; [sep|set_solver| |].
    { cbn [kpre]. intros e [He|[He|He%list_elem_of_singleton]%elem_of_app]%elem_of_app; [by apply Hpre| |by subst]. specialize (Hlp e p He ltac:(set_solver)). cbn beta in Hlp.
      apply ge_of_le. apply (cmp_trans e p new); [done|by apply ge_of_le]. }
    exists k', cmp'. split_and!; try done. intros _ ->. cbn in Ek. by apply (f_equal elems) in Ek; rewrite elems_plug in Ek; unfold all in Ek; cbn in Ek; destruct (kpre k), (elems l).
Qed.

(** *** The new node *)

Lemma land_hi_1 x : Z.land (Z.land x (not_w 64 1)) 1 = 0.
Proof using Type. rewrite not_w_alt by lia. zbits. Qed.
Lemma fresh_parent n c q : with_parent (with_color n c) q = cell (left n) (right n) q c.
Proof using Type.
  unfold with_parent, with_color, cell. cbn [parent_data left right]. rewrite Z.land_lor_distr_l, land_hi_1, Z.lor_0_l.
  replace (Z.land (color_bit c) 1) with (color_bit c) by (by destruct c). by rewrite Z.lor_comm.
Qed.
Lemma holds_same L st st' t : same_out L st st' -> root st' = root st -> (forall p, p ∈ elems t -> p ∉ L) -> holds st t -> holds st' t.
Proof using Type. intros HS Hr Hd [[H1 _ H3 H4 H5] Hrb]. split; [|done]. split; [by rewrite Hr|done|by eapply rep_same|done|done]. Qed.

(** The place below [k] gets the node. *)
Lemma link_shape st k new cmp : shape st k E -> k <> [] -> side k cmp -> ok_addr new -> new ∉ all k E -> nodes st !! new = Some (cell 0 0 (kaddr k) Red) ->
  exists st' np, node st (kaddr k) = Ok np /\
    DEBUG_LOCK_CHK && (((cmp <? 0) && negb (left np =? 0)) || ((0 <=? cmp) && negb (right np =? 0))) = false /\
    (if cmp <? 0 then set_left st (kaddr k) new else set_right st (kaddr k) new) = Ok st' /\
    shape st' k (T Red E new E) /\ same_out (new :: all k E) st st'.
Proof using Type.
  intros [Hroot Hk _ HN HO] Hne Hs Hok Hnew Hn.
  assert (HN' : NoDup (new :: all k E)) by (by constructor). assert (HO' : Forall ok_addr (new :: all k E)) by (by constructor).
  destruct k as [|[c p r|c l p] k]; [done|..]; destruct Hk as (Hp & Hr & Hk); cbn [kaddr faddr side] in *; assert (Hokp : ok_addr p) by sep.
  - pose proof (so_put st p _ (cell new (addr r) (kaddr k) c) Hp) as S1. exists (put_node st p (cell new (addr r) (kaddr k) c)), (cell 0 (addr r) (kaddr k) c).
    rewrite (node_at st p _ Hokp Hp), (set_left_at st p _ _ Hokp Hp), (proj2 (Z.ltb_lt cmp 0)), (proj2 (Z.leb_gt 0 cmp)) by done.
    split_and!; [done|apply andb_false_r|done| |within]. split; [done| |by split_and!; [keep|..]|sep|sep].
    cbn [krep addr]. split_and!; [cbn; by rewrite lookup_insert_eq|keep|keep].
  - pose proof (so_put st p _ (cell (addr l) new (kaddr k) c) Hp) as S1. exists (put_node st p (cell (addr l) new (kaddr k) c)), (cell (addr l) 0 (kaddr k) c).
    rewrite (node_at st p _ Hokp Hp), (set_right_at st p _ _ Hokp Hp), (proj2 (Z.ltb_ge cmp 0)), (proj2 (Z.leb_le 0 cmp)) by done.
    split_and!; [done|apply andb_false_r|done| |within]. split; [done| |by split_and!; [keep|..]|sep|sep].
    cbn [krep addr]. split_and!; [cbn; by rewrite lookup_insert_eq|keep|keep].
Qed.

(** The first writes of [rbt_insert]. *)
Lemma insert_prepare st new n0 : ok_addr new -> nodes st !! new = Some n0 -> exists st1,
  (forall B (K : rbt -> outcome B), (t ← set_left st new 0; t ← set_right t new 0; t ← rbt_set_color t new Red; K t) = K st1) /\ root st1 = root st /\
  nodes st1 !! new = Some (with_color (mkNode 0 0 (parent_data n0)) Red) /\ same_out [new] st st1.
Proof using Type.
  intros Hok Hn. set (n1 := mkNode 0 (right n0) (parent_data n0)).
  pose proof (so_put st new _ n1 Hn) as S1. assert (H1 : nodes (put_node st new n1) !! new = Some n1) by (cbn; by rewrite lookup_insert_eq).
  set (n2 := mkNode 0 0 (parent_data n0)).
  pose proof (so_put _ new _ n2 H1) as S2. assert (H2 : nodes (put_node (put_node st new n1) new n2) !! new = Some n2) by (cbn; by rewrite lookup_insert_eq).
  pose proof (so_put _ new _ (with_color n2 Red) H2) as S3. exists (put_node (put_node (put_node st new n1) new n2) new (with_color n2 Red)).
  split_and!; [|done|cbn; by rewrite lookup_insert_eq|within]. intros B K. rewrite (set_left_at st new _ 0 Hok Hn), bind_Ok. fold n1.
  rewrite (set_right_at _ new _ 0 Hok H1), bind_Ok. cbn [left parent_data n1]. fold n2. unfold rbt_set_color. by rewrite (node_at _ new _ Hok H2).
Qed.

Lemma insert_ok st t new n0 : holds st t -> ordered compare (elems t) -> ok_addr new -> new ∉ elems t -> nodes st !! new = Some n0 ->
  exists st' t', rbt_insert compare DEBUG_RBT DEBUG_RBT_DEEP DEBUG_LOCK_CHK st new = Ok st' /\ holds st' t' /\
    elems t' = put_ordered compare new (elems t) /\ same_out (new :: elems t) st st'.
Proof using NodeOrder0.
  intros H Hs Hok Hnew Hn. unfold rbt_insert. rewrite (debug_validate_ok _ st t H), bind_Ok.
  destruct (insert_prepare st new n0 Hok Hn) as (st1 & E1 & R1 & Hn1 & S1). rewrite E1. clear E1.
  assert (H1 : holds st1 t) by (eapply holds_same; [exact S1|done| |done]; set_solver). pose proof (sh_root _ _ _ (proj1 H1)) as Hroot. cbn [kroot] in Hroot. rewrite Hroot.
  destruct t as [|c l p r].
  - cbn [addr]. unfold rbt_set_color, rbt_set_parent. rewrite Z.eqb_refl, (node_at st1 new _ Hok Hn1), bind_Ok. set (n2 := with_color _ Black).
    pose proof (so_put st1 new _ n2 Hn1) as S2. assert (Hn2 : nodes (put_node st1 new n2) !! new = Some n2) by (cbn; by rewrite lookup_insert_eq).
    cbn [Z.land Z.eqb enforce]. rewrite bind_Ok, (node_at _ new _ Hok Hn2), bind_Ok. pose proof (so_put _ new _ (with_parent n2 0) Hn2) as S3.
    eexists _, (T Black E new E). split; [done|]. split_and!; [|done|eapply so_trans; [eapply so_trans; [eapply so_trans|]|apply so_root]; done].
    split; [|split; [done|]; eexists; by repeat constructor]. split; [done|done| |cbn; apply NoDup_singleton|by apply Forall_singleton].
    cbn [rep addr nodes set_root put_node]. split; [|done]. rewrite lookup_insert_eq. unfold n2. by rewrite fresh_parent.
  - pose proof (holds_nodup _ _ H1) as [_ HO1]. cbn [addr]. rewrite ok_ne0 by (cbn [elems] in HO1; sep).
    destruct (holds_rep st1 _ H1) as (_ & Ht1 & Hh1 & Hf1).
    destruct (descend_loop st1 new (T c l p r) [] (rounds st1) 0 0) as (k & cmp & Ed & Ek & Hsd & Hne & Hpre & Hpost); try done; try lia; [set_solver..|].
    specialize (Hne ltac:(done)). cbn [addr kaddr] in Ed. rewrite Ed, bind_Ok. cbn [plug] in Ek. set (t := T c l p r) in *.
    assert (Hk1 : shape st1 k E) by (apply (proj2 (shape_top _ _ _)); rewrite Ek; apply H1).
    assert (HL : elems t = all k E) by (by rewrite <- Ek, elems_plug). rewrite HL in *.
    assert (Hek : even (kaddr k)) by (destruct Hk1 as [_ _ _ ? ?]; sep).
    unfold rbt_set_parent. rewrite (proj2 Hek). cbn [Z.eqb enforce]. rewrite bind_Ok, (node_at st1 new _ Hok Hn1), bind_Ok, fresh_parent. cbn [left right].
    pose proof (so_put st1 new _ (cell 0 0 (kaddr k) Red) Hn1) as S2. set (st2 := put_node st1 new _) in *.
    assert (Hk2 : shape st2 k E). { apply (proj2 (shape_top _ _ _)). rewrite Ek. eapply (holds_same _ st1); [exact S2|done| |done]. rewrite HL. set_solver. }
    destruct (link_shape st2 k new cmp Hk2 Hne Hsd Hok Hnew) as (st3 & np & Enp & Echk & El & H3 & S3); [cbn; by rewrite lookup_insert_eq|].
    rewrite bind_Ok, Enp, bind_Ok, Echk, El, bind_Ok. destruct (rb_split k E) as (n & Hrk & HrE & _); [rewrite Ek; apply H1|]. inversion HrE; subst n.
    unfold fix_insertion. pose proof (holds_rounds _ _ _ H3). pose proof (holds_depth st1 k E Hk1 ltac:(rewrite Ek; apply H1)).
    destruct (fix_insertion_loop (length k) st3 k E new E 0 (rounds st3) 0) as (st4 & t4 & E4 & H4 & HL4 & S4 & _ & HB); try done; try lia; [by repeat constructor|].
    rewrite E4, bind_Ok. assert (Hin : kaddr k ∈ elems t4 /\ new ∈ elems t4).
    { rewrite HL4. unfold all. cbn [elems]. destruct k as [|[]]; [done|..]; cbn; set_solver. }
    destruct (color_holds st4 t4 (kaddr k) H4 (proj1 Hin)) as (cp & -> & Hcp). destruct (color_holds st4 t4 new H4 (proj2 Hin)) as (cn & -> & Hcn). rewrite !bind_Ok.
    rewrite (debug_validate_ok _ st4 t4 H4). assert (Hen : bool_decide (cp = Red) && bool_decide (cn = Red) = false).
    { apply not_true_iff_false. intros [?%bool_decide_eq_true ?%bool_decide_eq_true]%andb_true_iff. by apply HB; [done|apply Hcn|apply Hcp]. }
    rewrite Hen. cbn [negb enforce]. rewrite !bind_Ok. exists st4, t4. split_and!; [done|done| |].
    + rewrite HL4. unfold all. cbn [elems app]. by rewrite put_ordered_at.
    + assert (Hsub : all k (T Red E new E) ⊆+ new :: all k E) by sub. eapply so_trans; [|eapply so_sub; [exact Hsub|exact S4]].
      eapply so_trans; [|exact S3]. eapply so_trans; (eapply so_sub; [|first [exact S1|exact S2]]; sub).
Qed.
End Insert.
