(* ===== verification/RbtDelete.v ===== *)
(** * The red-black tree: deleting

    What the repair loop of [fix_deletion] does to the tree, and that
    [rbt_delete] takes exactly the node out of the list of the nodes. *)

From stdpp Require Import sorting.
From S2P Require Import Prelude Rbt RbtShape RbtInv RbtWalk RbtInsert.

Ltac list_assoc := repeat (rewrite <- ?app_assoc; cbn [app]).

(** The black nodes on the paths of a node of colour [c] over subtrees with [n]. *)
Definition above (c : rbt_node_color) (n : nat) : nat := match c with Red => n | Black => S n end.
Lemma rb_node c l p r n : rb l n -> rb r n -> (c = Red -> tcolor l = Black /\ tcolor r = Black) -> rb (T c l p r) (above c n).
Proof. destruct c; intros ?? H; [destruct H; [done|]|]; by constructor. Qed.

(** [set_color_if] on a node that is there. *)
Lemma set_color_if_ok st p c : ok_addr p -> set_color_if st p c = rbt_set_color st p c.
Proof. intros Hp. unfold set_color_if. by rewrite ok_ne0. Qed.
Ltac recolor_if kp c := match goal with H : shape ?st _ _ |- context [set_color_if ?st ?p ?c'] =>
  let Hp := fresh "Hp" in assert (Hp : ok_addr p) by (destruct H as [_ _ _ _ ?HO]; sep);
  rewrite (set_color_if_ok st p c' Hp); clear Hp; recolor kp c end.

(** The subtree [x] lacks a black node and its sibling [s] is black: either [s]
    turns red and the lack is that of the parent, or the subtree is repaired. *)
Definition nephews_done (st : rbt) (k : ctx) (c : rbt_node_color) (n : nat) (p : Z) (a b t1 t2 : tree) (res : outcome (rbt * Z * Z)) : Prop :=
  exists st', same_out (all k t1) st st' /\
    ((tcolor a = Black /\ tcolor b = Black /\ res = Ok (st', p, kaddr k) /\ shape st' k t2) \/
     (exists t', res = Ok (st', root st', 0) /\ shape st' k t' /\ rb t' (above c (S n)) /\ tcolor t' = c /\ elems t' = elems t1)).

Lemma left_nephews st k c x p a s b n : shape st k (T c x p (T Black a s b)) -> rb x n -> rb a n -> rb b n -> tcolor x = Black ->
  nephews_done st k c n p a b (T c x p (T Black a s b)) (T c x p (T Red a s b)) (fix_left_nephews st p s).
Proof.
  intros H Hx Ha Hb Hc. destruct (H) as [_ _ _ HN HO]. unfold fix_left_nephews. rewrite (ok_ne0 s) by sep.
  rewrite (node_read [FR c x p] _ _ _ _ _ _ H), !bind_Ok. cbn [left right cell].
  rewrite (is_black_read [FL Black s b; FR c x p] _ _ _ H), !bind_Ok. rewrite (is_black_read [FR Black a s; FR c x p] _ _ _ H).
  destruct (tcolor b) eqn:Eb.
  - destruct b as [|cb b1 w b2]; [done|]. cbn in Eb. subst cb. rewrite (bool_decide_eq_false_2 (Red = Black)) by done.
    assert (Hf : (if bool_decide (tcolor a = Black) then Ok false else Ok false) = @Ok bool false) by (by case_bool_decide). rewrite Hf, !bind_Ok. clear Hf.
    rewrite (color_read [] _ _ _ _ _ _ H), bind_Ok. recolor [FR c x p] Black. recolor (@nil frame) c.
    rewrite (node_read [FR Black x p] _ _ _ _ _ _ H1), !bind_Ok. cbn [right cell addr]. recolor_if [FR c a s; FR Black x p] Red.
    destruct (left_rotate_at [] st2 k _ _ _ _ _ _ _ H2) as (st3 & E3 & H3 & S3). rewrite E3, bind_Ok. exists st3. split; [within|right].
    inversion Hb; subst. eexists. split_and!; [done|exact H3|apply rb_node; [by constructor|by constructor|done]|done|]. cbn. by rewrite <- app_assoc.
  - rewrite (bool_decide_eq_true_2 (Black = Black)) by done. destruct (tcolor a) eqn:Ea.
    + destruct a as [|ca a1 w a2]; [done|]. cbn in Ea. subst ca. rewrite (bool_decide_eq_false_2 (Red = Black)), bind_Ok by done.
      rewrite bind_Ok. cbn [addr]. recolor_if [FL Black s b; FR c x p] Red. recolor [FR c x p] Black.
      destruct (right_rotate_at [FR c x p] st1 k _ _ _ _ _ _ _ H1) as (st2 & E2 & H2 & S2). rewrite E2, bind_Ok. cbn [plug up] in H2, S2.
      rewrite (node_read [] _ _ _ _ _ _ H2), !bind_Ok. cbn [right cell addr]. rewrite (color_read [] _ _ _ _ _ _ H2), bind_Ok.
      recolor [FR c x p] Black. recolor (@nil frame) c. rewrite (node_read [FR Black x p] _ _ _ _ _ _ H4), !bind_Ok. cbn [right cell addr].
      recolor_if [FR c a1 w; FR Black x p] Red.
      destruct (left_rotate_at [] st5 k _ _ _ _ _ _ _ H5) as (st6 & E6 & H6 & S6). rewrite E6, bind_Ok. exists st6. split; [within|right].
      inversion Ha; subst. eexists. split_and!; [done|exact H6|apply rb_node; [by constructor|by constructor|done]|done|]. cbn. by rewrite <- !app_assoc.
    + rewrite (bool_decide_eq_true_2 (Black = Black)), bind_Ok by done. recolor_if [FR c x p] Black.
      rewrite (parent_read [] _ _ _ _ _ _ H0), bind_Ok. exists st0. split; [within|by left].
Qed.
Lemma right_nephews st k c x p a s b n : shape st k (T c (T Black a s b) p x) -> rb x n -> rb a n -> rb b n -> tcolor x = Black ->
  nephews_done st k c n p a b (T c (T Black a s b) p x) (T c (T Red a s b) p x) (fix_right_nephews st p s).
Proof.
  intros H Hx Ha Hb Hc. destruct (H) as [_ _ _ HN HO]. unfold fix_right_nephews. rewrite (ok_ne0 s) by sep.
  rewrite (node_read [FL c p x] _ _ _ _ _ _ H), !bind_Ok. cbn [left right cell].
  rewrite (is_black_read [FL Black s b; FL c p x] _ _ _ H), !bind_Ok. destruct (tcolor a) eqn:Ea.
  - destruct a as [|ca a1 w a2]; [done|]. cbn in Ea. subst ca. rewrite (bool_decide_eq_false_2 (Red = Black)), !bind_Ok by done.
    rewrite (color_read [] _ _ _ _ _ _ H), bind_Ok. recolor [FL c p x] Black. recolor (@nil frame) c.
    rewrite (node_read [FL Black p x] _ _ _ _ _ _ H1), !bind_Ok. cbn [left cell addr]. recolor_if [FL c s b; FL Black p x] Red.
    destruct (right_rotate_at [] st2 k _ _ _ _ _ _ _ H2) as (st3 & E3 & H3 & S3). rewrite E3, bind_Ok. exists st3. split; [within|right].
    inversion Ha; subst. eexists. split_and!; [done|exact H3|apply rb_node; [by constructor|by constructor|done]|done|]. cbn. by rewrite <- !app_assoc.
  - rewrite (bool_decide_eq_true_2 (Black = Black)), (is_black_read [FR Black a s; FL c p x] _ _ _ H) by done. destruct (tcolor b) eqn:Eb.
    + destruct b as [|cb b1 w b2]; [done|]. cbn in Eb. subst cb. rewrite (bool_decide_eq_false_2 (Red = Black)), !bind_Ok by done.
      cbn [addr]. recolor_if [FR Black a s; FL c p x] Red. recolor [FL c p x] Black.
      destruct (left_rotate_at [FL c p x] st1 k _ _ _ _ _ _ _ H1) as (st2 & E2 & H2 & S2). rewrite E2, bind_Ok. cbn [plug up] in H2, S2.
      rewrite (node_read [] _ _ _ _ _ _ H2), !bind_Ok. cbn [left cell addr]. rewrite (color_read [] _ _ _ _ _ _ H2), bind_Ok.
      recolor [FL c p x] Black. recolor (@nil frame) c. rewrite (node_read [FL Black p x] _ _ _ _ _ _ H4), !bind_Ok. cbn [left cell addr].
      recolor_if [FL c w b2; FL Black p x] Red.
      destruct (right_rotate_at [] st5 k _ _ _ _ _ _ _ H5) as (st6 & E6 & H6 & S6). rewrite E6, bind_Ok. exists st6. split; [within|right].
      inversion Hb; subst. eexists. split_and!; [done|exact H6|apply rb_node; [by constructor|by constructor|done]|done|]. cbn. by rewrite <- !app_assoc; cbn; rewrite <- !app_assoc.
    + rewrite (bool_decide_eq_true_2 (Black = Black)), bind_Ok by done. recolor_if [FL c p x] Black.
      rewrite (parent_read [] _ _ _ _ _ _ H0), bind_Ok. exists st0. split; [within|by left].
Qed.

(** First a red sibling is rotated up, so that [x] has a black sibling. *)
Definition sibling_made (st st1 : rbt) (k : ctx) (f : frame) (x : tree) (n : nat) (k1 : ctx) (c1 : rbt_node_color) (t1 : tree) : Prop :=
  shape st1 k1 t1 /\ rbk k1 (above c1 (S n)) /\ (kcolor k1 = Red -> c1 = Black) /\ (k1 = [] -> c1 = Black) /\
  (c1 = Red \/ k1 = k) /\ all k1 t1 = all (f :: k) x /\ same_out (all (f :: k) x) st st1.

Lemma rbk_down f k n : rbk (f :: k) n -> rb (fsib f) n /\ rbk k (above (fcolor f) n) /\ (fcolor f = Red -> tcolor (fsib f) = Black) /\
  (kcolor k = Red -> fcolor f = Black) /\ (k = [] -> fcolor f = Black).
Proof. inversion 1 as [|f' g k' n' Hf Hg|f' k' n' Hf]; subst; rewrite Hf; split_and!; try done. cbn. by rewrite Hg. Qed.

Lemma left_sibling st c p u k x n : shape st (FL c p u :: k) x -> rbk (FL c p u :: k) (S n) ->
  exists st1 k1 c1 a s b, fix_deletion_left st p = fix_left_nephews st1 p s /\ rb a n /\ rb b n /\
    sibling_made st st1 k (FL c p u) x n k1 c1 (T c1 x p (T Black a s b)).
Proof.
  intros H Hk. destruct (rbk_down _ _ _ Hk) as (Hu & Hk' & Hcu & Hkc & Hnil). cbn [fsib fcolor] in *. unfold sibling_made. rewrite <- all_up.
  apply (proj1 (shape_up _ _ _ _)) in H. cbn [up] in *. unfold fix_deletion_left. rewrite (node_read [] _ _ _ _ _ _ H), bind_Ok. cbn [right cell].
  rewrite (is_red_read [FR c x p] _ _ _ H), bind_Ok. inversion Hu as [|a s b m Ha Hb Ca Cb|a s b m Ha Hb]; subst; cbn [tcolor addr] in *.
  - rewrite bool_decide_true by done. destruct c; [by specialize (Hcu eq_refl)|]. inversion Ha as [| |a1 q a2 m Ha1 Ha2]; subst; [done|].
    recolor [FR Black x p] Red. recolor (@nil frame) Black. destruct (left_rotate_at [] st1 k _ _ _ _ _ _ _ H1) as (st2 & E2 & H2 & S2). rewrite E2, bind_Ok. cbn [plug] in H2, S2.
    rewrite (node_read [FL Black s b] _ _ _ _ _ _ H2), bind_Ok. cbn [right cell addr]. exists st2, (FL Black s b :: k), Red, a1, q, a2.
    split_and!; [done|done|done|by apply (proj2 (shape_up _ _ _ _))|by apply rbk_black|done|done|by left|rewrite <- all_up; unfold all; cbn; by list_assoc|within].
  - rewrite bool_decide_false by done. exists st, k, c, a, s, b. split_and!; try done; by right.
Qed.
Lemma right_sibling st c p u k x n : shape st (FR c u p :: k) x -> rbk (FR c u p :: k) (S n) ->
  exists st1 k1 c1 a s b, fix_deletion_right st p = fix_right_nephews st1 p s /\ rb a n /\ rb b n /\
    sibling_made st st1 k (FR c u p) x n k1 c1 (T c1 (T Black a s b) p x).
Proof.
  intros H Hk. destruct (rbk_down _ _ _ Hk) as (Hu & Hk' & Hcu & Hkc & Hnil). cbn [fsib fcolor] in *. unfold sibling_made. rewrite <- all_up.
  apply (proj1 (shape_up _ _ _ _)) in H. cbn [up] in *. unfold fix_deletion_right. rewrite (node_read [] _ _ _ _ _ _ H), bind_Ok. cbn [left cell].
  rewrite (is_red_read [FL c p x] _ _ _ H), bind_Ok. inversion Hu as [|a s b m Ha Hb Ca Cb|a s b m Ha Hb]; subst; cbn [tcolor addr] in *.
  - rewrite bool_decide_true by done. destruct c; [by specialize (Hcu eq_refl)|]. inversion Hb as [| |b1 q b2 m Hb1 Hb2]; subst; [done|].
    recolor [FL Black p x] Red. recolor (@nil frame) Black. destruct (right_rotate_at [] st1 k _ _ _ _ _ _ _ H1) as (st2 & E2 & H2 & S2). rewrite E2, bind_Ok. cbn [plug] in H2, S2.
    rewrite (node_read [FR Black a s] _ _ _ _ _ _ H2), bind_Ok. cbn [left cell addr]. exists st2, (FR Black a s :: k), Red, b1, q, b2.
    split_and!; [done|done|done|by apply (proj2 (shape_up _ _ _ _))|by apply rbk_black|done|done|by left|rewrite <- all_up; unfold all; cbn; by list_assoc|within].
  - rewrite bool_decide_false by done. exists st, k, c, a, s, b. split_and!; try done; by right.
Qed.

(** *** The loop *)

Section Delete.
Context (DEBUG_RBT DEBUG_RBT_DEEP : bool).

(** The repair ends in a red-black tree of the nodes [L]. *)
Definition settles (st : rbt) (L : list Z) (res : outcome rbt) : Prop :=
  exists st' t, res = Ok st' /\ holds st' t /\ elems t = L /\ same_out L st st'.

(** The root, or a red node, is reached: it turns black. *)
Lemma deletion_root st t n steps fuel par : shape st [] t -> rb (blacken t) n ->
  settles st (elems t) (loop (S fuel) (fix_deletion_body DEBUG_RBT) (st, root st, par, steps)).
Proof.
  intros H Hr. assert (Hset : exists st', set_color_if st (root st) Black = Ok st' /\ shape st' [] (blacken t) /\ same_out (elems t) st st').
  { destruct t as [|c l p r]; [exists st; rewrite (sh_root _ _ _ H); by split_and!; auto with charm|].
    destruct (blacken_root st _ H) as (st' & E1 & H1 & S1); [done|]. exists st'. split_and!; try done. rewrite set_color_if_ok; [done|].
    destruct H as [Hroot _ _ _ HO]. rewrite Hroot. cbn [kroot addr]. sep. }
  destruct Hset as (st' & E1 & H1 & S1). exists st', (blacken t). rewrite elems_blacken. split_and!; [|split; [done|]|done|done].
  - apply loop_done. unfold fix_deletion_body. by rewrite Z.eqb_refl, bind_Ok, E1.
  - split; [by destruct t|by exists n].
Qed.
Lemma deletion_red st k l p r n steps fuel par : shape st k (T Red l p r) -> rb l n -> rb r n -> rbk k (S n) ->
  settles st (all k (T Red l p r)) (loop (S fuel) (fix_deletion_body DEBUG_RBT) (st, p, par, steps)).
Proof.
  intros H Hl Hr Hk. destruct k as [|f k].
  - pose proof (deletion_root st _ (S n) steps fuel par H ltac:(by constructor)) as HR. rewrite (sh_root _ _ _ H) in HR. unfold all. cbn [kpre kpost app kroot addr] in *. by rewrite app_nil_r.
  - destruct (set_color_at_path [] st (f :: k) Red l p r Black H) as (st' & E1 & H1 & S1). exists st', (plug (f :: k) (T Black l p r)).
    assert (Hok : ok_addr p) by (destruct H as [_ _ _ _ HO]; sep). split_and!.
    + apply loop_done. unfold fix_deletion_body. rewrite (root_ne _ _ _ _ _ _ _ H). pose proof (is_black_read [] _ _ (T Red l p r) H) as Hb. cbn [tcolor addr] in Hb. rewrite Hb, bind_Ok.
      by rewrite bool_decide_false, set_color_if_ok, E1 by done.
    + split; [by apply shape_top in H1|]. apply (rb_join _ (S n)); [done|by constructor|done|done].
    + by rewrite elems_plug.
    + done.
Qed.
(** The node is black: a round of one of the two halves. *)
Lemma fix_deletion_go st f k x steps steps' n : shape st (f :: k) x -> rbk (f :: k) (S n) -> tcolor x = Black -> rbt_debug_step DEBUG_RBT steps = Ok steps' ->
  fix_deletion_body DEBUG_RBT (st, addr x, faddr f, steps) = match f with
    | FL _ p _ => r ← fix_deletion_left st p; Ok (inl (r, steps'))
    | FR _ _ p => r ← fix_deletion_right st p; Ok (inl (r, steps'))
    end.
Proof.
  intros H Hk Hc Hs. destruct (rbk_down _ _ _ Hk) as (Hu & _). unfold fix_deletion_body. destruct (H) as [Hroot _ _ HN HO].
  assert (Hne : (addr x =? root st) = false).
  { destruct x as [|cx l p r]; [|by apply (root_ne _ _ _ _ _ _ _ H)]. apply Z.eqb_neq. rewrite Hroot. cbn [addr kroot]. intros H0.
    destruct (kroot_in (f :: k) 0) as [[_ ?]|Hin]; [done|]. cbn [kroot] in Hin. rewrite <- H0 in Hin.
    assert (HO' : Forall ok_addr (kpre (f :: k) ++ kpost (f :: k))) by (eapply sub_oks; [exact HO|unfold all; cbn [elems app]; done]).
    rewrite list.Forall_forall in HO'. specialize (HO' 0 Hin). destruct HO'. lia. }
  rewrite Hne, (is_black_read [] _ _ x H), Hc, !bind_Ok, bool_decide_true by done. apply (proj1 (shape_up _ _ _ _)) in H.
  destruct f as [c p u|c u p]; cbn [faddr up fsib] in *; rewrite ok_ne0, Hs, !bind_Ok, (node_read [] _ _ _ _ _ _ H), !bind_Ok by sep; cbn [left cell].
  - by rewrite Z.eqb_refl.
  - destruct x as [|cx l q r]; cbn [addr]; [|by rewrite addr_ne by sep]. destruct u as [|cu ul v ur]; [by inversion Hu|].
    cbn [addr]. rewrite Z.eqb_sym, ok_ne0 by sep. done.
Qed.

Lemma settles_step st st1 L fuel s s' : fix_deletion_body DEBUG_RBT s = Ok (inl s') -> same_out L st st1 ->
  settles st1 L (loop fuel (fix_deletion_body DEBUG_RBT) s') -> settles st L (loop (S fuel) (fix_deletion_body DEBUG_RBT) s).
Proof. intros Eb S1 (st' & t & El & Hh & HL & S2). exists st', t. rewrite (loop_step _ _ _ _ Eb). split_and!; try done. by eapply so_trans. Qed.
Lemma deletion_settled st k t n fuel steps : shape st k t -> redblack (plug k t) -> (0 < fuel)%nat -> n = all k t ->
  settles st n (loop fuel (fix_deletion_body DEBUG_RBT) (st, root st, 0, steps)).
Proof.
  intros H Hr Hf ->. destruct fuel as [|fuel]; [lia|]. rewrite <- elems_plug. apply shape_top in H. destruct Hr as [Hc [n Hn]].
  apply (deletion_root st _ n); [done|]. by destruct (plug k t) as [|[] ? ? ?].
Qed.
Lemma deletion_round st st1 k f x n k1 c1 t1 l p r a b res s steps' fuel :
  sibling_made st st1 k f x n k1 c1 t1 -> nephews_done st1 k1 c1 n p a b t1 (T c1 l p r) res ->
  fix_deletion_body DEBUG_RBT s = (r ← res; Ok (inl (r, steps'))) -> elems (T c1 l p r) = elems t1 -> (0 < fuel)%nat ->
  (tcolor a = Black -> tcolor b = Black -> rb l n /\ rb r n) ->
  (forall st2, shape st2 k (T Black l p r) -> rb (T Black l p r) (S n) -> rbk k (S (S n)) ->
    settles st2 (all k (T Black l p r)) (loop fuel (fix_deletion_body DEBUG_RBT) (st2, p, kaddr k, steps'))) ->
  settles st (all (f :: k) x) (loop (S fuel) (fix_deletion_body DEBUG_RBT) s).
Proof.
  intros (H1 & Hk1 & Hkc & Hnil & Hor & HL & S1) (st' & S2 & Hn) Hbody HLt Hf Hab IH. rewrite HL in S2.
  assert (HL2 : all (f :: k) x = all k1 (T c1 l p r)) by (rewrite <- HL; unfold all; by rewrite HLt).
  destruct Hn as [(Ca & Cb & -> & H2)|(t' & -> & H2 & Hr' & Ct & HL')]; cbn [mbind outcome_bind] in Hbody;
    (eapply settles_step; [exact Hbody|by eapply so_trans|]).
  - destruct (Hab Ca Cb) as [Hl Hr]. rewrite HL2. destruct fuel as [|fuel]; [lia|]. destruct c1; [by apply (deletion_red _ _ _ _ _ n)|].
    destruct Hor as [Hor | ->]; [done|]. apply IH; [done|by constructor|done].
  - eapply deletion_settled; [exact H2| |done|by rewrite <- HL; unfold all; rewrite HL'].
    eapply rb_join; [exact Hk1|done|rewrite Ct; apply Hkc|rewrite Ct; apply Hnil].
Qed.
Lemma fix_deletion_loop : forall k st x n fuel steps, shape st k x -> rb x n -> tcolor x = Black -> rbk k (S n) ->
  (length k < fuel)%nat -> 0 <= steps -> steps + Z.of_nat (length k) <= 128 ->
  settles st (all k x) (loop fuel (fix_deletion_body DEBUG_RBT) (st, addr x, kaddr k, steps)).
Proof.
  induction k as [|f k IH]; intros st x n fuel steps H Hx Hc Hk Hf Hs Hb; (destruct fuel as [|fuel]; [lia|]).
  - assert (Hx' : rb (blacken x) n) by (by destruct x as [|[] ? ? ?]).
    pose proof (deletion_root st x n steps fuel 0 H Hx') as HR. rewrite (sh_root _ _ _ H) in HR. unfold all. cbn [kpre kpost app]. by rewrite app_nil_r.
  - cbn [length kaddr] in *. destruct (debug_step_ok DEBUG_RBT steps) as (steps' & Es & Hs'); [lia|].
    pose proof (fix_deletion_go st f k x steps steps' n H Hk Hc Es) as Hbody.
    destruct f as [c p u|c u p].
    + destruct (left_sibling st c p u k x n H Hk) as (st1 & k1 & c1 & a & s & b & E1 & Ha & Hb1 & Hm). rewrite E1 in Hbody.
      pose proof (left_nephews st1 k1 c1 x p a s b n (proj1 Hm) Hx Ha Hb1 Hc) as Hn.
      eapply (deletion_round _ _ _ _ _ _ _ _ _ _ p); [exact Hm|exact Hn|exact Hbody|done|lia|by intros; split; [|constructor]|].
      intros st2 H2 Hr2 Hk2. apply (IH st2 (T Black x p (T Red a s b)) (S n)); done || lia.
    + destruct (right_sibling st c p u k x n H Hk) as (st1 & k1 & c1 & a & s & b & E1 & Ha & Hb1 & Hm). rewrite E1 in Hbody.
      pose proof (right_nephews st1 k1 c1 x p a s b n (proj1 Hm) Hx Ha Hb1 Hc) as Hn.
      eapply (deletion_round _ _ _ _ _ _ _ _ _ _ p); [exact Hm|exact Hn|exact Hbody|done|lia|by intros; split; [constructor|]|].
      intros st2 H2 Hr2 Hk2. apply (IH st2 (T Black (T Red a s b) p x) (S n)); done || lia.
Qed.

Lemma fix_deletion_ok st k x n : shape st k x -> rb x n -> rbk k (S n) -> (length k <= 128)%nat -> settles st (all k x) (fix_deletion DEBUG_RBT st (addr x) (kaddr k)).
Proof.
  intros H Hx Hk Hd. unfold fix_deletion. pose proof (holds_rounds st k x H) as Hf. destruct (tcolor x) eqn:Ec.
  - destruct x as [|c l p r]; [done|]. cbn in Ec. subst c. inversion Hx; subst. destruct (rounds st) as [|fuel]; [lia|]. by apply (deletion_red _ _ _ _ _ n).
  - apply (fix_deletion_loop _ _ _ n); done || lia.
Qed.

(** *** Taking the node out *)

(** The invariant of a context does not depend on the addresses on the path. *)
Lemma rbk_same k1 n : rbk k1 n -> forall k2, (fun f => (fcolor f, fsib f)) <$> k2 = (fun f => (fcolor f, fsib f)) <$> k1 -> rbk k2 n.
Proof.
  induction 1 as [n|f g k n Hf Hg Hs Hc Hk IH|f k n Hf Hs Hk IH]; intros k2 Heq.
  - destruct k2; [constructor|done].
  - destruct k2 as [|f2 [|g2 k2]]; try done. cbn in Heq. injection Heq as E1 E2 E3 E4 E5. apply rbk_red; [congruence|congruence|by rewrite E2|by rewrite E2|].
    apply IH. cbn. by rewrite E3, E4, E5.
  - destruct k2 as [|f2 k2]; [done|]. cbn in Heq. injection Heq as E1 E2 E3. apply rbk_black; [congruence|by rewrite E2|by apply IH].
Qed.
Lemma redblack_same k1 k2 t : (fun f => (fcolor f, fsib f)) <$> k2 = (fun f => (fcolor f, fsib f)) <$> k1 -> redblack (plug k1 t) -> redblack (plug k2 t).
Proof.
  intros Heq (n & Hk & Ht & Hc & Hn)%rb_split. apply (rb_join k2 n); [by eapply rbk_same|done|..]; destruct k1, k2; try done. cbn in *. injection Heq as -> _ _. done.
Qed.
(** The node [z] of colour [c] goes and a child of it takes its place. *)
Lemma unlink_rb k c l z r x : redblack (plug k (T c l z r)) -> x = l \/ x = r -> exists n, rb x n /\ rbk k (above c n) /\ (c = Red -> redblack (plug k x)).
Proof.
  intros H Hx. destruct (rb_split k _ H) as (m & Hk & Ht & Hc & Hn). inversion Ht; subst.
  - exists m. assert (Hr : rb x m /\ tcolor x = Black) by (by destruct Hx as [-> | ->]). destruct Hr as [Hr Cx]. split_and!; [done|done|]. intros _. by eapply rb_join.
  - exists n. split_and!; [by destruct Hx as [-> | ->]|done|done].
Qed.

(** The tree without [z], with the place [k'] where a black node [y] may lack. *)
Definition unlinked (st : rbt) (M L : list Z) (res : outcome (rbt * rbt_node_color * Z * Z)) : Prop :=
  exists st' cy x k' n, res = Ok (st', cy, addr x, kaddr k') /\ shape st' k' x /\ all k' x = L /\ rb x n /\ rbk k' (above cy n) /\
    (cy = Red -> redblack (plug k' x)) /\ (length k' <= 128)%nat /\ same_out M st st'.

Lemma unlink_one st k c l z r x q : shape st k (T c l z r) -> redblack (plug k (T c l z r)) -> x = l \/ x = r -> rep (nodes st) z x ->
  elems x = elems l ++ elems r -> q = addr x ->
  unlinked st (all k (T c l z r)) (kpre k ++ elems l ++ elems r ++ kpost k) (t ← rb_transplant st z q; Ok (t, c, q, kaddr k)).
Proof.
  intros H Hrb Hx Hrx HL ->. pose proof (holds_depth _ _ _ H Hrb). destruct (unlink_rb k c l z r x Hrb Hx) as (n & Hrn & Hk & Hred).
  destruct H as [Hroot Hkr (Hz & Hl & Hr) HN HO]. cbn [addr] in *.
  assert (Hsub : z :: elems x ++ kpre k ++ kpost k ⊆+ all k (T c l z r)) by (rewrite HL; sub).
  destruct (transplant_rep st k z _ _ c x z Hkr Hroot Hz Hrx) as (st' & E1 & Hk1 & R1 & Hx1 & S1); [apply ok_even; sep|by eapply nd_sub|by eapply sub_oks|].
  exists st', c, x, k, n. rewrite E1. split_and!; try done; try lia; [| |eapply so_sub; [|exact S1]; rewrite HL; sub].
  - split; try done; [eapply nd_sub; [exact HN|]|eapply sub_oks; [exact HO|]]; unfold all; rewrite HL; sub.
  - unfold all. by rewrite HL, <- !app_assoc.
Qed.

Lemma kpre_app k1 k2 : kpre (k1 ++ k2) = kpre k2 ++ kpre k1.
Proof. induction k1 as [|[] k1 IH]; cbn; [by rewrite app_nil_r|done|]. by rewrite IH, <- app_assoc. Qed.
Lemma kpost_app k1 k2 : kpost (k1 ++ k2) = kpost k1 ++ kpost k2.
Proof. induction k1 as [|[] k1 IH]; cbn; [done| |done]. by rewrite IH, <- app_assoc. Qed.

(** The successor [y] of a node with two children is the leftmost of its right
    subtree: at the child itself, or deeper. *)
Lemma two_shallow st k c l z cy y yr : shape st k (T c l z (T cy E y yr)) -> exists st',
  (t ← rb_transplant st z y; nz ← node t z; t ← set_left t y (left nz); t ← set_parent_if t (left nz) y; c ← rbt_color t z; rbt_set_color t y c) = Ok st' /\
  shape st' (FR c l y :: k) yr /\ same_out (all k (T c l z (T cy E y yr))) st st'.
Proof.
  intros [Hroot Hk (Hz & Hl & Hy) HN HO]. cbn [addr] in *.
  destruct (splice_rep st k c l z y cy y yr z) as (st' & E1 & H1 & S1); try done; [sep..|]. exists st'. split_and!; [done|by apply (proj2 (shape_up _ _ _ _))|].
  eapply so_sub; [|exact S1]. sub.
Qed.
Lemma two_deep st k c l z kr cy y yr : shape st k (T c l z (plug kr (T cy E y yr))) -> exists st1 nz st2 st3 st',
  rb_transplant st y (addr yr) = Ok st1 /\ node st1 z = Ok nz /\ set_right st1 y (right nz) = Ok st2 /\ set_parent_if st2 (right nz) y = Ok st3 /\
  (t ← rb_transplant st3 z y; nz ← node t z; t ← set_left t y (left nz); t ← set_parent_if t (left nz) y; c ← rbt_color t z; rbt_set_color t y c) = Ok st' /\
  shape st' (kr ++ FR c l y :: k) yr /\ same_out (all k (T c l z (plug kr (T cy E y yr)))) st st'.
Proof.
  intros H. assert (HA : shape st (kr ++ FR c l z :: k) (T cy E y yr)) by (by apply shape_plug, shape_up).
  destruct H as [_ _ _ HN HO]. destruct HA as [Hroot Hk (Hy & _ & Hyr) _ _]. cbn [addr] in *. set (K := kr ++ FR c l z :: k) in *. set (r := plug kr yr).
  assert (HL : elems r = kpre kr ++ elems yr ++ kpost kr) by apply elems_plug.
  assert (HM : z :: y :: elems l ++ elems r ++ kpre k ++ kpost k ≡ₚ all k (T c l z (plug kr (T cy E y yr)))).
  { rewrite HL. unfold all. cbn [elems]. rewrite elems_plug. unfold all. cbn [elems]. solve_Permutation. }
  assert (HK : elems yr ++ kpre K ++ kpost K ≡ₚ z :: elems l ++ elems r ++ kpre k ++ kpost k).
  { unfold K. rewrite HL, kpre_app, kpost_app. cbn [kpre kpost]. solve_Permutation. }
  setoid_rewrite <- HM. rewrite <- HM in HN, HO. clear HM.
  destruct (transplant_rep st K y _ _ cy yr y Hk Hroot Hy Hyr) as (st1 & E1 & Hk1 & R1 & Hyr1 & S1); [sep|rewrite HK; sep|rewrite HK; sep|].
  assert (H1 : shape st1 k (T c l z r)).
  { apply (proj1 (shape_up _ (FR c l z) _ _)), (proj1 (shape_plug _ _ _ _)). change (shape st1 K yr). split; try done; rewrite all_perm, HK; sep. }
  assert (Hy1 : nodes st1 !! y = Some (cell 0 (addr yr) (kaddr K) cy)) by (rewrite (so_out _ _ _ S1); [done|]; rewrite HK; sep).
  assert (HeK : even (kaddr K)) by (apply kaddr_even; eapply sub_oks; [exact HO|]; transitivity (elems yr ++ kpre K ++ kpost K); [solve_submseteq|rewrite HK; solve_submseteq]).
  rewrite HK in S1. destruct H1 as [Hr1 Hkr1 (Hz1 & Hl1 & Hrr1) _ _]. cbn [addr] in *.
  pose proof (so_put st1 y _ (cell 0 (addr r) (kaddr K) cy) Hy1) as S2. set (st2 := put_node st1 y (cell 0 (addr r) (kaddr K) cy)) in *.
  destruct (reparent st2 z r y) as (st3 & E3 & R3 & Hr3 & S3); [keep|sep..|].
  destruct (splice_rep st3 k c l z (addr r) cy y r (kaddr K)) as (st' & E' & H' & S'); [keep|by rewrite R3|keep|keep| |done|sep|sep|].
  { cbn [rep addr]. split_and!; [|done|done]. rewrite (so_out _ _ _ S3) by sep. cbn. by rewrite lookup_insert_eq. }
  exists st1, (cell (addr l) (addr r) (kaddr k) c), st2, st3, st'. rewrite (node_at st1 z _ ltac:(sep) Hz1), (set_right_at st1 y _ _ ltac:(sep) Hy1).
  split_and!; try done; [|within]. by apply shape_plug, shape_up.
Qed.

Lemma splice_bind {B} st z y (K : rbt -> outcome B) :
  (t ← rb_transplant st z y; nz ← node t z; t ← set_left t y (left nz); t ← set_parent_if t (left nz) y; c ← rbt_color t z; t ← rbt_set_color t y c; K t) =
  (t ← (t ← rb_transplant st z y; nz ← node t z; t ← set_left t y (left nz); t ← set_parent_if t (left nz) y; c ← rbt_color t z; rbt_set_color t y c); K t).
Proof. repeat first [done|match goal with |- context [mbind _ ?e] => destruct e; cbn [mbind outcome_bind] end]. Qed.

Lemma unlink_two st k c l z r : shape st k (T c l z r) -> redblack (plug k (T c l z r)) -> r <> E ->
  unlinked st (all k (T c l z r)) (kpre k ++ elems l ++ elems r ++ kpost k) (delete_two DEBUG_RBT st z).
Proof.
  intros H Hrb Hne. destruct (find_min_ok DEBUG_RBT st (FR c l z :: k) r) as (kr & cy & y & yr & Er & Hkr & Em); [by apply shape_up|done|done|]. subst r.
  unfold delete_two. rewrite (node_read [] _ _ _ _ _ _ H), bind_Ok. cbn [right cell]. rewrite Em, bind_Ok.
  assert (HA : shape st (kr ++ FR c l z :: k) (T cy E y yr)) by (by apply shape_plug, shape_up). assert (Hrb' : redblack (plug (kr ++ FR c l z :: k) (T cy E y yr))) by (by rewrite plug_app).
  pose proof (holds_depth _ _ _ HA Hrb') as Hd. destruct (unlink_rb _ _ _ _ _ yr Hrb') as (n & Hyr & HK & Hred); [by right|].
  rewrite (color_read [] _ _ _ _ _ _ HA), (node_read [] _ _ _ _ _ _ HA), !bind_Ok. cbn [app right cell]. change (mkNode _ _ _) with (cell 0 (addr yr) (kaddr (kr ++ FR c l z :: k)) cy).
  rewrite parent_cell by (destruct HA as [_ _ _ HN HO]; sep).
  assert (Hfin : forall st' res, res = Ok (st', cy, addr yr, kaddr (kr ++ FR c l y :: k)) -> shape st' (kr ++ FR c l y :: k) yr ->
    same_out (all k (T c l z (plug kr (T cy E y yr)))) st st' -> unlinked st (all k (T c l z (plug kr (T cy E y yr)))) (kpre k ++ elems l ++ elems (plug kr (T cy E y yr)) ++ kpost k) res).
  { intros st' res -> H' S'. assert (Hkey : (fun f => (fcolor f, fsib f)) <$> (kr ++ FR c l y :: k) = (fun f => (fcolor f, fsib f)) <$> (kr ++ FR c l z :: k)) by (by rewrite !fmap_app).
    exists st', cy, yr, (kr ++ FR c l y :: k), n. split_and!; try done; [|by eapply rbk_same|by intros ?; eapply redblack_same; [|apply Hred]|rewrite length_app in *; cbn in *; lia].
    rewrite elems_plug. unfold all. rewrite kpre_app, kpost_app, Hkr. cbn. by rewrite !app_nil_r, <- !app_assoc. }
  destruct kr as [|f kr].
  - cbn [app kaddr faddr plug] in *. rewrite Z.eqb_refl. cbn [negb]. rewrite bind_Ok. destruct (two_shallow _ _ _ _ _ _ _ _ H) as (st' & E1 & H1 & S1).
    rewrite splice_bind, E1, bind_Ok. by eapply Hfin.
  - cbn [app kaddr] in *. assert (Hz : faddr f <> z) by (destruct HA as [_ _ _ HN _]; destruct f; cbn [faddr]; unfold all in HN; cbn [kpre kpost] in HN; rewrite kpre_app, kpost_app in HN; cbn [kpre kpost] in HN; sep).
    rewrite (proj2 (Z.eqb_neq _ _) Hz). cbn [negb]. destruct (two_deep _ _ _ _ _ _ _ _ _ H) as (st1 & nz & st2 & st3 & st' & E1 & E2 & E3 & E4 & E5 & H' & S').
    rewrite E1, bind_Ok, E2, bind_Ok, E3, bind_Ok, E4, !bind_Ok, splice_bind, E5, bind_Ok. by eapply Hfin.
Qed.

Lemma repair_ok st L res M : unlinked st M L res -> exists st1 t, (r ← res; let '(t, y_original_color, x, x_parent) := r in
    if bool_decide (y_original_color = Black) then fix_deletion DEBUG_RBT t x x_parent else Ok t) = Ok st1 /\
  holds st1 t /\ elems t = L /\ (L ⊆+ M -> same_out M st st1).
Proof.
  intros (st' & cy & x & k & n & -> & H & HL & Hx & Hk & Hred & Hd & S1). rewrite bind_Ok. destruct cy.
  - rewrite bool_decide_false by done. exists st', (plug k x). split_and!; [done| |by rewrite elems_plug|done]. split; [by apply (proj1 (shape_top _ _ _))|by apply Hred].
  - rewrite bool_decide_true by done. destruct (fix_deletion_ok st' k x n) as (st1 & t & E1 & H1 & HL1 & S2); try done. exists st1, t. rewrite HL in *.
    split_and!; try done. intros HLM. eapply so_trans; [exact S1|]. by eapply so_sub.
Qed.

Lemma land_1_bit w : exists c, Z.land w 1 = color_bit c.
Proof.
  change 1 with (Z.ones 1). rewrite Z.land_ones by lia. pose proof (Z.mod_pos_bound w (2 ^ 1) ltac:(lia)). change (2 ^ 1) with 2 in *.
  destruct (decide (w mod 2 = 0)) as [E0|E0]; [exists Red|exists Black]; cbn; lia.
Qed.
(** The last writes: the node forgets its links. *)
Lemma forget st z n0 : ok_addr z -> nodes st !! z = Some n0 -> exists st' c, (forall B (K : rbt -> outcome B),
    (t ← set_left st z 0; t ← set_right t z 0; t ← rbt_set_parent t z 0; K t) = K st') /\ root st' = root st /\
  nodes st' !! z = Some (cell 0 0 0 c) /\ same_out [z] st st'.
Proof.
  intros Hok Hn. destruct (land_1_bit (parent_data n0)) as [c Hc]. set (n1 := mkNode 0 (right n0) (parent_data n0)). set (n2 := mkNode 0 0 (parent_data n0)).
  pose proof (so_put st z _ n1 Hn) as S1. assert (H1 : nodes (put_node st z n1) !! z = Some n1) by (cbn; by rewrite lookup_insert_eq).
  pose proof (so_put _ z _ n2 H1) as S2. assert (H2 : nodes (put_node (put_node st z n1) z n2) !! z = Some n2) by (cbn; by rewrite lookup_insert_eq).
  assert (H3 : with_parent n2 0 = cell 0 0 0 c) by (unfold with_parent, cell; cbn [left right parent_data n2]; by rewrite Z.lor_comm, Hc).
  pose proof (so_put _ z _ (cell 0 0 0 c) H2) as S3. eexists _, c. split_and!; [|shelve|shelve|eapply so_trans; [eapply so_trans|]; [exact S1|exact S2|exact S3]].
  Unshelve. 2: done. 2: cbn; by rewrite lookup_insert_eq.
  intros B K. rewrite (set_left_at st z _ 0 Hok Hn), bind_Ok. fold n1. rewrite (set_right_at _ z _ 0 Hok H1), bind_Ok. cbn [left parent_data n1]. fold n2.
  unfold rbt_set_parent. change (Z.land 0 1 =? 0) with true. cbn [enforce]. by rewrite bind_Ok, (node_at _ z _ Hok H2), !bind_Ok, H3.
Qed.

Lemma delete_ok st t z (l1 l2 : list Z) : holds st t -> elems t = l1 ++ z :: l2 -> exists st' t' c,
  rbt_delete DEBUG_RBT DEBUG_RBT_DEEP st z = Ok st' /\ holds st' t' /\ elems t' = l1 ++ l2 /\ nodes st' !! z = Some (cell 0 0 0 c) /\ same_out (elems t) st st'.
Proof.
  intros Hh HL. destruct (holds_nodup _ _ Hh) as [HN HO]. destruct (holds_at st t z Hh) as (k & c & l & r & -> & H & Hrb); [rewrite HL; set_solver|].
  assert (Heq : l1 ++ z :: l2 = (kpre k ++ elems l) ++ z :: elems r ++ kpost k) by (rewrite <- HL, elems_plug; unfold all; cbn [elems]; by list_assoc).
  rewrite HL in HN, HO. destruct (nodup_split _ _ _ _ _ HN Heq) as [-> ->]. rewrite HL. clear HL Heq.
  unfold rbt_delete. rewrite (node_read [] _ _ _ _ _ _ H), bind_Ok. cbn [left right cell app]. change (mkNode _ _ _) with (cell (addr l) (addr r) (kaddr k) c).
  rewrite parent_cell, color_cell by (destruct H as [_ _ _ HN' HO']; sep).
  assert (Henf : negb (kaddr k =? 0) || (z =? root st) = true).
  { destruct H as [Hroot _ _ HN' HO']. destruct k as [|f k]; [rewrite Hroot; cbn; apply Z.eqb_refl|]. cbn [kaddr]. rewrite ok_ne0; [done|]. destruct f; cbn [faddr]; sep. }
  rewrite Henf. cbn [enforce]. rewrite bind_Ok, (check_linked_ok _ _ _ _ _ _ _ H Hrb), bind_Ok, (debug_validate_ok _ _ _ Hh), bind_Ok.
  assert (Hun : unlinked st (all k (T c l z r)) (kpre k ++ elems l ++ elems r ++ kpost k) (if addr l =? 0 then t ← rb_transplant st z (addr r); Ok (t, c, addr r, kaddr k)
    else if addr r =? 0 then t ← rb_transplant st z (addr l); Ok (t, c, addr l, kaddr k) else delete_two DEBUG_RBT st z)).
  { destruct (sh_tree _ _ _ H) as (_ & Hl & Hr). destruct (H) as [_ _ _ _ HO'].
    destruct l as [|cl ll pl rl]; [apply (unlink_one _ _ _ _ _ _ r); auto|cbn [addr]; rewrite ok_ne0 by sep].
    destruct r as [|cr lr pr rr]; [apply (unlink_one _ _ _ _ _ _ (T cl ll pl rl)); auto; cbn; by rewrite app_nil_r|cbn [addr]; rewrite ok_ne0 by sep]. by apply unlink_two. }
  destruct (repair_ok _ _ _ _ Hun) as (st1 & t1 & E1 & H1 & HL1 & S1). clear Hun.
  set (res := if addr l =? 0 then _ else _) in *. destruct res as [[[[t yc] x] xp]| |]; [|done|done]. rewrite bind_Ok in E1. rewrite bind_Ok, E1, bind_Ok.
  assert (S1' : same_out (all k (T c l z r)) st st1) by (apply S1; sub). clear S1. destruct (node_shape [] st k c l z r H) as (Hok & _ & Hz).
  assert (Hz1 : z ∈ dom (nodes st1)) by (rewrite (so_dom _ _ _ S1'); by eapply elem_of_dom_2). apply elem_of_dom in Hz1 as [n1 Hz1].
  destruct (forget st1 z n1 Hok Hz1) as (st2 & c2 & E2 & R2 & Hz2 & S2). rewrite E2. assert (H2 : holds st2 t1).
  { eapply holds_same; [exact S2|done| |done]. rewrite HL1. intros p Hp ->%list_elem_of_singleton. destruct H as [_ _ _ HN' _].
    assert (Hnz : z ∉ kpre k ++ elems l ++ elems r ++ kpost k) by sep. done. }
  rewrite (debug_validate_ok _ _ _ H2), bind_Ok. exists st2, t1, c2. split_and!; try done; [rewrite HL1; by list_assoc|].
  eapply so_trans; [|eapply so_sub; [|exact S2]; solve_submseteq]. eapply so_sub; [|exact S1']. unfold all. cbn [elems]. list_assoc. solve_submseteq.
Qed.
End Delete.
