(* ===== verification/RbtApi.v ===== *)
(** * The red-black tree: what the operations promise

    The tree as its callers see it: the list of its nodes in order.  Inserting,
    deleting, moving and putting back a node change the list as stated, the
    queries and the iteration read it, and no check of the debug builds fires. *)

From stdpp Require Import sorting.
From S2P Require Import Prelude Rbt RbtShape RbtInv RbtWalk RbtInsert RbtDelete.

(** The memory holds a red-black tree with the nodes [L] in order. *)
Definition tree_of (st : rbt) (L : list Z) : Prop := exists t, holds st t /\ elems t = L.

Lemma tree_of_ok st L : tree_of st L -> NoDup L /\ Forall ok_addr L.
Proof. intros (t & H & <-). by apply (holds_nodup st). Qed.
Lemma tree_of_dom st L p : tree_of st L -> p ∈ L -> p ∈ dom (nodes st).
Proof. intros (t & [[_ _ Ht _ _] _] & <-) Hp. by eapply rep_dom. Qed.
Lemma tree_of_nil h : tree_of (mkRbt 0 h) [].
Proof. exists E. split; [|done]. split; [by split; try done; constructor|]. split; [done|]. exists 0%nat. constructor. Qed.
(** A change elsewhere in the memory does not matter. *)
Lemma tree_of_same L' st st' L : same_out L' st st' -> root st' = root st -> (forall p, p ∈ L -> p ∉ L') -> tree_of st L -> tree_of st' L.
Proof. intros HS Hr Hd (t & H & <-). exists t. split; [by eapply holds_same|done]. Qed.
Lemma tree_of_agree st st' L : (forall p, p ∈ L -> nodes st' !! p = nodes st !! p) -> root st' = root st -> tree_of st L -> tree_of st' L.
Proof. intros Ha Hr (t & [[H1 _ H3 H4 H5] Hrb] & <-). exists t. split; [|done]. split; [|done]. split; [by rewrite Hr|done|by eapply rep_agree|done|done]. Qed.

Section Search.
Context (get_data : Z -> Z).

Lemma tree_predecessor st L data : tree_of st L -> StronglySorted (by_data get_data) L ->
  rbt_find_predecessor get_data st data = Ok (default 0 (list.last (filter (fun p => get_data p < data) L))).
Proof.
  intros (t & H & <-) Hs. destruct (holds_rep st t H) as (Hr & Ht & _ & Hf). destruct (holds_nodup st t H) as [_ HO]. unfold rbt_find_predecessor. rewrite Hr. by eapply predecessor_loop.
Qed.
Lemma tree_successor st L data : tree_of st L -> StronglySorted (by_data get_data) L ->
  rbt_find_successor get_data st data = Ok (default 0 (head (filter (fun p => data < get_data p) L))).
Proof.
  intros (t & H & <-) Hs. destruct (holds_rep st t H) as (Hr & Ht & _ & Hf). destruct (holds_nodup st t H) as [_ HO]. unfold rbt_find_successor. rewrite Hr. by eapply successor_loop.
Qed.
Lemma tree_search st L data : tree_of st L -> StronglySorted (by_data get_data) L -> exists p, rbt_search_internal get_data st (root st) data = Ok p /\
  ((p ∈ L /\ get_data p = data) \/ (p = 0 /\ forall q, q ∈ L -> get_data q <> data)).
Proof.
  intros (t & H & <-) Hs. destruct (holds_rep st t H) as (Hr & Ht & _ & Hf). destruct (holds_nodup st t H) as [_ HO]. unfold rbt_search_internal. rewrite Hr. by eapply search_loop.
Qed.
End Search.

Section Api.
Context (compare : Z -> Z -> Z) (DEBUG_RBT DEBUG_RBT_DEEP DEBUG_LOCK_CHK : bool).

Lemma tree_min st L : tree_of st L -> rbt_min DEBUG_RBT st = Ok (default 0 (head L)).
Proof. intros (t & H & <-). by apply min_ok. Qed.
Lemma tree_max st L : tree_of st L -> rbt_max DEBUG_RBT st = Ok (default 0 (list.last L)).
Proof. intros (t & H & <-). by apply max_ok. Qed.
Lemma tree_first st L : tree_of st L -> rbt_first st = Ok (default 0 (head L)).
Proof. intros (t & H & <-). by apply first_ok. Qed.
Lemma tree_last st L : tree_of st L -> rbt_last st = Ok (default 0 (list.last L)).
Proof. intros (t & H & <-). by apply last_ok. Qed.
Lemma tree_next st l1 p l2 : tree_of st (l1 ++ p :: l2) -> rbt_next DEBUG_RBT st p = Ok (default 0 (head l2)).
Proof. intros (t & H & HL). by eapply neighbours. Qed.
Lemma tree_prev st l1 p l2 : tree_of st (l1 ++ p :: l2) -> rbt_prev st p = Ok (default 0 (list.last l1)).
Proof. intros (t & H & HL). by eapply (neighbours DEBUG_RBT). Qed.
Lemma tree_delete st l1 z l2 : tree_of st (l1 ++ z :: l2) -> exists st' c, rbt_delete DEBUG_RBT DEBUG_RBT_DEEP st z = Ok st' /\
  tree_of st' (l1 ++ l2) /\ nodes st' !! z = Some (cell 0 0 0 c) /\ same_out (l1 ++ z :: l2) st st'.
Proof.
  intros (t & H & HL). destruct (delete_ok DEBUG_RBT DEBUG_RBT_DEEP st t z l1 l2 H HL) as (st' & t' & c & E1 & H1 & HL1 & Hz & S1).
  exists st', c. rewrite HL in S1. split_and!; try done. by exists t'.
Qed.

Lemma tree_remove (get_data : Z -> Z) st L data : tree_of st L -> StronglySorted (by_data get_data) L -> exists st', rbt_remove get_data DEBUG_RBT DEBUG_RBT_DEEP st data = Ok st' /\
  ((st' = st /\ forall q, q ∈ L -> get_data q <> data) \/ exists l1 p l2, L = l1 ++ p :: l2 /\ get_data p = data /\ tree_of st' (l1 ++ l2)).
Proof.
  intros H Hs. unfold rbt_remove. destruct (tree_search get_data st L data H Hs) as (p & -> & [[Hp Hd]|[-> Hp]]); rewrite bind_Ok; [|by exists st; split; [|left]].
  destruct (tree_of_ok st L H) as [_ HO]. rewrite list.Forall_forall in HO. rewrite ok_ne0 by (by apply HO). apply list_elem_of_split in Hp as (l1 & l2 & ->).
  destruct (tree_delete st l1 p l2 H) as (st' & c & -> & H1 & _). exists st'. split; [done|right]. by exists l1, p, l2.
Qed.

Context `{!NodeOrder compare}.

Lemma tree_insert st L new : tree_of st L -> ordered compare L -> ok_addr new -> new ∉ L -> new ∈ dom (nodes st) ->
  exists st', rbt_insert compare DEBUG_RBT DEBUG_RBT_DEEP DEBUG_LOCK_CHK st new = Ok st' /\ tree_of st' (put_ordered compare new L) /\ same_out (new :: L) st st'.
Proof.
  intros (t & H & <-) Hs Hok Hn [n0 Hd]%elem_of_dom. destruct (insert_ok compare DEBUG_RBT DEBUG_RBT_DEEP DEBUG_LOCK_CHK st t new n0) as (st' & t' & E1 & H1 & HL1 & S1); try done.
  exists st'. split_and!; try done. by exists t'.
Qed.

(** Between its neighbours, a node is in order. *)
Lemma ordered_between l1 p l2 : ordered compare (l1 ++ l2) -> ordered compare (l1 ++ p :: l2) <->
  (forall x, list.last l1 = Some x -> compare x p <= 0) /\ (forall y, head l2 = Some y -> compare p y <= 0).
Proof.
  unfold ordered. rewrite !StronglySorted_app, StronglySorted_cons. intros (Hd & H1 & H2). split.
  - intros (Hp & _ & Hpl & _). split; [intros x Hx; apply Hp; [by eapply last_Some_elem_of|set_solver]|]. rewrite list.Forall_forall in Hpl. intros y Hy. apply Hpl. destruct l2; set_solver.
  - intros [Hl Hr]. assert (Hlp : forall x, x ∈ l1 -> compare x p <= 0).
    { destruct (list.last l1) as [y|] eqn:Ey; [|by apply last_None in Ey as ->; intros x ?%elem_of_nil]. apply last_Some in Ey as [l ->]. specialize (Hl y eq_refl).
      intros x [Hx| ->%list_elem_of_singleton]%elem_of_app; [|done]. apply (cmp_trans x y p); [|done]. apply StronglySorted_app in H1 as (Hxy & _). apply Hxy; set_solver. }
    assert (Hpr : forall y, y ∈ l2 -> compare p y <= 0).
    { destruct l2 as [|z l2]; [by intros y ?%elem_of_nil|]. specialize (Hr z eq_refl). intros y [->|Hy]%elem_of_cons; [done|]. apply (cmp_trans p z y); [done|].
      apply StronglySorted_cons in H2 as [Hz _]. rewrite list.Forall_forall in Hz. by apply Hz. }
    split_and!; try done; [|by apply list.Forall_forall]. intros x y Hx [->|Hy]%elem_of_cons; [by apply Hlp|by apply Hd].
Qed.

Lemma position_valid_ok st l1 p l2 : tree_of st (l1 ++ p :: l2) -> ordered compare (l1 ++ l2) -> exists b,
  rbt_position_valid compare DEBUG_RBT st p = Ok b /\ (b = true <-> ordered compare (l1 ++ p :: l2)).
Proof.
  intros H Hs. pose proof (ordered_between l1 p l2 Hs) as Hob. unfold rbt_position_valid. rewrite (tree_prev st l1 p l2 H), (tree_next st l1 p l2 H), bind_Ok.
  destruct (tree_of_ok st _ H) as [_ HO]. rewrite list.Forall_forall in HO.
  assert (Hl : negb (default 0 (list.last l1) =? 0) && (0 <? compare (default 0 (list.last l1)) p) = false <-> forall x, list.last l1 = Some x -> compare x p <= 0).
  { destruct (list.last l1) as [x|] eqn:Ex; cbn [default from_option]; unfold id; [|by cbn; split]. rewrite ok_ne0 by (apply HO, elem_of_app; left; by eapply last_Some_elem_of).
    cbn [negb andb]. rewrite Z.ltb_ge. split; [by intros ? ? [= <-]|auto]. }
  assert (Hr : negb (default 0 (head l2) =? 0) && (0 <? compare p (default 0 (head l2))) = false <-> forall y, head l2 = Some y -> compare p y <= 0).
  { destruct l2 as [|y l2]; cbn [head default from_option]; unfold id; [by cbn; split|]. rewrite ok_ne0 by (apply HO; set_solver).
    cbn [negb andb]. rewrite Z.ltb_ge. split; [by intros ? ? [= <-]|auto]. }
  destruct (negb _ && _) eqn:El in |- *.
  - exists false. split; [done|]. rewrite Hob. split; [done|]. intros [Hx _]. apply Hl in Hx. congruence.
  - rewrite bind_Ok. eexists. split; [done|]. rewrite Hob, negb_true_iff, Hr. rewrite El in Hl. split; [intros ?; split; [by apply Hl|done]|by intros [_ ?]].
Qed.
Lemma put_ordered_ok new L : ordered compare L -> ordered compare (put_ordered compare new L) /\ put_ordered compare new L ≡ₚ new :: L.
Proof. intros Hs. split; [by apply put_ordered_sorted|apply put_ordered_perm]. Qed.
End Api.

(** Comparing keys as the callers do, [(l > r) - (l < r)], orders the nodes. *)
Definition key_cmp (key : Z -> Z) (a b : Z) : Z := Z.b2z (key b <? key a) - Z.b2z (key a <? key b).
Lemma key_cmp_le key a b : key_cmp key a b <= 0 <-> key a <= key b.
Proof. unfold key_cmp. destruct (Z.ltb_spec (key b) (key a)), (Z.ltb_spec (key a) (key b)); cbn; lia. Qed.
Lemma key_cmp_lt key a b : key_cmp key a b < 0 <-> key a < key b.
Proof. unfold key_cmp. destruct (Z.ltb_spec (key b) (key a)), (Z.ltb_spec (key a) (key b)); cbn; lia. Qed.
#[export] Instance key_cmp_order key : NodeOrder (key_cmp key).
Proof.
  split.
  - intros a b. rewrite key_cmp_lt. unfold key_cmp. destruct (Z.ltb_spec (key b) (key a)), (Z.ltb_spec (key a) (key b)); cbn; lia.
  - intros a b c. rewrite !key_cmp_le. lia.
Qed.
Lemma key_cmp_ordered key L : ordered (key_cmp key) L <-> StronglySorted (by_data key) L.
Proof.
  unfold ordered, by_data. induction L as [|x L IH]; [by split; constructor|]. rewrite !StronglySorted_cons, IH, !list.Forall_forall.
  by setoid_rewrite key_cmp_le.
Qed.

(** Three nodes in a tree, and two outside of it. *)
Definition three : tree := T Black (T Red E 16 E) 32 (T Red E 48 E).
Definition three_mem : rbt := mkRbt 32 (list_to_map [(16, cell 0 0 32 Red); (32, cell 16 48 0 Black); (48, cell 0 0 32 Red); (64, cell 0 0 0 Black); (80, cell 0 0 0 Red)]).
Lemma three_holds : tree_of three_mem [16; 32; 48].
Proof.
  exists three. split; [|done]. split; [|split; [done|]; exists 1%nat; by repeat constructor]. split; try done.
  - apply (bool_decide_unpack _). by vm_compute.
  - change (Forall ok_addr [16; 32; 48]). repeat constructor; by vm_compute.
Defined.

(** ** The correctness of the operations *)

(** C13: In every build (each debug check on or off), inserting an aligned node
    that is in memory and not in the tree returns; the nodes in order are then
    those before with the new node behind the last one it does not precede,
    which is an ordered list, the tree is a red-black tree, and no node outside
    the tree is touched. *)
Theorem rbt_insert_correct (compare : Z -> Z -> Z) `{!NodeOrder compare} (DEBUG_RBT DEBUG_RBT_DEEP DEBUG_LOCK_CHK : bool) st L new :
  tree_of st L -> ordered compare L -> ok_addr new -> new ∉ L -> new ∈ dom (nodes st) ->
  exists st', rbt_insert compare DEBUG_RBT DEBUG_RBT_DEEP DEBUG_LOCK_CHK st new = Ok st' /\ tree_of st' (put_ordered compare new L) /\
    ordered compare (put_ordered compare new L) /\ put_ordered compare new L ≡ₚ new :: L /\ same_out (new :: L) st st'.
Proof.
  intros H Hs Hok Hn Hd. destruct (tree_insert compare DEBUG_RBT DEBUG_RBT_DEEP DEBUG_LOCK_CHK st L new) as (st' & E1 & H1 & S1); try done.
  destruct (put_ordered_ok compare new L Hs). exists st'. by split_and!.
Qed.
Lemma rbt_insert_correct_witness : exists st',
  rbt_insert (key_cmp (fun p => p)) true true true three_mem 64 = Ok st' /\ tree_of st' [16; 32; 48; 64] /\
  ordered (key_cmp (fun p => p)) [16; 32; 48; 64] /\ [16; 32; 48; 64] ≡ₚ [64; 16; 32; 48] /\ same_out [64; 16; 32; 48] three_mem st'.
Proof.
  apply (rbt_insert_correct (key_cmp (fun p => p)) true true true three_mem [16; 32; 48] 64); [apply three_holds|..].
  - repeat (constructor; [|repeat constructor; by vm_compute]). constructor.
  - by vm_compute.
  - apply (bool_decide_unpack _). by vm_compute.
  - apply elem_of_dom. vm_compute. by eexists.
Defined.

(** C12: In every build, deleting a node of the tree returns; the nodes in order
    are those before without it, the tree is a red-black tree, the node has no
    links left, and no node outside the tree is touched. *)
Theorem rbt_delete_correct (DEBUG_RBT DEBUG_RBT_DEEP : bool) st l1 z l2 : tree_of st (l1 ++ z :: l2) ->
  exists st' c, rbt_delete DEBUG_RBT DEBUG_RBT_DEEP st z = Ok st' /\ tree_of st' (l1 ++ l2) /\
    nodes st' !! z = Some (cell 0 0 0 c) /\ same_out (l1 ++ z :: l2) st st'.
Proof. apply tree_delete. Qed.
Lemma rbt_delete_correct_witness : exists st' c,
  rbt_delete true true three_mem 32 = Ok st' /\ tree_of st' [16; 48] /\ nodes st' !! 32 = Some (cell 0 0 0 c) /\ same_out [16; 32; 48] three_mem st'.
Proof. apply (rbt_delete_correct true true three_mem [16] 32 [48]). apply three_holds. Defined.

(** C20: The least and the greatest node, the neighbours of a node and membership
    are those of the list of the nodes in order: iterating from [rbt_first] with
    [rbt_next], or from [rbt_last] with [rbt_prev], visits every node once.  At
    [NULL], [rbt_next] stays and [rbt_prev] faults. *)
Theorem rbt_walk_correct (DEBUG_RBT : bool) st L : tree_of st L ->
  rbt_first st = Ok (default 0 (head L)) /\ rbt_min DEBUG_RBT st = Ok (default 0 (head L)) /\
  rbt_last st = Ok (default 0 (list.last L)) /\ rbt_max DEBUG_RBT st = Ok (default 0 (list.last L)) /\
  (forall l1 p l2, L = l1 ++ p :: l2 -> rbt_next DEBUG_RBT st p = Ok (default 0 (head l2)) /\ rbt_prev st p = Ok (default 0 (list.last l1))) /\
  (forall p, p <> 0 -> rbt_has_node DEBUG_RBT st p = Ok (bool_decide (p ∈ L))) /\
  rbt_next DEBUG_RBT st 0 = Ok 0 /\ rbt_prev st 0 = Fault.
Proof.
  intros H. split_and!; [by apply tree_first|by apply tree_min|by apply tree_last|by apply tree_max| | |done|done].
  - intros l1 p l2 ->. split; [by eapply tree_next|by eapply tree_prev].
  - intros p Hp. destruct H as (t & H & <-). by apply has_node_ok.
Qed.
Lemma rbt_walk_correct_witness : rbt_first three_mem = Ok 16 /\ rbt_next true three_mem 32 = Ok 48 /\ rbt_has_node true three_mem 64 = Ok false.
Proof.
  destruct (rbt_walk_correct true three_mem [16; 32; 48]) as (H1 & _ & _ & _ & H2 & H3 & _); [apply three_holds|].
  split_and!; [exact H1|by apply (H2 [16] 32 [48])|by apply (H3 64)].
Defined.

(** In a tree ordered by key, the search finds a node with the key or says
    there is none, the predecessor and successor of a key are the greatest node
    below it and the least node above it, and [rbt_remove] deletes a node with the
    key or changes nothing when there is none. *)
Theorem rbt_search_correct (get_data : Z -> Z) (DEBUG_RBT DEBUG_RBT_DEEP : bool) st L data : tree_of st L -> StronglySorted (by_data get_data) L ->
  (exists p, rbt_search get_data st data = Ok p /\ ((p ∈ L /\ get_data p = data) \/ (p = 0 /\ forall q, q ∈ L -> get_data q <> data))) /\
  rbt_find_predecessor get_data st data = Ok (default 0 (list.last (filter (fun p => get_data p < data) L))) /\
  rbt_find_successor get_data st data = Ok (default 0 (head (filter (fun p => data < get_data p) L))) /\
  (exists st', rbt_remove get_data DEBUG_RBT DEBUG_RBT_DEEP st data = Ok st' /\
    ((st' = st /\ forall q, q ∈ L -> get_data q <> data) \/ exists l1 p l2, L = l1 ++ p :: l2 /\ get_data p = data /\ tree_of st' (l1 ++ l2))).
Proof.
  intros H Hs. split_and!; [|by apply tree_predecessor|by apply tree_successor|by apply tree_remove].
  destruct (tree_search get_data st L data H Hs) as (p & E1 & Hp). unfold rbt_search. unfold rbt_search_internal in E1. rewrite E1, bind_Ok. exists p.
  destruct Hp as [[Hp Hd]|[-> Hp]]; [|by split; [|right]]. destruct (tree_of_ok st L H) as [_ HO]. rewrite list.Forall_forall in HO.
  rewrite ok_ne0, (proj2 (Z.eqb_eq _ _) Hd) by (by apply HO). split; [done|by left].
Qed.
Lemma rbt_search_correct_witness : rbt_find_predecessor (fun p => p) three_mem 48 = Ok 32 /\ rbt_find_successor (fun p => p) three_mem 20 = Ok 32.
Proof.
  assert (Hs : StronglySorted (by_data (fun p => p)) [16; 32; 48]) by (repeat (constructor; [|repeat constructor; by vm_compute]); constructor).
  split; [apply (rbt_search_correct (fun p => p) true true three_mem [16; 32; 48] 48)|apply (rbt_search_correct (fun p => p) true true three_mem [16; 32; 48] 20)]; by first [apply three_holds|exact Hs].
Defined.

(** A node whose key has changed is put back in order: [rbt_reinsert] leaves
    the tree alone and answers false when the nodes are still in order, and
    answers true after moving the node to its place otherwise. *)
Theorem rbt_reinsert_correct (compare : Z -> Z -> Z) `{!NodeOrder compare} (DEBUG_RBT DEBUG_RBT_DEEP DEBUG_LOCK_CHK : bool) st l1 p l2 :
  tree_of st (l1 ++ p :: l2) -> ordered compare (l1 ++ l2) ->
  exists st' b L', rbt_reinsert compare DEBUG_RBT DEBUG_RBT_DEEP DEBUG_LOCK_CHK st p = Ok (st', b) /\ tree_of st' L' /\ ordered compare L' /\
    L' ≡ₚ l1 ++ p :: l2 /\ (b = false <-> ordered compare (l1 ++ p :: l2)) /\ (b = false -> st' = st).
Proof.
  intros H Hs. unfold rbt_reinsert. destruct (position_valid_ok compare DEBUG_RBT st l1 p l2 H Hs) as (v & E0 & Hv). rewrite E0, bind_Ok. destruct v.
  - exists st, false, (l1 ++ p :: l2). split_and!; try done; [by apply Hv|]. by split; [intros _; apply Hv|].
  - destruct (tree_of_ok st _ H) as [HN HO]. destruct (tree_delete DEBUG_RBT DEBUG_RBT_DEEP st l1 p l2 H) as (st1 & c & E1 & H1 & Hp & S1). rewrite E1, bind_Ok.
    destruct (tree_insert compare DEBUG_RBT DEBUG_RBT_DEEP DEBUG_LOCK_CHK st1 (l1 ++ l2) p) as (st2 & E2 & H2 & S2); try done; [sep| |by eapply elem_of_dom_2|].
    { eapply nd_notin; [exact HN|]. solve_submseteq. }
    rewrite E2, bind_Ok. exists st2, true, (put_ordered compare p (l1 ++ l2)). destruct (put_ordered_ok compare p (l1 ++ l2) Hs) as [Ho Hperm].
    split_and!; try done; [by rewrite Hperm, <- Permutation_middle|]. split; [done|]. intros Hx. by apply Hv in Hx.
Qed.
(** The key of the node 16 is now 40. *)
Lemma rbt_reinsert_correct_witness : exists st' b L', let cmp := key_cmp (fun p => if p =? 16 then 40 else p) in
  rbt_reinsert cmp true true true three_mem 16 = Ok (st', b) /\ tree_of st' L' /\ ordered cmp L' /\
  L' ≡ₚ [16; 32; 48] /\ (b = false <-> ordered cmp [16; 32; 48]) /\ (b = false -> st' = three_mem).
Proof.
  apply (rbt_reinsert_correct (key_cmp (fun p => if p =? 16 then 40 else p)) true true true three_mem [] 16 [32; 48]); [apply three_holds|].
  repeat (constructor; [|repeat constructor; by vm_compute]). constructor.
Defined.

(** Moving a node between two trees in one memory takes it out of the one and
    puts it in order into the other; both are red-black trees again. *)
Theorem rbt_move_correct (compare : Z -> Z -> Z) `{!NodeOrder compare} (DEBUG_RBT DEBUG_RBT_DEEP DEBUG_LOCK_CHK : bool) h from to l1 p l2 L :
  tree_of (mkRbt from h) (l1 ++ p :: l2) -> tree_of (mkRbt to h) L -> (forall q, q ∈ l1 ++ p :: l2 -> q ∉ L) -> ordered compare L ->
  exists st to', rbt_move compare DEBUG_RBT DEBUG_RBT_DEEP DEBUG_LOCK_CHK (mkRbt from h) to p = Ok (st, to') /\
    tree_of st (l1 ++ l2) /\ tree_of (mkRbt to' (nodes st)) (put_ordered compare p L) /\ ordered compare (put_ordered compare p L).
Proof.
  intros HF HT Hd Hs. destruct (tree_of_ok _ _ HF) as [HN HO]. unfold rbt_move.
  destruct (tree_delete DEBUG_RBT DEBUG_RBT_DEEP _ l1 p l2 HF) as (st1 & c & E1 & H1 & Hp & S1). rewrite E1, bind_Ok.
  assert (HT1 : tree_of (mkRbt to (nodes st1)) L).
  { eapply (tree_of_agree (mkRbt to h)); [|done|done]. intros q Hq. cbn. apply (so_out _ _ _ S1). intros Hq'. by apply (Hd q). }
  destruct (tree_insert compare DEBUG_RBT DEBUG_RBT_DEEP DEBUG_LOCK_CHK (mkRbt to (nodes st1)) L p) as (st2 & E2 & H2 & S2); try done; [sep|apply Hd; set_solver|by eapply elem_of_dom_2|].
  rewrite E2, bind_Ok. eexists _, _. split; [done|]. split_and!; [| |by apply put_ordered_ok].
  - eapply (tree_of_agree st1); [|done|done]. intros q Hq. cbn. apply (so_out _ _ _ S2). intros [->|Hq']%elem_of_cons; [|apply (Hd q); [set_solver|done]].
    revert Hq. eapply nd_notin; [exact HN|]. solve_submseteq.
  - by destruct st2.
Qed.
Lemma rbt_move_correct_witness : exists st to',
  rbt_move (key_cmp (fun p => p)) true true true three_mem 0 16 = Ok (st, to') /\ tree_of st [32; 48] /\
  tree_of (mkRbt to' (nodes st)) [16] /\ ordered (key_cmp (fun p => p)) [16].
Proof.
  apply (rbt_move_correct (key_cmp (fun p => p)) true true true (nodes three_mem) 32 0 [] 16 [32; 48] []); [apply three_holds|apply tree_of_nil| |constructor].
  intros q _. apply not_elem_of_nil.
Defined.
