(* ===== verification/RbtCheck.v ===== *)
(** * The red-black tree: what the deep check accepts, and types

    [rbt_debug_validate] follows the links of the nodes and compares colours,
    parents and black heights.  On a memory of aligned nodes it accepts exactly
    the red-black trees: that no node is reached twice follows from the parents.

    The types of the words in memory (aligned addresses, packed words within 64
    bits, links to nodes) are kept by every sequence of operations. *)

From stdpp Require Import sorting.
From S2P Require Import Prelude Rbt RbtShape RbtInv RbtWalk RbtInsert RbtDelete RbtApi.

(** What the machine gives: nodes at aligned addresses, words of 64 bits. *)
Definition aligned (h : gmap Z rbt_node) : Prop := forall p n, h !! p = Some n -> ok_addr p /\ in_u 64 (parent_data n).

Lemma node_cell n : in_u 64 (parent_data n) -> n = cell (left n) (right n) (parent_of n) (color_of n) /\ even (parent_of n).
Proof.
  intros Hw. destruct n as [l r w]. cbn [parent_data] in Hw. unfold cell, parent_of, color_of. cbn [left right parent_data]. split; [f_equal|split].
  - assert (Hb : (if Z.land w 1 =? 0 then Red else Black) = (if Z.testbit w 0 then Black else Red)).
    { destruct (land_1_bit w) as [c Hc]. rewrite Hc. apply (f_equal (fun z => Z.testbit z 0)) in Hc. rewrite Z.land_spec, andb_true_r in Hc. rewrite Hc. by destruct c. }
    rewrite Hb. apply Z.bits_inj'. intros i Hi. rewrite Z.lor_spec, Z.land_spec, not_w_alt, testbit_wrap, testbit_lnot, testbit_1 by lia.
    destruct (Z.eqb_spec i 0) as [->|]; [destruct (Z.testbit w 0) eqn:E0; cbn; done|]. rewrite color_bit_high, orb_false_r, andb_true_r by lia.
    destruct (Z.ltb_spec i 64); [by rewrite andb_true_r|]. rewrite andb_false_r. apply (testbit_small 64); [done|lia].
  - by apply land_range_l.
  - apply land_hi_1.
Qed.

(** Two children that are there are two nodes. *)
Fixpoint forks (t : tree) : Prop :=
  match t with E => True | T _ l _ r => (addr l <> 0 -> addr l <> addr r) /\ forks l /\ forks r end.

Section Check.
Context (h : gmap Z rbt_node) (Ha : aligned h).

Lemma cell_parent p l r u c l' r' u' c' : h !! p = Some (cell l r u c) -> h !! p = Some (cell l' r' u' c') -> even u -> even u' -> u = u'.
Proof. intros H1 H2 He He'. rewrite H1 in H2. apply (f_equal (fmap parent_of)) in H2. cbn [fmap option_fmap option_map] in H2. rewrite !parent_cell in H2 by done. congruence. Qed.
Lemma rep_ok par t p : rep h par t -> p ∈ elems t -> ok_addr p.
Proof. intros Hr Hp. pose proof (rep_dom h par t p Hr Hp) as [n Hn]%elem_of_dom. by apply (Ha p n). Qed.
(** The parent of a node of the tree is in the tree, but for the top one. *)
Lemma rep_parent t : forall par q, even par -> rep h par t -> q ∈ elems t ->
  exists l r u c, h !! q = Some (cell l r u c) /\ even u /\ ((u = par /\ q = addr t) \/ u ∈ elems t).
Proof.
  induction t as [|c l IHl p r IHr]; intros par q He Hr Hq; [by apply elem_of_nil in Hq|]. assert (Hp : even p) by (apply ok_even, (rep_ok par (T c l p r)); [done|cbn; set_solver]).
  destruct Hr as (Hn & Hl & Hr). cbn [elems addr] in *. apply elem_of_app in Hq as [Hq|[->|Hq]%elem_of_cons].
  - destruct (IHl p q Hp Hl Hq) as (l' & r' & u & c' & ? & ? & Hu). exists l', r', u, c'. split_and!; try done. right. destruct Hu as [[-> _]|?]; set_solver.
  - exists (addr l), (addr r), par, c. split_and!; try done. by left.
  - destruct (IHr p q Hp Hr Hq) as (l' & r' & u & c' & ? & ? & Hu). exists l', r', u, c'. split_and!; try done. right. destruct Hu as [[-> _]|?]; set_solver.
Qed.
Lemma parent_not_below t par p l r c : even par -> h !! p = Some (cell l r par c) -> rep h p t -> even p -> par <> p -> par ∉ elems t -> p ∉ elems t.
Proof.
  intros He Hp Hr Hep Hne Hn Hin. destruct (rep_parent t p p Hep Hr Hin) as (l' & r' & u & c' & Hp' & Heu & Hu).
  assert (u = par) as -> by (eapply cell_parent; [exact Hp'|exact Hp|done|done]). by destruct Hu as [[? _]|?].
Qed.
(** A subtree hanging outside of [r], not where [r] hangs, has no node of [r]. *)
Lemma rep_disjoint p r : even p -> rep h p r -> forall s u, even u -> rep h u s -> u ∉ elems r -> (u = p -> addr s <> 0 -> addr s <> addr r) -> p ∉ elems s ->
  forall q, q ∈ elems s -> q ∉ elems r.
Proof.
  intros Hep Hr. induction s as [|c l IHl q0 r0 IHr]; intros u He Hs Hu Hne Hp q Hq; [by apply elem_of_nil in Hq|].
  assert (Hq0 : ok_addr q0) by (apply (rep_ok u (T c l q0 r0)); [done|cbn; set_solver]). destruct Hs as (Hn & Hl & Hr0). cbn [elems addr] in *.
  assert (H0 : q0 ∉ elems r).
  { intros Hin. destruct (rep_parent r p q0 Hep Hr Hin) as (l' & r' & u' & c' & Hn' & Heu & Hu'). assert (u' = u) as -> by (eapply cell_parent; [exact Hn'|exact Hn|done|done]).
    destruct Hu' as [[-> ->]|?]; [|done]. apply Hne; [done| |done]. destruct Hq0. lia. }
  apply elem_of_app in Hq as [Hq|[->|Hq]%elem_of_cons]; [|done|].
  - apply (IHl q0); try done; [by apply ok_even|set_solver|set_solver].
  - apply (IHr q0); try done; [by apply ok_even|set_solver|set_solver].
Qed.
Lemma rep_nodup t : forall par, even par -> rep h par t -> forks t -> par ∉ elems t -> NoDup (elems t).
Proof.
  induction t as [|c l IHl p r IHr]; intros par He Hr Hf Hn; [constructor|]. assert (Hp : even p) by (apply ok_even, (rep_ok par (T c l p r)); [done|cbn; set_solver]).
  destruct Hr as (Hc & Hl & Hr), Hf as (Hf & Hfl & Hfr). cbn [elems] in *. assert (Hpl : p ∉ elems l) by (eapply (parent_not_below l par); try done; set_solver).
  assert (Hpr : p ∉ elems r) by (eapply (parent_not_below r par); try done; set_solver).
  apply list.NoDup_app. split_and!; [by apply (IHl p)| |apply list.NoDup_cons; split; [done|by apply (IHr p)]].
  intros q Hq [->|Hq']%elem_of_cons; [done|]. by eapply (rep_disjoint p r Hp Hr l p).
Qed.

Lemma misparented_false st q p : misparented st q p = Ok false -> q = 0 \/ exists n, nodes st !! q = Some n /\ parent_of n = p.
Proof.
  unfold misparented, rbt_parent, node. destruct (Z.eqb_spec q 0) as [->|Hq]; [by left|]. destruct (nodes st !! q) as [n|]; cbn [deref mbind outcome_bind]; [|done].
  intros [= He]. right. exists n. split; [done|]. apply negb_false_iff, Z.eqb_eq in He. done.
Qed.
Lemma rep_oks par t : rep h par t -> Forall ok_addr (elems t).
Proof. intros Hr. apply list.Forall_forall. intros p Hp. by eapply rep_ok. Qed.

(** What the recursion of the check accepts. *)
Lemma validate_sound st : nodes st = h -> forall fuel p depth bh par, (fuel <= 130)%nat -> validate_subtree fuel st p depth = Ok bh ->
  (p = 0 \/ exists n, h !! p = Some n /\ parent_of n = par) ->
  exists t n, addr t = p /\ rb t n /\ bh = Z.of_nat n + 1 /\ (n < fuel)%nat /\ rep h par t /\ forks t.
Proof.
  intros Hst. induction fuel as [|fuel IH]; intros p depth bh par Hf HE Hp; [done|]. cbn [validate_subtree] in HE.
  destruct (Z.eqb_spec p 0) as [->|Hp0]; [injection HE as <-; exists E, 0%nat; split_and!; try done; [constructor|lia]|].
  destruct (Z.ltb RBT_DEBUG_MAX_DEPTH depth); [done|]. destruct Hp as [?|(n & Hn & <-)]; [done|]. destruct (Ha p n Hn) as [Hok Hw]. rewrite (node_at st p n), bind_Ok in HE by (done || by rewrite Hst).
  destruct (negb _ && _) eqn:Hlr in HE; [done|]. apply bind_Ok_inv in HE as (bl & Hbl & HE). destruct bl; [done|]. apply bind_Ok_inv in HE as (br & Hbr & HE). destruct br; [done|].
  apply bind_Ok_inv in HE as (rr & Hrr & HE). destruct rr; [done|]. apply bind_Ok_inv in HE as (lh & Hlh & HE). apply bind_Ok_inv in HE as (rh & Hrh & HE).
  destruct (Z.eqb_spec lh rh) as [<-|Hne]; [|done]. cbn [negb] in HE. injection HE as <-. apply misparented_false in Hbl, Hbr. rewrite Hst in Hbl, Hbr.
  destruct (IH _ _ _ p ltac:(lia) Hlh Hbl) as (l & m & Al & Rl & -> & Hm & Hl & Fl). destruct (IH _ _ _ p ltac:(lia) Hrh Hbr) as (r & m' & Ar & Rr & Heq & _ & Hr & Fr).
  assert (m' = m) as -> by lia. destruct (node_cell n Hw) as [Hcell He]. assert (Hfork : addr l <> 0 -> addr l <> addr r).
  { rewrite Al, Ar. intros Hl0 Heq'. by rewrite Heq', Z.eqb_refl, andb_true_r, <- Heq', (proj2 (Z.eqb_neq _ _) Hl0) in Hlr. }
  exists (T (color_of n) l p r). rewrite <- Al, <- Ar in Hcell. destruct (color_of n) eqn:Ec.
  - exists m. rewrite bool_decide_eq_true_2 in Hrr by done. rewrite bool_decide_eq_false_2 by done. rewrite <- Al, <- Ar in Hrr.
    rewrite (is_red_at st p l), bind_Ok, (is_red_at st p r) in Hrr by (rewrite ?Hst; done || (by eapply rep_oks) || by apply ok_even).
    rewrite Z.add_0_r, wrap_small by (unfold in_u; lia). split_and!; try done; [|lia|cbn [rep]; split_and!; try done; by rewrite Hn; f_equal].
    case_bool_decide as Hcl; [done|]. injection Hrr as Hcr%bool_decide_eq_false. constructor; try done; [by destruct (tcolor l)|by destruct (tcolor r)].
  - exists (S m). rewrite bool_decide_eq_true_2, wrap_small by (done || unfold in_u; lia). split_and!; try done; [by constructor|lia|lia|cbn [rep]; split_and!; try done; by rewrite Hn; f_equal].
Qed.
End Check.

Lemma deep_check_sound st fuel depth bh n : aligned (nodes st) -> (fuel <= 130)%nat -> nodes st !! root st = Some n -> parent_of n = 0 -> color_of n = Black ->
  validate_subtree fuel st (root st) depth = Ok bh -> exists L, tree_of st L.
Proof.
  intros Ha Hf Hn Hp Hc HE. destruct (validate_sound (nodes st) Ha st eq_refl fuel _ _ _ 0 Hf HE) as (t & m & At & Rt & _ & _ & Ht & Ft); [right; by exists n|]. clear HE.
  assert (HO : Forall ok_addr (elems t)) by (by eapply rep_oks). exists (elems t), t. split; [|done]. split.
  - split; [done|done|done| |unfold all; cbn; by rewrite app_nil_r]. unfold all. cbn. rewrite app_nil_r. eapply rep_nodup; [done|apply even_0|done|done|].
    rewrite list.Forall_forall in HO. intros H0%HO. destruct H0. lia.
  - split; [|by exists m]. destruct t as [|ct l q r]; [done|]. cbn [addr] in At. subst q. destruct Ht as (Hq & _). rewrite Hn in Hq. injection Hq as ->. rewrite color_cell in Hc by apply even_0. done.
Qed.

#[local] Strategy opaque [validate_subtree].
(** C18: On a memory of aligned nodes, the deep check of the debug builds returns
    exactly on the red-black trees: black root without parent, no red node with a
    red child, as many black nodes on every path, every child naming its parent
    and no node reached twice.  It panics or faults on everything else. *)
Theorem rbt_debug_validate_exact st : aligned (nodes st) -> rbt_debug_validate true st = Ok tt <-> exists L, tree_of st L.
Proof.
  intros Ha. split; [|intros (L & t & H & _); by apply (debug_validate_ok true st t)]. unfold rbt_debug_validate. destruct (Z.eqb_spec (root st) 0) as [Hr|Hr].
  { intros _. exists []. destruct st as [rt h]. cbn in Hr. subst rt. apply tree_of_nil. }
  intros (p & Hp & HE)%bind_Ok_inv. destruct (Z.eqb_spec p 0) as [->|Hp0]; [|done]. cbn [negb] in HE. apply bind_Ok_inv in HE as (c & Hc & HE).
  case_bool_decide as Hcb; [|done]. subst c. cbn [negb] in HE. apply bind_Ok_inv in HE as (bh & HE & _). unfold rbt_debug_validate_subtree in HE.
  apply bind_Ok_inv in Hp as (n & Hn & [= Hp]). apply bind_Ok_inv in Hc as (n' & Hn' & [= Hc]). rewrite Hn in Hn'. injection Hn' as <-.
  eapply (deep_check_sound st _ _ _ n Ha (Nat.le_refl _)); [|done|done|exact HE].
  unfold node in Hn. rewrite (proj2 (Z.eqb_neq _ _) Hr) in Hn. by destruct (nodes st !! root st); [injection Hn as ->|].
Qed.
Lemma rbt_debug_validate_exact_witness : rbt_debug_validate true three_mem = Ok tt /\ ~ exists L, tree_of (mkRbt 16 (nodes three_mem)) L.
Proof.
  assert (Ha : aligned (nodes three_mem)).
  { assert (Hm : map_Forall (fun p n => ok_addr p /\ in_u 64 (parent_data n)) (nodes three_mem)) by (apply map_Forall_to_list; repeat constructor; by vm_compute). exact Hm. }
  split; [apply (rbt_debug_validate_exact three_mem Ha); eexists; apply three_holds|].
  intros HL. apply (rbt_debug_validate_exact (mkRbt 16 (nodes three_mem)) Ha) in HL. vm_compute in HL. done.
Defined.

(** ** Types

    A node is typed when its links and its parent are null or nodes of the
    memory and the word that packs parent and colour fits its width; a memory
    is typed when all its nodes are aligned and typed and the root is one. *)
Definition pointer (D : gset Z) (p : Z) : Prop := p = 0 \/ p ∈ D.
Record typed (D : gset Z) (n : rbt_node) : Prop := mkTyped {
  ty_word : in_u 64 (parent_data n);
  ty_left : pointer D (left n);
  ty_right : pointer D (right n);
  ty_parent : pointer D (parent_of n);
}.
Record well_typed (st : rbt) : Prop := mkWt {
  wt_root : pointer (dom (nodes st)) (root st);
  wt_nodes : forall p n, nodes st !! p = Some n -> ok_addr p /\ typed (dom (nodes st)) n;
}.
#[local] Hint Constructors typed well_typed : core.

Lemma pointer_addr h par t : rep h par t -> pointer (dom h) (addr t).
Proof. intros Hr. destruct (addr_in t) as [->|Ha]; [by left|right; by eapply rep_dom]. Qed.
Lemma typed_cell D l r par c : even par -> pointer D l -> pointer D r -> pointer D par -> typed D (cell l r par c).
Proof.
  intros He Hl Hr Hp. split; [|done|done|by rewrite parent_cell]. cbn. destruct He as [He _].
  apply lor_range; [lia|done|]. destruct c; cbn; unfold in_u; lia.
Qed.
Lemma rep_typed h t : forall par, even par -> pointer (dom h) par -> Forall ok_addr (elems t) -> rep h par t ->
  forall p n, p ∈ elems t -> h !! p = Some n -> typed (dom h) n.
Proof.
  induction t as [|c l IHl q r IHr]; intros par He Hp HO Hrep p n Hin Hpn; [by apply elem_of_nil in Hin|].
  destruct Hrep as (Hn & Hl & Hr). cbn [elems] in *. apply list.Forall_app in HO as [HOl [Hq HOr]%list.Forall_cons]. assert (Hqd : pointer (dom h) q) by (right; by eapply elem_of_dom_2).
  apply elem_of_app in Hin as [Hin|[->|Hin]%elem_of_cons].
  - by apply (IHl q (ok_even _ Hq) Hqd HOl Hl p).
  - rewrite Hn in Hpn. injection Hpn as <-. apply typed_cell; [done| | |done]; by eapply pointer_addr.
  - by apply (IHr q (ok_even _ Hq) Hqd HOr Hr p).
Qed.
Lemma tree_typed st L p n : tree_of st L -> p ∈ L -> nodes st !! p = Some n -> typed (dom (nodes st)) n.
Proof.
  intros HT Hp Hn. destruct (tree_of_ok _ _ HT) as [_ HO]. destruct HT as (t & [[_ _ Ht _ _] _] & <-). apply (rep_typed (nodes st) t 0 even_0 (or_introl eq_refl) HO Ht p n Hp Hn).
Qed.
(** A change that leaves a tree, within nodes that are in it or typed, keeps the types. *)
Lemma typed_change st st' L L' : well_typed st -> same_out L st st' -> tree_of st' L' ->
  (forall p n, p ∈ L -> p ∉ L' -> nodes st' !! p = Some n -> typed (dom (nodes st')) n) -> well_typed st'.
Proof.
  intros [_ Hw] [HS Hd] HT Hx. split.
  - destruct HT as (t & [[Hr _ Ht _ _] _] & _). rewrite Hr. by eapply pointer_addr.
  - intros p n Hn. assert (Hp : exists m, nodes st !! p = Some m) by (apply elem_of_dom; rewrite <- Hd; by eapply elem_of_dom_2). destruct Hp as [m Hm].
    split; [by apply (Hw p m)|]. destruct (decide (p ∈ L')); [by eapply tree_typed|]. destruct (decide (p ∈ L)); [by apply (Hx p)|].
    rewrite HS, Hm in Hn by done. injection Hn as <-. rewrite Hd. by apply (Hw p m).
Qed.

(** ** Sequences of operations *)
Inductive op := Insert (p : Z) | Delete (p : Z).
Section Run.
Context (compare : Z -> Z -> Z) (DEBUG_RBT DEBUG_RBT_DEEP DEBUG_LOCK_CHK : bool).
Definition exec (st : rbt) (o : op) : outcome rbt :=
  match o with
  | Insert p => rbt_insert compare DEBUG_RBT DEBUG_RBT_DEEP DEBUG_LOCK_CHK st p
  | Delete p => rbt_delete DEBUG_RBT DEBUG_RBT_DEEP st p
  end.
Fixpoint run (st : rbt) (ops : list op) : outcome rbt :=
  match ops with [] => Ok st | o :: ops => st ← exec st o; run st ops end.

(** What the caller owes and gets: a node it inserts is in memory and not in the
    tree, a node it deletes is in the tree. *)
Definition legal (D : gset Z) (L : list Z) (o : op) : option (list Z) :=
  match o with
  | Insert p => if decide (p ∈ D /\ p ∉ L) then Some (put_ordered compare p L) else None
  | Delete p => if decide (p ∈ L) then Some (filter (fun q => q <> p) L) else None
  end.
Fixpoint legals (D : gset Z) (L : list Z) (ops : list op) : option (list Z) :=
  match ops with [] => Some L | o :: ops => L ← legal D L o; legals D L ops end.

Lemma ordered_drop l1 p l2 : ordered compare (l1 ++ p :: l2) -> ordered compare (l1 ++ l2).
Proof. unfold ordered. rewrite !StronglySorted_app, StronglySorted_cons. intros (Hd & H1 & _ & H2). split_and!; try done. intros x y Hx Hy. apply Hd; [done|by right]. Qed.

Context `{!NodeOrder compare}.
Lemma exec_typed st L o L' : well_typed st -> tree_of st L -> ordered compare L -> legal (dom (nodes st)) L o = Some L' ->
  exists st', exec st o = Ok st' /\ well_typed st' /\ tree_of st' L' /\ ordered compare L' /\ dom (nodes st') = dom (nodes st).
Proof.
  intros Hw HT Hs. destruct o as [p|p]; cbn [legal exec]; case_decide as Hp; intros [= <-].
  - destruct Hp as [Hd Hn]. destruct (put_ordered_ok compare p L Hs) as [Hs' HP].
    assert (Hok : ok_addr p) by (apply elem_of_dom in Hd as [n Hpn]; by apply (wt_nodes _ Hw p n)).
    destruct (tree_insert compare DEBUG_RBT DEBUG_RBT_DEEP DEBUG_LOCK_CHK st L p) as (st' & E1 & H1 & S1); try done.
    exists st'. split_and!; try done; [|apply S1]. eapply typed_change; try done. intros q n Hq Hq'. destruct Hq'. by rewrite HP.
  - apply list_elem_of_split in Hp as (l1 & l2 & ->). destruct (tree_of_ok _ _ HT) as [HN _].
    destruct (tree_delete DEBUG_RBT DEBUG_RBT_DEEP st l1 p l2 HT) as (st' & c & E1 & H1 & Hz & S1).
    assert (Hf : filter (fun q => q <> p) (l1 ++ p :: l2) = l1 ++ l2).
    { apply list.NoDup_app in HN as (_ & Hd & [H2 _]%list.NoDup_cons). rewrite list.filter_app, filter_cons_False by (intros H; by apply H).
      f_equal; apply filter_all; intros q Hq ->; [apply (Hd p Hq); by left|done]. }
    rewrite Hf. exists st'. split_and!; try done; [|by eapply ordered_drop|apply S1].
    eapply typed_change; try done. intros q n Hq Hq' Hn. assert (q = p) as -> by set_solver. rewrite Hz in Hn. injection Hn as <-.
    apply typed_cell; [apply even_0|by left..].
Qed.
Lemma run_typed ops : forall st L L', well_typed st -> tree_of st L -> ordered compare L -> legals (dom (nodes st)) L ops = Some L' ->
  exists st', run st ops = Ok st' /\ well_typed st' /\ tree_of st' L' /\ ordered compare L' /\ dom (nodes st') = dom (nodes st).
Proof.
  induction ops as [|o ops IH]; intros st L L' Hw HT Hs HL; cbn [legals run] in *; [injection HL as <-; by exists st|].
  destruct (legal _ L o) as [L1|] eqn:E1; [|done]. destruct (exec_typed st L o L1) as (st1 & X1 & W1 & T1 & S1 & D1); try done. rewrite X1, bind_Ok.
  rewrite <- D1 in HL. destruct (IH st1 L1 L' W1 T1 S1 HL) as (st' & X & W & T & S & D). exists st'. split_and!; try done. by rewrite D.
Qed.
End Run.

(** C19: In a typed memory, every sequence of insertions of nodes that are not in
    the tree and of deletions of nodes that are runs to its end in every build:
    no check fires and no null or foreign pointer is followed.  Every link is
    then again null or a node of the memory, every packed word fits its width,
    and the tree holds, in order, the nodes the sequence leaves in it. *)
Theorem rbt_run_typed (compare : Z -> Z -> Z) `{!NodeOrder compare} (DEBUG_RBT DEBUG_RBT_DEEP DEBUG_LOCK_CHK : bool) ops st L L' :
  well_typed st -> tree_of st L -> ordered compare L -> legals compare (dom (nodes st)) L ops = Some L' ->
  exists st', run compare DEBUG_RBT DEBUG_RBT_DEEP DEBUG_LOCK_CHK st ops = Ok st' /\ well_typed st' /\ tree_of st' L' /\ ordered compare L' /\
    dom (nodes st') = dom (nodes st).
Proof. apply run_typed. done. Qed.
Lemma rbt_run_typed_witness : exists st',
  run (key_cmp (fun p => p)) true true true three_mem [Insert 64; Delete 32; Insert 80; Insert 32; Delete 16] = Ok st' /\
  well_typed st' /\ tree_of st' [32; 48; 64; 80] /\ ordered (key_cmp (fun p => p)) [32; 48; 64; 80] /\ dom (nodes st') = dom (nodes three_mem).
Proof.
  apply (rbt_run_typed (key_cmp (fun p => p)) true true true _ three_mem [16; 32; 48]); [|apply three_holds| |by vm_compute].
  - split; [right; apply elem_of_dom; vm_compute; by eexists|].
    assert (Hm : map_Forall (fun p n => ok_addr p /\ typed (dom (nodes three_mem)) n) (nodes three_mem)); [|exact Hm].
    apply map_Forall_to_list. repeat constructor; try (by vm_compute); first [left; by vm_compute|right; apply elem_of_dom; vm_compute; by eexists].
  - repeat (constructor; [|repeat constructor; by vm_compute]). constructor.
Defined.
