(* ===== verification/AddressRange.v ===== *)
(** * Address ranges of the kernel

    [kernel/mem/address_range.c] and [include/mem/address_range.h]: the table of
    address ranges the linker collects is put into a red-black tree, the static
    ranges at their addresses and the dynamic ones into the first gap that fits.
    A range is named by the address of its tree node.  Names, fault handlers and
    the printed table are left out. *)

From stdpp Require Import sorting.
From S2P Require Import Prelude BitMath Rbt RbtShape RbtInv RbtWalk RbtInsert RbtDelete RbtApi.

Definition ADDRESS_RANGE_KERNEL_START : Z := 0xFFFF800000000000.
Definition ADDRESS_RANGE_KERNEL_END : Z := 0xFFFFFFFFFFFFFFFF.
Definition ADDRESS_RANGE_DYNAMIC : Z := Z.shiftl 1 0.

Record address_range := mkRange { base : Z; size : Z; align : Z; flags : Z }.
Definition with_base (ar : address_range) (b : Z) : address_range := mkRange b (size ar) (align ar) (flags ar).
(** The table and [ar_tree]. *)
Record ar_state := mkAr { ranges : gmap Z address_range; ar_tree : rbt }.

Definition ar_end (ar : address_range) : Z := u64 (base ar + size ar).
Definition ar_get_data (rs : gmap Z address_range) (p : Z) : Z := default 0 (base <$> rs !! p).
Definition ar_cmp (rs : gmap Z address_range) (a b : Z) : Z :=
  let l := ar_get_data rs a in let r := ar_get_data rs b in Z.b2z (r <? l) - Z.b2z (l <? r).
Definition address_ranges_overlap (a b : address_range) : bool := (base a <? ar_end b) && (base b <? ar_end a).
Definition address_range_addr_in_range (ar : address_range) (vaddr : Z) : bool := (base ar <=? vaddr) && (vaddr <? u64 (base ar + size ar)).

Section AddressRange.
Context (DEBUG_RBT DEBUG_RBT_DEEP DEBUG_LOCK_CHK : bool).

Definition ar_insert (st : ar_state) (p : Z) : outcome ar_state :=
  t ← rbt_insert (ar_cmp (ranges st)) DEBUG_RBT DEBUG_RBT_DEEP DEBUG_LOCK_CHK (ar_tree st) p; Ok (mkAr (ranges st) t).

(** [if (p && overlaps) panic(...)]; the order of the two ranges does not matter. *)
Definition check_overlap (st : ar_state) (q : Z) (ar : address_range) : outcome unit :=
  if q =? 0 then Ok tt else
  x ← deref (ranges st !! q);
  if address_ranges_overlap x ar then Panic else Ok tt.
Definition add_static_address_range (st : ar_state) (p : Z) : outcome ar_state :=
  ar ← deref (ranges st !! p);
  prev ← rbt_find_predecessor (ar_get_data (ranges st)) (ar_tree st) (base ar);
  next ← rbt_find_successor (ar_get_data (ranges st)) (ar_tree st) (base ar);
  _ ← check_overlap st prev ar;
  _ ← check_overlap st next ar;
  ar_insert st p.

Definition gap_fits (need_align need_size gap_base gap_end : Z) : option Z :=
  let aligned := ALIGN_UP_WRAPPING gap_base need_align in
  if (aligned <? gap_base) || (2 ^ 64 <=? aligned + need_size) then None else
  let e := aligned + need_size in
  if (aligned <? gap_end) && (e <=? gap_end) then Some aligned else None.

(** The gap before each range in order, then the one behind the last. *)
Definition gap_body (st : ar_state) (ar : address_range) (s : Z * Z) : outcome (Z * Z + option Z) :=
  let '(p, gap_base) := s in
  if p =? 0 then Ok (inr (gap_fits (align ar) (size ar) gap_base ADDRESS_RANGE_KERNEL_END)) else
  gap_ar ← deref (ranges st !! p);
  match gap_fits (align ar) (size ar) gap_base (base gap_ar) with
  | Some chosen => Ok (inr (Some chosen))
  | None => n ← rbt_next DEBUG_RBT (ar_tree st) p; Ok (inl (n, ar_end gap_ar))
  end.
Definition add_dynamic_address_range (st : ar_state) (p : Z) : outcome ar_state :=
  ar ← deref (ranges st !! p);
  _ ← enforce (base ar =? 0);
  first ← rbt_min DEBUG_RBT (ar_tree st);
  r ← loop (rounds (ar_tree st)) (gap_body st ar) (first, ADDRESS_RANGE_KERNEL_START);
  match r with
  | Some chosen => ar_insert (mkAr (<[p := with_base ar chosen]> (ranges st)) (ar_tree st)) p
  | None => Panic
  end.

(** One pass over the table. *)
Fixpoint for_each (f : ar_state -> Z -> outcome ar_state) (st : ar_state) (l : list Z) : outcome ar_state :=
  match l with [] => Ok st | p :: l => st ← f st p; for_each f st l end.
Definition is_dynamic (st : ar_state) (p : Z) : outcome bool :=
  ar ← deref (ranges st !! p); Ok (negb (Z.land (flags ar) ADDRESS_RANGE_DYNAMIC =? 0)).
Definition static_pass (st : ar_state) (p : Z) : outcome ar_state :=
  d ← is_dynamic st p; if d : bool then Ok st else add_static_address_range st p.
Definition dynamic_pass (st : ar_state) (p : Z) : outcome ar_state :=
  d ← is_dynamic st p; if d : bool then add_dynamic_address_range st p else Ok st.
Definition address_ranges_init (st : ar_state) (table : list Z) : outcome ar_state :=
  let st := mkAr (ranges st) (rbt_init (ar_tree st)) in
  st ← for_each static_pass st table;
  for_each dynamic_pass st table.
End AddressRange.

(** [IN_RANGE(x, min, max)] *)
Definition IN_RANGE (x min max : Z) : outcome bool := _ ← enforce (min <=? max); Ok ((min <=? x) && (x <=? max)).
Fixpoint address_range_for_addr (st : ar_state) (table : list Z) (vaddr : Z) : outcome Z :=
  match table with
  | [] => Ok 0
  | p :: table =>
      ar ← deref (ranges st !! p);
      b ← IN_RANGE vaddr (base ar) (ar_end ar);
      if b : bool then Ok p else address_range_for_addr st table vaddr
  end.

(** ** What the table promises *)

Definition get (rs : gmap Z address_range) (p : Z) : address_range := default (mkRange 0 0 0 0) (rs !! p).
(** A range that does not wrap around the address space. *)
Definition in_space (ar : address_range) : Prop := 0 <= base ar /\ 0 <= size ar /\ base ar + size ar < 2 ^ 64.
Definition before (rs : gmap Z address_range) (a b : Z) : Prop := base (get rs a) + size (get rs a) <= base (get rs b).
(** The tree holds the ranges [L], one behind the other. *)
Record ar_inv (st : ar_state) (L : list Z) : Prop := mkInv {
  inv_tree : tree_of (ar_tree st) L;
  inv_space : forall p, p ∈ L -> is_Some (ranges st !! p) /\ in_space (get (ranges st) p);
  inv_chain : StronglySorted (before (ranges st)) L;
}.

Lemma ar_end_in ar : in_space ar -> ar_end ar = base ar + size ar.
Proof. intros (?&?&?). unfold ar_end. apply wrap_small. unfold in_u. lia. Qed.
Lemma get_data_get rs p : ar_get_data rs p = base (get rs p).
Proof. unfold ar_get_data, get. by destruct (rs !! p). Qed.
Lemma ar_cmp_key rs : ar_cmp rs = key_cmp (ar_get_data rs).
Proof. done. Qed.
Lemma get_lookup rs p ar : rs !! p = Some ar -> get rs p = ar.
Proof. unfold get. by intros ->. Qed.

Lemma inv_sorted st L : ar_inv st L -> StronglySorted (by_data (ar_get_data (ranges st))) L.
Proof.
  intros [_ Hs Hc]. induction L as [|x L IH]; [constructor|]. apply StronglySorted_cons in Hc as [Hx Hc]. apply StronglySorted_cons.
  split; [|apply IH; [|done]; intros; apply Hs; by right]. rewrite list.Forall_forall in *. intros y Hy. unfold by_data, before in *. rewrite !get_data_get.
  specialize (Hx y Hy). destruct (Hs x ltac:(by left)) as [_ (?&?&?)]. lia.
Qed.

(** A sorted list around a key that is not in it. *)
Lemma sorted_around (key : Z -> Z) d L : StronglySorted (by_data key) L -> (forall q, q ∈ L -> key q <> d) ->
  exists L1 L2, L = L1 ++ L2 /\ (forall q, q ∈ L1 -> key q < d) /\ (forall q, q ∈ L2 -> d < key q).
Proof.
  induction L as [|x L IH]; intros Hs Hd; [exists [], []; split_and!; try done; by intros ? ?%elem_of_nil|]. apply StronglySorted_cons in Hs as [Hx Hs].
  destruct (decide (key x < d)) as [Hlt|Hge].
  - destruct IH as (L1 & L2 & -> & H1 & H2); [done|by intros; apply Hd; right|]. exists (x :: L1), L2. split_and!; [done|by intros q [->|Hq]%elem_of_cons; auto|done].
  - exists [], (x :: L). split_and!; [done|by intros ? ?%elem_of_nil|]. specialize (Hd x ltac:(by left)). rewrite list.Forall_forall in Hx.
    intros q [->|Hq]%elem_of_cons; [lia|]. specialize (Hx q Hq). unfold by_data in Hx. lia.
Qed.

(** In a chain, the last range before a point and the first one behind it decide. *)
Lemma chain_last rs L q x : StronglySorted (before rs) L -> (forall p, p ∈ L -> in_space (get rs p)) -> list.last L = Some q -> base (get rs q) + size (get rs q) <= x ->
  forall p, p ∈ L -> base (get rs p) + size (get rs p) <= x.
Proof.
  intros Hc Hs [L' ->]%last_Some Hx p [Hp| ->%list_elem_of_singleton]%elem_of_app; [|done]. apply StronglySorted_app in Hc as (Hd & _). specialize (Hd p q Hp ltac:(by left)).
  unfold before in Hd. destruct (Hs q) as (?&?&?); [set_solver|]. lia.
Qed.
Lemma chain_head rs L q x : StronglySorted (before rs) L -> (forall p, p ∈ L -> in_space (get rs p)) -> head L = Some q -> x <= base (get rs q) ->
  forall p, p ∈ L -> x <= base (get rs p).
Proof.
  intros Hc Hs Hq Hx p Hp. destruct L as [|q' L]; [done|]. injection Hq as ->. apply StronglySorted_cons in Hc as [Hc _]. rewrite list.Forall_forall in Hc.
  apply elem_of_cons in Hp as [->|Hp]; [done|]. specialize (Hc p Hp). unfold before in Hc. destruct (Hs q) as (?&?&?); [by left|]. lia.
Qed.

Section Add.
Context (DEBUG_RBT DEBUG_RBT_DEEP DEBUG_LOCK_CHK : bool).
Local Abbreviation put_range := (ar_insert DEBUG_RBT DEBUG_RBT_DEEP DEBUG_LOCK_CHK).
Local Abbreviation add_static := (add_static_address_range DEBUG_RBT DEBUG_RBT_DEEP DEBUG_LOCK_CHK).
Local Abbreviation add_dynamic := (add_dynamic_address_range DEBUG_RBT DEBUG_RBT_DEEP DEBUG_LOCK_CHK).

(** A range is put between those before and behind it. *)
Lemma ar_insert_ok st L1 L2 p : tree_of (ar_tree st) (L1 ++ L2) -> ar_inv st (L1 ++ L2) -> is_Some (ranges st !! p) -> in_space (get (ranges st) p) ->
  (forall q, q ∈ L1 -> before (ranges st) q p) -> (forall q, q ∈ L2 -> before (ranges st) p q /\ base (get (ranges st) p) < base (get (ranges st) q)) ->
  ok_addr p -> p ∉ L1 ++ L2 -> p ∈ dom (nodes (ar_tree st)) ->
  exists t', put_range st p = Ok (mkAr (ranges st) t') /\ ar_inv (mkAr (ranges st) t') (L1 ++ p :: L2) /\ same_out (p :: L1 ++ L2) (ar_tree st) t'.
Proof.
  intros Ht Hi Hp Hsp H1 H2 Hok Hn Hd. pose proof (inv_sorted _ _ Hi) as Hs. apply (key_cmp_ordered (ar_get_data (ranges st))) in Hs. destruct Hi as [_ Hspace Hc].
  destruct (tree_insert (key_cmp (ar_get_data (ranges st))) DEBUG_RBT DEBUG_RBT_DEEP DEBUG_LOCK_CHK (ar_tree st) _ p Ht Hs Hok Hn Hd) as (t' & E1 & H' & S1).
  exists t'. unfold ar_insert. rewrite ar_cmp_key, E1, bind_Ok. split; [done|]. split; [|done]. rewrite put_ordered_at in H'; [|apply _|..].
  - split; [done| |].
    + cbn [ranges]. intros q [Hq|[->|Hq]%elem_of_cons]%elem_of_app; [apply Hspace; set_solver|done|apply Hspace; set_solver].
    + cbn [ranges]. apply StronglySorted_app in Hc as (H12 & Hc1 & Hc2). apply StronglySorted_app. split_and!; [|done|].
      * intros x y Hx [->|Hy]%elem_of_cons; [by apply H1|by apply H12].
      * apply StronglySorted_cons. split; [|done]. apply list.Forall_forall. intros q Hq. by apply H2.
  - intros e He. apply ge_of_le; [apply _|]. apply key_cmp_le. rewrite !get_data_get. specialize (H1 e He). unfold before in H1. destruct (Hspace e) as [_ (?&?&?)]; [set_solver|]. lia.
  - intros e He. apply key_cmp_lt. rewrite !get_data_get. by apply H2.
Qed.

Lemma overlap_spec a b : in_space a -> in_space b -> address_ranges_overlap a b = true <-> base a < base b + size b /\ base b < base a + size a.
Proof. intros Ha Hb. unfold address_ranges_overlap. rewrite !ar_end_in, andb_true_iff, !Z.ltb_lt by done. done. Qed.
Lemma overlap_false a b : in_space a -> in_space b -> base a < base b -> address_ranges_overlap a b = false <-> base a + size a <= base b.
Proof. intros Ha Hb Hlt. rewrite <- not_true_iff_false, overlap_spec by done. destruct Ha as (?&?&?), Hb as (?&?&?). lia. Qed.
Lemma overlap_sym a b : address_ranges_overlap a b = address_ranges_overlap b a.
Proof. apply andb_comm. Qed.

Lemma check_overlap_ok st q ar : q = 0 \/ is_Some (ranges st !! q) -> check_overlap st q ar =
  if negb (q =? 0) && address_ranges_overlap (get (ranges st) q) ar then Panic else Ok tt.
Proof. unfold check_overlap, get. intros [->|[x Hx]]; [done|]. rewrite Hx. cbn. by destruct (q =? 0), (address_ranges_overlap x ar). Qed.

Lemma filter_around (key : Z -> Z) d L1 L2 : (forall q, q ∈ L1 -> key q < d) -> (forall q, q ∈ L2 -> d < key q) ->
  filter (fun p => key p < d) (L1 ++ L2) = L1 /\ filter (fun p => d < key p) (L1 ++ L2) = L2.
Proof.
  intros H1 H2. rewrite !list.filter_app. split.
  - rewrite filter_all, filter_none; [apply app_nil_r| |done]. intros q Hq. specialize (H2 q Hq). lia.
  - rewrite filter_none, filter_all; [done|done|]. intros q Hq. specialize (H1 q Hq). lia.
Qed.
(** The neighbours are enough to see an overlap. *)
Lemma check_prev st L ar : (forall q, q ∈ L -> ok_addr q /\ is_Some (ranges st !! q) /\ in_space (get (ranges st) q)) -> in_space ar -> StronglySorted (before (ranges st)) L ->
  (forall q, q ∈ L -> base (get (ranges st) q) < base ar) ->
  (check_overlap st (default 0 (list.last L)) ar = Panic /\ exists q, q ∈ L /\ address_ranges_overlap (get (ranges st) q) ar = true) \/
  (check_overlap st (default 0 (list.last L)) ar = Ok tt /\ forall q, q ∈ L -> base (get (ranges st) q) + size (get (ranges st) q) <= base ar).
Proof.
  intros HL Ha Hc Hb. destruct (list.last L) as [q|] eqn:Eq; [|right; apply last_None in Eq as ->; split; [done|by intros ? ?%elem_of_nil]].
  pose proof (last_Some_elem_of _ _ Eq) as Hq. destruct (HL q Hq) as (Hok & Hs & Hsp). cbn [default from_option]. unfold id. rewrite check_overlap_ok, ok_ne0 by auto. cbn [negb andb].
  destruct (address_ranges_overlap _ ar) eqn:Eo; [left; split; [done|by exists q]|right]. split; [done|].
  apply (chain_last _ _ q); try done; [by intros p Hp; apply HL|]. apply overlap_false; auto.
Qed.
Lemma check_next st L ar : (forall q, q ∈ L -> ok_addr q /\ is_Some (ranges st !! q) /\ in_space (get (ranges st) q)) -> in_space ar -> StronglySorted (before (ranges st)) L ->
  (forall q, q ∈ L -> base ar < base (get (ranges st) q)) ->
  (check_overlap st (default 0 (head L)) ar = Panic /\ exists q, q ∈ L /\ address_ranges_overlap (get (ranges st) q) ar = true) \/
  (check_overlap st (default 0 (head L)) ar = Ok tt /\ forall q, q ∈ L -> base ar + size ar <= base (get (ranges st) q)).
Proof.
  intros HL Ha Hc Hb. destruct L as [|q L]; [right; split; [done|by intros ? ?%elem_of_nil]|]. destruct (HL q ltac:(by left)) as (Hok & Hs & Hsp). cbn [head default from_option]. unfold id.
  rewrite check_overlap_ok, ok_ne0 by auto. cbn [negb andb]. destruct (address_ranges_overlap _ ar) eqn:Eo; [left; split; [done|exists q; split; [by left|done]]|right].
  split; [done|]. apply (chain_head _ _ q); try done; [by intros p Hp; apply HL|]. rewrite overlap_sym in Eo. apply overlap_false in Eo; [done|done|done|]. apply Hb. by left.
Qed.

(** A static range is added unless it overlaps one that is there. *)
Lemma add_static_ok st L p ar : ar_inv st L -> ranges st !! p = Some ar -> in_space ar -> (forall q, q ∈ L -> base (get (ranges st) q) <> base ar) ->
  ok_addr p -> p ∉ L -> p ∈ dom (nodes (ar_tree st)) ->
  ((exists q, q ∈ L /\ address_ranges_overlap (get (ranges st) q) ar = true) /\ add_static st p = Panic) \/
  ((forall q, q ∈ L -> address_ranges_overlap (get (ranges st) q) ar = false) /\ exists t' L', L' ≡ₚ p :: L /\
    add_static st p = Ok (mkAr (ranges st) t') /\ ar_inv (mkAr (ranges st) t') L' /\ same_out (p :: L) (ar_tree st) t').
Proof.
  intros Hi Hp Hsp Hb Hok Hn Hd. pose proof (inv_sorted _ _ Hi) as Hs. destruct (sorted_around _ (base ar) L Hs) as (L1 & L2 & -> & H1 & H2); [intros q Hq; rewrite get_data_get; by apply Hb|].
  destruct (filter_around _ _ _ _ H1 H2) as [F1 F2]. setoid_rewrite get_data_get in H1. setoid_rewrite get_data_get in H2. pose proof (get_lookup _ _ _ Hp) as Hg.
  unfold add_static_address_range. rewrite Hp. cbn [deref]. rewrite bind_Ok, (tree_predecessor _ _ _ _ (inv_tree _ _ Hi) Hs), bind_Ok, (tree_successor _ _ _ _ (inv_tree _ _ Hi) Hs), bind_Ok, F1, F2.
  destruct (Hi) as [Ht Hspace Hc]. destruct (tree_of_ok _ _ Ht) as [_ HO]. rewrite list.Forall_forall in HO. apply StronglySorted_app in Hc as (Hd12 & Hc1 & Hc2).
  assert (HL : forall q, q ∈ L1 ++ L2 -> ok_addr q /\ is_Some (ranges st !! q) /\ in_space (get (ranges st) q)) by (intros q Hq; split; [by apply HO|by apply Hspace]).
  destruct (check_prev st L1 ar) as [[-> (q & Hq & Ho)]|[-> B1]]; try done; [by intros q Hq; apply HL; set_solver|left; split; [exists q; set_solver|done]|]. rewrite bind_Ok.
  destruct (check_next st L2 ar) as [[-> (q & Hq & Ho)]|[-> B2]]; try done; [by intros q Hq; apply HL; set_solver|left; split; [exists q; set_solver|done]|]. rewrite bind_Ok. right. split.
  - intros q [Hq|Hq]%elem_of_app; [apply overlap_false; auto; apply HL; set_solver|]. rewrite overlap_sym. apply overlap_false; auto. apply HL; set_solver.
  - destruct (ar_insert_ok st L1 L2 p) as (t' & E1 & Hi' & S1); try done; [by rewrite Hg|unfold before; rewrite Hg; auto|unfold before; rewrite Hg; auto|].
    exists t', (L1 ++ p :: L2). split_and!; try done. by rewrite <- Permutation_middle.
Qed.

(** The first gap that fits, in the list of the ranges. *)
Fixpoint first_gap (rs : gmap Z address_range) (ar : address_range) (gap_base : Z) (L : list Z) : option Z :=
  match L with
  | [] => gap_fits (align ar) (size ar) gap_base ADDRESS_RANGE_KERNEL_END
  | q :: L => match gap_fits (align ar) (size ar) gap_base (base (get rs q)) with Some c => Some c | None => first_gap rs ar (base (get rs q) + size (get rs q)) L end
  end.
Lemma gap_loop st ar : forall L2 L1 gb fuel, ar_inv st (L1 ++ L2) -> (length L2 < fuel)%nat ->
  loop fuel (gap_body DEBUG_RBT st ar) (default 0 (head L2), gb) = Ok (first_gap (ranges st) ar gb L2).
Proof.
  induction L2 as [|q L2 IH]; intros L1 gb fuel Hi Hf; (destruct fuel as [|fuel]; [lia|]); [by apply loop_done|]. destruct (Hi) as [Ht Hspace _].
  destruct (tree_of_ok _ _ Ht) as [_ HO]. rewrite list.Forall_forall in HO. destruct (Hspace q ltac:(set_solver)) as [[x Hx] Hsp]. assert (Hg : get (ranges st) q = x) by (by apply get_lookup).
  cbn [head default from_option first_gap]. unfold id. rewrite Hg in *. destruct (gap_fits (align ar) (size ar) gb (base x)) as [c|] eqn:Eg.
  - apply loop_done. unfold gap_body. rewrite ok_ne0, Hx by (apply HO; set_solver). cbn. by rewrite Eg.
  - rewrite (loop_step _ _ _ (default 0 (head L2), base x + size x)); [apply (IH (L1 ++ [q])); [by rewrite <- app_assoc|cbn in Hf; lia]|].
    unfold gap_body. rewrite ok_ne0, Hx by (apply HO; set_solver). cbn [deref]. by rewrite bind_Ok, Eg, (tree_next DEBUG_RBT _ L1 q L2 Ht), bind_Ok, ar_end_in.
Qed.

Lemma gap_fits_Some al sz gb ge c : gap_fits al sz gb ge = Some c -> c = ALIGN_UP_WRAPPING gb al /\ gb <= c /\ c < ge /\ c + sz <= ge /\ c + sz < 2 ^ 64.
Proof. unfold gap_fits. destruct (Z.ltb_spec (ALIGN_UP_WRAPPING gb al) gb), (Z.leb_spec (2 ^ 64) (ALIGN_UP_WRAPPING gb al + sz)), (Z.ltb_spec (ALIGN_UP_WRAPPING gb al) ge), (Z.leb_spec (ALIGN_UP_WRAPPING gb al + sz) ge); cbn [orb andb]; intros [= <-]; lia. Qed.
(** Where the gap is. *)
Lemma first_gap_Some rs ar c : forall L gb, (forall p, p ∈ L -> in_space (get rs p)) -> StronglySorted (before rs) L -> first_gap rs ar gb L = Some c ->
  exists L1 L2 gb', L = L1 ++ L2 /\ c = ALIGN_UP_WRAPPING gb' (align ar) /\ gb' <= c /\ (gb' = gb /\ L1 = [] \/ exists q, q ∈ L1 /\ gb' = base (get rs q) + size (get rs q)) /\
    (forall q, q ∈ L1 -> base (get rs q) + size (get rs q) <= c) /\ (forall q, q ∈ L2 -> c + size ar <= base (get rs q) /\ c < base (get rs q)) /\
    c + size ar < 2 ^ 64 /\ (L2 = [] -> c + size ar <= ADDRESS_RANGE_KERNEL_END) /\ (L2 = [] -> c < ADDRESS_RANGE_KERNEL_END).
Proof.
  induction L as [|q L IH]; intros gb Hs Hc Hg; cbn [first_gap] in Hg.
  - apply gap_fits_Some in Hg as (Hc' & ? & ? & ? & ?). exists [], [], gb. split_and!; try done; [by left|by intros ? ?%elem_of_nil..].
  - pose proof (Hs q ltac:(by left)) as Hsq. apply StronglySorted_cons in Hc as [Hq Hc]. destruct (gap_fits _ _ _ _) as [c'|] eqn:Eg.
    + injection Hg as ->. apply gap_fits_Some in Eg as (Hc' & ? & ? & ? & ?). exists [], (q :: L), gb. split_and!; try done; [by left|by intros ? ?%elem_of_nil|].
      intros p [->|Hp]%elem_of_cons; [lia|]. rewrite list.Forall_forall in Hq. specialize (Hq p Hp). unfold before in Hq. destruct Hsq as (?&?&?). lia.
    + destruct (IH _ ltac:(by intros; apply Hs; right) Hc Hg) as (L1 & L2 & gb' & -> & Hc' & Hle & Hgb & B1 & B2 & Hend & Hk & Hlt). exists (q :: L1), L2, gb'. split_and!; try done.
      * right. destruct Hgb as [[-> _]|(x & Hx & ->)]; [exists q; split; [by left|done]|exists x; split; [by right|done]].
      * intros p [->|Hp]%elem_of_cons; [|by apply B1]. destruct Hgb as [[-> _]|(x & Hx & ->)]; [done|]. specialize (B1 x Hx). rewrite list.Forall_forall in Hq.
        specialize (Hq x ltac:(set_solver)). unfold before in Hq. destruct (Hs x ltac:(set_solver)) as (?&?&?). lia.
Qed.

Lemma align_up_wrapping_multiple x al : IS_POW2 al = true -> in_u 64 al -> ALIGN_UP_WRAPPING x al mod al = 0.
Proof.
  intros (k & Hk & ->)%IS_POW2_inv Ha. unfold ALIGN_UP_WRAPPING. assert (k < 64) by (apply (Z.pow_lt_mono_r_iff 2); unfold in_u in Ha; lia). pose proof (Z.pow_pos_nonneg 2 k ltac:(lia) Hk).
  rewrite (wrap_small 64 (2 ^ k - 1)) by (unfold in_u in *; lia). rewrite land_not_mask by (lia || apply wrap_range; lia).
  rewrite Zminus_mod, Z.mod_mod, Z.sub_diag by lia. by rewrite Z.mod_0_l by lia.
Qed.

(** It is the least multiple that is not below. *)
Lemma align_up_wrapping_least x al c : IS_POW2 al = true -> in_u 64 al -> 0 <= x <= c -> c < 2 ^ 64 -> (al | c) -> x <= ALIGN_UP_WRAPPING x al <= c.
Proof.
  intros (k & Hk & ->)%IS_POW2_inv Ha Hx Hc [q ->]. unfold ALIGN_UP_WRAPPING. assert (k < 64) by (apply (Z.pow_lt_mono_r_iff 2); unfold in_u in Ha; lia). pose proof (Z.pow_pos_nonneg 2 k ltac:(lia) Hk) as Hp.
  assert (q * 2 ^ k + 2 ^ k - 1 < 2 ^ 64) as Hq.
  { replace (2 ^ 64) with (2 ^ (64 - k) * 2 ^ k) in * by (rewrite <- Z.pow_add_r by lia; f_equal; lia). assert (q < 2 ^ (64 - k)) by (eapply Z.mul_lt_mono_pos_r; [exact Hp|lia]). nia. }
  rewrite (wrap_small 64 (2 ^ k - 1)), (wrap_small 64 (x + _)), land_not_mask by (unfold in_u in *; lia). set (y := x + (2 ^ k - 1)). pose proof (Z.mod_pos_bound y (2 ^ k) Hp). split; [lia|].
  pose proof (Z.div_mod y (2 ^ k) ltac:(lia)) as Hy. assert (y `div` 2 ^ k <= q) by (apply Z.lt_succ_r, Z.div_lt_upper_bound; lia). nia.
Qed.

(** [ar] can be put at [c] in the kernel's half beside the ranges that [S] has.  An
    empty range takes a byte. *)
Definition room (ar : address_range) : Z := Z.max 1 (size ar).
Definition fits (rs : gmap Z address_range) (S : Z -> Prop) (ar : address_range) (c : Z) : Prop :=
  ADDRESS_RANGE_KERNEL_START <= c /\ c + room ar <= ADDRESS_RANGE_KERNEL_END /\ (align ar | c) /\
  forall q, S q -> c + room ar <= base (get rs q) \/ base (get rs q) + size (get rs q) <= c.
Lemma first_gap_least rs ar c : IS_POW2 (align ar) = true -> in_u 64 (align ar) -> 0 <= size ar -> c + room ar <= ADDRESS_RANGE_KERNEL_END -> (align ar | c) ->
  forall L gb, 0 <= gb <= c -> (forall q, q ∈ L -> in_space (get rs q)) -> (forall q, q ∈ L -> c + room ar <= base (get rs q) \/ base (get rs q) + size (get rs q) <= c) ->
  exists c', first_gap rs ar gb L = Some c' /\ c' <= c.
Proof.
  intros Hp Ha Hs Hc Hd. unfold room, ADDRESS_RANGE_KERNEL_END in *. assert (Hfit : forall gb ge, 0 <= gb <= c -> c + room ar <= ge -> gap_fits (align ar) (size ar) gb ge = Some (ALIGN_UP_WRAPPING gb (align ar)) /\ ALIGN_UP_WRAPPING gb (align ar) <= c).
  { intros gb ge Hgb Hge. unfold room in Hge. destruct (align_up_wrapping_least gb (align ar) c) as [H1 H2]; [done|done|lia|lia|done|]. unfold gap_fits.
    by rewrite (proj2 (Z.ltb_ge _ _)), (proj2 (Z.leb_gt _ _)), (proj2 (Z.ltb_lt _ _)), (proj2 (Z.leb_le _ _)) by lia. }
  induction L as [|q L IH]; intros gb Hgb Hsp Hq; cbn [first_gap].
  - destruct (Hfit gb ADDRESS_RANGE_KERNEL_END) as [-> ?]; [done|unfold room, ADDRESS_RANGE_KERNEL_END; lia|]. by eexists.
  - destruct (gap_fits (align ar) (size ar) gb (base (get rs q))) as [c'|] eqn:Eg.
    + exists c'. split; [done|]. apply gap_fits_Some in Eg as (-> & _). destruct (align_up_wrapping_least gb (align ar) c); [done|done|lia|lia|done|lia].
    + destruct (Hq q ltac:(by left)) as [Hl|Hr]; [destruct (Hfit gb (base (get rs q))) as [E _]; [done|done|congruence]|].
      destruct (Hsp q ltac:(by left)) as (?&?&?). apply IH; [lia|by intros; apply Hsp; right|by intros; apply Hq; right].
Qed.
(** The least place, when all ranges are in the kernel's half. *)
Definition least_fit (rs : gmap Z address_range) (S : Z -> Prop) (ar : address_range) (c : Z) : Prop := fits rs S ar c /\ forall c', fits rs S ar c' -> c <= c'.
Lemma first_gap_none rs ar L S : IS_POW2 (align ar) = true -> in_u 64 (align ar) -> 0 <= size ar -> (forall p, p ∈ L -> in_space (get rs p)) -> (forall p, p ∈ L <-> S p) ->
  first_gap rs ar ADDRESS_RANGE_KERNEL_START L = None -> forall c, ~ fits rs S ar c.
Proof.
  intros Hp Ha Hs Hsp HS Hg c (F1 & F2 & F3 & F4). destruct (first_gap_least rs ar c Hp Ha Hs F2 F3 L ADDRESS_RANGE_KERNEL_START) as (c' & E & _); [unfold ADDRESS_RANGE_KERNEL_START in *; lia|done|by intros q ?%HS; apply F4|congruence].
Qed.
Lemma first_gap_fit rs ar L S c : IS_POW2 (align ar) = true -> in_u 64 (align ar) -> 0 <= size ar -> (forall p, p ∈ L -> in_space (get rs p)) -> StronglySorted (before rs) L -> (forall p, p ∈ L <-> S p) ->
  (forall p, p ∈ L -> ADDRESS_RANGE_KERNEL_START <= base (get rs p)) -> first_gap rs ar ADDRESS_RANGE_KERNEL_START L = Some c -> least_fit rs S ar c.
Proof.
  intros Hp Ha Hs Hsp Hc HS Hlow Hg. destruct (first_gap_Some _ _ _ _ _ Hsp Hc Hg) as (L1 & L2 & gb & -> & -> & Hle & Hgb & B1 & B2 & Hend & Hk & Hlt). split; [split_and!|].
  - destruct Hgb as [[-> _]|(q & Hq & ->)]; [done|]. specialize (Hlow q ltac:(set_solver)). destruct (Hsp q ltac:(set_solver)) as (?&?&?). lia.
  - unfold room. destruct L2 as [|q L2]; [specialize (Hk eq_refl); specialize (Hlt eq_refl); lia|]. destruct (B2 q) as [? ?]; [by left|]. destruct (Hsp q ltac:(set_solver)) as (?&?&?). unfold ADDRESS_RANGE_KERNEL_END. lia.
  - apply Z.mod_divide; [|by apply align_up_wrapping_multiple]. apply IS_POW2_inv in Hp as (k & ? & ->). pose proof (Z.pow_pos_nonneg 2 k). lia.
  - intros q [Hq|Hq]%HS%elem_of_app; [right; by apply B1|left]. destruct (B2 q Hq). unfold room. lia.
  - intros c' (F1 & F2 & F3 & F4). destruct (first_gap_least rs ar c' Hp Ha Hs F2 F3 (L1 ++ L2) ADDRESS_RANGE_KERNEL_START) as (c2 & E & ?); [unfold ADDRESS_RANGE_KERNEL_START in *; lia|done|by intros q ?%HS; apply F4|]. rewrite Hg in E. by injection E as <-.
Qed.

(** Writing the base of one range does not touch the others. *)
Lemma inv_insert st L p ar : ar_inv st L -> p ∉ L -> ar_inv (mkAr (<[p := ar]> (ranges st)) (ar_tree st)) L.
Proof.
  intros [Ht Hs Hc] Hp. assert (Hg : forall q, q ∈ L -> get (<[p := ar]> (ranges st)) q = get (ranges st) q) by (intros q Hq; unfold get; rewrite lookup_insert_ne; [done|]; intros ->; done).
  split; [done| |].
  - cbn [ranges]. intros q Hq. rewrite Hg, lookup_insert_ne by (done || intros ->; done). by apply Hs.
  - cbn [ranges]. clear Hs Ht Hp. induction Hc as [|x L Hc IH Hx]; constructor; [apply IH; intros; apply Hg; by right|].
    rewrite list.Forall_forall in *. intros y Hy. unfold before. rewrite !Hg by set_solver. by apply Hx.
Qed.

(** A dynamic range goes to the first gap that fits; there is a panic when there is
    none, or when the range has a base already. *)
Lemma add_dynamic_ok st L p ar : ar_inv st L -> ranges st !! p = Some ar -> 0 <= size ar -> ok_addr p -> p ∉ L -> p ∈ dom (nodes (ar_tree st)) ->
  ((base ar <> 0 \/ first_gap (ranges st) ar ADDRESS_RANGE_KERNEL_START L = None) /\ add_dynamic st p = Panic) \/
  (base ar = 0 /\ exists c t' L', first_gap (ranges st) ar ADDRESS_RANGE_KERNEL_START L = Some c /\ L' ≡ₚ p :: L /\
    add_dynamic st p = Ok (mkAr (<[p := with_base ar c]> (ranges st)) t') /\ ar_inv (mkAr (<[p := with_base ar c]> (ranges st)) t') L' /\ same_out (p :: L) (ar_tree st) t').
Proof.
  intros Hi Hp Hsz Hok Hn Hd. destruct (Hi) as [Ht Hspace Hc]. unfold add_dynamic_address_range. rewrite Hp. cbn [deref]. rewrite bind_Ok. destruct (Z.eqb_spec (base ar) 0) as [Hb|Hb]; [|left; by split; [left|]].
  cbn [enforce]. rewrite bind_Ok, (tree_min _ _ _ Ht), bind_Ok. assert (Hf : (length L < rounds (ar_tree st))%nat) by (destruct Ht as (t & Hh & <-); pose proof (shape_rounds _ [] t (proj1 Hh)) as Hf; unfold all in Hf; cbn in Hf; by rewrite app_nil_r in Hf).
  rewrite (gap_loop st ar L [] _ _ Hi Hf), bind_Ok. destruct (first_gap (ranges st) ar _ L) as [c|] eqn:Eg; [|left; by split; [right|]]. right. split; [done|].
  assert (Hspace' : forall q, q ∈ L -> in_space (get (ranges st) q)) by (intros q Hq; by apply Hspace).
  destruct (first_gap_Some _ _ _ _ _ Hspace' Hc Eg) as (L1 & L2 & gb & -> & Hcb & Hle & Hgb & B1 & B2 & Hend & _).
  assert (Hc0 : 0 <= c). { destruct Hgb as [[-> _]|(q & Hq & ->)]; [unfold ADDRESS_RANGE_KERNEL_START in Hle; lia|]. destruct (Hspace' q) as (?&?&?); [set_solver|]. lia. }
  set (rs' := <[p := with_base ar c]> (ranges st)). assert (Hg : get rs' p = with_base ar c) by (unfold get, rs'; by rewrite lookup_insert_eq).
  assert (Hg' : forall q, q ∈ L1 ++ L2 -> get rs' q = get (ranges st) q) by (intros q Hq; unfold get, rs'; rewrite lookup_insert_ne; [done|]; intros ->; done).
  destruct (ar_insert_ok (mkAr rs' (ar_tree st)) L1 L2 p) as (t' & E1 & Hi' & S1); cbn [ranges ar_tree]; try done.
  - by apply inv_insert.
  - unfold rs'. rewrite lookup_insert_eq. by eexists.
  - rewrite Hg. unfold in_space. cbn [base size with_base]. lia.
  - intros q Hq. unfold before. rewrite Hg, Hg' by set_solver. by apply B1.
  - intros q Hq. unfold before. rewrite Hg, Hg' by set_solver. by apply B2.
  - exists c, t', (L1 ++ p :: L2). split_and!; try done. by rewrite <- Permutation_middle.
Qed.
(** The base that is chosen. *)
Lemma chosen_base rs ar L c : (forall p, p ∈ L -> in_space (get rs p)) -> StronglySorted (before rs) L -> first_gap rs ar ADDRESS_RANGE_KERNEL_START L = Some c ->
  (in_u 64 (align ar) -> IS_POW2 (align ar) = true -> c mod align ar = 0) /\ c + size ar <= ADDRESS_RANGE_KERNEL_END /\
  ((forall p, p ∈ L -> ADDRESS_RANGE_KERNEL_START <= base (get rs p)) -> ADDRESS_RANGE_KERNEL_START <= c).
Proof.
  intros Hs Hc Hg. destruct (first_gap_Some _ _ _ _ _ Hs Hc Hg) as (L1 & L2 & gb & -> & -> & Hle & Hgb & _ & _ & Hend & _). split_and!.
  - intros Ha Hp. by apply align_up_wrapping_multiple.
  - unfold ADDRESS_RANGE_KERNEL_END. lia.
  - intros Hk. destruct Hgb as [[-> _]|(q & Hq & ->)]; [done|]. specialize (Hk q ltac:(set_solver)). destruct (Hs q ltac:(set_solver)) as (?&?&?). lia.
Qed.

(** *** The two passes *)

Definition dynamic (rs : gmap Z address_range) (p : Z) : Prop := Z.land (flags (get rs p)) ADDRESS_RANGE_DYNAMIC <> 0.
Instance dynamic_dec rs p : Decision (dynamic rs p).
Proof. apply _. Defined.
Lemma is_dynamic_ok st p : is_Some (ranges st !! p) -> is_dynamic st p = Ok (bool_decide (dynamic (ranges st) p)).
Proof.
  intros [ar Ha]. unfold is_dynamic. rewrite Ha. cbn. f_equal. pose proof (get_lookup _ _ _ Ha) as Hg. case_bool_decide as Hd; unfold dynamic in Hd; rewrite Hg in Hd;
    destruct (Z.eqb_spec (Z.land (flags ar) ADDRESS_RANGE_DYNAMIC) 0); done.
Qed.

Lemma static_pass_eq st p : is_Some (ranges st !! p) -> static_pass DEBUG_RBT DEBUG_RBT_DEEP DEBUG_LOCK_CHK st p = if bool_decide (dynamic (ranges st) p) then Ok st else add_static st p.
Proof. intros Hp. unfold static_pass. by rewrite is_dynamic_ok. Qed.
Lemma dynamic_pass_eq st p : is_Some (ranges st !! p) -> dynamic_pass DEBUG_RBT DEBUG_RBT_DEEP DEBUG_LOCK_CHK st p = if bool_decide (dynamic (ranges st) p) then add_dynamic st p else Ok st.
Proof. intros Hp. unfold dynamic_pass. by rewrite is_dynamic_ok. Qed.

(** What holds of the table before: the nodes are in memory, static ranges do not
    wrap, and no two of them start at the same address. *)
Record table_ok (st : ar_state) (table : list Z) : Prop := mkTable {
  tab_nodup : NoDup table;
  tab_nodes : forall p, p ∈ table -> ok_addr p /\ p ∈ dom (nodes (ar_tree st)) /\ is_Some (ranges st !! p);
  tab_static : forall p, p ∈ table -> ~ dynamic (ranges st) p -> in_space (get (ranges st) p);
  tab_dynamic : forall p, p ∈ table -> dynamic (ranges st) p -> 0 <= size (get (ranges st) p);
  tab_bases : forall p q, p ∈ table -> q ∈ table -> ~ dynamic (ranges st) p -> ~ dynamic (ranges st) q -> base (get (ranges st) p) = base (get (ranges st) q) -> p = q;
}.
Lemma same_dom L st st' : same_out L st st' -> dom (nodes st') = dom (nodes st).
Proof. apply so_dom. Qed.

(** Two static ranges overlap. *)
Definition static_clash (rs : gmap Z address_range) (table : list Z) : Prop := exists p q, p ∈ table /\ q ∈ table /\ p <> q /\
  ~ dynamic rs p /\ ~ dynamic rs q /\ address_ranges_overlap (get rs p) (get rs q) = true.
Lemma static_pass_ok rs : forall l done t, NoDup (done ++ l) -> table_ok (mkAr rs t) (done ++ l) ->
  (exists L, ar_inv (mkAr rs t) L /\ L ≡ₚ filter (fun p => ~ dynamic rs p) done) ->
  let r := for_each (static_pass DEBUG_RBT DEBUG_RBT_DEEP DEBUG_LOCK_CHK) (mkAr rs t) l in
  (r = Panic /\ static_clash rs (done ++ l)) \/ exists t' L, r = Ok (mkAr rs t') /\ ar_inv (mkAr rs t') L /\ L ≡ₚ filter (fun p => ~ dynamic rs p) (done ++ l) /\ dom (nodes t') = dom (nodes t).
Proof.
  induction l as [|p l IH]; intros done t HN HT (L & Hi & HL); [right; exists t, L; by rewrite app_nil_r|]. cbn [for_each]. destruct (HT) as [_ Hn Hs _ Hb]. cbn [ranges ar_tree] in *.
  destruct (Hn p ltac:(set_solver)) as (Hok & Hd & Hp). cbv zeta. rewrite static_pass_eq by done. cbn [ranges]. case_bool_decide as Hdy.
  - rewrite bind_Ok. rewrite cons_middle, app_assoc in *. apply (IH (done ++ [p])); [done|done|]. exists L. split; [done|].
    rewrite HL, list.filter_app. cbn. rewrite decide_False by tauto. by rewrite app_nil_r.
  - destruct Hp as [ar Hp]. pose proof (get_lookup _ _ _ Hp) as Hg. assert (HLd : forall q, q ∈ L -> q ∈ done /\ ~ dynamic rs q) by (intros q Hq; rewrite HL in Hq; apply list_elem_of_filter in Hq; tauto).
    assert (HpL : p ∉ L). { intros [Hin _]%HLd. apply list.NoDup_app in HN as (_ & Hx & _). apply (Hx p Hin). by left. }
    destruct (add_static_ok (mkAr rs t) L p ar Hi Hp) as [[(q & Hq & Ho) ->]|[_ (t' & L' & HL' & -> & Hi' & S1)]]; try done.
    + rewrite <- Hg. apply Hs; [set_solver|done].
    + cbn [ranges]. intros q Hq Heq. destruct (HLd q Hq) as [Hqd Hqs]. rewrite <- Hg in Heq. apply HpL. rewrite <- (Hb q p); try done; set_solver.
    + left. split; [done|]. destruct (HLd q Hq) as [Hqd Hqs]. exists q, p. cbn [ranges] in Ho. rewrite Hg. split_and!; try done; [set_solver..|]. by intros ->.
    + cbn [ranges ar_tree] in *. rewrite bind_Ok. rewrite cons_middle, app_assoc in *.
      destruct (IH (done ++ [p]) t') as [[-> Hcl]|(t2 & L2 & -> & Hi2 & HL2 & Hd2)]; [done| | |by left|].
      * destruct HT as [A B C D F]. cbn [ar_tree] in B. split; try done. cbn [ar_tree]. rewrite (same_dom _ _ _ S1). done.
      * exists L'. split; [done|]. rewrite HL', HL, list.filter_app. cbn. rewrite decide_True by done. by rewrite Permutation_app_comm.
      * right. exists t2, L2. split_and!; try done. by rewrite Hd2, (same_dom _ _ _ S1).
Qed.

(** What becomes of a range: a static one stays, a dynamic one gets an aligned base
    in the kernel's half. *)
Definition placed (low : Prop) (rs0 rs : gmap Z address_range) (p : Z) : Prop := exists ar, rs0 !! p = Some ar /\
  ((~ dynamic rs0 p /\ rs !! p = Some ar) \/
   (dynamic rs0 p /\ base ar = 0 /\ exists c, rs !! p = Some (with_base ar c) /\ c + size ar <= ADDRESS_RANGE_KERNEL_END /\
     (in_u 64 (align ar) -> IS_POW2 (align ar) = true -> c mod align ar = 0) /\ (low -> ADDRESS_RANGE_KERNEL_START <= c))).
(** The ranges in the tree when the dynamic ones of [done] have their place. *)
Definition earlier (rs0 : gmap Z address_range) (table done : list Z) (q : Z) : Prop := q ∈ table /\ (~ dynamic rs0 q \/ q ∈ done).
Definition pow_align (ar : address_range) : Prop := in_u 64 (align ar) /\ IS_POW2 (align ar) = true.
(** First fit: each dynamic range of [done] is at the least place beside the static
    ranges and the dynamic ones before it in the table. *)
Definition first_fit (rs0 rs : gmap Z address_range) (table done : list Z) : Prop := forall l1 p l2, done = l1 ++ p :: l2 -> dynamic rs0 p -> pow_align (get rs0 p) ->
  least_fit rs (earlier rs0 table l1) (get rs0 p) (base (get rs p)).
Record progress (low : Prop) (rs0 : gmap Z address_range) (table done todo : list Z) (D : gset Z) (st : ar_state) (L : list Z) : Prop := mkProgress {
  pr_split : table = done ++ todo;
  pr_inv : ar_inv st L;
  pr_all : L ++ filter (dynamic rs0) todo ≡ₚ table;
  pr_todo : forall p, p ∈ todo -> ranges st !! p = rs0 !! p;
  pr_done : forall p, p ∈ L -> placed low rs0 (ranges st) p;
  pr_low : low -> forall p, p ∈ L -> ADDRESS_RANGE_KERNEL_START <= base (get (ranges st) p);
  pr_dom : dom (nodes (ar_tree st)) = D;
  pr_fit : low -> first_fit rs0 (ranges st) table done;
}.
Lemma progress_list low rs0 table done todo D st L : NoDup table -> progress low rs0 table done todo D st L -> forall q, q ∈ L <-> earlier rs0 table done q.
Proof.
  intros HN Hpr q. pose proof (pr_all _ _ _ _ _ _ _ _ Hpr) as HL. pose proof (pr_split _ _ _ _ _ _ _ _ Hpr) as Hsp. unfold earlier. assert (q ∈ table <-> q ∈ L \/ (dynamic rs0 q /\ q ∈ todo)) as Hq by (by rewrite <- HL, elem_of_app, list_elem_of_filter).
  split.
  - intros HqL. split; [apply Hq; by left|]. destruct (decide (dynamic rs0 q)) as [Hd|]; [right|by left]. assert (q ∈ done ++ todo) as [?|Ht]%elem_of_app by (rewrite <- Hsp; apply Hq; by left); [done|].
    exfalso. rewrite <- HL in HN. apply list.NoDup_app in HN as (_ & Hx & _). apply (Hx q HqL), list_elem_of_filter. done.
  - intros [[?|[Hd Ht]]%Hq Hs]; [done|]. exfalso. destruct Hs as [Hs|Hs]; [done|]. rewrite Hsp in HN. apply list.NoDup_app in HN as (_ & Hx & _). by apply (Hx q).
Qed.
Lemma least_fit_ext rs rs' S ar c : (forall q, S q -> get rs' q = get rs q) -> least_fit rs S ar c -> least_fit rs' S ar c.
Proof.
  intros Hg [(F1 & F2 & F3 & F4) Hl]. split; [split_and!; try done; intros q Hq; rewrite Hg by done; by apply F4|]. intros c' (G1 & G2 & G3 & G4). apply Hl. split_and!; try done. intros q Hq. rewrite <- Hg by done. by apply G4.
Qed.
(** The next range of the table: a static one changes nothing, a dynamic one gets [c]. *)
Lemma first_fit_snoc rs0 rs rs' table done p todo : NoDup table -> table = done ++ p :: todo -> (forall q, dynamic rs0 p -> q <> p -> get rs' q = get rs q) -> (~ dynamic rs0 p -> rs' = rs) ->
  (dynamic rs0 p -> pow_align (get rs0 p) -> least_fit rs (earlier rs0 table done) (get rs0 p) (base (get rs' p))) -> first_fit rs0 rs table done -> first_fit rs0 rs' table (done ++ [p]).
Proof.
  intros HN Hsp Hg Hst Hnew Hold l1 q l2 Hd Hdyn Ha. destruct l2 as [|x l2 _] using rev_ind.
  - apply app_inj_tail in Hd as [-> ->]. apply (least_fit_ext rs); [|by apply Hnew]. intros r [_ Hr]. apply Hg; [done|]. intros ->. destruct Hr as [Hr|Hr]; [done|]. rewrite Hsp in HN. apply list.NoDup_app in HN as (_ & Hx & _). apply (Hx q Hr). by left.
  - rewrite app_comm_cons, app_assoc in Hd. apply app_inj_tail in Hd as [-> ->]. destruct (decide (dynamic rs0 x)) as [Hdx|Hdx]; [|rewrite Hst by done; by eapply Hold].
    assert (forall r, r ∈ l1 ++ q :: l2 -> r <> x) as Hne by (intros r Hr ->; rewrite Hsp in HN; apply list.NoDup_app in HN as (_ & Hx & _); apply (Hx x Hr); by left).
    rewrite (Hg q Hdx) by (apply Hne; set_solver). apply (least_fit_ext rs); [|by eapply Hold]. intros r [_ Hr]. apply Hg; [done|]. destruct Hr as [Hr|Hr]; [by intros ->|]. apply Hne. set_solver.
Qed.

(** Why a dynamic range stops the set-up: with the ranges before it in the table in
    their places (by the passes [run] so far), it has a base already, an alignment
    that is no power of two, or there is no place for it. *)
Definition no_place (run : list Z -> outcome ar_state) (low : Prop) (rs0 : gmap Z address_range) (table : list Z) : Prop := exists l1 p l2 st, table = l1 ++ p :: l2 /\ dynamic rs0 p /\
  run l1 = Ok st /\ (forall q, earlier rs0 table l1 q -> placed low rs0 (ranges st) q) /\ (low -> first_fit rs0 (ranges st) table l1) /\
  (base (get rs0 p) <> 0 \/ ~ pow_align (get rs0 p) \/ forall c, ~ fits (ranges st) (earlier rs0 table l1) (get rs0 p) c).
Lemma for_each_snoc f p : forall l st, for_each f st (l ++ [p]) = (st ← for_each f st l; f st p).
Proof. induction l as [|q l IH]; intros st; cbn [app for_each]; [rewrite bind_Ok; by destruct (f st p)|]. destruct (f st q); [|done..]. rewrite !bind_Ok. apply IH. Qed.

Local Abbreviation pass := (dynamic_pass DEBUG_RBT DEBUG_RBT_DEEP DEBUG_LOCK_CHK).
(** One range of the table. *)
Lemma dynamic_pass_step low rs0 table D done p l st L : NoDup table -> (forall q, q ∈ table -> ok_addr q /\ q ∈ D) -> (forall q, q ∈ table -> dynamic rs0 q -> 0 <= size (get rs0 q)) -> is_Some (rs0 !! p) -> progress low rs0 table done (p :: l) D st L ->
  (pass st p = Panic /\ dynamic rs0 p /\ (base (get rs0 p) <> 0 \/ ~ pow_align (get rs0 p) \/ forall c, ~ fits (ranges st) (earlier rs0 table done) (get rs0 p) c)) \/
  exists st' L', pass st p = Ok st' /\ progress low rs0 table (done ++ [p]) l D st' L'.
Proof.
  intros HN HT Hsz [ar Har] Hpr. pose proof (progress_list _ _ _ _ _ _ _ _ HN Hpr) as HLe. destruct (Hpr) as [Hsp Hi HL Htodo Hdone Hlow HD Hfit]. pose proof (Htodo p ltac:(by left)) as Hp. rewrite Har in Hp.
  pose proof (get_lookup _ _ _ Har) as Hgp. assert (Hdyn : dynamic (ranges st) p <-> dynamic rs0 p) by (unfold dynamic; by rewrite (get_lookup _ _ _ Hp), Hgp).
  assert (HpT : p ∈ table) by (rewrite Hsp; set_solver). destruct (HT p HpT) as [Hok Hin].
  assert (Hpl : p ∉ l /\ p ∉ done). { rewrite Hsp in HN. apply list.NoDup_app in HN as (_ & Hx & [Hy _]%list.NoDup_cons). split; [done|]. intros Hpd. apply (Hx p Hpd). by left. }
  rewrite dynamic_pass_eq by (by rewrite Hp). case_bool_decide as Hd; rewrite Hdyn in Hd.
  - rewrite filter_cons_True in HL by done. assert (HpL : p ∉ L) by (intros [_ [?|?]]%HLe; [done|tauto]).
    assert (Hsp' : forall q, q ∈ L -> in_space (get (ranges st) q)) by (intros q Hq; by apply Hi).
    destruct (add_dynamic_ok st L p ar Hi Hp) as [[Hno ->]|(Hb & c & t' & L' & Hg & HL' & -> & Hi' & S1)]; try done; [rewrite <- Hgp; by apply Hsz|by rewrite HD|left|right].
    { rewrite Hgp. split_and!; [done|done|]. destruct Hno as [?|Hno]; [by left|right]. destruct (decide (in_u 64 (align ar) /\ IS_POW2 (align ar) = true)) as [[Ha1 Ha2]|Ha]; [right|by left].
      apply (first_gap_none _ _ L); try done. rewrite <- Hgp. by apply Hsz. }
    destruct (chosen_base (ranges st) ar L c) as (C1 & C2 & C3); [done|apply Hi|done|]. eexists _, L'. split; [done|]. split; cbn [ranges ar_tree].
    + by rewrite <- app_assoc.
    + done.
    + by rewrite HL', <- HL, <- Permutation_middle.
    + intros q Hq. rewrite lookup_insert_ne; [apply Htodo; by right|]. intros ->. tauto.
    + intros q Hq. rewrite HL' in Hq. apply elem_of_cons in Hq as [->|Hq].
      * exists ar. split; [done|]. right. split_and!; try done. exists c. rewrite lookup_insert_eq. split_and!; try done. intros Hl'. apply C3. by apply Hlow.
      * destruct (Hdone q Hq) as (aq & Hq0 & Hq1). exists aq. split; [done|]. rewrite lookup_insert_ne; [done|]. by intros ->.
    + intros Hl' q Hq. rewrite HL' in Hq. unfold get. apply elem_of_cons in Hq as [->|Hq]; [rewrite lookup_insert_eq; cbn; apply C3; by apply Hlow|].
      rewrite lookup_insert_ne; [by apply Hlow|]. by intros ->.
    + by rewrite (same_dom _ _ _ S1).
    + intros Hl'. apply (first_fit_snoc _ (ranges st) _ _ _ _ l); try done; [| |by apply Hfit].
      * intros q _ Hq. unfold get. by rewrite lookup_insert_ne.
      * intros _ [Ha1 Ha2]. rewrite Hgp in Ha1, Ha2 |- *. replace (get (<[p := with_base ar c]> (ranges st)) p) with (with_base ar c) by (unfold get; by rewrite lookup_insert_eq). apply (first_gap_fit _ _ L); try done; [rewrite <- Hgp; by apply Hsz|apply Hi|by apply Hlow].
  - right. exists st, L. split; [done|]. rewrite filter_cons_False in HL by done. split; try done; [by rewrite <- app_assoc|intros q Hq; apply Htodo; by right|].
    intros Hl'. apply (first_fit_snoc _ (ranges st) _ _ _ _ l); try done. by apply Hfit.
Qed.
Lemma dynamic_pass_ok low rs0 table D st0 : NoDup table -> (forall p, p ∈ table -> ok_addr p /\ p ∈ D) -> (forall p, p ∈ table -> dynamic rs0 p -> 0 <= size (get rs0 p)) -> (forall p, p ∈ table -> is_Some (rs0 !! p)) ->
  forall l done st L, for_each pass st0 done = Ok st -> progress low rs0 table done l D st L ->
  (for_each pass st l = Panic /\ no_place (for_each pass st0) low rs0 table) \/
  exists st' L', for_each pass st l = Ok st' /\ progress low rs0 table table [] D st' L'.
Proof.
  intros HN HT Hsz Hs. induction l as [|p l IH]; intros done st L Hrun Hpr.
  { right. exists st, L. split; [done|]. pose proof (pr_split _ _ _ _ _ _ _ _ Hpr) as Hsp. rewrite app_nil_r in Hsp. by rewrite <- Hsp in Hpr. }
  pose proof (pr_split _ _ _ _ _ _ _ _ Hpr) as Hsp. cbn [for_each]. destruct (dynamic_pass_step low rs0 table D done p l st L) as [(-> & Hd & Hno)|(st' & L' & E & Hpr')]; try done.
  - apply Hs. rewrite Hsp. set_solver.
  - left. split; [done|]. exists done, p, l, st. split_and!; try done; [|apply Hpr]. intros q Hq. apply Hpr. by eapply progress_list.
  - rewrite E, bind_Ok. apply (IH (done ++ [p]) st' L'); [|done]. by rewrite for_each_snoc, Hrun, bind_Ok.
Qed.
End Add.

Lemma in_range_spec ar a : in_space ar -> address_range_addr_in_range ar a = true <-> base ar <= a < base ar + size ar.
Proof. intros H. pose proof (ar_end_in ar H) as He. unfold ar_end in He. unfold address_range_addr_in_range. rewrite He, andb_true_iff, Z.leb_le, Z.ltb_lt. lia. Qed.
(** Ranges one behind the other share no address. *)
Lemma chain_disjoint st L p q a : ar_inv st L -> p ∈ L -> q ∈ L -> p <> q ->
  address_range_addr_in_range (get (ranges st) p) a && address_range_addr_in_range (get (ranges st) q) a = false.
Proof.
  intros [Ht Hs Hc] Hp Hq Hne. apply not_true_iff_false. rewrite andb_true_iff, !in_range_spec by (by apply Hs). intros [Hap Haq].
  assert (Hor : before (ranges st) p q \/ before (ranges st) q p); [|unfold before in Hor; lia]. clear Hs Ht Hap Haq. induction Hc as [|x L Hc IH Hx]; [by apply elem_of_nil in Hp|].
  rewrite list.Forall_forall in Hx. apply elem_of_cons in Hp as [->|Hp], Hq as [->|Hq]; [done|left; by apply Hx|right; by apply Hx|by apply IH].
Qed.

(** ** Correctness *)

(** The table of the kernel: the direct map, the slab heap, the stacks, the image,
    and the two dynamic ranges. *)
Definition kernel_table : list Z := [16; 32; 48; 64; 80; 96].
Definition kernel_ranges : ar_state := mkAr (list_to_map [
    (16, mkRange 0xFFFF800000000000 0x700000000000 0 0); (32, mkRange 0xFFFFF00000000000 0x10000000000 0 0); (48, mkRange 0xFFFFF10000000000 0x10000000000 0 0);
    (64, mkRange 0xFFFFFFFF80000000 0x1000000 0 0); (80, mkRange 0 0x80000000000 4096 1); (96, mkRange 0 0x1000000000 0x40000000 1)])
  (mkRbt 0 (list_to_map ((fun p => (p, mkNode 0 0 1)) <$> kernel_table))).
Lemma forall_table (P : Z -> Prop) (l : list Z) : Forall P l -> forall p, p ∈ l -> P p.
Proof. apply list.Forall_forall. Qed.
Lemma kernel_table_ok : table_ok kernel_ranges kernel_table.
Proof.
  split.
  - apply (bool_decide_unpack _). by vm_compute.
  - refine (forall_table _ _ _). repeat constructor; try (by vm_compute); apply elem_of_dom; vm_compute; by eexists.
  - refine (forall_table _ _ _). repeat constructor; by vm_compute.
  - refine (forall_table _ _ _). repeat constructor; by vm_compute.
  - intros p q Hp Hq. revert p Hp q Hq. refine (forall_table _ _ _).
    repeat (apply list.Forall_cons; split; [refine (forall_table _ _ _); repeat (apply list.Forall_cons; split; [intros Hp Hq Hb; first [reflexivity|exfalso; vm_compute in Hb; discriminate|exfalso; apply Hp; by vm_compute]|]); constructor|]). constructor.
Defined.

(** One range in the tree. *)
Lemma one_range_inv rs h q : rs !! q = Some (get rs q) -> in_space (get rs q) -> ok_addr q -> h !! q = Some (cell 0 0 0 Black) -> ar_inv (mkAr rs (mkRbt q h)) [q].
Proof.
  intros Hq Hs Hok Hn. split; [|intros p ->%list_elem_of_singleton; split; [cbn [ranges]; rewrite Hq; by eexists|done]|by repeat constructor]. exists (T Black E q E). split; [|done].
  split; [|split; [done|]; exists 1%nat; by repeat constructor]. split; [done|done|by cbn|cbn; apply NoDup_singleton|by apply Forall_singleton].
Qed.

(** A static range with a base of its own is added to the table exactly when it
    overlaps none of the ranges in the tree: looking at its two neighbours is
    enough.  Otherwise the kernel panics. *)
Theorem add_static_address_range_exact (DEBUG_RBT DEBUG_RBT_DEEP DEBUG_LOCK_CHK : bool) st L p ar : ar_inv st L -> ranges st !! p = Some ar -> in_space ar ->
  (forall q, q ∈ L -> base (get (ranges st) q) <> base ar) -> ok_addr p -> p ∉ L -> p ∈ dom (nodes (ar_tree st)) ->
  let r := add_static_address_range DEBUG_RBT DEBUG_RBT_DEEP DEBUG_LOCK_CHK st p in
  if existsb (fun q => address_ranges_overlap (get (ranges st) q) ar) L then r = Panic
  else exists t' L', r = Ok (mkAr (ranges st) t') /\ ar_inv (mkAr (ranges st) t') L' /\ L' ≡ₚ p :: L.
Proof.
  intros Hi Hp Hs Hb Hok Hn Hd. cbv zeta. destruct (add_static_ok DEBUG_RBT DEBUG_RBT_DEEP DEBUG_LOCK_CHK st L p ar) as [[(q & Hq & Ho) Hr]|[Ho (t' & L' & HL' & Hr & Hi' & _)]]; try done.
  - rewrite (proj2 (existsb_exists _ _)); [done|]. exists q. split; [by apply list_elem_of_In|done].
  - assert (He : existsb (fun q => address_ranges_overlap (get (ranges st) q) ar) L = false).
    { apply not_true_iff_false. intros (q & Hq%list_elem_of_In & Hx)%existsb_exists. by rewrite Ho in Hx. }
    rewrite He. by exists t', L'.
Qed.

(** A range in the tree and another one beside it. *)
Definition two_ranges (ar : address_range) : ar_state := mkAr (<[32 := ar]> {[16 := mkRange 0 4096 0 0]}) (mkRbt 16 (<[32 := mkNode 0 0 1]> {[16 := mkNode 0 0 1]})).
Lemma add_static_address_range_exact_witness : let st := two_ranges (mkRange 4096 8 0 0) in
  exists t' L', add_static_address_range true true true st 32 = Ok (mkAr (ranges st) t') /\ ar_inv (mkAr (ranges st) t') L' /\ L' ≡ₚ [32; 16].
Proof.
  set (ar := mkRange 4096 8 0 0). cbv zeta. assert (He : existsb (fun q => address_ranges_overlap (get (ranges (two_ranges ar)) q) ar) [16] = false) by (by vm_compute).
  assert (Hi : ar_inv (two_ranges ar) [16]) by (apply one_range_inv; by vm_compute).
  assert (Hp : ranges (two_ranges ar) !! 32 = Some ar) by (by vm_compute). assert (Hs : in_space ar) by (by vm_compute).
  assert (Hb : forall q, q ∈ [16] -> base (get (ranges (two_ranges ar)) q) <> base ar) by (refine (forall_table _ _ _); repeat constructor; by vm_compute).
  assert (Hok : ok_addr 32) by (by vm_compute). assert (Hn : 32 ∉ [16]) by (apply (bool_decide_unpack _); by vm_compute).
  assert (Hd : 32 ∈ dom (nodes (ar_tree (two_ranges ar)))) by (apply elem_of_dom; vm_compute; by eexists).
  pose proof (add_static_address_range_exact true true true (two_ranges ar) [16] 32 ar Hi Hp Hs Hb Hok Hn Hd) as H. cbv zeta in H. by rewrite He in H.
Defined.

(** C35: A static range with the same base as one in the tree is not compared with
    it: both are in the tree afterwards, even when they overlap. *)
Theorem add_static_same_base (DEBUG_RBT DEBUG_RBT_DEEP DEBUG_LOCK_CHK : bool) st L p q ar : ar_inv st L -> ranges st !! p = Some ar -> in_space ar ->
  q ∈ L -> base (get (ranges st) q) = base ar -> (forall x, x ∈ L -> base (get (ranges st) x) <> base ar -> address_ranges_overlap (get (ranges st) x) ar = false) ->
  ok_addr p -> p ∉ L -> p ∈ dom (nodes (ar_tree st)) ->
  exists t' L', add_static_address_range DEBUG_RBT DEBUG_RBT_DEEP DEBUG_LOCK_CHK st p = Ok (mkAr (ranges st) t') /\ tree_of t' L' /\ L' ≡ₚ p :: L.
Proof.
  intros Hi Hp Hsp Hq Hb Hno Hok Hn Hd. pose proof (inv_sorted _ _ Hi) as Hs. destruct (Hi) as [Ht Hspace _]. destruct (tree_of_ok _ _ Ht) as [_ HO]. rewrite list.Forall_forall in HO.
  assert (Hchk : forall x, x = 0 \/ (x ∈ L /\ base (get (ranges st) x) <> base ar) -> check_overlap st x ar = Ok tt).
  { intros x Hx. rewrite check_overlap_ok by (destruct Hx as [?|[? _]]; [by left|right; by apply Hspace]). destruct Hx as [->|[Hx Hxb]]; [done|]. by rewrite (Hno x Hx Hxb), andb_false_r. }
  unfold add_static_address_range. rewrite Hp. cbn [deref]. rewrite bind_Ok, (tree_predecessor _ _ _ _ Ht Hs), bind_Ok, (tree_successor _ _ _ _ Ht Hs), bind_Ok.
  rewrite Hchk, bind_Ok, Hchk, bind_Ok.
  - destruct (tree_insert (key_cmp (ar_get_data (ranges st))) DEBUG_RBT DEBUG_RBT_DEEP DEBUG_LOCK_CHK (ar_tree st) L p) as (t' & E1 & H1 & _); try done; [by apply key_cmp_ordered|].
    exists t', (put_ordered (key_cmp (ar_get_data (ranges st))) p L). unfold ar_insert. rewrite ar_cmp_key, E1, bind_Ok. split_and!; [done|done|apply put_ordered_perm].
  - match goal with |- context [default 0 ?o] => destruct o as [x|] eqn:Ex end; [right|by left]. cbn [default from_option]. unfold id. apply last_Some_elem_of in Ex. apply list_elem_of_filter in Ex as [Hx ?]. rewrite get_data_get in Hx. split; [done|lia].
  - match goal with |- context [default 0 ?o] => destruct o as [x|] eqn:Ex end; [right|by left]. cbn [default from_option]. unfold id. apply head_Some_elem_of in Ex. apply list_elem_of_filter in Ex as [Hx ?]. rewrite get_data_get in Hx. split; [done|lia].
Qed.
Lemma add_static_same_base_witness : let st := two_ranges (mkRange 0 8192 0 0) in
  address_ranges_overlap (get (ranges st) 16) (get (ranges st) 32) = true /\
  exists t' L', add_static_address_range true true true st 32 = Ok (mkAr (ranges st) t') /\ tree_of t' L' /\ L' ≡ₚ [32; 16].
Proof.
  split; [done|]. apply (add_static_same_base true true true (two_ranges (mkRange 0 8192 0 0)) [16] 32 16 (mkRange 0 8192 0 0)).
  - apply one_range_inv; by vm_compute.
  - by vm_compute.
  - by vm_compute.
  - by left.
  - by vm_compute.
  - refine (forall_table _ _ _). repeat constructor; by vm_compute.
  - by vm_compute.
  - apply (bool_decide_unpack _). by vm_compute.
  - apply elem_of_dom. vm_compute. by eexists.
Defined.

(** The passes of [address_ranges_init], with the second up to the ranges [done]. *)
Definition init_run (DEBUG_RBT DEBUG_RBT_DEEP DEBUG_LOCK_CHK : bool) (st : ar_state) (table done : list Z) : outcome ar_state :=
  st ← for_each (static_pass DEBUG_RBT DEBUG_RBT_DEEP DEBUG_LOCK_CHK) (mkAr (ranges st) (rbt_init (ar_tree st))) table;
  for_each (dynamic_pass DEBUG_RBT DEBUG_RBT_DEEP DEBUG_LOCK_CHK) st done.
(** C14: When [address_ranges_init] returns, every range of the table is in the tree,
    the static ranges are where they were, every dynamic range has an aligned base
    and ends below the end of the kernel's half (and starts in it, if the static
    ranges do), and no address is in two ranges.  If the static ranges are in the
    kernel's half, every dynamic range with a power of two as its alignment is at the
    least address of that half at which it fits beside the static ranges and the
    dynamic ones before it in the table.  It does not return only when two static
    ranges overlap, or when, with the ranges before it in their places, a dynamic
    range has a base already, has an alignment that is no power of two, or fits at no
    address of the kernel's half; and it never faults.  Static ranges are assumed
    not to wrap around the address space, and no two of them to start at the same
    address. *)
Theorem address_ranges_init_correct (DEBUG_RBT DEBUG_RBT_DEEP DEBUG_LOCK_CHK : bool) st table : table_ok st table ->
  let low := forall p, p ∈ table -> ~ dynamic (ranges st) p -> ADDRESS_RANGE_KERNEL_START <= base (get (ranges st) p) in
  let r := address_ranges_init DEBUG_RBT DEBUG_RBT_DEEP DEBUG_LOCK_CHK st table in
  (r = Panic /\ (static_clash (ranges st) table \/ no_place (init_run DEBUG_RBT DEBUG_RBT_DEEP DEBUG_LOCK_CHK st table) low (ranges st) table)) \/
  (exists st' L, r = Ok st' /\ tree_of (ar_tree st') L /\ L ≡ₚ table /\ (forall p, p ∈ table -> placed low (ranges st) (ranges st') p) /\ (low -> first_fit (ranges st) (ranges st') table table) /\
    forall p q a, p ∈ table -> q ∈ table -> p <> q ->
      address_range_addr_in_range (get (ranges st') p) a && address_range_addr_in_range (get (ranges st') q) a = false).
Proof.
  intros HT low. cbv zeta. unfold address_ranges_init, init_run. set (t0 := rbt_init (ar_tree st)). destruct (HT) as [HN Hnodes Hstat Hdyn Hb].
  assert (HT0 : table_ok (mkAr (ranges st) t0) ([] ++ table)) by (by split). assert (Hi0 : ar_inv (mkAr (ranges st) t0) []) by (split; [apply tree_of_nil|by intros ? ?%elem_of_nil|constructor]).
  destruct (static_pass_ok DEBUG_RBT DEBUG_RBT_DEEP DEBUG_LOCK_CHK (ranges st) table [] t0) as [[-> Hcl]|(t1 & L1 & -> & Hi1 & HL1 & Hd1)]; [done|done|by exists []|left; by split; [|left]|]. rewrite bind_Ok.
  cbn [app] in HL1. assert (HL1' : forall p, p ∈ L1 -> p ∈ table /\ ~ dynamic (ranges st) p) by (intros p Hp; rewrite HL1 in Hp; apply list_elem_of_filter in Hp; tauto).
  destruct (dynamic_pass_ok DEBUG_RBT DEBUG_RBT_DEEP DEBUG_LOCK_CHK low (ranges st) table (dom (nodes (ar_tree st))) (mkAr (ranges st) t1)) with (l := table) (done := @nil Z) (st := mkAr (ranges st) t1) (L := L1) as [[-> Hno]|(st' & L & -> & Hpr)];
    [done|intros p Hp; split; by apply Hnodes|done|by intros p Hp; apply Hnodes|done| |left; by split; [|right]|right].
  - split; cbn [ranges ar_tree]; [done|done| |done| | |done|].
    + rewrite HL1, Permutation_app_comm. apply filter_app_complement.
    + intros p [Hp Hd]%HL1'. destruct (Hnodes p Hp) as (_ & _ & ar & Har). exists ar. split; [done|]. by left.
    + intros Hl p [Hp Hd]%HL1'. by apply Hl.
    + intros _ l1 p l2 Hl. by destruct l1.
  - destruct Hpr as [_ Hi HL _ Hdone _ _ Hfit]. cbn in HL. rewrite app_nil_r in HL. exists st', L. split; [done|]. split_and!; [apply Hi|done| |done|].
    + intros p Hp. apply Hdone. by rewrite HL.
    + intros p q a Hp Hq Hne. apply (chain_disjoint st' L); try done; by rewrite HL.
Qed.
Lemma address_ranges_init_correct_witness : exists st', address_ranges_init true true true kernel_ranges kernel_table = Ok st' /\
  base (get (ranges st') 80) = 0xFFFFF20000000000 /\ base (get (ranges st') 96) = 0xFFFFFA0000000000 /\
  (forall a, address_range_addr_in_range (get (ranges st') 80) a && address_range_addr_in_range (get (ranges st') 96) a = false).
Proof.
  destruct (address_ranges_init true true true kernel_ranges kernel_table) as [st'| |] eqn:E; [|by vm_compute in E..]. exists st'. split; [done|].
  destruct (address_ranges_init_correct true true true kernel_ranges kernel_table kernel_table_ok) as [[Hp _]|(st2 & L & H2 & _ & _ & _ & _ & Hd)]; [by rewrite E in Hp|].
  rewrite E in H2. injection H2 as <-. split_and!.
  - assert (H : match address_ranges_init true true true kernel_ranges kernel_table with Ok s => base (get (ranges s) 80) | _ => 0 end = 0xFFFFF20000000000) by (by vm_compute). by rewrite E in H.
  - assert (H : match address_ranges_init true true true kernel_ranges kernel_table with Ok s => base (get (ranges s) 96) | _ => 0 end = 0xFFFFFA0000000000) by (by vm_compute). by rewrite E in H.
  - intros a. apply Hd; [apply (bool_decide_unpack _); by vm_compute..|done].
Defined.

(** *** Finding the range of an address *)

Lemma for_addr_ok st table a : (forall p, p ∈ table -> is_Some (ranges st !! p) /\ in_space (get (ranges st) p)) ->
  address_range_for_addr st table a = Ok (default 0 (head (filter (fun p => base (get (ranges st) p) <= a <= base (get (ranges st) p) + size (get (ranges st) p)) table))).
Proof.
  induction table as [|p table IH]; intros Ht; [done|]. cbn [address_range_for_addr]. destruct (Ht p ltac:(by left)) as [[ar Har] Hs]. pose proof (get_lookup _ _ _ Har) as Hg.
  rewrite filter_cons, Har. cbn [deref]. rewrite bind_Ok. unfold IN_RANGE. rewrite <- Hg, ar_end_in by done. destruct (Hs) as (?&?&?).
  rewrite (proj2 (Z.leb_le (base (get (ranges st) p)) (base (get (ranges st) p) + _))) by lia. cbn [enforce]. rewrite !bind_Ok.
  destruct (decide _) as [Hd|Hd].
  - by rewrite (proj2 (Z.leb_le _ _) (proj1 Hd)), (proj2 (Z.leb_le _ _) (proj2 Hd)).
  - assert (Hf : (base (get (ranges st) p) <=? a) && (a <=? base (get (ranges st) p) + size (get (ranges st) p)) = false).
    { apply not_true_iff_false. rewrite andb_true_iff, !Z.leb_le. done. }
    rewrite Hf. apply IH. intros; apply Ht; by right.
Qed.
(** The end of a range counts as part of it when the range of an address is
    looked up: the first address of a range that directly follows one that is
    earlier in the table is not found to be in its range, although
    [address_range_addr_in_range] says it is and is not in the other. *)
Theorem address_range_for_addr_end st l1 p l2 q l3 : NoDup (l1 ++ p :: l2 ++ q :: l3) ->
  (forall x, x ∈ l1 ++ p :: l2 ++ q :: l3 -> x <> 0 /\ is_Some (ranges st !! x) /\ in_space (get (ranges st) x)) -> 0 < size (get (ranges st) q) ->
  base (get (ranges st) p) + size (get (ranges st) p) = base (get (ranges st) q) -> let a := base (get (ranges st) q) in
  address_range_addr_in_range (get (ranges st) p) a = false /\ address_range_addr_in_range (get (ranges st) q) a = true /\
  address_range_for_addr st (l1 ++ p :: l2 ++ q :: l3) a <> Ok q.
Proof.
  intros HN Ht Hsz Hadj a. pose proof (proj2 (proj2 (Ht p ltac:(set_solver)))) as Hp. pose proof (proj2 (proj2 (Ht q ltac:(set_solver)))) as Hq. split_and!.
  - apply not_true_iff_false. rewrite in_range_spec by done. unfold a. lia.
  - apply in_range_spec; [done|]. unfold a. lia.
  - assert (Hpa : base (get (ranges st) p) <= a <= base (get (ranges st) p) + size (get (ranges st) p)) by (unfold a; destruct Hp as (?&?&?); lia).
    rewrite for_addr_ok by (intros x Hx; by apply Ht). rewrite list.filter_app, filter_cons_True, head_app by exact Hpa. intros Hx.
    assert (Hne : forall x, x ∈ l1 ++ [p] -> x <> q).
    { intros x Hx' ->. rewrite cons_middle, app_assoc in HN. apply list.NoDup_app in HN as (_ & Hd & _). apply (Hd q Hx'). set_solver. }
    match type of Hx with context [head (filter ?P l1)] => destruct (head (filter P l1)) as [x|] eqn:Eh end; cbn in Hx; injection Hx as Hx; [|apply (Hne p); [set_solver|done]].
    apply head_Some_elem_of, list_elem_of_filter in Eh as [_ Hin]. apply (Hne x); [set_solver|done].
Qed.
Lemma address_range_for_addr_end_witness : let st := kernel_ranges in let a := 0xFFFFF00000000000 in
  address_range_addr_in_range (get (ranges st) 16) a = false /\ address_range_addr_in_range (get (ranges st) 32) a = true /\
  address_range_for_addr st ([] ++ 16 :: [] ++ 32 :: [48; 64]) a <> Ok 32.
Proof.
  apply (address_range_for_addr_end kernel_ranges [] 16 [] 32 [48; 64]).
  - apply (bool_decide_unpack _). by vm_compute.
  - refine (forall_table _ _ _). repeat constructor; try (by vm_compute); vm_compute; by eexists.
  - by vm_compute.
  - by vm_compute.
Defined.
