(* ===== verification/IdSpace.v ===== *)
(** * The allocator of ids

    [kernel/structures/id_space.c] and [include/structures/id_space.h]: the free
    ids are kept as ranges in a red-black tree, one node per range.  A range is
    named by its address, which is that of its tree node.  What [vnew] returns is
    an argument of the operations that call it (0 for [NULL]); the lock is not
    modelled, each operation runs under it as a whole.  [tid_alloc] and the others
    of [include/thread/tid.h] are the same functions under another name. *)

From stdpp Require Import sorting.
From S2P Require Import Prelude Rbt RbtShape RbtInv RbtWalk RbtInsert RbtDelete RbtApi.

Definition ID_RANGE_RESERVE_COUNT : Z := 128.
(** [struct id_range] without its tree node, and its size with it. *)
Record id_range := mkIdRange { start : Z; range_length : Z; next : Z }.
Definition sizeof_id_range : Z := 48.

Record id_space := mkIdSpace {
  tree : rbt;
  id_ranges : gmap Z id_range;
  reserve_pool : Z;
  reserve_free : Z;
}.
Definition with_tree (sp : id_space) (t : rbt) : id_space := mkIdSpace t (id_ranges sp) (reserve_pool sp) (reserve_free sp).
Definition with_ranges (sp : id_space) (rs : gmap Z id_range) : id_space := mkIdSpace (tree sp) rs (reserve_pool sp) (reserve_free sp).
Definition with_reserve (sp : id_space) (p : Z) : id_space := mkIdSpace (tree sp) (id_ranges sp) (reserve_pool sp) p.
Definition range (sp : id_space) (p : Z) : outcome id_range := deref (id_ranges sp !! p).
Definition put_range (sp : id_space) (p start length next : Z) : id_space :=
  with_ranges sp (<[p := mkIdRange start length next]> (id_ranges sp)).
(** Zeroed memory at [p]: [vnew(r, ALLOC_ZERO)] or [memset] of the whole range to 0. *)
Definition zero_range (sp : id_space) (p : Z) : id_space :=
  put_range (with_tree sp (put_node (tree sp) p (mkNode 0 0 0))) p 0 0 0.

Definition id_space_get_data (rs : gmap Z id_range) (p : Z) : Z := default 0 (start <$> rs !! p).
Definition id_space_cmp (rs : gmap Z id_range) (a b : Z) : Z :=
  let l := id_space_get_data rs a in let r := id_space_get_data rs b in
  if l <? r then -1 else if r <? l then 1 else 0.

Section IdSpace.
Context (DEBUG_RBT DEBUG_RBT_DEEP DEBUG_LOCK_CHK : bool).

Definition is_insert (sp : id_space) (p : Z) : outcome id_space :=
  t ← rbt_insert (id_space_cmp (id_ranges sp)) DEBUG_RBT DEBUG_RBT_DEEP DEBUG_LOCK_CHK (tree sp) p; Ok (with_tree sp t).
Definition is_delete (sp : id_space) (p : Z) : outcome id_space :=
  t ← rbt_delete DEBUG_RBT DEBUG_RBT_DEEP (tree sp) p; Ok (with_tree sp t).

(** The range the allocator gives, one of the reserve, or [NULL]. *)
Definition id_range_alloc (sp : id_space) (vnew : Z) : outcome (id_space * Z) :=
  if negb (vnew =? 0) then Ok (zero_range sp vnew, vnew) else
  if negb (reserve_free sp =? 0) then
    let r := reserve_free sp in
    n ← range sp r;
    Ok (zero_range (with_reserve sp (next n)) r, r)
  else Ok (sp, 0).
Definition in_reserve (sp : id_space) (r : Z) : bool :=
  (reserve_pool sp <=? r) && (r <? reserve_pool sp + sizeof_id_range * ID_RANGE_RESERVE_COUNT).
Definition id_range_free (sp : id_space) (r : Z) : outcome id_space :=
  if in_reserve sp r then
    n ← range sp r;
    Ok (with_reserve (put_range sp r (start n) (range_length n) (reserve_free sp)) r)
  else Ok (with_tree (with_ranges sp (delete r (id_ranges sp))) (mkRbt (root (tree sp)) (delete r (nodes (tree sp))))).

(** One round of the loop that fills the reserve, and the loop. *)
Definition init_reserve (sp : id_space) (i : nat) : outcome id_space :=
  let p := reserve_pool sp + sizeof_id_range * Z.of_nat i in
  t ← rbt_init_node (tree sp) p;
  Ok (with_reserve (put_range (with_tree sp t) p 0 0 (reserve_free sp)) p).
Fixpoint init_reserves (sp : id_space) (l : list nat) : outcome id_space :=
  match l with [] => Ok sp | i :: l => sp ← init_reserve sp i; init_reserves sp l end.
(** [pool] is where the reserve of the new space is, if [vnew] gives one. *)
Definition id_space_init (pool : option Z) (vnew max_id : Z) : outcome (option id_space) :=
  match pool with
  | None => Ok None
  | Some pool =>
      let l := seq 0 (Z.to_nat ID_RANGE_RESERVE_COUNT) in
      let sp := mkIdSpace (mkRbt 0 (list_to_map ((fun i => (pool + sizeof_id_range * Z.of_nat i, mkNode 0 0 0)) <$> l))) ∅ pool 0 in
      sp ← init_reserves (with_tree sp (rbt_init (tree sp))) l;
      ir ← (if negb (vnew =? 0) then Ok (zero_range sp vnew, vnew) else
            if negb (reserve_free sp =? 0) then
              n ← range sp (reserve_free sp); Ok (with_reserve sp (next n), reserve_free sp)
            else Ok (sp, 0));
      let '(sp, r) := ir in
      if r =? 0 then Ok (Some sp) else
      n ← range sp r;
      sp ← is_insert (put_range sp r 1 max_id (next n)) r;
      Ok (Some sp)
  end.

(** The first [count] ids of a range are taken. *)
Definition take_ids (sp : id_space) (p : Z) (r : id_range) (count : Z) : outcome id_space :=
  if range_length r =? count then sp ← is_delete sp p; id_range_free sp p
  else
    sp ← is_delete sp p;
    is_insert (put_range sp p (u64 (start r + count)) (u64 (range_length r - count)) (next r)) p.
Definition id_space_alloc (sp : id_space) : outcome (id_space * Z) :=
  p ← rbt_min DEBUG_RBT (tree sp);
  if p =? 0 then Ok (sp, 0) else
  r ← range sp p;
  sp ← take_ids sp p r 1;
  Ok (sp, start r).

(** The walk to the place of an id: the ranges on both sides, or [None] when the
    id is free already. *)
Definition free_body (sp : id_space) (id : Z) (s : Z * Z * Z) : outcome (Z * Z * Z + option (Z * Z)) :=
  let '(p, prev, nxt) := s in
  if p =? 0 then Ok (inr (Some (prev, nxt))) else
  r ← range sp p;
  n ← node (tree sp) p;
  if id <? start r then Ok (inl (left n, prev, p)) else
  if u64 (start r + range_length r - 1) <? id then Ok (inl (right n, p, nxt)) else
  Ok (inr None).
(** [if (prev && prev->start + prev->length == id) { prev->length++; ... }] *)
Definition merge_prev (sp : id_space) (prev id : Z) : outcome (id_space * bool) :=
  if prev =? 0 then Ok (sp, false) else
  r ← range sp prev;
  if u64 (start r + range_length r) =? id
  then Ok (put_range sp prev (start r) (u64 (range_length r + 1)) (next r), true) else Ok (sp, false).
Definition merge_next (sp : id_space) (prev nxt id : Z) (merged_prev : bool) : outcome (id_space * bool) :=
  if nxt =? 0 then Ok (sp, false) else
  r ← range sp nxt;
  if start r =? u64 (id + 1) then
    if merged_prev then
      rp ← range sp prev;
      let sp := put_range sp prev (start rp) (u64 (range_length rp + range_length r)) (next rp) in
      sp ← is_delete sp nxt;
      sp ← id_range_free sp nxt;
      Ok (sp, true)
    else
      sp ← is_delete sp nxt;
      sp ← is_insert (put_range sp nxt id (u64 (range_length r + 1)) (next r)) nxt;
      Ok (sp, true)
  else Ok (sp, false).
Definition id_space_free (sp : id_space) (vnew id : Z) : outcome id_space :=
  w ← loop (rounds (tree sp)) (free_body sp id) (root (tree sp), 0, 0);
  match w with
  | None => Ok sp
  | Some (prev, nxt) =>
      m ← merge_prev sp prev id;
      let '(sp, merged_prev) := m in
      m ← merge_next sp prev nxt id merged_prev;
      let '(sp, merged_next) := m in
      if negb merged_prev && negb merged_next then
        a ← id_range_alloc sp vnew;
        let '(sp, r) := a in
        if r =? 0 then Ok sp else
        n ← range sp r;
        is_insert (put_range sp r id 1 (next n)) r
      else Ok sp
  end.

(** [rbt_for_each]: the first range with [count] ids. *)
Definition fit_body (sp : id_space) (count : Z) (p : Z) : outcome (Z + Z) :=
  if p =? 0 then Ok (inr 0) else
  r ← range sp p;
  if count <=? range_length r then Ok (inr p) else
  n ← rbt_next DEBUG_RBT (tree sp) p; Ok (inl n).
Definition id_space_alloc_range (sp : id_space) (count : Z) : outcome (id_space * Z) :=
  if count =? 0 then Ok (sp, 0) else
  if count =? 1 then id_space_alloc sp else
  first ← rbt_first (tree sp);
  p ← loop (rounds (tree sp)) (fit_body sp count) first;
  if p =? 0 then Ok (sp, 0) else
  r ← range sp p;
  sp ← take_ids sp p r count;
  Ok (sp, start r).
(** [vnew i] is what the allocator gives in round [i]. *)
Fixpoint free_range (sp : id_space) (vnew : nat -> Z) (st : Z) (i n : nat) : outcome id_space :=
  match n with
  | O => Ok sp
  | S n => sp ← id_space_free sp (vnew i) (u64 (st + Z.of_nat i)); free_range sp vnew st (S i) n
  end.
Definition id_space_free_range (sp : id_space) (vnew : nat -> Z) (st count : Z) : outcome id_space := free_range sp vnew st 0 (Z.to_nat count).

(** [rbt_for_each_safe(node, tmp, &is->tree)], then the space itself is freed. *)
Definition destroy_body (s : id_space * Z * Z) : outcome (id_space * Z * Z + id_space) :=
  let '(sp, p, tmp) := s in
  if p =? 0 then Ok (inr sp) else
  sp ← is_delete sp p;
  sp ← id_range_free sp p;
  n ← rbt_next DEBUG_RBT (tree sp) tmp;
  Ok (inl (sp, tmp, n)).
Definition id_space_destroy (sp : id_space) : outcome id_space :=
  first ← rbt_first (tree sp);
  tmp ← rbt_next DEBUG_RBT (tree sp) first;
  loop (rounds (tree sp)) destroy_body (sp, first, tmp).
End IdSpace.

(** ** The free ids *)

Definition rget (rs : gmap Z id_range) (p : Z) : id_range := default (mkIdRange 0 0 0) (rs !! p).
Definition lo (rs : gmap Z id_range) (p : Z) : Z := start (rget rs p).
Definition hi (rs : gmap Z id_range) (p : Z) : Z := start (rget rs p) + range_length (rget rs p).
(** The id is in one of the ranges. *)
Definition frees (rs : gmap Z id_range) (L : list Z) (i : Z) : Prop := exists p, p ∈ L /\ lo rs p <= i < hi rs p.
(** Ranges of ids that do not touch: a run of free ids is in one range. *)
Definition apart (rs : gmap Z id_range) (a b : Z) : Prop := hi rs a < lo rs b.
Record ranges_ok (rs : gmap Z id_range) (L : list Z) : Prop := mkRangesOk {
  ro_each : forall p, p ∈ L -> is_Some (rs !! p) /\ 1 <= lo rs p /\ lo rs p < hi rs p /\ hi rs p <= 2 ^ 64;
  ro_apart : StronglySorted (apart rs) L;
}.
(** The list of unused ranges of the reserve. *)
Fixpoint linked (rs : gmap Z id_range) (p : Z) (R : list Z) : Prop :=
  match R with [] => p = 0 | q :: R => p = q /\ exists n, rs !! q = Some n /\ linked rs (next n) R end.
(** The space: the ranges [L] in the tree and [R] in the reserve. *)
Record space_inv (sp : id_space) (L R : list Z) : Prop := mkSpace {
  si_tree : tree_of (tree sp) L;
  si_ranges : ranges_ok (id_ranges sp) L;
  si_reserve : linked (id_ranges sp) (reserve_free sp) R;
  si_nodup : NoDup (L ++ R);
  si_pool : forall q, q ∈ R -> ok_addr q /\ q ∈ dom (nodes (tree sp)) /\ in_reserve sp q = true;
}.

Lemma frees_nil rs i : ~ frees rs [] i.
Proof. by intros (p & ?%elem_of_nil & _). Qed.
Lemma frees_app rs L1 L2 i : frees rs (L1 ++ L2) i <-> frees rs L1 i \/ frees rs L2 i.
Proof. unfold frees. setoid_rewrite elem_of_app. naive_solver. Qed.
Lemma frees_cons rs p L i : frees rs (p :: L) i <-> lo rs p <= i < hi rs p \/ frees rs L i.
Proof. unfold frees. setoid_rewrite elem_of_cons. naive_solver. Qed.
Lemma rget_agree rs rs' p : rs' !! p = rs !! p -> rget rs' p = rget rs p.
Proof. unfold rget. by intros ->. Qed.
Lemma frees_agree rs rs' L i : (forall p, p ∈ L -> rs' !! p = rs !! p) -> frees rs' L i <-> frees rs L i.
Proof. intros Ha. unfold frees, lo, hi. split; intros (p & Hp & Hi); exists p; by rewrite ?(rget_agree rs rs' p), ?(rget_agree rs rs' p) in * by auto. Qed.
Lemma apart_agree rs rs' L : (forall p, p ∈ L -> rs' !! p = rs !! p) -> StronglySorted (apart rs) L -> StronglySorted (apart rs') L.
Proof.
  intros Ha Hs. induction Hs as [|x L Hs IH Hx]; constructor; [apply IH; intros; apply Ha; by right|]. rewrite list.Forall_forall in *. intros y Hy. specialize (Hx y Hy).
  unfold apart, lo, hi in *. by rewrite !(rget_agree rs rs') by (apply Ha; set_solver).
Qed.
Lemma ranges_agree rs rs' L : (forall p, p ∈ L -> rs' !! p = rs !! p) -> ranges_ok rs L -> ranges_ok rs' L.
Proof. intros Ha [He Hs]. split; [|by eapply apart_agree]. intros p Hp. unfold lo, hi. rewrite (Ha p Hp), (rget_agree rs rs') by auto. by apply He. Qed.
Lemma linked_agree rs rs' R : forall p, (forall q, q ∈ R -> rs' !! q = rs !! q) -> linked rs p R -> linked rs' p R.
Proof. induction R as [|q R IH]; intros p Ha H; [done|]. destruct H as (-> & n & Hn & H). split; [done|]. exists n. split; [by rewrite Ha by (by left)|]. apply IH; [intros; apply Ha; by right|done]. Qed.
Lemma ranges_app rs L1 L2 : ranges_ok rs (L1 ++ L2) <-> ranges_ok rs L1 /\ ranges_ok rs L2 /\ (forall a b, a ∈ L1 -> b ∈ L2 -> apart rs a b).
Proof.
  split.
  - intros [He Hs]. apply StronglySorted_app in Hs as (Hd & H1 & H2). split_and!; [split..|done]; try done; intros p Hp; apply He; set_solver.
  - intros ([E1 S1] & [E2 S2] & Hd). split; [intros p [Hp|Hp]%elem_of_app; auto|]. apply StronglySorted_app. by split_and!.
Qed.
Lemma ranges_cons rs p L : ranges_ok rs (p :: L) <-> (is_Some (rs !! p) /\ 1 <= lo rs p /\ lo rs p < hi rs p /\ hi rs p <= 2 ^ 64) /\ ranges_ok rs L /\ (forall b, b ∈ L -> apart rs p b).
Proof.
  split.
  - intros [He Hs]. apply StronglySorted_cons in Hs as [Hp Hs]. split_and!; try (apply He; by left); [split; [intros; apply He; by right|done]|by apply list.Forall_forall].
  - intros (Hp & [He Hs] & Hd). split; [intros q [->|Hq]%elem_of_cons; auto|]. apply StronglySorted_cons. split; [by apply list.Forall_forall|done].
Qed.

(** The comparison orders the ranges by their start. *)
Lemma cmp_key rs a b : id_space_cmp rs a b = key_cmp (id_space_get_data rs) a b.
Proof. unfold id_space_cmp, key_cmp. destruct (Z.ltb_spec (id_space_get_data rs a) (id_space_get_data rs b)), (Z.ltb_spec (id_space_get_data rs b) (id_space_get_data rs a)); cbn; lia. Qed.
#[export] Instance id_space_cmp_order rs : NodeOrder (id_space_cmp rs).
Proof. split; intros *; rewrite !cmp_key; [apply cmp_anti|apply cmp_trans]. Qed.
Lemma get_data_lo rs p : id_space_get_data rs p = lo rs p.
Proof. unfold id_space_get_data, lo, rget. by destruct (rs !! p). Qed.
Lemma cmp_le rs a b : id_space_cmp rs a b <= 0 <-> lo rs a <= lo rs b.
Proof. by rewrite cmp_key, key_cmp_le, !get_data_lo. Qed.
Lemma cmp_lt rs a b : id_space_cmp rs a b < 0 <-> lo rs a < lo rs b.
Proof. by rewrite cmp_key, key_cmp_lt, !get_data_lo. Qed.
Lemma ranges_ordered rs L : ranges_ok rs L -> ordered (id_space_cmp rs) L.
Proof.
  intros [He Hs]. induction Hs as [|x L Hs IH Hx]; constructor; [apply IH; intros; apply He; by right|]. rewrite list.Forall_forall in *. intros y Hy. apply cmp_le. specialize (Hx y Hy).
  unfold apart in Hx. destruct (He x ltac:(by left)) as (_&?&?&?). lia.
Qed.

Lemma linked_head rs p R : linked rs p R -> (forall q, q ∈ R -> ok_addr q) -> (p =? 0) = bool_decide (R = []).
Proof. destruct R as [|q R]; cbn; [by intros ->|]. intros [-> _] Ho. rewrite ok_ne0 by (apply Ho; by left). done. Qed.

Section Ops.
Context (DEBUG_RBT DEBUG_RBT_DEEP DEBUG_LOCK_CHK : bool).
Local Abbreviation insert_node := (is_insert DEBUG_RBT DEBUG_RBT_DEEP DEBUG_LOCK_CHK).
Local Abbreviation delete_node := (is_delete DEBUG_RBT DEBUG_RBT_DEEP).

Lemma is_insert_ok sp l1 p l2 : tree_of (tree sp) (l1 ++ l2) -> ranges_ok (id_ranges sp) (l1 ++ p :: l2) -> ok_addr p -> p ∉ l1 ++ l2 -> p ∈ dom (nodes (tree sp)) ->
  exists t', insert_node sp p = Ok (with_tree sp t') /\ tree_of t' (l1 ++ p :: l2) /\ same_out (p :: l1 ++ l2) (tree sp) t'.
Proof.
  intros Ht Hr Hok Hn Hd. apply ranges_app in Hr as (H1 & H2 & H12). pose proof (proj1 (ranges_cons _ _ _) H2) as (Hp & H2' & Hp2).
  assert (Ho : ordered (id_space_cmp (id_ranges sp)) (l1 ++ l2)) by (apply ranges_ordered, ranges_app; split_and!; try done; intros; apply H12; set_solver).
  destruct (tree_insert (id_space_cmp (id_ranges sp)) DEBUG_RBT DEBUG_RBT_DEEP DEBUG_LOCK_CHK (tree sp) _ p Ht Ho Hok Hn Hd) as (t' & E1 & H' & S1).
  exists t'. unfold is_insert. rewrite E1, bind_Ok. split_and!; [done| |done]. rewrite put_ordered_at in H'; [done|apply _|..].
  - intros e He. apply ge_of_le; [apply _|]. apply cmp_le. specialize (H12 e p He ltac:(by left)). unfold apart in H12. destruct H1 as [H1 _]. destruct (H1 e He) as (_&?&?&?). lia.
  - intros e He. apply cmp_lt. specialize (Hp2 e He). unfold apart in Hp2. lia.
Qed.
Lemma is_delete_ok sp l1 p l2 R : space_inv sp (l1 ++ p :: l2) R -> exists t', delete_node sp p = Ok (with_tree sp t') /\
  space_inv (with_tree sp t') (l1 ++ l2) R /\ p ∈ dom (nodes t') /\ ok_addr p /\ (p ∉ l1 ++ l2) /\ p ∉ R.
Proof.
  intros [Ht Hr Hl HN Hp]. destruct (tree_of_ok _ _ Ht) as [_ HO]. destruct (tree_delete DEBUG_RBT DEBUG_RBT_DEEP _ l1 p l2 Ht) as (t' & c & E1 & H1 & Hn & S1).
  exists t'. unfold is_delete. rewrite E1, bind_Ok. split; [done|]. rewrite <- app_assoc in HN. split_and!; [|by eapply elem_of_dom_2|sep|sep|sep].
  split; cbn [tree id_ranges reserve_free with_tree]; [done| |done|rewrite <- app_assoc; eapply nd_sub; [exact HN|]; solve_submseteq|].
  - apply ranges_app in Hr as (A1 & A2 & A12). apply ranges_cons in A2 as (_ & A2 & _). apply ranges_app. split_and!; try done. intros; apply A12; set_solver.
  - intros q Hq. rewrite (so_dom _ _ _ S1). by apply Hp.
Qed.

(** A range that is in no list goes to the reserve or to the allocator. *)
Lemma id_range_free_ok sp L R p : space_inv sp L R -> ok_addr p -> p ∈ dom (nodes (tree sp)) -> is_Some (id_ranges sp !! p) -> p ∉ L -> p ∉ R -> exists sp' R',
  id_range_free sp p = Ok sp' /\ space_inv sp' L R' /\ reserve_pool sp' = reserve_pool sp /\
  (forall q, q <> p -> id_ranges sp' !! q = id_ranges sp !! q) /\ (in_reserve sp p = false -> id_ranges sp' !! p = None).
Proof.
  intros [Ht Hr Hl HN Hp] Hok Hd [n Hn] HL HR. unfold id_range_free. destruct (in_reserve sp p) eqn:Er.
  - unfold range. rewrite Hn. cbn [deref]. rewrite bind_Ok. set (sp' := with_reserve _ p). exists sp', (p :: R). assert (Hq : forall q, q <> p -> id_ranges sp' !! q = id_ranges sp !! q) by (intros q Hq; cbn; by rewrite lookup_insert_ne).
    split; [done|]. split; [|by split_and!]. split; [done| | | |].
    + eapply ranges_agree; [|done]. intros q Hq'. apply Hq. by intros ->.
    + cbn [linked reserve_free sp' with_reserve]. split; [done|]. eexists. split; [cbn; by rewrite lookup_insert_eq|]. cbn [next]. eapply linked_agree; [|done]. intros q Hq'. apply Hq. by intros ->.
    + rewrite <- Permutation_middle. apply list.NoDup_cons. split; [set_solver|done].
    + intros q [->|Hq']%elem_of_cons; [done|]. by apply Hp.
  - set (sp' := with_tree _ _). exists sp', R. assert (Hq : forall q, q <> p -> id_ranges sp' !! q = id_ranges sp !! q) by (intros q Hq; cbn; by rewrite lookup_delete_ne).
    split; [done|]. split; [|split_and!; [done|done|intros _; apply lookup_delete_eq]]. split; [| | |done|].
    + cbn. eapply (tree_of_agree (tree sp)); [|done|exact Ht]. intros q Hq'. cbn. apply lookup_delete_ne. by intros ->.
    + eapply ranges_agree; [|done]. intros q Hq'. apply Hq. by intros ->.
    + cbn [reserve_free sp' with_tree with_ranges]. eapply linked_agree; [|done]. intros q Hq'. apply Hq. by intros ->.
    + intros q Hq'. destruct (Hp q Hq') as (? & ? & ?). split_and!; try done. cbn. apply elem_of_dom. rewrite lookup_delete_ne by (by intros ->). by apply elem_of_dom.
Qed.

Lemma rget_insert rs p r : rget (<[p := r]> rs) p = r.
Proof. unfold rget. by rewrite lookup_insert_eq. Qed.
Lemma rget_lookup rs p n : rs !! p = Some n -> rget rs p = n.
Proof. unfold rget. by intros ->. Qed.
(** A range is rewritten and put back, between the same neighbours. *)
Lemma reinsert_ok sp l1 p l2 R s len nx : space_inv sp (l1 ++ l2) R -> ok_addr p -> p ∈ dom (nodes (tree sp)) -> p ∉ l1 ++ l2 -> p ∉ R ->
  1 <= s -> 1 <= len -> s + len <= 2 ^ 64 -> (forall a, a ∈ l1 -> hi (id_ranges sp) a < s) -> (forall b, b ∈ l2 -> s + len < lo (id_ranges sp) b) ->
  exists sp', insert_node (put_range sp p s len nx) p = Ok sp' /\ space_inv sp' (l1 ++ p :: l2) R /\
    (forall i, frees (id_ranges sp') (l1 ++ p :: l2) i <-> frees (id_ranges sp) (l1 ++ l2) i \/ s <= i < s + len).
Proof.
  intros [Ht Hr Hl HN Hp] Hok Hd Hn HR Hs Hlen Hmax H1 H2. set (sp1 := put_range sp p s len nx).
  assert (Hq : forall q, q ∈ l1 ++ l2 -> id_ranges sp1 !! q = id_ranges sp !! q) by (intros q Hq; cbn; rewrite lookup_insert_ne; [done|]; by intros ->).
  assert (Hlo : lo (id_ranges sp1) p = s /\ hi (id_ranges sp1) p = s + len) by (unfold lo, hi; cbn; by rewrite rget_insert).
  assert (Hr1 : ranges_ok (id_ranges sp1) (l1 ++ p :: l2)).
  { apply ranges_app in Hr as (A1 & A2 & A12). apply ranges_app. split_and!; [by eapply ranges_agree; [intros; apply Hq; set_solver|]| |].
    - apply ranges_cons. rewrite (proj1 Hlo), (proj2 Hlo). split_and!; try lia; [cbn; rewrite lookup_insert_eq; by eexists|by eapply ranges_agree; [intros; apply Hq; set_solver|]|].
      intros b Hb. unfold apart, lo. rewrite (proj2 Hlo), (rget_agree (id_ranges sp)) by (apply Hq; set_solver). by apply H2.
    - intros a b Ha [->|Hb]%elem_of_cons; unfold apart, hi; rewrite (rget_agree (id_ranges sp) (id_ranges sp1) a) by (apply Hq; set_solver); [rewrite (proj1 Hlo); by apply H1|].
      unfold lo. rewrite (rget_agree (id_ranges sp) (id_ranges sp1) b) by (apply Hq; set_solver). by apply A12. }
  destruct (is_insert_ok sp1 l1 p l2 Ht Hr1 Hok Hn Hd) as (t' & E1 & H' & S1). exists (with_tree sp1 t'). split; [done|]. split.
  - split; cbn [tree with_tree id_ranges reserve_free]; [done|done| | |].
    + eapply linked_agree; [|exact Hl]. intros q Hq'. cbn. rewrite lookup_insert_ne; [done|]. by intros ->.
    + rewrite <- app_assoc. cbn [app]. rewrite <- Permutation_middle, app_assoc. apply list.NoDup_cons. split; [set_solver|done].
    + intros q Hq'. rewrite (so_dom _ _ _ S1). by apply Hp.
  - intros i. cbn [id_ranges with_tree]. rewrite !frees_app, frees_cons, (proj1 Hlo), (proj2 Hlo), !(frees_agree (id_ranges sp) (id_ranges sp1)) by (intros; apply Hq; set_solver). tauto.
Qed.

Lemma others_apart rs l1 p l2 i : ranges_ok rs (l1 ++ p :: l2) -> frees rs (l1 ++ l2) i -> ~ lo rs p <= i < hi rs p.
Proof.
  intros (A1 & A2 & A12)%ranges_app. apply ranges_cons in A2 as ((_ & ?) & A2 & Hp2). intros [(q & Hq & Hi)|(q & Hq & Hi)]%frees_app.
  - specialize (A12 q p Hq ltac:(by left)). unfold apart in A12. lia.
  - specialize (Hp2 q Hq). unfold apart in Hp2. lia.
Qed.
Lemma take_ids_ok sp l1 p l2 R count : space_inv sp (l1 ++ p :: l2) R -> 1 <= count <= range_length (rget (id_ranges sp) p) -> exists sp' L' R',
  take_ids DEBUG_RBT DEBUG_RBT_DEEP DEBUG_LOCK_CHK sp p (rget (id_ranges sp) p) count = Ok sp' /\ space_inv sp' L' R' /\
  forall i, frees (id_ranges sp') L' i <-> frees (id_ranges sp) (l1 ++ p :: l2) i /\ ~ lo (id_ranges sp) p <= i < lo (id_ranges sp) p + count.
Proof.
  intros Hi Hc. pose proof (si_ranges _ _ _ Hi) as Hr. destruct (is_delete_ok sp l1 p l2 R Hi) as (t1 & E1 & H1 & Hd & Hok & HL & HR). unfold take_ids. rewrite E1.
  set (sp1 := with_tree sp t1) in *. pose proof (fun i => others_apart (id_ranges sp) l1 p l2 i Hr) as Hap. pose proof (proj1 (ranges_app _ _ _) Hr) as (_ & Hr2 & Hr12). apply ranges_cons in Hr2 as ((Hs & Hlo & Hlh & Hhi) & _ & Hp2).
  assert (Hfr : forall i, frees (id_ranges sp) (l1 ++ p :: l2) i <-> frees (id_ranges sp) (l1 ++ l2) i \/ lo (id_ranges sp) p <= i < hi (id_ranges sp) p) by (intros i; rewrite !frees_app, frees_cons; tauto).
  unfold lo, hi in Hlo, Hlh, Hhi. destruct (Z.eqb_spec (range_length (rget (id_ranges sp) p)) count) as [Heq|Hne]; rewrite bind_Ok.
  - destruct (id_range_free_ok sp1 (l1 ++ l2) R p) as (sp2 & R' & E2 & H2 & _ & Ha & _); try done. exists sp2, (l1 ++ l2), R'. split_and!; [done|done|]. intros i.
    rewrite Hfr, (frees_agree (id_ranges sp) (id_ranges sp2)) by (intros q Hq; apply Ha; by intros ->). specialize (Hap i). unfold lo, hi in *. rewrite Heq in *. tauto.
  - rewrite !wrap_small by (unfold in_u; lia). set (r := rget (id_ranges sp) p) in *.
    destruct (reinsert_ok sp1 l1 p l2 R (start r + count) (range_length r - count) (next r)) as (sp2 & E2 & H2 & Hf); try done; try lia.
    + intros a Ha. specialize (Hr12 a p Ha ltac:(by left)). unfold apart, lo in Hr12. fold r in Hr12. cbn [id_ranges sp1 with_tree]. lia.
    + intros b Hb. specialize (Hp2 b Hb). unfold apart in Hp2. unfold hi in Hp2. fold r in Hp2. cbn [id_ranges sp1 with_tree]. lia.
    + exists sp2, (l1 ++ p :: l2), R. split_and!; [done|done|]. intros i. rewrite Hf, Hfr. cbn [id_ranges sp1 with_tree]. specialize (Hap i). unfold lo, hi in *. fold r in Hap |- *. split; [|intros [[Hx|Hx] Hnot]; [by left|right; lia]].
      intros [Hx|Hx]; [|lia]. split; [by left|]. specialize (Hap Hx). lia.
Qed.

Lemma range_at sp L R p : space_inv sp L R -> p ∈ L -> range sp p = Ok (rget (id_ranges sp) p).
Proof. intros Hi Hp. destruct (ro_each _ _ (si_ranges _ _ _ Hi) p Hp) as ([n Hn] & _). unfold range, rget. by rewrite Hn. Qed.
Lemma space_ok sp L R p : space_inv sp L R -> p ∈ L -> ok_addr p.
Proof. intros Hi Hp. destruct (tree_of_ok _ _ (si_tree _ _ _ Hi)) as [_ HO]. rewrite list.Forall_forall in HO. by apply HO. Qed.
(** The least free id is the first of the first range. *)
Lemma least_id rs p L : ranges_ok rs (p :: L) -> frees rs (p :: L) (lo rs p) /\ forall i, frees rs (p :: L) i -> lo rs p <= i.
Proof.
  intros ((_ & ?) & _ & Hp)%ranges_cons. split; [apply frees_cons; left; lia|]. intros i [?|(q & Hq & Hi)]%frees_cons; [lia|]. specialize (Hp q Hq). unfold apart in Hp. lia.
Qed.
Lemma alloc_ok sp L R : space_inv sp L R -> exists sp' id L' R', id_space_alloc DEBUG_RBT DEBUG_RBT_DEEP DEBUG_LOCK_CHK sp = Ok (sp', id) /\ space_inv sp' L' R' /\
  ((id = 0 /\ sp' = sp /\ L' = L /\ L = []) \/
   (frees (id_ranges sp) L id /\ (forall i, frees (id_ranges sp) L i -> id <= i) /\ 1 <= id /\ forall i, frees (id_ranges sp') L' i <-> frees (id_ranges sp) L i /\ i <> id)).
Proof.
  intros Hi. unfold id_space_alloc. rewrite (tree_min _ _ _ (si_tree _ _ _ Hi)), bind_Ok. destruct L as [|p L]; [exists sp, 0, [], R; split_and!; try done; by left|].
  cbn [head default from_option]. unfold id. rewrite ok_ne0 by (eapply space_ok; [exact Hi|by left]). rewrite (range_at sp (p :: L) R) by (done || by left). rewrite bind_Ok.
  pose proof (si_ranges _ _ _ Hi) as Hr. pose proof (least_id _ _ _ Hr) as [Hl1 Hl2]. apply ranges_cons in Hr as ((_ & Hlo & Hlh & Hhi) & _).
  destruct (take_ids_ok sp [] p L R 1) as (sp' & L' & R' & E1 & H1 & Hf); [done|unfold lo, hi in *; lia|]. rewrite E1, bind_Ok. exists sp', (lo (id_ranges sp) p), L', R'.
  split_and!; [done|done|right]. split_and!; [done|done|done|]. intros i. rewrite Hf. cbn [app]. split; intros [? ?]; (split; [done|]); lia.
Qed.

(** *** Runs of ids *)

Definition run (rs : gmap Z id_range) (L : list Z) (st count : Z) : Prop := forall i, st <= i < st + count -> frees rs L i.
Lemma sorted_pair rs L a b : StronglySorted (apart rs) L -> a ∈ L -> b ∈ L -> a <> b -> apart rs a b \/ apart rs b a.
Proof.
  induction 1 as [|x L Hs IH Hx]; intros Ha Hb Hne; [by apply elem_of_nil in Ha|]. rewrite list.Forall_forall in Hx.
  apply elem_of_cons in Ha as [->|Ha], Hb as [->|Hb]; [done|left; by apply Hx|right; by apply Hx|by apply IH].
Qed.
(** The ranges do not touch, so a run is in one of them. *)
Lemma run_range rs L st count : ranges_ok rs L -> 1 <= count -> run rs L st count -> exists p, p ∈ L /\ lo rs p <= st /\ st + count <= hi rs p.
Proof.
  intros [He Hs] Hc Hr. destruct (Hr st ltac:(lia)) as (p & Hp & Hi). exists p. split_and!; [done|lia|]. destruct (Z.le_gt_cases (st + count) (hi rs p)) as [|Hlt]; [done|].
  destruct (Hr (hi rs p) ltac:(lia)) as (q & Hq & Hj). assert (Hne : p <> q) by (intros ->; lia). exfalso.
  destruct (sorted_pair rs L p q Hs Hp Hq Hne) as [Ha|Ha]; unfold apart in Ha; lia.
Qed.
Lemma fit_loop sp R count : forall l2 l1 fuel, space_inv sp (l1 ++ l2) R -> (length l2 < fuel)%nat ->
  loop fuel (fit_body DEBUG_RBT sp count) (default 0 (head l2)) = Ok (default 0 (head (filter (fun p => count <= range_length (rget (id_ranges sp) p)) l2))).
Proof.
  induction l2 as [|p l2 IH]; intros l1 fuel Hi Hf; (destruct fuel as [|fuel]; [lia|]); [by apply loop_done|]. cbn [head default from_option]. unfold id.
  assert (Hb : fit_body DEBUG_RBT sp count p = if count <=? range_length (rget (id_ranges sp) p) then Ok (inr p) else Ok (inl (default 0 (head l2)))).
  { unfold fit_body. rewrite ok_ne0 by (eapply space_ok; [exact Hi|set_solver]). rewrite (range_at _ _ _ p Hi) by set_solver. rewrite bind_Ok, (tree_next _ _ l1 p l2 (si_tree _ _ _ Hi)). by destruct (count <=? _). }
  rewrite filter_cons. destruct (Z.leb_spec count (range_length (rget (id_ranges sp) p))) as [Hle|Hgt].
  - rewrite decide_True by done. by apply loop_done.
  - rewrite decide_False by lia. rewrite (loop_step _ _ _ _ Hb). apply (IH (l1 ++ [p])); [by rewrite <- app_assoc|cbn in Hf; lia].
Qed.
Lemma space_rounds sp L R : space_inv sp L R -> (length L < rounds (tree sp))%nat.
Proof. intros [(t & H & <-) _ _ _ _]. pose proof (shape_rounds _ [] t (proj1 H)) as Hf. unfold all in Hf. cbn in Hf. by rewrite app_nil_r in Hf. Qed.

Lemma alloc_range_ok sp L R count : space_inv sp L R -> 1 <= count -> exists sp' id L' R',
  id_space_alloc_range DEBUG_RBT DEBUG_RBT_DEEP DEBUG_LOCK_CHK sp count = Ok (sp', id) /\ space_inv sp' L' R' /\
  ((id = 0 /\ sp' = sp /\ L' = L /\ forall st, ~ run (id_ranges sp) L st count) \/
   (run (id_ranges sp) L id count /\ (forall st, run (id_ranges sp) L st count -> id <= st) /\ 1 <= id /\
    forall i, frees (id_ranges sp') L' i <-> frees (id_ranges sp) L i /\ ~ id <= i < id + count)).
Proof.
  intros Hi Hc. unfold id_space_alloc_range. destruct (Z.eqb_spec count 0) as [|_]; [lia|]. destruct (Z.eqb_spec count 1) as [->|Hne].
  { destruct (alloc_ok sp L R Hi) as (sp' & id & L' & R' & E1 & H1 & Hor). exists sp', id, L', R'. split_and!; [done|done|]. destruct Hor as [(-> & -> & -> & ->)|(Hid & Hmin & H1id & Hf)].
    - left. split_and!; try done. intros st Hr. destruct (frees_nil (id_ranges sp) st). apply Hr. lia.
    - right. split_and!; try done; [|intros st Hr; apply Hmin, Hr; lia|intros i; rewrite Hf; split; intros [? ?]; (split; [done|]); lia]. intros i Hx. by replace i with id by lia. }
  rewrite (tree_first _ _ (si_tree _ _ _ Hi)), bind_Ok, (fit_loop sp R count L [] _ Hi (space_rounds _ _ _ Hi)), bind_Ok. pose proof (si_ranges _ _ _ Hi) as Hr.
  match goal with |- context [head ?l] => destruct (head l) as [p|] eqn:Eh end; cbn [default from_option]; unfold id.
  - assert (Hsp : exists l1 l2, L = l1 ++ p :: l2 /\ count <= range_length (rget (id_ranges sp) p) /\ forall q, q ∈ l1 -> range_length (rget (id_ranges sp) q) < count).
    { clear - Eh. induction L as [|x L IH]; [done|]. rewrite filter_cons in Eh. destruct (decide _) as [Hd|Hd] in Eh; [injection Eh as ->; exists [], L; split_and!; try done; by intros ? ?%elem_of_nil|].
      destruct (IH Eh) as (l1 & l2 & -> & ? & Hl1). exists (x :: l1), l2. split_and!; try done. intros q [->|Hq]%elem_of_cons; [lia|auto]. }
    destruct Hsp as (l1 & l2 & -> & Hfit & Hl1). rewrite ok_ne0 by (eapply space_ok; [exact Hi|set_solver]). rewrite (range_at _ _ _ p Hi) by set_solver. rewrite bind_Ok.
    destruct (take_ids_ok sp l1 p l2 R count Hi) as (sp' & L' & R' & E1 & H1 & Hf); [lia|]. rewrite E1, bind_Ok. exists sp', (lo (id_ranges sp) p), L', R'. split_and!; [done|done|right].
    pose proof (ro_each _ _ Hr p ltac:(set_solver)) as (_ & ? & ? & ?). split_and!; [|  |done|done].
    + intros i Hx. exists p. split; [set_solver|]. unfold lo, hi in *. lia.
    + intros st Hst. destruct (run_range _ _ _ _ Hr Hc Hst) as (q & Hq & Hq1 & Hq2). apply elem_of_app in Hq as [Hq|[->|Hq]%elem_of_cons]; [|done|].
      * specialize (Hl1 q Hq). unfold lo, hi in *. lia.
      * apply ranges_app in Hr as (_ & Hr2 & _). apply ranges_cons in Hr2 as (_ & _ & Hp2). specialize (Hp2 q Hq). unfold apart in Hp2. lia.
  - exists sp, 0, L, R. split_and!; [done|done|left]. split_and!; try done. intros st Hst. destruct (run_range _ _ _ _ Hr Hc Hst) as (q & Hq & Hq1 & Hq2).
    assert (Hin : q ∈ filter (fun p => count <= range_length (rget (id_ranges sp) p)) L) by (apply list_elem_of_filter; split; [unfold lo, hi in *; lia|done]).
    apply head_None in Eh. rewrite Eh in Hin. by apply elem_of_nil in Hin.
Qed.

(** *** Giving back an id *)

(** What [vnew] may give: [NULL], or memory that is not in use. *)
Definition fresh (sp : id_space) (v : Z) : Prop := v = 0 \/ (ok_addr v /\ v ∉ dom (nodes (tree sp))).

Lemma free_loop sp L R id : space_inv sp L R -> 0 <= id < 2 ^ 64 -> forall t fuel par pv nx, rep (nodes (tree sp)) par t -> Forall ok_addr (elems t) -> (forall p, p ∈ elems t -> p ∈ L) ->
  ranges_ok (id_ranges sp) (elems t) -> (height t < fuel)%nat ->
  (frees (id_ranges sp) (elems t) id /\ loop fuel (free_body sp id) (addr t, pv, nx) = Ok None) \/
  (exists l1 l2, elems t = l1 ++ l2 /\ (forall a, a ∈ l1 -> hi (id_ranges sp) a <= id) /\ (forall b, b ∈ l2 -> id < lo (id_ranges sp) b) /\
    loop fuel (free_body sp id) (addr t, pv, nx) = Ok (Some (default pv (list.last l1), default nx (head l2)))).
Proof.
  intros Hi Hid. induction t as [|c l IHl p r IHr]; intros fuel par pv nx Hrep HO HL Hr Hf; (destruct fuel as [|fuel]; [lia|]).
  { right. exists [], []. split_and!; [done|by intros ? ?%elem_of_nil..|]. by apply loop_done. }
  destruct Hrep as (Hp & Hrl & Hrr). cbn [elems height addr] in *. assert (Hok : ok_addr p) by sep. apply ranges_app in Hr as (R1 & R2 & R12). pose proof (proj1 (ranges_cons _ _ _) R2) as ((_ & Hlo & Hlh & Hhi) & R2' & Hp2).
  assert (Hb : free_body sp id (p, pv, nx) = if id <? lo (id_ranges sp) p then Ok (inl (addr l, pv, p)) else if hi (id_ranges sp) p <=? id then Ok (inl (addr r, p, nx)) else Ok (inr None)).
  { unfold free_body. rewrite ok_ne0, (range_at _ _ _ p Hi), bind_Ok, (node_at _ p _ Hok Hp), bind_Ok by (done || apply HL; set_solver). fold (lo (id_ranges sp) p). unfold lo, hi in *.
    rewrite wrap_small by (unfold in_u; lia). destruct (id <? _); [done|]. destruct (Z.ltb_spec (start (rget (id_ranges sp) p) + range_length (rget (id_ranges sp) p) - 1) id), (Z.leb_spec (start (rget (id_ranges sp) p) + range_length (rget (id_ranges sp) p)) id); done || lia. }
  destruct (Z.ltb_spec id (lo (id_ranges sp) p)) as [Hlt|Hge]; [|destruct (Z.leb_spec (hi (id_ranges sp) p) id) as [Hle|Hgt]].
  - rewrite (loop_step _ _ _ _ Hb). destruct (IHl fuel p pv p) as [[Hfr ->]|(l1 & l2 & El & H1 & H2 & ->)]; try done; try lia; [sep|set_solver|left; split; [by apply frees_app; left|done]|right].
    exists l1, (l2 ++ p :: elems r). rewrite El, <- app_assoc. split_and!; [done|done| |by destruct l2].
    intros b [Hb'|[->|Hb']%elem_of_cons]%elem_of_app; [by apply H2|done|]. specialize (Hp2 b Hb'). unfold apart in Hp2. lia.
  - rewrite (loop_step _ _ _ _ Hb). destruct (IHr fuel p p nx) as [[Hfr ->]|(l1 & l2 & El & H1 & H2 & ->)]; try done; try lia; [sep|set_solver|left; split; [apply frees_app; right; apply frees_cons; by right|done]|right].
    exists (elems l ++ p :: l1), l2. rewrite El, <- app_assoc. split_and!; [done| |done|].
    + intros a [Ha|[->|Ha]%elem_of_cons]%elem_of_app; [|done|by apply H1]. specialize (R12 a p Ha ltac:(by left)). unfold apart in R12. lia.
    + rewrite last_app, last_cons. by destruct (list.last l1).
  - left. split; [apply frees_app; right; apply frees_cons; left; lia|]. by apply loop_done.
Qed.

(** A range is made longer, up to before the next one. *)
Lemma grow_ok sp l1 a l2 R len nx : space_inv sp (l1 ++ a :: l2) R -> 1 <= len -> lo (id_ranges sp) a + len <= 2 ^ 64 -> (forall b, b ∈ l2 -> lo (id_ranges sp) a + len < lo (id_ranges sp) b) ->
  let sp' := put_range sp a (lo (id_ranges sp) a) len nx in space_inv sp' (l1 ++ a :: l2) R /\
  forall i, frees (id_ranges sp') (l1 ++ a :: l2) i <-> frees (id_ranges sp) (l1 ++ l2) i \/ lo (id_ranges sp) a <= i < lo (id_ranges sp) a + len.
Proof.
  intros [Ht Hr Hl HN Hp] Hlen Hmax Hb sp'. pose proof HN as HN'. rewrite <- app_assoc in HN'. assert (HaL : a ∉ l1 ++ l2) by sep. assert (HaR : a ∉ R) by sep.
  assert (Hq : forall q, q ∈ l1 ++ l2 -> id_ranges sp' !! q = id_ranges sp !! q) by (intros q Hq; cbn; rewrite lookup_insert_ne; [done|]; by intros ->).
  assert (Hlo : lo (id_ranges sp') a = lo (id_ranges sp) a /\ hi (id_ranges sp') a = lo (id_ranges sp) a + len) by (unfold lo, hi; cbn; by rewrite rget_insert).
  apply ranges_app in Hr as (A1 & A2 & A12). apply ranges_cons in A2 as ((_ & Hl1 & _) & A2 & Ha2). split.
  - split; [done| |eapply linked_agree; [|exact Hl]; intros q Hq'; cbn; rewrite lookup_insert_ne; [done|]; by intros ->|done|done]. apply ranges_app. split_and!; [by eapply ranges_agree; [intros; apply Hq; set_solver|]| |].
    + apply ranges_cons. rewrite (proj1 Hlo), (proj2 Hlo). split_and!; try lia; [cbn; rewrite lookup_insert_eq; by eexists|by eapply ranges_agree; [intros; apply Hq; set_solver|]|].
      intros b Hb'. unfold apart. rewrite (proj2 Hlo). unfold lo at 2. rewrite (rget_agree (id_ranges sp)) by (apply Hq; set_solver). by apply Hb.
    + intros x b Hx [->|Hb']%elem_of_cons; unfold apart, hi; rewrite (rget_agree (id_ranges sp) (id_ranges sp') x) by (apply Hq; set_solver).
      * rewrite (proj1 Hlo). apply (A12 x a Hx). by left.
      * unfold lo. rewrite (rget_agree (id_ranges sp) (id_ranges sp') b) by (apply Hq; set_solver). apply (A12 x b Hx). by right.
  - intros i. rewrite !frees_app, frees_cons, (proj1 Hlo), (proj2 Hlo), !(frees_agree (id_ranges sp) (id_ranges sp')) by (intros; apply Hq; set_solver). tauto.
Qed.
Lemma is_delete_put sp p q s len nx t' : delete_node sp p = Ok (with_tree sp t') -> delete_node (put_range sp q s len nx) p = Ok (with_tree (put_range sp q s len nx) t').
Proof. unfold is_delete. cbn. destruct (rbt_delete _ _ _ _) as [t| |]; [|done..]. rewrite !bind_Ok. intros [= H]. by rewrite H. Qed.

Lemma zero_range_ok sp L R r : space_inv sp L R -> r ∉ L -> r ∉ R -> space_inv (zero_range sp r) L R /\ r ∈ dom (nodes (tree (zero_range sp r))) /\
  (forall q, q ∈ L -> id_ranges (zero_range sp r) !! q = id_ranges sp !! q).
Proof.
  intros [Ht Hr Hl HN Hp] HL HR. assert (Hq : forall q, q <> r -> id_ranges (zero_range sp r) !! q = id_ranges sp !! q) by (intros q Hq; cbn; by rewrite lookup_insert_ne).
  split_and!; [|cbn; set_solver|intros q Hq'; apply Hq; by intros ->]. split; [|by eapply ranges_agree; [intros q Hq'; apply Hq; intros ->|]|by eapply linked_agree; [intros q Hq'; apply Hq; intros ->|]|done|].
  - eapply (tree_of_agree (tree sp)); [|done|done]. intros q Hq'. cbn. apply lookup_insert_ne. by intros <-.
  - intros q Hq'. destruct (Hp q Hq') as (? & ? & ?). split_and!; try done. cbn. set_solver.
Qed.
Lemma id_range_alloc_ok sp L R v : space_inv sp L R -> fresh sp v -> exists sp' r R', id_range_alloc sp v = Ok (sp', r) /\
  ((r = 0 /\ sp' = sp /\ v = 0 /\ R = []) \/
   (ok_addr r /\ space_inv sp' L R' /\ r ∈ dom (nodes (tree sp')) /\ (r ∉ L) /\ (r ∉ R') /\ id_ranges sp' !! r = Some (mkIdRange 0 0 0) /\ forall q, q ∈ L -> id_ranges sp' !! q = id_ranges sp !! q)).
Proof.
  intros Hi Hv. unfold id_range_alloc. destruct (Hi) as [Ht Hr Hl HN Hp]. destruct Hv as [->|[Hok Hn]].
  - cbn [Z.eqb negb]. rewrite (linked_head _ _ R Hl) by (intros q Hq; by apply Hp). destruct R as [|q R]; [exists sp, 0, []; split; [done|by left]|].
    destruct Hl as (Hq & n & Hn & Hl). rewrite Hq. cbn [bool_decide negb]. unfold range. rewrite bool_decide_eq_false_2 by done. cbn [negb]. rewrite Hn. cbn [deref]. rewrite bind_Ok.
    apply list.NoDup_app in HN as (N1 & N2 & N3). apply list.NoDup_cons in N3 as [N3 N4]. assert (HqL : q ∉ L) by (intros Hx; apply (N2 q Hx); by left).
    assert (Hi' : space_inv (with_reserve sp (next n)) L R). { split; try done; [apply list.NoDup_app; split_and!; try done; intros x Hx Hx'; apply (N2 x Hx); by right|]. intros x Hx. apply Hp. by right. }
    destruct (zero_range_ok _ L R q Hi' HqL N3) as (H1 & H2 & H3). exists (zero_range (with_reserve sp (next n)) q), q, R. split; [done|right]. split_and!; try done; [apply Hp; by left|cbn; by rewrite lookup_insert_eq].
  - rewrite ok_ne0 by done. cbn [negb]. assert (HvL : v ∉ L) by (intros Hx; apply Hn; by eapply tree_of_dom). assert (HvR : v ∉ R) by (intros Hx; apply Hn; by apply Hp).
    destruct (zero_range_ok _ L R v Hi HvL HvR) as (H1 & H2 & H3). exists (zero_range sp v), v, R. split; [done|right]. split_and!; try done. cbn. by rewrite lookup_insert_eq.
Qed.

Lemma merge_prev_ok sp l1 l2 R id : space_inv sp (l1 ++ l2) R -> (forall a, a ∈ l1 -> hi (id_ranges sp) a <= id) -> id < 2 ^ 64 ->
  (merge_prev sp (default 0 (list.last l1)) id = Ok (sp, false) /\ forall a, a ∈ l1 -> hi (id_ranges sp) a < id) \/
  (exists l a nx, l1 = l ++ [a] /\ hi (id_ranges sp) a = id /\ merge_prev sp (default 0 (list.last l1)) id = Ok (put_range sp a (lo (id_ranges sp) a) (id + 1 - lo (id_ranges sp) a) nx, true)).
Proof.
  intros Hi H1 Hid. destruct (list.last l1) as [a|] eqn:El; [|left; apply last_None in El as ->; split; [done|by intros ? ?%elem_of_nil]]. apply last_Some in El as [l ->].
  assert (Hin : a ∈ (l ++ [a]) ++ l2) by set_solver. pose proof (ro_each _ _ (si_ranges _ _ _ Hi) a Hin) as (_ & ? & ? & ?). specialize (H1 a ltac:(set_solver)) as Ha.
  unfold merge_prev. cbn [default from_option]. unfold Datatypes.id. rewrite ok_ne0 by (eapply space_ok; done). rewrite (range_at _ _ _ a Hi Hin), bind_Ok. fold (hi (id_ranges sp) a). rewrite (wrap_small 64 (hi (id_ranges sp) a)) by (unfold in_u; lia).
  destruct (Z.eqb_spec (hi (id_ranges sp) a) id) as [He|Hne].
  - right. exists l, a, (next (rget (id_ranges sp) a)). split_and!; [done|done|]. rewrite wrap_small by (unfold in_u, lo, hi in *; lia). fold (lo (id_ranges sp) a). repeat f_equal. unfold lo, hi in *. lia.
  - left. split; [done|]. intros x [Hx| ->%list_elem_of_singleton]%elem_of_app; [|lia]. apply si_ranges, ranges_app in Hi as (Hi & _). apply ranges_app in Hi as (_ & _ & Hi). specialize (Hi x a Hx ltac:(by left)). unfold apart in Hi. lia.
Qed.
(** Both neighbours: the two ranges become one. *)
Lemma merge_both_ok sp l a b l2 R id nx : space_inv sp (l ++ a :: b :: l2) R -> hi (id_ranges sp) a = id -> lo (id_ranges sp) b = id + 1 -> 1 <= id < 2 ^ 64 ->
  exists sp' R', merge_next DEBUG_RBT DEBUG_RBT_DEEP DEBUG_LOCK_CHK (put_range sp a (lo (id_ranges sp) a) (id + 1 - lo (id_ranges sp) a) nx) a b id true = Ok (sp', true) /\ space_inv sp' (l ++ a :: l2) R' /\
    forall i, frees (id_ranges sp') (l ++ a :: l2) i <-> frees (id_ranges sp) (l ++ a :: b :: l2) i \/ i = id.
Proof.
  intros Hi Ha Hb Hid. pose proof (si_ranges _ _ _ Hi) as Hr. assert (Hin : b ∈ l ++ a :: b :: l2) by set_solver. pose proof (ro_each _ _ Hr b Hin) as (Hsb & Hb1 & Hb2 & Hb3). pose proof (ro_each _ _ Hr a ltac:(set_solver)) as (Hsa & Ha1 & Ha2 & Ha3).
  assert (Hokb : ok_addr b) by (by eapply space_ok). assert (Hab : a <> b) by (intros ->; lia). set (sp1 := put_range sp a (lo (id_ranges sp) a) (id + 1 - lo (id_ranges sp) a) nx).
  assert (Hrb : range sp1 b = Ok (rget (id_ranges sp) b)) by (unfold range, rget; cbn; rewrite lookup_insert_ne by done; by destruct Hsb as [? ->]).
  unfold merge_next. rewrite ok_ne0, Hrb, bind_Ok by done. fold (lo (id_ranges sp) b). rewrite wrap_small by (unfold in_u; lia). rewrite Hb, Z.eqb_refl.
  unfold range at 1. cbn [id_ranges sp1 put_range with_ranges]. rewrite lookup_insert_eq. cbn [deref]. rewrite bind_Ok. cbn [start range_length next]. cbv zeta.
  destruct (is_delete_ok sp (l ++ [a]) b l2 R) as (t' & E1 & H1 & Hd & _ & HbL & HbR); [by rewrite <- app_assoc|]. rewrite <- app_assoc in H1, HbL. cbn [app] in H1, HbL.
  set (len := u64 _). assert (Hlen : len = hi (id_ranges sp) b - lo (id_ranges sp) a) by (unfold len; rewrite wrap_small; unfold in_u, lo, hi in *; lia).
  rewrite (is_delete_put _ _ _ _ _ _ t') by (by apply is_delete_put). rewrite bind_Ok.
  destruct (grow_ok (with_tree sp t') l a l2 R len nx) as [H2 Hf]; [done|cbn [id_ranges with_tree]; lia..| |].
  { cbn [id_ranges with_tree]. intros x Hx. apply ranges_app in Hr as (_ & Hr & _). apply ranges_cons in Hr as (_ & Hr & _). apply ranges_cons in Hr as (_ & _ & Hr). specialize (Hr x Hx). unfold apart in Hr. lia. }
  cbn [id_ranges with_tree] in H2, Hf. assert (Hsp : with_tree (put_range sp1 a (lo (id_ranges sp) a) len nx) t' = put_range (with_tree sp t') a (lo (id_ranges sp) a) len nx).
  { unfold with_tree, put_range, with_ranges, sp1. cbn. by rewrite insert_insert_eq. }
  rewrite Hsp. set (sp2 := put_range (with_tree sp t') a _ len nx) in *.
  destruct (id_range_free_ok sp2 (l ++ a :: l2) R b) as (sp3 & R' & E3 & H3 & _ & Hag & _); try done; [cbn; by rewrite lookup_insert_ne|]. rewrite E3, bind_Ok. exists sp3, R'. split_and!; [done|done|].
  intros i. rewrite (frees_agree (id_ranges sp2)) by (intros q Hq; apply Hag; by intros ->). rewrite Hf, !frees_app, !frees_cons.
  assert (Har : lo (id_ranges sp) a <= i < lo (id_ranges sp) a + len <-> lo (id_ranges sp) a <= i < hi (id_ranges sp) a \/ lo (id_ranges sp) b <= i < hi (id_ranges sp) b \/ i = id) by lia.
  rewrite Har. tauto.
Qed.

(** Only the one behind: it begins earlier. *)
Lemma merge_front_ok sp l1 b l2 R id pv : space_inv sp (l1 ++ b :: l2) R -> (forall a, a ∈ l1 -> hi (id_ranges sp) a < id) -> lo (id_ranges sp) b = id + 1 -> 1 <= id < 2 ^ 64 ->
  exists sp', merge_next DEBUG_RBT DEBUG_RBT_DEEP DEBUG_LOCK_CHK sp pv b id false = Ok (sp', true) /\ space_inv sp' (l1 ++ b :: l2) R /\
    forall i, frees (id_ranges sp') (l1 ++ b :: l2) i <-> frees (id_ranges sp) (l1 ++ b :: l2) i \/ i = id.
Proof.
  intros Hi H1 Hb Hid. pose proof (si_ranges _ _ _ Hi) as Hr. assert (Hin : b ∈ l1 ++ b :: l2) by set_solver. pose proof (ro_each _ _ Hr b Hin) as (Hsb & Hb1 & Hb2 & Hb3).
  unfold merge_next. rewrite ok_ne0 by (eapply space_ok; done). rewrite (range_at _ _ _ b Hi Hin), bind_Ok. fold (lo (id_ranges sp) b). rewrite (wrap_small 64 (id + 1)) by (unfold in_u; lia). rewrite Hb, Z.eqb_refl.
  destruct (is_delete_ok sp l1 b l2 R Hi) as (t' & -> & H2 & Hd & Hok & HbL & HbR). rewrite bind_Ok. set (len := u64 _). assert (Hlen : len = hi (id_ranges sp) b - id) by (unfold len; rewrite wrap_small; unfold in_u, lo, hi in *; lia).
  destruct (reinsert_ok (with_tree sp t') l1 b l2 R id len (next (rget (id_ranges sp) b))) as (sp' & E2 & H3 & Hf); try done; try lia.
  - cbn [id_ranges with_tree]. intros x Hx. apply ranges_app in Hr as (_ & Hr & _). apply ranges_cons in Hr as (_ & _ & Hr). specialize (Hr x Hx). unfold apart in Hr. lia.
  - rewrite E2, bind_Ok. exists sp'. split_and!; [done|done|]. intros i. rewrite Hf. cbn [id_ranges with_tree]. rewrite !frees_app, frees_cons.
    assert (Har : id <= i < id + len <-> lo (id_ranges sp) b <= i < hi (id_ranges sp) b \/ i = id) by lia. rewrite Har. tauto.
Qed.
Lemma merge_next_no sp pv nxt id m : nxt = 0 \/ (ok_addr nxt /\ is_Some (id_ranges sp !! nxt) /\ lo (id_ranges sp) nxt <> u64 (id + 1)) ->
  merge_next DEBUG_RBT DEBUG_RBT_DEEP DEBUG_LOCK_CHK sp pv nxt id m = Ok (sp, false).
Proof. intros [->|(Hok & [n Hn] & Hne)]; [done|]. unfold merge_next, range. rewrite ok_ne0, Hn by done. cbn [deref]. rewrite bind_Ok. unfold lo, rget in Hne. rewrite Hn in Hne. cbn in Hne. by rewrite (proj2 (Z.eqb_neq _ _) Hne). Qed.

(** Neither the id nor one next to it is free. *)
Definition lonely (rs : gmap Z id_range) (L : list Z) (id : Z) : Prop := forall i, id - 1 <= i <= id + 1 -> ~ frees rs L i.

(** No range is next to the id: it becomes a range of its own, if there is one to be had. *)
Lemma free_alone_ok sp l1 l2 R v id : space_inv sp (l1 ++ l2) R -> fresh sp v -> (forall a, a ∈ l1 -> hi (id_ranges sp) a < id) -> (forall b, b ∈ l2 -> id + 1 < lo (id_ranges sp) b) -> 1 <= id < 2 ^ 64 ->
  exists sp' L' R', (a ← id_range_alloc sp v; let '(sp, r) := a in if r =? 0 then Ok sp else n ← range sp r; insert_node (put_range sp r id 1 (next n)) r) = Ok sp' /\ space_inv sp' L' R' /\
  ((forall i, frees (id_ranges sp') L' i <-> frees (id_ranges sp) (l1 ++ l2) i \/ i = id) \/ (sp' = sp /\ L' = l1 ++ l2 /\ v = 0 /\ R = [] /\ lonely (id_ranges sp) (l1 ++ l2) id)).
Proof.
  intros Hi Hv H1 H2 Hid. destruct (id_range_alloc_ok sp (l1 ++ l2) R v Hi Hv) as (sp1 & r & R1 & -> & Hor). rewrite bind_Ok. destruct Hor as [(-> & -> & -> & ->)|(Hok & Hi1 & Hd & HrL & HrR & Hr & Hag)].
  - exists sp, (l1 ++ l2), []. split_and!; [done|done|right]. split_and!; try done. intros i Hr (p & [Hp|Hp]%elem_of_app & Hlh); [specialize (H1 p Hp)|specialize (H2 p Hp)]; lia.
  - rewrite ok_ne0 by done. unfold range. rewrite Hr. cbn [deref]. rewrite bind_Ok. cbn [next].
    assert (Hlh : forall q, q ∈ l1 ++ l2 -> lo (id_ranges sp1) q = lo (id_ranges sp) q /\ hi (id_ranges sp1) q = hi (id_ranges sp) q) by (intros q Hq; unfold lo, hi; by rewrite (rget_agree (id_ranges sp)) by (by apply Hag)).
    destruct (reinsert_ok sp1 l1 r l2 R1 id 1 0) as (sp2 & E2 & H3 & Hf); try done; try lia.
    + intros a Ha. rewrite (proj2 (Hlh a ltac:(set_solver))). by apply H1.
    + intros b Hb. rewrite (proj1 (Hlh b ltac:(set_solver))). by apply H2.
    + exists sp2, (l1 ++ r :: l2), R1. split_and!; [done|done|left]. intros i. rewrite Hf, (frees_agree (id_ranges sp)) by done. assert (Har : id <= i < id + 1 <-> i = id) by lia. by rewrite Har.
Qed.

Lemma free_ok sp L R v id : space_inv sp L R -> fresh sp v -> 1 <= id < 2 ^ 64 -> exists sp' L' R',
  id_space_free DEBUG_RBT DEBUG_RBT_DEEP DEBUG_LOCK_CHK sp v id = Ok sp' /\ space_inv sp' L' R' /\
  ((forall i, frees (id_ranges sp') L' i <-> frees (id_ranges sp) L i \/ i = id) \/ (sp' = sp /\ L' = L /\ v = 0 /\ R = [] /\ lonely (id_ranges sp) L id)).
Proof.
  intros Hi Hv Hid. unfold id_space_free. pose proof (si_ranges _ _ _ Hi) as Hr.
  assert (Hw : (frees (id_ranges sp) L id /\ loop (rounds (tree sp)) (free_body sp id) (root (tree sp), 0, 0) = Ok None) \/
    (exists l1 l2, L = l1 ++ l2 /\ (forall a, a ∈ l1 -> hi (id_ranges sp) a <= id) /\ (forall b, b ∈ l2 -> id < lo (id_ranges sp) b) /\
      loop (rounds (tree sp)) (free_body sp id) (root (tree sp), 0, 0) = Ok (Some (default 0 (list.last l1), default 0 (head l2))))).
  { destruct (si_tree _ _ _ Hi) as (t & H & HL). destruct (holds_rep _ _ H) as (-> & Ht & _ & Hf). destruct (holds_nodup _ _ H) as [_ HO].
    rewrite <- HL. apply (free_loop sp L R id Hi ltac:(lia) t _ 0); try done; [by rewrite HL|by rewrite HL]. }
  destruct Hw as [[Hfr ->]|(l1 & l2 & -> & H1 & H2 & ->)]; rewrite bind_Ok.
  { exists sp, L, R. split_and!; [done|done|left]. intros i. split; [by left|]. by intros [?| ->]. }
  destruct (merge_prev_ok sp l1 l2 R id Hi H1 ltac:(lia)) as [[-> H1']|(l & a & nx & -> & Ha & ->)]; rewrite bind_Ok.
  - destruct l2 as [|b l2]; [|pose proof (space_ok _ _ _ b Hi ltac:(set_solver)) as Hokb; destruct (decide (lo (id_ranges sp) b = id + 1)) as [Hb|Hb]].
    + rewrite merge_next_no by (by left). rewrite bind_Ok. cbn [negb andb]. apply free_alone_ok; try done. by intros ? ?%elem_of_nil.
    + destruct (merge_front_ok sp l1 b l2 R id (default 0 (list.last l1)) Hi H1' Hb Hid) as (sp' & E2 & H3 & Hf). change (default 0 (head (b :: l2))) with b. rewrite E2, bind_Ok. cbn [negb andb].
      exists sp', (l1 ++ b :: l2), R. split_and!; [done|done|by left].
    + pose proof (ro_each _ _ Hr b ltac:(set_solver)) as (Hsb & Hb1 & Hb2 & Hb3). specialize (H2 b ltac:(by left)) as Hb0. change (default 0 (head (b :: l2))) with b. rewrite merge_next_no; [|right; split_and!; try done; rewrite wrap_small by (unfold in_u; lia); done].
      rewrite bind_Ok. cbn [negb andb]. apply free_alone_ok; try done. intros x [->|Hx]%elem_of_cons; [lia|].
      apply ranges_app in Hr as (_ & Hr & _). apply ranges_cons in Hr as (_ & _ & Hr). specialize (Hr x Hx). unfold apart in Hr. lia.
  - rewrite last_snoc. change (default 0 (Some a)) with a. rewrite <- app_assoc in Hi, Hr. cbn [app] in Hi, Hr. pose proof (ro_each _ _ Hr a ltac:(set_solver)) as (Hsa & Ha1 & Ha2 & Ha3).
    assert (Hap : forall x, x ∈ l2 -> apart (id_ranges sp) a x) by (apply ranges_app in Hr as (_ & Hr' & _); by apply ranges_cons in Hr' as (_ & _ & Hr')).
    set (len := id + 1 - lo (id_ranges sp) a). assert (Hgrow : (forall x, x ∈ l2 -> id + 1 < lo (id_ranges sp) x) -> let sp' := put_range sp a (lo (id_ranges sp) a) len nx in
      space_inv sp' (l ++ a :: l2) R /\ forall i, frees (id_ranges sp') (l ++ a :: l2) i <-> frees (id_ranges sp) (l ++ a :: l2) i \/ i = id).
    { intros Hx. destruct (grow_ok sp l a l2 R len nx Hi) as [H3 Hf]; [unfold len; lia..|intros b Hb; specialize (Hx b Hb); unfold len; lia|]. split; [done|]. intros i. rewrite Hf, !frees_app, frees_cons.
      assert (Har : lo (id_ranges sp) a <= i < lo (id_ranges sp) a + len <-> lo (id_ranges sp) a <= i < hi (id_ranges sp) a \/ i = id) by (unfold len; lia). rewrite Har. tauto. }
    rewrite <- app_assoc. cbn [app]. destruct l2 as [|b l2]; [|pose proof (space_ok _ _ _ b Hi ltac:(set_solver)) as Hokb; destruct (decide (lo (id_ranges sp) b = id + 1)) as [Hb|Hb]].
    + rewrite merge_next_no by (by left). rewrite bind_Ok. cbn [negb andb]. destruct Hgrow as [H3 Hf]; [by intros ? ?%elem_of_nil|]. eexists _, _, R. split_and!; [done|exact H3|by left].
    + destruct (merge_both_ok sp l a b l2 R id nx Hi Ha Hb Hid) as (sp' & R' & E2 & H3 & Hf). change (default 0 (head (b :: l2))) with b. unfold len. rewrite E2, bind_Ok. cbn [negb andb].
      exists sp', (l ++ a :: l2), R'. split_and!; [done|done|by left].
    + pose proof (ro_each _ _ Hr b ltac:(set_solver)) as (Hsb & Hb1 & Hb2 & Hb3). specialize (H2 b ltac:(by left)) as Hb0. specialize (Hap b ltac:(by left)) as Hapb. unfold apart in Hapb.
      destruct Hgrow as [H3 Hf]. { intros x [->|Hx]%elem_of_cons; [lia|]. apply ranges_app in Hr as (_ & Hr & _). apply ranges_cons in Hr as (_ & Hr & _). apply ranges_cons in Hr as (_ & _ & Hr). specialize (Hr x Hx). unfold apart in Hr. lia. }
      change (default 0 (head (b :: l2))) with b. assert (Hab : a <> b) by (intros ->; lia). rewrite merge_next_no.
      * rewrite bind_Ok. cbn [negb andb]. eexists _, _, R. split_and!; [done|exact H3|by left].
      * right. unfold lo, rget. cbn [id_ranges put_range with_ranges]. rewrite lookup_insert_ne by done. split_and!; try done. rewrite wrap_small by (unfold in_u; lia). exact Hb.
Qed.

(** Once the first id is free, the others join it: no further range is needed. *)
Lemma free_range_rest vnew st n : forall sp L R i, space_inv sp L R -> frees (id_ranges sp) L (st + Z.of_nat i - 1) -> (forall j, (i <= j)%nat -> vnew j = 0) ->
  1 <= st -> st + Z.of_nat (i + n) <= 2 ^ 64 -> exists sp' L' R', free_range DEBUG_RBT DEBUG_RBT_DEEP DEBUG_LOCK_CHK sp vnew st i n = Ok sp' /\ space_inv sp' L' R' /\
  forall k, frees (id_ranges sp') L' k <-> frees (id_ranges sp) L k \/ st + Z.of_nat i <= k < st + Z.of_nat (i + n).
Proof.
  induction n as [|n IH]; intros sp L R i Hi Hfr Hv Hst Hle; cbn [free_range].
  { exists sp, L, R. split_and!; [done|done|]. intros k. assert (Hk : ~ st + Z.of_nat i <= k < st + Z.of_nat (i + 0)) by lia. tauto. }
  rewrite wrap_small by (unfold in_u; lia). rewrite Hv by lia. destruct (free_ok sp L R 0 (st + Z.of_nat i) Hi ltac:(by left) ltac:(lia)) as (sp1 & L1 & R1 & -> & Hi1 & [Hf|(_ & _ & _ & _ & Hl)]).
  2:{ exfalso. apply (Hl (st + Z.of_nat i - 1)); [lia|done]. }
  rewrite bind_Ok. destruct (IH sp1 L1 R1 (S i) Hi1) as (sp2 & L2 & R2 & E2 & Hi2 & Hf2); [apply Hf; right; lia|intros j Hj; apply Hv; lia|lia|lia|].
  exists sp2, L2, R2. split_and!; [done|done|]. intros k. rewrite Hf2, Hf. assert (Hk : st + Z.of_nat i <= k < st + Z.of_nat (i + S n) <-> k = st + Z.of_nat i \/ st + Z.of_nat (S i) <= k < st + Z.of_nat (S i + n)) by lia. tauto.
Qed.
Lemma free_range_ok sp L R vnew st count : space_inv sp L R -> fresh sp (vnew 0%nat) -> (forall j, (0 < j)%nat -> vnew j = 0) -> vnew 0%nat <> 0 \/ R <> [] ->
  1 <= st -> 0 <= count -> st + count <= 2 ^ 64 -> exists sp' L' R', id_space_free_range DEBUG_RBT DEBUG_RBT_DEEP DEBUG_LOCK_CHK sp vnew st count = Ok sp' /\ space_inv sp' L' R' /\
  forall k, frees (id_ranges sp') L' k <-> frees (id_ranges sp) L k \/ st <= k < st + count.
Proof.
  intros Hi Hv0 Hv Hone Hst Hc Hle. unfold id_space_free_range. destruct (Z.to_nat count) as [|n] eqn:En; cbn [free_range].
  { exists sp, L, R. split_and!; [done|done|]. intros k. assert (Hk : ~ st <= k < st + count) by lia. tauto. }
  rewrite wrap_small, Z.add_0_r by (unfold in_u; lia). destruct (free_ok sp L R (vnew 0%nat) st Hi Hv0 ltac:(lia)) as (sp1 & L1 & R1 & -> & Hi1 & [Hf|(_ & _ & H0 & HR & _)]).
  2:{ exfalso. by destruct Hone. }
  rewrite bind_Ok. destruct (free_range_rest vnew st n sp1 L1 R1 1%nat Hi1) as (sp2 & L2 & R2 & E2 & Hi2 & Hf2); [apply Hf; right; lia|intros j Hj; apply Hv; lia|lia|lia|].
  exists sp2, L2, R2. split_and!; [done|done|]. intros k. rewrite Hf2, Hf. assert (Hk : st <= k < st + count <-> k = st \/ st + Z.of_nat 1 <= k < st + Z.of_nat (1 + n)) by lia. tauto.
Qed.
End Ops.

(** *** The start and the end of a space *)

Definition pool_addr (pool : Z) (i : nat) : Z := pool + sizeof_id_range * Z.of_nat i.
Lemma pool_addr_inj pool i j : pool_addr pool i = pool_addr pool j -> i = j.
Proof. unfold pool_addr, sizeof_id_range. lia. Qed.
Lemma init_reserves_ok : forall l sp R, NoDup l -> (forall i, i ∈ l -> ok_addr (pool_addr (reserve_pool sp) i) /\ pool_addr (reserve_pool sp) i ∈ dom (nodes (tree sp)) /\ pool_addr (reserve_pool sp) i ∉ R) ->
  linked (id_ranges sp) (reserve_free sp) R -> exists sp', init_reserves sp l = Ok sp' /\ linked (id_ranges sp') (reserve_free sp') (reverse (pool_addr (reserve_pool sp) <$> l) ++ R) /\
    dom (nodes (tree sp')) = dom (nodes (tree sp)) /\ root (tree sp') = root (tree sp) /\ reserve_pool sp' = reserve_pool sp.
Proof.
  induction l as [|i l IH]; intros sp R HN Hl Hk; [by exists sp|]. apply list.NoDup_cons in HN as [Hi HN]. destruct (Hl i ltac:(by left)) as (Hok & Hd & HR). cbn [init_reserves].
  set (p := pool_addr (reserve_pool sp) i) in *. assert (E1 : init_reserve sp i = Ok (with_reserve (put_range (with_tree sp (put_node (tree sp) p (mkNode 0 0 1))) p 0 0 (reserve_free sp)) p)).
  { unfold init_reserve, rbt_init_node. cbv zeta. change (reserve_pool sp + sizeof_id_range * Z.of_nat i) with p. apply elem_of_dom in Hd as [n Hn]. by rewrite (node_at _ p n Hok Hn). }
  rewrite E1, bind_Ok. set (sp1 := with_reserve _ p). assert (Hdom : dom (nodes (tree sp1)) = dom (nodes (tree sp))) by (cbn; rewrite dom_insert_L; set_solver).
  destruct (IH sp1 (p :: R)) as (sp' & -> & Hk' & Hd' & Hr' & Hp'); [done| | |].
  - intros j Hj. destruct (Hl j ltac:(by right)) as (? & ? & ?). rewrite Hdom. split_and!; try done. apply not_elem_of_cons. split; [|done]. intros ->%pool_addr_inj. done.
  - split; [done|]. eexists. split; [cbn; by rewrite lookup_insert_eq|]. cbn [next]. eapply linked_agree; [|exact Hk]. intros q Hq. cbn. rewrite lookup_insert_ne; [done|]. by intros ->.
  - exists sp'. split; [done|]. cbn [fmap list_fmap]. rewrite reverse_cons, <- app_assoc. by rewrite Hd', Hdom, Hr', Hp'.
Qed.

(** The addresses of the reserve. *)
Definition pool_list (pool : Z) : list Z := pool_addr pool <$> seq 0 (Z.to_nat ID_RANGE_RESERVE_COUNT).
Lemma pool_list_in pool p : p ∈ pool_list pool -> exists i, (i < 128)%nat /\ p = pool_addr pool i.
Proof. intros (i & -> & Hi%elem_of_seq)%list_elem_of_fmap. unfold ID_RANGE_RESERVE_COUNT in Hi. exists i. split; [lia|done]. Qed.
Lemma pool_ok pool i : 0 < pool -> Z.land pool 1 = 0 -> pool + sizeof_id_range * ID_RANGE_RESERVE_COUNT < 2 ^ 64 -> (i < 128)%nat -> ok_addr (pool_addr pool i).
Proof.
  unfold pool_addr, sizeof_id_range, ID_RANGE_RESERVE_COUNT. intros Hp He Hm Hi. split; [lia|]. change 1 with (Z.ones 1) in *. rewrite Z.land_ones in * by lia. change (2 ^ 1) with 2 in *.
  replace (pool + 48 * Z.of_nat i) with (pool + 24 * Z.of_nat i * 2) by lia. by rewrite Z.mod_add by lia.
Qed.

Section Life.
Context (DEBUG_RBT DEBUG_RBT_DEEP DEBUG_LOCK_CHK : bool).

Lemma init_ok pool v max_id : 0 < pool -> Z.land pool 1 = 0 -> pool + sizeof_id_range * ID_RANGE_RESERVE_COUNT < 2 ^ 64 -> v = 0 \/ (ok_addr v /\ v ∉ pool_list pool) -> 1 <= max_id < 2 ^ 64 ->
  exists sp L R, id_space_init DEBUG_RBT DEBUG_RBT_DEEP DEBUG_LOCK_CHK (Some pool) v max_id = Ok (Some sp) /\ space_inv sp L R /\ forall i, frees (id_ranges sp) L i <-> 1 <= i <= max_id.
Proof.
  intros Hp He Hm Hv Hmax. unfold id_space_init. set (sp0 := with_tree _ _). fold (pool_list pool).
  assert (Hdom0 : forall p, p ∈ pool_list pool <-> p ∈ dom (nodes (tree sp0))).
  { intros p. cbn. rewrite dom_list_to_map_L, elem_of_list_to_set, <- list_fmap_compose. done. }
  destruct (init_reserves_ok (seq 0 (Z.to_nat ID_RANGE_RESERVE_COUNT)) sp0 []) as (sp1 & -> & Hk & Hd & Hr & Hpool); [apply NoDup_seq| |done|].
  { intros i Hi. split_and!; [apply pool_ok; try done; apply elem_of_seq in Hi; unfold ID_RANGE_RESERVE_COUNT in Hi; lia|apply Hdom0; by apply list_elem_of_fmap_2|apply not_elem_of_nil]. }
  rewrite bind_Ok. rewrite app_nil_r in Hk. fold (pool_list pool) in Hk. cbn [reserve_pool sp0 with_tree] in Hk, Hpool. set (R := reverse (pool_list pool)) in *.
  assert (HR : forall p, p ∈ R <-> p ∈ pool_list pool) by (intros p; apply elem_of_reverse). assert (Hi1 : space_inv sp1 [] R).
  { split; [|split; [by intros ? ?%elem_of_nil|constructor]|done| |].
    - cbn in Hr. destruct sp1 as [[rt h] ? ? ?]. cbn in Hr. subst rt. apply tree_of_nil.
    - cbn. unfold R. rewrite reverse_Permutation. apply NoDup_fmap_2_strong; [|apply NoDup_seq]. intros x y _ _. apply pool_addr_inj.
    - intros q Hq%HR. rewrite Hd. split_and!; [|by apply Hdom0|]; apply pool_list_in in Hq as (i & Hi & ->); [by apply pool_ok|]. unfold in_reserve. rewrite Hpool. unfold pool_addr, sizeof_id_range, ID_RANGE_RESERVE_COUNT. apply andb_true_iff. split; [apply Z.leb_le|apply Z.ltb_lt]; lia. }
  assert (Hfin : forall sp r R', space_inv sp [] R' -> ok_addr r -> r ∈ dom (nodes (tree sp)) -> r ∉ R' -> is_Some (id_ranges sp !! r) -> exists sp' L R'', (if r =? 0 then Ok (Some sp) else
      n ← range sp r; s1 ← is_insert DEBUG_RBT DEBUG_RBT_DEEP DEBUG_LOCK_CHK (put_range sp r 1 max_id (next n)) r; Ok (Some s1)) = Ok (Some sp') /\ space_inv sp' L R'' /\ forall i, frees (id_ranges sp') L i <-> 1 <= i <= max_id).
  { intros sp r R' Hi Hok Hrd HrR [n Hn]. rewrite ok_ne0 by done. unfold range. rewrite Hn. cbn [deref]. rewrite bind_Ok.
    destruct (reinsert_ok DEBUG_RBT DEBUG_RBT_DEEP DEBUG_LOCK_CHK sp [] r [] R' 1 max_id (next n)) as (sp' & E1 & H1 & Hf); try done; try lia; [apply not_elem_of_nil|by intros ? ?%elem_of_nil..|].
    rewrite E1, bind_Ok. exists sp', [r], R'. split_and!; [done|done|]. intros i. rewrite (Hf i : frees (id_ranges sp') [r] i <-> _). split; [intros [?%frees_nil|?]; [done|lia]|right; lia]. }
  destruct Hv as [->|[Hok Hvp]].
  - cbn [Z.eqb negb]. pose proof (si_reserve _ _ _ Hi1) as Hl. destruct R as [|q R'] eqn:ER; [by apply (f_equal length) in ER|]. destruct Hl as (Hq & n & Hn & Hl). destruct (si_pool _ _ _ Hi1 q ltac:(by left)) as (Hok & Hqd & _).
    rewrite Hq, ok_ne0 by done. cbn [negb]. assert (Hrq : range sp1 q = Ok n) by (unfold range; by rewrite Hn). rewrite Hrq, !bind_Ok. apply (Hfin (with_reserve sp1 (next n)) q R'); try done.
    + destruct Hi1 as [A1 A2 _ A4 A5]. cbn in A4. apply list.NoDup_cons in A4 as [_ A4]. split; try done. intros x Hx. apply A5. by right.
    + destruct Hi1 as [_ _ _ A4 _]. cbn in A4. by apply list.NoDup_cons in A4 as [A4 _].
  - rewrite ok_ne0 by done. cbn [negb]. rewrite bind_Ok. assert (HvR : v ∉ R) by (by rewrite HR). destruct (zero_range_ok sp1 [] R v Hi1 (not_elem_of_nil v) HvR) as (H1 & H2 & _).
    apply (Hfin (zero_range sp1 v) v R); try done. cbn. rewrite lookup_insert_eq. by eexists.
Qed.

Lemma destroy_loop : forall l sp R fuel, space_inv sp l R -> (length l < fuel)%nat -> exists sp' R',
  loop fuel (destroy_body DEBUG_RBT DEBUG_RBT_DEEP) (sp, default 0 (head l), default 0 (head (tail l))) = Ok sp' /\ space_inv sp' [] R' /\
  (forall p, p ∈ l -> in_reserve sp p = false -> id_ranges sp' !! p = None) /\ (forall q, q ∉ l -> id_ranges sp' !! q = id_ranges sp !! q).
Proof.
  induction l as [|p l IH]; intros sp R fuel Hi Hf; (destruct fuel as [|fuel]; [lia|]).
  { exists sp, R. split_and!; [by apply loop_done|done|by intros ? ?%elem_of_nil|done]. }
  pose proof (range_at sp (p :: l) R p Hi ltac:(by left)) as Hrp. assert (Hsp : is_Some (id_ranges sp !! p)) by (apply (ro_each _ _ (si_ranges _ _ _ Hi) p); by left).
  destruct (is_delete_ok DEBUG_RBT DEBUG_RBT_DEEP sp [] p l R Hi) as (t1 & E1 & H1 & Hd & Hok & HL & HR). cbn [app] in *.
  destruct (id_range_free_ok (with_tree sp t1) l R p) as (sp2 & R2 & E2 & H2 & Hpool & Hq & Hp); try done. cbn [head tail]. change (default 0 (Some p)) with p.
  assert (Hnx : rbt_next DEBUG_RBT (tree sp2) (default 0 (head l)) = Ok (default 0 (head (tail l)))).
  { destruct l as [|q l]; [done|]. apply (tree_next DEBUG_RBT (tree sp2) [] q l (si_tree _ _ _ H2)). }
  rewrite (loop_step _ _ _ (sp2, default 0 (head l), default 0 (head (tail l)))); [|unfold destroy_body; rewrite ok_ne0, E1, bind_Ok, E2, bind_Ok, Hnx by done; done].
  destruct (IH sp2 R2 fuel H2) as (sp3 & R3 & -> & H3 & Hin & Hout); [cbn in Hf; lia|]. exists sp3, R3. split_and!; [done|done| |].
  - intros q [->|Hql]%elem_of_cons Hres; [rewrite Hout by done; by apply Hp|]. apply Hin; [done|]. unfold in_reserve in *. rewrite Hpool. done.
  - intros q [Hne Hql]%not_elem_of_cons. rewrite Hout by done. by apply Hq.
Qed.
Lemma destroy_ok sp L R : space_inv sp L R -> exists sp' R', id_space_destroy DEBUG_RBT DEBUG_RBT_DEEP sp = Ok sp' /\ space_inv sp' [] R' /\
  forall p, p ∈ L -> in_reserve sp p = false -> id_ranges sp' !! p = None.
Proof.
  intros Hi. unfold id_space_destroy. rewrite (tree_first _ _ (si_tree _ _ _ Hi)), bind_Ok.
  assert (Hnx : rbt_next DEBUG_RBT (tree sp) (default 0 (head L)) = Ok (default 0 (head (tail L)))) by (destruct L as [|q L]; [done|]; apply (tree_next DEBUG_RBT (tree sp) [] q L (si_tree _ _ _ Hi))).
  rewrite Hnx, bind_Ok. destruct (destroy_loop L sp R _ Hi (space_rounds _ _ _ Hi)) as (sp' & R' & -> & H1 & H2 & _). by exists sp', R'.
Qed.
End Life.

(** A space with the ids from 5 to 14 free and an empty reserve. *)
Definition small_space : id_space := mkIdSpace (mkRbt 16 {[16 := cell 0 0 0 Black]}) {[16 := mkIdRange 5 10 0]} 4096 0.
Lemma small_space_inv : space_inv small_space [16] [].
Proof.
  split.
  - exists (T Black E 16 E). split; [|done]. split; [|split; [done|]; exists 1%nat; by repeat constructor]. split; [done|done|by cbn|cbn; apply NoDup_singleton|apply Forall_singleton; by vm_compute].
  - split; [|by repeat constructor]. intros p ->%list_elem_of_singleton. split_and!; [by eexists|by vm_compute..].
  - done.
  - apply NoDup_singleton.
  - by intros ? ?%elem_of_nil.
Defined.

(** ** Correctness *)

(** C16: [id_space_alloc_range] finds the least run of [count] free ids, if there is
    one anywhere, and takes exactly it; it answers 0 and changes nothing when there
    is none ([count] at least 1; [id_space_alloc] is the case of 1).  The free
    ranges never touch, which is why no run is missed. *)
Theorem id_space_alloc_range_correct (DEBUG_RBT DEBUG_RBT_DEEP DEBUG_LOCK_CHK : bool) sp L R count : space_inv sp L R -> 1 <= count -> exists sp' id L' R',
  id_space_alloc_range DEBUG_RBT DEBUG_RBT_DEEP DEBUG_LOCK_CHK sp count = Ok (sp', id) /\ space_inv sp' L' R' /\
  ((id = 0 /\ sp' = sp /\ L' = L /\ forall st, ~ run (id_ranges sp) L st count) \/
   (run (id_ranges sp) L id count /\ (forall st, run (id_ranges sp) L st count -> id <= st) /\ 1 <= id /\
    forall i, frees (id_ranges sp') L' i <-> frees (id_ranges sp) L i /\ ~ id <= i < id + count)).
Proof. apply alloc_range_ok. Qed.
Lemma id_space_alloc_range_correct_witness : exists sp' id L' R', id_space_alloc_range true true true small_space 3 = Ok (sp', id) /\ space_inv sp' L' R' /\
  ((id = 0 /\ sp' = small_space /\ L' = [16] /\ forall st, ~ run (id_ranges small_space) [16] st 3) \/
   (run (id_ranges small_space) [16] id 3 /\ (forall st, run (id_ranges small_space) [16] st 3 -> id <= st) /\ 1 <= id /\
    forall i, frees (id_ranges sp') L' i <-> frees (id_ranges small_space) [16] i /\ ~ id <= i < id + 3)).
Proof. apply (id_space_alloc_range_correct true true true small_space [16] [] 3); [apply small_space_inv|lia]. Defined.

(** C15: [id_space_free] makes the id free and leaves the others as they were,
    joining it with the ranges next to it.  The one exception: the id is not free
    and has no free neighbour, the allocator gives no range and the reserve is
    empty; then nothing happens.  Freeing a free id changes nothing.
    [id_space_free_range] makes exactly the ids of the range free with at most one
    new range, also when the allocator gives nothing after the first.  Ids are
    from 1 to [2^64-1], and [vnew] gives memory that is not in use or [NULL]. *)
Theorem id_space_free_correct (DEBUG_RBT DEBUG_RBT_DEEP DEBUG_LOCK_CHK : bool) sp L R vnew id : space_inv sp L R -> fresh sp vnew -> 1 <= id < 2 ^ 64 ->
  (exists sp' L' R', id_space_free DEBUG_RBT DEBUG_RBT_DEEP DEBUG_LOCK_CHK sp vnew id = Ok sp' /\ space_inv sp' L' R' /\
    ((forall i, frees (id_ranges sp') L' i <-> frees (id_ranges sp) L i \/ i = id) \/ (sp' = sp /\ L' = L /\ vnew = 0 /\ R = [] /\ lonely (id_ranges sp) L id))) /\
  (forall count, 0 <= count -> id + count <= 2 ^ 64 -> vnew <> 0 \/ R <> [] -> exists sp' L' R',
    id_space_free_range DEBUG_RBT DEBUG_RBT_DEEP DEBUG_LOCK_CHK sp (fun i => if (i =? 0)%nat then vnew else 0) id count = Ok sp' /\ space_inv sp' L' R' /\
    forall i, frees (id_ranges sp') L' i <-> frees (id_ranges sp) L i \/ id <= i < id + count).
Proof.
  intros Hi Hv Hid. split; [by apply free_ok|]. intros count H0 Hle Hone. apply free_range_ok with (R := R); try done; [|lia]. by intros [|j] Hj; [lia|].
Qed.
Lemma id_space_free_correct_witness : (exists sp' L' R', id_space_free true true true small_space 0 15 = Ok sp' /\ space_inv sp' L' R' /\
    ((forall i, frees (id_ranges sp') L' i <-> frees (id_ranges small_space) [16] i \/ i = 15) \/ (sp' = small_space /\ L' = [16] /\ 0 = 0 /\ @nil Z = [] /\ lonely (id_ranges small_space) [16] 15))) /\
  (exists sp' L' R', id_space_free_range true true true small_space (fun i => if (i =? 0)%nat then 32 else 0) 20 4 = Ok sp' /\ space_inv sp' L' R' /\
    forall i, frees (id_ranges sp') L' i <-> frees (id_ranges small_space) [16] i \/ 20 <= i < 24).
Proof.
  split; [apply (id_space_free_correct true true true small_space [16] [] 0 15); [apply small_space_inv|by left|lia]|].
  apply (id_space_free_correct true true true small_space [16] [] 32 20); [apply small_space_inv| |lia|lia|lia|by left].
  right. split; [by vm_compute|]. apply not_elem_of_dom. by vm_compute.
Defined.

(** A new space has exactly the ids from 1 to [max_id] free, also when the
    allocator gives no range and one of the reserve is taken; destroying a space
    empties its tree and gives every range that is not of the reserve back. *)
Theorem id_space_life_correct (DEBUG_RBT DEBUG_RBT_DEEP DEBUG_LOCK_CHK : bool) pool vnew max_id : 0 < pool -> Z.land pool 1 = 0 -> pool + sizeof_id_range * ID_RANGE_RESERVE_COUNT < 2 ^ 64 ->
  vnew = 0 \/ (ok_addr vnew /\ vnew ∉ pool_list pool) -> 1 <= max_id < 2 ^ 64 ->
  (exists sp L R, id_space_init DEBUG_RBT DEBUG_RBT_DEEP DEBUG_LOCK_CHK (Some pool) vnew max_id = Ok (Some sp) /\ space_inv sp L R /\
    forall i, frees (id_ranges sp) L i <-> 1 <= i <= max_id) /\
  (forall sp L R, space_inv sp L R -> exists sp' R', id_space_destroy DEBUG_RBT DEBUG_RBT_DEEP sp = Ok sp' /\ space_inv sp' [] R' /\
    forall p, p ∈ L -> in_reserve sp p = false -> id_ranges sp' !! p = None).
Proof. intros H1 H2 H3 H4 H5. split; [by apply init_ok|apply destroy_ok]. Qed.
Lemma id_space_life_correct_witness : exists sp L R, id_space_init true true true (Some 4096) 0 100 = Ok (Some sp) /\ space_inv sp L R /\
  forall i, frees (id_ranges sp) L i <-> 1 <= i <= 100.
Proof. apply (id_space_life_correct true true true 4096 0 100); [by vm_compute|by vm_compute|by vm_compute|by left|lia]. Defined.
