(* ===== verification/Mpmc.v ===== *)
(** * The multi-producer multi-consumer ring

    [kernel/structures/mpmc_fifo_ring.c] and [include/structures/mpmc_fifo_ring.h],
    the bounded ring of the slab allocator's remote frees and of the TLB
    shootdown queues.  [MPMC_FIFO_RING_DECLARE] is the section over the type of
    the values; a slot is a sequence number and a value.

    Any number of agents call enqueue, dequeue and drain.  A step of [exec] is one
    atomic access, or one access to the value of a slot, with the local
    computation up to the next one; a weak compare-and-swap may fail spuriously.
    Memory is sequentially consistent.  [sent] and [log] are the history: the
    values in the order in which their positions were claimed, and what the calls
    returned. *)

From S2P Require Import Prelude BitMath.

Definition MPMC_FIFO_RING_MIN_CAPACITY : Z := 2.

Record mpmc_fifo_ring_hdr := mkHdr { mask : Z; head : Z; tail : Z }.

Section Mpmc.
Context {T : Type} (zero : T).

Record slot := mkSlot { seq : Z; val : T }.

(** The calls; a dequeue is given where to put the value, or [NULL]. *)
Inductive call := Enqueue (v : T) | Dequeue (out : bool) | Drain.
Inductive event :=
  | Enqueued (pos : Z) (v : T)
  | Full
  | Dequeued (pos : Z) (out : option T)
  | Empty
  | Drained (first count : Z).

(** Where an agent stands; the arguments are its locals. *)
Inductive pc :=
  | Idle
  | ClaimPos (c : call)            (* pos = load cursor *)
  | ClaimSeq (c : call) (pos : Z)  (* load the slot's seq *)
  | ClaimCas (c : call) (pos : Z)  (* CAS cursor pos -> pos + 1 *)
  | EnqWrite (pos : Z) (v : T)     (* s->val = v *)
  | EnqPublish (pos : Z) (v : T)   (* s->seq = pos + 1 *)
  | DeqRead (pos : Z)              (* *out = s->val *)
  | DeqClear (pos : Z) (out : option T)   (* s->val = 0 *)
  | DeqRelease (pos : Z) (out : option T) (* s->seq = pos + mask + 1 *)
  | RangeTail                      (* t = load tail *)
  | RangeHead (t : Z)              (* end = load head *)
  | RangeScan (t e p : Z)          (* load the seq of slot p *)
  | RangeAgain (t : Z)             (* load tail again *)
  | RangeCas (t p : Z)             (* CAS tail t -> p *)
  | DrainClear (first count pos : Z)
  | DrainRelease (first count pos : Z).

Record ring := mkRing {
  hdr : mpmc_fifo_ring_hdr;
  slots : list slot;
  pcs : list pc;
  sent : list T;
  log : list event;
}.

(** [mpmc_fifo_ring_slots_alloc]; [got] says whether [valloc] gives the memory.  A
    product that wraps leaves too little memory for the loop. *)
Definition mpmc_fifo_ring_slots_alloc (got : bool) (cap stride : Z) : outcome (option (mpmc_fifo_ring_hdr * list slot)) :=
  let cap := Z.max (next_pow2 cap) MPMC_FIFO_RING_MIN_CAPACITY in
  if negb got then Ok None else
  if u64 (stride * cap) <? stride * cap then Fault else
  Ok (Some (mkHdr (cap - 1) 0 0, (fun i => mkSlot i zero) <$> seqZ 0 cap)).
(** [name_init], with [n] agents that have not called anything yet. *)
Definition ring_init (n : nat) (got : bool) (cap stride : Z) : outcome (option ring) :=
  r ← mpmc_fifo_ring_slots_alloc got cap stride;
  Ok (match r with Some (h, s) => Some (mkRing h s (replicate n Idle) [] []) | None => None end).

(** [mpmc_fifo_ring_slots_free] and [name_destroy]: the slots are given back. *)
Definition mpmc_fifo_ring_slots_free (h : mpmc_fifo_ring_hdr) : mpmc_fifo_ring_hdr := mkHdr 0 (head h) (tail h).
Definition ring_destroy (r : ring) : ring := mkRing (mpmc_fifo_ring_slots_free (hdr r)) [] (pcs r) (sent r) (log r).

Definition mpmc_fifo_ring_hdr_empty (h : mpmc_fifo_ring_hdr) : bool := head h =? tail h.
Definition ring_capacity (r : ring) : Z := u64 (mask (hdr r) + 1).

Definition goto (r : ring) (i : nat) (p : pc) : ring := mkRing (hdr r) (slots r) (<[i := p]> (pcs r)) (sent r) (log r).
Definition return_ (r : ring) (i : nat) (e : event) : ring := mkRing (hdr r) (slots r) (<[i := Idle]> (pcs r)) (sent r) (log r ++ [e]).
Definition set_head (r : ring) (x : Z) (v : T) : ring := mkRing (mkHdr (mask (hdr r)) x (tail (hdr r))) (slots r) (pcs r) (sent r ++ [v]) (log r).
Definition set_tail (r : ring) (x : Z) : ring := mkRing (mkHdr (mask (hdr r)) (head (hdr r)) x) (slots r) (pcs r) (sent r) (log r).
Definition index (r : ring) (pos : Z) : nat := Z.to_nat (Z.land pos (mask (hdr r))).
Definition slot_of (r : ring) (pos : Z) : outcome slot := deref (slots r !! index r pos).
Definition put_slot (r : ring) (pos : Z) (s : slot) : ring := mkRing (hdr r) (<[index r pos := s]> (slots r)) (pcs r) (sent r) (log r).
Definition store_val (r : ring) (pos : Z) (v : T) : outcome ring := s ← slot_of r pos; Ok (put_slot r pos (mkSlot (seq s) v)).
Definition store_seq (r : ring) (pos q : Z) : outcome ring := s ← slot_of r pos; Ok (put_slot r pos (mkSlot q (val s))).

(** The cursor and the lag [mpmc_fifo_ring_claim] is called with, what the caller
    does when the claim fails and when it succeeds. *)
Definition cursor (r : ring) (c : call) : Z := match c with Enqueue _ => head (hdr r) | _ => tail (hdr r) end.
Definition lag (c : call) : Z := match c with Enqueue _ => 0 | _ => 1 end.
Definition failed (c : call) : event := match c with Enqueue _ => Full | _ => Empty end.
Definition claimed (r : ring) (i : nat) (c : call) (pos : Z) : ring :=
  match c with
  | Enqueue v => goto (set_head r (u64 (pos + 1)) v) i (EnqWrite pos v)
  | Dequeue out => goto (set_tail r (u64 (pos + 1))) i (if out then DeqRead pos else DeqClear pos None)
  | Drain => r
  end.

(** [mpmc_fifo_ring_claim]. *)
Definition claim_step (r : ring) (i : nat) (sp : bool) (c : call) (p : pc) : outcome ring :=
  match p with
  | ClaimPos _ => Ok (goto r i (ClaimSeq c (cursor r c)))
  | ClaimSeq _ pos =>
      s ← slot_of r pos;
      let diff := i64 (i64 (seq s) - i64 (u64 (pos + lag c))) in
      Ok (if diff =? 0 then goto r i (ClaimCas c pos)
          else if diff <? 0 then return_ r i (failed c) else goto r i (ClaimPos c))
  | ClaimCas _ pos =>
      Ok (if negb sp && (cursor r c =? pos) then claimed r i c pos else goto r i (ClaimPos c))
  | _ => Fault
  end.

(** [mpmc_fifo_ring_claim_range]; the scan ends at [end] or at a slot that is not
    published. *)
Definition range_scanned (t p : Z) : pc := if p =? t then RangeAgain t else RangeCas t p.
Definition range_step (r : ring) (i : nat) (sp : bool) (p : pc) : outcome ring :=
  match p with
  | RangeTail => Ok (goto r i (RangeHead (tail (hdr r))))
  | RangeHead t => Ok (goto r i (RangeScan t (head (hdr r)) t))
  | RangeScan t e p =>
      if p =? e then Ok (goto r i (range_scanned t p)) else
      s ← slot_of r p;
      Ok (goto r i (if seq s =? u64 (p + 1) then RangeScan t e (u64 (p + 1)) else range_scanned t p))
  | RangeAgain t => Ok (if negb (tail (hdr r) =? t) then goto r i RangeTail else return_ r i (Drained 0 0))
  | RangeCas t p =>
      Ok (if negb sp && (tail (hdr r) =? t) then goto (set_tail r p) i (DrainClear t (u64 (p - t)) t) else goto r i RangeTail)
  | _ => Fault
  end.

(** The rest of [name_enqueue], [name_dequeue] and [name_drain] after the claim. *)
Definition enqueue_step (r : ring) (i : nat) (p : pc) : outcome ring :=
  match p with
  | EnqWrite pos v => r ← store_val r pos v; Ok (goto r i (EnqPublish pos v))
  | EnqPublish pos v => r ← store_seq r pos (u64 (pos + 1)); Ok (return_ r i (Enqueued pos v))
  | _ => Fault
  end.
Definition dequeue_step (r : ring) (i : nat) (p : pc) : outcome ring :=
  match p with
  | DeqRead pos => s ← slot_of r pos; Ok (goto r i (DeqClear pos (Some (val s))))
  | DeqClear pos out => r ← store_val r pos zero; Ok (goto r i (DeqRelease pos out))
  | DeqRelease pos out => r ← store_seq r pos (u64 (pos + mask (hdr r) + 1)); Ok (return_ r i (Dequeued pos out))
  | _ => Fault
  end.
Definition drain_step (r : ring) (i : nat) (p : pc) : outcome ring :=
  match p with
  | DrainClear first count pos =>
      if pos =? u64 (first + count) then Ok (return_ r i (Drained first count)) else
      r ← store_val r pos zero; Ok (goto r i (DrainRelease first count pos))
  | DrainRelease first count pos =>
      r ← store_seq r pos (u64 (pos + mask (hdr r) + 1)); Ok (goto r i (DrainClear first count (u64 (pos + 1))))
  | _ => Fault
  end.

(** One step of agent [i], which stands at [p]: an idle one begins the call [c];
    [sp] makes a weak compare-and-swap fail. *)
Definition step (r : ring) (i : nat) (c : call) (sp : bool) (p : pc) : outcome ring :=
  match p with
  | Idle => Ok (goto r i (match c with Drain => RangeTail | _ => ClaimPos c end))
  | ClaimPos c | ClaimSeq c _ | ClaimCas c _ => claim_step r i sp c p
  | RangeTail | RangeHead _ | RangeScan _ _ _ | RangeAgain _ | RangeCas _ _ => range_step r i sp p
  | EnqWrite _ _ | EnqPublish _ _ => enqueue_step r i p
  | DeqRead _ | DeqClear _ _ | DeqRelease _ _ => dequeue_step r i p
  | DrainClear _ _ _ | DrainRelease _ _ _ => drain_step r i p
  end.
Definition exec (r : ring) (i : nat) (c : call) (sp : bool) : outcome ring := p ← deref (pcs r !! i); step r i c sp p.
Fixpoint run (r : ring) (sched : list (nat * call * bool)) : outcome ring :=
  match sched with [] => Ok r | (i, c, sp) :: sched => r ← exec r i c sp; run r sched end.
End Mpmc.
