(* ===== verification/MpmcSafe.v ===== *)
(** * The multi-producer multi-consumer ring: every interleaving

    Each slot is in one of four phases for one position: free for it, claimed by a
    producer, filled, or claimed by a consumer.  The invariant ties the sequence
    numbers to the phases; the positions an agent holds are its alone. *)

From S2P Require Import Prelude BitMath Mpmc.

Inductive phase := Free (p : Z) | Writing (p : Z) | Filled (p : Z) | Reading (p : Z).
Definition place (f : phase) : Z := match f with Free p | Writing p | Filled p | Reading p => p end.

Section Safe.
Context {T : Type} (zero : T).
Implicit Types (r : @ring T) (p : @pc T) (x : @slot T).

(** The positions of slots an agent holds, and those it has taken from the ring or
    made room for until its call returns. *)
Definition holds p : list Z :=
  match p with
  | EnqWrite q _ | EnqPublish q _ | DeqRead q | DeqClear q _ | DeqRelease q _ => [q]
  | DrainClear f c q | DrainRelease f c q => seqZ q (f + c - q)
  | _ => []
  end.
Definition makes p : list Z := match p with EnqWrite q _ | EnqPublish q _ => [q] | _ => [] end.
Definition takes p : list Z :=
  match p with
  | DeqRead q | DeqClear q _ | DeqRelease q _ => [q]
  | DrainClear f c _ | DrainRelease f c _ => seqZ f c
  | _ => []
  end.
Definition made (e : @event T) : list Z := match e with Enqueued q _ => [q] | _ => [] end.
Definition taken (e : @event T) : list Z := match e with Dequeued q _ => [q] | Drained f c => seqZ f c | _ => [] end.

Context (k : Z) (Hk : 1 <= k <= 62).
Local Notation "'cap'" := (2 ^ k) (at level 0).
Definition ix (q : Z) : nat := Z.to_nat (q `mod` cap).

Definition slot_ok r (i : nat) x (f : phase) : Prop :=
  place f `mod` cap = Z.of_nat i /\
  match f with
  | Free q => seq x = q /\ head (hdr r) <= q < tail (hdr r) + cap
  | Writing q => seq x = q /\ tail (hdr r) <= q < head (hdr r)
  | Filled q => seq x = q + 1 /\ tail (hdr r) <= q < head (hdr r) /\ sent r !! Z.to_nat q = Some (val x)
  | Reading q => seq x = q + 1 /\ 0 <= q < tail (hdr r) /\ head (hdr r) - cap <= q
  end.
Definition pc_ok r (ph : list phase) p : Prop :=
  match p with
  | Idle | RangeTail => True
  | ClaimPos c => c <> Drain
  | ClaimSeq c q => c <> Drain /\ 0 <= q <= cursor r c
  | ClaimCas c q => c <> Drain /\ 0 <= q <= cursor r c /\
      (cursor r c = q -> ph !! ix q = Some (match c with Enqueue _ => Free q | _ => Filled q end))
  | EnqWrite q v => ph !! ix q = Some (Writing q) /\ sent r !! Z.to_nat q = Some v
  | EnqPublish q v => ph !! ix q = Some (Writing q) /\ sent r !! Z.to_nat q = Some v /\ (val <$> slots r !! ix q) = Some v
  | DeqRead q => ph !! ix q = Some (Reading q) /\ exists v, sent r !! Z.to_nat q = Some v /\ (val <$> slots r !! ix q) = Some v
  | DeqClear q out | DeqRelease q out => ph !! ix q = Some (Reading q) /\ forall v, out = Some v -> sent r !! Z.to_nat q = Some v
  | RangeHead t | RangeAgain t => 0 <= t <= tail (hdr r)
  | RangeScan t e q => 0 <= t <= tail (hdr r) /\ t <= q <= e /\ e <= head (hdr r) /\
      (tail (hdr r) = t -> forall z, t <= z < q -> ph !! ix z = Some (Filled z))
  | RangeCas t q => 0 <= t <= tail (hdr r) /\ t < q <= head (hdr r) /\
      (tail (hdr r) = t -> forall z, t <= z < q -> ph !! ix z = Some (Filled z))
  | DrainClear f c q => 0 <= f <= q /\ q <= f + c <= tail (hdr r) /\ forall z, q <= z < f + c -> ph !! ix z = Some (Reading z)
  | DrainRelease f c q => 0 <= f <= q /\ q < f + c <= tail (hdr r) /\ forall z, q <= z < f + c -> ph !! ix z = Some (Reading z)
  end.
Definition event_ok (s : list T) (e : @event T) : Prop :=
  match e with
  | Enqueued q v => s !! Z.to_nat q = Some v
  | Dequeued q out => forall v, out = Some v -> s !! Z.to_nat q = Some v
  | _ => True
  end.

Record inv r (ph : list phase) : Prop := mkInv {
  iv_mask : mask (hdr r) = cap - 1;
  iv_len : length (slots r) = Z.to_nat cap /\ length ph = Z.to_nat cap;
  iv_head : head (hdr r) = Z.of_nat (length (sent r));
  iv_tail : 0 <= tail (hdr r) <= head (hdr r) /\ head (hdr r) <= tail (hdr r) + cap;
  iv_bound : head (hdr r) + cap <= 2 ^ 63;
  iv_slot : forall i x f, slots r !! i = Some x -> ph !! i = Some f -> slot_ok r i x f;
  iv_pc : forall i p, pcs r !! i = Some p -> pc_ok r ph p;
  iv_own : forall i j p q z, i <> j -> pcs r !! i = Some p -> pcs r !! j = Some q -> z ∈ holds p -> z ∉ holds q;
  iv_busy : forall j z, ph !! j = Some (Writing z) \/ ph !! j = Some (Reading z) -> exists i p, pcs r !! i = Some p /\ z ∈ holds p;
  iv_made : concat (made <$> log r) ++ concat (makes <$> pcs r) ≡ₚ seqZ 0 (head (hdr r));
  iv_taken : concat (taken <$> log r) ++ concat (takes <$> pcs r) ≡ₚ seqZ 0 (tail (hdr r));
  iv_log : Forall (event_ok (sent r)) (log r);
}.

Lemma cap_range : 2 <= cap /\ cap <= 2 ^ 62.
Proof. split; [change 2 with (2 ^ 1) at 1|]; apply Z.pow_le_mono_r; lia. Qed.
Lemma index_ix r ph q : inv r ph -> 0 <= q -> index r q = ix q.
Proof. intros Hi Hq. unfold index, ix. rewrite (iv_mask _ _ Hi), Z.sub_1_r, <- Z.ones_equiv, Z.land_ones by lia. done. Qed.
Lemma ix_lt q : (ix q < Z.to_nat cap)%nat.
Proof. unfold ix. pose proof cap_range. pose proof (Z.mod_pos_bound q cap). lia. Qed.
Lemma ix_mod q : Z.of_nat (ix q) = q `mod` cap.
Proof. unfold ix. pose proof cap_range. pose proof (Z.mod_pos_bound q cap). lia. Qed.
Lemma ix_cap q : ix (q + cap) = ix q.
Proof. unfold ix. rewrite <- (Z.mul_1_l cap) at 1. pose proof cap_range. by rewrite Z.mod_add by lia. Qed.
(** Two positions of one slot are the same or at least [cap] apart. *)
Lemma mod_apart a b : a `mod` cap = b `mod` cap -> a = b \/ a + cap <= b \/ b + cap <= a.
Proof.
  intros He. pose proof cap_range. rewrite (Z.div_mod a cap), (Z.div_mod b cap), He by lia.
  destruct (Z.lt_trichotomy (a `div` cap) (b `div` cap)) as [?|[->|?]]; [right; left|by left|right; right]; nia.
Qed.
(** The slot of a position and its phase. *)
Lemma slot_at r ph q : inv r ph -> 0 <= q -> exists x f, slot_of r q = Ok x /\ slots r !! ix q = Some x /\ ph !! ix q = Some f /\ slot_ok r (ix q) x f.
Proof.
  intros Hi Hq. pose proof (ix_lt q). destruct (iv_len _ _ Hi) as [H1 H2].
  destruct (lookup_lt_is_Some_2 (slots r) (ix q)) as [x Hx]; [lia|]. destruct (lookup_lt_is_Some_2 ph (ix q)) as [f Hf]; [lia|].
  exists x, f. unfold slot_of. rewrite (index_ix r ph) by done. rewrite Hx. split_and!; try done. by apply (iv_slot _ _ Hi).
Qed.
Lemma place_at r ph q f : inv r ph -> ph !! ix q = Some f -> place f = q \/ place f + cap <= q \/ q + cap <= place f.
Proof.
  intros Hi Hf. destruct (iv_len _ _ Hi) as [H1 H2]. pose proof (ix_lt q). destruct (lookup_lt_is_Some_2 (slots r) (ix q)) as [x Hx]; [lia|].
  destruct (iv_slot _ _ Hi _ _ _ Hx Hf) as [Hp _]. apply mod_apart. by rewrite Hp, ix_mod.
Qed.

(** What one agent knows survives the steps of the others. *)
Record grows r (ph : list phase) r' (ph' : list phase) : Prop := mkGrows {
  gr_head : head (hdr r) <= head (hdr r');
  gr_tail : tail (hdr r) <= tail (hdr r');
  gr_sent : forall n v, sent r !! n = Some v -> sent r' !! n = Some v;
  gr_free : head (hdr r') = head (hdr r) -> ph !! ix (head (hdr r)) = Some (Free (head (hdr r))) -> ph' !! ix (head (hdr r)) = Some (Free (head (hdr r)));
  gr_filled : tail (hdr r') = tail (hdr r) -> forall q, ph !! ix q = Some (Filled q) -> ph' !! ix q = Some (Filled q);
}.
Lemma pc_ok_grows r ph r' ph' p : grows r ph r' ph' -> (forall q, q ∈ holds p -> ph' !! ix q = ph !! ix q /\ slots r' !! ix q = slots r !! ix q) ->
  pc_ok r ph p -> pc_ok r' ph' p.
Proof.
  intros [Gh Gt Gs Gf Gl] Hh. assert (Hc : forall c, cursor r c <= cursor r' c) by (intros []; done).
  destruct p as [|c|c q|c q|q v|q v|q|q out|q out| |t|t e q|t|t q|f c q|f c q]; cbn [pc_ok holds] in *; try done.
  - specialize (Hc c). intros (? & ?). split; [done|lia].
  - intros (Hd & Hq & HF). split_and!; [done|lia|specialize (Hc c); lia|]. intros He. specialize (Hc c). assert (Hcq : cursor r c = q) by lia. specialize (HF Hcq).
    destruct c as [v|out|]; cbn [cursor] in *; [| |done].
    + rewrite <- Hcq in HF |- *. apply Gf; [lia|done].
    + apply Gl; [lia|done].
  - destruct (Hh q ltac:(by left)) as [-> _]. intros (? & ?). split; [done|by apply Gs].
  - destruct (Hh q ltac:(by left)) as [-> ->]. intros (? & ? & ?). split_and!; [done|by apply Gs|done].
  - destruct (Hh q ltac:(by left)) as [-> ->]. intros (? & v & ? & ?). split; [done|]. exists v. split; [by apply Gs|done].
  - destruct (Hh q ltac:(by left)) as [-> _]. intros (? & Ho). split; [done|]. intros v Hv. by apply Gs, Ho.
  - destruct (Hh q ltac:(by left)) as [-> _]. intros (? & Ho). split; [done|]. intros v Hv. by apply Gs, Ho.
  - lia.
  - intros (? & ? & ? & HF). split_and!; try lia. intros He z Hz. apply Gl; [lia|]. apply HF; lia.
  - lia.
  - intros (? & ? & HF). split_and!; try lia. intros He z Hz. apply Gl; [lia|]. apply HF; lia.
  - intros (? & ? & HF). split_and!; try lia. intros z Hz. rewrite (proj1 (Hh z ltac:(apply elem_of_seqZ; lia))). by apply HF.
  - intros (? & ? & HF). split_and!; try lia. intros z Hz. rewrite (proj1 (Hh z ltac:(apply elem_of_seqZ; lia))). by apply HF.
Qed.
Lemma holds_phase r ph p q : pc_ok r ph p -> q ∈ holds p -> ph !! ix q = Some (Writing q) \/ ph !! ix q = Some (Reading q).
Proof.
  destruct p; cbn [pc_ok holds]; try (by intros _ ?%elem_of_nil); try (intros (? & _) ->%list_elem_of_singleton; auto).
  - intros (_ & _ & HF) [? ?]%elem_of_seqZ. right. apply HF. lia.
  - intros (_ & _ & HF) [? ?]%elem_of_seqZ. right. apply HF. lia.
Qed.

(** Replacing one agent in the accounts. *)
Lemma concat_insert {A} (f : A -> list Z) (l : list A) i a : l !! i = Some a -> exists R, concat (f <$> l) ≡ₚ f a ++ R /\ forall b, concat (f <$> (<[i := b]> l)) ≡ₚ f b ++ R.
Proof.
  intros Hl. exists (concat (f <$> take i l) ++ concat (f <$> drop (S i) l)). split.
  - rewrite <- (take_drop_middle l i a Hl) at 1. rewrite fmap_app, concat_app. cbn. solve_Permutation.
  - intros b. rewrite insert_take_drop by (by eapply lookup_lt_Some). rewrite fmap_app, concat_app. cbn. solve_Permutation.
Qed.

(** One step of agent [i] from [p] to [p'], with what it has to keep. *)
Lemma inv_step r ph r' ph' i p p' : inv r ph -> pcs r !! i = Some p -> pcs r' = <[i := p']> (pcs r) -> mask (hdr r') = mask (hdr r) ->
  length (slots r') = length (slots r) -> length ph' = length ph -> head (hdr r') = Z.of_nat (length (sent r')) ->
  0 <= tail (hdr r') <= head (hdr r') /\ head (hdr r') <= tail (hdr r') + cap -> head (hdr r') + cap <= 2 ^ 63 ->
  grows r ph r' ph' ->
  (forall q, q ∉ holds p -> ph !! ix q = Some (Writing q) \/ ph !! ix q = Some (Reading q) -> ph' !! ix q = ph !! ix q /\ slots r' !! ix q = slots r !! ix q) ->
  (forall j x f, slots r' !! j = Some x -> ph' !! j = Some f -> slot_ok r' j x f) -> pc_ok r' ph' p' ->
  (forall q, q ∈ holds p' -> q ∈ holds p \/ ~ (ph !! ix q = Some (Writing q) \/ ph !! ix q = Some (Reading q))) ->
  (forall j q, ph' !! j = Some (Writing q) \/ ph' !! j = Some (Reading q) -> q ∈ holds p' \/ ((q ∉ holds p) /\ (ph !! j = Some (Writing q) \/ ph !! j = Some (Reading q)))) ->
  (forall R, concat (made <$> log r) ++ makes p ++ R ≡ₚ seqZ 0 (head (hdr r)) -> concat (made <$> log r') ++ makes p' ++ R ≡ₚ seqZ 0 (head (hdr r'))) ->
  (forall R, concat (taken <$> log r) ++ takes p ++ R ≡ₚ seqZ 0 (tail (hdr r)) -> concat (taken <$> log r') ++ takes p' ++ R ≡ₚ seqZ 0 (tail (hdr r'))) ->
  Forall (event_ok (sent r')) (log r') -> inv r' ph'.
Proof.
  intros Hi Hp Hpcs Hm Hl1 Hl2 Hh Ht Hb Hg Hheld Hs Hok Hnew Hbusy Hmade Htaken Hlog. destruct (iv_len _ _ Hi) as [L1 L2].
  assert (Hot : forall j q z, j <> i -> pcs r !! j = Some q -> z ∈ holds q -> (z ∉ holds p) /\ (ph !! ix z = Some (Writing z) \/ ph !! ix z = Some (Reading z))).
  { intros j q z Hj Hq Hz. split; [by apply (iv_own _ _ Hi j i q p)|]. eapply holds_phase; [|done]. by apply (iv_pc _ _ Hi j). }
  assert (Hlk : forall j q, pcs r' !! j = Some q -> (j = i /\ q = p') \/ (j <> i /\ pcs r !! j = Some q)).
  { intros j q. rewrite Hpcs. destruct (decide (j = i)) as [->|Hj]; [|rewrite list_lookup_insert_ne by done; by right].
    rewrite list_lookup_insert_eq by (by eapply lookup_lt_Some). intros [= <-]. by left. }
  split; try done.
  - by rewrite Hm, (iv_mask _ _ Hi).
  - by rewrite Hl1, Hl2.
  - intros j q [[-> ->]|[Hj Hq]]%Hlk; [done|]. eapply pc_ok_grows; [done| |by apply (iv_pc _ _ Hi j)].
    intros z Hz. apply Hheld; by eapply Hot.
  - intros j1 j2 p1 p2 z Hne [[-> ->]|[Hj1 Hp1]]%Hlk [[-> ->]|[Hj2 Hp2]]%Hlk Hz1 Hz2; try done.
    + destruct (Hot j2 p2 z Hj2 Hp2 Hz2) as [? ?]. by destruct (Hnew z Hz1).
    + destruct (Hot j1 p1 z Hj1 Hp1 Hz1) as [? ?]. by destruct (Hnew z Hz2).
    + by apply (iv_own _ _ Hi j1 j2 p1 p2 z).
  - intros j z Hz. destruct (Hbusy j z Hz) as [?|[Hn Hz']].
    + exists i, p'. split; [|done]. rewrite Hpcs. apply list_lookup_insert_eq. by eapply lookup_lt_Some.
    + destruct (iv_busy _ _ Hi j z Hz') as (i' & q & Hq & Hin). exists i', q. split; [|done]. rewrite Hpcs. rewrite list_lookup_insert_ne; [done|]. intros <-. congruence.
  - destruct (concat_insert makes (pcs r) i p Hp) as (R & HR & HR'). rewrite Hpcs, HR'. apply Hmade. rewrite <- HR. apply (iv_made _ _ Hi).
  - destruct (concat_insert takes (pcs r) i p Hp) as (R & HR & HR'). rewrite Hpcs, HR'. apply Htaken. rewrite <- HR. apply (iv_taken _ _ Hi).
Qed.

Lemma grows_refl r ph r' : hdr r' = hdr r -> sent r' = sent r -> grows r ph r' ph.
Proof. intros H1 H2. split; rewrite ?H1, ?H2; try done; lia. Qed.
Ltac keep Hi := first [exact (iv_head _ _ Hi) | exact (iv_tail _ _ Hi) | exact (iv_bound _ _ Hi) | exact (iv_slot _ _ Hi) | exact (iv_log _ _ Hi)].
(** A step that changes only where the agent stands. *)
Lemma mpmc_inv_goto r ph i p p' : inv r ph -> pcs r !! i = Some p -> pc_ok r ph p' -> holds p' = holds p -> makes p' = makes p -> takes p' = takes p -> inv (goto r i p') ph.
Proof.
  intros Hi Hp Hok H1 H2 H3. eapply (inv_step r ph _ ph i p p' Hi Hp); cbn [goto hdr slots pcs sent log]; rewrite ?H1, ?H2, ?H3; try done; try keep Hi.
  - by left.
  - intros j q Hq. destruct (decide (q ∈ holds p)); [by left|by right].
Qed.
(** A call that returns without having claimed anything. *)
Lemma inv_return r ph i p e : inv r ph -> pcs r !! i = Some p -> holds p = [] -> makes p = [] -> takes p = [] -> made e = [] -> taken e = [] -> event_ok (sent r) e -> inv (return_ r i e) ph.
Proof.
  intros Hi Hp H1 H2 H3 H4 H5 H6. eapply (inv_step r ph _ ph i p Idle Hi Hp); cbn [return_ hdr slots pcs sent log holds makes takes]; rewrite ?H2, ?H3; try done; try keep Hi.
  - by intros q ?%elem_of_nil.
  - intros j q Hq. right. split; [|done]. rewrite H1. apply not_elem_of_nil.
  - intros R. rewrite fmap_app, concat_app. cbn. rewrite H4. cbn. by rewrite app_nil_r.
  - intros R. rewrite fmap_app, concat_app. cbn. rewrite H5. cbn. by rewrite app_nil_r.
  - apply Forall_app. split; [apply Hi|by apply Forall_singleton].
Qed.

(** *** Writing to a held slot *)
Lemma held_ix r ph p q z : inv r ph -> pc_ok r ph p -> q ∈ holds p -> z ∉ holds p -> ph !! ix z = Some (Writing z) \/ ph !! ix z = Some (Reading z) -> ix z <> ix q.
Proof.
  intros Hi Hok Hq Hz Hph He. pose proof (holds_phase r ph p q Hok Hq) as Hq'. rewrite <- He in Hq'. assert (z = q) as -> by (destruct Hph, Hq'; congruence). done.
Qed.
Lemma held_pos r ph p q : inv r ph -> pc_ok r ph p -> q ∈ holds p -> 0 <= q < head (hdr r).
Proof.
  intros Hi Hok Hq. pose proof (iv_tail _ _ Hi). destruct (iv_len _ _ Hi) as [L1 L2]. pose proof (ix_lt q). destruct (lookup_lt_is_Some_2 (slots r) (ix q)) as [x Hx]; [lia|].
  destruct (holds_phase r ph p q Hok Hq) as [Hf|Hf]; destruct (iv_slot _ _ Hi _ _ _ Hx Hf) as [_ Hs]; cbn in Hs; lia.
Qed.
Lemma inv_store_val r ph i p p' q x v : inv r ph -> pcs r !! i = Some p -> q ∈ holds p -> slots r !! ix q = Some x ->
  pc_ok (put_slot r q (mkSlot (seq x) v)) ph p' -> holds p' = holds p -> makes p' = makes p -> takes p' = takes p -> inv (goto (put_slot r q (mkSlot (seq x) v)) i p') ph.
Proof.
  intros Hi Hp Hq Hx Hok H1 H2 H3. pose proof (iv_pc _ _ Hi i p Hp) as Hpc. pose proof (held_pos r ph p q Hi Hpc Hq) as Hpos.
  eapply (inv_step r ph _ ph i p p' Hi Hp); cbn [goto put_slot hdr slots pcs sent log]; rewrite ?H1, ?H2, ?H3, ?(index_ix r ph) by (done || lia); try done; try keep Hi.
  - apply length_insert.
  - intros z Hz Hph. split; [done|]. rewrite list_lookup_insert_ne; [done|]. intros He. by apply (held_ix r ph p q z Hi Hpc Hq Hz Hph).
  - intros j y f. destruct (decide (j = ix q)) as [->|Hj]; [|rewrite list_lookup_insert_ne by done; apply (iv_slot _ _ Hi)].
    rewrite list_lookup_insert_eq by (by eapply lookup_lt_Some). intros [= <-] Hf. destruct (iv_slot _ _ Hi _ _ _ Hx Hf) as [Hpl Hs]. split; [done|].
    destruct (holds_phase r ph p q Hpc Hq) as [Hf'|Hf']; rewrite Hf in Hf'; injection Hf' as ->; exact Hs.
  - by left.
  - intros j z Hz. destruct (decide (z ∈ holds p)); [by left|by right].
Qed.

(** The sequence number of a held slot is stored: the slot is filled or free. *)
Definition is_done (f : phase) : Prop := match f with Free _ | Filled _ => True | _ => False end.
Lemma inv_store_seq r ph i p p' q x n f L : inv r ph -> pcs r !! i = Some p -> q ∈ holds p -> slots r !! ix q = Some x -> is_done f -> slot_ok r (ix q) (mkSlot n (val x)) f ->
  pc_ok r (<[ix q := f]> ph) p' -> (forall z, z ∈ holds p' <-> z ∈ holds p /\ z <> q) ->
  (forall R, concat (made <$> log r) ++ makes p ++ R ≡ₚ seqZ 0 (head (hdr r)) -> concat (made <$> L) ++ makes p' ++ R ≡ₚ seqZ 0 (head (hdr r))) ->
  (forall R, concat (taken <$> log r) ++ takes p ++ R ≡ₚ seqZ 0 (tail (hdr r)) -> concat (taken <$> L) ++ takes p' ++ R ≡ₚ seqZ 0 (tail (hdr r))) ->
  Forall (event_ok (sent r)) L -> p' = Idle \/ (exists a b c, p' = DrainClear a b c) ->
  inv (mkRing (hdr r) (<[ix q := mkSlot n (val x)]> (slots r)) (<[i := p']> (pcs r)) (sent r) L) (<[ix q := f]> ph).
Proof.
  intros Hi Hp Hq Hx Hdone Hs Hok Hh H2 H3 HL Hp'. pose proof (iv_pc _ _ Hi i p Hp) as Hpc. destruct (iv_len _ _ Hi) as [L1 L2]. pose proof (ix_lt q) as Hlt.
  pose proof (holds_phase r ph p q Hpc Hq) as Hphq.
  assert (Hne : forall z g, ph !! ix z = Some g -> is_done g -> <[ix q := f]> ph !! ix z = ph !! ix z).
  { intros z g Hg Hd. apply list_lookup_insert_ne. intros He. rewrite He, Hg in Hphq. by destruct Hphq as [[= ->]|[= ->]]. }
  eapply (inv_step r ph _ _ i p p' Hi Hp); cbn [hdr slots pcs sent log]; try done; try keep Hi.
  - apply length_insert.
  - apply length_insert.
  - split; cbn [hdr sent]; try done; [intros _ Hf|intros _ z Hf]; by erewrite Hne.
  - intros z Hz Hph. assert (ix z <> ix q) by (by eapply held_ix). by rewrite !list_lookup_insert_ne.
  - intros j y g. destruct (decide (j = ix q)) as [->|Hj]; [|rewrite !list_lookup_insert_ne by done; apply (iv_slot _ _ Hi)].
    rewrite !list_lookup_insert_eq by lia. intros [= <-] [= <-]. done.
  - destruct Hp' as [->|(a & b & c & ->)]; exact Hok.
  - intros z Hz. left. by apply Hh.
  - intros j z. destruct (decide (j = ix q)) as [->|Hj].
    + rewrite list_lookup_insert_eq by lia. intros [[= ->]|[= ->]]; done.
    + rewrite list_lookup_insert_ne by done. intros Hz. destruct (decide (z ∈ holds p)) as [Hin|?]; [left|by right]. apply Hh. split; [done|]. intros ->.
      destruct (lookup_lt_is_Some_2 (slots r) j) as [y Hy]; [rewrite L1, <- L2; destruct Hz; by eapply lookup_lt_Some|]. apply Hj.
      assert (Hpl : q `mod` cap = Z.of_nat j) by (destruct Hz as [Hz|Hz]; by destruct (iv_slot _ _ Hi _ _ _ Hy Hz)). unfold ix. rewrite Hpl. lia.
Qed.

(** *** Claiming positions *)
Lemma seq_free r ph q x : inv r ph -> 0 <= q -> head (hdr r) = q -> slots r !! ix q = Some x -> seq x = q -> ph !! ix q = Some (Free q).
Proof.
  intros Hi Hq Hh Hx Hs. pose proof cap_range. destruct (slot_at r ph q Hi Hq) as (y & f & _ & Hy & Hf & Hok). rewrite Hx in Hy. injection Hy as <-.
  pose proof (place_at r ph q f Hi Hf) as Hp. destruct f as [z|z|z|z], Hok as [_ Hok]; cbn in *; [rewrite Hf; do 2 f_equal; lia|lia..].
Qed.
Lemma seq_filled r ph q x : inv r ph -> 0 <= q -> tail (hdr r) <= q -> slots r !! ix q = Some x -> seq x = q + 1 -> ph !! ix q = Some (Filled q).
Proof.
  intros Hi Hq Hh Hx Hs. pose proof cap_range. destruct (slot_at r ph q Hi Hq) as (y & f & _ & Hy & Hf & Hok). rewrite Hx in Hy. injection Hy as <-.
  pose proof (place_at r ph q f Hi Hf) as Hp. destruct f as [z|z|z|z], Hok as [_ Hok]; cbn in *; [lia|lia|rewrite Hf; do 2 f_equal; lia|lia].
Qed.

Lemma inv_claim_head r ph i v : inv r ph -> head (hdr r) + 1 + cap <= 2 ^ 63 -> let q := head (hdr r) in pcs r !! i = Some (ClaimCas (Enqueue v) q) -> ph !! ix q = Some (Free q) ->
  inv (goto (set_head r (q + 1) v) i (EnqWrite q v)) (<[ix q := Writing q]> ph).
Proof.
  intros Hi Hb q Hp Hf. pose proof cap_range as Hcap. destruct (iv_len _ _ Hi) as [L1 L2]. pose proof (ix_lt q) as Hlt. pose proof (iv_tail _ _ Hi) as Ht. pose proof (iv_head _ _ Hi) as Hh.
  destruct (lookup_lt_is_Some_2 (slots r) (ix q)) as [x0 Hx0]; [lia|]. destruct (iv_slot _ _ Hi _ _ _ Hx0 Hf) as [_ Hfree]. cbn in Hfree.
  assert (Hne : forall z g, ph !! ix z = Some g -> g <> Free q -> <[ix q := Writing q]> ph !! ix z = ph !! ix z).
  { intros z g Hg Hd. apply list_lookup_insert_ne. intros He. rewrite He, Hg in Hf. congruence. }
  assert (Hsent : sent r !! Z.to_nat q = None) by (apply lookup_ge_None_2; unfold q; lia).
  eapply (inv_step r ph _ _ i _ _ Hi Hp); cbn [goto set_head hdr slots pcs sent log mask head tail holds makes takes]; try done; try keep Hi.
  - apply length_insert.
  - rewrite length_app. cbn. unfold q. lia.
  - unfold q in *. lia.
  - split; cbn [hdr sent head tail goto set_head]; [unfold q; lia|lia|intros n w Hw; by apply lookup_app_l_Some|unfold q; lia|]. intros _ z Hz. by erewrite Hne.
  - intros z _ Hz. split; [|done]. by destruct Hz as [Hz|Hz]; erewrite Hne.
  - intros j y g Hy. destruct (decide (j = ix q)) as [->|Hj].
    + rewrite list_lookup_insert_eq by lia. intros [= <-]. rewrite Hx0 in Hy. injection Hy as <-. split; [symmetry; apply ix_mod|]. cbn. unfold q in *. lia.
    + rewrite list_lookup_insert_ne by done. intros Hg. destruct (iv_slot _ _ Hi _ _ _ Hy Hg) as [Hpl Hok]. split; [done|].
      assert (Hz : place g <> q /\ place g + cap <> q).
      { split; intros He; apply Hj; rewrite <- He, ?ix_cap; unfold ix; rewrite Hpl; lia. }
      destruct g as [z|z|z|z]; cbn in *; unfold q in *; [lia|lia| |lia]. split_and!; try lia. apply lookup_app_l_Some, Hok.
  - split; [by apply list_lookup_insert_eq; lia|]. cbn [sent goto set_head]. rewrite lookup_app_r by (unfold q; lia). replace (Z.to_nat q - length (sent r))%nat with 0%nat by (unfold q; lia). done.
  - intros z ->%list_elem_of_singleton. right. rewrite Hf. by intros [|].
  - intros j z. destruct (decide (j = ix q)) as [->|Hj].
    + rewrite list_lookup_insert_eq by lia. intros [[= ->]|[= ?]]. left. by left.
    + rewrite list_lookup_insert_ne by done. right. split; [apply not_elem_of_nil|done].
  - intros R HR. rewrite seqZ_app by (unfold q; lia). change ([] ++ R) with R in HR. change (seqZ (0 + q) 1) with [q]. unfold q at 2. rewrite <- HR. solve_Permutation.
  - eapply Forall_impl; [|exact (iv_log _ _ Hi)]. intros [w u| |w out| |]; cbn; try done; [by apply lookup_app_l_Some|]. intros Ho u Hu. by apply lookup_app_l_Some, Ho.
Qed.

(** The consumers' cursor moves from [t] to [q]: these positions are read. *)
Definition mark (t q : Z) (f : phase) : phase := match f with Filled z => if (t <=? z) && (z <? q) then Reading z else f | _ => f end.
Lemma mark_other t q f : (forall z, f = Filled z -> ~ t <= z < q) -> mark t q f = f.
Proof. destruct f as [z|z|z|z]; cbn; try done. intros H. specialize (H z eq_refl). by destruct (Z.leb_spec t z), (Z.ltb_spec z q); try lia. Qed.
Lemma mark_range t q z : t <= z < q -> mark t q (Filled z) = Reading z.
Proof. intros H. cbn. by destruct (Z.leb_spec t z), (Z.ltb_spec z q); try lia. Qed.
Lemma inv_claim_tail r ph i p p' q : inv r ph -> let t := tail (hdr r) in t < q <= head (hdr r) -> (forall z, t <= z < q -> ph !! ix z = Some (Filled z)) ->
  pcs r !! i = Some p -> holds p = [] -> makes p = [] -> takes p = [] -> makes p' = [] -> holds p' = seqZ t (q - t) -> takes p' = seqZ t (q - t) ->
  pc_ok (set_tail r q) (mark t q <$> ph) p' -> inv (goto (set_tail r q) i p') (mark t q <$> ph).
Proof.
  intros Hi t Hq HF Hp H1 H2 H3 H2' H1' H3' Hok. pose proof cap_range as Hcap. destruct (iv_len _ _ Hi) as [L1 L2]. pose proof (iv_tail _ _ Hi) as Ht. pose proof (iv_bound _ _ Hi) as Hb.
  assert (Hne : forall j g, ph !! j = Some g -> (forall z, g <> Filled z) -> (mark t q <$> ph) !! j = Some g).
  { intros j g Hg Hd. rewrite list_lookup_fmap, Hg. cbn. f_equal. apply mark_other. intros z ->. by destruct (Hd z). }
  eapply (inv_step r ph _ _ i p p' Hi Hp); cbn [goto set_tail hdr slots pcs sent log mask head tail]; rewrite ?H1, ?H2, ?H3, ?H1', ?H2', ?H3'; try done; try keep Hi.
  - apply length_fmap.
  - unfold t in *. lia.
  - split; cbn [hdr sent head tail goto set_tail]; [done|unfold t in *; lia|done|intros _ Hf; by apply Hne|unfold t in *; lia].
  - intros z _ Hz. split; [|done]. destruct Hz as [Hz|Hz]; rewrite Hz; by apply Hne.
  - intros j y g Hy. rewrite list_lookup_fmap. destruct (ph !! j) as [f|] eqn:Hf; [|done]. intros [= <-]. destruct (iv_slot _ _ Hi _ _ _ Hy Hf) as [Hpl Hs].
    assert (Hj : ix (place f) = j) by (unfold ix; rewrite Hpl; lia).
    assert (Hw : forall z, t <= z < q -> f <> Writing z) by (intros z Hz ->; cbn in Hj; rewrite <- Hj, HF in Hf by done; done).
    destruct f as [z|z|z|z]; cbn [mark place] in *; [| | |].
    1: split; [done|]; cbn in *; unfold t in *; lia.
    1: specialize (Hw z); split; [done|]; cbn in *; unfold t in *; destruct (decide (tail (hdr r) <= z < q)); [exfalso; by apply Hw|lia].
    2: split; [done|]; cbn in *; unfold t in *; lia.
    destruct (Z.leb_spec t z), (Z.ltb_spec z q); cbn [andb]; (split; [done|]); cbn in *; unfold t in *; try lia. split_and!; try lia. apply Hs.
  - intros z [? ?]%elem_of_seqZ. right. rewrite HF by lia. by intros [|].
  - intros j z. rewrite list_lookup_fmap. destruct (ph !! j) as [f|] eqn:Hf; cbn; [|by intros [|]]. destruct f as [y|y|y|y]; cbn [mark]; try (intros [[= ->]|[= ->]]; right; split; [apply not_elem_of_nil|auto]; fail); try (by intros [|]).
    destruct (Z.leb_spec t y), (Z.ltb_spec y q); cbn [andb]; try (by intros [|]). intros [?|[= ->]]; [done|]. left. apply elem_of_seqZ. lia.
  - intros R HR. change ([] ++ R) with R in HR. replace q with (t + (q - t)) at 2 by lia. rewrite seqZ_app by (unfold t; lia). change (seqZ 0 t) with (seqZ 0 (tail (hdr r))). rewrite <- HR, Z.add_0_l. solve_Permutation.
Qed.

(** *** The steps of the code *)
Definition leads r (o : outcome ring) : Prop :=
  exists r' ph', o = Ok r' /\ inv r' ph' /\ length (pcs r') = length (pcs r) /\ head (hdr r') <= head (hdr r) + 1.
Lemma leads_goto r ph i p p' : inv r ph -> pcs r !! i = Some p -> pc_ok r ph p' -> holds p' = holds p -> makes p' = makes p -> takes p' = takes p -> leads r (Ok (goto r i p')).
Proof. intros Hi Hp Hok H1 H2 H3. exists (goto r i p'), ph. split_and!; [done|by eapply mpmc_inv_goto|apply length_insert|cbn; lia]. Qed.

Lemma seq_range r ph q x : inv r ph -> slots r !! ix q = Some x -> 0 <= seq x < 2 ^ 63.
Proof.
  intros Hi Hx. pose proof cap_range. pose proof (iv_tail _ _ Hi). pose proof (iv_bound _ _ Hi). destruct (iv_len _ _ Hi) as [L1 L2]. pose proof (ix_lt q).
  destruct (lookup_lt_is_Some_2 ph (ix q)) as [f Hf]; [lia|]. destruct (iv_slot _ _ Hi _ _ _ Hx Hf) as [_ Hs]. destruct f; cbn in Hs; lia.
Qed.
Lemma cursor_le r ph c : inv r ph -> 0 <= cursor r c <= head (hdr r).
Proof. intros Hi. pose proof (iv_tail _ _ Hi). destruct c; cbn; lia. Qed.
Lemma diff_eq r ph q x c : inv r ph -> slots r !! ix q = Some x -> 0 <= q <= cursor r c -> i64 (i64 (seq x) - i64 (u64 (q + lag c))) = seq x - (q + lag c).
Proof.
  intros Hi Hx Hq. pose proof (seq_range r ph q x Hi Hx). pose proof (cursor_le r ph c Hi). pose proof (iv_bound _ _ Hi). pose proof cap_range. assert (0 <= lag c <= 1) by (destruct c; cbn; lia).
  rewrite wrap_small by (unfold in_u; lia). rewrite !(sgn_small 64) by (unfold in_s; lia || (rewrite ?(sgn_small 64) by (unfold in_s; lia); unfold in_s; lia)). done.
Qed.

Lemma claim_step_ok r ph i sp c p : inv r ph -> head (hdr r) + 1 + cap <= 2 ^ 63 -> pcs r !! i = Some p -> (p = ClaimPos c \/ exists q, p = ClaimSeq c q \/ p = ClaimCas c q) -> leads r (claim_step r i sp c p).
Proof.
  intros Hi Hb Hp Hc. pose proof (iv_pc _ _ Hi i p Hp) as Hok. pose proof (cursor_le r ph c Hi) as Hcur. destruct Hc as [->|(q & [->| ->])]; cbn [claim_step pc_ok] in *.
  - eapply leads_goto; try done. cbn. split; [done|lia].
  - destruct Hok as [Hd Hq]. destruct (slot_at r ph q Hi ltac:(lia)) as (x & f & -> & Hx & _). rewrite bind_Ok. cbv zeta. rewrite (diff_eq r ph q x c) by done.
    destruct (Z.eqb_spec (seq x - (q + lag c)) 0) as [He|He]; [|destruct (Z.ltb_spec (seq x - (q + lag c)) 0)].
    + eapply leads_goto; try done. cbn [pc_ok]. split_and!; try done; try lia. intros Hcq. destruct c as [v|out|]; cbn [cursor lag] in *; [| |done].
      * apply (seq_free r ph q x); [done|lia|done|done|lia].
      * apply (seq_filled r ph q x); [done|lia|lia|done|lia].
    + exists (return_ r i (failed c)), ph. split_and!; [done| |apply length_insert|cbn; lia]. eapply inv_return; try done; by destruct c.
    + eapply leads_goto; try done.
  - destruct Hok as (Hd & Hq & HF). destruct (negb sp && (cursor r c =? q)) eqn:E; [|by eapply leads_goto]. apply andb_true_iff in E as [_ E%Z.eqb_eq]. specialize (HF E).
    pose proof cap_range as Hcap. destruct c as [v|out|]; cbn [claimed cursor] in *; [| |done]; rewrite wrap_small by (unfold in_u; lia); rewrite <- E in *.
    + eexists _, _. split_and!; [done|by apply inv_claim_head|apply length_insert|cbn; lia].
    + pose proof (iv_tail _ _ Hi) as Ht. destruct (slot_at r ph (tail (hdr r)) Hi ltac:(lia)) as (x & f & _ & Hx & Hf & [_ Hs]). rewrite HF in Hf. injection Hf as <-. cbn in Hs.
      eexists _, _. split_and!; [done| |apply length_insert|cbn; lia]. assert (Hone : seqZ (tail (hdr r)) (tail (hdr r) + 1 - tail (hdr r)) = [tail (hdr r)]) by (replace (tail (hdr r) + 1 - tail (hdr r)) with 1 by lia; done).
      assert (Hrd : (mark (tail (hdr r)) (tail (hdr r) + 1) <$> ph) !! ix (tail (hdr r)) = Some (Reading (tail (hdr r)))) by (rewrite list_lookup_fmap, HF; cbn [fmap option_fmap option_map]; f_equal; apply mark_range; lia).
      eapply inv_claim_tail; try done; rewrite ?Hone; try (by destruct out); [lia|intros z Hz; by replace z with (tail (hdr r)) by lia|].
      destruct out; cbn [pc_ok]; (split; [done|]); [|done]. exists (val x). cbn [slots set_tail sent]. rewrite Hx. split; [apply Hs|done].
Qed.

Lemma range_scanned_ok r ph t q : 0 <= t <= tail (hdr r) -> t <= q <= head (hdr r) -> (tail (hdr r) = t -> forall z, t <= z < q -> ph !! ix z = Some (Filled z)) -> pc_ok r ph (range_scanned t q).
Proof. intros Ht Hp HF. unfold range_scanned. destruct (Z.eqb_spec q t); cbn [pc_ok]; [done|]. split_and!; [lia..|done]. Qed.
Lemma range_step_ok r ph i sp p : inv r ph -> pcs r !! i = Some p -> match p with RangeTail | RangeHead _ | RangeScan _ _ _ | RangeAgain _ | RangeCas _ _ => True | _ => False end -> leads r (range_step r i sp p).
Proof.
  intros Hi Hp Hc. pose proof (iv_pc _ _ Hi i p Hp) as Hok. pose proof (iv_tail _ _ Hi) as Ht. pose proof (iv_bound _ _ Hi) as Hb. pose proof cap_range as Hcap.
  destruct p as [| | | | | | | | | |t|t e q|t|t q| |]; try done; cbn [range_step pc_ok] in *.
  - eapply leads_goto; try done. cbn. lia.
  - eapply leads_goto; try done. cbn. split_and!; lia.
  - destruct Hok as (H1 & H2 & H3 & HF). assert (Hsc : forall P, pc_ok r ph P -> holds P = [] -> makes P = [] -> takes P = [] -> leads r (Ok (goto r i P))) by (intros P ? ? ? ?; by eapply leads_goto).
    assert (Hs : leads r (Ok (goto r i (range_scanned t q)))) by (apply Hsc; [apply range_scanned_ok; try done; lia|unfold range_scanned; by destruct (q =? t)..]).
    destruct (Z.eqb_spec q e); [done|]. destruct (slot_at r ph q Hi ltac:(lia)) as (x & f & -> & Hx & _). rewrite bind_Ok, wrap_small by (unfold in_u; lia).
    destruct (Z.eqb_spec (seq x) (q + 1)); [|done]. apply Hsc; try done. cbn. split_and!; try lia. intros He z Hz. destruct (decide (z = q)) as [->|]; [|apply HF; lia].
    apply (seq_filled r ph q x); try done; lia.
  - destruct (negb _); [by eapply leads_goto|]. eexists _, ph. split_and!; [done| |apply length_insert|cbn; lia]. by eapply inv_return.
  - destruct Hok as (H1 & H2 & HF). destruct (negb sp && (tail (hdr r) =? t)) eqn:E; [|by eapply leads_goto]. apply andb_true_iff in E as [_ E%Z.eqb_eq]. specialize (HF E). rewrite <- E in *.
    rewrite wrap_small by (unfold in_u; lia). eexists _, _. split_and!; [done| |apply length_insert|cbn; lia]. eapply inv_claim_tail; try done; cbn [holds takes]; [f_equal; lia|].
    cbn [pc_ok tail hdr set_tail]. split_and!; try lia. intros z Hz. rewrite list_lookup_fmap, HF by lia. cbn [fmap option_fmap option_map]. f_equal. apply mark_range. lia.
Qed.

Lemma store_val_ok r ph i p p' q v : inv r ph -> pcs r !! i = Some p -> q ∈ holds p -> (forall x, pc_ok (put_slot r q (mkSlot (seq x) v)) ph p') -> holds p' = holds p -> makes p' = makes p -> takes p' = takes p ->
  leads r (r ← store_val r q v; Ok (goto r i p')).
Proof.
  intros Hi Hp Hq Hok H1 H2 H3. pose proof (iv_pc _ _ Hi i p Hp) as Hpc. pose proof (held_pos r ph p q Hi Hpc Hq) as Hpos. destruct (slot_at r ph q Hi ltac:(lia)) as (x & f & Hs & Hx & _).
  unfold store_val. rewrite Hs, !bind_Ok. eexists _, ph. split_and!; [done|by eapply inv_store_val|apply length_insert|cbn; lia].
Qed.
Lemma enqueue_step_ok r ph i p : inv r ph -> pcs r !! i = Some p -> match p with EnqWrite _ _ | EnqPublish _ _ => True | _ => False end -> leads r (enqueue_step r i p).
Proof.
  intros Hi Hp Hc. pose proof (iv_pc _ _ Hi i p Hp) as Hok. pose proof (iv_bound _ _ Hi) as Hb. pose proof cap_range as Hcap. pose proof (fun q => held_pos r ph p q Hi Hok) as Hpos. destruct p as [| | | |q v|q v| | | | | | | | | |]; try done; cbn [enqueue_step pc_ok holds] in *; specialize (Hpos q ltac:(by left)).
  - eapply store_val_ok; try done; [by left|]. intros x. destruct Hok as [H1 H2]. split_and!; [done|done|]. cbn [put_slot slots]. rewrite (index_ix r ph) by (done || lia).
    destruct (iv_len _ _ Hi) as [L1 _]. by rewrite list_lookup_insert_eq by (rewrite L1; apply ix_lt).
  - destruct Hok as (H1 & H2 & H3). destruct (slot_at r ph q Hi ltac:(lia)) as (x & f & Hs & Hx & Hf & Hso). rewrite Hx in H3. injection H3 as H3. rewrite H1 in Hf. injection Hf as <-.
    destruct Hso as [Hpl Hso]. cbn in Hpl, Hso. unfold store_seq. rewrite Hs, !bind_Ok, wrap_small by (unfold in_u; lia). unfold put_slot, return_. rewrite (index_ix r ph) by (done || lia). cbn [hdr slots pcs sent log].
    eexists _, _. split_and!; [done|eapply (inv_store_seq r ph i (EnqPublish q v) Idle q x (q + 1) (Filled q)); try done|apply length_insert|cbn; lia].
    + by left.
    + split; [done|]. cbn. split_and!; try lia. by rewrite H3.
    + intros z. cbn [holds]. rewrite list_elem_of_singleton, elem_of_nil. naive_solver.
    + intros R HR. rewrite fmap_app, concat_app. cbn. rewrite <- HR. cbn. solve_Permutation.
    + intros R HR. rewrite fmap_app, concat_app. cbn. rewrite app_nil_r. done.
    + apply Forall_app. split; [exact (iv_log _ _ Hi)|]. by apply Forall_singleton.
    + by left.
Qed.

(** A consumer gives its slot back for the position one round later. *)
Lemma release_ok r ph q x : inv r ph -> slots r !! ix q = Some x -> ph !! ix q = Some (Reading q) -> u64 (q + mask (hdr r) + 1) = q + cap /\ slot_ok r (ix q) (mkSlot (q + cap) (val x)) (Free (q + cap)).
Proof.
  intros Hi Hx Hf. pose proof (iv_bound _ _ Hi). pose proof cap_range. pose proof (iv_tail _ _ Hi). destruct (iv_slot _ _ Hi _ _ _ Hx Hf) as [Hpl Hs]. cbn in Hpl, Hs. rewrite (iv_mask _ _ Hi). split.
  - rewrite wrap_small by (unfold in_u; lia). lia.
  - split; [rewrite <- (ix_cap q), ix_mod; done|]. cbn. lia.
Qed.
Lemma dequeue_step_ok r ph i p : inv r ph -> pcs r !! i = Some p -> match p with DeqRead _ | DeqClear _ _ | DeqRelease _ _ => True | _ => False end -> leads r (dequeue_step zero r i p).
Proof.
  intros Hi Hp Hc. pose proof (iv_pc _ _ Hi i p Hp) as Hok. pose proof (fun q => held_pos r ph p q Hi Hok) as Hpos. destruct p as [| | | | | |q|q out|q out| | | | | | |]; try done; cbn [dequeue_step pc_ok holds] in *; specialize (Hpos q ltac:(by left)).
  - destruct (slot_at r ph q Hi ltac:(lia)) as (x & f & -> & Hx & _). rewrite bind_Ok. destruct Hok as (H1 & v & H2 & H3). rewrite Hx in H3. injection H3 as <-. eapply leads_goto; try done. split; [done|]. by intros v [= <-].
  - eapply store_val_ok; try done. by left.
  - destruct Hok as [H1 H2]. destruct (slot_at r ph q Hi ltac:(lia)) as (x & f & Hs & Hx & _). destruct (release_ok r ph q x Hi Hx H1) as [-> Hso].
    unfold store_seq. rewrite Hs, !bind_Ok. unfold put_slot, return_. rewrite (index_ix r ph) by (done || lia). cbn [hdr slots pcs sent log].
    eexists _, _. split_and!; [done|eapply (inv_store_seq r ph i (DeqRelease q out) Idle q x (q + cap) (Free (q + cap))); try done|apply length_insert|cbn; lia].
    + by left.
    + intros z. cbn [holds]. rewrite list_elem_of_singleton, elem_of_nil. naive_solver.
    + intros R HR. rewrite fmap_app, concat_app. cbn. rewrite app_nil_r. done.
    + intros R HR. rewrite fmap_app, concat_app. cbn. rewrite <- HR. cbn. solve_Permutation.
    + apply Forall_app. split; [exact (iv_log _ _ Hi)|]. by apply Forall_singleton.
    + by left.
Qed.
Lemma drain_step_ok r ph i p : inv r ph -> pcs r !! i = Some p -> match p with DrainClear _ _ _ | DrainRelease _ _ _ => True | _ => False end -> leads r (drain_step zero r i p).
Proof.
  intros Hi Hp Hc. pose proof (iv_pc _ _ Hi i p Hp) as Hok. pose proof (iv_tail _ _ Hi) as Ht. pose proof (iv_bound _ _ Hi) as Hb. pose proof cap_range as Hcap.
  destruct p as [| | | | | | | | | | | | | |f c q|f c q]; try done; cbn [drain_step pc_ok] in *; destruct Hok as (H1 & H2 & HF).
  - rewrite wrap_small by (unfold in_u; lia). destruct (Z.eqb_spec q (f + c)) as [->|Hne].
    + eexists _, ph. split_and!; [done| |apply length_insert|cbn; lia]. eapply (inv_step r ph _ ph i _ Idle Hi Hp); cbn [return_ hdr slots pcs sent log holds makes takes]; try done; try keep Hi.
      * by intros z ?%elem_of_nil.
      * intros j z Hz. right. split; [|done]. replace (f + c - (f + c)) with 0 by lia. apply not_elem_of_nil.
      * intros R HR. rewrite fmap_app, concat_app. cbn. rewrite app_nil_r. done.
      * intros R HR. rewrite fmap_app, concat_app. cbn. rewrite <- HR. solve_Permutation.
      * apply Forall_app. split; [exact (iv_log _ _ Hi)|]. by apply Forall_singleton.
    + eapply store_val_ok; try done; [cbn; apply elem_of_seqZ; lia|]. intros x. cbn. split_and!; [lia..|]. done.
  - destruct (slot_at r ph q Hi ltac:(lia)) as (x & g & Hs & Hx & _). specialize (HF q ltac:(lia)) as Hq. destruct (release_ok r ph q x Hi Hx Hq) as [-> Hso].
    unfold store_seq. rewrite Hs, !bind_Ok, wrap_small by (unfold in_u; lia). unfold put_slot, goto. rewrite (index_ix r ph) by (done || lia). cbn [hdr slots pcs sent log].
    eexists _, _. split_and!; [done|eapply (inv_store_seq r ph i (DrainRelease f c q) (DrainClear f c (q + 1)) q x (q + cap) (Free (q + cap))); try done|apply length_insert|cbn; lia].
    + cbn. apply elem_of_seqZ. lia.
    + cbn [pc_ok]. split_and!; try lia. intros z Hz. rewrite list_lookup_insert_ne; [apply HF; lia|]. intros He. specialize (HF z ltac:(lia)) as Hz'. rewrite <- He, Hq in Hz'. injection Hz' as ->. lia.
    + intros z. cbn [holds]. rewrite !elem_of_seqZ. lia.
    + exact (iv_log _ _ Hi).
    + right. by eexists _, _, _.
Qed.

Lemma exec_ok r ph i c sp : inv r ph -> head (hdr r) + 1 + cap <= 2 ^ 63 -> (i < length (pcs r))%nat -> leads r (exec zero r i c sp).
Proof.
  intros Hi Hb Hlt. apply lookup_lt_is_Some_2 in Hlt as [p Hp]. unfold exec. rewrite Hp. cbn [deref]. rewrite bind_Ok. unfold step.
  destruct p as [|c'|c' q|c' q|q v|q v|q|q out|q out| |t|t e q|t|t q|f n q|f n q].
  - eapply leads_goto; try done; by destruct c.
  - eapply claim_step_ok; eauto.
  - eapply claim_step_ok; eauto.
  - eapply claim_step_ok; eauto.
  - by eapply enqueue_step_ok.
  - by eapply enqueue_step_ok.
  - by eapply dequeue_step_ok.
  - by eapply dequeue_step_ok.
  - by eapply dequeue_step_ok.
  - by eapply range_step_ok.
  - by eapply range_step_ok.
  - by eapply range_step_ok.
  - by eapply range_step_ok.
  - by eapply range_step_ok.
  - by eapply drain_step_ok.
  - by eapply drain_step_ok.
Qed.
Lemma run_ok sched : forall r ph, inv r ph -> head (hdr r) + Z.of_nat (length sched) + cap <= 2 ^ 63 -> Forall (fun '(i, _, _) => (i < length (pcs r))%nat) sched ->
  exists r' ph', run zero r sched = Ok r' /\ inv r' ph' /\ length (pcs r') = length (pcs r) /\ head (hdr r') <= head (hdr r) + Z.of_nat (length sched).
Proof.
  induction sched as [|[[i c] sp] sched IH]; intros r ph Hi Hb HF; cbn [run length] in *; [exists r, ph; split_and!; [done..|lia]|].
  apply list.Forall_cons in HF as [Hlt HF]. destruct (exec_ok r ph i c sp Hi ltac:(lia) Hlt) as (r1 & ph1 & -> & Hi1 & Hl1 & Hh1). rewrite bind_Ok. rewrite <- Hl1 in HF.
  destruct (IH r1 ph1 Hi1 ltac:(lia) HF) as (r2 & ph2 & -> & Hi2 & Hl2 & Hh2). exists r2, ph2. split_and!; [done|done|congruence|lia].
Qed.

(** *** Refused calls and calls alone *)

Lemma holds_reading r ph p q : pc_ok r ph p -> q ∈ holds p -> ph !! ix q = Some (Reading q) -> q ∈ takes p.
Proof.
  destruct p; cbn [pc_ok holds takes]; try done; try (intros (H1 & _) ->%list_elem_of_singleton H2; congruence); intros (? & ? & _); rewrite !elem_of_seqZ; lia.
Qed.
Lemma holds_writing r ph p q : pc_ok r ph p -> q ∈ holds p -> ph !! ix q = Some (Writing q) -> q ∈ makes p.
Proof.
  destruct p as [| | | | | | | | | | | | | |f c z|f c z]; cbn [pc_ok holds makes]; try done; try (intros (H1 & _) ->%list_elem_of_singleton H2; congruence);
    intros (? & ? & HF); rewrite elem_of_seqZ; intros Hq H2; rewrite HF in H2 by lia; done.
Qed.
(** The slot at the head is free for it, or not given back yet. *)
Lemma head_slot r ph x : inv r ph -> slots r !! ix (head (hdr r)) = Some x ->
  (seq x = head (hdr r) /\ head (hdr r) < tail (hdr r) + cap) \/
  (seq x < head (hdr r) /\ (head (hdr r) = tail (hdr r) + cap \/ exists j p, pcs r !! j = Some p /\ head (hdr r) - cap ∈ takes p)).
Proof.
  intros Hi Hx. pose proof cap_range. pose proof (iv_tail _ _ Hi). destruct (slot_at r ph (head (hdr r)) Hi ltac:(lia)) as (y & f & _ & Hy & Hf & Hok). rewrite Hx in Hy. injection Hy as <-.
  pose proof (place_at r ph _ f Hi Hf) as Hp. destruct f as [z|z|z|z], Hok as [_ Hs]; cbn in Hp, Hs; [left; lia|right; split; [lia|left; lia]|right; split; [lia|left; lia]|right; split; [lia|right]].
  replace (head (hdr r) - cap) with z by lia. destruct (iv_busy _ _ Hi (ix (head (hdr r))) z ltac:(by right)) as (j & p & Hj & Hz). exists j, p. split; [done|].
  eapply holds_reading; [by apply (iv_pc _ _ Hi j)|done|]. replace (ix z) with (ix (head (hdr r))); [done|]. rewrite <- (ix_cap z). f_equal. lia.
Qed.
(** The slot at the tail is filled, or there is nothing or nothing yet. *)
Lemma tail_slot r ph x : inv r ph -> slots r !! ix (tail (hdr r)) = Some x ->
  (seq x = tail (hdr r) + 1 /\ tail (hdr r) < head (hdr r) /\ sent r !! Z.to_nat (tail (hdr r)) = Some (val x)) \/
  (seq x < tail (hdr r) + 1 /\ (head (hdr r) = tail (hdr r) \/ exists j p, pcs r !! j = Some p /\ tail (hdr r) ∈ makes p)).
Proof.
  intros Hi Hx. pose proof cap_range. pose proof (iv_tail _ _ Hi). destruct (slot_at r ph (tail (hdr r)) Hi ltac:(lia)) as (y & f & _ & Hy & Hf & Hok). rewrite Hx in Hy. injection Hy as <-.
  pose proof (place_at r ph _ f Hi Hf) as Hp. destruct f as [z|z|z|z], Hok as [_ Hs]; cbn in Hp, Hs; [right; split; [lia|left; lia]|right; split; [lia|right]|left|right; split; [lia|left; lia]].
  - assert (z = tail (hdr r)) as -> by lia. destruct (iv_busy _ _ Hi (ix (tail (hdr r))) (tail (hdr r)) ltac:(by left)) as (j & p & Hj & Hz). exists j, p. split; [done|].
    eapply holds_writing; [by apply (iv_pc _ _ Hi j)|done|done].
  - assert (z = tail (hdr r)) as -> by lia. split_and!; [lia|lia|apply Hs].
Qed.
(** A slot behind the cursor never makes a call fail. *)
Lemma passed_slot r ph q x c : inv r ph -> c <> Drain -> 0 <= q < cursor r c -> slots r !! ix q = Some x -> q + lag c <= seq x.
Proof.
  intros Hi Hc Hq Hx. pose proof cap_range. pose proof (iv_tail _ _ Hi). destruct (slot_at r ph q Hi ltac:(lia)) as (y & f & _ & Hy & Hf & Hok). rewrite Hx in Hy. injection Hy as <-.
  pose proof (place_at r ph _ f Hi Hf) as Hp. destruct f as [z|z|z|z], Hok as [_ Hs], c; cbn in Hp, Hs, Hq |- *; try done; lia.
Qed.
Lemma exec_log r i c sp r' p : pcs r !! i = Some p -> exec zero r i c sp = Ok r' -> (exists c' q, p = ClaimSeq c' q) \/ log r' = log r \/ exists e, log r' = log r ++ [e] /\ e <> Full /\ e <> Empty.
Proof.
  unfold exec. intros ->. cbn [deref]. rewrite bind_Ok.
  destruct p as [|c'|c' q|c' q|q v|q v|q|q out|q out| |t|t e' q|t|t q|f n q|f n q]; cbn [step claim_step range_step enqueue_step dequeue_step drain_step]; unfold store_val, store_seq; intros HE.
  all: repeat first [apply bind_Ok_inv in HE as (? & ?HB & HE)|match type of HE with context [if ?b then _ else _] => destruct b end].
  all: first [injection HE as <-|idtac]; first [by left; eauto|by right; left|by (destruct c'; right; left)|right; right; eexists; split; [done|done]|idtac].
  all: repeat match goal with H : _ = Ok _ |- _ => first [apply bind_Ok_inv in H as (? & ?HB & H)|injection H as <-] end; first [by right; left|right; right; eexists; by split].
Qed.
Lemma refuses_ok r ph i c sp r' e : inv r ph -> (i < length (pcs r))%nat -> exec zero r i c sp = Ok r' -> log r' = log r ++ [e] ->
  (e = Full -> head (hdr r) = tail (hdr r) + cap \/ exists j p, pcs r !! j = Some p /\ head (hdr r) - cap ∈ takes p) /\
  (e = Empty -> head (hdr r) = tail (hdr r) \/ exists j p, pcs r !! j = Some p /\ tail (hdr r) ∈ makes p).
Proof.
  intros Hi Hlt HE HL. apply lookup_lt_is_Some_2 in Hlt as [p Hp]. pose proof (iv_pc _ _ Hi i p Hp) as Hok.
  destruct (exec_log r i c sp r' p Hp HE) as [(c' & q & ->)|[HL'|(e' & HL' & H1 & H2)]].
  - cbn [pc_ok] in Hok. destruct Hok as [Hd Hq]. pose proof (cursor_le r ph c' Hi). unfold exec in HE. rewrite Hp in HE. cbn [deref] in HE. rewrite bind_Ok in HE. cbn [step claim_step] in HE.
    destruct (slot_at r ph q Hi ltac:(lia)) as (x & f & Hs & Hx & _). rewrite Hs, bind_Ok in HE. cbv zeta in HE. rewrite (diff_eq r ph q x c') in HE by done.
    destruct (Z.eqb_spec (seq x - (q + lag c')) 0); [|destruct (Z.ltb_spec (seq x - (q + lag c')) 0)]; injection HE as <-; cbn [goto return_ log] in HL; try (apply (f_equal length) in HL; rewrite length_app in HL; cbn in HL; lia).
    apply app_inv_head in HL. injection HL as <-. destruct (decide (q = cursor r c')) as [->|Hne]; [|pose proof (passed_slot r ph q x c' Hi Hd ltac:(lia) Hx); lia].
    destruct c' as [v|out|]; cbn [cursor lag failed] in *; [| |done]; split; intros; try done.
    + destruct (head_slot r ph x Hi Hx) as [?|[_ ?]]; [lia|done].
    + destruct (tail_slot r ph x Hi Hx) as [?|[_ ?]]; [lia|done].
  - rewrite HL' in HL. apply (f_equal length) in HL. rewrite length_app in HL. cbn in HL. lia.
  - rewrite HL' in HL. apply app_inv_head in HL. injection HL as <-. done.
Qed.

(** When all agents are idle, a call alone ends within six steps, as on a queue. *)
Lemma idle_not_held r j p z : Forall (fun p => p = Idle) (pcs r) -> pcs r !! j = Some p -> (z ∉ takes p) /\ (z ∉ makes p).
Proof. intros HF Hj. rewrite list.Forall_forall in HF. rewrite (HF p) by (by eapply list_elem_of_lookup_2). split; apply not_elem_of_nil. Qed.
Lemma exec_pc r i p c sp : pcs r !! i = Some p -> exec zero r i c sp = step zero r i c sp p.
Proof. unfold exec. by intros ->. Qed.
Lemma exec_goto r i p c sp : (i < length (pcs r))%nat -> exec zero (goto r i p) i c sp = step zero (goto r i p) i c sp p.
Proof. intros Hlt. apply exec_pc. cbn [goto pcs]. by rewrite list_lookup_insert_eq. Qed.
Lemma goto_goto r i p p' : goto (goto r i p) i p' = goto r i p'.
Proof. unfold goto. cbn. by rewrite list_insert_insert_eq. Qed.
Lemma goto_idle r i : Forall (fun p => p = Idle) (pcs r) -> <[i := Idle]> (pcs r) = pcs r.
Proof.
  intros HF. destruct (pcs r !! i) as [p|] eqn:Hp; [|by rewrite list_insert_ge by (by apply lookup_ge_None)].
  apply list_insert_id. rewrite Hp. f_equal. rewrite list.Forall_forall in HF. apply HF. by eapply list_elem_of_lookup_2.
Qed.
Lemma slot_goto r i p q : slot_of (goto r i p) q = slot_of r q.
Proof. done. Qed.
(** The first two steps of a claim. *)
Lemma claim_alone r ph i c l x : inv r ph -> Forall (fun p => p = Idle) (pcs r) -> (i < length (pcs r))%nat -> c <> Drain -> slots r !! ix (cursor r c) = Some x ->
  run zero r ((i, c, false) :: (i, c, false) :: (i, c, false) :: l) =
  if seq x =? cursor r c + lag c then run zero (goto r i (ClaimCas c (cursor r c))) l
  else if seq x <? cursor r c + lag c then run zero (return_ r i (failed c)) l else run zero (goto r i (ClaimPos c)) l.
Proof.
  intros Hi HF Hlt Hc Hx. pose proof (cursor_le r ph c Hi). cbn [run]. rewrite (exec_pc r i Idle) by (rewrite <- (goto_idle r i HF); by apply list_lookup_insert_eq).
  cbn [step]. rewrite bind_Ok. assert ((match c with Drain => RangeTail | _ => ClaimPos c end) = ClaimPos c) as -> by (by destruct c).
  rewrite exec_goto by done. cbn [step claim_step]. rewrite bind_Ok, goto_goto, exec_goto by done. cbn [step claim_step].
  assert (cursor (goto r i (ClaimPos c)) c = cursor r c) as -> by (by destruct c). destruct (slot_at r ph (cursor r c) Hi ltac:(lia)) as (y & f & Hs & Hy & _). rewrite Hx in Hy. injection Hy as <-.
  rewrite slot_goto, Hs, bind_Ok. cbv zeta. rewrite (diff_eq r ph _ x c) by (done || lia).
  destruct (Z.eqb_spec (seq x) (cursor r c + lag c)) as [E|E]; [rewrite (proj2 (Z.eqb_eq _ _)) by lia|rewrite (proj2 (Z.eqb_neq _ _)) by lia].
  - by rewrite bind_Ok, goto_goto.
  - destruct (Z.ltb_spec (seq x) (cursor r c + lag c)); [rewrite (proj2 (Z.ltb_lt _ _)) by lia|rewrite (proj2 (Z.ltb_ge _ _)) by lia]; rewrite bind_Ok; unfold return_, goto; cbn; by rewrite list_insert_insert_eq.
Qed.
(** The last two steps: a store to the value of a held slot and one to its [seq]. *)
Lemma store_both r ph i p q n v : inv r ph -> pcs r !! i = Some p -> q ∈ holds p -> exists x, slot_of r q = Ok x /\
  forall p', store_seq (goto (put_slot r q (mkSlot (seq x) v)) i p') q n = Ok (goto (put_slot r q (mkSlot n v)) i p').
Proof.
  intros Hi Hp Hq. pose proof (held_pos r ph p q Hi (iv_pc _ _ Hi i p Hp) Hq) as Hpos. destruct (slot_at r ph q Hi ltac:(lia)) as (x & f & Hs & Hx & _). exists x. split; [done|]. intros p'.
  unfold store_seq, slot_of, put_slot, goto, index. cbn [hdr slots pcs sent log]. change (Z.to_nat (Z.land q (mask (hdr r)))) with (index r q). rewrite (index_ix r ph) by (done || lia).
  rewrite list_lookup_insert_eq by (by eapply lookup_lt_Some). cbn. by rewrite list_insert_insert_eq.
Qed.
Lemma enqueue_rest r ph i q v c : inv r ph -> pcs r !! i = Some (EnqWrite q v) -> exists r', run zero r [(i, c, false); (i, c, false)] = Ok r' /\
  pcs r' = <[i := Idle]> (pcs r) /\ hdr r' = hdr r /\ sent r' = sent r /\ log r' = log r ++ [Enqueued q v].
Proof.
  intros Hi Hp. destruct (store_both r ph i _ q (u64 (q + 1)) v Hi Hp ltac:(by left)) as (x & Hs & Hq). cbn [run]. rewrite (exec_pc _ _ _ _ _ Hp). cbn [step enqueue_step].
  unfold store_val. rewrite Hs, !bind_Ok, exec_goto by (by eapply lookup_lt_Some). cbn [step enqueue_step]. rewrite Hq, !bind_Ok. eexists. split; [done|]. cbn. by rewrite list_insert_insert_eq.
Qed.
Lemma dequeue_rest r ph i q out c : inv r ph -> pcs r !! i = Some (DeqClear q out) -> exists r', run zero r [(i, c, false); (i, c, false)] = Ok r' /\
  pcs r' = <[i := Idle]> (pcs r) /\ hdr r' = hdr r /\ sent r' = sent r /\ log r' = log r ++ [Dequeued q out].
Proof.
  intros Hi Hp. destruct (store_both r ph i _ q (u64 (q + mask (hdr r) + 1)) zero Hi Hp ltac:(by left)) as (x & Hs & Hq). cbn [run]. rewrite (exec_pc _ _ _ _ _ Hp). cbn [step dequeue_step].
  unfold store_val. rewrite Hs, !bind_Ok, exec_goto by (by eapply lookup_lt_Some). cbn [step dequeue_step]. cbn [goto put_slot hdr] in Hq |- *. rewrite Hq, !bind_Ok. eexists. split; [done|]. cbn. by rewrite list_insert_insert_eq.
Qed.
(** The compare-and-swap of a call alone succeeds. *)
Lemma cas_alone r ph i c : inv r ph -> head (hdr r) + 4 + cap <= 2 ^ 63 -> Forall (fun p => p = Idle) (pcs r) -> (i < length (pcs r))%nat -> c <> Drain ->
  (exists x, slots r !! ix (cursor r c) = Some x /\ seq x = cursor r c + lag c) -> let r1 := claimed (goto r i (ClaimCas c (cursor r c))) i c (cursor r c) in
  (forall l, run zero r ((i, c, false) :: (i, c, false) :: (i, c, false) :: (i, c, false) :: l) = run zero r1 l) /\ exists ph1, inv r1 ph1.
Proof.
  intros Hi Hb HF Hlt Hc (x & Hx & Hsq) r1. assert (Hrun : forall l, run zero r ((i, c, false) :: (i, c, false) :: (i, c, false) :: (i, c, false) :: l) = run zero r1 l).
  { intros l. rewrite (claim_alone r ph i c _ x) by done. rewrite (proj2 (Z.eqb_eq _ _)) by done. cbn [run]. rewrite exec_goto by done. cbn [step claim_step negb andb].
    assert (cursor (goto r i (ClaimCas c (cursor r c))) c = cursor r c) as -> by (by destruct c). by rewrite Z.eqb_refl, bind_Ok. }
  split; [done|]. destruct (run_ok (replicate 4 (i, c, false)) r ph Hi) as (r' & ph' & HE & Hi' & _); [cbn; lia|by repeat constructor|].
  cbn [replicate] in HE. rewrite Hrun in HE. injection HE as ->. by exists ph'.
Qed.
Lemma enqueue_alone r ph i v : inv r ph -> head (hdr r) + 4 + cap <= 2 ^ 63 -> Forall (fun p => p = Idle) (pcs r) -> (i < length (pcs r))%nat ->
  exists n r', (n <= 6)%nat /\ run zero r (replicate n (i, Enqueue v, false)) = Ok r' /\ pcs r' = pcs r /\ tail (hdr r') = tail (hdr r) /\
  if head (hdr r) - tail (hdr r) <? cap then sent r' = sent r ++ [v] /\ log r' = log r ++ [Enqueued (head (hdr r)) v] else sent r' = sent r /\ log r' = log r ++ [Full].
Proof.
  intros Hi Hb HF Hlt. pose proof (iv_tail _ _ Hi) as Ht. destruct (slot_at r ph (head (hdr r)) Hi ltac:(lia)) as (x & f & Hs & Hx & _). pose proof (goto_idle r i HF) as Hid.
  destruct (head_slot r ph x Hi Hx) as [[Hsq Hfit]|[Hsq Hful]].
  - rewrite (proj2 (Z.ltb_lt (head (hdr r) - tail (hdr r)) cap)) by lia. destruct (cas_alone r ph i (Enqueue v) Hi Hb HF Hlt ltac:(done)) as [Hrun [ph1 Hi1]]; [exists x; cbn; split; [done|lia]|].
    cbn [claimed cursor] in Hrun, Hi1. destruct (enqueue_rest _ ph1 i (head (hdr r)) v (Enqueue v) Hi1) as (r' & HE & H1 & H2 & H3 & H4); [cbn; apply list_lookup_insert_eq; by rewrite length_insert|].
    exists 6%nat, r'. cbn [replicate]. rewrite Hrun, HE. split_and!; [lia|done| | |done|done]; [rewrite H1; cbn; by rewrite !list_insert_insert_eq|by rewrite H2].
  - assert (Hfu : head (hdr r) = tail (hdr r) + cap) by (destruct Hful as [?|(j & p & Hj & Hz)]; [done|exfalso; exact (proj1 (idle_not_held r j p _ HF Hj) Hz)]). rewrite (proj2 (Z.ltb_ge (head (hdr r) - tail (hdr r)) cap)) by lia.
    exists 3%nat. eexists. split; [lia|]. cbn [replicate]. rewrite (claim_alone r ph i (Enqueue v) _ x Hi HF Hlt ltac:(done) Hx). cbn [cursor lag failed].
    rewrite (proj2 (Z.eqb_neq _ _)), (proj2 (Z.ltb_lt _ _)) by lia. cbn [run]. split; [done|]. cbn. by rewrite Hid.
Qed.
Lemma dequeue_alone r ph i out : inv r ph -> head (hdr r) + 4 + cap <= 2 ^ 63 -> Forall (fun p => p = Idle) (pcs r) -> (i < length (pcs r))%nat ->
  exists n r', (n <= 7)%nat /\ run zero r (replicate n (i, Dequeue out, false)) = Ok r' /\ pcs r' = pcs r /\ sent r' = sent r /\
  match sent r !! Z.to_nat (tail (hdr r)) with
  | Some v => tail (hdr r') = tail (hdr r) + 1 /\ log r' = log r ++ [Dequeued (tail (hdr r)) (if out then Some v else None)]
  | None => tail (hdr r') = tail (hdr r) /\ log r' = log r ++ [Empty]
  end.
Proof.
  intros Hi Hb HF Hlt. pose proof (iv_tail _ _ Hi) as Ht. pose proof (iv_head _ _ Hi) as Hh. pose proof cap_range as Hcap. destruct (slot_at r ph (tail (hdr r)) Hi ltac:(lia)) as (x & f & Hs & Hx & _). pose proof (goto_idle r i HF) as Hid.
  destruct (tail_slot r ph x Hi Hx) as [(Hsq & Hne & Hv)|[Hsq Hemp]].
  - rewrite Hv. destruct (cas_alone r ph i (Dequeue out) Hi Hb HF Hlt ltac:(done)) as [Hrun [ph1 Hi1]]; [exists x; cbn; split; [done|lia]|]. cbn [claimed cursor] in Hrun, Hi1.
    rewrite wrap_small in Hrun, Hi1 by (unfold in_u; lia). set (r1 := goto (set_tail (goto r i (ClaimCas (Dequeue out) (tail (hdr r)))) (tail (hdr r) + 1)) i (if out then DeqRead (tail (hdr r)) else DeqClear (tail (hdr r)) None)) in *.
    assert (Hp1 : pcs r1 !! i = Some (if out then DeqRead (tail (hdr r)) else DeqClear (tail (hdr r)) None)) by (cbn; apply list_lookup_insert_eq; by rewrite length_insert). destruct out.
    + assert (HE1 : exec zero r1 i (Dequeue true) false = Ok (goto r1 i (DeqClear (tail (hdr r)) (Some (val x))))).
      { rewrite (exec_pc _ _ _ _ _ Hp1). cbn [step dequeue_step]. change (slot_of r1 (tail (hdr r))) with (slot_of r (tail (hdr r))). by rewrite Hs. }
      assert (Hi2 : exists ph2, inv (goto r1 i (DeqClear (tail (hdr r)) (Some (val x)))) ph2).
      { destruct (exec_ok r1 ph1 i (Dequeue true) false Hi1) as (r2 & ph2 & HE2 & Hi2 & _); [cbn; lia|by eapply lookup_lt_Some|]. rewrite HE1 in HE2. injection HE2 as <-. by exists ph2. }
      destruct Hi2 as [ph2 Hi2]. destruct (dequeue_rest _ ph2 i (tail (hdr r)) (Some (val x)) (Dequeue true) Hi2) as (r' & HE & H1 & H2 & H3 & H4); [cbn; apply list_lookup_insert_eq; by rewrite !length_insert|].
      exists 7%nat, r'. cbn [replicate]. rewrite Hrun. cbn [run]. rewrite HE1, bind_Ok. cbn [run] in HE. rewrite HE. split_and!; [lia|done| |by rewrite H3|by rewrite H2|by rewrite H4]. rewrite H1. cbn. by rewrite !list_insert_insert_eq.
    + destruct (dequeue_rest _ ph1 i (tail (hdr r)) None (Dequeue false) Hi1 Hp1) as (r' & HE & H1 & H2 & H3 & H4).
      exists 6%nat, r'. cbn [replicate]. rewrite Hrun, HE. split_and!; [lia|done| |by rewrite H3|by rewrite H2|by rewrite H4]. rewrite H1. cbn. by rewrite !list_insert_insert_eq.
  - assert (He : head (hdr r) = tail (hdr r)) by (destruct Hemp as [?|(j & p & Hj & Hz)]; [done|exfalso; exact (proj2 (idle_not_held r j p _ HF Hj) Hz)]). rewrite (lookup_ge_None_2 (sent r)) by lia.
    exists 3%nat. eexists. split; [lia|]. cbn [replicate]. rewrite (claim_alone r ph i (Dequeue out) _ x Hi HF Hlt ltac:(done) Hx). cbn [cursor lag failed].
    rewrite (proj2 (Z.eqb_neq _ _)), (proj2 (Z.ltb_lt _ _)) by lia. cbn [run]. split; [done|]. cbn. by rewrite Hid.
Qed.
End Safe.

(** ** The claims, from set-up on *)

(** The capacity [mpmc_fifo_ring_slots_alloc] rounds to. *)
Lemma capacity_pow2 cap : 0 <= cap <= 2 ^ 61 -> exists k, 1 <= k <= 61 /\ Z.max (next_pow2 cap) MPMC_FIFO_RING_MIN_CAPACITY = 2 ^ k.
Proof.
  intros Hc. destruct (decide (cap <= 1)) as [H1|H1]; [exists 1; split; [lia|]; assert (cap = 0 \/ cap = 1) as [-> | ->] by lia; by vm_compute|].
  destruct (next_pow2_correct cap) as (m & Hm & -> & Hle & _); [unfold in_u; lia|]. destruct Hle as [Hle Hlt]; [lia|]. unfold MPMC_FIFO_RING_MIN_CAPACITY.
  destruct (decide (m = 0)) as [->|Hm0]; [exists 1; split; [lia|done]|]. exists m. assert (2 ^ 1 <= 2 ^ m) by (apply Z.pow_le_mono_r; lia). split; [|lia]. split; [lia|].
  destruct (decide (m <= 61)) as [?|Hn]; [done|]. assert (2 ^ 62 <= 2 ^ m) by (apply Z.pow_le_mono_r; lia). lia.
Qed.
Lemma mpmc_init_inv {T} (zero : T) k n : 1 <= k <= 61 -> inv k (mkRing (mkHdr (2 ^ k - 1) 0 0) ((fun i => mkSlot i zero) <$> seqZ 0 (2 ^ k)) (replicate n Idle) [] []) (Free <$> seqZ 0 (2 ^ k)).
Proof.
  intros Hk. pose proof (cap_range k ltac:(lia)) as Hcap. assert (Hidle : forall i p, replicate n (@Idle T) !! i = Some p -> p = Idle) by (intros i p Hp; by apply lookup_replicate in Hp as [-> _]).
  assert (Hcat : forall f : @pc T -> list Z, f Idle = [] -> concat (f <$> replicate n Idle) = []) by (intros f Hf; induction n as [|m IH]; [done|cbn; rewrite Hf; apply IH; intros i p Hp; by apply lookup_replicate in Hp as [-> _]]).
  split; cbn [hdr mask head tail slots pcs sent log]; rewrite ?length_fmap, ?length_seqZ, ?Hcat by done; try done; try lia.
  - intros i x f. rewrite !list_lookup_fmap. destruct (seqZ 0 (2 ^ k) !! i) as [z|] eqn:Hz; [|done]. intros [= <-] [= <-]. apply lookup_seqZ in Hz as [-> Hz]. split; cbn; [|lia].
    rewrite Z.add_0_l. apply Z.mod_small. lia.
  - by intros i p ->%Hidle.
  - intros i j p q z _ ->%Hidle. by intros _ ?%elem_of_nil.
  - intros j z. rewrite list_lookup_fmap. destruct (seqZ 0 (2 ^ k) !! j); by intros [|].
Qed.
Lemma ring_run {T} (zero : T) n cap stride sched : 0 <= cap <= 2 ^ 61 -> 0 <= stride -> stride * Z.max (next_pow2 cap) MPMC_FIFO_RING_MIN_CAPACITY < 2 ^ 64 ->
  Forall (fun '(i, _, _) => (i < n)%nat) sched -> Z.of_nat (length sched) <= 2 ^ 61 ->
  exists k r0 r ph, 1 <= k <= 61 /\ ring_init zero n true cap stride = Ok (Some r0) /\ run zero r0 sched = Ok r /\ inv k r ph /\ length (pcs r) = n /\ head (hdr r) + 2 ^ k <= 2 ^ 62 /\ ring_capacity r = 2 ^ k.
Proof.
  intros Hc Hs Hst HF Hl. destruct (capacity_pow2 cap Hc) as (k & Hk & Hcap). pose proof (cap_range k ltac:(lia)) as Hr. assert (Hk61 : 2 ^ k <= 2 ^ 61) by (apply Z.pow_le_mono_r; lia).
  exists k. unfold ring_init, mpmc_fifo_ring_slots_alloc. cbn [negb]. cbv zeta. rewrite Hcap in *. rewrite wrap_small, Z.ltb_irrefl by (unfold in_u; lia || (split; [apply Z.mul_nonneg_nonneg; lia|lia])). rewrite bind_Ok.
  eexists. destruct (run_ok zero k ltac:(lia) sched _ _ (mpmc_init_inv zero k n Hk)) as (r & ph & HE & Hi & Hlen & Hh); [cbn [hdr head]; lia|by cbn; rewrite length_replicate|].
  exists r, ph. split_and!; [lia|lia|done|done|done|rewrite Hlen; cbn; apply length_replicate|cbn [hdr head] in Hh; lia|]. unfold ring_capacity. rewrite (iv_mask _ _ _ Hi), wrap_small by (unfold in_u; lia). lia.
Qed.

(** C4: Under every interleaving of the atomic accesses of any number of agents
    that enqueue, dequeue and drain (up to 2^61 steps), no step faults and: what a
    dequeue returns is the value of the enqueue that claimed the same position;
    every position below the head was claimed by one enqueue and every position
    below the tail by one dequeue or drain, which has returned or is under way, so
    that no value is lost or given out twice; at most the capacity is between
    tail and head; and no two agents are at the same slot. *)
Theorem mpmc_fifo_ring_safe {T} (zero : T) n cap stride sched : 0 <= cap <= 2 ^ 61 -> 0 <= stride -> stride * Z.max (next_pow2 cap) MPMC_FIFO_RING_MIN_CAPACITY < 2 ^ 64 ->
  Forall (fun '(i, _, _) => (i < n)%nat) sched -> Z.of_nat (length sched) <= 2 ^ 61 -> exists r0 r, ring_init zero n true cap stride = Ok (Some r0) /\ run zero r0 sched = Ok r /\
  (forall q v, Dequeued q (Some v) ∈ log r -> sent r !! Z.to_nat q = Some v) /\ (forall q v, Enqueued q v ∈ log r -> sent r !! Z.to_nat q = Some v) /\
  concat (made <$> log r) ++ concat (makes <$> pcs r) ≡ₚ seqZ 0 (head (hdr r)) /\ concat (taken <$> log r) ++ concat (takes <$> pcs r) ≡ₚ seqZ 0 (tail (hdr r)) /\
  head (hdr r) = Z.of_nat (length (sent r)) /\ 0 <= tail (hdr r) <= head (hdr r) /\ head (hdr r) <= tail (hdr r) + ring_capacity r /\
  (forall i j p p' q q', i <> j -> pcs r !! i = Some p -> pcs r !! j = Some p' -> q ∈ holds p -> q' ∈ holds p' -> index r q <> index r q').
Proof.
  intros Hc Hs Hst HF Hl. destruct (ring_run zero n cap stride sched Hc Hs Hst HF Hl) as (k & r0 & r & ph & Hk & HI & HE & Hi & _ & _ & Hcap). exists r0, r. pose proof (iv_log _ _ _ Hi) as HL. rewrite list.Forall_forall in HL. pose proof (iv_tail _ _ _ Hi).
  split_and!; try done; [intros q v Hq; exact (HL _ Hq v eq_refl)|intros q v Hq; exact (HL _ Hq)|exact (iv_made _ _ _ Hi)|exact (iv_taken _ _ _ Hi)|exact (iv_head _ _ _ Hi)|lia|lia|rewrite Hcap; lia|].
  intros i j p p' q q' Hne Hp Hp' Hq Hq'. pose proof (iv_pc _ _ _ Hi i p Hp) as Hok. pose proof (iv_pc _ _ _ Hi j p' Hp') as Hok'. pose proof (held_pos k ltac:(lia) r ph p q Hi Hok Hq). pose proof (held_pos k ltac:(lia) r ph p' q' Hi Hok' Hq').
  rewrite !(index_ix k ltac:(lia) r ph) by (done || lia). apply (held_ix k r ph p' q' q); try done; [|exact (holds_phase k r ph p q Hok Hq)]. by apply (iv_own _ _ _ Hi i j p p').
Qed.
Lemma mpmc_fifo_ring_safe_witness : exists r0 r, ring_init 0 2 true 2 16 = Ok (Some r0) /\
  run 0 r0 ((fun i => (i `mod` 2, if (i `mod` 2 =? 0) then Enqueue (Z.of_nat i) else Dequeue true, false)%nat) <$> List.seq 0 30) = Ok r /\
  (forall q v, Dequeued q (Some v) ∈ log r -> sent r !! Z.to_nat q = Some v) /\ (forall q v, Enqueued q v ∈ log r -> sent r !! Z.to_nat q = Some v).
Proof.
  destruct (mpmc_fifo_ring_safe 0 2 2 16 ((fun i => (i `mod` 2, if (i `mod` 2 =? 0) then Enqueue (Z.of_nat i) else Dequeue true, false)%nat) <$> List.seq 0 30)) as (r0 & r & H1 & H2 & H3 & H4 & _).
  - lia.
  - lia.
  - by vm_compute.
  - apply (bool_decide_unpack _). by vm_compute.
  - by vm_compute.
  - by exists r0, r.
Defined.

(** A call is refused only for a reason that holds when it reads the slot: an
    enqueue returns false only if the ring is full, or the slot it needs is still
    being emptied by a dequeue or drain under way; a dequeue returns false only if
    the ring is empty, or the oldest value is still being written by an enqueue
    under way. *)
Theorem mpmc_fifo_ring_refuses {T} (zero : T) n cap stride sched i c sp r0 r r' e : 0 <= cap <= 2 ^ 61 -> 0 <= stride -> stride * Z.max (next_pow2 cap) MPMC_FIFO_RING_MIN_CAPACITY < 2 ^ 64 ->
  Forall (fun '(i, _, _) => (i < n)%nat) sched -> Z.of_nat (length sched) <= 2 ^ 61 -> ring_init zero n true cap stride = Ok (Some r0) -> run zero r0 sched = Ok r ->
  (i < n)%nat -> exec zero r i c sp = Ok r' -> log r' = log r ++ [e] ->
  (e = Full -> head (hdr r) = tail (hdr r) + ring_capacity r \/ exists j p, pcs r !! j = Some p /\ head (hdr r) - ring_capacity r ∈ takes p) /\
  (e = Empty -> head (hdr r) = tail (hdr r) \/ exists j p, pcs r !! j = Some p /\ tail (hdr r) ∈ makes p).
Proof.
  intros Hc Hs Hst HF Hl HI HR Hlt HE HL. destruct (ring_run zero n cap stride sched Hc Hs Hst HF Hl) as (k & r0' & r1 & ph & Hk & HI' & HE' & Hi & Hlen & _ & Hcap).
  rewrite HI in HI'. injection HI' as <-. rewrite HR in HE'. injection HE' as <-. rewrite Hcap. rewrite <- Hlen in Hlt.
  by apply (refuses_ok zero k ltac:(lia) r ph i c sp r' e).
Qed.
Lemma mpmc_fifo_ring_refuses_witness : exists r0 r r', ring_init 0 1 true 2 8 = Ok (Some r0) /\ run 0 r0 (replicate 14 (0%nat, Enqueue 7, false)) = Ok r /\
  exec 0 r 0 (Enqueue 7) false = Ok r' /\ log r' = log r ++ [Full] /\ (head (hdr r) = tail (hdr r) + ring_capacity r \/ exists j p, pcs r !! j = Some p /\ head (hdr r) - ring_capacity r ∈ takes p).
Proof.
  eexists _, _, _. split; [vm_compute; reflexivity|]. split; [vm_compute; reflexivity|]. split; [vm_compute; reflexivity|]. split; [vm_compute; reflexivity|].
  eapply (mpmc_fifo_ring_refuses 0 1 2 8 (replicate 14 (0%nat, Enqueue 7, false)) 0 (Enqueue 7) false _ _ _ Full); [lia|lia|by vm_compute| |by vm_compute|vm_compute; reflexivity|vm_compute; reflexivity|lia|vm_compute; reflexivity|reflexivity|done].
  apply (bool_decide_unpack _). by vm_compute.
Defined.

(** C34: When no call is under way, a call alone ends within seven steps and behaves
    as on a bounded queue of the values between tail and head: an enqueue appends
    its value exactly if there is room, a dequeue removes and returns the oldest
    value exactly if there is one. *)
Theorem mpmc_fifo_ring_alone {T} (zero : T) n cap stride sched i r0 r : 0 <= cap <= 2 ^ 61 -> 0 <= stride -> stride * Z.max (next_pow2 cap) MPMC_FIFO_RING_MIN_CAPACITY < 2 ^ 64 ->
  Forall (fun '(i, _, _) => (i < n)%nat) sched -> Z.of_nat (length sched) <= 2 ^ 61 -> ring_init zero n true cap stride = Ok (Some r0) -> run zero r0 sched = Ok r ->
  (i < n)%nat -> Forall (fun p => p = Idle) (pcs r) -> let queue r := drop (Z.to_nat (tail (hdr r))) (sent r) in
  (forall v, exists m r', (m <= 6)%nat /\ run zero r (replicate m (i, Enqueue v, false)) = Ok r' /\ pcs r' = pcs r /\
    if Z.of_nat (length (queue r)) <? ring_capacity r then queue r' = queue r ++ [v] /\ log r' = log r ++ [Enqueued (head (hdr r)) v]
    else queue r' = queue r /\ log r' = log r ++ [Full]) /\
  (forall out, exists m r', (m <= 7)%nat /\ run zero r (replicate m (i, Dequeue out, false)) = Ok r' /\ pcs r' = pcs r /\
    match queue r with
    | v :: q => queue r' = q /\ log r' = log r ++ [Dequeued (tail (hdr r)) (if out then Some v else None)]
    | [] => queue r' = [] /\ log r' = log r ++ [Empty]
    end).
Proof.
  intros Hc Hs Hst HF Hl HI HR Hlt Hidle queue. destruct (ring_run zero n cap stride sched Hc Hs Hst HF Hl) as (k & r0' & r1 & ph & Hk & HI' & HE' & Hi & Hlen & Hb & Hcap).
  rewrite HI in HI'. injection HI' as <-. rewrite HR in HE'. injection HE' as <-. rewrite Hcap. rewrite <- Hlen in Hlt. pose proof (iv_tail _ _ _ Hi) as Ht. pose proof (iv_head _ _ _ Hi) as Hh. unfold queue. split.
  - intros v. destruct (enqueue_alone zero k ltac:(lia) r ph i v) as (m & r' & Hm & HE & Hp & Htl & Hres); [done|lia|done|done|]. exists m, r'. split_and!; try done.
    replace (Z.of_nat (length (drop (Z.to_nat (tail (hdr r))) (sent r)))) with (head (hdr r) - tail (hdr r)) by (rewrite length_drop; lia). rewrite Htl.
    destruct (head (hdr r) - tail (hdr r) <? 2 ^ k); destruct Hres as [-> ->]; [|done]. split; [|done]. apply drop_app_le. lia.
  - intros out. destruct (dequeue_alone zero k ltac:(lia) r ph i out) as (m & r' & Hm & HE & Hp & Hst' & Hres); [done|lia|done|done|]. exists m, r'. split_and!; try done. rewrite Hst'.
    destruct (sent r !! Z.to_nat (tail (hdr r))) as [v|] eqn:Hv.
    + destruct Hres as [-> ->]. rewrite (drop_S _ _ _ Hv). split; [|done]. f_equal. lia.
    + destruct Hres as [-> ->]. rewrite drop_ge by (by apply lookup_ge_None). done.
Qed.
Lemma mpmc_fifo_ring_alone_witness : exists r0 m r', ring_init 0 2 true 2 8 = Ok (Some r0) /\ (m <= 6)%nat /\ run 0 r0 (replicate m (1%nat, Enqueue 9, false)) = Ok r' /\
  drop (Z.to_nat (tail (hdr r'))) (sent r') = [9].
Proof.
  eexists. destruct (proj1 (mpmc_fifo_ring_alone 0 2 2 8 [] 1 _ _ ltac:(lia) ltac:(lia) ltac:(by vm_compute) ltac:(constructor) ltac:(by vm_compute) ltac:(vm_compute; reflexivity) ltac:(reflexivity) ltac:(lia) ltac:(by repeat constructor)) 9) as (m & r' & Hm & HE & _ & Hq).
  exists m, r'. split_and!; [vm_compute; reflexivity|done|exact HE|]. vm_compute in Hq. apply Hq.
Defined.
