(* ===== verification/ChaCha.v ===== *)
(** * ChaCha20

    [kernel/crypto/chacha20.c] over the byte memory of [CMem.v]; the arrays local
    to a function are lists.  [Module Rfc8439] is the reference: the state is a
    matrix of four rows, a column round works on the four columns at once, a
    diagonal round is a column round between two rotations of the rows, and
    arithmetic is that of the integers modulo 2^32. *)

From S2P Require Import Prelude CMem.

Definition ROTL32 (v n : Z) : Z := Z.lor (u32 (Z.shiftl v n)) (Z.shiftr v (32 - n)).
Definition CHACHA20_BLOCK_SIZE : Z := 64.

(** The macro on the four words it is given. *)
Definition QR (q : Z * Z * Z * Z) : Z * Z * Z * Z :=
  let '(a, b, c, d) := q in
  let a := u32 (a + b) in
  let d := ROTL32 (Z.lxor d a) 16 in
  let c := u32 (c + d) in
  let b := ROTL32 (Z.lxor b c) 12 in
  let a := u32 (a + b) in
  let d := ROTL32 (Z.lxor d a) 8 in
  let c := u32 (c + d) in
  let b := ROTL32 (Z.lxor b c) 7 in
  (a, b, c, d).

(** The string [expand 32-byte k]. *)
Definition sigma : list Z :=
  [101; 120; 112; 97; 110; 100; 32; 51; 50; 45; 98; 121; 116; 101; 32; 107].

Definition word_le (b0 b1 b2 b3 : Z) : Z :=
  Z.lor (Z.lor (Z.lor b0 (u32 (Z.shiftl b1 8))) (u32 (Z.shiftl b2 16))) (u32 (Z.shiftl b3 24)).
Definition load32_le (m : mem) (src : Z) : outcome Z :=
  b0 ← rd m src; b1 ← rd m (src + 1); b2 ← rd m (src + 2); b3 ← rd m (src + 3);
  Ok (word_le b0 b1 b2 b3).
(** The four bytes that are written. *)
Definition store32_le (val : Z) : list Z :=
  [Z.land val 0xff; Z.land (Z.shiftr val 8) 0xff; Z.land (Z.shiftr val 16) 0xff; Z.land (Z.shiftr val 24) 0xff].

(** The words of an array of bytes. *)
Fixpoint words_le (l : list Z) : list Z :=
  match l with b0 :: b1 :: b2 :: b3 :: l => word_le b0 b1 b2 b3 :: words_le l | _ => [] end.
Fixpoint load_words (m : mem) (src : Z) (n : nat) : outcome (list Z) :=
  match n with
  | O => Ok []
  | S n => w ← load32_le m src; l ← load_words m (src + 4) n; Ok (w :: l)
  end.
Definition chacha20_init_state (m : mem) (key nonce counter : Z) : outcome (list Z) :=
  k ← load_words m key 8;
  n ← load_words m nonce 3;
  Ok (words_le sigma ++ k ++ [counter] ++ n).

(** [QR(x[i], x[j], x[k], x[l])] with the quarter round [q]. *)
Definition qr_at (q : Z * Z * Z * Z -> Z * Z * Z * Z) (x : list Z) (i j k l : nat) : list Z :=
  let '(a, b, c, d) := q (x !!! i, x !!! j, x !!! k, x !!! l) in
  <[i := a]> (<[j := b]> (<[k := c]> (<[l := d]> x))).
Definition double_round (q : Z * Z * Z * Z -> Z * Z * Z * Z) (x : list Z) : list Z :=
  let x := qr_at q x 0 4 8 12 in
  let x := qr_at q x 1 5 9 13 in
  let x := qr_at q x 2 6 10 14 in
  let x := qr_at q x 3 7 11 15 in
  let x := qr_at q x 0 5 10 15 in
  let x := qr_at q x 1 6 11 12 in
  let x := qr_at q x 2 7 8 13 in
  qr_at q x 3 4 9 14.
(** The bytes that are written to [output]. *)
Definition chacha20_block (input : list Z) : list Z :=
  let x := Nat.iter 10 (double_round QR) input in
  concat (store32_le <$> zip_with (fun a b => u32 (a + b)) x input).

(** [out[i] = in[i] ^ keystream[i]] for the bytes [ks] of the key stream. *)
Fixpoint xor_bytes (m : mem) (inp out : Z) (ks : list Z) : outcome mem :=
  match ks with
  | [] => Ok m
  | k :: ks => b ← rd m inp; m ← wr m out (Z.lxor b k); xor_bytes m (inp + 1) (out + 1) ks
  end.
Definition encrypt_body (key nonce inp out : Z) (s : mem * Z * Z * Z) : outcome (mem * Z * Z * Z + mem) :=
  let '(m, counter, offset, len) := s in
  if 0 <? len then
    state ← chacha20_init_state m key nonce counter;
    let keystream := chacha20_block state in
    let counter := u32 (counter + 1) in
    let block_len := Z.min len CHACHA20_BLOCK_SIZE in
    m ← xor_bytes m (inp + offset) (out + offset) (take (Z.to_nat block_len) keystream);
    Ok (inl (m, counter, u64 (offset + block_len), u64 (len - block_len)))
  else Ok (inr m).
Definition chacha20_encrypt (m : mem) (key nonce counter inp out len : Z) : outcome mem :=
  loop (S (Z.to_nat len)) (encrypt_body key nonce inp out) (m, counter, 0, len).

(** ** The reference *)

Module Rfc8439.
Definition add (a b : Z) : Z := (a + b) mod 2 ^ 32.
Definition rotl (n x : Z) : Z := (x * 2 ^ n) mod 2 ^ 32 + x / 2 ^ (32 - n).
Definition quarter (q : Z * Z * Z * Z) : Z * Z * Z * Z :=
  let '(a, b, c, d) := q in
  let a := add a b in let d := rotl 16 (Z.lxor d a) in
  let c := add c d in let b := rotl 12 (Z.lxor b c) in
  let a := add a b in let d := rotl 8 (Z.lxor d a) in
  let c := add c d in let b := rotl 7 (Z.lxor b c) in
  (a, b, c, d).

(** The four rows. *)
Definition matrix : Type := list Z * list Z * list Z * list Z.
Definition column_round (q : Z * Z * Z * Z -> Z * Z * Z * Z) (x : matrix) : matrix :=
  let '(A, B, C, D) := x in
  let l := q <$> zip (zip (zip A B) C) D in
  (l.*1.*1.*1, l.*1.*1.*2, l.*1.*2, l.*2).
Definition diagonal_round (q : Z * Z * Z * Z -> Z * Z * Z * Z) (x : matrix) : matrix :=
  let '(A, B, C, D) := x in
  let '(A, B, C, D) := column_round q (A, rotate 1 B, rotate 2 C, rotate 3 D) in
  (A, rotate 3 B, rotate 2 C, rotate 1 D).
Definition rounds (q : Z * Z * Z * Z -> Z * Z * Z * Z) (x : matrix) : matrix :=
  Nat.iter 10 (fun x => diagonal_round q (column_round q x)) x.

(** Little-endian words and bytes. *)
Definition of_bytes (b0 b1 b2 b3 : Z) : Z := b0 + 2 ^ 8 * b1 + 2 ^ 16 * b2 + 2 ^ 24 * b3.
Fixpoint words (l : list Z) : list Z :=
  match l with b0 :: b1 :: b2 :: b3 :: l => of_bytes b0 b1 b2 b3 :: words l | _ => [] end.
Definition to_bytes (w : Z) : list Z := (fun i => w / 2 ^ (8 * i) mod 2 ^ 8) <$> [0; 1; 2; 3].

Definition initial (key nonce : list Z) (counter : Z) : matrix :=
  (words sigma, words (take 16 key), words (drop 16 key), counter mod 2 ^ 32 :: words nonce).
Definition block (key nonce : list Z) (counter : Z) : list Z :=
  let '(A, B, C, D) := initial key nonce counter in
  let '(A', B', C', D') := rounds quarter (A, B, C, D) in
  concat (to_bytes <$> zip_with add (A' ++ B' ++ C' ++ D') (A ++ B ++ C ++ D)).

(** Byte [i] of the key stream that begins with block [counter]. *)
Definition keystream (key nonce : list Z) (counter : Z) (i : nat) : Z :=
  block key nonce (counter + Z.of_nat i `div` 64) !!! (i `mod` 64)%nat.
Definition cipher (key nonce : list Z) (counter : Z) (l : list Z) : list Z :=
  imap (fun i b => Z.lxor b (keystream key nonce counter i)) l.
End Rfc8439.

(** ** Words *)

Lemma lor_shift n a b : 0 <= n -> in_u n a -> Z.lor a (Z.shiftl b n) = a + 2 ^ n * b.
Proof.
  intros Hn Ha. rewrite lor_add_disjoint; [rewrite Z.shiftl_mul_pow2 by done; lia|].
  apply Z.bits_inj'. intros i Hi. zbits_norm. destruct (Z.ltb_spec i n).
  - zbits_neg. by rewrite andb_false_r.
  - by rewrite (testbit_small n a i) by (done || lia).
Qed.
Lemma word_le_of_bytes b0 b1 b2 b3 : in_u 8 b0 -> in_u 8 b1 -> in_u 8 b2 -> in_u 8 b3 ->
  word_le b0 b1 b2 b3 = Rfc8439.of_bytes b0 b1 b2 b3 /\ in_u 32 (word_le b0 b1 b2 b3).
Proof.
  unfold in_u. intros H0 H1 H2 H3. unfold word_le, Rfc8439.of_bytes.
  rewrite !(wrap_small 32) by (unfold in_u; rewrite Z.shiftl_mul_pow2 by done; lia).
  rewrite (lor_shift 8), (lor_shift 16), (lor_shift 24) by (unfold in_u; lia). split; [done|lia].
Qed.
Lemma words_le_words l : Forall (in_u 8) l -> words_le l = Rfc8439.words l /\ Forall (in_u 32) (words_le l).
Proof.
  revert l. fix IH 1. intros [|b0 [|b1 [|b2 [|b3 l]]]] H; try (split; [done|constructor]).
  apply list.Forall_cons in H as [H0 H]. apply list.Forall_cons in H as [H1 H].
  apply list.Forall_cons in H as [H2 H]. apply list.Forall_cons in H as [H3 H].
  destruct (word_le_of_bytes b0 b1 b2 b3) as [E ?]; try done. destruct (IH l H) as [IHe IHf].
  cbn [words_le Rfc8439.words]. rewrite E, IHe in *. split; [done|]. by constructor.
Qed.

Lemma rotl_ROTL32 n x : 0 < n < 32 -> in_u 32 x -> ROTL32 x n = Rfc8439.rotl n x /\ in_u 32 (ROTL32 x n).
Proof.
  intros Hn Hx. unfold ROTL32, Rfc8439.rotl.
  assert (0 <= Z.shiftr x (32 - n) < 2 ^ n) as Hs.
  { rewrite Z.shiftr_div_pow2 by lia. unfold in_u in Hx.
    assert (2 ^ 32 = 2 ^ (32 - n) * 2 ^ n) as E by (rewrite <- Z.pow_add_r by lia; f_equal; lia).
    split; [apply Z.div_pos; lia|apply Z.div_lt_upper_bound; lia]. }
  split.
  - rewrite lor_add_disjoint.
    + unfold wrap. by rewrite Z.shiftl_mul_pow2, Z.shiftr_div_pow2 by lia.
    + apply Z.bits_inj'. intros i Hi. zbits_norm. destruct (Z.ltb_spec i n).
      * rewrite (Z.testbit_neg_r x (i - n)) by lia. zbits_norm. done.
      * rewrite (testbit_small 32 x (i + (32 - n))) by (done || lia). zbits_norm. done.
  - apply lor_range; [done|by apply wrap_range|]. apply shiftr_range; [done|lia|done].
Qed.

Definition word4 (q : Z * Z * Z * Z) : Prop := in_u 32 q.1.1.1 /\ in_u 32 q.1.1.2 /\ in_u 32 q.1.2 /\ in_u 32 q.2.
Lemma quarter_QR q : word4 q -> QR q = Rfc8439.quarter q /\ word4 (QR q).
Proof.
  destruct q as [[[a b] c] d]. unfold word4, QR, Rfc8439.quarter, Rfc8439.add. cbn [fst snd]. intros (Ha & Hb & Hc & Hd). fold (u32 (a + b)).
  set (a1 := u32 (a + b)). assert (in_u 32 a1) as Ha1 by by apply wrap_range.
  destruct (rotl_ROTL32 16 (Z.lxor d a1)) as [<- Hd1]; [lia|by apply lxor_range|]. set (d1 := ROTL32 (Z.lxor d a1) 16) in *.
  fold (u32 (c + d1)). set (c1 := u32 (c + d1)). assert (in_u 32 c1) as Hc1 by by apply wrap_range.
  destruct (rotl_ROTL32 12 (Z.lxor b c1)) as [<- Hb1]; [lia|by apply lxor_range|]. set (b1 := ROTL32 (Z.lxor b c1) 12) in *.
  fold (u32 (a1 + b1)). set (a2 := u32 (a1 + b1)). assert (in_u 32 a2) as Ha2 by by apply wrap_range.
  destruct (rotl_ROTL32 8 (Z.lxor d1 a2)) as [<- Hd2]; [lia|by apply lxor_range|]. set (d2 := ROTL32 (Z.lxor d1 a2) 8) in *.
  fold (u32 (c1 + d2)). set (c2 := u32 (c1 + d2)). assert (in_u 32 c2) as Hc2 by by apply wrap_range.
  destruct (rotl_ROTL32 7 (Z.lxor b1 c2)) as [<- Hb2]; [lia|by apply lxor_range|]. done.
Qed.

(** ** Rounds *)

Definition flat (x : Rfc8439.matrix) : list Z := let '(A, B, C, D) := x in A ++ B ++ C ++ D.
Definition full (x : Rfc8439.matrix) : Prop :=
  let '(A, B, C, D) := x in length A = 4%nat /\ length B = 4%nat /\ length C = 4%nat /\ length D = 4%nat.

Lemma qr_at_eq q x i j k l a b c d : q (x !!! i, x !!! j, x !!! k, x !!! l) = (a, b, c, d) ->
  qr_at q x i j k l = <[i := a]> (<[j := b]> (<[k := c]> (<[l := d]> x))).
Proof. unfold qr_at. by intros ->. Qed.
(** The next quarter round, of which [E] gives the result. *)
Ltac qr_step E :=
  match goal with |- context [qr_at ?q (?a :: ?x) ?i ?j ?k ?l] => rewrite (qr_at_eq q (a :: x) i j k l _ _ _ _ E) end;
  cbn [insert list_insert].

Lemma column_round_eq q a0 a1 a2 a3 b0 b1 b2 b3 c0 c1 c2 c3 d0 d1 d2 d3 r0 r1 r2 r3 :
  q (a0, b0, c0, d0) = r0 -> q (a1, b1, c1, d1) = r1 -> q (a2, b2, c2, d2) = r2 -> q (a3, b3, c3, d3) = r3 ->
  Rfc8439.column_round q ([a0; a1; a2; a3], [b0; b1; b2; b3], [c0; c1; c2; c3], [d0; d1; d2; d3]) =
  ([r0; r1; r2; r3].*1.*1.*1, [r0; r1; r2; r3].*1.*1.*2, [r0; r1; r2; r3].*1.*2, [r0; r1; r2; r3].*2).
Proof. by intros <- <- <- <-. Qed.

(** On an array of sixteen words the eight quarter rounds are a column round and a
    diagonal round, for any quarter round. *)
Lemma double_round_matrix q x : full x ->
  double_round q (flat x) = flat (Rfc8439.diagonal_round q (Rfc8439.column_round q x)) /\ full (Rfc8439.diagonal_round q (Rfc8439.column_round q x)).
Proof.
  destruct x as [[[A B] C] D]. intros (HA & HB & HC & HD).
  destruct A as [|a0 [|a1 [|a2 [|a3 [|? ?]]]]]; try done. destruct B as [|b0 [|b1 [|b2 [|b3 [|? ?]]]]]; try done.
  destruct C as [|c0 [|c1 [|c2 [|c3 [|? ?]]]]]; try done. destruct D as [|d0 [|d1 [|d2 [|d3 [|? ?]]]]]; try done.
  destruct (q (a0, b0, c0, d0)) as [[[x0 x4] x8] x12] eqn:E0. destruct (q (a1, b1, c1, d1)) as [[[x1 x5] x9] x13] eqn:E1.
  destruct (q (a2, b2, c2, d2)) as [[[x2 x6] x10] x14] eqn:E2. destruct (q (a3, b3, c3, d3)) as [[[x3 x7] x11] x15] eqn:E3.
  destruct (q (x0, x5, x10, x15)) as [[[? ?] ?] ?] eqn:E4. destruct (q (x1, x6, x11, x12)) as [[[? ?] ?] ?] eqn:E5.
  destruct (q (x2, x7, x8, x13)) as [[[? ?] ?] ?] eqn:E6. destruct (q (x3, x4, x9, x14)) as [[[? ?] ?] ?] eqn:E7.
  unfold double_round, flat. cbv zeta. cbn [app]. qr_step E0. qr_step E1. qr_step E2. qr_step E3. qr_step E4. qr_step E5. qr_step E6. qr_step E7.
  rewrite (column_round_eq _ _ _ _ _ _ _ _ _ _ _ _ _ _ _ _ _ _ _ _ _ E0 E1 E2 E3). cbn [fmap list_fmap fst snd]. unfold Rfc8439.diagonal_round.
  change (rotate 1 [x4; x5; x6; x7]) with [x5; x6; x7; x4]. change (rotate 2 [x8; x9; x10; x11]) with [x10; x11; x8; x9].
  change (rotate 3 [x12; x13; x14; x15]) with [x15; x12; x13; x14].
  rewrite (column_round_eq _ _ _ _ _ _ _ _ _ _ _ _ _ _ _ _ _ _ _ _ _ E4 E5 E6 E7). by split.
Qed.

Definition wordm (x : Rfc8439.matrix) : Prop := Forall (in_u 32) (flat x).
(** On words the code's quarter round is the reference's. *)
Lemma column_round_words x : full x -> wordm x ->
  Rfc8439.column_round QR x = Rfc8439.column_round Rfc8439.quarter x /\ wordm (Rfc8439.column_round QR x) /\ full (Rfc8439.column_round QR x).
Proof.
  destruct x as [[[A B] C] D]. intros (HA & HB & HC & HD) Hw. unfold wordm, flat in Hw. rewrite !list.Forall_app in Hw. destruct Hw as (WA & WB & WC & WD).
  assert (Forall word4 (zip (zip (zip A B) C) D)) as Hz.
  { apply list.Forall_forall. intros [[[a b] c] d] Hin. apply elem_of_zip_l in Hin as Hin'. apply elem_of_zip_r in Hin as Hd.
    apply elem_of_zip_l in Hin' as Hin''. apply elem_of_zip_r in Hin' as Hc. apply elem_of_zip_l in Hin'' as Ha. apply elem_of_zip_r in Hin'' as Hb.
    rewrite list.Forall_forall in WA, WB, WC, WD. split_and!; cbn; auto. }
  assert (QR <$> zip (zip (zip A B) C) D = Rfc8439.quarter <$> zip (zip (zip A B) C) D) as E.
  { apply list_fmap_ext. intros i q Hq. apply quarter_QR. rewrite list.Forall_forall in Hz. apply Hz. by apply list_elem_of_lookup_2 in Hq. }
  unfold Rfc8439.column_round. rewrite E. split; [done|]. rewrite <- E.
  assert (Forall word4 (QR <$> zip (zip (zip A B) C) D)) as Hq.
  { apply Forall_fmap. apply (list.Forall_impl _ _ _ Hz). intros q Hq. by apply quarter_QR. }
  assert (length (QR <$> zip (zip (zip A B) C) D) = 4%nat) as Hl.
  { rewrite length_fmap, !length_zip_with. lia. }
  set (l := QR <$> _) in *. split.
  - unfold wordm, flat. rewrite !list.Forall_app, !Forall_fmap. split_and!; apply (list.Forall_impl _ _ _ Hq); intros q (? & ? & ? & ?); done.
  - unfold full. by rewrite !length_fmap.
Qed.
Lemma diagonal_round_words x : full x -> wordm x ->
  Rfc8439.diagonal_round QR x = Rfc8439.diagonal_round Rfc8439.quarter x /\ wordm (Rfc8439.diagonal_round QR x) /\ full (Rfc8439.diagonal_round QR x).
Proof.
  destruct x as [[[A B] C] D]. intros (HA & HB & HC & HD) Hw. unfold wordm, flat in Hw. rewrite !list.Forall_app in Hw. destruct Hw as (WA & WB & WC & WD).
  assert (forall n l, Forall (in_u 32) l -> Forall (in_u 32) (rotate n l)) as Hr.
  { intros n l Hl. apply list.Forall_app. split; [by apply Forall_drop|by apply Forall_take]. }
  destruct (column_round_words (A, rotate 1 B, rotate 2 C, rotate 3 D)) as (E & Hw & Hf).
  { unfold full. by rewrite !length_rotate. }
  { unfold wordm, flat. rewrite !list.Forall_app. auto. }
  unfold Rfc8439.diagonal_round. rewrite <- E. split; [done|]. destruct (Rfc8439.column_round QR _) as [[[A' B'] C'] D'].
  unfold wordm, flat in *. rewrite !list.Forall_app in *. unfold full in *. rewrite !length_rotate. split; [|done].
  destruct Hw as (? & ? & ? & ?). auto.
Qed.
Lemma rounds_words n x : full x -> wordm x ->
  Nat.iter n (double_round QR) (flat x) = flat (Nat.iter n (fun x => Rfc8439.diagonal_round Rfc8439.quarter (Rfc8439.column_round Rfc8439.quarter x)) x) /\
  full (Nat.iter n (fun x => Rfc8439.diagonal_round Rfc8439.quarter (Rfc8439.column_round Rfc8439.quarter x)) x) /\
  wordm (Nat.iter n (fun x => Rfc8439.diagonal_round Rfc8439.quarter (Rfc8439.column_round Rfc8439.quarter x)) x).
Proof.
  intros Hf Hw. induction n as [|n (IH & IHf & IHw)]; [done|]. rewrite !Nat.iter_succ, IH. set (y := Nat.iter n _ x) in *.
  destruct (column_round_words y IHf IHw) as (E & Hcw & Hcf). destruct (diagonal_round_words _ Hcf Hcw) as (E' & Hdw & Hdf).
  destruct (double_round_matrix QR y IHf) as [-> _]. rewrite E', E in *. done.
Qed.

(** ** Blocks *)

Lemma words_app k : forall l1 l2, length l1 = (4 * k)%nat -> Rfc8439.words (l1 ++ l2) = Rfc8439.words l1 ++ Rfc8439.words l2.
Proof.
  induction k as [|k IH]; intros l1 l2 Hl; [by destruct l1|].
  destruct l1 as [|b0 [|b1 [|b2 [|b3 l1]]]]; cbn [length] in Hl; try lia. cbn [app Rfc8439.words]. rewrite IH by lia. done.
Qed.
Lemma length_words k : forall l, length l = (4 * k)%nat -> length (Rfc8439.words l) = k.
Proof.
  induction k as [|k IH]; intros l Hl; [by destruct l|].
  destruct l as [|b0 [|b1 [|b2 [|b3 l]]]]; cbn [length] in Hl; try lia. cbn [length Rfc8439.words]. rewrite IH by lia. done.
Qed.
Lemma store32_le_bytes w : store32_le w = Rfc8439.to_bytes w.
Proof.
  unfold store32_le, Rfc8439.to_bytes. cbn [fmap list_fmap].
  change 0xff with (Z.ones 8). rewrite !Z.land_ones, !Z.shiftr_div_pow2 by done. by rewrite Z.div_1_r.
Qed.

Definition byte_array (n : nat) (l : list Z) : Prop := length l = n /\ Forall (in_u 8) l.
Lemma initial_words key nonce counter : byte_array 32 key -> byte_array 12 nonce -> in_u 32 counter ->
  words_le sigma ++ words_le key ++ [counter] ++ words_le nonce = flat (Rfc8439.initial key nonce counter) /\
  full (Rfc8439.initial key nonce counter) /\ wordm (Rfc8439.initial key nonce counter).
Proof.
  intros [Hk Bk] [Hn Bn] Hc. destruct (words_le_words key Bk) as [Ek Wk]. destruct (words_le_words nonce Bn) as [En Wn].
  assert (words_le key = Rfc8439.words (take 16 key) ++ Rfc8439.words (drop 16 key)) as E.
  { rewrite Ek, <- (words_app 4) by (rewrite length_take; lia). by rewrite take_drop. }
  assert (words_le sigma ++ words_le key ++ [counter] ++ words_le nonce = flat (Rfc8439.initial key nonce counter)) as EQ.
  { unfold flat, Rfc8439.initial. rewrite E, En. fold (u32 counter). rewrite (wrap_small 32) by done. by rewrite <- app_assoc. }
  split; [done|]. split.
  - unfold full, Rfc8439.initial. cbn [length]. rewrite !(length_words 4), (length_words 3) by (rewrite ?length_take, ?length_drop; done || lia). done.
  - unfold wordm. rewrite <- EQ, !list.Forall_app. split_and!; [|done|by apply list.Forall_singleton|done].
    apply words_le_words. apply (bool_decide_unpack _). by vm_compute.
Qed.
Lemma chacha20_block_rfc key nonce counter : byte_array 32 key -> byte_array 12 nonce -> in_u 32 counter ->
  chacha20_block (words_le sigma ++ words_le key ++ [counter] ++ words_le nonce) = Rfc8439.block key nonce counter.
Proof.
  intros Hk Hn Hc. destruct (initial_words key nonce counter Hk Hn Hc) as (-> & Hf & Hw).
  unfold chacha20_block, Rfc8439.block, Rfc8439.rounds. destruct (rounds_words 10 _ Hf Hw) as (-> & _ & _).
  destruct (Rfc8439.initial key nonce counter) as [[[A B] C] D]. match goal with |- context [Nat.iter 10 ?f (A, B, C, D)] => destruct (Nat.iter 10 f (A, B, C, D)) as [[[A' B'] C'] D'] end.
  unfold flat. f_equal. apply list_fmap_ext. intros i w _. apply store32_le_bytes.
Qed.
Lemma length_block key nonce counter : byte_array 32 key -> byte_array 12 nonce -> in_u 32 counter ->
  length (Rfc8439.block key nonce counter) = 64%nat.
Proof.
  intros Hk Hn Hc. destruct (initial_words key nonce counter Hk Hn Hc) as (_ & Hf & Hw).
  unfold Rfc8439.block, Rfc8439.rounds. destruct (rounds_words 10 _ Hf Hw) as (_ & Hf' & _).
  destruct (Rfc8439.initial key nonce counter) as [[[A B] C] D]. match goal with |- context [Nat.iter 10 ?f (A, B, C, D)] => destruct (Nat.iter 10 f (A, B, C, D)) as [[[A' B'] C'] D'] end.
  assert (forall l, length (concat (Rfc8439.to_bytes <$> l)) = (4 * length l)%nat) as Hl.
  { induction l as [|w l IH]; [done|]. cbn [fmap list_fmap concat length]. rewrite length_app. fold (fmap (M := list) Rfc8439.to_bytes l). rewrite IH. cbn. lia. }
  rewrite Hl, length_zip_with, !length_app. unfold full in *. lia.
Qed.

Lemma block_bytes key nonce counter : Forall (in_u 8) (Rfc8439.block key nonce counter).
Proof.
  unfold Rfc8439.block. destruct (Rfc8439.initial key nonce counter) as [[[A B] C] D]. destruct (Rfc8439.rounds _ _) as [[[A' B'] C'] D'].
  apply Forall_concat, Forall_fmap, list.Forall_true. intros w. apply Forall_fmap, list.Forall_true. intros i. by apply wrap_range.
Qed.

(** ** Memory *)

Lemma load_words_at m n : forall p l, bytes_at m p l -> length l = (4 * n)%nat -> load_words m p n = Ok (words_le l).
Proof.
  induction n as [|n IH]; intros p l Hl Hlen; [by destruct l|].
  destruct l as [|b0 [|b1 [|b2 [|b3 l]]]]; cbn [length] in Hlen; try lia.
  rewrite !bytes_at_cons in Hl. destruct Hl as (H0 & H1 & H2 & H3 & Hl). cbn [load_words words_le]. unfold load32_le, rd.
  replace (p + 1 + 1) with (p + 2) in * by lia. replace (p + 2 + 1) with (p + 3) in * by lia. replace (p + 3 + 1) with (p + 4) in * by lia.
  rewrite H0, H1, H2, H3. cbn. rewrite (IH (p + 4) l) by (done || lia). done.
Qed.

Lemma xor_bytes_spec ks : forall m inp out l,
  length l = length ks -> bytes_at m inp l -> mapped m out (len l) -> out <= inp \/ inp + len l <= out ->
  xor_bytes m inp out ks = Ok (put m out (zip_with Z.lxor l ks)).
Proof.
  induction ks as [|k ks IH]; intros m inp out [|b l] Hl Hb Hm Hd; try done. cbn [xor_bytes length] in *.
  apply bytes_at_cons in Hb as [H0 Hb]. unfold rd. rewrite H0. cbn [deref]. rewrite bind_Ok, wr_Ok, bind_Ok by (apply Hm; lia).
  rewrite (IH _ (inp + 1) (out + 1) l); [done|lia| | |lia].
  - apply (bytes_at_put_ne m out [Z.lxor b k]); [cbn; lia|done].
  - apply mapped_insert. apply (mapped_sub m out (Z.of_nat (S (length l)))); [done|lia..].
Qed.

Lemma keystream_block key nonce counter i : (i < 64)%nat -> Rfc8439.keystream key nonce counter i = Rfc8439.block key nonce counter !!! i.
Proof. intros Hi. unfold Rfc8439.keystream. rewrite Nat.mod_small by done. rewrite (Z.div_small (Z.of_nat i) 64) by lia. by rewrite Z.add_0_r. Qed.
Lemma block_wrap key nonce counter : Rfc8439.block key nonce (u32 counter) = Rfc8439.block key nonce counter.
Proof. unfold Rfc8439.block, Rfc8439.initial. fold (u32 (u32 counter)) (u32 counter). by rewrite wrap_wrap. Qed.
Lemma keystream_next key nonce counter i : Rfc8439.keystream key nonce counter (64 + i) = Rfc8439.keystream key nonce (u32 (counter + 1)) i.
Proof.
  unfold Rfc8439.keystream. rewrite <- block_wrap, <- (block_wrap _ _ (u32 (counter + 1) + _)), wrap_add_l, Nat2Z.inj_add.
  replace (Z.of_nat 64 + Z.of_nat i) with (Z.of_nat i + 1 * 64) by lia. rewrite Z.div_add by lia.
  replace (64 + i)%nat with (i + 1 * 64)%nat by lia. rewrite Nat.Div0.mod_add. f_equal. f_equal. f_equal. lia.
Qed.
#[local] Opaque Rfc8439.block chacha20_block words_le.
Lemma cipher_app key nonce counter l1 l2 : length l1 = 64%nat ->
  Rfc8439.cipher key nonce counter (l1 ++ l2) = Rfc8439.cipher key nonce counter l1 ++ Rfc8439.cipher key nonce (u32 (counter + 1)) l2.
Proof.
  intros Hl. unfold Rfc8439.cipher. rewrite imap_app, Hl. f_equal. apply imap_ext. intros i b _. cbn [compose]. by rewrite keystream_next.
Qed.
Lemma cipher_block key nonce counter l : byte_array 32 key -> byte_array 12 nonce -> in_u 32 counter -> (length l <= 64)%nat ->
  zip_with Z.lxor l (take (length l) (Rfc8439.block key nonce counter)) = Rfc8439.cipher key nonce counter l.
Proof.
  intros Hk Hn Hc Hl. pose proof (length_block key nonce counter Hk Hn Hc) as Hb. apply list_eq. intros i.
  unfold Rfc8439.cipher. rewrite lookup_zip_with, list_lookup_imap. destruct (l !! i) as [b|] eqn:E; [|done]. cbn.
  apply lookup_lt_Some in E. rewrite lookup_take_lt by done. rewrite keystream_block by lia.
  by rewrite (list_lookup_lookup_total_lt (Rfc8439.block key nonce counter) i) by lia.
Qed.
Lemma cipher_bytes key nonce counter l : byte_array 32 key -> byte_array 12 nonce -> Forall (in_u 8) l -> Forall (in_u 8) (Rfc8439.cipher key nonce counter l).
Proof.
  intros Hk Hn Hl. rewrite list.Forall_forall in Hl. apply list.Forall_forall. intros x Hx. apply list_elem_of_lookup in Hx as [i Hi].
  unfold Rfc8439.cipher in Hi. rewrite list_lookup_imap in Hi. destruct (l !! i) as [b|] eqn:Hb; [|done]. cbn [fmap option_fmap option_map] in Hi. injection Hi as <-.
  apply lxor_range; [done|apply Hl; by apply list_elem_of_lookup_2 in Hb|]. unfold Rfc8439.keystream. rewrite <- block_wrap. set (c := u32 _).
  assert (in_u 32 c) as Hc by by apply wrap_range. pose proof (length_block key nonce c Hk Hn Hc) as Hlen. pose proof (block_bytes key nonce c) as HB. rewrite list.Forall_forall in HB.
  apply HB. apply list_elem_of_lookup_total_2. rewrite Hlen. apply Nat.mod_upper_bound. done.
Qed.
Lemma length_cipher key nonce counter l : length (Rfc8439.cipher key nonce counter l) = length l.
Proof. apply length_imap. Qed.
Lemma cipher_cipher key nonce counter l : Rfc8439.cipher key nonce counter (Rfc8439.cipher key nonce counter l) = l.
Proof.
  unfold Rfc8439.cipher. apply list_eq. intros i. rewrite !list_lookup_imap. destruct (l !! i) as [b|]; [|done]. cbn [fmap option_fmap option_map].
  by rewrite Z.lxor_assoc, Z.lxor_nilpotent, Z.lxor_0_r.
Qed.

(** ** Encryption *)

(** What the key and the nonce in memory must be: two arrays of bytes that the
    output does not touch. *)
Record keyed (m : mem) (key nonce out n : Z) (kb nb : list Z) : Prop := {
  kd_key : bytes_at m key kb;
  kd_nonce : bytes_at m nonce nb;
  kd_key_bytes : byte_array 32 kb;
  kd_nonce_bytes : byte_array 12 nb;
  kd_key_out : key + 32 <= out \/ out + n <= key;
  kd_nonce_out : nonce + 12 <= out \/ out + n <= nonce;
}.
Lemma keyed_put m key nonce out n kb nb p l : keyed m key nonce out n kb nb -> out <= p -> p + len l <= out + n -> keyed (put m p l) key nonce out n kb nb.
Proof.
  intros [H1 H2 [H3 B3] [H4 B4] H5 H6] Hp Hl. split; try done; (apply bytes_at_put_ne; [lia|done]).
Qed.
Lemma init_state_keyed m key nonce out n kb nb counter : keyed m key nonce out n kb nb ->
  chacha20_init_state m key nonce counter = Ok (words_le sigma ++ words_le kb ++ [counter] ++ words_le nb).
Proof.
  intros [H1 H2 [H3 _] [H4 _] _ _]. unfold chacha20_init_state. rewrite (load_words_at m 8 key kb), bind_Ok by (done || lia).
  by rewrite (load_words_at m 3 nonce nb), bind_Ok by (done || lia).
Qed.

(** One round of the loop, on at most one block. *)
Lemma encrypt_body_spec m key nonce inp out n kb nb counter offset l1 l2 :
  keyed m key nonce out n kb nb -> in_u 32 counter -> 0 <= offset -> offset + len (l1 ++ l2) = n -> n < 2 ^ 64 -> l1 <> [] ->
  (length l1 <= 64)%nat -> (l2 <> [] -> length l1 = 64%nat) ->
  bytes_at m (inp + offset) (l1 ++ l2) -> mapped m out n -> out <= inp \/ inp + n <= out ->
  encrypt_body key nonce inp out (m, counter, offset, len (l1 ++ l2)) =
    Ok (inl (put m (out + offset) (Rfc8439.cipher kb nb counter l1), u32 (counter + 1), offset + len l1, len l2)).
Proof.
  intros Hk Hc Ho Hn H64 Hne Hl1 Hl2 Hb Hm Hd. rewrite length_app in *. unfold encrypt_body.
  assert (0 < len l1) by (destruct l1; [done|cbn; lia]). rewrite (proj2 (Z.ltb_lt 0 _)) by lia.
  rewrite (init_state_keyed m key nonce out n kb nb) by done. rewrite bind_Ok. cbv zeta.
  rewrite chacha20_block_rfc by (done || apply Hk).
  assert (Z.min (Z.of_nat (length l1 + length l2)) CHACHA20_BLOCK_SIZE = len l1) as ->.
  { unfold CHACHA20_BLOCK_SIZE. destruct l2; [cbn [length] in *; lia|]. specialize (Hl2 ltac:(done)). lia. }
  rewrite Nat2Z.id. pose proof (length_block kb nb counter (kd_key_bytes _ _ _ _ _ _ _ Hk) (kd_nonce_bytes _ _ _ _ _ _ _ Hk) Hc) as Hlb.
  apply bytes_at_app in Hb as [Hb1 _].
  rewrite (xor_bytes_spec _ m (inp + offset) (out + offset) l1), bind_Ok; [|rewrite length_take; lia|done| |lia].
  - rewrite (cipher_block kb nb counter l1 (kd_key_bytes _ _ _ _ _ _ _ Hk) (kd_nonce_bytes _ _ _ _ _ _ _ Hk) Hc Hl1). replace (Z.of_nat (length l1 + length l2) - len l1) with (len l2) by lia.
    rewrite !(wrap_small 64) by (unfold in_u; lia). reflexivity.
  - apply (mapped_sub m out n); [done|lia..].
Qed.
Lemma encrypt_loop key nonce inp out n kb nb fuel : forall m l counter offset,
  keyed m key nonce out n kb nb -> in_u 32 counter -> 0 <= offset -> offset + len l = n -> n < 2 ^ 64 ->
  bytes_at m (inp + offset) l -> mapped m out n -> out <= inp \/ inp + n <= out -> (length l < fuel)%nat ->
  loop fuel (encrypt_body key nonce inp out) (m, counter, offset, len l) = Ok (put m (out + offset) (Rfc8439.cipher kb nb counter l)).
Proof.
  induction fuel as [|fuel IH]; intros m l counter offset Hk Hc Ho Hn H64 Hb Hm Hd Hf; [lia|].
  assert (l = [] \/ length l <> 0)%nat as [->|Hne] by (destruct l; [by left|by right]); [by apply loop_done|]. rewrite <- (take_drop 64 l) in Hb, Hn |- *.
  assert (length (take 64 l) = 64 `min` length l)%nat as Ht by apply length_take. pose proof (length_drop l 64) as Hdr.
  rewrite (loop_step fuel (encrypt_body key nonce inp out) _ _ (encrypt_body_spec m key nonce inp out n kb nb counter offset (take 64 l) (drop 64 l) Hk Hc Ho Hn H64
    ltac:(intros E; rewrite E in Ht; cbn [length] in Ht; lia) ltac:(lia) ltac:(intros E; destruct (drop 64 l); [done|cbn [length] in Hdr; lia]) Hb Hm Hd)).
  rewrite length_app in Hn. apply bytes_at_app in Hb as [_ Hb].
  rewrite (IH _ (drop 64 l) (u32 (counter + 1)) (offset + len (take 64 l))); try (done || lia).
  - destruct (decide (length l <= 64)%nat) as [Hs|Hs].
    + rewrite (drop_ge l 64), app_nil_r by lia. cbn. done.
    + rewrite cipher_app by lia. rewrite put_app, length_cipher. f_equal. f_equal. lia.
  - apply keyed_put; [done|lia|rewrite length_cipher; lia].
  - by apply wrap_range.
  - replace (inp + (offset + len (take 64 l))) with (inp + offset + len (take 64 l)) by lia. apply bytes_at_put_ne; [rewrite length_cipher; lia|done].
  - by apply mapped_put.
Qed.
Lemma encrypt_spec m key nonce counter inp out l kb nb :
  keyed m key nonce out (len l) kb nb -> in_u 32 counter -> len l < 2 ^ 64 ->
  bytes_at m inp l -> mapped m out (len l) -> out <= inp \/ inp + len l <= out ->
  chacha20_encrypt m key nonce counter inp out (len l) = Ok (put m out (Rfc8439.cipher kb nb counter l)).
Proof.
  intros. unfold chacha20_encrypt. rewrite (encrypt_loop _ _ _ _ (len l) kb nb), Z.add_0_r; rewrite ?Z.add_0_r; (done || lia).
Qed.

(** C21: Encrypting returns for every length, gives the output exactly the bytes that
    RFC 8439 defines (key stream by rows and columns, in exact arithmetic modulo
    2^32; the block counter wraps), also for output over the input at the same or
    a lower address, and changes nothing else; encrypting the output in place with
    the same key, nonce and counter gives the input back. *)
Theorem chacha20_encrypt_correct m key nonce counter inp out l kb nb :
  keyed m key nonce out (len l) kb nb -> in_u 32 counter -> len l < 2 ^ 64 ->
  bytes_at m inp l -> mapped m out (len l) -> out <= inp \/ inp + len l <= out ->
  exists m', chacha20_encrypt m key nonce counter inp out (len l) = Ok m' /\
    bytes_at m' out (Rfc8439.cipher kb nb counter l) /\ (forall a, ~ (out <= a < out + len l) -> m' !! a = m !! a) /\
    exists m'', chacha20_encrypt m' key nonce counter out out (len l) = Ok m'' /\
      bytes_at m'' out l /\ (forall a, ~ (out <= a < out + len l) -> m'' !! a = m !! a).
Proof.
  intros Hk Hc H64 Hb Hm Hd. exists (put m out (Rfc8439.cipher kb nb counter l)). pose proof (length_cipher kb nb counter l) as Hl.
  split_and!; [by apply encrypt_spec|apply bytes_at_put|intros a Ha; apply lookup_put_out; by rewrite Hl|].
  exists (put m out l). split_and!; [|apply bytes_at_put|intros a Ha; by apply lookup_put_out].
  pose proof (encrypt_spec (put m out (Rfc8439.cipher kb nb counter l)) key nonce counter out out (Rfc8439.cipher kb nb counter l) kb nb) as H.
  rewrite Hl, cipher_cipher, put_put in H by done.
  apply H; [apply keyed_put; [done|lia|by rewrite Hl]|done|done|apply bytes_at_put|by apply mapped_put|lia].
Qed.

(** The example of RFC 8439, section 2.4.2. *)
Definition sunscreen : list Z :=
  [76; 97; 100; 105; 101; 115; 32; 97; 110; 100; 32; 71; 101; 110; 116; 108; 101; 109; 101; 110; 32;
   111; 102; 32; 116; 104; 101; 32; 99; 108; 97; 115; 115; 32; 111; 102; 32; 39; 57; 57; 58; 32; 73;
   102; 32; 73; 32; 99; 111; 117; 108; 100; 32; 111; 102; 102; 101; 114; 32; 121; 111; 117; 32; 111;
   110; 108; 121; 32; 111; 110; 101; 32; 116; 105; 112; 32; 102; 111; 114; 32; 116; 104; 101; 32; 102;
   117; 116; 117; 114; 101; 44; 32; 115; 117; 110; 115; 99; 114; 101; 101; 110; 32; 119; 111; 117; 108;
   100; 32; 98; 101; 32; 105; 116; 46].
Definition sunscreen_encrypted : list Z :=
  [110; 46; 53; 154; 37; 104; 249; 128; 65; 186; 7; 40; 221; 13; 105; 129; 233; 126; 122; 236; 29; 67;
   96; 194; 10; 39; 175; 204; 253; 159; 174; 11; 249; 27; 101; 197; 82; 71; 51; 171; 143; 89; 61; 171;
   205; 98; 179; 87; 22; 57; 214; 36; 230; 81; 82; 171; 143; 83; 12; 53; 159; 8; 97; 216; 7; 202; 13;
   191; 80; 13; 106; 97; 86; 163; 142; 8; 138; 34; 182; 94; 82; 188; 81; 77; 22; 204; 248; 6; 129; 140;
   233; 26; 183; 121; 55; 54; 90; 249; 11; 191; 116; 163; 91; 230; 180; 11; 142; 237; 242; 120; 94; 66;
   135; 77].
Definition sunscreen_nonce : list Z := [0; 0; 0; 0; 0; 0; 0; 74; 0; 0; 0; 0].
Definition sunscreen_mem : mem := put (put (put ∅ 0 (seqZ 0 32)) 64 sunscreen_nonce) 128 sunscreen.
Lemma chacha20_encrypt_correct_witness : exists m', chacha20_encrypt sunscreen_mem 0 64 1 128 128 114 = Ok m' /\ bytes_at m' 128 sunscreen_encrypted.
Proof.
  destruct (chacha20_encrypt_correct sunscreen_mem 0 64 1 128 128 sunscreen (seqZ 0 32) sunscreen_nonce) as (m' & HE & Hb & _).
  - split; try (by apply bytes_at_check; vm_compute); try (split; [done|apply (bool_decide_unpack _); by vm_compute]); left; by vm_compute.
  - by vm_compute.
  - by vm_compute.
  - apply bytes_at_check. by vm_compute.
  - apply mapped_check; [done|]. vm_compute. by eexists.
  - by left.
  - exists m'. split; [exact HE|]. apply bytes_at_check.
    assert ((m ← chacha20_encrypt sunscreen_mem 0 64 1 128 128 114; load_bytes m 128 114) = Ok sunscreen_encrypted) as H by by vm_compute.
    change (len sunscreen) with 114 in HE. rewrite HE, bind_Ok in H. exact H.
Defined.
