(* ===== verification/Prng.v ===== *)
(** * Random numbers

    [kernel/crypto/prng.c] and [include/crypto/prng.h]: the generator of a CPU, which
    gives out the key stream of ChaCha20 eight bytes at a time, and SplitMix64.
    [tsc] and [core_id] are what [smp_core] and [smp_id] say of the CPU; the calls
    run with interrupts off. *)

From S2P Require Import Prelude CMem ChaCha.

Record prng_core := mkPrng { state : list Z; buffer : list Z; pos : Z }.

Definition key_group (seed tsc core_id i : Z) : list Z :=
  [ Z.land (Z.shiftr seed (i * 8 + 0)) 0xff; Z.land (Z.shiftr seed (i * 8 + 8)) 0xff;
    Z.land (Z.shiftr tsc (i * 8 + 32)) 0xff; Z.land (Z.shiftr tsc (i * 8 + 32)) 0xff;
    Z.land (Z.shiftr core_id (i * 8 + 0)) 0xff; Z.land (Z.shiftr core_id (i * 8 + 4)) 0xff;
    Z.land (Z.shiftr tsc (i * 8 + 16)) 0xff; Z.land (Z.shiftr tsc (i * 8 + 24)) 0xff ].
Definition prng_key (seed tsc core_id : Z) : list Z := concat (key_group seed tsc core_id <$> [0; 1; 2; 3]).
(** The casts to [uint32_t *] read little-endian words. *)
Definition prng_seed_core (p : prng_core) (tsc core_id seed : Z) : prng_core :=
  mkPrng (words_le sigma ++ words_le (prng_key seed tsc core_id) ++ [0; 0; 0; 0]) (buffer p) 64.
Definition prng_seed (p : prng_core) (tsc core_id seed : Z) : prng_core :=
  prng_seed_core p tsc core_id (if seed =? 0 then tsc else seed).

(** The file's own quarter round. *)
Definition prng_QR (q : Z * Z * Z * Z) : Z * Z * Z * Z :=
  let '(a, b, c, d) := q in
  let a := u32 (a + b) in
  let d := Z.lxor d a in let d := Z.lor (u32 (Z.shiftl d 16)) (Z.shiftr d 16) in
  let c := u32 (c + d) in
  let b := Z.lxor b c in let b := Z.lor (u32 (Z.shiftl b 12)) (Z.shiftr b 20) in
  let a := u32 (a + b) in
  let d := Z.lxor d a in let d := Z.lor (u32 (Z.shiftl d 8)) (Z.shiftr d 24) in
  let c := u32 (c + d) in
  let b := Z.lxor b c in let b := Z.lor (u32 (Z.shiftl b 7)) (Z.shiftr b 25) in
  (a, b, c, d).
Definition chacha20_generate_block (state : list Z) : list Z :=
  let x := Nat.iter 10 (double_round prng_QR) state in
  concat ((fun w => [Z.land w 0xff; Z.land (Z.shiftr w 8) 0xff; Z.land (Z.shiftr w 16) 0xff; Z.land (Z.shiftr w 24) 0xff])
    <$> zip_with (fun a b => u32 (a + b)) x state).

Definition refill (p : prng_core) : prng_core :=
  if 64 <=? pos p
  then mkPrng (<[12%nat := u32 (state p !!! 12%nat + 1)]> (state p)) (chacha20_generate_block (state p)) 0
  else p.
(** The eight bytes are copied into a [uint64_t]. *)
Definition prng_next (p : prng_core) : outcome (Z * prng_core) :=
  let p := refill p in
  l ← (if pos p + 8 <=? len (buffer p) then Ok (take 8 (drop (Z.to_nat (pos p)) (buffer p))) else Fault);
  Ok (little_endian_to_Z 8 l, mkPrng (state p) (buffer p) (u64 (pos p + 8))).
(** [n] calls: their values and the state after them. *)
Fixpoint prng_calls (n : nat) (p : prng_core) : outcome (list Z * prng_core) :=
  match n with
  | O => Ok ([], p)
  | S n => r ← prng_next p; rs ← prng_calls n r.2; Ok (r.1 :: rs.1, rs.2)
  end.

Definition PRNG_SPLITMIX64_GAMMA : Z := 0x9e3779b97f4a7c15.
Definition PRNG_SPLITMIX64_M1 : Z := 0xbf58476d1ce4e5b9.
Definition PRNG_SPLITMIX64_M2 : Z := 0x94d049bb133111eb.
(** The value and the new state. *)
Definition prng_splitmix64_next (state : Z) : Z * Z :=
  let state := u64 (state + PRNG_SPLITMIX64_GAMMA) in
  let z := state in
  let z := u64 (Z.lxor z (Z.shiftr z 30) * PRNG_SPLITMIX64_M1) in
  let z := u64 (Z.lxor z (Z.shiftr z 27) * PRNG_SPLITMIX64_M2) in
  (Z.lxor z (Z.shiftr z 31), state).

(** ** The generator gives out the key stream *)

Lemma generate_block_eq s : chacha20_generate_block s = chacha20_block s.
Proof. unfold chacha20_generate_block, chacha20_block. by replace prng_QR with QR by reflexivity. Qed.

Lemma prng_key_bytes seed tsc core_id : byte_array 32 (prng_key seed tsc core_id).
Proof.
  split; [done|]. unfold prng_key, key_group. cbn [concat fmap list_fmap app].
  change 0xff with (Z.ones 8). repeat (apply list.Forall_cons; split; [rewrite land_ones_wrap by done; by apply wrap_range|]). constructor.
Qed.
Definition zero_nonce : list Z := replicate 12 0.
Lemma zero_nonce_bytes : byte_array 12 zero_nonce.
Proof. split; [done|]. by apply Forall_replicate. Qed.

(** The words of the state for block [c]. *)
Definition stream_state (key : list Z) (c : Z) : list Z := words_le sigma ++ words_le key ++ [c] ++ words_le zero_nonce.
Lemma stream_state_next key c c' : length key = 32%nat -> <[12%nat := c']> (stream_state key c) = stream_state key c' /\ stream_state key c !!! 12%nat = c.
Proof.
  intros Hk. do 32 (destruct key as [|? key]; [done|]). destruct key; done.
Qed.

(** After [n] calls the state is that of the next block to generate, and the bytes
    not given out are the last ones of the block generated before. *)
Definition prng_at (key : list Z) (n : Z) (p : prng_core) : Prop :=
  state p = stream_state key (u32 ((n + 7) `div` 8)) /\
  if n mod 8 =? 0 then pos p = 64 else pos p = 8 * (n mod 8) /\ buffer p = Rfc8439.block key zero_nonce (n `div` 8).
Definition stream_word (key : list Z) (i : Z) : Z :=
  little_endian_to_Z 8 ((fun j => Rfc8439.keystream key zero_nonce 0 (Z.to_nat (8 * i) + j)) <$> List.seq 0 8).

Lemma length_stream_block key c : byte_array 32 key -> length (Rfc8439.block key zero_nonce c) = 64%nat.
Proof. intros Hk. rewrite <- block_wrap. apply length_block; [done|apply zero_nonce_bytes|by apply wrap_range]. Qed.
#[local] Opaque Rfc8439.block chacha20_block words_le.

(** The word [n] of the stream lies in block [n / 8]. *)
Lemma stream_word_block key n : byte_array 32 key -> 0 <= n ->
  stream_word key n = little_endian_to_Z 8 (take 8 (drop (Z.to_nat (8 * (n mod 8))) (Rfc8439.block key zero_nonce (n `div` 8)))).
Proof.
  intros Hk Hn. pose proof (length_stream_block key (n `div` 8) Hk) as Hl. unfold stream_word. f_equal. apply list_eq. intros j.
  pose proof (Z.div_mod n 8 ltac:(lia)). pose proof (Z.mod_pos_bound n 8 ltac:(lia)). rewrite list_lookup_fmap.
  destruct (decide (j < 8)%nat) as [Hj|Hj].
  - rewrite lookup_seq_lt, lookup_take_lt, lookup_drop by done. cbn [fmap option_fmap option_map]. unfold Rfc8439.keystream.
    replace (Z.to_nat (8 * n) + (0 + j))%nat with (Z.to_nat (8 * (n mod 8)) + j + Z.to_nat (n `div` 8) * 64)%nat by lia.
    rewrite Nat.Div0.mod_add, Nat.mod_small, Nat2Z.inj_add, Nat2Z.inj_mul by lia. change (Z.of_nat 64) with 64.
    rewrite Z.div_add, (Z.div_small (Z.of_nat (_ + _))), Z2Nat.id by lia. rewrite !Z.add_0_l. symmetry. apply list_lookup_lookup_total_lt. lia.
  - rewrite lookup_seq_ge, lookup_take_ge by lia. done.
Qed.

Lemma refill_at key n p : byte_array 32 key -> 0 <= n -> prng_at key n p ->
  refill p = mkPrng (stream_state key (u32 (n `div` 8 + 1))) (Rfc8439.block key zero_nonce (n `div` 8)) (8 * (n mod 8)).
Proof.
  intros Hk Hn [Hs Hp]. pose proof (Z.div_mod n 8 ltac:(lia)) as Hdm. pose proof (Z.mod_pos_bound n 8 ltac:(lia)) as Hr. unfold refill.
  destruct (Z.eqb_spec (n mod 8) 0) as [Hr0|Hr0].
  - assert ((n + 7) `div` 8 = n `div` 8) as Hq by (symmetry; apply (Z.div_unique _ _ _ 7); lia). rewrite Hq in Hs.
    rewrite Hp, Hr0, Hs. cbn [Z.leb Z.compare Pos.compare Pos.compare_cont]. rewrite generate_block_eq. unfold stream_state at 3.
    rewrite chacha20_block_rfc, block_wrap by (done || apply zero_nonce_bytes || by apply wrap_range).
    destruct (stream_state_next key (u32 (n `div` 8)) (u32 (n `div` 8 + 1)) (proj1 Hk)) as [E ->]. by rewrite wrap_add_l, E.
  - assert ((n + 7) `div` 8 = n `div` 8 + 1) as Hq by (symmetry; apply (Z.div_unique _ _ _ (n mod 8 - 1)); lia). rewrite Hq in Hs.
    destruct Hp as [Hp Hb]. rewrite Hp. destruct (Z.leb_spec 64 (8 * (n mod 8))); [lia|]. destruct p. cbn in *. by subst.
Qed.
Lemma prng_next_step key n p : byte_array 32 key -> 0 <= n -> prng_at key n p ->
  exists p', prng_next p = Ok (stream_word key n, p') /\ prng_at key (n + 1) p'.
Proof.
  intros Hk Hn Hp. pose proof (Z.div_mod n 8 ltac:(lia)) as Hdm. pose proof (Z.mod_pos_bound n 8 ltac:(lia)) as Hr. unfold prng_next.
  rewrite (refill_at key n p Hk Hn Hp). cbn [pos buffer state]. rewrite length_stream_block by done. rewrite (proj2 (Z.leb_le _ _)) by lia. rewrite bind_Ok.
  eexists. split; [by rewrite stream_word_block|]. unfold prng_at. cbn [pos buffer state].
  replace ((n + 1 + 7) `div` 8) with (n `div` 8 + 1) by (apply (Z.div_unique _ _ _ (n mod 8)); lia). split; [done|].
  rewrite wrap_small by (unfold in_u; lia). destruct (decide (n mod 8 = 7)) as [H7|H7].
  - replace ((n + 1) mod 8) with 0 by (apply (Z.mod_unique _ _ (n `div` 8 + 1)); lia). rewrite Z.eqb_refl. lia.
  - replace ((n + 1) mod 8) with (n mod 8 + 1) by (apply (Z.mod_unique _ _ (n `div` 8)); lia).
    replace ((n + 1) `div` 8) with (n `div` 8) by (apply (Z.div_unique _ _ _ (n mod 8 + 1)); lia).
    destruct (Z.eqb_spec (n mod 8 + 1) 0); [lia|]. split; [lia|done].
Qed.
Lemma prng_calls_at key k : forall n p, byte_array 32 key -> 0 <= n -> prng_at key n p ->
  exists p', prng_calls k p = Ok (stream_word key <$> seqZ n (Z.of_nat k), p') /\ prng_at key (n + Z.of_nat k) p'.
Proof.
  induction k as [|k IH]; intros n p Hk Hn Hp; [exists p; by rewrite Z.add_0_r|].
  destruct (prng_next_step key n p Hk Hn Hp) as (p1 & E1 & H1). destruct (IH (n + 1) p1 Hk ltac:(lia) H1) as (p2 & E2 & H2).
  exists p2. cbn [prng_calls]. rewrite E1, bind_Ok. cbn [fst snd]. rewrite E2, bind_Ok. cbn [fst snd].
  rewrite (seqZ_cons n) by lia. replace (Z.pred (Z.of_nat (S k))) with (Z.of_nat k) by lia. split; [done|].
  by replace (n + Z.of_nat (S k)) with (n + 1 + Z.of_nat k) by lia.
Qed.
Lemma prng_seed_at p tsc core_id seed : prng_at (prng_key (if seed =? 0 then tsc else seed) tsc core_id) 0 (prng_seed p tsc core_id seed).
Proof. by split. Qed.

(** C23: After seeding, the [n] values that follow are the first [n] little-endian
    64-bit words of the ChaCha20 key stream of RFC 8439 for the key made of seed,
    time stamp and CPU number, the zero nonce and block counter 0, for every [n]
    (the counter wraps after 2^32 blocks); no call reads outside the buffer. *)
Theorem prng_stream p tsc core_id seed n : exists p',
  prng_calls n (prng_seed p tsc core_id seed) =
    Ok (stream_word (prng_key (if seed =? 0 then tsc else seed) tsc core_id) <$> seqZ 0 (Z.of_nat n), p').
Proof.
  destruct (prng_calls_at _ n 0 _ (prng_key_bytes (if seed =? 0 then tsc else seed) tsc core_id) ltac:(lia) (prng_seed_at p tsc core_id seed)) as (p' & E & _).
  by exists p'.
Qed.

(** ** What the seed does not reach *)

Lemma byte_of_wrap w k x : 0 <= k -> k + 8 <= w -> Z.land (Z.shiftr x k) 0xff = Z.land (Z.shiftr (wrap w x) k) 0xff.
Proof. intros Hk Hw. change 0xff with (Z.ones 8). zbits. Qed.
Lemma byte_of_shiftr w k x : 0 <= w <= k -> Z.land (Z.shiftr x k) 0xff = Z.land (Z.shiftr (Z.shiftr x w) (k - w)) 0xff.
Proof. intros Hk. rewrite Z.shiftr_shiftr by lia. by replace (w + (k - w)) with k by lia. Qed.
Lemma prng_key_reach seed seed' tsc tsc' core_id : wrap 40 seed = wrap 40 seed' -> Z.shiftr tsc 16 = Z.shiftr tsc' 16 ->
  prng_key seed tsc core_id = prng_key seed' tsc' core_id.
Proof.
  intros Hs Ht. unfold prng_key. f_equal. apply list_fmap_ext. intros i j Hj.
  assert (0 <= j <= 3) by (do 4 (destruct i as [|i]; [cbn in Hj; simplify_eq; lia|]); done).
  unfold key_group. rewrite !(byte_of_wrap 40 _ seed), !(byte_of_wrap 40 _ seed'), Hs by lia.
  by rewrite !(byte_of_shiftr 16 _ tsc), !(byte_of_shiftr 16 _ tsc'), Ht by lia.
Qed.

(** Seeding does not use the 24 upper bits of the seed nor the 16 lower bits of
    the time stamp: two seeds that agree in their 40 lower bits, at two times that
    agree above bit 16, put the generator of a CPU into the same state. *)
Theorem prng_seed_forgets p core_id seed seed' tsc tsc' : seed <> 0 -> seed' <> 0 ->
  wrap 40 seed = wrap 40 seed' -> Z.shiftr tsc 16 = Z.shiftr tsc' 16 ->
  prng_seed p tsc core_id seed = prng_seed p tsc' core_id seed'.
Proof.
  intros H0 H0' Hs Ht. unfold prng_seed, prng_seed_core. destruct (Z.eqb_spec seed 0), (Z.eqb_spec seed' 0); try done.
  by rewrite (prng_key_reach seed seed' tsc tsc').
Qed.
Lemma prng_seed_forgets_witness : prng_seed (mkPrng [] [] 0) 65536 3 1 = prng_seed (mkPrng [] [] 0) 65537 3 0xabcdef0000000001.
Proof. apply (prng_seed_forgets (mkPrng [] [] 0) 3 1 0xabcdef0000000001 65536 65537); [done|done|by vm_compute|by vm_compute]. Defined.

(** ** SplitMix64 does not repeat *)

Lemma xorshift_inj k x y : 0 < k -> 0 <= x -> 0 <= y -> Z.lxor x (Z.shiftr x k) = Z.lxor y (Z.shiftr y k) -> x = y.
Proof.
  intros Hk Hx Hy H. apply Z.lxor_eq. set (d := Z.lxor x y).
  assert (0 <= d) as Hd by by apply Z.lxor_nonneg.
  assert (d = Z.shiftr d k) as Hs.
  { unfold d. rewrite Z.shiftr_lxor. apply Z.lxor_eq. rewrite <- (Z.lxor_nilpotent (Z.lxor y (Z.shiftr y k))). rewrite <- H at 1.
    apply Z.bits_inj'. intros i Hi. rewrite !Z.lxor_spec.
    destruct (Z.testbit x i), (Z.testbit y i), (Z.testbit (Z.shiftr x k) i), (Z.testbit (Z.shiftr y k) i); done. }
  rewrite Z.shiftr_div_pow2 in Hs by lia. destruct (decide (d = 0)) as [|Hn]; [done|].
  pose proof (Z.div_lt d (2 ^ k) ltac:(lia) ltac:(pose proof (Z.pow_gt_1 2 k ltac:(lia)); lia)). lia.
Qed.
Lemma odd_mul_inj c d x y : u64 (c * d) = 1 -> in_u 64 x -> in_u 64 y -> u64 (x * c) = u64 (y * c) -> x = y.
Proof.
  intros Hcd Hx Hy H. assert (forall z, in_u 64 z -> u64 (u64 (z * c) * d) = z) as Hinv.
  { intros z Hz. rewrite wrap_mul_l, <- Z.mul_assoc, <- wrap_mul_r, Hcd, Z.mul_1_r. by apply wrap_small. }
  by rewrite <- (Hinv x Hx), <- (Hinv y Hy), H.
Qed.
Lemma xorshift_range k x : 0 <= k -> in_u 64 x -> in_u 64 (Z.lxor x (Z.shiftr x k)).
Proof. intros Hk Hx. apply lxor_range; [done|done|]. by apply shiftr_range. Qed.

(** The state after [i] calls. *)
Definition splitmix_state (s : Z) (i : nat) : Z := Nat.iter i (fun s => (prng_splitmix64_next s).2) s.
Lemma splitmix_state_eq s i : in_u 64 s -> splitmix_state s i = u64 (s + Z.of_nat i * PRNG_SPLITMIX64_GAMMA).
Proof.
  intros Hs. induction i as [|i IH]; [by rewrite Z.mul_0_l, Z.add_0_r, wrap_small|].
  unfold splitmix_state in *. rewrite Nat.iter_succ, IH. cbn [prng_splitmix64_next snd]. rewrite wrap_add_l. f_equal. lia.
Qed.
Lemma splitmix_value_inj s s' : in_u 64 s -> in_u 64 s' -> (prng_splitmix64_next s).1 = (prng_splitmix64_next s').1 -> s = s'.
Proof.
  intros Hs Hs' H. unfold prng_splitmix64_next in H. cbn [fst] in H.
  assert (forall x, in_u 64 (u64 x)) as Hw by (intros x; by apply wrap_range).
  apply xorshift_inj in H; [|done|apply Hw..].
  apply (odd_mul_inj _ 0x319642b2d24d8ec3) in H; [|by vm_compute|by apply xorshift_range..].
  apply xorshift_inj in H; [|done|apply Hw..].
  apply (odd_mul_inj _ 0x96de1b173f119089) in H; [|by vm_compute|by apply xorshift_range..].
  apply xorshift_inj in H; [|done|apply Hw..].
  apply wrap_eq_elim in H as [k Hk]; [|done]. unfold in_u in *. assert (k = 0) as -> by lia. lia.
Qed.

(** SplitMix64 gives out every 64-bit number once before it repeats: the values of
    two of 2^64 successive calls are different. *)
Theorem prng_splitmix64_distinct s i j : in_u 64 s -> Z.of_nat i < 2 ^ 64 -> Z.of_nat j < 2 ^ 64 ->
  (prng_splitmix64_next (splitmix_state s i)).1 = (prng_splitmix64_next (splitmix_state s j)).1 -> i = j.
Proof.
  intros Hs Hi Hj H. rewrite !splitmix_state_eq in H by done. apply splitmix_value_inj in H; [|by apply wrap_range..].
  assert (u64 (Z.of_nat i * PRNG_SPLITMIX64_GAMMA) = u64 (Z.of_nat j * PRNG_SPLITMIX64_GAMMA)) as H'.
  { apply wrap_eq_elim in H as [k Hk]; [|done]. apply (wrap_eq_intro _ _ _ k). lia. }
  apply (odd_mul_inj _ 0xf1de83e19937733d) in H'; [lia|by vm_compute|unfold in_u; lia..].
Qed.
Lemma prng_splitmix64_distinct_witness : (prng_splitmix64_next (splitmix_state 7 2)).1 <> (prng_splitmix64_next (splitmix_state 7 5)).1.
Proof.
  pose proof (prng_splitmix64_distinct 7 2 5 ltac:(by vm_compute) ltac:(by vm_compute) ltac:(by vm_compute)) as T. intros H. discriminate (T H).
Defined.
