(* ===== verification/Entropy.v ===== *)
(** * The entropy pool

    [kernel/crypto/entropy_pool.c] and [include/crypto/entropy_pool.h], a client of
    [ChaCha.v].  The pool is a record; the key and the nonce of the file, the local
    arrays and the data that is added are in the byte memory, at the addresses of
    the section.  Every call holds the lock of the pool while it uses the pool; the
    calls here run one after the other. *)

From S2P Require Import Prelude CMem ChaCha.

Definition to_bits (bytes : Z) : Z := u64 (bytes * 8).
Definition ENTROPY_POOL_SIZE : Z := 64.
Definition ENTROPY_MAX_BITS : Z := to_bits ENTROPY_POOL_SIZE.

Record entropy_pool := mkPool { buffer : list Z; write_pos : Z; entropy_bits : Z }.

Definition entropy_pool_init : entropy_pool := mkPool (replicate (Z.to_nat ENTROPY_POOL_SIZE) 0) 0 0.

(** The loop over the data. *)
Fixpoint pool_mix (m : mem) (data : Z) (n : nat) (buffer : list Z) (write_pos : Z) : outcome (list Z * Z) :=
  match n with
  | O => Ok (buffer, write_pos)
  | S n =>
      b ← rd m data; x ← aget buffer write_pos; buffer ← aset buffer write_pos (Z.lxor x b);
      pool_mix m (data + 1) n buffer (u64 (write_pos + 1) mod ENTROPY_POOL_SIZE)
  end.
Definition entropy_pool_add (m : mem) (pool : entropy_pool) (data len bits : Z) : outcome entropy_pool :=
  r ← pool_mix m data (Z.to_nat len) (buffer pool) (write_pos pool);
  let bits := u64 (entropy_bits pool + bits) in
  Ok (mkPool r.1 r.2 (if ENTROPY_MAX_BITS <? bits then ENTROPY_MAX_BITS else bits)).
Definition with_bits (pool : entropy_pool) (bits : Z) : entropy_pool := mkPool (buffer pool) (write_pos pool) bits.
Definition entropy_pool_bits (pool : entropy_pool) : Z := entropy_bits pool.
Definition entropy_pool_decrease (pool : entropy_pool) (bits : Z) : entropy_pool :=
  with_bits pool (if bits <? entropy_bits pool then u64 (entropy_bits pool - bits) else 0).

Record entropy_state := mkWorld { pool : entropy_pool; memory : mem; chacha_counter : Z; chacha_reseed_counter : Z }.

Section Addresses.
(** The globals [chacha_key] and [chacha_nonce], the arrays local to
    [entropy_pool_extract] and the one local to [entropy_pool_reseed]. *)
Variables chacha_key chacha_nonce seed zeros reseed_seed : Z.

(** The pool, the memory and the number of bytes. *)
Definition entropy_pool_extract (m : mem) (pool : entropy_pool) (out len : Z) : outcome (entropy_pool * mem * Z) :=
  if entropy_bits pool <? to_bits len then Ok (pool, m, 0) else
  m ← store_bytes m seed (take 32 (buffer pool));
  let pool := with_bits pool (if to_bits len <=? entropy_bits pool then u64 (entropy_bits pool - to_bits len) else 0) in
  m ← store_bytes m zeros (replicate 64 0);
  m ← chacha20_encrypt m seed chacha_nonce 0 zeros out len;
  Ok (pool, m, len).

Definition entropy_pool_seed (w : entropy_state) : outcome entropy_state :=
  if entropy_pool_bits (pool w) <? 256 then Ok w else
  r ← entropy_pool_extract (memory w) (pool w) chacha_key 32;
  let '(p, m, n) := r in
  if negb (n =? 32) then Ok (mkWorld p m (chacha_counter w) (chacha_reseed_counter w)) else
  m ← memset m chacha_nonce 0 12;
  Ok (mkWorld p m 0 (chacha_reseed_counter w)).

(** [for (i = 0; i < n; i++) k[i] ^= s[i]]. *)
Fixpoint xor_key (m : mem) (k s : Z) (n : nat) : outcome mem :=
  match n with
  | O => Ok m
  | S n => a ← rd m k; b ← rd m s; m ← wr m k (Z.lxor a b); xor_key m (k + 1) (s + 1) n
  end.
Definition entropy_pool_reseed (w : entropy_state) : outcome entropy_state :=
  if negb (128 <=? entropy_pool_bits (pool w)) then Ok w else
  let c := chacha_reseed_counter w in
  let w := mkWorld (pool w) (memory w) (chacha_counter w) (u64 (c + 1)) in
  if negb (10000 <? c) then Ok w else
  r ← entropy_pool_extract (memory w) (pool w) reseed_seed 32;
  let '(p, m, n) := r in
  if negb (n =? 32) then Ok (mkWorld p m (chacha_counter w) (chacha_reseed_counter w)) else
  m ← xor_key m chacha_key reseed_seed 32;
  Ok (mkWorld p m (chacha_counter w) 0).

(** Any of the calls. *)
Inductive call := Add (data len bits : Z) | Decrease (bits : Z) | Seed | Reseed.
Definition exec (w : entropy_state) (c : call) : outcome entropy_state :=
  match c with
  | Add data len bits => p ← entropy_pool_add (memory w) (pool w) data len bits; Ok (mkWorld p (memory w) (chacha_counter w) (chacha_reseed_counter w))
  | Decrease bits => Ok (mkWorld (entropy_pool_decrease (pool w) bits) (memory w) (chacha_counter w) (chacha_reseed_counter w))
  | Seed => entropy_pool_seed w
  | Reseed => entropy_pool_reseed w
  end.
Fixpoint run (w : entropy_state) (cs : list call) : outcome entropy_state :=
  match cs with [] => Ok w | c :: cs => w ← exec w c; run w cs end.

(** ** The pool *)

Record pool_ok (p : entropy_pool) : Prop := {
  po_buffer : byte_array 64 (buffer p);
  po_pos : 0 <= write_pos p < 64;
  po_bits : 0 <= entropy_bits p <= 512;
}.

(** What mixing [l] in from position [pos] on does to byte [j]: every byte of [l]
    that comes to lie there is combined with it. *)
Definition mixed (pos : Z) (l : list Z) (j : nat) (x : Z) : Z :=
  foldl (fun x ib => if (pos + ib.1) mod 64 =? Z.of_nat j then Z.lxor x ib.2 else x) x (zip (seqZ 0 (len l)) l).

Lemma mixed_cons pos b l j x : 0 <= pos < 64 -> mixed pos (b :: l) j x = mixed ((pos + 1) mod 64) l j (if pos =? Z.of_nat j then Z.lxor x b else x).
Proof.
  intros Hp. unfold mixed. cbn [length]. rewrite (seqZ_cons 0) by lia. cbn [zip zip_with foldl fst snd]. rewrite Z.add_0_r, (Z.mod_small pos) by lia.
  replace (Z.pred (Z.of_nat (S (length l)))) with (len l) by lia. generalize (if pos =? Z.of_nat j then Z.lxor x b else x). change (Z.succ 0) with 1.
  assert (forall k y, foldl (fun x ib => if (pos + ib.1) mod 64 =? Z.of_nat j then Z.lxor x ib.2 else x) y (zip (seqZ (k + 1) (len l)) l) =
    foldl (fun x ib => if ((pos + 1) mod 64 + ib.1) mod 64 =? Z.of_nat j then Z.lxor x ib.2 else x) y (zip (seqZ k (len l)) l)) as H.
  { induction l as [|c l IH]; intros k y; [done|]. cbn [length]. rewrite (seqZ_cons (k + 1)), (seqZ_cons k) by lia. cbn [zip zip_with foldl fst snd].
    replace (Z.pred (Z.of_nat (S (length l)))) with (len l) by lia. replace (Z.succ (k + 1)) with (Z.succ k + 1) by lia. rewrite IH.
    rewrite Zplus_mod_idemp_l. by replace (pos + 1 + k) with (pos + (k + 1)) by lia. }
  apply (H 0).
Qed.
Lemma pool_mix_spec m l : forall data buf pos, bytes_at m data l -> Forall (in_u 8) l -> byte_array 64 buf -> 0 <= pos < 64 ->
  exists buf', pool_mix m data (length l) buf pos = Ok (buf', (pos + len l) mod 64) /\ byte_array 64 buf' /\
    forall j, buf' !! j = mixed pos l j <$> buf !! j.
Proof.
  induction l as [|b l IH]; intros data buf pos Hb Hl Hbuf Hp.
  { exists buf. cbn [pool_mix length]. rewrite Z.add_0_r, Z.mod_small by lia. split_and!; [done|done|]. intros j. by destruct (buf !! j). }
  apply bytes_at_cons in Hb as [H0 Hb]. apply list.Forall_cons in Hl as [Hbb Hl]. destruct Hbuf as [Hlen Hbytes].
  destruct (lookup_lt_is_Some_2 buf (Z.to_nat pos)) as [x Hx]; [lia|]. cbn [pool_mix length]. unfold rd. rewrite H0. cbn [deref]. rewrite bind_Ok.
  rewrite (proj2 (aget_Ok buf pos x) (conj (proj1 Hp) Hx)), bind_Ok, aset_Ok, bind_Ok by lia.
  assert (in_u 8 x) as Hxb by (rewrite list.Forall_forall in Hbytes; apply Hbytes; by apply list_elem_of_lookup_2 in Hx).
  assert (u64 (pos + 1) mod ENTROPY_POOL_SIZE = (pos + 1) mod 64) as -> by (by rewrite wrap_small by (unfold in_u; lia)).
  destruct (IH (data + 1) (<[Z.to_nat pos := Z.lxor x b]> buf) ((pos + 1) mod 64)) as (buf' & E & Hok & Hj); [done|done| |apply Z.mod_pos_bound; lia|].
  { split; [by rewrite length_insert|]. apply Forall_insert; [done|by apply lxor_range]. }
  exists buf'. rewrite E. split_and!; [rewrite Zplus_mod_idemp_l; by replace (pos + Z.of_nat (S (length l))) with (pos + 1 + len l) by lia|done|].
  intros j. rewrite Hj. destruct (buf !! j) as [y|] eqn:Hy.
  - cbn [fmap option_fmap option_map]. rewrite mixed_cons by done. destruct (Z.eqb_spec pos (Z.of_nat j)) as [->|Hne].
    + rewrite Nat2Z.id in *. rewrite list_lookup_insert_eq by lia. simplify_eq. done.
    + rewrite list_lookup_insert_ne by lia. by rewrite Hy.
  - rewrite lookup_ge_None in Hy. rewrite (proj2 (lookup_ge_None _ j)) by (rewrite length_insert; lia). done.
Qed.

(** ** What the calls do *)

(** The pool, the key, the nonce and the counter of reseeds. *)
Record abs := mkAbs { apool : entropy_pool; akey : list Z; anonce : list Z; acount : Z }.
Inductive acall := AAdd (l : list Z) (bits : Z) | ADecrease (bits : Z) | ASeed | AReseed.
(** 32 bytes of the key stream for the first half of the pool. *)
Definition extracted (p : entropy_pool) (nonce : list Z) : list Z := Rfc8439.cipher (take 32 (buffer p)) nonce 0 (replicate 32 0).
Definition astep (a : abs) (c : acall) : abs :=
  let p := apool a in
  match c with
  | AAdd l bits => mkAbs (mkPool (imap (mixed (write_pos p) l) (buffer p)) ((write_pos p + len l) mod 64) (Z.min 512 (u64 (entropy_bits p + bits)))) (akey a) (anonce a) (acount a)
  | ADecrease bits => mkAbs (with_bits p (Z.max 0 (entropy_bits p - bits))) (akey a) (anonce a) (acount a)
  | ASeed => if entropy_bits p <? 256 then a else mkAbs (with_bits p (entropy_bits p - 256)) (extracted p (anonce a)) (replicate 12 0) (acount a)
  | AReseed =>
      if entropy_bits p <? 128 then a else
      if (acount a <=? 10000) || (entropy_bits p <? 256) then mkAbs p (akey a) (anonce a) (u64 (acount a + 1)) else
      mkAbs (with_bits p (entropy_bits p - 256)) (zip_with Z.lxor (akey a) (extracted p (anonce a))) (anonce a) 0
  end.

#[local] Opaque Rfc8439.cipher Rfc8439.block.

(** The objects are apart from each other. *)
Definition apart (p n q k : Z) : Prop := p + n <= q \/ q + k <= p.
Definition objects : list (Z * Z) := [(chacha_key, 32); (chacha_nonce, 12); (seed, 32); (zeros, 64); (reseed_seed, 32)].
Definition all_apart : Prop := ForallOrdPairs (fun a b => apart a.1 a.2 b.1 b.2) objects.
Definition outside (a : Z) : Prop := Forall (fun o => ~ (o.1 <= a < o.1 + o.2)) objects.

(** The state is as [a] says; the memory outside the objects is that of [m0]. *)
Record rep (m0 : mem) (w : entropy_state) (a : abs) : Prop := {
  re_pool : pool w = apool a /\ pool_ok (apool a);
  re_key : bytes_at (memory w) chacha_key (akey a) /\ byte_array 32 (akey a);
  re_nonce : bytes_at (memory w) chacha_nonce (anonce a) /\ byte_array 12 (anonce a);
  re_locals : mapped (memory w) seed 32 /\ mapped (memory w) zeros 64 /\ mapped (memory w) reseed_seed 32;
  re_count : chacha_reseed_counter w = acount a /\ in_u 64 (acount a);
  re_rest : forall x, outside x -> memory w !! x = m0 !! x;
}.
(** The data of a call lies outside the objects. *)
Definition means (m0 : mem) (c : call) (ac : acall) : Prop :=
  match c, ac with
  | Add data n bits, AAdd l bits' => bits' = bits /\ n = len l /\ bytes_at m0 data l /\ Forall (in_u 8) l /\ (forall x, data <= x < data + n -> outside x)
  | Decrease bits, ADecrease bits' => bits' = bits /\ 0 <= bits
  | Seed, ASeed => True
  | Reseed, AReseed => True
  | _, _ => False
  end.

Context (Hap : all_apart).
Lemma apart_facts : apart chacha_key 32 chacha_nonce 12 /\ apart chacha_key 32 seed 32 /\ apart chacha_key 32 zeros 64 /\ apart chacha_key 32 reseed_seed 32 /\
  apart chacha_nonce 12 seed 32 /\ apart chacha_nonce 12 zeros 64 /\ apart chacha_nonce 12 reseed_seed 32 /\
  apart seed 32 zeros 64 /\ apart seed 32 reseed_seed 32 /\ apart zeros 64 reseed_seed 32.
Proof.
  unfold all_apart, objects in Hap. repeat match goal with
  | H : ForallOrdPairs _ (_ :: _) |- _ => inversion H; subst; clear H
  | H : List.Forall _ (_ :: _) |- _ => inversion H; subst; clear H
  end. cbn [fst snd] in *. done.
Qed.

Lemma extracted_bytes p nonce : pool_ok p -> byte_array 12 nonce -> byte_array 32 (extracted p nonce).
Proof.
  intros [[Hl Hb] _ _] Hn. unfold extracted. split; [by rewrite length_cipher|]. apply cipher_bytes; [|done|by apply Forall_replicate].
  split; [rewrite length_take; lia|by apply Forall_take].
Qed.
Lemma rest_put (m0 m : mem) i p n l : objects !! i = Some (p, n) -> len l = n -> (forall x, outside x -> m !! x = m0 !! x) -> forall x, outside x -> put m p l !! x = m0 !! x.
Proof.
  intros Hin%list_elem_of_lookup_2 Hl H x Hx. rewrite lookup_put_out; [by apply H|]. rewrite Hl. unfold outside in Hx. rewrite list.Forall_forall in Hx. exact (Hx _ Hin).
Qed.

Lemma extract_spec m p out nonce : pool_ok p -> bytes_at m chacha_nonce nonce -> byte_array 12 nonce -> mapped m seed 32 -> mapped m zeros 64 -> mapped m out 32 ->
  apart chacha_nonce 12 out 32 -> apart seed 32 out 32 -> apart zeros 64 out 32 -> 256 <= entropy_bits p ->
  entropy_pool_extract m p out 32 = Ok (with_bits p (entropy_bits p - 256), put (put (put m seed (take 32 (buffer p))) zeros (replicate 64 0)) out (extracted p nonce), 32).
Proof.
  intros [[Hlb Hbb] Hpos Hbits] Hn Hnb Hms Hmz Hmo A1 A2 A3 H256. unfold apart in *. destruct apart_facts as (_ & _ & _ & _ & B1 & B2 & _ & B3 & _ & _). unfold apart in *.
  unfold entropy_pool_extract. change (to_bits 32) with 256.
  destruct (Z.ltb_spec (entropy_bits p) 256); [lia|]. destruct (Z.leb_spec 256 (entropy_bits p)); [|lia].
  assert (length (take 32 (buffer p)) = 32%nat) as Hlt by (rewrite length_take; lia).
  rewrite store_bytes_put, bind_Ok by (by rewrite Hlt). rewrite store_bytes_put, bind_Ok by (by apply mapped_put).
  pose proof (encrypt_spec (put (put m seed (take 32 (buffer p))) zeros (replicate 64 0)) seed chacha_nonce 0 zeros out (replicate 32 0) (take 32 (buffer p)) nonce) as HE.
  change (len (replicate 32 0)) with 32 in HE. rewrite HE; [by rewrite bind_Ok, wrap_small by (unfold in_u; lia)| |done|done| |by do 2 apply mapped_put|lia].
  - split; [|(do 2 (apply bytes_at_put_ne; [rewrite ?length_replicate, ?Hlt, ?(proj1 Hnb); lia|])); done|split; [done|by apply Forall_take]|done|lia|lia].
    apply bytes_at_put_ne; [rewrite length_replicate, Hlt; lia|apply bytes_at_put].
  - intros i b Hi. apply bytes_at_put. apply lookup_replicate in Hi as [-> Hi]. apply lookup_replicate. lia.
Qed.

Lemma rep_add m0 w a data l bits : rep m0 w a -> means m0 (Add data (len l) bits) (AAdd l bits) -> exists w', exec w (Add data (len l) bits) = Ok w' /\ rep m0 w' (astep a (AAdd l bits)).
Proof.
  intros [[Hp [Hb Hpos Hbits]] Hk Hn Hm Hc Hr] (_ & _ & Hd & Hl & Hout). cbn [exec]. unfold entropy_pool_add. rewrite Hp, Nat2Z.id.
  destruct (pool_mix_spec (memory w) l data (buffer (apool a)) (write_pos (apool a))) as (buf' & E & Hb' & Hj); [|done|done|done|].
  { intros i b Hi. rewrite Hr; [by apply Hd|]. apply Hout. apply lookup_lt_Some in Hi. lia. }
  rewrite E, !bind_Ok. eexists. split; [done|]. cbn [fst snd].
  replace buf' with (imap (mixed (write_pos (apool a)) l) (buffer (apool a))) in * by (apply list_eq; intros j; by rewrite list_lookup_imap, Hj).
  split; try done. cbn [pool astep apool]. change ENTROPY_MAX_BITS with 512. pose proof (wrap_range 64 (entropy_bits (apool a) + bits) ltac:(lia)) as [H1 H2].
  split; [f_equal; destruct (Z.ltb_spec 512 (u64 (entropy_bits (apool a) + bits))); lia|].
  split; cbn [buffer write_pos entropy_bits]; [done|apply Z.mod_pos_bound; lia|lia].
Qed.
Lemma rep_decrease m0 w a bits : 0 <= bits -> rep m0 w a -> exists w', exec w (Decrease bits) = Ok w' /\ rep m0 w' (astep a (ADecrease bits)).
Proof.
  intros H0 [[Hp [Hb Hpos Hbits]] Hk Hn Hm Hc Hr]. eexists. split; [done|]. split; try done. cbn [pool astep apool]. unfold entropy_pool_decrease. rewrite Hp. split.
  - f_equal. destruct (Z.ltb_spec bits (entropy_bits (apool a))); [|lia]. rewrite wrap_small by (unfold in_u; lia). lia.
  - split; cbn; (done || lia).
Qed.
Lemma rep_seed m0 w a : rep m0 w a -> exists w', exec w Seed = Ok w' /\ rep m0 w' (astep a ASeed).
Proof.
  intros HR. pose proof HR as [[Hp Hok] [Hk Hkb] [Hn Hnb] (M1 & M2 & M3) Hc Hr]. cbn [exec astep]. unfold entropy_pool_seed, entropy_pool_bits. rewrite Hp.
  destruct (Z.ltb_spec (entropy_bits (apool a)) 256); [by exists w|]. destruct apart_facts as (A1 & A2 & A3 & A4 & B1 & B2 & B3 & C1 & C2 & D1). unfold apart in *.
  pose proof (extracted_bytes _ _ Hok Hnb) as [Hel Heb]. assert (length (take 32 (buffer (apool a))) = 32%nat) as Hlt by (rewrite length_take; destruct Hok as [[? _] _ _]; lia).
  rewrite (extract_spec _ _ chacha_key (anonce a)); try done; [|replace 32 with (len (akey a)) by (by rewrite (proj1 Hkb)); by apply bytes_at_mapped|unfold apart; lia..].
  rewrite bind_Ok. cbn [negb Z.eqb Pos.eqb]. rewrite memset_spec, bind_Ok; [|done|].
  2:{ do 3 apply mapped_put. replace 12 with (len (anonce a)) by (rewrite (proj1 Hnb); done). by apply bytes_at_mapped. }
  eexists. split; [done|]. change (u8 0) with 0. change (Z.to_nat 12) with 12%nat. split; cbn [pool memory chacha_reseed_counter apool akey anonce acount].
  - split; [done|]. destruct Hok as [? ? ?]. split; cbn; (done || lia).
  - split; [|done]. apply bytes_at_put_ne; [rewrite Hel, length_replicate; lia|apply bytes_at_put].
  - split; [apply bytes_at_put|]. split; [done|by apply Forall_replicate].
  - split_and!; by repeat apply mapped_put.
  - done.
  - apply (rest_put m0 _ 1%nat chacha_nonce 12); [done|done|]. apply (rest_put m0 _ 0%nat chacha_key 32); [done|by rewrite Hel|].
    apply (rest_put m0 _ 3%nat zeros 64); [done|done|]. apply (rest_put m0 _ 2%nat seed 32); [done|by rewrite Hlt|done].
Qed.
Lemma xor_key_spec n : forall m k s l1 l2, length l1 = n -> length l2 = n -> bytes_at m k l1 -> bytes_at m s l2 -> apart k (Z.of_nat n) s (Z.of_nat n) ->
  xor_key m k s n = Ok (put m k (zip_with Z.lxor l1 l2)).
Proof.
  induction n as [|n IH]; intros m k s [|a l1] [|b l2] H1 H2 Hk Hs Ha; try done. apply bytes_at_cons in Hk as [Hk0 Hk]. apply bytes_at_cons in Hs as [Hs0 Hs].
  unfold apart in *. cbn [xor_key zip_with put]. unfold rd. rewrite Hk0, Hs0. cbn [deref]. rewrite !bind_Ok, wr_Ok, bind_Ok by by eexists. cbn [length] in *.
  rewrite (IH _ (k + 1) (s + 1) l1 l2); [done|lia|lia| | |lia].
  - apply (bytes_at_put_ne m k [Z.lxor a b]); [cbn; lia|done].
  - apply (bytes_at_put_ne m k [Z.lxor a b]); [cbn; lia|done].
Qed.
Lemma lxor_bytes l1 : forall l2, Forall (in_u 8) l1 -> Forall (in_u 8) l2 -> Forall (in_u 8) (zip_with Z.lxor l1 l2).
Proof.
  induction l1 as [|a l1 IH]; intros [|b l2] H1 H2; try by constructor. apply list.Forall_cons in H1 as [? ?]. apply list.Forall_cons in H2 as [? ?].
  cbn [zip_with]. apply list.Forall_cons. split; [by apply lxor_range|by apply IH].
Qed.
Lemma rep_reseed m0 w a : rep m0 w a -> exists w', exec w Reseed = Ok w' /\ rep m0 w' (astep a AReseed).
Proof.
  intros HR. pose proof HR as [[Hp Hok] [Hk Hkb] [Hn Hnb] (M1 & M2 & M3) [Hc Hcr] Hr]. cbn [exec astep]. unfold entropy_pool_reseed, entropy_pool_bits. rewrite Hp, Hc.
  destruct (Z.leb_spec 128 (entropy_bits (apool a))), (Z.ltb_spec (entropy_bits (apool a)) 128); try lia; cbn [negb]; [|by exists w].
  destruct (Z.ltb_spec 10000 (acount a)), (Z.leb_spec (acount a) 10000); try lia; cbn [negb orb].
  2:{ eexists. split; [done|]. split; try done. split; [done|by apply wrap_range]. }
  destruct (Z.ltb_spec (entropy_bits (apool a)) 256).
  { unfold entropy_pool_extract. cbn [pool memory]. change (to_bits 32) with 256. destruct (Z.ltb_spec (entropy_bits (apool a)) 256); [|lia].
    rewrite bind_Ok. cbn [negb Z.eqb]. eexists. split; [done|]. split; try done. split; [done|by apply wrap_range]. }
  destruct apart_facts as (A1 & A2 & A3 & A4 & B1 & B2 & B3 & C1 & C2 & D1). unfold apart in *.
  pose proof (extracted_bytes _ _ Hok Hnb) as [Hel Heb]. assert (length (take 32 (buffer (apool a))) = 32%nat) as Hlt by (rewrite length_take; destruct Hok as [[? _] _ _]; lia).
  cbn [pool memory]. rewrite (extract_spec _ _ reseed_seed (anonce a)); try done. rewrite bind_Ok. cbn [negb Z.eqb Pos.eqb]. destruct Hkb as [Hkl Hkb].
  rewrite (xor_key_spec 32 _ _ _ (akey a) (extracted (apool a) (anonce a))), bind_Ok; [|done|done| |apply bytes_at_put|unfold apart; lia].
  2:{ do 3 (apply bytes_at_put_ne; [rewrite Hkl, ?Hel, ?Hlt, ?length_replicate; lia|]). done. }
  assert (length (zip_with Z.lxor (akey a) (extracted (apool a) (anonce a))) = 32%nat) as Hzl by (rewrite length_zip_with; lia).
  eexists. split; [done|]. split; cbn [pool memory chacha_reseed_counter apool akey anonce acount].
  - split; [done|]. destruct Hok as [? ? ?]. split; cbn; (done || lia).
  - split; [apply bytes_at_put|]. split; [done|by apply lxor_bytes].
  - split; [|done]. do 4 (apply bytes_at_put_ne; [rewrite (proj1 Hnb), ?Hel, ?Hzl, ?Hlt, ?length_replicate; lia|]). done.
  - split_and!; by repeat apply mapped_put.
  - done.
  - apply (rest_put m0 _ 0%nat chacha_key 32); [done|by rewrite Hzl|]. apply (rest_put m0 _ 4%nat reseed_seed 32); [done|by rewrite Hel|].
    apply (rest_put m0 _ 3%nat zeros 64); [done|done|]. apply (rest_put m0 _ 2%nat seed 32); [done|by rewrite Hlt|done].
Qed.

Lemma exec_rep m0 w a c ac : rep m0 w a -> means m0 c ac -> exists w', exec w c = Ok w' /\ rep m0 w' (astep a ac).
Proof.
  intros HR HM. destruct c as [data n bits|bits| |], ac as [l bits'|bits'| |]; try done.
  - destruct HM as (-> & -> & HM). apply rep_add; [done|]. by split; [|split].
  - destruct HM as [-> H0]. by apply rep_decrease.
  - by apply rep_seed.
  - by apply rep_reseed.
Qed.
Lemma run_rep m0 cs : forall w a acs, rep m0 w a -> Forall2 (means m0) cs acs -> exists w', run w cs = Ok w' /\ rep m0 w' (foldl astep a acs).
Proof.
  induction cs as [|c cs IH]; intros w a acs HR HF; [apply Forall2_nil_inv_l in HF as ->; by exists w|].
  apply Forall2_cons_inv_l in HF as (ac & acs' & HM & HF & ->). destruct (exec_rep m0 w a c ac HR HM) as (w1 & E1 & H1).
  destruct (IH w1 _ acs' H1 HF) as (w2 & E2 & H2). exists w2. cbn [run foldl]. by rewrite E1, bind_Ok.
Qed.

(** ** Reseeding from an unchanged pool *)

Lemma reseed_idle a k : 128 <= entropy_bits (apool a) -> 0 <= acount a -> acount a + Z.of_nat k <= 10001 ->
  foldl astep a (replicate k AReseed) = mkAbs (apool a) (akey a) (anonce a) (acount a + Z.of_nat k).
Proof.
  revert a. induction k as [|k IH]; intros a Hb H0 Hk; [rewrite Z.add_0_r; by destruct a|]. cbn [replicate foldl astep].
  destruct (Z.ltb_spec (entropy_bits (apool a)) 128); [lia|]. rewrite (proj2 (Z.leb_le (acount a) 10000)) by lia. cbn [orb].
  rewrite wrap_small by (unfold in_u; lia). rewrite IH by (cbn; lia). cbn [apool akey anonce acount]. f_equal. lia.
Qed.
Lemma lxor_self l : zip_with Z.lxor l l = replicate (length l) 0.
Proof. induction l as [|b l IH]; [done|]. cbn. by rewrite Z.lxor_nilpotent, IH. Qed.
Lemma seed_reseed_zero a k : pool_ok (apool a) -> entropy_bits (apool a) = 512 -> anonce a = replicate 12 0 -> acount a = 0 -> Z.of_nat k = 10002 ->
  foldl astep a (ASeed :: replicate k AReseed) = mkAbs (with_bits (apool a) 0) (replicate 32 0) (replicate 12 0) 0.
Proof.
  intros Hok Hb Hn Hc Hk. destruct k as [|k]; [lia|]. rewrite replicate_S_end. cbn [foldl]. rewrite foldl_app.
  cbn [astep]. rewrite Hb, Hn, Hc. change (512 <? 256) with false. cbn match. change (512 - 256) with 256.
  rewrite reseed_idle by (cbn [apool entropy_bits with_bits acount]; lia). cbn [foldl astep apool akey anonce acount entropy_bits with_bits].
  replace (0 + Z.of_nat k) with 10001 by lia. cbn [Z.ltb Z.leb Z.compare Pos.compare Pos.compare_cont orb].
  change (extracted (with_bits (apool a) 256) (replicate 12 0)) with (extracted (apool a) (replicate 12 0)). rewrite lxor_self.
  destruct (extracted_bytes (apool a) (replicate 12 0) Hok) as [-> _]; [|done]. split; [done|by apply Forall_replicate].
Qed.
End Addresses.

Lemma means_reseeds key nonce seed zeros reseed_seed m0 k : Forall2 (means key nonce seed zeros reseed_seed m0) (Seed :: replicate k Reseed) (ASeed :: replicate k AReseed).
Proof. constructor; [done|]. induction k as [|k IH]; [constructor|]. cbn [replicate]. by constructor. Qed.

(** C22: Any sequence of calls on the pool runs without a fault and does what the
    abstract pool does: adding combines every byte with the one at its place and
    counts the bits up to 512; seeding takes 256 bits, if there are so many, and
    makes the first 32 bytes of the ChaCha20 key stream of the first half of the
    pool the key; reseeding does so at most every 10002 calls and combines the
    result with the key; the byte positions and the bits stay in their bounds, and
    nothing outside the arrays of the file changes. *)
Theorem entropy_pool_refines key nonce seed zeros reseed_seed m0 w a cs acs :
  all_apart key nonce seed zeros reseed_seed -> rep key nonce seed zeros reseed_seed m0 w a -> Forall2 (means key nonce seed zeros reseed_seed m0) cs acs ->
  exists w', run key nonce seed zeros reseed_seed w cs = Ok w' /\ rep key nonce seed zeros reseed_seed m0 w' (foldl astep a acs).
Proof. intros Hap HR HF. by apply run_rep. Qed.

(** A pool full of entropy, and a zero key. *)
Definition demo_pool : entropy_pool := mkPool (seqZ 0 64) 5 512.
Definition demo_world : entropy_state := mkWorld demo_pool (put ∅ 0 (replicate 320 0)) 0 0.
Definition demo_abs : abs := mkAbs demo_pool (replicate 32 0) (replicate 12 0) 0.
Lemma demo_apart : all_apart 0 32 64 96 160.
Proof. unfold all_apart, objects, apart. repeat constructor; cbn; lia. Qed.
Lemma demo_rep : rep 0 32 64 96 160 (memory demo_world) demo_world demo_abs.
Proof.
  split.
  - split; [done|]. split; [|done|done]. split; [done|]. apply (bool_decide_unpack _). by vm_compute.
  - split; [apply bytes_at_check; by vm_compute|]. split; [done|by apply Forall_replicate].
  - split; [apply bytes_at_check; by vm_compute|]. split; [done|by apply Forall_replicate].
  - split_and!; (apply mapped_check; [done|vm_compute; by eexists]).
  - split; [done|by vm_compute].
  - done.
Qed.
Lemma entropy_pool_refines_witness :
  exists w', run 0 32 64 96 160 demo_world [Add 200 2 8; Decrease 3; Seed; Reseed] = Ok w' /\
    entropy_bits (pool w') = 253 /\ write_pos (pool w') = 7 /\ bytes_at (memory w') 0 (akey (foldl astep demo_abs [AAdd [0; 0] 8; ADecrease 3; ASeed; AReseed])).
Proof.
  destruct (entropy_pool_refines 0 32 64 96 160 (memory demo_world) demo_world demo_abs [Add 200 2 8; Decrease 3; Seed; Reseed] [AAdd [0; 0] 8; ADecrease 3; ASeed; AReseed]) as (w' & HE & HR).
  - exact demo_apart.
  - exact demo_rep.
  - apply list.Forall2_cons. split; [|by repeat (apply list.Forall2_cons; split; [done|])].
    split_and!; [done|done|apply bytes_at_check; by vm_compute|apply (bool_decide_unpack _); by vm_compute|].
    intros x Hx. unfold outside, objects. repeat (apply list.Forall_cons; split; [cbn; lia|]). by apply list.Forall_nil.
  - exists w'. split; [exact HE|]. destruct HR as [[-> _] [Hk _] _ _ _ _]. split_and!; [reflexivity|reflexivity|exact Hk].
Defined.

(** C36: Seeding and then reseeding from a full pool to which nothing was added in
    between leaves the key at all zeros: extracting does not change the bytes of the
    pool, so both give the same 32 bytes, and reseeding combines them by exclusive
    or. *)
Theorem entropy_reseed_zero_key key nonce seed zeros reseed_seed m0 w a :
  all_apart key nonce seed zeros reseed_seed -> rep key nonce seed zeros reseed_seed m0 w a ->
  entropy_bits (pool w) = 512 -> anonce a = replicate 12 0 -> chacha_reseed_counter w = 0 ->
  exists w', run key nonce seed zeros reseed_seed w (Seed :: replicate (Z.to_nat 10002) Reseed) = Ok w' /\ bytes_at (memory w') key (replicate 32 0).
Proof.
  intros Hap HR Hb Hn Hc. pose proof HR as [[Hp Hok] _ _ _ [Hcount _] _].
  destruct (run_rep key nonce seed zeros reseed_seed Hap m0 (Seed :: replicate (Z.to_nat 10002) Reseed) w a _ HR (means_reseeds key nonce seed zeros reseed_seed m0 (Z.to_nat 10002))) as (w' & HE & HR').
  exists w'. split; [exact HE|]. rewrite seed_reseed_zero in HR'; [|done|by rewrite <- Hp|done|by rewrite <- Hcount|apply Z2Nat.id; lia].
  destruct HR' as [_ [Hk _] _ _ _ _]. exact Hk.
Qed.
Lemma entropy_reseed_zero_key_witness : exists w', run 0 32 64 96 160 demo_world (Seed :: replicate (Z.to_nat 10002) Reseed) = Ok w' /\ bytes_at (memory w') 0 (replicate 32 0).
Proof. apply (entropy_reseed_zero_key 0 32 64 96 160 (memory demo_world) demo_world demo_abs); [exact demo_apart|exact demo_rep|reflexivity..]. Defined.
