(* ===== verification/FixedSize.v ===== *)
(** * The allocator of objects of one size

    [kernel/mem/fixed_size_alloc.c] and [include/mem/fixed_size_alloc.h]: pages of
    objects with a free list through them.  Two interfaces: [PagePool] is what the
    file expects of the page allocator behind [pmm_alloc_page] and [pmm_free_page]
    (addresses are those of the direct map), [ObjAlloc] is what the file promises
    its callers, and [fixed_size_obj_alloc] shows that it does.  A list is the list
    of its nodes.  Ranges per memory domain and the hooks on objects are not
    modelled; every call runs under the lock of the range. *)

From S2P Require Import Prelude BitMath BuddyPage Rbt RbtShape.

Lemma filter_ext {A} (P Q : A -> Prop) `{!forall x, Decision (P x), !forall x, Decision (Q x)} (l : list A) : (forall x, x ∈ l -> P x <-> Q x) -> filter P l = filter Q l.
Proof.
  induction l as [|x l IH]; intros HPQ; [done|]. rewrite !filter_cons, IH by (intros y Hy; apply HPQ; by right).
  specialize (HPQ x (list_elem_of_here x l)). repeat case_decide; tauto.
Qed.

(** A page of the direct map. *)
Definition page_addr (p : Z) : Prop := 0 < p /\ p + PAGE_SIZE <= 2 ^ 64 /\ p mod PAGE_SIZE = 0.

(** [pmm_alloc_page] gives a page that is not in use, or [NULL] (0). *)
Class PagePool (P : Type) := {
  pool_held : P -> gset Z;
  pool_alloc : P -> Z * P;
  pool_free : P -> Z -> P;
  pool_alloc_null s : (pool_alloc s).1 = 0 -> pool_held (pool_alloc s).2 = pool_held s;
  pool_alloc_page s : (pool_alloc s).1 <> 0 ->
    page_addr (pool_alloc s).1 /\ ((pool_alloc s).1 ∉ pool_held s) /\ pool_held (pool_alloc s).2 = {[(pool_alloc s).1]} ∪ pool_held s;
  pool_free_held s p : (p ∈ pool_held s) -> pool_held (pool_free s p) = pool_held s ∖ {[p]};
}.

(** Objects that can be nodes of a tree: [obj_live] are those handed out. *)
Class ObjAlloc (F : Type) := {
  obj_ok : F -> Prop;
  obj_live : F -> gset Z;
  obj_alloc : F -> outcome (Z * F);
  obj_free : F -> Z -> outcome F;
  obj_reclaim : F -> outcome F;
  obj_alloc_ok f : obj_ok f -> exists p f', obj_alloc f = Ok (p, f') /\ obj_ok f' /\
    ((p = 0 /\ obj_live f' = obj_live f) \/ (ok_addr p /\ (p ∉ obj_live f) /\ obj_live f' = {[p]} ∪ obj_live f));
  obj_free_ok f p : obj_ok f -> (p ∈ obj_live f) -> exists f', obj_free f p = Ok f' /\ obj_ok f' /\ obj_live f' = obj_live f ∖ {[p]};
  obj_reclaim_ok f : obj_ok f -> exists f', obj_reclaim f = Ok f' /\ obj_ok f' /\ obj_live f' = obj_live f;
}.

Definition FIXED_SIZE_KEEP_EMPTY_PAGES : Z := 1.
Definition DOMAIN_ID_NONE : Z := 2 ^ 64 - 1.
(** [sizeof(struct fixed_size_page_hdr)] and [sizeof(struct fixed_size_node)]. *)
Definition sizeof_hdr : Z := 40.
Definition sizeof_fsn : Z := 16.

(** The links of [page_list] are the list [fl_pages]. *)
Record fixed_size_page_hdr := mkPageHdr { hdr_domain : Z; free_count : Z; total : Z }.
Record fixed_size_range_attributes := mkAttrs { obj_size : Z; obj_align : Z }.

Section FixedSize.
Context {P : Type} `{!PagePool P}.

(** [struct fixed_size_range], with the headers of its pages and the page
    allocator. *)
Record fixed_size_range := mkFsr {
  attrs : fixed_size_range_attributes;
  freelist : list Z;
  fl_pages : list Z;
  empty_pages : Z;
  full_node_size : Z;
  fsr_domain : Z;
  hdrs : gmap Z fixed_size_page_hdr;
  pool : P;
}.
Definition with_free (r : fixed_size_range) (l : list Z) : fixed_size_range :=
  mkFsr (attrs r) l (fl_pages r) (empty_pages r) (full_node_size r) (fsr_domain r) (hdrs r) (pool r).
Definition with_hdr (r : fixed_size_range) (p : Z) (h : fixed_size_page_hdr) : fixed_size_range :=
  mkFsr (attrs r) (freelist r) (fl_pages r) (empty_pages r) (full_node_size r) (fsr_domain r) (<[p := h]> (hdrs r)) (pool r).
Definition with_empty (r : fixed_size_range) (n : Z) : fixed_size_range :=
  mkFsr (attrs r) (freelist r) (fl_pages r) n (full_node_size r) (fsr_domain r) (hdrs r) (pool r).

Definition fixed_size_header_size (r : fixed_size_range) : outcome Z := ALIGN_UP sizeof_hdr (obj_align (attrs r)).
Definition fixed_size_per_page (r : fixed_size_range) : outcome Z :=
  hs ← fixed_size_header_size r;
  if full_node_size r =? 0 then Fault else Ok (u64 (PAGE_SIZE - hs) `div` full_node_size r).
Definition fsn_for_obj (r : fixed_size_range) (obj : Z) : Z := u64 (obj + full_node_size r - sizeof_fsn).
Definition obj_for_fsn (r : fixed_size_range) (fsn : Z) : Z := u64 (fsn - (full_node_size r - sizeof_fsn)).
Definition fixed_size_obj_n (r : fixed_size_range) (hdr n : Z) : outcome Z :=
  hs ← fixed_size_header_size r; Ok (u64 (hdr + hs + full_node_size r * n)).
Definition fixed_size_page_of (o : Z) : outcome Z := ALIGN_DOWN o PAGE_SIZE.

(** The loop over the objects [n] of a page that unlinks their nodes. *)
Fixpoint unlink_nodes (r : fixed_size_range) (hdr : Z) (l : list Z) (fl : list Z) : outcome (list Z) :=
  match l with
  | [] => Ok fl
  | n :: l => obj ← fixed_size_obj_n r hdr n; unlink_nodes r hdr l (filter (fun x => x <> fsn_for_obj r obj) fl)
  end.
Definition fixed_size_drop_page (r : fixed_size_range) (hdr : Z) : outcome fixed_size_range :=
  h ← deref (hdrs r !! hdr);
  fl ← unlink_nodes r hdr (seqZ 0 (total h)) (freelist r);
  Ok (mkFsr (attrs r) fl (filter (fun x => x <> hdr) (fl_pages r)) (u64 (empty_pages r - 1)) (full_node_size r) (fsr_domain r)
        (delete hdr (hdrs r)) (pool_free (pool r) hdr)).

(** The loop that links the nodes of a new page. *)
Fixpoint link_nodes (r : fixed_size_range) (hdr : Z) (l : list Z) (fl : list Z) : outcome (list Z) :=
  match l with
  | [] => Ok fl
  | n :: l => obj ← fixed_size_obj_n r hdr n; link_nodes r hdr l (fl ++ [fsn_for_obj r obj])
  end.
Definition fixed_size_refill (r : fixed_size_range) : outcome (bool * fixed_size_range) :=
  let '(hdr, pl) := pool_alloc (pool r) in
  if hdr =? 0 then Ok (false, mkFsr (attrs r) (freelist r) (fl_pages r) (empty_pages r) (full_node_size r) (fsr_domain r) (hdrs r) pl) else
  n ← fixed_size_per_page r;
  fl ← link_nodes r hdr (seqZ 0 n) (freelist r);
  Ok (true, mkFsr (attrs r) fl (fl_pages r ++ [hdr]) (u64 (empty_pages r + 1)) (full_node_size r) (fsr_domain r)
              (<[hdr := mkPageHdr (fsr_domain r) n n]> (hdrs r)) pl).

(** The rest of [fixed_size_alloc], once the free list is not empty. *)
Definition pop_object (r : fixed_size_range) : outcome (Z * fixed_size_range) :=
  match freelist r with
  | [] => Fault
  | fsn :: fl =>
      let obj := obj_for_fsn r fsn in
      p ← fixed_size_page_of obj;
      h ← deref (hdrs r !! p);
      let r := with_free r fl in
      let r := if free_count h =? total h then with_empty r (u64 (empty_pages r - 1)) else r in
      Ok (obj, with_hdr r p (mkPageHdr (hdr_domain h) (u64 (free_count h - 1)) (total h)))
  end.
Definition fixed_size_alloc (r : fixed_size_range) : outcome (Z * fixed_size_range) :=
  if bool_decide (freelist r = []) then
    b ← fixed_size_refill r;
    let '(ok, r) := (b : bool * fixed_size_range) in
    if ok then pop_object r else Ok (0, r)
  else pop_object r.

Definition fixed_size_free_internal (r : fixed_size_range) (obj : Z) : outcome fixed_size_range :=
  p ← fixed_size_page_of obj;
  h ← deref (hdrs r !! p);
  let h := mkPageHdr (hdr_domain h) (u64 (free_count h + 1)) (total h) in
  let r := with_free (with_hdr r p h) (freelist r ++ [fsn_for_obj r obj]) in
  if negb (free_count h =? total h) then Ok r else
  let r := with_empty r (u64 (empty_pages r + 1)) in
  if FIXED_SIZE_KEEP_EMPTY_PAGES <? empty_pages r then fixed_size_drop_page r p else Ok r.
(** [perdomain_fsrs] is [NULL]. *)
Definition fixed_size_free (r : fixed_size_range) (obj : Z) : outcome fixed_size_range :=
  p ← fixed_size_page_of obj;
  h ← deref (hdrs r !! p);
  _ ← enforce (hdr_domain h =? DOMAIN_ID_NONE);
  fixed_size_free_internal r obj.

Fixpoint reclaim_pages (r : fixed_size_range) (l : list Z) : outcome fixed_size_range :=
  match l with
  | [] => Ok r
  | hdr :: l =>
      h ← deref (hdrs r !! hdr);
      r ← (if free_count h <? total h then Ok r else fixed_size_drop_page r hdr);
      reclaim_pages r l
  end.
Definition fixed_size_reclaim_freelist_pages (r : fixed_size_range) : outcome fixed_size_range := reclaim_pages r (fl_pages r).

Definition fixed_size_range_init (a : fixed_size_range_attributes) (pl : P) : outcome fixed_size_range :=
  _ ← enforce (negb (obj_size a =? 0) && negb (obj_align a =? 0));
  n ← ALIGN_UP (u64 (sizeof_fsn + obj_size a)) (obj_align a);
  Ok (mkFsr a [] [] 0 n DOMAIN_ID_NONE ∅ pl).

(** ** The layout of a page *)

Definition hsz (r : fixed_size_range) : Z := match fixed_size_header_size r with Ok h => h | _ => 0 end.
Definition npp (r : fixed_size_range) : Z := (PAGE_SIZE - hsz r) `div` full_node_size r.
(** Object [i] of page [p], and its node. *)
Definition objn (r : fixed_size_range) (p i : Z) : Z := p + hsz r + full_node_size r * i.
Definition noden (r : fixed_size_range) (p i : Z) : Z := objn r p i + full_node_size r - sizeof_fsn.

(** At least one object fits into a page, and objects are at even addresses. *)
Record geo (r : fixed_size_range) : Prop := {
  ge_hs : fixed_size_header_size r = Ok (hsz r);
  ge_hs_range : sizeof_hdr <= hsz r;
  ge_even : (2 | hsz r) /\ (2 | full_node_size r);
  ge_full : sizeof_fsn < full_node_size r;
  ge_fits : hsz r + full_node_size r <= PAGE_SIZE;
  ge_obj : sizeof_fsn + obj_size (attrs r) <= full_node_size r;
  ge_align : (obj_align (attrs r) | hsz r) /\ (obj_align (attrs r) | full_node_size r) /\ (obj_align (attrs r) | PAGE_SIZE);
}.

Lemma npp_range r : geo r -> 1 <= npp r /\ hsz r + full_node_size r * npp r <= PAGE_SIZE.
Proof.
  intros [_ H2 _ H4 H5 _ _]. unfold npp, sizeof_fsn, sizeof_hdr, PAGE_SIZE in *. split.
  - apply Z.div_le_lower_bound; lia.
  - pose proof (Z.mul_div_le (4096 - hsz r) (full_node_size r) ltac:(lia)). lia.
Qed.
Lemma per_page_ok r : geo r -> fixed_size_per_page r = Ok (npp r).
Proof.
  intros [H1 H2 _ H4 H5 _ _]. unfold fixed_size_per_page, npp, sizeof_fsn, sizeof_hdr, PAGE_SIZE in *. rewrite H1, bind_Ok.
  destruct (Z.eqb_spec (full_node_size r) 0); [lia|]. by rewrite wrap_small by (unfold in_u; lia).
Qed.
Lemma objn_range r p i : geo r -> 0 <= i < npp r -> p + sizeof_hdr <= objn r p i /\ objn r p i + full_node_size r <= p + PAGE_SIZE.
Proof. intros G Hi. pose proof (npp_range r G). destruct G as [_ H2 _ H4 _ _ _]. unfold objn, sizeof_fsn, sizeof_hdr, PAGE_SIZE in *. nia. Qed.
Lemma obj_n_ok r p i : geo r -> page_addr p -> 0 <= i < npp r -> fixed_size_obj_n r p i = Ok (objn r p i).
Proof.
  intros G (Hp & Hp2 & _) Hi. pose proof (objn_range r p i G Hi) as Hr. unfold fixed_size_obj_n. rewrite (ge_hs r G), bind_Ok. fold (objn r p i).
  rewrite wrap_small; [done|]. destruct G as [_ _ _ H4 _ _ _]. unfold in_u, sizeof_hdr, sizeof_fsn in *. lia.
Qed.
Lemma fsn_for_objn r p i : geo r -> page_addr p -> 0 <= i < npp r -> fsn_for_obj r (objn r p i) = noden r p i.
Proof.
  intros G (Hp & Hp2 & _) Hi. pose proof (objn_range r p i G Hi) as Hr. unfold fsn_for_obj, noden. rewrite wrap_small; [done|].
  destruct G as [_ _ _ H4 _ _ _]. unfold in_u, sizeof_hdr, sizeof_fsn in *. lia.
Qed.
Lemma obj_for_noden r p i : geo r -> page_addr p -> 0 <= i < npp r -> obj_for_fsn r (noden r p i) = objn r p i.
Proof.
  intros G (Hp & Hp2 & _) Hi. pose proof (objn_range r p i G Hi) as Hr. unfold obj_for_fsn, noden.
  replace (objn r p i + full_node_size r - sizeof_fsn - (full_node_size r - sizeof_fsn)) with (objn r p i) by lia.
  rewrite wrap_small; [done|]. destruct G as [_ _ _ H4 _ _ _]. unfold in_u, sizeof_hdr, sizeof_fsn in *. lia.
Qed.
Lemma page_of_objn r p i : geo r -> page_addr p -> 0 <= i < npp r -> fixed_size_page_of (objn r p i) = Ok p.
Proof.
  intros G (Hp & Hp2 & Hp3) Hi. pose proof (objn_range r p i G Hi) as Hr. destruct G as [_ _ _ H4 _ _ _]. unfold fixed_size_page_of, sizeof_hdr, sizeof_fsn, PAGE_SIZE in *.
  change 4096 with (2 ^ 12). rewrite ALIGN_DOWN_spec by (unfold in_u; lia). change (2 ^ 12) with 4096. f_equal.
  pose proof (Z.div_mod p 4096 ltac:(lia)). rewrite <- (Z.div_unique (objn r p i) 4096 (p `div` 4096) (objn r p i - p)) by lia. lia.
Qed.
Lemma objn_addr r p i : geo r -> page_addr p -> 0 <= i < npp r -> ok_addr (objn r p i).
Proof.
  intros G (Hp & Hp2 & Hp3) Hi. pose proof (objn_range r p i G Hi) as Hr. destruct G as [_ _ [[a Ha] [b Hb]] H4 _ _ _]. unfold sizeof_hdr, sizeof_fsn, PAGE_SIZE in *.
  split; [lia|]. change 1 with (Z.ones 1). rewrite Z.land_ones by lia. change (2 ^ 1) with 2.
  pose proof (Z.div_mod p 4096 ltac:(lia)) as Hd. rewrite Hp3 in Hd. unfold objn. rewrite Ha, Hb. rewrite Hd.
  replace (4096 * (p `div` 4096) + 0 + a * 2 + b * 2 * i) with ((2048 * (p `div` 4096) + a + b * i) * 2) by lia. apply Z.mod_mul. lia.
Qed.
Lemma noden_inj r p i q j : geo r -> page_addr p -> page_addr q -> 0 <= i < npp r -> 0 <= j < npp r -> noden r p i = noden r q j -> p = q /\ i = j.
Proof.
  intros G Hp Hq Hi Hj E. assert (objn r p i = objn r q j) as E' by (unfold noden in E; lia).
  assert (Ok p = Ok q) as [= ->] by (by rewrite <- (page_of_objn r p i), <- (page_of_objn r q j), E'). split; [done|].
  unfold objn in E'. destruct G as [_ _ _ H4 _ _ _]. unfold sizeof_fsn in *. nia.
Qed.

(** ** The invariant *)

(** The free nodes of a page. *)
Definition in_page (p x : Z) : Prop := p <= x < p + PAGE_SIZE.
#[local] Instance in_page_dec p x : Decision (in_page p x).
Proof. unfold in_page. apply _. Defined.
Record fsr_ok (r : fixed_size_range) : Prop := {
  fo_geo : geo r;
  fo_domain : fsr_domain r = DOMAIN_ID_NONE;
  fo_pages : NoDup (fl_pages r) /\ forall p, p ∈ fl_pages r -> page_addr p /\ (p ∈ pool_held (pool r));
  fo_hdrs : forall p, is_Some (hdrs r !! p) <-> p ∈ fl_pages r;
  fo_hdr : forall p h, hdrs r !! p = Some h -> h = mkPageHdr DOMAIN_ID_NONE (Z.of_nat (length (filter (in_page p) (freelist r)))) (npp r);
  fo_free : NoDup (freelist r) /\ forall x, x ∈ freelist r -> exists p i, p ∈ fl_pages r /\ 0 <= i < npp r /\ x = noden r p i;
}.
Definition page_nodes (r : fixed_size_range) (p : Z) : list Z := noden r p <$> seqZ 0 (npp r).
Definition fsr_live (r : fixed_size_range) : gset Z :=
  list_to_set (p ← fl_pages r; objn r p <$> seqZ 0 (npp r)) ∖ list_to_set (obj_for_fsn r <$> freelist r).

Lemma fsr_live_spec r o : fsr_ok r -> o ∈ fsr_live r <-> exists p i, p ∈ fl_pages r /\ 0 <= i < npp r /\ o = objn r p i /\ (noden r p i ∉ freelist r).
Proof.
  intros [G _ [_ Hp] _ _ [_ Hf]]. unfold fsr_live. rewrite elem_of_difference, !elem_of_list_to_set, list_elem_of_bind, list_elem_of_fmap. split.
  - intros [(p & Ho & Hpl) Hn]. apply list_elem_of_fmap in Ho as (i & -> & Hi%elem_of_seqZ). exists p, i. split_and!; [done|lia|lia|done|].
    intros Hin. apply Hn. exists (noden r p i). split; [|done]. symmetry. apply obj_for_noden; [done|by apply Hp|lia].
  - intros (p & i & Hpl & Hi & -> & Hn). split.
    + exists p. split; [|done]. apply list_elem_of_fmap. exists i. split; [done|]. apply elem_of_seqZ. lia.
    + intros (x & E & Hx). destruct (Hf x Hx) as (q & j & Hq & Hj & ->). rewrite obj_for_noden in E by (done || by apply Hp).
      apply Hn. by replace (noden r p i) with (noden r q j) by (unfold noden; lia).
Qed.
Lemma noden_in_page r p i q : geo r -> page_addr p -> page_addr q -> 0 <= i < npp r -> in_page q (noden r p i) <-> q = p.
Proof.
  intros G (Hp1 & Hp2 & Hp3) (Hq1 & Hq2 & Hq3) Hi. pose proof (objn_range r p i G Hi) as Hr. destruct G as [_ _ _ H4 _ _ _]. unfold in_page, noden, sizeof_hdr, sizeof_fsn, PAGE_SIZE in *.
  pose proof (Z.div_mod p 4096 ltac:(lia)). pose proof (Z.div_mod q 4096 ltac:(lia)). split; [nia|lia].
Qed.
(** A header tells how many of the nodes of its page are free. *)
Lemma page_count r p : fsr_ok r -> p ∈ fl_pages r -> filter (in_page p) (freelist r) ⊆+ page_nodes r p.
Proof.
  intros [G _ [_ Hp] _ _ [Hnd Hf]] Hpl. apply NoDup_submseteq; [by apply list.NoDup_filter|]. intros x [Hx Hin]%list_elem_of_filter.
  destruct (Hf x Hin) as (q & i & Hq & Hi & ->). apply noden_in_page in Hx as ->; [|done|by apply Hp|by apply Hp|done].
  apply list_elem_of_fmap. exists i. split; [done|]. apply elem_of_seqZ. lia.
Qed.
Lemma page_count_le r p : fsr_ok r -> p ∈ fl_pages r -> Z.of_nat (length (filter (in_page p) (freelist r))) <= npp r.
Proof.
  intros H Hp. pose proof (submseteq_length _ _ (page_count r p H Hp)) as Hl. unfold page_nodes in Hl. rewrite length_fmap, length_seqZ in Hl. pose proof (npp_range r (fo_geo r H)). lia.
Qed.
Lemma hdr_of r p : fsr_ok r -> p ∈ fl_pages r -> hdrs r !! p = Some (mkPageHdr DOMAIN_ID_NONE (Z.of_nat (length (filter (in_page p) (freelist r)))) (npp r)).
Proof. intros H Hp. destruct (proj2 (fo_hdrs r H p) Hp) as [h Hh]. rewrite Hh. f_equal. by apply (fo_hdr r H). Qed.
Lemma npp_small r : geo r -> npp r <= PAGE_SIZE.
Proof. intros G. pose proof (npp_range r G). destruct G as [_ H2 _ H4 _ _ _]. unfold sizeof_hdr, sizeof_fsn, PAGE_SIZE in *. nia. Qed.

(** ** The operations *)

(** What the layout depends on. *)
Lemma layout_eq r r' : attrs r' = attrs r -> full_node_size r' = full_node_size r ->
  hsz r' = hsz r /\ npp r' = npp r /\ (forall p i, objn r' p i = objn r p i) /\ (forall p i, noden r' p i = noden r p i) /\ (geo r -> geo r').
Proof.
  intros E1 E2. assert (hsz r' = hsz r) as E3 by (unfold hsz, fixed_size_header_size; by rewrite E1).
  assert (forall p i, objn r' p i = objn r p i) as E4 by (intros p i; unfold objn; by rewrite E2, E3).
  split_and!; [done|unfold npp; by rewrite E2, E3|done|intros p i; unfold noden; by rewrite E4, E2|].
  intros [H1 H2 H3 H4 H5 H6 H7]. split; rewrite ?E1, ?E2, ?E3; try done. unfold fixed_size_header_size in *. by rewrite E1.
Qed.
(** A change of the free list and of the headers that fits. *)
Lemma fsr_ok_update r r' : fsr_ok r -> attrs r' = attrs r -> full_node_size r' = full_node_size r -> fsr_domain r' = fsr_domain r -> fl_pages r' = fl_pages r -> pool r' = pool r ->
  NoDup (freelist r') -> (forall x, x ∈ freelist r' -> exists p i, p ∈ fl_pages r /\ 0 <= i < npp r /\ x = noden r p i) ->
  (forall p, hdrs r' !! p = if decide (p ∈ fl_pages r) then Some (mkPageHdr DOMAIN_ID_NONE (Z.of_nat (length (filter (in_page p) (freelist r')))) (npp r)) else None) -> fsr_ok r'.
Proof.
  intros [G Hd [Hnp Hp] Hh Hhd [Hnd Hf]] E1 E2 E3 E4 E5 Hnd' Hf' Hh'. destruct (layout_eq r r' E1 E2) as (_ & En & _ & Enn & HG). split.
  - by apply HG.
  - by rewrite E3.
  - by rewrite E4, E5.
  - intros p. rewrite Hh', E4. case_decide; [by split|]. split; [by intros []|done].
  - intros p h. rewrite Hh', En. case_decide; [|done]. by intros [= <-].
  - split; [done|]. intros x Hx. destruct (Hf' x Hx) as (p & i & ? & ? & ->). exists p, i. by rewrite E4, En, Enn.
Qed.
Lemma hdrs_lookup r p : fsr_ok r -> hdrs r !! p = if decide (p ∈ fl_pages r) then Some (mkPageHdr DOMAIN_ID_NONE (Z.of_nat (length (filter (in_page p) (freelist r)))) (npp r)) else None.
Proof. intros H. case_decide as Hp; [by apply hdr_of|]. destruct (hdrs r !! p) eqn:E; [|done]. exfalso. apply Hp, (fo_hdrs r H). by eexists. Qed.

(** Taking the first node off the list. *)
Lemma pop_ok r x fl : fsr_ok r -> freelist r = x :: fl -> exists o r', pop_object r = Ok (o, r') /\ fsr_ok r' /\ ok_addr o /\ (o ∉ fsr_live r) /\ fsr_live r' = {[o]} ∪ fsr_live r.
Proof.
  intros H E. pose proof H as [G Hd [Hnp Hp] _ _ [Hnd Hf]]. rewrite E in Hnd. apply list.NoDup_cons in Hnd as [Hx Hnd].
  destruct (Hf x) as (p & i & Hpl & Hi & ->); [rewrite E; by left|]. destruct (Hp p Hpl) as [Hpa _].
  assert (in_page p (noden r p i)) as Hin by by apply noden_in_page. pose proof (page_count_le r p H Hpl) as Hle. rewrite E, filter_cons_True in Hle by done. cbn [length] in Hle. pose proof (npp_small r G) as Hs.
  assert (exists r', pop_object r = Ok (objn r p i, r') /\ attrs r' = attrs r /\ full_node_size r' = full_node_size r /\ fsr_domain r' = fsr_domain r /\ fl_pages r' = fl_pages r /\ pool r' = pool r /\ freelist r' = fl /\
    hdrs r' = <[p := mkPageHdr DOMAIN_ID_NONE (Z.of_nat (length (filter (in_page p) fl))) (npp r)]> (hdrs r)) as (r' & Er & E1 & E2 & E3 & E4 & E5 & E6 & E7).
  { unfold pop_object. rewrite E, (obj_for_noden r p i), (page_of_objn r p i), bind_Ok, (hdr_of r p H Hpl), E by done. cbn [deref]. rewrite bind_Ok, filter_cons_True by done. cbn [free_count total hdr_domain length].
    rewrite (wrap_small 64 (Z.of_nat (S _) - 1)) by (unfold in_u, PAGE_SIZE in *; lia). replace (Z.of_nat (S (length (filter (in_page p) fl))) - 1) with (Z.of_nat (length (filter (in_page p) fl))) by lia.
    eexists. split; [done|]. by case_match. }
  assert (fsr_ok r') as H'.
  { apply (fsr_ok_update r); try done; [by rewrite E6|intros y Hy; apply Hf; rewrite E; right; by rewrite <- E6|]. intros q. rewrite E7, E6.
    destruct (decide (q = p)) as [->|Hne]; [by rewrite lookup_insert_eq, decide_True|]. rewrite lookup_insert_ne by done. rewrite (hdrs_lookup r q H). case_decide as Hq; [|done].
    rewrite E, filter_cons_False; [done|]. rewrite noden_in_page; [done|done|done|by apply Hp|done]. }
  destruct (layout_eq r r' E1 E2) as (_ & En & Eo & Enn & _). exists (objn r p i), r'. split_and!; [done|done|by apply objn_addr| |].
  - rewrite fsr_live_spec by done. intros (q & j & Hq & Hj & Eq & Hn). apply Hn. rewrite E. replace (noden r q j) with (noden r p i) by (unfold noden; lia). by left.
  - apply set_eq. intros o. rewrite elem_of_union, elem_of_singleton, (fsr_live_spec r' o H'), (fsr_live_spec r o H), E4, E6, E, En. setoid_rewrite Eo. setoid_rewrite Enn. split.
    + intros (q & j & Hq & Hj & -> & Hn). destruct (decide (noden r q j = noden r p i)) as [Eq|Hne]; [left; unfold noden in Eq; lia|right].
      exists q, j. split_and!; [done|lia|lia|done|]. by rewrite elem_of_cons; intros [?|?].
    + intros [->|(q & j & Hq & Hj & -> & Hn)]; [by exists p, i|]. exists q, j. split_and!; [done|lia|lia|done|]. intros Hin'. apply Hn. by right.
Qed.

Lemma link_nodes_ok r p l : geo r -> page_addr p -> forall fl, Forall (fun i => 0 <= i < npp r) l -> link_nodes r p l fl = Ok (fl ++ (noden r p <$> l)).
Proof.
  intros G Hp. induction l as [|i l IH]; intros fl Hl; cbn [link_nodes fmap list_fmap]; [by rewrite app_nil_r|]. apply list.Forall_cons in Hl as [Hi Hl].
  rewrite obj_n_ok, bind_Ok, fsn_for_objn, IH by done. by rewrite <- app_assoc.
Qed.
Lemma unlink_nodes_ok r p l : geo r -> page_addr p -> forall fl, Forall (fun i => 0 <= i < npp r) l -> unlink_nodes r p l fl = Ok (filter (fun x => x ∉ (noden r p <$> l)) fl).
Proof.
  intros G Hp. induction l as [|i l IH]; intros fl Hl; cbn [unlink_nodes fmap list_fmap].
  { f_equal. symmetry. apply filter_all. intros x _. apply not_elem_of_nil. }
  apply list.Forall_cons in Hl as [Hi Hl]. rewrite obj_n_ok, bind_Ok, fsn_for_objn, IH by done. f_equal. rewrite list_filter_filter. apply list_filter_iff. intros x. rewrite not_elem_of_cons. tauto.
Qed.
Lemma seq_in_range r : Forall (fun i => 0 <= i < npp r) (seqZ 0 (npp r)).
Proof. apply list.Forall_forall. intros i Hi%elem_of_seqZ. lia. Qed.
Lemma NoDup_page_nodes r p : geo r -> NoDup (page_nodes r p).
Proof.
  intros G. apply NoDup_fmap_2_strong; [|apply NoDup_seqZ]. intros i j _ _ E. unfold noden, objn in E. destruct G as [_ _ _ H4 _ _ _]. unfold sizeof_fsn in *. nia.
Qed.
Lemma filter_page_nodes r p q : geo r -> page_addr p -> page_addr q -> filter (in_page q) (page_nodes r p) = if decide (q = p) then page_nodes r p else [].
Proof.
  intros G Hp Hq. case_decide as E.
  - apply filter_all. intros x (i & -> & Hi%elem_of_seqZ)%list_elem_of_fmap. apply noden_in_page; (done || lia).
  - apply filter_none. intros x (i & -> & Hi%elem_of_seqZ)%list_elem_of_fmap. rewrite noden_in_page; (done || lia).
Qed.

Lemma fsr_refill_ok r : fsr_ok r -> freelist r = [] -> exists b r', fixed_size_refill r = Ok (b, r') /\ fsr_ok r' /\ fsr_live r' = fsr_live r /\ (b = true -> freelist r' <> []).
Proof.
  intros H E. pose proof H as [G Hd [Hnp Hp] Hh Hhd [Hnd Hf]]. unfold fixed_size_refill. destruct (pool_alloc (pool r)) as [p pl] eqn:Ea.
  pose proof (pool_alloc_null (pool r)) as Hnull. pose proof (pool_alloc_page (pool r)) as Hpage. rewrite Ea in *. cbn [fst snd] in *. destruct (Z.eqb_spec p 0) as [->|Hne].
  { eexists false, _. split; [done|]. split_and!; [|done|done]. split; [by apply (layout_eq r)|exact Hd| |exact Hh|exact Hhd|exact (conj Hnd Hf)]. cbn [pool fl_pages]. split; [done|]. intros q Hq. rewrite Hnull by done. by apply Hp. }
  destruct (Hpage Hne) as (Hpa & Hfresh & Hheld). assert (p ∉ fl_pages r) as Hnew by (intros Hin; by apply Hfresh, Hp).
  rewrite (per_page_ok r G), bind_Ok, (link_nodes_ok r p), bind_Ok by (done || apply seq_in_range). rewrite E. cbn [app]. fold (page_nodes r p).
  eexists true, _. split; [done|]. set (r' := mkFsr _ _ _ _ _ _ _ _). destruct (layout_eq r r' eq_refl eq_refl) as (_ & En & Eo & Enn & HG).
  assert (fl_pages r' = fl_pages r ++ [p] /\ pool r' = pl /\ freelist r' = page_nodes r p /\ hdrs r' = <[p := mkPageHdr (fsr_domain r) (npp r) (npp r)]> (hdrs r) /\ fsr_domain r' = fsr_domain r)
    as (F1 & F2 & F3 & F4 & F5) by done. clearbody r'.
  pose proof (npp_range r G) as [Hn1 _]. assert (length (page_nodes r p) = Z.to_nat (npp r)) as Hlen by (unfold page_nodes; by rewrite length_fmap, length_seqZ).
  assert (fsr_ok r') as H'.
  { split; [by apply HG|by rewrite F5| | | |].
    - rewrite F1, F2, Hheld. split; [apply list.NoDup_app; split_and!; [done|set_solver|apply NoDup_singleton]|]. intros q [Hq| ->%list_elem_of_singleton]%elem_of_app; [destruct (Hp q Hq)|]; set_solver.
    - intros q. rewrite F1, F4, lookup_insert_is_Some', Hh. set_solver.
    - intros q h. rewrite F4, F3, En. destruct (decide (q = p)) as [->|Hq].
      + rewrite lookup_insert_eq. intros [= <-]. rewrite filter_page_nodes, decide_True, Hlen, Hd by done. f_equal. lia.
      + rewrite lookup_insert_ne by done. intros Hq'. rewrite (Hhd q h Hq'), E. rewrite filter_page_nodes, decide_False; [done|done|done|done|].
        apply Hp, Hh. by eexists.
    - rewrite F3, F1. split; [by apply NoDup_page_nodes|]. intros x (i & -> & Hi%elem_of_seqZ)%list_elem_of_fmap. exists p, i. rewrite En, Enn. split_and!; [set_solver|lia|lia|done]. }
  split_and!; [done| |].
  - apply set_eq. intros o. rewrite (fsr_live_spec r' o H'), (fsr_live_spec r o H), E, En, F1, F3. setoid_rewrite Eo. setoid_rewrite Enn. split.
    + intros (q & i & Hq & Hi & -> & Hn). apply elem_of_app in Hq as [Hq| ->%list_elem_of_singleton]; [exists q, i; split_and!; (done || lia || apply not_elem_of_nil)|].
      exfalso. apply Hn. apply list_elem_of_fmap. exists i. split; [done|]. apply elem_of_seqZ. lia.
    + intros (q & i & Hq & Hi & -> & _). exists q, i. split_and!; [set_solver|lia|lia|done|]. intros (j & Ej & Hj%elem_of_seqZ)%list_elem_of_fmap.
      apply noden_inj in Ej as [-> _]; (done || lia || by apply Hp).
  - intros _ E0. rewrite F3 in E0. rewrite E0 in Hlen. cbn in Hlen. lia.
Qed.
Lemma fsr_alloc_ok r : fsr_ok r -> exists o r', fixed_size_alloc r = Ok (o, r') /\ fsr_ok r' /\
  ((o = 0 /\ fsr_live r' = fsr_live r) \/ (ok_addr o /\ (o ∉ fsr_live r) /\ fsr_live r' = {[o]} ∪ fsr_live r)).
Proof.
  intros H. unfold fixed_size_alloc. case_bool_decide as E.
  - destruct (fsr_refill_ok r H E) as (b & r1 & -> & H1 & Hl & Hb). rewrite bind_Ok. destruct b; [|exists 0, r1; split_and!; auto].
    destruct (freelist r1) as [|x fl] eqn:E1; [by destruct Hb|]. destruct (pop_ok r1 x fl H1 E1) as (o & r2 & -> & H2 & Ho & Hn & Hl2). rewrite Hl in *. exists o, r2. split_and!; auto.
  - destruct (freelist r) as [|x fl] eqn:E1; [done|]. destruct (pop_ok r x fl H E1) as (o & r2 & -> & H2 & Ho & Hn & Hl2). exists o, r2. split_and!; auto.
Qed.

(** A page of which every node is free can go. *)
Lemma page_full r p : fsr_ok r -> p ∈ fl_pages r -> Z.of_nat (length (filter (in_page p) (freelist r))) = npp r -> forall i, 0 <= i < npp r -> noden r p i ∈ freelist r.
Proof.
  intros H Hp Hc i Hi. pose proof (page_count r p H Hp) as Hs.
  assert (filter (in_page p) (freelist r) ≡ₚ page_nodes r p) as HP.
  { apply submseteq_length_Permutation; [done|]. unfold page_nodes. rewrite length_fmap, length_seqZ. lia. }
  assert (noden r p i ∈ filter (in_page p) (freelist r)) as Hin; [|apply list_elem_of_filter in Hin; by destruct Hin].
  rewrite HP. apply list_elem_of_fmap. exists i. split; [done|]. apply elem_of_seqZ. lia.
Qed.
Lemma drop_ok r p : fsr_ok r -> p ∈ fl_pages r -> Z.of_nat (length (filter (in_page p) (freelist r))) = npp r ->
  exists r', fixed_size_drop_page r p = Ok r' /\ fsr_ok r' /\ fsr_live r' = fsr_live r /\ fl_pages r' = filter (fun x => x <> p) (fl_pages r) /\
    (forall q, q ∈ fl_pages r' -> filter (in_page q) (freelist r') = filter (in_page q) (freelist r)) /\ npp r' = npp r.
Proof.
  intros H Hpl Hc. pose proof H as [G Hd [Hnp Hp] Hh Hhd [Hnd Hf]]. pose proof (page_full r p H Hpl Hc) as Hall. destruct (Hp p Hpl) as [Hpa Hheld].
  unfold fixed_size_drop_page. rewrite (hdr_of r p H Hpl). cbn [deref]. rewrite bind_Ok. cbn [total]. rewrite (unlink_nodes_ok r p), bind_Ok by (done || apply seq_in_range). fold (page_nodes r p).
  eexists. split; [done|]. set (r' := mkFsr _ _ _ _ _ _ _ _). destruct (layout_eq r r' eq_refl eq_refl) as (_ & En & Eo & Enn & HG).
  assert (fl_pages r' = filter (fun x => x <> p) (fl_pages r) /\ pool r' = pool_free (pool r) p /\ freelist r' = filter (fun x => x ∉ page_nodes r p) (freelist r) /\ hdrs r' = delete p (hdrs r) /\ fsr_domain r' = fsr_domain r)
    as (F1 & F2 & F3 & F4 & F5) by done. clearbody r'.
  assert (forall q i, q ∈ fl_pages r -> 0 <= i < npp r -> noden r q i ∈ page_nodes r p <-> q = p) as Hin.
  { intros q i Hq Hi. unfold page_nodes. rewrite list_elem_of_fmap. split.
    - intros (j & Ej & Hj%elem_of_seqZ). apply noden_inj in Ej as [-> _]; (done || lia || by apply Hp).
    - intros ->. exists i. split; [done|]. apply elem_of_seqZ. lia. }
  assert (forall q, q ∈ fl_pages r -> q <> p -> filter (in_page q) (freelist r') = filter (in_page q) (freelist r)) as Hcount.
  { intros q Hq Hne. rewrite F3, list_filter_filter. apply filter_ext. intros x Hx. split; [by intros [? ?]|]. intros Hxq. split; [done|].
    destruct (Hf x Hx) as (q' & i & Hq' & Hi & ->). rewrite Hin by done. intros ->. apply noden_in_page in Hxq; [done|done|done|by apply Hp|done]. }
  assert (fsr_ok r') as H'.
  { split; [by apply HG|by rewrite F5| | | |].
    - rewrite F1, F2, pool_free_held by done. split; [by apply list.NoDup_filter|]. intros q [Hne Hq]%list_elem_of_filter. destruct (Hp q Hq). split; [done|]. set_solver.
    - intros q. rewrite F1, F4, lookup_delete_is_Some, Hh, list_elem_of_filter. set_solver.
    - intros q h. rewrite F4, En, lookup_delete_Some. intros [Hne Hq]. assert (q ∈ fl_pages r) by (apply Hh; by eexists). rewrite (Hhd q h Hq), Hcount by done. done.
    - rewrite F3, F1. split; [by apply list.NoDup_filter|]. intros x [Hx Hxf]%list_elem_of_filter. destruct (Hf x Hxf) as (q & i & Hq & Hi & ->). exists q, i. rewrite En, Enn, list_elem_of_filter.
      rewrite Hin in Hx by done. split; [by split|by split]. }
  split_and!; [done| |done| |done].
  - apply set_eq. intros o. rewrite (fsr_live_spec r' o H'), (fsr_live_spec r o H), En, F1, F3. setoid_rewrite Eo. setoid_rewrite Enn. split.
    + intros (q & i & [Hne Hq]%list_elem_of_filter & Hi & -> & Hn). exists q, i. split_and!; [done|lia|lia|done|]. intros Hin'. apply Hn. apply list_elem_of_filter. split; [|done]. by rewrite Hin.
    + intros (q & i & Hq & Hi & -> & Hn). destruct (decide (q = p)) as [->|Hne]; [by destruct Hn; apply Hall|]. exists q, i. rewrite !list_elem_of_filter. split_and!; [done|done|lia|lia|done|]. tauto.
  - intros q Hq. rewrite F1 in Hq. apply list_elem_of_filter in Hq as [Hne Hq]. by apply Hcount.
Qed.

(** Putting the node of a live object on the list. *)
Definition pushed (r : fixed_size_range) (p i : Z) : fixed_size_range :=
  with_free (with_hdr r p (mkPageHdr DOMAIN_ID_NONE (Z.of_nat (length (filter (in_page p) (freelist r))) + 1) (npp r))) (freelist r ++ [noden r p i]).
Lemma pushed_count r p i q : fsr_ok r -> p ∈ fl_pages r -> q ∈ fl_pages r -> 0 <= i < npp r ->
  length (filter (in_page q) (freelist r ++ [noden r p i])) = (length (filter (in_page q) (freelist r)) + if decide (q = p) then 1 else 0)%nat.
Proof.
  intros [G _ [_ Hp] _ _ _] Hpl Hq Hi. rewrite list.filter_app, length_app. f_equal. assert (in_page q (noden r p i) <-> q = p) as E by (apply noden_in_page; (done || by apply Hp)).
  case_decide; [by rewrite filter_cons_True by by apply E|by rewrite filter_cons_False by by rewrite E].
Qed.
Lemma pushed_le r p i : fsr_ok r -> p ∈ fl_pages r -> 0 <= i < npp r -> (noden r p i ∉ freelist r) -> Z.of_nat (length (filter (in_page p) (freelist r))) + 1 <= npp r.
Proof.
  intros H Hpl Hi Hn. pose proof H as [G _ _ _ _ [Hnd _]]. assert (filter (in_page p) (freelist r ++ [noden r p i]) ⊆+ page_nodes r p) as Hs.
  { apply NoDup_submseteq; [apply list.NoDup_filter, list.NoDup_app; split_and!; [done|set_solver|apply NoDup_singleton]|]. intros x [Hx [Hxf| ->%list_elem_of_singleton]%elem_of_app]%list_elem_of_filter.
    - eapply elem_of_submseteq; [|exact (page_count r p H Hpl)]. by apply list_elem_of_filter.
    - apply list_elem_of_fmap. exists i. split; [done|]. apply elem_of_seqZ. lia. }
  apply submseteq_length in Hs. rewrite pushed_count, decide_True in Hs by done. unfold page_nodes in Hs. rewrite length_fmap, length_seqZ in Hs. pose proof (npp_range r G). lia.
Qed.
Lemma pushed_ok r p i : fsr_ok r -> p ∈ fl_pages r -> 0 <= i < npp r -> (noden r p i ∉ freelist r) -> fsr_ok (pushed r p i) /\ fsr_live (pushed r p i) = fsr_live r ∖ {[objn r p i]}.
Proof.
  intros H Hpl Hi Hn. pose proof H as [G Hd [Hnp Hp] Hh Hhd [Hnd Hf]]. assert (fsr_ok (pushed r p i)) as H1.
  { apply (fsr_ok_update r); try done; cbn [pushed with_free with_hdr freelist hdrs].
    - apply list.NoDup_app. split_and!; [done|set_solver|apply NoDup_singleton].
    - intros x [Hx| ->%list_elem_of_singleton]%elem_of_app; [by apply Hf|by exists p, i].
    - intros q. destruct (decide (q = p)) as [->|Hne].
      + rewrite lookup_insert_eq, decide_True, pushed_count, decide_True by done. f_equal. f_equal. lia.
      + rewrite lookup_insert_ne, (hdrs_lookup r q H) by done. case_decide as Hq; [|done]. by rewrite pushed_count, decide_False, Nat.add_0_r by done. }
  split; [done|]. apply set_eq. intros o. rewrite elem_of_difference, elem_of_singleton, (fsr_live_spec _ o H1), (fsr_live_spec r o H).
  destruct (layout_eq r (pushed r p i) eq_refl eq_refl) as (_ & En & Eo & Enn & _). rewrite En. setoid_rewrite Eo. setoid_rewrite Enn.
  change (fl_pages (pushed r p i)) with (fl_pages r). change (freelist (pushed r p i)) with (freelist r ++ [noden r p i]). split.
  - intros (q & j & Hq & Hj & -> & [Hnj Hne]%not_elem_of_app). split; [by exists q, j|]. intros E. apply Hne, list_elem_of_singleton. unfold noden. lia.
  - intros [(q & j & Hq & Hj & -> & Hnj) Hne]. exists q, j. split_and!; [done|lia|lia|done|]. apply not_elem_of_app. split; [done|]. intros E%list_elem_of_singleton. apply Hne. unfold noden in E. lia.
Qed.
(** The counter of empty pages does not matter. *)
Lemma with_empty_ok r n : fsr_ok r -> fsr_ok (with_empty r n).
Proof. intros H. apply (fsr_ok_update r); try done; [apply H|apply H|]. exact (fun q => hdrs_lookup r q H). Qed.

Lemma fsr_free_ok r o : fsr_ok r -> o ∈ fsr_live r -> exists r', fixed_size_free r o = Ok r' /\ fsr_ok r' /\ fsr_live r' = fsr_live r ∖ {[o]}.
Proof.
  intros H Ho. rewrite fsr_live_spec in Ho by done. destruct Ho as (p & i & Hpl & Hi & -> & Hn). pose proof H as [G _ [_ Hp] _ _ _]. destruct (Hp p Hpl) as [Hpa _].
  destruct (pushed_ok r p i H Hpl Hi Hn) as [H1 Hl1]. pose proof (pushed_le r p i H Hpl Hi Hn) as Hle. pose proof (npp_small r G) as Hsm.
  unfold fixed_size_free, fixed_size_free_internal. rewrite (page_of_objn r p i), bind_Ok, (hdr_of r p H Hpl) by done. cbn [deref]. rewrite bind_Ok. cbn [hdr_domain free_count total]. rewrite Z.eqb_refl. cbn [enforce]. rewrite !bind_Ok, (hdr_of r p H Hpl). cbn [deref]. rewrite bind_Ok. cbn [hdr_domain free_count total].
  rewrite (fsn_for_objn r p i), (wrap_small 64 (Z.of_nat _ + 1)) by (done || (unfold in_u, PAGE_SIZE in *; lia)). fold (pushed r p i).
  destruct (Z.eqb_spec (Z.of_nat (length (filter (in_page p) (freelist r))) + 1) (npp r)) as [E|E]; cbn [negb]; [|by eexists].
  set (r2 := with_empty _ _). assert (fsr_ok r2) as H2 by by apply with_empty_ok. destruct (_ <? _); [|by exists r2].
  destruct (drop_ok r2 p H2 Hpl) as (r3 & -> & H3 & Hl3 & _).
  - change (freelist r2) with (freelist r ++ [noden r p i]). change (npp r2) with (npp r). rewrite pushed_count, decide_True by done. lia.
  - exists r3. split_and!; [done|done|]. by rewrite Hl3.
Qed.
Lemma reclaim_ok l : forall r, fsr_ok r -> NoDup l -> (forall p, p ∈ l -> p ∈ fl_pages r) -> exists r', reclaim_pages r l = Ok r' /\ fsr_ok r' /\ fsr_live r' = fsr_live r.
Proof.
  induction l as [|p l IH]; intros r H Hnd Hl; [by exists r|]. apply list.NoDup_cons in Hnd as [Hp Hnd]. pose proof (Hl p ltac:(by left)) as Hpl. cbn [reclaim_pages].
  rewrite (hdr_of r p H Hpl). cbn [deref]. rewrite bind_Ok. cbn [free_count total]. destruct (Z.ltb_spec (Z.of_nat (length (filter (in_page p) (freelist r)))) (npp r)).
  - rewrite bind_Ok. apply IH; [done|done|]. intros q Hq. apply Hl. by right.
  - pose proof (page_count_le r p H Hpl). destruct (drop_ok r p H Hpl ltac:(lia)) as (r1 & -> & Hr1 & Hl1 & Hf1 & _). rewrite bind_Ok.
    destruct (IH r1 Hr1 Hnd) as (r2 & E2 & H2 & Hl2); [|exists r2; by rewrite Hl2, Hl1]. intros q Hq. rewrite Hf1. apply list_elem_of_filter. split; [by intros ->|]. apply Hl. by right.
Qed.

(** The file keeps the promise of [ObjAlloc]. *)
#[export] Instance fixed_size_obj_alloc : ObjAlloc fixed_size_range.
Proof.
  refine {| obj_ok := fsr_ok; obj_live := fsr_live; obj_alloc := fixed_size_alloc; obj_free := fixed_size_free; obj_reclaim := fixed_size_reclaim_freelist_pages |}.
  - exact fsr_alloc_ok.
  - exact fsr_free_ok.
  - intros r H. apply reclaim_ok; [done|apply H|done].
Defined.

(** A new range, for objects of which one fits into a page. *)
Lemma range_init_ok a pl k : obj_align a = 2 ^ k -> 1 <= k <= 12 -> 0 < obj_size a -> sizeof_hdr + sizeof_fsn + obj_size a + 2 * obj_align a <= PAGE_SIZE ->
  exists r, fixed_size_range_init a pl = Ok r /\ fsr_ok r /\ fsr_live r = ∅.
Proof.
  intros Ha Hk Hs Hf. unfold fixed_size_range_init, sizeof_hdr, sizeof_fsn, PAGE_SIZE in *. pose proof (Z.pow_le_mono_r 2 1 k ltac:(lia) ltac:(lia)) as Hal. change (2 ^ 1) with 2 in Hal.
  rewrite (proj2 (Z.eqb_neq (obj_size a) 0)), (proj2 (Z.eqb_neq (obj_align a) 0)) by lia. cbn [negb andb enforce]. rewrite bind_Ok, (wrap_small 64) by (unfold in_u; lia).
  rewrite Ha in Hf |- *. assert (2 ^ k = 2 * 2 ^ (k - 1)) as E2 by (rewrite <- Z.pow_succ_r by lia; f_equal; lia).
  assert (forall x, 0 <= x -> x <= 2 ^ k * ((x + 2 ^ k - 1) `div` 2 ^ k) < x + 2 ^ k) as Hup.
  { intros x Hx. pose proof (Z.div_mod (x + 2 ^ k - 1) (2 ^ k) ltac:(lia)). pose proof (Z.mod_pos_bound (x + 2 ^ k - 1) (2 ^ k) ltac:(lia)). lia. }
  rewrite ALIGN_UP_spec, bind_Ok by (unfold in_u; lia). eexists. split; [done|]. set (r := mkFsr _ _ _ _ _ _ _ _).
  assert (hsz r = 2 ^ k * ((40 + 2 ^ k - 1) `div` 2 ^ k)) as Hh.
  { unfold hsz, fixed_size_header_size, sizeof_hdr. cbn [attrs r]. rewrite Ha, ALIGN_UP_spec by (unfold in_u; lia). done. }
  assert (geo r) as G.
  { split; unfold sizeof_hdr, sizeof_fsn, PAGE_SIZE.
    - unfold hsz. unfold fixed_size_header_size, sizeof_hdr. cbn [attrs r]. by rewrite Ha, ALIGN_UP_spec by (unfold in_u; lia).
    - rewrite Hh. apply Hup. lia.
    - rewrite Hh. cbn [full_node_size r]. split; apply Z.divide_mul_l; exists (2 ^ (k - 1)); lia.
    - cbn [full_node_size r]. specialize (Hup (16 + obj_size a) ltac:(lia)). lia.
    - rewrite Hh. cbn [full_node_size r]. pose proof (Hup 40 ltac:(lia)). pose proof (Hup (16 + obj_size a) ltac:(lia)). lia.
    - cbn [full_node_size attrs r]. specialize (Hup (16 + obj_size a) ltac:(lia)). lia.
    - rewrite Hh. cbn [full_node_size attrs r]. rewrite Ha. split_and!; [apply Z.divide_mul_l, Z.divide_refl..|]. exists (2 ^ (12 - k)). rewrite <- Z.pow_add_r by lia. by replace (12 - k + k) with 12 by lia. }
  split.
  - split; try done; cbn [r fl_pages freelist hdrs].
    + split; [apply NoDup_nil_2|]. intros p Hp. by apply not_elem_of_nil in Hp.
    + intros p. rewrite lookup_empty. split; [by intros []|]. intros Hp. by apply not_elem_of_nil in Hp.
    + split; [apply NoDup_nil_2|]. intros p Hp. by apply not_elem_of_nil in Hp.
  - done.
Qed.
End FixedSize.
#[export] Existing Instance fixed_size_obj_alloc.

(** ** A client *)

(** The client holds objects; it asks for one, or gives the [k]-th back. *)
Section Client.
Context {P : Type} `{!PagePool P}.
Inductive client_op := CAlloc | CFree (k : nat) | CReclaim.
Definition client_exec (s : @fixed_size_range P * list Z) (op : client_op) : outcome (@fixed_size_range P * list Z) :=
  let '(r, held) := s in
  match op with
  | CAlloc => x ← fixed_size_alloc r; let '(o, r) := (x : Z * fixed_size_range) in Ok (r, if o =? 0 then held else o :: held)
  | CFree k => match held !! k with Some o => r ← fixed_size_free r o; Ok (r, take k held ++ drop (S k) held) | None => Ok (r, held) end
  | CReclaim => r ← fixed_size_reclaim_freelist_pages r; Ok (r, held)
  end.
Fixpoint client_run (s : @fixed_size_range P * list Z) (ops : list client_op) : outcome (@fixed_size_range P * list Z) :=
  match ops with [] => Ok s | op :: ops => s ← client_exec s op; client_run s ops end.

(** No call changes the attributes. *)
Ltac bind_inv := repeat match goal with H : (_ ≫= _) = Ok _ |- _ => apply bind_Ok_inv in H as (? & ? & H) end.
Lemma drop_attrs (r r' : @fixed_size_range P) p : fixed_size_drop_page r p = Ok r' -> attrs r' = attrs r.
Proof. unfold fixed_size_drop_page. intros H. bind_inv. by simplify_eq. Qed.
Lemma pop_attrs (r r' : @fixed_size_range P) o : pop_object r = Ok (o, r') -> attrs r' = attrs r.
Proof. unfold pop_object. destruct (freelist r); [done|]. intros H. bind_inv. simplify_eq. by case_match. Qed.
Lemma alloc_attrs (r r' : @fixed_size_range P) o : fixed_size_alloc r = Ok (o, r') -> attrs r' = attrs r.
Proof.
  unfold fixed_size_alloc, fixed_size_refill. case_bool_decide; [|apply pop_attrs]. destruct (pool_alloc (pool r)) as [p pl]. destruct (p =? 0); [rewrite bind_Ok; by intros [= <- <-]|].
  intros H'. bind_inv. simplify_eq. by apply pop_attrs in H'.
Qed.
Lemma free_attrs (r r' : @fixed_size_range P) o : fixed_size_free r o = Ok r' -> attrs r' = attrs r.
Proof.
  unfold fixed_size_free, fixed_size_free_internal. intros H. bind_inv. destruct (negb _); [by simplify_eq|]. destruct (_ <? _); [|by simplify_eq]. by apply drop_attrs in H.
Qed.
Lemma reclaim_attrs l : forall (r r' : @fixed_size_range P), reclaim_pages r l = Ok r' -> attrs r' = attrs r.
Proof.
  induction l as [|p l IH]; intros r r' H; cbn [reclaim_pages] in H; [by simplify_eq|]. bind_inv. apply IH in H. rewrite H. destruct (_ <? _); [by simplify_eq|]. by eapply drop_attrs.
Qed.

Definition client_ok (s : @fixed_size_range P * list Z) : Prop := fsr_ok s.1 /\ NoDup s.2 /\ fsr_live s.1 = list_to_set s.2.
Lemma client_exec_ok s op : client_ok s -> exists s', client_exec s op = Ok s' /\ client_ok s' /\ attrs s'.1 = attrs s.1.
Proof.
  destruct s as [r held]. intros (H & Hnd & Hl). cbn [fst snd] in *. destruct op as [|k|]; cbn [client_exec].
  - destruct (fsr_alloc_ok r H) as (o & r' & E & H' & Ho). rewrite E, bind_Ok. eexists. split; [done|]. split; [|by eapply alloc_attrs]. destruct Ho as [[-> Hl']|((Hpos & _) & Hn & Hl')].
    + split_and!; [done|done|]. cbn [fst snd]. by rewrite Hl', Hl.
    + rewrite (proj2 (Z.eqb_neq o 0)) by lia. rewrite Hl in *. split_and!; [done|apply list.NoDup_cons; split; [set_solver|done]|]. cbn [fst snd]. set_solver.
  - destruct (held !! k) as [o|] eqn:Hk; [|by eexists]. destruct (fsr_free_ok r o H) as (r' & E & H' & Hl').
    { rewrite Hl. apply elem_of_list_to_set. by eapply list_elem_of_lookup_2. }
    rewrite E, bind_Ok. eexists. split; [done|]. split; [|by eapply free_attrs]. rewrite <- (take_drop_middle held k o Hk) in Hnd, Hl. apply list.NoDup_app in Hnd as (N1 & N2 & N3). apply list.NoDup_cons in N3 as [N3 N4].
    split_and!; [done| |].
    + cbn [fst snd]. apply list.NoDup_app. split_and!; [done|set_solver|done].
    + cbn [fst snd]. rewrite Hl', Hl, !list_to_set_app_L, list_to_set_cons. set_solver.
  - destruct (reclaim_ok (fl_pages r) r H) as (r' & E & H' & Hl'); [apply H|done|]. unfold fixed_size_reclaim_freelist_pages. rewrite E, bind_Ok. eexists. split; [done|]. split; [|by eapply reclaim_attrs]. split_and!; [done|done|]. cbn [fst snd]. by rewrite Hl', Hl.
Qed.
Lemma client_run_ok ops : forall s, client_ok s -> exists s', client_run s ops = Ok s' /\ client_ok s' /\ attrs s'.1 = attrs s.1.
Proof.
  induction ops as [|op ops IH]; intros s Hs; [by exists s|]. destruct (client_exec_ok s op Hs) as (s1 & E1 & H1 & A1). destruct (IH s1 H1) as (s2 & E2 & H2 & A2). exists s2. cbn [client_run]. rewrite E1, bind_Ok. split_and!; [done|done|]. by rewrite A2.
Qed.
(** Two live objects do not overlap. *)
Lemma live_apart (r : @fixed_size_range P) o o' : fsr_ok r -> o ∈ fsr_live r -> o' ∈ fsr_live r -> o <> o' -> o + obj_size (attrs r) <= o' \/ o' + obj_size (attrs r) <= o.
Proof.
  intros H Ho Ho' Hne. rewrite fsr_live_spec in Ho, Ho' by done. destruct Ho as (p & i & Hp & Hi & -> & _), Ho' as (q & j & Hq & Hj & -> & _). pose proof H as [G _ [_ Hpg] _ _ _].
  pose proof (objn_range r p i G Hi). pose proof (objn_range r q j G Hj). destruct (Hpg p Hp) as [(Hp1 & _ & Hp3) _], (Hpg q Hq) as [(Hq1 & _ & Hq3) _]. destruct G as [_ _ _ H4 _ H6 _].
  unfold sizeof_fsn, sizeof_hdr, PAGE_SIZE in *. destruct (decide (p = q)) as [->|Hpq].
  - assert (i <> j) by (intros ->; done). unfold objn in *. nia.
  - pose proof (Z.div_mod p 4096 ltac:(lia)). pose proof (Z.div_mod q 4096 ltac:(lia)). lia.
Qed.
Lemma live_aligned (r : @fixed_size_range P) o : fsr_ok r -> o ∈ fsr_live r -> (obj_align (attrs r) | o).
Proof.
  intros H Ho. rewrite fsr_live_spec in Ho by done. destruct Ho as (p & i & Hp & Hi & -> & _). pose proof H as [G _ [_ Hpg] _ _ _]. destruct (Hpg p Hp) as [(_ & _ & Hp3) _]. destruct G as [_ _ _ _ _ _ (H1 & H2 & H3)].
  unfold objn. apply Z.divide_add_r; [apply Z.divide_add_r; [|done]|by apply Z.divide_mul_l]. apply (Z.divide_trans _ PAGE_SIZE); [done|]. apply Z.mod_divide; done.
Qed.
End Client.

(** C8: For objects of which one fits into a page, and any page allocator that gives
    out unused pages or none: whatever a client of a new range does, asking for
    objects, giving back those it holds and returning free pages, no call panics or
    faults, and the objects it holds are aligned, different and do not overlap. *)
Theorem fixed_size_client_safe {P} `{!PagePool P} a (pl : P) k ops : obj_align a = 2 ^ k -> 1 <= k <= 12 -> 0 < obj_size a ->
  sizeof_hdr + sizeof_fsn + obj_size a + 2 * obj_align a <= PAGE_SIZE ->
  exists r r' held, fixed_size_range_init a pl = Ok r /\ client_run (r, []) ops = Ok (r', held) /\ NoDup held /\
    (forall o, o ∈ held -> (obj_align a | o)) /\ (forall o o', o ∈ held -> o' ∈ held -> o <> o' -> o + obj_size a <= o' \/ o' + obj_size a <= o).
Proof.
  intros Ha Hk Hs Hf. destruct (range_init_ok a pl k Ha Hk Hs Hf) as (r & E & H & Hl). destruct (client_run_ok ops (r, [])) as ([r' held] & Er & (H' & Hnd & Hl') & Hat); [split_and!; [done|apply NoDup_nil_2|done]|].
  exists r, r', held. cbn [fst snd] in *. assert (attrs r = a) as Har by (unfold fixed_size_range_init in E; apply bind_Ok_inv in E as (? & ? & E); apply bind_Ok_inv in E as (? & ? & E); by simplify_eq).
  rewrite Har in Hat. split_and!; [done|done|done| |].
  - intros o Ho. rewrite <- Hat. apply live_aligned; [done|]. rewrite Hl'. by apply elem_of_list_to_set.
  - intros o o' Ho Ho' Hne. rewrite <- Hat. apply live_apart; [done|rewrite Hl'; by apply elem_of_list_to_set..|done].
Qed.

(** A page allocator that gives the pages of a list in turn. *)
#[local] Instance page_addr_dec p : Decision (page_addr p).
Proof. unfold page_addr. apply _. Defined.
Definition page_list_alloc (s : list Z * gset Z) : Z * (list Z * gset Z) :=
  match s.1 with
  | [] => (0, s)
  | p :: l => if decide (page_addr p /\ (p ∉ s.2)) then (p, (l, {[p]} ∪ s.2)) else (0, (l, s.2))
  end.
Definition page_list : PagePool (list Z * gset Z).
Proof.
  refine {| pool_held s := s.2; pool_alloc := page_list_alloc; pool_free s p := (s.1, s.2 ∖ {[p]}) |}.
  - intros [[|p l] h]; unfold page_list_alloc; cbn; [done|]. case_decide as Hd; [|done]. cbn. intros ->. by destruct Hd as [[? _] _].
  - intros [[|p l] h]; unfold page_list_alloc; cbn; [done|]. case_decide as Hd; [|done]. cbn. by destruct Hd.
  - done.
Defined.
Lemma fixed_size_client_safe_witness : exists r r' held,
  @fixed_size_range_init _ (mkAttrs 200 8) ([4096; 8192], ∅) = Ok r /\ @client_run _ page_list (r, []) (replicate 25 CAlloc ++ [CFree 3; CFree 0; CAlloc]) = Ok (r', held) /\ NoDup held.
Proof.
  destruct (@fixed_size_client_safe _ page_list (mkAttrs 200 8) ([4096; 8192], ∅) 3 (replicate 25 CAlloc ++ [CFree 3; CFree 0; CAlloc])) as (r & r' & held & H1 & H2 & H3 & _); [reflexivity|lia|cbn; lia|by vm_compute|].
  by exists r, r', held.
Defined.
