(* ===== verification/Vas.v ===== *)
(** * The virtual address allocator: the code

    [kernel/mem/vas.c], [kernel/mem/vas_internal.h] and [include/mem/vas.h].  A
    space has a global arena and one per CPU, which takes whole chunks from the
    global one; an arena keeps its segments in a red-black tree, in the list of all
    segments and, the free ones, in lists by size.  Magazines keep a few segments of
    common sizes that are handed out again without the lock.

    A segment is named by its address; its tree node is in the memory of the tree,
    its place in a list is its place in the list of addresses, and a pointer to a
    slot of a magazine is the pair of class and index.  Objects for segments come
    from an [ObjAlloc] per arena.  Every call runs as a whole: the locks and the
    interrupt level are not modelled.  The CPU of the caller and whether magazines
    are on (they are from the late boot stage on) are arguments of the calls.  The
    counters of test builds are left out. *)

From S2P Require Import Prelude BitMath BuddyPage Rbt RbtShape RbtInsert RbtApi FixedSize.

Definition VAS_CHUNK_SHIFT : Z := 26.
Definition VAS_CHUNK_SIZE : Z := BIT VAS_CHUNK_SHIFT.
Definition VAS_BIN_COUNT : Z := 64.
Definition VAS_OWNER_GLOBAL : Z := 2 ^ 64 - 1.
Definition VAS_MAG_CLASSES : Z := 4.
Definition VAS_MAG_CAPACITY : Z := 16.
Definition VAS_MAG_REFILL : Z := 4.
Definition VAS_MAG_BYTE_LIMIT : Z := 8 * 2 ^ 20.
Definition VAS_MAG_STATE_MASK : Z := 3.
Definition PAGE_2MB : Z := 2 * 2 ^ 20.
Definition mag_sizes : list Z := [PAGE_SIZE; 5 * PAGE_SIZE; 17 * PAGE_SIZE; PAGE_2MB].
Definition mag_caps : list Z := [VAS_MAG_CAPACITY; 8; 8; 2].

Inductive vas_segment_type := VAS_SEG_FREE | VAS_SEG_BUSY | VAS_SEG_IMPORTED | VAS_SEG_CACHED.
#[export] Instance vas_segment_type_eq_dec : EqDecision vas_segment_type.
Proof. solve_decision. Defined.
(** [enum vas_mag_state]. *)
Definition VAS_MAG_LIVE : Z := 1.
Definition VAS_MAG_CACHED : Z := 2.
Definition VAS_MAG_CLAIMED : Z := 3.

Record vas_segment := mkSeg {
  start : Z;
  seg_length : Z;
  span_start : Z;
  type : vas_segment_type;
  mag_slot : option (nat * nat);
}.
Record vas_mag_slot := mkSlot { token : Z; segment : Z }.
Record vas_magazine := mkMag { slots : list vas_mag_slot; recent : Z }.

Definition vas_token_make (addr state : Z) : Z := Z.lor addr state.
Definition mag_class (size : Z) : nat := default 4%nat (fst <$> list_find (fun s => s = size) mag_sizes).
(** [63 - clz(size)]. *)
Definition size_to_bin (size : Z) : outcome Z :=
  _ ← enforce (negb (size =? 0)); c ← clzll size; Ok (63 - c).

(** Lists of nodes: the node after [prev], or at the front for the sentinel (0). *)
Fixpoint insert_after (l : list Z) (prev x : Z) : list Z :=
  match l with [] => [] | y :: l => if y =? prev then y :: x :: l else y :: insert_after l prev x end.
Definition list_insert_after (l : list Z) (prev x : Z) : list Z := if prev =? 0 then x :: l else insert_after l prev x.
Definition list_remove (l : list Z) (x : Z) : list Z := filter (fun y => y <> x) l.
(** The neighbours of a node; 0 stands for the sentinel. *)
Fixpoint node_next (l : list Z) (x : Z) : Z :=
  match l with [] => 0 | y :: l => if y =? x then default 0 (hd_error l) else node_next l x end.
Fixpoint node_prev (prev : Z) (l : list Z) (x : Z) : Z :=
  match l with [] => 0 | y :: l => if y =? x then prev else node_prev y l x end.

Section Arena.
Context {F : Type} `{!ObjAlloc F}.
Context (DEBUG_RBT DEBUG_RBT_DEEP DEBUG_LOCK_CHK : bool).

Record vas_arena := mkArena {
  tree : rbt;
  segs : gmap Z vas_segment;
  all_segs : list Z;
  free_bins : list (list Z);
  bin_mask : Z;
  fsr : F;
  total_free : Z;
  magazines : list vas_magazine;
}.
Definition with_tree (a : vas_arena) (t : rbt) : vas_arena := mkArena t (segs a) (all_segs a) (free_bins a) (bin_mask a) (fsr a) (total_free a) (magazines a).
Definition with_segs (a : vas_arena) (m : gmap Z vas_segment) : vas_arena := mkArena (tree a) m (all_segs a) (free_bins a) (bin_mask a) (fsr a) (total_free a) (magazines a).
Definition with_all (a : vas_arena) (l : list Z) : vas_arena := mkArena (tree a) (segs a) l (free_bins a) (bin_mask a) (fsr a) (total_free a) (magazines a).
Definition with_bins (a : vas_arena) (b : list (list Z)) (m : Z) : vas_arena := mkArena (tree a) (segs a) (all_segs a) b m (fsr a) (total_free a) (magazines a).
Definition with_fsr (a : vas_arena) (f : F) : vas_arena := mkArena (tree a) (segs a) (all_segs a) (free_bins a) (bin_mask a) f (total_free a) (magazines a).
Definition with_total (a : vas_arena) (n : Z) : vas_arena := mkArena (tree a) (segs a) (all_segs a) (free_bins a) (bin_mask a) (fsr a) n (magazines a).
Definition with_mags (a : vas_arena) (ms : list vas_magazine) : vas_arena := mkArena (tree a) (segs a) (all_segs a) (free_bins a) (bin_mask a) (fsr a) (total_free a) ms.
Definition seg (a : vas_arena) (p : Z) : outcome vas_segment := deref (segs a !! p).
Definition put_seg (a : vas_arena) (p : Z) (s : vas_segment) : vas_arena := with_segs a (<[p := s]> (segs a)).
Definition set_type (a : vas_arena) (p : Z) (ty : vas_segment_type) : outcome vas_arena :=
  s ← seg a p; Ok (put_seg a p (mkSeg (start s) (seg_length s) (span_start s) ty (mag_slot s))).

Definition segment_key (m : gmap Z vas_segment) (p : Z) : Z := default 0 (start <$> m !! p).
(** [(l > r) - (l < r)] *)
Definition segment_cmp (m : gmap Z vas_segment) : Z -> Z -> Z := key_cmp (segment_key m).
Definition tree_insert_seg (a : vas_arena) (p : Z) : outcome vas_arena :=
  t ← rbt_insert (segment_cmp (segs a)) DEBUG_RBT DEBUG_RBT_DEEP DEBUG_LOCK_CHK (tree a) p; Ok (with_tree a t).
Definition tree_delete_seg (a : vas_arena) (p : Z) : outcome vas_arena :=
  t ← rbt_delete DEBUG_RBT DEBUG_RBT_DEEP (tree a) p; Ok (with_tree a t).
Definition init_node (a : vas_arena) (p : Z) : outcome vas_arena := t ← rbt_init_node (tree a) p; Ok (with_tree a t).

Definition bin_insert (a : vas_arena) (p : Z) : outcome vas_arena :=
  s ← seg a p;
  bin ← size_to_bin (seg_length s);
  l ← aget (free_bins a) bin;
  b ← aset (free_bins a) bin (p :: l);
  m ← BIT_SET 64 (bin_mask a) bin;
  Ok (with_bins a b m).
Definition bin_remove (a : vas_arena) (p : Z) : outcome vas_arena :=
  s ← seg a p;
  bin ← size_to_bin (seg_length s);
  l ← aget (free_bins a) bin;
  b ← aset (free_bins a) bin (list_remove l p);
  m ← (if bool_decide (list_remove l p = []) then BIT_CLEAR 64 (bin_mask a) bin else Ok (bin_mask a));
  Ok (with_bins a b m).

(** The object is zeroed, its type is [VAS_SEG_FREE]; 0 for [NULL]. *)
Definition segment_alloc (a : vas_arena) : outcome (vas_arena * Z) :=
  r ← obj_alloc (fsr a);
  let '(p, f) := (r : Z * F) in
  let a := with_fsr a f in
  if p =? 0 then Ok (a, 0) else
  let a := put_seg (with_tree a (put_node (tree a) p (mkNode 0 0 0))) p (mkSeg 0 0 0 VAS_SEG_FREE None) in
  a ← init_node a p;
  Ok (a, p).
(** [fixed_size_free]: the memory is the allocator's again. *)
Definition segment_free (a : vas_arena) (p : Z) : outcome vas_arena :=
  f ← obj_free (fsr a) p;
  Ok (with_fsr (with_segs (with_tree a (mkRbt (root (tree a)) (delete p (nodes (tree a))))) (delete p (segs a))) f).
Definition segment_insert_after (a : vas_arena) (p prev : Z) : outcome vas_arena :=
  a ← init_node a p;
  a ← tree_insert_seg a p;
  Ok (with_all a (list_insert_after (all_segs a) prev p)).
Definition segment_delete (a : vas_arena) (p : Z) : outcome vas_arena :=
  a ← tree_delete_seg a p;
  segment_free (with_all a (list_remove (all_segs a) p)) p.

Definition find_body (a : vas_arena) (addr : Z) (p : Z) : outcome (Z + Z) :=
  if p =? 0 then Ok (inr 0) else
  s ← seg a p;
  n ← node (tree a) p;
  Ok (if addr <? start s then inl (left n) else if seg_length s <=? u64 (addr - start s) then inl (right n) else inr p).
Definition segment_find (a : vas_arena) (addr : Z) : outcome Z := loop (rounds (tree a)) (find_body a addr) (root (tree a)).

Definition empty_mag : vas_magazine := mkMag (replicate (Z.to_nat VAS_MAG_CAPACITY) (mkSlot 0 0)) 0.
Definition arena_init (f : F) : vas_arena :=
  mkArena (mkRbt 0 ∅) ∅ [] (replicate (Z.to_nat VAS_BIN_COUNT) []) 0 f 0 (replicate (Z.to_nat VAS_MAG_CLASSES) empty_mag).

(** *** Allocating from an arena *)

(** The padding of the first segment of the list that is large enough. *)
Definition seg_pad (s : vas_segment) (align : Z) : Z := Z.land (u64 (- start s)) (u64 (align - 1)).
Fixpoint scan_bin (a : vas_arena) (size align : Z) (l : list Z) : outcome (option Z) :=
  match l with
  | [] => Ok None
  | p :: l =>
      s ← seg a p;
      let pad := seg_pad s align in
      if (seg_length s <? pad) || (u64 (seg_length s - pad) <? size) then scan_bin a size align l else Ok (Some p)
  end.
Definition bins_body (a : vas_arena) (size align mask : Z) : outcome (Z + option Z) :=
  if mask =? 0 then Ok (inr None) else
  bin ← ctzll mask;
  l ← aget (free_bins a) bin;
  r ← scan_bin a size align l;
  Ok (match r with Some p => inr (Some p) | None => inl (Z.land mask (mask - 1)) end).
Definition first_fit (a : vas_arena) (size align : Z) : outcome (option Z) :=
  bin ← size_to_bin size;
  loop 65 (bins_body a size align) (Z.land (bin_mask a) (u64 (Z.shiftl (2 ^ 64 - 1) bin))).

(** A free segment cut off [seg]: its place is after [prev] in the list. *)
Definition add_piece (a : vas_arena) (p start length span prev : Z) : outcome vas_arena :=
  s ← seg a p;
  let a := put_seg a p (mkSeg start length span (type s) (mag_slot s)) in
  a ← segment_insert_after a p prev;
  bin_insert a p.
(** [arena_alloc] once a segment is found: the objects for the pieces first, then
    the segment is cut.  The segment, 0 when an object is missing. *)
Definition carve (a : vas_arena) (p size align : Z) : outcome (vas_arena * Z) :=
  s ← seg a p;
  let pad := seg_pad s align in
  let tail := u64 (seg_length s - pad - size) in
  r ← (if pad =? 0 then Ok (a, 0) else segment_alloc a);
  let '(a, left) := (r : vas_arena * Z) in
  if negb (pad =? 0) && (left =? 0) then Ok (a, 0) else
  r ← (if tail =? 0 then Ok (a, 0) else segment_alloc a);
  let '(a, right) := (r : vas_arena * Z) in
  if negb (tail =? 0) && (right =? 0) then
    a ← (if left =? 0 then Ok a else segment_free a left); Ok (a, 0)
  else
  a ← bin_remove a p;
  a ← tree_delete_seg a p;
  a ← (if left =? 0 then Ok a else add_piece a left (start s) pad (span_start s) (node_prev 0 (all_segs a) p));
  let a := put_seg a p (mkSeg (u64 (start s + pad)) size (span_start s) VAS_SEG_BUSY (mag_slot s)) in
  a ← init_node a p;
  a ← tree_insert_seg a p;
  a ← (if right =? 0 then Ok a else add_piece a right (u64 (u64 (start s + pad) + size)) tail (span_start s) p);
  Ok (with_total a (u64 (total_free a - size)), p).
(** The segment (0 for [NULL]) and whether an object was missing. *)
Definition arena_alloc (a : vas_arena) (size align : Z) : outcome (vas_arena * Z * bool) :=
  r ← first_fit a size align;
  match r with
  | None => Ok (a, 0, false)
  | Some p => x ← carve a p size align; let '(a, p) := (x : vas_arena * Z) in Ok (a, p, p =? 0)
  end.

(** *** Releasing a segment *)

Definition segments_mergeable (l r : vas_segment) : bool :=
  bool_decide (type l = VAS_SEG_FREE) && bool_decide (type r = VAS_SEG_FREE) && (span_start l =? span_start r) && (seg_length l =? u64 (start r - start l)).
(** [keep] takes over [gone], which is behind it. *)
Definition merge (a : vas_arena) (keep gone : Z) (unbin : Z) : outcome vas_arena :=
  a ← bin_remove a unbin;
  k ← seg a keep; g ← seg a gone;
  segment_delete (put_seg a keep (mkSeg (start k) (u64 (seg_length k + seg_length g)) (span_start k) (type k) (mag_slot k))) gone.
Definition arena_release (a : vas_arena) (p : Z) : outcome vas_arena :=
  s ← seg a p;
  let a := with_total a (u64 (total_free a + seg_length s)) in
  a ← set_type a p VAS_SEG_FREE;
  let prev := node_prev 0 (all_segs a) p in
  r ← (if prev =? 0 then Ok (a, p) else
       l ← seg a prev; s ← seg a p;
       if segments_mergeable l s then a ← merge a prev p prev; Ok (a, prev) else Ok (a, p));
  let '(a, p) := (r : vas_arena * Z) in
  let next := node_next (all_segs a) p in
  a ← (if next =? 0 then Ok a else
       s ← seg a p; n ← seg a next;
       if segments_mergeable s n then merge a p next next else Ok a);
  bin_insert a p.

(** *** Magazines *)

Definition get_slot (a : vas_arena) (cls i : nat) : outcome vas_mag_slot :=
  m ← deref (magazines a !! cls); deref (slots m !! i).
Definition put_slot (a : vas_arena) (cls i : nat) (s : vas_mag_slot) : outcome vas_arena :=
  m ← deref (magazines a !! cls); Ok (with_mags a (<[cls := mkMag (<[i := s]> (slots m)) (recent m)]> (magazines a))).
(** The address and the state in a token. *)
Definition token_addr (t : Z) : Z := Z.land t (not_w 64 VAS_MAG_STATE_MASK).
Definition token_state (t : Z) : Z := Z.land t VAS_MAG_STATE_MASK.

Definition magazine_claim (a : vas_arena) (cls i : nat) (tok : Z) : outcome (vas_arena * bool) :=
  slot ← get_slot a cls i;
  if token slot =? tok then
    a ← put_slot a cls i (mkSlot (Z.lor (token_addr tok) VAS_MAG_CLAIMED) (segment slot)); Ok (a, true)
  else Ok (a, false).
Definition magazine_publish (a : vas_arena) (cls i : nat) (state : Z) : outcome vas_arena :=
  slot ← get_slot a cls i;
  s ← seg a (segment slot);
  a ← set_type a (segment slot) (if state =? VAS_MAG_LIVE then VAS_SEG_BUSY else VAS_SEG_CACHED);
  put_slot a cls i (mkSlot (vas_token_make (start s) state) (segment slot)).

(** The loop over [n]; the address, 0 when no slot fits. *)
Fixpoint mag_alloc_scan (a : vas_arena) (cls : nat) (cap recent align : Z) (l : list Z) : outcome (vas_arena * Z) :=
  match l with
  | [] => Ok (a, 0)
  | n :: l =>
      let i := Z.to_nat (u32 (recent + n) mod cap) in
      slot ← get_slot a cls i;
      let addr := token_addr (token slot) in
      al ← IS_ALIGNED addr align;
      if negb (token_state (token slot) =? VAS_MAG_CACHED) || negb al then mag_alloc_scan a cls cap recent align l else
      c ← magazine_claim a cls i (token slot);
      let '(a, ok) := (c : vas_arena * bool) in
      if negb ok then mag_alloc_scan a cls cap recent align l else
      a ← magazine_publish a cls i VAS_MAG_LIVE; Ok (a, addr)
  end.
Definition magazine_alloc (a : vas_arena) (cls : nat) (align : Z) : outcome (vas_arena * Z) :=
  cap ← deref (mag_caps !! cls);
  m ← deref (magazines a !! cls);
  mag_alloc_scan a cls cap (recent m) align (seqZ 0 cap).

Fixpoint mag_free_scan (a : vas_arena) (cls : nat) (addr : Z) (l : list Z) : outcome (vas_arena * bool) :=
  match l with
  | [] => Ok (a, false)
  | n :: l =>
      let i := Z.to_nat n in
      let tok := vas_token_make addr VAS_MAG_LIVE in
      slot ← get_slot a cls i;
      if negb (token slot =? tok) then mag_free_scan a cls addr l else
      c ← magazine_claim a cls i tok;
      let '(a, ok) := (c : vas_arena * bool) in
      if negb ok then mag_free_scan a cls addr l else
      a ← magazine_publish a cls i VAS_MAG_CACHED;
      m ← deref (magazines a !! cls);
      Ok (with_mags a (<[cls := mkMag (slots m) n]> (magazines a)), true)
  end.
Definition magazine_free (a : vas_arena) (cls : nat) (addr : Z) : outcome (vas_arena * bool) :=
  al ← IS_ALIGNED addr PAGE_SIZE;
  if negb al then Ok (a, false) else
  cap ← deref (mag_caps !! cls);
  mag_free_scan a cls addr (seqZ 0 cap).

(** The first slot without a token. *)
Fixpoint empty_slot (a : vas_arena) (cls : nat) (l : list Z) : outcome (option nat) :=
  match l with
  | [] => Ok None
  | n :: l => slot ← get_slot a cls (Z.to_nat n); if token slot =? 0 then Ok (Some (Z.to_nat n)) else empty_slot a cls l
  end.
(** [bytes] is [mag_reserved_bytes] of the space. *)
Definition magazine_enroll (bytes : Z) (a : vas_arena) (p : Z) (cls : nat) (state : Z) : outcome (Z * vas_arena * bool) :=
  s ← seg a p;
  al ← IS_ALIGNED (start s) PAGE_SIZE;
  if negb al then Ok (bytes, a, false) else
  cap ← deref (mag_caps !! cls);
  e ← empty_slot a cls (seqZ 0 cap);
  match e with
  | None => Ok (bytes, a, false)
  | Some i =>
      if u64 (VAS_MAG_BYTE_LIMIT - bytes) <? seg_length s then Ok (bytes, a, false) else
      let a := put_seg a p (mkSeg (start s) (seg_length s) (span_start s) (type s) (Some (cls, i))) in
      slot ← get_slot a cls i;
      a ← put_slot a cls i (mkSlot (token slot) p);
      a ← magazine_publish a cls i state;
      Ok (u64 (bytes + seg_length s), a, true)
  end.
Fixpoint refill_loop (n : nat) (bytes : Z) (a : vas_arena) (cls : nat) (size align : Z) : outcome (Z * vas_arena) :=
  match n with
  | O => Ok (bytes, a)
  | S n =>
      r ← arena_alloc a size align;
      let '(a, p, _) := (r : vas_arena * Z * bool) in
      if p =? 0 then Ok (bytes, a) else
      e ← magazine_enroll bytes a p cls VAS_MAG_CACHED;
      let '(bytes, a, ok) := (e : Z * vas_arena * bool) in
      if negb ok then a ← arena_release a p; Ok (bytes, a) else refill_loop n bytes a cls size align
  end.
Definition magazine_refill (enabled : bool) (bytes : Z) (a : vas_arena) (allocated align : Z) : outcome (Z * vas_arena) :=
  if negb enabled then Ok (bytes, a) else
  s ← seg a allocated;
  let cls := mag_class (seg_length s) in
  if Z.of_nat cls =? VAS_MAG_CLASSES then Ok (bytes, a) else
  e ← magazine_enroll bytes a allocated cls VAS_MAG_LIVE;
  let '(bytes, a, ok) := (e : Z * vas_arena * bool) in
  if negb ok then Ok (bytes, a) else
  cap ← deref (mag_caps !! cls);
  size ← deref (mag_sizes !! cls);
  refill_loop (Z.to_nat (Z.min VAS_MAG_REFILL cap - 1)) bytes a cls size align.

Definition magazine_release (bytes : Z) (a : vas_arena) (cls i : nat) : outcome (Z * vas_arena) :=
  slot ← get_slot a cls i;
  let p := segment slot in
  s ← seg a p;
  let bytes := u64 (bytes - seg_length s) in
  let a := put_seg a p (mkSeg (start s) (seg_length s) (span_start s) (type s) None) in
  a ← put_slot a cls i (mkSlot (token slot) 0);
  a ← arena_release a p;
  slot ← get_slot a cls i;
  a ← put_slot a cls i (mkSlot 0 (segment slot));
  Ok (bytes, a).
Fixpoint drain_slots (bytes : Z) (a : vas_arena) (l : list (nat * nat)) : outcome (Z * vas_arena) :=
  match l with
  | [] => Ok (bytes, a)
  | (cls, i) :: l =>
      slot ← get_slot a cls i;
      if negb (token_state (token slot) =? VAS_MAG_CACHED) then drain_slots bytes a l else
      c ← magazine_claim a cls i (token slot);
      let '(a, ok) := (c : vas_arena * bool) in
      if negb ok then drain_slots bytes a l else
      r ← magazine_release bytes a cls i;
      let '(bytes, a) := (r : Z * vas_arena) in
      drain_slots bytes a l
  end.
(** Every slot, class by class. *)
Definition mag_slots : list (nat * nat) :=
  concat (imap (fun cls cap => (fun i => (cls, Z.to_nat i)) <$> seqZ 0 cap) mag_caps).
Definition magazine_drain (bytes : Z) (a : vas_arena) : outcome (Z * vas_arena) := drain_slots bytes a mag_slots.

(** *** The space *)

Record vas := mkVas {
  global : vas_arena;
  base : Z;
  limit : Z;
  map_base : Z;
  local : list vas_arena;
  chunk_owner : list Z;
  mag_reserved_bytes : Z;
}.
Definition with_global (v : vas) (a : vas_arena) : vas := mkVas a (base v) (limit v) (map_base v) (local v) (chunk_owner v) (mag_reserved_bytes v).
Definition with_local (v : vas) (cpu : nat) (a : vas_arena) : vas := mkVas (global v) (base v) (limit v) (map_base v) (<[cpu := a]> (local v)) (chunk_owner v) (mag_reserved_bytes v).
Definition with_bytes (v : vas) (n : Z) : vas := mkVas (global v) (base v) (limit v) (map_base v) (local v) (chunk_owner v) n.

Definition owner_index (v : vas) (addr : Z) : Z := Z.shiftr (u64 (addr - map_base v)) VAS_CHUNK_SHIFT.
Definition set_owner (v : vas) (addr o : Z) : outcome vas :=
  b ← aset (chunk_owner v) (owner_index v addr) o;
  Ok (mkVas (global v) (base v) (limit v) (map_base v) (local v) b (mag_reserved_bytes v)).

(** The walk over the segments of a CPU: chunks that are free as a whole go back. *)
Fixpoint reclaim_segs (v : vas) (cpu : nat) (l : list Z) : outcome vas :=
  match l with
  | [] => Ok v
  | p :: l =>
      a ← deref (local v !! cpu);
      s ← seg a p;
      if negb (bool_decide (type s = VAS_SEG_FREE)) || negb (start s =? span_start s) || negb (seg_length s =? VAS_CHUNK_SIZE)
      then reclaim_segs v cpu l else
      parent ← segment_find (global v) (start s);
      ps ← (if parent =? 0 then Panic else seg (global v) parent);
      _ ← enforce ((start ps =? start s) && (seg_length ps =? VAS_CHUNK_SIZE) && bool_decide (type ps = VAS_SEG_IMPORTED));
      a ← bin_remove a p;
      a ← segment_delete (with_total a (u64 (total_free a - seg_length s))) p;
      g ← arena_release (global v) parent;
      v ← set_owner (with_global (with_local v cpu a) g) (start s) VAS_OWNER_GLOBAL;
      reclaim_segs v cpu l
  end.
Definition reclaim_cpu (v : vas) (cpu : nat) : outcome vas :=
  a ← deref (local v !! cpu);
  r ← magazine_drain (mag_reserved_bytes v) a;
  let '(bytes, a) := (r : Z * vas_arena) in
  reclaim_segs (with_bytes (with_local v cpu a) bytes) cpu (all_segs a).
Fixpoint reclaim_cpus (v : vas) (l : list nat) : outcome vas :=
  match l with [] => Ok v | cpu :: l => v ← reclaim_cpu v cpu; reclaim_cpus v l end.
Definition reclaim_locked (v : vas) : outcome vas := reclaim_cpus v (seq 0 (length (local v))).

(** A chunk for the CPU, and the allocation from its arena: the address (0 for none)
    and whether an object was missing. *)
Definition import_alloc (enabled : bool) (v : vas) (cpu : nat) (size align : Z) : outcome (vas * Z * bool) :=
  loc ← deref (local v !! cpu);
  r ← segment_alloc loc;
  let '(loc, p) := (r : vas_arena * Z) in
  if p =? 0 then Ok (with_local v cpu loc, 0, true) else
  r ← arena_alloc (global v) VAS_CHUNK_SIZE VAS_CHUNK_SIZE;
  let '(g, parent, failed) := (r : vas_arena * Z * bool) in
  if parent =? 0 then loc ← segment_free loc p; Ok (with_global (with_local v cpu loc) g, 0, failed) else
  g ← set_type g parent VAS_SEG_IMPORTED;
  ps ← seg g parent;
  s ← seg loc p;
  let loc := put_seg loc p (mkSeg (start ps) VAS_CHUNK_SIZE (start ps) (type s) (mag_slot s)) in
  before ← rbt_find_predecessor (segment_key (segs loc)) (tree loc) (start ps);
  loc ← segment_insert_after loc p before;
  loc ← bin_insert loc p;
  let loc := with_total loc (u64 (total_free loc + VAS_CHUNK_SIZE)) in
  r ← arena_alloc loc size align;
  let '(loc, allocated, failed') := (r : vas_arena * Z * bool) in
  let failed := failed || failed' in
  if allocated =? 0 then
    loc ← bin_remove loc p;
    loc ← segment_delete (with_total loc (u64 (total_free loc - VAS_CHUNK_SIZE))) p;
    g ← arena_release g parent;
    Ok (with_global (with_local v cpu loc) g, 0, failed)
  else
    v ← set_owner (with_global v g) (start ps) (Z.of_nat cpu);
    s ← seg loc allocated;
    r ← magazine_refill enabled (mag_reserved_bytes v) loc allocated align;
    let '(bytes, loc) := (r : Z * vas_arena) in
    Ok (with_bytes (with_local v cpu loc) bytes, start s, failed).

(** The two rounds under the lock of the global arena. *)
Fixpoint alloc_attempts (n : nat) (enabled : bool) (v : vas) (cpu : nat) (size align : Z) (local_request : bool) : outcome (vas * Z) :=
  match n with
  | O => Ok (v, 0)
  | S n =>
      r ← (if local_request then import_alloc enabled v cpu size align else Ok (v, 0, false));
      let '(v, result, failed) := (r : vas * Z * bool) in
      r ← (if (result =? 0) && negb failed then
             x ← arena_alloc (global v) size align;
             let '(g, p, failed) := (x : vas_arena * Z * bool) in
             let v := with_global v g in
             if p =? 0 then Ok (v, 0, failed) else s ← seg g p; Ok (v, start s, failed)
           else Ok (v, result, failed));
      let '(v, result, failed) := (r : vas * Z * bool) in
      if negb (result =? 0) || failed || bool_decide (n = 0%nat) then Ok (v, result) else
      v ← reclaim_locked v;
      alloc_attempts n enabled v cpu size align local_request
  end.
Definition vas_alloc (enabled : bool) (v : vas) (cpu : nat) (size align : Z) : outcome (vas * Z) :=
  if (size =? 0) || negb (IS_POW2 align) || (u64 (limit v - base v) <? size) then Ok (v, 0) else
  let local_request := (size <=? VAS_CHUNK_SIZE) && (align <=? VAS_CHUNK_SIZE) in
  let cls := mag_class size in
  loc ← deref (local v !! cpu);
  r ← (if (Z.of_nat cls <? VAS_MAG_CLASSES) && enabled then magazine_alloc loc cls align else Ok (loc, 0));
  let '(loc, result) := (r : vas_arena * Z) in
  let v := with_local v cpu loc in
  if negb (result =? 0) then Ok (v, result) else
  r ← (if local_request then
         x ← arena_alloc loc size align;
         let '(loc, p, failed) := (x : vas_arena * Z * bool) in
         if p =? 0 then Ok (with_local v cpu loc, 0, failed) else
         s ← seg loc p;
         y ← magazine_refill enabled (mag_reserved_bytes v) loc p align;
         let '(bytes, loc) := (y : Z * vas_arena) in
         Ok (with_bytes (with_local v cpu loc) bytes, start s, failed)
       else Ok (v, 0, false));
  let '(v, result, failed) := (r : vas * Z * bool) in
  if negb (result =? 0) || failed then Ok (v, result) else
  alloc_attempts 2 enabled v cpu size align local_request.

(** The arena an address belongs to: [None] for the global one. *)
Definition vas_lock_owner (v : vas) (addr : Z) : outcome (option nat) :=
  owner ← aget (chunk_owner v) (owner_index v addr);
  _ ← enforce ((owner =? VAS_OWNER_GLOBAL) || (owner <? Z.of_nat (length (local v))));
  Ok (if owner =? VAS_OWNER_GLOBAL then None else Some (Z.to_nat owner)).
Definition arena_of (v : vas) (o : option nat) : outcome vas_arena :=
  match o with None => Ok (global v) | Some cpu => deref (local v !! cpu) end.
Definition with_arena (v : vas) (o : option nat) (a : vas_arena) : vas :=
  match o with None => with_global v a | Some cpu => with_local v cpu a end.

Definition vas_vaddr_in_vas (v : vas) (addr : Z) : bool := (base v <=? addr) && (addr <? limit v).
Definition vas_free (enabled : bool) (v : vas) (cpu : nat) (addr size : Z) : outcome vas :=
  if negb (vas_vaddr_in_vas v addr) || (size =? 0) || (u64 (limit v - addr) <? size) then Panic else
  let cls := mag_class size in
  loc ← deref (local v !! cpu);
  r ← (if (Z.of_nat cls <? VAS_MAG_CLASSES) && enabled then magazine_free loc cls addr else Ok (loc, false));
  let '(loc, done) := (r : vas_arena * bool) in
  let v := with_local v cpu loc in
  if done then Ok v else
  o ← vas_lock_owner v addr;
  a ← arena_of v o;
  p ← segment_find a addr;
  s ← (if p =? 0 then Panic else seg a p);
  if negb (bool_decide (type s = VAS_SEG_BUSY)) || negb (start s =? addr) || negb (seg_length s =? size) then Panic else
  match mag_slot s with
  | Some (cls, i) =>
      c ← magazine_claim a cls i (vas_token_make addr VAS_MAG_LIVE);
      let '(a, ok) := (c : vas_arena * bool) in
      if negb ok then Panic else
      r ← magazine_release (mag_reserved_bytes v) a cls i;
      let '(bytes, a) := (r : Z * vas_arena) in
      Ok (with_bytes (with_arena v o a) bytes)
  | None => a ← arena_release a p; Ok (with_arena v o a)
  end.
Definition vas_vaddr_is_allocated (v : vas) (addr : Z) : outcome bool :=
  if negb (vas_vaddr_in_vas v addr) then Ok false else
  o ← vas_lock_owner v addr;
  a ← arena_of v o;
  p ← segment_find a addr;
  if p =? 0 then Ok false else s ← seg a p; Ok (bool_decide (type s = VAS_SEG_BUSY)).
Definition vas_reclaim (v : vas) : outcome vas := reclaim_locked v.

Definition vas_reclaim_freelist_pages (a : vas_arena) : outcome vas_arena := f ← obj_reclaim (fsr a); Ok (with_fsr a f).

Fixpoint destroy_segs (a : vas_arena) (l : list Z) : outcome vas_arena :=
  match l with
  | [] => Ok a
  | p :: l =>
      s ← seg a p;
      a ← (if bool_decide (type s = VAS_SEG_FREE) then bin_remove a p else Ok a);
      a ← segment_delete a p;
      destroy_segs a l
  end.
Definition arena_destroy (a : vas_arena) : outcome vas_arena :=
  a ← destroy_segs a (all_segs a);
  vas_reclaim_freelist_pages a.
Fixpoint destroy_locals (l : list vas_arena) : outcome (list vas_arena) :=
  match l with [] => Ok [] | a :: l => a ← arena_destroy a; l ← destroy_locals l; Ok (a :: l) end.
(** The space, and whether it was destroyed. *)
Definition vas_destroy (v : vas) : outcome (vas * bool) :=
  v ← vas_reclaim v;
  if negb (total_free (global v) =? u64 (limit v - base v)) then Ok (v, false) else
  l ← destroy_locals (local v);
  g ← arena_destroy (global v);
  Ok (mkVas g (base v) (limit v) (map_base v) l (chunk_owner v) (mag_reserved_bytes v), true).

(** [got] says whether the memory for the structure is to be had, the allocators of
    the arenas are [fg] and [fl]; [overhead] is the size of the structure with its
    arenas. *)
Definition space_create (got : bool) (overhead : Z) (fg : F) (fl : list F) (base limit : Z) : outcome (option vas) :=
  _ ← enforce (negb (length fl =? 0)%nat && (Z.of_nat (length fl) <? VAS_OWNER_GLOBAL));
  if (base =? 0) || (limit <=? base) then Ok None else
  map_base ← ALIGN_DOWN base VAS_CHUNK_SIZE;
  let owners := u64 (Z.shiftr (u64 (limit - 1 - map_base)) VAS_CHUNK_SHIFT + 1) in
  if u64 (SIZE_MAX - overhead) `div` 8 <? owners then Ok None else
  let bytes := u64 (overhead + owners * 8) in
  if SIZE_MAX - (PAGE_SIZE - 1) <? bytes then Ok None else
  if negb got then Ok None else
  r ← segment_alloc (arena_init fg);
  let '(g, p) := (r : vas_arena * Z) in
  if p =? 0 then Ok None else
  s ← seg g p;
  let g := put_seg g p (mkSeg base (u64 (limit - base)) (span_start s) (type s) (mag_slot s)) in
  g ← segment_insert_after g p 0;
  g ← bin_insert g p;
  let g := with_total g (u64 (limit - base)) in
  Ok (Some (mkVas g base limit map_base (arena_init <$> fl) (replicate (Z.to_nat owners) VAS_OWNER_GLOBAL) 0)).

(** For the range [ar_base] to [ar_base + ar_size]. *)
Definition space_from (got : bool) (overhead : Z) (fg : F) (fl : list F) (ar_base ar_size : Z) : outcome (option vas) :=
  if SIZE_MAX - ar_base <? ar_size then Ok None else space_create got overhead fg fl ar_base (u64 (ar_base + ar_size)).
End Arena.
