(* ===== verification/VasArena.v ===== *)
(** * The virtual address allocator: arenas

    An arena as the list of its segments in the order of their addresses
    ([arena_rep]): what allocating from it and releasing into it do to the list,
    with the tree, the lists by size, the mask of the lists that are not empty, the
    objects and the sum of the free lengths following. *)

From stdpp Require Import sorting.
From S2P Require Import Prelude BitMath BuddyPage Rbt RbtShape RbtInv RbtWalk RbtInsert RbtDelete RbtApi FixedSize Vas.

(** ** Bits *)

Lemma size_to_bin_ok n : 0 < n -> size_to_bin n = Ok (Z.log2 n).
Proof.
  intros Hn. unfold size_to_bin, clzll. rewrite (proj2 (Z.eqb_neq n 0)) by lia. cbn [negb enforce]. rewrite !bind_Ok. f_equal. lia.
Qed.
Lemma log2_64 n : 0 < n < 2 ^ 64 -> 0 <= Z.log2 n < 64.
Proof. intros Hn. split; [apply Z.log2_nonneg|]. apply Z.log2_lt_pow2; lia. Qed.
(** [mask & (mask - 1)] clears the lowest one bit. *)
Lemma clear_lowest m c i : 0 < m -> lowest_bit m c -> 0 <= i -> Z.testbit (Z.land m (m - 1)) i = (c <? i) && Z.testbit m i.
Proof.
  intros Hm (Hc & Hb & [q Hq]) Hi. rewrite Z.land_spec. assert (0 < 2 ^ c) as Hpc by (apply Z.pow_pos_nonneg; lia).
  assert (Z.odd q = true) as Hodd by (rewrite Hq, Z.mul_pow2_bits, Z.sub_diag in Hb by lia; by rewrite <- Z.bit0_odd).
  destruct (Z.ltb_spec c i) as [Hci|Hci]; cbn [andb].
  - assert (Z.testbit (m - 1) i = Z.testbit m i) as ->; [|apply andb_diag]. replace i with ((i - c) + c) by lia. rewrite <- !Z.div_pow2_bits by lia. rewrite Hq.
    replace (q * 2 ^ c - 1) with ((q - 1) * 2 ^ c + (2 ^ c - 1)) by lia. rewrite Z.div_add_l, (Z.div_small (2 ^ c - 1)), Z.add_0_r, Z.div_mul by lia.
    apply Z.odd_spec in Hodd as [j ->]. replace (2 * j + 1 - 1) with (2 * j) by lia. replace (i - c) with (Z.succ (i - c - 1)) by lia. rewrite Z.testbit_even_succ, Z.testbit_odd_succ by lia. done.
  - destruct (decide (i = c)) as [->|Hne].
    + rewrite Hb. cbn [andb]. replace (Z.testbit (m - 1) c) with (Z.testbit (m - 1) (0 + c)) by (f_equal; lia). rewrite <- Z.div_pow2_bits by lia. rewrite Hq. replace (q * 2 ^ c - 1) with ((q - 1) * 2 ^ c + (2 ^ c - 1)) by lia.
      rewrite Z.div_add_l, (Z.div_small (2 ^ c - 1)), Z.add_0_r by lia. rewrite Z.bit0_odd. apply Z.odd_spec in Hodd as [j ->]. replace (2 * j + 1 - 1) with (2 * j) by lia. by rewrite Z.odd_mul.
    + rewrite Hq, Z.mul_pow2_bits_low by lia. done.
Qed.
Lemma seg_pad_mod s k : 0 <= k < 64 -> seg_pad s (2 ^ k) = (- start s) mod 2 ^ k.
Proof.
  intros Hk. unfold seg_pad. assert (1 <= 2 ^ k) by (pose proof (Z.pow_le_mono_r 2 0 k ltac:(lia) ltac:(lia)); lia). pose proof (Z.pow_lt_mono_r 2 k 64 ltac:(lia) ltac:(lia) ltac:(lia)).
  rewrite (wrap_small 64 (2 ^ k - 1)) by (unfold in_u; lia). rewrite land_pred_pow2 by lia. unfold wrap.
  symmetry. apply Znumtheory.Zmod_div_mod; [lia|lia|]. exists (2 ^ (64 - k)). rewrite <- Z.pow_add_r by lia. f_equal. lia.
Qed.

(** ** Lists of addresses *)

Lemma insert_after_mid l1 p l2 x : p ∉ l1 -> insert_after (l1 ++ p :: l2) p x = l1 ++ p :: x :: l2.
Proof.
  induction l1 as [|y l1 IH]; intros Hn; cbn [insert_after app]; [by rewrite Z.eqb_refl|]. apply not_elem_of_cons in Hn as [Hy Hn].
  rewrite (proj2 (Z.eqb_neq y p)) by done. by rewrite IH.
Qed.
Lemma node_prev_mid q l1 p l2 : p ∉ l1 -> node_prev q (l1 ++ p :: l2) p = default q (list.last l1).
Proof.
  revert q. induction l1 as [|y l1 IH]; intros q Hn; cbn [node_prev app]; [by rewrite Z.eqb_refl|]. apply not_elem_of_cons in Hn as [Hy Hn].
  rewrite (proj2 (Z.eqb_neq y p)) by done. rewrite IH by done. destruct l1 as [|z l1]; [done|]. rewrite last_cons_cons. by destruct (list.last (z :: l1)) eqn:E; [|apply last_None in E].
Qed.
Lemma node_next_mid l1 p l2 : p ∉ l1 -> node_next (l1 ++ p :: l2) p = default 0 (hd_error l2).
Proof.
  induction l1 as [|y l1 IH]; intros Hn; cbn [node_next app]; [rewrite Z.eqb_refl; by destruct l2|]. apply not_elem_of_cons in Hn as [Hy Hn].
  rewrite (proj2 (Z.eqb_neq y p)) by done. by rewrite IH.
Qed.
Lemma list_remove_mid l1 p l2 : p ∉ l1 -> p ∉ l2 -> list_remove (l1 ++ p :: l2) p = l1 ++ l2.
Proof.
  intros H1 H2. unfold list_remove. rewrite list.filter_app, filter_cons_False by tauto. f_equal; (apply filter_all; intros x Hx ->; done).
Qed.

(** ** The lists by size *)

(** Bin [i] holds the segments [p] with [P p n] for a length [n] of [i + 1] bits, and
    bit [i] of the mask says that it is not empty. *)
Definition bins_rep (bins : list (list Z)) (mask : Z) (P : Z -> Z -> Prop) : Prop :=
  length bins = 64%nat /\ in_u 64 mask /\ (forall p n m, P p n -> P p m -> n = m) /\ (forall p n, P p n -> 0 < n < 2 ^ 64) /\
  forall i l, bins !! i = Some l -> NoDup l /\ (forall p, p ∈ l <-> exists n, P p n /\ Z.log2 n = Z.of_nat i) /\ (Z.testbit mask (Z.of_nat i) = true <-> l <> []).
Lemma bins_rep_ext bins mask P Q : (forall p n, P p n <-> Q p n) -> bins_rep bins mask P -> bins_rep bins mask Q.
Proof.
  intros E (H1 & H2 & H3 & H4 & H5). split_and!; [done|done|intros p n m ?%E ?%E; by eapply H3|intros p n ?%E; by eapply H4|]. intros i l Hi. destruct (H5 i l Hi) as (A & B & C).
  split_and!; [done| |done]. intros p. rewrite B. by setoid_rewrite E.
Qed.

Lemma BIT_SET_bits mask i : in_u 64 mask -> 0 <= i < 64 -> exists m, BIT_SET 64 mask i = Ok m /\ in_u 64 m /\ (forall j, 0 <= j -> Z.testbit m j = (j =? i) || Z.testbit mask j).
Proof.
  intros Hm Hi. unfold BIT_SET. rewrite (proj2 (Z.leb_le 0 i)), (proj2 (Z.ltb_lt i 64)) by lia. cbn [andb enforce]. rewrite bind_Ok. eexists. split; [done|]. split; [by apply wrap_range|].
  intros j Hj. rewrite BIT_pow by lia. zbits_norm. destruct (Z.ltb_spec j 64); cbn [andb]; [|rewrite (testbit_small 64 mask j) by (done || lia); by destruct (Z.eqb_spec j i); [lia|]].
  by rewrite orb_comm.
Qed.
Lemma BIT_CLEAR_bits mask i : in_u 64 mask -> 0 <= i < 64 -> exists m, BIT_CLEAR 64 mask i = Ok m /\ in_u 64 m /\ (forall j, 0 <= j -> Z.testbit m j = negb (j =? i) && Z.testbit mask j).
Proof.
  intros Hm Hi. unfold BIT_CLEAR. rewrite (proj2 (Z.leb_le 0 i)), (proj2 (Z.ltb_lt i 64)) by lia. cbn [andb enforce]. rewrite bind_Ok. eexists. split; [done|]. split; [by apply wrap_range|].
  intros j Hj. rewrite BIT_pow by lia. unfold not_w. zbits_norm. destruct (Z.ltb_spec j 64); cbn [andb]; [|rewrite (testbit_small 64 mask j) by (done || lia); by rewrite andb_false_r].
  zbits_norm. replace (0 <=? j) with true by lia. by destruct (j =? i), (Z.testbit mask j).
Qed.

(** ** An arena in the middle of an operation *)

Notation slen := seg_length.
(** The free segments of a store, with their lengths. *)
Definition free_of (M : gmap Z vas_segment) (p n : Z) : Prop := exists s, M !! p = Some s /\ type s = VAS_SEG_FREE /\ slen s = n.

Section ArenaState.
Context {F : Type} `{!ObjAlloc F}.
Context (DEBUG_RBT DEBUG_RBT_DEEP DEBUG_LOCK_CHK : bool).
Implicit Types (a : @vas_arena F) (M : gmap Z vas_segment) (s : vas_segment) (ms : list vas_magazine).

(** The objects [M], those of [TL] in the tree in this order, [A] in the list of all
    segments, [P] in the lists by size. *)
Record st a M (TL A : list Z) (P : Z -> Z -> Prop) (n : Z) ms : Prop := mkSt {
  st_segs : segs a = M;
  st_tree : tree_of (tree a) TL;
  st_nodes : dom (nodes (tree a)) = dom M;
  st_addr : forall p, p ∈ dom M -> ok_addr p;
  st_all : all_segs a = A;
  st_bins : bins_rep (free_bins a) (bin_mask a) P;
  st_fsr : obj_ok (fsr a) /\ obj_live (fsr a) = dom M;
  st_total : total_free a = n;
  st_mags : magazines a = ms;
}.

Lemma st_seg a M TL A P n ms p s : st a M TL A P n ms -> M !! p = Some s -> seg a p = Ok s.
Proof. intros [<- _ _ _ _ _ _ _ _] Hp. unfold seg. by rewrite Hp. Qed.
Lemma st_in_dom a M TL A P n ms p : st a M TL A P n ms -> p ∈ TL -> p ∈ dom M.
Proof. intros [_ Ht Hn _ _ _ _ _ _] Hp. rewrite <- Hn. by eapply tree_of_dom. Qed.
Lemma st_ext a M TL A P Q n ms : (forall p m, P p m <-> Q p m) -> st a M TL A P n ms -> st a M TL A Q n ms.
Proof. intros HPQ []. split; try done. by eapply bins_rep_ext. Qed.
Lemma st_put_seg a M TL A P n ms p s : st a M TL A P n ms -> p ∈ dom M -> st (put_seg a p s) (<[p := s]> M) TL A P n ms.
Proof.
  intros [<- ? Hn ? ? ? ? ? ?] Hp. assert (dom (<[p := s]> (segs a)) = dom (segs a)) as Hd by (rewrite dom_insert_L; set_solver).
  split; cbn; rewrite ?Hd; done.
Qed.
Lemma st_with_all a M TL A P n ms A' : st a M TL A P n ms -> st (with_all a A') M TL A' P n ms.
Proof. by intros []. Qed.
Lemma st_with_total a M TL A P n ms n' : st a M TL A P n ms -> st (with_total a n') M TL A P n' ms.
Proof. by intros []. Qed.
Lemma st_with_mags a M TL A P n ms ms' : st a M TL A P n ms -> st (with_mags a ms') M TL A P n ms'.
Proof. by intros []. Qed.

Lemma st_bin_insert a M TL A P n ms p s : st a M TL A P n ms -> M !! p = Some s -> 0 < slen s < 2 ^ 64 -> (forall m, ~ P p m) ->
  exists a', bin_insert a p = Ok a' /\ st a' M TL A (fun q m => P q m \/ (q = p /\ m = slen s)) n ms.
Proof.
  intros H Hp Hl Hn. unfold bin_insert. rewrite (st_seg _ _ _ _ _ _ _ _ _ H Hp), bind_Ok, size_to_bin_ok, bind_Ok by lia. destruct H as [? ? ? ? ? (B1 & B2 & B3 & B4 & B5) ? ? ?].
  pose proof (log2_64 _ Hl) as Hb. set (i := Z.log2 (slen s)) in *. destruct (lookup_lt_is_Some_2 (free_bins a) (Z.to_nat i)) as [l Hi]; [rewrite B1; lia|].
  rewrite (proj2 (aget_Ok (free_bins a) i l)), bind_Ok by (split; [lia|done]). rewrite aset_Ok, bind_Ok by (rewrite B1; lia). destruct (BIT_SET_bits (bin_mask a) i B2 Hb) as (m & -> & M1 & M2). rewrite bind_Ok. eexists. split; [done|].
  split; try done. cbn. split_and!; [by rewrite length_insert|done| | |].
  - intros q x y [Hx|[Eq ?]] [Hy|[Eq' ?]]; subst; [by eapply B3|exfalso; by eapply Hn|exfalso; by eapply Hn|done].
  - intros q x [Hx|[-> ->]]; [by eapply B4|done].
  - intros j l' Hj. destruct (decide (j = Z.to_nat i)) as [->|Hne].
    + rewrite list_lookup_insert_eq in Hj by (rewrite B1; lia). injection Hj as <-. destruct (B5 _ _ Hi) as (C1 & C2 & C3). split_and!.
      * apply list.NoDup_cons. split; [|done]. intros (m' & Hm & _)%C2. by eapply Hn.
      * intros q. rewrite elem_of_cons, C2. split; [intros [->|(m' & ? & ?)]; [exists (slen s); split; [by right|lia]|exists m'; split; [by left|done]]|].
        intros (m' & [Hm|[-> ->]] & ?); [right; by exists m'|by left].
      * rewrite M2 by lia. rewrite (proj2 (Z.eqb_eq _ _)) by lia. by split.
    + rewrite list_lookup_insert_ne in Hj by done. destruct (B5 _ _ Hj) as (C1 & C2 & C3). apply lookup_lt_Some in Hj. split_and!; [done| |].
      * intros q. rewrite C2. split; [intros (m' & ? & ?); exists m'; split; [by left|done]|]. intros (m' & [Hm|[-> ->]] & ?); [by exists m'|lia].
      * rewrite M2 by lia. rewrite (proj2 (Z.eqb_neq _ _)) by lia. done.
Qed.
Lemma st_bin_remove a M TL A P n ms p s : st a M TL A P n ms -> M !! p = Some s -> P p (slen s) ->
  exists a', bin_remove a p = Ok a' /\ st a' M TL A (fun q m => P q m /\ q <> p) n ms.
Proof.
  intros H Hp HP. unfold bin_remove. pose proof (st_bins _ _ _ _ _ _ _ H) as (B1 & B2 & B3 & B4 & B5). pose proof (B4 _ _ HP) as Hl.
  rewrite (st_seg _ _ _ _ _ _ _ _ _ H Hp), bind_Ok, size_to_bin_ok, bind_Ok by lia. pose proof (log2_64 _ Hl) as Hb. set (i := Z.log2 (slen s)) in *.
  destruct (lookup_lt_is_Some_2 (free_bins a) (Z.to_nat i)) as [l Hi]; [rewrite B1; lia|]. destruct (B5 _ _ Hi) as (C1 & C2 & C3).
  rewrite (proj2 (aget_Ok (free_bins a) i l)), bind_Ok by (split; [lia|done]). rewrite aset_Ok, bind_Ok by (rewrite B1; lia).
  assert (exists m, (if bool_decide (list_remove l p = []) then BIT_CLEAR 64 (bin_mask a) i else Ok (bin_mask a)) = Ok m /\ in_u 64 m /\
    forall j, 0 <= j -> Z.testbit m j = true <-> Z.testbit (bin_mask a) j = true /\ (j = i -> list_remove l p <> [])) as (m & -> & M1 & M2).
  { case_bool_decide as Hr; [|exists (bin_mask a); split_and!; [done|done|naive_solver]]. destruct (BIT_CLEAR_bits (bin_mask a) i B2 Hb) as (m & -> & M1 & M2). exists m. split_and!; [done|done|].
    intros j Hj. rewrite M2 by done. destruct (Z.eqb_spec j i); cbn [negb andb]; naive_solver. }
  rewrite bind_Ok. eexists. split; [done|]. destruct H. split; try done. cbn. split_and!; [by rewrite length_insert|done| | |].
  - intros q x y [Hx _] [Hy _]. by eapply B3.
  - intros q x [Hx _]. by eapply B4.
  - intros j l' Hj. destruct (decide (j = Z.to_nat i)) as [->|Hne].
    + rewrite list_lookup_insert_eq in Hj by (rewrite B1; lia). injection Hj as <-. split_and!.
      * by apply list.NoDup_filter.
      * intros q. unfold list_remove. rewrite list_elem_of_filter, C2. naive_solver.
      * rewrite M2 by lia. rewrite C3. split; [intros [_ Hx]; apply Hx; lia|]. intros Hx. split; [|done]. intros ->. by apply Hx.
    + rewrite list_lookup_insert_ne in Hj by done. destruct (B5 _ _ Hj) as (D1 & D2 & D3). split_and!; [done| |].
      * intros q. rewrite D2. split; [|naive_solver]. intros (m' & Hm & Hlog). exists m'. split_and!; [done| |done]. intros ->. pose proof (B3 _ _ _ Hm HP). subst m'. apply lookup_lt_Some in Hj. lia.
      * rewrite M2 by lia. rewrite D3. apply lookup_lt_Some in Hj. split; [naive_solver|]. intros Hx. split; [done|]. lia.
Qed.

Lemma st_init_node a M TL A P n ms p : st a M TL A P n ms -> p ∈ dom M -> (p ∉ TL) -> exists a', init_node a p = Ok a' /\ st a' M TL A P n ms.
Proof.
  intros [? Ht Hn Ha ? ? ? ? ?] Hp HT. unfold init_node, rbt_init_node. rewrite <- Hn in Hp. apply elem_of_dom in Hp as [x Hx].
  rewrite (node_at _ p x) by (done || apply Ha; rewrite <- Hn; by eapply elem_of_dom_2). rewrite !bind_Ok. eexists. split; [done|]. split; try done; cbn.
  - apply (tree_of_agree (tree a)); [|done|done]. intros q Hq. cbn. rewrite lookup_insert_ne; [done|]. by intros ->.
  - rewrite dom_insert_L. apply elem_of_dom_2 in Hx. set_solver.
Qed.
Lemma st_segment_alloc a M TL A P n ms : st a M TL A P n ms -> exists a' p, segment_alloc a = Ok (a', p) /\
  ((p = 0 /\ st a' M TL A P n ms) \/ (ok_addr p /\ (p ∉ dom M) /\ st a' (<[p := mkSeg 0 0 0 VAS_SEG_FREE None]> M) TL A P n ms)).
Proof.
  intros H. pose proof H as [? Ht Hn Ha ? ? [Hf1 Hf2] ? ?]. unfold segment_alloc. destruct (obj_alloc_ok (fsr a) Hf1) as (p & f & -> & Hf & Hcase). rewrite bind_Ok.
  destruct Hcase as [[-> Hl]|(Hok & Hnew & Hl)]; [rewrite Z.eqb_refl; exists (with_fsr a f), 0; split; [done|left]; split; [done|]; split; try done; cbn; by rewrite Hl|].
  rewrite ok_ne0 by done. rewrite Hf2 in *. set (a1 := put_seg _ _ _).
  assert (st a1 (<[p := mkSeg 0 0 0 VAS_SEG_FREE None]> M) TL A P n ms) as H1.
  { assert (p ∉ TL) as HT by (intros Hin; apply Hnew; by eapply st_in_dom). split; try done; unfold a1; cbn.
    - by f_equal.
    - apply (tree_of_agree (tree a)); [|done|done]. intros q Hq. cbn. rewrite lookup_insert_ne; [done|]. by intros ->.
    - by rewrite !dom_insert_L, Hn.
    - rewrite dom_insert_L. intros q [Hq| Hq]%elem_of_union; [apply elem_of_singleton in Hq as ->; done|by apply Ha].
    - by rewrite dom_insert_L, Hl. }
  destruct (st_init_node _ _ _ _ _ _ _ p H1) as (a' & -> & H'); [rewrite dom_insert_L; set_solver|intros Hin; apply Hnew; by eapply st_in_dom|]. rewrite bind_Ok. exists a', p. split; [done|right]. done.
Qed.
Lemma st_segment_free a M TL A P n ms p : st a M TL A P n ms -> p ∈ dom M -> (p ∉ TL) -> exists a', segment_free a p = Ok a' /\ st a' (delete p M) TL A P n ms.
Proof.
  intros [? Ht Hn Ha ? ? [Hf1 Hf2] ? ?] Hp HT. unfold segment_free. destruct (obj_free_ok (fsr a) p Hf1) as (f & -> & Hf & Hl); [by rewrite Hf2|]. rewrite bind_Ok. eexists. split; [done|]. split; try done; cbn.
  - by f_equal.
  - apply (tree_of_agree (tree a)); [|done|done]. intros q Hq. cbn. rewrite lookup_delete_ne; [done|]. by intros ->.
  - by rewrite !dom_delete_L, Hn.
  - rewrite dom_delete_L. intros q Hq. apply Ha. set_solver.
  - by rewrite dom_delete_L, Hl, Hf2.
Qed.
Lemma st_tree_delete a M l1 p l2 A P n ms : st a M (l1 ++ p :: l2) A P n ms -> exists a', tree_delete_seg DEBUG_RBT DEBUG_RBT_DEEP a p = Ok a' /\ st a' M (l1 ++ l2) A P n ms.
Proof.
  intros [? Ht Hn Ha ? ? ? ? ?]. unfold tree_delete_seg. destruct (tree_delete DEBUG_RBT DEBUG_RBT_DEEP _ _ _ _ Ht) as (t' & c & -> & Ht' & _ & [_ Hd]). rewrite bind_Ok. eexists. split; [done|]. split; try done. cbn. by rewrite Hd.
Qed.
(** A segment goes where its start is in order. *)
Lemma st_tree_insert a M l1 p l2 A P n ms : st a M (l1 ++ l2) A P n ms -> p ∈ dom M -> (p ∉ l1 ++ l2) -> StronglySorted (fun x y => segment_key M x <= segment_key M y) (l1 ++ l2) ->
  (forall q, q ∈ l1 -> segment_key M q <= segment_key M p) -> (forall q, q ∈ l2 -> segment_key M p < segment_key M q) ->
  exists a', tree_insert_seg DEBUG_RBT DEBUG_RBT_DEEP DEBUG_LOCK_CHK a p = Ok a' /\ st a' M (l1 ++ p :: l2) A P n ms.
Proof.
  intros [Hs Ht Hn Ha ? ? ? ? ?] Hp HT Hsort H1 H2. unfold tree_insert_seg, segment_cmp. rewrite Hs.
  destruct (tree_insert (key_cmp (segment_key M)) DEBUG_RBT DEBUG_RBT_DEEP DEBUG_LOCK_CHK (tree a) (l1 ++ l2) p) as (t' & -> & Ht' & [_ Hd]); [done|by apply key_cmp_ordered|by apply Ha|done|by rewrite Hn|].
  rewrite bind_Ok. eexists. split; [done|]. split; try done; cbn; [|by rewrite Hd]. rewrite put_ordered_at in Ht'; [done|apply _| |].
  - intros q Hq. apply (ge_of_le (key_cmp (segment_key M))). apply key_cmp_le. by apply H1.
  - intros q Hq. apply key_cmp_lt. by apply H2.
Qed.

(** *** First fit *)

Definition fits (size align : Z) s : Prop := seg_pad s align <= slen s /\ size <= slen s - seg_pad s align.
Lemma seg_pad_nonneg s align : 0 <= seg_pad s align.
Proof. unfold seg_pad. apply Z.land_nonneg. left. by apply wrap_range. Qed.
Lemma scan_bin_ok a M TL A P n ms size align l : st a M TL A P n ms -> (forall p, p ∈ l -> exists s, M !! p = Some s /\ 0 < slen s < 2 ^ 64) -> exists r, scan_bin a size align l = Ok r /\
  match r with Some p => exists s, p ∈ l /\ M !! p = Some s /\ fits size align s | None => forall p s, p ∈ l -> M !! p = Some s -> ~ fits size align s end.
Proof.
  intros H. induction l as [|p l IH]; intros Hl; cbn [scan_bin]; [exists None; split; [done|]; by intros p s ?%elem_of_nil|].
  destruct (Hl p (list_elem_of_here p l)) as (s & Hp & Hs). rewrite (st_seg _ _ _ _ _ _ _ _ _ H Hp), bind_Ok. pose proof (seg_pad_nonneg s align) as Hpad.
  destruct (_ || _) eqn:Eb.
  - destruct IH as (r & -> & Hr); [intros q Hq; apply Hl; by right|]. exists r. split; [done|]. assert (~ fits size align s) as Hno.
    { intros [F1 F2]. apply orb_true_iff in Eb as [Eb%Z.ltb_lt|Eb%Z.ltb_lt]; [lia|]. rewrite wrap_small in Eb by (unfold in_u; lia). lia. }
    destruct r as [q|]; [destruct Hr as (t & Hq & ?); exists t; split; [by right|done]|]. intros q t [->|Hq]%elem_of_cons Ht; [congruence|by eapply Hr].
  - exists (Some p). split; [done|]. exists s. split_and!; [by left|done|]. apply orb_false_iff in Eb as [E1%Z.ltb_ge E2%Z.ltb_ge]. rewrite wrap_small in E2 by (unfold in_u; lia). done.
Qed.
Lemma bits_zero m : in_u 64 m -> (forall i, 0 <= i < 64 -> Z.testbit m i = false) -> m = 0.
Proof.
  intros Hm Hb. apply Z.bits_inj_0. intros i. destruct (Z.neg_nonneg_cases i); [by apply Z.testbit_neg_r|]. destruct (decide (i < 64)); [by apply Hb|]. apply (testbit_small 64); [done|lia].
Qed.
(** What is left to look at when the bins of the mask remain. *)
Lemma bins_body_ok a M TL A n ms size align mask low : st a M TL A (free_of M) n ms -> in_u 64 mask -> 0 <= low -> (forall i, 0 <= i < low -> Z.testbit mask i = false) ->
  (forall i, 0 <= i -> Z.testbit mask i = true -> Z.testbit (bin_mask a) i = true) -> mask <> 0 ->
  exists bin, low <= bin < 64 /\ ((exists p s, bins_body a size align mask = Ok (inr (Some p)) /\ M !! p = Some s /\ type s = VAS_SEG_FREE /\ fits size align s) \/
    (exists mask', bins_body a size align mask = Ok (inl mask') /\ in_u 64 mask' /\ (forall i, 0 <= i -> Z.testbit mask' i = (bin <? i) && Z.testbit mask i) /\
      (forall i, 0 <= i < bin -> Z.testbit mask i = false) /\ forall p s, M !! p = Some s -> type s = VAS_SEG_FREE -> Z.log2 (slen s) = bin -> ~ fits size align s)).
Proof.
  intros H Hm Hlow Hz Hsub H0. unfold in_u in Hm. destruct (ctzll_spec mask) as (bin & Hc & Hb); [lia|]. pose proof Hb as (B1 & B2 & B3). exists bin.
  assert (bin < 64) as Hlt. { destruct (decide (bin < 64)); [done|]. rewrite (testbit_small 64 mask bin) in B2 by (done || lia). done. }
  assert (low <= bin) as Hge. { destruct (decide (low <= bin)); [done|]. by rewrite Hz in B2 by lia. }
  split; [lia|]. pose proof (st_bins _ _ _ _ _ _ _ H) as (C1 & C2 & C3 & C4 & C5). destruct (lookup_lt_is_Some_2 (free_bins a) (Z.to_nat bin)) as [l Hi]; [rewrite C1; lia|].
  destruct (C5 _ _ Hi) as (D1 & D2 & D3). rewrite Z2Nat.id in D2, D3 by lia. unfold bins_body. rewrite (proj2 (Z.eqb_neq mask 0)), Hc, bind_Ok by done. rewrite (proj2 (aget_Ok (free_bins a) bin l)), bind_Ok by (split; [lia|done]).
  destruct (scan_bin_ok a M TL A _ n ms size align l H) as (r & -> & Hr); [intros p (m & Hf & _)%D2; pose proof (C4 _ _ Hf); destruct Hf as (s & ? & ? & <-); by exists s|].
  rewrite bind_Ok. destruct r as [p|].
  - left. destruct Hr as (s & Hp & Hs & Hfit). exists p, s. apply D2 in Hp as (m & (s' & ? & ? & ?) & _). split_and!; [done|done|congruence|done].
  - right. eexists. split; [done|]. split_and!.
    + split; [apply Z.land_nonneg; left; lia|]. apply Z.le_lt_trans with mask; [|lia]. rewrite Z.land_comm. apply Z.ldiff_le; [lia|]. apply Z.bits_inj'. intros i Hi'. rewrite Z.ldiff_spec, Z.land_spec, Z.bits_0. by destruct (Z.testbit mask i), (Z.testbit (mask - 1) i).
    + intros i Hi'. by apply clear_lowest; [lia|..].
    + intros i Hi'. destruct B3 as [q ->]. apply Z.mul_pow2_bits_low. lia.
    + intros p s Hp Hty Hlog. apply (Hr p s); [|done]. apply D2. exists (slen s). split; [by exists s|done].
Qed.
Lemma first_fit_ok a M TL A n ms size align : st a M TL A (free_of M) n ms -> 0 < size < 2 ^ 64 -> exists r, first_fit a size align = Ok r /\
  match r with Some p => exists s, M !! p = Some s /\ type s = VAS_SEG_FREE /\ fits size align s | None => forall p s, M !! p = Some s -> type s = VAS_SEG_FREE -> ~ fits size align s end.
Proof.
  intros H Hs. unfold first_fit. rewrite size_to_bin_ok, bind_Ok by lia. pose proof (log2_64 _ Hs) as Hb. set (bin0 := Z.log2 size) in *. pose proof (st_bins _ _ _ _ _ _ _ H) as (C1 & C2 & C3 & C4 & C5).
  set (I := fun mask k => in_u 64 mask /\ (k <= 64)%nat /\ (forall i, 0 <= i < 64 - Z.of_nat k -> Z.testbit mask i = false) /\ (forall i, 0 <= i -> Z.testbit mask i = true -> Z.testbit (bin_mask a) i = true) /\
    forall p s, M !! p = Some s -> type s = VAS_SEG_FREE -> fits size align s -> Z.testbit mask (Z.log2 (slen s)) = true).
  eapply (loop_total _ I) with (n := 64%nat); [|split_and!|lia].
  - intros mask k (I1 & I2 & I3 & I4 & I5). destruct (decide (mask = 0)) as [->|Hm].
    { right. exists None. split; [done|]. intros p s Hp Hty Hf. specialize (I5 p s Hp Hty Hf). by rewrite Z.bits_0 in I5. }
    destruct (bins_body_ok a M TL A n ms size align mask (64 - Z.of_nat k) H I1 ltac:(lia) I3 I4 Hm) as (bin & Hbin & [(p & s & Eb & Hr)|(mask' & Eb & J1 & J2 & J3 & J4)]); [right; exists (Some p); split; [done|by exists s]|].
    left. exists mask', (Z.to_nat (63 - bin)). split_and!; [done|lia|]. split_and!; [done..|lia| | |].
    + intros i Hi. rewrite J2 by lia. by rewrite (proj2 (Z.ltb_ge bin i)) by lia.
    + intros i Hi. rewrite J2 by lia. intros [_ Hi']%andb_true_iff. by apply I4.
    + intros p s Hp Hty Hf. specialize (I5 p s Hp Hty Hf). rewrite J2, I5, andb_true_r by apply Z.log2_nonneg. apply Z.ltb_lt. destruct (Z.lt_trichotomy (Z.log2 (slen s)) bin) as [Hl|[Hl|Hl]]; [|by destruct (J4 p s)|done].
      rewrite J3 in I5; [done|]. split; [apply Z.log2_nonneg|done].
  - unfold in_u in *. split; [apply Z.land_nonneg; left; lia|]. apply Z.le_lt_trans with (bin_mask a); [|lia]. apply Z.ldiff_le; [lia|]. apply Z.bits_inj'. intros i Hi'. rewrite Z.ldiff_spec, Z.land_spec, Z.bits_0. by destruct (Z.testbit (bin_mask a) i), (Z.testbit _ i).
  - lia.
  - intros i Hi. lia.
  - intros i Hi. rewrite Z.land_spec. by intros [? _]%andb_true_iff.
  - intros p s Hp Hty [F1 F2]. pose proof (seg_pad_nonneg s align). destruct (C4 p (slen s)) as [L1 L2]; [by exists s|]. pose proof (log2_64 _ (conj L1 L2)) as Hbl. destruct (lookup_lt_is_Some_2 (free_bins a) (Z.to_nat (Z.log2 (slen s)))) as [l Hi]; [rewrite C1; lia|].
    destruct (C5 _ _ Hi) as (D1 & D2 & D3). rewrite Z2Nat.id in D2, D3 by lia. rewrite Z.land_spec, (proj2 D3); [|assert (p ∈ l) as Hin by (apply D2; exists (slen s); split; [by exists s|done]); intros ->; by apply elem_of_nil in Hin].
    cbn [andb]. pose proof (Z.log2_le_mono size (slen s) ltac:(lia)). zbits_norm. rewrite (proj2 (Z.ltb_lt _ _)) by lia. cbn [andb].
    replace (2 ^ 64 - 1) with (Z.ones 64) by done. rewrite Z.testbit_ones_nonneg by lia. apply Z.ltb_lt. lia.
Qed.

(** *** Arenas as lists of segments *)

Notation segments := (list (Z * vas_segment)).
Implicit Types (L X B : segments).

Definition free_in B (p n : Z) : Prop := exists s, (p, s) ∈ B /\ type s = VAS_SEG_FREE /\ slen s = n.
(** The segments [L] are in the tree, the objects [X] are not; the free ones of [B]
    are in the lists by size. *)
Definition lst a L X (A : list Z) B (n : Z) ms : Prop :=
  NoDup (L ++ X).*1 /\ NoDup B.*1 /\ st a (list_to_map (L ++ X)) L.*1 A (free_in B) n ms.

Lemma nodup_fst L p s t : NoDup L.*1 -> (p, s) ∈ L -> (p, t) ∈ L -> s = t.
Proof. intros Hnd Hs Ht. apply elem_of_list_to_map in Hs, Ht; [|done..]. congruence. Qed.
Lemma in_fst L p : p ∈ L.*1 <-> exists s, (p, s) ∈ L.
Proof. rewrite list_elem_of_fmap. split; [intros ([q s] & -> & ?); by exists s|]. intros [s ?]. by exists (p, s). Qed.
Lemma dom_in L p : p ∈ dom (list_to_map L : gmap Z vas_segment) <-> p ∈ L.*1.
Proof. by rewrite dom_list_to_map_L, elem_of_list_to_set. Qed.
Lemma lst_lookup a L X A B n ms p s : lst a L X A B n ms -> (p, s) ∈ L ++ X -> (list_to_map (L ++ X) : gmap Z vas_segment) !! p = Some s.
Proof. intros (Hnd & _ & _) Hp. by apply elem_of_list_to_map. Qed.
Lemma lst_seg a L X A B n ms p s : lst a L X A B n ms -> (p, s) ∈ L ++ X -> seg a p = Ok s.
Proof. intros H Hp. eapply st_seg; [apply H|by eapply lst_lookup]. Qed.
Lemma lst_ok a L X A B n ms p s : lst a L X A B n ms -> (p, s) ∈ L ++ X -> ok_addr p.
Proof. intros (_ & _ & H) Hp. apply (st_addr _ _ _ _ _ _ _ H), dom_in, in_fst. by exists s. Qed.
Lemma free_in_ext B B' p n : (forall x, x ∈ B <-> x ∈ B') -> free_in B p n <-> free_in B' p n.
Proof. intros E. unfold free_in. by setoid_rewrite E. Qed.
Lemma free_in_skip B1 p s B2 q n : type s <> VAS_SEG_FREE -> free_in (B1 ++ (p, s) :: B2) q n <-> free_in (B1 ++ B2) q n.
Proof.
  intros Hs. unfold free_in. split; intros (t & Ht & Hf & Hn); exists t; (split; [|done]); revert Ht; rewrite !elem_of_app, elem_of_cons; [|tauto]. intros [?|[[= -> ->]|?]]; tauto.
Qed.
Lemma nodup_skip B1 x B2 : NoDup (B1 ++ x :: B2).*1 -> NoDup (B1 ++ B2).*1 /\ (x.1 ∉ (B1 ++ B2).*1).
Proof. rewrite !fmap_app, fmap_cons. intros Hnd. rewrite <- Permutation_middle in Hnd. apply list.NoDup_cons in Hnd. tauto. Qed.

(** The same objects in another order. *)
Lemma lst_perm a L X X' A B B' n ms : X ≡ₚ X' -> B ≡ₚ B' -> lst a L X A B n ms -> lst a L X' A B' n ms.
Proof.
  intros EX EB (H1 & H2 & H3). assert (L ++ X ≡ₚ L ++ X') as E by by rewrite EX. split_and!; [by rewrite <- E|by rewrite <- EB|].
  rewrite <- (list_to_map_proper (M := gmap Z) _ _ H1 E). eapply st_ext; [|done]. intros p m. apply free_in_ext. intros x. by rewrite EB.
Qed.
(** A segment in use is not in the lists by size. *)
Lemma lst_skip a L X A B1 p s B2 n ms : type s <> VAS_SEG_FREE -> lst a L X A (B1 ++ (p, s) :: B2) n ms -> lst a L X A (B1 ++ B2) n ms.
Proof. intros Hs (H1 & H2 & H3). split_and!; [done|by apply nodup_skip in H2 as [? _]|]. eapply st_ext; [|done]. intros. by apply free_in_skip. Qed.
Lemma lst_unskip a L X A B1 p s B2 n ms : type s <> VAS_SEG_FREE -> (p ∉ (B1 ++ B2).*1) -> lst a L X A (B1 ++ B2) n ms -> lst a L X A (B1 ++ (p, s) :: B2) n ms.
Proof.
  intros Hs Hp (H1 & H2 & H3). split_and!; [done| |].
  - rewrite fmap_app, fmap_cons, <- Permutation_middle, <- fmap_app. by apply list.NoDup_cons.
  - eapply st_ext; [|done]. intros. symmetry. by apply free_in_skip.
Qed.

Lemma lst_bin_insert a L X A B n ms p s : lst a L X A B n ms -> (p, s) ∈ L ++ X -> type s = VAS_SEG_FREE -> 0 < slen s < 2 ^ 64 -> (p ∉ B.*1) ->
  exists a', bin_insert a p = Ok a' /\ lst a' L X A ((p, s) :: B) n ms.
Proof.
  intros H Hp Hty Hl Hn. pose proof H as (H1 & H2 & H3). destruct (st_bin_insert a _ _ _ _ _ _ p s H3) as (a' & E & H'); [by eapply lst_lookup|done|intros m (t & Ht & _); apply Hn, in_fst; by exists t|].
  exists a'. split; [done|]. split_and!; [done|by apply list.NoDup_cons|]. eapply st_ext; [|done]. intros q m. unfold free_in. setoid_rewrite elem_of_cons. naive_solver.
Qed.
Lemma lst_bin_remove a L X A B1 B2 n ms p s : lst a L X A (B1 ++ (p, s) :: B2) n ms -> (p, s) ∈ L ++ X -> type s = VAS_SEG_FREE ->
  exists a', bin_remove a p = Ok a' /\ lst a' L X A (B1 ++ B2) n ms.
Proof.
  intros H Hp Hty. pose proof H as (H1 & H2 & H3). destruct (nodup_skip _ _ _ H2) as [N1 N2]. destruct (st_bin_remove a _ _ _ _ _ _ p s H3) as (a' & E & H'); [by eapply lst_lookup|exists s; split; [apply elem_of_app; right; by left|done]|].
  exists a'. split; [done|]. split_and!; [done|done|]. eapply st_ext; [|done]. cbn [fst] in N2. intros q m. unfold free_in. setoid_rewrite elem_of_app. setoid_rewrite elem_of_cons. split.
  - intros [(t & [?|[[= -> ->]|?]] & ?) Hne]; [exists t; tauto|done|exists t; tauto].
  - intros (t & Ht & Hr). split; [exists t; tauto|]. intros ->. apply N2, in_fst. exists t. by apply elem_of_app.
Qed.
Lemma lst_alloc a L X A B n ms : lst a L X A B n ms -> exists a' p, segment_alloc a = Ok (a', p) /\
  ((p = 0 /\ lst a' L X A B n ms) \/ (ok_addr p /\ lst a' L ((p, mkSeg 0 0 0 VAS_SEG_FREE None) :: X) A B n ms)).
Proof.
  intros (H1 & H2 & H3). destruct (st_segment_alloc a _ _ _ _ _ _ H3) as (a' & p & E & [[-> H]|(Hok & Hn & H)]); exists a'; [exists 0|exists p]; (split; [done|]); [left; done|right]. split; [done|]. rewrite dom_in in Hn.
  assert (NoDup (L ++ (p, mkSeg 0 0 0 VAS_SEG_FREE None) :: X).*1) as Hnd. { rewrite fmap_app, fmap_cons, <- Permutation_middle, <- fmap_app. by apply list.NoDup_cons. }
  split_and!; [done|done|]. rewrite (list_to_map_proper (M := gmap Z) _ ((p, mkSeg 0 0 0 VAS_SEG_FREE None) :: L ++ X)); [done|done|]. by rewrite Permutation_middle.
Qed.
Lemma lst_free a L X A B n ms p s : lst a L ((p, s) :: X) A B n ms -> exists a', segment_free a p = Ok a' /\ lst a' L X A B n ms.
Proof.
  intros (H1 & H2 & H3). destruct (nodup_skip _ _ _ H1) as [N1 N2]. cbn [fst] in N2. destruct (st_segment_free a _ _ _ _ _ _ p H3) as (a' & E & H); [apply dom_in, in_fst; exists s; apply elem_of_app; right; by left|rewrite fmap_app in N2; set_solver|].
  exists a'. split; [done|]. split_and!; [done|done|]. rewrite (list_to_map_proper (M := gmap Z) _ ((p, s) :: L ++ X)) in H; [|done|by rewrite Permutation_middle]. rewrite list_to_map_cons, delete_insert_id in H; [done|]. by apply not_elem_of_list_to_map_1.
Qed.
Lemma ltm_move L1 L2 X p s : NoDup (L1 ++ (p, s) :: L2 ++ X).*1 -> (list_to_map (L1 ++ (p, s) :: L2 ++ X) : gmap Z vas_segment) = list_to_map ((L1 ++ L2) ++ (p, s) :: X).
Proof. intros Hnd. apply list_to_map_proper; [done|]. rewrite <- app_assoc. f_equiv. by rewrite Permutation_middle. Qed.
Lemma nodup_move L1 L2 X p s : NoDup (L1 ++ (p, s) :: L2 ++ X).*1 <-> NoDup ((L1 ++ L2) ++ (p, s) :: X).*1.
Proof. rewrite <- app_assoc. f_equiv. apply fmap_Permutation. f_equiv. by rewrite Permutation_middle. Qed.
Lemma app_mid (L1 L2 X : segments) x : (L1 ++ x :: L2) ++ X = L1 ++ x :: L2 ++ X.
Proof. by rewrite <- app_assoc. Qed.
Lemma ltm_update L1 p s s' L2 : NoDup (L1 ++ (p, s) :: L2).*1 -> <[p := s']> (list_to_map (L1 ++ (p, s) :: L2) : gmap Z vas_segment) = list_to_map (L1 ++ (p, s') :: L2).
Proof.
  intros Hnd. assert (NoDup (L1 ++ (p, s') :: L2).*1) as Hnd' by (by rewrite fmap_app, fmap_cons in *).
  rewrite (list_to_map_proper (M := gmap Z) _ ((p, s) :: L1 ++ L2)), (list_to_map_proper (M := gmap Z) _ ((p, s') :: L1 ++ L2) Hnd'), !list_to_map_cons by (done || by rewrite Permutation_middle). apply insert_insert_eq.
Qed.

Lemma lst_put_in a L1 p s s' L2 X A B n ms : lst a (L1 ++ (p, s) :: L2) X A B n ms -> lst (put_seg a p s') (L1 ++ (p, s') :: L2) X A B n ms.
Proof.
  unfold lst. rewrite !app_mid. intros (H1 & H2 & H3). split_and!; [by rewrite fmap_app, fmap_cons in *|done|]. rewrite <- (ltm_update L1 p s s') by done.
  rewrite fmap_app, fmap_cons in *. apply st_put_seg; [done|]. apply dom_in. rewrite fmap_app, fmap_cons. apply elem_of_app; right; by left.
Qed.
Lemma lst_put a L p s s' X A B n ms : lst a L ((p, s) :: X) A B n ms -> lst (put_seg a p s') L ((p, s') :: X) A B n ms.
Proof.
  unfold lst. intros (H1 & H2 & H3). split_and!; [by rewrite fmap_app, fmap_cons in *|done|]. rewrite <- (ltm_update L p s s') by done.
  apply st_put_seg; [done|]. apply dom_in. rewrite fmap_app, fmap_cons. apply elem_of_app; right; by left.
Qed.
Lemma lst_with_total a L X A B n ms n' : lst a L X A B n ms -> lst (with_total a n') L X A B n' ms.
Proof. intros (? & ? & ?). split_and!; [done..|by eapply st_with_total]. Qed.
Lemma lst_with_mags a L X A B n ms ms' : lst a L X A B n ms -> lst (with_mags a ms') L X A B n ms'.
Proof. intros (? & ? & ?). split_and!; [done..|by eapply st_with_mags]. Qed.

Lemma lst_unlink a L1 p s L2 X A B n ms : lst a (L1 ++ (p, s) :: L2) X A B n ms -> exists a', tree_delete_seg DEBUG_RBT DEBUG_RBT_DEEP a p = Ok a' /\ lst a' (L1 ++ L2) ((p, s) :: X) A B n ms.
Proof.
  unfold lst. rewrite !app_mid. intros (H1 & H2 & H3). rewrite fmap_app, fmap_cons in H3. destruct (st_tree_delete _ _ _ _ _ _ _ _ _ H3) as (a' & E & H). exists a'. split; [done|].
  split_and!; [by apply nodup_move|done|]. by rewrite <- ltm_move, fmap_app.
Qed.
Lemma lst_delete a L1 p s L2 X A B n ms : lst a (L1 ++ (p, s) :: L2) X A B n ms -> exists a', segment_delete DEBUG_RBT DEBUG_RBT_DEEP a p = Ok a' /\ lst a' (L1 ++ L2) X (list_remove A p) B n ms.
Proof.
  intros H. pose proof H as (_ & _ & S0). unfold segment_delete. destruct (lst_unlink _ _ _ _ _ _ _ _ _ _ H) as (a1 & -> & H1). rewrite bind_Ok. rewrite (st_all _ _ _ _ _ _ _ (proj2 (proj2 H1))).
  apply (lst_free (with_all a1 (list_remove A p)) _ _ _ _ _ _ p s). destruct H1 as (? & ? & ?). split_and!; [done..|by eapply st_with_all].
Qed.

(** Segments in the order of their addresses. *)
Definition before (x y : Z * vas_segment) : Prop := start x.2 + slen x.2 <= start y.2.
Definition seg_ok s : Prop := 0 < start s /\ 0 < slen s /\ start s + slen s < 2 ^ 64.
Definition segs_ok L : Prop := StronglySorted before L /\ forall p s, (p, s) ∈ L -> seg_ok s.
Lemma segs_ok_skip L1 x L2 : segs_ok (L1 ++ x :: L2) -> segs_ok (L1 ++ L2).
Proof.
  intros [H1 H2]. split; [|intros p s Hp; apply (H2 p s); revert Hp; rewrite !elem_of_app, elem_of_cons; tauto].
  apply StronglySorted_app in H1 as (A1 & A2 & A3). apply StronglySorted_cons in A3 as [A3 A4]. apply StronglySorted_app. split_and!; [|done|done]. intros y z Hy Hz. apply A1; [done|by right].
Qed.
Lemma segs_ok_mid L1 p s L2 : segs_ok (L1 ++ (p, s) :: L2) <->
  segs_ok (L1 ++ L2) /\ seg_ok s /\ (forall q t, (q, t) ∈ L1 -> start t + slen t <= start s) /\ (forall q t, (q, t) ∈ L2 -> start s + slen s <= start t).
Proof.
  split.
  - intros H. split; [by eapply segs_ok_skip|]. destruct H as [H1 H2]. split; [apply (H2 p), elem_of_app; right; by left|]. apply StronglySorted_app in H1 as (A1 & A2 & A3). apply StronglySorted_cons in A3 as [A3 A4].
    split; [intros q t Hq; apply (A1 (q, t) (p, s)); [done|by left]|]. intros q t Hq. rewrite list.Forall_forall in A3. by apply (A3 (q, t)).
  - intros ([H1 H2] & Hs & Hl & Hr). apply StronglySorted_app in H1 as (A1 & A2 & A3). split.
    + apply StronglySorted_app. split_and!; [|done|apply StronglySorted_cons; split; [|done]; apply list.Forall_forall; intros [q t]; apply Hr]. intros [q t] y Hq [->|Hy]%elem_of_cons; [by apply (Hl q)|by apply A1].
    + intros q t. rewrite elem_of_app, elem_of_cons. intros [?|[[= -> ->]|?]]; [apply (H2 q); apply elem_of_app; tauto|done|apply (H2 q); apply elem_of_app; tauto].
Qed.
Lemma keys_sorted L M : segs_ok L -> (forall p s, (p, s) ∈ L -> M !! p = Some s) -> StronglySorted (fun x y => segment_key M x <= segment_key M y) L.*1.
Proof.
  induction L as [|[p s] L IH]; intros H HM; [constructor|]. rewrite fmap_cons. pose proof (segs_ok_skip [] (p, s) L H) as H'. apply (segs_ok_mid [] p s L) in H as (_ & Hs & _ & Hr).
  apply StronglySorted_cons. split; [|apply IH; [done|intros q t Hq; apply HM; by right]]. apply list.Forall_forall. intros q [t Hq]%in_fst. cbn [fst]. unfold segment_key. rewrite (HM p s) by by left. rewrite (HM q t) by by right. cbn. pose proof (Hr q t Hq). unfold seg_ok in Hs. lia.
Qed.

(** The conditions under which a loose object goes into the tree between [L1] and [L2]. *)
Lemma lst_keys a L1 p s L2 X A B n ms : lst a (L1 ++ L2) ((p, s) :: X) A B n ms -> segs_ok (L1 ++ (p, s) :: L2) ->
  let M := list_to_map ((L1 ++ L2) ++ (p, s) :: X) : gmap Z vas_segment in
  p ∈ dom M /\ (p ∉ L1.*1 ++ L2.*1) /\ StronglySorted (fun x y => segment_key M x <= segment_key M y) (L1.*1 ++ L2.*1) /\
  (forall q, q ∈ L1.*1 -> segment_key M q <= segment_key M p) /\ (forall q, q ∈ L2.*1 -> segment_key M p < segment_key M q).
Proof.
  intros H HS M. pose proof (fun q t => lst_lookup _ _ _ _ _ _ _ q t H) as Hlk. fold M in Hlk. pose proof H as (H1 & _). apply nodup_skip in H1 as [_ N2]. cbn [fst] in N2. pose proof (segs_ok_skip _ _ _ HS) as HS'.
  apply segs_ok_mid in HS as (_ & Hs & Hl & Hr). unfold seg_ok in Hs. assert (M !! p = Some s) as Hp by (apply Hlk, elem_of_app; right; by left). split_and!.
  - by eapply elem_of_dom_2.
  - rewrite <- fmap_app. rewrite fmap_app in N2. set_solver.
  - rewrite <- fmap_app. apply keys_sorted; [done|]. intros q t Hq. apply Hlk, elem_of_app. by left.
  - intros q [t Hq]%in_fst. unfold segment_key. rewrite Hp, (Hlk q t) by (rewrite !elem_of_app; tauto). cbn. pose proof (Hl q t Hq). destruct HS' as [_ Hok]. pose proof (Hok q t ltac:(apply elem_of_app; tauto)) as Ho. unfold seg_ok in Ho. lia.
  - intros q [t Hq]%in_fst. unfold segment_key. rewrite Hp, (Hlk q t) by (rewrite !elem_of_app; tauto). cbn. pose proof (Hr q t Hq). lia.
Qed.
Lemma lst_linked a L1 p s L2 X A B n ms M' : NoDup ((L1 ++ L2) ++ (p, s) :: X).*1 -> NoDup B.*1 -> M' = list_to_map ((L1 ++ L2) ++ (p, s) :: X) ->
  st a M' (L1.*1 ++ p :: L2.*1) A (free_in B) n ms -> lst a (L1 ++ (p, s) :: L2) X A B n ms.
Proof. intros H1 H2 -> H. apply nodup_move in H1. unfold lst. rewrite !app_mid. split_and!; [done|done|]. by rewrite ltm_move, fmap_app, fmap_cons. Qed.
Lemma lst_link a L1 p s L2 X A B n ms : lst a (L1 ++ L2) ((p, s) :: X) A B n ms -> segs_ok (L1 ++ (p, s) :: L2) ->
  exists a1 a', init_node a p = Ok a1 /\ tree_insert_seg DEBUG_RBT DEBUG_RBT_DEEP DEBUG_LOCK_CHK a1 p = Ok a' /\ lst a' (L1 ++ (p, s) :: L2) X A B n ms.
Proof.
  intros H HS. destruct (lst_keys _ _ _ _ _ _ _ _ _ _ H HS) as (K1 & K2 & K3 & K4 & K5). destruct H as (H1 & H2 & H3). rewrite fmap_app in H3.
  destruct (st_init_node _ _ _ _ _ _ _ p H3 K1 K2) as (a1 & E1 & S1). destruct (st_tree_insert _ _ _ _ _ _ _ _ _ S1 K1 K2 K3 K4 K5) as (a' & E & H). exists a1, a'. split_and!; [done|done|]. by eapply lst_linked.
Qed.
Lemma lst_insert_after a L1 p s L2 X A B n ms prev : lst a (L1 ++ L2) ((p, s) :: X) A B n ms -> segs_ok (L1 ++ (p, s) :: L2) ->
  exists a', segment_insert_after DEBUG_RBT DEBUG_RBT_DEEP DEBUG_LOCK_CHK a p prev = Ok a' /\ lst a' (L1 ++ (p, s) :: L2) X (list_insert_after A prev p) B n ms.
Proof.
  intros H HS. destruct (lst_link _ _ _ _ _ _ _ _ _ _ H HS) as (a1 & a2 & E1 & E2 & (N1 & N2 & H3)). unfold segment_insert_after. rewrite E1, bind_Ok, E2, bind_Ok. eexists. split; [done|].
  rewrite (st_all _ _ _ _ _ _ _ H3). split_and!; [done..|]. by eapply st_with_all.
Qed.
End ArenaState.
