(* ===== verification/VasOps.v ===== *)
(** * The virtual address allocator: allocating from an arena and releasing

    [arena_alloc], [arena_release] and [segment_find] on an arena given as the list of
    its segments in the order of their addresses ([arena_ok]). *)

From stdpp Require Import sorting.
From S2P Require Import Prelude BitMath BuddyPage Rbt RbtShape RbtInv RbtWalk RbtInsert RbtDelete RbtApi FixedSize Vas VasArena.

Notation segments := (list (Z * vas_segment)).
Notation zero_seg := (mkSeg 0 0 0 VAS_SEG_FREE None).

(** The free length of an arena. *)
Definition free_len (s : vas_segment) : Z := if bool_decide (type s = VAS_SEG_FREE) then slen s else 0.
Definition free_sum (L : segments) : Z := foldr (fun x n => free_len x.2 + n) 0 L.
Lemma free_sum_app L1 L2 : free_sum (L1 ++ L2) = free_sum L1 + free_sum L2.
Proof. unfold free_sum. induction L1 as [|x L1 IH]; cbn; [done|]. rewrite IH. lia. Qed.
Lemma free_sum_cons x L : free_sum (x :: L) = free_len x.2 + free_sum L.
Proof. done. Qed.
Lemma free_len_free s : type s = VAS_SEG_FREE -> free_len s = slen s.
Proof. intros H. unfold free_len. by rewrite bool_decide_true. Qed.
Lemma free_len_used s : type s <> VAS_SEG_FREE -> free_len s = 0.
Proof. intros H. unfold free_len. by rewrite bool_decide_false. Qed.

(** Nothing, or a free segment of this place. *)
Definition piece (x : segments) (st len span : Z) : Prop := (len = 0 /\ x = []) \/ (0 < len /\ exists q, x = [(q, mkSeg st len span VAS_SEG_FREE None)]).
Lemma piece_sum x st len span : piece x st len span -> free_sum x = len.
Proof. intros [[-> ->]|(? & q & ->)]; [done|]. rewrite free_sum_cons, free_len_free by done. cbn. lia. Qed.

Section Ops.
Context {F : Type} `{!ObjAlloc F}.
Context (DEBUG_RBT DEBUG_RBT_DEEP DEBUG_LOCK_CHK : bool).
Implicit Types (a : @vas_arena F) (M : gmap Z vas_segment) (s : vas_segment) (ms : list vas_magazine) (L X B : segments).

Definition arena_ok a L ms : Prop := lst a L [] L.*1 L (u64 (free_sum L)) ms /\ segs_ok L.

Lemma arena_nodup a L ms : arena_ok a L ms -> NoDup L.*1.
Proof. intros [(_ & H & _) _]. done. Qed.
Lemma arena_seg a L ms p s : arena_ok a L ms -> (p, s) ∈ L -> seg a p = Ok s.
Proof. intros [H _] Hp. eapply lst_seg; [done|by rewrite app_nil_r]. Qed.
Lemma arena_addr a L ms p s : arena_ok a L ms -> (p, s) ∈ L -> ok_addr p.
Proof. intros [H _] Hp. eapply lst_ok; [done|]. rewrite app_nil_r. done. Qed.

(** *** Cutting a segment *)

Lemma alloc_if a L X A B n ms len : lst a L X A B n ms -> exists a' q, (if len =? 0 then Ok (a, 0) else segment_alloc a) = Ok (a', q) /\
  ((len <> 0 /\ q = 0 /\ lst a' L X A B n ms) \/ exists X1, lst a' L (X1 ++ X) A B n ms /\ ((len = 0 /\ q = 0 /\ X1 = []) \/ (len <> 0 /\ ok_addr q /\ X1 = [(q, zero_seg)]))).
Proof.
  intros H. destruct (Z.eqb_spec len 0) as [->|Hl]; [exists a, 0; split; [done|right]; exists []; split; [done|by left]|].
  destruct (lst_alloc a L X A B n ms H) as (a' & q & E & [[-> H']|[Hok H']]); exists a'; [exists 0|exists q]; (split; [done|]); [by left|right]. exists [(q, zero_seg)]. split; [done|by right].
Qed.
Lemma add_if a q K1 K2 XL X A1 A2 B n ms prev st len span : lst a (K1 ++ K2) (XL ++ X) (A1 ++ A2) B n ms -> ((len = 0 /\ q = 0 /\ XL = []) \/ (len <> 0 /\ ok_addr q /\ XL = [(q, zero_seg)])) -> 0 <= len ->
  (len <> 0 -> forall q', segs_ok (K1 ++ (q', mkSeg st len span VAS_SEG_FREE None) :: K2)) -> (forall q', list_insert_after (A1 ++ A2) prev q' = A1 ++ q' :: A2) -> (forall x, x ∈ B.*1 -> x ∈ ((K1 ++ K2) ++ X).*1) ->
  exists a' ls, (if q =? 0 then Ok a else add_piece DEBUG_RBT DEBUG_RBT_DEEP DEBUG_LOCK_CHK a q st len span prev) = Ok a' /\ piece ls st len span /\ lst a' (K1 ++ ls ++ K2) X (A1 ++ ls.*1 ++ A2) (ls ++ B) n ms.
Proof.
  intros H [(-> & -> & ->)|(Hl & Hq & ->)] Hlen HS HA HB; [exists a, []; split_and!; [done|by left|done]|]. rewrite ok_ne0 by done. unfold add_piece.
  rewrite (lst_seg _ _ _ _ _ _ _ q zero_seg H), bind_Ok by (apply elem_of_app; right; by left). cbn [app type mag_slot] in *. set (l := mkSeg st len span VAS_SEG_FREE None).
  assert (q ∉ B.*1) as Hn. { intros Hin%HB. destruct H as (Hnd & _). by apply nodup_skip in Hnd as [_ Hnd]. }
  apply (lst_put _ _ _ _ l) in H. specialize (HS Hl q). fold l in HS. destruct (lst_insert_after DEBUG_RBT DEBUG_RBT_DEEP DEBUG_LOCK_CHK _ _ _ _ _ _ _ _ _ _ prev H HS) as (a1 & -> & H1). rewrite bind_Ok.
  destruct HS as [_ HSo]. destruct (HSo q l) as (S1 & S2 & S3); [apply elem_of_app; right; by left|]. cbn [slen start l] in S1, S2, S3.
  destruct (lst_bin_insert a1 _ _ _ _ _ _ q l H1) as (a2 & -> & H2); [rewrite !elem_of_app, elem_of_cons; tauto|done|cbn; lia|done|].
  exists a2, [(q, l)]. split_and!; [done|right; split; [lia|by exists q]|]. rewrite HA in H2. done.
Qed.
Lemma insert_at_last (l1 l2 : list Z) q : NoDup l1 -> Forall ok_addr l1 -> list_insert_after (l1 ++ l2) (default 0 (list.last l1)) q = l1 ++ q :: l2.
Proof.
  intros Hnd Hok. unfold list_insert_after. destruct (list.last l1) as [y|] eqn:Ey; [|by apply last_None in Ey as ->]. apply last_Some in Ey as [k ->]. cbn. apply list.Forall_app in Hok as [_ [Hy _]%list.Forall_cons]. rewrite ok_ne0 by done.
  rewrite <- !app_assoc. cbn. apply insert_after_mid. apply list.NoDup_app in Hnd as (_ & N1 & _). intros Hin. apply (N1 y Hin). by left.
Qed.
Lemma insert_at_prev (l1 : list Z) p l2 q : NoDup (l1 ++ p :: l2) -> Forall ok_addr (l1 ++ p :: l2) -> list_insert_after (l1 ++ p :: l2) (node_prev 0 (l1 ++ p :: l2) p) q = l1 ++ q :: p :: l2.
Proof.
  intros Hnd Hok. apply list.NoDup_app in Hnd as (N1 & N2 & N3). rewrite node_prev_mid by (intros Hp; apply (N2 p Hp); by left). apply insert_at_last; [done|]. by apply list.Forall_app in Hok as [? _].
Qed.
Lemma insert_at_self (l1 : list Z) p l2 q : NoDup (l1 ++ p :: l2) -> ok_addr p -> list_insert_after (l1 ++ p :: l2) p q = l1 ++ p :: q :: l2.
Proof.
  intros Hnd Hok. apply list.NoDup_app in Hnd as (N1 & N2 & N3). unfold list_insert_after. rewrite ok_ne0 by done. apply insert_after_mid. intros Hin. apply (N2 p Hin). by left.
Qed.

Definition tail_of (s : vas_segment) (size align : Z) : Z := slen s - seg_pad s align - size.
Definition cut_seg (s : vas_segment) (size align : Z) : vas_segment := mkSeg (start s + seg_pad s align) size (span_start s) VAS_SEG_BUSY (mag_slot s).
(** The segments of [s] around the extent taken from it. *)
Definition cut (L1 L2 : segments) (p : Z) s (size align : Z) (L' : segments) : Prop := exists ls rs,
  piece ls (start s) (seg_pad s align) (span_start s) /\ piece rs (start s + seg_pad s align + size) (tail_of s size align) (span_start s) /\
  L' = L1 ++ ls ++ (p, cut_seg s size align) :: rs ++ L2.

(** The extents of the pieces are in order. *)
Lemma cut_ok L1 p s L2 size align L' : segs_ok (L1 ++ (p, s) :: L2) -> fits size align s -> 0 < size -> cut L1 L2 p s size align L' -> segs_ok L'.
Proof.
  intros HS [F1 F2] Hsz (ls & rs & Hl & Hr & ->). pose proof (seg_pad_nonneg s align) as Hpad. apply segs_ok_mid in HS as (HS & (S1 & S2 & S3) & Hbl & Hbr). unfold tail_of in Hr.
  assert (segs_ok (L1 ++ rs ++ L2)) as H1.
  { destruct Hr as [[_ ->]|(Hr & q & ->)]; [done|]. cbn [app]. apply segs_ok_mid. split_and!; [done|split_and!; cbn; lia| |]; intros q' t Hq'; cbn; [specialize (Hbl q' t Hq'); lia|specialize (Hbr q' t Hq'); lia]. }
  assert (forall q t, (q, t) ∈ rs ++ L2 -> start s + seg_pad s align + size <= start t) as H2.
  { intros q t [Hq|Hq]%elem_of_app; [|specialize (Hbr q t Hq); lia]. destruct Hr as [[_ ->]|(_ & q' & ->)]; [by apply elem_of_nil in Hq|]. apply list_elem_of_singleton in Hq as [= -> ->]. cbn. lia. }
  assert (segs_ok (L1 ++ (p, cut_seg s size align) :: rs ++ L2)) as H3.
  { apply segs_ok_mid. split_and!; [done|split_and!; cbn; lia| |]; [|intros q t Hq; by apply H2 in Hq]. intros q t Hq. cbn. specialize (Hbl q t Hq). lia. }
  destruct Hl as [[_ ->]|(Hl & q & ->)]; [done|]. cbn [app]. apply segs_ok_mid. split_and!; [done|split_and!; cbn; lia| |].
  - intros q' t Hq'. cbn. by eapply Hbl.
  - intros q' t [[= -> ->]|Hq']%elem_of_cons; cbn; [lia|]. specialize (H2 q' t Hq'). lia.
Qed.

Lemma cut_left_ok L1 p s L2 size align ls : segs_ok (L1 ++ (p, s) :: L2) -> fits size align s -> 0 < size -> piece ls (start s) (seg_pad s align) (span_start s) -> segs_ok ((L1 ++ ls) ++ (p, cut_seg s size align) :: L2).
Proof.
  intros HS [F1 F2] Hsz Hl. pose proof (seg_pad_nonneg s align) as Hpad. apply segs_ok_mid in HS as (HS & (S1 & S2 & S3) & Hbl & Hbr).
  assert (segs_ok ((L1 ++ ls) ++ L2)) as H1.
  { destruct Hl as [[_ ->]|(Hl & q & ->)]; [by rewrite app_nil_r|]. rewrite <- app_assoc. apply segs_ok_mid. split_and!; [done|split_and!; cbn; lia|exact Hbl|]. intros q' t Hq'. cbn. specialize (Hbr q' t Hq'). lia. }
  apply segs_ok_mid. split_and!; [done|split_and!; cbn; lia| |]; intros q t Hq; cbn; [|specialize (Hbr q t Hq); lia]. apply elem_of_app in Hq as [Hq|Hq]; [specialize (Hbl q t Hq); lia|].
  destruct Hl as [[_ ->]|(Hl & q' & ->)]; [by apply elem_of_nil in Hq|]. apply list_elem_of_singleton in Hq as [= -> ->]. cbn. lia.
Qed.
Definition got (len q : Z) X : Prop := (len = 0 /\ q = 0 /\ X = []) \/ (len <> 0 /\ ok_addr q /\ X = [(q, zero_seg)]).
(** The part of [carve] that does not fail. *)
Lemma carve_cut a L1 p s L2 XL XR n ms left right size align : segs_ok (L1 ++ (p, s) :: L2) -> type s = VAS_SEG_FREE -> fits size align s -> 0 < size ->
  lst a (L1 ++ (p, s) :: L2) (XR ++ XL) (L1 ++ (p, s) :: L2).*1 (L1 ++ (p, s) :: L2) n ms -> got (seg_pad s align) left XL -> got (tail_of s size align) right XR ->
  exists a' L', (a ← bin_remove a p; a ← tree_delete_seg DEBUG_RBT DEBUG_RBT_DEEP a p;
    a ← (if left =? 0 then Ok a else add_piece DEBUG_RBT DEBUG_RBT_DEEP DEBUG_LOCK_CHK a left (start s) (seg_pad s align) (span_start s) (node_prev 0 (all_segs a) p));
    let a := put_seg a p (mkSeg (u64 (start s + seg_pad s align)) size (span_start s) VAS_SEG_BUSY (mag_slot s)) in
    a ← init_node a p; a ← tree_insert_seg DEBUG_RBT DEBUG_RBT_DEEP DEBUG_LOCK_CHK a p;
    a ← (if right =? 0 then Ok a else add_piece DEBUG_RBT DEBUG_RBT_DEEP DEBUG_LOCK_CHK a right (u64 (u64 (start s + seg_pad s align) + size)) (tail_of s size align) (span_start s) p);
    Ok (with_total a (u64 (total_free a - size)), p)) = Ok (a', p) /\
  cut L1 L2 p s size align L' /\ lst a' L' [] L'.*1 L' (u64 (n - size)) ms.
Proof.
  intros HS Hty Hfit Hsz H HL HR. pose proof Hfit as [F1 F2]. pose proof (seg_pad_nonneg s align) as Hpad. pose proof (proj1 (segs_ok_mid _ _ _ _) HS) as (HS0 & (S1 & S2 & S3) & Hbl & Hbr).
  rewrite !(wrap_small 64 (start s + seg_pad s align)) by (unfold in_u; lia). assert (0 <= tail_of s size align) as Htail by (unfold tail_of; lia).
  assert (ok_addr p) as Hok by (eapply lst_ok; [done|rewrite !elem_of_app, elem_of_cons; tauto]).
  assert (NoDup ((L1 ++ (p, s) :: L2) ++ XR ++ XL).*1) as Hnd by apply H. assert (Forall ok_addr (L1.*1 ++ p :: L2.*1)) as Hoks.
  { apply list.Forall_forall. intros q Hq. rewrite <- (fmap_cons fst (p, s)), <- fmap_app in Hq. apply in_fst in Hq as [t Hq]. eapply lst_ok; [done|]. apply elem_of_app. by left. }
  destruct (lst_bin_remove a _ _ _ _ _ _ _ p s H) as (a1 & -> & H1); [rewrite !elem_of_app, elem_of_cons; tauto|done|]. rewrite bind_Ok.
  destruct (lst_unlink DEBUG_RBT DEBUG_RBT_DEEP _ _ _ _ _ _ _ _ _ _ H1) as (a2 & -> & H2). rewrite bind_Ok. rewrite (st_all _ _ _ _ _ _ _ (proj2 (proj2 H2))). rewrite fmap_app, fmap_cons in *. cbn [fst] in *.
  assert (NoDup (L1.*1 ++ p :: L2.*1)) as Hnd1 by (rewrite fmap_app, fmap_app, fmap_cons in Hnd; by apply list.NoDup_app in Hnd as [? _]).
  apply (lst_perm _ _ _ (XL ++ (p, s) :: XR) _ _ (L1 ++ L2)) in H2; [|by rewrite (Permutation_app_comm XR), Permutation_middle|done].
  destruct (add_if a2 left L1 L2 XL ((p, s) :: XR) L1.*1 (p :: L2.*1) (L1 ++ L2) n ms (node_prev 0 (L1.*1 ++ p :: L2.*1) p) (start s) (seg_pad s align) (span_start s) H2 HL Hpad) as (a3 & ls & -> & Hls & H3).
  { intros Hp q. apply segs_ok_mid. split_and!; [done|split_and!; cbn; lia|exact Hbl|]. intros q' t Hq'. cbn. specialize (Hbr q' t Hq'). lia. }
  { intros q. by apply insert_at_prev. }
  { intros x Hx. rewrite fmap_app. apply elem_of_app. by left. }
  rewrite bind_Ok. cbv zeta. apply (lst_put _ _ _ _ (cut_seg s size align)) in H3. fold (cut_seg s size align).
  assert (segs_ok ((L1 ++ ls) ++ (p, cut_seg s size align) :: L2)) as HS3 by by eapply cut_left_ok.
  rewrite (app_assoc L1 ls L2) in H3. destruct (lst_link DEBUG_RBT DEBUG_RBT_DEEP DEBUG_LOCK_CHK _ _ _ _ _ _ _ _ _ _ H3 HS3) as (a4 & a5 & -> & E5 & H5). rewrite bind_Ok, E5, bind_Ok.
  rewrite (app_assoc L1.*1), (cons_middle (p, _)), (cons_middle p), !app_assoc in H5.
  assert (forall K, cut L1 L2 p s size align K -> segs_ok K) as Hcut by (intros K HK; by apply (cut_ok L1 p s L2 size align K)).
  assert (NoDup (((L1.*1 ++ ls.*1) ++ [p]) ++ L2.*1)) as N5 by (destruct H5 as (N5 & _); rewrite fmap_app in N5; apply list.NoDup_app in N5 as [N5 _]; by rewrite !fmap_app in N5).
  rewrite <- (app_nil_r XR) in H5. rewrite (wrap_small 64 (start s + seg_pad s align + size)) by (unfold in_u; lia).
  destruct (add_if a5 right ((L1 ++ ls) ++ [(p, cut_seg s size align)]) L2 XR [] ((L1.*1 ++ ls.*1) ++ [p]) L2.*1 ((ls ++ L1) ++ L2) n ms p (start s + seg_pad s align + size) (tail_of s size align) (span_start s) H5 HR Htail) as (a6 & rs & -> & Hrs & H6).
  { intros Ht q. apply Hcut. eexists ls, _. split_and!; [done|right; split; [lia|by exists q]|]. by rewrite <- !app_assoc. }
  { intros q. rewrite <- app_assoc in N5 |- *. rewrite <- (app_assoc _ [p]). by apply insert_at_self. }
  { intros x. rewrite !fmap_app, !elem_of_app. tauto. }
  rewrite bind_Ok. eexists _, (L1 ++ ls ++ (p, cut_seg s size align) :: rs ++ L2). split; [done|]. split; [by exists ls, rs|]. rewrite (st_total _ _ _ _ _ _ _ (proj2 (proj2 H6))). eapply lst_with_total.
  assert (p ∉ ((L1 ++ ls) ++ rs ++ L2).*1) as Hp. { destruct H6 as (N6 & _). rewrite app_nil_r, <- (app_assoc (L1 ++ ls)) in N6. by apply nodup_skip in N6 as [_ N6]. }
  apply (lst_perm _ _ _ [] _ _ ((L1 ++ ls) ++ rs ++ L2)) in H6; [|done|rewrite (Permutation_app_comm rs), (Permutation_app_comm ls), <- app_assoc; f_equiv; apply Permutation_app_comm].
  apply (lst_unskip _ _ _ _ _ p (cut_seg s size align)) in H6; [|done|done]. rewrite !fmap_app, fmap_cons, fmap_app. rewrite <- !app_assoc in H6. exact H6.
Qed.

Lemma got_if len q X : got len q X -> negb (len =? 0) && (q =? 0) = false.
Proof. intros [(-> & -> & _)|(_ & Hq & _)]; [done|]. by rewrite (ok_ne0 q), andb_false_r by done. Qed.
Lemma carve_ok a L1 p s L2 ms size align : arena_ok a (L1 ++ (p, s) :: L2) ms -> type s = VAS_SEG_FREE -> fits size align s -> 0 < size ->
  exists a' r, carve DEBUG_RBT DEBUG_RBT_DEEP DEBUG_LOCK_CHK a p size align = Ok (a', r) /\
  ((r = 0 /\ arena_ok a' (L1 ++ (p, s) :: L2) ms) \/ (r = p /\ exists L', cut L1 L2 p s size align L' /\ arena_ok a' L' ms)).
Proof.
  intros [H HS] Hty Hfit Hsz. pose proof Hfit as [F1 F2]. pose proof (seg_pad_nonneg s align) as Hpad. pose proof (proj1 (segs_ok_mid _ _ _ _) HS) as (_ & (S1 & S2 & S3) & _).
  unfold carve. rewrite (lst_seg _ _ _ _ _ _ _ p s H), bind_Ok by (rewrite !elem_of_app, elem_of_cons; tauto). cbv zeta. rewrite (wrap_small 64 (slen s - seg_pad s align - size)) by (unfold in_u; lia). fold (tail_of s size align).
  destruct (alloc_if a _ _ _ _ _ _ (seg_pad s align) H) as (a1 & lp & -> & [(Hl & -> & H1)|(XL & H1 & HL)]); rewrite bind_Ok; [rewrite (proj2 (Z.eqb_neq _ _) Hl), Z.eqb_refl; exists a1, 0; split; [done|left; by split]|].
  rewrite (got_if _ _ _ HL). destruct (alloc_if a1 _ _ _ _ _ _ (tail_of s size align) H1) as (a2 & rp & -> & [(Hr & -> & H2)|(XR & H2 & HR)]); rewrite bind_Ok.
  - rewrite (proj2 (Z.eqb_neq _ _) Hr), Z.eqb_refl. cbn [negb andb]. destruct HL as [(_ & -> & ->)|(_ & Hok & ->)]; [exists a2, 0; split; [done|left; by split]|]. rewrite ok_ne0 by done.
    destruct (lst_free a2 _ _ _ _ _ _ lp zero_seg H2) as (a3 & -> & H3). rewrite bind_Ok. exists a3, 0. split; [done|left]. by split.
  - rewrite (got_if _ _ _ HR). rewrite app_nil_r in H2. destruct (carve_cut a2 L1 p s L2 XL XR _ ms lp rp size align HS Hty Hfit Hsz H2 HL HR) as (a' & L' & E & Hcut & H'). exists a', p. split; [exact E|right]. split; [done|].
    exists L'. split; [done|]. split; [|by eapply cut_ok]. replace (u64 (free_sum L')) with (u64 (u64 (free_sum (L1 ++ (p, s) :: L2)) - size)); [done|].
    destruct Hcut as (ls & rs & Hls & Hrs & ->). rewrite !free_sum_app, !free_sum_cons, free_sum_app, (piece_sum _ _ _ _ Hls), (piece_sum _ _ _ _ Hrs). cbn [snd]. rewrite (free_len_free s), (free_len_used (cut_seg s size align)) by done.
    unfold tail_of, wrap. rewrite Zminus_mod_idemp_l. f_equal. lia.
Qed.

(** An arena gives out the first fit it finds, if there is any and the objects for the
    pieces are to be had. *)
Lemma arena_alloc_ok a L ms size align : arena_ok a L ms -> 0 < size < 2 ^ 64 -> exists a' r failed, arena_alloc DEBUG_RBT DEBUG_RBT_DEEP DEBUG_LOCK_CHK a size align = Ok (a', r, failed) /\
  ((r = 0 /\ arena_ok a' L ms /\ (failed = false -> forall p s, (p, s) ∈ L -> type s = VAS_SEG_FREE -> ~ fits size align s)) \/
   (ok_addr r /\ failed = false /\ exists L1 s L2 L', L = L1 ++ (r, s) :: L2 /\ type s = VAS_SEG_FREE /\ fits size align s /\ cut L1 L2 r s size align L' /\ arena_ok a' L' ms)).
Proof.
  intros H Hsz. pose proof (arena_nodup _ _ _ H) as Hnd. pose proof H as [(_ & _ & H3) _]. rewrite app_nil_r in H3. assert (forall p s, (list_to_map L : gmap Z vas_segment) !! p = Some s <-> (p, s) ∈ L) as Hlk by (intros; symmetry; by apply elem_of_list_to_map).
  apply (st_ext _ _ _ _ _ (free_of (list_to_map L))) in H3; [|intros p m; unfold free_in, free_of; by setoid_rewrite Hlk]. unfold arena_alloc.
  destruct (first_fit_ok a _ _ _ _ _ size align H3 Hsz) as (r & -> & Hr). rewrite bind_Ok. destruct r as [p|].
  - destruct Hr as (s & Hp%Hlk & Hty & Hfit). pose proof (arena_addr _ _ _ _ _ H Hp) as Hok. apply list_elem_of_split in Hp as (L1 & L2 & ->).
    destruct (carve_ok a L1 p s L2 ms size align H Hty Hfit ltac:(lia)) as (a' & r & -> & [[-> H']|(-> & L' & Hcut & H')]); rewrite bind_Ok; do 3 eexists; (split; [done|]); [left; done|right].
    split_and!; [done|by apply ok_ne0|]. by exists L1, s, L2, L'.
  - exists a, 0, false. split; [done|left]. split_and!; [done|done|]. intros _ p s Hp%Hlk. by eapply Hr.
Qed.

(** *** Releasing a segment *)

Definition absorb (k g : vas_segment) : vas_segment := mkSeg (start k) (slen k + slen g) (span_start k) (type k) (mag_slot k).
Definition freed s : vas_segment := mkSeg (start s) (slen s) (span_start s) VAS_SEG_FREE (mag_slot s).
(** The segment joined with the free neighbour before it and the one after it. *)
Definition left_join L1 p s K q t : Prop :=
  (K = L1 /\ q = p /\ t = s /\ forall K' x, L1 = K' ++ [x] -> segments_mergeable x.2 s = false) \/ (exists l, L1 = K ++ [(q, l)] /\ segments_mergeable l s = true /\ t = absorb l s).
Definition right_join t L2 t' L2' : Prop :=
  (L2' = L2 /\ t' = t /\ forall x K', L2 = x :: K' -> segments_mergeable t x.2 = false) \/ (exists r n, L2 = (r, n) :: L2' /\ segments_mergeable t n = true /\ t' = absorb t n).
Definition released L1 p s L2 L' : Prop := exists K q t t' L2', left_join L1 p (freed s) K q t /\ right_join t L2 t' L2' /\ L' = K ++ (q, t') :: L2'.

Lemma mergeable_spec l r : seg_ok l -> seg_ok r -> start l + slen l <= start r -> segments_mergeable l r = true <->
  type l = VAS_SEG_FREE /\ type r = VAS_SEG_FREE /\ span_start l = span_start r /\ start r = start l + slen l.
Proof.
  intros (? & ? & ?) (? & ? & ?) Hb. unfold segments_mergeable. rewrite (wrap_small 64 (start r - start l)) by (unfold in_u; lia). rewrite !andb_true_iff, !bool_decide_eq_true, !Z.eqb_eq. intuition lia.
Qed.
(** Two neighbours become one. *)
Lemma absorb_ok K1 k l g r K2 : segs_ok (K1 ++ (k, l) :: (g, r) :: K2) -> segments_mergeable l r = true -> segs_ok (K1 ++ (k, absorb l r) :: K2) /\ type l = VAS_SEG_FREE /\ type r = VAS_SEG_FREE /\ slen l + slen r < 2 ^ 64.
Proof.
  intros H Hm. pose proof H as (HS1 & Hl & Hl1 & Hl2)%segs_ok_mid. rewrite cons_middle, app_assoc in H. apply segs_ok_mid in H as (_ & Hr & Hr1 & Hr2). pose proof (Hl2 g r (list_elem_of_here _ _)) as Hlr.
  apply mergeable_spec in Hm as (T1 & T2 & _ & Hst); [|done..]. destruct Hl as (? & ? & ?), Hr as (? & ? & ?). split_and!; [|done|done|lia]. apply segs_ok_mid. split_and!; [by apply segs_ok_skip in HS1|split_and!; cbn; lia|exact Hl1|].
  intros q t Hq. cbn. specialize (Hr2 q t Hq). lia.
Qed.
Lemma merge_ok a K1 k l g r K2 B1 u su B2 n ms : lst a (K1 ++ (k, l) :: (g, r) :: K2) [] (K1 ++ (k, l) :: (g, r) :: K2).*1 (B1 ++ (u, su) :: B2) n ms ->
  (u, su) ∈ K1 ++ (k, l) :: (g, r) :: K2 -> type su = VAS_SEG_FREE -> 0 <= slen l + slen r < 2 ^ 64 ->
  exists a', merge DEBUG_RBT DEBUG_RBT_DEEP a k g u = Ok a' /\ lst a' (K1 ++ (k, absorb l r) :: K2) [] (K1 ++ (k, absorb l r) :: K2).*1 (B1 ++ B2) n ms.
Proof.
  intros H Hu Hty Hlen. unfold merge. destruct (lst_bin_remove a _ _ _ _ _ _ _ u su H) as (a1 & -> & H1); [by rewrite app_nil_r|done|]. rewrite bind_Ok.
  rewrite (lst_seg _ _ _ _ _ _ _ k l H1), bind_Ok by (rewrite app_nil_r, elem_of_app; right; by left). rewrite (lst_seg _ _ _ _ _ _ _ g r H1), bind_Ok by (rewrite app_nil_r, elem_of_app; right; right; by left).
  rewrite wrap_small by done. fold (absorb l r). apply (lst_put_in _ _ _ _ (absorb l r)) in H1. rewrite cons_middle, app_assoc in H1.
  destruct (lst_delete DEBUG_RBT DEBUG_RBT_DEEP _ _ _ _ _ _ _ _ _ _ H1) as (a2 & -> & H2). exists a2. split; [done|]. rewrite <- app_assoc in H2. destruct H as (Hnd & _). rewrite app_nil_r, cons_middle, app_assoc in Hnd. apply nodup_skip in Hnd as [_ Hnd]. cbn [fst] in Hnd.
  assert (list_remove (K1 ++ (k, l) :: (g, r) :: K2).*1 g = (K1 ++ (k, absorb l r) :: K2).*1) as EA; [|by rewrite EA in H2].
  rewrite (cons_middle (k, l)), app_assoc, fmap_app, fmap_cons. rewrite fmap_app in Hnd. cbn [fst]. rewrite list_remove_mid; [by rewrite !fmap_app, <- app_assoc|intros ?; apply Hnd, elem_of_app; tauto..].
Qed.

(** The two looks of [arena_release] at the neighbours. *)
Lemma release_left a L1 p s L2 n ms : lst a (L1 ++ (p, s) :: L2) [] (L1 ++ (p, s) :: L2).*1 (L1 ++ L2) n ms -> segs_ok (L1 ++ (p, s) :: L2) -> type s = VAS_SEG_FREE -> exists a' K q t,
  (let prev := node_prev 0 (all_segs a) p in
   if prev =? 0 then Ok (a, p) else
   l ← seg a prev; s ← seg a p;
   if segments_mergeable l s then a ← merge DEBUG_RBT DEBUG_RBT_DEEP a prev p prev; Ok (a, prev) else Ok (a, p)) = Ok (a', q) /\
  left_join L1 p s K q t /\ lst a' (K ++ (q, t) :: L2) [] (K ++ (q, t) :: L2).*1 (K ++ L2) n ms /\ segs_ok (K ++ (q, t) :: L2) /\ type t = VAS_SEG_FREE.
Proof.
  intros H HS Hty. rewrite (st_all _ _ _ _ _ _ _ (proj2 (proj2 H))). cbv zeta. rewrite fmap_app, fmap_cons. assert (p ∉ L1.*1) as Hp. { destruct H as (Hnd & _). rewrite app_nil_r in Hnd. apply nodup_skip in Hnd as [_ Hnd]. rewrite fmap_app in Hnd. intros ?. apply Hnd, elem_of_app. by left. }
  rewrite node_prev_mid by done. destruct L1 as [|[q l] K _] using rev_ind; [exists a, [], p, s; split_and!; [done|left; split_and!; [done..|by intros [] ?]|done|done|done]|].
  rewrite !fmap_app. change (fst <$> [(q, l)]) with [q]. rewrite last_snoc. cbn [default from_option id]. rewrite <- !app_assoc in *. cbn [app fmap list_fmap fst] in *.
  assert (ok_addr q) as Hok by (eapply lst_ok; [exact H|rewrite app_nil_r, elem_of_app; right; by left]). rewrite ok_ne0 by done.
  rewrite (lst_seg _ _ _ _ _ _ _ q l H), bind_Ok by (rewrite app_nil_r, elem_of_app; right; by left). rewrite (lst_seg _ _ _ _ _ _ _ p s H), bind_Ok by (rewrite app_nil_r, elem_of_app; right; right; by left).
  destruct (segments_mergeable l s) eqn:Em.
  - destruct (absorb_ok _ _ _ _ _ _ HS Em) as (HS' & Tl & Ts & Hlen). pose proof HS as [_ HSo]. destruct (HSo q l) as (? & ? & ?); [rewrite elem_of_app; right; by left|]. destruct (HSo p s) as (? & ? & ?); [rewrite elem_of_app; right; right; by left|].
    destruct (merge_ok a K q l p s L2 K q l L2 n ms) as (a' & -> & H'); [done|rewrite elem_of_app; right; by left|done|lia|]. rewrite bind_Ok. exists a', K, q, (absorb l s). split_and!; [done|right; by exists l|done|done|done].
  - exists a, (K ++ [(q, l)]), p, s. rewrite <- !app_assoc. split_and!; [done|left; split_and!; [done..|]|done|done|done]. intros K' x [_ <-]%app_inj_tail. done.
Qed.
Lemma release_right a K q t L2 n ms : lst a (K ++ (q, t) :: L2) [] (K ++ (q, t) :: L2).*1 (K ++ L2) n ms -> segs_ok (K ++ (q, t) :: L2) -> type t = VAS_SEG_FREE -> exists a' t' L2',
  (let next := node_next (all_segs a) q in
   if next =? 0 then Ok a else
   s ← seg a q; n ← seg a next;
   if segments_mergeable s n then merge DEBUG_RBT DEBUG_RBT_DEEP a q next next else Ok a) = Ok a' /\
  right_join t L2 t' L2' /\ lst a' (K ++ (q, t') :: L2') [] (K ++ (q, t') :: L2').*1 (K ++ L2') n ms /\ segs_ok (K ++ (q, t') :: L2') /\ type t' = VAS_SEG_FREE.
Proof.
  intros H HS Hty. rewrite (st_all _ _ _ _ _ _ _ (proj2 (proj2 H))). cbv zeta. rewrite fmap_app, fmap_cons. assert (q ∉ K.*1) as Hp. { destruct H as (Hnd & _). rewrite app_nil_r in Hnd. apply nodup_skip in Hnd as [_ Hnd]. rewrite fmap_app in Hnd. intros ?. apply Hnd, elem_of_app. by left. }
  rewrite node_next_mid by done. destruct L2 as [|[r u] L2]; [exists a, t, []; split_and!; [done|left; split_and!; done|done|done|done]|]. cbn [hd_error fmap list_fmap fst default from_option id].
  assert (ok_addr r) as Hok by (eapply lst_ok; [exact H|rewrite app_nil_r, elem_of_app; right; right; by left]). rewrite ok_ne0 by done.
  rewrite (lst_seg _ _ _ _ _ _ _ q t H), bind_Ok by (rewrite app_nil_r, elem_of_app; right; by left). rewrite (lst_seg _ _ _ _ _ _ _ r u H), bind_Ok by (rewrite app_nil_r, elem_of_app; right; right; by left).
  destruct (segments_mergeable t u) eqn:Em.
  - destruct (absorb_ok _ _ _ _ _ _ HS Em) as (HS' & Tl & Ts & Hlen). pose proof HS as [_ HSo]. destruct (HSo q t) as (? & ? & ?); [rewrite elem_of_app; right; by left|]. destruct (HSo r u) as (? & ? & ?); [rewrite elem_of_app; right; right; by left|].
    destruct (merge_ok a K q t r u L2 K r u L2 n ms) as (a' & -> & H'); [done|rewrite elem_of_app; right; right; by left|done|lia|]. exists a', (absorb t u), L2. split_and!; [done|right; by exists r, u|done|done|done].
  - exists a, t, ((r, u) :: L2). split_and!; [done|left; split_and!; [done..|]|done|done|done]. by intros x K' [= <- _].
Qed.
Lemma mergeable_free l r : segments_mergeable l r = true -> type l = VAS_SEG_FREE /\ type r = VAS_SEG_FREE.
Proof. unfold segments_mergeable. intros [[[?%bool_decide_eq_true ?%bool_decide_eq_true]%andb_true_iff _]%andb_true_iff _]%andb_true_iff. done. Qed.
Lemma released_sum L1 p s L2 L' : type s <> VAS_SEG_FREE -> released L1 p s L2 L' -> free_sum L' = free_sum (L1 ++ (p, s) :: L2) + slen s.
Proof.
  intros Hs (K & q & t & t' & L2' & Hl & Hr & ->). assert (free_sum K + free_len t = free_sum L1 + slen s /\ type t = VAS_SEG_FREE) as [E1 Ht].
  { destruct Hl as [(-> & -> & -> & _)|(l & -> & Hm & ->)]; [done|]. apply mergeable_free in Hm as [Hl _]. rewrite free_sum_app, free_sum_cons. cbn [snd]. rewrite !free_len_free by done. cbn. split; [lia|done]. }
  assert (free_len t' + free_sum L2' = free_len t + free_sum L2) as E2.
  { destruct Hr as [(-> & -> & _)|(r & n & -> & Hm & ->)]; [done|]. apply mergeable_free in Hm as [_ Hn]. rewrite free_sum_cons. cbn [snd]. rewrite !free_len_free by done. cbn. lia. }
  rewrite !free_sum_app, !free_sum_cons. cbn [snd]. rewrite (free_len_used s) by done. lia.
Qed.
Lemma arena_release_ok a L1 p s L2 ms : arena_ok a (L1 ++ (p, s) :: L2) ms -> type s <> VAS_SEG_FREE ->
  exists a' L', arena_release DEBUG_RBT DEBUG_RBT_DEEP a p = Ok a' /\ released L1 p s L2 L' /\ arena_ok a' L' ms.
Proof.
  intros [H HS] Hty. unfold arena_release. rewrite (lst_seg _ _ _ _ _ _ _ p s H), bind_Ok by (rewrite app_nil_r, elem_of_app; right; by left). rewrite (st_total _ _ _ _ _ _ _ (proj2 (proj2 H))).
  set (n := u64 (u64 _ + _)). apply (lst_skip _ _ _ _ _ _ _ _ _ _ Hty) in H. apply (lst_with_total _ _ _ _ _ _ _ n) in H. cbv zeta. unfold set_type.
  rewrite (lst_seg _ _ _ _ _ _ _ p s H), !bind_Ok by (rewrite app_nil_r, elem_of_app; right; by left). apply (lst_put_in _ _ _ _ (freed s)) in H. fold (freed s).
  assert (segs_ok (L1 ++ (p, freed s) :: L2)) as HS1 by (apply segs_ok_mid; by apply segs_ok_mid in HS).
  replace (L1 ++ (p, s) :: L2).*1 with (L1 ++ (p, freed s) :: L2).*1 in H by (by rewrite !fmap_app, !fmap_cons).
  destruct (release_left _ _ _ _ _ _ _ H HS1) as (a1 & K & q & t & E1 & Hl & H1 & HS2 & Ht); [done|]. cbv zeta in E1. cbv zeta. rewrite E1, bind_Ok.
  destruct (release_right _ _ _ _ _ _ _ H1 HS2 Ht) as (a2 & t' & L2' & E2 & Hr & H2 & HS3 & Ht'). cbv zeta in E2. rewrite E2, bind_Ok.
  pose proof HS3 as [_ HSo]. destruct (HSo q t') as (Q1 & Q2 & Q3); [apply elem_of_app; right; by left|].
  destruct (lst_bin_insert a2 _ _ _ _ _ _ q t' H2) as (a3 & -> & H3); [rewrite app_nil_r, elem_of_app; right; by left|done|lia|destruct H2 as (Hnd & _); rewrite app_nil_r in Hnd; by apply nodup_skip in Hnd as [_ ?]|].
  assert (released L1 p s L2 (K ++ (q, t') :: L2')) as Hrel by (by exists K, q, t, t', L2'). exists a3, (K ++ (q, t') :: L2'). split_and!; [done|done|]. split; [|done].
  rewrite (released_sum L1 p s L2) by done. replace (u64 (_ + _)) with n by (unfold n, wrap; by rewrite Zplus_mod_idemp_l). eapply lst_perm; [done| |exact H3]. apply Permutation_middle.
Qed.

(** *** Finding the segment of an address *)

Definition covers (addr : Z) s : Prop := start s <= addr < start s + slen s.
Lemma find_loop a ad : in_u 64 ad -> forall t fuel par L, rep (nodes (tree a)) par t -> elems t = L.*1 -> segs_ok L -> (forall p s, (p, s) ∈ L -> seg a p = Ok s /\ ok_addr p) -> (height t < fuel)%nat ->
  exists p, loop fuel (find_body a ad) (addr t) = Ok p /\ ((exists s, (p, s) ∈ L /\ covers ad s) \/ (p = 0 /\ forall q s, (q, s) ∈ L -> ~ covers ad s)).
Proof.
  intros Had. unfold in_u in Had. induction t as [|c l IHl p r IHr]; intros fuel par L Hr HL HS Hseg Hf; (destruct fuel as [|fuel]; [lia|]).
  { exists 0. split; [by apply loop_done|right]. split; [done|]. symmetry in HL. apply fmap_nil_inv in HL as ->. by intros q s ?%elem_of_nil. }
  destruct Hr as (Hp & Hl & Hr). cbn [height elems addr] in *. symmetry in HL. apply fmap_app_inv in HL as (Ll & Lr & E1 & E2 & ->). symmetry in E2. apply fmap_cons_inv in E2 as ([p' s] & Lr' & Ep & Er & ->). cbn in Ep. subst p'.
  destruct (Hseg p s) as [Hs Hok]; [apply elem_of_app; right; by left|]. pose proof (proj1 (segs_ok_mid _ _ _ _) HS) as (_ & (S1 & S2 & S3) & Hbl & Hbr).
  assert (segs_ok Ll /\ segs_ok Lr') as [HSl HSr]. { destruct HS as [HS1 HS2]. apply StronglySorted_app in HS1 as (_ & HS1 & [_ HS3]%StronglySorted_cons). split; (split; [done|]); intros q t Hq; apply (HS2 q t), elem_of_app; [by left|right; by right]. }
  assert (find_body a ad p = Ok (if ad <? start s then inl (RbtShape.addr l) else if slen s <=? u64 (ad - start s) then inl (RbtShape.addr r) else inr p)) as Hb.
  { unfold find_body. by rewrite ok_ne0, Hs, bind_Ok, (node_at _ p _ Hok Hp), bind_Ok by done. }
  destruct (Z.ltb_spec ad (start s)) as [Hlt|Hge]; [|rewrite wrap_small in Hb by (unfold in_u; lia); destruct (Z.leb_spec (slen s) (ad - start s)) as [Hle|Hgt]].
  - rewrite (loop_step _ _ _ _ Hb). destruct (IHl fuel p Ll Hl) as (q & -> & Hq); [done|done|intros; apply Hseg, elem_of_app; by left|lia|]. exists q. split; [done|]. destruct Hq as [(t & Ht & Hc)|[-> Hq]]; [left; exists t; split; [apply elem_of_app; by left|done]|right].
    split; [done|]. unfold covers in *. intros q t [Ht|[[= -> ->]|Ht]%elem_of_cons]%elem_of_app; [by eapply Hq|lia|specialize (Hbr q t Ht); lia].
  - rewrite (loop_step _ _ _ _ Hb). destruct (IHr fuel p Lr' Hr) as (q & -> & Hq); [done|done|intros; apply Hseg, elem_of_app; right; by right|lia|]. exists q. split; [done|]. destruct Hq as [(t & Ht & Hc)|[-> Hq]]; [left; exists t; split; [apply elem_of_app; right; by right|done]|right].
    split; [done|]. unfold covers in *. intros q t [Ht|[[= -> ->]|Ht]%elem_of_cons]%elem_of_app; [specialize (Hbl q t Ht); lia|lia|by eapply Hq].
  - exists p. split; [by apply loop_done|left]. exists s. split; [apply elem_of_app; right; by left|]. unfold covers. lia.
Qed.
Lemma segment_find_ok a L ms ad : arena_ok a L ms -> in_u 64 ad -> exists p, segment_find a ad = Ok p /\ ((exists s, (p, s) ∈ L /\ covers ad s) \/ (p = 0 /\ forall q s, (q, s) ∈ L -> ~ covers ad s)).
Proof.
  intros H Had. pose proof H as [(_ & _ & H3) HS]. destruct (st_tree _ _ _ _ _ _ _ H3) as (t & Ht & HL). destruct (holds_rep _ _ Ht) as (Hroot & Hrep & _ & Hh). unfold segment_find. rewrite Hroot.
  eapply find_loop; try done. intros p s Hp. split; [by eapply arena_seg|by eapply arena_addr].
Qed.
(** Two segments that cover an address are one. *)
Lemma covers_unique L p s q t ad : segs_ok L -> (p, s) ∈ L -> (q, t) ∈ L -> covers ad s -> covers ad t -> (p, s) = (q, t).
Proof.
  intros HS [L1 [L2 ->]]%list_elem_of_split Hq Hs Ht. unfold covers in *. apply segs_ok_mid in HS as (_ & _ & Hl & Hr). apply elem_of_app in Hq as [Hq|[Hq|Hq]%elem_of_cons]; [specialize (Hl q t Hq); lia|done|specialize (Hr q t Hq); lia].
Qed.
End Ops.
