(* ===== verification/VasMag.v ===== *)
(** * The virtual address allocator: magazines

    The arena of a CPU with its magazines ([local_ok]): a slot with a token names a
    segment of the class's size, handed out or cached, and the segment names the
    slot.  What the operations on magazines do to the segments and to the extents
    that are handed out ([live_in]). *)

From stdpp Require Import sorting.
From S2P Require Import Prelude BitMath BuddyPage Rbt RbtShape RbtInv RbtWalk RbtInsert RbtDelete RbtApi FixedSize Vas VasArena VasOps.

(** ** Tokens *)

Lemma token_bits x st : 0 <= x < 2 ^ 64 -> (PAGE_SIZE | x) -> 0 < st < 4 -> token_addr (vas_token_make x st) = x /\ token_state (vas_token_make x st) = st /\ vas_token_make x st <> 0.
Proof.
  intros Hx [q ->] Hst. unfold token_addr, token_state, vas_token_make. change PAGE_SIZE with (2 ^ 12) in *.
  assert (forall i, 0 <= i < 2 -> Z.testbit (q * 2 ^ 12) i = false) as Hlow by (intros i Hi; apply Z.mul_pow2_bits_low; lia).
  assert (forall i, 2 <= i -> Z.testbit st i = false) as Hhigh by (intros i Hi; apply (testbit_small 2); [unfold in_u; lia|lia]). split_and!.
  - apply Z.bits_inj'. intros i Hi. unfold not_w, VAS_MAG_STATE_MASK. zbits_norm. replace (Z.testbit 3 i) with (i <? 2) by (change 3 with (Z.ones 2); symmetry; by apply Z.testbit_ones_nonneg).
    rewrite (proj2 (Z.leb_le 0 i)) by done. destruct (Z.ltb_spec i 64); [|rewrite (testbit_small 64 (q * 2 ^ 12) i) by (done || lia); by rewrite andb_false_r].
    destruct (Z.ltb_spec i 2); [by rewrite Hlow, andb_false_r by lia|]. rewrite Hhigh by lia. by rewrite orb_false_r, andb_true_r.
  - apply Z.bits_inj'. intros i Hi. rewrite Z.land_spec, Z.lor_spec. replace (Z.testbit VAS_MAG_STATE_MASK i) with (i <? 2) by (change VAS_MAG_STATE_MASK with (Z.ones 2); symmetry; by apply Z.testbit_ones_nonneg). destruct (Z.ltb_spec i 2); [by rewrite Hlow, andb_true_r by lia|]. by rewrite Hhigh, andb_false_r by lia.
  - intros E%Z.lor_eq_0_iff. lia.
Qed.
Lemma token_inj x y st st' : 0 <= x < 2 ^ 64 -> (PAGE_SIZE | x) -> 0 < st < 4 -> 0 <= y < 2 ^ 64 -> (PAGE_SIZE | y) -> 0 < st' < 4 -> vas_token_make x st = vas_token_make y st' -> x = y /\ st = st'.
Proof. intros X1 X2 X3 Y1 Y2 Y3 E. destruct (token_bits x st X1 X2 X3) as (A1 & A2 & _), (token_bits y st' Y1 Y2 Y3) as (B1 & B2 & _). rewrite E in A1, A2. split; congruence. Qed.

(** ** Slots *)

Definition slot_at (ms : list vas_magazine) (cls i : nat) : option vas_mag_slot := m ← ms !! cls; slots m !! i.
Definition set_slot (ms : list vas_magazine) (cls i : nat) (x : vas_mag_slot) : list vas_magazine :=
  match ms !! cls with Some m => <[cls := mkMag (<[i := x]> (slots m)) (recent m)]> ms | None => ms end.
Lemma slot_at_set ms cls i x y : slot_at ms cls i = Some y -> slot_at (set_slot ms cls i x) cls i = Some x.
Proof.
  unfold slot_at, set_slot. destruct (ms !! cls) as [m|] eqn:Em; cbn; [|done]. intros Hy. rewrite list_lookup_insert_eq by (by eapply lookup_lt_Some). cbn. apply list_lookup_insert_eq. by eapply lookup_lt_Some.
Qed.
Lemma slot_at_set_ne ms cls i x cls' i' : (cls, i) <> (cls', i') -> slot_at (set_slot ms cls i x) cls' i' = slot_at ms cls' i'.
Proof.
  unfold slot_at, set_slot. destruct (ms !! cls) as [m|] eqn:Em; cbn; [|done]. intros Hne. destruct (decide (cls = cls')) as [<-|Hc]; [|by rewrite list_lookup_insert_ne].
  rewrite list_lookup_insert_eq by (by eapply lookup_lt_Some). cbn. rewrite Em. cbn. apply list_lookup_insert_ne. congruence.
Qed.
Lemma set_slot_shape ms cls i x : length (set_slot ms cls i x) = length ms /\ forall c m', set_slot ms cls i x !! c = Some m' -> exists m, ms !! c = Some m /\ length (slots m') = length (slots m).
Proof.
  unfold set_slot. destruct (ms !! cls) as [m|] eqn:Em; [|split; [done|]; intros c m' Hm; by exists m']. rewrite length_insert. split; [done|]. intros c m' Hm. destruct (decide (cls = c)) as [<-|Hc].
  - rewrite list_lookup_insert_eq in Hm by (by eapply lookup_lt_Some). injection Hm as <-. exists m. split; [done|]. cbn. by rewrite length_insert.
  - rewrite list_lookup_insert_ne in Hm by done. by exists m'.
Qed.
Lemma set_slot_twice ms cls i x y : set_slot (set_slot ms cls i x) cls i y = set_slot ms cls i y.
Proof.
  unfold set_slot. destruct (ms !! cls) as [m|] eqn:Em; [|by rewrite Em]. rewrite list_lookup_insert_eq by (by eapply lookup_lt_Some). cbn. by rewrite !list_insert_insert_eq.
Qed.

(** ** The segments of a list *)

Definition live_in (L : segments) (x n : Z) : Prop := exists p s, (p, s) ∈ L /\ type s = VAS_SEG_BUSY /\ start s = x /\ slen s = n.
(** The lengths of the segments in slots. *)
Definition slot_len (s : vas_segment) : Z := if mag_slot s then slen s else 0.
Definition slot_sum (L : segments) : Z := foldr (fun x n => slot_len x.2 + n) 0 L.
Lemma slot_sum_app L1 L2 : slot_sum (L1 ++ L2) = slot_sum L1 + slot_sum L2.
Proof. unfold slot_sum. induction L1 as [|x L1 IH]; cbn; [done|]. rewrite IH. lia. Qed.
Lemma slot_sum_cons x L : slot_sum (x :: L) = slot_len x.2 + slot_sum L.
Proof. done. Qed.
(** A free segment is in no slot. *)
Definition free_plain (L : segments) : Prop := forall p s, (p, s) ∈ L -> type s = VAS_SEG_FREE -> mag_slot s = None.
Definition within (s t : vas_segment) : Prop := start t <= start s /\ start s + slen s <= start t + slen t /\ span_start s = span_start t.

Lemma elem_mid {A} (x y : A) l1 l2 : x ∈ l1 ++ y :: l2 <-> x = y \/ x ∈ l1 ++ l2.
Proof. rewrite !elem_of_app, elem_of_cons. tauto. Qed.
Lemma piece_elem x st len span q t : piece x st len span -> (q, t) ∈ x -> t = mkSeg st len span VAS_SEG_FREE None /\ 0 < len.
Proof. intros [[_ ->]|(Hl & q' & ->)]; [by intros ?%elem_of_nil|]. by intros [= -> ->]%list_elem_of_singleton. Qed.
(** What a cut leaves. *)
Lemma cut_elem L1 L2 p s size align L' q t : cut L1 L2 p s size align L' -> fits size align s -> 0 < size -> (q, t) ∈ L' <-> (q, t) ∈ L1 ++ L2 \/ (q, t) = (p, cut_seg s size align) \/ ((q, t) ∈ L' /\ type t = VAS_SEG_FREE /\ mag_slot t = None /\ within t s).
Proof.
  intros (ls & rs & Hl & Hr & ->) [F1 F2] Hsz. pose proof (seg_pad_nonneg s align) as Hpad. split; [|rewrite !elem_of_app, elem_of_cons, elem_of_app; tauto]. intros Hq. pose proof Hq as Hq0.
  rewrite !elem_of_app, elem_of_cons, elem_of_app in Hq. rewrite elem_of_app. destruct Hq as [?|[Hq|[?|[Hq|?]]]]; [by left; left| |by right; left| |by left; right]; right; right; (split; [done|]).
  - destruct (piece_elem _ _ _ _ _ _ Hl Hq) as [-> ?]. split_and!; [done..|]. split_and!; cbn; lia.
  - destruct (piece_elem _ _ _ _ _ _ Hr Hq) as [-> ?]. unfold tail_of in *. split_and!; [done..|]. split_and!; cbn; lia.
Qed.
Lemma cut_live L1 L2 p s size align L' x n : cut L1 L2 p s size align L' -> type s = VAS_SEG_FREE -> fits size align s -> 0 < size -> live_in L' x n <-> live_in (L1 ++ (p, s) :: L2) x n \/ (x = start s + seg_pad s align /\ n = size).
Proof.
  intros Hc Hty Hf Hsz. unfold live_in. split.
  - intros (q & t & Hq & Ht & <- & <-). apply (cut_elem _ _ _ _ _ _ _ q t Hc Hf Hsz) in Hq as [Hq|[[= -> ->]|(_ & Hq & _)]]; [left; exists q, t; split; [apply elem_mid; by right|done]|by right|congruence].
  - intros [(q & t & Hq & Ht & <- & <-)|[-> ->]]; [|exists p, (cut_seg s size align); split; [apply (cut_elem _ _ _ _ _ _ _ _ _ Hc Hf Hsz); right; by left|done]].
    apply elem_mid in Hq as [[= -> ->]|Hq]; [congruence|]. exists q, t. split; [apply (cut_elem _ _ _ _ _ _ _ _ _ Hc Hf Hsz); by left|done].
Qed.
(** A free segment made of neighbours of [s] in [L] and itself. *)
Definition grown (L : segments) (s t : vas_segment) : Prop := type t = VAS_SEG_FREE /\ mag_slot t = None /\ span_start t = span_start s /\
  (exists q u, (q, u) ∈ L /\ span_start u = span_start s /\ start t = start u) /\ (exists q u, (q, u) ∈ L /\ span_start u = span_start s /\ start t + slen t = start u + slen u).
Lemma released_elem L1 p s L2 L' : segs_ok (L1 ++ (p, s) :: L2) -> free_plain (L1 ++ L2) -> mag_slot s = None -> released L1 p s L2 L' ->
  (forall q t, (q, t) ∈ L' -> (q, t) ∈ L1 ++ L2 \/ grown (L1 ++ (p, s) :: L2) s t) /\ (forall q t, (q, t) ∈ L1 ++ L2 -> type t <> VAS_SEG_FREE -> (q, t) ∈ L').
Proof.
  intros HS Hfp Hm (K & q & t & t' & L2' & Hl & Hr & ->). assert ((p, s) ∈ L1 ++ (p, s) :: L2) as Hin by (apply elem_mid; by left).
  assert (segs_ok (L1 ++ (p, freed s) :: L2)) as HS0 by (apply segs_ok_mid; by apply segs_ok_mid in HS).
  assert (segs_ok (K ++ (q, t) :: L2) /\ grown (L1 ++ (p, s) :: L2) s t /\ start t + slen t = start s + slen s /\ (forall x, x ∈ K -> x ∈ L1) /\ forall x y, (x, y) ∈ L1 -> type y <> VAS_SEG_FREE -> (x, y) ∈ K) as (HS1 & Hg & Hend & K1 & K2).
  { destruct Hl as [(-> & -> & -> & _)|(l & -> & Hmm & ->)]; [split_and!; [done| |done..]; split_and!; try done; by exists p, s|]. rewrite <- app_assoc in HS0. destruct (absorb_ok _ _ _ _ _ _ HS0 Hmm) as (HS1 & Tl & _ & _).
    pose proof HS0 as [_ Ho]. pose proof (Ho q l ltac:(apply elem_mid; by left)) as Hol. pose proof (Ho p (freed s) ltac:(apply elem_mid; right; apply elem_mid; by left)) as Hos. apply segs_ok_mid in HS0 as (_ & _ & _ & Hb). specialize (Hb p (freed s) (list_elem_of_here _ _)).
    apply mergeable_spec in Hmm as (_ & _ & Hsp & Hst); [|done..]. cbn [start slen span_start freed] in *. split_and!; [done| |cbn; lia|intros x Hx; apply elem_of_app; by left|].
    - assert (mag_slot l = None) as Hml by (apply (Hfp q l); [rewrite !elem_of_app; left; right; by left|done]). split_and!; [done|done|done| |]; [exists q, l|exists p, s]; (split_and!; [|done|cbn; lia]); apply elem_mid; [right; rewrite !elem_of_app; left; right; by left|by left].
    - intros x y [Hx|[= -> ->]%list_elem_of_singleton]%elem_of_app Hy; [done|congruence]. }
  destruct Hr as [(-> & -> & _)|(r & n & -> & Hmm & ->)].
  - split.
    + intros x y [[= -> ->]|Hx]%elem_mid; [by right|left]. rewrite elem_of_app in *. destruct Hx as [Hx|Hx]; [left; by apply K1|by right].
    + intros x y Hx Hy. apply elem_mid. right. rewrite elem_of_app in *. destruct Hx as [Hx|Hx]; [left; by apply K2|by right].
  - destruct (absorb_ok _ _ _ _ _ _ HS1 Hmm) as (_ & _ & Tn & _). pose proof HS1 as [_ Ho]. pose proof (Ho q t ltac:(apply elem_mid; by left)) as Hot. pose proof (Ho r n ltac:(apply elem_mid; right; apply elem_mid; by left)) as Hon. apply segs_ok_mid in HS1 as (_ & _ & _ & Hb). specialize (Hb r n (list_elem_of_here _ _)).
    apply mergeable_spec in Hmm as (_ & _ & Hsp & Hst); [|done..]. destruct Hg as (G1 & G2 & G3 & G4 & G5). split.
    + intros x y [[= -> ->]|Hx]%elem_mid; [right|left; rewrite elem_of_app, elem_of_cons in *; destruct Hx as [Hx|Hx]; [left; by apply K1|tauto]]. split_and!; [done|done|done|done|].
      exists r, n. split_and!; [rewrite elem_of_app, !elem_of_cons; tauto|congruence|cbn; lia].
    + intros x y Hx Hy. apply elem_mid. right. rewrite elem_of_app, elem_of_cons in *. destruct Hx as [Hx|[[= -> ->]|Hx]]; [left; by apply K2|congruence|by right].
Qed.
Lemma released_live L1 p s L2 L' x n : segs_ok (L1 ++ (p, s) :: L2) -> free_plain (L1 ++ L2) -> mag_slot s = None -> released L1 p s L2 L' -> live_in L' x n <-> live_in (L1 ++ L2) x n.
Proof.
  intros HS Hf Hm Hr. destruct (released_elem _ _ _ _ _ HS Hf Hm Hr) as [E1 E2]. split; intros (q & t & Hq & Ht & Hx).
  - apply E1 in Hq as [Hq|(Hq & _)]; [by exists q, t|congruence].
  - exists q, t. split; [|done]. apply E2; [done|]. by rewrite Ht.
Qed.
(** The extent of a segment that is handed out belongs to it alone. *)
Lemma live_without L1 p s L2 x n : segs_ok (L1 ++ (p, s) :: L2) -> type s = VAS_SEG_BUSY -> live_in (L1 ++ L2) x n <-> live_in (L1 ++ (p, s) :: L2) x n /\ x <> start s.
Proof.
  intros HS Hs. pose proof (segs_ok_skip _ _ _ HS) as [_ Ho]. apply segs_ok_mid in HS as (_ & (_ & Hpos & _) & Hl & Hr). split.
  - intros (q & t & Hq & Ht & <- & <-). split; [exists q, t; split; [apply elem_mid; by right|done]|]. destruct (Ho q t Hq) as (_ & ? & _). apply elem_of_app in Hq as [Hq|Hq]; [specialize (Hl q t Hq)|specialize (Hr q t Hq)]; lia.
  - intros [(q & t & Hq & Ht & <- & <-) Hne]. apply elem_mid in Hq as [[= -> ->]|Hq]; [done|]. by exists q, t.
Qed.
Lemma live_with L1 p s L2 x n : type s = VAS_SEG_BUSY -> live_in (L1 ++ (p, s) :: L2) x n <-> live_in (L1 ++ L2) x n \/ (x = start s /\ n = slen s).
Proof.
  intros Hs. unfold live_in. setoid_rewrite elem_mid. split.
  - intros (q & t & [[= -> ->]|Hq] & Ht & <- & <-); [by right|left; by exists q, t].
  - intros [(q & t & Hq & Hx)|[-> ->]]; [exists q, t; tauto|exists p, s; tauto].
Qed.
Lemma live_other L1 p s L2 x n : type s <> VAS_SEG_BUSY -> live_in (L1 ++ (p, s) :: L2) x n <-> live_in (L1 ++ L2) x n.
Proof.
  intros Hs. unfold live_in. setoid_rewrite elem_mid. split; [|naive_solver]. intros (q & t & [[= -> ->]|Hq] & Ht & Hx); [congruence|by exists q, t].
Qed.
Lemma cut_slots L1 L2 p s size align L' : cut L1 L2 p s size align L' -> mag_slot s = None -> slot_sum L' = slot_sum (L1 ++ (p, s) :: L2).
Proof.
  intros (ls & rs & Hl & Hr & ->) Hm. rewrite !slot_sum_app, !slot_sum_cons, slot_sum_app. assert (forall x st len span, piece x st len span -> slot_sum x = 0) as Hp by (by intros x st len span [[_ ->]|(_ & q & ->)]).
  rewrite (Hp _ _ _ _ Hl), (Hp _ _ _ _ Hr). unfold slot_len. cbn. by rewrite Hm.
Qed.
Lemma released_slots L1 p s L2 L' : released L1 p s L2 L' -> free_plain (L1 ++ L2) -> mag_slot s = None -> slot_sum L' = slot_sum (L1 ++ (p, s) :: L2).
Proof.
  intros (K & q & t & t' & L2' & Hl & Hr & ->) Hf Hm. assert (slot_sum K = slot_sum L1 /\ mag_slot t = None) as [E1 Ht].
  { destruct Hl as [(-> & -> & -> & _)|(l & -> & Hmm & ->)]; [done|]. apply mergeable_free in Hmm as [Hl _]. assert (mag_slot l = None) as Hml by (apply (Hf q l); [rewrite !elem_of_app; left; right; by left|done]).
    rewrite slot_sum_app, slot_sum_cons. unfold slot_len at 1. cbn. rewrite Hml. split; [lia|done]. }
  assert (slot_sum L2' = slot_sum L2 /\ mag_slot t' = None) as [E2 Ht'].
  { destruct Hr as [(-> & -> & _)|(r & n & -> & Hmm & ->)]; [done|]. apply mergeable_free in Hmm as [_ Hn]. assert (mag_slot n = None) as Hmn by (apply (Hf r n); [apply elem_of_app; right; by left|done]).
    rewrite slot_sum_cons. unfold slot_len at 1. cbn. rewrite Hmn. split; [lia|done]. }
  rewrite !slot_sum_app, !slot_sum_cons, E1, E2. unfold slot_len. cbn [snd]. by rewrite Ht', Hm.
Qed.

(** ** Chunks *)

(** The lengths of the segments of one span. *)
Definition span_len (c : Z) (s : vas_segment) : Z := if span_start s =? c then slen s else 0.
Definition span_sum (c : Z) (L : segments) : Z := foldr (fun x n => span_len c x.2 + n) 0 L.
Lemma span_sum_app c L1 L2 : span_sum c (L1 ++ L2) = span_sum c L1 + span_sum c L2.
Proof. unfold span_sum. induction L1 as [|x L1 IH]; cbn; [done|]. rewrite IH. lia. Qed.
Lemma span_sum_cons c x L : span_sum c (x :: L) = span_len c x.2 + span_sum c L.
Proof. done. Qed.
(** No two neighbours are left that could be one. *)
Definition merged (L : segments) : Prop := forall K1 x y K2, L = K1 ++ x :: y :: K2 -> segments_mergeable x.2 y.2 = false.
Lemma merged_app L1 L2 : merged (L1 ++ L2) <-> merged L1 /\ merged L2 /\ forall K1 x y K2, L1 = K1 ++ [x] -> L2 = y :: K2 -> segments_mergeable x.2 y.2 = false.
Proof.
  split.
  - intros H. split_and!; [intros K1 x y K2 ->; apply (H K1 x y (K2 ++ L2)); by rewrite <- !app_assoc|intros K1 x y K2 ->; apply (H (L1 ++ K1) x y K2); by rewrite <- app_assoc|]. intros K1 x y K2 -> ->. apply (H K1 x y K2). by rewrite <- app_assoc.
  - intros (H1 & H2 & H3) K1 x y K2 E. apply app_eq_inv in E as [(k & -> & E)|(k & -> & ->)]; [|by apply (H2 k x y K2)]. destruct k as [|x' k]; [rewrite app_nil_r in *; cbn in E; subst L2; by apply (H2 [] x y K2)|]. injection E as <- E.
    destruct k as [|y' k]; [cbn in E; subst L2; by apply (H3 K1 x y K2)|]. injection E as <- ->. by apply (H1 K1 x y k).
Qed.
Lemma merged_nil : merged [].
Proof. intros [|? ?] x y K2; done. Qed.
Lemma merged_one x : merged [x].
Proof. intros [|? [|? ?]] y z K2; done. Qed.
Lemma used_l x y : type x <> VAS_SEG_FREE -> segments_mergeable x y = false.
Proof. intros H. unfold segments_mergeable. by rewrite bool_decide_false. Qed.
Lemma used_r x y : type y <> VAS_SEG_FREE -> segments_mergeable x y = false.
Proof. intros H. unfold segments_mergeable. rewrite (bool_decide_false (type y = _)) by done. by rewrite andb_false_r. Qed.
(** A segment and its neighbours. *)
Lemma merged_mid L1 p s L2 : merged (L1 ++ (p, s) :: L2) <-> merged L1 /\ merged L2 /\ (forall K x, L1 = K ++ [x] -> segments_mergeable x.2 s = false) /\ (forall y K, L2 = y :: K -> segments_mergeable s y.2 = false).
Proof.
  rewrite (cons_middle (p, s)), !merged_app. split.
  - intros (H1 & (_ & H2 & H3) & H4). split_and!; [done|done|intros K x E; by apply (H4 K x (p, s) L2)|]. intros y K ->. by apply (H3 [] (p, s) y K).
  - intros (H1 & H2 & H3 & H4). split_and!; [done|apply merged_one|done| |].
    + intros K1 x y K2 E ->. destruct K1 as [|? [|? ?]]; try done. injection E as <-. by apply (H4 y K2).
    + intros K1 x y K2 E [= <- _]. by apply (H3 K1 x).
Qed.
(** A segment in use in the place of another. *)
Lemma merged_put L1 p s s' L2 : merged (L1 ++ (p, s) :: L2) -> type s' <> VAS_SEG_FREE -> merged (L1 ++ (p, s') :: L2).
Proof. rewrite !merged_mid. intros (H1 & H2 & _ & _) Hs. split_and!; [done|done|intros; by apply used_r|intros; by apply used_l]. Qed.
Lemma piece_merged x st len span : piece x st len span -> merged x.
Proof. intros [[_ ->]|(_ & q & ->)]; [apply merged_nil|apply merged_one]. Qed.
Lemma piece_span x st len span c : piece x st len span -> span_sum c x = if span =? c then len else 0.
Proof. intros [[-> ->]|(_ & q & ->)]; cbn; unfold span_len; cbn; destruct (span =? c); cbn; lia. Qed.
(** Only the start of the right segment and the end of the left one matter. *)
Lemma mergeable_start x s t : type s = type t -> start s = start t -> span_start s = span_start t -> segments_mergeable x s = segments_mergeable x t.
Proof. intros E1 E2 E3. unfold segments_mergeable. by rewrite E1, E2, E3. Qed.
Lemma mergeable_end s t y : seg_ok s -> seg_ok t -> seg_ok y -> start s + slen s = start t + slen t -> start t + slen t <= start y -> type s = type t -> span_start s = span_start t -> segments_mergeable s y = segments_mergeable t y.
Proof.
  intros (? & ? & ?) (? & ? & ?) (? & ? & ?) E1 Hb E2 E3. unfold segments_mergeable. rewrite E2, E3. f_equal. rewrite !wrap_small by (unfold in_u; lia). destruct (Z.eqb_spec (slen s) (start y - start s)), (Z.eqb_spec (slen t) (start y - start t)); lia.
Qed.
Lemma cut_merged L1 L2 p s size align L' : segs_ok (L1 ++ (p, s) :: L2) -> type s = VAS_SEG_FREE -> fits size align s -> 0 < size -> cut L1 L2 p s size align L' -> merged (L1 ++ (p, s) :: L2) -> merged L'.
Proof.
  intros HS Hty Hf Hsz Hcut. pose proof (cut_ok _ _ _ _ _ _ _ HS Hf Hsz Hcut) as HS'. destruct Hcut as (ls & rs & Hl & Hr & ->). rewrite !merged_mid. intros (H1 & H2 & H3 & H4). pose proof (proj2 HS) as Ho. pose proof (proj2 HS') as Ho'. pose proof (proj1 (segs_ok_mid _ _ _ _) HS) as (_ & Hs & _ & Hbr).
  rewrite (app_assoc L1). apply merged_mid. split_and!.
  - apply merged_app. split_and!; [done|by eapply piece_merged|]. intros K1 x y K2 E1 E2. destruct Hl as [[_ ->]|(_ & q & ->)]; [done|]. injection E2 as <- _. rewrite (mergeable_start _ _ s) by done. by eapply H3.
  - apply merged_app. split_and!; [by eapply piece_merged|done|]. intros K1 x [q t] K2 E1 ->. destruct Hr as [[_ ->]|(Hpos & r & ->)]; [by destruct K1|]. destruct K1 as [|? [|? ?]]; try done. injection E1 as <-. rewrite (mergeable_end _ s); [by eapply (H4 (q, t))|..]; try done.
    + apply (Ho' r). rewrite !elem_of_app, elem_of_cons, elem_of_app. right; right; right; left. by left.
    + apply (Ho q), elem_mid. right. apply elem_of_app. right. by left.
    + cbn. unfold tail_of. lia.
    + apply (Hbr q). by left.
  - intros; by apply used_r.
  - intros; by apply used_l.
Qed.
Lemma cut_span c L1 L2 p s size align L' : cut L1 L2 p s size align L' -> span_sum c L' = span_sum c (L1 ++ (p, s) :: L2).
Proof.
  intros (ls & rs & Hl & Hr & ->). rewrite !span_sum_app, !span_sum_cons, span_sum_app, (piece_span _ _ _ _ _ Hl), (piece_span _ _ _ _ _ Hr). unfold span_len, tail_of. cbn. destruct (span_start s =? c); lia.
Qed.
Lemma released_span c L1 p s L2 L' : released L1 p s L2 L' -> span_sum c L' = span_sum c (L1 ++ (p, s) :: L2).
Proof.
  intros (K & q & t & t' & L2' & Hl & Hr & ->). assert (forall l r, segments_mergeable l r = true -> span_start l = span_start r) as Hsp by (intros l r; unfold segments_mergeable; intros [[_ ?%Z.eqb_eq]%andb_true_iff _]%andb_true_iff; done).
  assert (span_sum c K + span_len c t = span_sum c L1 + span_len c s) as E1.
  { destruct Hl as [(-> & -> & -> & _)|(l & -> & Hm%Hsp & ->)]; [done|]. rewrite span_sum_app, span_sum_cons. unfold span_len. cbn in *. rewrite <- Hm. destruct (span_start l =? c); lia. }
  assert (span_len c t' + span_sum c L2' = span_len c t + span_sum c L2) as E2.
  { destruct Hr as [(-> & -> & _)|(r & n & -> & Hm%Hsp & ->)]; [done|]. rewrite span_sum_cons. unfold span_len. cbn in *. rewrite <- Hm. destruct (span_start t =? c); lia. }
  rewrite !span_sum_app, !span_sum_cons. cbn [snd]. lia.
Qed.
Lemma released_merged L1 p s L2 L' : segs_ok (L1 ++ (p, s) :: L2) -> merged (L1 ++ (p, s) :: L2) -> released L1 p s L2 L' -> merged L'.
Proof.
  intros HS (H1 & H2 & _ & _)%merged_mid (K & q & t & t' & L2' & Hl & Hr & ->). assert (segs_ok (L1 ++ (p, freed s) :: L2)) as HS0 by (apply segs_ok_mid; by apply segs_ok_mid in HS).
  assert (segs_ok (K ++ (q, t) :: L2) /\ merged K /\ (forall K' x, K = K' ++ [x] -> segments_mergeable x.2 t = false) /\ type t = VAS_SEG_FREE) as (HS1 & M1 & M2 & Ht).
  { destruct Hl as [(-> & -> & -> & Hn)|(l & -> & Hm & ->)]; [done|]. rewrite <- app_assoc in HS0. destruct (absorb_ok _ _ _ _ _ _ HS0 Hm) as (HS1 & Tl & _). apply (merged_mid K q l []) in H1 as (M1 & _ & M2 & _). split_and!; [done|done| |done].
    intros K' x E. rewrite (mergeable_start _ _ l) by done. by eapply M2. }
  destruct Hr as [(-> & -> & Hn)|(r & n & -> & Hm & ->)]; [apply merged_mid; by split_and!|]. destruct (absorb_ok _ _ _ _ _ _ HS1 Hm) as (HS2 & _ & Tn & _). apply (merged_mid [] r n L2') in H2 as (_ & M3 & _ & M4). apply merged_mid. split_and!; [done|done| |].
  - intros K' x E. rewrite (mergeable_start _ _ t) by done. by eapply M2.
  - intros [y u] K' ->. pose proof HS1 as [_ Ho]. pose proof HS2 as [_ Ho2]. assert (seg_ok t) as Ot by (apply (Ho q), elem_mid; by left). assert (seg_ok n) as On by (apply (Ho r), elem_mid; right; apply elem_mid; by left). assert (seg_ok u) as Ou by (apply (Ho2 y), elem_mid; right; apply elem_of_app; right; by left).
    assert (seg_ok (absorb t n)) as Oa by (apply (Ho2 q), elem_mid; by left). apply segs_ok_mid in HS1 as (HS1 & _ & _ & Hb1). specialize (Hb1 r n (list_elem_of_here _ _)). apply segs_ok_mid in HS1 as (_ & _ & _ & Hb2). specialize (Hb2 y u (list_elem_of_here _ _)).
    apply mergeable_spec in Hm as (_ & _ & Hsp & Hst); [|done..]. cbn [snd]. rewrite (mergeable_end _ n); [by apply (M4 (y, u) K')|done|done|done|cbn; lia|done|cbn; congruence|done].
Qed.

(** ** The arena of a CPU *)

Definition cap_of (cls : nat) : nat := Z.to_nat (default 0 (mag_caps !! cls)).
(** A slot in use. *)
Definition enrolled (L : segments) (cls i : nat) (x : vas_mag_slot) : Prop := exists s, (segment x, s) ∈ L /\ mag_slot s = Some (cls, i) /\ mag_sizes !! cls = Some (slen s) /\ (i < cap_of cls)%nat /\ (PAGE_SIZE | start s) /\
  ((token x = vas_token_make (start s) VAS_MAG_LIVE /\ type s = VAS_SEG_BUSY) \/ (token x = vas_token_make (start s) VAS_MAG_CACHED /\ type s = VAS_SEG_CACHED)).
Record mag_ok (ms : list vas_magazine) (L : segments) : Prop := mkMagOk {
  mo_len : length ms = 4%nat;
  mo_mag : forall cls m, ms !! cls = Some m -> length (slots m) = 16%nat;
  mo_slot : forall cls i x, slot_at ms cls i = Some x -> token x = 0 \/ enrolled L cls i x;
  mo_seg : forall p s cls i, (p, s) ∈ L -> mag_slot s = Some (cls, i) -> exists x, slot_at ms cls i = Some x /\ token x <> 0 /\ segment x = p;
}.
Lemma mag_ok_ext ms L L' : (forall p s, mag_slot s <> None -> (p, s) ∈ L <-> (p, s) ∈ L') -> mag_ok ms L -> mag_ok ms L'.
Proof.
  intros E [H1 H2 H3 H4]. split; [done|done| |].
  - intros cls i x Hx. destruct (H3 cls i x Hx) as [?|(s & Hs & Hm & Hr)]; [by left|right]. exists s. split; [apply E; [by rewrite Hm|done]|done].
  - intros p s cls i Hp Hm. eapply H4; [|done]. apply E; [by rewrite Hm|done].
Qed.
Lemma mag_slot_at ms L cls i : mag_ok ms L -> (cls < 4)%nat -> (i < 16)%nat -> exists x, slot_at ms cls i = Some x.
Proof.
  intros [H1 H2 _ _] Hc Hi. destruct (lookup_lt_is_Some_2 ms cls) as [m Hm]; [lia|]. destruct (lookup_lt_is_Some_2 (slots m) i) as [x Hx]; [rewrite (H2 cls m Hm); lia|]. exists x. unfold slot_at. rewrite Hm. cbn. done.
Qed.
Lemma cap_small cls : (cap_of cls <= 16)%nat.
Proof. by do 5 (destruct cls as [|cls]; [vm_compute; lia|]); vm_compute; lia. Qed.

(** [own] says which chunks are the CPU's. *)
Definition loc_seg (own : Z -> Prop) (s : vas_segment) : Prop :=
  (type s = VAS_SEG_FREE -> mag_slot s = None) /\ (type s = VAS_SEG_CACHED -> mag_slot s <> None) /\ type s <> VAS_SEG_IMPORTED /\
  span_start s <= start s /\ start s + slen s <= span_start s + VAS_CHUNK_SIZE /\ own (span_start s).

(** The segments of a chunk fill it. *)
Definition packed (own : Z -> Prop) (L : segments) : Prop := merged L /\ forall c, own c -> span_sum c L = VAS_CHUNK_SIZE.

Section Local.
Context {F : Type} `{!ObjAlloc F}.
Context (DEBUG_RBT DEBUG_RBT_DEEP DEBUG_LOCK_CHK : bool).
Implicit Types (a : @vas_arena F) (s : vas_segment) (ms : list vas_magazine) (L : segments).

Definition local_ok (own : Z -> Prop) a L ms : Prop := arena_ok a L ms /\ mag_ok ms L /\ (forall p s, (p, s) ∈ L -> loc_seg own s) /\ packed own L.

Lemma local_plain own a L ms : local_ok own a L ms -> free_plain L.
Proof. intros (_ & _ & H & _) p s Hp Hs. by apply (H p s). Qed.
Lemma packed_put own L1 p s s' L2 : packed own (L1 ++ (p, s) :: L2) -> type s' <> VAS_SEG_FREE -> span_start s' = span_start s -> slen s' = slen s -> packed own (L1 ++ (p, s') :: L2).
Proof.
  intros [H1 H2] Hty E1 E2. split; [by eapply merged_put|]. intros c Hc. rewrite <- (H2 c Hc), !span_sum_app, !span_sum_cons. unfold span_len. cbn. by rewrite E1, E2.
Qed.
Lemma plain_skip L1 x L2 : free_plain (L1 ++ x :: L2) -> free_plain (L1 ++ L2).
Proof. intros H p s Hp. apply (H p s), elem_mid. by right. Qed.
(** The extents handed out, and one more. *)
Definition one_more L L' (x n : Z) : Prop := (forall y m, live_in L' y m <-> live_in L y m \/ (y = x /\ m = n)) /\ forall m, ~ live_in L x m.
Definition one_less L L' (x n : Z) : Prop := (forall y m, live_in L' y m <-> live_in L y m /\ y <> x) /\ live_in L x n.

Lemma fits_aligned s size k : 0 <= k < 64 -> (2 ^ k | start (cut_seg s size (2 ^ k))).
Proof.
  intros Hk. cbn. rewrite seg_pad_mod by done. assert (0 < 2 ^ k) by (apply Z.pow_pos_nonneg; lia). apply Z.mod_divide; [lia|]. rewrite Zplus_mod_idemp_r. by rewrite Z.add_opp_diag_r.
Qed.
Lemma cut_live_new L1 p s L2 size align L' : segs_ok (L1 ++ (p, s) :: L2) -> type s = VAS_SEG_FREE -> fits size align s -> 0 < size -> cut L1 L2 p s size align L' -> one_more (L1 ++ (p, s) :: L2) L' (start s + seg_pad s align) size.
Proof.
  intros HS Hty Hf Hsz Hc. split; [intros y m; by eapply cut_live|]. intros m (q & t & Hq & Ht & Hx & _). apply elem_mid in Hq as [[= -> ->]|Hq]; [congruence|]. pose proof (segs_ok_skip _ _ _ HS) as [_ Ho]. destruct (Ho q t Hq) as (? & ? & ?).
  apply segs_ok_mid in HS as (_ & (? & ? & ?) & Hl & Hr). destruct Hf as [F1 F2]. pose proof (seg_pad_nonneg s align). apply elem_of_app in Hq as [Hq|Hq]; [specialize (Hl q t Hq)|specialize (Hr q t Hq)]; lia.
Qed.
Lemma local_alloc own a L ms size k : local_ok own a L ms -> 0 < size < 2 ^ 64 -> 0 <= k < 64 -> exists a' r failed, arena_alloc DEBUG_RBT DEBUG_RBT_DEEP DEBUG_LOCK_CHK a size (2 ^ k) = Ok (a', r, failed) /\
  ((r = 0 /\ local_ok own a' L ms /\ (failed = false -> forall p s, (p, s) ∈ L -> type s = VAS_SEG_FREE -> ~ fits size (2 ^ k) s)) \/
   (ok_addr r /\ failed = false /\ exists K1 s K2, let L' := K1 ++ (r, s) :: K2 in local_ok own a' L' ms /\ type s = VAS_SEG_BUSY /\ mag_slot s = None /\ slen s = size /\ (2 ^ k | start s) /\ one_more L L' (start s) size /\ slot_sum L' = slot_sum L)).
Proof.
  intros (H & Hm & Hs & Hpk) Hsz Hk. destruct (arena_alloc_ok DEBUG_RBT DEBUG_RBT_DEEP DEBUG_LOCK_CHK a L ms size (2 ^ k) H Hsz) as (a' & r & failed & E & [(-> & H' & Hno)|(Hok & -> & L1 & s & L2 & L' & -> & Hty & Hf & Hcut & H')]); do 3 eexists; (split; [done|]); [left; by split_and!|right].
  split; [done|]. split; [done|]. pose proof (Hs r s ltac:(apply elem_mid; by left)) as (P1 & P2 & P3 & P4 & P5 & P6). pose proof Hcut as (ls & rs & Hls & Hrs & EL). pose proof (fun q t => cut_elem L1 L2 r s size (2 ^ k) L' q t Hcut Hf ltac:(lia)) as Hel.
  pose proof (seg_pad_nonneg s (2 ^ k)) as Hpad. pose proof Hf as [F1 F2]. exists (L1 ++ ls), (cut_seg s size (2 ^ k)), (rs ++ L2). rewrite <- app_assoc, <- EL. split_and!; [|done|by apply P1|done|by apply fits_aligned|apply cut_live_new; [apply H|done|done|lia|done]|eapply cut_slots; [done|by apply P1]].
  split_and!; [done| | |split; [eapply cut_merged; try done; [apply H|lia|apply Hpk]|intros c Hc; rewrite (cut_span c _ _ _ _ _ _ _ Hcut); by apply Hpk]].
  - eapply mag_ok_ext; [|exact Hm]. intros q t Hmt. rewrite Hel, elem_mid. split; [intros [[= -> ->]|Hq]; [by rewrite P1 in Hmt|by left]|]. intros [Hq|[[= -> ->]|(_ & _ & Hq & _)]]; [by right| |done]. cbn in Hmt. by rewrite P1 in Hmt.
  - intros q t [Hq|[[= -> ->]|(_ & T1 & T2 & W1 & W2 & W3)]]%Hel; [apply (Hs q t), elem_mid; by right| |].
    + split_and!; cbn; try done; lia.
    + unfold loc_seg. rewrite T1, T2, W3. split_and!; try done; lia.
Qed.

(** A segment in use changes its type or its slot. *)
Lemma arena_put a L1 p s s' L2 ms : arena_ok a (L1 ++ (p, s) :: L2) ms -> type s <> VAS_SEG_FREE -> type s' <> VAS_SEG_FREE -> start s' = start s -> slen s' = slen s -> arena_ok (put_seg a p s') (L1 ++ (p, s') :: L2) ms.
Proof.
  intros [H HS] T1 T2 E1 E2. split.
  - assert (p ∉ (L1 ++ L2).*1) as Hp by (destruct H as (_ & H & _); by apply nodup_skip in H as [_ ?]). apply (lst_skip _ _ _ _ _ _ _ _ _ _ T1) in H. apply (lst_put_in _ _ _ _ s') in H. apply lst_unskip; [done|done|].
    replace (free_sum (L1 ++ (p, s') :: L2)) with (free_sum (L1 ++ (p, s) :: L2)) by (rewrite !free_sum_app, !free_sum_cons; cbn [snd]; by rewrite !free_len_used by done). by rewrite fmap_app, fmap_cons in *.
  - apply segs_ok_mid in HS as (A1 & (A2 & A3 & A4) & A5 & A6). apply segs_ok_mid. split_and!; [done|split_and!; lia|intros q t Hq; rewrite E1; by apply (A5 q t)|intros q t Hq; rewrite E1, E2; by apply (A6 q t)].
Qed.
Lemma arena_mags a L ms ms' : arena_ok a L ms -> arena_ok (with_mags a ms') L ms'.
Proof. intros [H HS]. split; [by eapply lst_with_mags|done]. Qed.
Lemma arena_magazines a L ms : arena_ok a L ms -> magazines a = ms.
Proof. intros [(_ & _ & H) _]. apply H. Qed.

Lemma get_slot_ok a L ms cls i x : arena_ok a L ms -> slot_at ms cls i = Some x -> get_slot a cls i = Ok x.
Proof. intros H Hx. unfold get_slot. rewrite (arena_magazines _ _ _ H). unfold slot_at in Hx. destruct (ms !! cls) as [m|]; [|done]. cbn in *. by rewrite Hx. Qed.
Lemma put_slot_ok a L ms cls i x y : arena_ok a L ms -> slot_at ms cls i = Some x -> exists a', put_slot a cls i y = Ok a' /\ arena_ok a' L (set_slot ms cls i y) /\ segs a' = segs a.
Proof.
  intros H Hx. unfold put_slot. rewrite (arena_magazines _ _ _ H). unfold slot_at in Hx. destruct (ms !! cls) as [m|] eqn:Em; [|done]. cbn. eexists. split; [done|]. split; [|done]. unfold set_slot. rewrite Em. by eapply arena_mags.
Qed.
(** A claim of the token that the slot has succeeds. *)
Lemma claim_ok a L ms cls i x : arena_ok a L ms -> slot_at ms cls i = Some x -> exists a' t, magazine_claim a cls i (token x) = Ok (a', true) /\ arena_ok a' L (set_slot ms cls i (mkSlot t (segment x))).
Proof.
  intros H Hx. unfold magazine_claim. rewrite (get_slot_ok _ _ _ _ _ _ H Hx), bind_Ok, Z.eqb_refl. destruct (put_slot_ok a L ms cls i x (mkSlot (Z.lor (token_addr (token x)) VAS_MAG_CLAIMED) (segment x)) H Hx) as (a' & -> & H' & _). rewrite bind_Ok. by do 2 eexists.
Qed.
Definition mag_type (state : Z) : vas_segment_type := if state =? VAS_MAG_LIVE then VAS_SEG_BUSY else VAS_SEG_CACHED.
Definition retyped s ty : vas_segment := mkSeg (start s) (slen s) (span_start s) ty (mag_slot s).
Lemma publish_ok a L1 p s L2 ms cls i x state : arena_ok a (L1 ++ (p, s) :: L2) ms -> type s <> VAS_SEG_FREE -> slot_at ms cls i = Some x -> segment x = p -> exists a', magazine_publish a cls i state = Ok a' /\
  arena_ok a' (L1 ++ (p, retyped s (mag_type state)) :: L2) (set_slot ms cls i (mkSlot (vas_token_make (start s) state) p)).
Proof.
  intros H Hty Hx <-. unfold magazine_publish, set_type. assert ((segment x, s) ∈ L1 ++ (segment x, s) :: L2) as Hin by (apply elem_mid; by left). rewrite (get_slot_ok _ _ _ _ _ _ H Hx), bind_Ok, (arena_seg _ _ _ _ _ H Hin), !bind_Ok.
  fold (mag_type state). fold (retyped s (mag_type state)). assert (mag_type state <> VAS_SEG_FREE) as Hmt by (unfold mag_type; by destruct (_ =? _)).
  assert (arena_ok (put_seg a (segment x) (retyped s (mag_type state))) (L1 ++ (segment x, retyped s (mag_type state)) :: L2) ms) as H1 by (by eapply arena_put). destruct (put_slot_ok _ _ _ _ _ _ (mkSlot (vas_token_make (start s) state) (segment x)) H1 Hx) as (a' & E & H' & _). by exists a'.
Qed.
(** A slot is given a segment and a token. *)
Lemma mag_ok_set ms L1 p s s' L2 cls i x state : mag_ok ms (L1 ++ (p, s) :: L2) -> slot_at ms cls i = Some x -> mag_slot s' = Some (cls, i) -> mag_sizes !! cls = Some (slen s') -> (i < cap_of cls)%nat -> (PAGE_SIZE | start s') -> 0 <= start s' < 2 ^ 64 ->
  (state = VAS_MAG_LIVE \/ state = VAS_MAG_CACHED) -> type s' = mag_type state -> NoDup (L1 ++ (p, s) :: L2).*1 -> (mag_slot s = Some (cls, i) \/ (token x = 0 /\ mag_slot s = None)) ->
  mag_ok (set_slot ms cls i (mkSlot (vas_token_make (start s') state) p)) (L1 ++ (p, s') :: L2).
Proof.
  intros [H1 H2 H3 H4] Hx Hm Hsz Hi Hal Hst Hstate Hty Hnd Hold. destruct (set_slot_shape ms cls i (mkSlot (vas_token_make (start s') state) p)) as [N1 N2]. destruct (nodup_skip _ _ _ Hnd) as [_ Hp]. cbn [fst] in Hp.
  assert (forall q t, (q, t) ∈ L1 ++ L2 -> mag_slot t <> Some (cls, i)) as Hother.
  { intros q t Hq Ht. destruct (H4 q t cls i) as (y & Hy & Hy0 & Hyq); [apply elem_mid; by right|done|]. replace y with x in * by congruence. destruct Hold as [Hold|[Hold _]]; [|done].
    destruct (H4 p s cls i) as (y' & Hy' & _ & Hyp); [apply elem_mid; by left|done|]. replace y' with x in * by congruence. apply Hp, in_fst. exists t. congruence. }
  split; [congruence|intros c m Hc; destruct (N2 c m Hc) as (m' & Hm' & ->); by eapply H2| |].
  - intros c j y Hy. destruct (decide ((cls, i) = (c, j))) as [[= <- <-]|Hne].
    + rewrite (slot_at_set _ _ _ _ _ Hx) in Hy. injection Hy as <-. right. exists s'. split_and!; [apply elem_mid; by left|done|done|done|done|]. cbn. rewrite Hty. destruct Hstate as [->| ->]; [left|right]; done.
    + rewrite slot_at_set_ne in Hy by done. destruct (H3 c j y Hy) as [?|(t & Ht & Htm & Hr)]; [by left|right]. exists t. split; [|done]. apply elem_mid in Ht as [[= Hq ->]|Ht]; [|apply elem_mid; by right]. exfalso. destruct Hold as [?|[_ ?]]; congruence.
  - intros q t c j Hq Ht. apply elem_mid in Hq as [[= -> ->]|Hq].
    + rewrite Hm in Ht. injection Ht as <- <-. eexists. split; [by eapply slot_at_set|]. split; [|done]. cbn. apply token_bits; [done|done|]. destruct Hstate as [->| ->]; unfold VAS_MAG_LIVE, VAS_MAG_CACHED; lia.
    + rewrite slot_at_set_ne; [by apply (H4 q t c j); [apply elem_mid; by right|]|]. intros [= <- <-]. by apply (Hother q t).
Qed.

(** *** Handing out a cached segment and taking it back *)

Lemma reissue_ok own a L1 p s L2 ms cls i x state : local_ok own a (L1 ++ (p, s) :: L2) ms -> slot_at ms cls i = Some x -> segment x = p -> mag_slot s = Some (cls, i) -> mag_sizes !! cls = Some (slen s) -> (i < cap_of cls)%nat -> (PAGE_SIZE | start s) ->
  type s = VAS_SEG_BUSY \/ type s = VAS_SEG_CACHED -> (state = VAS_MAG_LIVE \/ state = VAS_MAG_CACHED) ->
  exists a1 a' ms', magazine_claim a cls i (token x) = Ok (a1, true) /\ magazine_publish a1 cls i state = Ok a' /\ local_ok own a' (L1 ++ (p, retyped s (mag_type state)) :: L2) ms' /\ slot_sum (L1 ++ (p, retyped s (mag_type state)) :: L2) = slot_sum (L1 ++ (p, s) :: L2).
Proof.
  intros (H & Hm & Hs & Hpk) Hx Hp Hms Hsz Hi Hal Hty Hstate. destruct (claim_ok a _ ms cls i x H Hx) as (a1 & t & E1 & H1). pose proof (slot_at_set ms cls i (mkSlot t (segment x)) x Hx) as Hx1.
  destruct (publish_ok a1 L1 p s L2 _ cls i _ state H1 ltac:(destruct Hty; congruence) Hx1 Hp) as (a' & E2 & H2). rewrite set_slot_twice in H2. eexists a1, a', _. split_and!; [done|done| |].
  - assert (mag_type state <> VAS_SEG_FREE) as Hmt by (unfold mag_type; by destruct (_ =? _)). split_and!; [exact H2| | |by eapply packed_put].
    + destruct H as [Hl [_ Ho]]. destruct (Ho p s) as (? & ? & ?); [apply elem_mid; by left|]. eapply (mag_ok_set ms L1 p s (retyped s (mag_type state))); cbn; try done; [lia|apply Hl|by left].
    + intros q u [[= -> ->]|Hq]%elem_mid; [|apply (Hs q u), elem_mid; by right]. destruct (Hs p s ltac:(apply elem_mid; by left)) as (P1 & P2 & P3 & P4 & P5 & P6). split_and!; try done; cbn; [by rewrite Hms|unfold mag_type; by destruct (_ =? _)].
  - rewrite !slot_sum_app, !slot_sum_cons. done.
Qed.
Lemma cap_class cls cap : mag_caps !! cls = Some cap -> (cls < 4)%nat /\ 0 < cap <= 16 /\ cap_of cls = Z.to_nat cap.
Proof. unfold cap_of. intros H. rewrite H. cbn. split; [by apply lookup_lt_Some in H|]. split; [|done]. do 4 (destruct cls as [|cls]; [cbn in H; unfold VAS_MAG_CAPACITY in H; injection H as <-; lia|]). done. Qed.
Lemma aligned_iff x k : 0 <= k -> exists b, IS_ALIGNED x (2 ^ k) = Ok b /\ (b = true <-> (2 ^ k | x)).
Proof.
  intros Hk. unfold IS_ALIGNED. rewrite IS_POW2_pow, land_pred_pow2 by done. cbn [enforce]. rewrite bind_Ok. eexists. split; [done|]. assert (0 < 2 ^ k) by (apply Z.pow_pos_nonneg; lia). by rewrite Z.eqb_eq, Z.mod_divide by lia.
Qed.
Lemma mag_alloc_scan_ok own a L ms cls cap rec k l : local_ok own a L ms -> mag_caps !! cls = Some cap -> 0 <= k < 64 -> exists a' r, mag_alloc_scan a cls cap rec (2 ^ k) l = Ok (a', r) /\
  ((r = 0 /\ a' = a) \/ (0 < r /\ (2 ^ k | r) /\ exists L' ms' size, mag_sizes !! cls = Some size /\ local_ok own a' L' ms' /\ one_more L L' r size /\ slot_sum L' = slot_sum L)).
Proof.
  intros H Hcap Hk. destruct (cap_class cls cap Hcap) as (Hc & Hcr & Hco). induction l as [|n l IH]; cbn [mag_alloc_scan]; [exists a, 0; split; [done|by left]|]. set (i := Z.to_nat (u32 (rec + n) mod cap)).
  assert (i < 16)%nat as Hi16 by (pose proof (Z.mod_pos_bound (u32 (rec + n)) cap ltac:(lia)); lia). pose proof H as (Ha & Hm & Hs & Hpk). destruct (mag_slot_at ms L cls i Hm Hc Hi16) as [x Hx]. rewrite (get_slot_ok _ _ _ _ _ _ Ha Hx), bind_Ok. destruct (aligned_iff (token_addr (token x)) k ltac:(lia)) as (b & -> & Hb). rewrite bind_Ok.
  destruct (_ || _) eqn:Eb; [exact IH|]. apply orb_false_iff in Eb as [Eb1%negb_false_iff Eb2%negb_false_iff]. apply Z.eqb_eq in Eb1. apply Hb in Eb2. clear Hb.
  destruct (mo_slot _ _ Hm cls i x Hx) as [Hz|(s & Hin & Hms & Hsz & Hi & Hal & Hst)]; [by rewrite Hz in Eb1|]. pose proof Ha as [Hl [_ Ho]]. destruct (Ho _ _ Hin) as (O1 & O2 & O3).
  destruct Hst as [[Ht _]|[Ht Hty]]; [rewrite Ht in Eb1; destruct (token_bits (start s) VAS_MAG_LIVE) as (_ & B & _); [lia|done|done|]; rewrite B in Eb1; done|].
  destruct (token_bits (start s) VAS_MAG_CACHED) as (B1 & _ & _); [lia|done|done|]. rewrite Ht, B1 in *. destruct (list_elem_of_split _ _ Hin) as (L1 & L2 & ->).
  destruct (reissue_ok own a L1 (segment x) s L2 ms cls i x VAS_MAG_LIVE H Hx eq_refl Hms Hsz Hi Hal ltac:(by right) ltac:(by left)) as (a1 & a' & ms' & E1 & E2 & H' & Hsum). rewrite Ht in E1. rewrite E1, bind_Ok. cbn [negb]. rewrite E2, bind_Ok.
  exists a', (start s). split; [done|right]. split_and!; [lia|done|]. eexists _, ms', (slen s). split_and!; [done|exact H'| |done].
  assert (type (retyped s (mag_type VAS_MAG_LIVE)) = VAS_SEG_BUSY) as Hb by done. split; [intros y m; rewrite (live_with _ _ _ _ _ _ Hb), (live_other _ _ s) by congruence; done|]. intros m Hlive.
  destruct H' as ([_ HS'] & _). apply (live_without _ _ _ _ (start s) m) in HS'; [|done]. apply live_other in Hlive; [|congruence]. by apply HS' in Hlive as [_ ?].
Qed.
Lemma magazine_alloc_ok own a L ms cls k : local_ok own a L ms -> (cls < 4)%nat -> 0 <= k < 64 -> exists a' r, magazine_alloc a cls (2 ^ k) = Ok (a', r) /\
  ((r = 0 /\ a' = a) \/ (0 < r /\ (2 ^ k | r) /\ exists L' ms' size, mag_sizes !! cls = Some size /\ local_ok own a' L' ms' /\ one_more L L' r size /\ slot_sum L' = slot_sum L)).
Proof.
  intros H Hc Hk. unfold magazine_alloc. destruct (lookup_lt_is_Some_2 mag_caps cls) as [cap Hcap]; [done|]. rewrite Hcap. cbn [deref]. rewrite bind_Ok, (arena_magazines _ _ _ (proj1 H)). destruct (lookup_lt_is_Some_2 ms cls) as [m ->]; [rewrite (mo_len _ _ (proj1 (proj2 H))); lia|]. cbn [deref]. rewrite bind_Ok.
  by eapply mag_alloc_scan_ok.
Qed.

Lemma mag_ok_recent ms L cls m n : mag_ok ms L -> ms !! cls = Some m -> mag_ok (<[cls := mkMag (slots m) n]> ms) L.
Proof.
  intros [H1 H2 H3 H4] Hm. assert (forall c i, slot_at (<[cls := mkMag (slots m) n]> ms) c i = slot_at ms c i) as Hs.
  { intros c i. unfold slot_at. destruct (decide (cls = c)) as [<-|Hc]; [by rewrite list_lookup_insert_eq, Hm by (by eapply lookup_lt_Some)|by rewrite list_lookup_insert_ne]. }
  split; [by rewrite length_insert| |intros c i x; rewrite Hs; apply H3|intros p s c i; rewrite Hs; apply H4].
  intros c m' Hc. destruct (decide (cls = c)) as [<-|Hne]; [rewrite list_lookup_insert_eq in Hc by (by eapply lookup_lt_Some); injection Hc as <-; by apply (H2 cls m)|rewrite list_lookup_insert_ne in Hc by done; by eapply H2].
Qed.
Lemma mag_free_scan_ok own a L ms cls cap ad l : local_ok own a L ms -> mag_caps !! cls = Some cap -> in_u 64 ad -> (PAGE_SIZE | ad) -> (forall n, n ∈ l -> 0 <= n < cap) -> exists a' b, mag_free_scan a cls ad l = Ok (a', b) /\
  ((b = false /\ a' = a /\ forall n x, n ∈ l -> slot_at ms cls (Z.to_nat n) = Some x -> token x <> vas_token_make ad VAS_MAG_LIVE) \/
   (b = true /\ exists L' ms' size, mag_sizes !! cls = Some size /\ local_ok own a' L' ms' /\ one_less L L' ad size /\ slot_sum L' = slot_sum L)).
Proof.
  intros H Hcap Had Hal Hl. destruct (cap_class cls cap Hcap) as (Hc & Hcr & Hco). induction l as [|n l IH]; cbn [mag_free_scan]; [exists a, false; split; [done|left]; split_and!; [done|done|]; by intros n x ?%elem_of_nil|].
  pose proof (Hl n (list_elem_of_here _ _)) as Hn. pose proof H as (Ha & Hm & Hs & Hpk). destruct (mag_slot_at ms L cls (Z.to_nat n) Hm Hc ltac:(lia)) as [x Hx]. rewrite (get_slot_ok _ _ _ _ _ _ Ha Hx), bind_Ok.
  destruct (Z.eqb_spec (token x) (vas_token_make ad VAS_MAG_LIVE)) as [Ht|Ht]; cbn [negb].
  2: { destruct IH as (a' & b & -> & Hr); [intros m Hmm; apply Hl; by right|]. exists a', b. split; [done|]. destruct Hr as [(-> & -> & Hr)|?]; [left|by right]. split_and!; [done|done|]. intros m y [->|Hmm]%elem_of_cons Hy; [congruence|by eapply Hr]. }
  destruct (token_bits ad VAS_MAG_LIVE) as (_ & Hb2 & Hb3); [done|done|done|]. destruct (mo_slot _ _ Hm cls _ x Hx) as [Hz|(s & Hin & Hms & Hsz & Hi & Hals & Hst)]; [congruence|].
  pose proof Ha as [_ [_ Ho]]. destruct (Ho _ _ Hin) as (O1 & O2 & O3). destruct Hst as [[Ht' Hty]|[Ht' Hty]]; rewrite Ht in Ht'; apply token_inj in Ht' as [E1 E2]; try done; try lia. subst ad.
  destruct (list_elem_of_split _ _ Hin) as (L1 & L2 & ->). destruct (reissue_ok own a L1 (segment x) s L2 ms cls (Z.to_nat n) x VAS_MAG_CACHED H Hx eq_refl Hms Hsz Hi Hals ltac:(by left) ltac:(by right)) as (a1 & a' & ms' & E1 & E2' & H' & Hsum).
  rewrite Ht in E1. rewrite E1, bind_Ok. cbn [negb]. rewrite E2', bind_Ok. pose proof H' as (Ha' & Hm' & Hs' & Hpk'). rewrite (arena_magazines _ _ _ Ha'). destruct (lookup_lt_is_Some_2 ms' cls) as [m Hmm]; [rewrite (mo_len _ _ Hm'); lia|]. rewrite Hmm. cbn [deref]. rewrite bind_Ok.
  do 2 eexists. split; [done|right]. split; [done|]. eexists _, (<[cls := mkMag (slots m) n]> ms'), (slen s). split_and!; [done| | |exact Hsum].
  - split_and!; [by eapply arena_mags|by apply mag_ok_recent|done|done].
  - split; [|exists (segment x), s; by split_and!]. intros y k. rewrite live_other by done. apply live_without; [apply Ha|done].
Qed.
Lemma magazine_free_ok own a L ms cls ad : local_ok own a L ms -> (cls < 4)%nat -> in_u 64 ad -> exists a' b, magazine_free a cls ad = Ok (a', b) /\
  ((b = false /\ a' = a) \/ (b = true /\ exists L' ms' size, mag_sizes !! cls = Some size /\ local_ok own a' L' ms' /\ one_less L L' ad size /\ slot_sum L' = slot_sum L)).
Proof.
  intros H Hc Had. unfold magazine_free. change PAGE_SIZE with (2 ^ 12). destruct (aligned_iff ad 12) as (b & -> & Hb); [done|]. rewrite bind_Ok. destruct b; cbn [negb]; [|exists a, false; split; [done|by left]].
  destruct (lookup_lt_is_Some_2 mag_caps cls) as [cap Hcap]; [done|]. rewrite Hcap. cbn [deref]. rewrite bind_Ok. destruct (cap_class cls cap Hcap) as (_ & Hcr & _).
  destruct (mag_free_scan_ok own a L ms cls cap ad (seqZ 0 cap) H Hcap Had) as (a' & b & E & Hr); [by apply Hb|intros n; rewrite elem_of_seqZ; lia|]. exists a', b. split; [done|]. destruct Hr as [(-> & -> & _)|?]; [by left|by right].
Qed.
End Local.
