(* ===== verification/VasLocal.v ===== *)
(** * The virtual address allocator: filling and draining magazines

    Putting segments into slots, refilling, releasing and draining, on the arena of a
    CPU.  [mag_reserved_bytes] moves with the lengths of the segments in slots and
    stays within its limit. *)

From stdpp Require Import sorting.
From S2P Require Import Prelude BitMath BuddyPage Rbt RbtShape RbtInv RbtWalk RbtInsert RbtDelete RbtApi FixedSize Vas VasArena VasOps VasMag.

Lemma slot_len_nonneg s : 0 <= slen s -> 0 <= slot_len s.
Proof. intros H. unfold slot_len. by destruct (mag_slot s). Qed.
Lemma slot_sum_nonneg L : (forall p s, (p, s) ∈ L -> 0 <= slen s) -> 0 <= slot_sum L.
Proof.
  induction L as [|[p s] L IH]; intros H; [done|]. rewrite slot_sum_cons. cbn [snd]. pose proof (slot_len_nonneg s (H p s (list_elem_of_here _ _))). pose proof (IH (fun q t Hq => H q t (list_elem_of_further _ _ _ Hq))). lia.
Qed.

Section Local.
Context {F : Type} `{!ObjAlloc F}.
Context (DEBUG_RBT DEBUG_RBT_DEEP DEBUG_LOCK_CHK : bool).
Implicit Types (a : @vas_arena F) (s : vas_segment) (ms : list vas_magazine) (L : segments).

(** The bytes reserved before and after, for the segments [L] that became [L']. *)
Definition accounted L (bytes : Z) L' (bytes' : Z) : Prop := bytes' - slot_sum L' = bytes - slot_sum L /\ 0 <= bytes' <= VAS_MAG_BYTE_LIMIT.

Lemma empty_slot_ok a L ms cls cap l : arena_ok a L ms -> mag_ok ms L -> mag_caps !! cls = Some cap -> (forall n, n ∈ l -> 0 <= n < cap) -> exists r, empty_slot a cls l = Ok r /\
  match r with Some i => (i < cap_of cls)%nat /\ exists x, slot_at ms cls i = Some x /\ token x = 0 | None => True end.
Proof.
  intros H Hm Hcap Hl. destruct (cap_class cls cap Hcap) as (Hc & Hcr & Hco). induction l as [|n l IH]; cbn [empty_slot]; [by exists None|]. pose proof (Hl n (list_elem_of_here _ _)) as Hn.
  destruct (mag_slot_at ms L cls (Z.to_nat n) Hm Hc ltac:(lia)) as [x Hx]. rewrite (get_slot_ok _ _ _ _ _ _ H Hx), bind_Ok. destruct (Z.eqb_spec (token x) 0) as [Ht|Ht]; [|apply IH; intros m Hmm; apply Hl; by right].
  eexists. split; [done|]. split; [lia|by exists x].
Qed.
Lemma enroll_ok own bytes a L1 p s L2 ms cls state : local_ok own a (L1 ++ (p, s) :: L2) ms -> type s = VAS_SEG_BUSY -> mag_slot s = None -> mag_sizes !! cls = Some (slen s) -> (state = VAS_MAG_LIVE \/ state = VAS_MAG_CACHED) -> 0 <= bytes <= VAS_MAG_BYTE_LIMIT ->
  exists bytes' a' ok, magazine_enroll bytes a p cls state = Ok (bytes', a', ok) /\
  ((ok = false /\ bytes' = bytes /\ a' = a) \/ (ok = true /\ exists s' ms', type s' = mag_type state /\ start s' = start s /\ slen s' = slen s /\ local_ok own a' (L1 ++ (p, s') :: L2) ms' /\ accounted (L1 ++ (p, s) :: L2) bytes (L1 ++ (p, s') :: L2) bytes')).
Proof.
  intros H Hty Hms Hsz Hstate Hby. pose proof H as (Ha & Hm & Hs & Hpk). assert ((p, s) ∈ L1 ++ (p, s) :: L2) as Hin by (apply elem_mid; by left). unfold magazine_enroll. rewrite (arena_seg _ _ _ _ _ Ha Hin), bind_Ok. change PAGE_SIZE with (2 ^ 12).
  destruct (aligned_iff (start s) 12) as (b & -> & Hb); [done|]. rewrite bind_Ok. destruct b; cbn [negb]; [|do 3 eexists; split; [done|by left]]. assert (cls < 4)%nat as Hc by (by apply lookup_lt_Some in Hsz).
  destruct (lookup_lt_is_Some_2 mag_caps cls) as [cap Hcap]; [done|]. rewrite Hcap. cbn [deref]. rewrite bind_Ok. destruct (cap_class cls cap Hcap) as (_ & Hcr & _).
  destruct (empty_slot_ok a _ ms cls cap (seqZ 0 cap) Ha Hm Hcap) as (r & -> & Hr); [intros n; rewrite elem_of_seqZ; lia|]. rewrite bind_Ok. destruct r as [i|]; [|do 3 eexists; split; [done|by left]]. destruct Hr as (Hi & x & Hx & Ht).
  pose proof Ha as [Hl [_ Ho]]. destruct (Ho p s Hin) as (O1 & O2 & O3). unfold VAS_MAG_BYTE_LIMIT in *. rewrite wrap_small by (unfold in_u; lia). destruct (Z.ltb_spec (8 * 2 ^ 20 - bytes) (slen s)) as [|Hfit]; [do 3 eexists; split; [done|by left]|].
  set (s1 := mkSeg (start s) (slen s) (span_start s) (type s) (Some (cls, i))). assert (arena_ok (put_seg a p s1) (L1 ++ (p, s1) :: L2) ms) as H1 by (eapply arena_put; cbn; try done; congruence).
  rewrite (get_slot_ok _ _ _ _ _ _ H1 Hx), bind_Ok. destruct (put_slot_ok _ _ _ _ _ _ (mkSlot (token x) p) H1 Hx) as (a2 & -> & H2 & _). rewrite bind_Ok.
  destruct (publish_ok a2 L1 p s1 L2 _ cls i _ state H2 ltac:(cbn; congruence) (slot_at_set _ _ _ _ _ Hx) eq_refl) as (a3 & -> & H3). rewrite bind_Ok, set_slot_twice in *. do 3 eexists. split; [done|right]. split; [done|].
  exists (retyped s1 (mag_type state)). eexists. split_and!; [done|done|done| |].
  - assert (mag_type state <> VAS_SEG_FREE) as Hmt by (unfold mag_type; by destruct (_ =? _)). split_and!; [exact H3| | |by eapply packed_put].
    + eapply (mag_ok_set ms L1 p s (retyped s1 (mag_type state))); cbn; try done; [by apply Hb|lia|apply Hl|right; by split].
    + intros q u [[= -> ->]|Hq]%elem_mid; [|apply (Hs q u), elem_mid; by right]. destruct (Hs p s Hin) as (P1 & P2 & P3 & P4 & P5 & P6). split_and!; try done; cbn; unfold mag_type; by destruct (_ =? _).
  - rewrite (wrap_small 64 (bytes + slen s)) by (unfold in_u; lia). split; [|unfold VAS_MAG_BYTE_LIMIT; lia]. rewrite !slot_sum_app, !slot_sum_cons. unfold slot_len. cbn. rewrite Hms. lia.
Qed.
Lemma local_release own a L1 p s L2 ms ms0 : arena_ok a (L1 ++ (p, s) :: L2) ms0 -> mag_ok ms (L1 ++ L2) -> (forall q t, (q, t) ∈ L1 ++ L2 -> loc_seg own t) -> span_start s <= start s /\ start s + slen s <= span_start s + VAS_CHUNK_SIZE /\ own (span_start s) -> type s <> VAS_SEG_FREE -> mag_slot s = None -> packed own (L1 ++ (p, s) :: L2) ->
  exists a' L', arena_release DEBUG_RBT DEBUG_RBT_DEEP a p = Ok a' /\ arena_ok a' L' ms0 /\ mag_ok ms L' /\ (forall q t, (q, t) ∈ L' -> loc_seg own t) /\ packed own L' /\ (forall x n, live_in L' x n <-> live_in (L1 ++ L2) x n) /\ slot_sum L' = slot_sum (L1 ++ L2).
Proof.
  intros Ha Hm Hs (R1 & R2 & R3) Hty Hms Hpk. destruct (arena_release_ok DEBUG_RBT DEBUG_RBT_DEEP a L1 p s L2 ms0 Ha Hty) as (a' & L' & E & Hrel & H'). assert (free_plain (L1 ++ L2)) as Hfp by (intros q t Hq Ht; by apply (Hs q t Hq)). pose proof (proj2 Ha) as HS.
  destruct (released_elem _ _ _ _ _ HS Hfp Hms Hrel) as [E1 E2]. exists a', L'. split_and!; [done|done| | |split; [eapply released_merged; try done; apply Hpk|intros c Hc; rewrite (released_span c _ _ _ _ _ Hrel); by apply Hpk]|intros x n; by eapply released_live|].
  - eapply mag_ok_ext; [|exact Hm]. intros q t Ht. split; [|intros [?|(_ & ? & _)]%E1; [done|congruence]]. intros Hq. apply E2; [done|]. intros Hf. by apply Ht, (Hfp q t).
  - assert (forall q u, (q, u) ∈ L1 ++ (p, s) :: L2 -> span_start u <= start u /\ start u + slen u <= span_start u + VAS_CHUNK_SIZE) as Hrange by (intros q u [[= -> ->]|Hq]%elem_mid; [done|by apply (Hs q u) in Hq as (_ & _ & _ & ? & ? & _)]).
    intros q t [Hq|(T1 & T2 & T3 & (q1 & u1 & G1 & G2 & G3) & (q2 & u2 & G4 & G5 & G6))]%E1; [by apply (Hs q)|]. apply Hrange in G1, G4. unfold loc_seg. rewrite T1, T2, T3. split_and!; try done; lia.
  - rewrite (released_slots _ _ _ _ _ Hrel Hfp Hms), !slot_sum_app, slot_sum_cons. unfold slot_len at 1. cbn. rewrite Hms. lia.
Qed.

Definition same_live L L' : Prop := forall x n, live_in L' x n <-> live_in L x n.
Lemma mag_ok_plain ms L1 p s L2 : mag_ok ms (L1 ++ (p, s) :: L2) -> mag_slot s = None -> mag_ok ms (L1 ++ L2).
Proof. intros H Hs. eapply mag_ok_ext; [|exact H]. intros q t Ht. rewrite elem_mid. split; [intros [[= -> ->]|?]; [congruence|done]|by right]. Qed.
Lemma mag_class_spec size : (mag_class size < 4)%nat -> mag_sizes !! mag_class size = Some size.
Proof. unfold mag_class. destruct (list_find _ mag_sizes) as [[i y]|] eqn:Ef; cbn [default from_option fmap option_fmap option_map fst id]; [|lia]. intros _. by apply list_find_Some in Ef as (Hi & -> & _). Qed.
Lemma mag_class_le size : (mag_class size <= 4)%nat.
Proof. unfold mag_class. destruct (list_find _ mag_sizes) as [[i y]|] eqn:Ef; cbn [default from_option fmap option_fmap option_map fst id]; [|lia]. apply list_find_Some in Ef as (Hi%lookup_lt_Some & _). cbn in Hi. lia. Qed.
Lemma size_class cls size : mag_sizes !! cls = Some size -> 0 < size < 2 ^ 64.
Proof. do 4 (destruct cls as [|cls]; [cbn; unfold PAGE_2MB, PAGE_SIZE; intros [= <-]; lia|]). done. Qed.
(** The segment just handed out goes back as it came. *)
Lemma unalloc L L1 p s L2 : segs_ok (L1 ++ (p, s) :: L2) -> type s = VAS_SEG_BUSY -> one_more L (L1 ++ (p, s) :: L2) (start s) (slen s) -> same_live L (L1 ++ L2).
Proof.
  intros HS Hty [O1 O2] x n. rewrite (live_without _ _ _ _ _ _ HS Hty), O1. split; [intros [[?|[-> _]] ?]; done|]. intros Hl. split; [by left|]. intros ->. by eapply O2.
Qed.

Lemma refill_loop_ok own cls size k : mag_sizes !! cls = Some size -> 0 <= k < 64 -> forall n bytes a L ms, local_ok own a L ms -> 0 <= bytes <= VAS_MAG_BYTE_LIMIT ->
  exists bytes' a' L' ms', refill_loop DEBUG_RBT DEBUG_RBT_DEEP DEBUG_LOCK_CHK n bytes a cls size (2 ^ k) = Ok (bytes', a') /\ local_ok own a' L' ms' /\ same_live L L' /\ accounted L bytes L' bytes'.
Proof.
  intros Hsz Hk. pose proof (size_class cls size Hsz) as Hsize. induction n as [|n IH]; intros bytes a L ms H Hby; cbn [refill_loop]; [by exists bytes, a, L, ms|].
  destruct (local_alloc DEBUG_RBT DEBUG_RBT_DEEP DEBUG_LOCK_CHK own a L ms size k H Hsize Hk) as (a1 & p & failed & -> & [(-> & H1 & _)|(Hok & -> & L1 & s & L2 & H1 & Hty & Hms & Hlen & _ & Hone & Hsum)]); rewrite bind_Ok; [by exists bytes, a1, L, ms|].
  rewrite ok_ne0 by done. subst size. pose proof H1 as (Ha1 & Hm1 & Hs1 & Hpk1). pose proof (unalloc _ _ _ _ _ (proj2 Ha1) Hty Hone) as Hun.
  destruct (enroll_ok own bytes a1 L1 p s L2 ms cls VAS_MAG_CACHED H1 Hty Hms Hsz ltac:(by right) Hby) as (by1 & a2 & ok & -> & [(-> & -> & ->)|(-> & s' & ms' & Hty' & Hst' & Hlen' & H2 & Hac)]); rewrite bind_Ok; cbn [negb].
  - destruct (local_release own a1 L1 p s L2 ms ms Ha1) as (a3 & L' & -> & R1 & R2 & R3 & Rpk & R4 & R5); [by eapply mag_ok_plain|intros q t Hq; apply (Hs1 q t), elem_mid; by right| |congruence|done|done|].
    { destruct (Hs1 p s ltac:(apply elem_mid; by left)) as (_ & _ & _ & ? & ? & ?). done. }
    rewrite bind_Ok. exists bytes, a3, L', ms. split_and!; [done|done| |].
    + intros x m. rewrite R4. apply Hun.
    + split; [|done]. rewrite R5, <- Hsum, !slot_sum_app, slot_sum_cons. unfold slot_len. cbn [snd]. rewrite Hms. lia.
  - destruct (IH by1 a2 _ ms' H2) as (by2 & a3 & L' & ms2 & -> & R1 & R2 & R3 & R4); [apply Hac|]. exists by2, a3, L', ms2. split_and!; [done|done| |].
    + intros x m. rewrite (R2 x m), live_other; [apply Hun|by rewrite Hty'].
    + destruct Hac as [Hac _]. split; [lia|done].
Qed.
Lemma refill_ok own enabled bytes a L1 p s L2 ms k : local_ok own a (L1 ++ (p, s) :: L2) ms -> type s = VAS_SEG_BUSY -> mag_slot s = None -> 0 <= k < 64 -> 0 <= bytes <= VAS_MAG_BYTE_LIMIT ->
  exists bytes' a' L' ms', magazine_refill DEBUG_RBT DEBUG_RBT_DEEP DEBUG_LOCK_CHK enabled bytes a p (2 ^ k) = Ok (bytes', a') /\ local_ok own a' L' ms' /\ same_live (L1 ++ (p, s) :: L2) L' /\ accounted (L1 ++ (p, s) :: L2) bytes L' bytes'.
Proof.
  intros H Hty Hms Hk Hby. unfold magazine_refill. destruct enabled; cbn [negb]; [|by exists bytes, a, (L1 ++ (p, s) :: L2), ms]. rewrite (arena_seg _ _ _ _ _ (proj1 H) (proj2 (elem_mid _ _ _ _) (or_introl eq_refl))), bind_Ok.
  destruct (Z.eqb_spec (Z.of_nat (mag_class (slen s))) VAS_MAG_CLASSES) as [|Hc]; [by exists bytes, a, (L1 ++ (p, s) :: L2), ms|]. assert (mag_sizes !! mag_class (slen s) = Some (slen s)) as Hsz.
  { apply mag_class_spec. pose proof (mag_class_le (slen s)). unfold VAS_MAG_CLASSES in Hc. lia. }
  set (cls := mag_class (slen s)) in *. clearbody cls. destruct (enroll_ok own bytes a L1 p s L2 ms cls VAS_MAG_LIVE H Hty Hms Hsz ltac:(by left) Hby) as (by1 & a1 & ok & -> & [(-> & -> & ->)|(-> & s' & ms' & Hty' & Hst' & Hlen' & H1 & Hac)]); rewrite bind_Ok; cbn [negb]; [by exists bytes, a, (L1 ++ (p, s) :: L2), ms|].
  destruct (lookup_lt_is_Some_2 mag_caps cls) as [cap ->]; [by apply lookup_lt_Some in Hsz|]. cbn [deref]. rewrite bind_Ok, Hsz. cbn [deref]. rewrite bind_Ok.
  destruct (refill_loop_ok own cls (slen s) k Hsz Hk (Z.to_nat (Z.min VAS_MAG_REFILL cap - 1)) by1 a1 _ ms' H1) as (by2 & a2 & L' & ms2 & E & R1 & R2 & R3 & R4); [apply Hac|]. exists by2, a2, L', ms2. split_and!; [done|done| |].
  - intros x n. rewrite (R2 x n), !live_with, Hst', Hlen' by done. done.
  - destruct Hac as [Hac _]. split; [lia|done].
Qed.

(** *** Releasing the segment of a slot *)

Lemma mag_ok_clear ms L1 p s L2 cls i x z : mag_ok ms (L1 ++ (p, s) :: L2) -> slot_at ms cls i = Some x -> segment x = p -> mag_slot s = Some (cls, i) -> NoDup (L1 ++ (p, s) :: L2).*1 -> mag_ok (set_slot ms cls i (mkSlot 0 z)) (L1 ++ L2).
Proof.
  intros [H1 H2 H3 H4] Hx Hp Hms Hnd. destruct (set_slot_shape ms cls i (mkSlot 0 z)) as [N1 N2]. destruct (nodup_skip _ _ _ Hnd) as [_ Hn]. cbn [fst] in Hn. split; [congruence|intros c m Hc; destruct (N2 c m Hc) as (m' & Hm' & ->); by eapply H2| |].
  - intros c j y Hy. destruct (decide ((cls, i) = (c, j))) as [[= <- <-]|Hne]; [rewrite (slot_at_set _ _ _ _ _ Hx) in Hy; injection Hy as <-; by left|]. rewrite slot_at_set_ne in Hy by done.
    destruct (H3 c j y Hy) as [?|(t & Ht & Htm & Hr)]; [by left|right]. exists t. split; [|done]. apply elem_mid in Ht as [[= _ ->]|Ht]; [congruence|done].
  - intros q t c j Hq Ht. rewrite slot_at_set_ne; [apply (H4 q t c j); [apply elem_mid; by right|done]|]. intros [= <- <-]. destruct (H4 q t cls i) as (y & Hy & _ & Hyq); [apply elem_mid; by right|done|]. apply Hn, in_fst. exists t. congruence.
Qed.
Lemma release_slot_ok own bytes a L ms cls i x : local_ok own a L ms -> slot_at ms cls i = Some x -> token x <> 0 -> slot_sum L <= bytes <= VAS_MAG_BYTE_LIMIT ->
  exists a1 bytes' a' L' ms' s, magazine_claim a cls i (token x) = Ok (a1, true) /\ magazine_release DEBUG_RBT DEBUG_RBT_DEEP bytes a1 cls i = Ok (bytes', a') /\ local_ok own a' L' ms' /\ accounted L bytes L' bytes' /\
  (segment x, s) ∈ L /\ mag_slot s = Some (cls, i) /\ (forall y n, live_in L' y n <-> live_in L y n /\ (type s = VAS_SEG_BUSY -> y <> start s)) /\
  (forall c j y, slot_at ms' c j = Some y -> token y = 0 \/ (slot_at ms c j = Some y /\ (c, j) <> (cls, i))).
Proof.
  intros (Ha & Hm & Hs & Hpk) Hx Ht Hby. destruct (mo_slot _ _ Hm cls i x Hx) as [?|(s & Hin & Hms & Hsz & Hi & Hal & Hst)]; [done|]. destruct (claim_ok a L ms cls i x Ha Hx) as (a1 & t & E1 & H1). set (p := segment x) in *.
  pose proof Ha as [Hl [_ Ho]]. destruct (Ho p s Hin) as (O1 & O2 & O3). destruct (Hs p s Hin) as (P1 & P2 & P3 & P4 & P5 & P6). assert (0 <= slot_sum L - slen s) as Hsum.
  { destruct (list_elem_of_split _ _ Hin) as (K1 & K2 & EL). assert (forall K, (forall y, y ∈ K -> y ∈ L) -> 0 <= slot_sum K) as Hpos by (intros K HK; apply slot_sum_nonneg; intros q u Hq%HK; destruct (Ho q u Hq); lia).
    pose proof (Hpos K1 ltac:(intros y Hy; rewrite EL, elem_of_app; tauto)). pose proof (Hpos K2 ltac:(intros y Hy; rewrite EL, elem_of_app, elem_of_cons; tauto)). rewrite EL, slot_sum_app, slot_sum_cons. unfold slot_len. cbn [snd]. rewrite Hms. lia. }
  destruct (list_elem_of_split _ _ Hin) as (L1 & L2 & ->). assert (type s <> VAS_SEG_FREE) as Hty by (destruct Hst as [[_ ?]|[_ ?]]; congruence). exists a1. unfold magazine_release.
  pose proof (slot_at_set ms cls i (mkSlot t p) x Hx) as Hx1. rewrite (get_slot_ok _ _ _ _ _ _ H1 Hx1), bind_Ok. cbn [segment]. rewrite (arena_seg _ _ _ _ _ H1 Hin), bind_Ok. set (s1 := mkSeg (start s) (slen s) (span_start s) (type s) None).
  assert (arena_ok (put_seg a1 p s1) (L1 ++ (p, s1) :: L2) (set_slot ms cls i (mkSlot t p))) as H2 by (by eapply arena_put). destruct (put_slot_ok _ _ _ _ _ _ (mkSlot (token (mkSlot t p)) 0) H2 Hx1) as (a2 & -> & H3 & _). rewrite bind_Ok, set_slot_twice in *. cbn [token] in H3.
  assert (mag_ok (set_slot ms cls i (mkSlot 0 0)) (L1 ++ L2)) as Hmo by (eapply mag_ok_clear; try done; apply Hl). assert (forall q u, (q, u) ∈ L1 ++ L2 -> loc_seg own u) as Hs' by (intros q u Hq; apply (Hs q u), elem_mid; by right).
  destruct (local_release own a2 L1 p s1 L2 _ _ H3 Hmo Hs') as (a3 & L' & -> & R1 & R2 & R3 & Rpk & R4 & R5); [done|done|done|by eapply packed_put|]. rewrite bind_Ok.
  pose proof (slot_at_set ms cls i (mkSlot t 0) x Hx) as Hx2. rewrite (get_slot_ok _ _ _ _ _ _ R1 Hx2), bind_Ok. cbn [segment]. destruct (put_slot_ok _ _ _ _ _ _ (mkSlot 0 0) R1 Hx2) as (a4 & -> & H4 & _). rewrite bind_Ok, set_slot_twice in *.
  do 4 eexists. exists s. split_and!; [done|done| | |done|done| |].
  - split_and!; [exact H4|exact R2|exact R3|exact Rpk].
  - unfold VAS_MAG_BYTE_LIMIT in *. rewrite slot_sum_app, slot_sum_cons in Hsum, Hby. unfold slot_len in Hsum, Hby. cbn [snd] in Hsum, Hby. rewrite Hms in Hsum, Hby. rewrite wrap_small by (unfold in_u; lia). unfold accounted, VAS_MAG_BYTE_LIMIT.
    rewrite R5, !slot_sum_app, slot_sum_cons. unfold slot_len. cbn [snd]. rewrite Hms. lia.
  - intros y n. rewrite R4. destruct Hst as [[_ Hb]|[_ Hb]].
    + rewrite (live_without L1 p s L2 y n) by (done || apply Ha). naive_solver.
    + rewrite (live_other L1 p s L2) by congruence. naive_solver congruence.
  - intros c j y Hy. destruct (decide ((cls, i) = (c, j))) as [[= <- <-]|Hne]; [rewrite (slot_at_set _ _ _ _ _ Hx) in Hy; injection Hy as <-; by left|]. rewrite slot_at_set_ne in Hy by done. right. split; [done|congruence].
Qed.

Lemma local_sum_nonneg own a L ms : local_ok own a L ms -> 0 <= slot_sum L.
Proof. intros ([_ [_ Ho]] & _). apply slot_sum_nonneg. intros p s Hp. destruct (Ho p s Hp) as (_ & ? & _). lia. Qed.
Lemma drain_slots_ok own l : forall bytes a L ms, local_ok own a L ms -> slot_sum L <= bytes <= VAS_MAG_BYTE_LIMIT -> (forall c i, (c, i) ∈ l -> (c < 4)%nat /\ (i < 16)%nat) ->
  exists bytes' a' L' ms', drain_slots DEBUG_RBT DEBUG_RBT_DEEP bytes a l = Ok (bytes', a') /\ local_ok own a' L' ms' /\ same_live L L' /\ accounted L bytes L' bytes' /\
  (forall c j y, slot_at ms' c j = Some y -> token y = 0 \/ (slot_at ms c j = Some y /\ ((c, j) ∈ l -> token_state (token y) <> VAS_MAG_CACHED))).
Proof.
  induction l as [|[c i] l IH]; intros bytes a L ms H Hby Hl; cbn [drain_slots].
  { exists bytes, a, L, ms. pose proof (local_sum_nonneg _ _ _ _ H). split_and!; [done|done|done|split; [done|lia]|]. intros c j y Hy. right. split; [done|by intros ?%elem_of_nil]. }
  destruct (Hl c i (list_elem_of_here _ _)) as [Hc Hi]. pose proof H as (Ha & Hm & _). destruct (mag_slot_at ms L c i Hm Hc Hi) as [x Hx]. rewrite (get_slot_ok _ _ _ _ _ _ Ha Hx), bind_Ok.
  assert (forall c i, (c, i) ∈ l -> (c < 4)%nat /\ (i < 16)%nat) as Hl' by (intros c' i' Hin; apply Hl; by right). destruct (Z.eqb_spec (token_state (token x)) VAS_MAG_CACHED) as [Hst|Hst]; cbn [negb].
  - assert (token x <> 0) as Ht by (intros E; by rewrite E in Hst). destruct (release_slot_ok own bytes a L ms c i x H Hx Ht Hby) as (a1 & by1 & a2 & L1 & ms1 & s & -> & E2 & H1 & Hac & Hin & Hms & Hlive & Hsl). rewrite bind_Ok. cbn [negb]. rewrite E2, bind_Ok.
    destruct (IH by1 a2 L1 ms1 H1) as (by2 & a3 & L2 & ms2 & E3 & R1 & R2 & R3 & R4); [destruct Hac; lia|done|]. exists by2, a3, L2, ms2. split_and!; [done|done| |destruct Hac, R3; split; [lia|done]|].
    + intros y n. rewrite (R2 y n), Hlive. split; [by intros [? _]|]. intros Hy. split; [done|]. intros Hb. exfalso. destruct (mo_slot _ _ Hm c i x Hx) as [?|(u & Hu & _ & _ & _ & Hal & Hu')]; [done|]. pose proof (nodup_fst L _ s u (arena_nodup _ _ _ Ha) Hin Hu) as <-.
      pose proof Ha as [_ [_ Ho]]. destruct (Ho _ _ Hin) as (? & ? & ?). destruct Hu' as [[Hu' _]|[_ ?]]; [|congruence]. rewrite Hu' in Hst. destruct (token_bits (start s) VAS_MAG_LIVE) as (_ & Hb2 & _); [lia|done|done|]. by rewrite Hb2 in Hst.
    + intros c' j y Hy. destruct (R4 c' j y Hy) as [?|[Hy1 Hy2]]; [by left|]. destruct (Hsl c' j y Hy1) as [?|[Hy3 Hne]]; [by left|right]. split; [done|]. intros [?|Hin']%elem_of_cons; [done|by apply Hy2].
  - destruct (IH bytes a L ms H Hby Hl') as (by2 & a3 & L2 & ms2 & E3 & R1 & R2 & R3 & R4). exists by2, a3, L2, ms2. split_and!; [done..|]. intros c' j y Hy. destruct (R4 c' j y Hy) as [?|[Hy1 Hy2]]; [by left|right]. split; [done|].
    intros [[= -> ->]|Hin']%elem_of_cons; [congruence|by apply Hy2].
Qed.
Lemma mag_slots_range c i : (c, i) ∈ mag_slots -> (c < 4)%nat /\ (i < 16)%nat.
Proof. assert (Forall (fun x => (x.1 < 4)%nat /\ (x.2 < 16)%nat) mag_slots) as H by (apply (bool_decide_unpack _); by vm_compute). rewrite list.Forall_forall in H. apply (H (c, i)). Qed.
Lemma mag_slots_all c i : (c < 4)%nat -> (i < cap_of c)%nat -> (c, i) ∈ mag_slots.
Proof.
  assert (Forall (fun c => Forall (fun i => (c, i) ∈ mag_slots) (seq 0 (cap_of c))) (seq 0 4)) as H by (apply (bool_decide_unpack _); by vm_compute). rewrite list.Forall_forall in H. intros Hc Hi. specialize (H c ltac:(apply elem_of_seq; lia)). rewrite list.Forall_forall in H. apply H, elem_of_seq. lia.
Qed.
(** After draining nothing is cached. *)
Lemma drain_ok own bytes a L ms : local_ok own a L ms -> slot_sum L <= bytes <= VAS_MAG_BYTE_LIMIT -> exists bytes' a' L' ms', magazine_drain DEBUG_RBT DEBUG_RBT_DEEP bytes a = Ok (bytes', a') /\ local_ok own a' L' ms' /\ same_live L L' /\ accounted L bytes L' bytes' /\
  forall p s, (p, s) ∈ L' -> type s <> VAS_SEG_CACHED.
Proof.
  intros H Hby. destruct (drain_slots_ok own mag_slots bytes a L ms H Hby mag_slots_range) as (by' & a' & L' & ms' & E & R1 & R2 & R3 & R4). exists by', a', L', ms'. split_and!; [done..|]. intros p s Hp Hty. pose proof R1 as (Ha & Hm & Hs & Hpk).
  destruct (Hs p s Hp) as (_ & P2 & _). destruct (mag_slot s) as [[c i]|] eqn:Ems; [|by apply P2]. destruct (mo_seg _ _ Hm p s c i Hp Ems) as (x & Hx & Ht & Hxp). destruct (mo_slot _ _ Hm c i x Hx) as [?|(u & Hu & _ & Hsz & Hi & Hal & Hu')]; [done|].
  rewrite Hxp in Hu. pose proof (nodup_fst L' _ s u (arena_nodup _ _ _ Ha) Hp Hu) as <-. destruct Hu' as [[_ ?]|[Htok _]]; [congruence|]. destruct (R4 c i x Hx) as [?|[_ Hn]]; [done|]. apply lookup_lt_Some in Hsz. apply Hn; [by apply mag_slots_all|].
  pose proof Ha as [_ [_ Ho]]. destruct (Ho _ _ Hp) as (? & ? & ?). rewrite Htok. apply token_bits; [lia|done|done].
Qed.
End Local.
