(* ===== verification/VasSpace.v ===== *)
(** * The virtual address allocator: the space

    The global arena, the arenas of the CPUs and the owners of the chunks together
    ([space_ok]): what importing a chunk, reclaiming chunks, allocating and freeing
    do to the extents that are handed out ([vlive]). *)

From stdpp Require Import sorting.
From S2P Require Import Prelude BitMath BuddyPage Rbt RbtShape RbtInv RbtWalk RbtInsert RbtDelete RbtApi FixedSize Vas VasArena VasOps VasMag VasLocal.

(** ** The global arena *)

Definition len_sum (L : segments) : Z := foldr (fun x n => slen x.2 + n) 0 L.
Lemma len_sum_app L1 L2 : len_sum (L1 ++ L2) = len_sum L1 + len_sum L2.
Proof. unfold len_sum. induction L1 as [|x L1 IH]; cbn; [done|]. rewrite IH. lia. Qed.
Lemma len_sum_cons x L : len_sum (x :: L) = slen x.2 + len_sum L.
Proof. done. Qed.
(** The chunk at [c] is imported. *)
Definition imported (G : segments) (c : Z) : Prop := exists p s, (p, s) ∈ G /\ type s = VAS_SEG_IMPORTED /\ start s = c.
Definition glob_seg (base limit : Z) (s : vas_segment) : Prop := mag_slot s = None /\ type s <> VAS_SEG_CACHED /\ base <= start s /\ start s + slen s <= limit /\
  (type s = VAS_SEG_IMPORTED -> slen s = VAS_CHUNK_SIZE /\ (VAS_CHUNK_SIZE | start s)).
Definition glob_ok (base limit : Z) (G : segments) : Prop := (forall p s, (p, s) ∈ G -> glob_seg base limit s) /\ len_sum G = limit - base.

Lemma piece_len x st len span : piece x st len span -> len_sum x = len.
Proof. intros [[-> ->]|(? & q & ->)]; [done|]. cbn. lia. Qed.
Lemma cut_len L1 L2 p s size align L' : cut L1 L2 p s size align L' -> len_sum L' = len_sum (L1 ++ (p, s) :: L2).
Proof. intros (ls & rs & Hl & Hr & ->). rewrite !len_sum_app, !len_sum_cons, len_sum_app, (piece_len _ _ _ _ Hl), (piece_len _ _ _ _ Hr). unfold tail_of. cbn. lia. Qed.
Lemma released_len L1 p s L2 L' : released L1 p s L2 L' -> len_sum L' = len_sum (L1 ++ (p, s) :: L2).
Proof.
  intros (K & q & t & t' & L2' & Hl & Hr & ->). assert (len_sum K + slen t = len_sum L1 + slen s) as E1 by (destruct Hl as [(-> & -> & -> & _)|(l & -> & _ & ->)]; [done|rewrite len_sum_app; cbn; lia]).
  assert (slen t' + len_sum L2' = slen t + len_sum L2) as E2 by (destruct Hr as [(-> & -> & _)|(r & n & -> & _ & ->)]; [done|rewrite len_sum_cons; cbn; lia]). rewrite !len_sum_app, !len_sum_cons. cbn [snd]. lia.
Qed.
Lemma glob_plain base limit G : glob_ok base limit G -> free_plain G.
Proof. intros [H _] p s Hp _. by apply (H p s). Qed.

Section Global.
Context {F : Type} `{!ObjAlloc F}.
Context (DEBUG_RBT DEBUG_RBT_DEEP DEBUG_LOCK_CHK : bool).
Implicit Types (a : @vas_arena F) (s : vas_segment) (ms : list vas_magazine) (L G : segments).

Lemma glob_alloc base limit a G ms size k : arena_ok a G ms -> glob_ok base limit G -> 0 < size < 2 ^ 64 -> 0 <= k < 64 -> exists a' r failed, arena_alloc DEBUG_RBT DEBUG_RBT_DEEP DEBUG_LOCK_CHK a size (2 ^ k) = Ok (a', r, failed) /\
  ((r = 0 /\ arena_ok a' G ms /\ (failed = false -> forall p s, (p, s) ∈ G -> type s = VAS_SEG_FREE -> ~ fits size (2 ^ k) s)) \/
   (ok_addr r /\ failed = false /\ exists K1 s K2, let G' := K1 ++ (r, s) :: K2 in arena_ok a' G' ms /\ glob_ok base limit G' /\ type s = VAS_SEG_BUSY /\ slen s = size /\ (2 ^ k | start s) /\ one_more G G' (start s) size /\ (forall c, imported G' c <-> imported G c))).
Proof.
  intros H Hg Hsz Hk. destruct (arena_alloc_ok DEBUG_RBT DEBUG_RBT_DEEP DEBUG_LOCK_CHK a G ms size (2 ^ k) H Hsz) as (a' & r & failed & E & [(-> & H' & Hno)|(Hok & -> & L1 & s & L2 & L' & -> & Hty & Hf & Hcut & H')]); do 3 eexists; (split; [done|]); [left; by split_and!|right].
  split; [done|]. split; [done|]. destruct Hg as [Hs Hlen]. pose proof (Hs r s ltac:(apply elem_mid; by left)) as (P1 & P2 & P3 & P4 & P5). pose proof Hcut as (ls & rs & Hls & Hrs & EL). pose proof (fun q t => cut_elem L1 L2 r s size (2 ^ k) L' q t Hcut Hf ltac:(lia)) as Hel.
  pose proof (seg_pad_nonneg s (2 ^ k)) as Hpad. pose proof Hf as [F1 F2]. exists (L1 ++ ls), (cut_seg s size (2 ^ k)), (rs ++ L2). rewrite <- app_assoc, <- EL. split_and!; [done| |done|done|by apply fits_aligned|apply cut_live_new; [apply H|done|done|lia|done]|].
  - split; [|by rewrite (cut_len _ _ _ _ _ _ _ Hcut)]. intros q t [Hq|[[= -> ->]|(_ & T1 & T2 & W1 & W2 & W3)]]%Hel; [apply (Hs q t), elem_mid; by right| |].
    + split_and!; cbn; try done; lia.
    + unfold glob_seg. rewrite T1, T2. split_and!; try done; lia.
  - intros c. unfold imported. split; intros (q & t & Hq & Ht & Hc); exists q, t; (split; [|done]).
    + apply Hel in Hq as [Hq|[[= -> ->]|(_ & ? & _)]]; [apply elem_mid; by right|done|congruence].
    + apply Hel. left. apply elem_mid in Hq as [[= -> ->]|Hq]; [congruence|done].
Qed.
Lemma glob_release base limit a G1 p s G2 ms : arena_ok a (G1 ++ (p, s) :: G2) ms -> glob_ok base limit (G1 ++ (p, s) :: G2) -> type s <> VAS_SEG_FREE ->
  exists a' G', arena_release DEBUG_RBT DEBUG_RBT_DEEP a p = Ok a' /\ arena_ok a' G' ms /\ glob_ok base limit G' /\ same_live (G1 ++ G2) G' /\ (forall c, imported G' c <-> imported (G1 ++ G2) c).
Proof.
  intros Ha [Hs Hlen] Hty. destruct (arena_release_ok DEBUG_RBT DEBUG_RBT_DEEP a G1 p s G2 ms Ha Hty) as (a' & G' & E & Hrel & H'). pose proof (proj2 Ha) as HS. destruct (Hs p s) as (P1 & P2 & P3 & P4 & P5); [apply elem_mid; by left|].
  assert (free_plain (G1 ++ G2)) as Hfp by (intros q t Hq _; apply (Hs q t), elem_mid; by right). destruct (released_elem _ _ _ _ _ HS Hfp P1 Hrel) as [E1 E2]. exists a', G'. split_and!; [done|done| |intros x n; by eapply released_live|].
  - split; [|by rewrite (released_len _ _ _ _ _ Hrel)]. intros q t [Hq|(T1 & T2 & T3 & (q1 & u1 & V1 & _ & V3) & (q2 & u2 & V4 & _ & V6))]%E1; [apply (Hs q t), elem_mid; by right|].
    apply Hs in V1 as (_ & _ & ? & _), V4 as (_ & _ & _ & ? & _). unfold glob_seg. rewrite T1, T2. split_and!; try done; lia.
  - intros c. unfold imported. split; intros (q & t & Hq & Ht & Hc); exists q, t; (split; [|done]); [apply E1 in Hq as [?|(? & _)]; [done|congruence]|apply E2; [done|congruence]].
Qed.
(** The chunk taken from the global arena is marked. *)
Lemma glob_import base limit a G1 p s G2 ms : arena_ok a (G1 ++ (p, s) :: G2) ms -> glob_ok base limit (G1 ++ (p, s) :: G2) -> type s = VAS_SEG_BUSY -> slen s = VAS_CHUNK_SIZE -> (VAS_CHUNK_SIZE | start s) ->
  exists a' s', set_type a p VAS_SEG_IMPORTED = Ok a' /\ start s' = start s /\ type s' = VAS_SEG_IMPORTED /\ arena_ok a' (G1 ++ (p, s') :: G2) ms /\ glob_ok base limit (G1 ++ (p, s') :: G2).
Proof.
  intros Ha [Hs Hlen] Hty Hsz Hal. unfold set_type. rewrite (arena_seg _ _ _ _ _ Ha (proj2 (elem_mid _ _ _ _) (or_introl eq_refl))), bind_Ok. eexists _, (retyped s VAS_SEG_IMPORTED). split; [done|]. split_and!; [done|done|eapply arena_put; cbn; try done; congruence|]. split.
  - intros q t [[= -> ->]|Hq]%elem_mid; [|apply (Hs q t), elem_mid; by right]. destruct (Hs p s) as (P1 & P2 & P3 & P4 & P5); [apply elem_mid; by left|]. by split_and!.
  - rewrite <- Hlen, !len_sum_app, !len_sum_cons. done.
Qed.
End Global.

(** ** Chunks of the arena of a CPU *)

Definition chunk_seg (c : Z) : vas_segment := mkSeg c VAS_CHUNK_SIZE c VAS_SEG_FREE None.
Lemma chunk_size : VAS_CHUNK_SIZE = 2 ^ 26.
Proof. done. Qed.
Lemma split_at_start c L : segs_ok L -> exists La Lb, L = La ++ Lb /\ (forall p s, (p, s) ∈ La -> start s < c) /\ (forall p s, (p, s) ∈ Lb -> c <= start s).
Proof.
  induction L as [|[p s] L IH]; intros HS; [exists [], []; split_and!; [done|by intros ? ? ?%elem_of_nil..]|]. pose proof (segs_ok_mid [] p s L) as [Hmid _]. apply Hmid in HS as (HS & (Q1 & Q2 & Q3) & _ & Hr). destruct (decide (start s < c)) as [Hlt|Hge].
  - destruct (IH HS) as (La & Lb & -> & H1 & H2). exists ((p, s) :: La), Lb. split_and!; [done| |done]. intros q t [[= -> ->]|Hq]%elem_of_cons; [done|by eapply H1].
  - exists [], ((p, s) :: L). split_and!; [done|by intros ? ? ?%elem_of_nil|]. intros q t [[= -> ->]|Hq]%elem_of_cons; [lia|]. specialize (Hr q t Hq). lia.
Qed.
Lemma chunk_apart c d : (VAS_CHUNK_SIZE | c) -> (VAS_CHUNK_SIZE | d) -> c <> d -> c + VAS_CHUNK_SIZE <= d \/ d + VAS_CHUNK_SIZE <= c.
Proof. rewrite chunk_size. intros [x ->] [y ->] Hne. assert (x <> y) by (intros ->; done). nia. Qed.
Lemma spans_differ x y : span_start x <> span_start y -> segments_mergeable x y = false.
Proof. intros H. unfold segments_mergeable. rewrite (proj2 (Z.eqb_neq _ _) H), andb_false_r. done. Qed.
Lemma span_sum_none c L : (forall p s, (p, s) ∈ L -> span_start s <> c) -> span_sum c L = 0.
Proof.
  induction L as [|[p s] L IH]; intros H; [done|]. rewrite span_sum_cons, IH by (intros q t Hq; apply (H q t); by right). unfold span_len. cbn [snd]. rewrite (proj2 (Z.eqb_neq _ _)); [done|]. apply (H p s). by left.
Qed.

Section Chunks.
Context {F : Type} `{!ObjAlloc F}.
Context (DEBUG_RBT DEBUG_RBT_DEEP DEBUG_LOCK_CHK : bool).
Implicit Types (a : @vas_arena F) (s : vas_segment) (ms : list vas_magazine) (L G : segments).

Lemma arena_key a L X A B n ms (p : Z) s : lst a L X A B n ms -> (p, s) ∈ L ++ X -> segment_key (segs a) p = start s.
Proof. intros H Hp. pose proof (lst_lookup _ _ _ _ _ _ _ _ _ H Hp) as Hlk. destruct H as (_ & _ & H). unfold segment_key. by rewrite (st_segs _ _ _ _ _ _ _ H), Hlk. Qed.
(** Where the new chunk goes. *)
Lemma chunk_place own L c : segs_ok L -> (forall p s, (p, s) ∈ L -> loc_seg own s) -> (forall d, own d -> (VAS_CHUNK_SIZE | d)) -> (VAS_CHUNK_SIZE | c) -> ~ own c -> 0 < c -> c + VAS_CHUNK_SIZE < 2 ^ 64 ->
  exists La Lb, L = La ++ Lb /\ (forall p s, (p, s) ∈ La -> start s < c) /\ (forall p s, (p, s) ∈ Lb -> c <= start s) /\ forall p, segs_ok (La ++ (p, chunk_seg c) :: Lb).
Proof.
  intros HS Hl Hal Hc Hno H0 H1. destruct (split_at_start c L HS) as (La & Lb & -> & Ha & Hb). exists La, Lb. split_and!; [done|done|done|]. intros p. assert (0 < VAS_CHUNK_SIZE) as Hpos by done. pose proof (proj2 HS) as Ho. apply segs_ok_mid. split_and!; [done|split_and!; cbn; lia| |].
  - intros q t Hq. destruct (Ho q t ltac:(apply elem_of_app; by left)) as (? & ? & ?). destruct (Hl q t ltac:(apply elem_of_app; by left)) as (_ & _ & _ & P4 & P5 & P6). specialize (Ha q t Hq). destruct (chunk_apart (span_start t) c) as [?|?]; [by apply Hal|done|intros E; by rewrite E in P6|cbn; lia..].
  - intros q t Hq. destruct (Ho q t ltac:(apply elem_of_app; by right)) as (? & ? & ?). destruct (Hl q t ltac:(apply elem_of_app; by right)) as (_ & _ & _ & P4 & P5 & P6). specialize (Hb q t Hq). destruct (chunk_apart (span_start t) c) as [?|?]; [by apply Hal|done|intros E; by rewrite E in P6|cbn; lia..].
Qed.
(** The new chunk in the arena. *)
Lemma add_chunk own a L p ms c : lst a L [(p, zero_seg)] L.*1 L (u64 (free_sum L)) ms -> segs_ok L -> mag_ok ms L -> (forall q s, (q, s) ∈ L -> loc_seg own s) -> packed own L -> (forall d, own d -> (VAS_CHUNK_SIZE | d)) -> (VAS_CHUNK_SIZE | c) -> ~ own c -> 0 < c -> c + VAS_CHUNK_SIZE < 2 ^ 64 ->
  exists a1 before a2 a3 La Lb, a1 = put_seg a p (chunk_seg c) /\ rbt_find_predecessor (segment_key (segs a1)) (tree a1) c = Ok before /\ segment_insert_after DEBUG_RBT DEBUG_RBT_DEEP DEBUG_LOCK_CHK a1 p before = Ok a2 /\ bin_insert a2 p = Ok a3 /\
  L = La ++ Lb /\ local_ok (fun d => own d \/ d = c) (with_total a3 (u64 (total_free a3 + VAS_CHUNK_SIZE))) (La ++ (p, chunk_seg c) :: Lb) ms.
Proof.
  intros H HS Hm Hl [Hpk1 Hpk2] Hal Hc Hno H0 H1. destruct (chunk_place own L c HS Hl Hal Hc Hno H0 H1) as (La & Lb & EL & Ha & Hb & HS'). specialize (HS' p). subst L. set (a1 := put_seg a p (chunk_seg c)). apply (lst_put _ _ _ _ (chunk_seg c)) in H. fold a1 in H.
  assert (NoDup La.*1 /\ Forall ok_addr La.*1) as [N1 N2]. { destruct (tree_of_ok _ _ (st_tree _ _ _ _ _ _ _ (proj2 (proj2 H)))) as [N1 N2]. rewrite fmap_app in N1, N2. apply list.NoDup_app in N1 as [N1 _]. by apply list.Forall_app in N2 as [N2 _]. }
  pose proof (fun q s Hq => arena_key _ _ _ _ _ _ _ q s H Hq) as Hkey. assert (rbt_find_predecessor (segment_key (segs a1)) (tree a1) c = Ok (default 0 (list.last La.*1))) as Epred.
  { rewrite (tree_predecessor (segment_key (segs a1)) (tree a1) (La ++ Lb).*1 c).
    - rewrite fmap_app, list.filter_app, filter_all, filter_none, app_nil_r; [done| |]; intros q [s Hq]%in_fst; rewrite (Hkey q s) by (rewrite !elem_of_app; tauto); [specialize (Hb q s Hq); lia|by eapply Ha].
    - apply H.
    - rewrite (st_segs _ _ _ _ _ _ _ (proj2 (proj2 H))). apply keys_sorted; [done|]. intros q s Hq. eapply lst_lookup; [exact H|]. apply elem_of_app. by left. }
  destruct (lst_insert_after DEBUG_RBT DEBUG_RBT_DEEP DEBUG_LOCK_CHK _ _ _ _ _ _ _ _ _ _ (default 0 (list.last La.*1)) H HS') as (a2 & E2 & H2). assert (p ∉ (La ++ Lb).*1) as Hp by (destruct H as (Hnd & _); apply nodup_skip in Hnd as [_ Hnd]; by rewrite app_nil_r in Hnd).
  destruct (lst_bin_insert a2 _ _ _ _ _ _ p (chunk_seg c) H2) as (a3 & E3 & H3); [rewrite app_nil_r; apply elem_mid; by left|done|cbn; rewrite chunk_size; lia|done|].
  exists a1, (default 0 (list.last La.*1)), a2, a3, La, Lb. split_and!; [done..|]. rewrite (st_total _ _ _ _ _ _ _ (proj2 (proj2 H3))). split_and!.
  - split; [|exact HS']. assert (free_sum (La ++ (p, chunk_seg c) :: Lb) = free_sum (La ++ Lb) + VAS_CHUNK_SIZE) as -> by (rewrite !free_sum_app, free_sum_cons; cbn [snd]; rewrite free_len_free by done; cbn [slen chunk_seg]; lia).
    replace (u64 (free_sum (La ++ Lb) + VAS_CHUNK_SIZE)) with (u64 (u64 (free_sum (La ++ Lb)) + VAS_CHUNK_SIZE)) by (unfold wrap; apply Zplus_mod_idemp_l). eapply lst_with_total.
    eapply lst_perm; [reflexivity|apply Permutation_middle|]. rewrite fmap_app, insert_at_last in H3 by done. rewrite fmap_app, fmap_cons. exact H3.
  - eapply mag_ok_ext; [|exact Hm]. intros q s Hs. rewrite elem_mid. split; [by right|]. by intros [[= -> ->]|?].
  - intros q s [[= -> ->]|Hq]%elem_mid; [split_and!; cbn; try done; try lia; by right|]. destruct (Hl q s Hq) as (P1 & P2 & P3 & P4 & P5 & P6). split_and!; try done. by left.
  - split.
    + apply merged_app in Hpk1 as (M1 & M2 & _). apply merged_mid. split_and!; [done|done| |].
      * intros K [q s] ->. apply spans_differ. intros E. destruct (Hl q s) as (_ & _ & _ & _ & _ & P6); [rewrite !elem_of_app; left; right; by left|]. cbn in E. by rewrite E in P6.
      * intros [q s] K ->. apply spans_differ. intros E. destruct (Hl q s) as (_ & _ & _ & _ & _ & P6); [rewrite elem_of_app; right; by left|]. cbn in E. by rewrite <- E in P6.
    + intros d Hd. rewrite span_sum_app, span_sum_cons. unfold span_len at 1. cbn. destruct Hd as [Hd| ->].
      * assert (c <> d) as Hcd by (by intros ->). rewrite (proj2 (Z.eqb_neq c d) Hcd), <- (Hpk2 d Hd), span_sum_app. lia.
      * rewrite Z.eqb_refl. assert (forall q s, (q, s) ∈ La ++ Lb -> span_start s <> c) as Hn by (intros q s Hq E; destruct (Hl q s Hq) as (_ & _ & _ & _ & _ & P6); by rewrite E in P6).
        rewrite (span_sum_none c La), (span_sum_none c Lb) by (intros q s Hq; apply (Hn q s), elem_of_app; tauto). lia.
Qed.
(** A chunk that is free as a whole leaves the arena. *)
Lemma drop_chunk own a La p s Lb ms : local_ok own a (La ++ (p, s) :: Lb) ms -> type s = VAS_SEG_FREE -> start s = span_start s -> slen s = VAS_CHUNK_SIZE ->
  exists a1 a2, bin_remove a p = Ok a1 /\ segment_delete DEBUG_RBT DEBUG_RBT_DEEP (with_total a1 (u64 (total_free a1 - VAS_CHUNK_SIZE))) p = Ok a2 /\ local_ok (fun d => own d /\ d <> start s) a2 (La ++ Lb) ms /\ slot_sum (La ++ Lb) = slot_sum (La ++ (p, s) :: Lb).
Proof.
  intros ([H HS] & Hm & Hl & Hpk1 & Hpk2) Hty Hst Hlen. destruct (lst_bin_remove a _ _ _ _ _ _ _ p s H) as (a1 & E1 & H1); [rewrite app_nil_r; apply elem_mid; by left|done|]. rewrite E1. exists a1. rewrite (st_total _ _ _ _ _ _ _ (proj2 (proj2 H1))).
  set (n := u64 (u64 _ - _)). apply (lst_with_total _ _ _ _ _ _ _ n) in H1. destruct (lst_delete DEBUG_RBT DEBUG_RBT_DEEP _ _ _ _ _ _ _ _ _ _ H1) as (a2 & E2 & H2). exists a2. split; [done|]. split; [done|]. destruct (Hl p s) as (P1 & P2 & P3 & P4 & P5 & P6); [apply elem_mid; by left|].
  assert (forall q t, (q, t) ∈ La ++ Lb -> span_start t <> start s) as Hspan.
  { intros q t Hq E. destruct (Hl q t) as (_ & _ & _ & T4 & T5 & _); [apply elem_mid; by right|]. pose proof (segs_ok_skip _ _ _ HS) as [_ Ho]. destruct (Ho q t Hq) as (_ & ? & _). apply segs_ok_mid in HS as (_ & _ & Hbl & Hbr). apply elem_of_app in Hq as [Hq|Hq]; [specialize (Hbl q t Hq)|specialize (Hbr q t Hq)]; lia. }
  split; [|rewrite !slot_sum_app, slot_sum_cons; unfold slot_len; cbn [snd]; rewrite P1 by done; lia]. split_and!.
  - split; [|by eapply segs_ok_skip]. assert (p ∉ La.*1 ++ Lb.*1) as Hp by (destruct H as (_ & Hnd & _); apply nodup_skip in Hnd as [_ Hnd]; by rewrite fmap_app in Hnd). rewrite fmap_app, fmap_cons in H2. cbn [fst] in H2. rewrite list_remove_mid in H2 by (intros ?; apply Hp, elem_of_app; tauto). rewrite fmap_app.
    replace (u64 (free_sum (La ++ Lb))) with n; [done|]. unfold n, wrap. rewrite Zminus_mod_idemp_l. assert (free_sum (La ++ (p, s) :: Lb) = free_sum (La ++ Lb) + VAS_CHUNK_SIZE) as -> by (rewrite !free_sum_app, free_sum_cons; cbn [snd]; rewrite free_len_free by done; lia). f_equal. lia.
  - eapply mag_ok_plain; [done|]. by apply P1.
  - intros q t Hq. destruct (Hl q t) as (T1 & T2 & T3 & T4 & T5 & T6); [apply elem_mid; by right|]. split_and!; try done. by eapply Hspan.
  - split.
    + pose proof (proj2 HS) as Ho. apply segs_ok_mid in HS as (_ & (_ & ? & _) & Hbl & Hbr). apply merged_mid in Hpk1 as (M1 & M2 & _). apply merged_app. split_and!; [done|done|]. intros K1 [q t] [q' t'] K2 -> ->. apply spans_differ. cbn [snd]. intros E.
      destruct (Hl q t) as (_ & _ & _ & T4 & T5 & _); [apply elem_mid; right; rewrite !elem_of_app; left; right; by left|]. destruct (Hl q' t') as (_ & _ & _ & U4 & U5 & _); [apply elem_mid; right; rewrite !elem_of_app; right; by left|].
      specialize (Hbl q t ltac:(apply elem_of_app; right; by left)). specialize (Hbr q' t' ltac:(by left)). destruct (Ho q t) as (_ & ? & _); [apply elem_mid; right; rewrite !elem_of_app; left; right; by left|]. destruct (Ho q' t') as (_ & ? & _); [apply elem_mid; right; rewrite !elem_of_app; right; by left|]. lia.
    + intros d [Hd Hne]. rewrite <- (Hpk2 d Hd), !span_sum_app, span_sum_cons. unfold span_len. cbn [snd]. rewrite (proj2 (Z.eqb_neq _ _)); [lia|congruence].
Qed.
Lemma local_own own own' a L ms : (forall d, own d <-> own' d) -> local_ok own a L ms -> local_ok own' a L ms.
Proof.
  intros E (H1 & H2 & H3 & H4 & H5). split_and!; [done|done| |split; [done|]].
  - intros p s Hp. destruct (H3 p s Hp) as (P1 & P2 & P3 & P4 & P5 & P6). split_and!; try done. by apply E.
  - intros c Hc. by apply H5, E.
Qed.

(** *** A chunk all of whose segments are free is one segment *)

Lemma span_bound c lo hi : forall L, segs_ok L -> (forall p s, (p, s) ∈ L -> span_start s = c -> lo <= start s /\ start s + slen s <= hi) -> lo <= hi -> span_sum c L <= hi - lo.
Proof.
  intros L. revert lo. induction L as [|[p s] L IH]; intros lo HS Hr Hle; [cbn; lia|]. pose proof (segs_ok_mid [] p s L) as [Hmid _]. apply Hmid in HS as (HS & (Q1 & Q2 & Q3) & _ & Hb). rewrite span_sum_cons. unfold span_len. cbn [snd]. destruct (Z.eqb_spec (span_start s) c) as [E|E].
  - destruct (Hr p s (list_elem_of_here _ _) E) as [R1 R2]. pose proof (IH (start s + slen s) HS) as Hi. assert (span_sum c L <= hi - (start s + slen s)); [|lia]. apply Hi; [|lia]. intros q t Hq Ht. destruct (Hr q t (list_elem_of_further _ _ _ Hq) Ht). specialize (Hb q t Hq). lia.
  - apply IH; [done| |done]. intros q t Hq. apply (Hr q t). by right.
Qed.
Lemma first_of_span c L : span_sum c L <> 0 -> exists L1 p s L2, L = L1 ++ (p, s) :: L2 /\ span_start s = c /\ forall q t, (q, t) ∈ L1 -> span_start t <> c.
Proof.
  induction L as [|[p s] L IH]; [done|]. rewrite span_sum_cons. unfold span_len. cbn [snd]. destruct (Z.eqb_spec (span_start s) c) as [E|E]; [exists [], p, s, L; split_and!; [done|done|by intros q t ?%elem_of_nil]|]. intros Hn. destruct IH as (L1 & q & t & L2 & -> & Ht & Hl); [lia|].
  exists ((p, s) :: L1), q, t, L2. split_and!; [done|done|]. intros q' t' [[= -> ->]|Hq]%elem_of_cons; [done|by eapply Hl].
Qed.
Lemma packed_whole own L p s : segs_ok L -> (forall q t, (q, t) ∈ L -> loc_seg own t /\ type t = VAS_SEG_FREE) -> packed own L -> (forall d, own d -> (VAS_CHUNK_SIZE | d)) -> (p, s) ∈ L -> exists q t, (q, t) ∈ L /\ type t = VAS_SEG_FREE /\ start t = span_start t /\ slen t = VAS_CHUNK_SIZE.
Proof.
  intros HS Hl [Hmg Hsum] Hal Hp. destruct (Hl p s Hp) as ((_ & _ & _ & _ & _ & Hown) & _). set (c := span_start s) in *. specialize (Hsum c Hown). assert (0 < VAS_CHUNK_SIZE) as Hcs by done. destruct (first_of_span c L ltac:(lia)) as (L1 & q & t & L2 & EL & Ht & Hno).
  assert (forall x y, (x, y) ∈ L -> span_start y = c -> c <= start y /\ start y + slen y <= c + VAS_CHUNK_SIZE) as Hin by (intros x y Hxy E; destruct (Hl x y Hxy) as ((_ & _ & _ & Y4 & Y5 & _) & _); rewrite E in *; done).
  subst L. pose proof HS as [_ Ho]. pose proof (proj1 (segs_ok_mid _ _ _ _) HS) as (_ & (T1 & T2 & T3) & _ & Hbr). destruct (Hin q t ltac:(apply elem_mid; by left) Ht) as [I1 I2]. rewrite span_sum_app, (span_sum_none c L1 Hno), span_sum_cons in Hsum. unfold span_len in Hsum. cbn [snd] in Hsum. rewrite Ht, Z.eqb_refl in Hsum.
  assert (segs_ok L2) as HS2. { destruct HS as [HS _]. apply StronglySorted_app in HS as (_ & _ & [_ HS]%StronglySorted_cons). split; [done|]. intros x y Hx. apply (Ho x y), elem_mid. right. apply elem_of_app. by right. }
  assert (forall lo, lo <= c + VAS_CHUNK_SIZE -> (forall x y, (x, y) ∈ L2 -> span_start y = c -> lo <= start y) -> span_sum c L2 <= c + VAS_CHUNK_SIZE - lo) as Hbound by (intros lo Hle Hlo; apply (span_bound c lo); [done| |done]; intros x y Hx Hy; split; [by eapply Hlo|]; apply (Hin x y); [apply elem_mid; right; apply elem_of_app; by right|done]).
  pose proof (Hbound (start t + slen t) ltac:(lia) ltac:(intros x y Hx _; by apply (Hbr x y))) as Hb2. exists q, t. split; [apply elem_mid; by left|]. destruct (Hl q t ltac:(apply elem_mid; by left)) as [_ Hfree]. split_and!; [done|lia|]. destruct (decide (slen t = VAS_CHUNK_SIZE)) as [|Hlt]; [done|]. exfalso.
  destruct (first_of_span c L2 ltac:(lia)) as (K1 & x & y & K2 & EK & Hy & _). destruct L2 as [|[r w] L2]; [by destruct K1|]. assert ((r, w) ∈ L1 ++ (q, t) :: (r, w) :: L2) as Hr by (apply elem_mid; right; apply elem_of_app; right; by left). destruct (Hl r w Hr) as ((_ & _ & _ & W4 & W5 & W6) & Wf). pose proof (Ho r w Hr) as (W1 & W2 & W3).
  assert (start w <= start y /\ start y < c + VAS_CHUNK_SIZE) as [Hwy Hyc].
  { assert ((x, y) ∈ (r, w) :: L2) as Hxy by (rewrite EK; apply elem_mid; by left). assert ((x, y) ∈ L1 ++ (q, t) :: (r, w) :: L2) as Hxy' by (apply elem_mid; right; apply elem_of_app; by right). pose proof (Ho x y Hxy') as (? & ? & ?). destruct (Hin x y Hxy' Hy). split; [|lia].
    apply elem_of_cons in Hxy as [[= -> ->]|Hxy]; [lia|]. pose proof (segs_ok_mid [] r w L2) as [Hmid _]. apply Hmid in HS2 as (_ & _ & _ & Hb). specialize (Hb x y Hxy). lia. }
  specialize (Hbr r w (list_elem_of_here _ _)). assert (span_start w = c) as Hw by (destruct (decide (span_start w = c)) as [|Hne]; [done|]; destruct (chunk_apart (span_start w) c); [by apply Hal|by apply Hal|done|lia|lia]).
  assert (start w = start t + slen t) as Hadj.
  { pose proof (Hbound (start w) ltac:(lia)) as Hb3. assert (span_sum c ((r, w) :: L2) <= c + VAS_CHUNK_SIZE - start w); [|lia]. apply Hb3. intros x' y' [[= -> ->]|Hx]%elem_of_cons _; [lia|]. pose proof (segs_ok_mid [] r w L2) as [Hmid _]. apply Hmid in HS2 as (_ & _ & _ & Hb). specialize (Hb x' y' Hx). lia. }
  pose proof (Hmg L1 (q, t) (r, w) L2 eq_refl) as Hm. cbn [snd] in Hm. rewrite (proj2 (mergeable_spec t w ltac:(done) ltac:(done) Hbr)) in Hm; [done|]. split_and!; [done|done|congruence|done].
Qed.
End Chunks.
