(* ===== verification/VasApi.v ===== *)
(** * The virtual address allocator: the calls

    The invariant of a space ([space_ok]) and the calls of [include/mem/vas.h] on it;
    clients of a space. *)

From stdpp Require Import sorting.
From S2P Require Import Prelude BitMath BuddyPage Rbt RbtShape RbtInv RbtWalk RbtInsert RbtDelete RbtApi FixedSize Vas VasArena VasOps VasMag VasLocal VasSpace.

(** The extents handed out by a space. *)
Definition vlive (G : segments) (Ls : list segments) (x n : Z) : Prop := live_in G x n \/ exists cpu L, Ls !! cpu = Some L /\ live_in L x n.
Definition slots_total (Ls : list segments) : Z := foldr (fun L n => slot_sum L + n) 0 Ls.
Lemma slots_total_app l1 l2 : slots_total (l1 ++ l2) = slots_total l1 + slots_total l2.
Proof. unfold slots_total. induction l1 as [|x l1 IH]; cbn; [done|]. rewrite IH. lia. Qed.
Lemma slots_total_insert Ls cpu L L' : Ls !! cpu = Some L -> slots_total (<[cpu := L']> Ls) = slots_total Ls - slot_sum L + slot_sum L'.
Proof.
  intros H. rewrite (insert_take_drop Ls cpu L') by (by eapply lookup_lt_Some). rewrite <- (take_drop_middle Ls cpu L H) at 3. rewrite !slots_total_app. unfold slots_total. cbn [foldr]. lia.
Qed.
Lemma slots_total_nonneg Ls : (forall L, L ∈ Ls -> 0 <= slot_sum L) -> 0 <= slots_total Ls.
Proof. induction Ls as [|L Ls IH]; intros H; [done|]. unfold slots_total in *. cbn. pose proof (H L (list_elem_of_here _ _)). pose proof (IH (fun K HK => H K (list_elem_of_further _ _ _ HK))). lia. Qed.

(** The fields of a changed space. *)
Ltac vsimpl := cbn [global base limit map_base local chunk_owner mag_reserved_bytes with_global with_local with_bytes] in *.

Section Space.
Context {F : Type} `{!ObjAlloc F}.
Context (DEBUG_RBT DEBUG_RBT_DEEP DEBUG_LOCK_CHK : bool).
Implicit Types (a g : @vas_arena F) (v : @vas F) (s : vas_segment) (ms : list vas_magazine) (L G : segments) (Ls : list segments).

Definition owner_at v (c o : Z) : Prop := chunk_owner v !! Z.to_nat ((c - map_base v) `div` VAS_CHUNK_SIZE) = Some o.
(** The chunk at [c] is imported by [cpu]. *)
Definition owns v G (cpu : nat) (c : Z) : Prop := imported G c /\ owner_at v c (Z.of_nat cpu).
Record space_ok v G Ls : Prop := mkSpaceOk {
  so_range : 0 < base v < limit v /\ limit v < 2 ^ 64 /\ 0 <= map_base v <= base v /\ (VAS_CHUNK_SIZE | map_base v);
  so_owners : length (chunk_owner v) = Z.to_nat ((limit v - 1 - map_base v) `div` VAS_CHUNK_SIZE + 1);
  so_cpus : Z.of_nat (length (local v)) < VAS_OWNER_GLOBAL;
  so_global : exists mg, arena_ok (global v) G mg;
  so_glob : glob_ok (base v) (limit v) G;
  so_len : length Ls = length (local v);
  so_local : forall cpu a L, local v !! cpu = Some a -> Ls !! cpu = Some L -> exists ms, local_ok (owns v G cpu) a L ms;
  so_imported : forall c, imported G c -> exists cpu, (cpu < length (local v))%nat /\ owner_at v c (Z.of_nat cpu);
  so_owner : forall i o, chunk_owner v !! i = Some o -> o = VAS_OWNER_GLOBAL \/ (0 <= o < Z.of_nat (length (local v)) /\ imported G (map_base v + Z.of_nat i * VAS_CHUNK_SIZE));
  so_bytes : mag_reserved_bytes v = slots_total Ls /\ slots_total Ls <= VAS_MAG_BYTE_LIMIT;
}.

Lemma space_sum v G Ls cpu L : space_ok v G Ls -> Ls !! cpu = Some L -> 0 <= slot_sum L <= mag_reserved_bytes v /\ mag_reserved_bytes v <= VAS_MAG_BYTE_LIMIT.
Proof.
  intros H HL. pose proof H as [_ _ _ _ _ Hlen Hloc _ _ [Hb1 Hb2]]. assert (forall L', L' ∈ Ls -> 0 <= slot_sum L') as Hpos.
  { intros L' [i Hi]%list_elem_of_lookup_1. destruct (lookup_lt_is_Some_2 (local v) i) as [a Ha]; [rewrite <- Hlen; by eapply lookup_lt_Some|]. destruct (Hloc i a L' Ha Hi) as [ms Hms]. by eapply local_sum_nonneg. }
  rewrite Hb1. split; [|done]. split; [apply Hpos; by eapply list_elem_of_lookup_2|]. rewrite <- (take_drop_middle Ls cpu L HL) in Hpos |- *. rewrite slots_total_app.
  pose proof (slots_total_nonneg (take cpu Ls) ltac:(intros K HK; apply Hpos, elem_of_app; by left)). pose proof (slots_total_nonneg (drop (S cpu) Ls) ltac:(intros K HK; apply Hpos, elem_of_app; right; by right)). unfold slots_total in *. cbn [foldr]. lia.
Qed.
Lemma owns_aligned v G cpu c : glob_ok (base v) (limit v) G -> owns v G cpu c -> (VAS_CHUNK_SIZE | c).
Proof. intros [Hg _] [(p & s & Hp & Ht & <-) _]. by apply (Hg p s Hp). Qed.
(** The arena of one CPU changes. *)
Lemma space_local v G Ls cpu a L a' L' ms' bytes' : space_ok v G Ls -> local v !! cpu = Some a -> Ls !! cpu = Some L -> local_ok (owns v G cpu) a' L' ms' -> accounted L (mag_reserved_bytes v) L' bytes' ->
  space_ok (with_bytes (with_local v cpu a') bytes') G (<[cpu := L']> Ls).
Proof.
  intros [H1 H2 H3 H4 H5 H6 H7 H8 H9 [H10 H11]] Ha HL H' [Hac Hb]. split; vsimpl; rewrite ?length_insert; try done.
  - intros cpu' b K Hb' HK. destruct (decide (cpu = cpu')) as [<-|Hne]; [|rewrite list_lookup_insert_ne in Hb' by done; rewrite list_lookup_insert_ne in HK by done; by eapply H7]. rewrite list_lookup_insert_eq in Hb' by (by eapply lookup_lt_Some). rewrite list_lookup_insert_eq in HK by (by eapply lookup_lt_Some). simplify_eq. by exists ms'.
  - rewrite (slots_total_insert Ls cpu L L' HL). lia.
Qed.
(** The global arena changes, but not what is imported. *)
Lemma space_global v G Ls g' G' mg : space_ok v G Ls -> arena_ok g' G' mg -> glob_ok (base v) (limit v) G' -> (forall c, imported G' c <-> imported G c) -> space_ok (with_global v g') G' Ls.
Proof.
  intros [H1 H2 H3 H4 H5 H6 H7 H8 H9 H10] Hg Hok Himp. split; vsimpl; try done; [by exists mg| | |].
  - intros cpu a L Ha HL. destruct (H7 cpu a L Ha HL) as [ms Hms]. exists ms. eapply local_own; [|exact Hms]. intros d. unfold owns. by rewrite Himp.
  - intros c. rewrite Himp. apply H8.
  - intros i o Hi. destruct (H9 i o Hi) as [?|[? ?]]; [by left|right]. by rewrite Himp.
Qed.

(** *** Where an extent is *)

Lemma live_covers L x n : segs_ok L -> live_in L x n -> 0 < n /\ x + n < 2 ^ 64 /\ 0 < x.
Proof. intros [_ Ho] (p & s & Hp & _ & <- & <-). destruct (Ho p s Hp) as (? & ? & ?). lia. Qed.
Lemma live_apart_one L x n y m : segs_ok L -> live_in L x n -> live_in L y m -> (x = y /\ n = m) \/ x + n <= y \/ y + m <= x.
Proof.
  intros HS (p & s & Hp & _ & <- & <-) (q & t & Hq & _ & <- & <-). destruct (list_elem_of_split _ _ Hp) as (L1 & L2 & ->). apply segs_ok_mid in HS as (_ & _ & Hl & Hr). apply elem_mid in Hq as [[= -> ->]|Hq]; [by left|right].
  apply elem_of_app in Hq as [Hq|Hq]; [specialize (Hl q t Hq)|specialize (Hr q t Hq)]; lia.
Qed.
(** The extents of a CPU are in its chunks. *)
Lemma live_chunk v G Ls cpu L x n : space_ok v G Ls -> Ls !! cpu = Some L -> live_in L x n -> exists c, owns v G cpu c /\ c <= x /\ x + n <= c + VAS_CHUNK_SIZE /\ 0 < n.
Proof.
  intros H HL (p & s & Hp & _ & <- & <-). destruct (lookup_lt_is_Some_2 (local v) cpu) as [a Ha]; [rewrite <- (so_len _ _ _ H); by eapply lookup_lt_Some|]. destruct (so_local _ _ _ H cpu a L Ha HL) as [ms ([_ [_ Ho]] & _ & Hl & _)].
  destruct (Hl p s Hp) as (_ & _ & _ & P4 & P5 & P6). destruct (Ho p s Hp) as (_ & ? & _). by exists (span_start s).
Qed.
Lemma chunk_segment v G Ls cpu c : space_ok v G Ls -> owns v G cpu c -> exists p s, (p, s) ∈ G /\ type s = VAS_SEG_IMPORTED /\ start s = c /\ slen s = VAS_CHUNK_SIZE.
Proof. intros H [(p & s & Hp & Ht & <-) _]. exists p, s. split_and!; [done|done|done|]. destruct (so_glob _ _ _ H) as [Hg _]. by apply (Hg p s Hp). Qed.
Lemma global_local_apart v G Ls cpu L x n y m : space_ok v G Ls -> live_in G x n -> Ls !! cpu = Some L -> live_in L y m -> x + n <= y \/ y + m <= x.
Proof.
  intros H (p & s & Hp & Hs & <- & <-) HL Hl. destruct (live_chunk v G Ls cpu L y m H HL Hl) as (c & Hc & C1 & C2 & C3). destruct (chunk_segment v G Ls cpu c H Hc) as (q & t & Hq & Ht & <- & Hlen). destruct (so_global _ _ _ H) as [mg [_ HS]].
  destruct (list_elem_of_split _ _ Hp) as (L1 & L2 & ->). apply segs_ok_mid in HS as (_ & _ & Hbl & Hbr). apply elem_mid in Hq as [[= -> ->]|Hq]; [congruence|]. apply elem_of_app in Hq as [Hq|Hq]; [specialize (Hbl q t Hq)|specialize (Hbr q t Hq)]; lia.
Qed.
Lemma locals_apart v G Ls cpu cpu' L L' x n y m : space_ok v G Ls -> Ls !! cpu = Some L -> Ls !! cpu' = Some L' -> cpu <> cpu' -> live_in L x n -> live_in L' y m -> x + n <= y \/ y + m <= x.
Proof.
  intros H HL HL' Hne H1 H2. destruct (live_chunk v G Ls cpu L x n H HL H1) as (c & Hc & C1 & C2 & C3). destruct (live_chunk v G Ls cpu' L' y m H HL' H2) as (d & Hd & D1 & D2 & D3).
  destruct (chunk_apart c d) as [?|?]; [by eapply owns_aligned; [apply H|]..| |lia|lia]. intros ->. destruct Hc as [_ Hc], Hd as [_ Hd]. unfold owner_at in *. rewrite Hc in Hd. injection Hd as Hd. lia.
Qed.
(** Two extents that are handed out are one or do not overlap. *)
Lemma vlive_apart v G Ls x n y m : space_ok v G Ls -> vlive G Ls x n -> vlive G Ls y m -> (x = y /\ n = m) \/ x + n <= y \/ y + m <= x.
Proof.
  intros H [Hx|(cpu & L & HL & Hx)] [Hy|(cpu' & L' & HL' & Hy)].
  - destruct (so_global _ _ _ H) as [mg [_ HS]]. by eapply live_apart_one.
  - right. by eapply global_local_apart.
  - right. destruct (global_local_apart v G Ls cpu L y m x n H Hy HL Hx); lia.
  - destruct (decide (cpu = cpu')) as [<-|Hne]; [|right; by apply (locals_apart v G Ls cpu cpu' L L')]. simplify_eq. destruct (lookup_lt_is_Some_2 (local v) cpu) as [a Ha]; [rewrite <- (so_len _ _ _ H); by eapply lookup_lt_Some|].
    destruct (so_local _ _ _ H cpu a L Ha HL) as [ms ([_ HS] & _)]. by eapply live_apart_one.
Qed.
Lemma vlive_range v G Ls x n : space_ok v G Ls -> vlive G Ls x n -> base v <= x /\ 0 < n /\ x + n <= limit v.
Proof.
  intros H [Hx|(cpu & L & HL & Hx)].
  - destruct (so_global _ _ _ H) as [mg [_ HS]]. pose proof (live_covers _ _ _ HS Hx). destruct Hx as (p & s & Hp & _ & <- & <-). destruct (so_glob _ _ _ H) as [Hg _]. destruct (Hg p s Hp) as (_ & _ & ? & ? & _). lia.
  - destruct (live_chunk v G Ls cpu L x n H HL Hx) as (c & Hc & C1 & C2 & C3). destruct (chunk_segment v G Ls cpu c H Hc) as (q & t & Hq & Ht & <- & Hlen). destruct (so_glob _ _ _ H) as [Hg _]. destruct (Hg q t Hq) as (_ & _ & ? & ? & _). lia.
Qed.

(** *** Owners of chunks *)

Definition chunk_no v (c : Z) : nat := Z.to_nat ((c - map_base v) `div` VAS_CHUNK_SIZE).
Lemma chunk_no_inv v c : (VAS_CHUNK_SIZE | map_base v) -> (VAS_CHUNK_SIZE | c) -> map_base v <= c -> map_base v + Z.of_nat (chunk_no v c) * VAS_CHUNK_SIZE = c.
Proof.
  unfold chunk_no. rewrite chunk_size. intros [x Hx] [y ->] Hle. rewrite Hx in *. replace (y * 2 ^ 26 - x * 2 ^ 26) with ((y - x) * 2 ^ 26) by lia. rewrite Z.div_mul by lia. lia.
Qed.
Lemma owner_index_ok v x : 0 <= map_base v <= x -> x < 2 ^ 64 -> owner_index v x = (x - map_base v) `div` VAS_CHUNK_SIZE /\ 0 <= (x - map_base v) `div` VAS_CHUNK_SIZE.
Proof.
  intros H1 H2. unfold owner_index. rewrite wrap_small by (unfold in_u; lia). rewrite Z.shiftr_div_pow2 by done. split; [done|]. rewrite chunk_size. apply Z.div_pos; lia.
Qed.
Lemma owner_index_lt v G Ls x : space_ok v G Ls -> base v <= x < limit v -> (chunk_no v x < length (chunk_owner v))%nat.
Proof.
  intros H Hx. rewrite (so_owners _ _ _ H). destruct (so_range _ _ _ H) as (? & ? & ? & _). unfold chunk_no. rewrite chunk_size. pose proof (Z.div_le_mono (x - map_base v) (limit v - 1 - map_base v) (2 ^ 26) ltac:(lia) ltac:(lia)). pose proof (Z.div_pos (x - map_base v) (2 ^ 26) ltac:(lia) ltac:(lia)). lia.
Qed.
Lemma set_owner_ok v G Ls v0 c o : space_ok v G Ls -> base v <= c < limit v -> map_base v0 = map_base v -> chunk_owner v0 = chunk_owner v ->
  set_owner v0 c o = Ok (mkVas (global v0) (base v0) (limit v0) (map_base v0) (local v0) (<[chunk_no v c := o]> (chunk_owner v)) (mag_reserved_bytes v0)).
Proof.
  intros H Hc E1 E2. destruct (so_range _ _ _ H) as (? & ? & ? & _). unfold set_owner. destruct (owner_index_ok v0 c) as [-> Hp]; [lia|lia|]. pose proof (owner_index_lt v G Ls c H Hc) as Hl. unfold chunk_no in *. rewrite E1, E2 in *. rewrite aset_Ok by lia. by rewrite bind_Ok.
Qed.
Lemma imported_range v G Ls c : space_ok v G Ls -> imported G c -> (VAS_CHUNK_SIZE | c) /\ base v <= c /\ c + VAS_CHUNK_SIZE <= limit v.
Proof. intros H (p & s & Hp & Ht & <-). destruct (so_glob _ _ _ H) as [Hg _]. destruct (Hg p s Hp) as (_ & _ & ? & ? & P5). destruct (P5 Ht) as [E ?]. rewrite <- E at 2. done. Qed.
Lemma chunk_no_inj v c d : (VAS_CHUNK_SIZE | map_base v) -> (VAS_CHUNK_SIZE | c) -> (VAS_CHUNK_SIZE | d) -> map_base v <= c -> map_base v <= d -> chunk_no v c = chunk_no v d -> c = d.
Proof. intros Hm Hc Hd H1 H2 E. rewrite <- (chunk_no_inv v c), <- (chunk_no_inv v d) by done. by rewrite E. Qed.

(** The chunk [c] changes hands: [o] is its owner now, [imp] whether it is imported. *)
Lemma space_chunk v G Ls cpu a L c g' G' mg a' L' ms' bytes' (imp : bool) : space_ok v G Ls -> local v !! cpu = Some a -> Ls !! cpu = Some L -> (VAS_CHUNK_SIZE | c) -> base v <= c -> c + VAS_CHUNK_SIZE <= limit v ->
  arena_ok g' G' mg -> glob_ok (base v) (limit v) G' -> (forall d, imported G' d <-> (imported G d /\ d <> c) \/ (imp = true /\ d = c)) -> (imp = true -> ~ imported G c) -> (imp = false -> owner_at v c (Z.of_nat cpu)) ->
  local_ok (fun d => (owns v G cpu d /\ d <> c) \/ (imp = true /\ d = c)) a' L' ms' -> accounted L (mag_reserved_bytes v) L' bytes' ->
  space_ok (mkVas g' (base v) (limit v) (map_base v) (<[cpu := a']> (local v)) (<[chunk_no v c := if imp then Z.of_nat cpu else VAS_OWNER_GLOBAL]> (chunk_owner v)) bytes') G' (<[cpu := L']> Ls).
Proof.
  intros H Ha HL Hc Hb1 Hb2 Hg Hok Himp Hnew Hold Hloc [Hac Hbb]. pose proof H as [H1 H2 H3 H4 H5 H6 H7 H8 H9 [H10 H11]]. destruct H1 as (R1 & R2 & R3 & R4). set (o := if imp then _ else _). assert (0 < VAS_CHUNK_SIZE) as Hpos by done. pose proof (lookup_lt_Some _ _ _ Ha) as Hcpu. assert (Z.of_nat cpu <> VAS_OWNER_GLOBAL) as Hcg by lia.
  pose proof (owner_index_lt v G Ls c H ltac:(lia)) as Hlt. assert (forall d, imported G d -> d <> c -> chunk_no v d <> chunk_no v c) as Hno by (intros d Hd Hne E; destruct (imported_range v G Ls d H Hd) as (? & ? & ?); apply Hne; eapply (chunk_no_inj v); try done; lia).
  set (v' := mkVas _ _ _ _ _ _ _). assert (owner_at v' c o) as Hat by (unfold owner_at; cbn [chunk_owner map_base v']; apply list_lookup_insert_eq; done).
  assert (forall d x, imported G d -> d <> c -> owner_at v' d x <-> owner_at v d x) as Hat' by (intros d x Hd Hne; unfold owner_at; cbn [chunk_owner map_base v']; rewrite list_lookup_insert_ne; [done|by apply not_eq_sym, Hno]).
  assert (forall cpu' d, owns v' G' cpu' d <-> (owns v G cpu' d /\ d <> c) \/ (imp = true /\ cpu' = cpu /\ d = c)) as Howns.
  { intros cpu' d. unfold owns. rewrite Himp. split.
    - intros [[[Hd Hne]|[Hi ->]] Ho]; [left; split_and!; [done|by apply Hat'|done]|right]. unfold owner_at in Ho, Hat. rewrite Hat in Ho. unfold o in Ho. rewrite Hi in Ho. injection Ho as Ho. split_and!; [done|lia|done].
    - intros [[[Hd Ho] Hne]|(Hi & -> & ->)]; [split; [by left|by apply Hat']|]. split; [by right|]. unfold o in Hat. by rewrite Hi in Hat. }
  split; unfold v'; vsimpl; rewrite ?length_insert; try done; [by exists mg| | | |].
  - intros cpu' b K Hb HK. destruct (decide (cpu = cpu')) as [<-|Hne].
    + rewrite list_lookup_insert_eq in Hb by (by eapply lookup_lt_Some). rewrite list_lookup_insert_eq in HK by (by eapply lookup_lt_Some). simplify_eq. exists ms'. eapply local_own; [|exact Hloc]. intros d. fold v'. rewrite Howns. naive_solver.
    + rewrite list_lookup_insert_ne in Hb by done. rewrite list_lookup_insert_ne in HK by done. destruct (H7 cpu' b K Hb HK) as [ms Hms]. exists ms. eapply local_own; [|exact Hms]. intros d. fold v'. rewrite Howns. split; [|intros [[? _]|(_ & -> & _)]; done].
      intros Hd. left. split; [done|]. intros ->. destruct Hd as [Hd Ho]. destruct imp; [by apply Hnew|]. specialize (Hold eq_refl). unfold owner_at in *. rewrite Ho in Hold. injection Hold as Hold. lia.
  - intros d [[Hd Hne]|[Hi ->]]%Himp; [destruct (H8 d Hd) as (cpu' & ? & ?); exists cpu'; split; [done|by apply Hat']|]. exists cpu. split; [done|]. unfold o in Hat. by rewrite Hi in Hat.
  - intros i x Hi. destruct (decide (i = chunk_no v c)) as [->|Hne].
    + rewrite list_lookup_insert_eq in Hi by done. injection Hi as <-. unfold o. destruct imp; [right|by left]. split; [lia|]. rewrite chunk_no_inv by (done || lia). apply Himp. by right.
    + rewrite list_lookup_insert_ne in Hi by done. destruct (H9 i x Hi) as [?|[? Hd]]; [by left|right]. split; [done|]. apply Himp. left. split; [done|]. intros E. apply Hne. rewrite <- E. unfold chunk_no. rewrite Z.add_simpl_l, Z.div_mul by done. by rewrite Nat2Z.id.
  - rewrite (slots_total_insert Ls cpu L L' HL). lia.
Qed.

(** *** A chunk for a CPU *)

Definition frame v v' : Prop := base v' = base v /\ limit v' = limit v /\ map_base v' = map_base v /\ length (local v') = length (local v).
Definition vsame G Ls G' Ls' : Prop := forall x n, vlive G' Ls' x n <-> vlive G Ls x n.
Definition vmore G Ls G' Ls' (x size : Z) : Prop := (forall y m, vlive G' Ls' y m <-> vlive G Ls y m \/ (y = x /\ m = size)) /\ forall m, ~ vlive G Ls x m.
Lemma vlive_local G G' Ls cpu L L' (R : Z -> Z -> Prop) : same_live G G' -> Ls !! cpu = Some L -> (forall y m, live_in L' y m <-> live_in L y m \/ R y m) -> forall y m, vlive G' (<[cpu := L']> Ls) y m <-> vlive G Ls y m \/ R y m.
Proof.
  intros HG HL HR y m. unfold vlive. rewrite (HG y m). pose proof (lookup_lt_Some _ _ _ HL) as Hlt. split.
  - intros [?|(c & K & HK & Hk)]; [tauto|]. destruct (decide (c = cpu)) as [->|Hne]; [|rewrite list_lookup_insert_ne in HK by done; left; right; by exists c, K]. rewrite list_lookup_insert_eq in HK by done. injection HK as <-. apply HR in Hk as [?|?]; [left; right; by exists cpu, L|by right].
  - intros [[?|(c & K & HK & Hk)]|HRy]; [tauto| |right; exists cpu, L'; split; [by apply list_lookup_insert_eq|apply HR; tauto]]. right. destruct (decide (c = cpu)) as [->|Hne]; [|exists c, K; split; [by rewrite list_lookup_insert_ne|done]]. simplify_eq. exists cpu, L'. split; [by apply list_lookup_insert_eq|apply HR; by left].
Qed.
Lemma vsame_local G G' Ls cpu L L' : same_live G G' -> Ls !! cpu = Some L -> same_live L L' -> vsame G Ls G' (<[cpu := L']> Ls).
Proof. intros HG HL HR x n. rewrite (vlive_local G G' Ls cpu L L' (fun _ _ => False) HG HL) by (intros y m; rewrite (HR y m); tauto). tauto. Qed.
(** An extent that is new in its arena is new in the space. *)
Lemma vmore_local v G G' Ls cpu L L' x n : space_ok v G' (<[cpu := L']> Ls) -> same_live G G' -> Ls !! cpu = Some L -> (forall y m, live_in L' y m <-> live_in L y m \/ (y = x /\ m = n)) -> (forall m, ~ live_in L x m) -> vmore G Ls G' (<[cpu := L']> Ls) x n.
Proof.
  intros H HG HL HR Hnew. pose proof (lookup_lt_Some _ _ _ HL) as Hlt. assert ((<[cpu := L']> Ls) !! cpu = Some L') as HL' by (by apply list_lookup_insert_eq). assert (live_in L' x n) as Hx by (apply HR; by right). split; [by apply (vlive_local G G' Ls cpu L L' (fun y m => y = x /\ m = n))|].
  assert (forall m, vlive G' (<[cpu := L']> Ls) x m -> 0 < m) as Hpos by (intros m Hv; by destruct (vlive_range _ _ _ _ _ H Hv) as (_ & ? & _)). pose proof (Hpos n ltac:(right; by exists cpu, L')) as Hn. intros m [Hm|(c & K & HK & Hm)].
  - apply HG in Hm. pose proof (Hpos m ltac:(by left)). destruct (global_local_apart v G' _ cpu L' x m x n H Hm HL' Hx); lia.
  - destruct (decide (c = cpu)) as [->|Hne]; [simplify_eq; by eapply Hnew|]. assert ((<[cpu := L']> Ls) !! c = Some K) as HK' by (by rewrite list_lookup_insert_ne). pose proof (Hpos m ltac:(right; by exists c, K)). destruct (locals_apart v G' _ c cpu K L' x m x n H); try done; lia.
Qed.
Lemma vmore_global v G G' Ls x n : space_ok v G' Ls -> one_more G G' x n -> vmore G Ls G' Ls x n.
Proof.
  intros H [HR Hnew]. split; [intros y m; unfold vlive; rewrite HR; tauto|]. assert (live_in G' x n) as Hx by (apply HR; by right). intros m [Hm|(c & K & HK & Hm)]; [by eapply Hnew|].
  destruct (vlive_range _ _ _ x m H) as (_ & ? & _); [right; by exists c, K|]. destruct (vlive_range _ _ _ x n H) as (_ & ? & _); [by left|]. destruct (global_local_apart v G' Ls c K x n x m H); try done; lia.
Qed.
Lemma vsame_global G G' Ls : same_live G G' -> vsame G Ls G' Ls.
Proof. intros HG x n. unfold vlive. by rewrite (HG x n). Qed.

(** A chunk is taken out of the global arena and marked; it can be put back. *)
Lemma take_chunk v G Ls : space_ok v G Ls -> exists g parent failed, arena_alloc DEBUG_RBT DEBUG_RBT_DEEP DEBUG_LOCK_CHK (global v) VAS_CHUNK_SIZE VAS_CHUNK_SIZE = Ok (g, parent, failed) /\
  ((parent = 0 /\ space_ok (with_global v g) G Ls) \/ (ok_addr parent /\ exists g' ps G' mg, set_type g parent VAS_SEG_IMPORTED = Ok g' /\ seg g' parent = Ok ps /\ (VAS_CHUNK_SIZE | start ps) /\ base v <= start ps /\ start ps + VAS_CHUNK_SIZE <= limit v /\ ~ imported G (start ps) /\
    arena_ok g' G' mg /\ glob_ok (base v) (limit v) G' /\ (forall d, imported G' d <-> imported G d \/ d = start ps) /\ same_live G G' /\
    exists g2 G2, arena_release DEBUG_RBT DEBUG_RBT_DEEP g' parent = Ok g2 /\ same_live G G2 /\ (forall d, imported G2 d <-> imported G d) /\ space_ok (with_global v g2) G2 Ls)).
Proof.
  intros H. destruct (so_global _ _ _ H) as [mg Hg]. pose proof (so_glob _ _ _ H) as Hok. destruct (glob_alloc DEBUG_RBT DEBUG_RBT_DEEP DEBUG_LOCK_CHK (base v) (limit v) (global v) G mg VAS_CHUNK_SIZE 26 Hg Hok) as (g & p & failed & E & Hr); [by rewrite chunk_size|lia|]. rewrite <- chunk_size in E, Hr.
  exists g, p, failed. split; [done|]. destruct Hr as [(-> & H1 & _)|(Hp & -> & K1 & s & K2 & H1 & Hok1 & Hty & Hlen & Hal & Hone & Himp)]; [left; split; [done|]; by eapply space_global|right]. split; [done|].
  destruct (glob_import (base v) (limit v) g K1 p s K2 mg H1 Hok1 Hty Hlen Hal) as (g' & s' & E2 & Hst & Hty' & H2 & Hok2). assert ((p, s') ∈ K1 ++ (p, s') :: K2) as Hin by (apply elem_mid; by left). pose proof (unalloc _ _ _ _ _ (proj2 H1) Hty ltac:(by rewrite Hlen)) as Hun.
  assert (forall d, imported G d <-> imported (K1 ++ K2) d) as Himp1.
  { intros d. rewrite <- Himp. unfold imported. setoid_rewrite elem_mid. split; [|naive_solver]. intros (q & t & [[= -> ->]|Hq] & Ht & Hd); [congruence|by exists q, t]. }
  destruct (proj1 Hok2 p s' Hin) as (_ & _ & P3 & P4 & P5). destruct (P5 Hty') as [Hlen' Hal']. exists g', s', (K1 ++ (p, s') :: K2), mg. split_and!; [done|by eapply arena_seg|done|done|lia| |done|done| | |].
  - intros (q & t & Hq & Ht & Hd)%Himp1. pose proof (proj2 (proj2 H2)) as Ho. destruct (Ho q t) as (_ & ? & _); [apply elem_mid; by right|]. destruct (Ho p s' Hin) as (_ & ? & _). assert (covers (start t) t /\ covers (start t) s') as [C1 C2] by (unfold covers; lia).
    destruct H2 as [_ HS2]. pose proof (covers_unique _ q t p s' (start t) HS2 ltac:(apply elem_mid; by right) Hin C1 C2) as [= -> ->]. apply arena_nodup in H1. apply nodup_skip in H1 as [_ Hn]. apply Hn, in_fst. by exists s'.
  - intros d. rewrite Himp1. unfold imported. setoid_rewrite elem_mid. split; [intros (q & t & [[= -> ->]|Hq] & Ht & <-); [by right|left; by exists q, t]|]. intros [(q & t & Hq & Ht & <-)| ->]; [exists q, t; tauto|exists p, s'; tauto].
  - intros x n. rewrite live_other by (by rewrite Hty'). apply Hun.
  - destruct (glob_release DEBUG_RBT DEBUG_RBT_DEEP (base v) (limit v) g' K1 p s' K2 mg H2 Hok2 ltac:(congruence)) as (g2 & G2 & E3 & H3 & Hok3 & Hl3 & Hi3). exists g2, G2. assert (forall d, imported G2 d <-> imported G d) as Hi2 by (intros d; by rewrite Hi3, Himp1). split_and!; [done|intros x n; rewrite (Hl3 x n); apply Hun|done|by eapply space_global].
Qed.

Definition served v G Ls (size k : Z) v' (r : Z) : Prop := exists G' Ls', space_ok v' G' Ls' /\ frame v v' /\ ((r = 0 /\ vsame G Ls G' Ls') \/ (0 < r /\ (2 ^ k | r) /\ vmore G Ls G' Ls' r size)).
Lemma served_local v v' G G' Ls cpu L L' x size k : space_ok v' G' (<[cpu := L']> Ls) -> frame v v' -> same_live G G' -> Ls !! cpu = Some L -> (forall y m, live_in L' y m <-> live_in L y m \/ (y = x /\ m = size)) -> (forall m, ~ live_in L x m) -> 0 < x -> (2 ^ k | x) -> served v G Ls size k v' x.
Proof. intros H Hf HG HL HR Hn Hx Hal. exists G', (<[cpu := L']> Ls). split_and!; [done|done|right]. split_and!; [done|done|]. by eapply vmore_local. Qed.
Lemma frame_local v cpu a n : frame v (with_bytes (with_local v cpu a) n).
Proof. split_and!; try done. cbn. by rewrite length_insert. Qed.
Lemma space_cpu v G Ls cpu : space_ok v G Ls -> (cpu < length (local v))%nat -> exists a L ms, local v !! cpu = Some a /\ Ls !! cpu = Some L /\ local_ok (owns v G cpu) a L ms.
Proof.
  intros H Hc. destruct (lookup_lt_is_Some_2 (local v) cpu Hc) as [a Ha]. destruct (lookup_lt_is_Some_2 Ls cpu) as [L HL]; [by rewrite (so_len _ _ _ H)|]. destruct (so_local _ _ _ H cpu a L Ha HL) as [ms Hms]. by exists a, L, ms.
Qed.
Lemma accounted_same L n L' : slot_sum L' = slot_sum L -> 0 <= n <= VAS_MAG_BYTE_LIMIT -> accounted L n L' n.
Proof. intros E Hn. split; [lia|done]. Qed.
Lemma space_same v G Ls cpu a L a' ms' : space_ok v G Ls -> local v !! cpu = Some a -> Ls !! cpu = Some L -> local_ok (owns v G cpu) a' L ms' -> space_ok (with_local v cpu a') G Ls.
Proof.
  intros H Ha HL H'. pose proof (space_sum v G Ls cpu L H HL) as Hb. rewrite <- (list_insert_id Ls cpu L) by done. change (with_local v cpu a') with (with_bytes (with_local v cpu a') (mag_reserved_bytes v)). eapply space_local; try done. apply accounted_same; [done|lia].
Qed.

Lemma import_alloc_ok enabled v G Ls cpu size k : space_ok v G Ls -> (cpu < length (local v))%nat -> 0 < size < 2 ^ 64 -> 0 <= k < 64 ->
  exists v' r failed, import_alloc DEBUG_RBT DEBUG_RBT_DEEP DEBUG_LOCK_CHK enabled v cpu size (2 ^ k) = Ok (v', r, failed) /\ served v G Ls size k v' r.
Proof.
  intros H Hcpu Hsz Hk. destruct (space_cpu v G Ls cpu H Hcpu) as (loc & L & ms & Ha & HL & Hloc). pose proof (space_sum v G Ls cpu L H HL) as Hby. pose proof Hloc as ([Hlst HS] & Hm & Hl & Hpk). unfold import_alloc. rewrite Ha. cbn [deref]. rewrite bind_Ok.
  destruct (lst_alloc loc _ _ _ _ _ _ Hlst) as (loc1 & p & -> & [[-> H1]|[Hp H1]]); rewrite bind_Ok.
  { rewrite Z.eqb_refl. do 3 eexists. split; [done|]. exists G, Ls. split_and!; [by eapply space_same|apply (frame_local v cpu loc1 (mag_reserved_bytes v))|by left]. }
  rewrite ok_ne0 by done. destruct (take_chunk v G Ls H) as (g & parent & failed & -> & [[-> Hg]|(Hpar & g' & ps & G' & mg & E2 & E3 & Hal & Hb1 & Hb2 & Hnew & Hg' & Hok' & Himp & HlG & g2 & G2 & E4 & HlG2 & Hi2 & Hg2)]); rewrite bind_Ok.
  { rewrite Z.eqb_refl. destruct (lst_free loc1 _ _ _ _ _ _ p zero_seg H1) as (loc2 & -> & H2). rewrite bind_Ok. do 3 eexists. split; [done|]. exists G, Ls. split_and!; [|by destruct (frame_local v cpu loc2 (mag_reserved_bytes v))|by left].
    change (with_global (with_local v cpu loc2) g) with (with_local (with_global v g) cpu loc2). by eapply space_same. }
  rewrite ok_ne0, E2, bind_Ok, E3, bind_Ok by done. rewrite (lst_seg _ _ _ _ _ _ _ p zero_seg H1), bind_Ok by (apply elem_of_app; right; by left). cbv zeta. cbn [type mag_slot]. fold (chunk_seg (start ps)). set (c := start ps) in *.
  destruct (so_range _ _ _ H) as (R1 & R2 & R3 & R4). assert (~ owns v G cpu c) as Hno by (by intros [? _]).
  destruct (add_chunk DEBUG_RBT DEBUG_RBT_DEEP DEBUG_LOCK_CHK (owns v G cpu) loc1 L p ms c H1 HS Hm Hl Hpk) as (a1 & pre & a2 & a3 & La & Lb & Ea1 & E5 & E6 & E7 & EL & H3); [intros d Hd; eapply owns_aligned; [apply H|done]|done|done|lia|lia|].
  rewrite <- Ea1, E5, bind_Ok, E6, bind_Ok, E7, bind_Ok. set (a4 := with_total a3 _) in *. assert (same_live L (La ++ (p, chunk_seg c) :: Lb)) as HlL by (intros x n; rewrite live_other by done; by rewrite EL).
  assert (slot_sum (La ++ (p, chunk_seg c) :: Lb) = slot_sum L) as HsL by (rewrite EL, !slot_sum_app, slot_sum_cons; cbn; lia).
  destruct (local_alloc DEBUG_RBT DEBUG_RBT_DEEP DEBUG_LOCK_CHK _ a4 _ ms size k H3 Hsz Hk) as (a5 & q & failed' & -> & [(-> & H5 & _)|(Hq & -> & K1 & s & K2 & H5 & Hty & Hms & Hlen & Hals & Hone & Hsum)]); rewrite bind_Ok.
  - rewrite Z.eqb_refl. destruct (drop_chunk DEBUG_RBT DEBUG_RBT_DEEP _ a5 La p (chunk_seg c) Lb ms H5) as (a6 & a7 & -> & E8 & H7 & _); [done..|]. rewrite bind_Ok, E8, bind_Ok, E4, bind_Ok. rewrite <- EL in H7.
    do 3 eexists. split; [done|]. exists G2, Ls. split_and!; [|by destruct (frame_local v cpu a7 (mag_reserved_bytes v))|left; split; [done|by apply vsame_global]]. change (with_global (with_local v cpu a7) g2) with (with_local (with_global v g2) cpu a7).
    eapply space_same; [exact Hg2|done|done|]. eapply local_own; [|exact H7]. intros d. unfold owns. rewrite Hi2. cbn [start chunk_seg]. split; [intros [[?|?] ?]; done|]. intros Hd. split; [by left|]. intros ->. by apply Hno.
  - rewrite ok_ne0 by done. rewrite (set_owner_ok v G Ls) by (done || rewrite chunk_size in *; lia). rewrite bind_Ok. rewrite (arena_seg _ _ _ _ _ (proj1 H5) (proj2 (elem_mid _ _ _ _) (or_introl eq_refl))), bind_Ok. vsimpl.
    destruct (refill_ok DEBUG_RBT DEBUG_RBT_DEEP DEBUG_LOCK_CHK _ enabled (mag_reserved_bytes v) a5 K1 q s K2 ms k H5 Hty Hms Hk ltac:(lia)) as (by' & a6 & L' & ms' & -> & H6 & Hl6 & Hac). rewrite bind_Ok. do 3 eexists. split; [done|].
    pose proof (proj2 (proj1 H5)) as [_ Ho]. destruct (Ho q s) as (O1 & O2 & O3); [apply elem_mid; by left|]. apply (served_local v _ G G' Ls cpu L L'); [|split_and!; try done; cbn; by rewrite length_insert|done|done|intros y m; by rewrite (Hl6 y m), (proj1 Hone y m), (HlL y m)|intros m Hlm%HlL; by apply (proj2 Hone m)|lia|done].
    + apply (space_chunk v G Ls cpu loc L c g' G' mg a6 L' ms' by' true); try done.
      * intros d. rewrite Himp. split; [|tauto]. intros [Hd| ->]; [left; split; [done|]; intros ->; done|by right].
      * eapply local_own; [|exact H6]. intros d. split; [|tauto]. intros [Hd| ->]; [left; split; [done|]; intros ->; done|by right].
      * destruct Hac as [Hac ?]. split; [lia|done].
Qed.

(** *** Chunks go back *)

Definition whole s : Prop := type s = VAS_SEG_FREE /\ start s = span_start s /\ slen s = VAS_CHUNK_SIZE.
(** The segment of an imported chunk is found, and released. *)
Lemma return_chunk v G Ls cpu c : space_ok v G Ls -> owns v G cpu c -> exists parent ps g' G' mg, segment_find (global v) c = Ok parent /\ ok_addr parent /\ seg (global v) parent = Ok ps /\ start ps = c /\ slen ps = VAS_CHUNK_SIZE /\ type ps = VAS_SEG_IMPORTED /\
  arena_release DEBUG_RBT DEBUG_RBT_DEEP (global v) parent = Ok g' /\ arena_ok g' G' mg /\ glob_ok (base v) (limit v) G' /\ same_live G G' /\ (forall d, imported G' d <-> imported G d /\ d <> c).
Proof.
  intros H Hown. destruct (so_global _ _ _ H) as [mg Hg]. pose proof (so_glob _ _ _ H) as Hok. destruct (chunk_segment v G Ls cpu c H Hown) as (q & t & Hq & Ht & Hst & Hlen). pose proof (proj2 (proj2 Hg) q t Hq) as (T1 & T2 & T3).
  destruct (segment_find_ok (global v) G mg c Hg) as (p & E & Hp); [unfold in_u; lia|]. destruct Hp as [(u & Hu & Hcov)|[_ Hn]]; [|exfalso; apply (Hn q t Hq); unfold covers; lia]. pose proof (covers_unique G p u q t c (proj2 Hg) Hu Hq Hcov ltac:(unfold covers; lia)) as [= -> ->].
  destruct (list_elem_of_split _ _ Hq) as (K1 & K2 & EG). rewrite EG in Hg, Hok. destruct (glob_release DEBUG_RBT DEBUG_RBT_DEEP (base v) (limit v) (global v) K1 q t K2 mg Hg Hok ltac:(congruence)) as (g' & G' & E2 & H2 & Hok2 & Hl2 & Hi2). rewrite <- EG in Hg, Hok.
  exists q, t, g', G', mg. split_and!; try done; [by apply (arena_addr (global v) G mg q t)|by apply (arena_seg (global v) G mg q t)| |].
  - intros x n. rewrite (Hl2 x n), EG, live_other; [done|congruence].
  - intros d. rewrite Hi2, EG. unfold imported. setoid_rewrite elem_mid. split.
    + intros (r & w & Hr & Hw & <-). split; [exists r, w; tauto|]. intros E'. assert ((r, w) ∈ G) as Hr' by (rewrite EG; apply elem_mid; by right). pose proof (proj2 (proj2 Hg) r w Hr') as (W1 & W2 & W3).
      pose proof (covers_unique G r w q t c (proj2 Hg) Hr' Hq ltac:(unfold covers; lia) ltac:(unfold covers; lia)) as [= -> ->]. apply arena_nodup in Hg. rewrite EG in Hg. apply nodup_skip in Hg as [_ Hg]. apply Hg, in_fst. by exists t.
    + intros [(r & w & [[= -> ->]|Hr] & Hw & <-) Hne]; [done|by exists r, w].
Qed.
Lemma reclaim_segs_ok cpu l : forall v G Ls L, space_ok v G Ls -> Ls !! cpu = Some L -> NoDup l -> (forall p, p ∈ l -> p ∈ L.*1) -> exists v' G' L', reclaim_segs DEBUG_RBT DEBUG_RBT_DEEP v cpu l = Ok v' /\
  space_ok v' G' (<[cpu := L']> Ls) /\ frame v v' /\ same_live G G' /\ same_live L L' /\ (forall p s, (p, s) ∈ L' <-> (p, s) ∈ L /\ ~ (p ∈ l /\ whole s)).
Proof.
  induction l as [|p l IH]; intros v G Ls L H HL Hnd Hin; cbn [reclaim_segs].
  { exists v, G, L. rewrite list_insert_id by done. split_and!; [done|done|done|done|done|]. intros p s. split; [intros ?; split; [done|by intros [?%elem_of_nil _]]|by intros [? _]]. }
  apply list.NoDup_cons in Hnd as [Hp Hnd]. destruct (proj1 (in_fst L p) (Hin p (list_elem_of_here _ _))) as [s Hps]. assert (cpu < length (local v))%nat as Hcpu by (rewrite <- (so_len _ _ _ H); by eapply lookup_lt_Some).
  destruct (space_cpu v G Ls cpu H Hcpu) as (a & L0 & ms & Ha & HL0 & Hloc). simplify_eq. rewrite Ha. cbn [deref]. rewrite bind_Ok. pose proof Hloc as (Har & Hm & Hl & Hpk). rewrite (arena_seg _ _ _ _ _ Har Hps), bind_Ok.
  destruct (negb _ || negb _ || negb _) eqn:Ew.
  - destruct (IH v G Ls L H HL Hnd) as (v' & G' & L' & E & R1 & R2 & R3 & R4 & R5); [intros q Hq; apply Hin; by right|]. exists v', G', L'. split_and!; try done. intros q t. rewrite R5. split; intros [Hq Hn]; (split; [done|]); intros [Hql Hw]; apply Hn; (split; [|done]); [|by right].
    apply elem_of_cons in Hql as [->|Hql]; [|done]. rewrite (nodup_fst L p t s (arena_nodup _ _ _ Har) Hq Hps) in Hw. destruct Hw as (W1 & W2 & W3). exfalso. rewrite bool_decide_true, W2, Z.eqb_refl, W3, Z.eqb_refl in Ew by done. done.
  - apply orb_false_iff in Ew as [[W1%negb_false_iff W2%negb_false_iff]%orb_false_iff W3%negb_false_iff]. apply bool_decide_eq_true in W1. apply Z.eqb_eq in W2, W3. destruct (Hl p s Hps) as (_ & _ & _ & _ & _ & Hown). rewrite <- W2 in Hown.
    destruct (return_chunk v G Ls cpu (start s) H Hown) as (par & ps & g' & G' & mg & -> & Hpar & E2 & Q1 & Q2 & Q3 & E3 & Hg' & Hok' & Hlg & Hig). rewrite bind_Ok, ok_ne0, E2, bind_Ok by done. rewrite Q1, Q2, Q3, !Z.eqb_refl, bool_decide_true by done. cbn [andb enforce]. rewrite bind_Ok, W3.
    destruct (list_elem_of_split _ _ Hps) as (La & Lb & EL). rewrite EL in Hloc. destruct (drop_chunk DEBUG_RBT DEBUG_RBT_DEEP _ a La p s Lb ms Hloc W1 W2 W3) as (a1 & a2 & -> & E5 & H5 & Hsum). rewrite bind_Ok, E5, bind_Ok, E3, bind_Ok.
    destruct (imported_range v G Ls (start s) H (proj1 Hown)) as (I1 & I2 & I3). rewrite (set_owner_ok v G Ls) by (done || rewrite chunk_size in *; lia). rewrite bind_Ok. vsimpl. pose proof (space_sum v G Ls cpu L H HL) as Hby.
    pose proof (space_chunk v G Ls cpu a L (start s) g' G' mg a2 (La ++ Lb) ms (mag_reserved_bytes v) false H Ha HL I1 I2 I3 Hg' Hok') as H6. set (v1 := mkVas _ _ _ _ _ _ _) in *.
    destruct (IH v1 G' (<[cpu := La ++ Lb]> Ls) (La ++ Lb)) as (v' & G2 & L' & E6 & R1 & R2 & R3 & R4 & R5).
    + apply H6; [intros d; rewrite Hig; naive_solver|done|intros _; apply Hown| |apply accounted_same; [by rewrite Hsum, EL|lia]]. eapply local_own; [|exact H5]. intros d. naive_solver.
    + apply list_lookup_insert_eq. by eapply lookup_lt_Some.
    + done.
    + intros q Hq. assert (q <> p) as Hne by (by intros ->). pose proof (Hin q ltac:(by right)) as [t Ht]%in_fst. apply in_fst. exists t. rewrite EL in Ht. apply elem_mid in Ht as [[= -> ->]|?]; done.
    + exists v', G2, L'. rewrite list_insert_insert_eq in R1. split_and!; [done|done| | | |].
      * destruct R2 as (F1 & F2 & F3 & F4). split_and!; try done. rewrite F4. cbn. by rewrite length_insert.
      * intros x n. rewrite (R3 x n). apply Hlg.
      * intros x n. rewrite (R4 x n), EL, live_other; [done|congruence].
      * intros q t. rewrite R5, EL, elem_mid. assert (forall t, (p, t) ∉ La ++ Lb) as Hnp by (intros t' Ht'; apply arena_nodup in Har; rewrite EL in Har; apply nodup_skip in Har as [_ Har]; apply Har, in_fst; by exists t').
        split; [intros [Hq Hn]; split; [by right|]; intros [[->|Hql]%elem_of_cons Hw]; [by eapply Hnp|by apply Hn]|]. intros [[[= -> ->]|Hq] Hn]; [exfalso; apply Hn; split; [by left|done]|]. split; [done|]. intros [Hql Hw]. apply Hn. split; [by right|done].
Qed.
Definition clean L : Prop := forall p s, (p, s) ∈ L -> type s <> VAS_SEG_CACHED /\ ~ whole s.
Lemma frame_trans v1 v2 v3 : frame v1 v2 -> frame v2 v3 -> frame v1 v3.
Proof. intros (A1 & A2 & A3 & A4) (B1 & B2 & B3 & B4). split_and!; congruence. Qed.
Lemma vsame_trans G1 Ls1 G2 Ls2 G3 Ls3 : vsame G1 Ls1 G2 Ls2 -> vsame G2 Ls2 G3 Ls3 -> vsame G1 Ls1 G3 Ls3.
Proof. intros A B x n. rewrite (B x n). apply A. Qed.
Lemma reclaim_cpu_ok v G Ls cpu : space_ok v G Ls -> (cpu < length (local v))%nat -> exists v' G' L', reclaim_cpu DEBUG_RBT DEBUG_RBT_DEEP v cpu = Ok v' /\ space_ok v' G' (<[cpu := L']> Ls) /\ frame v v' /\ vsame G Ls G' (<[cpu := L']> Ls) /\ clean L'.
Proof.
  intros H Hcpu. destruct (space_cpu v G Ls cpu H Hcpu) as (a & L & ms & Ha & HL & Hloc). pose proof (space_sum v G Ls cpu L H HL) as Hby. unfold reclaim_cpu. rewrite Ha. cbn [deref]. rewrite bind_Ok.
  destruct (drain_ok DEBUG_RBT DEBUG_RBT_DEEP _ (mag_reserved_bytes v) a L ms Hloc ltac:(lia)) as (by1 & a1 & L1 & ms1 & -> & H1 & Hl1 & Hac & Hnc). rewrite bind_Ok. pose proof (space_local v G Ls cpu a L a1 L1 ms1 by1 H Ha HL H1 Hac) as H2. pose proof (lookup_lt_Some _ _ _ HL) as Hlt.
  pose proof (proj1 H1) as Har. assert (all_segs a1 = L1.*1) as -> by apply Har. destruct (reclaim_segs_ok cpu L1.*1 _ G (<[cpu := L1]> Ls) L1 H2) as (v' & G' & L' & E & R1 & R2 & R3 & R4 & R5); [by apply list_lookup_insert_eq|by eapply arena_nodup|done|].
  exists v', G', L'. rewrite list_insert_insert_eq in R1. split_and!; [done|done|eapply frame_trans; [apply frame_local|done]| |].
  - apply (vsame_local G G' Ls cpu L L'); [done|done|]. intros x n. rewrite (R4 x n). apply Hl1.
  - intros p s [Hp Hn]%R5. split; [by eapply Hnc|]. intros Hw. apply Hn. split; [|done]. apply in_fst. by exists s.
Qed.
Lemma reclaim_cpus_ok l : forall v G Ls, space_ok v G Ls -> (forall cpu, cpu ∈ l -> (cpu < length (local v))%nat) -> exists v' G' Ls', reclaim_cpus DEBUG_RBT DEBUG_RBT_DEEP v l = Ok v' /\ space_ok v' G' Ls' /\ frame v v' /\ vsame G Ls G' Ls' /\
  (forall cpu L, cpu ∈ l -> Ls' !! cpu = Some L -> clean L) /\ (forall cpu, cpu ∉ l -> Ls' !! cpu = Ls !! cpu).
Proof.
  induction l as [|cpu l IH]; intros v G Ls H Hl; cbn [reclaim_cpus]; [exists v, G, Ls; split_and!; try done; by intros cpu L ?%elem_of_nil|].
  destruct (reclaim_cpu_ok v G Ls cpu H (Hl cpu (list_elem_of_here _ _))) as (v1 & G1 & L1 & -> & H1 & F1 & S1 & C1). rewrite bind_Ok. pose proof (lookup_lt_is_Some_2 Ls cpu) as Hlt. rewrite (so_len _ _ _ H) in Hlt. specialize (Hlt (Hl cpu (list_elem_of_here _ _))) as [L0 HL0]. pose proof (lookup_lt_Some _ _ _ HL0) as Hlt.
  destruct (IH v1 G1 _ H1) as (v' & G' & Ls' & E & R1 & R2 & R3 & R4 & R5); [intros c Hc; destruct F1 as (_ & _ & _ & ->); apply Hl; by right|]. exists v', G', Ls'. split_and!; [done|done|by eapply frame_trans|by eapply vsame_trans| |].
  - intros c L [->|Hc]%elem_of_cons HL; [|by eapply R4]. destruct (decide (cpu ∈ l)) as [Hin|Hnin]; [by eapply R4|]. rewrite R5, list_lookup_insert_eq in HL by done. by injection HL as <-.
  - intros c Hc. rewrite R5, list_lookup_insert_ne; [done| |]; [intros ->; apply Hc; by left|intros ?; apply Hc; by right].
Qed.
Lemma reclaim_locked_ok v G Ls : space_ok v G Ls -> exists v' G' Ls', reclaim_locked DEBUG_RBT DEBUG_RBT_DEEP v = Ok v' /\ space_ok v' G' Ls' /\ frame v v' /\ vsame G Ls G' Ls' /\ (forall cpu L, Ls' !! cpu = Some L -> clean L).
Proof.
  intros H. destruct (reclaim_cpus_ok (seq 0 (length (local v))) v G Ls H) as (v' & G' & Ls' & E & R1 & R2 & R3 & R4 & R5); [intros c; rewrite elem_of_seq; lia|]. exists v', G', Ls'. split_and!; [done..|]. intros cpu L HL. eapply R4; [|done]. apply elem_of_seq. apply lookup_lt_Some in HL. rewrite (so_len _ _ _ R1) in HL. destruct R2 as (_ & _ & _ & R2). lia.
Qed.

(** *** Allocating *)

Lemma served_trans v G Ls v1 G1 Ls1 size k v' r : frame v v1 -> vsame G Ls G1 Ls1 -> served v1 G1 Ls1 size k v' r -> served v G Ls size k v' r.
Proof.
  intros Hf Hs (G' & Ls' & H & Hf' & Hr). exists G', Ls'. split_and!; [done|by eapply frame_trans|]. destruct Hr as [[-> Hr]|(? & ? & Hr)]; [left; split; [done|by eapply vsame_trans]|right]. destruct Hr as [Hr Hn]. split_and!; [done|done|]. split; [intros y m; by rewrite (Hr y m), (Hs y m)|]. intros m Hm. by apply (Hn m), Hs.
Qed.
Lemma served_none v G Ls size k : space_ok v G Ls -> served v G Ls size k v 0.
Proof. intros H. exists G, Ls. split_and!; [done|done|by left]. Qed.
Lemma global_alloc v G Ls size k : space_ok v G Ls -> 0 < size < 2 ^ 64 -> 0 <= k < 64 -> exists g p failed, arena_alloc DEBUG_RBT DEBUG_RBT_DEEP DEBUG_LOCK_CHK (global v) size (2 ^ k) = Ok (g, p, failed) /\
  ((p = 0 /\ served v G Ls size k (with_global v g) 0) \/ (ok_addr p /\ exists s, seg g p = Ok s /\ served v G Ls size k (with_global v g) (start s))).
Proof.
  intros H Hsz Hk. destruct (so_global _ _ _ H) as [mg Hg]. pose proof (so_glob _ _ _ H) as Hok. destruct (glob_alloc DEBUG_RBT DEBUG_RBT_DEEP DEBUG_LOCK_CHK (base v) (limit v) (global v) G mg size k Hg Hok Hsz Hk) as (g & p & failed & E & [(-> & H1 & _)|(Hp & -> & K1 & s & K2 & H1 & Hok1 & Hty & Hlen & Hal & Hone & Himp)]);
    exists g; eexists _, _; (split; [done|]); [left; split; [done|]; exists G, Ls; split_and!; [by eapply space_global|done|by left]|right]. split; [done|]. assert ((p, s) ∈ K1 ++ (p, s) :: K2) as Hin by (apply elem_mid; by left). pose proof (proj2 (proj2 H1) p s Hin) as (O1 & O2 & O3).
  exists s. split; [by eapply arena_seg|]. assert (space_ok (with_global v g) (K1 ++ (p, s) :: K2) Ls) as H2 by (by eapply space_global). exists (K1 ++ (p, s) :: K2), Ls. split_and!; [done|done|right]. split_and!; [done|done|]. by eapply vmore_global.
Qed.
Lemma alloc_attempts_ok enabled cpu size k loc_req : 0 < size < 2 ^ 64 -> 0 <= k < 64 -> forall n v G Ls, space_ok v G Ls -> (cpu < length (local v))%nat ->
  exists v' r, alloc_attempts DEBUG_RBT DEBUG_RBT_DEEP DEBUG_LOCK_CHK n enabled v cpu size (2 ^ k) loc_req = Ok (v', r) /\ served v G Ls size k v' r.
Proof.
  intros Hsz Hk. induction n as [|n IH]; intros v G Ls H Hcpu; cbn [alloc_attempts]; [exists v, 0; split; [done|by apply served_none]|].
  assert (exists v1 r1 f1, (if loc_req then import_alloc DEBUG_RBT DEBUG_RBT_DEEP DEBUG_LOCK_CHK enabled v cpu size (2 ^ k) else Ok (v, 0, false)) = Ok (v1, r1, f1) /\ served v G Ls size k v1 r1) as (v1 & r1 & f1 & -> & S1).
  { destruct loc_req; [by apply import_alloc_ok|]. exists v, 0, false. split; [done|by apply served_none]. }
  rewrite bind_Ok. match goal with |- context [mbind _ ?X] => assert (exists v2 r2 f2, X = Ok (v2, r2, f2) /\ served v G Ls size k v2 r2) as (v2 & r2 & f2 & -> & S2) end.
  { destruct (Z.eqb_spec r1 0) as [->|]; [|by exists v1, r1, f1]. destruct f1; cbn [negb andb]; [by exists v1, 0, true|]. destruct S1 as (G1 & Ls1 & H1 & F1 & [[_ S1]|[? _]]); [|lia].
    destruct (global_alloc v1 G1 Ls1 size k H1 Hsz Hk) as (g & p & failed & -> & [[-> S2]|(Hp & s & Es & S2)]); rewrite bind_Ok; [rewrite Z.eqb_refl; do 3 eexists; split; [done|by eapply served_trans]|]. rewrite ok_ne0, Es, bind_Ok by done. do 3 eexists. split; [done|by eapply served_trans]. }
  rewrite bind_Ok. destruct (negb _ || _ || _) eqn:Eb; [by exists v2, r2|]. apply orb_false_iff in Eb as [[Eb%negb_false_iff%Z.eqb_eq _]%orb_false_iff _]. subst r2. destruct S2 as (G2 & Ls2 & H2 & F2 & [[_ S2]|[? _]]); [|lia].
  destruct (reclaim_locked_ok v2 G2 Ls2 H2) as (v3 & G3 & Ls3 & -> & H3 & F3 & S3 & _). rewrite bind_Ok. destruct (IH v3 G3 Ls3 H3) as (v' & r & E & S4); [destruct F2 as (_ & _ & _ & F2), F3 as (_ & _ & _ & F3); lia|]. exists v', r. split; [done|]. eapply served_trans; [by eapply frame_trans|by eapply vsame_trans|done].
Qed.

Lemma with_local_id v cpu a : local v !! cpu = Some a -> with_local v cpu a = v.
Proof. intros H. destruct v. unfold with_local. cbn in *. by rewrite list_insert_id. Qed.
Lemma alloc_local_ok enabled v G Ls cpu size k : space_ok v G Ls -> (cpu < length (local v))%nat -> 0 < size < 2 ^ 64 -> 0 <= k < 64 -> exists loc a p failed, local v !! cpu = Some loc /\ arena_alloc DEBUG_RBT DEBUG_RBT_DEEP DEBUG_LOCK_CHK loc size (2 ^ k) = Ok (a, p, failed) /\
  ((p = 0 /\ served v G Ls size k (with_local v cpu a) 0) \/ (ok_addr p /\ exists s bytes a', seg a p = Ok s /\ 0 < start s /\ magazine_refill DEBUG_RBT DEBUG_RBT_DEEP DEBUG_LOCK_CHK enabled (mag_reserved_bytes v) a p (2 ^ k) = Ok (bytes, a') /\ served v G Ls size k (with_bytes (with_local v cpu a') bytes) (start s))).
Proof.
  intros H Hcpu Hsz Hk. destruct (space_cpu v G Ls cpu H Hcpu) as (loc & L & ms & Ha & HL & Hloc). pose proof (space_sum v G Ls cpu L H HL) as Hby.
  destruct (local_alloc DEBUG_RBT DEBUG_RBT_DEEP DEBUG_LOCK_CHK _ loc L ms size k Hloc Hsz Hk) as (a & p & failed & E & [(-> & H1 & _)|(Hp & -> & K1 & s & K2 & H1 & Hty & Hms & Hlen & Hal & Hone & Hsum)]); exists loc, a; eexists _, _; (split; [done|]); (split; [done|]); [left; split; [done|]|right; split; [done|]].
  - exists G, Ls. split_and!; [by eapply space_same|apply (frame_local v cpu a (mag_reserved_bytes v))|by left].
  - destruct (refill_ok DEBUG_RBT DEBUG_RBT_DEEP DEBUG_LOCK_CHK _ enabled (mag_reserved_bytes v) a K1 p s K2 ms k H1 Hty Hms Hk ltac:(lia)) as (by' & a' & L' & ms' & E2 & H2 & Hl2 & Hac). assert ((p, s) ∈ K1 ++ (p, s) :: K2) as Hin by (apply elem_mid; by left). pose proof (proj2 (proj2 (proj1 H1)) p s Hin) as (O1 & O2 & O3).
    exists s, by', a'. split_and!; [by apply (arena_seg a (K1 ++ (p, s) :: K2) ms); [apply H1|]|done|done|]. apply (served_local v _ G G Ls cpu L L'); [|apply frame_local|done|done|intros y m; by rewrite (Hl2 y m), (proj1 Hone y m)|apply Hone|done|done].
    eapply space_local; try done. destruct Hac as [Hac ?]. split; [lia|done].
Qed.
Lemma alloc_magazine_ok v G Ls cpu loc cls size k : space_ok v G Ls -> local v !! cpu = Some loc -> (cls < 4)%nat -> mag_sizes !! cls = Some size -> 0 <= k < 64 -> exists a r, magazine_alloc loc cls (2 ^ k) = Ok (a, r) /\ ((r = 0 /\ a = loc) \/ (0 < r /\ served v G Ls size k (with_local v cpu a) r)).
Proof.
  intros H Ha Hc Hsz Hk. destruct (space_cpu v G Ls cpu H) as (loc' & L & ms & Ha' & HL & Hloc); [by eapply lookup_lt_Some|]. simplify_eq. pose proof (space_sum v G Ls cpu L H HL) as Hby.
  destruct (magazine_alloc_ok _ loc L ms cls k Hloc Hc Hk) as (a & r & E & [[-> ->]|(Hr & Hal & L' & ms' & size' & Hsz' & H1 & Hone & Hsum)]); [exists loc, 0; split; [done|by left]|]. exists a, r. split; [done|right]. split; [done|]. simplify_eq.
  apply (served_local v _ G G Ls cpu L L'); [|apply (frame_local v cpu a (mag_reserved_bytes v))|done|done|apply Hone|apply Hone|done|done].
  change (with_local v cpu a) with (with_bytes (with_local v cpu a) (mag_reserved_bytes v)). eapply space_local; try done. apply accounted_same; [done|lia].
Qed.
Lemma vas_alloc_served enabled v G Ls cpu size k : space_ok v G Ls -> (cpu < length (local v))%nat -> in_u 64 size -> 0 <= k < 64 -> exists v' r, vas_alloc DEBUG_RBT DEBUG_RBT_DEEP DEBUG_LOCK_CHK enabled v cpu size (2 ^ k) = Ok (v', r) /\ served v G Ls size k v' r.
Proof.
  intros H Hcpu Hsize Hk. unfold vas_alloc. destruct (_ || _ || _) eqn:Eg; [exists v, 0; split; [done|by apply served_none]|]. apply orb_false_iff in Eg as [[Hs0%Z.eqb_neq _]%orb_false_iff _]. unfold in_u in Hsize.
  destruct (lookup_lt_is_Some_2 (local v) cpu Hcpu) as [loc Ha]. rewrite Ha. cbn [deref]. rewrite bind_Ok. pose proof (mag_class_le size) as Hcl.
  match goal with |- context [mbind _ ?X] => assert (exists a r, X = Ok (a, r) /\ ((r = 0 /\ a = loc) \/ (0 < r /\ served v G Ls size k (with_local v cpu a) r))) as (a & r & -> & Hr) end.
  { destruct (_ && enabled) eqn:Ec; [|exists loc, 0; split; [done|by left]]. apply andb_true_iff in Ec as [Ec%Z.ltb_lt _]. unfold VAS_MAG_CLASSES in Ec. destruct (alloc_magazine_ok v G Ls cpu loc (mag_class size) size k H Ha ltac:(lia) (mag_class_spec size ltac:(lia)) Hk) as (a & r & E & S). by exists a, r. }
  rewrite bind_Ok. destruct Hr as [[-> ->]|[Hr S]]; [|rewrite (proj2 (Z.eqb_neq r 0)) by lia; by exists (with_local v cpu a), r]. rewrite Z.eqb_refl. cbn [negb]. rewrite (with_local_id v cpu loc Ha).
  match goal with |- context [mbind _ ?X] => assert (exists v1 r1 f1, X = Ok (v1, r1, f1) /\ served v G Ls size k v1 r1) as (v1 & r1 & f1 & -> & S1) end.
  { destruct (_ && _); [|exists v, 0, false; split; [done|by apply served_none]]. destruct (alloc_local_ok enabled v G Ls cpu size k H Hcpu ltac:(lia) Hk) as (loc' & a1 & p & failed & Ha' & E1 & Hr). simplify_eq. rewrite E1, bind_Ok.
    destruct Hr as [[-> S1]|(Hp & s & bytes & a' & -> & _ & E2 & S1)]; [rewrite Z.eqb_refl; by do 3 eexists|]. rewrite ok_ne0, bind_Ok, E2, bind_Ok by done. by do 3 eexists. }
  rewrite bind_Ok. destruct (negb _ || _) eqn:Eb; [by exists v1, r1|]. apply orb_false_iff in Eb as [Eb%negb_false_iff%Z.eqb_eq _]. subst r1. destruct S1 as (G1 & Ls1 & H1 & F1 & [[_ S1]|[? _]]); [|lia].
  destruct (alloc_attempts_ok enabled cpu size k ((size <=? VAS_CHUNK_SIZE) && (2 ^ k <=? VAS_CHUNK_SIZE)) ltac:(lia) Hk 2 v1 G1 Ls1 H1) as (v' & r & E & S2); [by destruct F1 as (_ & _ & _ & ->)|]. exists v', r. split; [done|by eapply served_trans].
Qed.
Lemma vas_alloc_ok enabled v G Ls cpu size align : space_ok v G Ls -> (cpu < length (local v))%nat -> in_u 64 size -> in_u 64 align -> exists v' r G' Ls', vas_alloc DEBUG_RBT DEBUG_RBT_DEEP DEBUG_LOCK_CHK enabled v cpu size align = Ok (v', r) /\
  space_ok v' G' Ls' /\ frame v v' /\ ((r = 0 /\ vsame G Ls G' Ls') \/ (0 < r /\ (align | r) /\ vmore G Ls G' Ls' r size)).
Proof.
  intros H Hcpu Hsize Halign. destruct (IS_POW2 align) eqn:Ep.
  - destruct (IS_POW2_64 align Halign Ep) as (k & Hk & ->). destruct (vas_alloc_served enabled v G Ls cpu size k H Hcpu Hsize Hk) as (v' & r & E & (G' & Ls' & R)). by exists v', r, G', Ls'.
  - exists v, 0, G, Ls. unfold vas_alloc. rewrite Ep. cbn [negb]. rewrite orb_true_r. split_and!; [done|done|done|by left].
Qed.

(** *** The arena of an address *)

(** The segments of the arena that an owner stands for. *)
Definition owner_list G Ls (o : option nat) : segments := match o with None => G | Some cpu => default [] (Ls !! cpu) end.
Lemma lock_owner_ok v G Ls x : space_ok v G Ls -> base v <= x < limit v -> exists o a, vas_lock_owner v x = Ok o /\ arena_of v o = Ok a /\ (exists ms, arena_ok a (owner_list G Ls o) ms) /\
  (forall cpu, o = Some cpu -> local v !! cpu = Some a /\ Ls !! cpu = Some (owner_list G Ls o)) /\
  (forall y n, y <= x < y + n -> vlive G Ls y n -> live_in (owner_list G Ls o) y n).
Proof.
  intros H Hx. pose proof (so_range _ _ _ H) as (R1 & R2 & R3 & R4). destruct (owner_index_ok v x) as [Ei Hi]; [lia|lia|]. pose proof (owner_index_lt v G Ls x H Hx) as Hlt. destruct (lookup_lt_is_Some_2 (chunk_owner v) (chunk_no v x) Hlt) as [o Ho]. unfold vas_lock_owner. rewrite Ei, (proj2 (aget_Ok _ _ o)), bind_Ok by (split; [done|exact Ho]).
  assert (0 < VAS_CHUNK_SIZE) as Hcs by done. pose proof (Z.div_mod (x - map_base v) VAS_CHUNK_SIZE ltac:(lia)) as Hdm. pose proof (Z.mod_pos_bound (x - map_base v) VAS_CHUNK_SIZE Hcs) as Hmb. set (c := map_base v + Z.of_nat (chunk_no v x) * VAS_CHUNK_SIZE). assert (c <= x < c + VAS_CHUNK_SIZE) as Hcx by (unfold c, chunk_no; lia).
  destruct (so_global _ _ _ H) as [mg Hg]. assert (forall cpu L y n, Ls !! cpu = Some L -> live_in L y n -> y <= x < y + n -> o = Z.of_nat cpu) as Hcpu.
  { intros cpu L y n HL Hl Hy. destruct (live_chunk v G Ls cpu L y n H HL Hl) as (d & [Hd Hod] & D1 & D2 & D3). destruct (imported_range v G Ls d H Hd) as (I1 & I2 & I3). assert (chunk_no v d = chunk_no v x) as E.
    { unfold chunk_no. f_equal. destruct R4 as [m Hm], I1 as [j ->]. rewrite Hm in *. rewrite chunk_size in *. assert (j * 2 ^ 26 - m * 2 ^ 26 = (j - m) * 2 ^ 26) as -> by lia. rewrite Z.div_mul by lia. apply Z.div_unique with (x - j * 2 ^ 26); lia. }
    unfold owner_at in Hod. fold (chunk_no v d) in Hod. rewrite E, Ho in Hod. congruence. }
  destruct (so_owner _ _ _ H _ _ Ho) as [->|[Hor Himp]].
  - cbn [enforce orb]. rewrite Z.eqb_refl. cbn [enforce orb]. rewrite bind_Ok. exists None, (global v). split_and!; [done|done|by exists mg|done|]. intros y n Hy [Hl|(cpu & L & HL & Hl)]; [done|]. pose proof (Hcpu cpu L y n HL Hl Hy) as E. apply lookup_lt_Some in HL. rewrite (so_len _ _ _ H) in HL. pose proof (so_cpus _ _ _ H). lia.
  - assert (o <> VAS_OWNER_GLOBAL) as Hno by (pose proof (so_cpus _ _ _ H); lia). rewrite (proj2 (Z.eqb_neq o VAS_OWNER_GLOBAL) Hno), (proj2 (Z.ltb_lt _ _)) by lia. cbn [enforce orb]. rewrite bind_Ok. destruct (space_cpu v G Ls (Z.to_nat o) H ltac:(lia)) as (a & L & ms & Ha & HL & Hloc).
    exists (Some (Z.to_nat o)), a. cbn [arena_of owner_list]. rewrite Ha, HL. cbn [deref default from_option id]. split_and!; [done|done|exists ms; apply Hloc|by intros cpu [= <-]|]. intros y n Hy [Hl|(cpu & L' & HL' & Hl)].
    + exfalso. destruct Hl as (p & s & Hp & Hs & <- & <-). destruct Himp as (q & t & Hq & Ht & Hst). fold c in Hst. pose proof (proj1 (so_glob _ _ _ H) q t Hq) as (_ & _ & _ & _ & P5). destruct (P5 Ht) as [Hlen _].
      pose proof (covers_unique G p s q t x (proj2 Hg) Hp Hq Hy ltac:(unfold covers; lia)) as [= -> ->]. congruence.
    + pose proof (Hcpu cpu L' y n HL' Hl Hy) as ->. rewrite Nat2Z.id in HL. by simplify_eq.
Qed.
Lemma is_allocated_ok v G Ls x : space_ok v G Ls -> in_u 64 x -> exists b, vas_vaddr_is_allocated v x = Ok b /\ (b = true <-> exists y n, vlive G Ls y n /\ y <= x < y + n).
Proof.
  intros H Hx. unfold vas_vaddr_is_allocated, vas_vaddr_in_vas. destruct ((base v <=? x) && (x <? limit v)) eqn:Er; cbn [negb].
  - apply andb_true_iff in Er as [E1%Z.leb_le E2%Z.ltb_lt]. destruct (lock_owner_ok v G Ls x H ltac:(lia)) as (o & a & -> & Ea & [ms Ha] & Ho & Hl). rewrite bind_Ok, Ea, bind_Ok. destruct (segment_find_ok a _ ms x Ha Hx) as (p & -> & Hp). rewrite bind_Ok. destruct Hp as [(s & Hp & Hc)|[-> Hn]].
    + rewrite ok_ne0 by (by eapply arena_addr). rewrite (arena_seg _ _ _ _ _ Ha Hp), bind_Ok. eexists. split; [done|]. rewrite bool_decide_eq_true. split.
      * intros Hs. exists (start s), (slen s). split; [|done]. destruct o as [cpu|]; [right; exists cpu, (owner_list G Ls (Some cpu)); split; [by apply Ho|]|left]; by exists p, s.
      * intros (y & n & Hv & Hy). destruct (Hl y n Hy Hv) as (q & t & Hq & Ht & <- & <-). by pose proof (covers_unique _ p s q t x (proj2 Ha) Hp Hq Hc Hy) as [= -> ->].
    + rewrite Z.eqb_refl. exists false. split; [done|]. split; [done|]. intros (y & n & Hv & Hy). destruct (Hl y n Hy Hv) as (q & t & Hq & Ht & <- & <-). by destruct (Hn q t Hq).
  - exists false. split; [done|]. split; [done|]. intros (y & n & Hv & Hy). destruct (vlive_range v G Ls y n H Hv) as (? & ? & ?). apply andb_false_iff in Er as [Er%Z.leb_gt|Er%Z.ltb_ge]; lia.
Qed.

(** *** Freeing *)

Definition vless G Ls G' Ls' (x : Z) : Prop := forall y m, vlive G' Ls' y m <-> vlive G Ls y m /\ y <> x.
Lemma vlive_pos v G Ls x n : space_ok v G Ls -> vlive G Ls x n -> 0 < n.
Proof. intros H Hv. by destruct (vlive_range v G Ls x n H Hv) as (_ & ? & _). Qed.
Lemma vless_local v G Ls cpu L L' x n : space_ok v G Ls -> Ls !! cpu = Some L -> live_in L x n -> (forall y m, live_in L' y m <-> live_in L y m /\ y <> x) -> vless G Ls G (<[cpu := L']> Ls) x.
Proof.
  intros H HL Hx HR y m. pose proof (lookup_lt_Some _ _ _ HL) as Hlt. assert (vlive G Ls x n) as Hvx by (right; by exists cpu, L). pose proof (vlive_pos _ _ _ _ _ H Hvx) as Hn. split.
  - intros Hv. assert (vlive G Ls y m /\ (live_in L y m -> y <> x) /\ ((live_in G y m \/ exists c K, c <> cpu /\ Ls !! c = Some K /\ live_in K y m) \/ live_in L y m)) as (Hv' & Hy & Hw).
    { destruct Hv as [?|(c & K & HK & Hk)]; [split_and!; [by left| |tauto]|].
      - intros Hly ->. pose proof (vlive_pos _ _ _ x m H ltac:(by left)). destruct (global_local_apart v G Ls cpu L x m x n H); try done; lia.
      - destruct (decide (c = cpu)) as [->|Hne]; [rewrite list_lookup_insert_eq in HK by done; injection HK as <-; apply HR in Hk as [? ?]; split_and!; [right; by exists cpu, L|done|tauto]|].
        rewrite list_lookup_insert_ne in HK by done. split_and!; [right; by exists c, K| |left; right; by exists c, K]. intros Hly ->. pose proof (vlive_pos _ _ _ x m H ltac:(right; by exists c, K)). destruct (locals_apart v G Ls c cpu K L x m x n H); try done; lia. }
    split; [done|]. intros ->. pose proof (vlive_pos _ _ _ _ _ H Hv') as Hm. destruct Hw as [[Hg|(c & K & Hne & HK & Hk)]|Hl]; [destruct (global_local_apart v G Ls cpu L x m x n H); try done; lia|destruct (locals_apart v G Ls c cpu K L x m x n H); try done; lia|by apply Hy].
  - intros [[Hg|(c & K & HK & Hk)] Hne]; [by left|right]. destruct (decide (c = cpu)) as [->|Hc]; [|exists c, K; split; [by rewrite list_lookup_insert_ne|done]]. simplify_eq. exists cpu, L'. split; [by apply list_lookup_insert_eq|by apply HR].
Qed.
Lemma vless_global v G Ls G' x n : space_ok v G Ls -> live_in G x n -> (forall y m, live_in G' y m <-> live_in G y m /\ y <> x) -> vless G Ls G' Ls x.
Proof.
  intros H Hx HR y m. unfold vlive. rewrite HR. split; [|tauto]. intros [?|(c & K & HK & Hk)]; [tauto|]. split; [right; by exists c, K|]. intros ->. pose proof (vlive_pos _ _ _ x m H ltac:(right; by exists c, K)). pose proof (vlive_pos _ _ _ x n H ltac:(by left)).
  destruct (global_local_apart v G Ls c K x n x m H); try done; lia.
Qed.
Definition freed_ok v G Ls v' (x : Z) : Prop := exists G' Ls', space_ok v' G' Ls' /\ frame v v' /\ vless G Ls G' Ls' x.
(** A segment of an arena that is handed out and in no slot. *)
Lemma free_global v G Ls p s : space_ok v G Ls -> (p, s) ∈ G -> type s = VAS_SEG_BUSY -> exists g, arena_release DEBUG_RBT DEBUG_RBT_DEEP (global v) p = Ok g /\ freed_ok v G Ls (with_global v g) (start s).
Proof.
  intros H Hp Hty. destruct (so_global _ _ _ H) as [mg Hg]. pose proof (so_glob _ _ _ H) as Hok. destruct (list_elem_of_split _ _ Hp) as (K1 & K2 & EG). rewrite EG in Hg, Hok.
  destruct (glob_release DEBUG_RBT DEBUG_RBT_DEEP (base v) (limit v) (global v) K1 p s K2 mg Hg Hok ltac:(congruence)) as (g & G' & E & H1 & Hok1 & Hl1 & Hi1). exists g. split; [done|]. exists G', Ls. split_and!; [|done|].
  - eapply space_global; try done. intros d. rewrite Hi1, EG. unfold imported. setoid_rewrite elem_mid. split; [naive_solver|]. intros (q & t & [[= -> ->]|Hq] & Ht & Hd); [congruence|by exists q, t].
  - apply (vless_global v G Ls G' (start s) (slen s)); [done|by exists p, s|]. intros y m. rewrite (Hl1 y m), EG. apply live_without; [apply Hg|done].
Qed.
Lemma free_local v G Ls cpu a L p s : space_ok v G Ls -> local v !! cpu = Some a -> Ls !! cpu = Some L -> (p, s) ∈ L -> type s = VAS_SEG_BUSY -> mag_slot s = None -> exists a', arena_release DEBUG_RBT DEBUG_RBT_DEEP a p = Ok a' /\ freed_ok v G Ls (with_local v cpu a') (start s).
Proof.
  intros H Ha HL Hp Hty Hms. destruct (so_local _ _ _ H cpu a L Ha HL) as (ms & Har & Hm & Hl & Hpk). pose proof (space_sum v G Ls cpu L H HL) as Hby. destruct (list_elem_of_split _ _ Hp) as (K1 & K2 & EL). rewrite EL in Har, Hm, Hl, Hpk.
  destruct (local_release DEBUG_RBT DEBUG_RBT_DEEP (owns v G cpu) a K1 p s K2 ms ms Har) as (a' & L' & E & R1 & R2 & R3 & Rpk & R4 & R5); [by eapply mag_ok_plain|intros q t Hq; apply (Hl q t), elem_mid; by right| |congruence|done|done|].
  { destruct (Hl p s ltac:(apply elem_mid; by left)) as (_ & _ & _ & ? & ? & ?). done. }
  exists a'. split; [done|]. exists G, (<[cpu := L']> Ls). split_and!; [|apply (frame_local v cpu a' (mag_reserved_bytes v))|].
  - change (with_local v cpu a') with (with_bytes (with_local v cpu a') (mag_reserved_bytes v)). eapply space_local; try done. apply accounted_same; [|lia]. rewrite R5, EL, !slot_sum_app, slot_sum_cons. unfold slot_len. cbn [snd]. rewrite Hms. lia.
  - apply (vless_local v G Ls cpu L L' (start s) (slen s)); [done|done|by exists p, s|]. intros y m. rewrite R4, EL. apply live_without; [apply Har|done].
Qed.
(** One that is in a slot. *)
Lemma free_slot v G Ls cpu a L p s cls i : space_ok v G Ls -> local v !! cpu = Some a -> Ls !! cpu = Some L -> (p, s) ∈ L -> type s = VAS_SEG_BUSY -> mag_slot s = Some (cls, i) ->
  exists a1 bytes a', magazine_claim a cls i (vas_token_make (start s) VAS_MAG_LIVE) = Ok (a1, true) /\ magazine_release DEBUG_RBT DEBUG_RBT_DEEP (mag_reserved_bytes v) a1 cls i = Ok (bytes, a') /\ freed_ok v G Ls (with_bytes (with_local v cpu a') bytes) (start s).
Proof.
  intros H Ha HL Hp Hty Hms. destruct (so_local _ _ _ H cpu a L Ha HL) as (ms & Hloc). pose proof Hloc as (Har & Hm & Hl & Hpk). pose proof (space_sum v G Ls cpu L H HL) as Hby. destruct (mo_seg _ _ Hm p s cls i Hp Hms) as (x & Hx & Ht & Hxp).
  destruct (mo_slot _ _ Hm cls i x Hx) as [?|(u & Hu & _ & _ & _ & _ & Hu')]; [done|]. rewrite Hxp in Hu. pose proof (nodup_fst L _ s u (arena_nodup _ _ _ Har) Hp Hu) as <-. destruct Hu' as [[Htok _]|[_ ?]]; [|congruence].
  destruct (release_slot_ok DEBUG_RBT DEBUG_RBT_DEEP (owns v G cpu) (mag_reserved_bytes v) a L ms cls i x Hloc Hx Ht ltac:(lia)) as (a1 & by' & a' & L' & ms' & w & E1 & E2 & H1 & Hac & Hw & _ & Hlive & _). rewrite Hxp in Hw. pose proof (nodup_fst L _ s w (arena_nodup _ _ _ Har) Hp Hw) as <-. rewrite Htok in E1.
  exists a1, by', a'. split_and!; [done|done|]. exists G, (<[cpu := L']> Ls). split_and!; [by eapply space_local|apply frame_local|]. apply (vless_local v G Ls cpu L L' (start s) (slen s)); [done|done|by exists p, s|]. intros y m. rewrite Hlive. naive_solver.
Qed.
(** The slow path: the extent is looked up in the arena of its chunk. *)
Lemma free_lookup_ok v G Ls ad size : space_ok v G Ls -> in_u 64 ad -> base v <= ad < limit v ->
  let slow := o ← vas_lock_owner v ad; a ← arena_of v o; p ← segment_find a ad; s ← (if p =? 0 then Panic else seg a p);
    if negb (bool_decide (type s = VAS_SEG_BUSY)) || negb (start s =? ad) || negb (slen s =? size) then Panic else
    match mag_slot s with
    | Some (cls, i) => c ← magazine_claim a cls i (vas_token_make ad VAS_MAG_LIVE); let '(a, ok) := (c : @vas_arena F * bool) in if negb ok then Panic else
        r ← magazine_release DEBUG_RBT DEBUG_RBT_DEEP (mag_reserved_bytes v) a cls i; let '(bytes, a) := (r : Z * @vas_arena F) in Ok (with_bytes (with_arena v o a) bytes)
    | None => a ← arena_release DEBUG_RBT DEBUG_RBT_DEEP a p; Ok (with_arena v o a)
    end in
  (vlive G Ls ad size /\ exists v', slow = Ok v' /\ freed_ok v G Ls v' ad) \/ (~ vlive G Ls ad size /\ slow = Panic).
Proof.
  intros H Had Hr. cbv zeta. destruct (lock_owner_ok v G Ls ad H Hr) as (o & a & -> & Ea & [ms Ha] & Ho & Hl). rewrite bind_Ok, Ea, bind_Ok. destruct (segment_find_ok a _ ms ad Ha Had) as (p & -> & Hp). rewrite bind_Ok. destruct Hp as [(s & Hp & Hc)|[-> Hn]].
  2: { right. rewrite Z.eqb_refl. split; [|done]. intros Hv. pose proof (vlive_pos _ _ _ _ _ H Hv). destruct (Hl ad size ltac:(lia) Hv) as (q & t & Hq & Ht & Hs1 & Hs2). apply (Hn q t Hq). unfold covers. lia. }
  rewrite ok_ne0 by (by eapply arena_addr). rewrite (arena_seg _ _ _ _ _ Ha Hp), bind_Ok. destruct (negb _ || negb _ || negb _) eqn:Eb.
  - right. split; [|done]. intros Hv. pose proof (vlive_pos _ _ _ _ _ H Hv). destruct (Hl ad size ltac:(lia) Hv) as (q & t & Hq & Ht & Hs1 & Hs2). pose proof (covers_unique _ p s q t ad (proj2 Ha) Hp Hq Hc ltac:(unfold covers; lia)) as [= -> ->]. rewrite bool_decide_true, Hs1, Hs2, !Z.eqb_refl in Eb by done. done.
  - left. apply orb_false_iff in Eb as [[E1%negb_false_iff E2%negb_false_iff]%orb_false_iff E3%negb_false_iff]. apply bool_decide_eq_true in E1. apply Z.eqb_eq in E2, E3. destruct o as [cpu|]; cbn [arena_of owner_list with_arena] in *.
    + destruct (Ho cpu eq_refl) as [Hcpu HL]. set (L := default [] (Ls !! cpu)) in *. split; [right; exists cpu, L; split; [done|by exists p, s]|]. destruct (mag_slot s) as [[cls i]|] eqn:Ems.
      * destruct (free_slot v G Ls cpu a L p s cls i H Hcpu HL Hp E1 Ems) as (a1 & by' & a' & F1 & F2 & F3). rewrite E2 in F1, F3. rewrite F1, bind_Ok. cbn [negb]. rewrite F2, bind_Ok. by eexists.
      * destruct (free_local v G Ls cpu a L p s H Hcpu HL Hp E1 Ems) as (a' & F1 & F2). rewrite E2 in F2. rewrite F1, bind_Ok. by eexists.
    + injection Ea as <-. split; [left; by exists p, s|]. destruct (proj1 (so_glob _ _ _ H) p s Hp) as (-> & _). destruct (free_global v G Ls p s H Hp E1) as (g & F1 & F2). rewrite E2 in F2. rewrite F1, bind_Ok. by eexists.
Qed.
Lemma vas_free_ok enabled v G Ls cpu ad size : space_ok v G Ls -> (cpu < length (local v))%nat -> in_u 64 ad -> in_u 64 size ->
  (vlive G Ls ad size /\ exists v', vas_free DEBUG_RBT DEBUG_RBT_DEEP enabled v cpu ad size = Ok v' /\ freed_ok v G Ls v' ad) \/ (~ vlive G Ls ad size /\ vas_free DEBUG_RBT DEBUG_RBT_DEEP enabled v cpu ad size = Panic).
Proof.
  intros H Hcpu Had Hsize. pose proof (so_range _ _ _ H) as (R1 & R2 & R3 & R4). unfold vas_free, vas_vaddr_in_vas. unfold in_u in *. destruct (negb _ || _ || _) eqn:Eg.
  { right. split; [|done]. intros Hv. destruct (vlive_range v G Ls ad size H Hv) as (V1 & V2 & V3). rewrite (proj2 (Z.leb_le _ _)), (proj2 (Z.ltb_lt ad _)), (proj2 (Z.eqb_neq _ _)), wrap_small in Eg by (unfold in_u; lia). cbn in Eg. apply Z.ltb_lt in Eg. lia. }
  apply orb_false_iff in Eg as [[[E1%Z.leb_le E2%Z.ltb_lt]%negb_false_iff%andb_true_iff E3%Z.eqb_neq]%orb_false_iff _]. destruct (lookup_lt_is_Some_2 (local v) cpu Hcpu) as [loc Ha]. rewrite Ha. cbn [deref]. rewrite bind_Ok.
  match goal with |- context [mbind _ ?X] => assert (exists a b, X = Ok (a, b) /\ ((b = false /\ a = loc) \/ (b = true /\ vlive G Ls ad size /\ freed_ok v G Ls (with_local v cpu a) ad))) as (a & b & -> & Hr) end.
  { destruct (_ && enabled) eqn:Ec; [|exists loc, false; split; [done|by left]]. apply andb_true_iff in Ec as [Ec%Z.ltb_lt _]. unfold VAS_MAG_CLASSES in Ec. destruct (space_cpu v G Ls cpu H Hcpu) as (loc' & L & ms & Ha' & HL & Hloc). simplify_eq. pose proof (space_sum v G Ls cpu L H HL) as Hby.
    destruct (magazine_free_ok _ loc L ms (mag_class size) ad Hloc ltac:(lia) Had) as (a & b & E & [[-> ->]|(-> & L' & ms' & sz & Hsz & H1 & [Hl1 Hl2] & Hsum)]); [exists loc, false; split; [done|by left]|]. rewrite mag_class_spec in Hsz by lia. injection Hsz as <-. exists a, true. split; [done|right]. split_and!; [done|right; by exists cpu, L|].
    exists G, (<[cpu := L']> Ls). split_and!; [|apply (frame_local v cpu a (mag_reserved_bytes v))|by eapply vless_local]. change (with_local v cpu a) with (with_bytes (with_local v cpu a) (mag_reserved_bytes v)). eapply space_local; try done. apply accounted_same; [done|lia]. }
  rewrite bind_Ok. destruct Hr as [[-> ->]|(-> & Hv & Hr)]; [|left; split; [done|]; by eexists]. rewrite (with_local_id v cpu loc Ha). apply free_lookup_ok; [done|done|lia].
Qed.
End Space.
