(* ===== verification/VasClient.v ===== *)
(** * The virtual address allocator: spaces in use

    Making a space and taking it apart, and what any sequence of calls does: the
    claims about the allocator. *)

From stdpp Require Import sorting.
From S2P Require Import Prelude BitMath BuddyPage Rbt RbtShape RbtInv RbtWalk RbtInsert RbtDelete RbtApi FixedSize Vas VasArena VasOps VasMag VasLocal VasSpace VasApi.

Section Create.
Context {F : Type} `{!ObjAlloc F}.
Context (DEBUG_RBT DEBUG_RBT_DEEP DEBUG_LOCK_CHK : bool).
Implicit Types (a g : @vas_arena F) (v : @vas F) (s : vas_segment) (ms : list vas_magazine) (L G : segments) (Ls : list segments).

Notation empty_mags := (replicate 4 empty_mag).
Lemma arena_init_ok (f : F) : obj_ok f -> obj_live f = ∅ -> arena_ok (arena_init f) [] empty_mags.
Proof.
  intros Hf Hl. split; [|split; [constructor|by intros p s ?%elem_of_nil]]. split_and!; [apply NoDup_nil_2|apply NoDup_nil_2|]. split; try done; [apply tree_of_nil|]. cbn [free_bins bin_mask arena_init]. split; [by rewrite length_replicate|]. split; [done|]. split; [by intros p n m (s & ?%elem_of_nil & _)|]. split; [by intros p n (s & ?%elem_of_nil & _)|].
  intros i l Hi. apply lookup_replicate in Hi as [-> Hi]. split_and!; [apply NoDup_nil_2| |by rewrite Z.bits_0].
  intros p. split; [by intros ?%elem_of_nil|]. by intros (n & (s & ?%elem_of_nil & _) & _).
Qed.
Lemma mag_init_ok : mag_ok empty_mags [].
Proof.
  split; [done| | |by intros p s cls i ?%elem_of_nil].
  - intros cls m Hm. apply lookup_replicate in Hm as [-> _]. done.
  - intros cls i x Hx. left. unfold slot_at in Hx. destruct (empty_mags !! cls) as [m|] eqn:Em; [|done]. cbn in Hx. apply lookup_replicate in Em as [-> _]. cbn [slots empty_mag] in Hx. by apply lookup_replicate in Hx as [-> _].
Qed.
Lemma local_init_ok own (f : F) : obj_ok f -> obj_live f = ∅ -> (forall c, ~ own c) -> local_ok own (arena_init f) [] empty_mags.
Proof. intros Hf Hl Hown. split_and!; [by apply arena_init_ok|apply mag_init_ok|by intros p s ?%elem_of_nil|]. split; [apply merged_nil|]. intros c Hc. by apply Hown in Hc. Qed.

(** The first segment of the global arena. *)
Lemma global_init_ok (f : F) lo hi : obj_ok f -> obj_live f = ∅ -> 0 < lo < hi -> hi < 2 ^ 64 -> exists g p, segment_alloc (arena_init f) = Ok (g, p) /\
  (p = 0 \/ (ok_addr p /\ exists s g1 g2, seg g p = Ok s /\ span_start s = 0 /\ type s = VAS_SEG_FREE /\ mag_slot s = None /\ segment_insert_after DEBUG_RBT DEBUG_RBT_DEEP DEBUG_LOCK_CHK (put_seg g p (mkSeg lo (u64 (hi - lo)) 0 VAS_SEG_FREE None)) p 0 = Ok g1 /\ bin_insert g1 p = Ok g2 /\
    arena_ok (with_total g2 (u64 (hi - lo))) [(p, mkSeg lo (hi - lo) 0 VAS_SEG_FREE None)] empty_mags)).
Proof.
  intros Hf Hl Hr Hh. destruct (arena_init_ok f Hf Hl) as [H _]. destruct (lst_alloc (arena_init f) _ _ _ _ _ _ H) as (g & p & E & [[-> H1]|[Hp H1]]); exists g; eexists; (split; [done|]); [by left|right]. split; [done|]. rewrite wrap_small by (unfold in_u; lia). set (s0 := mkSeg lo (hi - lo) 0 VAS_SEG_FREE None).
  exists zero_seg. apply (lst_put _ _ _ _ s0) in H1 as H2. assert (segs_ok ([] ++ (p, s0) :: [])) as HS by (split; [repeat constructor|intros q t [= -> ->]%list_elem_of_singleton; split_and!; cbn; lia]).
  destruct (lst_insert_after DEBUG_RBT DEBUG_RBT_DEEP DEBUG_LOCK_CHK _ [] p s0 [] [] _ _ _ _ 0 H2 HS) as (g1 & E1 & H3). destruct (lst_bin_insert g1 _ _ _ _ _ _ p s0 H3) as (g2 & E2 & H4); [by left|done|cbn; lia|by intros ?%elem_of_nil|].
  exists g1, g2. split_and!; [eapply lst_seg; [exact H1|by left]|done|done|done|done|done|]. split; [|done]. assert (free_sum [(p, s0)] = hi - lo) as Efs by (rewrite free_sum_cons, free_len_free by done; cbn; lia). rewrite Efs, wrap_small by (unfold in_u; lia). by eapply lst_with_total.
Qed.
Lemma chunk_count lo hi : 0 < lo < hi -> hi < 2 ^ 64 -> exists mb, ALIGN_DOWN lo VAS_CHUNK_SIZE = Ok mb /\ 0 <= mb <= lo /\ (VAS_CHUNK_SIZE | mb) /\ u64 (Z.shiftr (u64 (hi - 1 - mb)) VAS_CHUNK_SHIFT + 1) = (hi - 1 - mb) `div` VAS_CHUNK_SIZE + 1 /\ 0 <= (hi - 1 - mb) `div` VAS_CHUNK_SIZE.
Proof.
  intros H1 H2. rewrite chunk_size. exists (2 ^ 26 * (lo `div` 2 ^ 26)). pose proof (Z.div_mod lo (2 ^ 26) ltac:(lia)). pose proof (Z.mod_pos_bound lo (2 ^ 26) ltac:(lia)). pose proof (Z.div_pos lo (2 ^ 26) ltac:(lia) ltac:(lia)).
  split_and!; [apply ALIGN_DOWN_spec; unfold in_u; lia|lia|lia|by exists (lo `div` 2 ^ 26); lia| |apply Z.div_pos; lia]. set (mb := 2 ^ 26 * _) in *. rewrite (wrap_small 64 (hi - 1 - mb)) by (unfold in_u; lia). rewrite Z.shiftr_div_pow2 by done. change VAS_CHUNK_SHIFT with 26.
  pose proof (Z.div_pos (hi - 1 - mb) (2 ^ 26) ltac:(lia) ltac:(lia)). pose proof (Z.div_lt_upper_bound (hi - 1 - mb) (2 ^ 26) (2 ^ 38) ltac:(lia) ltac:(lia)). apply wrap_small. unfold in_u. lia.
Qed.
Lemma space_create_ok got overhead (fg : F) fl lo hi : obj_ok fg -> obj_live fg = ∅ -> (forall f, f ∈ fl -> obj_ok f /\ obj_live f = ∅) -> (0 < length fl)%nat -> Z.of_nat (length fl) < VAS_OWNER_GLOBAL -> in_u 64 lo -> in_u 64 hi ->
  exists r, space_create DEBUG_RBT DEBUG_RBT_DEEP DEBUG_LOCK_CHK got overhead fg fl lo hi = Ok r /\ match r with None => True | Some v => base v = lo /\ limit v = hi /\ length (local v) = length fl /\ exists G Ls, space_ok v G Ls /\ forall x n, ~ vlive G Ls x n end.
Proof.
  intros Hfg Hlg Hfl Hn Hn2 Hlo Hhi. unfold in_u in *. unfold space_create. rewrite (proj2 (Nat.eqb_neq _ _)), (proj2 (Z.ltb_lt _ _)) by lia. cbn [negb andb enforce]. rewrite bind_Ok. destruct ((lo =? 0) || (hi <=? lo)) eqn:Er; [by exists None|]. apply orb_false_iff in Er as [E1%Z.eqb_neq E2%Z.leb_gt].
  destruct (chunk_count lo hi) as (mb & -> & Hmb & Hal & Hcnt & Hpos); [lia|lia|]. rewrite bind_Ok. cbv zeta. destruct (_ <? _); [by exists None|]. destruct (_ <? _); [by exists None|]. destruct (negb got); [by exists None|].
  destruct (global_init_ok fg lo hi Hfg Hlg) as (g & p & -> & Hp); [lia|lia|]. rewrite bind_Ok. destruct Hp as [->|(Hp & s & g1 & g2 & Es & S1 & S2 & S3 & E3 & E4 & Hg)]; [rewrite Z.eqb_refl; by exists None|]. rewrite ok_ne0, Es, bind_Ok by done. rewrite S1, S2, S3, E3, bind_Ok, E4, bind_Ok.
  eexists. split; [done|]. cbv iota. vsimpl. rewrite length_fmap. split_and!; [done|done|done|]. set (s0 := mkSeg lo (hi - lo) 0 VAS_SEG_FREE None) in *. exists [(p, s0)], ((fun _ => []) <$> fl). rewrite Hcnt.
  assert (forall c, ~ imported [(p, s0)] c) as Hni by (intros c (q & t & [= -> ->]%list_elem_of_singleton & ? & _); done). split.
  - split; vsimpl; rewrite ?length_replicate, ?length_fmap; try done; try lia; [split_and!; done || lia|by exists empty_mags| | | | |].
    + split; [|cbn; lia]. intros q t [= -> ->]%list_elem_of_singleton. split_and!; cbn; try done; lia.
    + intros cpu a L Ha HL. apply list_lookup_fmap_Some in Ha as (f & -> & Hf). apply list_lookup_fmap_Some in HL as (f' & -> & _). exists empty_mags. destruct (Hfl f) as [? ?]; [by eapply list_elem_of_lookup_2|]. apply local_init_ok; [done|done|]. intros c [Hc _]. by eapply Hni.
    + intros c Hc. by apply Hni in Hc.
    + intros i o Hi. apply lookup_replicate in Hi as [-> _]. by left.
    + assert (slots_total ((fun _ : F => [] : segments) <$> fl) = 0) as Hz by (clear; induction fl as [|f fl IH]; [done|]; cbn; unfold slots_total in IH; by rewrite IH). rewrite Hz. done.
  - intros x n [(q & t & [= -> ->]%list_elem_of_singleton & ? & _)|(cpu & L & HL & q & t & Hq & _)]; [done|]. apply list_lookup_fmap_Some in HL as (f & -> & _). by apply elem_of_nil in Hq.
Qed.

(** *** Taking a space apart *)

Lemma destroy_segs_ok L : forall a n ms, lst a L [] L.*1 L n ms -> exists a', destroy_segs DEBUG_RBT DEBUG_RBT_DEEP a L.*1 = Ok a' /\ obj_ok (fsr a').
Proof.
  induction L as [|[p s] L IH]; intros a n ms H; [exists a; split; [done|]; apply H|]. rewrite fmap_cons. cbn [destroy_segs fst]. rewrite (lst_seg _ _ _ _ _ _ _ p s H), bind_Ok by by left.
  assert (exists a1, (if bool_decide (type s = VAS_SEG_FREE) then bin_remove a p else Ok a) = Ok a1 /\ lst a1 ((p, s) :: L) [] ((p, s) :: L).*1 L n ms) as (a1 & -> & H1).
  { case_bool_decide as Ht; [destruct (lst_bin_remove a _ _ _ [] _ _ _ p s H) as (a1 & -> & H1); [by left|done|by exists a1]|]. exists a. split; [done|]. by apply (lst_skip a _ _ _ [] p s). }
  rewrite bind_Ok. destruct (lst_delete DEBUG_RBT DEBUG_RBT_DEEP a1 [] p s L _ _ _ _ _ H1) as (a2 & -> & H2). rewrite bind_Ok. apply (IH a2 n ms). assert (list_remove ((p, s) :: L).*1 p = L.*1) as E; [|by rewrite E in H2].
  change (list_remove ([] ++ p :: L.*1) p = [] ++ L.*1). apply list_remove_mid; [by intros ?%elem_of_nil|]. destruct H as (_ & Hnd & _). rewrite fmap_cons in Hnd. by apply list.NoDup_cons in Hnd as [? _].
Qed.
Lemma arena_destroy_ok a L ms : arena_ok a L ms -> exists a', arena_destroy DEBUG_RBT DEBUG_RBT_DEEP a = Ok a'.
Proof.
  intros [H _]. unfold arena_destroy. assert (all_segs a = L.*1) as -> by apply H. destruct (destroy_segs_ok L a _ ms H) as (a1 & -> & Hf). rewrite bind_Ok. unfold vas_reclaim_freelist_pages. destruct (obj_reclaim_ok _ Hf) as (f & -> & _). rewrite bind_Ok. by eexists.
Qed.
Lemma destroy_locals_ok l : (forall a, a ∈ l -> exists L ms, arena_ok a L ms) -> exists l', destroy_locals DEBUG_RBT DEBUG_RBT_DEEP l = Ok l'.
Proof.
  induction l as [|a l IH]; intros H; cbn [destroy_locals]; [by exists []|]. destruct (H a (list_elem_of_here _ _)) as (L & ms & Ha). destruct (arena_destroy_ok a L ms Ha) as [a' ->]. rewrite bind_Ok. destruct IH as [l' ->]; [intros b Hb; apply H; by right|]. rewrite bind_Ok. by eexists.
Qed.

(** The free length is the whole length exactly when everything is free. *)
Lemma free_len_sum L : (forall p s, (p, s) ∈ L -> 0 < slen s) -> 0 <= free_sum L <= len_sum L /\ (free_sum L = len_sum L <-> forall p s, (p, s) ∈ L -> type s = VAS_SEG_FREE).
Proof.
  induction L as [|[p s] L IH]; intros Hpos; [split; [done|]; split; [by intros _ p s ?%elem_of_nil|done]|]. destruct IH as [I1 I2]; [intros q t Hq; apply (Hpos q t); by right|]. pose proof (Hpos p s (list_elem_of_here _ _)) as Hs. rewrite free_sum_cons, len_sum_cons. cbn [snd]. destruct (decide (type s = VAS_SEG_FREE)) as [Ht|Ht].
  - rewrite free_len_free by done. split; [lia|]. split; [|intros Hf; assert (free_sum L = len_sum L); [|lia]; apply I2; intros q t Hq; apply (Hf q t); by right]. intros E q t [[= -> ->]|Hq]%elem_of_cons; [done|]. apply (proj1 I2 ltac:(lia) q t Hq).
  - rewrite free_len_used by done. split; [lia|]. split; [lia|]. intros Hf. exfalso. by apply Ht, (Hf p s (list_elem_of_here _ _)).
Qed.
(** With chunks reclaimed, nothing is handed out exactly when all is free. *)
Lemma clean_free v G Ls : space_ok v G Ls -> (forall cpu L, Ls !! cpu = Some L -> clean L) -> (forall x n, ~ vlive G Ls x n) <-> forall p s, (p, s) ∈ G -> type s = VAS_SEG_FREE.
Proof.
  intros H Hcl. split.
  - intros Hnl p s Hp. destruct (type s) eqn:Ht; [done|exfalso; apply (Hnl (start s) (slen s)); left; by exists p, s| |by destruct (proj1 (so_glob _ _ _ H) p s Hp) as (_ & ? & _)].
    exfalso. assert (imported G (start s)) as Himp by (by exists p, s). destruct (so_imported _ _ _ H _ Himp) as (cpu & Hcpu & Ho). destruct (space_cpu v G Ls cpu H Hcpu) as (a & L & ms & Ha & HL & ([_ HS] & _ & Hl & Hpk)). assert (owns v G cpu (start s)) as Hown by done.
    assert (forall q t, (q, t) ∈ L -> loc_seg (owns v G cpu) t /\ type t = VAS_SEG_FREE) as Hfree.
    { intros q t Hq. split; [by apply (Hl q t)|]. destruct (Hl q t Hq) as (_ & _ & P3 & _). destruct (Hcl cpu L HL q t Hq) as [C1 _]. destruct (type t) eqn:Et; try done. exfalso. apply (Hnl (start t) (slen t)). right. exists cpu, L. split; [done|]. by exists q, t. }
    pose proof (proj2 Hpk (start s) Hown) as Hsum. destruct (first_of_span (start s) L) as (L1 & q & t & L2 & EL & _); [by rewrite Hsum|]. destruct (packed_whole (owns v G cpu) L q t HS Hfree Hpk) as (q' & t' & Hq' & W); [intros d Hd; eapply owns_aligned; [apply H|done]|rewrite EL; apply elem_mid; by left|].
    destruct (Hcl cpu L HL q' t' Hq') as [_ C2]. by apply C2.
  - intros Hf x n [(p & s & Hp & Ht & _)|(cpu & L & HL & Hx)]; [rewrite (Hf p s Hp) in Ht; done|]. destruct (live_chunk v G Ls cpu L x n H HL Hx) as (c & [(p & s & Hp & Ht & _) _] & _). rewrite (Hf p s Hp) in Ht. done.
Qed.
Lemma vas_destroy_ok v G Ls : space_ok v G Ls -> exists v' b, vas_destroy DEBUG_RBT DEBUG_RBT_DEEP v = Ok (v', b) /\ (b = true <-> forall x n, ~ vlive G Ls x n).
Proof.
  intros H. unfold vas_destroy, vas_reclaim. destruct (reclaim_locked_ok DEBUG_RBT DEBUG_RBT_DEEP v G Ls H) as (v1 & G1 & Ls1 & -> & H1 & F1 & S1 & C1). rewrite bind_Ok. destruct (so_global _ _ _ H1) as [mg Hg]. pose proof (proj2 (so_glob _ _ _ H1)) as Hlen. pose proof (so_range _ _ _ H1) as (R1 & R2 & _).
  destruct (free_len_sum G1) as [I1 I2]; [intros p s Hp; by destruct (proj2 (proj2 Hg) p s Hp) as (_ & ? & _)|]. assert (total_free (global v1) = u64 (free_sum G1)) as -> by apply Hg. rewrite !wrap_small by (unfold in_u; lia).
  assert ((free_sum G1 =? limit v1 - base v1) = true <-> forall x n, ~ vlive G Ls x n) as Hiff. { rewrite Z.eqb_eq, <- Hlen, I2, <- (clean_free v1 G1 Ls1 H1 C1). split; intros Hn x n Hx; apply (Hn x n); [by apply S1|by apply S1 in Hx]. }
  destruct (_ =? _) eqn:Eb in |- *; cbn [negb]; rewrite Eb in Hiff; [|exists v1, false; by split]. destruct (destroy_locals_ok (local v1)) as [l ->].
  { intros a [cpu Ha]%list_elem_of_lookup_1. destruct (space_cpu v1 G1 Ls1 cpu H1 ltac:(by eapply lookup_lt_Some)) as (a' & L & ms & Ha' & _ & Hloc). simplify_eq. exists L, ms. apply Hloc. }
  rewrite bind_Ok. destruct (arena_destroy_ok (global v1) G1 mg Hg) as [g ->]. rewrite bind_Ok. eexists _, true. by split.
Qed.
End Create.

(** ** Clients *)

(** A call: by a CPU, with magazines on or off.  [VFree] gives back the extent with
    this number among those the client holds. *)
Inductive vas_op := VAlloc (enabled : bool) (cpu : nat) (size align : Z) | VFree (enabled : bool) (cpu k : nat) | VReclaim.
Definition vas_op_ok (cpus : nat) (op : vas_op) : Prop :=
  match op with VAlloc _ cpu size align => (cpu < cpus)%nat /\ in_u 64 size /\ in_u 64 align | VFree _ cpu _ => (cpu < cpus)%nat | VReclaim => True end.

Section Client.
Context {F : Type} `{!ObjAlloc F}.
Context (DEBUG_RBT DEBUG_RBT_DEEP DEBUG_LOCK_CHK : bool).
Implicit Types (v : @vas F) (held : list (Z * Z * Z)).

(** The client holds extents: address, size and the alignment asked for. *)
Definition vas_exec (st : @vas F * list (Z * Z * Z)) (op : vas_op) : outcome (@vas F * list (Z * Z * Z)) :=
  let '(v, held) := st in
  match op with
  | VAlloc enabled cpu size align =>
      r ← vas_alloc DEBUG_RBT DEBUG_RBT_DEEP DEBUG_LOCK_CHK enabled v cpu size align;
      let '(v, x) := (r : @vas F * Z) in Ok (v, if x =? 0 then held else (x, size, align) :: held)
  | VFree enabled cpu k =>
      match held !! k with
      | None => Ok st
      | Some (x, size, _) => v ← vas_free DEBUG_RBT DEBUG_RBT_DEEP enabled v cpu x size; Ok (v, take k held ++ drop (S k) held)
      end
  | VReclaim => v ← vas_reclaim DEBUG_RBT DEBUG_RBT_DEEP v; Ok (v, held)
  end.
Fixpoint vas_run (st : @vas F * list (Z * Z * Z)) (ops : list vas_op) : outcome (@vas F * list (Z * Z * Z)) :=
  match ops with [] => Ok st | op :: ops => st ← vas_exec st op; vas_run st ops end.

(** What the client holds is what the space has handed out. *)
Definition holds_live v held : Prop := exists G Ls, space_ok v G Ls /\ NoDup (fst ∘ fst <$> held) /\ (forall x n, vlive G Ls x n <-> exists al, (x, n, al) ∈ held) /\ (forall x n al, (x, n, al) ∈ held -> (al | x)).
Lemma held_apart v G Ls held x n al y m al' : space_ok v G Ls -> (forall x n, vlive G Ls x n <-> exists al, (x, n, al) ∈ held) -> (x, n, al) ∈ held -> (y, m, al') ∈ held -> x <> y -> x + n <= y \/ y + m <= x.
Proof. intros H Hl Hx Hy Hne. destruct (vlive_apart v G Ls x n y m H) as [[? _]|?]; [apply Hl; by exists al|apply Hl; by exists al'|done|done]. Qed.
Lemma in_starts held x : x ∈ (fst ∘ fst <$> held) <-> exists n al, (x, n, al) ∈ held.
Proof. rewrite list_elem_of_fmap. split; [intros ([[y n] al] & -> & ?); by exists n, al|]. intros (n & al & ?). by exists (x, n, al). Qed.

Lemma vas_exec_ok v held op : holds_live v held -> vas_op_ok (length (local v)) op -> exists v' held', vas_exec (v, held) op = Ok (v', held') /\ holds_live v' held' /\ frame v v'.
Proof.
  intros (G & Ls & H & Hnd & Hl & Hal) Hop. destruct op as [en cpu size align|en cpu k|]; cbn [vas_exec vas_op_ok] in *.
  - destruct Hop as (Hcpu & Hs & Ha). destruct (vas_alloc_ok DEBUG_RBT DEBUG_RBT_DEEP DEBUG_LOCK_CHK en v G Ls cpu size align H Hcpu Hs Ha) as (v' & r & G' & Ls' & -> & H' & Hf & Hr). rewrite bind_Ok. destruct Hr as [[-> Hr]|(Hr & Hd & Hm)].
    + rewrite Z.eqb_refl. do 2 eexists. split_and!; [done| |done]. exists G', Ls'. split_and!; [done|done| |done]. intros x n. by rewrite (Hr x n).
    + rewrite (proj2 (Z.eqb_neq r 0)) by lia. do 2 eexists. split_and!; [done| |done]. destruct Hm as [Hm Hfresh].
      exists G', Ls'. split_and!; [done| | |].
      * cbn. apply list.NoDup_cons. split; [|done]. intros (n & al & Hin)%in_starts. apply (Hfresh n), Hl. by exists al.
      * intros x n. rewrite (Hm x n), Hl. setoid_rewrite elem_of_cons. naive_solver.
      * intros x n al [[= -> -> ->]|Hin]%elem_of_cons; [done|by eapply Hal].
  - destruct (held !! k) as [[[x n] al]|] eqn:Ek; [|exists v, held; split_and!; [done| |done]; by exists G, Ls]. pose proof (list_elem_of_lookup_2 _ _ _ Ek) as Hin. assert (vlive G Ls x n) as Hv by (apply Hl; by exists al). destruct (vlive_range v G Ls x n H Hv) as (V1 & V2 & V3). pose proof (so_range _ _ _ H) as (R1 & R2 & _).
    destruct (vas_free_ok DEBUG_RBT DEBUG_RBT_DEEP en v G Ls cpu x n H Hop ltac:(unfold in_u; lia) ltac:(unfold in_u; lia)) as [(_ & v' & -> & G' & Ls' & H' & Hf & Hm)|[? _]]; [|done]. rewrite bind_Ok. do 2 eexists. split_and!; [done| |done].
    rewrite <- (take_drop_middle held k _ Ek) in Hnd, Hl, Hal. rewrite fmap_app, fmap_cons in Hnd. cbn in Hnd. rewrite <- Permutation_middle in Hnd. apply list.NoDup_cons in Hnd as [Hn Hnd]. rewrite <- fmap_app in Hn, Hnd. exists G', Ls'. split_and!; [done|done| |].
    + intros y m. rewrite (Hm y m), Hl. setoid_rewrite elem_mid. split; [intros [(al' & [[= -> -> ->]|?]) ?]; [done|by exists al']|]. intros [al' Hy]. split; [exists al'; by right|]. intros ->. apply Hn, in_starts. by exists m, al'.
    + intros y m al' Hy. eapply Hal. apply elem_mid. by right.
  - unfold vas_reclaim. destruct (reclaim_locked_ok DEBUG_RBT DEBUG_RBT_DEEP v G Ls H) as (v' & G' & Ls' & -> & H' & Hf & Hs & _). rewrite bind_Ok. do 2 eexists. split_and!; [done| |done]. exists G', Ls'. split_and!; [done|done| |done]. intros x n. by rewrite (Hs x n).
Qed.
Lemma mag_bytes_range v G Ls : space_ok v G Ls -> 0 <= mag_reserved_bytes v <= VAS_MAG_BYTE_LIMIT.
Proof.
  intros H. destruct Ls as [|L Ls']; [destruct (so_bytes _ _ _ H) as [-> _]; done|]. pose proof (space_sum v G (L :: Ls') 0 L H eq_refl). lia.
Qed.
Lemma vas_run_ok ops : forall v held, holds_live v held -> Forall (vas_op_ok (length (local v))) ops -> exists v' held', vas_run (v, held) ops = Ok (v', held') /\ holds_live v' held' /\ frame v v'.
Proof.
  induction ops as [|op ops IH]; intros v held H Hops; [by exists v, held|]. apply list.Forall_cons in Hops as [Hop Hops]. destruct (vas_exec_ok v held op H Hop) as (v1 & held1 & E1 & H1 & F1). cbn [vas_run]. rewrite E1, bind_Ok.
  destruct (IH v1 held1 H1) as (v2 & held2 & E2 & H2 & F2); [by destruct F1 as (_ & _ & _ & ->)|]. exists v2, held2. split_and!; [done|done|by eapply frame_trans].
Qed.

(** The arenas of a new space have their own allocators, with nothing allocated. *)
Definition arenas_new (fg : F) (fl : list F) : Prop := obj_ok fg /\ obj_live fg = ∅ /\ (forall f, f ∈ fl -> obj_ok f /\ obj_live f = ∅) /\ 0 < Z.of_nat (length fl) < 2 ^ 32.
(** The space and what its client holds after some calls. *)
Definition reached (fg : F) (fl : list F) (lo hi : Z) v held : Prop := arenas_new fg fl /\ in_u 64 lo /\ in_u 64 hi /\ exists got overhead v0 ops, space_create DEBUG_RBT DEBUG_RBT_DEEP DEBUG_LOCK_CHK got overhead fg fl lo hi = Ok (Some v0) /\
  Forall (vas_op_ok (length fl)) ops /\ vas_run (v0, []) ops = Ok (v, held).
Lemma create_ok got overhead fg fl lo hi : arenas_new fg fl -> in_u 64 lo -> in_u 64 hi -> exists r, space_create DEBUG_RBT DEBUG_RBT_DEEP DEBUG_LOCK_CHK got overhead fg fl lo hi = Ok r /\ match r with None => True | Some v => base v = lo /\ limit v = hi /\ length (local v) = length fl /\ holds_live v [] end.
Proof.
  intros (H1 & H2 & H3 & H4) Hlo Hhi. destruct (space_create_ok DEBUG_RBT DEBUG_RBT_DEEP DEBUG_LOCK_CHK got overhead fg fl lo hi H1 H2 H3) as (r & E & Hr); [lia|unfold VAS_OWNER_GLOBAL; lia|done|done|]. exists r. split; [done|]. destruct r as [v|]; [|done]. destruct Hr as (R1 & R2 & R3 & G & Ls & H & Hn). split_and!; [done|done|done|].
  exists G, Ls. split_and!; [done|apply NoDup_nil_2| |by intros x n al ?%elem_of_nil]. intros x n. split; [intros Hx; by apply Hn in Hx|]. by intros [al ?%elem_of_nil].
Qed.
Lemma reached_ok fg fl lo hi v held : reached fg fl lo hi v held -> holds_live v held /\ base v = lo /\ limit v = hi /\ length (local v) = length fl.
Proof.
  intros (Hn & Hlo & Hhi & got & overhead & v0 & ops & E & Hops & Er). destruct (create_ok got overhead fg fl lo hi Hn Hlo Hhi) as (r & E' & Hr). rewrite E in E'. injection E' as <-. destruct Hr as (R1 & R2 & R3 & H). rewrite <- R3 in Hops.
  destruct (vas_run_ok ops v0 [] H Hops) as (v' & held' & E2 & H2 & (F1 & F2 & F3 & F4)). rewrite Er in E2. injection E2 as <- <-. split_and!; congruence.
Qed.
Lemma allocated_iff v held ad : holds_live v held -> in_u 64 ad -> exists b, vas_vaddr_is_allocated v ad = Ok b /\ (b = true <-> exists x n al, (x, n, al) ∈ held /\ x <= ad < x + n).
Proof.
  intros (G & Ls & H & Hnd & Hl & Hal) Had. destruct (is_allocated_ok v G Ls ad H Had) as (b & E & Hb). exists b. split; [done|]. rewrite Hb. setoid_rewrite Hl. naive_solver.
Qed.
End Client.

(** C5: For any allocators of objects that give out unused objects or none: making a
    space succeeds or returns [NULL], and whatever the client of a space does then,
    asking for extents from any CPU with magazines on or off, giving back those it
    holds and reclaiming, no call panics or faults.  The extents it holds are in the
    space, aligned as asked and do not overlap; [vas_vaddr_is_allocated] is true for
    their bytes and no others; the bytes retained by magazines are within the limit.
    Calls run one after the other. *)
Theorem vas_client_safe {F} `{!ObjAlloc F} (DEBUG_RBT DEBUG_RBT_DEEP DEBUG_LOCK_CHK got : bool) overhead (fg : F) fl lo hi : arenas_new fg fl -> in_u 64 lo -> in_u 64 hi ->
  exists r, space_create DEBUG_RBT DEBUG_RBT_DEEP DEBUG_LOCK_CHK got overhead fg fl lo hi = Ok r /\ forall v ops, r = Some v -> Forall (vas_op_ok (length fl)) ops ->
  exists v' held, vas_run DEBUG_RBT DEBUG_RBT_DEEP DEBUG_LOCK_CHK (v, []) ops = Ok (v', held) /\ (forall x n al, (x, n, al) ∈ held -> lo <= x /\ 0 < n /\ x + n <= hi /\ (al | x)) /\
    (forall i j x n al y m al', held !! i = Some (x, n, al) -> held !! j = Some (y, m, al') -> i <> j -> x + n <= y \/ y + m <= x) /\
    (forall ad, in_u 64 ad -> exists b, vas_vaddr_is_allocated v' ad = Ok b /\ (b = true <-> exists x n al, (x, n, al) ∈ held /\ x <= ad < x + n)) /\ 0 <= mag_reserved_bytes v' <= VAS_MAG_BYTE_LIMIT.
Proof.
  intros Hn Hlo Hhi. destruct (create_ok DEBUG_RBT DEBUG_RBT_DEEP DEBUG_LOCK_CHK got overhead fg fl lo hi Hn Hlo Hhi) as (r & E & Hr). exists r. split; [done|]. intros v ops -> Hops. destruct Hr as (<- & <- & Hlen & H0). rewrite <- Hlen in Hops.
  destruct (vas_run_ok DEBUG_RBT DEBUG_RBT_DEEP DEBUG_LOCK_CHK ops v [] H0 Hops) as (v' & held & Er & H & (<- & <- & _ & F4)). exists v', held. split; [done|]. pose proof H as (G & Ls & Hs & Hnd & Hl & Hal). split_and!.
  - intros x n al Hx. destruct (vlive_range v' G Ls x n Hs) as (? & ? & ?); [apply Hl; by exists al|]. split_and!; try done. by eapply Hal.
  - intros i j x n al y m al' Hi Hj Hne. eapply held_apart; [exact Hs|exact Hl|by eapply list_elem_of_lookup_2..|]. intros ->. apply Hne. eapply (NoDup_lookup (fst ∘ fst <$> held) i j y Hnd); rewrite list_lookup_fmap; [by rewrite Hi|by rewrite Hj].
  - intros ad Had. by apply allocated_iff.
  - pose proof (mag_bytes_range v' G Ls Hs). lia.
  - pose proof (mag_bytes_range v' G Ls Hs). lia.
Qed.

(** C6: After any calls, [vas_free] of an address and a size gives back that extent
    exactly when the client holds it: then the addresses [vas_vaddr_is_allocated] is
    true for are those of the other extents.  With any other address or size it
    panics: a double free, a size other than the one asked for, an address inside an
    extent or outside the space. *)
Theorem vas_free_exact {F} `{!ObjAlloc F} (DEBUG_RBT DEBUG_RBT_DEEP DEBUG_LOCK_CHK : bool) (fg : F) fl lo hi v held enabled cpu x n : reached DEBUG_RBT DEBUG_RBT_DEEP DEBUG_LOCK_CHK fg fl lo hi v held -> (cpu < length fl)%nat -> in_u 64 x -> in_u 64 n ->
  ((exists al, (x, n, al) ∈ held) /\ exists v', vas_free DEBUG_RBT DEBUG_RBT_DEEP enabled v cpu x n = Ok v' /\
    forall ad, in_u 64 ad -> exists b, vas_vaddr_is_allocated v' ad = Ok b /\ (b = true <-> exists y m al, (y, m, al) ∈ held /\ y <> x /\ y <= ad < y + m)) \/
  (~ (exists al, (x, n, al) ∈ held) /\ vas_free DEBUG_RBT DEBUG_RBT_DEEP enabled v cpu x n = Panic).
Proof.
  intros Hr Hcpu Hx Hn. destruct (reached_ok _ _ _ _ _ _ _ _ _ Hr) as ((G & Ls & H & Hnd & Hl & Hal) & _ & _ & Hlen). rewrite <- Hlen in Hcpu.
  destruct (vas_free_ok DEBUG_RBT DEBUG_RBT_DEEP enabled v G Ls cpu x n H Hcpu Hx Hn) as [(Hv & v' & E & G' & Ls' & H' & _ & Hl')|[Hv E]]; [left|right]; rewrite <- (Hl x n); (split; [done|]); [|done]. exists v'. split; [done|].
  intros ad Had. destruct (is_allocated_ok v' G' Ls' ad H' Had) as (b & Eb & Hb). exists b. split; [done|]. rewrite Hb. unfold vless in Hl'. setoid_rewrite Hl'. setoid_rewrite Hl. naive_solver.
Qed.

(** C7: After any calls, [vas_destroy] does not panic or fault, and it says the space
    was destroyed exactly when the client holds no extent: extents kept by magazines,
    and chunks left with the arenas of CPUs, do not keep a space alive. *)
Theorem vas_destroy_exact {F} `{!ObjAlloc F} (DEBUG_RBT DEBUG_RBT_DEEP DEBUG_LOCK_CHK : bool) (fg : F) fl lo hi v held : reached DEBUG_RBT DEBUG_RBT_DEEP DEBUG_LOCK_CHK fg fl lo hi v held ->
  exists v' b, vas_destroy DEBUG_RBT DEBUG_RBT_DEEP v = Ok (v', b) /\ (b = true <-> held = []).
Proof.
  intros Hr. destruct (reached_ok _ _ _ _ _ _ _ _ _ Hr) as ((G & Ls & H & Hnd & Hl & Hal) & _). destruct (vas_destroy_ok DEBUG_RBT DEBUG_RBT_DEEP v G Ls H) as (v' & b & E & Hb). exists v', b. split; [done|]. rewrite Hb. split.
  - intros Hno. destruct held as [|[[x n] al] held]; [done|]. destruct (Hno x n). apply Hl. exists al. by left.
  - intros -> x n [al ?%elem_of_nil]%Hl. done.
Qed.

(** *** On the fixed-size allocator

    The kernel's segments ([struct vas_segment], 96 bytes) come from a
    [fixed_size_range], which takes its pages from the page allocator. *)
#[local] Existing Instance page_list.
Definition segment_range (pages : list Z) : fixed_size_range (P := list Z * gset Z) :=
  match fixed_size_range_init (mkAttrs 96 8) (pages, ∅) with Ok r => r | _ => mkFsr (mkAttrs 96 8) [] [] 0 0 0 ∅ (pages, ∅) end.
Lemma segment_range_ok pages : obj_ok (segment_range pages) /\ obj_live (segment_range pages) = ∅.
Proof. destruct (range_init_ok (mkAttrs 96 8) (pages, ∅) 3) as (r & E & H); [reflexivity|lia|by vm_compute|by vm_compute|]. unfold segment_range. by rewrite E. Qed.
Lemma ranges_new pages ll : 0 < Z.of_nat (length ll) < 2 ^ 32 -> arenas_new (segment_range pages) (segment_range <$> ll).
Proof.
  intros Hl. split_and!; [apply segment_range_ok|apply segment_range_ok| |rewrite length_fmap; lia..]. intros f (l & -> & _)%list_elem_of_fmap. apply segment_range_ok.
Qed.

(** Two CPUs, a space of five chunks and a half. *)
Definition demo_pages : list (list Z) := [[PAGE_SIZE; 2 * PAGE_SIZE]; [3 * PAGE_SIZE; 4 * PAGE_SIZE]].
Definition demo_global := segment_range [5 * PAGE_SIZE; 6 * PAGE_SIZE].
Definition demo_lo : Z := VAS_CHUNK_SIZE + 32 * 2 ^ 20.
Definition demo_hi : Z := 7 * VAS_CHUNK_SIZE.
Definition demo_ops : list vas_op :=
  [VAlloc true 0 PAGE_SIZE PAGE_SIZE; VAlloc true 0 (3 * PAGE_SIZE) (2 ^ 16); VAlloc false 1 PAGE_2MB PAGE_2MB; VAlloc true 1 (2 * VAS_CHUNK_SIZE) PAGE_SIZE; VFree true 1 3; VAlloc true 0 PAGE_SIZE PAGE_SIZE; VReclaim; VAlloc true 1 100 1; VAlloc true 1 0 8].
Definition demo_create := space_create true false true true PAGE_SIZE demo_global (segment_range <$> demo_pages) demo_lo demo_hi.
Definition demo_space : outcome (@vas fixed_size_range * list (Z * Z * Z)) :=
  r ← demo_create; match r with None => Panic | Some v => vas_run true false true (v, []) demo_ops end.
Definition demo_held : list (Z * Z * Z) := [(203423744, 100, 1); (134221824, 4096, 4096); (268435456, 134217728, 4096); (201326592, 2097152, 2097152); (134283264, 12288, 65536)].
Ltac num := split; vm_compute; congruence.
Lemma demo_new : arenas_new demo_global (segment_range <$> demo_pages).
Proof. by apply ranges_new. Qed.
Lemma demo_ops_ok : Forall (vas_op_ok (length (segment_range <$> demo_pages))) demo_ops.
Proof. repeat constructor; vm_compute; congruence. Qed.
Lemma demo_runs : (r ← demo_space; Ok (snd r)) = Ok demo_held.
Proof. by vm_compute. Qed.
Lemma demo_run : exists v0 v, demo_create = Ok (Some v0) /\ vas_run true false true (v0, []) demo_ops = Ok (v, demo_held).
Proof.
  pose proof demo_runs as H. unfold demo_space in H. destruct demo_create as [[v0|]| |]; try done. rewrite bind_Ok in H. destruct (vas_run true false true (v0, []) demo_ops) as [[v held]| |] eqn:E; try done. exists v0, v. split; [done|]. cbn in H. by injection H as ->.
Qed.
Lemma demo_reached : exists v, reached true false true demo_global (segment_range <$> demo_pages) demo_lo demo_hi v demo_held.
Proof. destruct demo_run as (v0 & v & E1 & E2). exists v. split; [apply demo_new|]. split; [by num|]. split; [by num|]. exists true, PAGE_SIZE, v0, demo_ops. split_and!; [done|apply demo_ops_ok|done]. Qed.

Lemma vas_client_safe_witness : exists v0 v, demo_create = Ok (Some v0) /\ vas_run true false true (v0, []) demo_ops = Ok (v, demo_held) /\ vas_vaddr_is_allocated v (134283264 + 12287) = Ok true /\ vas_vaddr_is_allocated v (134283264 + 12288) = Ok false.
Proof.
  destruct (vas_client_safe true false true true PAGE_SIZE demo_global (segment_range <$> demo_pages) demo_lo demo_hi demo_new) as (r & E & H); [by num|by num|]. destruct demo_run as (v0 & v & E1 & E2). unfold demo_create in E1. rewrite E in E1. injection E1 as ->.
  destruct (H v0 demo_ops eq_refl demo_ops_ok) as (v' & held & E3 & _ & _ & H4 & _). rewrite E2 in E3. injection E3 as <- <-. exists v0, v. split_and!; [done|done| |].
  - destruct (H4 (134283264 + 12287)) as (b & -> & Hb); [by num|]. f_equal. apply Hb. exists 134283264, 12288, 65536. split; [|lia]. by repeat (apply list_elem_of_here || apply list_elem_of_further).
  - destruct (H4 (134283264 + 12288)) as (b & -> & Hb); [by num|]. f_equal. apply not_true_is_false. intros (x & n & al & Hin & Hx)%Hb. unfold demo_held in Hin. rewrite !elem_of_cons in Hin. destruct_or! Hin; try (injection Hin as -> -> ->; lia). by apply elem_of_nil in Hin.
Defined.
Lemma vas_free_exact_witness : exists v, (exists v', vas_free true false true v 1 268435456 134217728 = Ok v') /\ vas_free true false true v 1 268435456 4096 = Panic.
Proof.
  destruct demo_reached as [v Hr]. exists v. split.
  - destruct (vas_free_exact true false true demo_global _ demo_lo demo_hi v demo_held true 1 268435456 134217728 Hr) as [(_ & v' & E & _)|[[] _]]; [cbn; lia|by num|by num|by exists v'|]. exists 4096. by repeat (apply list_elem_of_here || apply list_elem_of_further).
  - destruct (vas_free_exact true false true demo_global _ demo_lo demo_hi v demo_held true 1 268435456 4096 Hr) as [([al Hin] & _)|[_ E]]; [cbn; lia|by num|by num| |done]. unfold demo_held in Hin. rewrite !elem_of_cons in Hin. destruct_or! Hin; try (injection Hin; lia). by apply elem_of_nil in Hin.
Defined.
Lemma vas_destroy_exact_witness : exists v v', vas_destroy true false v = Ok (v', false).
Proof.
  destruct demo_reached as [v Hr]. destruct (vas_destroy_exact true false true demo_global _ demo_lo demo_hi v demo_held Hr) as (v' & b & E & Hb). exists v, v'. rewrite E. do 2 f_equal. apply not_true_is_false. by intros ?%Hb.
Defined.
